(* ===== verification/_CoqProject ===== *)
-Q . S2P
Prelude.v
Str.v
Keys.v
Casemap.v
Mask.v
Num.v
Message.v
Parse.v
Sanitize.v
Framing.v
Base64.v
Sasl.v
Isupport.v
Time.v
Wire.v
Link.v
Frames.v
Recency.v
Timer.v
Queue.v
Paced.v
Middle.v
ListFilter.v
ListCursor.v
Meter.v
HistoryRequest.v
Multimap.v
Session.v
SessionStore.v
Nicks.v
Ip.v
Address.v
Proxy.v
BanMask.v
Channel.v
HistoryRing.v
HotHistory.v
ChannelState.v
Directories.v
Publish.v
Users.v
Registry.v
Events.v
ModeChange.v
ModeReplay.v
ChannelOps.v
Multiline.v
Deliver.v
Cap.v
ChannelSafety.v
OneShard.v
Identity.v
Handshake.v
HandshakeSafety.v
HandshakeRun.v
SaslExchange.v
Names.v
UpstreamIdentity.v
ChannelViews.v
SessionState.v
ViewsFollow.v
Rejoin.v
Replies.v
NickRegain.v
Backlog.v
Echoes.v
Runner.v
Attach.v
