(* ===== verification/Prelude.v ===== *)
(** * e6irc: the protocol layer and the core of an IRC server

    e6irc is an IRC server in Rust.  Clients connect to an edge process, which
    frames, meters and forwards their lines over a binary link; the core, in
    shards, keeps the sessions and channels and runs the commands; a small
    protocol crate holds the grammar both share.  A bouncer in the same server
    keeps an account's sessions on other networks.  This library models the
    protocol crate, the link, the edge's admission rules, the core's state with
    the channel commands, and what the bouncer keeps of an upstream session,
    and proves the properties that make them correct.  Each file opens with what it models; the parts are these.

    ** The protocol crate ([crates/e6irc-proto/src])

    - [Casemap] ([casemap.rs]), [Mask] ([mask.rs]): folding and the glob
      matcher.  The matcher is the source's loop of three indices; it decides
      the declarative relation [glob_match] and ends within a quadratic number
      of turns.
    - [Message], [Parse] ([message.rs]): budgets, truncation, the parser and
      tag escaping.  The parser accepts exactly the well-formed messages: what
      it returns is well-formed, and every well-formed message written by the
      grammar parses back to itself.
    - [Framing] ([framing.rs]): the line buffer; any chunking of a stream gives
      the events the whole stream specifies.
    - [Base64], [Sasl], [Isupport], [Time], [Num]: the encodings ([base64.rs],
      [sasl.rs], [isupport.rs], [time.rs]), by round trips and by agreement
      with the formats written as printers; the calendar against counting days
      one by one.

    ** The edge-to-core link ([crates/e6irc-link/src])

    - [Wire] ([wire.rs]), [Link] ([lib.rs]), [Frames] ([core_frames.rs],
      [edge_frames.rs]): writers and readers, the frame codec over the [Codec]
      interface with its laws, and both directions' frames, which discharge
      them: frames round-trip, decode only from their own encoding, and a
      refused frame leaves the buffer as it was.

    ** The edge ([crates/e6irc-edge/src])

    - [Meter] ([meter.rs]): the token bucket, with its rate bound.
    - [Ip], [Address] ([address.rs]): addresses, limit keys, trusted proxies,
      the connection limiter and the refusal log.  The [ipnet] crate is the
      class [IpNet], its documented meaning the class [IpNetLaws].
    - [Proxy] ([proxy_protocol.rs], [address.rs]): the PROXY header and the
      forwarded headers; where the header with the honest entry is text, the
      client it names is the one the trusted proxies saw, whatever else the
      client writes.

    ** The queue between tasks ([crates/e6irc-queue/src])

    - [Queue] ([lib.rs]): the byte-bounded queue under any interleaving of
      polls, cancellations and drops, with wakers as values: no wake-up is lost,
      every accepted event is popped or taken back once, in the order of the
      mode it is in, and the depth stays within its bounds.

    ** The core's data structures ([crates/e6ircd/src])

    - [Recency] ([recency.rs]), [Timer] ([core/timer.rs]), [Paced]
      ([core/paced.rs]), [ListFilter], [ListCursor] ([core/list.rs]), [Middle]
      ([core/middle.rs]), [HistoryRequest] ([core/history_request.rs]): each
      refines a plain specification (a list in recency order, a flat list of
      timers) or is characterised on every input.  The cursor of a paced LIST
      runs against shards whose channels come and go and that answer with pages
      read after a key ([chanops.rs], [channel_list_page]).
    - [HistoryRing], [HotHistory] ([core/hot_history.rs]): the rings hold the
      newest part of what they were given; the store's indexes and byte counts
      stay consistent, so no subtraction underflows and no [expect] fails.
    - [Session], [SessionStore], [Nicks], [Users], [Registry], [BanMask]
      ([core/state.rs], [core/banmask.rs]): sessions and their slots, nick
      reservations, the user directory, registered channels and ban masks, each
      against a plain map or list under every sequence of operations.
    - [Channel], [ChannelState], [Directories], [Publish] ([core/state.rs]): a
      channel's modes, members and lists; what is published of it to the other
      shards; and that after every event what is published is the channel as it
      is, so WHO and WHOIS, answered from it, disclose exactly what the
      channel's owner would.

    ** The channel commands ([crates/e6ircd/src/core/handler])

    - [Events] ([state.rs], [Caps] to [MsgidSource]): event lines, their tags
      per capability, the broadcast that renders each variant once, message
      ids.
    - [ModeChange], [ModeReplay] ([channel.rs], [channel_mode_by]): the MODE
      command; a client that decodes the announced lines holds the channel's
      modes, lists and ranks.
    - [ChannelOps], [ChannelSafety] ([channel.rs], [chanops.rs]): JOIN, PART,
      KICK, INVITE, KNOCK, TOPIC, MODE, services' locks and departures where
      the channel is owned; a JOIN is refused for the first rule that fails.
      The commands act on channels by a few elementary
      steps ([chan_step]), and the invariants are proved on the steps.
    - [Sanitize] ([sanitize.rs]): what makes foreign text safe on the wire:
      names, hosts, tags, channel names.  A source written from its parts reads
      back as those parts; the tags relayed are exactly those that may be.
    - [Multiline], [Deliver] ([message.rs]): multiline batches and their
      rendering, the gate a message passes, who is sent it, what history and
      the database are given.  A batch split to fit the wire reassembles to the
      text that was sent, and no cutting hides a CTCP; every member a message
      is for is sent one copy under one id, and history keeps what was
      delivered.
    - [OneShard] ([cmd_join], [cmd_part], [cmd_kick]): the commands with the
      sessions that send them, their target lists and indexes, and the
      publication that ends each event, composed into one server.

    ** Registration and authentication ([crates/e6ircd/src/core/handler])

    - [Cap] ([registration.rs], [mod.rs]): capability negotiation; a request
      applies whole or not at all.
    - [Identity] ([identity.rs]): passwords, names and contact addresses an
      account may be given.
    - [Handshake] ([registration.rs], [sasl.rs], [services.rs], [admin.rs]):
      from the opening of a connection to its welcome and its login: NICK,
      USER, PASS, CAP, AUTHENTICATE, REGISTER, NickServ's IDENTIFY, REGISTER
      and LOGOUT, the verdicts of the store and its answers to the creation of
      accounts, nick protection with its renames, revocations, suspensions, ticks
      and closing.  A handler is a computation on the shard's state that
      collects its effects and fails where the source panics.
    - [HandshakeSafety], [HandshakeRun]: the invariant and that every handler
      keeps it, by rules for computations ([ok], [oks]); then any run of
      events from the empty shard ([reaches]): nothing panics, one welcome,
      through the gate, a bounded number of checks, and logins only by
      verdicts whose credentials stand by the history of the whole run or by
      the creation of the account.
    - [SaslExchange] ([e6irc-client/src/lib.rs]): the client's side of a SASL
      response, which the server reassembles to what was sent.

    ** The bouncer ([crates/e6ircd/src/bouncer])

    - [Names] ([e6irc-client/src/names.rs]): a network's naming rules, as its
      005 lines declare them, under which everything below compares names.
    - [UpstreamIdentity] ([upstream_identity.rs]): the grammars of what the
      bouncer presents to an upstream: nick, user name, channels, keys,
      accounts.
    - [ChannelViews] ([channel_views.rs]), [SessionState] ([mod.rs],
      [IrcSessionState]): the session as its lines tell it: nick, channels,
      features, naming rules, and each channel's topic and members.  Whatever
      an upstream sends, tracking does not fail and stays within its bounds
      ([session_tracked]), under the one assumption the code leaves unchecked,
      that PREFIX has a mode for each symbol.
    - [ViewsFollow]: an abstract network of channels and members; a session
      told of its events by the lines the protocol has for them holds exactly
      the network's members.
    - [Rejoin] ([irc_driver.rs], [JoinedChannels], [join_lines], [track]): the
      channels meant to be in, with their keys, across reconnects; the JOIN
      lines sent read back as exactly those, each key its channel's.
    - [Replies] ([replies.rs]): which attached client an upstream line answers.
      A line is given only to a client that asked, and, from an upstream that
      answers in order, each to the one whose query it answers, unless it names
      what another pending query is about.
    - [NickRegain] ([nick_regain.rs]): the wait for a nickname held by another:
      paced, woken exactly when due, and ended at its window.
    - [Backlog] ([mod.rs], [Buffer]): the ring of recent lines, its cursors and
      replays; a client resumes with exactly what was retained since, unless
      the ring was emptied, and the state the replay starts in is advanced by
      exactly what left the ring.
    - [Echoes] ([irc_driver.rs], [UpstreamEchoes]): each delivery of a client's
      message is echoed at most once, by the upstream's echo of its text or
      here; [ledger] says which echo is taken for which delivery, and the
      echoes made here or relayed never carry a secret.
    - [Runner] ([mod.rs], [NetworkRuntime], [Backoff], [run_with_backoff]): the
      status of a connection and the schedule of its redials, with the
      floating-point share of each delay; an attached client shows the status
      the network is in, except while it dials again.
    - [Attach] ([mod.rs], [DriverEnds], [subscribe_with_replay_snapshot]): the
      session, the ring and what is told live, under one lock; a client played
      the backlog ends in the session as it is, under the provisos of
      [replay_ends_live], outside which the code does not keep it.

    A [HashMap]'s order of iteration is its own: what depends on it takes the
    order as an argument, any that [iterates] the map.  An [Instant] is an
    integer of nanoseconds.

    ** How the code is rendered

    A [&str] or [Vec<u8>] is a list of bytes ([str]); Rust's character and
    UTF-8 operations are in [Str].  Machine integers are [Z] with their
    wrap-around, saturation or checks written out where they can matter.
    [HashMap] and [HashSet] are stdpp's [gmap] and [gset]; [Multimap] holds the
    map of sets four of the source's indexes are.  An operation that mutates
    returns the state after it; a [Result] is [result] below, and [None] in an
    operation's result stands for a panic, so that totality is part of each
    theorem.  Logs, metrics and the text of numerics are left out; the refusals
    they report are values.

    Loops that are not structural take fuel: the glob matcher
    ([(|text|+2)*(|pattern|+2)] turns, by the measure of its backtracking), the timer
    wheel's advance (one turn per tick passed, at most one revolution), eviction
    (one turn per ring held), eviction from a backlog (one turn per entry held),
    the room made for an invitation (one turn per
    holder), UTF-8 decoding and the splitting of a long line (one turn per
    byte), the removal of formatting from a services notice (one turn per
    character), and the check of a protected nick (two, since the nick a rename
    ends on is protected by nobody).  Each has a lemma that its fuel is enough.

    ** Not modelled

    The database, the HTTP surface, TLS and sockets, the clients and the load
    generator: I/O against third-party services.  Of the bouncer: the bridges
    to other services, the persistence of backlogs, the lines written to a client
    that is reconciled, and the tasks that read and write the sockets around
    the state modelled here.  Of the core: the loop of
    a message command over its targets, the other services and operator
    commands, the limiter of registrations (a boolean of the environment), the
    output held back while an answer is awaited, NAMES and WHO composition, and
    the requests by which one shard asks another. *)

From stdpp Require Export base tactics list sets.
From Stdlib Require Export Strings.Byte.
From Stdlib Require Export ZArith Lia.
From Stdlib Require Import Sorting.Sorted.
From Stdlib Require Strings.String.
Export Strings.String.StringSyntax.

#[global] Open Scope list_scope.

(** ** Results

    Rust's [Result<A, E>], with the error type first so that [result E] is a
    monad; [x ← e; k] is the [?] operator. *)

Inductive result (E A : Type) : Type :=
| Ok (a : A)
| Err (e : E).
Arguments Ok {E A} a.
Arguments Err {E A} e.

#[global] Instance result_ret {E} : MRet (result E) := fun _ a => Ok a.
#[global] Instance result_bind {E} : MBind (result E) := fun _ _ f m =>
  match m with Ok a => f a | Err e => Err e end.
#[global] Instance result_fmap {E} : FMap (result E) := fun _ _ f m =>
  match m with Ok a => Ok (f a) | Err e => Err e end.

#[global] Instance result_eq_dec {E A} `{EqDecision E, EqDecision A} :
  EqDecision (result E A).
Proof. solve_decision. Defined.

(** [Option::ok_or]. *)
Definition ok_or {E A} (e : E) (o : option A) : result E A :=
  match o with Some a => Ok a | None => Err e end.

(** [Result::ok]. *)
Definition result_ok {E A} (r : result E A) : option A :=
  match r with Ok a => Some a | Err _ => None end.

Definition is_ok {E A} (r : result E A) : bool :=
  match r with Ok _ => true | Err _ => false end.

(** [assert]-like guards: [guard_opt] continues only when the test holds. *)
Definition guard_opt (b : bool) : option unit := if b then Some () else None.

(** ** Bytes *)

Abbreviation str := (list byte).

#[global] Instance byte_eq_decision : EqDecision byte := Byte.byte_eq_dec.

(** A string literal as its bytes. *)
Definition bs (s : String.string) : str := String.list_byte_of_string s.
#[global] Arguments bs s%_string_scope.

(** A byte as the integer [u8] holds, and the [as u8] cast. *)
Definition bz (b : byte) : Z := Z.of_N (Byte.to_N b).
Definition u8 (z : Z) : byte :=
  match Byte.of_N (Z.to_N (z mod 256)) with Some b => b | None => x00 end.

Declare Scope irc_scope.
Delimit Scope irc_scope with irc.
#[global] Open Scope irc_scope.
Infix "=b?" := Byte.eqb (at level 70, no associativity) : irc_scope.

(** [lo..=hi] on bytes. *)
Definition in_range (lo hi b : byte) : bool := ((bz lo <=? bz b) && (bz b <=? bz hi))%Z.

Definition is_ascii_uppercase (b : byte) : bool := in_range "A" "Z" b.
Definition is_ascii_lowercase (b : byte) : bool := in_range "a" "z" b.
Definition is_ascii_alphabetic (b : byte) : bool := is_ascii_uppercase b || is_ascii_lowercase b.
Definition is_ascii_digit (b : byte) : bool := in_range "0" "9" b.
Definition is_ascii_alphanumeric (b : byte) : bool := is_ascii_alphabetic b || is_ascii_digit b.
Definition is_ascii_hexdigit (b : byte) : bool :=
  is_ascii_digit b || in_range "A" "F" b || in_range "a" "f" b.
Definition is_ascii (b : byte) : bool := (bz b <? 128)%Z.

(** The line feed, carriage return and NUL that no IRC line may carry. *)
Definition LF : byte := x0a.
Definition CR : byte := x0d.
Definition NUL : byte := x00.
Definition BACKSLASH : byte := x5c.

(** ** Machine integers

    [u64] values are integers in [[0, 2^64)]; the saturating operations are
    written out where the source uses them. *)

Definition U32_MAX : Z := (2 ^ 32 - 1)%Z.
Definition U64_MAX : Z := (2 ^ 64 - 1)%Z.
Definition saturating_sub (a b : Z) : Z := Z.max 0 (a - b).
Definition saturating_add (a b : Z) : Z := Z.min U64_MAX (a + b).
Definition saturating_mul (a b : Z) : Z := Z.min U64_MAX (a * b).
Definition checked_mul_u64 (a b : Z) : option Z :=
  if (a * b <=? U64_MAX)%Z then Some (a * b)%Z else None.
Definition checked_add_u64 (a b : Z) : option Z :=
  if (a + b <=? U64_MAX)%Z then Some (a + b)%Z else None.

(** ** Automation *)

Create HintDb irc.
Create Rewrite HintDb irc.

(** Case analysis over all 256 bytes, for decidable facts about one byte. *)
Ltac byte_cases b := destruct b; try reflexivity; try discriminate.

(** Split on the scrutinee of a match or if of the goal or of a hypothesis. *)
Ltac break_match :=
  match goal with
  | |- context [match ?x with _ => _ end] => destruct x eqn:?
  end.
Ltac break_match_in H :=
  match type of H with
  | context [match ?x with _ => _ end] => destruct x eqn:?
  end.
Ltac break_hyps :=
  repeat match goal with
  | H : context [match ?x with _ => _ end] |- _ => destruct x eqn:?; simplify_eq/=
  end.

(** Turn boolean connectives and comparisons of the context into
    propositions. *)
Ltac bool_to_prop :=
  repeat match goal with
  | H : _ && _ = true |- _ => apply andb_true_iff in H as [? ?]
  | H : _ || _ = false |- _ => apply orb_false_iff in H as [? ?]
  | H : negb _ = true |- _ => apply negb_true_iff in H
  | H : negb _ = false |- _ => apply negb_false_iff in H
  | H : (_ <=? _)%Z = true |- _ => apply Z.leb_le in H
  | H : (_ <=? _)%Z = false |- _ => apply Z.leb_gt in H
  | H : (_ <? _)%Z = true |- _ => apply Z.ltb_lt in H
  | H : (_ <? _)%Z = false |- _ => apply Z.ltb_ge in H
  | H : (_ =? _)%Z = true |- _ => apply Z.eqb_eq in H
  | H : (_ =? _)%Z = false |- _ => apply Z.eqb_neq in H
  | H : (_ <=? _)%nat = true |- _ => apply Nat.leb_le in H
  | H : (_ <=? _)%nat = false |- _ => apply Nat.leb_gt in H
  | H : (_ <? _)%nat = true |- _ => apply Nat.ltb_lt in H
  | H : (_ <? _)%nat = false |- _ => apply Nat.ltb_ge in H
  | H : (_ =? _)%nat = true |- _ => apply Nat.eqb_eq in H
  | H : (_ =? _)%nat = false |- _ => apply Nat.eqb_neq in H
  | H : (_ =b? _) = true |- _ => apply byte_dec_bl in H
  end.

(** ** Byte lemmas *)

Lemma byte_eqb_refl b : (b =b? b) = true.
Proof. by apply byte_dec_lb. Qed.

Lemma byte_eqb_spec a b : reflect (a = b) (a =b? b).
Proof.
  destruct (a =b? b) eqn:E; constructor.
  - by apply byte_dec_bl.
  - intros ->. by rewrite byte_eqb_refl in E.
Qed.

Lemma byte_eqb_neq a b : (a =b? b) = false <-> a <> b.
Proof. destruct (byte_eqb_spec a b); naive_solver. Qed.

Lemma byte_eqb_eq a b : (a =b? b) = true <-> a = b.
Proof. destruct (byte_eqb_spec a b); naive_solver. Qed.

#[export] Hint Rewrite byte_eqb_refl : irc.

Lemma bz_range b : (0 <= bz b < 256)%Z.
Proof. unfold bz. pose proof (to_N_bounded b). lia. Qed.

Lemma u8_bz b : u8 (bz b) = b.
Proof.
  unfold u8, bz. pose proof (to_N_bounded b).
  rewrite Z.mod_small by lia. rewrite N2Z.id. by rewrite of_to_N.
Qed.

Lemma bz_u8 z : bz (u8 z) = (z mod 256)%Z.
Proof.
  unfold u8, bz. pose proof (Z.mod_pos_bound z 256 eq_refl).
  destruct (Byte.of_N _) eqn:E.
  - apply to_of_N in E. rewrite E. lia.
  - apply of_N_None_iff in E. lia.
Qed.

Lemma bz_inj a b : bz a = bz b -> a = b.
Proof. intros H. by rewrite <- (u8_bz a), <- (u8_bz b), H. Qed.

Lemma u8_small z b : (0 <= z < 256)%Z -> u8 z = b <-> z = bz b.
Proof.
  intros Hz. split.
  - intros <-. rewrite bz_u8. by rewrite Z.mod_small.
  - intros ->. apply u8_bz.
Qed.

Lemma in_range_spec lo hi b :
  in_range lo hi b = true <-> (bz lo <= bz b <= bz hi)%Z.
Proof. unfold in_range. rewrite andb_true_iff, !Z.leb_le. done. Qed.

(** ** Bit lemmas *)

Open Scope Z_scope.
Lemma lor_shiftl_add a b k :
  0 <= k -> 0 <= b < 2 ^ k -> Z.lor (Z.shiftl a k) b = a * 2 ^ k + b.
Proof.
  intros Hk Hb. pose proof (Z.add_lor_land (Z.shiftl a k) b) as H.
  assert (Z.land (Z.shiftl a k) b = 0) as Hz.
  { apply Z.bits_inj'. intros i Hi. rewrite Z.bits_0, Z.land_spec.
    destruct (Z.ltb_spec i k).
    - by rewrite Z.shiftl_spec_low.
    - rewrite <- (Z.mod_small b (2 ^ k)) by done.
      rewrite Z.mod_pow2_bits_high by lia. apply andb_false_r. }
  rewrite Hz, Z.shiftl_mul_pow2 in H by done.
  rewrite Z.shiftl_mul_pow2 by done. lia.
Qed.
Close Scope Z_scope.

(** ** List lemmas *)

Lemma forallb_true_iff {A} (f : A -> bool) l :
  forallb f l = true <-> Forall (fun x => f x = true) l.
Proof. rewrite forallb_forall, List.Forall_forall. done. Qed.

Lemma existsb_false_iff {A} (f : A -> bool) l :
  existsb f l = false <-> Forall (fun x => f x = false) l.
Proof.
  induction l as [|x l IH]; cbn; [naive_solver|].
  rewrite orb_false_iff, IH, Forall_cons. done.
Qed.

Lemma elem_of_snoc {A} (x y : A) l : x ∈ l ++ [y] <-> x ∈ l \/ x = y.
Proof. rewrite elem_of_app, list_elem_of_singleton. done. Qed.

(** Rust's [filter] and [retain] on a boolean test. *)
Lemma filter_ext_in {A} (f g : A -> bool) l :
  (forall x, x ∈ l -> f x = g x) -> List.filter f l = List.filter g l.
Proof. intros Hfg. apply List.filter_ext_in. intros x Hx. apply Hfg. by apply list_elem_of_In. Qed.

Lemma filter_filter_and {A} (f g : A -> bool) l :
  List.filter f (List.filter g l) = List.filter (fun x => g x && f x) l.
Proof.
  induction l as [|x l IH]; [done|]. cbn. destruct (g x); cbn; [|done]. by destruct (f x); rewrite IH.
Qed.

Lemma elem_of_Lfilter {A} (f : A -> bool) l x : x ∈ List.filter f l <-> x ∈ l /\ f x = true.
Proof. rewrite !list_elem_of_In. apply List.filter_In. Qed.

Lemma NoDup_Lfilter {A} (f : A -> bool) (l : list A) : NoDup l -> NoDup (List.filter f l).
Proof. rewrite !NoDup_ListNoDup. apply List.NoDup_filter. Qed.

Lemma Forall_Lfilter {A} (P : A -> Prop) (f : A -> bool) l : Forall P l -> Forall P (List.filter f l).
Proof. rewrite !Forall_forall. intros H x [Hx _]%elem_of_Lfilter. auto. Qed.

Lemma Lfilter_partition {A} (f : A -> bool) l :
  List.filter f l ++ List.filter (fun x => negb (f x)) l ≡ₚ l.
Proof.
  induction l as [|x l IH]; [done|]. cbn. destruct (f x); cbn; [by rewrite IH|].
  rewrite <- Permutation_middle. by rewrite IH.
Qed.

(** Taking [g] first and then [f] of the rest takes [f], when [g] implies it. *)
Lemma Lfilter_absorb {A} (f g : A -> bool) l :
  (forall x, g x = true -> f x = true) ->
  List.filter g l ++ List.filter f (List.filter (fun x => negb (g x)) l) ≡ₚ List.filter f l.
Proof.
  intros Hgf. induction l as [|x l IH]; [done|]. cbn. destruct (g x) eqn:Eg; cbn.
  - rewrite (Hgf x Eg). by rewrite IH.
  - destruct (f x); [|done]. by rewrite <- Permutation_middle, IH.
Qed.

(** Keeping what [g] drops and then what [f] drops keeps what [f] drops. *)
Lemma Lfilter_keep {A} (f g : A -> bool) l :
  (forall x, g x = true -> f x = true) ->
  List.filter (fun x => negb (f x)) (List.filter (fun x => negb (g x)) l)
  = List.filter (fun x => negb (f x)) l.
Proof.
  intros Hgf. rewrite filter_filter_and. apply filter_ext_in. intros x _.
  destruct (g x) eqn:Eg; [|done]. by rewrite (Hgf x Eg).
Qed.

Lemma Lfilter_Permutation {A} (f : A -> bool) l l' :
  l ≡ₚ l' -> List.filter f l ≡ₚ List.filter f l'.
Proof.
  induction 1 as [|x l l' _ IH|x y l|l1 l2 l3 _ IH1 _ IH2]; cbn; [done|..].
  - destruct (f x); by rewrite IH.
  - destruct (f x), (f y); (apply Permutation_swap || done).
  - by rewrite IH1.
Qed.

Lemma Lfilter_all {A} (f : A -> bool) l : Forall (fun x => f x = true) l -> List.filter f l = l.
Proof. induction 1 as [|x l Hx HF IH]; [done|]. cbn. by rewrite Hx, IH. Qed.

Lemma Lfilter_none {A} (f : A -> bool) l : Forall (fun x => f x = false) l -> List.filter f l = [].
Proof. induction 1 as [|x l Hx HF IH]; [done|]. cbn. by rewrite Hx, IH. Qed.

Lemma StronglySorted_snoc {A} (R : A -> A -> Prop) l x :
  StronglySorted R l -> Forall (fun y => R y x) l -> StronglySorted R (l ++ [x]).
Proof.
  induction 1 as [|y l Hl IH Hy]; intros Hf; cbn; [repeat constructor|].
  apply Forall_cons in Hf as [Hyx Hf]. constructor; [by apply IH|].
  apply Forall_app. split; [done|]. by apply Forall_singleton.
Qed.

Lemma StronglySorted_app_l {A} (R : A -> A -> Prop) l k : StronglySorted R (l ++ k) -> StronglySorted R l.
Proof.
  induction l as [|x l IH]; cbn; [constructor|]. inversion 1 as [|? ? Hs Hf]; subst.
  apply Forall_app in Hf as [? _]. constructor; auto.
Qed.

(** [Option::and_then] chains end in [Some] only when every link does. *)
Lemma guard_opt_Some b u : guard_opt b = Some u <-> b = true.
Proof. destruct b, u; naive_solver. Qed.

(** ** Runs and simulation

    A component is a step function from a state and an operation to an answer
    and a state; a run collects the answers.  Two components whose steps answer
    alike and preserve a relation answer every sequence of operations alike. *)

Fixpoint runs {S Op Out} (step : S -> Op -> Out * S) (s : S) (ops : list Op) : list Out * S :=
  match ops with
  | [] => ([], s)
  | op :: ops =>
      let '(out, s) := step s op in
      let '(outs, s) := runs step s ops in (out :: outs, s)
  end.

Lemma runs_simulate {S1 S2 Op Out} (step1 : S1 -> Op -> Out * S1) (step2 : S2 -> Op -> Out * S2)
    (ok : Op -> Prop) (R : S1 -> S2 -> Prop) :
  (forall s1 s2 op, R s1 s2 -> ok op ->
    fst (step1 s1 op) = fst (step2 s2 op) /\ R (snd (step1 s1 op)) (snd (step2 s2 op))) ->
  forall ops s1 s2, Forall ok ops -> R s1 s2 ->
    fst (runs step1 s1 ops) = fst (runs step2 s2 ops)
    /\ R (snd (runs step1 s1 ops)) (snd (runs step2 s2 ops)).
Proof.
  intros Hstep. induction ops as [|op ops IH]; intros s1 s2 Hok HR; [done|]. cbn [runs].
  apply Forall_cons in Hok as [Hop Hok].
  destruct (Hstep s1 s2 op HR Hop) as [Hout HR'].
  destruct (step1 s1 op) as [o1 s1'], (step2 s2 op) as [o2 s2']. cbn [fst snd] in *.
  destruct (IH s1' s2' Hok HR') as [Houts HR''].
  destruct (runs step1 s1' ops), (runs step2 s2' ops). cbn [fst snd] in *. by subst.
Qed.

(** A property of states every step preserves holds after every run. *)
Lemma runs_invariant {S Op Out} (step : S -> Op -> Out * S) (ok : Op -> Prop) (I : S -> Prop) :
  (forall s op, I s -> ok op -> I (snd (step s op))) ->
  forall ops s, Forall ok ops -> I s -> I (snd (runs step s ops)).
Proof.
  intros Hstep ops s Hok HI.
  destruct (runs_simulate step step ok (fun a b => a = b /\ I b)) with ops s s as (_ & _ & ?); auto.
  intros a ? op [-> ?] ?. auto.
Qed.
