(* ===== verification/Str.v ===== *)
(** * Rust's string and slice primitives

    The operations of [str], [[u8]] and [String] that the sources call, on
    strings as lists of bytes: splitting, stripping, joining, and the UTF-8
    layer (validation, lossy decoding, character boundaries).

    A [&str] is a byte list that satisfies [utf8_valid].  Every separator the
    sources split on is ASCII, and no byte of a multi-byte character is ASCII
    ([chunk_high] below), so the byte-level definitions agree with Rust's
    character-level ones. *)

From S2P Require Import Prelude.

(** ** Splitting and stripping *)

(** [s.split_once(c)]. *)
Fixpoint split_once (c : byte) (s : str) : option (str * str) :=
  match s with
  | [] => None
  | b :: s' =>
      if b =b? c then Some ([], s')
      else match split_once c s' with
           | Some (pre, post) => Some (b :: pre, post)
           | None => None
           end
  end.

(** [s.rsplit_once(c)]. *)
Fixpoint rsplit_once (c : byte) (s : str) : option (str * str) :=
  match s with
  | [] => None
  | b :: s' =>
      match rsplit_once c s' with
      | Some (pre, post) => Some (b :: pre, post)
      | None => if b =b? c then Some ([], s') else None
      end
  end.

(** [s.split(c)], collected: never the empty list. *)
Fixpoint split (c : byte) (s : str) : list str :=
  match s with
  | [] => [[]]
  | b :: s' =>
      if b =b? c then [] :: split c s'
      else match split c s' with
           | piece :: pieces => (b :: piece) :: pieces
           | [] => [[b]]
           end
  end.

(** [pieces.join(c)]. *)
Fixpoint join (c : byte) (pieces : list str) : str :=
  match pieces with
  | [] => []
  | [piece] => piece
  | piece :: pieces' => piece ++ c :: join c pieces'
  end.

(** [s.strip_prefix(p)]. *)
Fixpoint strip_prefix (p s : str) : option str :=
  match p, s with
  | [], _ => Some s
  | _ :: _, [] => None
  | a :: p', b :: s' => if a =b? b then strip_prefix p' s' else None
  end.

(** [s.strip_prefix(c)] for a one-byte character. *)
Definition strip_byte (c : byte) (s : str) : option str :=
  match s with
  | b :: s' => if b =b? c then Some s' else None
  | [] => None
  end.

(** [s.strip_suffix(c)] for a one-byte character. *)
Definition strip_suffix_byte (c : byte) (s : str) : option str :=
  match last s with
  | Some b => if b =b? c then Some (removelast s) else None
  | None => None
  end.

Definition starts_with (c : byte) (s : str) : bool :=
  match s with b :: _ => b =b? c | [] => false end.

Definition ends_with (c : byte) (s : str) : bool :=
  match last s with Some b => b =b? c | None => false end.

(** [s.trim_start_matches(c)]. *)
Fixpoint trim_start_matches (c : byte) (s : str) : str :=
  match s with
  | b :: s' => if b =b? c then trim_start_matches c s' else s
  | [] => []
  end.

(** [s.contains(c)] for a one-byte character. *)
Definition contains_byte (c : byte) (s : str) : bool := existsb (fun b => b =b? c) s.

(** [s.iter().position(|b| *b == c)]. *)
Fixpoint position (c : byte) (s : str) : option nat :=
  match s with
  | [] => None
  | b :: s' => if b =b? c then Some O else option_map S (position c s')
  end.

Definition is_empty {A} (s : list A) : bool := match s with [] => true | _ => false end.

Definition str_eqb (a b : str) : bool := bool_decide (a = b).

(** ** UTF-8

    [utf8_next b rest] reads the first character of [b :: rest]: whether it is
    well formed, and how many bytes of [rest] it takes.  For an ill-formed
    sequence that count is the one [core::str::lossy] skips (the maximal
    subpart), so that decoding resumes at the same byte. *)

Definition is_cont (b : byte) : bool := in_range x80 xbf b.

(** The second-byte ranges of the Unicode well-formedness table. *)
Definition second_ok (b0 b1 : byte) : bool :=
  if b0 =b? xe0 then in_range xa0 xbf b1
  else if b0 =b? xed then in_range x80 x9f b1
  else if b0 =b? xf0 then in_range x90 xbf b1
  else if b0 =b? xf4 then in_range x80 x8f b1
  else is_cont b1.

(** [core::str::utf8_char_width]. *)
Definition utf8_char_width (b : byte) : nat :=
  if in_range x00 x7f b then 1
  else if in_range xc2 xdf b then 2
  else if in_range xe0 xef b then 3
  else if in_range xf0 xf4 b then 4
  else 0.

Definition utf8_next (b0 : byte) (rest : str) : bool * nat :=
  match utf8_char_width b0, rest with
  | 1, _ => (true, 0)
  | 2, b1 :: _ => if is_cont b1 then (true, 1) else (false, 0)
  | 3, b1 :: rest' =>
      if second_ok b0 b1 then
        match rest' with
        | b2 :: _ => if is_cont b2 then (true, 2) else (false, 1)
        | [] => (false, 1)
        end
      else (false, 0)
  | 4, b1 :: rest' =>
      if second_ok b0 b1 then
        match rest' with
        | b2 :: rest'' =>
            if is_cont b2 then
              match rest'' with
              | b3 :: _ => if is_cont b3 then (true, 3) else (false, 2)
              | [] => (false, 2)
              end
            else (false, 1)
        | [] => (false, 1)
        end
      else (false, 0)
  | _, _ => (false, 0)
  end.

(** The string cut into its characters and ill-formed sequences, each with
    whether it is well formed.  The fuel is the length: every piece takes at
    least one byte ([chunks_fuel_enough]). *)
Fixpoint chunks_fuel (fuel : nat) (s : str) : list (bool * str) :=
  match fuel, s with
  | S fuel', b :: rest =>
      let '(ok, n) := utf8_next b rest in
      (ok, b :: take n rest) :: chunks_fuel fuel' (drop n rest)
  | _, _ => []
  end.

Definition utf8_chunks (s : str) : list (bool * str) := chunks_fuel (length s) s.

(** [std::str::from_utf8(s).is_ok()]. *)
Definition utf8_valid (s : str) : bool := forallb fst (utf8_chunks s).

#[global] Arguments utf8_chunks : simpl never.
#[global] Arguments utf8_valid : simpl never.

(** [s.chars()]: the characters of a valid string, each as its bytes. *)
Definition chars (s : str) : list str := snd <$> utf8_chunks s.

(** [std::str::from_utf8(s).ok()]. *)
Definition from_utf8 (s : str) : option str := if utf8_valid s then Some s else None.

(** U+FFFD, [char::REPLACEMENT_CHARACTER], as its three bytes. *)
Definition REPLACEMENT : str := [xef; xbf; xbd].

(** [String::from_utf8_lossy]. *)
Definition lossy_chunk (c : bool * str) : str := if fst c then snd c else REPLACEMENT.
Definition from_utf8_lossy (s : str) : str := concat (lossy_chunk <$> utf8_chunks s).

(** [s.is_char_boundary(i)]: the ends, and any byte that does not continue a
    character. *)
Definition is_char_boundary (s : str) (i : nat) : bool :=
  match i with
  | O => true
  | _ => match s !! i with
         | Some b => negb (is_cont b)
         | None => i =? length s
         end
  end.

(** [s.contains(ch)] for a multi-byte character: at byte level, a substring. *)
Fixpoint is_prefix_of (p s : str) : bool :=
  match p, s with
  | [], _ => true
  | a :: p', b :: s' => (a =b? b) && is_prefix_of p' s'
  | _, [] => false
  end.

Fixpoint contains_sub (p s : str) : bool :=
  is_prefix_of p s || match s with [] => false | _ :: s' => contains_sub p s' end.

(** [s.chunks(k)]: the length is fuel enough for [k > 0]. *)
Fixpoint slice_chunks_fuel (fuel k : nat) (s : str) : list str :=
  match fuel, s with
  | S fuel', _ :: _ => take k s :: slice_chunks_fuel fuel' k (drop k s)
  | _, _ => []
  end.
Definition slice_chunks (k : nat) (s : str) : list str := slice_chunks_fuel (length s) k s.
#[global] Arguments slice_chunks : simpl never.

(** ** Splitting lemmas *)

Lemma split_once_Some c s pre post :
  split_once c s = Some (pre, post) <-> s = pre ++ c :: post /\ c ∉ pre.
Proof.
  revert pre post. induction s as [|b s IH]; intros pre post; cbn.
  { split; [done|]. intros [H _]. by destruct pre. }
  destruct (byte_eqb_spec b c) as [->|Hbc].
  - split.
    + intros [= <- <-]. split; [done|apply not_elem_of_nil].
    + intros [H Hn]. destruct pre as [|p pre]; simplify_eq/=; [done|].
      exfalso. apply Hn. left.
  - destruct (split_once c s) as [[p q]|] eqn:E.
    + split.
      * intros [= <- <-]. destruct (proj1 (IH p q) eq_refl) as [-> Hn].
        split; [done|]. rewrite not_elem_of_cons. naive_solver.
      * intros [H Hn]. destruct pre as [|p0 pre]; simplify_eq/=.
        apply not_elem_of_cons in Hn as [_ Hn].
        pose proof (proj2 (IH pre post) (conj eq_refl Hn)). naive_solver.
    + split; [done|]. intros [H Hn]. destruct pre as [|p0 pre]; simplify_eq/=.
      apply not_elem_of_cons in Hn as [_ Hn].
      by pose proof (proj2 (IH pre post) (conj eq_refl Hn)).
Qed.

Lemma split_once_None c s : split_once c s = None <-> c ∉ s.
Proof.
  induction s as [|b s IH]; cbn.
  { split; [intros _; apply not_elem_of_nil|done]. }
  rewrite not_elem_of_cons. destruct (byte_eqb_spec b c) as [->|Hbc]; [naive_solver|].
  destruct (split_once c s) as [[? ?]|]; naive_solver.
Qed.

Lemma split_once_app c pre post : c ∉ pre -> split_once c (pre ++ c :: post) = Some (pre, post).
Proof. intros. by apply split_once_Some. Qed.

Lemma split_cons_ne c b s :
  b <> c -> exists piece pieces,
    split c s = piece :: pieces /\ split c (b :: s) = (b :: piece) :: pieces.
Proof.
  intros Hbc. cbn. destruct (byte_eqb_spec b c); [done|].
  assert (split c s <> []) as Hne.
  { destruct s as [|a s]; cbn; [done|]. destruct (a =b? c); [done|].
    by destruct (split c s). }
  destruct (split c s) as [|piece pieces]; naive_solver.
Qed.

Lemma split_ne c s : split c s <> [].
Proof.
  destruct s as [|b s]; [done|].
  destruct (decide (b = c)) as [->|Hbc].
  - cbn. by rewrite byte_eqb_refl.
  - by destruct (split_cons_ne c b s Hbc) as (? & ? & _ & ->).
Qed.

(** Joining the pieces gives the string back. *)
Lemma join_split c s : join c (split c s) = s.
Proof.
  induction s as [|b s IH]; [done|].
  destruct (decide (b = c)) as [->|Hbc].
  - cbn. rewrite byte_eqb_refl. pose proof (split_ne c s) as Hne.
    destruct (split c s) eqn:E; [done|]. cbn in *. by rewrite IH.
  - destruct (split_cons_ne c b s Hbc) as (p & ps & E1 & E2).
    rewrite E2. rewrite E1 in IH. rewrite <- IH. by destruct ps.
Qed.

(** No piece holds the separator. *)
Lemma split_no_sep c s : Forall (fun p => c ∉ p) (split c s).
Proof.
  induction s as [|b s IH].
  { constructor; [apply not_elem_of_nil|constructor]. }
  destruct (decide (b = c)) as [->|Hbc].
  - cbn. rewrite byte_eqb_refl. constructor; [apply not_elem_of_nil|done].
  - destruct (split_cons_ne c b s Hbc) as (p & ps & E1 & ->).
    rewrite E1 in IH. inversion IH; subst. constructor; [|done].
    rewrite not_elem_of_cons. naive_solver.
Qed.

Lemma split_app_sep c a s : c ∉ a -> split c (a ++ c :: s) = a :: split c s.
Proof.
  induction a as [|b a IH]; cbn; intros Hn.
  { by rewrite byte_eqb_refl. }
  apply not_elem_of_cons in Hn as [Hbc Hn].
  destruct (byte_eqb_spec b c); [naive_solver|]. by rewrite IH.
Qed.

Lemma split_no_sep_id c a : c ∉ a -> split c a = [a].
Proof.
  induction a as [|b a IH]; cbn; intros Hn; [done|].
  apply not_elem_of_cons in Hn as [Hbc Hn].
  destruct (byte_eqb_spec b c); [naive_solver|]. by rewrite IH.
Qed.

(** Splitting a join gives the pieces back when none holds the separator. *)
Lemma split_app c a b : split c (a ++ c :: b) = split c a ++ split c b.
Proof.
  induction a as [|x a IH]; cbn [app split].
  - by rewrite byte_eqb_refl.
  - destruct (x =b? c); [by rewrite IH|]. rewrite IH. pose proof (split_ne c a). by destruct (split c a).
Qed.

Lemma split_three c a b d :
  c ∉ a -> c ∉ b -> c ∉ d -> split c (a ++ c :: b ++ c :: d) = [a; b; d].
Proof. intros. by rewrite split_app_sep, split_app_sep, split_no_sep_id. Qed.

Lemma split_join c pieces :
  pieces <> [] -> Forall (fun p => c ∉ p) pieces -> split c (join c pieces) = pieces.
Proof.
  induction pieces as [|p ps IH]; [done|]. intros _ HF. inversion HF; subst.
  destruct ps as [|q ps].
  - by apply split_no_sep_id.
  - change (join c (p :: q :: ps)) with (p ++ c :: join c (q :: ps)).
    rewrite split_app_sep by done. rewrite IH by done. done.
Qed.

Lemma length_join c pieces :
  pieces <> [] -> S (length (join c pieces)) = sum_list (S <$> (length <$> pieces)).
Proof.
  induction pieces as [|p ps IH]; [done|]. intros _.
  destruct ps as [|q ps]; [cbn; lia|].
  change (join c (p :: q :: ps)) with (p ++ c :: join c (q :: ps)).
  rewrite length_app. cbn [length]. rewrite IH by done. cbn. lia.
Qed.

(** Dropping pieces never lengthens the join. *)
Lemma length_join_filter c (f : str -> bool) pieces :
  length (join c (List.filter f pieces)) <= length (join c pieces).
Proof.
  destruct (List.filter f pieces) eqn:E; [cbn; lia|]. rewrite <- E.
  assert (pieces <> []) as Hne by (intros ->; done).
  enough (S (length (join c (List.filter f pieces))) <= S (length (join c pieces))) by lia.
  rewrite !length_join by (rewrite ?E; done). clear.
  induction pieces as [|p ps IH]; cbn; [lia|]. destruct (f p); cbn in *; lia.
Qed.

Lemma elem_of_join c l x : x ∈ join c l -> x = c \/ exists p, p ∈ l /\ x ∈ p.
Proof.
  induction l as [|p l IH]; [by intros ?%elem_of_nil|].
  destruct l as [|q l].
  - intros H. right. exists p. by rewrite list_elem_of_singleton.
  - change (join c (p :: q :: l)) with (p ++ c :: join c (q :: l)).
    rewrite elem_of_app, elem_of_cons. intros [H|[->|H]]; [|by left|].
    + right. exists p. by rewrite elem_of_cons; auto.
    + destruct (IH H) as [->|(p' & Hp & Hx)]; [by left|]. right. exists p'.
      rewrite elem_of_cons. auto.
Qed.

Lemma elem_of_split c s p x : p ∈ split c s -> x ∈ p -> x ∈ s.
Proof.
  revert p. induction s as [|b s IH]; intros p.
  { cbn. rewrite list_elem_of_singleton. by intros ->. }
  destruct (decide (b = c)) as [->|Hbc].
  - cbn. rewrite byte_eqb_refl, elem_of_cons. intros [->|Hp] Hx; [by apply elem_of_nil in Hx|].
    right. eauto.
  - destruct (split_cons_ne c b s Hbc) as (q & qs & E1 & ->).
    rewrite E1 in IH. rewrite !elem_of_cons. intros [->|Hp] Hx.
    + apply elem_of_cons in Hx as [->|Hx]; [by left|]. right. eapply IH; [|done]. left.
    + right. eapply IH; [|done]. by right.
Qed.

Lemma strip_byte_Some c s s' : strip_byte c s = Some s' <-> s = c :: s'.
Proof.
  destruct s as [|b s]; cbn; [naive_solver|].
  destruct (byte_eqb_spec b c); naive_solver.
Qed.

Lemma strip_byte_None c s : strip_byte c s = None <-> starts_with c s = false.
Proof. destruct s as [|b s]; cbn; [done|]. by destruct (b =b? c). Qed.

Lemma strip_prefix_Some p s s' : strip_prefix p s = Some s' <-> s = p ++ s'.
Proof.
  revert s. induction p as [|a p IH]; intros s; cbn; [naive_solver|].
  destruct s as [|b s]; [naive_solver|].
  destruct (byte_eqb_spec a b) as [->|]; [|naive_solver].
  rewrite IH. naive_solver.
Qed.

Lemma strip_suffix_byte_Some c s s' : strip_suffix_byte c s = Some s' <-> s = s' ++ [c].
Proof.
  unfold strip_suffix_byte. destruct s as [|x s _] using rev_ind; cbn.
  { split; [done|]. by destruct s'. }
  rewrite last_snoc, removelast_last. destruct (byte_eqb_spec x c) as [->|].
  - split; [by intros [= ->]|]. intros [? _]%app_inj_2; naive_solver.
  - split; [done|]. intros [_ ?]%app_inj_2; naive_solver.
Qed.

Lemma position_split c s n :
  position c s = Some n -> split_once c s = Some (take n s, drop (S n) s).
Proof.
  revert n. induction s as [|b s IH]; intros n; cbn; [done|].
  destruct (b =b? c); [by intros [= <-]|].
  destruct (position c s) as [m|]; [|done]. intros [= <-].
  by rewrite (IH m).
Qed.

Lemma position_None c s : position c s = None <-> split_once c s = None.
Proof.
  induction s as [|b s IH]; cbn; [done|].
  destruct (b =b? c); [done|].
  destruct (position c s), (split_once c s) as [[? ?]|]; naive_solver.
Qed.

Lemma position_Some c s n :
  position c s = Some n <->
  exists post, (s = take n s ++ (c :: post)) /\ (c ∉ take n s) /\ n < length s.
Proof.
  revert n. induction s as [|b s IH]; intros n; cbn.
  { split; [done|]. intros (? & H & _). by destruct (take n []). }
  destruct (byte_eqb_spec b c) as [->|Hbc].
  - split.
    + intros [= <-]. exists s. cbn. split_and!; [done|apply not_elem_of_nil|lia].
    + intros (post & H & Hn & _). destruct n as [|n]; [done|]. cbn in Hn.
      exfalso. apply Hn. left.
  - destruct n as [|n]; cbn.
    { split; [by destruct (position c s)|]. intros (? & [= ->] & _). done. }
    destruct (position c s) as [m|] eqn:E; cbn.
    + split.
      * intros [= <-]. destruct (proj1 (IH m) eq_refl) as (post & H & Hn & Hl).
        exists post. split_and!; [by rewrite <- H| |lia].
        rewrite not_elem_of_cons. naive_solver.
      * intros (post & [= H] & Hn & Hl). apply not_elem_of_cons in Hn as [_ Hn].
        f_equal. enough (Some m = Some n) by naive_solver.
        apply IH. exists post. split_and!; [done..|lia].
    + split; [done|]. intros (post & [= H] & Hn & Hl).
      apply not_elem_of_cons in Hn as [_ Hn].
      enough (None = Some n) by done. apply IH. exists post. split_and!; [done..|lia].
Qed.

Lemma contains_byte_spec c s : contains_byte c s = true <-> c ∈ s.
Proof.
  unfold contains_byte. rewrite existsb_exists. setoid_rewrite byte_eqb_eq.
  rewrite list_elem_of_In. naive_solver.
Qed.

Lemma contains_byte_false c s : contains_byte c s = false <-> c ∉ s.
Proof. rewrite <- contains_byte_spec. by destruct (contains_byte c s). Qed.

(** [trim_start_matches] removes a run of the character and stops at the first
    other one. *)
Lemma trim_start_spec c s :
  exists n, s = repeat c n ++ trim_start_matches c s
    /\ starts_with c (trim_start_matches c s) = false.
Proof.
  induction s as [|b s (n & IH1 & IH2)]; cbn.
  { by exists 0. }
  destruct (byte_eqb_spec b c) as [->|Hbc].
  - exists (S n). cbn. split; [by f_equal|done].
  - exists 0. split; [done|]. cbn. by apply byte_eqb_neq.
Qed.

Lemma trim_start_repeat c n s : trim_start_matches c (repeat c n ++ s) = trim_start_matches c s.
Proof. induction n; cbn; [done|]. by rewrite byte_eqb_refl. Qed.

Lemma trim_start_id c s : starts_with c s = false -> trim_start_matches c s = s.
Proof. destruct s as [|b s]; cbn; [done|]. by intros ->. Qed.

Lemma trim_start_length c s : length (trim_start_matches c s) <= length s.
Proof. induction s as [|b s IH]; cbn; [lia|]. destruct (b =b? c); cbn; lia. Qed.

Lemma trim_start_elem c s x : x ∈ trim_start_matches c s -> x ∈ s.
Proof.
  destruct (trim_start_spec c s) as (n & E & _). intros H. rewrite E, elem_of_app. auto.
Qed.

Lemma is_empty_true {A} (s : list A) : is_empty s = true <-> s = [].
Proof. by destruct s. Qed.

Lemma is_empty_false {A} (s : list A) : is_empty s = false <-> s <> [].
Proof. by destruct s. Qed.

Lemma str_eqb_refl s : str_eqb s s = true.
Proof. unfold str_eqb. by apply bool_decide_eq_true_2. Qed.

Lemma str_eqb_neq a b : a <> b -> str_eqb a b = false.
Proof. unfold str_eqb. intros. by apply bool_decide_eq_false_2. Qed.

Lemma str_eqb_eq a b : str_eqb a b = true <-> a = b.
Proof. apply bool_decide_eq_true. Qed.

(** ** UTF-8 lemmas *)

Lemma ascii_not_cont b : is_ascii b = true -> is_cont b = false.
Proof. by byte_cases b. Qed.

Lemma ascii_second_ok b0 b : is_ascii b = true -> second_ok b0 b = false.
Proof. unfold second_ok. intros. repeat case_match; by byte_cases b. Qed.

Lemma second_ok_cont b0 b : second_ok b0 b = true -> is_cont b = true.
Proof. unfold second_ok. intros. repeat case_match; by byte_cases b. Qed.

Lemma cont_not_ascii b : is_cont b = true -> is_ascii b = false.
Proof. by byte_cases b. Qed.

Lemma width_ascii b : is_ascii b = true <-> utf8_char_width b = 1.
Proof. split; by byte_cases b. Qed.

Lemma width_cont b : is_cont b = true -> utf8_char_width b = 0.
Proof. by byte_cases b. Qed.

Lemma width_bound b : utf8_char_width b <= 4.
Proof. unfold utf8_char_width. repeat case_match; lia. Qed.

(** Case analysis on [utf8_next]. *)
Ltac next_cases :=
  unfold utf8_next;
  repeat match goal with
  | |- context [match ?x with _ => _ end] => destruct x eqn:?
  end.

Lemma utf8_next_ascii b rest : is_ascii b = true -> utf8_next b rest = (true, 0).
Proof. intros H%width_ascii. unfold utf8_next. rewrite H. by destruct rest. Qed.

(** The bytes a character takes after its first are continuations. *)
Lemma utf8_next_cont b rest ok n :
  utf8_next b rest = (ok, n) ->
  n <= length rest /\ Forall (fun x => is_cont x = true) (take n rest).
Proof.
  next_cases; intros [= <- <-]; cbn; split; try lia; repeat constructor;
    eauto using second_ok_cont.
Qed.

Lemma utf8_next_lead b rest n : utf8_next b rest = (true, n) -> is_cont b = false.
Proof.
  intros H. destruct (is_cont b) eqn:E; [|done].
  apply width_cont in E. unfold utf8_next in H. rewrite E in H. by destruct rest.
Qed.

Lemma utf8_next_ok_app b rest t n :
  utf8_next b rest = (true, n) -> utf8_next b (rest ++ t) = (true, n).
Proof.
  unfold utf8_next. intros H.
  destruct (utf8_char_width b) as [|[|[|[|[|]]]]];
    destruct rest as [|r0 [|r1 [|r2 rest]]]; cbn in *; try done;
    repeat case_match; simplify_eq/=; done.
Qed.

(** An ASCII byte ends whatever precedes it. *)
Lemma utf8_next_ascii_app b rest c t :
  is_ascii c = true -> utf8_next b (rest ++ c :: t) = utf8_next b rest.
Proof.
  intros Hc. unfold utf8_next.
  pose proof (ascii_not_cont c Hc) as Hcc. pose proof (ascii_second_ok b c Hc) as Hsc.
  destruct (utf8_char_width b) as [|[|[|[|[|]]]]];
    destruct rest as [|r0 [|r1 [|r2 rest]]]; cbn; rewrite ?Hcc, ?Hsc; try done;
    repeat case_match; done.
Qed.

Lemma chunks_fuel_enough fuel s :
  length s <= fuel -> chunks_fuel fuel s = utf8_chunks s.
Proof.
  unfold utf8_chunks. remember (length s) as m eqn:Hm.
  revert fuel s Hm. induction (lt_wf m) as [m _ IH]. intros fuel s -> Hf.
  destruct s as [|b rest]; [by destruct fuel|]. destruct fuel as [|fuel]; [cbn in Hf; lia|].
  cbn in *. destruct (utf8_next b rest) as [ok n]. f_equal.
  assert (length (drop n rest) <= length rest) by (rewrite length_drop; lia).
  rewrite (IH (length (drop n rest))) by lia.
  symmetry. apply (IH (length (drop n rest))); lia.
Qed.

Lemma chunks_cons b rest :
  utf8_chunks (b :: rest) =
    (fst (utf8_next b rest), b :: take (snd (utf8_next b rest)) rest)
    :: utf8_chunks (drop (snd (utf8_next b rest)) rest).
Proof.
  unfold utf8_chunks at 1. cbn. destruct (utf8_next b rest) as [ok n]. cbn. f_equal.
  apply chunks_fuel_enough. rewrite length_drop. lia.
Qed.

(** Induction along the characters of a string. *)
Lemma chunks_ind (P : str -> Prop) :
  P [] ->
  (forall b rest, P (drop (snd (utf8_next b rest)) rest) -> P (b :: rest)) ->
  forall s, P s.
Proof.
  intros H0 HS s. remember (length s) as m eqn:Hm. revert s Hm.
  induction (lt_wf m) as [m _ IH]. intros s ->.
  destruct s as [|b rest]; [done|]. apply HS. eapply IH; [|done].
  rewrite length_drop. cbn. lia.
Qed.

Lemma concat_chunks s : concat (snd <$> utf8_chunks s) = s.
Proof.
  induction s as [|b rest IH] using chunks_ind; [done|].
  rewrite chunks_cons. cbn. f_equal. rewrite IH. apply take_drop.
Qed.

Lemma chunks_ascii_cons c s :
  is_ascii c = true -> utf8_chunks (c :: s) = (true, [c]) :: utf8_chunks s.
Proof. intros H. rewrite chunks_cons, utf8_next_ascii by done. done. Qed.

Lemma chunks_app_ascii a c s :
  is_ascii c = true ->
  utf8_chunks (a ++ c :: s) = utf8_chunks a ++ (true, [c]) :: utf8_chunks s.
Proof.
  intros Hc. induction a as [|b rest IH] using chunks_ind; cbn.
  { by apply chunks_ascii_cons. }
  rewrite !chunks_cons, utf8_next_ascii_app by done.
  destruct (utf8_next b rest) as [ok n] eqn:E. cbn in *.
  apply utf8_next_cont in E as [Hn _].
  rewrite take_app_le by done. rewrite drop_app_le by done. by rewrite IH.
Qed.

Lemma utf8_valid_cons b rest :
  utf8_valid (b :: rest) =
    fst (utf8_next b rest) && utf8_valid (drop (snd (utf8_next b rest)) rest).
Proof. unfold utf8_valid. by rewrite chunks_cons. Qed.

Lemma chunks_app_valid a s :
  utf8_valid a = true -> utf8_chunks (a ++ s) = utf8_chunks a ++ utf8_chunks s.
Proof.
  induction a as [|b rest IH] using chunks_ind; [done|].
  rewrite utf8_valid_cons. intros [Hok Hv]%andb_true_iff.
  destruct (utf8_next b rest) as [ok n] eqn:E. cbn in *. subst ok.
  rewrite !chunks_cons, E. rewrite (utf8_next_ok_app _ _ _ _ E). cbn.
  apply utf8_next_cont in E as [Hn _].
  rewrite take_app_le by done. rewrite drop_app_le by done. by rewrite IH.
Qed.

Lemma utf8_valid_app a s :
  utf8_valid a = true -> utf8_valid (a ++ s) = utf8_valid s.
Proof.
  intros Ha. unfold utf8_valid. rewrite chunks_app_valid by done.
  rewrite forallb_app. unfold utf8_valid in Ha. by rewrite Ha.
Qed.

Lemma utf8_valid_app_ascii a c s :
  is_ascii c = true ->
  utf8_valid (a ++ c :: s) = utf8_valid a && utf8_valid s.
Proof.
  intros Hc. unfold utf8_valid. rewrite chunks_app_ascii by done.
  by rewrite forallb_app.
Qed.

Lemma utf8_valid_ascii_cons c s :
  is_ascii c = true -> utf8_valid (c :: s) = utf8_valid s.
Proof. intros Hc. apply (utf8_valid_app_ascii [] c s Hc). Qed.

Lemma utf8_valid_all_ascii s : forallb is_ascii s = true -> utf8_valid s = true.
Proof.
  induction s as [|b s IH]; cbn [forallb]; [done|]. intros [Hb Hs]%andb_true_iff.
  rewrite utf8_valid_ascii_cons by done. auto.
Qed.

(** Every piece that is not one ASCII byte holds no ASCII byte. *)
Lemma chunk_high s ok chunk :
  (ok, chunk) ∈ utf8_chunks s ->
  (ok = true /\ exists c, is_ascii c = true /\ chunk = [c])
  \/ Forall (fun x => is_ascii x = false) chunk.
Proof.
  induction s as [|b rest IH] using chunks_ind; [by intros ?%elem_of_nil|].
  rewrite chunks_cons, elem_of_cons. intros [[= -> ->]|H]; [|auto].
  destruct (is_ascii b) eqn:Hb.
  - left. rewrite utf8_next_ascii by done. naive_solver.
  - right. destruct (utf8_next b rest) as [ok n] eqn:E.
    apply utf8_next_cont in E as [_ HF]. constructor; [done|].
    eapply Forall_impl; [exact HF|]. intros ?. apply cont_not_ascii.
Qed.

(** *** Character boundaries *)

Lemma next_take b rest n :
  utf8_next b rest = (true, n) -> utf8_next b (take n rest) = (true, n).
Proof.
  unfold utf8_next. destruct (utf8_char_width b) as [|[|[|[|[|]]]]];
    destruct rest as [|r0 [|r1 [|r2 rest]]]; destruct n as [|[|[|[|n]]]]; cbn;
    repeat case_match; intros; simplify_eq/=; done.
Qed.

Lemma boundary_cons b rest i :
  is_char_boundary (b :: rest) (S i) =
    match rest !! i with Some x => negb (is_cont x) | None => i =? length rest end.
Proof. done. Qed.

(** Cutting a valid string at a boundary leaves a valid string. *)
Lemma take_boundary_valid s i :
  utf8_valid s = true -> is_char_boundary s i = true -> utf8_valid (take i s) = true.
Proof.
  revert i. induction s as [|b rest IH] using chunks_ind; intros i Hv Hb.
  { by rewrite take_nil. }
  rewrite utf8_valid_cons in Hv. apply andb_true_iff in Hv as [Hok Hv].
  destruct (utf8_next b rest) as [ok n] eqn:E. cbn in *. subst ok.
  destruct (utf8_next_cont _ _ _ _ E) as [Hn HF].
  destruct i as [|i]; [done|]. cbn [take]. rewrite boundary_cons in Hb.
  destruct (decide (i < n)) as [Hi|Hi].
  { exfalso. rewrite Forall_lookup in HF.
    destruct (lookup_lt_is_Some_2 rest i) as [x Hx]; [lia|].
    rewrite Hx in Hb. specialize (HF i x). rewrite lookup_take_lt in HF by lia.
    rewrite HF in Hb by done. done. }
  rewrite <- (take_drop n rest), take_app_ge by (rewrite length_take; lia).
  rewrite length_take, Nat.min_l by lia.
  assert (utf8_valid (b :: take n rest) = true) as Hchunk.
  { rewrite utf8_valid_cons.
    rewrite (next_take _ _ _ E). cbn. rewrite drop_ge by (rewrite length_take; lia). done. }
  change (b :: take n rest ++ ?t) with ((b :: take n rest) ++ t).
  rewrite utf8_valid_app by done. apply IH; [done|].
  unfold is_char_boundary. destruct (i - n) as [|k] eqn:Ek; [done|].
  rewrite lookup_drop, <- Ek. replace (n + (i - n)) with i by lia.
  destruct (rest !! i) eqn:Hri; [done|].
  apply Nat.eqb_eq in Hb. apply Nat.eqb_eq. rewrite length_drop. lia.
Qed.

(** *** Lossy decoding *)

Lemma lossy_app_ascii a c s :
  is_ascii c = true ->
  from_utf8_lossy (a ++ c :: s) = from_utf8_lossy a ++ c :: from_utf8_lossy s.
Proof.
  intros Hc. unfold from_utf8_lossy. rewrite chunks_app_ascii by done.
  by rewrite fmap_app, concat_app.
Qed.

Lemma lossy_ascii_cons c s :
  is_ascii c = true -> from_utf8_lossy (c :: s) = c :: from_utf8_lossy s.
Proof. apply (lossy_app_ascii []). Qed.

Lemma lossy_cons b rest :
  from_utf8_lossy (b :: rest) =
    (if fst (utf8_next b rest) then b :: take (snd (utf8_next b rest)) rest else REPLACEMENT)
    ++ from_utf8_lossy (drop (snd (utf8_next b rest)) rest).
Proof. unfold from_utf8_lossy. by rewrite chunks_cons. Qed.

(** Decoding leaves valid text as it is. *)
Lemma lossy_valid_id s : utf8_valid s = true -> from_utf8_lossy s = s.
Proof.
  induction s as [|b rest IH] using chunks_ind; [done|].
  rewrite utf8_valid_cons, lossy_cons. intros [-> Hv]%andb_true_iff.
  cbn. rewrite IH by done. by rewrite take_drop.
Qed.

(** What decoding produces is valid. *)
Lemma lossy_valid s : utf8_valid (from_utf8_lossy s) = true.
Proof.
  induction s as [|b rest IH] using chunks_ind; [done|].
  rewrite lossy_cons. destruct (utf8_next b rest) as [ok n] eqn:E. cbn in *.
  destruct ok; [|by rewrite utf8_valid_app].
  rewrite utf8_valid_app; [done|]. rewrite utf8_valid_cons.
  rewrite (next_take _ _ _ E). cbn. apply utf8_next_cont in E as [? _].
  by rewrite drop_ge by (rewrite length_take; lia).
Qed.

(** Each byte becomes at most three. *)
Lemma lossy_length s : length (from_utf8_lossy s) <= 3 * length s.
Proof.
  induction s as [|b rest IH] using chunks_ind; [done|].
  rewrite lossy_cons, length_app. destruct (utf8_next b rest) as [ok n] eqn:E.
  cbn [fst snd length] in *. apply utf8_next_cont in E as [? _].
  rewrite length_drop in IH. destruct ok; cbn; [rewrite length_take|]; lia.
Qed.

Lemma is_prefix_of_app p s : is_prefix_of p (p ++ s) = true.
Proof. induction p as [|a p IH]; cbn; [done|]. by rewrite byte_eqb_refl. Qed.

Lemma contains_sub_app p a s : contains_sub p s = true -> contains_sub p (a ++ s) = true.
Proof.
  intros H. induction a as [|b a IH]; [done|]. cbn [app contains_sub]. rewrite IH. apply orb_true_r.
Qed.

(** Text decoded with no replacement character is the bytes themselves. *)
Lemma lossy_no_replacement s :
  contains_sub REPLACEMENT (from_utf8_lossy s) = false -> from_utf8_lossy s = s.
Proof.
  induction s as [|b rest IH] using chunks_ind; [done|].
  rewrite lossy_cons. destruct (utf8_next b rest) as [ok n] eqn:E. cbn [fst snd] in *.
  intros H. destruct ok; [|done].
  rewrite IH; [cbn; by rewrite take_drop|].
  destruct (contains_sub _ (from_utf8_lossy (drop n rest))) eqn:E2; [|done].
  by rewrite contains_sub_app in H.
Qed.

(** An ASCII byte is in the decoded text exactly when it is in the bytes. *)
Lemma lossy_ascii_elem c s :
  is_ascii c = true -> c ∈ from_utf8_lossy s <-> c ∈ s.
Proof.
  intros Hc. induction s as [|b rest IH] using chunks_ind; [done|].
  rewrite lossy_cons, elem_of_app, IH. destruct (utf8_next b rest) as [ok n] eqn:E.
  cbn [fst snd]. apply utf8_next_cont in E as E'. destruct E' as [Hn HF].
  assert (c ∉ take n rest) as Hnt.
  { rewrite Forall_forall in HF. intros Hin%HF. by rewrite (cont_not_ascii c) in Hc. }
  rewrite elem_of_cons. rewrite <- (take_drop n rest) at 3. rewrite elem_of_app.
  destruct ok; [rewrite elem_of_cons; tauto|].
  assert (c <> b).
  { intros ->. rewrite utf8_next_ascii in E by done. done. }
  assert (c ∉ REPLACEMENT).
  { unfold REPLACEMENT. rewrite !elem_of_cons, elem_of_nil.
    by intros [->|[->|[->|[]]]]. }
  tauto.
Qed.

Lemma lossy_split c s :
  is_ascii c = true -> split c (from_utf8_lossy s) = from_utf8_lossy <$> split c s.
Proof.
  intros Hc. remember (length s) as m eqn:Hm. revert s Hm.
  induction (lt_wf m) as [m _ IH]. intros s ->.
  destruct (split_once c s) as [[a b]|] eqn:E.
  - apply split_once_Some in E as [-> Hn]. rewrite lossy_app_ascii by done.
    rewrite !split_app_sep by (rewrite ?lossy_ascii_elem; done). cbn. f_equal.
    eapply IH; [|done]. rewrite length_app. cbn. lia.
  - apply split_once_None in E. rewrite !split_no_sep_id; [done|done|].
    by rewrite lossy_ascii_elem.
Qed.

Lemma lossy_split_once c s :
  is_ascii c = true ->
  split_once c (from_utf8_lossy s) =
    (fun '(a, b) => (from_utf8_lossy a, from_utf8_lossy b)) <$> split_once c s.
Proof.
  intros Hc. destruct (split_once c s) as [[a b]|] eqn:E.
  - apply split_once_Some in E as [-> Hn]. rewrite lossy_app_ascii by done.
    rewrite split_once_app by (by rewrite lossy_ascii_elem). done.
  - apply split_once_None in E. apply split_once_None. by rewrite lossy_ascii_elem.
Qed.

(** ** Fixed-size chunks *)

Lemma slice_chunks_fuel_enough k fuel s :
  0 < k -> length s <= fuel -> slice_chunks_fuel fuel k s = slice_chunks k s.
Proof.
  intros Hk. unfold slice_chunks. remember (length s) as m eqn:Hm.
  revert fuel s Hm. induction (lt_wf m) as [m _ IH]. intros fuel s -> Hf.
  destruct s as [|b s]; [by destruct fuel|]. destruct fuel as [|fuel]; [cbn in Hf; lia|].
  cbn [slice_chunks_fuel length] in *. f_equal.
  assert (length (drop k (b :: s)) <= length s) by (rewrite length_drop; cbn; lia).
  rewrite (IH (length (drop k (b :: s)))) by lia.
  symmetry. apply (IH (length (drop k (b :: s)))); lia.
Qed.

Lemma slice_chunks_nil k : slice_chunks k [] = [].
Proof. done. Qed.

Lemma slice_chunks_cons k s :
  0 < k -> s <> [] -> slice_chunks k s = take k s :: slice_chunks k (drop k s).
Proof.
  intros Hk Hne. destruct s as [|b s]; [done|]. unfold slice_chunks at 1.
  cbn [slice_chunks_fuel length]. f_equal. apply slice_chunks_fuel_enough; [done|].
  rewrite length_drop. cbn. lia.
Qed.

(** Pieces of exactly the chunk size are the chunks of their concatenation. *)
Lemma slice_chunks_concat k l :
  0 < k -> Forall (fun c => length c = k) l -> slice_chunks k (concat l) = l.
Proof.
  intros Hk HF. induction HF as [|c l Hc HF IH]; [done|]. cbn.
  rewrite slice_chunks_cons; [|done|destruct c; cbn in *; [lia|done]].
  by rewrite take_app_length', drop_app_length', IH.
Qed.

(** Induction on a string chunk by chunk. *)
Lemma slice_chunks_ind k (P : str -> Prop) :
  0 < k -> P [] -> (forall s, s <> [] -> P (drop k s) -> P s) -> forall s, P s.
Proof.
  intros Hk H0 HS s. remember (length s) as m eqn:Hm. revert s Hm.
  induction (lt_wf m) as [m _ IH]. intros s ->. destruct s as [|b s]; [done|].
  apply HS; [done|]. eapply IH; [|done]. rewrite length_drop. cbn. lia.
Qed.

Lemma concat_slice_chunks k s : 0 < k -> concat (slice_chunks k s) = s.
Proof.
  intros Hk. revert s. apply (slice_chunks_ind k); [done|done|]. intros s Hne IH.
  rewrite slice_chunks_cons by done. cbn. by rewrite IH, take_drop.
Qed.

(** ** Byte order *)

(** [str]'s ordering: bytes, lexicographically. *)
Fixpoint str_ltb (a b : str) : bool :=
  match a, b with
  | [], [] => false
  | [], _ :: _ => true
  | _ :: _, [] => false
  | x :: a', y :: b' =>
      if (bz x <? bz y)%Z then true else if (bz y <? bz x)%Z then false else str_ltb a' b'
  end.

Lemma str_ltb_trans a b c : str_ltb a b = true -> str_ltb b c = true -> str_ltb a c = true.
Proof.
  revert b c. induction a as [|x a IH]; intros [|y b] [|z c]; cbn; try done.
  repeat match goal with |- context [(?p <? ?q)%Z] => destruct (Z.ltb_spec p q) end;
    try done; try lia. apply IH.
Qed.

Lemma str_ltb_total a b : str_ltb a b = false -> str_ltb b a = false -> a = b.
Proof.
  revert b. induction a as [|x a IH]; intros [|y b]; cbn; try done.
  destruct (Z.ltb_spec (bz x) (bz y)), (Z.ltb_spec (bz y) (bz x)); try done.
  intros H1 H2. f_equal; [apply bz_inj; lia|auto].
Qed.

Lemma str_ltb_irrefl a : str_ltb a a = false.
Proof. induction a as [|x a IH]; [done|]. cbn. by rewrite Z.ltb_irrefl. Qed.

Lemma str_ltb_asym a b : str_ltb a b = true -> str_ltb b a = false.
Proof.
  intros H. destruct (str_ltb b a) eqn:E; [|done].
  pose proof (str_ltb_trans _ _ _ H E) as Ha. by rewrite str_ltb_irrefl in Ha.
Qed.

(** Not above, which is transitive since the order is total. *)
Lemma str_not_lt_trans a b c : str_ltb b a = false -> str_ltb c b = false -> str_ltb c a = false.
Proof.
  intros H1 H2. destruct (str_ltb c a) eqn:E; [|done].
  destruct (str_ltb b c) eqn:E2; [by rewrite (str_ltb_trans _ _ _ E2 E) in H1|].
  rewrite (str_ltb_total _ _ E2 H2) in *. congruence.
Qed.

Definition str_leb (a b : str) : bool := negb (str_ltb b a).
Definition str_le (a b : str) : Prop := str_leb a b = true.
#[global] Instance str_le_dec : RelDecision str_le.
Proof. intros a b. unfold str_le. apply _. Defined.

Lemma str_le_iff a b : str_le a b <-> str_ltb b a = false.
Proof. unfold str_le, str_leb. apply negb_true_iff. Qed.

#[global] Instance str_le_trans : Transitive str_le.
Proof. intros a b c. rewrite !str_le_iff. apply str_not_lt_trans. Qed.
#[global] Instance str_le_antisymm : AntiSymm eq str_le.
Proof. intros a b. rewrite !str_le_iff. intros. by apply str_ltb_total. Qed.
#[global] Instance str_le_total : Total str_le.
Proof.
  intros a b. rewrite !str_le_iff. destruct (str_ltb b a) eqn:E; [right|by left]. by apply str_ltb_asym.
Qed.
#[global] Instance str_le_refl : Reflexive str_le.
Proof. intros a. apply str_le_iff, str_ltb_irrefl. Qed.
