(* ===== verification/Keys.v ===== *)
(** * Strings as keys

    The instance that lets the byte strings of the model key stdpp's finite
    maps and sets, as [String] keys the source's [HashMap] and [HashSet]. *)

From S2P Require Import Prelude Str.
From stdpp Require Import countable gmap.

#[global] Program Instance byte_countable : Countable byte :=
  inj_countable Byte.to_N Byte.of_N _.
Next Obligation. intros b. apply of_to_N. Qed.
