(* ===== verification/Casemap.v ===== *)
(** * Case mapping ([e6irc-proto/src/casemap.rs])

    The three casemappings a network can advertise, folding of a string under
    one, comparison without allocation, and the ISUPPORT token of each.  Names
    and masks are compared everywhere through this fold, so its laws are an
    interface ([FoldLaws]) the mask matcher and the keyed components are proved
    against. *)

From S2P Require Import Prelude Str.

Inductive CaseMapping : Type :=
| Rfc1459
| Rfc1459Strict
| Ascii.

#[global] Instance CaseMapping_eq_dec : EqDecision CaseMapping.
Proof. solve_decision. Defined.

(** [CaseMapping::lower]. *)
Definition lower (m : CaseMapping) (b : byte) : byte :=
  if in_range "A" "Z" b then u8 (bz b + 32)
  else if (b =b? "[") || (b =b? "]") || (b =b? BACKSLASH) then
    match m with
    | Rfc1459 | Rfc1459Strict => u8 (bz b + 32)
    | Ascii => b
    end
  else if b =b? "~" then
    match m with
    | Rfc1459 => "^"%byte
    | Rfc1459Strict | Ascii => b
    end
  else b.

(** [CaseMapping::casefold]; the source's [String::from_utf8(..).expect(..)]
    is discharged by [casefold_utf8_valid]. *)
Definition casefold (m : CaseMapping) (s : str) : str := lower m <$> s.

(** [CaseMapping::eq]: length, then byte by byte over the zipped strings. *)
Definition casemap_eq (m : CaseMapping) (a b : str) : bool :=
  (length a =? length b)
  && forallb (fun '(x, y) => lower m x =b? lower m y) (zip a b).

(** [CaseMapping::from_isupport_token]. *)
Definition from_isupport_token (value : str) : option CaseMapping :=
  if str_eqb value (bs "rfc1459") then Some Rfc1459
  else if str_eqb value (bs "rfc1459-strict") || str_eqb value (bs "strict-rfc1459")
  then Some Rfc1459Strict
  else if str_eqb value (bs "ascii") then Some Ascii
  else None.

(** [CaseMapping::isupport_token]. *)
Definition isupport_token (m : CaseMapping) : str :=
  match m with
  | Rfc1459 => bs "rfc1459"
  | Rfc1459Strict => bs "rfc1459-strict"
  | Ascii => bs "ascii"
  end.

(** What the matcher and the keys rely on of a fold: it is idempotent, keeps
    a byte's class (ASCII or not) and leaves the two wildcards alone. *)
Class FoldLaws (f : byte -> byte) : Prop := {
  fold_idem b : f (f b) = f b;
  fold_ascii b : is_ascii (f b) = is_ascii b;
  fold_high b : is_ascii b = false -> f b = b;
  fold_star b : f b = "*"%byte <-> b = "*"%byte;
  fold_any b : f b = "?"%byte <-> b = "?"%byte;
}.

#[export] Instance lower_fold_laws m : FoldLaws (lower m).
Proof.
  split.
  - by intros b; destruct m; byte_cases b.
  - by intros b; destruct m; byte_cases b.
  - by intros b; destruct m; byte_cases b.
  - by intros b; split; destruct m; byte_cases b.
  - by intros b; split; destruct m; byte_cases b.
Qed.

(** ** Folding a whole string, for any lawful fold *)

Section fold.
Context (f : byte -> byte) `{FoldLaws f}.

Lemma fold_map_idem (s : str) : f <$> (f <$> s) = f <$> s.
Proof. rewrite <- list_fmap_compose. apply list_fmap_ext. intros. apply fold_idem. Qed.

Lemma fold_in_range_high lo hi b :
  is_ascii lo = false -> in_range lo hi (f b) = in_range lo hi b.
Proof.
  intros Hlo. destruct (is_ascii b) eqn:Hb; [|by rewrite (fold_high (f:=f) b Hb)].
  pose proof (fold_ascii (f:=f) b) as Hf. rewrite Hb in Hf.
  unfold is_ascii, in_range in *. bool_to_prop.
  rewrite (proj2 (Z.leb_gt (bz lo) (bz (f b)))) by lia.
  by rewrite (proj2 (Z.leb_gt (bz lo) (bz b))) by lia.
Qed.

Lemma fold_eqb_high c b : is_ascii c = false -> (f b =b? c) = (b =b? c).
Proof.
  intros Hc. destruct (byte_eqb_spec b c) as [->|Hbc].
  - rewrite (fold_high (f:=f)) by done. apply byte_eqb_refl.
  - apply byte_eqb_neq. intros Hfb. apply Hbc.
    destruct (is_ascii b) eqn:Hb; [|by rewrite (fold_high (f:=f)) in Hfb].
    rewrite <- (fold_ascii (f:=f) b), Hfb in Hb. congruence.
Qed.

Lemma fold_cont b : is_cont (f b) = is_cont b.
Proof. by apply fold_in_range_high. Qed.

Lemma fold_second_ok b0 b1 : second_ok (f b0) (f b1) = second_ok b0 b1.
Proof.
  unfold second_ok. rewrite !fold_eqb_high by done.
  rewrite !fold_in_range_high by done. by rewrite fold_cont.
Qed.

Lemma fold_width b : utf8_char_width (f b) = utf8_char_width b.
Proof.
  destruct (is_ascii b) eqn:Hb; [|by rewrite (fold_high (f:=f) b Hb)].
  pose proof (fold_ascii (f:=f) b) as Hf. rewrite Hb in Hf.
  apply width_ascii in Hb, Hf. congruence.
Qed.

Lemma fold_utf8_next b (rest : str) : utf8_next (f b) (f <$> rest) = utf8_next b rest.
Proof.
  unfold utf8_next. rewrite fold_width.
  destruct rest as [|r0 [|r1 [|r2 rest]]]; cbn;
    rewrite ?fold_cont, ?fold_second_ok; done.
Qed.

(** Folding cannot break (or mend) UTF-8. *)
Lemma fold_utf8_valid (s : str) : utf8_valid (f <$> s) = utf8_valid s.
Proof.
  induction s as [|b rest IH] using chunks_ind; [done|].
  rewrite fmap_cons, !utf8_valid_cons, fold_utf8_next, <- fmap_drop. by rewrite IH.
Qed.
End fold.

(** ** Comparison *)

Lemma casemap_eq_iff m a b : casemap_eq m a b = true <-> casefold m a = casefold m b.
Proof.
  unfold casemap_eq, casefold. revert b.
  induction a as [|x a IH]; intros [|y b]; cbn; try (split; done).
  specialize (IH b). destruct (byte_eqb_spec (lower m x) (lower m y)) as [E|E]; cbn.
  - rewrite IH, E. split; [by intros ->|by intros [=]].
  - rewrite andb_false_r. split; [done|by intros [=]].
Qed.

Lemma length_casefold m s : length (casefold m s) = length s.
Proof. apply length_fmap. Qed.

#[export] Instance casemap_equiv m :
  Equivalence (fun a b => casemap_eq m a b = true).
Proof.
  split.
  - intros a. by apply casemap_eq_iff.
  - intros a b. rewrite !casemap_eq_iff. done.
  - intros a b c. rewrite !casemap_eq_iff. congruence.
Qed.

Lemma casefold_idem_lemma m s : casefold m (casefold m s) = casefold m s.
Proof. unfold casefold. apply fold_map_idem. apply _. Qed.

(** Each mapping reads back from the token it advertises. *)
Lemma isupport_token_roundtrip m : from_isupport_token (isupport_token m) = Some m.
Proof. by destruct m. Qed.

(** Folding is a canonical form for case-insensitive comparison: the
    allocation-free comparison [eq] holds exactly when the folded strings are
    equal, folding is idempotent and length-preserving, and it keeps valid
    UTF-8 valid, so the [expect] in [casefold] cannot fail on a [&str]. *)
Theorem casefold_canonical m a b :
  (casemap_eq m a b = true <-> casefold m a = casefold m b)
  /\ casefold m (casefold m a) = casefold m a
  /\ length (casefold m a) = length a
  /\ utf8_valid (casefold m a) = utf8_valid a.
Proof.
  split_and!.
  - apply casemap_eq_iff.
  - apply casefold_idem_lemma.
  - apply length_casefold.
  - apply fold_utf8_valid. apply _.
Qed.
