(* ===== verification/Mask.v ===== *)
(** * Hostmask matching ([e6irc-proto/src/mask.rs])

    The iterative glob with backtracking over the last star is modelled as the
    loop it is (a state of three indices and a fuelled iteration of its body),
    and shown to decide the declarative relation [glob_match]. *)

From S2P Require Import Prelude Str Casemap.

(** ** The source's matcher *)

(** The loop variables of [glob]: [p], [t] and the last star seen. *)
Record glob_state : Type := GState {
  gs_p : nat;
  gs_t : nat;
  gs_star : option (nat * nat);
}.

(** How one turn of the loop ends: with the next state, with [return false],
    or with the loop condition false. *)
Inductive glob_turn : Type :=
| Again (s : glob_state)
| Mismatch
| Exhausted.

Definition glob_body (pattern text : str) (s : glob_state) : glob_turn :=
  let p := gs_p s in
  let t := gs_t s in
  match text !! t with
  | None => Exhausted
  | Some x =>
      let at_star := match pattern !! p with Some c => c =b? "*" | None => false end in
      let at_one :=
        match pattern !! p with Some c => (c =b? "?") || (c =b? x) | None => false end in
      if at_star then Again (GState (S p) t (Some (p, t)))
      else if at_one then Again (GState (S p) (S t) (gs_star s))
      else match gs_star s with
           | Some (sp, st) => Again (GState (S sp) (S st) (Some (sp, S st)))
           | None => Mismatch
           end
  end.

(** The [while] loop: [None] when the fuel runs out, [Some None] on
    [return false], [Some (Some p)] when it ends with index [p]. *)
Fixpoint glob_loop (fuel : nat) (pattern text : str) (s : glob_state) : option (option nat) :=
  match fuel with
  | O => None
  | S fuel' =>
      match glob_body pattern text s with
      | Again s' => glob_loop fuel' pattern text s'
      | Mismatch => Some None
      | Exhausted => Some (Some (gs_p s))
      end
  end.

(** [while p < pattern.len() && pattern[p] == b'*' { p += 1 }; p == pattern.len()]. *)
Definition trailing_stars (pattern : str) (p : nat) : bool :=
  is_empty (trim_start_matches "*" (drop p pattern)).

(** Enough turns for any pattern and text ([glob_total]). *)
Definition glob_fuel (pattern text : str) : nat :=
  (length text + 2) * (length pattern + 2).

Definition glob (pattern text : str) : bool :=
  match glob_loop (glob_fuel pattern text) pattern text (GState 0 0 None) with
  | Some (Some p) => trailing_stars pattern p
  | _ => false
  end.

(** [FoldedMask::new] and [FoldedMask::matches_folded]. *)
Definition FoldedMask_new (m : CaseMapping) (mask : str) : str := lower m <$> mask.
Definition matches_folded (folded subject : str) : bool := glob folded subject.

(** [mask::matches]. *)
Definition mask_matches (m : CaseMapping) (mask subject : str) : bool :=
  matches_folded (FoldedMask_new m mask) (lower m <$> subject).

(** ** What a glob means *)

(** A [?] or literal [c] against one byte [x]. *)
Definition one_ok (c x : byte) : Prop := c <> "*"%byte /\ (c = "?"%byte \/ c = x).

Inductive glob_match : str -> str -> Prop :=
| gm_nil : glob_match [] []
| gm_star_skip p t : glob_match p t -> glob_match ("*"%byte :: p) t
| gm_star_eat p x t : glob_match ("*"%byte :: p) t -> glob_match ("*"%byte :: p) (x :: t)
| gm_one c p x t : one_ok c x -> glob_match p t -> glob_match (c :: p) (x :: t).

#[export] Hint Constructors glob_match : irc.

(** ** Lemmas on the relation *)

(** A star matches any prefix, so it can start earlier. *)
Lemma gm_star_extend p u t :
  glob_match ("*"%byte :: p) t -> glob_match ("*"%byte :: p) (u ++ t).
Proof. intros H. induction u; cbn; eauto with irc. Qed.

Lemma gm_star_iff p t :
  glob_match ("*"%byte :: p) t <-> exists u t', t = u ++ t' /\ glob_match p t'.
Proof.
  split.
  - intros H. remember ("*"%byte :: p) as q eqn:Hq. induction H; simplify_eq/=.
    + by exists [], t.
    + destruct IHglob_match as (u & t' & -> & ?); [done|]. by exists (x :: u), t'.
    + by destruct H.
  - intros (u & t' & -> & H). apply gm_star_extend. by constructor.
Qed.

(** A star-free stretch of pattern matches a stretch of the same length. *)
Lemma gm_seg seg p t :
  Forall (fun c => c <> "*"%byte) seg ->
  glob_match (seg ++ p) t <->
  exists u t', t = u ++ t' /\ Forall2 one_ok seg u /\ glob_match p t'.
Proof.
  intros HF. revert t. induction HF as [|c seg Hc HF IH]; intros t; cbn.
  - split.
    + intros H. exists [], t. split_and!; [done|constructor|done].
    + by intros (u & t' & -> & ->%Forall2_nil_inv_l & H).
  - split.
    + intros H. inversion H; subst; [done..|].
      match goal with Hrest : glob_match (seg ++ p) _ |- _ =>
        apply IH in Hrest as (u & t' & -> & ? & ?) end.
      exists (x :: u), t'. split_and!; [done|by constructor|done].
    + intros (u & t' & -> & HF2 & H). inversion HF2; subst. cbn.
      constructor; [done|]. apply IH. eauto.
Qed.

Lemma gm_nil_iff p : glob_match p [] <-> trim_start_matches "*" p = [].
Proof.
  split.
  - intros H. remember [] as t eqn:Ht. by induction H; simplify_eq/=; auto.
  - induction p as [|c p IH]; cbn; [by constructor|].
    destruct (byte_eqb_spec c "*") as [->|]; [|done]. eauto with irc.
Qed.

Lemma one_ok_not_star c x : one_ok c x -> c <> "*"%byte.
Proof. by intros []. Qed.

Lemma Forall2_one_ok_seg seg u :
  Forall2 one_ok seg u -> Forall (fun c => c <> "*"%byte) seg.
Proof. induction 1; constructor; eauto using one_ok_not_star. Qed.

(** ** The loop invariant *)

(** The pattern and text as the loop sees them after a star: everything up to
    the star, the star-free stretch already matched, and what is left. *)
Inductive loop_inv (pattern text : str) : glob_state -> Prop :=
| inv_no_star pre p_rest u t_rest :
    pattern = pre ++ p_rest -> text = u ++ t_rest ->
    (glob_match pattern text <-> glob_match p_rest t_rest) ->
    loop_inv pattern text (GState (length pre) (length u) None)
| inv_star pre seg p_rest t_pre u t_rest :
    pattern = pre ++ "*"%byte :: seg ++ p_rest ->
    text = t_pre ++ u ++ t_rest ->
    Forall2 one_ok seg u ->
    (glob_match pattern text <-> glob_match ("*"%byte :: seg ++ p_rest) (u ++ t_rest)) ->
    loop_inv pattern text
      (GState (S (length pre + length seg)) (length t_pre + length u)
         (Some (length pre, length t_pre))).

(** A later star makes the alternatives of the earlier one redundant. *)
Lemma gm_later_star seg p_rest u t_rest :
  Forall2 one_ok seg u ->
  glob_match ("*"%byte :: seg ++ "*"%byte :: p_rest) (u ++ t_rest)
  <-> glob_match ("*"%byte :: p_rest) t_rest.
Proof.
  intros HF. pose proof (Forall2_one_ok_seg _ _ HF) as Hseg. split.
  - intros (v & t' & Heq & H)%gm_star_iff.
    apply gm_seg in H as (w & t'' & -> & HF2 & H); [|done].
    assert (length w = length u) as Hlen
      by (apply Forall2_length in HF, HF2; lia).
    assert (exists v', t_rest = v' ++ t'') as [v' ->].
    { exists (drop (length u) (v ++ w)).
      rewrite <- (drop_app_length u t_rest), Heq, app_assoc.
      rewrite drop_app_le; [done|]. rewrite length_app. lia. }
    by apply gm_star_extend.
  - intros H. apply gm_star_skip, gm_seg; [done|]. eauto.
Qed.

(** When the stretch cannot be continued here, the star takes one byte more. *)
Lemma gm_star_shift seg p_rest u x t_rest :
  Forall2 one_ok seg u ->
  ~ glob_match p_rest (x :: t_rest) ->
  glob_match ("*"%byte :: seg ++ p_rest) (u ++ x :: t_rest)
  <-> glob_match ("*"%byte :: seg ++ p_rest) (drop 1 (u ++ x :: t_rest)).
Proof.
  intros HF Hno. split.
  - intros (w & t' & Heq & H)%gm_star_iff. destruct w as [|w0 w]; cbn in Heq.
    + subst t'. exfalso. apply gm_seg in H as (u' & t' & Heq & HF2 & H);
        [|by eapply Forall2_one_ok_seg].
      apply app_inj_1 in Heq as [-> <-]; [done|].
      by apply Forall2_length in HF, HF2; lia.
    + rewrite Heq. cbn. apply gm_star_iff. eauto.
  - intros H. destruct u as [|u0 u]; cbn in *; by constructor.
Qed.

(** At the end of the text the star took nothing more than the stretch left. *)
Lemma gm_star_end seg p_rest u :
  Forall2 one_ok seg u ->
  glob_match ("*"%byte :: seg ++ p_rest) u <-> glob_match p_rest [].
Proof.
  intros HF. pose proof (Forall2_one_ok_seg _ _ HF) as Hseg. split.
  - intros (v & t' & Heq & H)%gm_star_iff.
    apply gm_seg in H as (w & t'' & -> & HF2 & H); [|done].
    apply Forall2_length in HF, HF2. apply (f_equal length) in Heq.
    rewrite !length_app in Heq. destruct t'' as [|]; [done|]. cbn in Heq. lia.
  - intros H. apply gm_star_skip, gm_seg; [done|]. exists u, []. by rewrite app_nil_r.
Qed.

(** What the loop reads at its indices is what the invariant leaves over. *)
Lemma lookup_rest (pre rest : str) n :
  n = length pre -> (pre ++ rest) !! n = head rest.
Proof.
  intros ->. rewrite lookup_app_r by lia. rewrite Nat.sub_diag. by destruct rest.
Qed.

(** One turn's tests, against the rest of the pattern. *)
Definition head_test (f : byte -> bool) (p_rest : str) : bool :=
  match head p_rest with Some c => f c | None => false end.

Lemma rest_no_match p_rest x t_rest :
  head_test (fun c => c =b? "*") p_rest = false ->
  head_test (fun c => (c =b? "?") || (c =b? x)) p_rest = false ->
  ~ glob_match p_rest (x :: t_rest).
Proof.
  destruct p_rest as [|c p_rest]; cbn; intros H1 H2 H.
  - inversion H.
  - inversion H; subst; [done..|]. bool_to_prop. rewrite byte_eqb_neq in *.
    match goal with Hok : one_ok _ _ |- _ => destruct Hok as [_ [|]] end; naive_solver.
Qed.

Lemma head_test_true f p_rest :
  head_test f p_rest = true -> exists c p_rest', p_rest = c :: p_rest' /\ f c = true.
Proof. destruct p_rest as [|c p_rest]; cbn; [done|]. eauto. Qed.

Lemma one_ok_test c x :
  (c =b? "*") = false -> (c =b? "?") || (c =b? x) = true -> one_ok c x.
Proof.
  rewrite byte_eqb_neq, orb_true_iff, !byte_eqb_eq. done.
Qed.

Lemma gm_one_iff c p x t :
  one_ok c x -> glob_match (c :: p) (x :: t) <-> glob_match p t.
Proof.
  intros Hok. split; [|by constructor]. destruct Hok.
  intros H'. inversion H'; subst; [done..|]. done.
Qed.

(** The body, read off the rest of pattern and text. *)
Definition turn_on_rest (p t : nat) (star : option (nat * nat)) (p_rest t_rest : str) : glob_turn :=
  match head t_rest with
  | None => Exhausted
  | Some x =>
      if head_test (fun c => c =b? "*") p_rest then Again (GState (S p) t (Some (p, t)))
      else if head_test (fun c => (c =b? "?") || (c =b? x)) p_rest
      then Again (GState (S p) (S t) star)
      else match star with
           | Some (sp, st) => Again (GState (S sp) (S st) (Some (sp, S st)))
           | None => Mismatch
           end
  end.

Lemma glob_body_rest pre p_rest u t_rest p t star :
  p = length pre -> t = length u ->
  glob_body (pre ++ p_rest) (u ++ t_rest) (GState p t star) = turn_on_rest p t star p_rest t_rest.
Proof.
  intros Hp Ht. unfold glob_body, turn_on_rest, head_test. cbn.
  rewrite (lookup_rest pre), (lookup_rest u) by done. done.
Qed.

Lemma inv_init pattern text : loop_inv pattern text (GState 0 0 None).
Proof. apply (inv_no_star pattern text [] pattern [] text); done. Qed.

Lemma inv_step_no_star pattern text pre p_rest u t_rest s' :
  pattern = pre ++ p_rest -> text = u ++ t_rest ->
  (glob_match pattern text <-> glob_match p_rest t_rest) ->
  turn_on_rest (length pre) (length u) None p_rest t_rest = Again s' ->
  loop_inv pattern text s'.
Proof.
  intros Hp Ht Hiff. unfold turn_on_rest.
  destruct t_rest as [|x t_rest]; [done|]. cbn [head].
  destruct (head_test _ p_rest) eqn:Hstar.
  { intros [= <-]. apply head_test_true in Hstar as (c & p' & -> & ->%byte_eqb_eq).
    pose proof (inv_star pattern text pre [] p' u [] (x :: t_rest)) as Hinv.
    cbn in Hinv. rewrite !Nat.add_0_r in Hinv. by apply Hinv. }
  destruct (head_test (fun c => (c =b? "?") || _) p_rest) eqn:Hone; [|done].
  intros [= <-]. apply head_test_true in Hone as (c & p' & -> & Hc). cbn in Hstar.
  pose proof (inv_no_star pattern text (pre ++ [c]) p' (u ++ [x]) t_rest) as Hinv.
  rewrite !length_app, !Nat.add_1_r in Hinv. apply Hinv.
  - by rewrite <- app_assoc.
  - by rewrite <- app_assoc.
  - rewrite Hiff. apply gm_one_iff. by apply one_ok_test.
Qed.

Lemma inv_step_star pattern text pre seg p_rest t_pre u t_rest s' :
  pattern = pre ++ "*"%byte :: seg ++ p_rest ->
  text = t_pre ++ u ++ t_rest ->
  Forall2 one_ok seg u ->
  (glob_match pattern text <-> glob_match ("*"%byte :: seg ++ p_rest) (u ++ t_rest)) ->
  turn_on_rest (S (length pre + length seg)) (length t_pre + length u)
    (Some (length pre, length t_pre)) p_rest t_rest = Again s' ->
  loop_inv pattern text s'.
Proof.
  intros Hp Ht HF Hiff. unfold turn_on_rest.
  destruct t_rest as [|x t_rest]; [done|]. cbn [head].
  destruct (head_test _ p_rest) eqn:Hstar.
  { intros [= <-]. apply head_test_true in Hstar as (c & p' & -> & ->%byte_eqb_eq).
    pose proof (inv_star pattern text (pre ++ "*"%byte :: seg) [] p' (t_pre ++ u) []
      (x :: t_rest)) as Hinv.
    cbn in Hinv. rewrite !length_app, !Nat.add_0_r in Hinv. cbn in Hinv.
    rewrite Nat.add_succ_r in Hinv. apply Hinv.
    - by rewrite <- app_assoc.
    - by rewrite <- app_assoc.
    - constructor.
    - rewrite Hiff. by apply gm_later_star. }
  destruct (head_test (fun c => (c =b? "?") || _) p_rest) eqn:Hone; intros [= <-].
  { apply head_test_true in Hone as (c & p' & -> & Hc). cbn in Hstar.
    pose proof (inv_star pattern text pre (seg ++ [c]) p' t_pre (u ++ [x]) t_rest) as Hinv.
    rewrite !length_app, !Nat.add_1_r, !Nat.add_succ_r in Hinv.
    rewrite <- !app_assoc in Hinv. apply Hinv; try done.
    apply Forall2_app; [done|]. constructor; [by apply one_ok_test|constructor]. }
  pose proof (inv_star pattern text pre [] (seg ++ p_rest)
    (t_pre ++ take 1 (u ++ x :: t_rest)) [] (drop 1 (u ++ x :: t_rest))) as Hinv.
  assert (length (take 1 (u ++ x :: t_rest)) = 1) as Hlen by (by destruct u).
  rewrite length_app, Hlen in Hinv. cbn [length] in Hinv.
  rewrite !Nat.add_0_r, Nat.add_1_r, !app_nil_l in Hinv. apply Hinv.
  - done.
  - rewrite <- app_assoc. by rewrite take_drop.
  - constructor.
  - rewrite Hiff. apply gm_star_shift; [done|]. by apply rest_no_match.
Qed.

Lemma inv_body pattern text s :
  loop_inv pattern text s ->
  match glob_body pattern text s with
  | Again s' => loop_inv pattern text s'
  | Mismatch => ~ glob_match pattern text
  | Exhausted => glob_match pattern text <-> trailing_stars pattern (gs_p s) = true
  end.
Proof.
  unfold trailing_stars. intros [pre p_rest u t_rest -> -> Hiff | pre seg p_rest t_pre u t_rest Hp Ht HF Hiff].
  - rewrite (glob_body_rest pre p_rest u t_rest) by done.
    destruct (turn_on_rest _ _ _ _ _) eqn:Hturn.
    + by eapply inv_step_no_star.
    + unfold turn_on_rest in Hturn. destruct t_rest as [|x t_rest]; [done|].
      cbn [head] in Hturn. destruct (head_test _ _) eqn:E1 in Hturn; [done|].
      destruct (head_test _ _) eqn:E2 in Hturn; [done|].
      rewrite Hiff. by apply rest_no_match.
    + cbn [gs_p]. rewrite drop_app_length. destruct t_rest as [|x t_rest].
      * rewrite Hiff, gm_nil_iff. by rewrite is_empty_true.
      * unfold turn_on_rest in Hturn. cbn [head] in Hturn. repeat case_match; done.
  - pose proof Hp as Hp'. pose proof Ht as Ht'.
    rewrite cons_middle, !app_assoc in Hp'. rewrite app_assoc in Ht'.
    assert (glob_body pattern text
      (GState (S (length pre + length seg)) (length t_pre + length u)
         (Some (length pre, length t_pre))) =
      turn_on_rest (S (length pre + length seg)) (length t_pre + length u)
         (Some (length pre, length t_pre)) p_rest t_rest) as ->.
    { rewrite Hp' at 1. rewrite Ht' at 1. apply glob_body_rest;
        rewrite !length_app; cbn; lia. }
    destruct (turn_on_rest _ _ _ _ _) eqn:Hturn.
    + by eapply inv_step_star.
    + unfold turn_on_rest in Hturn. repeat case_match; done.
    + destruct t_rest as [|x t_rest].
      2: { unfold turn_on_rest in Hturn. cbn [head] in Hturn. repeat case_match; done. }
      cbn [gs_p]. rewrite Hp' at 2.
      rewrite drop_app_length' by (rewrite !length_app; cbn; lia).
      rewrite is_empty_true, <- gm_nil_iff, Hiff, app_nil_r. by apply gm_star_end.
Qed.

(** ** Termination *)

(** The lexicographic measure (where the last star restarts, pattern index):
    a restart moves on in the text, and a new star restarts no earlier. *)
Definition glob_measure (pattern text : str) (s : glob_state) : nat :=
  let m := length pattern in
  let n := length text in
  let b := match gs_star s with Some (_, st) => st | None => 0 end in
  (n + 1 - b) * (m + 2) + (m + 1 - gs_p s).

(** The indices stay within the pattern and text. *)
Definition glob_bounds (pattern text : str) (s : glob_state) : Prop :=
  gs_p s <= length pattern /\ gs_t s <= length text
  /\ match gs_star s with
     | Some (sp, st) => sp < gs_p s /\ st <= gs_t s
     | None => True
     end.

Lemma glob_body_bounds pattern text s s' :
  glob_bounds pattern text s -> glob_body pattern text s = Again s' ->
  glob_bounds pattern text s'.
Proof.
  unfold glob_bounds, glob_body. destruct s as [p t star]; cbn.
  intros (Hp & Ht & Hs) Hbody.
  destruct (text !! t) as [x|] eqn:Hx; [|done]. apply lookup_lt_Some in Hx.
  destruct (pattern !! p) as [c|] eqn:Hc; [apply lookup_lt_Some in Hc|];
    destruct star as [[sp st]|];
    repeat case_match; simplify_eq/=; repeat split; lia.
Qed.

Lemma glob_measure_decreases pattern text s s' :
  glob_bounds pattern text s -> glob_body pattern text s = Again s' ->
  glob_measure pattern text s' < glob_measure pattern text s.
Proof.
  unfold glob_bounds, glob_body, glob_measure. destruct s as [p t star]; cbn [gs_p gs_t gs_star].
  intros (Hp & Ht & Hs) Hbody.
  destruct (text !! t) as [x|] eqn:Hx; [|done]. apply lookup_lt_Some in Hx.
  destruct (pattern !! p) as [c|] eqn:Hc; [apply lookup_lt_Some in Hc|];
    destruct star as [[sp st]|];
    repeat case_match; simplify_eq/=; nia.
Qed.

(** With fuel above the measure the loop ends, at a state where its exit is
    the right answer. *)
Lemma glob_loop_spec pattern text fuel s :
  glob_bounds pattern text s -> loop_inv pattern text s ->
  glob_measure pattern text s < fuel ->
  exists r, glob_loop fuel pattern text s = Some r
    /\ (glob_match pattern text <->
        match r with Some p => trailing_stars pattern p = true | None => False end).
Proof.
  revert s. induction fuel as [|fuel IH]; intros s Hb Hinv Hf; [lia|]. cbn.
  pose proof (inv_body _ _ _ Hinv) as Hbody.
  destruct (glob_body pattern text s) as [s'| |] eqn:E.
  - apply IH; [by eapply glob_body_bounds|done|].
    pose proof (glob_measure_decreases _ _ _ _ Hb E). lia.
  - exists None. split; [done|]. tauto.
  - eauto.
Qed.

Lemma glob_spec pattern text :
  (exists r, glob_loop (glob_fuel pattern text) pattern text (GState 0 0 None) = Some r)
  /\ (glob pattern text = true <-> glob_match pattern text).
Proof.
  destruct (glob_loop_spec pattern text (glob_fuel pattern text) (GState 0 0 None))
    as (r & Hr & Hiff).
  - repeat split; cbn; lia.
  - apply inv_init.
  - unfold glob_measure, glob_fuel. cbn [gs_star gs_p]. nia.
  - split; [eauto|]. unfold glob. rewrite Hr, Hiff. by destruct r.
Qed.

(** ** Matching under a casemapping *)

Lemma fold_one_ok m c x : one_ok (lower m c) x <->
  c <> "*"%byte /\ (c = "?"%byte \/ lower m c = x).
Proof. unfold one_ok. by rewrite (fold_star (f := lower m)), (fold_any (f := lower m)). Qed.

(** C39. The hostmask matcher decides the declarative glob relation: its loop
    always ends within the fuel, and it answers [true] exactly when the folded
    mask matches the folded subject ([*] any run, [?] any one byte, anything
    else itself). *)
Theorem mask_matches_correct m mask subject :
  (exists r, glob_loop (glob_fuel (casefold m mask) (casefold m subject))
               (casefold m mask) (casefold m subject) (GState 0 0 None) = Some r)
  /\ (mask_matches m mask subject = true
      <-> glob_match (casefold m mask) (casefold m subject)).
Proof. apply glob_spec. Qed.

(** A pattern with no star matches byte for byte. *)
Lemma gm_no_star seg t :
  Forall (fun c => c <> "*"%byte) seg -> glob_match seg t <-> Forall2 one_ok seg t.
Proof.
  intros HF. rewrite <- (app_nil_r seg) at 1. rewrite gm_seg by done. split.
  - intros (u & t' & -> & H2 & H). inversion H; subst. by rewrite app_nil_r.
  - intros H. exists t, []. rewrite app_nil_r. split_and!; [done..|constructor].
Qed.

Lemma Forall2_one_ok_literal seg u :
  Forall (fun c => c <> "*"%byte /\ c <> "?"%byte) seg -> Forall2 one_ok seg u <-> seg = u.
Proof.
  intros HF. revert u. induction HF as [|c seg [Hs Hq] HF IH]; intros u.
  - split; [by intros ->%Forall2_nil_inv_l|by intros <-].
  - destruct u as [|x u]; [by split; [inversion 1|]|].
    rewrite Forall2_cons, IH. unfold one_ok. naive_solver.
Qed.

Lemma fold_no_wildcard m mask :
  "*"%byte ∉ mask -> "?"%byte ∉ mask ->
  Forall (fun c => c <> "*"%byte /\ c <> "?"%byte) (lower m <$> mask).
Proof.
  intros Hs Hq. apply Forall_fmap, Forall_forall. intros c Hc. cbn.
  rewrite (fold_star (f := lower m)), (fold_any (f := lower m)). naive_solver.
Qed.

(** A mask with no wildcard matches exactly the subjects equal to it
    under the casemapping, so a ban on a literal name cannot match anyone
    else, and cannot be dodged by a change of case. *)
Theorem mask_literal m mask subject :
  "*"%byte ∉ mask -> "?"%byte ∉ mask ->
  mask_matches m mask subject = casemap_eq m mask subject.
Proof.
  intros Hs Hq. pose proof (fold_no_wildcard m mask Hs Hq) as HF.
  apply eq_true_iff_eq. rewrite casemap_eq_iff.
  unfold mask_matches, matches_folded, FoldedMask_new, casefold.
  rewrite (proj2 (glob_spec _ _)), gm_no_star.
  - by apply Forall2_one_ok_literal.
  - eapply Forall_impl; [exact HF|]. naive_solver.
Qed.

Lemma mask_literal_witness :
  mask_matches Rfc1459 (bs "Al[x]!u@h") (bs "al{x}!u@h") = true
  /\ mask_matches Rfc1459 (bs "Al[x]!u@h") (bs "al{x}!u@h")
     = casemap_eq Rfc1459 (bs "Al[x]!u@h") (bs "al{x}!u@h").
Proof.
  split; [vm_compute; reflexivity|].
  apply (mask_literal Rfc1459); by apply contains_byte_false.
Defined.
