(* ===== verification/Num.v ===== *)
(** * Decimal integers

    Rust's unsigned [FromStr] and the [{:0w}] formatting, which the time and
    history components use, with the lemmas that make fixed-width printing and
    parsing inverse. *)

From S2P Require Import Prelude Str.

Local Open Scope Z_scope.

Definition digit (z : Z) : byte := u8 (48 + z).
Definition digit_value (b : byte) : Z := bz b - 48.

(** The value of a digit string. *)
Definition dec_value (s : str) : Z := foldl (fun acc b => acc * 10 + digit_value b) 0 s.

(** [s.parse::<uN>().ok()] with [max] the type's maximum: an optional [+],
    then digits, refused when empty or too large.  The per-digit overflow
    checks fail exactly when the whole value exceeds [max], since every prefix
    of a digit string is at most the whole ([dec_value_prefix]). *)
Definition parse_uint (max : Z) (s : str) : option Z :=
  let digits := match s with b :: rest => if b =b? "+" then rest else s | [] => s end in
  if is_empty digits || negb (forallb is_ascii_digit digits) || (max <? dec_value digits)
  then None
  else Some (dec_value digits).

(** The decimal digits of a non-negative integer ([{}]).  A digit takes more
    than one bit, so the bit length is fuel enough ([dec_fuel_fixed]). *)
Fixpoint dec_fuel (fuel : nat) (z : Z) : str :=
  match fuel with
  | O => []
  | S fuel' => if z <? 10 then [digit z] else dec_fuel fuel' (z / 10) ++ [digit (z mod 10)]
  end.
Definition dec (z : Z) : str := dec_fuel (S (Z.to_nat (Z.log2 z))) z.
#[global] Arguments dec : simpl never.

(** [{:0w}] of an integer. *)
Definition dec_pad (w : nat) (z : Z) : str :=
  if z <? 0 then "-"%byte :: repeat "0"%byte (w - 1 - length (dec (- z))) ++ dec (- z)
  else repeat "0"%byte (w - length (dec z)) ++ dec z.

(** Exactly [w] digits, most significant first. *)
Fixpoint fixed (w : nat) (z : Z) : str :=
  match w with
  | O => []
  | S w' => fixed w' (z / 10) ++ [digit (z mod 10)]
  end.

(** ** Lemmas *)

Lemma digit_value_digit z : 0 <= z < 10 -> digit_value (digit z) = z.
Proof. intros. unfold digit_value, digit. rewrite bz_u8, Z.mod_small; lia. Qed.

Lemma is_digit_digit z : 0 <= z < 10 -> is_ascii_digit (digit z) = true.
Proof.
  intros. unfold is_ascii_digit, digit. apply in_range_spec. rewrite bz_u8, Z.mod_small by lia.
  change (bz "0") with 48. change (bz "9") with 57. lia.
Qed.

Lemma digit_digit_value b : is_ascii_digit b = true -> digit (digit_value b) = b.
Proof. by byte_cases b. Qed.

Lemma digit_value_range b : is_ascii_digit b = true -> 0 <= digit_value b < 10.
Proof.
  unfold is_ascii_digit. rewrite in_range_spec. unfold digit_value.
  change (bz "0") with 48. change (bz "9") with 57. lia.
Qed.

Lemma dec_value_snoc s b : dec_value (s ++ [b]) = dec_value s * 10 + digit_value b.
Proof. unfold dec_value. by rewrite foldl_app. Qed.

Lemma dec_value_range s :
  forallb is_ascii_digit s = true -> 0 <= dec_value s < 10 ^ Z.of_nat (length s).
Proof.
  induction s as [|b s IH] using rev_ind; [cbn; lia|].
  rewrite forallb_app, andb_true_iff. cbn [forallb]. rewrite andb_true_r. intros [Hs Hb].
  rewrite dec_value_snoc, length_app, Nat2Z.inj_add, Z.pow_add_r by (cbn; lia).
  apply digit_value_range in Hb. specialize (IH Hs). change (Z.of_nat (length [b])) with 1. nia.
Qed.

Lemma dec_value_prefix a s :
  forallb is_ascii_digit (a ++ s) = true -> dec_value a <= dec_value (a ++ s).
Proof.
  induction s as [|b s IH] using rev_ind; [rewrite app_nil_r; lia|].
  rewrite app_assoc, forallb_app, andb_true_iff. cbn [forallb]. rewrite andb_true_r. intros [Hs Hb].
  rewrite dec_value_snoc. apply digit_value_range in Hb. specialize (IH Hs).
  apply dec_value_range in Hs. nia.
Qed.

Lemma fixed_length w z : length (fixed w z) = w.
Proof. revert z. induction w as [|w IH]; intros z; [done|]. cbn [fixed]. rewrite length_app, IH. cbn. lia. Qed.

Lemma fixed_digits w z : 0 <= z -> forallb is_ascii_digit (fixed w z) = true.
Proof.
  revert z. induction w as [|w IH]; intros z Hz; [done|]. cbn [fixed].
  rewrite forallb_app, IH by (apply Z.div_pos; lia). cbn.
  rewrite is_digit_digit; [done|]. apply Z.mod_pos_bound. lia.
Qed.

Lemma dec_value_fixed w z : 0 <= z < 10 ^ Z.of_nat w -> dec_value (fixed w z) = z.
Proof.
  revert z. induction w as [|w IH]; intros z Hz; [cbn in *; lia|]. cbn [fixed].
  rewrite Nat2Z.inj_succ, Z.pow_succ_r in Hz by lia.
  assert (0 <= z / 10 < 10 ^ Z.of_nat w).
  { split; [apply Z.div_pos; lia|apply Z.div_lt_upper_bound; lia]. }
  rewrite dec_value_snoc, IH, digit_value_digit by (done || (apply Z.mod_pos_bound; lia)).
  pose proof (Z.div_mod z 10). lia.
Qed.

Lemma fixed_dec_value s : forallb is_ascii_digit s = true -> fixed (length s) (dec_value s) = s.
Proof.
  induction s as [|b s IH] using rev_ind; [done|].
  rewrite forallb_app, andb_true_iff. cbn [forallb]. rewrite andb_true_r. intros [Hs Hb].
  rewrite length_app. cbn [length]. rewrite Nat.add_1_r. cbn [fixed].
  pose proof (digit_value_range b Hb). rewrite dec_value_snoc.
  rewrite Z.div_add_l, Z.div_small, Z.add_0_r, IH by (done || lia).
  rewrite Z.add_comm, Z.mod_add, Z.mod_small by lia. by rewrite digit_digit_value.
Qed.

Lemma fixed_zero w : fixed w 0 = repeat "0"%byte w.
Proof.
  induction w as [|w IH]; [done|]. cbn [fixed]. change (0 / 10) with 0. rewrite IH.
  change (digit (0 mod 10)) with "0"%byte. symmetry. apply repeat_cons.
Qed.

(** Any fuel above the bit length prints the same digits. *)
Lemma dec_fuel_fixed fuel w z :
  (0 < fuel)%nat -> z < 2 ^ Z.of_nat fuel -> 0 <= z < 10 ^ Z.of_nat w -> (0 < w)%nat ->
  repeat "0"%byte (w - length (dec_fuel fuel z)) ++ dec_fuel fuel z = fixed w z.
Proof.
  revert w z. induction fuel as [|fuel IH]; intros w z Hf Hz2 Hz Hw; [lia|].
  destruct w as [|w]; [lia|]. cbn [dec_fuel fixed]. destruct (Z.ltb_spec z 10) as [Hs|Hs].
  - rewrite Z.mod_small, Z.div_small by lia. f_equal. cbn [length].
    rewrite Nat.sub_succ, Nat.sub_0_r. symmetry. apply fixed_zero.
  - rewrite Nat2Z.inj_succ, Z.pow_succ_r in Hz, Hz2 by lia.
    assert (0 < z / 10 < z) by (split; [apply Z.div_str_pos|apply Z.div_lt]; lia).
    assert (z / 10 < 10 ^ Z.of_nat w) by (apply Z.div_lt_upper_bound; lia).
    assert (z / 10 < 2 ^ Z.of_nat fuel) by (apply Z.div_lt_upper_bound; lia).
    assert (0 < w)%nat by (destruct w; cbn in *; lia).
    assert (0 < fuel)%nat by (destruct fuel; cbn in *; lia).
    rewrite <- (IH w (z / 10)) by lia. rewrite length_app. cbn [length].
    rewrite app_assoc. do 3 f_equal. lia.
Qed.

Lemma log2_fuel z : 0 <= z -> z < 2 ^ Z.of_nat (S (Z.to_nat (Z.log2 z))).
Proof.
  intros Hz. rewrite Nat2Z.inj_succ, Z2Nat.id by apply Z.log2_nonneg.
  destruct (decide (z = 0)) as [->|]; [done|]. apply Z.log2_spec. lia.
Qed.

Lemma dec_fixed w z :
  0 <= z < 10 ^ Z.of_nat w -> (0 < w)%nat ->
  repeat "0"%byte (w - length (dec z)) ++ dec z = fixed w z.
Proof.
  intros Hz Hw. apply dec_fuel_fixed; [lia| |done|done]. apply log2_fuel. lia.
Qed.

Lemma dec_length w z : 0 <= z < 10 ^ Z.of_nat w -> (0 < w)%nat -> (length (dec z) <= w)%nat.
Proof.
  intros Hz Hw. pose proof (f_equal length (dec_fixed w z Hz Hw)) as Hl.
  rewrite length_app, repeat_length, fixed_length in Hl. lia.
Qed.

Lemma dec_value_zeros n s : dec_value (repeat "0"%byte n ++ s) = dec_value s.
Proof. unfold dec_value. induction n as [|n IH]; [done|]. exact IH. Qed.

Lemma dec_value_dec z : 0 <= z -> dec_value (dec z) = z.
Proof.
  intros Hz. assert (z < 10 ^ Z.of_nat (S (Z.to_nat z))).
  { rewrite Nat2Z.inj_succ, Z2Nat.id by lia. pose proof (Z.pow_gt_lin_r 10 (Z.succ z)). lia. }
  rewrite <- (dec_value_zeros (S (Z.to_nat z) - length (dec z))), dec_fixed by lia.
  by apply dec_value_fixed.
Qed.

Lemma dec_fuel_digits fuel z :
  (0 < fuel)%nat -> 0 <= z -> dec_fuel fuel z <> [] /\ forallb is_ascii_digit (dec_fuel fuel z) = true.
Proof.
  revert z. induction fuel as [|fuel IH]; intros z Hf Hz; [lia|]. cbn [dec_fuel].
  destruct (Z.ltb_spec z 10).
  - split; [done|]. cbn. by rewrite is_digit_digit.
  - split; [by destruct (dec_fuel fuel (z / 10))|]. rewrite forallb_app. cbn.
    rewrite is_digit_digit by (apply Z.mod_pos_bound; lia).
    destruct fuel as [|fuel]; [done|].
    rewrite (proj2 (IH (z / 10) ltac:(lia) ltac:(apply Z.div_pos; lia))). done.
Qed.

Lemma dec_digits z : 0 <= z -> dec z <> [] /\ forallb is_ascii_digit (dec z) = true.
Proof. intros Hz. apply dec_fuel_digits; lia. Qed.

Lemma dec_pad_fixed w z :
  0 <= z < 10 ^ Z.of_nat w -> (0 < w)%nat -> dec_pad w z = fixed w z.
Proof.
  intros Hz Hw. unfold dec_pad. destruct (Z.ltb_spec z 0); [lia|]. by apply dec_fixed.
Qed.

Lemma parse_uint_digits max s :
  s <> [] -> forallb is_ascii_digit s = true -> dec_value s <= max ->
  parse_uint max s = Some (dec_value s).
Proof.
  intros Hne Hd Hm. unfold parse_uint. destruct s as [|b s]; [done|].
  assert ((b =b? "+") = false) as ->.
  { apply byte_eqb_neq. intros ->. done. }
  rewrite Hd. cbn [is_empty negb orb]. destruct (Z.ltb_spec max (dec_value (b :: s))); [lia|done].
Qed.

Lemma parse_uint_bound max s n : parse_uint max s = Some n -> 0 <= n <= max.
Proof.
  unfold parse_uint. set (digits := match s with [] => _ | _ => _ end).
  destruct (_ || _) eqn:E; [done|]. intros [= <-]. bool_to_prop.
  split; [|done]. by apply dec_value_range.
Qed.
