(* ===== verification/Message.v ===== *)
(** * IRC messages ([e6irc-proto/src/message.rs])

    The wire budgets, truncation on character boundaries, lossy decoding of a
    server line, the middle-parameter echo, the zero-copy parser and the
    tag-value escaping.  A [&str] is a byte list; where the source walks
    characters the model walks bytes, which is the same because every
    character it compares with is ASCII ([unescape_chars_bytes],
    [escape_chars_bytes]). *)

From S2P Require Import Prelude Str.

(** ** Wire budgets *)

Definition MAX_LINE_LEN : nat := 512.
Definition MAX_SERVER_TAGS_LEN : nat := Z.to_nat 8191.
Definition MAX_CLIENT_TAGS_LEN : nat := Z.to_nat 4096.
Definition MAX_CLIENT_FRAME_LEN : nat := MAX_CLIENT_TAGS_LEN + MAX_LINE_LEN - 2.
Definition MAX_SERVER_FRAME_LEN : nat := MAX_SERVER_TAGS_LEN + MAX_LINE_LEN - 2.

#[global] Arguments MAX_LINE_LEN : simpl never.
#[global] Arguments MAX_SERVER_TAGS_LEN : simpl never.
#[global] Arguments MAX_CLIENT_TAGS_LEN : simpl never.

Definition frame_fits (line : str) (tags_budget : nat) : bool :=
  let body_budget := MAX_LINE_LEN - 2 in
  if negb (starts_with "@" line) then length line <=? body_budget
  else match position " " line with
       | None => length line <=? tags_budget
       | Some space =>
           let tags_len := space + 1 in
           (tags_len <=? tags_budget) && (length line - tags_len <=? body_budget)
       end.

Definition client_frame_fits (line : str) : bool := frame_fits line MAX_CLIENT_TAGS_LEN.
Definition server_frame_fits (line : str) : bool := frame_fits line MAX_SERVER_TAGS_LEN.

Definition valid_message_id (value : str) : bool :=
  negb (is_empty value)
  && negb (starts_with ":" value)
  && negb (existsb (fun b => (b =b? " ") || (b =b? CR) || (b =b? LF)) value).

(** ** Truncation *)

(** [while !s.is_char_boundary(i) { i -= 1 }]: index 0 is a boundary, so the
    subtraction never underflows. *)
Fixpoint floor_loop (s : str) (i : nat) : nat :=
  if is_char_boundary s i then i
  else match i with O => O | S i' => floor_loop s i' end.

Definition floor_char_boundary (s : str) (index : nat) : nat :=
  if length s <=? index then length s else floor_loop s index.

Definition truncate_on_char_boundary (s : str) (max_bytes : nat) : str :=
  take (floor_char_boundary s max_bytes) s.

(** [decode_server_line]. *)
Definition decode_server_line (line : str) : str :=
  let text := from_utf8_lossy line in
  if negb (server_frame_fits line) || server_frame_fits text then text
  else
    let body_budget := MAX_LINE_LEN - 2 in
    match strip_byte "@" text with
    | None => truncate_on_char_boundary text body_budget
    | Some rest =>
        match split_once " " rest with
        | None => truncate_on_char_boundary text MAX_SERVER_TAGS_LEN
        | Some (tags, body) =>
            let tags_len := length tags + 2 in
            let head :=
              if tags_len <=? MAX_SERVER_TAGS_LEN then "@"%byte :: tags ++ [" "%byte]
              else
                let kept :=
                  List.filter (fun tag => negb (contains_sub REPLACEMENT tag)) (split ";" tags) in
                if negb (is_empty kept) then "@"%byte :: join ";" kept ++ [" "%byte] else [] in
            head ++ truncate_on_char_boundary body body_budget
        end
    end.

(** ** Middle parameters *)

Definition ECHO_MAX : nat := 64.

Definition stands_alone (token : str) : bool :=
  negb (is_empty token)
  && negb (starts_with ":" token)
  && negb (existsb (fun b => (b =b? " ") || (b =b? CR) || (b =b? LF) || (b =b? NUL)) token).

(** [MiddleParam::echo(..).as_str()]. *)
Definition MiddleParam_echo (token : str) : str :=
  if negb (stands_alone token) then bs "*" else truncate_on_char_boundary token ECHO_MAX.

(** ** Parsed messages *)

Record Tag : Type := MkTag {
  tag_key : str;
  tag_value : option str;
}.

Record Source : Type := MkSource {
  src_name : str;
  src_user : option str;
  src_host : option str;
}.

Record Message : Type := MkMessage {
  msg_tags : list Tag;
  msg_source : option Source;
  msg_command : str;
  msg_params : list str;
  msg_has_trailing : bool;
}.

Inductive ParseError : Type :=
| PEmpty
| PIllegalByte
| PTruncated
| PBadTag
| PBadSource
| PBadCommand.

#[global] Instance Tag_eq_dec : EqDecision Tag.
Proof. solve_decision. Defined.
#[global] Instance Source_eq_dec : EqDecision Source.
Proof. solve_decision. Defined.
#[global] Instance Message_eq_dec : EqDecision Message.
Proof. solve_decision. Defined.
#[global] Instance ParseError_eq_dec : EqDecision ParseError.
Proof. solve_decision. Defined.

Definition valid_command (command : str) : bool :=
  match command with
  | [] => false
  | _ =>
      if forallb is_ascii_alphabetic command then true
      else if (length command =? 3) && forallb is_ascii_digit command then true
      else existsb is_ascii_alphabetic command
           && forallb (fun b => is_ascii_alphanumeric b || (b =b? "_") || (b =b? "-")) command
  end.

Definition is_illegal_byte (b : byte) : bool := (b =b? CR) || (b =b? LF) || (b =b? NUL).
Definition contains_illegal_byte (s : str) : bool := existsb is_illegal_byte s.

(** *** Tag values *)

(** The character an escape names; any other escaped character is itself. *)
Definition unescape_char (c : byte) : byte :=
  if c =b? ":" then ";"%byte
  else if c =b? "s" then " "%byte
  else if c =b? BACKSLASH then BACKSLASH
  else if c =b? "r" then CR
  else if c =b? "n" then LF
  else c.

Fixpoint unescape_loop (s : str) : str :=
  match s with
  | [] => []
  | c :: s' =>
      if c =b? BACKSLASH then
        match s' with
        | e :: s'' => unescape_char e :: unescape_loop s''
        | [] => []
        end
      else c :: unescape_loop s'
  end.

Definition unescape_tag_value (raw : str) : str :=
  if negb (contains_byte BACKSLASH raw) then raw else unescape_loop raw.

Definition escape_char (c : byte) : str :=
  if c =b? ";" then [BACKSLASH; ":"%byte]
  else if c =b? " " then [BACKSLASH; "s"%byte]
  else if c =b? BACKSLASH then [BACKSLASH; BACKSLASH]
  else if c =b? CR then [BACKSLASH; "r"%byte]
  else if c =b? LF then [BACKSLASH; "n"%byte]
  else if c =b? NUL then []
  else [c].

Definition needs_escape (b : byte) : bool :=
  (b =b? ";") || (b =b? " ") || (b =b? BACKSLASH) || (b =b? CR) || (b =b? LF) || (b =b? NUL).

Definition escape_tag_value (value : str) : str :=
  if negb (existsb needs_escape value) then value else concat (escape_char <$> value).

(** *** The parser *)

Definition parse_tag (item : str) : result ParseError Tag :=
  let '(key, value) :=
    match split_once "=" item with
    | Some (k, v) => (k, Some (unescape_tag_value v))
    | None => (item, None)
    end in
  if is_empty key then Err PBadTag else Ok (MkTag key value).

Definition parse_tag_section (raw_tags : str) : result ParseError (list Tag) :=
  mapM parse_tag (split ";" raw_tags).

Definition parse_source (raw_source : str) : result ParseError Source :=
  if is_empty raw_source then Err PBadSource
  else
    let '(main, host) :=
      match split_once "@" raw_source with
      | Some (m, h) => (m, Some h)
      | None => (raw_source, None)
      end in
    let '(name, user) :=
      match split_once "!" main with
      | Some (n, u) => (n, Some u)
      | None => (main, None)
      end in
    if is_empty name then Err PBadSource else Ok (MkSource name user host).

(** The parameter loop.  Every turn that continues consumes at least one byte,
    so fuel above the length suffices ([parse_params_total]). *)
Fixpoint parse_params (fuel : nat) (rest : str) : option (list str * bool) :=
  match fuel with
  | O => None
  | S fuel' =>
      let rest := trim_start_matches " " rest in
      if is_empty rest then Some ([], false)
      else match strip_byte ":" rest with
           | Some trailing => Some ([trailing], true)
           | None =>
               match split_once " " rest with
               | Some (param, r) =>
                   '(params, has_trailing) ← parse_params fuel' r;
                   Some (param :: params, has_trailing)
               | None => Some ([rest], false)
               end
           end
  end.

(** The parts of [Message::parse], in its order: the tag section, the source,
    then the command and its parameters. *)
Definition parse_tags_part (line : str) : result ParseError (list Tag * str) :=
  match strip_byte "@" line with
  | None => Ok ([], line)
  | Some after_at =>
      '(raw_tags, after) ← ok_or PTruncated (split_once " " after_at);
      tags ← parse_tag_section raw_tags;
      Ok (tags, after)
  end.

Definition parse_source_part (rest : str) : result ParseError (option Source * str) :=
  match strip_byte ":" rest with
  | None => Ok (None, rest)
  | Some after_colon =>
      '(raw_source, after) ← ok_or PTruncated (split_once " " after_colon);
      source ← parse_source raw_source;
      Ok (Some source, trim_start_matches " " after)
  end.

Definition parse_command_part (tags : list Tag) (source : option Source) (rest : str)
    : result ParseError Message :=
  let '(command, rest) :=
    match split_once " " rest with Some (c, r) => (c, r) | None => (rest, []) end in
  if negb (valid_command command) then Err PBadCommand
  else
    let '(params, has_trailing) := default ([], false) (parse_params (S (length rest)) rest) in
    Ok (MkMessage tags source command params has_trailing).

(** [Message::parse]. *)
Definition parse (line : str) : result ParseError Message :=
  if contains_illegal_byte line then Err PIllegalByte
  else
    '(tags, rest) ← parse_tags_part line;
    '(source, rest) ← parse_source_part (trim_start_matches " " rest);
    if is_empty rest then
      if is_empty tags && negb (bool_decide (is_Some source)) then Err PEmpty else Err PTruncated
    else parse_command_part tags source rest.

(** [Message::tag]: the last tag with this key. *)
Definition find_tag (tags : list Tag) (key : str) : option Tag :=
  List.find (fun t => str_eqb (tag_key t) key) (rev tags).
Definition message_tag (m : Message) (key : str) : option Tag := find_tag (msg_tags m) key.

(** [tag_section_value]. *)
Definition tag_section_value (line : str) (key : str) : option str :=
  rest ← strip_byte "@" line;
  last ← position " " rest;
  section ← from_utf8 (take last rest);
  if contains_illegal_byte section then None
  else
    tags ← result_ok (parse_tag_section section);
    tag ← find_tag tags key;
    tag_value tag.

(** *** The escapes, character by character

    The source iterates [chars()]; these are its loops over characters given
    as byte strings. *)

Definition unescape_one (e : str) : str :=
  match e with [c] => [unescape_char c] | _ => e end.

Fixpoint unescape_chars (cs : list str) : str :=
  match cs with
  | [] => []
  | c :: cs' =>
      if str_eqb c [BACKSLASH] then
        match cs' with
        | e :: cs'' => unescape_one e ++ unescape_chars cs''
        | [] => []
        end
      else c ++ unescape_chars cs'
  end.

Definition escape_chars (cs : list str) : str :=
  concat ((fun c => match c with [b] => escape_char b | _ => c end) <$> cs).

(** ** Escaping lemmas *)

Lemma unescape_loop_id s : BACKSLASH ∉ s -> unescape_loop s = s.
Proof.
  induction s as [|c s IH]; cbn; [done|]. rewrite not_elem_of_cons. intros [Hc Hs].
  rewrite (proj2 (byte_eqb_neq c BACKSLASH)) by done. by rewrite IH.
Qed.

(** The borrowing fast path agrees with the loop. *)
Lemma unescape_tag_value_loop raw : unescape_tag_value raw = unescape_loop raw.
Proof.
  unfold unescape_tag_value. destruct (contains_byte BACKSLASH raw) eqn:E; [done|].
  apply contains_byte_false in E. by rewrite unescape_loop_id.
Qed.

Lemma escape_char_id c : needs_escape c = false -> escape_char c = [c].
Proof. by byte_cases c. Qed.

Lemma escape_tag_value_loop value : escape_tag_value value = concat (escape_char <$> value).
Proof.
  unfold escape_tag_value. destruct (existsb needs_escape value) eqn:E; [done|]. cbn.
  apply existsb_false_iff in E. induction E as [|c s Hc _ IH]; cbn; [done|].
  by rewrite escape_char_id, <- IH.
Qed.

Lemma unescape_loop_high s t :
  Forall (fun b => is_ascii b = false) s -> unescape_loop (s ++ t) = s ++ unescape_loop t.
Proof.
  induction 1 as [|c s Hc _ IH]; cbn; [done|].
  destruct (byte_eqb_spec c BACKSLASH) as [->|]; [done|]. by rewrite IH.
Qed.

Lemma unescape_char_high c : is_ascii c = false -> unescape_char c = c.
Proof. by byte_cases c. Qed.

Lemma escape_char_high c : is_ascii c = false -> escape_char c = [c].
Proof. by byte_cases c. Qed.

(** The first character of a valid string is one ASCII byte or all high. *)
Lemma chars_cons b rest :
  utf8_valid (b :: rest) = true ->
  exists tail rest', rest = tail ++ rest' /\ chars (b :: rest) = (b :: tail) :: chars rest'
    /\ utf8_valid rest' = true
    /\ (is_ascii b = true /\ tail = []
        \/ is_ascii b = false /\ Forall (fun x => is_ascii x = false) tail).
Proof.
  rewrite utf8_valid_cons. intros [Hok Hv]%andb_true_iff.
  unfold chars. rewrite chunks_cons. destruct (utf8_next b rest) as [ok n] eqn:E. cbn in *.
  exists (take n rest), (drop n rest). rewrite take_drop. split_and!; [done..|].
  destruct (is_ascii b) eqn:Hb; [left|right].
  - rewrite utf8_next_ascii in E by done. naive_solver.
  - apply utf8_next_cont in E as [_ HF]. split; [done|].
    eapply Forall_impl; [exact HF|]. intros ?. apply cont_not_ascii.
Qed.

(** Walking bytes is walking characters, for the text of any [&str]. *)
Lemma unescape_chars_bytes s :
  utf8_valid s = true -> unescape_chars (chars s) = unescape_loop s.
Proof.
  remember (length s) as m eqn:Hm. revert s Hm.
  induction (lt_wf m) as [m _ IH]. intros s -> Hv.
  destruct s as [|b rest]; [done|].
  destruct (chars_cons b rest Hv) as (tail & rest' & -> & -> & Hv' & Hcase).
  cbn [length unescape_chars] in *. rewrite length_app in IH.
  destruct Hcase as [[Hb ->]|[Hb HF]].
  - cbn. destruct (byte_eqb_spec b BACKSLASH) as [->|Hne].
    + unfold str_eqb. rewrite bool_decide_eq_true_2 by done.
      destruct rest' as [|e rest'']; [done|].
      destruct (chars_cons e rest'' Hv') as (tl2 & r3 & -> & -> & Hv3 & Hcase).
      cbn [length] in IH. rewrite length_app in IH. rewrite (IH (length r3)) by (done || lia).
      destruct Hcase as [[He ->]|[He HF2]]; [done|].
      rewrite unescape_loop_high by done.
      destruct tl2; cbn; by rewrite !unescape_char_high.
    + unfold str_eqb. rewrite bool_decide_eq_false_2 by congruence.
      rewrite (IH (length rest')) by (done || (cbn; lia)). done.
  - unfold str_eqb. rewrite bool_decide_eq_false_2 by (intros [= -> ->]; done).
    rewrite (IH (length rest')) by (done || lia). cbn.
    destruct (byte_eqb_spec b BACKSLASH) as [->|]; [done|].
    by rewrite unescape_loop_high.
Qed.

Lemma escape_chars_bytes s :
  utf8_valid s = true -> escape_chars (chars s) = concat (escape_char <$> s).
Proof.
  remember (length s) as m eqn:Hm. revert s Hm.
  induction (lt_wf m) as [m _ IH]. intros s -> Hv.
  destruct s as [|b rest]; [done|].
  destruct (chars_cons b rest Hv) as (tail & rest' & -> & Hcs & Hv' & Hcase).
  rewrite Hcs. unfold escape_chars in *. rewrite fmap_cons. cbn [concat fmap list_fmap].
  cbn [length] in IH. rewrite length_app in IH.
  rewrite (IH (length rest')) by (done || lia). rewrite fmap_app, concat_app.
  rewrite app_assoc. f_equal. destruct Hcase as [[Hb ->]|[Hb HF]].
  - by rewrite app_nil_r.
  - rewrite escape_char_high by done.
    assert (concat (escape_char <$> tail) = tail) as ->;
      [|destruct tail; cbn; by rewrite ?escape_char_high].
    clear -HF. induction HF as [|c s Hc _ IH]; cbn; [done|].
    by rewrite escape_char_high, IH.
Qed.

Lemma unescape_escape_char c t :
  unescape_loop (escape_char c ++ t) =
    (if c =b? NUL then [] else [c]) ++ unescape_loop t.
Proof. by byte_cases c. Qed.

Lemma unescape_escape value :
  unescape_loop (concat (escape_char <$> value))
  = List.filter (fun b => negb (b =b? NUL)) value.
Proof.
  induction value as [|c value IH]; cbn; [done|].
  rewrite unescape_escape_char, IH. by destruct (c =b? NUL).
Qed.

Lemma escape_char_safe c :
  forallb (fun b => negb ((b =b? ";") || (b =b? " ") || is_illegal_byte b)) (escape_char c) = true.
Proof. by byte_cases c. Qed.

Lemma escape_safe value :
  forallb (fun b => negb ((b =b? ";") || (b =b? " ") || is_illegal_byte b))
    (escape_tag_value value) = true.
Proof.
  rewrite escape_tag_value_loop.
  induction value as [|c value IH]; cbn; [done|]. by rewrite forallb_app, escape_char_safe.
Qed.

(** ** Truncation lemmas *)

Lemma floor_loop_spec s i :
  floor_loop s i <= i /\ is_char_boundary s (floor_loop s i) = true
  /\ forall j, floor_loop s i < j <= i -> is_char_boundary s j = false.
Proof.
  induction i as [|i IH]; cbn [floor_loop].
  { cbn. split_and!; [lia|done|lia]. }
  destruct (is_char_boundary s (S i)) eqn:E.
  { split_and!; [lia|done|lia]. }
  destruct IH as (H1 & H2 & H3). split_and!; [lia|done|].
  intros j Hj. destruct (decide (j = S i)) as [->|]; [done|]. apply H3. lia.
Qed.

Lemma boundary_length s : is_char_boundary s (length s) = true.
Proof.
  unfold is_char_boundary. destruct (length s) eqn:E; [done|].
  rewrite (proj2 (lookup_ge_None s _)) by lia. by apply Nat.eqb_refl.
Qed.

Lemma floor_char_boundary_spec s n :
  floor_char_boundary s n <= n /\ floor_char_boundary s n <= length s
  /\ is_char_boundary s (floor_char_boundary s n) = true
  /\ forall j, floor_char_boundary s n < j <= n -> j <= length s -> is_char_boundary s j = false.
Proof.
  unfold floor_char_boundary. destruct (length s <=? n) eqn:E; bool_to_prop.
  - split_and!; [lia|lia|apply boundary_length|lia].
  - destruct (floor_loop_spec s n) as (H1 & H2 & H3).
    split_and!; [lia|lia|done|]. intros. by apply H3.
Qed.

(** Boundaries past the first character are those of the rest. *)
Lemma boundary_drop b rest w j :
  utf8_valid (drop w rest) = true -> w <= length rest ->
  is_char_boundary (drop w rest) j = true -> is_char_boundary (b :: rest) (S (w + j)) = true.
Proof.
  intros Hv Hw Hb. rewrite boundary_cons, <- lookup_drop.
  destruct j as [|j].
  - destruct (drop w rest) as [|x rest'] eqn:E; cbn.
    + apply (f_equal length) in E. rewrite length_drop in E. cbn in E.
      apply Nat.eqb_eq. lia.
    + rewrite utf8_valid_cons in Hv. apply andb_true_iff in Hv as [Hok _].
      destruct (utf8_next x rest') as [ok n] eqn:En. cbn in Hok. subst ok.
      by rewrite (utf8_next_lead _ _ _ En).
  - unfold is_char_boundary in Hb. destruct (drop w rest !! S j); [done|].
    rewrite length_drop in Hb. bool_to_prop. apply Nat.eqb_eq. lia.
Qed.

(** A valid string has a boundary within three bytes below any index. *)
Lemma boundary_near s n :
  utf8_valid s = true -> n <= length s ->
  exists k, k <= 3 /\ k <= n /\ is_char_boundary s (n - k) = true.
Proof.
  revert n. induction s as [|b rest IH] using chunks_ind; intros n Hv Hn.
  { exists 0. cbn in Hn. replace n with 0 by lia. split_and!; [lia..|done]. }
  rewrite utf8_valid_cons in Hv. apply andb_true_iff in Hv as [Hok Hv].
  destruct (utf8_next b rest) as [ok w] eqn:E. cbn [fst snd] in *. subst ok.
  assert (w <= 3) by (revert E; clear; next_cases; intros; simplify_eq; lia).
  apply utf8_next_cont in E as [Hw _]. cbn in Hn.
  destruct (decide (n <= w)).
  { exists n. rewrite Nat.sub_diag. split_and!; [lia..|done]. }
  destruct (IH (n - S w)) as (k & Hk3 & Hk & Hb); [done|rewrite length_drop; lia|].
  exists k. split_and!; [lia..|].
  replace (n - k) with (S (w + (n - S w - k))) by lia. by apply boundary_drop.
Qed.

Lemma truncate_length s n :
  length (truncate_on_char_boundary s n) = floor_char_boundary s n.
Proof.
  unfold truncate_on_char_boundary. destruct (floor_char_boundary_spec s n) as (_ & H & _).
  rewrite length_take. lia.
Qed.

Lemma truncate_prefix s n : exists t, s = truncate_on_char_boundary s n ++ t.
Proof. exists (drop (floor_char_boundary s n) s). symmetry. apply take_drop. Qed.

Lemma truncate_valid s n :
  utf8_valid s = true -> utf8_valid (truncate_on_char_boundary s n) = true.
Proof.
  intros Hv. apply take_boundary_valid; [done|].
  by destruct (floor_char_boundary_spec s n) as (_ & _ & ? & _).
Qed.

Lemma truncate_near s n :
  utf8_valid s = true -> n <= length s -> n <= length (truncate_on_char_boundary s n) + 3.
Proof.
  intros Hv Hn. rewrite truncate_length.
  destruct (floor_char_boundary_spec s n) as (_ & _ & _ & Hmax).
  destruct (boundary_near s n Hv Hn) as (k & Hk3 & Hk & Hb).
  destruct (decide (n - k <= floor_char_boundary s n)); [lia|].
  rewrite Hmax in Hb by lia. done.
Qed.

Lemma truncate_short s n : length s <= n -> truncate_on_char_boundary s n = s.
Proof.
  intros H. unfold truncate_on_char_boundary, floor_char_boundary.
  rewrite (proj2 (Nat.leb_le _ _) H). by apply take_ge.
Qed.

Lemma truncate_le s n : length (truncate_on_char_boundary s n) <= n.
Proof. rewrite truncate_length. by destruct (floor_char_boundary_spec s n). Qed.

Lemma truncate_elem s n x : x ∈ truncate_on_char_boundary s n -> x ∈ s.
Proof. destruct (truncate_prefix s n) as [t Ht]. rewrite Ht at 2. rewrite elem_of_app. auto. Qed.

(** ** Frame budget lemmas *)

Lemma body_within_tags : MAX_LINE_LEN - 2 <= MAX_SERVER_TAGS_LEN.
Proof. unfold MAX_LINE_LEN, MAX_SERVER_TAGS_LEN. lia. Qed.

(** What fits the traditional line alone fits, tagged or not. *)
Lemma frame_fits_body line budget :
  length line <= MAX_LINE_LEN - 2 -> MAX_LINE_LEN - 2 <= budget -> frame_fits line budget = true.
Proof.
  intros Hl Hb. unfold frame_fits.
  destruct (starts_with "@" line); cbn; [|by apply Nat.leb_le].
  destruct (position " " line) as [sp|] eqn:E; [|apply Nat.leb_le; lia].
  apply position_Some in E as (_ & _ & _ & ?).
  apply andb_true_iff; rewrite !Nat.leb_le. lia.
Qed.

Lemma position_app_sep c pre post : c ∉ pre -> position c (pre ++ c :: post) = Some (length pre).
Proof.
  intros Hn. apply position_Some. exists post. rewrite take_app_length, length_app. cbn.
  split_and!; [done..|lia].
Qed.

Lemma frame_fits_tagged tags body budget :
  " "%byte ∉ tags ->
  frame_fits ("@"%byte :: tags ++ " "%byte :: body) budget
  = (length tags + 2 <=? budget) && (length body <=? MAX_LINE_LEN - 2).
Proof.
  intros Hn. unfold frame_fits. cbn [starts_with]. rewrite byte_eqb_refl. cbn [negb].
  rewrite app_comm_cons, position_app_sep by (rewrite not_elem_of_cons; done).
  rewrite length_app. cbn [length]. f_equal; f_equal; lia.
Qed.

Lemma frame_fits_tag_only tags budget :
  " "%byte ∉ tags ->
  frame_fits ("@"%byte :: tags) budget = (S (length tags) <=? budget).
Proof.
  intros Hn. unfold frame_fits. cbn [starts_with]. rewrite byte_eqb_refl. cbn [negb].
  rewrite (proj2 (position_None " " ("@"%byte :: tags))); [done|].
  apply split_once_None. rewrite not_elem_of_cons. done.
Qed.

Lemma lossy_starts_with c s :
  is_ascii c = true -> starts_with c (from_utf8_lossy s) = starts_with c s.
Proof.
  intros Hc. destruct s as [|b rest]; [done|]. rewrite lossy_cons.
  destruct (utf8_next b rest) as [ok n] eqn:E. destruct ok; cbn; [done|].
  destruct (byte_eqb_spec b c) as [->|].
  - rewrite utf8_next_ascii in E by done. done.
  - by byte_cases c.
Qed.

(** The tags kept when the section overflows are raw tags, so they still fit. *)
Lemma kept_tags_length tags :
  length (join ";" (List.filter (fun tag => negb (contains_sub REPLACEMENT tag))
                      (split ";" (from_utf8_lossy tags)))) <= length tags.
Proof.
  rewrite lossy_split by done.
  assert (forall l : list str,
    List.filter (fun tag => negb (contains_sub REPLACEMENT tag)) (from_utf8_lossy <$> l)
    = List.filter (fun tag => negb (contains_sub REPLACEMENT (from_utf8_lossy tag))) l) as ->.
  { intros l. induction l as [|t l IH]; cbn; [done|].
    destruct (contains_sub _ _) eqn:E; cbn; [done|]. rewrite IH.
    by rewrite (lossy_no_replacement t E). }
  rewrite length_join_filter. by rewrite join_split.
Qed.

Lemma kept_no_space (f : str -> bool) tags :
  " "%byte ∉ tags -> " "%byte ∉ join ";" (List.filter f (split ";" tags)).
Proof.
  intros Hn [?|(p & Hp & Hx)]%elem_of_join; [done|]. apply Hn.
  apply list_elem_of_In, filter_In in Hp as [Hp%list_elem_of_In _].
  by eapply elem_of_split.
Qed.

(** A tagged line's lossy text, part by part. *)
Lemma lossy_tagged tags body :
  from_utf8_lossy ("@"%byte :: tags ++ " "%byte :: body)
  = "@"%byte :: from_utf8_lossy tags ++ " "%byte :: from_utf8_lossy body.
Proof.
  rewrite lossy_ascii_cons by done. by rewrite lossy_app_ascii.
Qed.

Lemma decode_fits_untagged line :
  starts_with "@" line = false ->
  server_frame_fits (truncate_on_char_boundary (from_utf8_lossy line) (MAX_LINE_LEN - 2)) = true.
Proof. intros _. apply frame_fits_body; [apply truncate_le|apply body_within_tags]. Qed.

Lemma decode_fits_tag_only line :
  " "%byte ∉ line ->
  server_frame_fits
    (truncate_on_char_boundary (from_utf8_lossy ("@"%byte :: line)) MAX_SERVER_TAGS_LEN) = true.
Proof.
  intros Hn. rewrite lossy_ascii_cons by done.
  set (text := "@"%byte :: from_utf8_lossy line).
  destruct (truncate_on_char_boundary text MAX_SERVER_TAGS_LEN) as [|b r] eqn:E; [done|].
  pose proof (truncate_le text MAX_SERVER_TAGS_LEN) as Hle. rewrite E in Hle.
  destruct (truncate_prefix text MAX_SERVER_TAGS_LEN) as [t Ht]. rewrite E in Ht.
  unfold text in Ht. injection Ht as <- Ht.
  unfold server_frame_fits. rewrite frame_fits_tag_only; [by apply Nat.leb_le|].
  intros Hin. apply Hn, lossy_ascii_elem; [done|]. rewrite Ht, elem_of_app. auto.
Qed.

(** The shape of [decode_server_line]'s refit of a tagged line. *)
Lemma decode_fits_tagged tags body :
  " "%byte ∉ tags -> length tags + 2 <= MAX_SERVER_TAGS_LEN ->
  server_frame_fits (decode_server_line ("@"%byte :: tags ++ " "%byte :: body)) = true
  \/ server_frame_fits ("@"%byte :: tags ++ " "%byte :: body) = false.
Proof.
  intros Hn Hlen. unfold decode_server_line. rewrite lossy_tagged.
  destruct (server_frame_fits ("@"%byte :: tags ++ " "%byte :: body)); [left|by right].
  cbn [negb orb].
  destruct (server_frame_fits ("@"%byte :: from_utf8_lossy tags ++ _)) eqn:Efit; [done|].
  clear Efit.
  cbn [strip_byte]. rewrite byte_eqb_refl.
  assert (" "%byte ∉ from_utf8_lossy tags) as Hn' by (by rewrite lossy_ascii_elem).
  rewrite split_once_app by done.
  set (body' := truncate_on_char_boundary (from_utf8_lossy body) (MAX_LINE_LEN - 2)).
  assert (length body' <= MAX_LINE_LEN - 2) as Hb by apply truncate_le.
  destruct (_ + 2 <=? MAX_SERVER_TAGS_LEN) eqn:Et; bool_to_prop.
  - cbn [app]. rewrite <- app_assoc. cbn [app]. unfold server_frame_fits.
    rewrite frame_fits_tagged by done. apply andb_true_iff; rewrite !Nat.leb_le. done.
  - set (kept := List.filter _ _). destruct (is_empty kept); cbn [negb app].
    + apply frame_fits_body; [done|apply body_within_tags].
    + rewrite <- app_assoc. cbn [app]. unfold server_frame_fits.
      rewrite frame_fits_tagged by (by apply kept_no_space).
      pose proof (kept_tags_length tags) as Hk. fold kept in Hk.
      apply andb_true_iff; rewrite !Nat.leb_le. lia.
Qed.

(** ** Properties *)

(** Truncation to a byte budget never splits a character: of a valid
    string it leaves a valid prefix within the budget, the whole string when it
    already fits, and otherwise at most three bytes short of the budget. *)
Theorem truncate_on_char_boundary_correct s n :
  utf8_valid s = true ->
  let t := truncate_on_char_boundary s n in
  utf8_valid t = true /\ (exists rest, s = t ++ rest) /\ length t <= n
  /\ (length s <= n -> t = s) /\ (n < length s -> n <= length t + 3).
Proof.
  intros Hv t. split_and!.
  - by apply truncate_valid.
  - apply truncate_prefix.
  - apply truncate_le.
  - apply truncate_short.
  - intros. apply truncate_near; [done|lia].
Qed.

Lemma truncate_on_char_boundary_witness :
  utf8_valid [x61; xe2; x98; x83; x62] = true
  /\ length (truncate_on_char_boundary [x61; xe2; x98; x83; x62] 3) <= 3
  /\ truncate_on_char_boundary [x61; xe2; x98; x83; x62] 3 = [x61].
Proof.
  split; [reflexivity|]. split; [|reflexivity].
  destruct (truncate_on_char_boundary_correct [x61; xe2; x98; x83; x62] 3 eq_refl)
    as (_ & _ & H & _). exact H.
Defined.

(** Decoding a server line for relay never turns a line that fits the wire
    budgets as bytes into text that does not (every invalid byte becomes three,
    so the text may first overflow and be refitted), and leaves valid text
    untouched. *)
Theorem decode_server_line_fits line :
  server_frame_fits line = true ->
  server_frame_fits (decode_server_line line) = true
  /\ (utf8_valid line = true -> decode_server_line line = line).
Proof.
  intros Hfit. split; [|intros Hv; unfold decode_server_line; by rewrite lossy_valid_id, Hfit].
  destruct (strip_byte "@" line) as [rest|] eqn:Eat.
  - apply strip_byte_Some in Eat as ->.
    destruct (split_once " " rest) as [[tags body]|] eqn:Esp.
    + apply split_once_Some in Esp as [-> Hn]. pose proof Hfit as Hfit'.
      unfold server_frame_fits in Hfit'. rewrite frame_fits_tagged in Hfit' by done.
      bool_to_prop. destruct (decode_fits_tagged tags body) as [|E]; [done..|congruence].
    + apply split_once_None in Esp. unfold decode_server_line. rewrite Hfit. cbn [negb orb].
      destruct (server_frame_fits (from_utf8_lossy _)) eqn:Efit; [done|].
      pose proof (decode_fits_tag_only rest Esp) as Htag.
      rewrite lossy_ascii_cons in Htag |- * by done. cbn [strip_byte].
      rewrite byte_eqb_refl. rewrite lossy_split_once by done.
      by rewrite (proj2 (split_once_None " " rest)).
  - apply strip_byte_None in Eat as Hs. unfold decode_server_line. rewrite Hfit. cbn [negb orb].
    destruct (server_frame_fits (from_utf8_lossy _)) eqn:Efit; [done|].
    rewrite (proj2 (strip_byte_None "@" (from_utf8_lossy line)))
      by (by rewrite lossy_starts_with).
    by apply decode_fits_untagged.
Qed.

Lemma decode_server_line_fits_witness :
  let line := bs ":a PRIVMSG #c :" ++ repeat xe9 400 in
  server_frame_fits line = true
  /\ server_frame_fits (from_utf8_lossy line) = false
  /\ server_frame_fits (decode_server_line line) = true.
Proof.
  split; [vm_compute; reflexivity|]. split; [vm_compute; reflexivity|].
  apply (decode_server_line_fits (bs ":a PRIVMSG #c :" ++ repeat xe9 400)).
  vm_compute; reflexivity.
Defined.

Lemma stands_alone_spec token :
  stands_alone token = true <->
  token <> [] /\ starts_with ":" token = false
  /\ Forall (fun b => b <> " "%byte /\ is_illegal_byte b = false) token.
Proof.
  unfold stands_alone, is_illegal_byte. rewrite !andb_true_iff, !negb_true_iff, is_empty_false.
  rewrite existsb_false_iff.
  assert (forall b, (b =b? " ") || (b =b? CR) || (b =b? LF) || (b =b? NUL) = false
    <-> b <> " "%byte /\ (b =b? CR) || (b =b? LF) || (b =b? NUL) = false) as Hb.
  { intros b. rewrite <- !orb_assoc, orb_false_iff, byte_eqb_neq. done. }
  rewrite (Forall_iff _ _ _ Hb). tauto.
Qed.

(** Cutting a parameter that stands alone leaves one, given room for a
    character. *)
Lemma truncate_stands_alone token max :
  utf8_valid token = true -> stands_alone token = true -> 4 <= max ->
  stands_alone (truncate_on_char_boundary token max) = true.
Proof.
  intros Hv Hs Hm.
  apply stands_alone_spec in Hs as (Hne & Hc & HF). apply stands_alone_spec.
  destruct (truncate_prefix token max) as [t Ht].
  destruct (decide (length token <= max)) as [Hle|Hgt].
  { by rewrite truncate_short. }
  pose proof (truncate_near token max Hv) as Hnear.
  destruct (truncate_on_char_boundary token max) as [|b r].
  { cbn in Hnear. lia. }
  rewrite Ht in Hc, HF. apply Forall_app in HF as [HF _]. split_and!; [done|exact Hc|exact HF].
Qed.

Lemma echo_one_param token :
  utf8_valid token = true ->
  stands_alone (MiddleParam_echo token) = true
  /\ length (MiddleParam_echo token) <= ECHO_MAX
  /\ utf8_valid (MiddleParam_echo token) = true
  /\ (stands_alone token = true -> length token <= ECHO_MAX -> MiddleParam_echo token = token).
Proof.
  intros Hv. unfold MiddleParam_echo.
  destruct (stands_alone token) eqn:Hs; cbn [negb].
  2: { split_and!; [done|cbn; unfold ECHO_MAX; lia|done|done]. }
  split_and!; [|apply truncate_le|by apply truncate_valid|intros; by apply truncate_short].
  apply truncate_stands_alone; [done|done|unfold ECHO_MAX; lia].
Qed.

(** An echoed client token is always exactly one bounded middle parameter:
    non-empty, not colon-led, free of space, CR, LF and NUL, at most
    [ECHO_MAX] bytes and valid UTF-8; a token that already is one, and short,
    is echoed unchanged. *)
Theorem MiddleParam_echo_stands_alone token :
  utf8_valid token = true ->
  stands_alone (MiddleParam_echo token) = true
  /\ length (MiddleParam_echo token) <= ECHO_MAX
  /\ utf8_valid (MiddleParam_echo token) = true
  /\ (stands_alone token = true -> length token <= ECHO_MAX -> MiddleParam_echo token = token).
Proof. apply echo_one_param. Qed.

Lemma MiddleParam_echo_witness :
  utf8_valid (bs "#chan") = true /\ MiddleParam_echo (bs "#chan") = bs "#chan"
  /\ MiddleParam_echo (bs "a b") = bs "*".
Proof.
  split; [reflexivity|]. split; [|reflexivity].
  apply (MiddleParam_echo_stands_alone (bs "#chan"));
    [reflexivity|reflexivity|cbn; unfold ECHO_MAX; lia].
Defined.

(** Tag-value escaping is wire-safe and inverted by unescaping: an escaped
    value holds no semicolon, space, CR, LF or NUL, and unescaping it gives the
    value back, less the NULs that have no escape. *)
Theorem escape_tag_value_roundtrip value :
  unescape_tag_value (escape_tag_value value) = List.filter (fun b => negb (b =b? NUL)) value
  /\ Forall (fun b => b <> ";"%byte /\ b <> " "%byte /\ is_illegal_byte b = false)
       (escape_tag_value value).
Proof.
  split.
  - rewrite unescape_tag_value_loop, escape_tag_value_loop. apply unescape_escape.
  - pose proof (escape_safe value) as Hs. apply forallb_true_iff in Hs.
    eapply Forall_impl; [exact Hs|]. intros b Hb. cbn in Hb. bool_to_prop.
    rewrite <- !byte_eqb_neq. done.
Qed.
