(* ===== verification/Parse.v ===== *)
(** * The message parser against the grammar ([e6irc-proto/src/message.rs])

    The repository has no general serializer; [render_message] below is the
    wire grammar written as a printer, [wf_message] the well-formedness the
    grammar asks of each part.  The parser is shown to accept exactly the
    well-formed messages ([parse_sound], [parse_render]) and to agree with the
    tag-section reader used for lines refused before they can be parsed. *)

From S2P Require Import Prelude Str Message.

(** ** The grammar *)

(** Bytes that end or split a word of the grammar. *)
Definition lacks (bad : list byte) (s : str) : bool :=
  negb (existsb (fun b => existsb (fun c => b =b? c) bad || is_illegal_byte b) s).

Definition wf_tag (t : Tag) : bool :=
  negb (is_empty (tag_key t))
  && lacks [";"%byte; "="%byte; " "%byte] (tag_key t)
  && match tag_value t with
     | Some v => negb (contains_byte NUL v)
     | None => true
     end.

Definition wf_source (s : Source) : bool :=
  negb (is_empty (src_name s))
  && lacks ["!"%byte; "@"%byte; " "%byte] (src_name s)
  && match src_user s with Some u => lacks ["@"%byte; " "%byte] u | None => true end
  && match src_host s with Some h => lacks [" "%byte] h | None => true end.

Fixpoint wf_params (params : list str) (has_trailing : bool) : bool :=
  match params with
  | [] => negb has_trailing
  | [p] => if has_trailing then lacks [] p else stands_alone p
  | p :: params' => stands_alone p && wf_params params' has_trailing
  end.

Definition wf_message (m : Message) : bool :=
  forallb wf_tag (msg_tags m)
  && match msg_source m with Some s => wf_source s | None => true end
  && valid_command (msg_command m)
  && wf_params (msg_params m) (msg_has_trailing m).

Definition render_tag (t : Tag) : str :=
  match tag_value t with
  | None => tag_key t
  | Some v => tag_key t ++ "="%byte :: escape_tag_value v
  end.

Definition render_tags (tags : list Tag) : str :=
  match tags with
  | [] => []
  | _ => "@"%byte :: join ";" (render_tag <$> tags) ++ [" "%byte]
  end.

Definition render_source (source : option Source) : str :=
  match source with
  | None => []
  | Some s =>
      ":"%byte :: src_name s
      ++ match src_user s with Some u => "!"%byte :: u | None => [] end
      ++ match src_host s with Some h => "@"%byte :: h | None => [] end
      ++ [" "%byte]
  end.

Fixpoint render_params (params : list str) (has_trailing : bool) : str :=
  match params with
  | [] => []
  | [p] => if has_trailing then " "%byte :: ":"%byte :: p else " "%byte :: p
  | p :: params' => " "%byte :: p ++ render_params params' has_trailing
  end.

Definition render_message (m : Message) : str :=
  render_tags (msg_tags m) ++ render_source (msg_source m) ++ msg_command m
  ++ render_params (msg_params m) (msg_has_trailing m).

(** ** Words *)

Lemma lacks_spec bad s :
  lacks bad s = true <-> Forall (fun b => (b ∉ bad) /\ is_illegal_byte b = false) s.
Proof.
  unfold lacks. rewrite negb_true_iff, existsb_false_iff. apply Forall_iff. intros b.
  rewrite orb_false_iff. rewrite <- (contains_byte_false b bad). unfold contains_byte.
  assert (existsb (fun c => b =b? c) bad = existsb (fun c => c =b? b) bad) as ->; [|done].
  clear. induction bad as [|c bad IH]; cbn; [done|]. rewrite IH. f_equal.
  destruct (byte_eqb_spec b c) as [->|]; [by rewrite byte_eqb_refl|].
  symmetry. by apply byte_eqb_neq.
Qed.

Lemma lacks_not_in bad s c : lacks bad s = true -> c ∈ bad -> c ∉ s.
Proof. rewrite lacks_spec, Forall_forall. intros H Hc Hs. by apply H in Hs as [? _]. Qed.

Lemma lacks_legal bad s : lacks bad s = true -> contains_illegal_byte s = false.
Proof.
  rewrite lacks_spec. intros H. apply existsb_false_iff. eapply Forall_impl; [exact H|].
  naive_solver.
Qed.

Lemma legal_app a b :
  contains_illegal_byte (a ++ b) = contains_illegal_byte a || contains_illegal_byte b.
Proof. apply existsb_app. Qed.

Lemma legal_cons c s :
  contains_illegal_byte (c :: s) = is_illegal_byte c || contains_illegal_byte s.
Proof. done. Qed.

Lemma legal_lacks s bad :
  contains_illegal_byte s = false -> Forall (fun c => c ∉ s) bad -> lacks bad s = true.
Proof.
  intros Hl HF. apply lacks_spec. apply existsb_false_iff in Hl.
  rewrite Forall_forall in Hl, HF |- *. intros b Hb. split; [|by apply Hl].
  intros Hin. by apply (HF b).
Qed.

Lemma stands_alone_lacks p : stands_alone p = true ->
  p <> [] /\ starts_with ":" p = false /\ lacks [" "%byte] p = true.
Proof.
  intros (Hne & Hc & HF)%stands_alone_spec. split_and!; [done..|].
  apply lacks_spec. eapply Forall_impl; [exact HF|]. intros b [Hb ?]. cbn in *.
  rewrite list_elem_of_singleton. done.
Qed.

Lemma lacks_stands_alone p :
  p <> [] -> starts_with ":" p = false -> lacks [" "%byte] p = true -> stands_alone p = true.
Proof.
  intros ? ? HF%lacks_spec. apply stands_alone_spec. split_and!; [done..|].
  eapply Forall_impl; [exact HF|]. intros b [Hb ?]. rewrite list_elem_of_singleton in Hb. done.
Qed.

(** ** Tags *)

Lemma mapM_Ok {E A B} (f : A -> result E B) l k :
  mapM f l = Ok k <-> Forall2 (fun x y => f x = Ok y) l k.
Proof.
  revert k. induction l as [|x l IH]; intros k; cbn.
  { split; [intros [= <-]; constructor|by intros ->%Forall2_nil_inv_l]. }
  unfold mbind, result_bind, mret, result_ret. destruct (f x) as [y|e] eqn:Ef.
  - destruct (mapM f l) as [k'|e] eqn:El; cbn.
    + split.
      * intros [= <-]. constructor; [done|]. by apply IH.
      * inversion 1 as [|? ? ? ? Hy Hk]; subst. apply IH in Hk. congruence.
    + split; [done|]. inversion 1 as [|? ? ? ? Hy Hk]; subst. by apply IH in Hk.
  - split; [done|]. inversion 1; subst. congruence.
Qed.

Lemma filter_nul_id v :
  contains_byte NUL v = false -> List.filter (fun b => negb (b =b? NUL)) v = v.
Proof.
  unfold contains_byte. rewrite existsb_false_iff. induction 1 as [|c v Hc _ IH]; cbn; [done|].
  by rewrite Hc, IH.
Qed.

Lemma unescape_escape_id v :
  contains_byte NUL v = false -> unescape_tag_value (escape_tag_value v) = v.
Proof.
  intros Hv. rewrite unescape_tag_value_loop, escape_tag_value_loop, unescape_escape.
  by apply filter_nul_id.
Qed.

Lemma parse_render_tag t : wf_tag t = true -> parse_tag (render_tag t) = Ok t.
Proof.
  unfold wf_tag, parse_tag, render_tag. intros H. bool_to_prop.
  destruct t as [key [v|]]; cbn in *.
  - rewrite split_once_app by (eapply lacks_not_in; [done|set_solver]).
    rewrite unescape_escape_id by (by bool_to_prop). by destruct key.
  - rewrite (proj2 (split_once_None _ _)) by (eapply lacks_not_in; [done|set_solver]).
    by destruct key.
Qed.

Lemma render_tag_safe t :
  wf_tag t = true -> lacks [";"%byte; " "%byte] (render_tag t) = true.
Proof.
  unfold wf_tag, render_tag. intros H. bool_to_prop. apply lacks_spec.
  match goal with Hk : lacks _ _ = true |- _ => apply lacks_spec in Hk as Hkey end.
  assert (Forall (fun b => (b ∉ [";"%byte; " "%byte]) /\ is_illegal_byte b = false) (tag_key t)).
  { eapply Forall_impl; [exact Hkey|]. set_solver. }
  destruct (tag_value t) as [v|]; [|done]. apply Forall_app. split; [done|].
  constructor; [split; [set_solver|done]|].
  pose proof (escape_safe v) as Hs. apply forallb_true_iff in Hs.
  eapply Forall_impl; [exact Hs|]. intros b Hb. cbn in Hb. bool_to_prop.
  rewrite byte_eqb_neq in *. set_solver.
Qed.

Lemma unescape_loop_no_nul raw : NUL ∉ raw -> contains_byte NUL (unescape_loop raw) = false.
Proof.
  intros Hn. apply contains_byte_false. revert Hn.
  remember (length raw) as m eqn:Hm. revert raw Hm. induction (lt_wf m) as [m _ IH].
  intros raw -> Hn. destruct raw as [|c raw]; cbn; [done|].
  apply not_elem_of_cons in Hn as [Hc Hn]. destruct (c =b? BACKSLASH).
  - destruct raw as [|e raw]; [set_solver|]. apply not_elem_of_cons in Hn as [He Hn].
    apply not_elem_of_cons. split.
    + clear -He. by byte_cases e.
    + eapply IH; [|done|done]. cbn. lia.
  - apply not_elem_of_cons. split; [done|]. eapply IH; [|done|done]. cbn. lia.
Qed.

Lemma parse_tag_wf item t :
  lacks [";"%byte; " "%byte] item = true -> parse_tag item = Ok t -> wf_tag t = true.
Proof.
  intros Hl%lacks_spec. unfold parse_tag.
  destruct (split_once "=" item) as [[k v]|] eqn:E.
  - apply split_once_Some in E as [-> Hk]. apply Forall_app in Hl as [Hlk Hlv].
    destruct (is_empty k) eqn:Ek; [done|]. intros [= <-]. unfold wf_tag. cbn. rewrite Ek. cbn.
    rewrite andb_true_iff. split.
    + apply lacks_spec. rewrite Forall_forall in *. intros b Hb.
      destruct (Hlk b Hb) as [? ?]. set_solver.
    + rewrite unescape_tag_value_loop, unescape_loop_no_nul; [done|].
      inversion Hlv as [|? ? _ HF]; subst. intros Hnul. rewrite Forall_forall in HF.
      by apply HF in Hnul as [_ ?].
  - apply split_once_None in E. destruct (is_empty item) eqn:Ek; [done|].
    intros [= <-]. unfold wf_tag. cbn. rewrite Ek. cbn. rewrite andb_true_r.
    apply lacks_spec. rewrite Forall_forall in *. intros b Hb.
    destruct (Hl b Hb) as [? ?]. set_solver.
Qed.

(** A tag section, both ways. *)
Lemma parse_render_tag_section tags :
  tags <> [] -> forallb wf_tag tags = true ->
  parse_tag_section (join ";" (render_tag <$> tags)) = Ok tags.
Proof.
  intros Hne Hwf. unfold parse_tag_section. apply forallb_true_iff in Hwf.
  rewrite split_join.
  - apply mapM_Ok. apply Forall2_fmap_l, Forall_Forall2_diag.
    eapply Forall_impl; [exact Hwf|]. intros t. apply parse_render_tag.
  - by destruct tags.
  - apply Forall_fmap. eapply Forall_impl; [exact Hwf|]. intros t Ht. cbn.
    eapply lacks_not_in; [by apply render_tag_safe|]. set_solver.
Qed.

Lemma render_tags_safe tags :
  forallb wf_tag tags = true -> lacks [" "%byte] (join ";" (render_tag <$> tags)) = true.
Proof.
  intros Hwf%forallb_true_iff. apply lacks_spec, Forall_forall. intros b Hb.
  apply elem_of_join in Hb as [->|(p & Hp & Hx)]; [split; [set_solver|done]|].
  apply list_elem_of_fmap in Hp as (t & -> & Ht). rewrite Forall_forall in Hwf.
  apply Hwf, render_tag_safe, lacks_spec in Ht. rewrite Forall_forall in Ht.
  apply Ht in Hx as [? ?]. set_solver.
Qed.

Lemma parse_tag_section_wf raw tags :
  lacks [" "%byte] raw = true -> parse_tag_section raw = Ok tags ->
  forallb wf_tag tags = true /\ tags <> [].
Proof.
  intros Hl. unfold parse_tag_section. rewrite mapM_Ok. intros HF. split.
  - apply forallb_true_iff. apply lacks_spec in Hl. rewrite Forall_forall in Hl.
    pose proof (split_no_sep ";" raw) as Hsep.
    assert (Forall (fun item => lacks [";"%byte; " "%byte] item = true) (split ";" raw)) as Hit.
    { rewrite Forall_forall in Hsep |- *. intros item Hi. apply lacks_spec, Forall_forall.
      intros b Hb. destruct (Hl b) as [Hb1 Hb2]; [by eapply elem_of_split|].
      specialize (Hsep item Hi). split; [|done]. set_solver. }
    clear -HF Hit. induction HF as [|item t items ts Ht HF IH]; [constructor|].
    inversion Hit; subst. constructor; [by eapply parse_tag_wf|auto].
  - intros ->. apply Forall2_nil_inv_r in HF. by apply (split_ne ";" raw).
Qed.

(** ** Sources *)

Definition raw_source (s : Source) : str :=
  src_name s
  ++ match src_user s with Some u => "!"%byte :: u | None => [] end
  ++ match src_host s with Some h => "@"%byte :: h | None => [] end.

Lemma render_source_raw s : render_source (Some s) = ":"%byte :: raw_source s ++ [" "%byte].
Proof. unfold raw_source. cbn. by rewrite <- !app_assoc. Qed.

Lemma raw_source_safe s : wf_source s = true -> lacks [" "%byte] (raw_source s) = true.
Proof.
  unfold wf_source, raw_source. intros H. bool_to_prop. apply lacks_spec.
  repeat (apply Forall_app; split).
  - match goal with Hk : lacks _ (src_name s) = true |- _ => apply lacks_spec in Hk end.
    eapply Forall_impl; [done|]. set_solver.
  - destruct (src_user s); constructor; [split; [set_solver|done]|].
    match goal with Hk : lacks ["@"%byte; _] _ = true |- _ => apply lacks_spec in Hk end.
    eapply Forall_impl; [done|]. set_solver.
  - destruct (src_host s); constructor; [split; [set_solver|done]|]. by apply lacks_spec.
Qed.

Lemma parse_render_source s : wf_source s = true -> parse_source (raw_source s) = Ok s.
Proof.
  unfold wf_source, parse_source, raw_source. destruct s as [name user host]; cbn [src_name src_user src_host].
  intros H. bool_to_prop. destruct name as [|n name]; [done|]. cbn [is_empty app].
  match goal with Hk : lacks ["!"%byte; _; _] _ = true |- _ => rename Hk into Hname end.
  assert ("!"%byte ∉ n :: name) as Hbang by (eapply lacks_not_in; [exact Hname|set_solver]).
  assert ("@"%byte ∉ n :: name) as Hat by (eapply lacks_not_in; [exact Hname|set_solver]).
  set (main := (n :: name) ++ match user with Some u => "!"%byte :: u | None => [] end).
  assert ("@"%byte ∉ main) as Hmain.
  { unfold main. rewrite not_elem_of_app. split; [done|]. destruct user as [u|]; [|set_solver].
    apply not_elem_of_cons. split; [done|]. eapply lacks_not_in; [done|set_solver]. }
  change (n :: name ++ ?t) with ((n :: name) ++ t). rewrite app_assoc. fold main.
  assert (match split_once "!" main with
          | Some (n0, u) => (n0, Some u) | None => (main, None) end = (n :: name, user)) as Hsplit.
  { unfold main. destruct user as [u|].
    - by rewrite split_once_app.
    - rewrite app_nil_r. by rewrite (proj2 (split_once_None _ _)). }
  destruct host as [h|].
  - rewrite split_once_app by done. rewrite Hsplit. done.
  - rewrite app_nil_r, (proj2 (split_once_None _ _)) by done. rewrite Hsplit. done.
Qed.

Lemma parse_source_wf raw s :
  lacks [" "%byte] raw = true -> parse_source raw = Ok s -> wf_source s = true.
Proof.
  intros Hl. unfold parse_source. destruct (is_empty raw); [done|].
  assert (exists main host,
    match split_once "@" raw with Some (m, h) => (m, Some h) | None => (raw, None) end
      = (main, host)
    /\ lacks ["@"%byte; " "%byte] main = true
    /\ match host with Some h => lacks [" "%byte] h | None => true end = true)
    as (main & host & -> & Hmain & Hhost).
  { destruct (split_once "@" raw) as [[m h]|] eqn:E; eexists _, _; (split; [done|]).
    - apply split_once_Some in E as [-> Hn]. apply lacks_spec in Hl.
      apply Forall_app in Hl as [Hm Hh]. inversion Hh; subst. split; [|by apply lacks_spec].
      apply lacks_spec. rewrite Forall_forall in *. intros b Hb. destruct (Hm b Hb). set_solver.
    - apply split_once_None in E. split; [|done]. apply lacks_spec in Hl. apply lacks_spec.
      rewrite Forall_forall in *. intros b Hb. destruct (Hl b Hb). set_solver. }
  destruct (split_once "!" main) as [[n u]|] eqn:E.
  - apply split_once_Some in E as [-> Hn]. destruct (is_empty n) eqn:En; [done|].
    intros [= <-]. unfold wf_source. cbn [src_name src_user src_host].
    rewrite En, Hhost, andb_true_r. cbn [negb andb]. apply lacks_spec in Hmain.
    apply Forall_app in Hmain as [Hm Hu]. inversion Hu; subst. apply andb_true_iff.
    split; [|by apply lacks_spec]. apply lacks_spec. rewrite Forall_forall in *.
    intros b Hb. destruct (Hm b Hb). set_solver.
  - apply split_once_None in E. destruct (is_empty main) eqn:En; [done|].
    intros [= <-]. unfold wf_source. cbn [src_name src_user src_host].
    rewrite En, Hhost, !andb_true_r. cbn [negb andb]. apply lacks_spec in Hmain.
    apply lacks_spec. rewrite Forall_forall in *. intros b Hb. destruct (Hmain b Hb). set_solver.
Qed.

(** ** Parameters *)

Lemma parse_params_space fuel r :
  parse_params fuel (" "%byte :: r) = parse_params fuel r.
Proof. by destruct fuel. Qed.

(** The loop ends, and more fuel changes nothing. *)
Lemma parse_params_total fuel rest :
  length rest < fuel -> exists r, parse_params fuel rest = Some r.
Proof.
  revert rest. induction fuel as [|fuel IH]; intros rest Hf; [lia|]. cbn.
  pose proof (trim_start_length " " rest) as Ht.
  destruct (trim_start_matches " " rest) as [|b s] eqn:E; [eauto|].
  cbn [is_empty]. destruct (strip_byte ":" (b :: s)); [eauto|].
  destruct (split_once " " (b :: s)) as [[p r]|] eqn:Es; [|eauto].
  apply split_once_Some in Es as [Heq _]. destruct (IH r) as [[ps ht] ->].
  { apply (f_equal length) in Heq. rewrite length_app in Heq. cbn in *. lia. }
  cbn. eauto.
Qed.

Lemma parse_params_more fuel fuel' rest r :
  parse_params fuel rest = Some r -> fuel <= fuel' -> parse_params fuel' rest = Some r.
Proof.
  revert fuel' rest r. induction fuel as [|fuel IH]; intros fuel' rest r; [done|].
  destruct fuel' as [|fuel']; [lia|]. cbn. intros H Hle.
  destruct (is_empty _); [done|]. destruct (strip_byte _ _); [done|].
  destruct (split_once _ _) as [[p s]|]; [|done].
  destruct (parse_params fuel s) as [[ps ht]|] eqn:E; [|done].
  by rewrite (IH fuel' s (ps, ht)) by (done || lia).
Qed.

Lemma stands_alone_trim p t :
  stands_alone p = true -> trim_start_matches " " (p ++ t) = p ++ t.
Proof.
  intros (Hne & _ & Hl)%stands_alone_lacks. destruct p as [|b p]; [done|].
  apply trim_start_id. cbn. apply byte_eqb_neq. intros ->.
  apply (lacks_not_in _ _ " "%byte Hl); set_solver.
Qed.

Lemma stands_alone_strip p t : stands_alone p = true -> strip_byte ":" (p ++ t) = None.
Proof.
  intros (Hne & Hc & _)%stands_alone_lacks. destruct p as [|b p]; [done|]. cbn in *. by rewrite Hc.
Qed.

Lemma stands_alone_ne p t : stands_alone p = true -> is_empty (p ++ t) = false.
Proof. intros (Hne & _)%stands_alone_lacks. by destruct p. Qed.

Lemma parse_render_params params ht :
  wf_params params ht = true ->
  exists fuel, parse_params fuel (render_params params ht) = Some (params, ht).
Proof.
  induction params as [|p params IH]; intros Hwf.
  { exists 1. by destruct ht. }
  destruct params as [|q params].
  - cbn in Hwf. destruct ht; [by exists 1|]. exists 1. cbn [render_params].
    rewrite parse_params_space. cbn [parse_params].
    pose proof (stands_alone_trim p [] Hwf) as Ht. pose proof (stands_alone_strip p [] Hwf) as Hs.
    pose proof (stands_alone_ne p [] Hwf) as He. rewrite app_nil_r in Ht, Hs, He.
    rewrite Ht, He, Hs. rewrite (proj2 (split_once_None _ _)); [done|].
    apply stands_alone_lacks in Hwf as (_ & _ & Hl). eapply lacks_not_in; [exact Hl|set_solver].
  - change (wf_params (p :: q :: params) ht) with
      (stands_alone p && wf_params (q :: params) ht) in Hwf. bool_to_prop.
    destruct IH as [fuel Hfuel]; [done|].
    change (render_params (p :: q :: params) ht) with
      (" "%byte :: p ++ render_params (q :: params) ht).
    assert (exists r, render_params (q :: params) ht = " "%byte :: r) as [r Hr].
    { cbn. destruct params; [destruct ht|]; eauto. }
    rewrite Hr in Hfuel |- *. rewrite parse_params_space in Hfuel.
    exists (S fuel). rewrite parse_params_space. cbn [parse_params].
    rewrite stands_alone_trim, stands_alone_ne, stands_alone_strip by done.
    rewrite split_once_app.
    + by rewrite Hfuel.
    + match goal with Hp : stands_alone p = true |- _ =>
        apply stands_alone_lacks in Hp as (_ & _ & Hl) end.
      eapply lacks_not_in; [exact Hl|set_solver].
Qed.

Lemma legal_trim rest :
  contains_illegal_byte rest = false ->
  contains_illegal_byte (trim_start_matches " " rest) = false.
Proof.
  destruct (trim_start_spec " " rest) as (n & Heq & _). rewrite Heq at 1.
  rewrite legal_app. by intros [_ ?]%orb_false_iff.
Qed.

Lemma parse_params_wf fuel rest params ht :
  contains_illegal_byte rest = false ->
  parse_params fuel rest = Some (params, ht) -> wf_params params ht = true.
Proof.
  revert rest params ht. induction fuel as [|fuel IH]; intros rest params ht Hl; [done|].
  cbn. pose proof (legal_trim rest Hl) as Hl'.
  destruct (trim_start_spec " " rest) as (n & _ & Hsp).
  destruct (trim_start_matches " " rest) as [|b s] eqn:Et; cbn [is_empty].
  { by intros [= <- <-]. }
  destruct (strip_byte ":" (b :: s)) as [tr|] eqn:Ec.
  { intros [= <- <-]. apply strip_byte_Some in Ec as [= -> ->]. cbn.
    by apply legal_lacks. }
  apply strip_byte_None in Ec.
  destruct (split_once " " (b :: s)) as [[p r]|] eqn:Es.
  - destruct (parse_params fuel r) as [[ps ht']|] eqn:Er; [|done]. intros [= <- <-].
    apply split_once_Some in Es as [Heq Hn]. rewrite Heq in Hl', Ec, Hsp.
    rewrite legal_app, legal_cons in Hl'. apply orb_false_iff in Hl' as [Hlp [_ Hlr]%orb_false_iff].
    assert (stands_alone p = true) as Hp.
    { apply lacks_stands_alone; [by intros -> | by destruct p |].
      apply legal_lacks; [done|]. by repeat constructor. }
    specialize (IH r ps ht' Hlr Er). cbn. destruct ps; rewrite Hp; [|done].
    cbn in IH. by destruct ht'.
  - intros [= <- <-]. cbn. apply split_once_None in Es. apply lacks_stands_alone; [done..|].
    apply legal_lacks; [done|]. by repeat constructor.
Qed.

(** ** Commands *)

Lemma valid_command_chars command :
  valid_command command = true ->
  command <> [] /\
  Forall (fun b => is_ascii_alphanumeric b || (b =b? "_") || (b =b? "-") = true) command.
Proof.
  unfold valid_command. destruct command as [|c command]; [done|]. intros H. split; [done|].
  destruct (forallb is_ascii_alphabetic _) eqn:E1.
  { apply forallb_true_iff in E1. eapply Forall_impl; [exact E1|]. intros b. by byte_cases b. }
  destruct (_ && _) eqn:E2 in H.
  - bool_to_prop. match goal with Hd : forallb is_ascii_digit _ = true |- _ =>
      apply forallb_true_iff in Hd; eapply Forall_impl; [exact Hd|] end.
    intros b. by byte_cases b.
  - bool_to_prop. by apply forallb_true_iff.
Qed.

Lemma command_char_safe b :
  is_ascii_alphanumeric b || (b =b? "_") || (b =b? "-") = true ->
  (b ∉ [" "%byte; ":"%byte; "@"%byte]) /\ is_illegal_byte b = false.
Proof. intros H. split; [|by byte_cases b]. intros Hin. set_unfold. naive_solver. Qed.

Lemma valid_command_safe command :
  valid_command command = true ->
  command <> [] /\ lacks [" "%byte; ":"%byte; "@"%byte] command = true.
Proof.
  intros [Hne HF]%valid_command_chars. split; [done|]. apply lacks_spec.
  eapply Forall_impl; [exact HF|]. apply command_char_safe.
Qed.

(** ** Whole messages *)

Lemma render_params_legal params ht :
  wf_params params ht = true -> contains_illegal_byte (render_params params ht) = false.
Proof.
  induction params as [|p params IH]; [done|]. destruct params as [|q params].
  - cbn [wf_params render_params]. destruct ht; rewrite !legal_cons; intros H.
    + by rewrite (lacks_legal _ _ H).
    + apply stands_alone_lacks in H as (_ & _ & H). by rewrite (lacks_legal _ _ H).
  - change (wf_params (p :: q :: params) ht) with
      (stands_alone p && wf_params (q :: params) ht).
    change (render_params (p :: q :: params) ht) with
      (" "%byte :: p ++ render_params (q :: params) ht).
    intros [Hp Hw]%andb_true_iff. rewrite legal_cons, legal_app, IH by done.
    apply stands_alone_lacks in Hp as (_ & _ & Hl). by rewrite (lacks_legal _ _ Hl).
Qed.

Lemma parse_command_part_render tags source m :
  tags = msg_tags m -> source = msg_source m ->
  valid_command (msg_command m) = true ->
  wf_params (msg_params m) (msg_has_trailing m) = true ->
  parse_command_part tags source
    (msg_command m ++ render_params (msg_params m) (msg_has_trailing m)) = Ok m.
Proof.
  intros -> -> Hc Hp. destruct m as [tags source command params ht]. cbn in *.
  unfold parse_command_part. pose proof (valid_command_safe _ Hc) as [Hne Hl].
  destruct (parse_render_params params ht Hp) as [fuel Hfuel].
  assert (" "%byte ∉ command) as Hsp by (eapply lacks_not_in; [exact Hl|set_solver]).
  assert (exists rest, match split_once " " (command ++ render_params params ht) with
      | Some (c, r) => (c, r)
      | None => (command ++ render_params params ht, [])
      end = (command, rest)
    /\ parse_params fuel rest = Some (params, ht)) as (rest & -> & Hrest).
  { destruct (render_params params ht) as [|b r] eqn:Er.
    - exists []. rewrite app_nil_r, (proj2 (split_once_None _ _)) by done. done.
    - assert (b = " "%byte) as ->.
      { destruct params as [|p [|q params]]; [done|destruct ht|]; by injection Er. }
      exists r. rewrite split_once_app by done. by rewrite parse_params_space in Hfuel. }
  rewrite Hc. cbn [negb].
  destruct (parse_params_total (S (length rest)) rest) as [res Hres]; [lia|].
  assert (res = (params, ht)) as ->.
  { pose proof (parse_params_more _ (Nat.max fuel (S (length rest))) _ _ Hrest) as H1.
    pose proof (parse_params_more _ (Nat.max fuel (S (length rest))) _ _ Hres) as H2.
    assert (Some res = Some (params, ht)) as [= ->]; [|done].
    rewrite <- H1, <- H2 by lia. done. }
  rewrite Hres. done.
Qed.

Lemma command_head command t c :
  valid_command command = true -> c ∈ [" "%byte; ":"%byte; "@"%byte] ->
  strip_byte c (command ++ t) = None /\ starts_with c (command ++ t) = false.
Proof.
  intros [Hne Hl]%valid_command_safe Hc. destruct command as [|b command]; [done|]. cbn.
  assert ((b =b? c) = false) as ->; [|done]. apply byte_eqb_neq. intros ->.
  apply (lacks_not_in _ _ c Hl Hc). left.
Qed.

Lemma parse_source_part_render source rest :
  match source with Some s => wf_source s | None => true end = true ->
  strip_byte ":" rest = None -> starts_with " " rest = false ->
  parse_source_part (render_source source ++ rest) = Ok (source, rest)
  /\ starts_with " " (render_source source ++ rest) = false
  /\ contains_illegal_byte (render_source source) = false.
Proof.
  intros Hwf Hc Hs. destruct source as [s|].
  - rewrite render_source_raw. pose proof (raw_source_safe s Hwf) as Hsafe. split_and!.
    + unfold parse_source_part. cbn [app strip_byte]. rewrite byte_eqb_refl.
      rewrite <- app_assoc. cbn [app].
      rewrite split_once_app by (eapply lacks_not_in; [exact Hsafe|set_solver]). cbn.
      rewrite parse_render_source by done. cbn. by rewrite trim_start_id.
    + done.
    + rewrite legal_cons, legal_app, (lacks_legal _ _ Hsafe). done.
  - cbn. unfold parse_source_part. by rewrite Hc.
Qed.

Lemma parse_tags_part_render tags rest :
  forallb wf_tag tags = true -> strip_byte "@" rest = None ->
  parse_tags_part (render_tags tags ++ rest) = Ok (tags, rest)
  /\ contains_illegal_byte (render_tags tags) = false.
Proof.
  intros Hwf Hat. unfold parse_tags_part.
  destruct tags as [|t tags]; cbn [render_tags app]; [by rewrite Hat|].
  pose proof (render_tags_safe _ Hwf) as Hsafe. cbn [strip_byte]. rewrite byte_eqb_refl.
  rewrite <- app_assoc. cbn [app].
  rewrite split_once_app by (eapply lacks_not_in; [exact Hsafe|set_solver]). cbn [ok_or mbind result_bind].
  rewrite parse_render_tag_section by done. split; [done|].
  rewrite legal_cons, legal_app, (lacks_legal _ _ Hsafe). done.
Qed.

Lemma render_source_no_at source rest :
  strip_byte "@" rest = None -> strip_byte "@" (render_source source ++ rest) = None.
Proof. by destruct source. Qed.

Lemma parse_render_lemma m : wf_message m = true -> parse (render_message m) = Ok m.
Proof.
  unfold wf_message. intros H. bool_to_prop.
  match goal with Hv : valid_command _ = true |- _ => rename Hv into Hcmd end.
  unfold parse, render_message.
  set (tail := msg_command m ++ render_params (msg_params m) (msg_has_trailing m)).
  destruct (command_head (msg_command m) (render_params (msg_params m) (msg_has_trailing m))
    " " Hcmd) as [_ Hsp]; [set_solver|].
  destruct (command_head (msg_command m) (render_params (msg_params m) (msg_has_trailing m))
    ":" Hcmd) as [Hcol _]; [set_solver|].
  destruct (command_head (msg_command m) (render_params (msg_params m) (msg_has_trailing m))
    "@" Hcmd) as [Hat _]; [set_solver|].
  fold tail in Hsp, Hcol, Hat.
  destruct (parse_source_part_render (msg_source m) tail) as (Hsrc & Hssp & Hsl); [done..|].
  destruct (parse_tags_part_render (msg_tags m) (render_source (msg_source m) ++ tail))
    as (Htags & Htl); [done|by apply render_source_no_at|].
  rewrite !legal_app, Htl, Hsl. unfold tail at 1. rewrite legal_app.
  rewrite render_params_legal by done.
  destruct (valid_command_safe _ Hcmd) as [Hne Hl]. rewrite (lacks_legal _ _ Hl). cbn [orb].
  rewrite Htags. cbn [mbind result_bind]. rewrite trim_start_id, Hsrc by done.
  cbn [mbind result_bind].
  assert (is_empty tail = false) as -> by (unfold tail; by destruct (msg_command m)).
  by apply parse_command_part_render.
Qed.

(** Inversion of the parser: the pieces a successful parse went through. *)
Lemma parse_inv line m :
  parse line = Ok m ->
  contains_illegal_byte line = false /\
  exists tags after source rest,
    parse_tags_part line = Ok (tags, after)
    /\ parse_source_part (trim_start_matches " " after) = Ok (source, rest)
    /\ rest <> [] /\ parse_command_part tags source rest = Ok m.
Proof.
  unfold parse. destruct (contains_illegal_byte line) eqn:El; [done|]. intros H. split; [done|].
  destruct (parse_tags_part line) as [[tags after]|] eqn:Et; [|done]. cbn in H.
  destruct (parse_source_part _) as [[source rest]|] eqn:Es; [|done]. cbn in H.
  exists tags, after, source, rest. destruct (is_empty rest) eqn:Er.
  - by destruct (is_empty tags && _).
  - apply is_empty_false in Er. done.
Qed.

Lemma parse_tags_part_wf line tags after :
  contains_illegal_byte line = false -> parse_tags_part line = Ok (tags, after) ->
  forallb wf_tag tags = true /\ contains_illegal_byte after = false.
Proof.
  intros Hl. unfold parse_tags_part. destruct (strip_byte "@" line) as [after_at|] eqn:Ea.
  2: { by intros [= <- <-]. }
  apply strip_byte_Some in Ea as ->. rewrite legal_cons in Hl. apply orb_false_iff in Hl as [_ Hl].
  destruct (split_once " " after_at) as [[raw rest]|] eqn:E; [|done]. cbn [ok_or mbind result_bind].
  apply split_once_Some in E as [-> Hn].
  rewrite legal_app, legal_cons in Hl. apply orb_false_iff in Hl as [Hlr [_ Hla]%orb_false_iff].
  destruct (parse_tag_section raw) as [ts|] eqn:Ep; [|done]. intros [= <- <-].
  split; [|done]. eapply parse_tag_section_wf; [|exact Ep].
  apply legal_lacks; [done|]. by repeat constructor.
Qed.

Lemma parse_source_part_wf line source rest :
  contains_illegal_byte line = false -> parse_source_part line = Ok (source, rest) ->
  match source with Some s => wf_source s | None => true end = true
  /\ contains_illegal_byte rest = false.
Proof.
  intros Hl. unfold parse_source_part. destruct (strip_byte ":" line) as [after|] eqn:Ea.
  2: { by intros [= <- <-]. }
  apply strip_byte_Some in Ea as ->. rewrite legal_cons in Hl. apply orb_false_iff in Hl as [_ Hl].
  destruct (split_once " " after) as [[raw r]|] eqn:E; [|done]. cbn [ok_or mbind result_bind].
  apply split_once_Some in E as [-> Hn].
  rewrite legal_app, legal_cons in Hl. apply orb_false_iff in Hl as [Hlr [_ Hla]%orb_false_iff].
  destruct (parse_source raw) as [s|] eqn:Ep; [|done]. intros [= <- <-].
  split; [|by apply legal_trim]. eapply parse_source_wf; [|exact Ep].
  apply legal_lacks; [done|]. by repeat constructor.
Qed.

Lemma parse_command_part_wf tags source rest m :
  contains_illegal_byte rest = false -> parse_command_part tags source rest = Ok m ->
  msg_tags m = tags /\ msg_source m = source /\ valid_command (msg_command m) = true
  /\ wf_params (msg_params m) (msg_has_trailing m) = true.
Proof.
  intros Hl. unfold parse_command_part.
  assert (exists command r, match split_once " " rest with Some (c, r) => (c, r) | None => (rest, []) end
    = (command, r) /\ contains_illegal_byte r = false) as (command & r & -> & Hr).
  { destruct (split_once " " rest) as [[c r]|] eqn:E; eexists _, _; (split; [done|]); [|done].
    apply split_once_Some in E as [-> _]. rewrite legal_app, legal_cons in Hl.
    by apply orb_false_iff in Hl as [_ [_ ?]%orb_false_iff]. }
  destruct (valid_command command) eqn:Ec; [|done]. cbn [negb].
  destruct (parse_params_total (S (length r)) r) as [[ps ht] Hps]; [lia|].
  rewrite Hps. cbn. intros [= <-]. cbn. split_and!; [done..|]. by eapply parse_params_wf.
Qed.

Lemma parse_sound_lemma line m : parse line = Ok m -> wf_message m = true.
Proof.
  intros (Hl & tags & after & source & rest & Ht & Hs & _ & Hc)%parse_inv.
  destruct (parse_tags_part_wf _ _ _ Hl Ht) as [Hwt Hla].
  destruct (parse_source_part_wf _ _ _ (legal_trim _ Hla) Hs) as [Hws Hlr].
  destruct (parse_command_part_wf _ _ _ _ Hlr Hc) as (<- & <- & Hcmd & Hps).
  unfold wf_message. by rewrite Hwt, Hws, Hcmd, Hps.
Qed.

(** ** Properties *)

(** C18. The parser accepts every well-formed message as the grammar writes it
    and reads back exactly its tags, source, command and parameters. *)
Theorem parse_render m : wf_message m = true -> parse (render_message m) = Ok m.
Proof. apply parse_render_lemma. Qed.

Definition sample_message : Message :=
  MkMessage [MkTag (bs "label") (Some (bs "a;b c")); MkTag (bs "+x") None]
    (Some (MkSource (bs "nick") (Some (bs "user")) (Some (bs "host"))))
    (bs "PRIVMSG") [bs "#c"; bs ":hi there"] true.

Lemma parse_render_witness :
  wf_message sample_message = true
  /\ parse (render_message sample_message) = Ok sample_message.
Proof. split; [vm_compute; reflexivity|]. apply parse_render. vm_compute; reflexivity. Defined.

(** Whatever line parses, the message is well formed: the command is a
    word or a three-digit numeric, every parameter but a trailing one is
    non-empty, free of spaces and not colon-led, no part carries CR, LF or NUL,
    tag keys and the source name are non-empty; so the grammar writes the
    message back to a line that parses to the same message. *)
Theorem parse_sound line m :
  parse line = Ok m -> wf_message m = true /\ parse (render_message m) = Ok m.
Proof.
  intros H. apply parse_sound_lemma in H. split; [done|]. by apply parse_render_lemma.
Qed.

Lemma parse_sound_witness :
  parse (bs "@a=1;b :n!u@h PRIVMSG  #c   :hi  there")
  = Ok (MkMessage [MkTag (bs "a") (Some (bs "1")); MkTag (bs "b") None]
         (Some (MkSource (bs "n") (Some (bs "u")) (Some (bs "h"))))
         (bs "PRIVMSG") [bs "#c"; bs "hi  there"] true)
  /\ wf_message (MkMessage [MkTag (bs "a") (Some (bs "1")); MkTag (bs "b") None]
         (Some (MkSource (bs "n") (Some (bs "u")) (Some (bs "h"))))
         (bs "PRIVMSG") [bs "#c"; bs "hi  there"] true) = true.
Proof.
  split; [vm_compute; reflexivity|].
  apply (parse_sound (bs "@a=1;b :n!u@h PRIVMSG  #c   :hi  there")).
  vm_compute; reflexivity.
Defined.

(** The tag-section reader used for lines refused before parsing reads a
    tag exactly as [Message::tag] does on any line that does parse, so a reply
    to a refused line carries the same label. *)
Theorem tag_section_value_agrees line m key :
  utf8_valid line = true -> parse line = Ok m ->
  tag_section_value line key = t ← message_tag m key; tag_value t.
Proof.
  intros Hv (Hl & tags & after & source & rest & Ht & _ & _ & Hc)%parse_inv.
  assert (msg_tags m = tags) as Htags.
  { unfold parse_command_part in Hc.
    destruct (match split_once " " rest with Some (c, r) => (c, r) | None => _ end) as [c r].
    destruct (valid_command c); [|done]. cbn in Hc.
    destruct (default _ _) as [ps ht]. by injection Hc as <-. }
  unfold message_tag. rewrite Htags. unfold tag_section_value.
  unfold parse_tags_part in Ht. destruct (strip_byte "@" line) as [after_at|] eqn:Ea.
  2: { injection Ht as <- <-. done. }
  apply strip_byte_Some in Ea as ->. rewrite utf8_valid_ascii_cons in Hv by done.
  cbn [mbind option_bind] in *.
  destruct (position " " after_at) as [n|] eqn:Ep.
  2: { apply position_None in Ep. by rewrite Ep in Ht. }
  apply position_split in Ep as Es. rewrite Es in Ht. cbn [ok_or mbind result_bind] in Ht.
  apply split_once_Some in Es as [Heq Hn]. rewrite Heq in Hv, Hl.
  rewrite utf8_valid_app_ascii in Hv by done. apply andb_true_iff in Hv as [Hv _].
  rewrite legal_cons, legal_app in Hl. apply orb_false_iff in Hl as [_ [Hl _]%orb_false_iff].
  cbn [mbind option_bind]. unfold from_utf8. rewrite Hv. cbn [mbind option_bind]. rewrite Hl.
  destruct (parse_tag_section _) as [ts|] eqn:Ets; [|done]. by injection Ht as <- <-.
Qed.

Lemma tag_section_value_agrees_witness :
  tag_section_value (bs "@label=a\sb PING x") (bs "label") = Some (bs "a b")
  /\ tag_section_value (bs "@label=a\sb PING x") (bs "label")
     = t ← message_tag (MkMessage [MkTag (bs "label") (Some (bs "a b"))] None (bs "PING")
             [bs "x"] false) (bs "label"); tag_value t.
Proof.
  split; [vm_compute; reflexivity|].
  apply (tag_section_value_agrees (bs "@label=a\sb PING x")); vm_compute; reflexivity.
Defined.
