(* ===== verification/Sanitize.v ===== *)
(** * Text that is safe on the wire ([e6ircd/src/sanitize.rs])

    The names and masks a client may carry, CTCP ACTION, the service commands
    whose secrets are not echoed, upstream lines, client-only tags and the part
    of them history keeps, channel names and the closing ERROR line.  Where the
    source walks characters the model walks the strings [chars] gives. *)

From stdpp Require Import gmap.
From S2P Require Import Prelude Str Keys Casemap Message Parse.

Local Open Scope nat_scope.

(** ** Characters *)

Definition char_in (set : str) (c : str) : bool := match c with [b] => contains_byte b set | _ => false end.
Definition char_alphanumeric (c : str) : bool := match c with [b] => is_ascii_alphanumeric b | _ => false end.

(** [char::is_control]: the C0 and C1 controls and DEL. *)
Definition char_control (c : str) : bool :=
  match c with
  | [b] => ((bz b <? 32) || (bz b =? 127))%Z
  | [b0; b1] => (b0 =b? xc2) && in_range x80 x9f b1
  | _ => false
  end.

(** [char::is_whitespace]. *)
Definition char_whitespace (c : str) : bool :=
  match c with
  | [b] => in_range x09 x0d b || (b =b? " ")
  | [b0; b1] => (b0 =b? xc2) && ((b1 =b? x85) || (b1 =b? xa0))
  | [b0; b1; b2] =>
      str_eqb c [xe1; x9a; x80]
      || ((b0 =b? xe2) && (b1 =b? x80) && (in_range x80 x8a b2 || (b2 =b? xa8) || (b2 =b? xa9) || (b2 =b? xaf)))
      || str_eqb c [xe2; x81; x9f] || str_eqb c [xe3; x80; x80]
  | _ => false
  end.

(** [split_whitespace]: [word] is the one being read. *)
Fixpoint words_from (cs : list str) (word : str) : list str :=
  match cs with
  | [] => if is_empty word then [] else [word]
  | c :: cs =>
      if char_whitespace c then if is_empty word then words_from cs [] else word :: words_from cs []
      else words_from cs (word ++ c)
  end.
Definition split_whitespace (s : str) : list str := words_from (chars s) [].

Definition eq_ignore_ascii_case (a b : str) : bool := casemap_eq Ascii a b.

(** ** Names *)

Definition username (raw : str) (max_len : nat) : option str :=
  let valid := forallb (fun c => negb (char_in (bs "!@ ") c) && negb (char_control c)) (chars raw) in
  let kept := truncate_on_char_boundary raw max_len in
  if valid && negb (is_empty kept) then Some kept else None.

Definition mask_middle (mask : str) : str :=
  if negb (starts_with ":" mask) && negb (contains_byte " " mask) then mask
  else (if starts_with ":" mask then bs "0" else [])
       ++ concat ((fun b => if b =b? " " then [BACKSLASH; "s"%byte] else [b]) <$> mask).

Definition account_name (raw : str) : option str :=
  let cleaned := concat (take 32 (List.filter (fun c => char_alphanumeric c || char_in (bs "-_.[]{}\|^`") c) (chars raw))) in
  if is_empty cleaned then None else Some cleaned.

Definition nick_token (raw : str) : str :=
  let legal c := char_alphanumeric c || char_in (bs "[]\`_^{|}-") c in
  let out := concat (take 30 ((fun c => if legal c then c else bs "_") <$> chars raw)) in
  if is_empty out then bs "_" else out.

Definition nick_special (b : byte) : bool := contains_byte b (bs "[]\`_^{|}").
Definition valid_nick (nick : str) (nicklen : nat) : bool :=
  match nick with
  | [] => false
  | first :: rest =>
      (is_ascii_alphabetic first || nick_special first)
      && ((length nick <=? nicklen) && forallb (fun b => is_ascii_alphanumeric b || nick_special b || (b =b? "-")) rest)
  end.

Definition MAX_NETWORK_NAME_LEN : nat := 64.
Definition valid_network_name (name : str) : bool :=
  negb (is_empty name) && (length name <=? MAX_NETWORK_NAME_LEN)
  && negb (str_eqb name (bs ".")) && negb (str_eqb name (bs ".."))
  && forallb (fun c => char_alphanumeric c || char_in (bs "-_.") c) (chars name).

(** ** CTCP and service commands *)

Definition ctcp_action (text : str) : option str :=
  match strip_prefix (x01 :: bs "ACTION") text with
  | None => None
  | Some rest =>
      let body := match strip_byte " " rest with
                  | Some body => Some body
                  | None => if is_empty rest || starts_with x01 rest then Some rest else None
                  end in
      (fun rest => default rest (strip_suffix_byte x01 rest)) <$> body
  end.

Definition ACCOUNT_SERVICES : list str := [bs "NickServ"; bs "NS"; bs "Q"; bs "X"; bs "AuthServ"].
Definition SENSITIVE_SERVICE_COMMANDS : list str :=
  [bs "REGISTER"; bs "IDENTIFY"; bs "ID"; bs "LOGIN"; bs "AUTH"; bs "GHOST"; bs "RECOVER"; bs "REGAIN"; bs "RELEASE";
   bs "SENDPASS"; bs "SETPASS"; bs "RESETPASS"; bs "VERIFY"; bs "CONFIRM"; bs "DROP"; bs "GROUP"].
Definition SENSITIVE_SERVICE_SETTINGS : list str := [bs "PASSWORD"; bs "PASS"; bs "EMAIL"; bs "PUBKEY"].

Definition sensitive_service_command (target text : str) : bool :=
  let service := match split_once "@" target with Some (name, _) => name | None => target end in
  let is_one_of word l := existsb (fun w => eq_ignore_ascii_case word w) l in
  if negb (is_one_of service ACCOUNT_SERVICES) then false
  else
    let words := split_whitespace text in
    let command := default [] (head words) in
    is_one_of command SENSITIVE_SERVICE_COMMANDS
    || (eq_ignore_ascii_case command (bs "SET")
        && match words !! 1 with Some setting => is_one_of setting SENSITIVE_SERVICE_SETTINGS | None => false end).

(** ** Lines from an upstream *)

Definition REJECTED_UPSTREAM : str :=
  bs ":*bnc* NOTICE * :upstream input rejected: server line exceeds an IRC wire budget".

Definition upstream_line (line : str) : str :=
  let line := if existsb is_illegal_byte line
              then (fun b => if is_illegal_byte b then " "%byte else b) <$> line else line in
  if server_frame_fits line then line else REJECTED_UPSTREAM.

(** ** Client-only tags *)

Definition MAX_TAG_KEY_LEN : nat := 100.

Definition valid_client_tag_key (key : str) : bool :=
  match strip_byte "+" key with
  | None => false
  | Some rest =>
      if is_empty rest || (MAX_TAG_KEY_LEN <? length rest) then false
      else
        let '(vendor, name) := match split_once "/" rest with Some (v, n) => (Some v, n) | None => (None, rest) end in
        let name_ok := negb (is_empty name) && forallb (fun b => is_ascii_alphanumeric b || (b =b? "-")) name in
        let vendor_ok := match vendor with
          | Some v => negb (is_empty v) && forallb (fun b => is_ascii_alphanumeric b || (b =b? "-") || (b =b? ".")) v
          | None => true
          end in
        name_ok && vendor_ok
  end.

(** The loop of [client_tag_string]: the keys in the order they first came,
    and each key's last value. *)
Definition collect_tag (acc : list str * gmap str (option str)) (t : Tag) : list str * gmap str (option str) :=
  let '(order, values) := acc in
  (if bool_decide (is_Some (values !! tag_key t)) then order else order ++ [tag_key t],
   <[tag_key t := tag_value t]> values).

(** [values[key]] is there for every key of [order] ([collect_tags_spec]). *)
Definition client_tag_string (tags : list Tag) : str :=
  let '(order, values) := fold_left collect_tag (List.filter (fun t => valid_client_tag_key (tag_key t)) tags) ([], ∅) in
  join ";" ((fun key => match default None (values !! key) with
                        | Some value => key ++ bs "=" ++ escape_tag_value value
                        | None => key
                        end) <$> order).

Definition EPHEMERAL_CLIENT_TAGS : list str := [bs "+typing"; bs "+draft/typing"].

Definition history_client_tags (relayed : str) : str :=
  join ";" (List.filter (fun tag =>
    let key := match split_once "=" tag with Some (key, _) => key | None => tag end in
    negb (is_empty key) && negb (existsb (str_eqb key) EPHEMERAL_CLIENT_TAGS)) (split ";" relayed)).

Definition is_ephemeral_tagmsg (line : str) : bool :=
  match parse line with
  | Ok m => eq_ignore_ascii_case (msg_command m) (bs "TAGMSG") && is_empty (history_client_tags (client_tag_string (msg_tags m)))
  | Err _ => false
  end.

(** ** The closing line *)

Definition closing_link (host reason : str) : str :=
  let head := bs "ERROR :Closing Link: " ++ host ++ bs " (" in
  let room := MAX_LINE_LEN - (length head + 3) in
  head ++ truncate_on_char_boundary reason room ++ bs ")".

(** ** Channel names *)

Definition CHANNELLEN : nat := 50.

Definition forbidden_in_channel_name (c : str) : bool :=
  match c with
  | [b] => contains_byte b (bs " ,:") || (bz b <? 32)%Z || (bz b =? 127)%Z
  | _ => str_eqb c [xc2; xa0]
  end.

Inductive ChannelNameError : Type := Illegal | NotAChannel.

Definition ChannelName_parse (name : str) : result ChannelNameError str :=
  if is_empty name || (CHANNELLEN <? length name) || existsb forbidden_in_channel_name (chars name) then Err Illegal
  else if negb (starts_with "#" name) then Err NotAChannel
  else if length name =? 1 then Err Illegal
  else Ok name.

(** ** Lemmas *)

(** An ASCII byte of a string is a character of it. *)
Lemma ascii_in_chars c (s : str) : is_ascii c = true -> c ∈ s -> [c] ∈ chars s.
Proof.
  intros Hc. rewrite <- (concat_chunks s) at 1. unfold chars. rewrite list_elem_of_In, in_concat.
  intros (chunk & Hchunk%list_elem_of_In & Hin%list_elem_of_In).
  apply list_elem_of_fmap in Hchunk as ([ok chunk'] & -> & Hs). cbn [snd] in *. apply list_elem_of_fmap. exists (ok, chunk').
  split; [|done]. destruct (chunk_high _ _ _ Hs) as [(_ & c' & _ & ->)|Hh]; [by apply list_elem_of_singleton in Hin as ->|].
  rewrite Forall_forall in Hh. apply Hh in Hin. congruence.
Qed.

Lemma find_tag_snoc l t key :
  find_tag (l ++ [t]) key = if str_eqb (tag_key t) key then Some t else find_tag l key.
Proof. unfold find_tag. by rewrite rev_app_distr. Qed.

Lemma find_tag_key l key t : find_tag l key = Some t -> t ∈ l /\ tag_key t = key.
Proof.
  unfold find_tag. intros [Hin Hk]%find_some. apply str_eqb_eq in Hk. split; [|done].
  apply list_elem_of_In. by apply in_rev.
Qed.

Lemma find_tag_none l key : find_tag l key = None <-> Forall (fun t => tag_key t <> key) l.
Proof.
  induction l as [|t l IH] using rev_ind; [done|]. rewrite find_tag_snoc, Forall_app, Forall_singleton, <- IH.
  destruct (decide (tag_key t = key)) as [->|Hne]; [rewrite str_eqb_refl|rewrite str_eqb_neq by done]; naive_solver.
Qed.

(** What the loop holds after the tags [l]. *)
Record collected (l : list Tag) (order : list str) (values : gmap str (option str)) : Prop := {
  col_nodup : NoDup order;
  col_keys : forall key, key ∈ order <-> is_Some (values !! key);
  col_value : forall key, values !! key = tag_value <$> find_tag l key;
}.

Lemma collect_tags_spec l : let '(order, values) := fold_left collect_tag l ([], ∅) in collected l order values.
Proof.
  induction l as [|t l IH] using rev_ind.
  { split; [constructor| |]; intros key; rewrite lookup_empty; [|done]. split; [by intros ?%elem_of_nil|by intros []]. }
  rewrite fold_left_app. cbn [fold_left]. destruct (fold_left collect_tag l ([], ∅)) as [order values]. destruct IH as [Hn Hk Hv].
  cbn [collect_tag]. assert (Hval : forall key, <[tag_key t := tag_value t]> values !! key = tag_value <$> find_tag (l ++ [t]) key).
  { intros key. rewrite find_tag_snoc. destruct (decide (tag_key t = key)) as [<-|Hne].
    - by rewrite lookup_insert_eq, str_eqb_refl.
    - by rewrite lookup_insert_ne, str_eqb_neq. }
  case_bool_decide as Hin.
  - split; [done| |done]. intros key. rewrite Hk, lookup_insert_is_Some'. naive_solver.
  - split; [| |done].
    + apply NoDup_app. split_and!; [done| |apply NoDup_singleton]. intros key Hkey ->%list_elem_of_singleton. by apply Hin, Hk.
    + intros key. rewrite elem_of_app, list_elem_of_singleton, Hk, lookup_insert_is_Some'. naive_solver.
Qed.

(** The tags a recipient is given of [tags]: one for each valid key, where the
    key first came, with its last value. *)
Definition relayed_tags (tags : list Tag) : list Tag :=
  let '(order, values) := fold_left collect_tag (List.filter (fun t => valid_client_tag_key (tag_key t)) tags) ([], ∅) in
  (fun key => MkTag key (default None (values !! key))) <$> order.

Lemma client_tag_string_eq tags : client_tag_string tags = join ";" (render_tag <$> relayed_tags tags).
Proof.
  unfold client_tag_string, relayed_tags. destruct (fold_left _ _ _) as [order values]. f_equal. rewrite <- list_fmap_compose.
  apply list_fmap_ext. intros _ key _. cbn. by destruct (default None (values !! key)).
Qed.

Lemma find_tag_filter tags key :
  find_tag (List.filter (fun t => valid_client_tag_key (tag_key t)) tags) key
  = if valid_client_tag_key key then find_tag tags key else None.
Proof.
  induction tags as [|t tags IH] using rev_ind; [by destruct (valid_client_tag_key key)|].
  rewrite List.filter_app, find_tag_snoc. cbn [List.filter]. destruct (decide (tag_key t = key)) as [<-|Hne].
  - rewrite str_eqb_refl. destruct (valid_client_tag_key (tag_key t)) eqn:E; [by rewrite find_tag_snoc, str_eqb_refl|].
    by rewrite app_nil_r, IH.
  - rewrite (str_eqb_neq _ _ Hne). destruct (valid_client_tag_key (tag_key t)); [|by rewrite app_nil_r].
    by rewrite find_tag_snoc, (str_eqb_neq _ _ Hne).
Qed.

Lemma find_tag_nodup tags t : NoDup (tag_key <$> tags) -> t ∈ tags -> find_tag tags (tag_key t) = Some t.
Proof.
  induction tags as [|x tags IH] using rev_ind; [by intros _ ?%elem_of_nil|]. rewrite fmap_app, NoDup_app, find_tag_snoc.
  intros (Hn & Hd & _) [Hin| ->%list_elem_of_singleton]%elem_of_app; [|by rewrite str_eqb_refl].
  rewrite str_eqb_neq; [by apply IH|]. intros E. apply (Hd (tag_key t)); [by apply list_elem_of_fmap_2|].
  rewrite <- E. cbn. by apply list_elem_of_singleton.
Qed.

Lemma relayed_tags_spec tags :
  NoDup (tag_key <$> relayed_tags tags)
  /\ (forall key, find_tag (relayed_tags tags) key = if valid_client_tag_key key then find_tag tags key else None)
  /\ (forall t, t ∈ relayed_tags tags -> t ∈ tags /\ valid_client_tag_key (tag_key t) = true).
Proof.
  unfold relayed_tags. pose proof (collect_tags_spec (List.filter (fun t => valid_client_tag_key (tag_key t)) tags)) as Hc.
  destruct (fold_left _ _ _) as [order values]. destruct Hc as [Hn Hk Hv].
  set (kept := (fun key => MkTag key (default None (values !! key))) <$> order).
  assert (Hkeys : tag_key <$> kept = order) by (unfold kept; rewrite <- list_fmap_compose; apply list_fmap_id).
  assert (Hnd : NoDup (tag_key <$> kept)) by (by rewrite Hkeys).
  assert (Hval : forall key t, find_tag (List.filter (fun t => valid_client_tag_key (tag_key t)) tags) key = Some t ->
    MkTag key (default None (values !! key)) = t).
  { intros key t E. rewrite Hv, E. apply find_tag_key in E as [_ <-]. by destruct t. }
  split; [done|]. assert (Hfind : forall key, find_tag kept key = find_tag (List.filter (fun t => valid_client_tag_key (tag_key t)) tags) key).
  { intros key. destruct (find_tag (List.filter _ tags) key) as [t|] eqn:E.
    - rewrite <- (Hval _ _ E). apply (find_tag_nodup kept (MkTag key (default None (values !! key)))); [done|].
      apply list_elem_of_fmap. exists key. split; [done|]. apply Hk. rewrite Hv, E. by eexists.
    - apply find_tag_none. apply Forall_forall. intros t Ht Hkt. assert (key ∈ order) as Ho.
      { rewrite <- Hkeys, <- Hkt. by apply list_elem_of_fmap_2. }
      apply Hk in Ho. rewrite Hv, E in Ho. by destruct Ho. }
  split; [intros key; by rewrite Hfind, find_tag_filter|].
  intros t Ht. pose proof (find_tag_nodup _ _ Hnd Ht) as E. rewrite Hfind, find_tag_filter in E.
  destruct (valid_client_tag_key (tag_key t)); [|done]. by apply find_tag_key in E as [? _].
Qed.

Definition ephemeral (t : Tag) : bool := existsb (str_eqb (tag_key t)) EPHEMERAL_CLIENT_TAGS.

Lemma render_tag_key t :
  wf_tag t = true -> match split_once "=" (render_tag t) with Some (key, _) => key | None => render_tag t end = tag_key t.
Proof.
  unfold wf_tag. rewrite !andb_true_iff. intros [[_ Hk] _]. assert ("="%byte ∉ tag_key t) as Hin.
  { intros Hin. apply lacks_spec in Hk. rewrite Forall_forall in Hk. destruct (Hk _ Hin) as [Hb _]. apply Hb. set_solver. }
  unfold render_tag. destruct (tag_value t) as [v|]; [by rewrite split_once_app|].
  destruct (split_once "=" (tag_key t)) as [[a b]|] eqn:E; [|done]. apply split_once_None in Hin. congruence.
Qed.

Lemma history_tags_join kept :
  forallb wf_tag kept = true ->
  history_client_tags (join ";" (render_tag <$> kept)) = join ";" (render_tag <$> List.filter (fun t => negb (ephemeral t)) kept).
Proof.
  intros Hwf. apply forallb_true_iff in Hwf. destruct (decide (kept = [])) as [->|Hne]; [by vm_compute|].
  unfold history_client_tags. rewrite split_join.
  - f_equal. clear Hne. induction Hwf as [|t kept Ht _ IH]; [done|]. rewrite fmap_cons. cbn [List.filter]. rewrite (render_tag_key _ Ht).
    assert (is_empty (tag_key t) = false) as ->.
    { unfold wf_tag in Ht. rewrite !andb_true_iff, negb_true_iff in Ht. by destruct Ht as [[? _] _]. }
    cbn [negb andb]. unfold ephemeral at 1. destruct (existsb _ _); cbn [negb]; [exact IH|]. rewrite fmap_cons. by f_equal.
  - by destruct kept.
  - apply Forall_fmap. eapply Forall_impl; [exact Hwf|]. intros t Ht. cbn. apply render_tag_safe in Ht.
    apply lacks_not_in with (c := ";"%byte) in Ht; [done|set_solver].
Qed.

(** ** Theorems *)

(** Of the tags of a message, recipients are given exactly the client-only
    ones with well-formed keys, each key once with the value the message reads
    for it; history keeps exactly those that are not ephemeral.  Both strings
    are tag sections that parse back to those tags, whatever the values. *)
Theorem client_tags_exact (line : str) (m : Message) (Hparse : parse line = Ok m) :
  let relayed := client_tag_string (msg_tags m) in
  exists kept,
    NoDup (tag_key <$> kept)
    /\ (forall key, find_tag kept key = if valid_client_tag_key key then message_tag m key else None)
    /\ relayed = join ";" (render_tag <$> kept)
    /\ (kept = [] \/ parse_tag_section relayed = Ok kept)
    /\ let stored := List.filter (fun t => negb (ephemeral t)) kept in
       history_client_tags relayed = join ";" (render_tag <$> stored)
       /\ (stored = [] \/ parse_tag_section (history_client_tags relayed) = Ok stored).
Proof.
  cbn zeta. destruct (relayed_tags_spec (msg_tags m)) as (Hn & Hf & Hin). exists (relayed_tags (msg_tags m)).
  assert (Hwf : forallb wf_tag (relayed_tags (msg_tags m)) = true).
  { apply parse_sound_lemma in Hparse. unfold wf_message in Hparse. rewrite !andb_true_iff in Hparse.
    destruct Hparse as [[[Ht _] _] _]. apply forallb_true_iff in Ht. apply forallb_true_iff, Forall_forall.
    intros t [Hm _]%Hin. rewrite Forall_forall in Ht. by apply Ht. }
  rewrite client_tag_string_eq. split; [done|]. split; [done|]. split; [done|]. split.
  { destruct (decide (relayed_tags (msg_tags m) = [])); [by left|right]. by apply parse_render_tag_section. }
  rewrite history_tags_join by done. split; [done|]. destruct (decide (List.filter (fun t => negb (ephemeral t)) (relayed_tags (msg_tags m)) = [])); [by left|right].
  apply parse_render_tag_section; [done|]. apply forallb_true_iff, Forall_forall. intros t [Ht _]%elem_of_Lfilter.
  apply forallb_true_iff in Hwf. rewrite Forall_forall in Hwf. by apply Hwf.
Qed.

Lemma client_tags_exact_witness :
  match parse (bs "@+a=1;time=x;+a=\:;+typing=active PRIVMSG #c :hi") with
  | Ok m =>
      client_tag_string (msg_tags m) = bs "+a=\:;+typing=active"
      /\ history_client_tags (client_tag_string (msg_tags m)) = bs "+a=\:"
      /\ exists kept, NoDup (tag_key <$> kept) /\ find_tag kept (bs "time") = None
           /\ client_tag_string (msg_tags m) = join ";" (render_tag <$> kept)
  | Err _ => False
  end.
Proof.
  destruct (parse _) as [m|] eqn:E; [|discriminate E].
  destruct (client_tags_exact _ m E) as (kept & Hn & Hf & Hr & _).
  split; [|split; [|exists kept; split; [exact Hn|split; [exact (Hf (bs "time"))|exact Hr]]]];
    vm_compute in E; injection E as <-; vm_compute; reflexivity.
Defined.

(** *** Names in a source *)

Lemma nick_byte_safe b :
  is_ascii_alphanumeric b || nick_special b || (b =b? "-") = true ->
  (b ∉ ["!"%byte; "@"%byte; " "%byte]) /\ is_illegal_byte b = false /\ b <> ":"%byte.
Proof.
  intros Hb. assert (negb (contains_byte b (bs "!@ :")) && negb (is_illegal_byte b) = true) as H
    by (destruct b; vm_compute in Hb |- *; congruence).
  rewrite andb_true_iff, !negb_true_iff in H. destruct H as [H1 H2].
  apply contains_byte_false in H1. split_and!; [|done|]; [|intros ->; apply H1; vm_compute; set_solver].
  intros Hin. apply H1. change (bs "!@ :") with (["!"%byte; "@"%byte; " "%byte] ++ [":"%byte]). set_solver.
Qed.

Lemma valid_nick_bytes nick n :
  valid_nick nick n = true -> nick <> [] /\ length nick <= n
    /\ Forall (fun b => is_ascii_alphanumeric b || nick_special b || (b =b? "-") = true) nick.
Proof.
  unfold valid_nick. destruct nick as [|b nick]; [done|]. rewrite !andb_true_iff, Nat.leb_le, forallb_true_iff.
  intros (Hb & Hl & Hr). split_and!; [done|done|]. constructor; [|done]. unfold is_ascii_alphanumeric.
  apply orb_true_iff in Hb as [->| ->]; [done|]. by rewrite orb_true_r.
Qed.

Lemma valid_nick_lacks nick n : valid_nick nick n = true -> lacks ["!"%byte; "@"%byte; " "%byte] nick = true.
Proof.
  intros (_ & _ & Hf)%valid_nick_bytes. apply lacks_spec. eapply Forall_impl; [exact Hf|]. intros b Hb.
  by destruct (nick_byte_safe b Hb) as (? & ? & _).
Qed.

Lemma username_lacks raw n user : username raw n = Some user -> user <> [] /\ length user <= n /\ lacks ["!"%byte; "@"%byte; " "%byte] user = true.
Proof.
  unfold username. destruct (forallb _ (chars raw)) eqn:Ev; [|done]. cbn [andb]. destruct (is_empty _) eqn:Ee; [done|]. intros [= <-].
  apply is_empty_false in Ee. split; [done|]. split; [apply truncate_le|]. apply lacks_spec, Forall_forall. intros b Hb%truncate_elem.
  apply forallb_true_iff in Ev. rewrite Forall_forall in Ev.
  assert (Hbad : is_ascii b = true -> char_in (bs "!@ ") [b] = false /\ char_control [b] = false).
  { intros Ha. pose proof (Ev _ (ascii_in_chars b raw Ha Hb)) as H. by rewrite andb_true_iff, !negb_true_iff in H. }
  split.
  - intros Hin. assert (is_ascii b = true) as Ha by (repeat (apply elem_of_cons in Hin as [->|Hin]; [done|]); by apply elem_of_nil in Hin).
    destruct (Hbad Ha) as [H _]. apply contains_byte_false in H. by apply H.
  - destruct (is_illegal_byte b) eqn:Ei; [|done]. assert (is_ascii b = true) as Ha by (destruct b; vm_compute in Ei |- *; done).
    destruct (Hbad Ha) as [_ H]. destruct b; vm_compute in Ei, H; done.
Qed.

Lemma mask_middle_alone host :
  host <> [] -> contains_illegal_byte host = false -> stands_alone (mask_middle host) = true.
Proof.
  intros Hne Hi. unfold mask_middle. destruct (negb (starts_with ":" host) && negb (contains_byte " " host)) eqn:E.
  - rewrite andb_true_iff, !negb_true_iff, contains_byte_false in E. destruct E as [Hs Hsp]. apply stands_alone_spec.
    split_and!; [done|done|]. apply existsb_false_iff in Hi. rewrite Forall_forall in Hi. apply Forall_forall.
    intros b Hb. split; [by intros ->|by apply Hi].
  - apply stands_alone_spec. split_and!.
    + destruct host as [|b host]; [done|]. cbn. destruct (b =b? ":"), (b =b? " "); done.
    + destruct host as [|b host]; [done|]. cbn. destruct (byte_eqb_spec b ":") as [->|Hb]; [done|].
      cbn. destruct (byte_eqb_spec b " "); [done|]. by apply byte_eqb_neq.
    + apply Forall_app. split; [destruct (starts_with ":" host); repeat constructor; done|]. apply Forall_concat, Forall_fmap.
      apply existsb_false_iff in Hi. eapply Forall_impl; [exact Hi|]. intros b Hb. cbn.
      destruct (byte_eqb_spec b " ") as [->|Hs]; repeat constructor; done.
Qed.

(** The source a session's lines carry, put together from a nick, a user
    name and a shown host the server accepted, is read back by any client as
    those three and nothing else: no name can make a client take part of it
    for another part, whatever text was offered, and nick and host each stand
    as one parameter wherever they are shown. *)
Theorem source_names_its_parts (nick raw host user : str) (nicklen userlen : nat)
    (Hnick : valid_nick nick nicklen = true) (Huser : username raw userlen = Some user)
    (Hhost : host <> [] /\ contains_illegal_byte host = false) :
  let shown := mask_middle host in
  parse_source (nick ++ bs "!" ++ user ++ bs "@" ++ shown) = Ok (MkSource nick (Some user) (Some shown))
  /\ stands_alone nick = true /\ stands_alone shown = true
  /\ length nick <= nicklen /\ length user <= userlen.
Proof.
  cbn zeta. destruct Hhost as [Hne Hi]. pose proof (mask_middle_alone host Hne Hi) as Hs.
  destruct (username_lacks _ _ _ Huser) as (Hu & Hul & Hul2). pose proof (valid_nick_lacks _ _ Hnick) as Hn.
  destruct (valid_nick_bytes _ _ Hnick) as (Hnn & Hnl & Hnb). split_and!; [|apply lacks_stands_alone|done|done|done].
  - apply (parse_render_source (MkSource nick (Some user) (Some (mask_middle host)))). unfold wf_source. cbn [src_name src_user src_host].
    rewrite !andb_true_iff. split_and!; [by destruct nick|done| |by apply stands_alone_lacks].
    apply lacks_spec in Hul2. apply lacks_spec. eapply Forall_impl; [exact Hul2|]. intros b [Hb ?]. split; [set_solver|done].
  - done.
  - destruct nick as [|b nick]; [done|]. inversion Hnb as [|? ? Hb _]; subst. destruct (nick_byte_safe b Hb) as (_ & _ & Hc).
    cbn. by apply byte_eqb_neq.
  - apply lacks_spec in Hn. apply lacks_spec. eapply Forall_impl; [exact Hn|]. intros b [Hb ?]. split; [set_solver|done].
Qed.

Lemma source_names_its_parts_witness :
  parse_source (bs "al[x]" ++ bs "!" ++ bs "root" ++ bs "@" ++ mask_middle (bs "::1"))
  = Ok (MkSource (bs "al[x]") (Some (bs "root")) (Some (bs "0::1"))).
Proof.
  refine (proj1 (source_names_its_parts (bs "al[x]") (bs "root") (bs "::1") (bs "root") 30 10 eq_refl _ (conj _ eq_refl))).
  - vm_compute. reflexivity.
  - discriminate.
Defined.

(** A line relayed from an upstream holds no CR, LF or NUL and fits the
    wire's budgets, whatever the upstream sent; so does the line that closes a
    connection, whatever the reason given. *)
Theorem foreign_text_fits (line host reason : str)
    (Hhost : length host <= 480) (Hlegal : contains_illegal_byte (host ++ reason) = false) :
  contains_illegal_byte (upstream_line line) = false /\ server_frame_fits (upstream_line line) = true
  /\ (server_frame_fits line = true -> contains_illegal_byte line = false -> upstream_line line = line)
  /\ length (closing_link host reason) <= MAX_LINE_LEN - 2
  /\ contains_illegal_byte (closing_link host reason) = false.
Proof.
  unfold contains_illegal_byte in *. rewrite existsb_app, orb_false_iff in Hlegal. destruct Hlegal as [Hlh Hlr].
  assert (Hclean : existsb is_illegal_byte (if existsb is_illegal_byte line
      then (fun b => if is_illegal_byte b then " "%byte else b) <$> line else line) = false).
  { destruct (existsb is_illegal_byte line) eqn:E; [|done]. apply existsb_false_iff, Forall_fmap, Forall_forall. intros b _. cbn.
    by destruct (is_illegal_byte b) eqn:Eb. }
  unfold upstream_line. split_and!.
  - revert Hclean. generalize (if existsb is_illegal_byte line then (fun b => if is_illegal_byte b then " "%byte else b) <$> line else line).
    intros l Hl. destruct (server_frame_fits l); [exact Hl|]. by vm_compute.
  - generalize (if existsb is_illegal_byte line then (fun b => if is_illegal_byte b then " "%byte else b) <$> line else line).
    intros l. destruct (server_frame_fits l) eqn:E; [exact E|]. by vm_compute.
  - intros Hf ->. by rewrite Hf.
  - unfold closing_link, MAX_LINE_LEN. rewrite !length_app.
    pose proof (truncate_le reason (512 - (length (bs "ERROR :Closing Link: " ++ host ++ bs " (") + 3))) as Ht.
    rewrite !length_app in Ht. change (length (bs "ERROR :Closing Link: ")) with 21 in *. change (length (bs " (")) with 2 in *.
    change (length (bs ")")) with 1 in *. lia.
  - unfold closing_link. rewrite !existsb_app, Hlh. cbn [orb]. rewrite !orb_false_iff. split_and!; try reflexivity.
    apply existsb_false_iff, Forall_forall. intros b Hb%truncate_elem. apply existsb_false_iff in Hlr. rewrite Forall_forall in Hlr. by apply Hlr.
Qed.

Lemma foreign_text_fits_witness :
  contains_illegal_byte (upstream_line (bs "a" ++ [CR; LF] ++ bs "QUIT")) = false
  /\ length (closing_link (bs "host") (repeat "x"%byte 600)) <= MAX_LINE_LEN - 2.
Proof.
  destruct (foreign_text_fits (bs "a" ++ [CR; LF] ++ bs "QUIT") (bs "host") (repeat "x"%byte 600)) as (H1 & _ & _ & H2 & _).
  - vm_compute. lia.
  - vm_compute. reflexivity.
  - split; [exact H1|exact H2].
Defined.
