(* ===== verification/Framing.v ===== *)
(** * Byte-stream framing ([e6irc-proto/src/framing.rs])

    The line buffer as a state machine over received bytes, refined by a
    specification that cuts the whole stream at its line feeds: however the
    bytes are chunked, the same events come out. *)

From S2P Require Import Prelude Str Message.

(** ** The buffer *)

Record LineBuffer : Type := MkLineBuffer {
  lb_buf : str;
  lb_limit : nat;
  lb_discarding : bool;
}.

Inductive LineEvent : Type :=
| Line (line : str)
| TooLong (label : option str).

#[global] Instance LineEvent_eq_dec : EqDecision LineEvent.
Proof. solve_decision. Defined.

(** [LineEvent::too_long]. *)
Definition too_long (prefix : str) : LineEvent :=
  let window := take (Nat.min (length prefix) MAX_CLIENT_TAGS_LEN) prefix in
  TooLong (tag_section_value window (bs "label")).

(** [LineBuffer::new]; [None] is the failed assertion. *)
Definition LineBuffer_new (limit : nat) : option LineBuffer :=
  if 0 <? limit then Some (MkLineBuffer [] limit false) else None.

Definition ends_in_cr (s : str) : bool :=
  match last s with Some b => b =b? CR | None => false end.

(** The body of the loop in [LineBuffer::feed]: one received byte. *)
Definition feed_byte (lb : LineBuffer) (b : byte) : LineBuffer * list LineEvent :=
  if lb_discarding lb then
    (MkLineBuffer (lb_buf lb) (lb_limit lb) (negb (b =b? LF)), [])
  else if b =b? LF then
    let line := if ends_in_cr (lb_buf lb) then removelast (lb_buf lb) else lb_buf lb in
    (MkLineBuffer [] (lb_limit lb) false, if negb (is_empty line) then [Line line] else [])
  else
    let buf := lb_buf lb ++ [b] in
    let effective := length buf - (if ends_in_cr buf then 1 else 0) in
    if lb_limit lb <? effective then
      (MkLineBuffer [] (lb_limit lb) true, [too_long buf])
    else (MkLineBuffer buf (lb_limit lb) false, []).

(** [LineBuffer::feed]: the events pushed onto [out], in order. *)
Fixpoint feed (lb : LineBuffer) (data : str) : LineBuffer * list LineEvent :=
  match data with
  | [] => (lb, [])
  | b :: data' =>
      let '(lb1, out1) := feed_byte lb b in
      let '(lb2, out2) := feed lb1 data' in
      (lb2, out1 ++ out2)
  end.

(** Successive reads from a socket. *)
Fixpoint feed_chunks (lb : LineBuffer) (chunks : list str) : LineBuffer * list LineEvent :=
  match chunks with
  | [] => (lb, [])
  | c :: chunks' =>
      let '(lb1, out1) := feed lb c in
      let '(lb2, out2) := feed_chunks lb1 chunks' in
      (lb2, out1 ++ out2)
  end.

(** [LineBuffer::pending]. *)
Definition pending (lb : LineBuffer) : nat := length (lb_buf lb).

(** ** The specification *)

(** The shortest prefix of a line that is over the limit, a single final CR
    not counted: the line is over-long when there is one. *)
Definition overlong_prefix (limit : nat) (line : str) : option str :=
  match line !! limit with
  | None => None
  | Some b =>
      if b =b? CR then
        if limit + 2 <=? length line then Some (take (limit + 2) line) else None
      else Some (take (limit + 1) line)
  end.

(** What one terminated line yields. *)
Definition line_events (limit : nat) (line : str) : list LineEvent :=
  match overlong_prefix limit line with
  | Some p => [too_long p]
  | None =>
      let line' := if ends_in_cr line then removelast line else line in
      if is_empty line' then [] else [Line line']
  end.

(** What an unterminated line has yielded so far, and what is kept of it. *)
Definition partial_events (limit : nat) (line : str) : list LineEvent :=
  match overlong_prefix limit line with Some p => [too_long p] | None => [] end.

Definition partial_state (limit : nat) (line : str) : LineBuffer :=
  match overlong_prefix limit line with
  | Some _ => MkLineBuffer [] limit true
  | None => MkLineBuffer line limit false
  end.

(** The events and the buffer a whole stream leaves. *)
Definition stream_lines (data : str) : list str := removelast (split LF data).
Definition stream_tail (data : str) : str := default [] (last (split LF data)).

Definition stream_events (limit : nat) (data : str) : list LineEvent :=
  concat (line_events limit <$> stream_lines data) ++ partial_events limit (stream_tail data).

(** ** Lemmas *)

Lemma feed_app lb a b :
  feed lb (a ++ b) =
    let '(lb1, out1) := feed lb a in
    let '(lb2, out2) := feed lb1 b in (lb2, out1 ++ out2).
Proof.
  revert lb. induction a as [|x a IH]; intros lb; cbn.
  { by destruct (feed lb b). }
  destruct (feed_byte lb x) as [lb1 out1]. rewrite IH.
  destruct (feed lb1 a) as [lb2 out2]. destruct (feed lb2 b) as [lb3 out3].
  by rewrite app_assoc.
Qed.

(** Chunk boundaries do not matter. *)
Lemma feed_chunks_concat lb chunks : feed_chunks lb chunks = feed lb (concat chunks).
Proof.
  revert lb. induction chunks as [|c chunks IH]; intros lb; cbn; [done|].
  rewrite feed_app. destruct (feed lb c) as [lb1 out1]. by rewrite IH.
Qed.

Lemma ends_in_cr_snoc s b : ends_in_cr (s ++ [b]) = (b =b? CR).
Proof. unfold ends_in_cr. by rewrite last_snoc. Qed.

Lemma overlong_prefix_None limit line :
  overlong_prefix limit line = None <->
  length line - (if ends_in_cr line then 1 else 0) <= limit.
Proof.
  unfold overlong_prefix. destruct (line !! limit) as [b|] eqn:E.
  - pose proof (lookup_lt_Some _ _ _ E) as Hlt.
    destruct line as [|x line _] using rev_ind; [done|].
    rewrite ends_in_cr_snoc, length_app in *. cbn in *.
    destruct (decide (limit = length line)) as [->|Hne].
    + rewrite lookup_app_r, Nat.sub_diag in E by lia. injection E as <-.
      destruct (byte_eqb_spec x CR).
      * rewrite (proj2 (Nat.leb_gt _ _)) by lia. split; [lia|done].
      * split; [done|lia].
    + destruct (b =b? CR); [rewrite (proj2 (Nat.leb_le _ _)) by lia|]; split; try done;
        destruct (x =b? CR); lia.
  - apply lookup_ge_None in E. split; [lia|done].
Qed.

(** A longer line keeps the prefix that was over the limit. *)
Lemma overlong_prefix_app limit line t p :
  overlong_prefix limit line = Some p -> overlong_prefix limit (line ++ t) = Some p.
Proof.
  unfold overlong_prefix. destruct (line !! limit) as [b|] eqn:E; [|done].
  pose proof (lookup_lt_Some _ _ _ E). rewrite lookup_app_l, E by done.
  destruct (b =b? CR).
  - destruct (limit + 2 <=? length line) eqn:El; [|done]. bool_to_prop.
    rewrite length_app, (proj2 (Nat.leb_le _ _)) by lia. rewrite take_app_le by lia. done.
  - rewrite take_app_le by lia. done.
Qed.

(** The first byte over the limit is where the whole line becomes the prefix. *)
Lemma overlong_prefix_first limit line b :
  overlong_prefix limit line = None ->
  limit < length (line ++ [b]) - (if ends_in_cr (line ++ [b]) then 1 else 0) ->
  overlong_prefix limit (line ++ [b]) = Some (line ++ [b]).
Proof.
  intros Hn Hlt. destruct (overlong_prefix limit (line ++ [b])) as [p|] eqn:E.
  2: { apply overlong_prefix_None in E. lia. }
  apply overlong_prefix_None in Hn. rewrite ends_in_cr_snoc, length_app in Hlt. cbn in Hlt.
  f_equal. unfold overlong_prefix in E.
  destruct ((line ++ [b]) !! limit) as [c|] eqn:Ec; [|done].
  apply lookup_lt_Some in Ec as Hc. rewrite length_app in Hc. cbn in Hc.
  destruct (byte_eqb_spec c CR) as [->|Hcr].
  - destruct (limit + 2 <=? _) eqn:El; [|done]. bool_to_prop. rewrite length_app in El. cbn in El.
    injection E as <-. apply take_ge. rewrite length_app. cbn.
    destruct (ends_in_cr line); lia.
  - injection E as <-. apply take_ge. rewrite length_app. cbn.
    destruct (decide (length line <= limit)); [lia|].
    rewrite lookup_app_l in Ec by lia. destruct (ends_in_cr line) eqn:Ecr; [|lia].
    exfalso. apply Hcr. unfold ends_in_cr in Ecr. rewrite last_lookup in Ecr.
    replace (Init.Nat.pred (length line)) with limit in Ecr by lia. rewrite Ec in Ecr.
    by apply byte_eqb_eq.
Qed.

(** Feeding one unterminated line to an empty buffer. *)
Lemma feed_line limit line :
  LF ∉ line ->
  feed (MkLineBuffer [] limit false) line = (partial_state limit line, partial_events limit line).
Proof.
  induction line as [|b line IH] using rev_ind; intros Hn.
  { done. }
  rewrite not_elem_of_app, not_elem_of_cons in Hn. destruct Hn as [Hl [Hb _]].
  rewrite feed_app, IH by done. cbn. unfold feed_byte, partial_state, partial_events.
  destruct (overlong_prefix limit line) as [p|] eqn:Ep; cbn [lb_discarding lb_buf lb_limit].
  - rewrite (overlong_prefix_app _ _ _ _ Ep). rewrite (proj2 (byte_eqb_neq b LF)) by done. done.
  - rewrite (proj2 (byte_eqb_neq b LF)) by done.
    destruct (limit <? _) eqn:Elt; bool_to_prop.
    + by rewrite (overlong_prefix_first _ _ _ Ep Elt).
    + by rewrite (proj2 (overlong_prefix_None limit (line ++ [b]))).
Qed.

(** A line feed ends the line and empties the buffer. *)
Lemma feed_terminated limit line :
  LF ∉ line ->
  feed (MkLineBuffer [] limit false) (line ++ [LF])
  = (MkLineBuffer [] limit false, line_events limit line).
Proof.
  intros Hn. rewrite feed_app, feed_line by done. cbn.
  unfold feed_byte, partial_state, partial_events, line_events.
  destruct (overlong_prefix limit line); cbn; [done|]. destruct (is_empty _); done.
Qed.

Lemma feed_stream limit data :
  feed (MkLineBuffer [] limit false) data
  = (partial_state limit (stream_tail data), stream_events limit data).
Proof.
  unfold stream_events, stream_tail, stream_lines.
  remember (length data) as n eqn:Hlen. revert data Hlen.
  induction (lt_wf n) as [n _ IH]. intros data ->.
  destruct (split_once LF data) as [[line rest]|] eqn:E.
  - apply split_once_Some in E as [-> Hn]. rewrite split_app_sep by done.
    rewrite cons_middle, app_assoc, feed_app, feed_terminated by done.
    rewrite (IH (length rest)) by (done || (rewrite length_app; cbn; lia)).
    pose proof (split_ne LF rest) as Hne. destruct (split LF rest) as [|l ls]; [done|].
    change (removelast (line :: l :: ls)) with (line :: removelast (l :: ls)).
    change (last (line :: l :: ls)) with (last (l :: ls)).
    cbn [fmap list_fmap concat]. by rewrite app_assoc.
  - apply split_once_None in E. rewrite split_no_sep_id by done. cbn.
    by rewrite feed_line.
Qed.

(** ** Bounds *)

Lemma unescape_loop_length s : length (unescape_loop s) <= length s.
Proof.
  remember (length s) as n eqn:Hn. revert s Hn. induction (lt_wf n) as [n _ IH].
  intros s ->. destruct s as [|c s]; cbn; [lia|].
  destruct (c =b? BACKSLASH); [destruct s as [|e s]; cbn; [lia|]|];
    cbn; pose proof (IH (length s)) as H; specialize (H ltac:(cbn; lia) s eq_refl); lia.
Qed.

Lemma elem_of_split_length c s p : p ∈ split c s -> length p <= length s.
Proof.
  revert p. induction s as [|b s IH]; intros p.
  { cbn. rewrite list_elem_of_singleton. by intros ->. }
  destruct (decide (b = c)) as [->|Hbc].
  - cbn. rewrite byte_eqb_refl, elem_of_cons. intros [->|Hp]; [cbn; lia|].
    apply IH in Hp. lia.
  - destruct (split_cons_ne c b s Hbc) as (q & qs & E1 & ->). rewrite E1 in IH.
    rewrite elem_of_cons. intros [->|Hp]; cbn.
    + specialize (IH q). rewrite elem_of_cons in IH. enough (length q <= length s) by lia. auto.
    + specialize (IH p). rewrite elem_of_cons in IH. enough (length p <= length s) by lia. auto.
Qed.

Lemma find_tag_In tags key t : find_tag tags key = Some t -> In t tags.
Proof. intros [H _]%find_some. by apply in_rev. Qed.

Lemma parse_tag_value_length item t v :
  parse_tag item = Ok t -> tag_value t = Some v -> length v <= length item.
Proof.
  unfold parse_tag. destruct (split_once "=" item) as [[k raw]|] eqn:E.
  - apply split_once_Some in E as [-> _]. destruct (is_empty k); [done|].
    intros [= <-]. cbn. intros [= <-]. rewrite unescape_tag_value_loop.
    pose proof (unescape_loop_length raw). rewrite length_app. cbn. lia.
  - destruct (is_empty item); [done|]. by intros [= <-].
Qed.

(** A recovered value is no longer than the bytes it was read from. *)
Lemma tag_section_value_length line key v :
  tag_section_value line key = Some v -> length v <= length line.
Proof.
  unfold tag_section_value. destruct (strip_byte "@" line) as [rest|] eqn:Ea; [|done].
  apply strip_byte_Some in Ea as ->. cbn [mbind option_bind].
  destruct (position " " rest) as [n|]; [|done]. cbn [mbind option_bind].
  unfold from_utf8. destruct (utf8_valid _); [|done]. cbn [mbind option_bind].
  destruct (contains_illegal_byte _); [done|].
  destruct (parse_tag_section _) as [tags|] eqn:Et; [|done]. cbn [result_ok mbind option_bind].
  destruct (find_tag tags key) as [t|] eqn:Ef; [|done]. cbn. intros Hv.
  apply find_tag_In in Ef. unfold parse_tag_section in Et.
  assert (exists item, item ∈ split ";" (take n rest) /\ parse_tag item = Ok t) as (item & Hi & Hp).
  { revert Ef Et. generalize (split ";" (take n rest)). intros items. revert tags.
    induction items as [|item items IH]; intros tags Hin Hm; cbn in Hm.
    - by injection Hm as <-.
    - unfold mbind, result_bind, mret, result_ret in Hm.
      destruct (parse_tag item) as [t'|] eqn:Ep; [|done].
      destruct (mapM parse_tag items) as [ts|] eqn:Em; [|done]. injection Hm as <-.
      destruct Hin as [->|Hin]; [exists item; split; [left|done]|].
      destruct (IH ts Hin eq_refl) as (i & ? & ?). exists i. split; [by right|done]. }
  pose proof (parse_tag_value_length _ _ _ Hp Hv). apply elem_of_split_length in Hi.
  rewrite length_take in Hi. cbn. lia.
Qed.

(** What every event of a buffer with this limit satisfies. *)
Definition event_ok (limit : nat) (e : LineEvent) : Prop :=
  match e with
  | Line line => line <> [] /\ length line <= limit /\ LF ∉ line
  | TooLong (Some label) => length label <= MAX_CLIENT_TAGS_LEN
  | TooLong None => True
  end.

Lemma too_long_ok limit prefix : event_ok limit (too_long prefix).
Proof.
  unfold too_long. cbn. destruct (tag_section_value _ _) as [v|] eqn:E; [|done].
  apply tag_section_value_length in E. rewrite length_take in E. lia.
Qed.

Lemma removelast_elem (s : str) x : x ∈ removelast s -> x ∈ s.
Proof.
  destruct s as [|y s _] using rev_ind; [done|]. rewrite removelast_last, elem_of_app. auto.
Qed.

Lemma line_events_ok limit line : LF ∉ line -> Forall (event_ok limit) (line_events limit line).
Proof.
  intros Hn. unfold line_events. destruct (overlong_prefix limit line) as [p|] eqn:E.
  { constructor; [apply too_long_ok|constructor]. }
  apply overlong_prefix_None in E. destruct (is_empty _) eqn:Ee; [constructor|].
  apply is_empty_false in Ee. constructor; [|constructor]. cbn. split_and!.
  - done.
  - destruct line as [|y line _] using rev_ind; [done|]. rewrite ends_in_cr_snoc in *.
    rewrite length_app in E. cbn in E.
    destruct (y =b? CR); [rewrite removelast_last|rewrite length_app; cbn]; lia.
  - destruct (ends_in_cr line); [|done]. by intros ?%removelast_elem.
Qed.

Lemma partial_state_bound limit line : pending (partial_state limit line) <= limit + 1.
Proof.
  unfold partial_state, pending. destruct (overlong_prefix limit line) eqn:E; cbn; [lia|].
  apply overlong_prefix_None in E. destruct (ends_in_cr line); lia.
Qed.

Lemma stream_lines_no_lf data : Forall (fun l => LF ∉ l) (stream_lines data).
Proof.
  unfold stream_lines. pose proof (split_no_sep LF data) as H.
  destruct (split LF data) as [|y l _] using rev_ind; [done|].
  rewrite removelast_last. by apply Forall_app in H as [H _].
Qed.

(** ** Properties *)

(** C19. The line buffer implements its specification on the whole stream,
    however the bytes were chunked: the events are those of the lines between
    line feeds, in order (an over-long line reported once, at the first byte
    over the limit, with its label; an empty one swallowed; one CR of a CRLF
    stripped), and what is buffered is the unterminated tail. *)
Theorem feed_refines_stream limit lb chunks :
  LineBuffer_new limit = Some lb ->
  feed_chunks lb chunks =
    (partial_state limit (stream_tail (concat chunks)), stream_events limit (concat chunks)).
Proof.
  unfold LineBuffer_new. destruct (0 <? limit); [|done]. intros [= <-].
  rewrite feed_chunks_concat. apply feed_stream.
Qed.

Lemma feed_refines_stream_witness :
  LineBuffer_new 8 = Some (MkLineBuffer [] 8 false)
  /\ feed_chunks (MkLineBuffer [] 8 false) [bs "012345"; bs "6789"; [CR; LF] ++ bs "PI"; bs "NG" ++ [LF]]
     = (MkLineBuffer [] 8 false, [TooLong None; Line (bs "PING")]).
Proof.
  split; [reflexivity|].
  rewrite (feed_refines_stream 8 (MkLineBuffer [] 8 false)); [vm_compute; reflexivity|reflexivity].
Defined.

(** Framing is bounded: the buffer never holds more than one byte over the
    limit, every line it yields is non-empty, within the limit and free of line
    feeds, and a label recovered from an over-long line is within the client
    tag budget. *)
Theorem feed_bounded limit lb chunks :
  LineBuffer_new limit = Some lb ->
  pending (fst (feed_chunks lb chunks)) <= limit + 1
  /\ Forall (event_ok limit) (snd (feed_chunks lb chunks)).
Proof.
  unfold LineBuffer_new. destruct (0 <? limit); [|done]. intros [= <-].
  rewrite feed_chunks_concat, feed_stream. cbn [fst snd]. split; [apply partial_state_bound|].
  apply Forall_app. split.
  - apply Forall_concat, Forall_fmap. eapply Forall_impl; [apply stream_lines_no_lf|].
    intros l Hl. by apply line_events_ok.
  - unfold partial_events. destruct (overlong_prefix _ _); [|constructor].
    constructor; [apply too_long_ok|constructor].
Qed.

Lemma feed_bounded_witness :
  LineBuffer_new 4 = Some (MkLineBuffer [] 4 false)
  /\ pending (fst (feed_chunks (MkLineBuffer [] 4 false) [bs "abcd"; [CR]])) <= 5
  /\ pending (fst (feed_chunks (MkLineBuffer [] 4 false) [bs "abcd"; [CR]])) = 5.
Proof.
  split; [reflexivity|]. split; [|reflexivity].
  apply (feed_bounded 4 (MkLineBuffer [] 4 false) [bs "abcd"; [CR]]). reflexivity.
Defined.
