(* ===== verification/Base64.v ===== *)
(** * Base64 ([e6irc-proto/src/base64.rs])

    The encoder over either alphabet and the strict decoder, chunk by chunk as
    the source does it, with the shifts and masks on [u32] values written out. *)

From S2P Require Import Prelude Str.

Local Open Scope Z_scope.

Definition ALPHABET : str :=
  bs "ABCDEFGHIJKLMNOPQRSTUVWXYZabcdefghijklmnopqrstuvwxyz0123456789+/".
Definition URL_SAFE_ALPHABET : str :=
  bs "ABCDEFGHIJKLMNOPQRSTUVWXYZabcdefghijklmnopqrstuvwxyz0123456789-_".

(** [alphabet[i]]. *)
Definition symbol (alphabet : str) (i : Z) : byte := nth (Z.to_nat i) alphabet x00.

(** One chunk of one to three bytes; missing bytes read as zero. *)
Definition encode_chunk (alphabet chunk : str) : str :=
  let b0 := bz (nth 0 chunk x00) in
  let b1 := bz (nth 1 chunk x00) in
  let b2 := bz (nth 2 chunk x00) in
  let n := Z.lor (Z.lor (Z.shiftl b0 16) (Z.shiftl b1 8)) b2 in
  let chars := [symbol alphabet (Z.land (Z.shiftr n 18) 63);
                symbol alphabet (Z.land (Z.shiftr n 12) 63);
                symbol alphabet (Z.land (Z.shiftr n 6) 63);
                symbol alphabet (Z.land n 63)] in
  let keep := (length chunk + 1)%nat in
  imap (fun i c => if (i <? keep)%nat then c else "="%byte) chars.

Definition encode_with (alphabet data : str) : str :=
  concat (encode_chunk alphabet <$> slice_chunks 3 data).

Definition encode (data : str) : str := encode_with ALPHABET data.
Definition encode_url_safe (data : str) : str := encode_with URL_SAFE_ALPHABET data.

(** The value of the symbol at position [j] of a chunk with [pad] padding. *)
Definition symbol_value (pad j : nat) (c : byte) : option Z :=
  if in_range "A" "Z" c then Some (bz c - bz "A")
  else if in_range "a" "z" c then Some (bz c - bz "a" + 26)
  else if in_range "0" "9" c then Some (bz c - bz "0" + 52)
  else if c =b? "+" then Some 62
  else if c =b? "/" then Some 63
  else if (c =b? "=") && (4 - pad <=? j)%nat then Some 0
  else None.

(** [n = (n << 6) | v] over the symbols of a chunk. *)
Fixpoint chunk_value (pad j : nat) (n : Z) (chunk : str) : option Z :=
  match chunk with
  | [] => Some n
  | c :: chunk' =>
      v ← symbol_value pad j c;
      chunk_value pad (S j) (Z.lor (Z.shiftl n 6) v) chunk'
  end.

Definition decode_chunk (is_last : bool) (chunk : str) : option str :=
  let pad := length (List.filter (fun c => c =b? "=") chunk) in
  if (2 <? pad)%nat || ((0 <? pad)%nat && negb is_last) then None
  else
    n ← chunk_value pad 0 0 chunk;
    if ((pad =? 1)%nat && negb (Z.land n 255 =? 0))
       || ((pad =? 2)%nat && negb (Z.land n 65535 =? 0))
    then None
    else Some (u8 (Z.shiftr n 16)
                 :: (if (pad <? 2)%nat then [u8 (Z.shiftr n 8)] else [])
                 ++ (if (pad <? 1)%nat then [u8 n] else [])).

(** The loop over [bytes.chunks(4).enumerate()]. *)
Fixpoint decode_loop (count i : nat) (chunks : list str) : option str :=
  match chunks with
  | [] => Some []
  | chunk :: chunks' =>
      out ← decode_chunk (i =? count - 1)%nat chunk;
      rest ← decode_loop count (S i) chunks';
      Some (out ++ rest)
  end.

Definition decode (text : str) : option str :=
  if negb (Nat.modulo (length text) 4 =? 0)%nat then None
  else decode_loop (Nat.div (length text) 4) 0 (slice_chunks 4 text).

(** ** Bits as arithmetic *)

Lemma land_63 n : Z.land n 63 = n mod 64.
Proof. apply (Z.land_ones n 6). lia. Qed.

Lemma land_255 n : Z.land n 255 = n mod 256.
Proof. apply (Z.land_ones n 8). lia. Qed.

Lemma land_65535 n : Z.land n 65535 = n mod 65536.
Proof. apply (Z.land_ones n 16). lia. Qed.

(** The 24-bit value of three bytes. *)
Definition triple (b0 b1 b2 : Z) : Z := b0 * 65536 + b1 * 256 + b2.

Lemma triple_bits b0 b1 b2 :
  0 <= b1 < 256 -> 0 <= b2 < 256 ->
  Z.lor (Z.lor (Z.shiftl b0 16) (Z.shiftl b1 8)) b2 = triple b0 b1 b2.
Proof.
  intros H1 H2. unfold triple.
  assert (Z.lor (Z.shiftl b0 16) (Z.shiftl b1 8) = Z.shiftl (b0 * 2 ^ 8 + b1) 8) as ->.
  { rewrite <- (lor_shiftl_add b0 b1 8) by lia. rewrite Z.shiftl_lor, Z.shiftl_shiftl by lia. done. }
  rewrite lor_shiftl_add by lia. lia.
Qed.

(** ** Symbols *)

Lemma symbol_ALPHABET v pad j :
  0 <= v < 64 ->
  symbol_value pad j (symbol ALPHABET v) = Some v /\ symbol ALPHABET v <> "="%byte.
Proof.
  intros Hv. rewrite <- (Z2Nat.id v) by lia.
  assert (Forall (fun n => symbol_value pad j (symbol ALPHABET (Z.of_nat n)) = Some (Z.of_nat n)
    /\ symbol ALPHABET (Z.of_nat n) <> "="%byte) (seq 0 64)) as HF.
  { repeat constructor; discriminate. }
  rewrite Forall_forall in HF. apply HF. apply elem_of_seq. lia.
Qed.

Lemma symbol_value_inv pad j c v :
  symbol_value pad j c = Some v ->
  0 <= v < 64 /\ ((c = symbol ALPHABET v /\ c <> "="%byte)
                 \/ (c = "="%byte /\ v = 0 /\ (4 - pad <= j)%nat)).
Proof.
  destruct (byte_eqb_spec c "=") as [->|Hne].
  - unfold symbol_value. cbn -[Nat.leb Nat.sub].
    destruct (4 - pad <=? j)%nat eqn:E; [|done]. intros [= <-]. bool_to_prop. lia || auto with lia.
  - intros H. destruct c; vm_compute in H; try done; injection H as <-;
      (split; [lia|]); left; done.
Qed.

Lemma push6 n v : 0 <= v < 64 -> Z.lor (Z.shiftl n 6) v = n * 64 + v.
Proof. intros. by apply (lor_shiftl_add n v 6). Qed.

(** The encoder's four symbols, as digits of the 24-bit value. *)
Lemma encode_chunk_digits alphabet chunk :
  let n := triple (bz (nth 0 chunk x00)) (bz (nth 1 chunk x00)) (bz (nth 2 chunk x00)) in
  encode_chunk alphabet chunk =
    imap (fun i c => if (i <? length chunk + 1)%nat then c else "="%byte)
      [symbol alphabet (n / 262144 mod 64); symbol alphabet (n / 4096 mod 64);
       symbol alphabet (n / 64 mod 64); symbol alphabet (n mod 64)].
Proof.
  cbn zeta. unfold encode_chunk. rewrite triple_bits by apply bz_range.
  rewrite !land_63, !Z.shiftr_div_pow2 by lia. done.
Qed.

Lemma encode_chunk_length alphabet chunk : length (encode_chunk alphabet chunk) = 4%nat.
Proof. unfold encode_chunk. by rewrite length_imap. Qed.

Ltac divmod := Z.to_euclidean_division_equations; lia.

(** ** One chunk of symbols *)

Section digits.
Context (d0 d1 d2 d3 : Z).
Context (H0 : 0 <= d0 < 64) (H1 : 0 <= d1 < 64) (H2 : 0 <= d2 < 64) (H3 : 0 <= d3 < 64).

Let sym := symbol ALPHABET.

Lemma chunk_value_cons pad j n d rest :
  0 <= d < 64 ->
  chunk_value pad j n (symbol ALPHABET d :: rest) = chunk_value pad (S j) (n * 64 + d) rest.
Proof.
  intros Hd. cbn [chunk_value]. rewrite (proj1 (symbol_ALPHABET d pad j Hd)).
  cbn [mbind option_bind]. by rewrite push6.
Qed.

Lemma chunk_value_pad pad j n rest :
  (4 - pad <= j)%nat ->
  chunk_value pad j n ("="%byte :: rest) = chunk_value pad (S j) (n * 64) rest.
Proof.
  intros Hj. cbn [chunk_value].
  assert (symbol_value pad j "="%byte = Some 0) as ->.
  { unfold symbol_value. cbn -[Nat.sub Nat.leb]. by rewrite (proj2 (Nat.leb_le _ _) Hj). }
  cbn [mbind option_bind]. rewrite push6 by lia. f_equal. lia.
Qed.

Lemma filter_symbol d rest :
  0 <= d < 64 ->
  List.filter (fun c => c =b? "=") (symbol ALPHABET d :: rest)
  = List.filter (fun c => c =b? "=") rest.
Proof.
  intros Hd. cbn [List.filter]. destruct (byte_eqb_spec (symbol ALPHABET d) "="); [|done].
  by destruct (symbol_ALPHABET d 0 0 Hd).
Qed.

Lemma decode_chunk_0 is_last :
  let n := ((d0 * 64 + d1) * 64 + d2) * 64 + d3 in
  decode_chunk is_last [sym d0; sym d1; sym d2; sym d3]
  = Some [u8 (n / 65536); u8 (n / 256); u8 n].
Proof.
  unfold decode_chunk, sym. rewrite !filter_symbol by done. cbn [List.filter length].
  rewrite !chunk_value_cons by done. cbn -[u8 Z.shiftr].
  by rewrite !Z.shiftr_div_pow2 by lia.
Qed.

Lemma decode_chunk_1 is_last :
  let n := ((d0 * 64 + d1) * 64 + d2) * 64 in
  decode_chunk is_last [sym d0; sym d1; sym d2; "="%byte]
  = if is_last && (n mod 256 =? 0) then Some [u8 (n / 65536); u8 (n / 256)] else None.
Proof.
  unfold decode_chunk, sym. rewrite !filter_symbol by done.
  change (List.filter _ ["="%byte]) with ["="%byte]. cbn [length].
  rewrite !chunk_value_cons, chunk_value_pad by (done || lia).
  destruct is_last; cbn -[u8 Z.shiftr Z.land Z.modulo]; [|done].
  rewrite land_255, !Z.shiftr_div_pow2 by lia. by destruct (_ mod 256 =? 0).
Qed.

Lemma decode_chunk_2 is_last :
  let n := (d0 * 64 + d1) * 64 * 64 in
  decode_chunk is_last [sym d0; sym d1; "="%byte; "="%byte]
  = if is_last && (n mod 65536 =? 0) then Some [u8 (n / 65536)] else None.
Proof.
  unfold decode_chunk, sym. rewrite !filter_symbol by done.
  change (List.filter _ ["="%byte; "="%byte]) with ["="%byte; "="%byte]. cbn [length].
  rewrite !chunk_value_cons, !chunk_value_pad by (done || lia).
  destruct is_last; cbn -[u8 Z.shiftr Z.land Z.modulo]; [|done].
  rewrite land_65535, !Z.shiftr_div_pow2 by lia. by destruct (_ mod 65536 =? 0).
Qed.
End digits.

Lemma digits_of n :
  0 <= n < 16777216 ->
  ((n / 262144 mod 64 * 64 + n / 4096 mod 64) * 64 + n / 64 mod 64) * 64 + n mod 64 = n.
Proof. intros. divmod. Qed.

Lemma decode_encode_chunk is_last chunk :
  (1 <= length chunk <= 3)%nat -> (is_last = true \/ length chunk = 3%nat) ->
  decode_chunk is_last (encode_chunk ALPHABET chunk) = Some chunk.
Proof.
  intros Hlen Hlast. rewrite encode_chunk_digits.
  assert (forall k, 0 <= k mod 64 < 64) as Hm by (intros; apply Z.mod_pos_bound; lia).
  destruct chunk as [|b0 [|b1 [|b2 [|]]]]; cbn [length] in *; try lia;
    cbn [nth imap length Nat.add Nat.ltb Nat.leb compose]; pose proof (bz_range b0);
    change (bz x00) with 0; unfold triple.
  - destruct Hlast as [->|]; [|lia]. rewrite decode_chunk_2 by done. cbn [andb].
    rewrite (proj2 (Z.eqb_eq _ _)) by divmod. do 2 f_equal. apply bz_inj.
    rewrite bz_u8. divmod.
  - pose proof (bz_range b1). destruct Hlast as [->|]; [|lia]. rewrite decode_chunk_1 by done.
    cbn [andb]. rewrite (proj2 (Z.eqb_eq _ _)) by divmod.
    f_equal. f_equal; [|f_equal]; apply bz_inj; rewrite bz_u8; divmod.
  - pose proof (bz_range b1). pose proof (bz_range b2). rewrite decode_chunk_0 by done.
    rewrite digits_of by lia.
    f_equal. f_equal; [|f_equal; [|f_equal]]; apply bz_inj; rewrite bz_u8; divmod.
Qed.

(** What a chunk that decodes looks like: four symbols, three and one pad, or
    two and two pads. *)
Lemma decode_chunk_shape is_last c0 c1 c2 c3 out :
  decode_chunk is_last [c0; c1; c2; c3] = Some out ->
  exists d0 d1 d2 d3, (0 <= d0 < 64 /\ 0 <= d1 < 64 /\ 0 <= d2 < 64 /\ 0 <= d3 < 64)
    /\ c0 = symbol ALPHABET d0 /\ c1 = symbol ALPHABET d1
    /\ ((c2 = symbol ALPHABET d2 /\ c3 = symbol ALPHABET d3)
        \/ (c2 = symbol ALPHABET d2 /\ c3 = "="%byte)
        \/ (c2 = "="%byte /\ c3 = "="%byte)).
Proof.
  unfold decode_chunk. set (pad := length _).
  destruct (_ || _) eqn:Epad; [done|]. apply orb_false_iff in Epad as [Epad _]. bool_to_prop.
  destruct (chunk_value pad 0 0 _) as [n|] eqn:En; [|done]. intros _.
  cbn [chunk_value] in En.
  destruct (symbol_value pad 0 c0) as [d0|] eqn:E0; [|done]. cbn [mbind option_bind] in En.
  destruct (symbol_value pad 1 c1) as [d1|] eqn:E1; [|done]. cbn [mbind option_bind] in En.
  destruct (symbol_value pad 2 c2) as [d2|] eqn:E2; [|done]. cbn [mbind option_bind] in En.
  destruct (symbol_value pad 3 c3) as [d3|] eqn:E3; [|done].
  apply symbol_value_inv in E0 as [? [[-> Hn0]|(_ & _ & ?)]]; [|lia].
  apply symbol_value_inv in E1 as [? [[-> Hn1]|(_ & _ & ?)]]; [|lia].
  apply symbol_value_inv in E2 as [? E2]. apply symbol_value_inv in E3 as [? E3].
  exists d0, d1, d2, d3. split_and!; try lia; try done.
  destruct E2 as [[-> Hn2]|(-> & -> & Hp2)], E3 as [[-> Hn3]|(-> & -> & Hp3)]; try tauto.
  exfalso. enough (pad = 1%nat) by lia. unfold pad.
  rewrite !filter_symbol by done. cbn [List.filter]. rewrite byte_eqb_refl.
  by rewrite (proj2 (byte_eqb_neq _ _) Hn3).
Qed.

Lemma encode_decode_chunk is_last chunk out :
  length chunk = 4%nat -> decode_chunk is_last chunk = Some out ->
  encode_chunk ALPHABET out = chunk
  /\ (1 <= length out <= 3)%nat /\ (is_last = true \/ length out = 3%nat).
Proof.
  intros Hlen Hdec. destruct chunk as [|c0 [|c1 [|c2 [|c3 [|]]]]]; try done.
  destruct (decode_chunk_shape _ _ _ _ _ _ Hdec)
    as (d0 & d1 & d2 & d3 & (H0 & H1 & H2 & H3) & -> & -> & Hshape).
  rewrite encode_chunk_digits. unfold triple.
  destruct Hshape as [[-> ->]|[[-> ->]|[-> ->]]].
  - rewrite decode_chunk_0 in Hdec by done. injection Hdec as <-.
    cbn [nth imap length Nat.add Nat.ltb Nat.leb compose]. rewrite !bz_u8.
    split_and!; [|lia..]. repeat f_equal; divmod.
  - rewrite decode_chunk_1 in Hdec by done.
    destruct (is_last && _) eqn:E; [|done]. bool_to_prop. injection Hdec as <-.
    cbn [nth imap length Nat.add Nat.ltb Nat.leb compose]. change (bz x00) with 0.
    rewrite !bz_u8. split_and!; [|lia..|by left]. repeat f_equal; divmod.
  - rewrite decode_chunk_2 in Hdec by done.
    destruct (is_last && _) eqn:E; [|done]. bool_to_prop. injection Hdec as <-.
    cbn [nth imap length Nat.add Nat.ltb Nat.leb compose]. change (bz x00) with 0.
    rewrite !bz_u8. split_and!; [|lia..|by left]. repeat f_equal; divmod.
Qed.

(** ** The loops *)

Lemma length_encode_with alphabet data :
  length (encode_with alphabet data) = (4 * length (slice_chunks 3 data))%nat.
Proof.
  unfold encode_with. induction (slice_chunks 3 data) as [|c l IH]; cbn [fmap list_fmap concat]; [done|].
  rewrite length_app, encode_chunk_length. cbn in *. lia.
Qed.

Lemma decode_loop_encode data count i :
  (i + length (slice_chunks 3 data) = count)%nat ->
  decode_loop count i (encode_chunk ALPHABET <$> slice_chunks 3 data) = Some data.
Proof.
  revert i. pattern data. revert data. apply slice_chunks_ind with (k := 3%nat);
    [lia|done|]. intros s Hne IH i Hcount.
  rewrite slice_chunks_cons in * by (lia || done). cbn [fmap list_fmap decode_loop length] in *.
  assert (1 <= length s)%nat by (destruct s; cbn in *; [done|lia]).
  rewrite decode_encode_chunk.
  - cbn [mbind option_bind]. rewrite IH by lia. cbn. by rewrite take_drop.
  - rewrite length_take. lia.
  - destruct (decide (length s <= 3)%nat) as [Hle|Hgt].
    + left. rewrite drop_ge, slice_chunks_nil in Hcount by lia. cbn in Hcount. apply Nat.eqb_eq. lia.
    + right. rewrite length_take. lia.
Qed.

Lemma encode_with_cons alphabet out rest :
  (length out = 3 \/ (1 <= length out <= 3 /\ rest = []))%nat ->
  encode_with alphabet (out ++ rest) = encode_chunk alphabet out ++ encode_with alphabet rest.
Proof.
  intros Hout. unfold encode_with.
  rewrite slice_chunks_cons by (lia || (destruct out; cbn in *; [lia|done])).
  destruct Hout as [H|[H ->]].
  - by rewrite take_app_length', drop_app_length'.
  - rewrite app_nil_r, take_ge, drop_ge by lia. done.
Qed.

Lemma encode_decode_loop count i chunks data :
  Forall (fun c => length c = 4%nat) chunks -> (i + length chunks = count)%nat ->
  decode_loop count i chunks = Some data -> encode data = concat chunks.
Proof.
  intros HF. revert i data. induction HF as [|c chunks Hc HF IH]; intros i data Hcount; cbn.
  { by intros [= <-]. }
  destruct (decode_chunk _ c) as [out|] eqn:Eo; [|done]. cbn [mbind option_bind].
  destruct (decode_loop count (S i) chunks) as [rest|] eqn:Er; [|done]. intros [= <-].
  apply encode_decode_chunk in Eo as (Henc & Hlen & Hlast); [|done]. cbn [length] in Hcount.
  unfold encode in *. rewrite encode_with_cons.
  - rewrite Henc. f_equal. eapply IH; [|done]. lia.
  - destruct Hlast as [Hlast|]; [|by left]. apply Nat.eqb_eq in Hlast.
    destruct chunks; [|cbn in *; lia]. cbn in Er. injection Er as <-. auto.
Qed.

Lemma slice_chunks_all_full k s :
  (0 < k)%nat -> (length s mod k = 0)%nat ->
  Forall (fun c => length c = k) (slice_chunks k s)
  /\ (length (slice_chunks k s) = length s / k)%nat.
Proof.
  intros Hk. pattern s. revert s. apply slice_chunks_ind with (k := k); [done| |].
  { intros _. rewrite slice_chunks_nil. cbn [length].
    rewrite Nat.Div0.div_0_l. split; [constructor|done]. }
  intros s Hne IH Hmod. apply Nat.Lcm0.mod_divide in Hmod as [q Hq].
  assert (q <> 0)%nat by (intros ->; destruct s; cbn in *; [done|lia]).
  rewrite slice_chunks_cons by done.
  destruct IH as [IH1 IH2].
  { rewrite length_drop, Hq. replace (q * k - k)%nat with ((q - 1) * k)%nat by nia.
    apply Nat.Div0.mod_mul. }
  split.
  - constructor; [|done]. rewrite length_take. nia.
  - cbn [length]. rewrite IH2, length_drop, Hq.
    replace (q * k - k)%nat with ((q - 1) * k)%nat by nia. rewrite !Nat.div_mul by lia. lia.
Qed.

Lemma base64_decode_encode_lemma data : decode (encode data) = Some data.
Proof.
  unfold decode, encode. rewrite length_encode_with.
  rewrite (Nat.mul_comm 4), Nat.Div0.mod_mul, Nat.div_mul by lia. cbn [Nat.eqb negb].
  unfold encode_with. rewrite slice_chunks_concat.
  - by apply decode_loop_encode.
  - lia.
  - apply Forall_fmap, Forall_true. intros c. apply encode_chunk_length.
Qed.

Lemma base64_decode_canonical_lemma text data : decode text = Some data -> encode data = text.
Proof.
  unfold decode. destruct (_ =? 0)%nat eqn:E; [|done]. cbn [negb]. bool_to_prop.
  destruct (slice_chunks_all_full 4 text) as [HF Hlen]; [lia|done|].
  intros H. apply encode_decode_loop in H; [|done|done].
  rewrite H. apply concat_slice_chunks. lia.
Qed.

(** ** Properties *)

(** Base64 round trip: the strict decoder reads back exactly the bytes
    the encoder wrote, for every byte string. *)
Theorem base64_decode_encode data : decode (encode data) = Some data.
Proof. apply base64_decode_encode_lemma. Qed.

(** The decoder accepts only canonical text: whatever decodes is exactly
    the encoding of the result, so no two texts decode to the same bytes (the
    credential-malleability the source rejects). *)
Theorem base64_decode_canonical text data : decode text = Some data -> encode data = text.
Proof. apply base64_decode_canonical_lemma. Qed.

Lemma base64_decode_canonical_witness :
  decode (bs "Zm8=") = Some (bs "fo") /\ encode (bs "fo") = bs "Zm8="
  /\ decode (bs "Zm9=") = None.
Proof.
  split; [vm_compute; reflexivity|].
  split; [|vm_compute; reflexivity].
  apply base64_decode_canonical. vm_compute; reflexivity.
Defined.
