(* ===== verification/Sasl.v ===== *)
(** * SASL credentials ([e6irc-proto/src/sasl.rs])

    The decoding of a PLAIN and of an OAUTHBEARER response at the boundary the
    server listeners share.  Both are characterised against the RFC's message
    format written as a printer. *)

From S2P Require Import Prelude Str Casemap Message Base64.

Definition MAX_AUTHENTICATE_CHUNK_LEN : nat := 400.
Definition MAX_AUTHENTICATE_PAYLOAD_LEN : nat := Z.to_nat 8192.

(** ** PLAIN *)

Record PlainCredentials : Type := MkPlain {
  plain_account : str;
  plain_password : str;
}.

Definition parse_plain_payload (payload : str) : option PlainCredentials :=
  raw ← decode payload;
  let parts := split NUL raw in
  authzid ← (p ← parts !! 0; from_utf8 p);
  account ← (p ← parts !! 1; from_utf8 p);
  password ← (p ← parts !! 2; from_utf8 p);
  if bool_decide (is_Some (parts !! 3))
     || is_empty account
     || is_empty password
     || (negb (is_empty authzid) && negb (casemap_eq Rfc1459 authzid account))
  then None
  else Some (MkPlain account password).

(** ** OAUTHBEARER *)

Record OauthBearerCredentials : Type := MkOauth {
  oauth_authzid : option str;
  oauth_token : str;
}.

(** The [while let Some(at) = rest.find('=')] loop of [unescape_saslname]:
    [None] out of fuel, [Some None] on a malformed escape. *)
Fixpoint saslname_loop (fuel : nat) (name rest : str) : option (option (str * str)) :=
  match fuel with
  | O => None
  | S fuel' =>
      match position "=" rest with
      | None => Some (Some (name, rest))
      | Some at_ =>
          let name := name ++ take at_ rest in
          let escape := take 3 (drop at_ rest) in
          if str_eqb escape (bs "=2C") then
            saslname_loop fuel' (name ++ [","%byte]) (drop (at_ + 3) rest)
          else if str_eqb escape (bs "=3D") then
            saslname_loop fuel' (name ++ ["="%byte]) (drop (at_ + 3) rest)
          else Some None
      end
  end.

Definition unescape_saslname (escaped : str) : option str :=
  '(name, rest) ← default None (saslname_loop (S (length escaped)) [] escaped);
  if contains_byte "," rest then None
  else
    let name := name ++ rest in
    if negb (is_empty name) then Some name else None.

(** The loop over the key-value pairs: whether the terminating empty pair was
    met, the token found, and the fields after it. *)
Fixpoint scan_fields (fields : list str) (token : option str)
    : option (bool * option str * list str) :=
  match fields with
  | [] => Some (false, token, [])
  | field :: fields' =>
      if is_empty field then Some (true, token, fields')
      else
        '(key, value) ← split_once "=" field;
        if str_eqb key (bs "auth") then
          bearer ← strip_prefix (bs "Bearer ") value;
          if is_empty bearer then None
          else match token with
               | Some _ => None
               | None => scan_fields fields' (Some bearer)
               end
        else scan_fields fields' token
  end.

Definition parse_gs2_authzid (authzid : str) : option (option str) :=
  if is_empty authzid then Some None
  else
    named ← strip_prefix (bs "a=") authzid;
    name ← unescape_saslname named;
    Some (Some name).

Definition parse_oauthbearer_payload (payload : str) : option OauthBearerCredentials :=
  raw ← decode payload;
  text ← from_utf8 raw;
  '(gs2_header, pairs) ← split_once x01 text;
  '(cbind_flag, rest) ← split_once "," gs2_header;
  if negb (str_eqb cbind_flag (bs "n") || str_eqb cbind_flag (bs "y")) then None
  else
    authzid ← strip_suffix_byte "," rest;
    authzid ← parse_gs2_authzid authzid;
    '(terminated, token, fields) ← scan_fields (split x01 pairs) None;
    if negb terminated || existsb (fun trailing => negb (is_empty trailing)) fields then None
    else
      token ← token;
      Some (MkOauth authzid token).

(** ** The formats, as printers *)

Definition plain_message (authzid account password : str) : str :=
  authzid ++ NUL :: account ++ NUL :: password.

Definition escape_saslname_char (c : byte) : str :=
  if c =b? "," then bs "=2C" else if c =b? "=" then bs "=3D" else [c].
Definition escape_saslname (name : str) : str := concat (escape_saslname_char <$> name).

Definition gs2_authzid (authzid : option str) : str :=
  match authzid with Some name => bs "a=" ++ escape_saslname name | None => [] end.

(** [gs2-header %x01 "auth=Bearer " token %x01 %x01], after any extra pairs. *)
Definition oauth_message (authzid : option str) (extra : list (str * str)) (token : str) : str :=
  (bs "n," ++ gs2_authzid authzid ++ bs ",")
  ++ x01 :: concat ((fun '(k, v) => k ++ "="%byte :: v ++ [x01]) <$> extra)
  ++ bs "auth=Bearer " ++ token ++ [x01; x01].

(** ** PLAIN lemmas *)

Lemma from_utf8_Some s t : from_utf8 s = Some t <-> t = s /\ utf8_valid s = true.
Proof. unfold from_utf8. destruct (utf8_valid s); naive_solver. Qed.

(** PLAIN credentials are exactly the well-formed ones: a payload yields
    an account and password precisely when it is the base64 of
    authzid NUL account NUL password, with all three valid UTF-8 and free of
    NUL, account and password non-empty, and the authorization identity empty
    or naming the same account under the casemapping. *)
Theorem plain_payload_iff payload account password :
  parse_plain_payload payload = Some (MkPlain account password) <->
  exists authzid, payload = encode (plain_message authzid account password)
    /\ (NUL ∉ authzid) /\ (NUL ∉ account) /\ (NUL ∉ password)
    /\ utf8_valid authzid = true /\ utf8_valid account = true /\ utf8_valid password = true
    /\ account <> [] /\ password <> []
    /\ (authzid = [] \/ casemap_eq Rfc1459 authzid account = true).
Proof.
  unfold parse_plain_payload, plain_message. split.
  - destruct (decode payload) as [raw|] eqn:Ed; [|done].
    apply base64_decode_canonical_lemma in Ed. cbn [mbind option_bind].
    pose proof (split_no_sep NUL raw) as Hn. pose proof (join_split NUL raw) as Hj.
    destruct (split NUL raw) as [|a [|b [|c [|]]]]; cbn [lookup list_lookup mbind option_bind];
      repeat match goal with |- context [from_utf8 ?x] =>
        destruct (from_utf8 x) eqn:?; cbn [mbind option_bind]; [|done] end; try done.
    repeat match goal with H : from_utf8 _ = Some _ |- _ => apply from_utf8_Some in H as [-> ?] end.
    destruct (_ || _) eqn:E; [done|]. intros [= <- <-].
    repeat match goal with H : _ || _ = false |- _ => apply orb_false_iff in H as [? ?] end.
    exists a. rewrite <- Ed, <- Hj. rewrite !Forall_cons in Hn.
    rewrite !is_empty_false in *. split_and!; try naive_solver.
    destruct a; [by left|]. right. cbn in *.
    by destruct (casemap_eq _ _ _).
  - intros (authzid & -> & Hna & Hnb & Hnc & Hva & Hvb & Hvc & Ha & Hp & Hz).
    rewrite base64_decode_encode_lemma. cbn [mbind option_bind].
    rewrite split_three by done. cbn [lookup list_lookup mbind option_bind].
    unfold from_utf8. rewrite Hva, Hvb, Hvc. cbn [mbind option_bind].
    rewrite bool_decide_eq_false_2 by (by intros []).
    rewrite !(proj2 (is_empty_false _)) by done. cbn [orb].
    destruct Hz as [->| ->]; [done|]. by rewrite andb_false_r.
Qed.

(** ** OAUTHBEARER lemmas *)

Lemma position_app c pre post :
  c ∉ pre -> position c (pre ++ c :: post) = Some (length pre).
Proof.
  induction pre as [|b pre IH]; cbn; intros Hn; [by rewrite byte_eqb_refl|].
  apply not_elem_of_cons in Hn as [Hb Hn].
  rewrite (proj2 (byte_eqb_neq b c)) by done. by rewrite IH.
Qed.

Lemma position_absent c s : c ∉ s -> position c s = None.
Proof. intros. by apply position_None, split_once_None. Qed.

(** One turn of the unescaping loop at an escape. *)
Lemma saslname_loop_escape fuel name pre (c : byte) post :
  "="%byte ∉ pre -> c = ","%byte \/ c = "="%byte ->
  saslname_loop (S fuel) name (pre ++ escape_saslname_char c ++ post) =
  saslname_loop fuel (name ++ pre ++ [c]) post.
Proof.
  intros Hn Hc. cbn [saslname_loop].
  replace (position "=" (pre ++ escape_saslname_char c ++ post)) with (Some (length pre)).
  2:{ symmetry. destruct Hc as [-> | ->]; apply position_app, Hn. }
  rewrite take_app_length, drop_app_length, drop_app_add.
  by destruct Hc as [-> | ->]; cbn -[app]; rewrite <- !app_assoc.
Qed.

(** Unescaping what [escape_saslname] wrote, with [pre] the literal text read
    since the last escape. *)
Lemma saslname_loop_escaped n : forall fuel name pre,
  length (escape_saslname n) < fuel -> "="%byte ∉ pre -> ","%byte ∉ pre ->
  exists name' rest', saslname_loop fuel name (pre ++ escape_saslname n) = Some (Some (name', rest'))
    /\ name' ++ rest' = name ++ pre ++ n /\ ","%byte ∉ rest'.
Proof.
  induction n as [|c n IH]; intros fuel name pre Hf He Hc.
  { destruct fuel; [cbn in Hf; lia|]. exists name, pre. cbn [saslname_loop].
    change (escape_saslname []) with (@nil byte).
    rewrite app_nil_r, position_absent by done. done. }
  change (escape_saslname (c :: n)) with (escape_saslname_char c ++ escape_saslname n) in *.
  destruct (decide (c = ","%byte \/ c = "="%byte)) as [Hs|Hs].
  - destruct fuel; [lia|]. rewrite saslname_loop_escape by done.
    rewrite length_app in Hf.
    assert (length (escape_saslname_char c) = 3) by (by destruct Hs as [-> | ->]).
    destruct (IH fuel (name ++ pre ++ [c]) []) as (name' & rest' & EL & E & ?);
      [lia|apply not_elem_of_nil|apply not_elem_of_nil|].
    cbn [app] in EL. rewrite EL. exists name', rest'. split_and!; [done| |done]. by rewrite E, <- !app_assoc.
  - assert (escape_saslname_char c = [c]) as ->.
    { unfold escape_saslname_char. rewrite !(proj2 (byte_eqb_neq _ _)) by naive_solver. done. }
    rewrite length_app in Hf. cbn [length] in Hf. change ([c] ++ ?t) with (c :: t). rewrite cons_middle, app_assoc.
    destruct (IH fuel name (pre ++ [c])) as (name' & rest' & -> & E & ?);
      [lia|rewrite elem_of_snoc; naive_solver..|].
    exists name', rest'. split_and!; [done| |done]. by rewrite E, <- !app_assoc.
Qed.

Lemma saslname_roundtrip_lemma n :
  n <> [] -> unescape_saslname (escape_saslname n) = Some n.
Proof.
  intros Hn. unfold unescape_saslname.
  destruct (saslname_loop_escaped n (S (length (escape_saslname n))) [] [])
    as (name & rest & E & Hnr & Hc); [lia|apply not_elem_of_nil|apply not_elem_of_nil|].
  cbn [app] in *. rewrite E. cbn [from_option mbind option_bind id].
  rewrite (proj2 (contains_byte_false _ _)) by done. rewrite Hnr. by destruct n.
Qed.

(** Membership in a literal, by computation. *)
Ltac literal_subset H :=
  apply contains_byte_spec in H; apply contains_byte_spec;
  match type of H with contains_byte ?x _ = true => by byte_cases x end.
Ltac not_in_literal H := apply contains_byte_spec in H; discriminate H.

Lemma escape_saslname_elem n x :
  x ∈ escape_saslname n -> x ∈ bs "=2C3D" \/ (x ∈ n /\ x <> ","%byte).
Proof.
  induction n as [|c n IH]; [by intros ?%elem_of_nil|].
  change (escape_saslname (c :: n)) with (escape_saslname_char c ++ escape_saslname n).
  rewrite elem_of_app, elem_of_cons. intros [H|H]; [|naive_solver].
  unfold escape_saslname_char in H.
  destruct (byte_eqb_spec c ","); [left; literal_subset H|].
  destruct (byte_eqb_spec c "="); [left; literal_subset H|].
  apply list_elem_of_singleton in H. naive_solver.
Qed.

(** The fields after any pairs that are not the [auth] one. *)
Lemma scan_fields_extra extra fields token :
  Forall (fun '(k, v) => k <> bs "auth" /\ ("="%byte ∉ k)) extra ->
  scan_fields (((fun '(k, v) => k ++ "="%byte :: v) <$> extra) ++ fields) token =
  scan_fields fields token.
Proof.
  induction 1 as [|[k v] extra [Hk He] HF IH]; [done|]. cbn [fmap list_fmap app scan_fields].
  rewrite (proj2 (is_empty_false _)) by (by destruct k).
  rewrite split_once_app by done. cbn [mbind option_bind].
  rewrite str_eqb_neq by done. exact IH.
Qed.

Lemma scan_fields_auth token :
  token <> [] ->
  scan_fields [bs "auth=Bearer " ++ token; []; []] None = Some (true, Some token, [[]]).
Proof.
  intros Hne. cbn [scan_fields]. change (is_empty (_ ++ _)) with false.
  change (bs "auth=Bearer " ++ token) with (bs "auth" ++ "="%byte :: bs "Bearer " ++ token).
  rewrite split_once_app by (intros Hx; not_in_literal Hx). cbn [mbind option_bind].
  rewrite str_eqb_refl, (proj2 (strip_prefix_Some (bs "Bearer ") _ token)) by done.
  cbn [mbind option_bind is_empty]. by rewrite (proj2 (is_empty_false token)).
Qed.

Lemma split_pairs (pairs : list str) rest :
  Forall (fun p => x01 ∉ p) pairs ->
  split x01 (concat ((fun p => p ++ [x01]) <$> pairs) ++ rest) = pairs ++ split x01 rest.
Proof.
  induction 1 as [|p pairs Hp HF IH]; [done|]. cbn [fmap list_fmap concat app].
  rewrite <- !app_assoc. cbn [app]. by rewrite split_app_sep, IH.
Qed.

(** The conditions under which [oauth_message] is a well-formed response. *)
Definition oauth_wf (authzid : option str) (extra : list (str * str)) (token : str) : Prop :=
  (forall n, authzid = Some n -> n <> [] /\ x01 ∉ n)
  /\ Forall (fun '(k, v) => k <> bs "auth" /\ ("="%byte ∉ k) /\ (x01 ∉ k) /\ (x01 ∉ v)) extra
  /\ token <> [] /\ (x01 ∉ token)
  /\ utf8_valid (oauth_message authzid extra token) = true.

Lemma gs2_authzid_no_sep authzid :
  (forall n, authzid = Some n -> n <> [] /\ x01 ∉ n) -> x01 ∉ gs2_authzid authzid.
Proof.
  intros H. destruct authzid as [n|]; [|apply not_elem_of_nil].
  destruct (H n eq_refl) as [_ Hn]. unfold gs2_authzid. rewrite elem_of_app.
  intros [Hx|[Hx|[Hx _]]%escape_saslname_elem]; [not_in_literal Hx..|done].
Qed.

Lemma parse_gs2_authzid_print authzid :
  (forall n, authzid = Some n -> n <> [] /\ x01 ∉ n) ->
  parse_gs2_authzid (gs2_authzid authzid) = Some authzid.
Proof.
  intros H. destruct authzid as [n|]; [|done]. destruct (H n eq_refl) as [Hn _].
  unfold parse_gs2_authzid, gs2_authzid. cbn -[unescape_saslname].
  by rewrite saslname_roundtrip_lemma.
Qed.

Lemma split_oauth_pairs extra token :
  Forall (fun '(k, v) => k <> bs "auth" /\ ("="%byte ∉ k) /\ (x01 ∉ k) /\ (x01 ∉ v)) extra ->
  x01 ∉ token ->
  split x01 (concat ((fun '(k, v) => k ++ "="%byte :: v ++ [x01]) <$> extra)
             ++ bs "auth=Bearer " ++ token ++ [x01; x01]) =
  ((fun '(k, v) => k ++ "="%byte :: v) <$> extra) ++ [bs "auth=Bearer " ++ token; []; []].
Proof.
  intros HF Ht.
  replace ((fun '(k, v) => k ++ "="%byte :: v ++ [x01]) <$> extra)
    with ((fun p => p ++ [x01]) <$> ((fun '(k, v) => k ++ "="%byte :: v) <$> extra)).
  2:{ rewrite <- list_fmap_compose. apply list_fmap_ext. intros ? [k v] _. cbn.
      by rewrite <- app_assoc. }
  rewrite split_pairs.
  2:{ apply Forall_fmap. eapply Forall_impl; [exact HF|]. intros [k v] (_ & _ & ? & ?). cbn.
      rewrite elem_of_app, elem_of_cons. by intros [?|[?|?]]. }
  rewrite app_assoc, split_app_sep; [done|]. rewrite elem_of_app. intros [Hx|Hx]; [|done].
  not_in_literal Hx.
Qed.

(** OAUTHBEARER responses are read back: the base64 of a GS2 header (with
    or without an authorization identity), any pairs other than [auth], one
    [auth=Bearer] pair and the terminating empty pair parses to exactly the
    identity and token it was written from, the identity unescaped. *)
Theorem oauthbearer_roundtrip authzid extra token :
  oauth_wf authzid extra token ->
  parse_oauthbearer_payload (encode (oauth_message authzid extra token)) =
  Some (MkOauth authzid token).
Proof.
  intros (Ha & He & Hne & Ht & Hv). unfold parse_oauthbearer_payload.
  rewrite base64_decode_encode_lemma. unfold from_utf8. cbn [mbind option_bind].
  rewrite Hv. cbn [mbind option_bind]. unfold oauth_message.
  rewrite split_once_app.
  2:{ rewrite !elem_of_app. intros [Hx|[Hx|Hx]];
        [not_in_literal Hx|by eapply gs2_authzid_no_sep|not_in_literal Hx]. }
  cbn [mbind option_bind].
  change (bs "n," ++ ?t) with ("n"%byte :: ","%byte :: t). cbn [split_once mbind option_bind].
  change (("n" =b? ",")) with false. change ("," =b? ",") with true.
  cbn [mbind option_bind]. change (str_eqb [_] (bs "n")) with true. cbn [negb orb].
  replace (strip_suffix_byte "," _) with (Some (gs2_authzid authzid))
    by (symmetry; by apply strip_suffix_byte_Some).
  cbn [mbind option_bind]. rewrite parse_gs2_authzid_print by done. cbn [mbind option_bind].
  rewrite split_oauth_pairs by done. rewrite scan_fields_extra.
  2:{ eapply Forall_impl; [exact He|]. intros [k v]. naive_solver. }
  by rewrite scan_fields_auth.
Qed.

Lemma oauthbearer_roundtrip_witness :
  parse_oauthbearer_payload
    (encode (oauth_message (Some (bs "we,ird=name")) [(bs "host", bs "irc.example")] (bs "tok")))
  = Some (MkOauth (Some (bs "we,ird=name")) (bs "tok")).
Proof.
  apply oauthbearer_roundtrip. split_and!.
  - intros n [= <-]. split; [done|]. apply contains_byte_false. reflexivity.
  - repeat constructor; try done; apply contains_byte_false; reflexivity.
  - done.
  - apply contains_byte_false; reflexivity.
  - vm_compute. reflexivity.
Defined.

(** The check that rejects a raw comma in a GS2 name reads only the text
    after the last escape: a name with a raw comma is refused when it carries
    no escape and accepted, comma included, when an escape follows it. *)
Theorem saslname_raw_comma :
  unescape_saslname (bs "x,y") = None
  /\ unescape_saslname (bs "x,y=2Cz") = Some (bs "x,y,z").
Proof. split; vm_compute; reflexivity. Qed.
