(* ===== verification/Isupport.v ===== *)
(** * [RPL_ISUPPORT] tokens ([e6irc-proto/src/isupport.rs])

    One middle parameter of a 005 line: [NAME], [NAME=value] or [-NAME], the
    value with [\xHH] escapes.  The scanner, which walks the value character by
    character, is shown to be the byte-level reference [unescape_ref]; escaping
    then round-trips, and parsing accepts exactly the grammar. *)

From S2P Require Import Prelude Str.

Record IsupportToken : Type := MkIsupport {
  negated : bool;
  isupport_name : str;
  isupport_value : option str;
}.

Inductive IsupportError : Type := BadName | NegatedWithValue.

Definition valid_name (name : str) : bool :=
  negb (is_empty name) && forallb (fun b => is_ascii_uppercase b || is_ascii_digit b) name.

(** The value of one hexadecimal digit, as [u8::from_str_radix] reads it. *)
Definition hex_value (b : byte) : Z :=
  if is_ascii_digit b then bz b - 48
  else if in_range "A" "F" b then bz b - 55
  else bz b - 87.

(** The escape at the head of [bytes[i..]], when there is one. *)
Definition escape_at (s : str) : option byte :=
  match s with
  | b0 :: b1 :: b2 :: b3 :: _ =>
      if (b0 =b? BACKSLASH) && (b1 =b? "x") && is_ascii_hexdigit b2 && is_ascii_hexdigit b3
      then
        let b := u8 (16 * hex_value b2 + hex_value b3) in
        if is_ascii b then Some b else None
      else None
  | _ => None
  end.

(** The [while i < bytes.len()] loop, on what is left of the value. *)
Fixpoint unescape_value_loop (fuel : nat) (s out : str) : str :=
  match fuel, s with
  | S fuel', b :: rest =>
      match escape_at s with
      | Some c => unescape_value_loop fuel' (drop 4 s) (out ++ [c])
      | None =>
          let n := snd (utf8_next b rest) in
          unescape_value_loop fuel' (drop n rest) (out ++ b :: take n rest)
      end
  | _, _ => out
  end.

Definition unescape_value (raw : str) : str :=
  if negb (contains_byte BACKSLASH raw) then raw
  else unescape_value_loop (length raw) raw [].

Definition isupport_parse (raw : str) : result IsupportError IsupportToken :=
  let '(neg, rest) :=
    match strip_byte "-" raw with Some rest => (true, rest) | None => (false, raw) end in
  let '(name, value) :=
    match split_once "=" rest with
    | Some (n, v) => (n, Some (unescape_value v))
    | None => (rest, None)
    end in
  if negb (valid_name name) then Err BadName
  else if neg && match value with Some _ => true | None => false end then Err NegatedWithValue
  else Ok (MkIsupport neg name value).

(** ** Reference semantics and printer *)

(** The escapes, replaced left to right, one byte at a time. *)
Fixpoint unescape_ref (fuel : nat) (s : str) : str :=
  match fuel, s with
  | S fuel', b :: rest =>
      match escape_at s with
      | Some c => c :: unescape_ref fuel' (drop 4 s)
      | None => b :: unescape_ref fuel' rest
      end
  | _, _ => []
  end.

Definition hex_digit (z : Z) : byte := u8 (if z <? 10 then 48 + z else 55 + z)%Z.
Definition hex_escape (b : byte) : str :=
  [BACKSLASH; "x"%byte; hex_digit (bz b / 16); hex_digit (bz b mod 16)].

(** Escape the octets a 005 parameter cannot carry, and the backslash. *)
Definition escape_octet (b : byte) : str :=
  if in_range x00 " " b || (b =b? BACKSLASH) || (b =b? "=") then hex_escape b else [b].
Definition escape_value (v : str) : str := concat (escape_octet <$> v).

Definition print_token (t : IsupportToken) : str :=
  (if negated t then ["-"%byte] else [])
  ++ isupport_name t
  ++ match isupport_value t with Some v => "="%byte :: escape_value v | None => [] end.

(** ** Lemmas *)

Lemma escape_at_head b s c : escape_at (b :: s) = Some c -> b = BACKSLASH /\ 3 <= length s.
Proof.
  cbn. destruct s as [|? [|? [|? ?]]]; try done. destruct (byte_eqb_spec b BACKSLASH); [|done].
  cbn. split; [done|lia].
Qed.

Lemma escape_at_none b s : b <> BACKSLASH -> escape_at (b :: s) = None.
Proof. intros Hb. destruct (escape_at (b :: s)) eqn:E; [|done]. by apply escape_at_head in E as []. Qed.

Lemma cont_not_backslash b : is_cont b = true -> b <> BACKSLASH.
Proof. by intros H ->. Qed.

(** The reference copies a run without backslashes. *)
Lemma unescape_ref_copy pre s fuel :
  Forall (fun b => b <> BACKSLASH) pre ->
  unescape_ref (length pre + fuel) (pre ++ s) = pre ++ unescape_ref fuel s.
Proof.
  induction 1 as [|b pre Hb HF IH]; [done|]. cbn [length plus app unescape_ref].
  rewrite escape_at_none by done. by rewrite IH.
Qed.

Lemma unescape_ref_take n rest :
  Forall (fun x => is_cont x = true) (take n rest) ->
  unescape_ref (length rest) rest =
  take n rest ++ unescape_ref (length (drop n rest)) (drop n rest).
Proof.
  intros HF. rewrite <- (take_drop n rest) at 1 2. rewrite length_app.
  apply unescape_ref_copy. eapply Forall_impl; [exact HF|]. apply cont_not_backslash.
Qed.

Lemma unescape_ref_length fuel s : length (unescape_ref fuel s) <= fuel.
Proof.
  revert s. induction fuel as [|f IH]; intros [|b s]; cbn [unescape_ref length]; try lia.
  destruct (escape_at _); cbn [length]; auto with arith.
Qed.

Lemma unescape_ref_fuel fuel s :
  length s <= fuel -> unescape_ref fuel s = unescape_ref (length s) s.
Proof.
  remember (length s) as m eqn:Hm. revert fuel s Hm.
  induction (lt_wf m) as [m _ IH]. intros fuel s -> Hf.
  destruct s as [|b s]; [by destruct fuel|]. destruct fuel as [|fuel]; [cbn in Hf; lia|].
  cbn [length unescape_ref] in *. destruct (escape_at (b :: s)) eqn:E; f_equal.
  - assert (length (drop 4 (b :: s)) <= length s) by (rewrite length_drop; cbn; lia).
    rewrite (IH (length (drop 4 (b :: s)))) by lia.
    symmetry. apply (IH (length (drop 4 (b :: s)))); lia.
  - apply (IH (length s)); lia.
Qed.

Lemma unescape_value_loop_ref fuel s out :
  length s <= fuel -> unescape_value_loop fuel s out = out ++ unescape_ref (length s) s.
Proof.
  revert s out. induction fuel as [|fuel IH]; intros s out Hf.
  { destruct s; [|cbn in Hf; lia]. cbn. by rewrite app_nil_r. }
  destruct s as [|b rest]; [cbn; by rewrite app_nil_r|].
  cbn [unescape_value_loop length unescape_ref] in *.
  destruct (escape_at (b :: rest)) as [c|] eqn:E.
  - rewrite IH by (rewrite length_drop; cbn; lia).
    rewrite <- app_assoc. cbn [app]. do 2 f_equal. symmetry. apply unescape_ref_fuel.
    rewrite length_drop. cbn. lia.
  - destruct (utf8_next b rest) as [ok n] eqn:En. apply utf8_next_cont in En as [Hn HF].
    cbn [snd]. rewrite IH by (rewrite length_drop; lia).
    rewrite <- app_assoc. cbn [app]. do 2 f_equal.
    symmetry. by apply unescape_ref_take.
Qed.

Lemma unescape_ref_plain s : BACKSLASH ∉ s -> unescape_ref (length s) s = s.
Proof.
  intros Hn. rewrite <- (app_nil_r s) at 2. rewrite <- (Nat.add_0_r (length s)).
  rewrite unescape_ref_copy; [by rewrite app_nil_r|].
  apply Forall_forall. intros b Hb ->. done.
Qed.

Lemma unescape_value_ref_lemma raw : unescape_value raw = unescape_ref (length raw) raw.
Proof.
  unfold unescape_value. destruct (contains_byte BACKSLASH raw) eqn:E; cbn [negb].
  - by rewrite unescape_value_loop_ref.
  - apply contains_byte_false in E. by rewrite unescape_ref_plain.
Qed.

Lemma unescape_value_cons b s :
  escape_at (b :: s) = None -> unescape_value (b :: s) = b :: unescape_value s.
Proof. intros E. rewrite !unescape_value_ref_lemma. cbn [length unescape_ref]. by rewrite E. Qed.

Lemma unescape_value_escape b s c :
  escape_at (b :: s) = Some c -> unescape_value (b :: s) = c :: unescape_value (drop 3 s).
Proof.
  intros E. rewrite !unescape_value_ref_lemma. cbn [length unescape_ref]. rewrite E.
  cbn [drop]. f_equal. apply unescape_ref_fuel. rewrite length_drop. lia.
Qed.

Lemma escape_at_hex b s : is_ascii b = true -> escape_at (hex_escape b ++ s) = Some b.
Proof. by byte_cases b. Qed.

Lemma unescape_octet b s : unescape_value (escape_octet b ++ s) = b :: unescape_value s.
Proof.
  unfold escape_octet. destruct (_ || _) eqn:E.
  - assert (is_ascii b = true) as Hb by (revert E; clear; by byte_cases b).
    pose proof (escape_at_hex b s Hb) as Hx. cbn [hex_escape app] in *.
    by rewrite (unescape_value_escape _ _ _ Hx).
  - apply unescape_value_cons, escape_at_none. intros ->. done.
Qed.

Lemma escape_value_roundtrip_lemma v : unescape_value (escape_value v) = v.
Proof.
  induction v as [|b v IH]; [done|]. change (escape_value (b :: v)) with (escape_octet b ++ escape_value v).
  by rewrite unescape_octet, IH.
Qed.

Lemma escape_at_ascii s c : escape_at s = Some c -> is_ascii c = true.
Proof.
  destruct s as [|? [|? [|? [|? ?]]]]; try done. unfold escape_at.
  destruct (_ && _); [|done]. destruct (is_ascii _) eqn:E; [|done]. by intros [= <-].
Qed.

(** The bytes an escape takes are ASCII, so cutting them keeps the rest valid. *)
Lemma escape_at_valid s c :
  escape_at s = Some c -> utf8_valid s = utf8_valid (drop 4 s).
Proof.
  destruct s as [|b0 [|b1 [|b2 [|b3 s]]]]; try done. unfold escape_at.
  destruct (_ && _) eqn:E; [|done]. intros _. bool_to_prop. subst.
  assert (is_ascii b2 = true) by (clear - H1; by byte_cases b2).
  assert (is_ascii b3 = true) by (clear - H0; by byte_cases b3).
  by rewrite !utf8_valid_ascii_cons.
Qed.

(** Valid text already written, then the decoding of valid text. *)
Lemma unescape_value_valid_app out raw :
  utf8_valid out = true -> utf8_valid raw = true -> utf8_valid (out ++ unescape_value raw) = true.
Proof.
  remember (length raw) as m eqn:Hm. revert raw Hm out.
  induction (lt_wf m) as [m _ IH]. intros raw -> out Ho Hv.
  destruct raw as [|b rest]; [by rewrite app_nil_r|].
  destruct (escape_at (b :: rest)) as [c|] eqn:E.
  - rewrite (unescape_value_escape _ _ _ E), cons_middle, app_assoc.
    eapply IH; [|done|..].
    + rewrite length_drop. cbn. lia.
    + rewrite utf8_valid_app_ascii by eauto using escape_at_ascii. by rewrite Ho.
    + by rewrite (escape_at_valid _ _ E) in Hv.
  - rewrite utf8_valid_cons in Hv. apply andb_true_iff in Hv as [Hok Hv].
    destruct (utf8_next b rest) as [ok n] eqn:En. cbn [fst snd] in *. subst ok.
    destruct (utf8_next_cont _ _ _ _ En) as [Hn HF].
    rewrite unescape_value_cons by done. rewrite unescape_value_ref_lemma.
    rewrite (unescape_ref_take _ _ HF), <- unescape_value_ref_lemma.
    change (b :: take n rest ++ ?t) with ((b :: take n rest) ++ t). rewrite app_assoc.
    eapply IH; [|done|..|done].
    + rewrite length_drop. cbn. lia.
    + rewrite utf8_valid_app by done. rewrite utf8_valid_cons, (next_take _ _ _ En). cbn.
      by rewrite drop_ge by (rewrite length_take; lia).
Qed.

(** Unescaping a value never breaks its encoding: the result of decoding a
    valid UTF-8 value is valid UTF-8, no longer than the value, and equal to
    it when it has no backslash. *)
Theorem unescape_value_valid raw :
  utf8_valid raw = true ->
  utf8_valid (unescape_value raw) = true
  /\ length (unescape_value raw) <= length raw
  /\ (BACKSLASH ∉ raw -> unescape_value raw = raw).
Proof.
  intros Hv. split_and!.
  - by apply (unescape_value_valid_app []).
  - rewrite unescape_value_ref_lemma. apply unescape_ref_length.
  - intros Hn. rewrite unescape_value_ref_lemma. by apply unescape_ref_plain.
Qed.

Lemma unescape_value_valid_witness :
  utf8_valid (unescape_value (bs "a\x3Db\x5Cc\xC3")) = true
  /\ unescape_value (bs "a\x3Db\x5Cc\xC3") = bs "a=b\c\xC3".
Proof.
  split; [|vm_compute; reflexivity].
  apply (unescape_value_valid (bs "a\x3Db\x5Cc\xC3")). vm_compute. reflexivity.
Defined.

Lemma isupport_parse_iff_lemma raw t :
  isupport_parse raw = Ok t <->
  valid_name (isupport_name t) = true /\
  match negated t, isupport_value t with
  | true, None => raw = "-"%byte :: isupport_name t
  | false, None => raw = isupport_name t
  | false, Some v => exists esc, raw = isupport_name t ++ "="%byte :: esc /\ v = unescape_value esc
  | true, Some _ => False
  end.
Proof.
  split.
  - unfold isupport_parse.
    destruct (strip_byte "-" raw) as [r|] eqn:E1; cbn;
      [apply strip_byte_Some in E1|];
      match goal with |- context [split_once ?c ?x] =>
        destruct (split_once c x) as [[n v]|] eqn:E2 end; cbn;
      destruct (valid_name _) eqn:Ev; cbn; try done; intros [= <-]; cbn; split; auto.
    apply split_once_Some in E2 as [-> _]. eauto.
  - destruct t as [neg name value]. cbn. intros [Hv H].
    assert (exists c s, name = c :: s /\ c <> "-"%byte /\ ("="%byte ∉ name)) as (c & s & Hc & Hd & He).
    { revert Hv. unfold valid_name. rewrite andb_true_iff, forallb_true_iff. intros [Hn HF].
      rewrite Forall_forall in HF. destruct name as [|c s]; [done|]. exists c, s.
      split_and!; [done|intros ->; by discriminate (HF "-"%byte ltac:(left))|].
      intros Hx%HF. done. }
    unfold isupport_parse.
    destruct neg, value as [v|]; [done|..]; [|destruct H as (esc & -> & ->)|]; subst; cbn [strip_byte app];
      rewrite ?byte_eqb_refl, ?(proj2 (byte_eqb_neq c "-")) by done;
      rewrite ?(proj2 (split_once_None _ _)) by done; rewrite ?Hv; try done.
    change (c :: s ++ ?t) with ((c :: s) ++ t). rewrite split_once_app by done. by rewrite Hv.
Qed.

(** The token parser accepts exactly the 005 grammar: it succeeds on a
    name of upper-case letters and digits, alone, negated, or followed by a
    value that unescapes to the one returned, and on nothing else. *)
Theorem isupport_parse_iff raw t :
  isupport_parse raw = Ok t <->
  valid_name (isupport_name t) = true /\
  match negated t, isupport_value t with
  | true, None => raw = "-"%byte :: isupport_name t
  | false, None => raw = isupport_name t
  | false, Some v => exists esc, raw = isupport_name t ++ "="%byte :: esc /\ v = unescape_value esc
  | true, Some _ => False
  end.
Proof. apply isupport_parse_iff_lemma. Qed.

(** Tokens round-trip: a token with a valid name, and no value when it is
    negated, is read back from its printed form, whatever octets its value
    holds. *)
Theorem isupport_roundtrip t :
  valid_name (isupport_name t) = true ->
  (negated t = true -> isupport_value t = None) ->
  isupport_parse (print_token t) = Ok t.
Proof.
  intros Hv Hn. apply isupport_parse_iff_lemma. split; [done|]. unfold print_token.
  destruct (negated t); [rewrite Hn by done; cbn; by rewrite app_nil_r|].
  destruct (isupport_value t) as [v|]; [|cbn; by rewrite app_nil_r].
  exists (escape_value v). cbn. by rewrite escape_value_roundtrip_lemma.
Qed.

Lemma isupport_roundtrip_witness :
  isupport_parse (bs "NETWORK=Some\x20Net") = Ok (MkIsupport false (bs "NETWORK") (Some (bs "Some Net"))).
Proof.
  change (bs "NETWORK=Some\x20Net")
    with (print_token (MkIsupport false (bs "NETWORK") (Some (bs "Some Net")))).
  apply isupport_roundtrip; [vm_compute; reflexivity|done].
Defined.
