(* ===== verification/Time.v ===== *)
(** * Timestamps ([e6irc-proto/src/time.rs])

    Epoch milliseconds to and from the IRCv3 [server-time] text.  The civil
    calendar algorithm is shown to count the days of the Gregorian calendar one
    by one, and formatting and parsing to be inverse at millisecond
    precision. *)

From S2P Require Import Prelude Str Num.

Local Open Scope Z_scope.

(** ** Operations *)

(** [Millis] and [MonoMillis] wrap a [u64]. *)
Definition as_secs (ms : Z) : Z := ms / 1000.
Definition millis_saturating_sub (a b : Z) : Z := saturating_sub a b.
Definition saturating_add_millis (a ms : Z) : Z := saturating_add a ms.

(** The [as u32] cast. *)
Definition as_u32 (z : Z) : Z := z mod 2 ^ 32.

(** [i64] division truncates, hence [Z.quot]. *)
Definition civil_from_days (z : Z) : Z * Z * Z :=
  let z := z + 719468 in
  let era := Z.quot (if 0 <=? z then z else z - 146096) 146097 in
  let doe := z - era * 146097 in
  let yoe := Z.quot (doe - Z.quot doe 1460 + Z.quot doe 36524 - Z.quot doe 146096) 365 in
  let y := yoe + era * 400 in
  let doy := doe - (365 * yoe + Z.quot yoe 4 - Z.quot yoe 100) in
  let mp := Z.quot (5 * doy + 2) 153 in
  let d := as_u32 (doy - Z.quot (153 * mp + 2) 5 + 1) in
  let m := as_u32 (if mp <? 10 then mp + 3 else mp - 9) in
  (if m <=? 2 then y + 1 else y, m, d).

Definition days_from_civil (y m d : Z) : Z :=
  let y := if m <=? 2 then y - 1 else y in
  let era := Z.quot (if 0 <=? y then y else y - 399) 400 in
  let yoe := y - era * 400 in
  let mp := if 2 <? m then m - 3 else m + 9 in
  let doy := Z.quot (153 * mp + 2) 5 + d - 1 in
  let doe := yoe * 365 + Z.quot yoe 4 - Z.quot yoe 100 + doy in
  era * 146097 + doe - 719468.

Definition is_leap (year : Z) : bool :=
  ((Z.rem year 4 =? 0) && negb (Z.rem year 100 =? 0)) || (Z.rem year 400 =? 0).

Definition days_in_month (year month : Z) : Z :=
  match month with
  | 1 | 3 | 5 | 7 | 8 | 10 | 12 => 31
  | 4 | 6 | 9 | 11 => 30
  | 2 => if is_leap year then 29 else 28
  | _ => 0
  end.

(** [format!("{year:04}-{month:02}-{day:02}T{hh:02}:{mm:02}:{ss:02}.{millis:03}Z")] *)
Definition format_time (year month day hh mm ss millis : Z) : str :=
  dec_pad 4 year ++ "-"%byte :: dec_pad 2 month ++ "-"%byte :: dec_pad 2 day
  ++ "T"%byte :: dec_pad 2 hh ++ ":"%byte :: dec_pad 2 mm ++ ":"%byte :: dec_pad 2 ss
  ++ "."%byte :: dec_pad 3 millis ++ ["Z"%byte].

Definition server_time (epoch_millis : Z) : str :=
  let secs := epoch_millis / 1000 in
  let millis := epoch_millis mod 1000 in
  let days := secs / 86400 in
  let s := secs mod 86400 in
  let '(year, month, day) := civil_from_days days in
  format_time year month day (s / 3600) (s mod 3600 / 60) (s mod 60) millis.

Definition parse_time_field (s : str) (width : nat) : option Z :=
  if negb (length s =? width)%nat || negb (forallb is_ascii_digit s) then None
  else parse_uint U32_MAX s.

Definition parse_date (date : str) : option (Z * Z * Z) :=
  let parts := split "-" date in
  year ← (p ← parts !! 0%nat; parse_time_field p 4);
  month ← (p ← parts !! 1%nat; parse_time_field p 2);
  day ← (p ← parts !! 2%nat; parse_time_field p 2);
  if bool_decide (is_Some (parts !! 3%nat))
     || negb ((1 <=? month) && (month <=? 12))
     || (day <? 1)
     || (days_in_month year month <? day)
  then None
  else Some (year, month, day).

Definition parse_clock (hms : str) : option (Z * Z * Z) :=
  let parts := split ":" hms in
  hh ← (p ← parts !! 0%nat; parse_time_field p 2);
  mm ← (p ← parts !! 1%nat; parse_time_field p 2);
  ss ← (p ← parts !! 2%nat; parse_time_field p 2);
  if bool_decide (is_Some (parts !! 3%nat)) || (23 <? hh) || (59 <? mm) || (59 <? ss)
  then None
  else Some (hh, mm, ss).

Definition parse_fraction (frac : option str) : option Z :=
  match frac with
  | None => Some 0
  | Some frac =>
      let width := length frac in
      if negb ((1 <=? width)%nat && (width <=? 3)%nat) then None
      else
        n ← parse_time_field frac width;
        Some (n * 10 ^ (3 - Z.of_nat width))
  end.

Definition split_fraction (time : str) : str * option str :=
  match split_once "." time with
  | Some (hms, frac) => (hms, Some frac)
  | None => (time, None)
  end.

(** [i64::checked_mul]. *)
Definition checked_mul_i64 (a b : Z) : option Z :=
  if (- 2 ^ 63 <=? a * b) && (a * b <? 2 ^ 63) then Some (a * b) else None.

Definition parse_server_time_millis (text : str) : option Z :=
  text ← strip_suffix_byte "Z" text;
  '(date, time) ← split_once "T" text;
  '(year, month, day) ← parse_date date;
  let '(hms, frac) := split_fraction time in
  '(hh, mm, ss) ← parse_clock hms;
  millis ← parse_fraction frac;
  let days := days_from_civil year month day in
  day_secs ← checked_mul_i64 days 86400;
  let secs := day_secs + (hh * 3600 + mm * 60 + ss) in
  secs ← (if 0 <=? secs then Some secs else None);
  ms ← checked_mul_u64 secs 1000;
  checked_add_u64 ms millis.

(** ** The calendar *)

Definition date : Type := Z * Z * Z.
Definition valid_date (dt : date) : Prop :=
  let '(y, m, d) := dt in 1 <= m <= 12 /\ 1 <= d <= days_in_month y m.

(** The day after, by the calendar's own rule. *)
Definition next_day (dt : date) : date :=
  let '(y, m, d) := dt in
  if d <? days_in_month y m then (y, m, d + 1)
  else if m <? 12 then (y, m + 1, 1)
  else (y + 1, 1, 1).

Definition days_of (dt : date) : Z := let '(y, m, d) := dt in days_from_civil y m d.

(** ** Calendar lemmas *)

Ltac zdiv := Z.to_euclidean_division_equations; lia.

(** [if x >= 0 { x } else { x - (n - 1) } / n] is the floor division. *)
Lemma quot_floor x n : 0 < n -> Z.quot (if 0 <=? x then x else x - (n - 1)) n = x / n.
Proof.
  intros Hn. destruct (Z.leb_spec 0 x); [apply Z.quot_div_nonneg; lia|].
  rewrite <- (Z.opp_involutive (x - (n - 1))), Z.quot_opp_l by lia.
  rewrite Z.quot_div_nonneg by lia.
  pose proof (Z.div_mod x n ltac:(lia)). pose proof (Z.mod_pos_bound x n ltac:(lia)).
  apply (Z.div_unique_pos _ _ _ (x - n * - (- (x - (n - 1)) / n))).
  - pose proof (Z.div_mod (- (x - (n - 1))) n ltac:(lia)).
    pose proof (Z.mod_pos_bound (- (x - (n - 1))) n ltac:(lia)). lia.
  - lia.
Qed.

Lemma as_u32_small z : 0 <= z < 2 ^ 32 -> as_u32 z = z.
Proof. apply Z.mod_small. Qed.

Lemma month_cases m : 1 <= m <= 12 ->
  m = 1 \/ m = 2 \/ m = 3 \/ m = 4 \/ m = 5 \/ m = 6
  \/ m = 7 \/ m = 8 \/ m = 9 \/ m = 10 \/ m = 11 \/ m = 12.
Proof. lia. Qed.

Ltac each_month H :=
  apply month_cases in H;
  repeat match type of H with _ \/ _ => destruct H as [->|H] end; [..|subst].

Lemma is_leap_iff y :
  is_leap y = true <-> (y mod 4 = 0 /\ y mod 100 <> 0) \/ y mod 400 = 0.
Proof.
  unfold is_leap. rewrite orb_true_iff, andb_true_iff, negb_true_iff, Z.eqb_neq, !Z.eqb_eq.
  rewrite !Z.rem_divide, <- !Z.mod_divide by lia. tauto.
Qed.

(** The leap days up to a year; a year adds one when it is leap. *)
Definition leap_days (y : Z) : Z := y / 4 - y / 100 + y / 400.

Lemma leap_step y : leap_days y - leap_days (y - 1) = if is_leap y then 1 else 0.
Proof.
  unfold leap_days. destruct (is_leap y) eqn:E.
  - apply is_leap_iff in E. zdiv.
  - assert (~ ((y mod 4 = 0 /\ y mod 100 <> 0) \/ y mod 400 = 0)) as E'
      by (rewrite <- is_leap_iff, E; done).
    clear E. zdiv.
Qed.

(** The day count with the eras multiplied out: March-based years. *)
Lemma days_from_civil_linear y m d :
  let y' := if m <=? 2 then y - 1 else y in
  let mp := if 2 <? m then m - 3 else m + 9 in
  days_from_civil y m d =
  365 * y' + leap_days y' + (Z.quot (153 * mp + 2) 5 + d - 1) - 719468.
Proof.
  intros y' mp. unfold days_from_civil. fold y' mp.
  change (y' - 399) with (y' - (400 - 1)). rewrite quot_floor by lia.
  assert (0 <= y' - y' / 400 * 400 < 400) by zdiv.
  rewrite !(Z.quot_div_nonneg (y' - _)) by lia.
  generalize (Z.quot (153 * mp + 2) 5). intros q. unfold leap_days. clearbody y'. zdiv.
Qed.

Lemma days_in_month_range y m : 1 <= m <= 12 -> 28 <= days_in_month y m <= 31.
Proof. intros Hm. each_month Hm; unfold days_in_month; try lia. destruct (is_leap y); lia. Qed.

Lemma next_day_valid dt : valid_date dt -> valid_date (next_day dt).
Proof.
  destruct dt as [[y m] d]. intros [Hm Hd]. cbn [next_day].
  destruct (Z.ltb_spec d (days_in_month y m)); [cbn; lia|].
  destruct (Z.ltb_spec m 12); [|cbn; lia].
  pose proof (days_in_month_range y (m + 1)). split; lia.
Qed.

(** The day count advances by one along the calendar. *)
Lemma days_of_next dt : valid_date dt -> days_of (next_day dt) = days_of dt + 1.
Proof.
  destruct dt as [[y m] d]. intros [Hm Hd]. cbn [next_day].
  destruct (Z.ltb_spec d (days_in_month y m)).
  { cbn [days_of]. rewrite !days_from_civil_linear. cbn zeta. lia. }
  assert (d = days_in_month y m) as -> by lia. clear Hd H.
  pose proof (leap_step y) as Hl.
  destruct (is_leap y) eqn:E;
    each_month Hm; unfold days_in_month; rewrite ?E; cbn [days_of Z.ltb Z.compare Pos.compare
      Pos.compare_cont]; rewrite !days_from_civil_linear; cbn zeta; repeat case_match;
    rewrite ?Z.add_simpl_r; zdiv.
Qed.

(** *** Inverting the day count *)

(** The day of a March-based year [yoe] of an era on which it starts. *)
Definition year_start (yoe : Z) : Z := 365 * yoe + yoe / 4 - yoe / 100.
(** The last day of year [yoe]: the next one's start, less one; day 146096 ends
    the era. *)
Definition year_end (yoe : Z) : Z := if yoe =? 399 then 146096 else year_start (yoe + 1) - 1.

(** The estimate whose 365th part is the year of a day of the era. *)
Definition year_estimate (doe : Z) : Z :=
  doe - doe / 1460 + doe / 36524 - doe / 146096.

Lemma year_estimate_mono a b : a <= b -> year_estimate a <= year_estimate b.
Proof.
  intros H. assert (exists n, b = a + Z.of_nat n) as [n ->] by (exists (Z.to_nat (b - a)); lia).
  clear H. induction n as [|n IH]; [rewrite Z.add_0_r; lia|].
  etransitivity; [exact IH|]. rewrite Nat2Z.inj_succ. unfold year_estimate.
  replace (a + Z.succ (Z.of_nat n)) with (a + Z.of_nat n + 1) by lia.
  generalize (a + Z.of_nat n). intros x. zdiv.
Qed.

(** The estimate at both ends of each of the era's 400 years, by computation. *)
Lemma year_estimate_ends yoe :
  0 <= yoe <= 399 ->
  365 * yoe <= year_estimate (year_start yoe)
  /\ year_estimate (year_end yoe) < 365 * (yoe + 1).
Proof.
  intros Hy.
  assert (forallb (fun n => let y := Z.of_nat n in
    (365 * y <=? year_estimate (year_start y))
    && (year_estimate (year_end y) <? 365 * (y + 1))) (seq 0 400) = true) as Hc
    by (vm_compute; reflexivity).
  rewrite forallb_forall in Hc. specialize (Hc (Z.to_nat yoe)).
  rewrite Z2Nat.id in Hc by lia. cbn zeta in Hc. rewrite andb_true_iff, Z.leb_le, Z.ltb_lt in Hc.
  apply Hc, in_seq. lia.
Qed.

Lemma year_estimate_year yoe doe :
  0 <= yoe <= 399 -> year_start yoe <= doe <= year_end yoe -> year_estimate doe / 365 = yoe.
Proof.
  intros Hy [Hlo Hhi]. apply year_estimate_mono in Hlo, Hhi.
  destruct (year_estimate_ends yoe Hy).
  symmetry. apply Z.div_unique with (r := year_estimate doe - 365 * yoe); lia.
Qed.

(** A day of the March-based year, as month and day. *)
Definition month_day (doy : Z) : Z * Z :=
  let mp := (5 * doy + 2) / 153 in
  (if mp <? 10 then mp + 3 else mp - 9, doy - (153 * mp + 2) / 5 + 1).

(** The calendar of a day given as era, year of era and day of year. *)
Lemma civil_from_days_of z era yoe doy :
  0 <= yoe <= 399 -> 0 <= doy -> year_start yoe + doy <= year_end yoe ->
  z + 719468 = era * 146097 + year_start yoe + doy ->
  civil_from_days z =
  (let '(m, d) := month_day doy in (if m <=? 2 then yoe + era * 400 + 1 else yoe + era * 400, m, d)).
Proof.
  intros Hy Hd He Hz. unfold civil_from_days. rewrite Hz.
  assert (0 <= year_start yoe + doy <= 146096) as Hdoe.
  { unfold year_end, year_start in *. destruct (Z.eqb_spec yoe 399); zdiv. }
  assert (0 <= doy <= 365) as Hdoy.
  { unfold year_end, year_start in *. destruct (Z.eqb_spec yoe 399); zdiv. }
  rewrite <- (Z.add_assoc _ (year_start yoe)).
  pose proof (year_estimate_year yoe (year_start yoe + doy) Hy ltac:(lia)) as Hyoe.
  pose proof (eq_refl (year_start yoe)) as Hs. unfold year_start in Hs at 1.
  set (doe := year_start yoe + doy) in *.
  change (?x - 146096) with (x - (146097 - 1)). rewrite quot_floor by lia.
  replace ((era * 146097 + doe) / 146097) with era by (clear - Hdoe; zdiv).
  replace (era * 146097 + doe - era * 146097) with doe by lia.
  rewrite !(Z.quot_div_nonneg doe) by lia. fold (year_estimate doe).
  assert (0 <= year_estimate doe) as Hest by (unfold year_estimate; clear - Hdoe; zdiv).
  rewrite !(Z.quot_div_nonneg (year_estimate doe)), Hyoe by lia.
  rewrite !(Z.quot_div_nonneg yoe) by lia. rewrite Hs.
  replace (doe - year_start yoe) with doy by (subst doe; lia).
  rewrite !(Z.quot_div_nonneg (5 * doy + 2)) by lia. unfold month_day.
  set (mp := (5 * doy + 2) / 153).
  assert (0 <= mp <= 11) by (subst mp; clear - Hdoy; zdiv).
  rewrite !Z.quot_div_nonneg by lia.
  rewrite !as_u32_small; [done|..].
  - subst mp. clear - Hdoy. zdiv.
  - destruct (Z.ltb_spec mp 10); lia.
Qed.

(** The day of the March-based year on which a month's day falls. *)
Definition day_of_year (m d : Z) : Z :=
  let mp := if 2 <? m then m - 3 else m + 9 in Z.quot (153 * mp + 2) 5 + d - 1.

Lemma days_in_month_leap y m : 1 <= m <= 12 -> days_in_month y m <= days_in_month 2000 m.
Proof.
  intros Hm. each_month Hm; unfold days_in_month; try lia. change (is_leap 2000) with true.
  destruct (is_leap y); lia.
Qed.

(** The month tables of both directions agree: every day of every month, by
    computation. *)
Lemma month_day_of m d :
  1 <= m <= 12 -> 1 <= d <= days_in_month 2000 m -> month_day (day_of_year m d) = (m, d).
Proof.
  intros Hm Hd.
  assert (forallb (fun m => forallb (fun d =>
      let m := Z.of_nat m in let d := Z.of_nat d in
      (days_in_month 2000 m <? d) || bool_decide (month_day (day_of_year m d) = (m, d)))
    (seq 1 31)) (seq 1 12) = true) as Hc by (vm_compute; reflexivity).
  rewrite forallb_forall in Hc. specialize (Hc (Z.to_nat m) ltac:(apply in_seq; lia)).
  rewrite forallb_forall in Hc.
  pose proof (days_in_month_range 2000 m Hm).
  specialize (Hc (Z.to_nat d) ltac:(apply in_seq; lia)). cbn zeta in Hc.
  rewrite !Z2Nat.id, orb_true_iff, Z.ltb_lt, bool_decide_eq_true in Hc by lia.
  destruct Hc; [lia|done].
Qed.

Lemma day_of_year_range y m d :
  valid_date (y, m, d) ->
  0 <= day_of_year m d <= (if m <=? 2 then 336 + days_in_month y 2 else 305).
Proof.
  intros [Hm Hd]. unfold day_of_year. pose proof (days_in_month_range y 2 ltac:(lia)).
  each_month Hm; unfold days_in_month at 1 in Hd; cbn [Z.ltb Z.leb Z.compare Pos.compare
    Pos.compare_cont]; try zdiv; unfold days_in_month in *; destruct (is_leap y); zdiv.
Qed.

(** Leap years of an era end one day later. *)
Lemma year_end_leap y :
  year_end (y mod 400) - year_start (y mod 400) = if is_leap (y + 1) then 365 else 364.
Proof.
  assert (0 <= y mod 400 <= 399) as Hr by zdiv.
  destruct (is_leap (y + 1)) eqn:E.
  - apply is_leap_iff in E. unfold year_end, year_start.
    destruct (Z.eqb_spec (y mod 400) 399) as [->|]; [done|]. zdiv.
  - assert (~ (((y + 1) mod 4 = 0 /\ (y + 1) mod 100 <> 0) \/ (y + 1) mod 400 = 0)) as E'
      by (rewrite <- is_leap_iff, E; done).
    unfold year_end, year_start. destruct (Z.eqb_spec (y mod 400) 399) as [H|]; [|zdiv].
    exfalso. apply E'. right. clear - H. zdiv.
Qed.

Lemma days_from_civil_era y m d :
  let y' := if m <=? 2 then y - 1 else y in
  days_from_civil y m d + 719468 =
  y' / 400 * 146097 + year_start (y' mod 400) + day_of_year m d.
Proof.
  intros y'. unfold days_from_civil, year_start, day_of_year. fold y'.
  change (y' - 399) with (y' - (400 - 1)). rewrite quot_floor by lia.
  replace (y' - y' / 400 * 400) with (y' mod 400) by (clearbody y'; zdiv).
  assert (0 <= y' mod 400) by (apply Z.mod_pos_bound; lia).
  rewrite !(Z.quot_div_nonneg (y' mod 400)) by lia. lia.
Qed.

(** The conversion back recovers every valid date. *)
Lemma civil_from_days_of_date y m d :
  valid_date (y, m, d) -> civil_from_days (days_from_civil y m d) = (y, m, d).
Proof.
  intros Hv. pose proof (day_of_year_range y m d Hv) as Hr. destruct Hv as [Hm Hd].
  pose proof (days_from_civil_era y m d) as Hz. cbn zeta in Hz.
  set (y' := if m <=? 2 then y - 1 else y) in *.
  pose proof (year_end_leap y') as Hl.
  assert (0 <= y' mod 400 <= 399) by (clearbody y'; zdiv).
  rewrite (civil_from_days_of _ (y' / 400) (y' mod 400) (day_of_year m d)); [|lia|lia| |done].
  - rewrite month_day_of by (pose proof (days_in_month_leap y m Hm); lia).
    replace (y' mod 400 + y' / 400 * 400) with y' by (clearbody y'; zdiv).
    subst y'. destruct (m <=? 2); [|done]. by rewrite Z.sub_add.
  - destruct (Z.leb_spec m 2); subst y'.
    + rewrite Z.sub_add in Hl. unfold days_in_month in Hr. destruct (is_leap y); lia.
    + destruct (is_leap (y + 1)); lia.
Qed.

(** The days of the calendar from the epoch on. *)
Definition calendar (n : nat) : date := Nat.iter n next_day (1970, 1, 1).

Lemma calendar_spec n : valid_date (calendar n) /\ days_of (calendar n) = Z.of_nat n.
Proof.
  induction n as [|n [Hv Hn]]; [split; [cbn; lia|done]|].
  change (calendar (S n)) with (next_day (calendar n)). split; [by apply next_day_valid|].
  rewrite days_of_next by done. lia.
Qed.

Lemma civil_from_days_calendar n :
  civil_from_days (Z.of_nat n) = calendar n.
Proof.
  destruct (calendar_spec n) as [Hv <-]. destruct (calendar n) as [[y m] d].
  by apply civil_from_days_of_date.
Qed.

(** The calendar conversion is right: day [n] after the epoch is converted
    to the date reached from 1970-01-01 by [n] steps of the Gregorian
    calendar (months of 28 to 31 days, the leap-year rule), which is a valid
    date, and [days_from_civil] takes it back to [n]. *)
Theorem civil_from_days_correct n :
  let '(y, m, d) := civil_from_days (Z.of_nat n) in
  (y, m, d) = calendar n /\ valid_date (y, m, d) /\ days_from_civil y m d = Z.of_nat n.
Proof.
  rewrite civil_from_days_calendar. destruct (calendar_spec n) as [Hv Hn].
  by destruct (calendar n) as [[y m] d].
Qed.

(** ** The text *)

Lemma fixed_lacks (c : byte) w z : 0 <= z -> is_ascii_digit c = false -> c ∉ fixed w z.
Proof.
  intros Hz Hc Hin. pose proof (fixed_digits w z Hz) as H.
  rewrite forallb_true_iff, Forall_forall in H. apply H in Hin. congruence.
Qed.

Lemma parse_time_field_iff s w z :
  (0 < w <= 4)%nat ->
  parse_time_field s w = Some z <-> s = fixed w z /\ 0 <= z < 10 ^ Z.of_nat w.
Proof.
  intros Hw. unfold parse_time_field.
  assert (10 ^ Z.of_nat w <= 10 ^ 4) by (apply Z.pow_le_mono_r; lia).
  assert (forall n, n < 10 ^ Z.of_nat w -> n <= U32_MAX) as Hmax by (unfold U32_MAX; lia).
  split.
  - destruct (Nat.eqb_spec (length s) w) as [<-|]; [|done].
    destruct (forallb is_ascii_digit s) eqn:Hd; [|done]. cbn [negb orb].
    pose proof (dec_value_range s Hd).
    rewrite parse_uint_digits by ((destruct s; [cbn in *; lia|done]) || auto || (apply Hmax; lia)).
    intros [= <-]. by rewrite fixed_dec_value.
  - intros [-> Hz]. rewrite fixed_length, Nat.eqb_refl, fixed_digits by lia. cbn [negb orb].
    assert (fixed w z <> []) by (intros E; pose proof (fixed_length w z); rewrite E in *; cbn in *; lia).
    rewrite parse_uint_digits; rewrite ?dec_value_fixed; auto using fixed_digits with lia.
Qed.

Lemma parse_time_field_fixed w z :
  (0 < w <= 4)%nat -> 0 <= z < 10 ^ Z.of_nat w -> parse_time_field (fixed w z) w = Some z.
Proof. intros. by apply parse_time_field_iff. Qed.

(** Three separated fields, as both the date and the clock have. *)
Lemma three_fields c s a b d f :
  (p0 ← split c s !! 0%nat; f p0 (0%nat)) = Some a ->
  (p1 ← split c s !! 1%nat; f p1 (1%nat)) = Some b ->
  (p2 ← split c s !! 2%nat; f p2 (2%nat)) = Some d ->
  ~ is_Some (split c s !! 3%nat) ->
  exists p0 p1 p2 : str, s = p0 ++ c :: p1 ++ c :: p2
    /\ f p0 0%nat = Some a /\ f p1 1%nat = Some b /\ (f p2 2%nat = Some d :> option Z).
Proof.
  pose proof (join_split c s) as Hj. intros Ha Hb Hd H3.
  destruct (split c s) as [|p0 [|p1 [|p2 [|p3 ps]]]]; cbn in *; try done.
  - exists p0, p1, p2. by rewrite <- Hj.
  - exfalso. eauto.
Qed.

Lemma parse_date_iff s y m d :
  parse_date s = Some (y, m, d) <->
  s = fixed 4 y ++ "-"%byte :: fixed 2 m ++ "-"%byte :: fixed 2 d
  /\ 0 <= y < 10000 /\ valid_date (y, m, d).
Proof.
  unfold parse_date. split.
  - intros (y' & Ey & (m' & Em & (d' & Ed & H)%bind_Some)%bind_Some)%bind_Some.
    destruct (_ || _) eqn:E; [done|]. injection H as <- <- <-. bool_to_prop.
    rewrite bool_decide_eq_false in H.
    pose (f := fun p i => parse_time_field p (match i with O => 4 | _ => 2 end)%nat).
    destruct (three_fields "-" s y' m' d' f Ey Em Ed H) as (p0 & p1 & p2 & -> & H4 & H5 & H6).
    subst f. cbn beta iota in *.
    apply parse_time_field_iff in H4 as [-> ?], H5 as [-> ?], H6 as [-> ?]; [|lia..].
    split; [done|]. split; [lia|]. cbn. lia.
  - intros (-> & Hy & Hm & Hd). pose proof (days_in_month_range y m Hm).
    rewrite split_three by (apply fixed_lacks; [lia|done]). cbn [lookup list_lookup mbind option_bind].
    rewrite !parse_time_field_fixed by (cbn; lia).
    cbn [mbind option_bind]. rewrite bool_decide_eq_false_2 by (by intros []).
    by rewrite !(proj2 (Z.leb_le _ _)), !(proj2 (Z.ltb_ge _ _)) by lia.
Qed.

Lemma parse_clock_iff s hh mm ss :
  parse_clock s = Some (hh, mm, ss) <->
  s = fixed 2 hh ++ ":"%byte :: fixed 2 mm ++ ":"%byte :: fixed 2 ss
  /\ 0 <= hh <= 23 /\ 0 <= mm <= 59 /\ 0 <= ss <= 59.
Proof.
  unfold parse_clock. split.
  - intros (y' & Ey & (m' & Em & (d' & Ed & H)%bind_Some)%bind_Some)%bind_Some.
    destruct (_ || _) eqn:E; [done|]. injection H as <- <- <-. bool_to_prop.
    rewrite bool_decide_eq_false in H.
    destruct (three_fields ":" s y' m' d' (fun p _ => parse_time_field p 2) Ey Em Ed H)
      as (p0 & p1 & p2 & -> & H4 & H5 & H6).
    apply parse_time_field_iff in H4 as [-> ?], H5 as [-> ?], H6 as [-> ?]; [|lia..].
    split; [done|]. lia.
  - intros (-> & Hh & Hm & Hs).
    rewrite split_three by (apply fixed_lacks; [lia|done]). cbn [lookup list_lookup mbind option_bind].
    rewrite !parse_time_field_fixed by (cbn; lia).
    cbn [mbind option_bind]. rewrite bool_decide_eq_false_2 by (by intros []).
    by rewrite !(proj2 (Z.ltb_ge _ _)) by lia.
Qed.

Definition date_text (y m d : Z) : str :=
  fixed 4 y ++ "-"%byte :: fixed 2 m ++ "-"%byte :: fixed 2 d.
Definition clock_text (hh mm ss : Z) : str :=
  fixed 2 hh ++ ":"%byte :: fixed 2 mm ++ ":"%byte :: fixed 2 ss.

(** The fields of a timestamp: a four-digit year, a real date, a clock time. *)
Definition valid_fields (y m d hh mm ss : Z) : Prop :=
  0 <= y < 10000 /\ valid_date (y, m, d) /\ 0 <= hh <= 23 /\ 0 <= mm <= 59 /\ 0 <= ss <= 59.

Definition epoch_secs (y m d hh mm ss : Z) : Z :=
  days_from_civil y m d * 86400 + (hh * 3600 + mm * 60 + ss).

Lemma date_text_lacks c y m d :
  0 <= y < 10000 -> valid_date (y, m, d) -> is_ascii_digit c = false -> c <> "-"%byte ->
  c ∉ date_text y m d.
Proof.
  intros Hy [Hm Hd] Hc Hne. unfold date_text.
  rewrite !elem_of_app, !elem_of_cons, !elem_of_app, !elem_of_cons.
  intros [K|[K|[K|[K|K]]]]; try done; revert K; by apply fixed_lacks; [lia|].
Qed.

Lemma clock_text_lacks c hh mm ss :
  0 <= hh -> 0 <= mm -> 0 <= ss -> is_ascii_digit c = false -> c <> ":"%byte ->
  c ∉ clock_text hh mm ss.
Proof.
  intros ? ? ? Hc Hne. unfold clock_text.
  rewrite !elem_of_app, !elem_of_cons, !elem_of_app, !elem_of_cons.
  intros [K|[K|[K|[K|K]]]]; try done; revert K; by apply fixed_lacks; [lia|].
Qed.

Lemma day_of_year_lower y m d :
  1 <= m <= 12 -> 1 <= d <= days_in_month y m -> (if m <=? 2 then 306 else 0) <= day_of_year m d.
Proof.
  intros Hm Hd. unfold day_of_year.
  each_month Hm; unfold days_in_month in Hd;
    cbn [Z.leb Z.ltb Z.compare Pos.compare Pos.compare_cont] in *; destruct (is_leap y); zdiv.
Qed.

Lemma days_from_civil_range y m d :
  0 <= y < 10000 -> valid_date (y, m, d) -> -719528 <= days_from_civil y m d <= 2932896.
Proof.
  intros Hy Hv. pose proof (day_of_year_range y m d Hv) as Hr.
  rewrite days_from_civil_linear. cbn zeta. change (Z.quot _ 5 + d - 1) with (day_of_year m d).
  destruct Hv as [Hm Hd]. pose proof (days_in_month_range y 2 ltac:(lia)).
  pose proof (day_of_year_lower y m d Hm Hd).
  unfold leap_days. destruct (Z.leb_spec m 2); zdiv.
Qed.

(** The year of a day count, bounded by the day count. *)
Lemma civil_year_range n :
  Z.of_nat n <= 2932896 -> 0 <= fst (fst (calendar n)) < 10000.
Proof.
  intros Hn. destruct (calendar_spec n) as [Hv He]. destruct (calendar n) as [[y m] d].
  cbn [fst days_of] in *. pose proof (day_of_year_range y m d Hv) as Hr.
  rewrite days_from_civil_linear in He. cbn zeta in He.
  change (Z.quot _ 5 + d - 1) with (day_of_year m d) in He.
  destruct Hv as [Hm Hd]. pose proof (days_in_month_range y 2 ltac:(lia)).
  pose proof (day_of_year_lower y m d Hm Hd).
  unfold leap_days in He. destruct (Z.leb_spec m 2); zdiv.
Qed.

Lemma format_time_text y m d hh mm ss ms :
  valid_fields y m d hh mm ss -> 0 <= ms < 1000 ->
  format_time y m d hh mm ss ms =
  (date_text y m d ++ "T"%byte :: clock_text hh mm ss ++ "."%byte :: fixed 3 ms) ++ ["Z"%byte].
Proof.
  intros (Hy & [Hm Hd] & Hhh & Hmm & Hss) Hms. pose proof (days_in_month_range y m Hm).
  unfold format_time, date_text, clock_text. rewrite !dec_pad_fixed by (cbn; lia).
  rewrite <- !app_assoc. cbn [app]. by rewrite <- !app_assoc.
Qed.

Lemma parse_fraction_range frac n : parse_fraction frac = Some n -> 0 <= n < 1000.
Proof.
  destruct frac as [f|]; cbn [parse_fraction]; [|intros [= <-]; lia].
  destruct (_ && _) eqn:E; [|done]. cbn [negb]. bool_to_prop.
  intros (v & (-> & Hv)%parse_time_field_iff & [= <-])%bind_Some; [|lia].
  rewrite fixed_length in *. destruct (length f) as [|[|[|[|k]]]]; cbn in *; lia.
Qed.

Definition fraction_text (frac : option str) : str :=
  match frac with Some f => "."%byte :: f | None => [] end.

Lemma split_fraction_text hh mm ss frac :
  0 <= hh -> 0 <= mm -> 0 <= ss ->
  split_fraction (clock_text hh mm ss ++ fraction_text frac) = (clock_text hh mm ss, frac).
Proof.
  intros ? ? ?. unfold split_fraction, fraction_text. destruct frac as [f|].
  - rewrite split_once_app; [done|]. by apply clock_text_lacks.
  - rewrite app_nil_r, (proj2 (split_once_None _ _)); [done|]. by apply clock_text_lacks.
Qed.

(** Reading a text of valid fields, with its fraction. *)
Lemma parse_text y m d hh mm ss frac :
  valid_fields y m d hh mm ss ->
  parse_server_time_millis
    ((date_text y m d ++ "T"%byte :: clock_text hh mm ss ++ fraction_text frac) ++ ["Z"%byte]) =
  (millis ← parse_fraction frac;
   if 0 <=? epoch_secs y m d hh mm ss then Some (epoch_secs y m d hh mm ss * 1000 + millis)
   else None).
Proof.
  intros (Hy & Hv & Hhh & Hmm & Hss). unfold parse_server_time_millis.
  rewrite (proj2 (strip_suffix_byte_Some _ _ _)) by reflexivity. cbn [mbind option_bind].
  rewrite split_once_app by (by apply date_text_lacks). cbn [mbind option_bind].
  unfold date_text. rewrite (proj2 (parse_date_iff _ y m d)) by done. cbn [mbind option_bind].
  rewrite split_fraction_text by lia.
  unfold clock_text. rewrite (proj2 (parse_clock_iff _ hh mm ss)) by done. cbn [mbind option_bind].
  destruct (parse_fraction frac) as [millis|] eqn:Ef; [|done]. cbn [mbind option_bind].
  pose proof (days_from_civil_range y m d Hy Hv). apply parse_fraction_range in Ef.
  unfold checked_mul_i64. rewrite (proj2 (Z.leb_le _ _)), (proj2 (Z.ltb_lt _ _)) by lia.
  cbn [andb mbind option_bind]. fold (epoch_secs y m d hh mm ss).
  destruct (Z.leb_spec 0 (epoch_secs y m d hh mm ss)); [|done]. cbn [mbind option_bind].
  assert (epoch_secs y m d hh mm ss < 2932897 * 86400) by (unfold epoch_secs; lia).
  unfold checked_mul_u64, checked_add_u64, U64_MAX.
  rewrite (proj2 (Z.leb_le _ _)) by lia. cbn [mbind option_bind].
  by rewrite (proj2 (Z.leb_le _ _)) by lia.
Qed.

(** A text that is read has valid fields. *)
Lemma parse_text_inv text v :
  parse_server_time_millis text = Some v ->
  exists y m d hh mm ss frac millis,
    text = (date_text y m d ++ "T"%byte :: clock_text hh mm ss ++ fraction_text frac) ++ ["Z"%byte]
    /\ valid_fields y m d hh mm ss
    /\ parse_fraction frac = Some millis
    /\ 0 <= epoch_secs y m d hh mm ss
    /\ v = epoch_secs y m d hh mm ss * 1000 + millis.
Proof.
  intros H. pose proof H as Hp. unfold parse_server_time_millis in H.
  apply bind_Some in H as (t & ->%strip_suffix_byte_Some & H).
  apply bind_Some in H as ([dt time] & [-> _]%split_once_Some & H).
  apply bind_Some in H as ([[y m] d] & (-> & Hy & Hv)%parse_date_iff & H).
  destruct (split_fraction time) as [hms frac] eqn:Es.
  apply bind_Some in H as ([[hh mm] ss] & (-> & Hhh & Hmm & Hss)%parse_clock_iff & H).
  apply bind_Some in H as (millis & Hf & _).
  assert (time = clock_text hh mm ss ++ fraction_text frac) as ->.
  { unfold split_fraction in Es. destruct (split_once "." time) as [[a b]|] eqn:E;
      injection Es as -> <-; [by apply split_once_Some in E as [-> _]|by rewrite app_nil_r]. }
  assert (valid_fields y m d hh mm ss) as Hfields by (split_and!; try done; lia).
  fold (date_text y m d) in Hp. rewrite parse_text, Hf in Hp by done. cbn [mbind option_bind] in Hp.
  destruct (Z.leb_spec 0 (epoch_secs y m d hh mm ss)); [|done]. injection Hp as <-.
  exists y, m, d, hh, mm, ss, frac, millis. done.
Qed.

(** Formatting the instant of valid fields writes those fields. *)
Lemma server_time_fields y m d hh mm ss ms :
  valid_fields y m d hh mm ss -> 0 <= ms < 1000 -> 0 <= epoch_secs y m d hh mm ss ->
  server_time (epoch_secs y m d hh mm ss * 1000 + ms) = format_time y m d hh mm ss ms.
Proof.
  intros (Hy & Hv & Hhh & Hmm & Hss) Hms He. unfold server_time.
  set (secs := epoch_secs y m d hh mm ss) in *.
  replace ((secs * 1000 + ms) / 1000) with secs by (clearbody secs; zdiv).
  replace ((secs * 1000 + ms) mod 1000) with ms by (clearbody secs; zdiv).
  set (clock := hh * 3600 + mm * 60 + ss). assert (0 <= clock < 86400) by (subst clock; lia).
  assert (secs = days_from_civil y m d * 86400 + clock) as -> by done.
  generalize (civil_from_days_of_date y m d Hv). generalize (days_from_civil y m d). intros days Hd.
  replace ((days * 86400 + clock) / 86400) with days by (clearbody clock; zdiv).
  replace ((days * 86400 + clock) mod 86400) with clock by (clearbody clock; zdiv).
  rewrite Hd. subst clock. f_equal; zdiv.
Qed.

(** The first millisecond of the year 10000. *)
Definition YEAR_10000_MS : Z := 253402300800000.

Lemma server_time_roundtrip_lemma ms :
  0 <= ms < YEAR_10000_MS -> parse_server_time_millis (server_time ms) = Some ms.
Proof.
  unfold YEAR_10000_MS. intros Hms. set (days := ms / 1000 / 86400).
  assert (0 <= days <= 2932896) as Hdays by (subst days; zdiv).
  pose proof (calendar_spec (Z.to_nat days)) as [Hv Hd].
  pose proof (civil_year_range (Z.to_nat days) ltac:(lia)) as Hy.
  destruct (calendar (Z.to_nat days)) as [[y m] d]. cbn [fst days_of] in *.
  rewrite Z2Nat.id in Hd by lia.
  set (clock := ms / 1000 mod 86400). assert (0 <= clock < 86400) by (subst clock; zdiv).
  assert (valid_fields y m d (clock / 3600) (clock mod 3600 / 60) (clock mod 60)) as Hf.
  { split_and!; try done; clearbody clock; zdiv. }
  assert (epoch_secs y m d (clock / 3600) (clock mod 3600 / 60) (clock mod 60) = ms / 1000) as He.
  { unfold epoch_secs. rewrite Hd. subst clock days. zdiv. }
  assert (ms = epoch_secs y m d (clock / 3600) (clock mod 3600 / 60) (clock mod 60) * 1000
               + ms mod 1000) as Hsum by (rewrite He; zdiv).
  assert (0 <= ms mod 1000 < 1000) by zdiv.
  rewrite Hsum at 1. rewrite server_time_fields by (done || (rewrite He; zdiv)).
  rewrite format_time_text by done.
  etransitivity; [apply (parse_text _ _ _ _ _ _ (Some (fixed 3 (ms mod 1000)))); done|].
  cbn [parse_fraction]. rewrite fixed_length. cbn [Nat.leb andb negb].
  rewrite parse_time_field_fixed by (cbn; lia). cbn [mbind option_bind].
  rewrite (proj2 (Z.leb_le _ _)) by (rewrite He; zdiv). f_equal.
  change (10 ^ _) with 1. lia.
Qed.

(** Formatting loses nothing: every instant up to the end of the year 9999
    is read back, to the millisecond, from its [server-time] text. *)
Theorem server_time_roundtrip ms :
  0 <= ms < YEAR_10000_MS -> parse_server_time_millis (server_time ms) = Some ms.
Proof. apply server_time_roundtrip_lemma. Qed.

Lemma server_time_roundtrip_witness :
  parse_server_time_millis (bs "2023-12-31T23:59:59.999Z") = Some 1704067199999.
Proof.
  replace (bs "2023-12-31T23:59:59.999Z") with (server_time 1704067199999)
    by (vm_compute; reflexivity).
  apply server_time_roundtrip. unfold YEAR_10000_MS. lia.
Defined.

Lemma server_time_canonical_lemma text ms :
  parse_server_time_millis text = Some ms ->
  0 <= ms < YEAR_10000_MS /\ (length text = 24%nat -> text = server_time ms).
Proof.
  intros (y & m & d & hh & mm & ss & frac & millis & -> & Hf & Hfr & He & ->)%parse_text_inv.
  pose proof (parse_fraction_range _ _ Hfr).
  split.
  { destruct Hf as (Hy & Hv & Hhh & Hmm & Hss).
    pose proof (days_from_civil_range y m d Hy Hv). unfold YEAR_10000_MS, epoch_secs in *. lia. }
  intros Hl. rewrite server_time_fields, format_time_text by done. do 4 f_equal.
  rewrite !length_app in Hl. cbn [length] in Hl. rewrite length_app in Hl.
  unfold date_text, clock_text in Hl. rewrite !length_app in Hl. cbn [length] in Hl.
  rewrite !length_app in Hl. cbn [length] in Hl. rewrite !fixed_length in Hl.
  destruct frac as [f|]; cbn [fraction_text length] in *; [|lia].
  assert (length f = 3%nat) as Hl3 by lia. cbn [parse_fraction] in Hfr. rewrite Hl3 in Hfr.
  cbn [Nat.leb andb negb] in Hfr.
  apply bind_Some in Hfr as (v & [-> _]%parse_time_field_iff & [= <-]); [|lia].
  change (10 ^ _) with 1. by rewrite Z.mul_1_r.
Qed.

(** Parsing accepts one spelling per instant: a text that is read lies
    before the year 10000, and when it carries a three-digit fraction it is
    exactly the text [server_time] writes for the instant it was read as. *)
Theorem server_time_canonical text ms :
  parse_server_time_millis text = Some ms ->
  0 <= ms < YEAR_10000_MS /\ (length text = 24%nat -> text = server_time ms).
Proof. apply server_time_canonical_lemma. Qed.

Lemma server_time_canonical_witness :
  bs "2024-02-29T01:02:03.004Z" = server_time 1709168523004.
Proof.
  apply (server_time_canonical (bs "2024-02-29T01:02:03.004Z") 1709168523004);
    vm_compute; reflexivity.
Defined.
