(* ===== verification/Wire.v ===== *)
(** * Payload primitives of the core link ([e6irc-link/src/wire.rs])

    Big-endian integers, length-prefixed bytes and text, tagged options and
    addresses, counted lists.  A writer appends to a buffer and may fail part
    way; a reader consumes a payload from the front.

    Two judgements carry the frame proofs: [codes w r a n], what [w] appends is
    at most [n] bytes and [r] reads it back as [a]; and [rspec r Q], whatever
    [r] consumes, with its value, satisfies [Q].  Each primitive has one lemma
    for each, and both compose along the monadic structure of the frames. *)

From S2P Require Import Prelude Str.

Local Open Scope Z_scope.

(** ** Errors and monads *)

Inductive EncodeError : Type :=
| EncodeOverBound (field : str) (length bound : Z).

Inductive DecodeError : Type :=
| ShortFrame (length : Z)
| LongFrame (length : Z)
| UnknownKind (kind : Z)
| MissingSession
| UnexpectedSession (kind : Z)
| Truncated (field : str)
| OverBound (field : str) (length bound : Z)
| UnknownTag (field : str) (tag : Z)
| NotUtf8 (field : str)
| Invalid (field : str)
| TrailingBytes (count : Z).

Definition slen {A} (s : list A) : Z := Z.of_nat (length s).

(** A writer changes the buffer even when it fails: what was appended before
    the failing field stays there until [encode] truncates it. *)
Definition writer : Type := str -> str * result EncodeError ().

Definition wok : writer := fun buf => (buf, Ok ()).
Definition wthen (w1 w2 : writer) : writer := fun buf =>
  match w1 buf with
  | (buf', Ok _) => w2 buf'
  | (buf', Err e) => (buf', Err e)
  end.
Infix ">>>" := wthen (at level 62, right associativity) : irc_scope.

Definition reader (A : Type) : Type := str -> result DecodeError (A * str).

#[global] Instance reader_ret : MRet reader := fun _ a s => Ok (a, s).
#[global] Instance reader_bind : MBind reader := fun _ _ k r s =>
  match r s with Ok (a, s') => k a s' | Err e => Err e end.
Definition rfail {A} (e : DecodeError) : reader A := fun _ => Err e.
Definition rlift {A} (x : result DecodeError A) : reader A := fun s =>
  match x with Ok a => Ok (a, s) | Err e => Err e end.

(** ** Integers *)

(** The [k] big-endian bytes of an integer, and their value. *)
Fixpoint be (k : nat) (z : Z) : str :=
  match k with O => [] | S k' => be k' (z / 256) ++ [u8 z] end.
Definition be_value (s : str) : Z := foldl (fun acc b => acc * 256 + bz b) 0 s.

Definition put_slice (s : str) : writer := fun buf => (buf ++ s, Ok ()).

Definition w_u8 (value : Z) : writer := put_slice (be 1 value).
Definition w_u16 (value : Z) : writer := put_slice (be 2 value).
Definition w_u32 (value : Z) : writer := put_slice (be 4 value).
Definition w_u64 (value : Z) : writer := put_slice (be 8 value).
Definition w_bool (value : bool) : writer := w_u8 (if value then 1 else 0).

(** [need] followed by taking that many bytes. *)
Definition r_take (field : str) (n : Z) : reader str := fun s =>
  if slen s <? n then Err (Truncated field)
  else Ok (take (Z.to_nat n) s, drop (Z.to_nat n) s).

Definition r_u8 (field : str) : reader Z := s ← r_take field 1; mret (be_value s).
Definition r_u16 (field : str) : reader Z := s ← r_take field 2; mret (be_value s).
Definition r_u32 (field : str) : reader Z := s ← r_take field 4; mret (be_value s).
Definition r_u64 (field : str) : reader Z := s ← r_take field 8; mret (be_value s).

Definition r_bool (field : str) : reader bool :=
  tag ← r_u8 field;
  match tag with
  | 0 => mret false
  | 1 => mret true
  | _ => rfail (UnknownTag field tag)
  end.

(** ** Bytes and text *)

Definition w_bytes (field value : str) (bound : Z) : writer :=
  if bound <? slen value then fun buf => (buf, Err (EncodeOverBound field (slen value) bound))
  else w_u32 (slen value) >>> put_slice value.

Definition w_text (field value : str) (bound : Z) : writer := w_bytes field value bound.

Definition r_bytes (field : str) (bound : Z) : reader str :=
  length ← r_u32 field;
  if bound <? length then rfail (OverBound field length bound)
  else r_take field length.

Definition r_text (field : str) (bound : Z) : reader str :=
  bytes ← r_bytes field bound;
  rlift (ok_or (NotUtf8 field) (from_utf8 bytes)).

(** ** Options, addresses and lists *)

Definition w_option {A} (value : option A) (write : A -> writer) : writer :=
  match value with
  | None => w_u8 0
  | Some value => w_u8 1 >>> write value
  end.

Definition r_option {A} (field : str) (read : reader A) : reader (option A) :=
  tag ← r_u8 field;
  match tag with
  | 0 => mret None
  | 1 => a ← read; mret (Some a)
  | _ => rfail (UnknownTag field tag)
  end.

Inductive IpAddr : Type :=
| V4 (octets : str)
| V6 (octets : str).

(** [Ipv4Addr] holds four octets, [Ipv6Addr] sixteen. *)
Definition ip_typed (a : IpAddr) : Prop :=
  match a with V4 o => length o = 4%nat | V6 o => length o = 16%nat end.

Definition is_ipv4 (a : IpAddr) : bool := match a with V4 _ => true | V6 _ => false end.

Record SocketAddr : Type := MkSocket { socket_ip : IpAddr; socket_port : Z }.

Definition w_ip (address : IpAddr) : writer :=
  match address with
  | V4 octets => w_u8 4 >>> put_slice octets
  | V6 octets => w_u8 6 >>> put_slice octets
  end.

Definition r_ip (field : str) : reader IpAddr :=
  tag ← r_u8 field;
  match tag with
  | 4 => octets ← r_take field 4; mret (V4 octets)
  | 6 => octets ← r_take field 16; mret (V6 octets)
  | _ => rfail (UnknownTag field tag)
  end.

Definition w_socket (address : SocketAddr) : writer :=
  w_ip (socket_ip address) >>> w_u16 (socket_port address).

Definition r_socket (field : str) : reader SocketAddr :=
  ip ← r_ip field; port ← r_u16 field; mret (MkSocket ip port).

Fixpoint w_each {A} (write : A -> writer) (entries : list A) : writer :=
  match entries with [] => wok | a :: entries' => write a >>> w_each write entries' end.

Definition w_list {A} (field : str) (entries : list A) (bound : Z) (write : A -> writer) : writer :=
  if bound <? slen entries then fun buf => (buf, Err (EncodeOverBound field (slen entries) bound))
  else w_u16 (slen entries) >>> w_each write entries.

Fixpoint r_each {A} (n : nat) (read : reader A) : reader (list A) :=
  match n with
  | O => mret []
  | S n' => a ← read; l ← r_each n' read; mret (a :: l)
  end.

Definition r_list {A} (field : str) (bound : Z) (read : reader A) : reader (list A) :=
  count ← r_u16 field;
  if bound <? count then rfail (OverBound field count bound)
  else r_each (Z.to_nat count) read.

Definition finish (s : str) : result DecodeError () :=
  if is_empty s then Ok () else Err (TrailingBytes (slen s)).

(** ** Judgements *)

Definition writes (w : writer) (p : str) : Prop := forall buf, w buf = (buf ++ p, Ok ()).
Definition reads {A} (r : reader A) (p : str) (a : A) : Prop :=
  forall rest, r (p ++ rest) = Ok (a, rest).

Definition codes {A} (w : writer) (r : reader A) (a : A) (n : Z) : Prop :=
  exists p, slen p <= n /\ writes w p /\ reads r p a.

Definition rspec {A} (r : reader A) (Q : A -> str -> Prop) : Prop :=
  forall s a rest, r s = Ok (a, rest) -> exists p, s = p ++ rest /\ Q a p.

(** *** Composition *)

Lemma slen_app {A} (a b : list A) : slen (a ++ b) = slen a + slen b.
Proof. unfold slen. rewrite length_app. lia. Qed.

Lemma slen_nonneg {A} (a : list A) : 0 <= slen a.
Proof. unfold slen. lia. Qed.

Lemma writes_then w1 w2 p q : writes w1 p -> writes w2 q -> writes (w1 >>> w2) (p ++ q).
Proof. intros H1 H2 buf. unfold wthen. by rewrite H1, H2, app_assoc. Qed.

Lemma writes_ok : writes wok [].
Proof. intros buf. unfold wok. by rewrite app_nil_r. Qed.

Lemma writes_put s : writes (put_slice s) s.
Proof. done. Qed.

Lemma codes_bind {A B} w1 w2 (r : reader A) (k : A -> reader B) a b n m :
  codes w1 r a n -> codes w2 (k a) b m -> codes (w1 >>> w2) (r ≫= k) b (n + m).
Proof.
  intros (p & Hp & Wp & Rp) (q & Hq & Wq & Rq). exists (p ++ q). split_and!.
  - rewrite slen_app. lia.
  - by apply writes_then.
  - intros rest. unfold mbind, reader_bind. by rewrite <- app_assoc, Rp, Rq.
Qed.

Lemma codes_map {A B} w (r : reader A) (k : A -> reader B) a b n :
  codes w r a n -> (forall s, k a s = Ok (b, s)) -> codes w (r ≫= k) b n.
Proof.
  intros (p & Hp & Wp & Rp) Hk. exists p. split_and!; [done|done|].
  intros rest. unfold mbind, reader_bind. by rewrite Rp.
Qed.

Lemma codes_ret {A} (a : A) : codes wok (mret a) a 0.
Proof. exists []. split_and!; [done|apply writes_ok|by intros rest]. Qed.

Lemma codes_le {A} w (r : reader A) a n m : codes w r a n -> n <= m -> codes w r a m.
Proof. intros (p & Hp & H) Hm. exists p. split; [lia|done]. Qed.

Lemma rspec_bind {A B} (r : reader A) (k : A -> reader B) Q1 Q :
  rspec r Q1 ->
  (forall a p, Q1 a p -> rspec (k a) (fun b q => Q b (p ++ q))) ->
  rspec (r ≫= k) Q.
Proof.
  intros H1 H2 s b rest. unfold mbind, reader_bind. destruct (r s) as [[a s']|] eqn:E; [|done].
  intros Hk. destruct (H1 _ _ _ E) as (p & -> & Hp).
  destruct (H2 _ _ Hp _ _ _ Hk) as (q & -> & Hq). exists (p ++ q). by rewrite <- app_assoc.
Qed.

Lemma rspec_ret {A} (a : A) (Q : A -> str -> Prop) : Q a [] -> rspec (mret a) Q.
Proof. intros HQ s b rest [= <- <-]. by exists []. Qed.

Lemma rspec_fail {A} e (Q : A -> str -> Prop) : rspec (rfail e) Q.
Proof. by intros s a rest. Qed.

Lemma rspec_weaken {A} (r : reader A) (Q Q' : A -> str -> Prop) :
  rspec r Q -> (forall a p, Q a p -> Q' a p) -> rspec r Q'.
Proof. intros H HQ s a rest (p & ? & ?)%H. eauto. Qed.

Lemma rspec_lift {A} (x : result DecodeError A) (Q : A -> str -> Prop) :
  (forall a, x = Ok a -> Q a []) -> rspec (rlift x) Q.
Proof. intros HQ s a rest. unfold rlift. destruct x; [|done]. intros [= <- <-]. exists []. auto. Qed.

(** *** Integers *)

Lemma be_length k z : length (be k z) = k.
Proof. revert z. induction k as [|k IH]; intros z; [done|]. cbn [be]. rewrite length_app, IH. cbn. lia. Qed.

Lemma be_value_snoc s b : be_value (s ++ [b]) = be_value s * 256 + bz b.
Proof. unfold be_value. by rewrite foldl_app. Qed.

Lemma be_value_range s : 0 <= be_value s < 256 ^ slen s.
Proof.
  induction s as [|b s IH] using rev_ind; [unfold slen; cbn; lia|].
  rewrite be_value_snoc, slen_app, Z.pow_add_r by apply slen_nonneg.
  change (slen [b]) with 1. pose proof (bz_range b). nia.
Qed.

Lemma be_value_be k z : 0 <= z < 256 ^ Z.of_nat k -> be_value (be k z) = z.
Proof.
  revert z. induction k as [|k IH]; intros z Hz; [cbn in *; lia|]. cbn [be].
  rewrite Nat2Z.inj_succ, Z.pow_succ_r in Hz by lia.
  rewrite be_value_snoc, IH, bz_u8.
  - pose proof (Z.div_mod z 256). lia.
  - split; [apply Z.div_pos; lia|apply Z.div_lt_upper_bound; lia].
Qed.

Lemma be_be_value s : be (length s) (be_value s) = s.
Proof.
  induction s as [|b s IH] using rev_ind; [done|].
  rewrite length_app. cbn [length]. rewrite Nat.add_1_r. cbn [be].
  rewrite be_value_snoc. pose proof (bz_range b).
  rewrite Z.div_add_l, Z.div_small, Z.add_0_r, IH by lia. f_equal. f_equal.
  apply bz_inj. rewrite bz_u8, Z.add_comm, Z.mod_add, Z.mod_small by lia. done.
Qed.

Lemma be_be_value' k s : length s = k -> be k (be_value s) = s.
Proof. intros <-. apply be_be_value. Qed.

Lemma r_take_app field p rest n : slen p = n -> r_take field n (p ++ rest) = Ok (p, rest).
Proof.
  intros <-. unfold r_take. rewrite slen_app. pose proof (slen_nonneg rest).
  destruct (Z.ltb_spec (slen p + slen rest) (slen p)); [lia|].
  unfold slen. rewrite Nat2Z.id, take_app_length, drop_app_length. done.
Qed.

Lemma rspec_take field n : 0 <= n -> rspec (r_take field n) (fun a p => a = p /\ slen a = n).
Proof.
  intros Hn s a rest. unfold r_take. destruct (Z.ltb_spec (slen s) n); [done|].
  intros [= <- <-]. exists (take (Z.to_nat n) s). rewrite take_drop. split_and!; [done..|].
  unfold slen in *. rewrite length_take. lia.
Qed.

Lemma codes_int field k v :
  0 <= v < 256 ^ Z.of_nat k ->
  codes (put_slice (be k v)) (s ← r_take field (Z.of_nat k); mret (be_value s)) v (Z.of_nat k).
Proof.
  intros Hv. exists (be k v). unfold slen. rewrite be_length. split_and!; [done|apply writes_put|].
  intros rest. unfold mbind, reader_bind. rewrite r_take_app by (unfold slen; by rewrite be_length).
  by rewrite be_value_be.
Qed.

Lemma rspec_int field k :
  rspec (s ← r_take field (Z.of_nat k); mret (be_value s))
    (fun v p => 0 <= v < 256 ^ Z.of_nat k /\ writes (put_slice (be k v)) p).
Proof.
  eapply rspec_bind; [apply rspec_take; lia|]. intros s p [<- Hs]. apply rspec_ret.
  rewrite app_nil_r. pose proof (be_value_range s) as Hr. rewrite Hs in Hr. split; [done|].
  replace k with (length s) by (unfold slen in Hs; lia). rewrite be_be_value. apply writes_put.
Qed.

Lemma codes_u8 field v : 0 <= v < 2 ^ 8 -> codes (w_u8 v) (r_u8 field) v 1.
Proof. apply (codes_int field 1). Qed.
Lemma codes_u16 field v : 0 <= v < 2 ^ 16 -> codes (w_u16 v) (r_u16 field) v 2.
Proof. apply (codes_int field 2). Qed.
Lemma codes_u32 field v : 0 <= v < 2 ^ 32 -> codes (w_u32 v) (r_u32 field) v 4.
Proof. apply (codes_int field 4). Qed.
Lemma codes_u64 field v : 0 <= v < 2 ^ 64 -> codes (w_u64 v) (r_u64 field) v 8.
Proof. apply (codes_int field 8). Qed.

Lemma rspec_u8 field : rspec (r_u8 field) (fun v p => 0 <= v < 2 ^ 8 /\ writes (w_u8 v) p).
Proof. apply (rspec_int field 1). Qed.
Lemma rspec_u16 field : rspec (r_u16 field) (fun v p => 0 <= v < 2 ^ 16 /\ writes (w_u16 v) p).
Proof. apply (rspec_int field 2). Qed.
Lemma rspec_u32 field : rspec (r_u32 field) (fun v p => 0 <= v < 2 ^ 32 /\ writes (w_u32 v) p).
Proof. apply (rspec_int field 4). Qed.
Lemma rspec_u64 field : rspec (r_u64 field) (fun v p => 0 <= v < 2 ^ 64 /\ writes (w_u64 v) p).
Proof. apply (rspec_int field 8). Qed.

(** A tag read as an integer and matched against the written constants. *)
Ltac by_tag tag := destruct tag as [|[[|[]|]|[|[]|]|]|]; try apply rspec_fail.

Lemma codes_bool field v : codes (w_bool v) (r_bool field) v 1.
Proof.
  unfold w_bool, r_bool. eapply codes_map; [apply codes_u8; destruct v; lia|]. by destruct v.
Qed.

Lemma rspec_bool field : rspec (r_bool field) (fun v p => writes (w_bool v) p).
Proof.
  eapply rspec_bind; [apply rspec_u8|]. intros tag p [_ Hp].
  by_tag tag; apply rspec_ret; by rewrite app_nil_r.
Qed.

(** *** Bytes and text *)

Lemma codes_take field o n : slen o = n -> codes (put_slice o) (r_take field n) o n.
Proof.
  intros Hn. exists o. split_and!; [lia|apply writes_put|]. intros rest. by apply r_take_app.
Qed.

Lemma codes_bytes field v bound :
  slen v <= bound -> bound < 2 ^ 32 -> codes (w_bytes field v bound) (r_bytes field bound) v (4 + bound).
Proof.
  intros Hv Hb. pose proof (slen_nonneg v). unfold w_bytes, r_bytes.
  destruct (Z.ltb_spec bound (slen v)); [lia|].
  eapply codes_bind; [apply codes_u32; lia|].
  destruct (Z.ltb_spec bound (slen v)); [lia|].
  eapply codes_le; [by apply codes_take|done].
Qed.

Lemma rspec_bytes field bound :
  rspec (r_bytes field bound) (fun v p => slen v <= bound /\ writes (w_bytes field v bound) p).
Proof.
  eapply rspec_bind; [apply rspec_u32|]. intros n p [Hn Hp].
  destruct (Z.ltb_spec bound n) as [|Hle]; [apply rspec_fail|].
  eapply rspec_weaken; [apply rspec_take; lia|]. intros v q [<- Hv].
  unfold w_bytes. rewrite Hv. destruct (Z.ltb_spec bound n); [lia|].
  split; [lia|]. apply writes_then; [done|apply writes_put].
Qed.

Lemma codes_text field v bound :
  utf8_valid v = true -> slen v <= bound -> bound < 2 ^ 32 ->
  codes (w_text field v bound) (r_text field bound) v (4 + bound).
Proof.
  intros Hu Hv Hb. eapply codes_map; [by apply codes_bytes|].
  intros s. unfold from_utf8. by rewrite Hu.
Qed.

Lemma rspec_text field bound :
  rspec (r_text field bound) (fun v p =>
    utf8_valid v = true /\ slen v <= bound /\ writes (w_text field v bound) p).
Proof.
  eapply rspec_bind; [apply rspec_bytes|]. intros v p [Hv Hp]. apply rspec_lift.
  intros a. unfold from_utf8. destruct (utf8_valid v) eqn:E; [|done]. intros [= <-].
  by rewrite app_nil_r.
Qed.

(** *** Options, addresses and lists *)

Lemma codes_option {A} field (v : option A) write read n :
  0 <= n -> (forall a, v = Some a -> codes (write a) read a n) ->
  codes (w_option v write) (r_option field read) v (1 + n).
Proof.
  intros Hn Hc. destruct v as [a|]; cbn [w_option]; unfold r_option.
  - eapply codes_bind; [apply codes_u8; lia|]. eapply codes_map; [by apply Hc|done].
  - eapply codes_le; [eapply codes_map; [apply codes_u8; lia|done]|lia].
Qed.

Lemma rspec_option {A} field write (read : reader A) (ok : A -> Prop) :
  rspec read (fun a p => ok a /\ writes (write a) p) ->
  rspec (r_option field read) (fun v p =>
    (forall a, v = Some a -> ok a) /\ writes (w_option v write) p).
Proof.
  intros Hr. eapply rspec_bind; [apply rspec_u8|]. intros tag p [_ Hp].
  by_tag tag.
  - apply rspec_ret. rewrite app_nil_r. by split.
  - eapply rspec_bind; [exact Hr|]. intros a q [Ha Hq]. apply rspec_ret. rewrite app_nil_r.
    split; [by intros ? [= <-]|]. by apply writes_then.
Qed.

Lemma codes_ip field a : ip_typed a -> codes (w_ip a) (r_ip field) a 17.
Proof.
  intros Ht. unfold r_ip. destruct a as [o|o]; cbn [w_ip ip_typed] in *.
  - apply (codes_le _ _ _ (1 + 4)); [|lia]. eapply codes_bind; [apply codes_u8; lia|].
    eapply codes_map; [apply codes_take; unfold slen; lia|done].
  - change 17 with (1 + 16). eapply codes_bind; [apply codes_u8; lia|].
    eapply codes_map; [apply codes_take; unfold slen; lia|done].
Qed.

Lemma rspec_ip field : rspec (r_ip field) (fun a p => ip_typed a /\ writes (w_ip a) p).
Proof.
  eapply rspec_bind; [apply rspec_u8|]. intros tag p [_ Hp].
  destruct tag as [|[[|[|[]|]|]|[[|[]|]|[|[]|]|]|]|]; try apply rspec_fail.
  all: eapply rspec_bind; [apply rspec_take; lia|]; intros o q [<- Ho]; apply rspec_ret;
    rewrite app_nil_r; split; [unfold slen in Ho; cbn; lia|]; by apply writes_then.
Qed.

Definition socket_typed (a : SocketAddr) : Prop :=
  ip_typed (socket_ip a) /\ 0 <= socket_port a < 2 ^ 16.

Lemma codes_socket field a : socket_typed a -> codes (w_socket a) (r_socket field) a 19.
Proof.
  intros [Hi Hp]. change 19 with (17 + 2). eapply codes_bind; [by apply codes_ip|].
  eapply codes_map; [by apply codes_u16|]. by destruct a.
Qed.

Lemma rspec_socket field :
  rspec (r_socket field) (fun a p => socket_typed a /\ writes (w_socket a) p).
Proof.
  eapply rspec_bind; [apply rspec_ip|]. intros ip p [Hi Hp].
  eapply rspec_bind; [apply rspec_u16|]. intros port q [Hq Hw].
  apply rspec_ret. rewrite app_nil_r. split; [done|]. by apply writes_then.
Qed.

Lemma codes_each {A} write (read : reader A) l n :
  Forall (fun a => codes (write a) read a n) l ->
  codes (w_each write l) (r_each (length l) read) l (slen l * n).
Proof.
  induction 1 as [|a l Ha HF IH]; cbn [w_each r_each length]; [apply codes_ret|].
  eapply codes_le; [eapply codes_bind; [exact Ha|]; eapply codes_map; [exact IH|done]|].
  unfold slen. cbn [length]. lia.
Qed.

Lemma rspec_each {A} write (read : reader A) (ok : A -> Prop) k :
  rspec read (fun a p => ok a /\ writes (write a) p) ->
  rspec (r_each k read) (fun l p => length l = k /\ Forall ok l /\ writes (w_each write l) p).
Proof.
  intros Hr. induction k as [|k IH]; cbn [r_each].
  { apply rspec_ret. split_and!; [done|constructor|apply writes_ok]. }
  eapply rspec_bind; [exact Hr|]. intros a p [Ha Hp].
  eapply rspec_bind; [exact IH|]. intros l q (<- & HF & Hq).
  apply rspec_ret. rewrite app_nil_r. split_and!; [done|by constructor|by apply writes_then].
Qed.

Lemma codes_list {A} field write (read : reader A) l bound n :
  slen l <= bound -> bound < 2 ^ 16 -> 0 <= n -> Forall (fun a => codes (write a) read a n) l ->
  codes (w_list field l bound write) (r_list field bound read) l (2 + bound * n).
Proof.
  intros Hl Hb Hn HF. pose proof (slen_nonneg l). unfold w_list, r_list.
  destruct (Z.ltb_spec bound (slen l)); [lia|].
  eapply codes_le; [eapply codes_bind; [apply codes_u16; lia|]|].
  - destruct (Z.ltb_spec bound (slen l)); [lia|]. unfold slen. rewrite Nat2Z.id. by apply codes_each.
  - nia.
Qed.

Lemma rspec_list {A} field bound write (read : reader A) (ok : A -> Prop) :
  rspec read (fun a p => ok a /\ writes (write a) p) ->
  rspec (r_list field bound read) (fun l p =>
    slen l <= bound /\ Forall ok l /\ writes (w_list field l bound write) p).
Proof.
  intros Hr. eapply rspec_bind; [apply rspec_u16|]. intros n p [Hn Hp].
  destruct (Z.ltb_spec bound n) as [|Hle]; [apply rspec_fail|].
  eapply rspec_weaken; [by apply rspec_each|]. intros l q (Hl & HF & Hq).
  assert (slen l = n) as Hs by (unfold slen; lia). unfold w_list. rewrite Hs.
  destruct (Z.ltb_spec bound n); [lia|]. split_and!; [lia|done|by apply writes_then].
Qed.

(** ** Writers only append *)

Definition grows (w : writer) : Prop := forall buf, exists p, fst (w buf) = buf ++ p.

Lemma grows_put s : grows (put_slice s).
Proof. intros buf. by exists s. Qed.

Lemma grows_ok : grows wok.
Proof. intros buf. exists []. by rewrite app_nil_r. Qed.

Lemma grows_then w1 w2 : grows w1 -> grows w2 -> grows (w1 >>> w2).
Proof.
  intros H1 H2 buf. destruct (H1 buf) as [p Hp]. unfold wthen.
  destruct (w1 buf) as [b [|]]; cbn [fst] in *; subst b; [|by exists p].
  destruct (H2 (buf ++ p)) as [q Hq]. exists (p ++ q). by rewrite Hq, app_assoc.
Qed.

Lemma grows_bytes field v bound : grows (w_bytes field v bound).
Proof.
  unfold w_bytes. destruct (_ <? _); [|apply grows_then; apply grows_put].
  intros buf. exists []. by rewrite app_nil_r.
Qed.

Lemma grows_option {A} (v : option A) write :
  (forall a, grows (write a)) -> grows (w_option v write).
Proof. intros H. destruct v; [apply grows_then; [apply grows_put|done]|apply grows_put]. Qed.

Lemma grows_list {A} field (l : list A) bound write :
  (forall a, grows (write a)) -> grows (w_list field l bound write).
Proof.
  intros H. unfold w_list. destruct (_ <? _).
  - intros buf. exists []. by rewrite app_nil_r.
  - apply grows_then; [apply grows_put|]. induction l; [apply grows_ok|by apply grows_then].
Qed.

Lemma grows_ip a : grows (w_ip a).
Proof. destruct a; apply grows_then; apply grows_put. Qed.

#[export] Hint Resolve grows_put grows_ok grows_then grows_bytes grows_option grows_list grows_ip
  : irc.
#[export] Hint Resolve codes_u8 codes_u16 codes_u32 codes_u64 codes_bool codes_ip codes_socket : irc.
