(* ===== verification/Link.v ===== *)
(** * The core link's framing ([e6irc-link/src/lib.rs])

    Version negotiation, the identifiers a link carries, and the frame codec
    [u32 length | u8 kind | u64 session | payload], generic in the direction's
    frame type.  [Codec] is the trait of the source; [CodecLaws] is what a
    direction promises of its payloads, against which the codec's theorems are
    proved; [Frames] discharges it for both directions. *)

From S2P Require Import Prelude Str Message Wire.

Local Open Scope Z_scope.

(** ** Constants *)

Definition LINK_VERSION : Z := 1.
Definition OLDEST_SPOKEN : Z := 1.
Definition MAX_FRAME_LEN : Z := 2 ^ 20.
Definition KIND_AND_SESSION_LEN : Z := 1 + 8.
Definition LINK_MAX_LINE_LEN : Z := Z.of_nat MAX_CLIENT_FRAME_LEN.
Definition MAX_LABEL_LEN : Z := Z.of_nat MAX_CLIENT_TAGS_LEN.
Definition MAX_UI_MESSAGE_LEN : Z := Z.of_nat MAX_CLIENT_FRAME_LEN * 6 + 512.
Definition MAX_OUTPUT_LEN : Z := MAX_FRAME_LEN - KIND_AND_SESSION_LEN - 4.
Definition MAX_SLOT : Z := 2 ^ 14 - 1.
Definition SLOT_SHIFT : Z := 48.
Definition MAX_STREAMS : Z := 256.
Definition MAX_EDGE_NAME_LEN : Z := 63.

(** ** Versions *)

Record VersionRange : Type := MkRange { oldest : Z; newest : Z }.

Definition VersionRange_new (o n : Z) : option VersionRange :=
  if n <? o then None else Some (MkRange o n).
Definition spoken : VersionRange := MkRange OLDEST_SPOKEN LINK_VERSION.
Definition range_contains (r : VersionRange) (version : Z) : bool :=
  (oldest r <=? version) && (version <=? newest r).

Record VersionRefused : Type := MkRefused { offered : VersionRange }.

(** [lo..=hi] in order. *)
Definition inclusive (lo hi : Z) : list Z := seqZ lo (hi + 1 - lo).

(** [(OLDEST_SPOKEN..=LINK_VERSION).rev().find(..)], with the range a
    parameter: the constants are the release's. *)
Definition negotiate_with (lo hi : Z) (r : VersionRange) : result VersionRefused Z :=
  ok_or (MkRefused r) (List.find (range_contains r) (reverse (inclusive lo hi))).
Definition negotiate (r : VersionRange) : result VersionRefused Z :=
  negotiate_with OLDEST_SPOKEN LINK_VERSION r.

(** Which side the refusal tells to upgrade. *)
Inductive Upgrade : Type := UpgradeEdge | UpgradeCore.
Definition refusal_upgrade (r : VersionRefused) : Upgrade :=
  if newest (offered r) <? OLDEST_SPOKEN then UpgradeEdge else UpgradeCore.

Definition edge_upgrade_needed (edge_newest : Z) : bool := edge_newest <? LINK_VERSION.

(** ** Identifiers *)

(** [SessionId] wraps a [NonZeroU64]. *)
Definition SessionId_new (id : Z) : option Z := if id =? 0 then None else Some id.
Definition session_from_wire (session : Z) : result DecodeError Z :=
  ok_or MissingSession (SessionId_new session).

Definition EdgeName_valid (name : str) : bool :=
  negb (is_empty name)
  && (slen name <=? MAX_EDGE_NAME_LEN)
  && negb (starts_with "-" name)
  && negb (ends_with "-" name)
  && forallb (fun b => is_ascii_lowercase b || is_ascii_digit b || (b =b? "-")) name.
Definition EdgeName_new (name : str) : result str str :=
  if EdgeName_valid name then Ok name else Err name.

Definition Slot_new (slot : Z) : option Z :=
  if (slot =? 0) || (MAX_SLOT <? slot) then None else Some slot.
Definition first_id (slot : Z) : Z := Z.shiftl slot SLOT_SHIFT.

Definition link_frame (kind session : Z) : result DecodeError () :=
  if negb (session =? 0) then Err (UnexpectedSession kind) else Ok ().

(** ** The codec *)

Class Codec (F : Type) : Type := {
  header : F -> Z * Z;
  write_payload : F -> writer;
  read_payload : Z -> Z -> reader F;
}.

(** Append [frame] to [out]; the length word is patched in last. *)
Definition encode {F} `{Codec F} (frame : F) (out : str) : str * result EncodeError () :=
  let start := length out in
  let '(kind, session) := header frame in
  let out := out ++ be 4 0 ++ be 1 kind ++ be 8 session in
  match write_payload frame out with
  | (out, Err error) => (take start out, Err error)
  | (out, Ok _) =>
      let length := slen out - Z.of_nat start - 4 in
      if MAX_FRAME_LEN <? length then
        (take start out, Err (EncodeOverBound (bs "frame") length MAX_FRAME_LEN))
      else (take start out ++ be 4 length ++ drop (start + 4) out, Ok ())
  end.

(** Take the first whole frame off [buffer]; the buffer that is left. *)
Definition decode {F} `{Codec F} (buffer : str) : str * result DecodeError (option F) :=
  if slen buffer <? 4 then (buffer, Ok None)
  else
    let length := be_value (take 4 buffer) in
    if length <? KIND_AND_SESSION_LEN then (buffer, Err (ShortFrame length))
    else if MAX_FRAME_LEN <? length then (buffer, Err (LongFrame length))
    else if slen buffer <? 4 + length then (buffer, Ok None)
    else
      let buffer := drop 4 buffer in
      let frame := take (Z.to_nat length) buffer in
      let buffer := drop (Z.to_nat length) buffer in
      let kind := be_value (take 1 frame) in
      let session := be_value (take 8 (drop 1 frame)) in
      (buffer,
       match read_payload kind session (drop 9 frame) with
       | Err e => Err e
       | Ok (decoded, rest) =>
           match finish rest with
           | Err e => Err e
           | Ok _ => Ok (Some decoded)
           end
       end).

Definition encoded {F} `{Codec F} (frame : F) : str * result EncodeError () := encode frame [].

(** What a direction promises of its frames: the valid ones, of bounded size,
    are read back from what is written; what is read is valid and is written
    back as the bytes it was read from. *)
Class CodecLaws (F : Type) `{Codec F} : Type := {
  valid : F -> Prop;
  header_range f : valid f -> 0 <= fst (header f) < 2 ^ 8 /\ 0 <= snd (header f) < 2 ^ 64;
  payload_codes f : valid f ->
    codes (write_payload f) (read_payload (fst (header f)) (snd (header f))) f
      (MAX_FRAME_LEN - KIND_AND_SESSION_LEN);
  payload_canonical kind session : 0 <= kind < 2 ^ 8 -> 0 <= session < 2 ^ 64 ->
    rspec (read_payload kind session) (fun f p =>
      valid f /\ header f = (kind, session) /\ writes (write_payload f) p);
  payload_grows f buf : exists p, fst (write_payload f buf) = buf ++ p;
}.

(** ** Generic theorems *)

Section Laws.
Context {F : Type} `{CodecLaws F}.

(** The bytes of a frame with payload [p]. *)
Definition frame_bytes (f : F) (p : str) : str :=
  be 4 (9 + slen p) ++ be 1 (fst (header f)) ++ be 8 (snd (header f)) ++ p.

Lemma encode_writes f p out :
  writes (write_payload f) p -> slen p <= MAX_FRAME_LEN - KIND_AND_SESSION_LEN ->
  encode f out = (out ++ frame_bytes f p, Ok ()).
Proof.
  intros Hw Hl. unfold encode, frame_bytes. destruct (header f) as [kind session]. cbn [fst snd].
  rewrite Hw. rewrite <- !app_assoc, !slen_app.
  change (slen (be 4 0)) with 4. change (slen (be 1 kind)) with 1.
  change (slen (be 8 session)) with 8. change (slen out) with (Z.of_nat (length out)).
  replace (Z.of_nat (length out) + (4 + (1 + (8 + slen p))) - Z.of_nat (length out) - 4)
    with (9 + slen p) by lia.
  destruct (Z.ltb_spec MAX_FRAME_LEN (9 + slen p)); [unfold KIND_AND_SESSION_LEN in *; lia|].
  by rewrite take_app_length, drop_app_add, drop_app_length'.
Qed.

(** Decoding a buffer that starts with a frame's bytes. *)
Lemma decode_frame_bytes f p rest :
  valid f -> slen p <= MAX_FRAME_LEN - KIND_AND_SESSION_LEN ->
  decode (frame_bytes f p ++ rest) =
  (rest, match read_payload (fst (header f)) (snd (header f)) p with
         | Err e => Err e
         | Ok (g, tail) => match finish tail with Err e => Err e | Ok _ => Ok (Some g) end
         end).
Proof.
  intros Hv Hl. pose proof (slen_nonneg p). pose proof (slen_nonneg rest).
  destruct (header_range f Hv) as [Hk Hs]. unfold decode, frame_bytes.
  unfold KIND_AND_SESSION_LEN, MAX_FRAME_LEN in *. rewrite <- !app_assoc.
  rewrite take_app_length', drop_app_length' by done. rewrite be_value_be by (cbn; lia).
  rewrite !slen_app. change (slen (be 4 _)) with 4. change (slen (be 1 _)) with 1.
  change (slen (be 8 _)) with 8.
  rewrite !(proj2 (Z.ltb_ge _ _)) by lia.
  rewrite !(app_assoc (be 1 _)), (app_assoc _ p rest).
  set (body := (be 1 (fst (header f)) ++ be 8 (snd (header f))) ++ p).
  assert (Z.to_nat (9 + slen p) = length body) as ->.
  { unfold body, slen. rewrite !length_app, !be_length. lia. }
  rewrite take_app_length, drop_app_length. unfold body. rewrite <- app_assoc.
  rewrite take_app_length', (drop_app_length' (be 1 _)) by done.
  rewrite take_app_length' by done. rewrite !be_value_be by (cbn; lia).
  change (drop 9 ?x) with (drop 8 (drop 1 x)).
  by rewrite (drop_app_length' (be 1 _)), drop_app_length' by done.
Qed.

(** A buffer that holds less than a whole frame is left alone. *)
Lemma decode_prefix f p q :
  valid f -> slen p <= MAX_FRAME_LEN - KIND_AND_SESSION_LEN ->
  q `prefix_of` frame_bytes f p -> q <> frame_bytes f p -> decode (F:=F) q = (q, Ok None).
Proof.
  intros Hv Hl [t Ht] Hne. unfold decode.
  destruct (Z.ltb_spec (slen q) 4) as [|H4]; [done|].
  assert (t <> []) as Ht0 by (intros ->; apply Hne; by rewrite Ht, app_nil_r).
  assert (slen q + slen t = 13 + slen p) as Hlen.
  { rewrite <- slen_app, <- Ht. unfold frame_bytes. rewrite !slen_app.
    change (slen (be 4 _)) with 4. change (slen (be 1 _)) with 1. change (slen (be 8 _)) with 8. lia. }
  assert (be_value (take 4 q) = 9 + slen p) as ->.
  { assert (take 4 (frame_bytes f p) = take 4 q) as <-.
    { rewrite Ht. rewrite take_app_le; [done|]. unfold slen in H4. lia. }
    unfold frame_bytes. rewrite take_app_length' by done. apply be_value_be.
    pose proof (slen_nonneg p). unfold MAX_FRAME_LEN, KIND_AND_SESSION_LEN in *. lia. }
  unfold KIND_AND_SESSION_LEN, MAX_FRAME_LEN in *. pose proof (slen_nonneg p).
  assert (0 < slen t) by (destruct t; [done|unfold slen; cbn [length]; lia]).
  rewrite (proj2 (Z.ltb_ge (9 + slen p) _)), (proj2 (Z.ltb_ge _ (9 + slen p))) by lia.
  by rewrite (proj2 (Z.ltb_lt _ _)) by lia.
Qed.

(** The round trip, whatever precedes the frame in the writer's buffer and
    follows it in the reader's. *)
Lemma frame_roundtrip_lemma f out :
  valid f -> exists bytes,
    encode f out = (out ++ bytes, Ok ())
    /\ (forall rest, decode (bytes ++ rest) = (rest, Ok (Some f)))
    /\ (forall q, q `prefix_of` bytes -> q <> bytes -> decode (F:=F) q = (q, Ok None)).
Proof.
  intros Hv. destruct (payload_codes f Hv) as (p & Hl & Hw & Hr). exists (frame_bytes f p).
  split_and!.
  - by apply encode_writes.
  - intros rest. rewrite decode_frame_bytes by done.
    specialize (Hr []). rewrite app_nil_r in Hr. by rewrite Hr.
  - intros q. by apply decode_prefix.
Qed.

(** What decodes is what the encoder writes, byte for byte. *)
Lemma frame_canonical_lemma buffer rest f out :
  decode buffer = (rest, Ok (Some f)) ->
  valid f /\ exists bytes, buffer = bytes ++ rest /\ encode f out = (out ++ bytes, Ok ()).
Proof.
  unfold decode. destruct (Z.ltb_spec (slen buffer) 4) as [|H4]; [done|].
  set (n := be_value (take 4 buffer)).
  destruct (Z.ltb_spec n KIND_AND_SESSION_LEN) as [|Hlo]; [done|].
  destruct (Z.ltb_spec MAX_FRAME_LEN n) as [|Hhi]; [done|].
  destruct (Z.ltb_spec (slen buffer) (4 + n)) as [|Hn]; [done|].
  unfold KIND_AND_SESSION_LEN in *. intros [= <- Hd].
  set (frame := take (Z.to_nat n) (drop 4 buffer)) in *.
  assert (slen frame = n) as Hfl.
  { unfold frame, slen in *. rewrite length_take, length_drop. lia. }
  pose proof (be_value_range (take 1 frame)) as Hk.
  pose proof (be_value_range (take 8 (drop 1 frame))) as Hs.
  assert (length (take 1 frame) = 1%nat /\ length (take 8 (drop 1 frame)) = 8%nat) as [Hk1 Hs8].
  { unfold slen in Hfl. rewrite !length_take, length_drop. lia. }
  unfold slen in Hk, Hs. rewrite Hk1 in Hk. rewrite Hs8 in Hs.
  destruct (read_payload _ _ (drop 9 frame)) as [[g tail]|] eqn:E; [|done].
  destruct tail; [|done]. cbn in Hd. injection Hd as ->.
  destruct (payload_canonical _ _ Hk Hs _ _ _ E) as (p & Hp & Hv & Hh & Hw).
  rewrite app_nil_r in Hp. split; [done|]. exists (frame_bytes f p).
  assert (slen p = n - 9) as Hpl.
  { rewrite <- Hp. unfold slen in *. rewrite length_drop. lia. }
  split; [|by apply encode_writes; [|unfold KIND_AND_SESSION_LEN; lia]].
  unfold frame_bytes. rewrite Hh, Hpl. cbn [fst snd]. replace (9 + (n - 9)) with n by lia.
  assert (length (take 4 buffer) = 4%nat) as H4l by (unfold slen in *; rewrite length_take; lia).
  unfold n at 1. rewrite (be_be_value' _ _ H4l), (be_be_value' _ _ Hk1), (be_be_value' _ _ Hs8).
  rewrite <- Hp. replace (drop 9 frame) with (drop 8 (drop 1 frame)) by (by rewrite drop_drop).
  rewrite take_drop, take_drop. unfold frame. by rewrite <- app_assoc, take_drop, take_drop.
Qed.

(** A refused frame leaves the buffer as it was. *)
Lemma encode_error_lemma f out out' e : encode f out = (out', Err e) -> out' = out.
Proof.
  unfold encode. destruct (header f) as [kind session].
  destruct (payload_grows f (out ++ be 4 0 ++ be 1 kind ++ be 8 session)) as [p Hp].
  destruct (write_payload _ _) as [buf [[]|err]]; cbn [fst] in Hp; subst buf.
  - destruct (_ <? _); [|done]. intros [= <- _]. by rewrite <- app_assoc, take_app_length.
  - intros [= <- _]. by rewrite <- app_assoc, take_app_length.
Qed.
End Laws.

(** ** Versions and slots *)

Lemma inclusive_snoc lo n :
  0 <= n -> inclusive lo (lo + n) = inclusive lo (lo + n - 1) ++ [lo + n].
Proof.
  intros Hn. unfold inclusive.
  replace (lo + n + 1 - lo) with (n + 1) by lia. replace (lo + n - 1 + 1 - lo) with n by lia.
  rewrite seqZ_app by lia. done.
Qed.

Lemma find_newest lo n r :
  let found := List.find (range_contains r) (reverse (inclusive lo (lo + Z.of_nat n - 1))) in
  match found with
  | Some v => lo <= v < lo + Z.of_nat n /\ range_contains r v = true
      /\ (forall v', lo <= v' < lo + Z.of_nat n -> range_contains r v' = true -> v' <= v)
  | None => forall v, lo <= v < lo + Z.of_nat n -> range_contains r v = false
  end.
Proof.
  induction n as [|n IH].
  { cbn zeta. replace (inclusive lo (lo + Z.of_nat 0 - 1)) with (@nil Z).
    - cbn. lia.
    - unfold inclusive. replace (lo + Z.of_nat 0 - 1 + 1 - lo) with 0 by lia. done. }
  cbn zeta in *. replace (lo + Z.of_nat (S n) - 1) with (lo + Z.of_nat n) by lia.
  rewrite inclusive_snoc, reverse_snoc by lia. cbn [List.find].
  destruct (range_contains r (lo + Z.of_nat n)) eqn:E; [split_and!; [lia|lia|done|lia]|].
  assert (forall v, lo <= v < lo + Z.of_nat (S n) -> range_contains r v = true ->
    v < lo + Z.of_nat n) as Hlt.
  { intros v Hv Hc. destruct (decide (v = lo + Z.of_nat n)) as [->|]; [congruence|lia]. }
  destruct (List.find _ _) as [v|].
  - destruct IH as (? & ? & Hmax). split_and!; [lia|lia|done|].
    intros v' Hv' Hc. apply Hmax; [|done]. specialize (Hlt v' Hv' Hc). lia.
  - intros v Hv. destruct (range_contains r v) eqn:Ev; [|done].
    rewrite IH in Ev; [done|]. specialize (Hlt v Hv Ev). lia.
Qed.

(** Negotiation picks the newest common version: for every range of
    versions a core speaks, an edge's offer is accepted with version [v]
    exactly when both speak [v] and nothing newer, and refused, returning the
    offer, exactly when no version is common; [negotiate] is the instance of
    this release. *)
Theorem negotiate_newest lo hi r :
  (forall v, negotiate_with lo hi r = Ok v <->
    lo <= v <= hi /\ oldest r <= v <= newest r
    /\ forall v', lo <= v' <= hi -> oldest r <= v' <= newest r -> v' <= v)
  /\ (negotiate_with lo hi r = Err (MkRefused r) <->
      forall v, lo <= v <= hi -> ~ (oldest r <= v <= newest r))
  /\ negotiate r = negotiate_with OLDEST_SPOKEN LINK_VERSION r.
Proof.
  assert (forall v, range_contains r v = true <-> oldest r <= v <= newest r) as Hc.
  { intros v. unfold range_contains. by rewrite andb_true_iff, !Z.leb_le. }
  pose proof (find_newest lo (Z.to_nat (hi + 1 - lo)) r) as Hf. cbn zeta in Hf.
  assert (inclusive lo (lo + Z.of_nat (Z.to_nat (hi + 1 - lo)) - 1) = inclusive lo hi) as E.
  { unfold inclusive. destruct (decide (lo <= hi + 1)); [f_equal; lia|].
    rewrite !seqZ_nil by lia. done. }
  rewrite E in Hf. unfold negotiate_with. split_and!; [..|done].
  - intros v. destruct (List.find _ _) as [w|]; cbn [ok_or].
    + destruct Hf as (Hw & Hcw & Hmax). rewrite Hc in Hcw. setoid_rewrite Hc in Hmax.
      split; [intros [= <-]; split_and!; try lia; intros; apply Hmax; lia|].
      intros (Hv & Hcv & Hm). f_equal.
      specialize (Hm w ltac:(lia) Hcw). specialize (Hmax v ltac:(lia) Hcv). lia.
    + split; [done|]. intros (Hv & Hcv%Hc & _). rewrite Hf in Hcv by lia. done.
  - destruct (List.find _ _) as [w|]; cbn [ok_or].
    + destruct Hf as (Hw & Hcw%Hc & _). split; [done|]. intros Hn. destruct (Hn w); lia.
    + split; [|done]. intros _ v Hv Hcv%Hc. rewrite Hf in Hcv by lia. done.
Qed.

Lemma Slot_new_Some s t : Slot_new s = Some t <-> t = s /\ s <> 0 /\ s <= MAX_SLOT.
Proof.
  unfold Slot_new. destruct (Z.eqb_spec s 0), (Z.ltb_spec MAX_SLOT s); cbn; naive_solver lia.
Qed.

Lemma first_id_mul s : first_id s = s * 2 ^ 48.
Proof. apply Z.shiftl_mul_pow2. unfold SLOT_SHIFT. lia. Qed.

(** Connection identifiers are unambiguous: an identifier formed from a
    slot the link admits and a 48-bit counter is a valid session identifier
    that keeps its top two bits clear, its bits are the slot's and the
    counter's, and it determines both. *)
Theorem slot_ids_distinct s1 s2 c1 c2 :
  0 <= s1 -> 0 <= s2 -> Slot_new s1 = Some s1 -> Slot_new s2 = Some s2 ->
  0 <= c1 < 2 ^ 48 -> 0 <= c2 < 2 ^ 48 ->
  Z.lor (first_id s1) c1 = first_id s1 + c1
  /\ 0 < first_id s1 + c1 < 2 ^ 62
  /\ SessionId_new (first_id s1 + c1) = Some (first_id s1 + c1)
  /\ (first_id s1 + c1 = first_id s2 + c2 -> s1 = s2 /\ c1 = c2).
Proof.
  intros H1 H2 (_ & Hz1 & Hm1)%Slot_new_Some (_ & Hz2 & Hm2)%Slot_new_Some Hc1 Hc2.
  assert (Z.lor (first_id s1) c1 = first_id s1 + c1) as Hlor.
  { rewrite first_id_mul at 2. by apply lor_shiftl_add. }
  rewrite Hlor. rewrite !first_id_mul. unfold MAX_SLOT in *.
  assert (0 < s1 * 2 ^ 48 + c1 < 2 ^ 62) as Hr by lia. split_and!; [done|lia|lia| |lia].
  unfold SessionId_new. by destruct (Z.eqb_spec (s1 * 2 ^ 48 + c1) 0); [lia|].
Qed.

Lemma slot_ids_distinct_witness :
  Z.lor (first_id MAX_SLOT) 7 = first_id MAX_SLOT + 7
  /\ 0 < first_id MAX_SLOT + 7 < 2 ^ 62
  /\ SessionId_new (first_id MAX_SLOT + 7) = Some (first_id MAX_SLOT + 7)
  /\ (first_id MAX_SLOT + 7 = first_id 3 + 9 -> MAX_SLOT = 3 /\ 7 = 9).
Proof.
  apply (slot_ids_distinct MAX_SLOT 3 7 9); (reflexivity || (unfold MAX_SLOT; lia)).
Defined.
