(* ===== verification/Frames.v ===== *)
(** * The frames of the core link ([core_frames.rs], [edge_frames.rs])

    Both directions' frame types, their payload writers and readers, the
    validity the readers enforce, and the laws of [CodecLaws] for each: the
    interface of [Link] is discharged here, and the round-trip, canonicity and
    error theorems of the codec follow for the two concrete directions. *)

From S2P Require Import Prelude Str Message Wire Link.

Local Open Scope Z_scope.

(** The ranges of the machine integers. *)
Definition is_u8 (v : Z) : Prop := 0 <= v < 2 ^ 8.
Definition is_u16 (v : Z) : Prop := 0 <= v < 2 ^ 16.
Definition is_u32 (v : Z) : Prop := 0 <= v < 2 ^ 32.
Definition is_u64 (v : Z) : Prop := 0 <= v < 2 ^ 64.

Definition session_ok (id : Z) : Prop := is_u64 id /\ id <> 0.
Definition slot_ok (slot : Z) : Prop := 0 < slot <= MAX_SLOT.

(** ** Core to edge *)

Definition WELCOME : Z := 65.
Definition REFUSED : Z := 66.
Definition OUTPUT : Z := 67.
Definition KILL : Z := 68.
Definition END : Z := 69.
Definition FLOOD_EXEMPT : Z := 70.
Definition STREAM_CREDIT : Z := 71.
Definition SESSION_CREDIT : Z := 72.

Definition MAX_TRUSTED_PROXIES : Z := 1024.
Definition MAX_REFUSAL_LEN : Z := 2048.
Definition MAX_CLOSE_REASON_LEN : Z := 123.

Record CommandFloodTerms : Type := MkFlood { burst : Z; rate : Z }.

Record EdgeTerms : Type := MkTerms {
  trusted_proxies : list (IpAddr * Z);
  max_connections_per_ip : option Z;
  sendq_bytes : Z;
  command_flood : option CommandFloodTerms;
  line_credit : Z;
}.

Record Welcome : Type := MkWelcome {
  welcome_version : Z;
  welcome_epoch : Z;
  welcome_slot : Z;
  welcome_streams : Z;
  welcome_terms : EdgeTerms;
}.

Record CloseFrame : Type := MkClose { close_code : Z; close_reason : str }.

Inductive Credit : Type :=
| CreditStream (amount : Z)
| CreditSession (session amount : Z).

Inductive CoreFrame : Type :=
| CWelcome (w : Welcome)
| CRefused (text : str)
| COutput (session : Z) (line : str)
| CKill (session : Z) (line : str)
| CEnd (session : Z) (close : option CloseFrame)
| CFloodExempt (session : Z) (exempt : bool)
| CCredit (credit : Credit).

Definition core_header (f : CoreFrame) : Z * Z :=
  match f with
  | CWelcome _ => (WELCOME, 0)
  | CRefused _ => (REFUSED, 0)
  | COutput session _ => (OUTPUT, session)
  | CKill session _ => (KILL, session)
  | CEnd session _ => (END, session)
  | CFloodExempt session _ => (FLOOD_EXEMPT, session)
  | CCredit (CreditStream _) => (STREAM_CREDIT, 0)
  | CCredit (CreditSession session _) => (SESSION_CREDIT, session)
  end.

Definition w_proxy (e : IpAddr * Z) : writer := w_ip (fst e) >>> w_u8 (snd e).
Definition w_flood (f : CommandFloodTerms) : writer := w_u32 (burst f) >>> w_u32 (rate f).
Definition w_close (c : CloseFrame) : writer :=
  w_u16 (close_code c) >>> w_text (bs "close reason") (close_reason c) MAX_CLOSE_REASON_LEN.

Definition core_write (f : CoreFrame) : writer :=
  match f with
  | CWelcome w =>
      let terms := welcome_terms w in
      w_u16 (welcome_version w)
      >>> w_u64 (welcome_epoch w)
      >>> w_u16 (welcome_slot w)
      >>> w_u16 (welcome_streams w)
      >>> w_list (bs "trusted proxies") (trusted_proxies terms) MAX_TRUSTED_PROXIES w_proxy
      >>> w_option (max_connections_per_ip terms) w_u32
      >>> w_u32 (sendq_bytes terms)
      >>> w_option (command_flood terms) w_flood
      >>> w_u32 (line_credit terms)
  | CRefused text => w_text (bs "refusal") text MAX_REFUSAL_LEN
  | COutput _ line => w_bytes (bs "output") line MAX_OUTPUT_LEN
  | CKill _ line => w_bytes (bs "final line") line MAX_OUTPUT_LEN
  | CEnd _ close => w_option close w_close
  | CFloodExempt _ exempt => w_bool exempt
  | CCredit (CreditStream amount) | CCredit (CreditSession _ amount) => w_u32 amount
  end.

Definition r_proxy : reader (IpAddr * Z) :=
  network ← r_ip (bs "trusted proxy");
  prefix ← r_u8 (bs "trusted proxy prefix");
  let widest := if is_ipv4 network then 32 else 128 in
  if widest <? prefix then rfail (Invalid (bs "trusted proxy prefix"))
  else mret (network, prefix).

Definition r_flood : reader CommandFloodTerms :=
  b ← r_u32 (bs "flood burst"); r ← r_u32 (bs "flood rate"); mret (MkFlood b r).

Definition r_close : reader CloseFrame :=
  code ← r_u16 (bs "close code");
  reason ← r_text (bs "close reason") MAX_CLOSE_REASON_LEN;
  mret (MkClose code reason).

Definition r_welcome : reader Welcome :=
  version ← r_u16 (bs "version");
  epoch ← r_u64 (bs "epoch");
  slot ← r_u16 (bs "slot");
  slot ← rlift (ok_or (Invalid (bs "slot")) (Slot_new slot));
  streams ← r_u16 (bs "streams");
  if (streams =? 0) || (MAX_STREAMS <? streams) then rfail (Invalid (bs "streams"))
  else
    proxies ← r_list (bs "trusted proxies") MAX_TRUSTED_PROXIES r_proxy;
    limit ← r_option (bs "connection limit") (r_u32 (bs "connection limit"));
    sendq ← r_u32 (bs "send-queue bytes");
    flood ← r_option (bs "command flood") r_flood;
    credit ← r_u32 (bs "line credit");
    mret (MkWelcome version epoch slot streams (MkTerms proxies limit sendq flood credit)).

Definition core_read (kind session : Z) : reader CoreFrame :=
  if kind =? WELCOME then
    _ ← rlift (link_frame kind session); w ← r_welcome; mret (CWelcome w)
  else if kind =? REFUSED then
    _ ← rlift (link_frame kind session);
    text ← r_text (bs "refusal") MAX_REFUSAL_LEN; mret (CRefused text)
  else if kind =? OUTPUT then
    id ← rlift (session_from_wire session);
    line ← r_bytes (bs "output") MAX_OUTPUT_LEN; mret (COutput id line)
  else if kind =? KILL then
    id ← rlift (session_from_wire session);
    line ← r_bytes (bs "final line") MAX_OUTPUT_LEN; mret (CKill id line)
  else if kind =? END then
    id ← rlift (session_from_wire session);
    close ← r_option (bs "close frame") r_close; mret (CEnd id close)
  else if kind =? FLOOD_EXEMPT then
    id ← rlift (session_from_wire session);
    exempt ← r_bool (bs "flood exemption"); mret (CFloodExempt id exempt)
  else if kind =? STREAM_CREDIT then
    _ ← rlift (link_frame kind session);
    amount ← r_u32 (bs "credit"); mret (CCredit (CreditStream amount))
  else if kind =? SESSION_CREDIT then
    id ← rlift (session_from_wire session);
    amount ← r_u32 (bs "credit"); mret (CCredit (CreditSession id amount))
  else rfail (UnknownKind kind).

#[global] Instance CoreFrame_codec : Codec CoreFrame :=
  {| header := core_header; write_payload := core_write; read_payload := core_read |}.

(** ** Edge to core *)

Definition HELLO : Z := 1.
Definition OPEN : Z := 2.
Definition LINE : Z := 3.
Definition OVERLONG_LINE : Z := 4.
Definition MESSAGE : Z := 5.
Definition CLOSED : Z := 6.
Definition DRAINED : Z := 7.

Definition MAX_LISTENERS : Z := 64.
Definition MAX_CERTIFICATE_PATH_LEN : Z := 4096.
Definition MAX_CLOSED_TEXT_LEN : Z := 512.

Inductive Role : Type := Serving | Observer.
Inductive Stream : Type := Sessions (index : Z) | HttpStream.
Inductive ListenerKind : Type := LIrc | LWebSocketIrc | LHttp | LAttach.
Inductive SessionKind : Type := SIrc | SAttach | SUi.
Inductive Transport : Type := Tcp | Tls | WebSocket | SecureWebSocket.
Inductive UiMessage : Type := UiText (text : str) | UiBinary.
Inductive WriteFailure : Type := WTransport | WStalled.
Inductive ClosedReason : Type :=
| ByClient
| ReadFailed (text : str)
| MessageTooBig
| WriteFailed (failure : WriteFailure)
| WriterPanicked
| Stopped (text : str).

Record ListenerReport : Type := MkListener {
  listener_kind : ListenerKind;
  listener_addr : SocketAddr;
  listener_certificate : option str;
  listener_proxy_protocol : bool;
}.

Record Hello : Type := MkHello {
  hello_versions : VersionRange;
  hello_role : Role;
  hello_edge : str;
  hello_stream : Stream;
  hello_slot : option Z;
  hello_highest_epoch : Z;
  hello_listeners : list ListenerReport;
}.

Record Open : Type := MkOpen {
  open_kind : SessionKind;
  open_address : IpAddr;
  open_transport : Transport;
}.

Inductive EdgeFrame : Type :=
| EHello (h : Hello)
| EOpen (session : Z) (o : Open)
| ELine (session : Z) (line : str)
| EOverlongLine (session : Z) (label : option str)
| EMessage (session : Z) (message : UiMessage)
| EClosed (session : Z) (reason : ClosedReason)
| EDrained (session : Z) (bytes : Z).

Definition edge_header (f : EdgeFrame) : Z * Z :=
  match f with
  | EHello _ => (HELLO, 0)
  | EOpen session _ => (OPEN, session)
  | ELine session _ => (LINE, session)
  | EOverlongLine session _ => (OVERLONG_LINE, session)
  | EMessage session _ => (MESSAGE, session)
  | EClosed session _ => (CLOSED, session)
  | EDrained session _ => (DRAINED, session)
  end.

Definition role_tag (r : Role) : Z := match r with Serving => 0 | Observer => 1 end.
Definition listener_tag (k : ListenerKind) : Z :=
  match k with LIrc => 0 | LWebSocketIrc => 1 | LHttp => 2 | LAttach => 3 end.
Definition session_tag (k : SessionKind) : Z := match k with SIrc => 0 | SAttach => 1 | SUi => 2 end.
Definition transport_tag (t : Transport) : Z :=
  match t with Tcp => 0 | Tls => 1 | WebSocket => 2 | SecureWebSocket => 3 end.
Definition failure_tag (f : WriteFailure) : Z := match f with WTransport => 0 | WStalled => 1 end.

Definition w_stream (s : Stream) : writer :=
  match s with Sessions index => w_u8 0 >>> w_u16 index | HttpStream => w_u8 1 end.

Definition w_listener (l : ListenerReport) : writer :=
  w_u8 (listener_tag (listener_kind l))
  >>> w_socket (listener_addr l)
  >>> w_option (listener_certificate l)
        (fun path => w_text (bs "listener certificate") path MAX_CERTIFICATE_PATH_LEN)
  >>> w_bool (listener_proxy_protocol l).

Definition w_message (m : UiMessage) : writer :=
  match m with
  | UiText text => w_u8 0 >>> w_text (bs "message") text MAX_UI_MESSAGE_LEN
  | UiBinary => w_u8 1
  end.

Definition w_closed (r : ClosedReason) : writer :=
  match r with
  | ByClient => w_u8 0
  | ReadFailed text => w_u8 1 >>> w_text (bs "read failure") text MAX_CLOSED_TEXT_LEN
  | MessageTooBig => w_u8 2
  | WriteFailed failure => w_u8 3 >>> w_u8 (failure_tag failure)
  | WriterPanicked => w_u8 4
  | Stopped text => w_u8 5 >>> w_text (bs "stop reason") text MAX_CLOSED_TEXT_LEN
  end.

Definition edge_write (f : EdgeFrame) : writer :=
  match f with
  | EHello h =>
      w_u16 (oldest (hello_versions h))
      >>> w_u16 (newest (hello_versions h))
      >>> w_u8 (role_tag (hello_role h))
      >>> w_text (bs "edge name") (hello_edge h) MAX_EDGE_NAME_LEN
      >>> w_stream (hello_stream h)
      >>> w_u16 (default 0 (hello_slot h))
      >>> w_u64 (hello_highest_epoch h)
      >>> w_list (bs "listeners") (hello_listeners h) MAX_LISTENERS w_listener
  | EOpen _ o =>
      w_u8 (session_tag (open_kind o))
      >>> w_ip (open_address o)
      >>> w_u8 (transport_tag (open_transport o))
  | ELine _ line => w_bytes (bs "line") line LINK_MAX_LINE_LEN
  | EOverlongLine _ label => w_option label (fun label => w_text (bs "label") label MAX_LABEL_LEN)
  | EMessage _ message => w_message message
  | EClosed _ reason => w_closed reason
  | EDrained _ bytes => w_u64 bytes
  end.

(** A tag byte matched against the constants of an enumeration. *)
Definition r_tag {A} (field : str) (of_tag : Z -> option A) : reader A :=
  tag ← r_u8 field;
  match of_tag tag with Some a => mret a | None => rfail (UnknownTag field tag) end.

Definition role_of (tag : Z) : option Role :=
  match tag with 0 => Some Serving | 1 => Some Observer | _ => None end.
Definition listener_of (tag : Z) : option ListenerKind :=
  match tag with
  | 0 => Some LIrc | 1 => Some LWebSocketIrc | 2 => Some LHttp | 3 => Some LAttach | _ => None
  end.
Definition session_of (tag : Z) : option SessionKind :=
  match tag with 0 => Some SIrc | 1 => Some SAttach | 2 => Some SUi | _ => None end.
Definition transport_of (tag : Z) : option Transport :=
  match tag with
  | 0 => Some Tcp | 1 => Some Tls | 2 => Some WebSocket | 3 => Some SecureWebSocket | _ => None
  end.
Definition failure_of (tag : Z) : option WriteFailure :=
  match tag with 0 => Some WTransport | 1 => Some WStalled | _ => None end.

Definition r_stream : reader Stream :=
  tag ← r_u8 (bs "stream");
  match tag with
  | 0 =>
      index ← r_u16 (bs "stream index");
      if MAX_STREAMS <=? index then rfail (Invalid (bs "stream index")) else mret (Sessions index)
  | 1 => mret HttpStream
  | _ => rfail (UnknownTag (bs "stream") tag)
  end.

Definition r_slot : reader (option Z) :=
  slot ← r_u16 (bs "slot");
  if slot =? 0 then mret None
  else slot ← rlift (ok_or (Invalid (bs "slot")) (Slot_new slot)); mret (Some slot).

Definition r_listener : reader ListenerReport :=
  kind ← r_tag (bs "listener kind") listener_of;
  addr ← r_socket (bs "listener address");
  certificate ← r_option (bs "listener certificate")
    (r_text (bs "listener certificate") MAX_CERTIFICATE_PATH_LEN);
  proxy ← r_bool (bs "listener PROXY protocol");
  mret (MkListener kind addr certificate proxy).

Definition r_edge_name : reader str :=
  text ← r_text (bs "edge name") MAX_EDGE_NAME_LEN;
  rlift (match EdgeName_new text with Ok n => Ok n | Err _ => Err (Invalid (bs "edge name")) end).

Definition r_hello : reader Hello :=
  old ← r_u16 (bs "oldest version");
  new ← r_u16 (bs "newest version");
  versions ← rlift (ok_or (Invalid (bs "version range")) (VersionRange_new old new));
  role ← r_tag (bs "role") role_of;
  edge ← r_edge_name;
  stream ← r_stream;
  slot ← r_slot;
  epoch ← r_u64 (bs "highest epoch");
  listeners ← r_list (bs "listeners") MAX_LISTENERS r_listener;
  mret (MkHello versions role edge stream slot epoch listeners).

Definition r_open : reader Open :=
  kind ← r_tag (bs "session kind") session_of;
  address ← r_ip (bs "client address");
  transport ← r_tag (bs "transport") transport_of;
  mret (MkOpen kind address transport).

Definition r_message : reader UiMessage :=
  tag ← r_u8 (bs "message kind");
  match tag with
  | 0 => text ← r_text (bs "message") MAX_UI_MESSAGE_LEN; mret (UiText text)
  | 1 => mret UiBinary
  | _ => rfail (UnknownTag (bs "message kind") tag)
  end.

Definition r_closed : reader ClosedReason :=
  tag ← r_u8 (bs "closed reason");
  match tag with
  | 0 => mret ByClient
  | 1 => text ← r_text (bs "read failure") MAX_CLOSED_TEXT_LEN; mret (ReadFailed text)
  | 2 => mret MessageTooBig
  | 3 => failure ← r_tag (bs "write failure") failure_of; mret (WriteFailed failure)
  | 4 => mret WriterPanicked
  | 5 => text ← r_text (bs "stop reason") MAX_CLOSED_TEXT_LEN; mret (Stopped text)
  | _ => rfail (UnknownTag (bs "closed reason") tag)
  end.

Definition edge_read (kind session : Z) : reader EdgeFrame :=
  if kind =? HELLO then
    _ ← rlift (link_frame kind session); h ← r_hello; mret (EHello h)
  else if kind =? OPEN then
    id ← rlift (session_from_wire session); o ← r_open; mret (EOpen id o)
  else if kind =? LINE then
    id ← rlift (session_from_wire session);
    line ← r_bytes (bs "line") LINK_MAX_LINE_LEN; mret (ELine id line)
  else if kind =? OVERLONG_LINE then
    id ← rlift (session_from_wire session);
    label ← r_option (bs "label") (r_text (bs "label") MAX_LABEL_LEN);
    mret (EOverlongLine id label)
  else if kind =? MESSAGE then
    id ← rlift (session_from_wire session); m ← r_message; mret (EMessage id m)
  else if kind =? CLOSED then
    id ← rlift (session_from_wire session); r ← r_closed; mret (EClosed id r)
  else if kind =? DRAINED then
    id ← rlift (session_from_wire session);
    n ← r_u64 (bs "drained bytes"); mret (EDrained id n)
  else rfail (UnknownKind kind).

#[global] Instance EdgeFrame_codec : Codec EdgeFrame :=
  {| header := edge_header; write_payload := edge_write; read_payload := edge_read |}.

(** ** Validity

    What the Rust types guarantee of a frame (machine widths, [Slot],
    [SessionId], [EdgeName], [VersionRange], UTF-8 text), the bounds the
    writer checks, and the ranges only the reader checks. *)

Definition text_ok (bound : Z) (s : str) : Prop := utf8_valid s = true /\ slen s <= bound.
Definition proxy_ok (e : IpAddr * Z) : Prop :=
  ip_typed (fst e) /\ 0 <= snd e <= (if is_ipv4 (fst e) then 32 else 128).
Definition flood_ok (f : CommandFloodTerms) : Prop := is_u32 (burst f) /\ is_u32 (rate f).
Definition close_ok (c : CloseFrame) : Prop :=
  is_u16 (close_code c) /\ text_ok MAX_CLOSE_REASON_LEN (close_reason c).
Definition some_ok {A} (P : A -> Prop) (o : option A) : Prop := forall a, o = Some a -> P a.

Definition welcome_ok (w : Welcome) : Prop :=
  is_u16 (welcome_version w) /\ is_u64 (welcome_epoch w) /\ slot_ok (welcome_slot w)
  /\ 0 < welcome_streams w <= MAX_STREAMS
  /\ slen (trusted_proxies (welcome_terms w)) <= MAX_TRUSTED_PROXIES
  /\ Forall proxy_ok (trusted_proxies (welcome_terms w))
  /\ some_ok is_u32 (max_connections_per_ip (welcome_terms w))
  /\ is_u32 (sendq_bytes (welcome_terms w))
  /\ some_ok flood_ok (command_flood (welcome_terms w))
  /\ is_u32 (line_credit (welcome_terms w)).

Definition core_ok (f : CoreFrame) : Prop :=
  match f with
  | CWelcome w => welcome_ok w
  | CRefused text => text_ok MAX_REFUSAL_LEN text
  | COutput session line | CKill session line => session_ok session /\ slen line <= MAX_OUTPUT_LEN
  | CEnd session close => session_ok session /\ some_ok close_ok close
  | CFloodExempt session _ => session_ok session
  | CCredit (CreditStream amount) => is_u32 amount
  | CCredit (CreditSession session amount) => session_ok session /\ is_u32 amount
  end.

Definition stream_ok (s : Stream) : Prop :=
  match s with Sessions index => 0 <= index < MAX_STREAMS | HttpStream => True end.
Definition listener_ok (l : ListenerReport) : Prop :=
  socket_typed (listener_addr l)
  /\ some_ok (text_ok MAX_CERTIFICATE_PATH_LEN) (listener_certificate l).
Definition versions_ok (r : VersionRange) : Prop :=
  is_u16 (oldest r) /\ is_u16 (newest r) /\ oldest r <= newest r.

Definition hello_ok (h : Hello) : Prop :=
  versions_ok (hello_versions h) /\ EdgeName_valid (hello_edge h) = true
  /\ stream_ok (hello_stream h) /\ some_ok slot_ok (hello_slot h)
  /\ is_u64 (hello_highest_epoch h)
  /\ slen (hello_listeners h) <= MAX_LISTENERS /\ Forall listener_ok (hello_listeners h).

Definition message_ok (m : UiMessage) : Prop :=
  match m with UiText text => text_ok MAX_UI_MESSAGE_LEN text | UiBinary => True end.
Definition closed_ok (r : ClosedReason) : Prop :=
  match r with
  | ReadFailed text | Stopped text => text_ok MAX_CLOSED_TEXT_LEN text
  | _ => True
  end.

Definition edge_ok (f : EdgeFrame) : Prop :=
  match f with
  | EHello h => hello_ok h
  | EOpen session o => session_ok session /\ ip_typed (open_address o)
  | ELine session line => session_ok session /\ slen line <= LINK_MAX_LINE_LEN
  | EOverlongLine session label => session_ok session /\ some_ok (text_ok MAX_LABEL_LEN) label
  | EMessage session m => session_ok session /\ message_ok m
  | EClosed session r => session_ok session /\ closed_ok r
  | EDrained session n => session_ok session /\ is_u64 n
  end.

(** ** Writing then reading *)

Lemma codes_lift {A B} x (k : A -> reader B) w a b n :
  x = Ok a -> codes w (k a) b n -> codes w (rlift x ≫= k) b n.
Proof. intros -> (p & Hp & Hw & Hr). by exists p. Qed.

(** A frame whose payload is one field, after its session was checked. *)
Lemma codes_one {I A B} (x : result DecodeError I) (r : reader A) (g : I -> A -> B) w i a n m :
  x = Ok i -> codes w r a n -> n <= m ->
  codes w (rlift x ≫= fun i => r ≫= fun a => mret (g i a)) (g i a) m.
Proof.
  intros Hx Hc Hm. eapply codes_lift; [done|]. eapply codes_le; [|done]. by eapply codes_map.
Qed.

Lemma codes_tag {A} field (of_tag : Z -> option A) t a :
  0 <= t < 2 ^ 8 -> of_tag t = Some a -> codes (w_u8 t) (r_tag field of_tag) a 1.
Proof. intros Ht Ha. eapply codes_map; [by apply codes_u8|]. intros s. by rewrite Ha. Qed.

Lemma Slot_new_ok s : slot_ok s -> Slot_new s = Some s.
Proof. unfold slot_ok. intros. apply Slot_new_Some. split_and!; [done|lia..]. Qed.

Lemma session_wire_ok s : session_ok s -> session_from_wire s = Ok s.
Proof.
  intros [_ Hs]. unfold session_from_wire, SessionId_new. by rewrite (proj2 (Z.eqb_neq _ _)).
Qed.

Lemma codes_proxy e : proxy_ok e -> codes (w_proxy e) r_proxy e 18.
Proof.
  intros [Hi Hp]. change 18 with (17 + 1). eapply codes_bind; [by apply codes_ip|].
  assert (0 <= snd e < 2 ^ 8) by (destruct (is_ipv4 (fst e)); lia).
  eapply codes_map; [by apply codes_u8|]. intros s.
  cbv beta zeta. rewrite (proj2 (Z.ltb_ge _ _)) by apply Hp. by destruct e.
Qed.

Lemma codes_flood f : flood_ok f -> codes (w_flood f) r_flood f 8.
Proof.
  intros [Hb Hr]. change 8 with (4 + 4). eapply codes_bind; [by apply codes_u32|].
  eapply codes_map; [by apply codes_u32|]. by destruct f.
Qed.

Lemma codes_close c : close_ok c -> codes (w_close c) r_close c (2 + (4 + MAX_CLOSE_REASON_LEN)).
Proof.
  intros (Hc & Hu & Hr). eapply codes_bind; [by apply codes_u16|].
  eapply codes_map; [by apply codes_text|]. by destruct c.
Qed.

(** Both directions' bounds leave room in a frame. *)
Ltac frame_room :=
  unfold MAX_OUTPUT_LEN, MAX_REFUSAL_LEN, MAX_CLOSE_REASON_LEN, MAX_TRUSTED_PROXIES, MAX_LISTENERS,
    MAX_CERTIFICATE_PATH_LEN, MAX_CLOSED_TEXT_LEN, MAX_UI_MESSAGE_LEN, MAX_LABEL_LEN,
    LINK_MAX_LINE_LEN, MAX_CLIENT_FRAME_LEN, MAX_CLIENT_TAGS_LEN, Message.MAX_LINE_LEN,
    MAX_EDGE_NAME_LEN, MAX_FRAME_LEN, KIND_AND_SESSION_LEN in *; lia.

Lemma codes_welcome w :
  welcome_ok w -> codes (core_write (CWelcome w)) r_welcome w (MAX_FRAME_LEN - KIND_AND_SESSION_LEN).
Proof.
  intros (Hv & He & Hs & Hst & Hpl & Hp & Hm & Hq & Hf & Hc). cbn [core_write]. unfold r_welcome.
  assert (is_u16 (welcome_slot w) /\ is_u16 (welcome_streams w)) as [Hs16 Hst16].
  { unfold is_u16, slot_ok, MAX_SLOT, MAX_STREAMS in *. lia. }
  eapply codes_le; [
    eapply codes_bind; [by apply codes_u16|]; eapply codes_bind; [by apply codes_u64|];
    eapply codes_bind; [by apply codes_u16|]; eapply codes_lift; [by rewrite Slot_new_ok|];
    eapply codes_bind; [by apply codes_u16|]|].
  - rewrite (proj2 (Z.eqb_neq _ _)), (proj2 (Z.ltb_ge _ _)) by lia. cbn [orb].
    eapply codes_bind.
    { apply (codes_list _ _ _ _ _ 18); [done|done|done|].
      eapply Forall_impl; [exact Hp|]. apply codes_proxy. }
    eapply codes_bind.
    { apply (codes_option _ _ _ _ 4); [done|]. intros a Ha. apply codes_u32, Hm, Ha. }
    eapply codes_bind; [by apply codes_u32|].
    eapply codes_bind.
    { apply (codes_option _ _ _ _ 8); [done|]. intros a Ha. apply codes_flood, Hf, Ha. }
    eapply codes_map; [by apply codes_u32|]. by destruct w as [? ? ? ? []].
  - frame_room.
Qed.

Lemma core_payload_codes f :
  core_ok f -> codes (core_write f) (core_read (fst (core_header f)) (snd (core_header f))) f
    (MAX_FRAME_LEN - KIND_AND_SESSION_LEN).
Proof.
  intros Hf.
  destruct f as [w|text|s line|s line|s close|s exempt|[amount|s amount]]; cbn [core_ok core_write] in *;
    unfold core_read; cbn [core_header fst snd];
    match goal with |- context [if ?k =? WELCOME then _ else _] => unfold k at 1 end;
    cbn [Z.eqb WELCOME REFUSED OUTPUT KILL END FLOOD_EXEMPT STREAM_CREDIT SESSION_CREDIT Pos.eqb].
  - eapply (codes_one _ _ (fun _ w => CWelcome w)); [done|by apply codes_welcome|lia].
  - destruct Hf. eapply (codes_one _ _ (fun _ t => CRefused t)); [done|by apply codes_text|frame_room].
  - destruct Hf. eapply (codes_one _ _ COutput);
      [by apply session_wire_ok|apply codes_bytes; [done|frame_room]|frame_room].
  - destruct Hf. eapply (codes_one _ _ CKill);
      [by apply session_wire_ok|apply codes_bytes; [done|frame_room]|frame_room].
  - destruct Hf as [Hs Hc]. eapply (codes_one _ _ CEnd); [by apply session_wire_ok| |].
    + apply (codes_option _ _ _ _ (2 + (4 + MAX_CLOSE_REASON_LEN))); [done|].
      intros c Hcc. apply codes_close, Hc, Hcc.
    + frame_room.
  - eapply (codes_one _ _ CFloodExempt); [by apply session_wire_ok|apply codes_bool|frame_room].
  - eapply (codes_one _ _ (fun _ a => CCredit (CreditStream a)));
      [done|by apply codes_u32|frame_room].
  - destruct Hf. eapply (codes_one _ _ (fun s a => CCredit (CreditSession s a)));
      [by apply session_wire_ok|by apply codes_u32|frame_room].
Qed.

Lemma codes_stream s : stream_ok s -> codes (w_stream s) r_stream s 3.
Proof.
  intros Hs. unfold r_stream. destruct s as [index|]; cbn [w_stream stream_ok] in *.
  - change 3 with (1 + 2). eapply codes_bind; [by apply codes_u8|].
    unfold MAX_STREAMS in *. eapply codes_map; [apply codes_u16; lia|]. intros t.
    cbv beta. unfold MAX_STREAMS. by rewrite (proj2 (Z.leb_gt _ _)) by lia.
  - eapply codes_le; [eapply codes_map; [by apply codes_u8|done]|lia].
Qed.

Lemma codes_slot o : some_ok slot_ok o -> codes (w_u16 (default 0 o)) r_slot o 2.
Proof.
  intros Ho. unfold r_slot. destruct o as [slot|]; cbn [default].
  - specialize (Ho slot eq_refl). eapply codes_map.
    { apply codes_u16. unfold slot_ok, MAX_SLOT in *. cbn. lia. }
    intros s. cbn [from_option id]. unfold slot_ok in *. rewrite (proj2 (Z.eqb_neq _ _)) by lia.
    by rewrite Slot_new_ok.
  - eapply codes_map; [apply codes_u16; cbn; lia|done].
Qed.

Lemma codes_listener l :
  listener_ok l -> codes (w_listener l) r_listener l (1 + (19 + (1 + (4 + MAX_CERTIFICATE_PATH_LEN) + 1))).
Proof.
  intros [Ha Hc]. eapply codes_bind.
  { by apply codes_tag with (a := listener_kind l); destruct (listener_kind l). }
  eapply codes_bind; [by apply codes_socket|]. eapply codes_bind.
  { apply (codes_option _ _ _ _ (4 + MAX_CERTIFICATE_PATH_LEN)); [done|].
    intros t Ht. destruct (Hc t Ht). by apply codes_text. }
  eapply codes_map; [apply codes_bool|]. by destruct l.
Qed.

Lemma EdgeName_valid_utf8 n : EdgeName_valid n = true -> text_ok MAX_EDGE_NAME_LEN n.
Proof.
  unfold EdgeName_valid. rewrite !andb_true_iff, Z.leb_le. intros [[[[_ Hl] _] _] Ha].
  split; [|done]. apply utf8_valid_all_ascii. rewrite forallb_true_iff in *.
  eapply Forall_impl; [exact Ha|]. intros b. by byte_cases b.
Qed.

Lemma codes_edge_name n :
  EdgeName_valid n = true ->
  codes (w_text (bs "edge name") n MAX_EDGE_NAME_LEN) r_edge_name n (4 + MAX_EDGE_NAME_LEN).
Proof.
  intros Hn. destruct (EdgeName_valid_utf8 n Hn). eapply codes_map; [by apply codes_text|].
  intros s. unfold EdgeName_new. by rewrite Hn.
Qed.

Lemma codes_hello h :
  hello_ok h -> codes (edge_write (EHello h)) r_hello h (MAX_FRAME_LEN - KIND_AND_SESSION_LEN).
Proof.
  intros ((Ho & Hn & Hle) & Hname & Hst & Hslot & Hep & Hll & Hl). cbn [edge_write]. unfold r_hello.
  eapply codes_le.
  - eapply codes_bind; [by apply codes_u16|]. eapply codes_bind; [by apply codes_u16|].
    eapply (codes_lift _ _ _ (hello_versions h)).
    { unfold VersionRange_new. rewrite (proj2 (Z.ltb_ge _ _)) by lia. by destruct (hello_versions h). }
    eapply codes_bind.
    { by apply codes_tag with (a := hello_role h); destruct (hello_role h). }
    eapply codes_bind; [by apply codes_edge_name|]. eapply codes_bind; [by apply codes_stream|].
    eapply codes_bind; [by apply codes_slot|]. eapply codes_bind; [by apply codes_u64|].
    eapply codes_map.
    { apply (codes_list _ _ _ _ _ (1 + (19 + (1 + (4 + MAX_CERTIFICATE_PATH_LEN) + 1)))); [done|done|done|].
      eapply Forall_impl; [exact Hl|]. apply codes_listener. }
    by destruct h.
  - frame_room.
Qed.

Lemma codes_open o : ip_typed (open_address o) ->
  codes (w_u8 (session_tag (open_kind o)) >>> w_ip (open_address o)
         >>> w_u8 (transport_tag (open_transport o))) r_open o (1 + (17 + 1)).
Proof.
  intros Ha. eapply codes_bind.
  { by apply codes_tag with (a := open_kind o); destruct (open_kind o). }
  eapply codes_bind; [by apply codes_ip|]. eapply codes_map.
  { by apply codes_tag with (a := open_transport o); destruct (open_transport o). }
  by destruct o.
Qed.

Lemma codes_message m : message_ok m -> codes (w_message m) r_message m (1 + (4 + MAX_UI_MESSAGE_LEN)).
Proof.
  intros Hm. unfold r_message. destruct m as [text|]; cbn [w_message message_ok] in *.
  - destruct Hm. eapply codes_bind; [by apply codes_u8|].
    eapply codes_map; [apply codes_text; [done|done|frame_room]|done].
  - eapply codes_le; [eapply codes_map; [by apply codes_u8|done]|frame_room].
Qed.

Lemma codes_closed r : closed_ok r -> codes (w_closed r) r_closed r (1 + (4 + MAX_CLOSED_TEXT_LEN)).
Proof.
  intros Hr. unfold r_closed. destruct r as [|text| |failure| |text]; cbn [w_closed closed_ok] in *;
    try (eapply codes_le; [eapply codes_map; [by apply codes_u8|done]|frame_room]).
  - destruct Hr. eapply codes_bind; [by apply codes_u8|].
    eapply codes_map; [by apply codes_text|done].
  - eapply codes_le; [eapply codes_bind; [by apply codes_u8|]|].
    + eapply codes_map; [by apply codes_tag with (a := failure); destruct failure|done].
    + frame_room.
  - destruct Hr. eapply codes_bind; [by apply codes_u8|].
    eapply codes_map; [by apply codes_text|done].
Qed.

Lemma edge_payload_codes f :
  edge_ok f -> codes (edge_write f) (edge_read (fst (edge_header f)) (snd (edge_header f))) f
    (MAX_FRAME_LEN - KIND_AND_SESSION_LEN).
Proof.
  intros Hf.
  destruct f as [h|s o|s line|s label|s m|s r|s n]; cbn [edge_ok edge_write] in *;
    unfold edge_read; cbn [edge_header fst snd];
    match goal with |- context [if ?k =? HELLO then _ else _] => unfold k at 1 end;
    cbn [Z.eqb HELLO OPEN LINE OVERLONG_LINE MESSAGE CLOSED DRAINED Pos.eqb].
  - eapply (codes_one _ _ (fun _ h => EHello h)); [done|by apply codes_hello|lia].
  - destruct Hf. eapply (codes_one _ _ EOpen); [by apply session_wire_ok|by apply codes_open|frame_room].
  - destruct Hf. eapply (codes_one _ _ ELine);
      [by apply session_wire_ok|apply codes_bytes; [done|frame_room]|frame_room].
  - destruct Hf as [Hs Hl]. eapply (codes_one _ _ EOverlongLine); [by apply session_wire_ok| |].
    + apply (codes_option _ _ _ _ (4 + MAX_LABEL_LEN)); [frame_room|]. intros t Ht.
      destruct (Hl t Ht). apply codes_text; [done|done|frame_room].
    + frame_room.
  - destruct Hf. eapply (codes_one _ _ EMessage);
      [by apply session_wire_ok|by apply codes_message|frame_room].
  - destruct Hf. eapply (codes_one _ _ EClosed);
      [by apply session_wire_ok|by apply codes_closed|frame_room].
  - destruct Hf. eapply (codes_one _ _ EDrained);
      [by apply session_wire_ok|by apply codes_u64|frame_room].
Qed.

(** ** Reading then writing *)

Lemma rspec_tag {A} field (of_tag : Z -> option A) (tag_of : A -> Z) :
  (forall t a, of_tag t = Some a -> tag_of a = t) ->
  rspec (r_tag field of_tag) (fun a p => writes (w_u8 (tag_of a)) p).
Proof.
  intros H. eapply rspec_bind; [apply rspec_u8|]. intros t p [_ Hp].
  destruct (of_tag t) as [a|] eqn:E; [|apply rspec_fail]. apply rspec_ret.
  rewrite app_nil_r. by rewrite (H _ _ E).
Qed.

(** A small tag determines the constructor it was matched to. *)
Ltac solve_tag :=
  let t := fresh in let a := fresh in
  intros t a; destruct t as [|[[|[]|]|[|[]|]|]|]; cbn; try done; by intros [= <-].

(** Bind the next field, naming what its reader promises. *)
Tactic Notation "field" constr(lem) "as" simple_intropattern(pat) :=
  eapply rspec_bind; [apply lem|]; intros ? ? pat.
Ltac written := rewrite ?app_nil_r; repeat (apply writes_then; [done|]); done.

Lemma rspec_proxy : rspec r_proxy (fun e p => proxy_ok e /\ writes (w_proxy e) p).
Proof.
  field rspec_ip as [Hi Hp]. field rspec_u8 as [Hu Hq].
  cbv zeta. destruct (Z.ltb_spec (if is_ipv4 a then 32 else 128) a0); [apply rspec_fail|].
  apply rspec_ret. split; [|written]. split; [done|cbn; lia].
Qed.

Lemma rspec_flood : rspec r_flood (fun f p => flood_ok f /\ writes (w_flood f) p).
Proof. field rspec_u32 as [Hb Hp]. field rspec_u32 as [Hr Hq]. apply rspec_ret. split; [done|written]. Qed.

Lemma rspec_close : rspec r_close (fun c p => close_ok c /\ writes (w_close c) p).
Proof.
  field rspec_u16 as [Hb Hp]. field rspec_text as (Hu & Hl & Hq). apply rspec_ret. split; [done|written].
Qed.

Lemma rspec_welcome :
  rspec r_welcome (fun w p => welcome_ok w /\ writes (core_write (CWelcome w)) p).
Proof.
  field rspec_u16 as [Hv Hp1]. field rspec_u64 as [He Hp2]. field rspec_u16 as [Hs Hp3].
  eapply rspec_bind; [apply rspec_lift with (Q := fun b q => q = [] /\ Slot_new a1 = Some b)|].
  { intros b. destruct (Slot_new a1); [|done]. by intros [= <-]. }
  intros slot ? [-> (-> & Hs0 & Hsm)%Slot_new_Some]. cbn [app].
  field rspec_u16 as [Hst Hp4].
  destruct (Z.eqb_spec a2 0); [apply rspec_fail|].
  destruct (Z.ltb_spec MAX_STREAMS a2); [apply rspec_fail|]. cbn [orb].
  eapply rspec_bind; [apply rspec_list, rspec_proxy|]. intros proxies ? (Hpl & Hpo & Hp5).
  eapply rspec_bind; [apply (rspec_option _ w_u32 _ is_u32), rspec_u32|]. intros limit ? [Hm Hp6].
  field rspec_u32 as [Hq Hp7].
  eapply rspec_bind; [apply (rspec_option _ w_flood _ flood_ok), rspec_flood|]. intros flood ? [Hf Hp8].
  field rspec_u32 as [Hc Hp9]. apply rspec_ret. split; [|cbn [core_write]; cbn; written].
  unfold welcome_ok, slot_ok, is_u16, is_u32, is_u64 in *. cbn. split_and!; done || lia.
Qed.

Lemma link_frame_Ok kind session : link_frame kind session = Ok () <-> session = 0.
Proof. unfold link_frame. destruct (Z.eqb_spec session 0); done. Qed.

Lemma session_from_wire_Ok session id : session_from_wire session = Ok id <-> id = session /\ session <> 0.
Proof.
  unfold session_from_wire, SessionId_new. destruct (Z.eqb_spec session 0); cbn; naive_solver.
Qed.

(** A frame about the link, whose payload is one field. *)
Lemma rspec_link {A B} kind session (r : reader A) (g : A -> B) (Q : B -> str -> Prop) (R : A -> str -> Prop) :
  rspec r R -> (session = 0 -> forall a p, R a p -> Q (g a) p) ->
  rspec (rlift (link_frame kind session) ≫= fun _ => r ≫= fun a => mret (g a)) Q.
Proof.
  intros Hr HQ. eapply rspec_bind.
  { apply rspec_lift with (Q := fun _ q => q = [] /\ session = 0).
    intros []. by intros ?%link_frame_Ok. }
  intros _ ? [-> H0]. cbn [app]. eapply rspec_bind; [exact Hr|]. intros a p HR. apply rspec_ret.
  rewrite app_nil_r. auto.
Qed.

(** A frame about a session, whose payload is one field. *)
Lemma rspec_session {A B} session (r : reader A) (g : Z -> A -> B) (Q : B -> str -> Prop) (R : A -> str -> Prop) :
  is_u64 session -> rspec r R -> (session_ok session -> forall a p, R a p -> Q (g session a) p) ->
  rspec (rlift (session_from_wire session) ≫= fun id => r ≫= fun a => mret (g id a)) Q.
Proof.
  intros Hu Hr HQ. eapply rspec_bind.
  { apply rspec_lift with (Q := fun id q => q = [] /\ id = session /\ session <> 0).
    intros id [-> ?]%session_from_wire_Ok. done. }
  intros id ? (-> & -> & H0). cbn [app]. eapply rspec_bind; [exact Hr|]. intros a p HR. apply rspec_ret.
  rewrite app_nil_r. apply HQ; [by split|done].
Qed.

(** One goal per frame kind, in the order the reader tests them. *)
Ltac by_kind kind :=
  repeat match goal with
  | |- rspec (if kind =? ?k then _ else _) _ => destruct (Z.eqb_spec kind k) as [->|?]
  end; [..|apply rspec_fail].

Lemma core_payload_canonical kind session :
  0 <= kind < 2 ^ 8 -> is_u64 session ->
  rspec (core_read kind session) (fun f p =>
    core_ok f /\ core_header f = (kind, session) /\ writes (core_write f) p).
Proof.
  intros Hk Hs. unfold core_read.
  by_kind kind.
  - eapply rspec_link; [apply rspec_welcome|]. intros -> w p [? ?]. done.
  - eapply rspec_link; [apply rspec_text|]. intros -> t p (? & ? & ?). done.
  - eapply (rspec_session _ _ COutput); [done|apply rspec_bytes|]. intros ? t p (? & ?). done.
  - eapply (rspec_session _ _ CKill); [done|apply rspec_bytes|]. intros ? t p (? & ?). done.
  - eapply (rspec_session _ _ CEnd); [done|apply (rspec_option _ w_close _ close_ok), rspec_close|].
    intros ? t p (? & ?). done.
  - eapply (rspec_session _ _ CFloodExempt); [done|apply rspec_bool|]. intros ? t p ?. done.
  - eapply rspec_link; [apply rspec_u32|]. intros -> t p (? & ?). done.
  - eapply (rspec_session _ _ (fun s a => CCredit (CreditSession s a))); [done|apply rspec_u32|].
    intros ? t p (? & ?). done.
Qed.

Lemma rspec_stream : rspec r_stream (fun s p => stream_ok s /\ writes (w_stream s) p).
Proof.
  field rspec_u8 as [_ Hp]. by_tag a.
  - field rspec_u16 as [Hi Hq]. destruct (Z.leb_spec MAX_STREAMS a); [apply rspec_fail|].
    apply rspec_ret. split; [cbn; lia|written].
  - apply rspec_ret. split; [done|written].
Qed.

Lemma rspec_slot : rspec r_slot (fun o p => some_ok slot_ok o /\ writes (w_u16 (default 0 o)) p).
Proof.
  field rspec_u16 as [Hu Hp]. destruct (Z.eqb_spec a 0) as [->|Hne].
  { apply rspec_ret. split; [done|written]. }
  eapply rspec_bind; [apply rspec_lift with (Q := fun b q => q = [] /\ Slot_new a = Some b)|].
  { intros b. destruct (Slot_new a); [|done]. by intros [= <-]. }
  intros slot ? [-> (-> & Hs0 & Hsm)%Slot_new_Some]. apply rspec_ret.
  split; [|written]. intros ? [= <-]. unfold slot_ok. lia.
Qed.

Lemma rspec_listener : rspec r_listener (fun l p => listener_ok l /\ writes (w_listener l) p).
Proof.
  eapply rspec_bind; [apply (rspec_tag _ _ listener_tag); solve_tag|]. intros kind ? Hp1.
  field rspec_socket as [Ha Hp2].
  eapply rspec_bind; [apply (rspec_option _ (fun path =>
    w_text (bs "listener certificate") path MAX_CERTIFICATE_PATH_LEN) _ (text_ok MAX_CERTIFICATE_PATH_LEN))|].
  { eapply rspec_weaken; [apply rspec_text|]. intros t q (Hu & Hl & Hw). by split_and!. }
  intros cert ? [Hc Hp3]. field rspec_bool as Hp4. apply rspec_ret. split; [done|]. written.
Qed.

Lemma rspec_edge_name :
  rspec r_edge_name (fun n p =>
    EdgeName_valid n = true /\ writes (w_text (bs "edge name") n MAX_EDGE_NAME_LEN) p).
Proof.
  field rspec_text as (Hu & Hl & Hw). apply rspec_lift. intros n. unfold EdgeName_new.
  destruct (EdgeName_valid a) eqn:E; [|done]. intros [= <-]. by rewrite app_nil_r.
Qed.

Lemma rspec_hello : rspec r_hello (fun h p => hello_ok h /\ writes (edge_write (EHello h)) p).
Proof.
  field rspec_u16 as [Ho Hp1]. field rspec_u16 as [Hn Hp2].
  eapply rspec_bind; [apply rspec_lift with (Q := fun b q => q = [] /\ b = MkRange a a0 /\ a <= a0)|].
  { intros b. unfold VersionRange_new. destruct (Z.ltb_spec a0 a); [done|]. by intros [= <-]. }
  intros versions ? (-> & -> & Hle). cbn [app].
  eapply rspec_bind; [apply (rspec_tag _ _ role_tag); solve_tag|]. intros role ? Hp3.
  field rspec_edge_name as [Hname Hp4]. field rspec_stream as [Hst Hp5].
  field rspec_slot as [Hslot Hp6]. field rspec_u64 as [Hep Hp7].
  eapply rspec_bind; [apply rspec_list, rspec_listener|]. intros listeners ? (Hll & Hl & Hp8).
  apply rspec_ret. split; [by split_and!|]. cbn [edge_write]. cbn. written.
Qed.

Lemma rspec_open : rspec r_open (fun o p => ip_typed (open_address o)
  /\ writes (w_u8 (session_tag (open_kind o)) >>> w_ip (open_address o)
       >>> w_u8 (transport_tag (open_transport o))) p).
Proof.
  eapply rspec_bind; [apply (rspec_tag _ _ session_tag); solve_tag|]. intros kind ? Hp1.
  field rspec_ip as [Ha Hp2].
  eapply rspec_bind; [apply (rspec_tag _ _ transport_tag); solve_tag|]. intros transport ? Hp3.
  apply rspec_ret. split; [done|]. cbn. written.
Qed.

Lemma rspec_message : rspec r_message (fun m p => message_ok m /\ writes (w_message m) p).
Proof.
  field rspec_u8 as [_ Hp]. by_tag a.
  - field rspec_text as (Hu & Hl & Hw). apply rspec_ret. split; [done|written].
  - apply rspec_ret. split; [done|written].
Qed.

Lemma rspec_closed : rspec r_closed (fun r p => closed_ok r /\ writes (w_closed r) p).
Proof.
  field rspec_u8 as [_ Hp].
  destruct a as [|[[|[|[]|]|]|[[|[]|]|[|[]|]|]|]|]; try apply rspec_fail;
    try (apply rspec_ret; split; [done|written]).
  - field rspec_text as (Hu & Hl & Hw). apply rspec_ret. split; [done|written].
  - eapply rspec_bind; [apply (rspec_tag _ _ failure_tag); solve_tag|]. intros failure ? Hp1.
    apply rspec_ret. split; [done|written].
  - field rspec_text as (Hu & Hl & Hw). apply rspec_ret. split; [done|written].
Qed.

Lemma edge_payload_canonical kind session :
  0 <= kind < 2 ^ 8 -> is_u64 session ->
  rspec (edge_read kind session) (fun f p =>
    edge_ok f /\ edge_header f = (kind, session) /\ writes (edge_write f) p).
Proof.
  intros Hk Hs. unfold edge_read. by_kind kind.
  - eapply rspec_link; [apply rspec_hello|]. intros -> h p [? ?]. done.
  - eapply (rspec_session _ _ EOpen); [done|apply rspec_open|]. intros ? o p (? & ?). done.
  - eapply (rspec_session _ _ ELine); [done|apply rspec_bytes|]. intros ? t p (? & ?). done.
  - eapply (rspec_session _ _ EOverlongLine); [done|apply (rspec_option _ (fun label =>
      w_text (bs "label") label MAX_LABEL_LEN) _ (text_ok MAX_LABEL_LEN))|].
    { eapply rspec_weaken; [apply rspec_text|]. intros t q (Hu & Hl & Hw). by split_and!. }
    intros ? t p (? & ?). done.
  - eapply (rspec_session _ _ EMessage); [done|apply rspec_message|]. intros ? m p (? & ?). done.
  - eapply (rspec_session _ _ EClosed); [done|apply rspec_closed|]. intros ? r p (? & ?). done.
  - eapply (rspec_session _ _ EDrained); [done|apply rspec_u64|]. intros ? bytes p (? & ?). done.
Qed.

(** ** The interface, discharged *)

Ltac solve_grows :=
  repeat first
    [ apply grows_then | apply grows_put | apply grows_bytes | apply grows_ip
    | apply grows_option; intros ? | apply grows_list; intros ? ].

Lemma core_grows f : grows (core_write f).
Proof.
  destruct f as [w|text|s line|s line|s close|s exempt|[amount|s amount]]; cbn [core_write];
    solve_grows.
Qed.

Lemma edge_grows f : grows (edge_write f).
Proof.
  destruct f as [h|s o|s line|s label|s [|]|s []|s n]; cbn [edge_write w_message w_closed];
    solve_grows.
  destruct (hello_stream h); solve_grows.
Qed.

#[global] Instance CoreFrame_laws : CodecLaws CoreFrame.
Proof.
  refine {| valid := core_ok |}.
  - intros f Hf. cbn. destruct f as [w|text|s line|s line|s close|s exempt|[amount|s amount]];
      cbn in *; unfold session_ok, is_u64 in *; split; try done; try apply Hf; lia.
  - apply core_payload_codes.
  - apply core_payload_canonical.
  - apply core_grows.
Defined.

#[global] Instance EdgeFrame_laws : CodecLaws EdgeFrame.
Proof.
  refine {| valid := edge_ok |}.
  - intros f Hf. cbn. destruct f as [h|s o|s line|s label|s m|s r|s n];
      cbn in *; unfold session_ok, is_u64 in *; split; try done; try apply Hf; lia.
  - apply edge_payload_codes.
  - apply edge_payload_canonical.
  - apply edge_grows.
Defined.

(** ** The codec of both directions *)

(** Core frames survive the link: a valid frame is appended to whatever
    the writer's buffer holds, is taken back off the front of a reader's
    buffer with the rest left in place, and any proper prefix of its bytes is
    left untouched as an incomplete frame. *)
Theorem core_frame_roundtrip (f : CoreFrame) out :
  core_ok f -> exists bytes,
    encode f out = (out ++ bytes, Ok ())
    /\ (forall rest, decode (bytes ++ rest) = (rest, Ok (Some f)))
    /\ (forall q, q `prefix_of` bytes -> q <> bytes -> decode (F:=CoreFrame) q = (q, Ok None)).
Proof. exact (frame_roundtrip_lemma (F:=CoreFrame) f out). Qed.

Lemma core_frame_roundtrip_witness : exists bytes,
  encode (CEnd 7 (Some (MkClose 1000 (bs "bye")))) [] = (bytes, Ok ())
  /\ decode bytes = ([], Ok (Some (CEnd 7 (Some (MkClose 1000 (bs "bye")))))).
Proof.
  destruct (core_frame_roundtrip (CEnd 7 (Some (MkClose 1000 (bs "bye")))) []) as (b & He & Hd & _).
  { split; [split; [split; done|done]|]. intros ? [= <-].
    split; [split; done|]. split; [vm_compute; reflexivity|done]. }
  exists b. split; [exact He|]. specialize (Hd []). by rewrite app_nil_r in Hd.
Defined.

(** Edge frames survive the link, as core frames do: appended, taken back
    whole from the front of a buffer, and left untouched while incomplete. *)
Theorem edge_frame_roundtrip (f : EdgeFrame) out :
  edge_ok f -> exists bytes,
    encode f out = (out ++ bytes, Ok ())
    /\ (forall rest, decode (bytes ++ rest) = (rest, Ok (Some f)))
    /\ (forall q, q `prefix_of` bytes -> q <> bytes -> decode (F:=EdgeFrame) q = (q, Ok None)).
Proof. exact (frame_roundtrip_lemma (F:=EdgeFrame) f out). Qed.

Definition sample_hello : EdgeFrame :=
  EHello (MkHello (MkRange 1 1) Serving (bs "edge-1") (Sessions 3) (Some 5) 9
    [MkListener LIrc (MkSocket (V4 (bs "abcd")) 6697) (Some (bs "/etc/cert")) true]).

Lemma edge_frame_roundtrip_witness : exists bytes,
  encode sample_hello [] = (bytes, Ok ()) /\ decode bytes = ([], Ok (Some sample_hello)).
Proof.
  destruct (edge_frame_roundtrip sample_hello []) as (b & He & Hd & _).
  { split_and!; cbn; try done; try lia.
    - intros ? [= <-]. split; done.
    - apply Forall_singleton. split; [split; done|]. intros ? [= <-].
      split; [vm_compute; reflexivity|done]. }
  exists b. split; [exact He|]. specialize (Hd []). by rewrite app_nil_r in Hd.
Defined.

(** A core frame that decodes is valid and is what the encoder writes: the
    bytes taken off the buffer are, to the byte, the encoding of the frame
    returned. *)
Theorem core_frame_canonical buffer rest (f : CoreFrame) out :
  decode buffer = (rest, Ok (Some f)) ->
  core_ok f /\ exists bytes, buffer = bytes ++ rest /\ encode f out = (out ++ bytes, Ok ()).
Proof. exact (frame_canonical_lemma (F:=CoreFrame) buffer rest f out). Qed.

Lemma core_frame_canonical_witness :
  exists bytes, fst (encode (CCredit (CreditStream 12)) []) = bytes ++ []
    /\ encode (CCredit (CreditStream 12)) [] = ([] ++ bytes, Ok ()).
Proof.
  apply (core_frame_canonical (fst (encode (CCredit (CreditStream 12)) [])) []
    (CCredit (CreditStream 12)) []). vm_compute. reflexivity.
Defined.

(** An edge frame that decodes is valid and is, to the byte, what the
    encoder writes for the frame returned. *)
Theorem edge_frame_canonical buffer rest (f : EdgeFrame) out :
  decode buffer = (rest, Ok (Some f)) ->
  edge_ok f /\ exists bytes, buffer = bytes ++ rest /\ encode f out = (out ++ bytes, Ok ()).
Proof. exact (frame_canonical_lemma (F:=EdgeFrame) buffer rest f out). Qed.

Lemma edge_frame_canonical_witness :
  exists bytes, fst (encode (ELine 5 (bs "PING x")) []) = bytes ++ []
    /\ encode (ELine 5 (bs "PING x")) [] = ([] ++ bytes, Ok ()).
Proof.
  apply (edge_frame_canonical (fst (encode (ELine 5 (bs "PING x")) [])) []
    (ELine 5 (bs "PING x")) []). vm_compute. reflexivity.
Defined.

(** A frame that cannot be written leaves no trace: when the encoder
    refuses a frame of either direction, the buffer is exactly what it was,
    whatever fields had been appended before the refusal. *)
Theorem encode_error_restores out out' e :
  (forall f : CoreFrame, encode f out = (out', Err e) -> out' = out)
  /\ (forall f : EdgeFrame, encode f out = (out', Err e) -> out' = out).
Proof. split; intros f; apply encode_error_lemma. Qed.

(** A frame with every field in range but the stream count. *)
Definition zero_streams : CoreFrame :=
  CWelcome (MkWelcome 1 0 1 0 (MkTerms [] None 0 None 0)).

(** The writer does not check what the reader refuses: a [Welcome] that
    grants no session stream is encoded without error, and the bytes written
    are refused by the decoder as a value no encoder writes. *)
Theorem welcome_streams_unchecked :
  snd (encode zero_streams []) = Ok ()
  /\ snd (decode (F:=CoreFrame) (fst (encode zero_streams []))) = Err (Invalid (bs "streams")).
Proof. split; vm_compute; reflexivity. Qed.
