(* ===== verification/Recency.v ===== *)
(** * Least-recently-used order ([e6ircd/src/recency.rs])

    [Recency] stamps each touch instead of moving the key: a map holds each
    key's current stamp, a queue holds every (stamp, key) pair pushed, and only
    the pairs that agree with the map are live.  The specification is the
    obvious one, a list of keys with the oldest first; the stamped structure is
    shown to simulate it operation by operation. *)

From S2P Require Import Prelude.
From stdpp Require Import gmap.

Definition COMPACTION_SLACK : nat := 32.

Section Recency.
Context {K : Type} `{Countable K}.

Record Recency : Type := MkRecency {
  stamps : gmap K Z;
  order : list (Z * K);
  next : Z;
}.

Definition Recency_default : Recency := MkRecency ∅ [] 0.

(** A pair is live when the map holds its key at its stamp. *)
Definition live (m : gmap K Z) (e : Z * K) : bool := bool_decide (m !! snd e = Some (fst e)).

Definition compact_if_sparse (r : Recency) : Recency :=
  if 2 * size (stamps r) + COMPACTION_SLACK <? length (order r)
  then MkRecency (stamps r) (List.filter (live (stamps r)) (order r)) (next r)
  else r.

Definition touch (key : K) (r : Recency) : Recency :=
  let stamp := next r in
  compact_if_sparse
    (MkRecency (<[key := stamp]> (stamps r)) (order r ++ [(stamp, key)]) (next r + 1)).

Definition remove (key : K) (r : Recency) : bool * Recency :=
  let removed := bool_decide (is_Some (stamps r !! key)) in
  let r' := MkRecency (delete key (stamps r)) (order r) (next r) in
  (removed, if removed then compact_if_sparse r' else r').

(** The [while let Some(..) = self.order.pop_front()] loop. *)
Fixpoint pop_loop (m : gmap K Z) (queue : list (Z * K)) : option K * gmap K Z * list (Z * K) :=
  match queue with
  | [] => (None, m, [])
  | (stamp, key) :: queue' =>
      if live m (stamp, key) then (Some key, delete key m, queue')
      else pop_loop m queue'
  end.

Definition pop_oldest (r : Recency) : option K * Recency :=
  let '(key, m, queue) := pop_loop (stamps r) (order r) in (key, MkRecency m queue (next r)).

Definition recency_len (r : Recency) : nat := size (stamps r).

(** The held keys, most recently used first. *)
Definition most_recent_first (r : Recency) : list K :=
  snd <$> List.filter (live (stamps r)) (reverse (order r)).

(** ** Specification: the keys themselves, oldest first *)

Definition lru_without (key : K) (l : list K) : list K :=
  List.filter (fun k => negb (bool_decide (k = key))) l.

Inductive Op : Type := Touch (key : K) | Remove (key : K) | PopOldest | Len.
Inductive Out : Type := ODone | ORemoved (removed : bool) | OPopped (key : option K) | OLen (n : nat).

Definition spec_step (l : list K) (op : Op) : Out * list K :=
  match op with
  | Touch key => (ODone, lru_without key l ++ [key])
  | Remove key => (ORemoved (bool_decide (key ∈ l)), lru_without key l)
  | PopOldest => match l with [] => (OPopped None, []) | k :: l' => (OPopped (Some k), l') end
  | Len => (OLen (length l), l)
  end.

Definition impl_step (r : Recency) (op : Op) : Out * Recency :=
  match op with
  | Touch key => (ODone, touch key r)
  | Remove key => let '(b, r') := remove key r in (ORemoved b, r')
  | PopOldest => let '(k, r') := pop_oldest r in (OPopped k, r')
  | Len => (OLen (recency_len r), r)
  end.

Fixpoint run {S} (step : S -> Op -> Out * S) (s : S) (ops : list Op) : list Out * S :=
  match ops with
  | [] => ([], s)
  | op :: ops' =>
      let '(out, s') := step s op in
      let '(outs, s'') := run step s' ops' in (out :: outs, s'')
  end.

(** ** The simulation *)

(** The keys a state stands for. *)
Definition keys (m : gmap K Z) (queue : list (Z * K)) : list K := snd <$> List.filter (live m) queue.

Record inv (r : Recency) : Prop := {
  inv_nodup : NoDup (order r);
  inv_fresh : forall s k, (s, k) ∈ order r -> (s < next r)%Z;
  inv_queued : forall k s, stamps r !! k = Some s -> (s, k) ∈ order r;
}.

Lemma live_true m s k : live m (s, k) = true <-> m !! k = Some s.
Proof. unfold live. cbn. apply bool_decide_eq_true. Qed.

(** Removing a key's stamp, or replacing it by one not queued, drops the key. *)
Lemma keys_without m m' key queue :
  (forall k, k <> key -> m' !! k = m !! k) ->
  (forall s, (s, key) ∈ queue -> m' !! key <> Some s) ->
  keys m' queue = lru_without key (keys m queue).
Proof.
  intros Ho Hk. unfold keys, lru_without. induction queue as [|[s k] queue IH]; [done|].
  assert (keys m' queue = lru_without key (keys m queue)) as IH'.
  { apply IH. intros s' Hs'. apply Hk. by right. }
  unfold keys, lru_without in IH'. cbn [List.filter].
  destruct (decide (k = key)) as [->|Hne].
  - assert (live m' (s, key) = false) as ->.
    { unfold live. apply bool_decide_eq_false. apply Hk. left. }
    destruct (live m (s, key)); [|done]. cbn [fmap list_fmap List.filter snd].
    rewrite bool_decide_eq_true_2 by done. done.
  - assert (live m' (s, k) = live m (s, k)) as -> by (unfold live; cbn; by rewrite Ho).
    destruct (live m (s, k)); [|done]. cbn [fmap list_fmap List.filter snd].
    rewrite bool_decide_eq_false_2 by done. cbn [negb]. f_equal. exact IH'.
Qed.

Lemma keys_app m a b : keys m (a ++ b) = keys m a ++ keys m b.
Proof. unfold keys. by rewrite List.filter_app, fmap_app. Qed.

Lemma keys_compact r : keys (stamps (compact_if_sparse r)) (order (compact_if_sparse r))
  = keys (stamps r) (order r).
Proof.
  unfold compact_if_sparse. destruct (_ <? _); [|done]. unfold keys. cbn.
  rewrite filter_filter_and. f_equal. apply filter_ext_in. intros x _. by destruct (live _ x).
Qed.

Lemma inv_compact r : inv r -> inv (compact_if_sparse r).
Proof.
  intros [Hn Hf Hq]. unfold compact_if_sparse. destruct (_ <? _); [|done]. split; cbn.
  - by apply NoDup_Lfilter.
  - intros s k [Hin _]%elem_of_Lfilter. eauto.
  - intros k s Hk. apply elem_of_Lfilter. split; [auto|]. by apply live_true.
Qed.

Lemma live_key_unique m s k queue :
  NoDup queue -> m !! k = Some s -> (s, k) ∉ queue -> k ∉ keys m queue.
Proof.
  intros _ Hk Hn. unfold keys. rewrite list_elem_of_fmap.
  intros ([s' k'] & -> & [Hin Hl]%elem_of_Lfilter). cbn in *. apply live_true in Hl. congruence.
Qed.

Lemma keys_nodup m queue : NoDup queue -> NoDup (keys m queue).
Proof.
  induction 1 as [|[s k] queue Hnin Hnd IH]; [constructor|].
  unfold keys in *. cbn [List.filter]. destruct (live m (s, k)) eqn:E; [|done].
  cbn. constructor; [|done]. apply live_true in E. by eapply live_key_unique.
Qed.

Lemma elem_of_keys r k : inv r -> k ∈ keys (stamps r) (order r) <-> is_Some (stamps r !! k).
Proof.
  intros [_ _ Hq]. unfold keys. rewrite list_elem_of_fmap. split.
  - intros ([s k'] & -> & [_ Hl]%elem_of_Lfilter). apply live_true in Hl. eauto.
  - intros [s Hs]. exists (s, k). split; [done|]. apply elem_of_Lfilter. split; [auto|].
    by apply live_true.
Qed.

Lemma keys_length r : inv r -> length (keys (stamps r) (order r)) = size (stamps r).
Proof.
  intros Hi. pose proof (inv_nodup r Hi) as Hnd%(keys_nodup (stamps r)).
  rewrite <- (size_dom (stamps r)), <- (size_list_to_set (C:=gset K)) by done.
  f_equal. apply set_eq. intros k. rewrite elem_of_list_to_set, elem_of_dom. by apply elem_of_keys.
Qed.

Lemma lru_without_absent key l : key ∉ l -> lru_without key l = l.
Proof.
  induction l as [|k l IH]; [done|]. intros [? ?]%not_elem_of_cons. cbn.
  rewrite bool_decide_eq_false_2 by done. cbn. f_equal. by apply IH.
Qed.

Definition abs (r : Recency) : list K := keys (stamps r) (order r).

(** The states [touch] and [remove] compact. *)
Definition pushed (key : K) (r : Recency) : Recency :=
  MkRecency (<[key := next r]> (stamps r)) (order r ++ [(next r, key)]) (next r + 1).
Definition dropped (key : K) (r : Recency) : Recency :=
  MkRecency (delete key (stamps r)) (order r) (next r).

Lemma inv_pushed key r : inv r -> inv (pushed key r).
Proof.
  intros [Hn Hf Hq]. split; cbn.
  - apply NoDup_app. split_and!; [done| |apply NoDup_singleton].
    intros [s k] Hin ->%list_elem_of_singleton%(inj2 pair)%proj1. apply Hf in Hin. lia.
  - intros s k [Hin|[= -> ->]]%elem_of_snoc; [apply Hf in Hin|]; lia.
  - intros k s. rewrite elem_of_snoc. destruct (decide (k = key)) as [->|].
    + rewrite lookup_insert_eq. intros [= <-]. by right.
    + rewrite lookup_insert_ne by done. auto.
Qed.

Lemma inv_dropped key r : inv r -> inv (dropped key r).
Proof.
  intros [Hn Hf Hq]. split; cbn; [done|done|].
  intros k s. rewrite lookup_delete_Some. intros [? ?]. auto.
Qed.

Lemma touch_sim key r :
  inv r -> inv (touch key r) /\ abs (touch key r) = lru_without key (abs r) ++ [key].
Proof.
  intros Hi. unfold touch, abs. rewrite keys_compact. split.
  { by apply inv_compact, inv_pushed. }
  pose proof Hi as [Hn Hf Hq]. cbn [stamps order]. rewrite keys_app. f_equal.
  - apply keys_without.
    + intros k Hk. by rewrite lookup_insert_ne.
    + intros s Hin. rewrite lookup_insert_eq. intros [= <-]. apply Hf in Hin. lia.
  - unfold keys. cbn. rewrite (proj2 (live_true _ _ _)); [done|]. by rewrite lookup_insert_eq.
Qed.

Lemma remove_sim key r :
  inv r -> inv (snd (remove key r)) /\ abs (snd (remove key r)) = lru_without key (abs r)
    /\ fst (remove key r) = bool_decide (key ∈ abs r).
Proof.
  intros Hi. unfold remove. cbn [fst snd]. fold (dropped key r).
  pose proof (inv_dropped key r Hi) as Hi'.
  assert (abs (dropped key r) = lru_without key (abs r)) as Ha.
  { apply keys_without.
    - intros k Hk. cbn. by rewrite lookup_delete_ne.
    - intros s _. cbn. by rewrite lookup_delete_eq. }
  split_and!.
  - destruct (bool_decide _); [by apply inv_compact|done].
  - destruct (bool_decide _); [|done]. unfold abs. by rewrite keys_compact.
  - apply bool_decide_ext. symmetry. by apply elem_of_keys.
Qed.

Lemma pop_loop_spec m queue k m' queue' :
  NoDup queue -> pop_loop m queue = (k, m', queue') ->
  match k with
  | None => keys m queue = [] /\ m' = m /\ queue' = []
  | Some key => exists s pre, queue = pre ++ (s, key) :: queue' /\ keys m pre = []
      /\ m !! key = Some s /\ m' = delete key m
  end.
Proof.
  induction queue as [|[s key] queue IH]; intros Hnd; cbn [pop_loop].
  { intros [= <- <- <-]. done. }
  inversion Hnd as [|? ? Hnin Hnd']; subst.
  destruct (live m (s, key)) eqn:E.
  - intros [= <- <- <-]. exists s, []. apply live_true in E. done.
  - intros Hp. specialize (IH Hnd' Hp). destruct k as [key'|].
    + destruct IH as (s' & pre & -> & Hk & Hm & ->). exists s', ((s, key) :: pre).
      split_and!; [done| |done|done]. unfold keys in *. cbn [List.filter]. by rewrite E.
    + destruct IH as (Hk & -> & ->). split_and!; [|done|done]. unfold keys in *.
      cbn [List.filter]. by rewrite E.
Qed.

Lemma pop_sim r :
  inv r -> inv (snd (pop_oldest r)) /\
    match abs r with
    | [] => fst (pop_oldest r) = None /\ abs (snd (pop_oldest r)) = []
    | key :: rest => fst (pop_oldest r) = Some key /\ abs (snd (pop_oldest r)) = rest
    end.
Proof.
  intros Hi. pose proof Hi as [Hn Hf Hq]. unfold pop_oldest.
  destruct (pop_loop (stamps r) (order r)) as [[k m] queue] eqn:E. cbn [fst snd].
  apply pop_loop_spec in E; [|done]. destruct k as [key|].
  - destruct E as (s & pre & Ho & Hpre & Hk & ->). unfold abs at 1. rewrite Ho, keys_app, Hpre.
    rewrite Ho in Hn. apply NoDup_app in Hn as (_ & Hdis & Hn).
    inversion Hn as [|? ? Hnin Hn']; subst. cbn [app].
    assert (keys (stamps r) ((s, key) :: queue) = key :: keys (stamps r) queue) as ->.
    { unfold keys. cbn [List.filter]. by rewrite (proj2 (live_true _ _ _)). }
    split; [split; cbn; [done|..]|split; [done|]].
    + intros s' k' Hin. apply (Hf s' k'). rewrite Ho, elem_of_app, elem_of_cons. auto.
    + intros k' s'. rewrite lookup_delete_Some. intros [Hne Hk']. pose proof (Hq _ _ Hk') as Hin.
      rewrite Ho, elem_of_app, elem_of_cons in Hin. destruct Hin as [Hin|[[= -> ->]|Hin]]; [|done..].
      assert (k' ∈ keys (stamps r) pre) as Hbad; [|rewrite Hpre in Hbad; by apply elem_of_nil in Hbad].
      unfold keys. apply list_elem_of_fmap. exists (s', k'). split; [done|].
      apply elem_of_Lfilter. split; [done|]. by apply live_true.
    + change (abs _) with (keys (delete key (stamps r)) queue). rewrite (keys_without (stamps r) _ key).
      * apply lru_without_absent. by eapply live_key_unique.
      * intros k' Hne. by rewrite lookup_delete_ne.
      * intros s' _. by rewrite lookup_delete_eq.
  - destruct E as (Hk & -> & ->). unfold abs. rewrite Hk. cbn. split; [|done].
    split; cbn; [constructor|by intros ? ? ?%elem_of_nil|].
    intros k s Hs. assert (k ∈ abs r) as Hin by (by apply elem_of_keys; eauto).
    unfold abs in Hin. rewrite Hk in Hin. by apply elem_of_nil in Hin.
Qed.

Lemma run_sim r ops :
  inv r -> fst (run impl_step r ops) = fst (run spec_step (abs r) ops)
    /\ inv (snd (run impl_step r ops))
    /\ abs (snd (run impl_step r ops)) = snd (run spec_step (abs r) ops).
Proof.
  revert r. induction ops as [|op ops IH]; intros r Hi; [done|]. cbn [run].
  assert (exists r', impl_step r op = (fst (spec_step (abs r) op), r') /\ inv r'
    /\ abs r' = snd (spec_step (abs r) op)) as (r' & Hs & Hi' & Ha).
  { destruct op as [key|key| |]; cbn [impl_step spec_step].
    - destruct (touch_sim key r Hi). eauto.
    - destruct (remove_sim key r Hi) as (? & ? & <-). destruct (remove key r). eauto.
    - destruct (pop_sim r Hi) as [? Hp]. destruct (pop_oldest r) as [k r'].
      cbn [fst snd] in Hp. destruct (abs r) as [|a l]; destruct Hp as [-> ?]; cbn in *; eauto.
    - unfold recency_len. rewrite <- keys_length by done. eauto. }
  rewrite Hs. destruct (spec_step (abs r) op) as [out l]. cbn [fst snd] in *. subst l.
  destruct (IH r' Hi') as (H1 & H2 & H3).
  destruct (run impl_step r' ops), (run spec_step (abs r') ops). cbn [fst snd] in *.
  subst. done.
Qed.

Lemma inv_default : inv Recency_default.
Proof. split; cbn; [constructor|by intros ? ? ?%elem_of_nil|by intros ? ? ?]. Qed.

(** The stamped queue is a least-recently-used list: every sequence of
    touches, removals, evictions and length queries answers exactly as the
    list of keys in order of last use does, and the keys held at the end, in
    order, are that list. *)
Theorem recency_refines_lru ops :
  fst (run impl_step Recency_default ops) = fst (run spec_step [] ops)
  /\ reverse (most_recent_first (snd (run impl_step Recency_default ops)))
     = snd (run spec_step [] ops).
Proof.
  destruct (run_sim Recency_default ops inv_default) as (Ho & Hi & Ha).
  change (abs Recency_default) with (@nil K) in *. split; [done|]. rewrite <- Ha.
  unfold most_recent_first, abs, keys. rewrite <- fmap_reverse. f_equal.
  generalize (order (snd (run impl_step Recency_default ops))). intros l.
  induction l as [|x l IH] using rev_ind; [done|].
  rewrite reverse_snoc. cbn [List.filter]. rewrite List.filter_app. cbn [List.filter].
  destruct (live _ x); [by rewrite reverse_cons, IH|by rewrite IH, app_nil_r].
Qed.

(** What bounds the queue after every touch and every removal of a held key. *)
Definition dense (r : Recency) : Prop :=
  length (order r) <= 2 * size (stamps r) + COMPACTION_SLACK.

Lemma compact_dense r : inv r -> dense (compact_if_sparse r).
Proof.
  intros Hi. unfold dense, compact_if_sparse.
  destruct (Nat.ltb_spec (2 * size (stamps r) + COMPACTION_SLACK) (length (order r))); [|done].
  cbn [stamps order]. pose proof (keys_length r Hi) as Hl. unfold keys in Hl.
  rewrite length_fmap in Hl. lia.
Qed.

(** The queue stays within twice the keys: whatever operations led to a
    state, after a touch, and after a removal that found its key, the queue
    holds at most two pairs per held key and the constant slack. *)
Theorem recency_queue_bounded ops key :
  let r := snd (run impl_step Recency_default ops) in
  dense (touch key r) /\ (fst (remove key r) = true -> dense (snd (remove key r))).
Proof.
  intros r. destruct (run_sim Recency_default ops inv_default) as (_ & Hi & _). fold r in Hi.
  split; [by apply compact_dense, inv_pushed|].
  unfold remove. cbn [fst snd]. intros ->. by apply compact_dense, inv_dropped.
Qed.
End Recency.

(** Sixty keys, the last touched sixty times more, and all but it evicted. *)
Definition eviction_run : list (Op (K:=nat)) :=
  (Touch <$> seq 0 60) ++ repeat (Touch 59) 60 ++ repeat PopOldest 59.

(** Evictions do not compact: after a run of evictions one key can be held
    while the queue still holds sixty-one pairs, more than the two per key and
    slack that a touch restores. *)
Theorem recency_pop_sparse :
  let r := snd (run impl_step Recency_default eviction_run) in
  recency_len r = 1 /\ length (order r) = 61 /\ ~ dense r /\ dense (touch 59 r).
Proof.
  cbn zeta. split_and!; [vm_compute; reflexivity|vm_compute; reflexivity|..].
  - unfold dense. intros Hd. vm_compute in Hd. lia.
  - unfold dense. vm_compute. lia.
Qed.
