(* ===== verification/Timer.v ===== *)
(** * The timer wheel ([e6ircd/src/core/timer.rs])

    Timers are hashed by tick into a fixed number of buckets; advancing drains
    the buckets the clock passes, or all of them when it jumps a whole
    revolution.  The specification is a flat list of timers from which advancing
    takes exactly those whose tick has come. *)

From S2P Require Import Prelude.

Local Open Scope Z_scope.

Section Timer.
Context {T : Type}.











(** ** Invariant and specification *)















(** ** Runs against the flat list *)








End Timer.

