(* ===== verification/Queue.v ===== *)
(** * The bounded queue ([e6irc-queue/src/lib.rs])

    The queue every shard, worker and connection is fed by: bounded by weight,
    with events in push order (or freshest first under overload), producers
    that park in line for room, and a consumer that parks for events.  Each
    operation takes the queue's lock once, so it is one function on the state;
    the wakers it calls after releasing the lock are part of its result.  The
    second half composes them into a system of producers, futures and a
    consumer that interleave freely, and shows that no wake is lost.
    [Progress], the counter with an arming bit, is at the end: its [advance]
    is two atomic steps. *)

From stdpp Require Import gmap sorting.
From S2P Require Import Prelude.

Local Open Scope Z_scope.

Inductive Policy : Type := PolicyFifo | AdaptiveLifo (high_watermark low_watermark : Z).
Inductive Mode : Type := Fifo | Lifo.
#[global] Instance Mode_eq_dec : EqDecision Mode.
Proof. solve_decision. Defined.

Record Config : Type := MkConfig { capacity : Z; policy : Policy }.

Record Envelope {T : Type} : Type := MkEnvelope { seq : Z; payload : T }.
Arguments Envelope : clear implicits.
Arguments MkEnvelope {T}.

Inductive PushError (T : Type) : Type := Full (p : T) | Closed (p : T).
Arguments Full {T}.
Arguments Closed {T}.

Inductive Poll (A : Type) : Type := Ready (a : A) | Pending.
Arguments Ready {A}.
Arguments Pending {A}.

(** A waker: whose it is, and which of the wakers its owner was polled with. *)
Inductive Waker : Type := ProducerWaker (future n : Z) | ConsumerWaker (n : Z) | WatcherWaker (watcher n : Z).
#[global] Instance Waker_eq_dec : EqDecision Waker.
Proof. solve_decision. Defined.

Record PushWaiter : Type := MkWaiter { pw_id : Z; pw_weight : Z; pw_waker : Waker }.

Record State {T : Type} : Type := MkState {
  buf : list (Envelope T * Z);
  load : Z;
  next_seq : Z;
  mode : Mode;
  mode_switches : Z;
  sender_count : Z;
  receiver_alive : bool;
  waker : option Waker;
  gone_wakers : list Waker;
  push_wakers : list PushWaiter;
  next_push_waiter : Z;
}.
Arguments State : clear implicits.
Arguments MkState {T}.

Record QueueMetrics : Type := MkMetrics { enabled : bool; m_depth : Z; m_mode : Mode; m_switches : Z }.

Record Shared {T : Type} : Type := MkShared { metrics : QueueMetrics; state : State T }.
Arguments Shared : clear implicits.
Arguments MkShared {T}.

Section Queue.
Context {T : Type} (config : Config) (weigh : T -> Z).
Abbreviation State := (State T).
Abbreviation Shared := (Shared T).

(** [weighted_queue]; [None] where it panics. *)
Definition weighted_queue : option Shared :=
  if negb (0 <? capacity config) then None
  else if match policy config with
          | AdaptiveLifo high low => negb ((low <? high) && (high <=? capacity config))
          | PolicyFifo => false
          end then None
  else Some (MkShared (MkMetrics false 0 Fifo 0) (MkState [] 0 0 Fifo 0 1 true None [] [] 0)).

Definition fits (load weight capacity : Z) : bool := (load =? 0) || (saturating_add load weight <=? capacity).

Definition next_sequence (st : State) : option (Z * State) :=
  n ← checked_add_u64 (next_seq st) 1;
  Some (next_seq st, MkState (buf st) (load st) n (mode st) (mode_switches st) (sender_count st) (receiver_alive st) (waker st)
    (gone_wakers st) (push_wakers st) (next_push_waiter st)).

Definition admits (weight : Z) (st : State) : bool := fits (load st) weight (capacity config).

Definition set_line (l : list PushWaiter) (st : State) : State :=
  MkState (buf st) (load st) (next_seq st) (mode st) (mode_switches st) (sender_count st) (receiver_alive st) (waker st)
    (gone_wakers st) l (next_push_waiter st).

(** How many waiters at the front fit once those ahead have pushed. *)
Fixpoint admitted_count (load : Z) (line : list PushWaiter) : nat :=
  match line with
  | [] => 0
  | waiter :: line =>
      if fits load (pw_weight waiter) (capacity config) then S (admitted_count (saturating_add load (pw_weight waiter)) line) else 0
  end.

Definition take_admitted_waiters (st : State) : list Waker * State :=
  let admitted := admitted_count (load st) (push_wakers st) in
  (pw_waker <$> take admitted (push_wakers st), set_line (drop admitted (push_wakers st)) st).

Definition set_buf (b : list (Envelope T * Z)) (l : Z) (st : State) : State :=
  MkState b l (next_seq st) (mode st) (mode_switches st) (sender_count st) (receiver_alive st) (waker st)
    (gone_wakers st) (push_wakers st) (next_push_waiter st).

(** [usize] arithmetic wraps. *)
Definition enqueue (e : Envelope T) (weight : Z) (st : State) : State :=
  set_buf (buf st ++ [(e, weight)]) ((load st + weight) mod 2 ^ 64) st.

Definition pop_back {A} (l : list A) : option (A * list A) := x ← last l; Some (x, removelast l).
Definition pop_front {A} (l : list A) : option (A * list A) := match l with x :: l => Some (x, l) | [] => None end.

Definition dequeue (st : State) : option (Envelope T * State) :=
  '((e, weight), b) ← match mode st with Fifo => pop_front (buf st) | Lifo => pop_back (buf st) end;
  Some (e, set_buf b ((load st - weight) mod 2 ^ 64) st).

Definition set_mode (m : Mode) (st : State) : State :=
  MkState (buf st) (load st) (next_seq st) m ((mode_switches st + 1) mod 2 ^ 64) (sender_count st) (receiver_alive st) (waker st)
    (gone_wakers st) (push_wakers st) (next_push_waiter st).

Definition update_mode (st : State) : State :=
  match policy config with
  | PolicyFifo => st
  | AdaptiveLifo high low =>
      match mode st with
      | Fifo => if high <=? load st then set_mode Lifo st else st
      | Lifo => if load st <=? low then set_mode Fifo st else st
      end
  end.

Definition weight_of (p : T) : Z := Z.max (weigh p) 1.

Definition publish (st : State) (m : QueueMetrics) : QueueMetrics :=
  if negb (enabled m) then m else MkMetrics (enabled m) (load st) (mode st) (mode_switches st).

Definition set_waker (w : option Waker) (st : State) : State :=
  MkState (buf st) (load st) (next_seq st) (mode st) (mode_switches st) (sender_count st) (receiver_alive st) w
    (gone_wakers st) (push_wakers st) (next_push_waiter st).

Definition opt_wakers (o : option Waker) : list Waker := match o with Some w => [w] | None => [] end.

(** What admission does, in [try_push] and in [Push::poll]. *)
Definition accept (p : T) (weight : Z) (sh : Shared) : option (Z * Shared * list Waker) :=
  '(s, st) ← next_sequence (state sh);
  let st := update_mode (enqueue (MkEnvelope s p) weight st) in
  Some (s, MkShared (publish st (metrics sh)) (set_waker None st), opt_wakers (waker st)).

Definition try_push (p : T) (sh : Shared) : option (result (PushError T) Z * Shared * list Waker) :=
  let weight := weight_of p in
  if negb (receiver_alive (state sh)) then Some (Err (Closed p), sh, [])
  else if negb (admits weight (state sh)) then Some (Err (Full p), sh, [])
  else '(s, sh, wakers) ← accept p weight sh; Some (Ok s, sh, wakers).

Definition take_queued (sh : Shared) : list T * Shared * list Waker :=
  let taken := (fun e => payload (fst e)) <$> buf (state sh) in
  let st := update_mode (set_buf [] 0 (state sh)) in
  let m := publish st (metrics sh) in
  let '(wakers, st) := take_admitted_waiters st in
  (taken, MkShared m st, wakers).

Definition depth (sh : Shared) : Z := load (state sh).

Definition monitor (sh : Shared) : Shared :=
  MkShared (MkMetrics true (load (state sh)) (mode (state sh)) (mode_switches (state sh))) (state sh).

(** *** Parked producers *)

Record ParkedProducer : Type := MkParked { pp_weight : Z; waiter : option Z }.

Definition set_next_waiter (n : Z) (st : State) : State :=
  MkState (buf st) (load st) (next_seq st) (mode st) (mode_switches st) (sender_count st) (receiver_alive st) (waker st)
    (gone_wakers st) (push_wakers st) n.

Definition refresh (id : Z) (w : Waker) (line : list PushWaiter) : list PushWaiter :=
  (fun candidate => if pw_id candidate =? id then MkWaiter (pw_id candidate) (pw_weight candidate) w else candidate) <$> line.

Definition park (pp : ParkedProducer) (w : Waker) (st : State) : option (ParkedProducer * State) :=
  '(id, st) ← match waiter pp with
              | Some id => Some (id, st)
              | None => n ← checked_add_u64 (next_push_waiter st) 1; Some (next_push_waiter st, set_next_waiter n st)
              end;
  let line := push_wakers st in
  Some (MkParked (pp_weight pp) (Some id),
        set_line (if existsb (fun candidate => pw_id candidate =? id) line then refresh id w line
                  else line ++ [MkWaiter id (pp_weight pp) w]) st).

Definition remove_push_waiter (waiter : option Z) (st : State) : bool * State :=
  match waiter with
  | None => (false, st)
  | Some id =>
      let line := List.filter (fun candidate => negb (pw_id candidate =? id)) (push_wakers st) in
      (negb (length line =? length (push_wakers st))%nat, set_line line st)
  end.

Definition served (pp : ParkedProducer) (st : State) : ParkedProducer * State :=
  (MkParked (pp_weight pp) None, snd (remove_push_waiter (waiter pp) st)).

(** [Drop for ParkedProducer]. *)
Definition drop_parked (pp : ParkedProducer) (st : State) : State * list Waker :=
  match waiter pp with
  | None => (st, [])
  | Some id =>
      let '(still_parked, st) := remove_push_waiter (Some id) st in
      if still_parked then (st, []) else let '(next, st) := take_admitted_waiters st in (st, next)
  end.

(** [Push::poll], of a push not yet ready. *)
Definition poll_push (pp : ParkedProducer) (p : T) (w : Waker) (sh : Shared)
    : option (Poll (result T Z) * ParkedProducer * Shared * list Waker) :=
  if negb (receiver_alive (state sh)) then
    let '(pp, st) := served pp (state sh) in Some (Ready (Err p), pp, MkShared (metrics sh) st, [])
  else if admits (pp_weight pp) (state sh) then
    let '(pp, st) := served pp (state sh) in
    '(s, sh, wakers) ← accept p (pp_weight pp) (MkShared (metrics sh) st);
    Some (Ready (Ok s), pp, sh, wakers)
  else
    '(pp, st) ← park pp w (state sh);
    Some (Pending, pp, MkShared (metrics sh) st, []).

(** [Room::poll]. *)
Definition poll_room (pp : ParkedProducer) (w : Waker) (sh : Shared) : option (Poll unit * ParkedProducer * Shared) :=
  if negb (receiver_alive (state sh)) || admits (pp_weight pp) (state sh) then
    let '(pp, st) := served pp (state sh) in Some (Ready tt, pp, MkShared (metrics sh) st)
  else
    '(pp, st) ← park pp w (state sh);
    Some (Pending, pp, MkShared (metrics sh) st).

(** *** The consumer *)

(** What a pop that found an event does. *)
Definition popped (e : Envelope T) (m : QueueMetrics) (st : State) : Shared * list Waker :=
  let st := update_mode st in
  let m := publish st m in
  let '(wakers, st) := take_admitted_waiters st in
  (MkShared m st, wakers).

Definition try_pop (sh : Shared) : option (Envelope T) * Shared * list Waker :=
  match dequeue (state sh) with
  | None => (None, sh, [])
  | Some (e, st) => let '(sh, wakers) := popped e (metrics sh) st in (Some e, sh, wakers)
  end.

Definition poll_pop (w : Waker) (sh : Shared) : Poll (option (Envelope T)) * Shared * list Waker :=
  match dequeue (state sh) with
  | Some (e, st) => let '(sh, wakers) := popped e (metrics sh) st in (Ready (Some e), sh, wakers)
  | None =>
      if sender_count (state sh) =? 0 then (Ready None, sh, [])
      else (Pending, MkShared (metrics sh) (set_waker (Some w) (state sh)), [])
  end.

Definition set_senders (n : Z) (w : option Waker) (gone : list Waker) (st : State) : State :=
  MkState (buf st) (load st) (next_seq st) (mode st) (mode_switches st) n (receiver_alive st) w
    gone (push_wakers st) (next_push_waiter st).

(** [SendersGone::wait]. *)
Definition poll_gone (w : Waker) (sh : Shared) : Poll unit * Shared :=
  let st := state sh in
  if sender_count st =? 0 then (Ready tt, sh)
  else (Pending,
        MkShared (metrics sh)
          (if existsb (fun v => bool_decide (v = w)) (gone_wakers st) then st
           else set_senders (sender_count st) (waker st) (gone_wakers st ++ [w]) st)).

Definition clone_sender (sh : Shared) : Shared :=
  let st := state sh in
  MkShared (metrics sh) (set_senders ((sender_count st + 1) mod 2 ^ 64) (waker st) (gone_wakers st) st).

Definition drop_sender (sh : Shared) : Shared * list Waker :=
  let st := state sh in
  let n := (sender_count st - 1) mod 2 ^ 64 in
  if 0 <? n then (MkShared (metrics sh) (set_senders n (waker st) (gone_wakers st) st), [])
  else (MkShared (metrics sh) (set_senders n None [] st), opt_wakers (waker st) ++ gone_wakers st).

Definition drop_receiver (sh : Shared) : Shared * list Waker :=
  let st := state sh in
  (MkShared (metrics sh)
     (MkState (buf st) (load st) (next_seq st) (mode st) (mode_switches st) (sender_count st) false (waker st)
        (gone_wakers st) [] (next_push_waiter st)),
   pw_waker <$> push_wakers st).

(** ** The system

    Senders, the futures of [push] and [room_for] borrowed from them, the
    consumer and the watchers of [senders_gone], each polled by a task of its
    own.  A future whose [room_for] resolved stays until it has offered its
    event, as [room_for] asks; any other may be dropped at any time.  A wake
    called after the lock was released counts as given. *)

Record Future : Type := MkFuture {
  f_sender : Z;
  f_parked : ParkedProducer;
  f_payload : T;
  f_room : bool;
  f_granted : bool;
  f_waker : option Waker;
}.

Inductive Out : Type := Popped (e : Envelope T) | Retracted (p : T).
Definition out_payload (o : Out) : T := match o with Popped e => payload e | Retracted p => p end.

Record Sys : Type := MkSys {
  shared : Shared;
  senders : gset Z;
  futures : gmap Z Future;
  (** [None] once the receiver is dropped; within, the waker of a pending pop. *)
  consumer : option (option Waker);
  watchers : gmap Z Waker;
  (** The wakers called since their owners were last polled. *)
  woken : list Waker;
  (** Every event accepted, in order, and everything that left the queue. *)
  accepted : list T;
  outs : list Out;
}.

Inductive Op : Type :=
| OpTryPush (s : Z) (p : T)
| OpTakeQueued (s : Z)
| OpMonitor (s : Z)
| OpPush (s f : Z) (p : T)
| OpRoomFor (s f : Z) (p : T)
| OpPoll (f n : Z)
| OpOffer (f : Z)
| OpDropFuture (f : Z)
| OpTryPop
| OpPollPop (n : Z)
| OpDropPop
| OpPollGone (g n : Z)
| OpClone (s s' : Z)
| OpDropSender (s : Z)
| OpDropReceiver.

Definition without (w : Waker) (l : list Waker) : list Waker := List.filter (fun v => negb (bool_decide (v = w))) l.

Definition with_futures (sh : Shared) (fs : gmap Z Future) (wakes : list Waker) (got : list T) (y : Sys) : Sys :=
  MkSys sh (senders y) fs (consumer y) (watchers y) (woken y ++ wakes) (accepted y ++ got) (outs y).

Definition with_consumer (sh : Shared) (c : option (option Waker)) (wakes : list Waker) (out : list Out) (y : Sys) : Sys :=
  MkSys sh (senders y) (futures y) c (watchers y) (woken y ++ wakes) (accepted y) (outs y ++ out).

Definition polled (w : Waker) (y : Sys) : Sys :=
  MkSys (shared y) (senders y) (futures y) (consumer y) (watchers y) (without w (woken y)) (accepted y) (outs y).

Definition pushed (p : T) (r : result (PushError T) Z) : list T := match r with Ok _ => [p] | Err _ => [] end.

Definition poll_future (f n : Z) (F : Future) (y : Sys) : option Sys :=
  let w := ProducerWaker f n in
  let y := polled w y in
  if f_room F then
    '(r, pp, sh) ← poll_room (f_parked F) w (shared y);
    Some (with_futures sh
      (<[f := MkFuture (f_sender F) pp (f_payload F) true (match r with Ready _ => true | Pending => false end) (Some w)]> (futures y)) [] [] y)
  else
    '(r, pp, sh, wakes) ← poll_push (f_parked F) (f_payload F) w (shared y);
    Some (match r with
          | Ready (Ok _) => with_futures sh (delete f (futures y)) wakes [f_payload F] y
          | Ready (Err _) => with_futures sh (delete f (futures y)) wakes [] y
          | Pending => with_futures sh (<[f := MkFuture (f_sender F) pp (f_payload F) false false (Some w)]> (futures y)) wakes [] y
          end).

Definition borrowed (s : Z) (fs : gmap Z Future) : bool := existsb (fun x => f_sender (snd x) =? s) (map_to_list fs).

(** One operation; [None] is a panic.  What cannot happen (an operation on a
    handle that does not exist, a borrow still held) changes nothing. *)
Definition sys_step (y : Sys) (o : Op) : option Sys :=
  let sh := shared y in
  match o with
  | OpTryPush s p =>
      if negb (bool_decide (s ∈ senders y)) then Some y
      else '(r, sh, wakes) ← try_push p sh; Some (with_futures sh (futures y) wakes (pushed p r) y)
  | OpTakeQueued s =>
      if negb (bool_decide (s ∈ senders y)) then Some y
      else let '(taken, sh, wakes) := take_queued sh in Some (with_consumer sh (consumer y) wakes (Retracted <$> taken) y)
  | OpMonitor s =>
      if negb (bool_decide (s ∈ senders y)) then Some y else Some (with_consumer (monitor sh) (consumer y) [] [] y)
  | OpPush s f p =>
      if negb (bool_decide (s ∈ senders y)) || bool_decide (is_Some (futures y !! f)) then Some y
      else Some (with_futures sh (<[f := MkFuture s (MkParked (weight_of p) None) p false false None]> (futures y)) [] [] y)
  | OpRoomFor s f p =>
      if negb (bool_decide (s ∈ senders y)) || bool_decide (is_Some (futures y !! f)) then Some y
      else Some (with_futures sh (<[f := MkFuture s (MkParked (weight_of p) None) p true false None]> (futures y)) [] [] y)
  | OpPoll f n =>
      match futures y !! f with
      | Some F => if f_granted F then Some y else poll_future f n F y
      | None => Some y
      end
  | OpOffer f =>
      match futures y !! f with
      | Some F =>
          if f_granted F then
            '(r, sh, wakes) ← try_push (f_payload F) sh;
            Some (with_futures sh (delete f (futures y)) wakes (pushed (f_payload F) r) y)
          else Some y
      | None => Some y
      end
  | OpDropFuture f =>
      match futures y !! f with
      | Some F =>
          if f_granted F then Some y
          else let '(st, wakes) := drop_parked (f_parked F) (state sh) in
               Some (with_futures (MkShared (metrics sh) st) (delete f (futures y)) wakes [] y)
      | None => Some y
      end
  | OpTryPop =>
      match consumer y with
      | Some None =>
          let '(e, sh, wakes) := try_pop sh in
          Some (with_consumer sh (Some None) wakes (match e with Some e => [Popped e] | None => [] end) y)
      | _ => Some y
      end
  | OpPollPop n =>
      match consumer y with
      | Some _ =>
          let y := polled (ConsumerWaker n) y in
          let '(r, sh, wakes) := poll_pop (ConsumerWaker n) sh in
          Some (match r with
                | Ready (Some e) => with_consumer sh (Some None) wakes [Popped e] y
                | Ready None => with_consumer sh (Some None) wakes [] y
                | Pending => with_consumer sh (Some (Some (ConsumerWaker n))) wakes [] y
                end)
      | None => Some y
      end
  | OpDropPop => Some (match consumer y with Some _ => with_consumer sh (Some None) [] [] y | None => y end)
  | OpPollGone g n =>
      let y := polled (WatcherWaker g n) y in
      let '(r, sh) := poll_gone (WatcherWaker g n) sh in
      Some (MkSys sh (senders y) (futures y) (consumer y)
              (match r with Ready _ => delete g (watchers y) | Pending => <[g := WatcherWaker g n]> (watchers y) end)
              (woken y) (accepted y) (outs y))
  | OpClone s s' =>
      if negb (bool_decide (s ∈ senders y)) || bool_decide (s' ∈ senders y) then Some y
      else Some (MkSys (clone_sender sh) ({[s']} ∪ senders y) (futures y) (consumer y) (watchers y) (woken y) (accepted y) (outs y))
  | OpDropSender s =>
      if negb (bool_decide (s ∈ senders y)) || borrowed s (futures y) then Some y
      else let '(sh, wakes) := drop_sender sh in
           Some (MkSys sh (senders y ∖ {[s]}) (futures y) (consumer y) (watchers y) (woken y ++ wakes) (accepted y) (outs y))
  | OpDropReceiver =>
      match consumer y with
      | Some _ => let '(sh, wakes) := drop_receiver sh in Some (with_consumer sh None wakes [] y)
      | None => Some y
      end
  end.

Definition Sys_new (s : Z) (sh : Shared) : Sys := MkSys sh {[s]} ∅ (Some None) ∅ [] [] [].

Fixpoint sys_run (y : Sys) (ops : list Op) : option Sys :=
  match ops with [] => Some y | o :: ops => y ← sys_step y o; sys_run y ops end.

(** ** The buffer *)

Context (Hcap : 0 < capacity config < U64_MAX) (Hweigh : forall p, 0 <= weigh p <= U64_MAX).
Context (Hmarks : match policy config with AdaptiveLifo high low => 0 <= low < high | PolicyFifo => True end).

Definition total (b : list (Envelope T * Z)) : Z := foldr (fun x n => snd x + n) 0 b.

(** The load is what is buffered, and more than the capacity only for one
    event that found the queue empty; the mode follows the load between the
    watermarks, and each change of it is counted. *)
Record queue_ok (st : State) : Prop := {
  q_load : load st = total (buf st);
  q_weights : Forall (fun x => 1 <= snd x <= U64_MAX) (buf st);
  q_bound : load st <= capacity config \/ length (buf st) = 1%nat;
  q_mode : match policy config with
           | PolicyFifo => mode st = Fifo
           | AdaptiveLifo high low => match mode st with Fifo => load st < high | Lifo => low < load st end
           end;
  q_switches : Z.odd (mode_switches st) = bool_decide (mode st = Lifo);
}.

Lemma total_app a b : total (a ++ b) = total a + total b.
Proof. unfold total. induction a as [|x a IH]; cbn; [done|]. rewrite IH. lia. Qed.

Lemma total_nonneg b : Forall (fun x => 1 <= snd x <= U64_MAX) b -> Z.of_nat (length b) <= total b.
Proof. induction 1 as [|x b Hx _ IH]; cbn; [done|]. unfold total in *. lia. Qed.

Lemma weight_range p : 1 <= weight_of p <= U64_MAX.
Proof. unfold weight_of. pose proof (Hweigh p). unfold U64_MAX in *. lia. Qed.

Lemma fits_sum l w : 0 <= l -> 1 <= w <= U64_MAX -> fits l w (capacity config) = true -> l + w <= U64_MAX /\ (l = 0 \/ l + w <= capacity config).
Proof. unfold fits, saturating_add. rewrite orb_true_iff, Z.eqb_eq, Z.leb_le. unfold U64_MAX in *. lia. Qed.

Lemma odd_switch n : Z.odd ((n + 1) mod 2 ^ 64) = negb (Z.odd n).
Proof. rewrite <- !Z.bit0_odd, Z.mod_pow2_bits_low, !Z.bit0_odd, Z.odd_add by lia. by destruct (Z.odd n). Qed.

(** [update_mode] touches the mode and its counter only, and restores the
    mode's place between the watermarks. *)
Lemma update_mode_frame st :
  exists m n, update_mode st = MkState (buf st) (load st) (next_seq st) m n (sender_count st) (receiver_alive st) (waker st)
    (gone_wakers st) (push_wakers st) (next_push_waiter st)
  /\ (policy config = PolicyFifo -> m = mode st)
  /\ (match policy config with
      | PolicyFifo => True
      | AdaptiveLifo high low => match m with Fifo => load st < high | Lifo => low < load st end
      end)
  /\ (Z.odd (mode_switches st) = bool_decide (mode st = Lifo) -> Z.odd n = bool_decide (m = Lifo)).
Proof.
  unfold update_mode. destruct st as [b l ns m n sc ra w gw pw nw]. cbn. destruct (policy config) as [|high low]; [by eexists _, _|].
  destruct m; [destruct (Z.leb_spec high l)|destruct (Z.leb_spec l low)]; unfold set_mode; cbn; eexists _, _; (split; [done|]); cbn;
    (split; [done|]); (split; [lia|]); rewrite ?odd_switch; by intros ->.
Qed.

Lemma remode_ok st :
  load st = total (buf st) -> Forall (fun x => 1 <= snd x <= U64_MAX) (buf st) ->
  (load st <= capacity config \/ length (buf st) = 1%nat) ->
  (policy config = PolicyFifo -> mode st = Fifo) -> Z.odd (mode_switches st) = bool_decide (mode st = Lifo) ->
  queue_ok (update_mode st).
Proof.
  intros Hl Hw Hb Hp Hs. destruct (update_mode_frame st) as (m & n & -> & Hf & Hm & Hs'). split; cbn; [done|done|done| |by apply Hs'].
  destruct (policy config); [|done]. rewrite Hf by done. by apply Hp.
Qed.

Lemma mode_fifo st : queue_ok st -> policy config = PolicyFifo -> mode st = Fifo.
Proof. intros [_ _ _ Hm _] E. by rewrite E in Hm. Qed.

Lemma load_nonneg st : queue_ok st -> 0 <= load st /\ (load st = 0 <-> buf st = []).
Proof.
  intros [Hl Hw _ _ _]. pose proof (total_nonneg _ Hw). split; [lia|]. split; intros E; [|by rewrite Hl, E].
  destruct (buf st); [done|cbn in *; lia].
Qed.

Lemma enqueue_ok e w st :
  queue_ok st -> 1 <= w <= U64_MAX -> admits w st = true ->
  queue_ok (update_mode (enqueue e w st)) /\ buf (enqueue e w st) = buf st ++ [(e, w)] /\ load (enqueue e w st) = load st + w.
Proof.
  intros Hq Hr Ha. pose proof (load_nonneg st Hq) as [Hn He]. pose proof (mode_fifo st Hq) as Hp. destruct Hq as [Hl Hw Hb Hm Hs].
  apply fits_sum in Ha as [Hsum Ha]; [|lia|done]. unfold enqueue. rewrite Z.mod_small by (unfold U64_MAX in *; lia).
  split; [|done]. apply remode_ok; cbn; [| | |done|done].
  - rewrite total_app. cbn. lia.
  - apply Forall_app. split; [done|]. by apply Forall_singleton.
  - rewrite length_app. destruct Ha as [Ha|Ha]; [right|by left]. apply He in Ha. by rewrite Ha.
Qed.

(** Where an event leaves the buffer. *)
Definition leaves (m : Mode) (x : Envelope T * Z) (b b' : list (Envelope T * Z)) : Prop :=
  match m with Fifo => b = x :: b' | Lifo => b = b' ++ [x] end.

Lemma pop_back_spec {A} (l : list A) :
  match pop_back l with Some (x, l') => l = l' ++ [x] | None => l = [] end.
Proof.
  unfold pop_back. destruct (last l) as [x|] eqn:E; cbn; [|by apply last_None].
  apply last_Some in E as [l' ->]. by rewrite removelast_last.
Qed.

Lemma leaves_total m x b b' : leaves m x b b' -> total b = snd x + total b' /\ length b = S (length b') /\ b ≡ₚ x :: b'.
Proof.
  destruct m; cbn; intros ->; [done|]. rewrite total_app, length_app. cbn. split; [lia|]. split; [lia|]. by rewrite Permutation_app_comm.
Qed.

Lemma dequeue_ok st :
  queue_ok st ->
  match dequeue st with
  | None => buf st = []
  | Some (e, st') => exists w b, leaves (mode st) (e, w) (buf st) b /\ st' = set_buf b (load st - w) st /\ 0 <= load st - w
      /\ queue_ok (update_mode st')
  end.
Proof.
  intros Hq. pose proof (mode_fifo st Hq) as Hp. destruct Hq as [Hl Hw Hb Hm Hs]. unfold dequeue.
  assert (Hx : match match mode st with Fifo => pop_front (buf st) | Lifo => pop_back (buf st) end with
               | Some (x, b) => leaves (mode st) x (buf st) b | None => buf st = [] end).
  { destruct (mode st); cbn; [by destruct (buf st)|]. pose proof (pop_back_spec (buf st)). by destruct (pop_back (buf st)) as [[]|]. }
  destruct (match mode st with Fifo => _ | Lifo => _ end) as [[[e w] b]|]; cbn [mbind option_bind]; [|done].
  pose proof (leaves_total _ _ _ _ Hx) as (Ht & Hlen & Hperm). cbn [snd] in Ht.
  rewrite Hperm in Hw. apply Forall_cons in Hw as [Hw1 Hw]. cbn [snd] in Hw1. pose proof (total_nonneg _ Hw) as Hn.
  assert (Hbig : load st - w < 2 ^ 64).
  { destruct Hb as [Hb|Hb]; [unfold U64_MAX in *; lia|]. destruct b; [|cbn in *; lia]. cbn in Ht. lia. }
  rewrite Z.mod_small by lia. exists w, b. split; [done|]. split; [done|]. split; [lia|].
  apply remode_ok; cbn [set_buf load buf mode mode_switches]; [lia|done| |done|done]. left.
  destruct Hb as [Hb|Hb]; [lia|]. destruct b; cbn in *; lia.
Qed.

(** ** The line of producers *)

Abbreviation ids st := (pw_id <$> push_wakers st).

(** Each registration is a pending future's, with its weight and the waker it
    was last polled with; a pending future is registered or has been woken. *)
Record line_ok (st : State) (fs : gmap Z Future) (wk : list Waker) : Prop := {
  l_nodup : NoDup (ids st);
  l_listed : forall x, x ∈ push_wakers st -> exists f F, fs !! f = Some F /\ waiter (f_parked F) = Some (pw_id x)
      /\ pp_weight (f_parked F) = pw_weight x /\ f_waker F = Some (pw_waker x);
  l_waits : forall f F id, fs !! f = Some F -> waiter (f_parked F) = Some id ->
      f_granted F = false /\ id < next_push_waiter st
      /\ exists n, f_waker F = Some (ProducerWaker f n) /\ (id ∈ ids st \/ ProducerWaker f n ∈ wk);
  l_inj : forall f g F G id, fs !! f = Some F -> fs !! g = Some G -> waiter (f_parked F) = Some id -> waiter (f_parked G) = Some id -> f = g;
  l_weight : forall f F, fs !! f = Some F -> 1 <= pp_weight (f_parked F) <= U64_MAX;
  l_closed : receiver_alive st = false -> push_wakers st = [];
}.

(** With the queue empty and producers in line, one has been chosen, or holds
    room it is about to use. *)
Definition line_moves (st : State) (fs : gmap Z Future) : Prop :=
  receiver_alive st = true -> load st = 0 -> push_wakers st <> [] ->
  exists f F, fs !! f = Some F /\ (f_granted F = true \/ exists id, waiter (f_parked F) = Some id /\ (id ∉ ids st)).

Lemma line_ext st st' fs wk wk' :
  push_wakers st' = push_wakers st -> next_push_waiter st' = next_push_waiter st -> receiver_alive st' = receiver_alive st ->
  (forall w, w ∈ wk -> w ∈ wk') -> line_ok st fs wk -> line_ok st' fs wk'.
Proof.
  intros E1 E2 E3 Hw [H1 H2 H3 H4 H5 H6]. split; rewrite ?E1, ?E2, ?E3; try done.
  intros f F id Hf Hi. destruct (H3 f F id Hf Hi) as (? & ? & n & ? & Hd). split_and!; [done|done|]. exists n. split; [done|].
  destruct Hd; [by left|right; auto].
Qed.

Lemma without_elem w l v : v ∈ without w l <-> v ∈ l /\ v <> w.
Proof.
  unfold without. rewrite elem_of_Lfilter. rewrite negb_true_iff, bool_decide_eq_false. done.
Qed.

Lemma line_without st fs wk f n : fs !! f = None -> line_ok st fs wk -> line_ok st fs (without (ProducerWaker f n) wk).
Proof.
  intros Hn [H1 H2 H3 H4 H5 H6]. split; try done. intros g G id Hg Hi. destruct (H3 g G id Hg Hi) as (? & ? & n' & ? & Hd).
  split_and!; [done|done|]. exists n'. split; [done|]. destruct Hd; [by left|right]. apply without_elem. split; [done|].
  intros [= -> _]. congruence.
Qed.

Lemma line_idle st fs wk f F :
  fs !! f = None -> waiter (f_parked F) = None -> 1 <= pp_weight (f_parked F) <= U64_MAX ->
  line_ok st fs wk -> line_ok st (<[f := F]> fs) wk.
Proof.
  intros Hn Hw Hp [H1 H2 H3 H4 H5 H6]. split; try done.
  - intros x Hx. destruct (H2 x Hx) as (g & G & Hg & ?). exists g, G. split; [|done]. rewrite lookup_insert_ne; [done|congruence].
  - intros g G id [[<- <-]|[? Hg]]%lookup_insert_Some Hi; [congruence|by eapply H3].
  - intros g h G K id [[<- <-]|[? Hg]]%lookup_insert_Some [[<- <-]|[? Hh]]%lookup_insert_Some; try congruence. by eapply H4.
  - intros g G [[<- <-]|[? Hg]]%lookup_insert_Some; [done|by eapply H5].
Qed.

Lemma remove_line id st :
  push_wakers (snd (remove_push_waiter (Some id) st)) = List.filter (fun candidate => negb (pw_id candidate =? id)) (push_wakers st).
Proof. done. Qed.

Lemma elem_filter_line (x : PushWaiter) id l : x ∈ List.filter (fun c => negb (pw_id c =? id)) l <-> x ∈ l /\ pw_id x <> id.
Proof. rewrite elem_of_Lfilter. by rewrite negb_true_iff, Z.eqb_neq. Qed.

Lemma NoDup_filter_ids f (l : list PushWaiter) : NoDup (pw_id <$> l) -> NoDup (pw_id <$> List.filter f l).
Proof.
  induction l as [|x l IH]; [done|]. cbn. rewrite NoDup_cons. intros [Hx Hl]. destruct (f x); [|by apply IH]. cbn. apply NoDup_cons.
  split; [|by apply IH]. intros (y & E & [Hy _]%elem_of_Lfilter)%list_elem_of_fmap. apply Hx. rewrite E. by apply list_elem_of_fmap_2.
Qed.

Lemma line_forget st fs wk f F :
  fs !! f = Some F -> line_ok st fs wk ->
  line_ok (snd (remove_push_waiter (waiter (f_parked F)) st)) (delete f fs) wk.
Proof.
  intros Hf [H1 H2 H3 H4 H5 H6]. destruct (waiter (f_parked F)) as [id|] eqn:Ei; cbn [remove_push_waiter snd].
  - split; cbn [set_line push_wakers next_push_waiter receiver_alive].
    + by apply NoDup_filter_ids.
    + intros x [Hx Hne]%elem_filter_line. destruct (H2 x Hx) as (g & G & Hg & Hw & ?). exists g, G. split; [|done].
      rewrite lookup_delete_ne; [done|]. intros ->. congruence.
    + intros g G id' [Hne Hg]%lookup_delete_Some Hi. destruct (H3 g G id' Hg Hi) as (? & ? & n & ? & Hd). split_and!; [done|done|].
      exists n. split; [done|]. destruct Hd as [Hd|]; [left|by right]. apply list_elem_of_fmap in Hd as (x & -> & Hx).
      apply list_elem_of_fmap. exists x. split; [done|]. apply elem_filter_line. split; [done|]. intros E. apply Hne. eapply H4; eauto. congruence.
    + intros g h G K id' [? Hg]%lookup_delete_Some [? Hh]%lookup_delete_Some. by eapply H4.
    + intros g G [? Hg]%lookup_delete_Some. by eapply H5.
    + intros Hr. by rewrite (H6 Hr).
  - split; try done.
    + intros x Hx. destruct (H2 x Hx) as (g & G & Hg & Hw & ?). exists g, G. split; [|done].
      rewrite lookup_delete_ne; [done|]. intros ->. congruence.
    + intros g G id' [? Hg]%lookup_delete_Some. by eapply H3.
    + intros g h G K id' [? Hg]%lookup_delete_Some [? Hh]%lookup_delete_Some. by eapply H4.
    + intros g G [? Hg]%lookup_delete_Some. by eapply H5.
Qed.

Lemma listed_take st fs wk :
  line_ok st fs wk ->
  let k := admitted_count (load st) (push_wakers st) in
  forall f F id, fs !! f = Some F -> waiter (f_parked F) = Some id -> id ∈ ids st ->
    id ∈ pw_id <$> drop k (push_wakers st) \/ exists v, f_waker F = Some v /\ v ∈ pw_waker <$> take k (push_wakers st).
Proof.
  intros [H1 H2 H3 H4 H5 H6]. cbn zeta. set (k := admitted_count _ _). intros f F id Hf Hi (x & -> & Hx)%list_elem_of_fmap.
  rewrite <- (take_drop k (push_wakers st)) in Hx. apply elem_of_app in Hx as [Hx|Hx]; [right|left; by apply list_elem_of_fmap_2].
  destruct (H2 x) as (g & G & Hg & Hw & _ & Hv); [rewrite <- (take_drop k (push_wakers st)); apply elem_of_app; by left|]. rewrite (H4 f g F G _ Hf Hg Hi Hw) in Hf.
  simplify_eq. exists (pw_waker x). split; [done|]. by apply list_elem_of_fmap_2.
Qed.

Lemma line_take st fs wk :
  line_ok st fs wk ->
  line_ok (snd (take_admitted_waiters st)) fs (wk ++ fst (take_admitted_waiters st)) /\ line_moves (snd (take_admitted_waiters st)) fs.
Proof.
  intros Hl. pose proof (listed_take st fs wk Hl) as Hlt. destruct Hl as [H1 H2 H3 H4 H5 H6]. unfold take_admitted_waiters. cbn [fst snd].
  set (k := admitted_count (load st) (push_wakers st)) in *. cbn zeta in Hlt.
  assert (Hdrop : forall x, x ∈ drop k (push_wakers st) -> x ∈ push_wakers st).
  { intros x Hx. rewrite <- (take_drop k (push_wakers st)). apply elem_of_app. by right. }
  split.
  - split; cbn [set_line push_wakers next_push_waiter receiver_alive]; try done.
    + rewrite fmap_drop. eapply sublist_NoDup; [exact H1|apply sublist_drop].
    + intros x Hx. by apply H2, Hdrop.
    + intros f F id Hf Hi. destruct (H3 f F id Hf Hi) as (? & ? & n & Hn & Hd). split_and!; [done|done|]. exists n. split; [done|].
      rewrite elem_of_app. destruct Hd as [Hd|]; [|by right; left]. destruct (Hlt f F id Hf Hi Hd) as [|(v & Hv & Hin)]; [by left|].
      right; right. by simplify_eq.
    + intros Hr. by rewrite (H6 Hr), drop_nil.
  - unfold line_moves. cbn [set_line push_wakers next_push_waiter receiver_alive load]. intros _ Hload Hne.
    destruct (push_wakers st) as [|x line] eqn:E; [by rewrite drop_nil in Hne|].
    destruct (H2 x) as (f & F & Hf & Hw & _); [by left|]. exists f, F. split; [done|]. right. exists (pw_id x). split; [done|].
    assert (exists k', k = S k') as [k' ->].
    { unfold k. cbn. unfold fits. rewrite Hload. cbn. by eexists. }
    cbn [drop]. cbn in H1. apply NoDup_cons in H1 as [H1 _]. intros (y & Ey & Hy)%list_elem_of_fmap. apply H1. rewrite Ey.
    apply list_elem_of_fmap_2. rewrite <- (take_drop k' line). apply elem_of_app. by right.
Qed.

(** What [park] makes of the line: [f]'s registration with the new waker, in
    its place or at the end, and every other as it was. *)
Lemma line_after st fs wk f F id w :
  line_ok st fs wk -> fs !! f = Some F ->
  (waiter (f_parked F) = Some id \/ waiter (f_parked F) = None /\ id = next_push_waiter st) ->
  (forall g G id', fs !! g = Some G -> g <> f -> waiter (f_parked G) = Some id' -> id' <> id) ->
  let line := if existsb (fun candidate => pw_id candidate =? id) (push_wakers st) then refresh id w (push_wakers st)
              else push_wakers st ++ [MkWaiter id (pp_weight (f_parked F)) w] in
  NoDup (pw_id <$> line)
  /\ (forall x, x ∈ line -> x = MkWaiter id (pp_weight (f_parked F)) w \/ x ∈ push_wakers st /\ pw_id x <> id)
  /\ (forall id', id' ∈ pw_id <$> line <-> id' = id \/ id' ∈ ids st).
Proof.
  intros [H1 H2 H3 H4 H5 H6] Hf Hw Hother. cbn zeta. destruct (existsb _ _) eqn:Ex.
  - assert (Hids : pw_id <$> refresh id w (push_wakers st) = ids st).
    { unfold refresh. rewrite <- list_fmap_compose. apply list_fmap_ext. intros i x _. cbn. by destruct (_ =? _). }
    rewrite Hids. split; [done|]. split.
    + intros x (y & -> & Hy)%list_elem_of_fmap. destruct (Z.eqb_spec (pw_id y) id) as [E|E]; [left|by right].
      destruct (H2 y Hy) as (g & G & HG & Hi & Hp & _). destruct (decide (g = f)) as [->|Hne]; [|by destruct (Hother g G (pw_id y))].
      simplify_eq. by rewrite Hp.
    + intros id'. split; [auto|]. intros [->|]; [|done]. apply existsb_exists in Ex as (x & Hx & E%Z.eqb_eq). rewrite <- E.
      apply list_elem_of_fmap_2. by apply list_elem_of_In.
  - assert (Hnot : id ∉ ids st).
    { intros (x & E & Hx)%list_elem_of_fmap. apply not_true_iff_false in Ex. apply Ex. apply existsb_exists. exists x.
      split; [by apply list_elem_of_In|]. by apply Z.eqb_eq. }
    rewrite fmap_app. cbn. split_and!.
    + apply NoDup_app. split; [done|]. split; [|apply NoDup_singleton]. intros id' Hin ->%list_elem_of_singleton. done.
    + intros x [Hx| ->%list_elem_of_singleton]%elem_of_app; [right|by left]. split; [done|]. intros <-. apply Hnot. by apply list_elem_of_fmap_2.
    + intros id'. rewrite elem_of_app, list_elem_of_singleton. tauto.
Qed.

Lemma line_park st fs wk f F n pp st' :
  fs !! f = Some F -> f_granted F = false -> receiver_alive st = true -> park (f_parked F) (ProducerWaker f n) st = Some (pp, st') ->
  line_ok st fs wk ->
  line_ok st' (<[f := MkFuture (f_sender F) pp (f_payload F) (f_room F) false (Some (ProducerWaker f n))]> fs) (without (ProducerWaker f n) wk)
  /\ exists id line next, pp = MkParked (pp_weight (f_parked F)) (Some id) /\ st' = set_line line (set_next_waiter next st)
     /\ next_push_waiter st <= next <= next_push_waiter st + 1.
Proof.
  intros Hf Hg Hr Hp Hl. unfold park in Hp.
  assert (Hid : exists id next, match waiter (f_parked F) with
      | Some id => Some (id, st)
      | None => n ← checked_add_u64 (next_push_waiter st) 1; Some (next_push_waiter st, set_next_waiter n st)
      end = Some (id, set_next_waiter next st) /\ next_push_waiter st <= next <= next_push_waiter st + 1 /\ id < next
      /\ (waiter (f_parked F) = Some id \/ waiter (f_parked F) = None /\ id = next_push_waiter st)).
  { destruct (waiter (f_parked F)) as [id|] eqn:Ew.
    - exists id, (next_push_waiter st). split; [by destruct st|]. destruct (l_waits _ _ _ Hl f F id Hf Ew) as (_ & ? & _). split_and!; auto; lia.
    - unfold checked_add_u64 in *. destruct (_ <=? _); [|done]. cbn [mbind option_bind] in *. eexists _, _. split; [done|]. split_and!; auto; lia. }
  destruct Hid as (id & next & E & Hnext & Hlt & Hw). rewrite E in Hp. cbn [mbind option_bind] in Hp.
  set (line := if existsb _ _ then _ else _) in Hp. injection Hp as <- <-. split; [|by eexists _, _, _].
  assert (Hother : forall g G id', fs !! g = Some G -> g <> f -> waiter (f_parked G) = Some id' -> id' <> id).
  { intros g G id' HG Hne Hi ->. destruct Hw as [Hw|[_ ->]]; [apply Hne; by eapply (l_inj _ _ _ Hl)|].
    destruct (l_waits _ _ _ Hl g G _ HG Hi) as (_ & ? & _). lia. }
  destruct (line_after st fs wk f F id (ProducerWaker f n) Hl Hf Hw Hother) as (Hnd & Hin & Hids).
  change (push_wakers (set_next_waiter next st)) with (push_wakers st) in line. fold line in Hnd, Hin, Hids.
  destruct Hl as [H1 H2 H3 H4 H5 H6]. split; cbn [set_line push_wakers next_push_waiter receiver_alive set_next_waiter].
  - done.
  - intros x Hx. destruct (Hin x Hx) as [->|[Hold Hne]].
    + exists f. eexists. rewrite lookup_insert_eq. by split_and!.
    + destruct (H2 x Hold) as (g & G & HG & Hi & ? & ?). exists g, G. split; [|done]. rewrite lookup_insert_ne; [done|].
      intros <-. simplify_eq. destruct Hw as [Hw|[Hw _]]; congruence.
  - intros g G id' [[<- <-]|[Hne HG]]%lookup_insert_Some Hi.
    + cbn in Hi. injection Hi as <-. split_and!; [done|lia|]. exists n. split; [done|]. left. apply Hids. by left.
    + destruct (H3 g G id' HG Hi) as (? & ? & n' & Hn & Hd). split_and!; [done|lia|]. exists n'. split; [done|].
      destruct Hd as [Hd|Hd]; [left; apply Hids; by right|right]. apply without_elem. split; [done|]. intros [= <- _]. done.
  - intros g h G K id' [[<- <-]|[Hne HG]]%lookup_insert_Some [[<- <-]|[Hne' HK]]%lookup_insert_Some Hi Hj; try done.
    + injection Hi as <-. by destruct (Hother h K id HK (not_eq_sym Hne') Hj).
    + injection Hj as <-. by destruct (Hother g G id HG (not_eq_sym Hne) Hi).
    + by eapply H4.
  - intros g G [[<- <-]|[? HG]]%lookup_insert_Some; [|by eapply H5]. by apply (H5 f F).
  - congruence.
Qed.

(** ** The system's invariant *)

Definition metrics_ok (sh : Shared) : Prop :=
  enabled (metrics sh) = true -> metrics sh = MkMetrics true (load (state sh)) (mode (state sh)) (mode_switches (state sh)).

(** A pending pop has its waker registered and nothing to find, or was woken;
    a watcher likewise. *)
Definition consumer_ok (st : State) (c : option (option Waker)) (wk : list Waker) : Prop :=
  forall v, c = Some (Some v) ->
    (exists n, v = ConsumerWaker n) /\ (v ∈ wk \/ waker st = Some v /\ buf st = [] /\ sender_count st <> 0).
Definition watch_ok (st : State) (ws : gmap Z Waker) (wk : list Waker) : Prop :=
  forall g v, ws !! g = Some v ->
    (exists n, v = WatcherWaker g n) /\ (v ∈ wk \/ v ∈ gone_wakers st /\ sender_count st <> 0).

Definition payloads (b : list (Envelope T * Z)) : list T := (fun x => payload (fst x)) <$> b.
Definition numbered (acc : list T) (e : Envelope T) : Prop := 0 <= seq e /\ acc !! Z.to_nat (seq e) = Some (payload e).

(** What was accepted is what left and what is buffered: in this very order on
    a FIFO queue.  Sequence numbers are places in the order of acceptance, and
    the buffer is in that order. *)
Record hist_ok (st : State) (acc : list T) (os : list Out) : Prop := {
  h_next : next_seq st = Z.of_nat (length acc);
  h_buf : Forall (fun x => numbered acc (fst x)) (buf st);
  h_outs : forall e, Popped e ∈ os -> numbered acc e;
  h_all : acc ≡ₚ (out_payload <$> os) ++ payloads (buf st);
  h_fifo : policy config = PolicyFifo -> acc = (out_payload <$> os) ++ payloads (buf st);
  h_sorted : StronglySorted Z.lt ((fun x => seq (fst x)) <$> buf st);
}.

Record sys_ok0 (k : Z) (y : Sys) : Prop := {
  s_queue : queue_ok (state (shared y));
  s_metrics : metrics_ok (shared y);
  s_line : line_ok (state (shared y)) (futures y) (woken y);
  s_consumer : consumer_ok (state (shared y)) (consumer y) (woken y);
  s_watch : watch_ok (state (shared y)) (watchers y) (woken y);
  s_alive : receiver_alive (state (shared y)) = bool_decide (is_Some (consumer y));
  s_senders : sender_count (state (shared y)) = Z.of_nat (size (senders y));
  s_borrow : forall f F, futures y !! f = Some F -> f_sender F ∈ senders y;
  s_hist : hist_ok (state (shared y)) (accepted y) (outs y);
  s_count : next_seq (state (shared y)) <= k /\ next_push_waiter (state (shared y)) <= k /\ sender_count (state (shared y)) <= k + 1;
}.

Definition sys_ok (k : Z) (y : Sys) : Prop := sys_ok0 k y /\ line_moves (state (shared y)) (futures y).

Lemma publish_ok st m : metrics_ok (MkShared (publish st m) st).
Proof. unfold metrics_ok, publish. cbn. destruct (enabled m) eqn:E; cbn; by rewrite ?E. Qed.

Lemma metrics_frame sh st m :
  metrics_ok (MkShared m sh) -> load st = load sh -> mode st = mode sh -> mode_switches st = mode_switches sh -> metrics_ok (MkShared m st).
Proof. unfold metrics_ok. cbn. by intros H -> -> ->. Qed.

Lemma consumer_frame st st' c wk wk' :
  waker st' = waker st -> (buf st = [] -> buf st' = []) -> (sender_count st <> 0 -> sender_count st' <> 0) ->
  (forall v, v ∈ wk -> v ∈ wk' \/ forall n, v <> ConsumerWaker n) ->
  consumer_ok st c wk -> consumer_ok st' c wk'.
Proof.
  intros E1 E2 E3 Hw H v Hv. destruct (H v Hv) as [[n ->] Hd]. split; [by eexists|]. destruct Hd as [Hd|(? & ? & ?)].
  - destruct (Hw _ Hd) as [|Hn]; [by left|]. by destruct (Hn n).
  - right. rewrite E1. auto.
Qed.

Lemma watch_frame st st' ws wk wk' :
  gone_wakers st' = gone_wakers st -> (sender_count st <> 0 -> sender_count st' <> 0) ->
  (forall v, v ∈ wk -> v ∈ wk' \/ forall g n, v <> WatcherWaker g n) ->
  watch_ok st ws wk -> watch_ok st' ws wk'.
Proof.
  intros E1 E2 Hw H g v Hv. destruct (H g v Hv) as [[n ->] Hd]. split; [by eexists|]. destruct Hd as [Hd|(? & ?)].
  - destruct (Hw _ Hd) as [|Hn]; [by left|]. by destruct (Hn g n).
  - right. rewrite E1. auto.
Qed.

Lemma hist_frame st st' acc os :
  buf st' = buf st -> next_seq st' = next_seq st -> hist_ok st acc os -> hist_ok st' acc os.
Proof. intros E1 E2 [H1 H2 H3 H4 H5 H6]. split; by rewrite ?E1, ?E2. Qed.

Lemma numbered_app acc acc' e : numbered acc e -> numbered (acc ++ acc') e.
Proof. intros [H1 H2]. split; [done|]. by apply lookup_app_l_Some. Qed.

Lemma hist_push st st' p w acc os :
  hist_ok st acc os -> buf st' = buf st ++ [(MkEnvelope (next_seq st) p, w)] -> next_seq st' = next_seq st + 1 ->
  hist_ok st' (acc ++ [p]) os.
Proof.
  intros [H1 H2 H3 H4 H5 H6] E1 E2. split.
  - rewrite E2, length_app. cbn. lia.
  - rewrite E1. apply Forall_app. split; [eapply Forall_impl; [exact H2|]; intros x; apply numbered_app|].
    apply Forall_singleton. split; cbn; [lia|]. rewrite H1, Nat2Z.id. by apply list_lookup_middle.
  - intros e He. apply numbered_app. auto.
  - rewrite E1. unfold payloads. rewrite fmap_app, app_assoc. cbn. by apply Permutation_app.
  - intros Hp. rewrite E1. unfold payloads. rewrite fmap_app, app_assoc. cbn. f_equal. by apply H5.
  - rewrite E1, fmap_app. cbn. apply StronglySorted_snoc; [done|]. apply Forall_fmap. eapply Forall_impl; [exact H2|].
    intros x [? Hx%lookup_lt_Some]. cbn. lia.
Qed.

Lemma hist_pop m st st' e w acc os :
  hist_ok st acc os -> leaves m (e, w) (buf st) (buf st') -> (policy config = PolicyFifo -> m = Fifo) -> next_seq st' = next_seq st ->
  hist_ok st' acc (os ++ [Popped e]).
Proof.
  intros [H1 H2 H3 H4 H5 H6] Hx Hm E. pose proof (leaves_total _ _ _ _ Hx) as (_ & _ & Hp). rewrite Hp in H2.
  apply Forall_cons in H2 as [He H2]. cbn in He. split.
  - congruence.
  - done.
  - intros e' [|[= ->]%list_elem_of_singleton]%elem_of_app; [by apply H3|done].
  - rewrite H4. unfold payloads. rewrite Hp, fmap_app. cbn. rewrite <- app_assoc. done.
  - intros Hf. rewrite (H5 Hf). rewrite (Hm Hf) in Hx. cbn in Hx. rewrite Hx. unfold payloads. rewrite fmap_app. cbn. by rewrite <- app_assoc.
  - destruct m; cbn in Hx; rewrite Hx in H6; [by inversion H6|]. rewrite fmap_app in H6. by apply StronglySorted_app_l in H6.
Qed.

Lemma hist_take st st' acc os :
  hist_ok st acc os -> buf st' = [] -> next_seq st' = next_seq st -> hist_ok st' acc (os ++ (Retracted <$> payloads (buf st))).
Proof.
  intros [H1 H2 H3 H4 H5 H6] E1 E2.
  assert (E : out_payload <$> (Retracted <$> payloads (buf st)) = payloads (buf st)) by (rewrite <- list_fmap_compose; apply list_fmap_id).
  split.
  - congruence.
  - by rewrite E1.
  - intros e [|Hin]%elem_of_app; [by apply H3|]. apply list_elem_of_fmap in Hin as (? & ? & _). done.
  - rewrite E1, fmap_app, E, app_nil_r. done.
  - intros Hf. rewrite E1, fmap_app, E, app_nil_r. by apply H5.
  - rewrite E1. constructor.
Qed.

Lemma sys_ok0_mono k k' y : k <= k' -> sys_ok0 k y -> sys_ok0 k' y.
Proof. intros Hk []. split; try done. lia. Qed.

Lemma line_moves_load st fs : load st <> 0 -> line_moves st fs.
Proof. intros H _ E. done. Qed.

Lemma accept_ok k y p w :
  sys_ok0 k y -> k < U64_MAX -> 1 <= w <= U64_MAX -> receiver_alive (state (shared y)) = true -> admits w (state (shared y)) = true ->
  exists sh wakes, accept p w (shared y) = Some (next_seq (state (shared y)), sh, wakes)
    /\ sys_ok (k + 1) (with_futures sh (futures y) wakes [p] y).
Proof.
  intros Hy Hk Hw Hr Ha. destruct y as [[m st] snd fs cs ws wk acc os]. destruct Hy as [Hq Hm Hl Hc Hwa Hal Hs Hbo Hh (Hn & Hnw & Hsc)].
  cbn [shared state metrics futures consumer watchers woken accepted outs senders] in *.
  unfold accept, next_sequence. cbn [state metrics].
  assert (Hchk : checked_add_u64 (next_seq st) 1 = Some (next_seq st + 1)).
  { unfold checked_add_u64. by rewrite (proj2 (Z.leb_le _ _)) by lia. }
  rewrite Hchk. cbn [mbind option_bind].
  set (st1 := MkState (buf st) (load st) (next_seq st + 1) (mode st) (mode_switches st) (sender_count st) (receiver_alive st) (waker st)
    (gone_wakers st) (push_wakers st) (next_push_waiter st)).
  assert (Hq1 : queue_ok st1) by (destruct Hq; by split).
  destruct (enqueue_ok (MkEnvelope (next_seq st) p) w st1 Hq1 Hw Ha) as (Hq2 & Hb2 & Hl2).
  pose proof (load_nonneg _ Hq) as [Hl0 _].
  destruct (update_mode_frame (enqueue (MkEnvelope (next_seq st) p) w st1)) as (md & sw & E & _). rewrite E in *. cbn in Hb2, Hl2.
  eexists _, _. split; [done|]. unfold with_futures. cbn [shared state metrics futures consumer watchers woken accepted outs senders].
  split; [split|]; cbn [shared state metrics futures consumer watchers woken accepted outs senders].
  - destruct Hq2 as [A B C D F]. split; done.
  - eapply metrics_frame; [apply publish_ok|done|done|done].
  - eapply line_ext; [..|exact Hl]; try done. intros v Hv. apply elem_of_app. by left.
  - intros v Hv. destruct (Hc v Hv) as [Hn' Hd]. split; [done|]. left. apply elem_of_app. destruct Hd as [|(E' & _)]; [by left|right].
    cbn. rewrite E'. cbn. by left.
  - eapply watch_frame; [..|exact Hwa]; try done. intros v Hv. left. apply elem_of_app. by left.
  - done.
  - done.
  - done.
  - eapply hist_push; [exact Hh|done|done].
  - cbn. lia.
  - apply line_moves_load. cbn. cbn in Hl2. rewrite Hl2. lia.
Qed.

Lemma take_ok k y :
  sys_ok0 k y ->
  let '(wakes, st) := take_admitted_waiters (state (shared y)) in
  sys_ok k (MkSys (MkShared (metrics (shared y)) st) (senders y) (futures y) (consumer y) (watchers y) (woken y ++ wakes) (accepted y) (outs y)).
Proof.
  intros [Hq Hm Hl Hc Hwa Hal Hs Hbo Hh Hcn]. pose proof (line_take _ _ _ Hl) as [Hl' Hmv].
  unfold take_admitted_waiters in *. cbn [fst snd] in *. destruct y as [[m st] snd fs cs ws wk acc os].
  cbn [shared state metrics futures consumer watchers woken accepted outs senders] in *.
  split; [split|]; cbn [shared state metrics futures consumer watchers woken accepted outs senders]; try done.
  - by destruct Hq.
  - eapply consumer_frame; [..|exact Hc]; try done. intros v Hv. left. apply elem_of_app. by left.
  - eapply watch_frame; [..|exact Hwa]; try done. intros v Hv. left. apply elem_of_app. by left.
  - eapply hist_frame; [..|exact Hh]; done.
Qed.

(** After [update_mode], for a buffer that changed. *)
Lemma rebuffer_ok k y st c os :
  sys_ok0 k y -> queue_ok (update_mode st) -> (exists b l, st = set_buf b l (state (shared y))) ->
  hist_ok st (accepted y) os -> (c = Some None \/ c = consumer y /\ buf st = []) -> (is_Some c <-> is_Some (consumer y)) ->
  let st' := update_mode st in
  sys_ok0 k (MkSys (MkShared (publish st' (metrics (shared y))) st') (senders y) (futures y) c (watchers y) (woken y) (accepted y) os).
Proof.
  intros [Hq Hm Hl Hc Hwa Hal Hs Hbo Hh Hcn] Hq' (b & l & E) Hh' Hcs His. cbn zeta. destruct (update_mode_frame st) as (md & sw & Eu & _).
  rewrite Eu in *. subst st. destruct y as [[m st] snd fs cs ws wk acc os'].
  cbn [shared state metrics futures consumer watchers woken accepted outs senders set_buf buf load next_seq mode mode_switches sender_count receiver_alive waker gone_wakers push_wakers next_push_waiter] in *.
  split; cbn [shared state metrics futures consumer watchers woken accepted outs senders]; try done.
  - apply publish_ok.
  - eapply line_ext; [..|exact Hl]; done.
  - intros v Hv. destruct Hcs as [->|[-> Hb]]; [done|]. destruct (Hc v Hv) as [Hn' Hd]. split; [done|].
    destruct Hd as [|(? & ? & ?)]; [by left|]. right. split_and!; done.
  - cbn. rewrite Hal. symmetry. by apply bool_decide_ext.
  - eapply hist_frame; [..|exact Hh']; done.
Qed.

Lemma popped_ok k y e st :
  sys_ok0 k y -> dequeue (state (shared y)) = Some (e, st) -> is_Some (consumer y) ->
  let '(sh, wakes) := popped e (metrics (shared y)) st in
  sys_ok k (with_consumer sh (Some None) wakes [Popped e] y).
Proof.
  intros Hy Hd Hcs. pose proof (dequeue_ok _ (s_queue _ _ Hy)) as Hdq. rewrite Hd in Hdq. destruct Hdq as (w & b & Hx & -> & _ & Hq).
  pose proof (rebuffer_ok k y _ (Some None) (outs y ++ [Popped e]) Hy Hq) as Hr. cbn zeta in Hr.
  assert (Hh : hist_ok (set_buf b (load (state (shared y)) - w) (state (shared y))) (accepted y) (outs y ++ [Popped e])).
  { eapply hist_pop; [exact (s_hist _ _ Hy)|exact Hx| |done]. apply mode_fifo, (s_queue _ _ Hy). }
  specialize (Hr ltac:(by eexists _, _) Hh ltac:(by left) ltac:(by split; [intros _|])).
  apply take_ok in Hr. unfold popped. by destruct (take_admitted_waiters _).
Qed.

Lemma take_queued_ok k y :
  sys_ok0 k y ->
  let '(taken, sh, wakes) := take_queued (shared y) in
  sys_ok k (with_consumer sh (consumer y) wakes (Retracted <$> taken) y).
Proof.
  intros Hy. unfold take_queued. set (st := set_buf [] 0 (state (shared y))).
  assert (Hq : queue_ok (update_mode st)).
  { destruct (s_queue _ _ Hy) as [A B C D F]. apply remode_ok; cbn; try done; [left; lia|]. by apply mode_fifo, (s_queue _ _ Hy). }
  pose proof (rebuffer_ok k y st (consumer y) (outs y ++ (Retracted <$> payloads (buf (state (shared y))))) Hy Hq ltac:(by eexists _, _)) as Hr.
  cbn zeta in Hr. specialize (Hr ltac:(by eapply hist_take; [exact (s_hist _ _ Hy)|..]) ltac:(by right) ltac:(done)).
  apply take_ok in Hr. by destruct (take_admitted_waiters _).
Qed.

(** *** One future at a time *)

Definition set_state (st : State) (fs : gmap Z Future) (y : Sys) : Sys :=
  MkSys (MkShared (metrics (shared y)) st) (senders y) fs (consumer y) (watchers y) (woken y) (accepted y) (outs y).

Lemma set_line_queue_ok st line : queue_ok st -> queue_ok (set_line line st).
Proof. intros [A B C D F]. by split. Qed.

(** The line and the futures changed, nothing else. *)
Lemma reline_ok k y st fs :
  sys_ok0 k y -> (exists line next, st = set_line line (set_next_waiter next (state (shared y))) /\ next <= k) ->
  line_ok st fs (woken y) -> (forall f F, fs !! f = Some F -> f_sender F ∈ senders y) -> sys_ok0 k (set_state st fs y).
Proof.
  intros [Hq Hm Hl Hc Hwa Hal Hs Hbo Hh Hcn] (line & next & -> & Hnext) Hl' Hbo'.
  split; cbn [set_state shared state metrics futures consumer watchers woken accepted outs senders]; try done.
  - destruct Hq as [A B C D F]. by split.
  - eapply hist_frame; [..|exact Hh]; done.
  - cbn. lia.
Qed.

Lemma forget_ok k y f F :
  sys_ok0 k y -> futures y !! f = Some F ->
  sys_ok0 k (set_state (snd (remove_push_waiter (waiter (f_parked F)) (state (shared y)))) (delete f (futures y)) y).
Proof.
  intros Hy Hf. apply reline_ok; [done| |by apply line_forget, (s_line _ _ Hy)|].
  - destruct (s_count _ _ Hy) as (_ & ? & _). 
    exists (push_wakers (snd (remove_push_waiter (waiter (f_parked F)) (state (shared y))))), (next_push_waiter (state (shared y))).
    split; [|done]. by destruct (waiter (f_parked F)), (state (shared y)).
  - intros g G [_ Hg]%lookup_delete_Some. by eapply (s_borrow _ _ Hy).
Qed.

Lemma idle_ok k y f F :
  sys_ok0 k y -> futures y !! f = None -> waiter (f_parked F) = None -> 1 <= pp_weight (f_parked F) <= U64_MAX -> f_sender F ∈ senders y ->
  sys_ok0 k (set_state (state (shared y)) (<[f := F]> (futures y)) y).
Proof.
  intros Hy Hf Hw Hp Hs. apply reline_ok; [done| |by apply line_idle, (s_line _ _ Hy)|].
  - destruct (s_count _ _ Hy) as (_ & ? & _). exists (push_wakers (state (shared y))), (next_push_waiter (state (shared y))).
    split; [|done]. by destruct (state (shared y)).
  - intros g G [[_ <-]|[_ Hg]]%lookup_insert_Some; [done|]. by eapply (s_borrow _ _ Hy).
Qed.

Lemma polled_producer k y f n : futures y !! f = None -> sys_ok0 k y -> sys_ok0 k (polled (ProducerWaker f n) y).
Proof.
  intros Hf [Hq Hm Hl Hc Hwa Hal Hs Hbo Hh Hcn].
  split; cbn [polled shared state metrics futures consumer watchers woken accepted outs senders]; try done.
  - by apply line_without.
  - eapply consumer_frame; [..|exact Hc]; try done. intros v Hv. destruct (decide (v = ProducerWaker f n)) as [->|]; [by right|left].
    by apply without_elem.
  - eapply watch_frame; [..|exact Hwa]; try done. intros v Hv. destruct (decide (v = ProducerWaker f n)) as [->|]; [by right|left].
    by apply without_elem.
Qed.

(** A future that has got its answer is forgotten. *)
Lemma answered_ok k y f F n :
  sys_ok0 k y -> futures y !! f = Some F ->
  sys_ok0 k (polled (ProducerWaker f n) (set_state (snd (remove_push_waiter (waiter (f_parked F)) (state (shared y)))) (delete f (futures y)) y)).
Proof. intros Hy Hf. apply polled_producer; [apply lookup_delete_eq|]. by apply forget_ok. Qed.

Lemma park_ok k y f F n pp st :
  sys_ok0 k y -> futures y !! f = Some F -> f_granted F = false -> receiver_alive (state (shared y)) = true ->
  admits (pp_weight (f_parked F)) (state (shared y)) = false ->
  park (f_parked F) (ProducerWaker f n) (state (shared y)) = Some (pp, st) ->
  sys_ok (k + 1) (with_futures (MkShared (metrics (shared y)) st)
    (<[f := MkFuture (f_sender F) pp (f_payload F) (f_room F) false (Some (ProducerWaker f n))]> (futures y)) [] []
    (polled (ProducerWaker f n) y)).
Proof.
  intros Hy Hf Hg Hr Ha Hp. destruct (line_park _ _ _ _ _ _ _ _ Hf Hg Hr Hp (s_line _ _ Hy)) as (Hl & id & line & next & -> & -> & Hn).
  assert (Hld : load (state (shared y)) <> 0).
  { intros E. unfold admits, fits in Ha. rewrite E in Ha. done. }
  destruct Hy as [Hq Hm Hl0 Hc Hwa Hal Hs Hbo Hh (Hc1 & Hc2 & Hc3)]. unfold with_futures, polled. rewrite !app_nil_r.
  split; [split|]; cbn [shared state metrics futures consumer watchers woken accepted outs senders]; try done.
  - destruct Hq as [A B C D G]. by split.
  - eapply consumer_frame; [..|exact Hc]; try done. intros v Hv. destruct (decide (v = ProducerWaker f n)) as [->|]; [by right|left].
    by apply without_elem.
  - eapply watch_frame; [..|exact Hwa]; try done. intros v Hv. destruct (decide (v = ProducerWaker f n)) as [->|]; [by right|left].
    by apply without_elem.
  - intros g G [[<- <-]|[_ HG]]%lookup_insert_Some; [by apply (Hbo f F)|]. by apply (Hbo g G).
  - eapply hist_frame; [..|exact Hh]; done.
  - cbn. lia.
  - by apply line_moves_load.
Qed.

Lemma poll_future_ok k y f n F :
  sys_ok k y -> k < U64_MAX -> futures y !! f = Some F -> f_granted F = false ->
  exists y', poll_future f n F y = Some y' /\ sys_ok (k + 1) y'.
Proof.
  intros [Hy Hmv] Hk Hf Hg. pose proof (l_weight _ _ _ (s_line _ _ Hy) f F Hf) as Hw. pose proof (s_borrow _ _ Hy f F Hf) as Hb.
  pose proof (sys_ok0_mono k (k + 1) y ltac:(lia) Hy) as Hy1.
  pose proof (answered_ok (k + 1) y f F n Hy1 Hf) as Hans. pose proof (answered_ok k y f F n Hy Hf) as Hans0.
  set (st0 := snd (remove_push_waiter (waiter (f_parked F)) (state (shared y)))) in *.
  assert (Hr0 : receiver_alive st0 = receiver_alive (state (shared y)) /\ load st0 = load (state (shared y))) by (unfold st0; by destruct (waiter (f_parked F))).
  assert (Hpark : exists pp st, park (f_parked F) (ProducerWaker f n) (state (shared y)) = Some (pp, st)).
  { unfold park. destruct (waiter (f_parked F)); [by eexists _, _|]. unfold checked_add_u64. destruct (s_count _ _ Hy) as (_ & ? & _).
    rewrite (proj2 (Z.leb_le _ _)) by lia. by eexists _, _. }
  destruct Hpark as (pp & st & Hpark). unfold poll_future. cbn zeta. destruct (f_room F) eqn:Er.
  - unfold poll_room. change (shared (polled _ y)) with (shared y).
    destruct (receiver_alive (state (shared y))) eqn:Eal; cbn [negb orb]; [destruct (admits (pp_weight (f_parked F)) (state (shared y))) eqn:Ea|].
    2:{ rewrite Hpark. cbn [mbind option_bind]. eexists. split; [done|]. pose proof (park_ok k y f F n pp st Hy Hf Hg Eal Ea Hpark) as H. by rewrite Er in H. }
    all: unfold served; cbn [mbind option_bind]; fold st0; eexists; split; [done|]; unfold with_futures, polled;
      cbn [shared state metrics futures consumer watchers woken accepted outs senders]; rewrite !app_nil_r; split.
    1,3: apply (idle_ok _ _ f (MkFuture (f_sender F) (MkParked (pp_weight (f_parked F)) None) (f_payload F) true true (Some (ProducerWaker f n)))) in Hans;
      [|apply lookup_delete_eq|done|done|done]; unfold set_state, polled in Hans;
      cbn [shared state metrics futures consumer watchers woken accepted outs senders] in Hans; rewrite insert_delete_eq in Hans; exact Hans.
    all: intros _ _ _; eexists f, _; split; [apply lookup_insert_eq|by left].
  - unfold poll_push. change (shared (polled _ y)) with (shared y). destruct (receiver_alive (state (shared y))) eqn:Eal; cbn [negb].
    2:{ unfold served. cbn [mbind option_bind]. fold st0. eexists. split; [done|]. split; [|intros Hr; cbn in Hr; destruct Hr0; congruence].
        unfold with_futures. cbn [polled shared state metrics futures consumer watchers woken accepted outs senders]. rewrite !app_nil_r. exact Hans. }
    destruct (admits (pp_weight (f_parked F)) (state (shared y))) eqn:Ea.
    + unfold served. fold st0. cbn [pp_weight].
      destruct (accept_ok k _ (f_payload F) (pp_weight (f_parked F)) Hans0 Hk Hw) as (sh & wakes & E & Hok).
      { cbn. by destruct Hr0 as [-> _]. }
      { cbn. unfold admits in *. by destruct Hr0 as [_ ->]. }
      cbn [polled set_state shared] in E. rewrite E. cbn [mbind option_bind]. eexists. split; [done|]. exact Hok.
    + rewrite Hpark. cbn [mbind option_bind]. eexists. split; [done|]. pose proof (park_ok k y f F n pp st Hy Hf Hg Eal Ea Hpark) as H. by rewrite Er in H.
Qed.

Lemma still_parked id st : fst (remove_push_waiter (Some id) st) = true -> id ∈ ids st.
Proof.
  cbn. rewrite negb_true_iff, Nat.eqb_neq. intros Hne. destruct (decide (id ∈ ids st)) as [|Hn]; [done|]. exfalso. apply Hne.
  rewrite Lfilter_all; [done|]. apply Forall_forall. intros x Hx. apply negb_true_iff, Z.eqb_neq. intros <-. apply Hn. by apply list_elem_of_fmap_2.
Qed.

Lemma drop_future_ok k y f F :
  sys_ok k y -> futures y !! f = Some F -> f_granted F = false ->
  let '(st, wakes) := drop_parked (f_parked F) (state (shared y)) in
  sys_ok k (with_futures (MkShared (metrics (shared y)) st) (delete f (futures y)) wakes [] y).
Proof.
  intros [Hy Hmv] Hf Hg. pose proof (forget_ok k y f F Hy Hf) as Hfo. unfold drop_parked, with_futures.
  assert (Hkeep : forall st', push_wakers st' = push_wakers (snd (remove_push_waiter (waiter (f_parked F)) (state (shared y)))) ->
    receiver_alive st' = receiver_alive (state (shared y)) -> load st' = load (state (shared y)) ->
    (forall id, waiter (f_parked F) = Some id -> id ∈ ids (state (shared y))) -> line_moves st' (delete f (futures y))).
  { intros st' E1 E2 E3 Hin Hr Hl Hne. rewrite E2 in Hr. rewrite E3 in Hl. rewrite E1 in *.
    assert (Hsub : forall x, x ∈ push_wakers (snd (remove_push_waiter (waiter (f_parked F)) (state (shared y)))) -> x ∈ push_wakers (state (shared y))).
    { intros x. destruct (waiter (f_parked F)); [|done]. by intros [? _]%elem_filter_line. }
    destruct (Hmv Hr Hl) as (g & G & HG & Hw).
    { intros E. apply Hne. apply elem_of_nil_inv. intros x Hx%Hsub. rewrite E in Hx. by apply elem_of_nil in Hx. }
    exists g, G. split.
    - rewrite lookup_delete_ne; [done|]. intros <-. simplify_eq. destruct Hw as [|(id & Hi & Hn)]; [congruence|]. by apply Hn, Hin.
    - destruct Hw as [|(id & Hi & Hn)]; [by left|right]. exists id. split; [done|]. intros (x & -> & Hx%Hsub)%list_elem_of_fmap. apply Hn.
      by apply list_elem_of_fmap_2. }
  destruct (waiter (f_parked F)) as [id|] eqn:Ew.
  - destruct (remove_push_waiter (Some id) (state (shared y))) as [still st] eqn:Er. cbn [snd] in *. destruct still.
    + rewrite !app_nil_r. split; [exact Hfo|]. apply Hkeep; cbn; [done|..]; [by cbn in Er; injection Er as _ <-|by cbn in Er; injection Er as _ <-|].
      intros ? [= <-]. apply still_parked. by rewrite Er.
    + apply take_ok in Hfo. cbn [set_state shared state] in Hfo. destruct (take_admitted_waiters st) as [next st']. rewrite app_nil_r. exact Hfo.
  - rewrite !app_nil_r. split; [exact Hfo|]. by apply Hkeep.
Qed.

Lemma try_push_ok k y p :
  sys_ok k y -> k < U64_MAX ->
  exists r sh wakes, try_push p (shared y) = Some (r, sh, wakes) /\ sys_ok (k + 1) (with_futures sh (futures y) wakes (pushed p r) y).
Proof.
  intros [Hy Hmv] Hk. pose proof (sys_ok0_mono k (k + 1) y ltac:(lia) Hy) as Hy1. unfold try_push.
  assert (Hsame : sys_ok (k + 1) (with_futures (shared y) (futures y) [] [] y)) by (unfold with_futures; rewrite !app_nil_r; by destruct y).
  destruct (receiver_alive (state (shared y))) eqn:Er; cbn [negb]; [|by eexists _, _, _].
  destruct (admits (weight_of p) (state (shared y))) eqn:Ea; cbn [negb]; [|by eexists _, _, _].
  destruct (accept_ok k y p (weight_of p) Hy Hk (weight_range p) Er Ea) as (sh & wakes & -> & Hok). cbn [mbind option_bind].
  eexists _, _, _. split; [done|]. exact Hok.
Qed.

Lemma polled_other y w : (forall f n, w <> ProducerWaker f n) -> line_ok (state (shared y)) (futures y) (woken y) ->
  line_ok (state (shared y)) (futures y) (without w (woken y)).
Proof.
  intros Hn [H1 H2 H3 H4 H5 H6]. split; try done. intros g G id Hg Hi. destruct (H3 g G id Hg Hi) as (? & ? & n' & ? & Hd).
  split_and!; [done|done|]. exists n'. split; [done|]. destruct Hd; [by left|right]. apply without_elem. split; [done|]. intros E. by destruct (Hn g n').
Qed.

(** The consumer is being polled: its old waker is of no more use. *)
Lemma polled_consumer k y n c : is_Some c -> is_Some (consumer y) -> (forall v, c = Some (Some v) -> False) -> sys_ok k y ->
  sys_ok k (MkSys (shared y) (senders y) (futures y) c (watchers y) (without (ConsumerWaker n) (woken y)) (accepted y) (outs y)).
Proof.
  intros Hc1 Hc2 Hno [[Hq Hm Hl Hc Hwa Hal Hs Hbo Hh Hcn] Hmv].
  split; [split|]; cbn [shared state metrics futures consumer watchers woken accepted outs senders]; try done.
  - by apply polled_other.
  - intros v Hv. by destruct (Hno v).
  - eapply watch_frame; [..|exact Hwa]; try done. intros v Hv. destruct (decide (v = ConsumerWaker n)) as [->|]; [by right|left].
    by apply without_elem.
  - rewrite Hal. apply bool_decide_ext. tauto.
Qed.

Lemma poll_pop_ok k y n :
  sys_ok k y -> is_Some (consumer y) ->
  let y1 := polled (ConsumerWaker n) y in
  let '(r, sh, wakes) := poll_pop (ConsumerWaker n) (shared y) in
  sys_ok k (match r with
            | Ready (Some e) => with_consumer sh (Some None) wakes [Popped e] y1
            | Ready None => with_consumer sh (Some None) wakes [] y1
            | Pending => with_consumer sh (Some (Some (ConsumerWaker n))) wakes [] y1
            end).
Proof.
  intros Hy Hc. cbn zeta. pose proof (polled_consumer k y n (Some None) ltac:(done) Hc ltac:(done) Hy) as Hy'.
  set (y' := MkSys _ _ _ _ _ _ _ _) in Hy'. unfold poll_pop. pose proof (dequeue_ok _ (s_queue _ _ (proj1 Hy))) as Hd.
  destruct (dequeue (state (shared y))) as [[e st]|] eqn:Ed.
  - pose proof (popped_ok k y' e st (proj1 Hy') Ed ltac:(done)) as Hp. cbn [shared y'] in Hp. by destruct (popped e (metrics (shared y)) st).
  - destruct (Z.eqb_spec (sender_count (state (shared y))) 0) as [E|E]; unfold with_consumer; cbn [polled senders futures watchers woken accepted outs];
      rewrite !app_nil_r; [exact Hy'|]. destruct Hy' as [[Hq Hm Hl Hcs Hwa Hal Hs Hbo Hh Hcn] Hmv].
    split; [split|]; cbn [shared state metrics futures consumer watchers woken accepted outs senders y'] in *; try done.
    + by destruct Hq.
    + eapply line_ext; [..|exact Hl]; done.
    + intros v [= <-]. split; [by eexists|]. right. done.
    + eapply hist_frame; [..|exact Hh]; done.
Qed.

Lemma poll_gone_ok k y g n :
  sys_ok k y ->
  let '(r, sh) := poll_gone (WatcherWaker g n) (shared y) in
  sys_ok k (MkSys sh (senders y) (futures y) (consumer y)
    (match r with Ready _ => delete g (watchers y) | Pending => <[g := WatcherWaker g n]> (watchers y) end)
    (without (WatcherWaker g n) (woken y)) (accepted y) (outs y)).
Proof.
  intros [[Hq Hm Hl Hc Hwa Hal Hs Hbo Hh Hcn] Hmv].
  assert (Hl' : line_ok (state (shared y)) (futures y) (without (WatcherWaker g n) (woken y))) by (by apply polled_other).
  assert (Hc' : consumer_ok (state (shared y)) (consumer y) (without (WatcherWaker g n) (woken y))).
  { eapply consumer_frame; [..|exact Hc]; try done. intros v Hv. destruct (decide (v = WatcherWaker g n)) as [->|]; [by right|left]. by apply without_elem. }
  assert (Hw' : watch_ok (state (shared y)) (delete g (watchers y)) (without (WatcherWaker g n) (woken y))).
  { intros h v [Hne Hv]%lookup_delete_Some. destruct (Hwa h v Hv) as [[m ->] Hd]. split; [by eexists|]. destruct Hd as [Hd|]; [left|by right].
    apply without_elem. split; [done|]. intros [= <- _]. done. }
  unfold poll_gone. destruct (Z.eqb_spec (sender_count (state (shared y))) 0) as [E|E]; [by split; [split|]|].
  set (st := if existsb _ _ then _ else _).
  assert (Hst : exists gone, st = set_senders (sender_count (state (shared y))) (waker (state (shared y))) gone (state (shared y))
      /\ WatcherWaker g n ∈ gone /\ forall v, v ∈ gone_wakers (state (shared y)) -> v ∈ gone).
  { unfold st. destruct (existsb _ _) eqn:Ex.
    - exists (gone_wakers (state (shared y))). split; [by destruct (state (shared y))|]. split; [|done].
      apply existsb_exists in Ex as (v & Hv & Ev%bool_decide_eq_true). subst v. by apply list_elem_of_In.
    - eexists. split; [done|]. split; [apply elem_of_app; right; by apply list_elem_of_singleton|]. intros v Hv. apply elem_of_app. by left. }
  destruct Hst as (gone & -> & Hin & Hsub).
  split; [split|]; cbn [shared state metrics futures consumer watchers woken accepted outs senders]; try done.
  - by destruct Hq.
  - eapply line_ext; [..|exact Hl']; done.
  - intros h v [[<- <-]|[Hne Hv]]%lookup_insert_Some; [split; [by eexists|by right]|].
    destruct (Hw' h v) as [Hn Hd]; [by rewrite lookup_delete_ne|]. split; [done|]. destruct Hd as [|[]]; [by left|right]. split; [by apply Hsub|done].
  - eapply hist_frame; [..|exact Hh]; done.
Qed.

Lemma clone_ok k y s' :
  sys_ok k y -> k + 1 < U64_MAX -> s' ∉ senders y ->
  sys_ok (k + 1) (MkSys (clone_sender (shared y)) ({[s']} ∪ senders y) (futures y) (consumer y) (watchers y) (woken y) (accepted y) (outs y)).
Proof.
  intros [[Hq Hm Hl Hc Hwa Hal Hs Hbo Hh (Hc1 & Hc2 & Hc3)] Hmv] Hk Hn. unfold clone_sender.
  rewrite Z.mod_small by (unfold U64_MAX in *; lia).
  split; [split|]; cbn [shared state metrics futures consumer watchers woken accepted outs senders]; try done.
  - by destruct Hq.
  - eapply line_ext; [..|exact Hl]; done.
  - eapply consumer_frame; [..|exact Hc]; try done; [cbn; lia|by left].
  - eapply watch_frame; [..|exact Hwa]; try done; [cbn; lia|by left].
  - cbn. rewrite size_union by set_solver. rewrite size_singleton. lia.
  - intros f F Hf. apply elem_of_union. right. eauto.
  - eapply hist_frame; [..|exact Hh]; done.
  - cbn. lia.
Qed.

Lemma drop_sender_ok k y s :
  sys_ok k y -> k < U64_MAX -> s ∈ senders y -> borrowed s (futures y) = false ->
  let '(sh, wakes) := drop_sender (shared y) in
  sys_ok k (MkSys sh (senders y ∖ {[s]}) (futures y) (consumer y) (watchers y) (woken y ++ wakes) (accepted y) (outs y)).
Proof.
  intros [[Hq Hm Hl Hc Hwa Hal Hs Hbo Hh (Hc1 & Hc2 & Hc3)] Hmv] Hk Hin Hb. unfold drop_sender.
  assert (Hsz : Z.of_nat (size (senders y ∖ {[s]})) = sender_count (state (shared y)) - 1).
  { rewrite Hs, size_difference by set_solver. rewrite size_singleton. assert (size (senders y) <> 0%nat); [|lia].
    intros E%size_empty_inv. set_solver. }
  rewrite Z.mod_small by (unfold U64_MAX in *; lia).
  assert (Hbo' : forall f F, futures y !! f = Some F -> f_sender F ∈ senders y ∖ {[s]}).
  { intros f F Hf. apply elem_of_difference. split; [eauto|]. intros E%elem_of_singleton.
    unfold borrowed in Hb. apply not_true_iff_false in Hb. apply Hb, existsb_exists. exists (f, F). split; [|by apply Z.eqb_eq].
    by apply list_elem_of_In, elem_of_map_to_list. }
  assert (Hmono : forall l v, v ∈ woken y -> v ∈ woken y ++ l) by (intros l v Hv; apply elem_of_app; by left).
  assert (Hcm : forall n w g st', st' = set_senders n w g (state (shared y)) -> n <= k + 1 ->
     next_seq st' <= k /\ next_push_waiter st' <= k /\ sender_count st' <= k + 1) by (intros n w g st' ->; done).
  destruct (Z.ltb_spec 0 (sender_count (state (shared y)) - 1)) as [Hlt|Hge];
    (split; [split|]; cbn [shared state metrics futures consumer watchers woken accepted outs senders]; try done).
  - by destruct Hq.
  - eapply line_ext; [..|exact Hl]; try done. auto.
  - eapply consumer_frame; [..|exact Hc]; try done; [cbn; lia|auto].
  - eapply watch_frame; [..|exact Hwa]; try done; [cbn; lia|auto].
  - eapply hist_frame; [..|exact Hh]; done.
  - eapply Hcm; [done|lia].
  - by destruct Hq.
  - eapply line_ext; [..|exact Hl]; try done. auto.
  - intros v Hv. destruct (Hc v Hv) as [Hn Hd]. split; [done|]. left. destruct Hd as [|(E & _)]; [auto|]. rewrite !elem_of_app. right; left.
    rewrite E. by left.
  - intros g v Hv. destruct (Hwa g v Hv) as [Hn Hd]. split; [done|]. left. destruct Hd as [|(E & _)]; [auto|]. rewrite !elem_of_app. auto.
  - eapply hist_frame; [..|exact Hh]; done.
  - eapply Hcm; [done|lia].
Qed.

Lemma drop_receiver_ok k y :
  sys_ok k y ->
  let '(sh, wakes) := drop_receiver (shared y) in sys_ok k (with_consumer sh None wakes [] y).
Proof.
  intros [[Hq Hm Hl Hc Hwa Hal Hs Hbo Hh Hcn] Hmv]. unfold drop_receiver, with_consumer. rewrite app_nil_r.
  split; [split|]; cbn [shared state metrics futures consumer watchers woken accepted outs senders]; try done.
  - by destruct Hq.
  - destruct Hl as [H1 H2 H3 H4 H5 H6]. split; cbn [push_wakers next_push_waiter receiver_alive]; try done; [constructor|by intros x ?%elem_of_nil|].
    intros f F id Hf Hi. destruct (H3 f F id Hf Hi) as (? & ? & n & Hn & Hd). split_and!; [done|done|]. exists n. split; [done|]. right.
    apply elem_of_app. destruct Hd as [(x & -> & Hx)%list_elem_of_fmap|]; [right|by left].
    destruct (H2 x Hx) as (g & G & HG & Hi' & _ & Hv). pose proof (H4 f g F G _ Hf HG Hi Hi') as <-.
    apply list_elem_of_fmap. exists x. split; [congruence|done].
  - eapply watch_frame; [..|exact Hwa]; try done. intros v Hv. left. apply elem_of_app. by left.
  - eapply hist_frame; [..|exact Hh]; done.
Qed.

Lemma shared_eta (sh : Shared) : MkShared (metrics sh) (state sh) = sh.
Proof. by destruct sh. Qed.

Lemma sys_ok_mono k k' y : k <= k' -> sys_ok k y -> sys_ok k' y.
Proof. intros Hk [H1 H2]. split; [|done]. by eapply sys_ok0_mono. Qed.

Lemma try_pop_ok k y :
  sys_ok k y -> consumer y = Some None ->
  let '(e, sh, wakes) := try_pop (shared y) in
  sys_ok k (with_consumer sh (Some None) wakes (match e with Some e => [Popped e] | None => [] end) y).
Proof.
  intros Hy Hc. unfold try_pop. destruct (dequeue (state (shared y))) as [[e st]|] eqn:Ed.
  - pose proof (popped_ok k y e st (proj1 Hy) Ed ltac:(by rewrite Hc)) as Hp. by destruct (popped e (metrics (shared y)) st).
  - unfold with_consumer. rewrite !app_nil_r, <- Hc. by destruct y.
Qed.

Lemma new_future_ok k y s f F :
  sys_ok k y -> s ∈ senders y -> futures y !! f = None -> f_sender F = s -> f_parked F = MkParked (weight_of (f_payload F)) None ->
  sys_ok k (with_futures (shared y) (<[f := F]> (futures y)) [] [] y).
Proof.
  intros [Hy Hmv] Hs Hf E1 E2. pose proof (idle_ok k y f F Hy Hf) as Hi. rewrite E1, E2 in Hi.
  specialize (Hi eq_refl (weight_range _) Hs). unfold with_futures. rewrite !app_nil_r. split; [unfold set_state in Hi; by rewrite shared_eta in Hi|].
  intros Hr Hl Hne. destruct (Hmv Hr Hl Hne) as (g & G & HG & Hw). exists g, G. split; [|done].
  cbn [futures]. rewrite lookup_insert_ne; [done|congruence].
Qed.

Lemma drop_pop_ok k y : sys_ok k y -> is_Some (consumer y) -> sys_ok k (with_consumer (shared y) (Some None) [] [] y).
Proof.
  intros [[Hq Hm Hl Hc Hwa Hal Hs Hbo Hh Hcn] Hmv] Hcs. unfold with_consumer. rewrite !app_nil_r.
  split; [split|]; cbn [shared state metrics futures consumer watchers woken accepted outs senders]; try done.
  rewrite Hal. by rewrite !bool_decide_true.
Qed.

Lemma monitor_ok k y : sys_ok k y -> sys_ok k (with_consumer (monitor (shared y)) (consumer y) [] [] y).
Proof.
  intros [[Hq Hm Hl Hc Hwa Hal Hs Hbo Hh Hcn] Hmv]. unfold with_consumer. rewrite !app_nil_r. split; [split|]; try done.
Qed.

Lemma offer_ok k y f F :
  sys_ok k y -> k < U64_MAX -> futures y !! f = Some F -> f_granted F = true ->
  exists r sh wakes, try_push (f_payload F) (shared y) = Some (r, sh, wakes)
    /\ sys_ok (k + 1) (with_futures sh (delete f (futures y)) wakes (pushed (f_payload F) r) y).
Proof.
  intros [Hy Hmv] Hk Hf Hg. pose proof (forget_ok k y f F Hy Hf) as Hfo.
  assert (Hw : waiter (f_parked F) = None).
  { destruct (waiter (f_parked F)) as [id|] eqn:E; [|done]. destruct (l_waits _ _ _ (s_line _ _ Hy) f F id Hf E) as (? & _). congruence. }
  rewrite Hw in Hfo. cbn [remove_push_waiter snd] in Hfo.
  assert (Hsame : forall r, (r = Err (Closed (f_payload F)) /\ receiver_alive (state (shared y)) = false
       \/ r = Err (Full (f_payload F)) /\ load (state (shared y)) <> 0) ->
     sys_ok (k + 1) (with_futures (shared y) (delete f (futures y)) [] (pushed (f_payload F) r) y)).
  { intros r Hr. unfold with_futures. assert (pushed (f_payload F) r = []) as -> by (destruct Hr as [[-> _]|[-> _]]; done). rewrite !app_nil_r.
    split; [apply (sys_ok0_mono k); [lia|]; unfold set_state in Hfo; by rewrite shared_eta in Hfo|]. destruct Hr as [[_ Hr]|[_ Hr]]; [|by apply line_moves_load].
    intros Hr'. cbn in Hr'. congruence. }
  unfold try_push. destruct (receiver_alive (state (shared y))) eqn:Er; cbn [negb]; [|eexists _, _, _; split; [done|]; apply Hsame; by left].
  destruct (admits (weight_of (f_payload F)) (state (shared y))) eqn:Ea; cbn [negb].
  - destruct (accept_ok k _ (f_payload F) (weight_of (f_payload F)) Hfo Hk (weight_range _) Er Ea) as (sh & wakes & E & Hok).
    cbn [set_state shared] in E. rewrite shared_eta in E.
    rewrite E. cbn [mbind option_bind]. eexists _, _, _. split; [done|]. exact Hok.
  - eexists _, _, _. split; [done|]. apply Hsame. right. split; [done|]. intros E. unfold admits, fits in Ea. by rewrite E in Ea.
Qed.

Lemma sys_step_ok k y o : sys_ok k y -> k + 1 < U64_MAX -> exists y', sys_step y o = Some y' /\ sys_ok (k + 1) y'.
Proof.
  intros Hy Hk. pose proof (sys_ok_mono k (k + 1) y ltac:(lia) Hy) as Hy1. assert (Hk' : k < U64_MAX) by lia.
  destruct o as [s p|s|s|s f p|s f p|f n|f|f| |n| |g n|s s'|s|]; cbn [sys_step].
  - case_bool_decide; cbn [negb]; [|by eexists]. destruct (try_push_ok k y p Hy Hk') as (r & sh & wakes & -> & Hok). by eexists.
  - case_bool_decide; cbn [negb]; [|by eexists]. pose proof (take_queued_ok _ y (proj1 Hy1)) as H1. destruct (take_queued (shared y)) as [[taken sh] wakes]. by eexists.
  - case_bool_decide; cbn [negb]; [|by eexists]. eexists. split; [done|]. by apply monitor_ok.
  - case_bool_decide; cbn [negb orb]; [|by eexists]. case_bool_decide as Hf; [by eexists|]. apply eq_None_not_Some in Hf.
    eexists. split; [done|]. by eapply new_future_ok.
  - case_bool_decide; cbn [negb orb]; [|by eexists]. case_bool_decide as Hf; [by eexists|]. apply eq_None_not_Some in Hf.
    eexists. split; [done|]. by eapply new_future_ok.
  - destruct (futures y !! f) as [F|] eqn:Hf; [|by eexists]. destruct (f_granted F) eqn:Hg; [by eexists|]. by apply poll_future_ok.
  - destruct (futures y !! f) as [F|] eqn:Hf; [|by eexists]. destruct (f_granted F) eqn:Hg; [|by eexists].
    destruct (offer_ok k y f F Hy Hk' Hf Hg) as (r & sh & wakes & -> & Hok). by eexists.
  - destruct (futures y !! f) as [F|] eqn:Hf; [|by eexists]. destruct (f_granted F) eqn:Hg; [by eexists|].
    pose proof (drop_future_ok _ y f F Hy1 Hf Hg) as H1. destruct (drop_parked (f_parked F) (state (shared y))). by eexists.
  - destruct (consumer y) as [[v|]|] eqn:Ec; [by eexists| |by eexists]. pose proof (try_pop_ok _ y Hy1 Ec) as H1.
    destruct (try_pop (shared y)) as [[e sh] wakes]. by eexists.
  - destruct (consumer y) as [c|] eqn:Ec; [|by eexists]. pose proof (poll_pop_ok _ y n Hy1 ltac:(by rewrite Ec)) as H1. cbn zeta in H1.
    destruct (poll_pop (ConsumerWaker n) (shared y)) as [[r sh] wakes]. by eexists.
  - destruct (consumer y) as [c|] eqn:Ec; [|by eexists]. eexists. split; [done|]. apply drop_pop_ok; [done|by rewrite Ec].
  - pose proof (poll_gone_ok _ y g n Hy1) as H1. destruct (poll_gone (WatcherWaker g n) (shared y)) as [r sh]. by eexists.
  - case_bool_decide; cbn [negb orb]; [|by eexists]. case_bool_decide; [by eexists|]. eexists. split; [done|]. by apply clone_ok.
  - case_bool_decide; cbn [negb orb]; [|by eexists]. destruct (borrowed s (futures y)) eqn:Eb; [by eexists|].
    pose proof (drop_sender_ok (k + 1) y s Hy1 Hk H Eb) as H1. destruct (drop_sender (shared y)). by eexists.
  - destruct (consumer y) as [c|] eqn:Ec; [|by eexists]. pose proof (drop_receiver_ok _ y Hy1) as H1. destruct (drop_receiver (shared y)). by eexists.
Qed.

Lemma sys_run_ok ops : forall k y, sys_ok k y -> k + Z.of_nat (length ops) < U64_MAX ->
  exists y', sys_run y ops = Some y' /\ sys_ok (k + Z.of_nat (length ops)) y'.
Proof.
  induction ops as [|o ops IH]; intros k y Hy Hk; cbn [sys_run length].
  - exists y. split; [done|]. by rewrite Z.add_0_r.
  - cbn [length] in Hk. destruct (sys_step_ok k y o Hy ltac:(lia)) as (y' & -> & Hy'). cbn [mbind option_bind].
    destruct (IH (k + 1) y' Hy' ltac:(lia)) as (y'' & -> & Hy''). exists y''. split; [done|]. eapply sys_ok_mono; [|exact Hy'']. lia.
Qed.

Lemma sys_new_ok s sh : weighted_queue = Some sh -> sys_ok 0 (Sys_new s sh).
Proof.
  unfold weighted_queue. destruct (negb _); [done|]. destruct (match policy config with PolicyFifo => _ | _ => _ end) eqn:Ep; [done|].
  intros [= <-]. unfold Sys_new. split; [split|]; cbn [shared state metrics futures consumer watchers woken accepted outs senders];
    try (by intros ? ? ?%lookup_empty_Some); try done.
  - split; cbn; try done; [left; lia|]. destruct (policy config); [done|]. lia.
  - split; cbn; try done; [constructor|by intros ? ?%elem_of_nil|..].
  - by rewrite size_singleton.
  - split; cbn; try done; [by intros ? ?%elem_of_nil|constructor].
  - by intros _ _ ?.
Qed.

Lemma senders_none k y : sys_ok0 k y -> senders y = ∅ -> sender_count (state (shared y)) = 0.
Proof. intros Hy E. by rewrite (s_senders _ _ Hy), E, size_empty. Qed.

(** C27. However producers, futures, the consumer and watchers interleave, and
    whichever futures are dropped, no operation panics and the queue does not
    come to rest with work left: a pending pop with an event to find, or with
    every sender gone, has been woken, and so has a watcher once every sender
    is gone; once the receiver is gone every producer waiting for room has been
    woken; and while the receiver is there, the queue is empty and producers
    wait, at least one of those waiting has been woken, or one whose [room_for]
    resolved is about to push. While events are queued, a producer may wait
    although its event would fit: it is a later pop that wakes it. *)
Theorem queue_no_lost_wake (s : Z) (sh : Shared) (ops : list Op)
    (Hnew : weighted_queue = Some sh) (Hlen : Z.of_nat (length ops) < U64_MAX) :
  exists y, sys_run (Sys_new s sh) ops = Some y
  /\ (forall v, consumer y = Some (Some v) -> buf (state (shared y)) <> [] \/ senders y = ∅ -> v ∈ woken y)
  /\ (forall g v, watchers y !! g = Some v -> senders y = ∅ -> v ∈ woken y)
  /\ (forall f F, futures y !! f = Some F -> is_Some (waiter (f_parked F)) ->
        (consumer y = None -> exists v, f_waker F = Some v /\ v ∈ woken y)
        /\ (consumer y <> None -> buf (state (shared y)) = [] ->
            exists g G, futures y !! g = Some G
              /\ (f_granted G = true \/ is_Some (waiter (f_parked G)) /\ exists v, f_waker G = Some v /\ v ∈ woken y))).
Proof.
  destruct (sys_run_ok ops 0 (Sys_new s sh) (sys_new_ok s sh Hnew) Hlen) as (y & E & Hy & Hmv). exists y. split; [done|]. split_and!.
  - intros v Hv Hwhy. destruct (s_consumer _ _ Hy v Hv) as [_ [|(_ & Hb & Hs)]]; [done|]. destruct Hwhy as [|Hn]; [done|].
    by rewrite (senders_none _ y Hy Hn) in Hs.
  - intros g v Hv Hn. destruct (s_watch _ _ Hy g v Hv) as [_ [|(_ & Hs)]]; [done|]. by rewrite (senders_none _ y Hy Hn) in Hs.
  - intros f F Hf [id Hi]. pose proof (s_line _ _ Hy) as Hl. destruct (l_waits _ _ _ Hl f F id Hf Hi) as (_ & _ & n & Hn & Hd).
    pose proof (s_alive _ _ Hy) as Ha. split.
    + intros Hc. rewrite Hc in Ha. exists (ProducerWaker f n). split; [done|]. destruct Hd as [Hd|]; [|done].
      rewrite (l_closed _ _ _ Hl Ha) in Hd. by apply elem_of_nil in Hd.
    + intros Hc Hb. destruct Hd as [Hd|Hd]; [|by exists f, F; split; [|right; eauto]].
      destruct Hmv as (g & G & HG & Hw).
      * rewrite Ha. apply bool_decide_eq_true. by destruct (consumer y); [eexists|].
      * by apply (load_nonneg _ (s_queue _ _ Hy)).
      * intros E'. rewrite E' in Hd. by apply elem_of_nil in Hd.
      * exists g, G. split; [done|]. destruct Hw as [|(id' & Hi' & Hn')]; [by left|right]. split; [by eexists|].
        destruct (l_waits _ _ _ Hl g G id' HG Hi') as (_ & _ & n' & ? & Hd'). exists (ProducerWaker g n'). split; [done|]. by destruct Hd'.
Qed.

(** A pop takes what leaves the buffer, and leaves the rest. *)
Lemma pop_takes sh e sh' :
  queue_ok (state sh) -> ((exists wakes, try_pop sh = (Some e, sh', wakes)) \/ (exists w wakes, poll_pop w sh = (Ready (Some e), sh', wakes))) ->
  exists weight, leaves (mode (state sh)) (e, weight) (buf (state sh)) (buf (state sh')).
Proof.
  intros Hq Hp. pose proof (dequeue_ok _ Hq) as Hd.
  assert (Hpop : exists st wakes, dequeue (state sh) = Some (e, st) /\ popped e (metrics sh) st = (sh', wakes)).
  { destruct Hp as [[wakes Hp]|(w & wakes & Hp)]; unfold try_pop, poll_pop in Hp; destruct (dequeue (state sh)) as [[e' st]|]; try done.
    - destruct (popped e' (metrics sh) st) as [sh1 wk] eqn:Ep. injection Hp as -> -> ->. by exists st, wakes.
    - destruct (popped e' (metrics sh) st) as [sh1 wk] eqn:Ep. injection Hp as -> -> ->. by exists st, wakes.
    - by destruct (_ =? _). }
  destruct Hpop as (st & wakes & E & Ep). rewrite E in Hd. destruct Hd as (weight & b & Hl & -> & _). exists weight.
  unfold popped, take_admitted_waiters in Ep. injection Ep as <- _. cbn [state]. unfold set_line, update_mode, set_mode. cbn [buf].
  destruct (policy config); [done|]. cbn [mode set_buf]. by destruct (mode (state sh)); destruct (_ <=? _).
Qed.

(** Whichever end it is taken from, it is the oldest or the newest of all. *)
Lemma leaves_extreme m e weight b b' x :
  StronglySorted Z.lt ((fun y => seq (fst y)) <$> b) -> leaves m (e, weight) b b' -> x ∈ b' ->
  match m with Fifo => seq e < seq (fst x) | Lifo => seq (fst x) < seq e end.
Proof.
  intros Hs Hl Hx. destruct m; cbn in Hl; subst b.
  - cbn in Hs. apply StronglySorted_inv in Hs as [_ Hall]. rewrite Forall_forall in Hall. apply Hall. by apply (list_elem_of_fmap_2 (fun y => seq (fst y))).
  - induction b' as [|y b' IH]; [by apply elem_of_nil in Hx|]. cbn in Hs. apply StronglySorted_inv in Hs as [Hs Hall]. apply elem_of_cons in Hx as [->|Hx]; [|auto].
    rewrite Forall_forall in Hall. apply Hall. apply list_elem_of_fmap. exists (e, weight). split; [done|]. apply elem_of_app. right. left.
Qed.

(** C28. However the operations interleave, what the queue accepted is what was
    popped or taken back, each once, and what is still buffered: nothing is
    lost, doubled or made up. A sequence number is the event's place in the
    order of acceptance; a queue whose policy is FIFO gives its events out in
    that very order; and the next pop of any queue gives the oldest event it
    holds while it is in FIFO mode, and the newest while in LIFO mode. *)
Theorem queue_delivers (s : Z) (sh : Shared) (ops : list Op)
    (Hnew : weighted_queue = Some sh) (Hlen : Z.of_nat (length ops) < U64_MAX) :
  exists y, sys_run (Sys_new s sh) ops = Some y
  /\ accepted y ≡ₚ (out_payload <$> outs y) ++ payloads (buf (state (shared y)))
  /\ (policy config = PolicyFifo -> accepted y = (out_payload <$> outs y) ++ payloads (buf (state (shared y))))
  /\ (forall e, Popped e ∈ outs y -> 0 <= seq e /\ accepted y !! Z.to_nat (seq e) = Some (payload e))
  /\ StronglySorted Z.lt ((fun x => seq (fst x)) <$> buf (state (shared y)))
  /\ (forall e sh', (exists wakes, try_pop (shared y) = (Some e, sh', wakes)) \/ (exists w wakes, poll_pop w (shared y) = (Ready (Some e), sh', wakes)) ->
        forall x, x ∈ buf (state sh') -> match mode (state (shared y)) with Fifo => seq e < seq (fst x) | Lifo => seq (fst x) < seq e end).
Proof.
  destruct (sys_run_ok ops 0 (Sys_new s sh) (sys_new_ok s sh Hnew) Hlen) as (y & E & Hy & _). exists y. split; [done|].
  pose proof (s_queue _ _ Hy) as Hq. destruct (s_hist _ _ Hy). split_and!; try done. intros e sh' Hp x Hx.
  destruct (pop_takes _ e sh' Hq Hp) as [weight Hl]. by eapply leaves_extreme.
Qed.

(** C40. However the operations interleave, the depth is the weight of what is
    buffered, and within the capacity unless the queue holds one event only; a
    FIFO queue is always oldest-first, and an adaptive one is below its high
    mark whenever it is oldest-first and above its low mark whenever it is
    freshest-first, so it has switched as soon as it reached either; a monitor,
    where there is one, shows the depth and mode as they are; and the count of
    senders is that of the handles not yet dropped. *)
Theorem queue_bounded (s : Z) (sh : Shared) (ops : list Op)
    (Hnew : weighted_queue = Some sh) (Hlen : Z.of_nat (length ops) < U64_MAX) :
  exists y, sys_run (Sys_new s sh) ops = Some y
  /\ let st := state (shared y) in
     depth (shared y) = total (buf st)
     /\ (depth (shared y) <= capacity config \/ length (buf st) = 1%nat)
     /\ match policy config with
        | PolicyFifo => mode st = Fifo
        | AdaptiveLifo high low => match mode st with Fifo => depth (shared y) < high | Lifo => low < depth (shared y) end
        end
     /\ (enabled (metrics (shared y)) = true -> m_depth (metrics (shared y)) = depth (shared y) /\ m_mode (metrics (shared y)) = mode st)
     /\ sender_count st = Z.of_nat (size (senders y)).
Proof.
  destruct (sys_run_ok ops 0 (Sys_new s sh) (sys_new_ok s sh Hnew) Hlen) as (y & E & Hy & _). exists y. split; [done|]. cbn zeta.
  destruct (s_queue _ _ Hy). split_and!; try done; [|exact (s_senders _ _ Hy)]. intros He. by rewrite (s_metrics _ _ Hy He).
Qed.
End Queue.

(** ** Progress

    The count and the arming in one word.  [advance] is two atomic steps, so
    the writers and the reader interleave between them. *)

Definition ARMED : Z := 1.
Definition fetch_add (word amount : Z) : Z * Z := (word, (word + Z.shiftl amount 1) mod 2 ^ 64).
Definition fetch_and_unarmed (word : Z) : Z * Z := (word, Z.land word (Z.lnot ARMED)).
Definition progress_arm (word : Z) : Z * Z := (Z.shiftr word 1, Z.lor word ARMED).
Definition progress_get (word : Z) : Z := Z.shiftr word 1.
Definition is_armed (word : Z) : bool := negb (Z.land word ARMED =? 0).

(** [Progress::advance], its first step: [None] where a second is to come. *)
Definition advance_first (amount word : Z) : option bool * Z :=
  let '(before, word) := fetch_add word amount in (if is_armed before then None else Some false, word).
Definition advance_second (word : Z) : bool * Z :=
  let '(before, word) := fetch_and_unarmed word in (is_armed before, word).

(** The reader: not waiting, or waiting since it armed and read a count. *)
Inductive Reader : Type := Awake | Asleep (count : Z).

Record Progress : Type := MkProgress {
  word : Z;
  (** Writers between the two steps of [advance]. *)
  between : nat;
  reader : Reader;
  (** All that was ever advanced, how often the reader armed, and how often it
      was told to wake. *)
  advanced : Z;
  arms : nat;
  wakes : nat;
}.

Definition Progress_default : Progress := MkProgress 0 0 Awake 0 0 0.

Inductive progress_step : Progress -> Progress -> Prop :=
| StepFirst p amount r w :
    0 <= amount -> advanced p + amount < 2 ^ 63 -> advance_first amount (word p) = (r, w) ->
    progress_step p (MkProgress w (match r with None => S (between p) | Some _ => between p end) (reader p) (advanced p + amount) (arms p) (wakes p))
| StepSecond p n r w :
    between p = S n -> advance_second (word p) = (r, w) ->
    progress_step p (MkProgress w n (if r then Awake else reader p) (advanced p) (arms p) (if r then S (wakes p) else wakes p))
| StepArm p count w :
    progress_arm (word p) = (count, w) ->
    progress_step p (MkProgress w (between p) (Asleep count) (advanced p) (S (arms p)) (wakes p)).

Inductive progress_reached : Progress -> Prop :=
| ReachedDefault : progress_reached Progress_default
| ReachedStep p p' : progress_reached p -> progress_step p p' -> progress_reached p'.

Record progress_ok (p : Progress) : Prop := {
  p_word : word p = 2 * advanced p + (if is_armed (word p) then 1 else 0);
  p_range : 0 <= advanced p < 2 ^ 63;
  p_asleep : forall count, reader p = Asleep count -> is_armed (word p) = true /\ count <= advanced p /\ (advanced p = count \/ between p <> 0%nat);
  p_answers : (wakes p + (if is_armed (word p) then 1 else 0) <= arms p)%nat;
}.

Lemma is_armed_odd w : is_armed w = Z.odd w.
Proof.
  unfold is_armed, ARMED. change 1 with (Z.ones 1). rewrite Z.land_ones by lia. change (2 ^ 1) with 2. rewrite Zmod_odd. by destruct (Z.odd w).
Qed.

Lemma armed_word a (b : bool) : is_armed (2 * a + (if b then 1 else 0)) = b.
Proof. rewrite is_armed_odd, Z.odd_add, Z.odd_mul. by destruct b. Qed.

Lemma unarm_word a (b : bool) : Z.land (2 * a + (if b then 1 else 0)) (Z.lnot ARMED) = 2 * a + 0.
Proof.
  rewrite <- Z.ldiff_land. unfold ARMED. change 1 with (Z.ones 1) at 2. rewrite Z.ldiff_ones_r, Z.shiftr_div_pow2, Z.shiftl_mul_pow2 by lia.
  change (2 ^ 1) with 2. destruct b; Z.to_euclidean_division_equations; lia.
Qed.

Lemma arm_even a : Z.lor (2 * a) ARMED = 2 * a + 1.
Proof.
  assert (E : Z.land (2 * a) 1 = 0) by (change 1 with (Z.ones 1); rewrite Z.land_ones by lia; change (2 ^ 1) with 2; Z.to_euclidean_division_equations; lia).
  unfold ARMED. rewrite <- Z.lxor_lor by done. by rewrite <- Z.add_nocarry_lxor.
Qed.

Lemma arm_word a (b : bool) : Z.lor (2 * a + (if b then 1 else 0)) ARMED = 2 * a + 1.
Proof. destruct b; [|by rewrite Z.add_0_r, arm_even]. rewrite <- arm_even, <- Z.lor_assoc. done. Qed.

Lemma count_word a (b : bool) : Z.shiftr (2 * a + (if b then 1 else 0)) 1 = a.
Proof. rewrite Z.shiftr_div_pow2 by lia. change (2 ^ 1) with 2. destruct b; Z.to_euclidean_division_equations; lia. Qed.

Lemma progress_step_ok p p' : progress_step p p' -> progress_ok p -> progress_ok p'.
Proof.
  intros Hstep [Hw Hr Ha Hn]. set (b := is_armed (word p)) in *.
  destruct Hstep as [p amount r w H0 Hmax E|p n r w En E|p count w E]; subst b.
  - unfold advance_first, fetch_add in E. injection E as Er Ew. rewrite Hw in Ew. rewrite Z.shiftl_mul_pow2 in Ew by lia.
    rewrite Z.mod_small in Ew by (destruct (is_armed (word p)); lia).
    assert (Ew' : w = 2 * (advanced p + amount) + (if is_armed (word p) then 1 else 0)) by lia.
    split; cbn [word between reader advanced arms wakes]; rewrite ?Ew', ?armed_word; try done; [lia|].
    intros c Hc. destruct (Ha c Hc) as (Harm & Hle & Hd). split; [done|]. split; [lia|]. rewrite <- Er, Harm. by right.
  - unfold advance_second, fetch_and_unarmed in E. injection E as Er Ew. rewrite Hw, unarm_word in Ew.
    split; cbn [word between reader advanced arms wakes]; rewrite <- ?Ew, ?(armed_word (advanced p) false); [lia|done| |].
    + intros c Hc. rewrite <- Er in Hc. destruct (is_armed (word p)) eqn:Eb; [done|]. destruct (Ha c Hc) as (Harm & _). congruence.
    + rewrite <- Er. destruct (is_armed (word p)); lia.
  - unfold progress_arm in E. injection E as Ec Ew. rewrite Hw, arm_word in Ew. rewrite Hw, count_word in Ec.
    split; cbn [word between reader advanced arms wakes]; rewrite <- ?Ew, ?(armed_word (advanced p) true); [lia|done| |].
    + intros c [= <-]. split; [done|]. split; [lia|]. by left.
    + destruct (is_armed (word p)); lia.
Qed.

(** However writers advance the count and the reader arms, between any of
    their atomic steps, the reader never sleeps past an advance: while it
    waits since it armed and read a count, either the count is still what it
    read, or a writer is on its way to tell it; the count is the sum of the
    advances, and the reader is told to wake at most once per arming. *)
Theorem progress_never_sleeps_past (p : Progress) (Hreach : progress_reached p) :
  progress_get (word p) = advanced p
  /\ (forall count, reader p = Asleep count -> between p = 0%nat -> count = advanced p)
  /\ (forall count r w, reader p = Asleep count -> between p = 1%nat -> advance_second (word p) = (r, w) -> r = true)
  /\ (wakes p <= arms p)%nat.
Proof.
  assert (Hok : progress_ok p).
  { induction Hreach as [|p p' _ IH Hs]; [|by eapply progress_step_ok]. by split. }
  destruct Hok as [Hw Hr Ha Hn]. split_and!.
  - unfold progress_get. by rewrite Hw, count_word.
  - intros c Hc Hb. destruct (Ha c Hc) as (_ & _ & [|]); [done|congruence].
  - intros c r w Hc _ E. unfold advance_second, fetch_and_unarmed in E. injection E as <- _. by destruct (Ha c Hc).
  - lia.
Qed.

(** ** Witnesses *)

Definition sample_config : Config := MkConfig 2 (AdaptiveLifo 2 0).
Definition sample_queue_ops : list (Op (T := Z)) :=
  [OpMonitor 0; OpClone 0 1; OpPollPop 0; OpTryPush 0 1; OpPush 1 7 2; OpPoll 7 0; OpRoomFor 0 8 1; OpPoll 8 0; OpPollPop 1; OpPoll 7 1;
   OpTryPop; OpPoll 8 1; OpOffer 8; OpPollGone 5 0; OpDropSender 1; OpDropReceiver].

Lemma sample_weigh p : 0 <= Z.max 0 (Z.min p 9) <= U64_MAX.
Proof. unfold U64_MAX. lia. Qed.

Lemma queue_no_lost_wake_witness :
  exists sh y, weighted_queue (T := Z) sample_config = Some sh
    /\ sys_run sample_config (fun p => Z.max 0 (Z.min p 9)) (Sys_new 0 sh) sample_queue_ops = Some y
    /\ (forall g v, watchers y !! g = Some v -> senders y = ∅ -> v ∈ woken y).
Proof.
  eexists. destruct (queue_no_lost_wake sample_config (fun p => Z.max 0 (Z.min p 9)) ltac:(unfold U64_MAX; cbn; lia) sample_weigh
    ltac:(cbn; lia) 0 _ sample_queue_ops eq_refl ltac:(unfold U64_MAX; cbn; lia)) as (y & E & _ & H & _).
  exists y. split; [reflexivity|]. split; [exact E|exact H].
Defined.

Lemma queue_delivers_witness :
  exists sh y, weighted_queue (T := Z) sample_config = Some sh
    /\ sys_run sample_config (fun p => Z.max 0 (Z.min p 9)) (Sys_new 0 sh) sample_queue_ops = Some y
    /\ accepted y ≡ₚ (out_payload <$> outs y) ++ payloads (buf (state (shared y))).
Proof.
  eexists. destruct (queue_delivers sample_config (fun p => Z.max 0 (Z.min p 9)) ltac:(unfold U64_MAX; cbn; lia) sample_weigh
    ltac:(cbn; lia) 0 _ sample_queue_ops eq_refl ltac:(unfold U64_MAX; cbn; lia)) as (y & E & H & _).
  exists y. split; [reflexivity|]. split; [exact E|exact H].
Defined.

Lemma queue_bounded_witness :
  exists sh y, weighted_queue (T := Z) sample_config = Some sh
    /\ sys_run sample_config (fun p => Z.max 0 (Z.min p 9)) (Sys_new 0 sh) sample_queue_ops = Some y
    /\ depth (shared y) = total (buf (state (shared y))).
Proof.
  eexists. destruct (queue_bounded sample_config (fun p => Z.max 0 (Z.min p 9)) ltac:(unfold U64_MAX; cbn; lia) sample_weigh
    ltac:(cbn; lia) 0 _ sample_queue_ops eq_refl ltac:(unfold U64_MAX; cbn; lia)) as (y & E & H & _).
  exists y. split; [reflexivity|]. split; [exact E|exact H].
Defined.

Lemma progress_never_sleeps_past_witness :
  exists p, reader p = Asleep 3 /\ between p = 0%nat /\ 3 = advanced p.
Proof.
  assert (Hr : progress_reached (MkProgress 7 0 (Asleep 3) 3 1 0)).
  { eapply ReachedStep; [eapply ReachedStep; [constructor|]|].
    - eapply (StepFirst Progress_default 3); [lia|cbn; lia|reflexivity].
    - exact (StepArm (MkProgress 6 0 Awake 3 0 0) 3 7 eq_refl). }
  exists (MkProgress 7 0 (Asleep 3) 3 1 0). split; [reflexivity|]. split; [reflexivity|].
  exact (proj1 (proj2 (progress_never_sleeps_past _ Hr)) 3 eq_refl eq_refl).
Defined.

(** What the sample run really does: every branch of a push, a wait and a
    refusal occurs in it. *)
Example sample_queue_runs :
  match weighted_queue (T := Z) sample_config with
  | Some sh =>
      match sys_run sample_config (fun p => Z.max 0 (Z.min p 9)) (Sys_new 0 sh) sample_queue_ops with
      | Some y => (accepted y, outs y, load (state (shared y)), mode_switches (state (shared y)))
      | None => ([], [], 0, 0)
      end
  | None => ([], [], 0, 0)
  end = ([1; 2; 1], [Popped (MkEnvelope 0 1); Popped (MkEnvelope 1 2)], 1, 2).
Proof. vm_compute. reflexivity. Qed.
