(* ===== verification/Paced.v ===== *)
(** * Paced WHO replies ([e6ircd/src/core/paced.rs], [handler/query.rs])

    The replies a connection has still to be sent, with the byte count the
    admission bound reads, and one pacing turn of [pace_who_replies_to].  What a
    turn hands to [send_unheld] is recorded as the event it renders: a batch
    opening, a line with the batch it is tagged with, a batch closing. *)

From S2P Require Import Prelude.

Local Open Scope Z_scope.

Record PacedBatch : Type := MkBatch {
  batch_label : str;
  batch_reference : str;
  batch_opened : bool;
}.

Record PacedReply : Type := MkReply {
  reply_batch : option PacedBatch;
  reply_lines : list str;
}.

(** [bytes] is a [usize]; subtraction panics below zero, so it is kept as an
    integer and shown never to go negative. *)
Record PacedReplies : Type := MkPaced {
  replies : list PacedReply;
  paced_bytes : Z;
}.

Definition PacedReplies_default : PacedReplies := MkPaced [] 0.

Fixpoint line_bytes (lines : list str) : Z :=
  match lines with [] => 0 | line :: lines' => Z.of_nat (length line) + line_bytes lines' end.

Definition admits (p : PacedReplies) (bytes sendq_bytes : Z) : bool :=
  match replies p with [] => true | _ => (paced_bytes p + bytes <=? sendq_bytes) end.

Definition push (reply : PacedReply) (p : PacedReplies) : PacedReplies :=
  MkPaced (replies p ++ [reply]) (paced_bytes p + line_bytes (reply_lines reply)).

Definition take_line (p : PacedReplies) : option (str * PacedReplies) :=
  match replies p with
  | MkReply batch (line :: lines) :: rest =>
      Some (line, MkPaced (MkReply batch lines :: rest) (paced_bytes p - Z.of_nat (length line)))
  | _ => None
  end.

(** ** A pacing turn *)

Inductive Sent : Type :=
| SOpen (label reference : str)
| SLine (batch : option str) (line : str)
| SClose (reference : str).

(** The reply's batch opened, what that sends, and the batch's reference. *)
Definition open_batch (reply : PacedReply) : PacedReply * list Sent * option str :=
  match reply_batch reply with
  | None => (reply, [], None)
  | Some b =>
      let sent := if batch_opened b then [] else [SOpen (batch_label b) (batch_reference b)] in
      (MkReply (Some (MkBatch (batch_label b) (batch_reference b) true)) (reply_lines reply),
       sent, Some (batch_reference b))
  end.

(** The [while let Some(reply) = paced.replies.front_mut()] loop of
    [pace_who_replies_to]: [None] when out of fuel. *)
Fixpoint pace_loop (fuel : nat) (room : Z) (p : PacedReplies) (sent : list Sent)
    : option (PacedReplies * list Sent) :=
  match replies p with
  | [] => Some (p, sent)
  | reply :: rest =>
      match fuel with
      | O => None
      | S fuel' =>
          let '(reply, opening, batch) := open_batch reply in
          let p := MkPaced (reply :: rest) (paced_bytes p) in
          let sent := sent ++ opening in
          match reply_lines reply with
          | [] =>
              let closing := match batch with Some b => [SClose b] | None => [] end in
              pace_loop fuel' room (MkPaced rest (paced_bytes p)) (sent ++ closing)
          | _ :: _ =>
              if room =? 0 then Some (p, sent)
              else
                match take_line p with
                | None => None
                | Some (line, p) =>
                    pace_loop fuel' (saturating_sub room (Z.of_nat (length line))) p
                      (sent ++ [SLine batch line])
                end
          end
      end
  end.

(** Every turn of the loop sends a line or drops a reply. *)
Definition pace_fuel (p : PacedReplies) : nat :=
  sum_list_with (fun r => S (length (reply_lines r))) (replies p).

Definition pace_turn (room : Z) (p : PacedReplies) : option (PacedReplies * list Sent) :=
  pace_loop (pace_fuel p) room p [].

(** ** Specification *)

(** All that is still to be sent, in order. *)
Definition reply_sends (r : PacedReply) : list Sent :=
  match reply_batch r with
  | None => SLine None <$> reply_lines r
  | Some b =>
      (if batch_opened b then [] else [SOpen (batch_label b) (batch_reference b)])
      ++ (SLine (Some (batch_reference b)) <$> reply_lines r) ++ [SClose (batch_reference b)]
  end.
Definition to_send (p : PacedReplies) : list Sent := concat (map reply_sends (replies p)).

Fixpoint replies_bytes (l : list PacedReply) : Z :=
  match l with [] => 0 | r :: l' => line_bytes (reply_lines r) + replies_bytes l' end.
Definition pending_bytes (p : PacedReplies) : Z := replies_bytes (replies p).

(** The count is exact. *)
Definition counted (p : PacedReplies) : Prop := paced_bytes p = pending_bytes p.

Definition sent_lines (sent : list Sent) : list str :=
  omap (fun s => match s with SLine _ line => Some line | _ => None end) sent.

(** ** Lemmas *)

Lemma line_bytes_nonneg lines : 0 <= line_bytes lines.
Proof. induction lines; cbn [line_bytes]; lia. Qed.

Lemma replies_bytes_nonneg l : 0 <= replies_bytes l.
Proof.
  induction l as [|r l IH]; cbn [replies_bytes]; [lia|].
  pose proof (line_bytes_nonneg (reply_lines r)). lia.
Qed.

Lemma push_counted reply p : counted p -> counted (push reply p).
Proof.
  unfold counted, push, pending_bytes. cbn [replies paced_bytes]. intros ->.
  induction (replies p) as [|r l IH]; cbn [app replies_bytes]; lia.
Qed.

Lemma take_line_counted p line p' :
  counted p -> take_line p = Some (line, p') -> counted p' /\ 0 <= paced_bytes p'.
Proof.
  unfold counted, take_line, pending_bytes. destruct p as [[|[b [|l ls]] rest] n]; try done.
  cbn [replies paced_bytes replies_bytes reply_lines line_bytes]. intros -> [= <- <-].
  cbn [replies paced_bytes replies_bytes reply_lines].
  pose proof (line_bytes_nonneg ls). pose proof (replies_bytes_nonneg rest). lia.
Qed.

Lemma open_batch_spec reply :
  let '(reply', opening, batch) := open_batch reply in
  reply_lines reply' = reply_lines reply
  /\ reply_sends reply = opening ++ reply_sends reply'
  /\ reply_sends reply' = (SLine batch <$> reply_lines reply')
       ++ match batch with Some b => [SClose b] | None => [] end
  /\ (forall lines, reply_sends (MkReply (reply_batch reply') lines) = (SLine batch <$> lines)
       ++ match batch with Some b => [SClose b] | None => [] end)
  /\ sent_lines opening = [].
Proof.
  unfold open_batch, reply_sends. destruct (reply_batch reply) as [[label ref [|]]|] eqn:E; cbn;
    rewrite ?E; split_and!; try done; intros; by rewrite ?app_nil_r.
Qed.

Lemma line_bytes_app a b : line_bytes (a ++ b) = line_bytes a + line_bytes b.
Proof. induction a as [|l a IH]; cbn [app line_bytes]; lia. Qed.

Lemma sent_lines_app a b : sent_lines (a ++ b) = sent_lines a ++ sent_lines b.
Proof. apply omap_app. Qed.

(** What a turn with [room] bytes may send: everything but the last line fits
    strictly inside the room, and the room is used unless nothing is left. *)
Definition within_room (room : Z) (p' : PacedReplies) (sent : list Sent) : Prop :=
  (sent_lines sent = [] \/ exists pre line, sent_lines sent = pre ++ [line] /\ line_bytes pre < room)
  /\ (replies p' = [] \/ room <= line_bytes (sent_lines sent)).

(** Events without lines in front do not change what fits. *)
Lemma within_room_nolines room p' quiet sent :
  sent_lines quiet = [] -> within_room room p' sent -> within_room room p' (quiet ++ sent).
Proof. unfold within_room. rewrite sent_lines_app. by intros ->. Qed.

Lemma within_room_line room p' batch line sent :
  0 < room -> within_room (saturating_sub room (Z.of_nat (length line))) p' sent ->
  within_room room p' (SLine batch line :: sent).
Proof.
  unfold within_room, saturating_sub. intros Hr [Hfit Huse].
  change (sent_lines (SLine batch line :: sent)) with (line :: sent_lines sent).
  cbn [line_bytes]. split; [|destruct Huse; [by left|right; lia]].
  right. destruct Hfit as [-> | (pre & last & -> & Hlt)].
  - exists [], line. split; [done|cbn; lia].
  - pose proof (line_bytes_nonneg pre). exists (line :: pre), last.
    split; [done|cbn [line_bytes]; lia].
Qed.

Lemma pace_loop_spec fuel room p sent :
  (pace_fuel p <= fuel)%nat -> 0 <= room ->
  exists p' s, pace_loop fuel room p sent = Some (p', sent ++ s)
    /\ to_send p = s ++ to_send p' /\ (counted p -> counted p') /\ within_room room p' s.
Proof.
  revert room p sent. induction fuel as [|fuel IH]; intros room [rs n] sent Hf Hr.
  all: destruct rs as [|reply rest]; cbn [pace_loop replies paced_bytes].
  1, 3: exists (MkPaced [] n), []; rewrite app_nil_r; split_and!; [done|done|done|split; by left].
  { unfold pace_fuel in Hf. cbn in Hf. lia. }
  pose proof (open_batch_spec reply) as Ho. destruct (open_batch reply) as [[reply' opening] batch].
  destruct Ho as (Hlines & Hsend & Hsend' & Hany & Hquiet).
  assert (Hto : to_send (MkPaced (reply :: rest) n) = opening ++ reply_sends reply' ++ to_send (MkPaced rest n)).
  { unfold to_send. cbn. by rewrite Hsend, app_assoc. }
  unfold pace_fuel in Hf. cbn [replies sum_list_with] in Hf.
  destruct (reply_lines reply') as [|line lines] eqn:El.
  - set (closing := match batch with Some b => [SClose b] | None => [] end) in *.
    destruct (IH room (MkPaced rest n) ((sent ++ opening) ++ closing)) as (p' & s & -> & Ht & Hc & Hw).
    { unfold pace_fuel. cbn [replies]. lia. } { done. }
    exists p', (opening ++ closing ++ s). split_and!.
    + by rewrite !app_assoc.
    + rewrite Hto, Hsend'. cbn [fmap list_fmap app]. by rewrite Ht, <- !app_assoc.
    + intros Hcp. apply Hc. unfold counted, pending_bytes in *. cbn [replies paced_bytes replies_bytes] in *.
      rewrite <- Hlines in Hcp. cbn in Hcp. done.
    + apply within_room_nolines; [done|]. apply within_room_nolines; [by subst closing; destruct batch|done].
  - destruct (Z.eqb_spec room 0) as [->|Hne].
    + exists (MkPaced (reply' :: rest) n), opening. split_and!; [done|by rewrite Hto| |].
      * unfold counted, pending_bytes. cbn [replies paced_bytes replies_bytes]. by rewrite El, <- Hlines.
      * rewrite <- (app_nil_r opening). apply within_room_nolines; [done|].
        split; [by left|right; cbn; lia].
    + cbn [take_line replies paced_bytes]. destruct reply' as [b' ls']. cbn in El. subst ls'.
      cbn [reply_batch reply_lines] in *.
      destruct (IH (saturating_sub room (Z.of_nat (length line)))
        (MkPaced (MkReply b' lines :: rest) (n - Z.of_nat (length line)))
        ((sent ++ opening) ++ [SLine batch line])) as (p' & s & -> & Ht & Hc & Hw).
      { unfold pace_fuel. cbn [replies sum_list_with reply_lines]. rewrite <- Hlines in Hf. cbn [length] in Hf. lia. }
      { unfold saturating_sub. lia. }
      exists p', (opening ++ SLine batch line :: s). split_and!.
      * f_equal. f_equal. by rewrite <- !app_assoc.
      * rewrite Hto, Hsend'. cbn [fmap list_fmap app]. unfold to_send in *.
        cbn [replies map concat] in *. rewrite Hany in Ht. rewrite Ht. by rewrite <- !app_assoc.
      * intros Hcp. apply Hc. unfold counted, pending_bytes in *.
        cbn [replies paced_bytes replies_bytes reply_lines] in *.
        rewrite <- Hlines in Hcp. cbn [line_bytes] in Hcp. lia.
      * apply within_room_nolines; [done|]. apply within_room_line; [lia|done].
Qed.

(** Paced replies go out whole, in order and within the room: every pacing
    turn ends, sends exactly the next part of what was still to be sent (batch
    openings, lines in their batch, batch closings, reply by reply), keeps the
    byte count exact, sends lines of which all but the last fit strictly inside
    the room, and stops only when the room is used or nothing is left. *)
Theorem pace_turn_correct room p :
  0 <= room -> counted p ->
  exists p' sent, pace_turn room p = Some (p', sent)
    /\ to_send p = sent ++ to_send p' /\ counted p' /\ 0 <= paced_bytes p'
    /\ within_room room p' sent.
Proof.
  intros Hr Hc. destruct (pace_loop_spec (pace_fuel p) room p []) as (p' & s & E & Ht & Hc' & Hw);
    [done|done|]. exists p', s. specialize (Hc' Hc).
  split_and!; [exact E|done|done| |done]. rewrite Hc'. apply replies_bytes_nonneg.
Qed.

Definition sample_paced : PacedReplies :=
  push (MkReply None [bs "row2"])
    (push (MkReply (Some (MkBatch (bs "l") (bs "ref") false)) [bs "row"; bs "end"]) PacedReplies_default).

Lemma pace_turn_correct_witness : exists p',
  pace_turn 1 sample_paced = Some (p', [SOpen (bs "l") (bs "ref"); SLine (Some (bs "ref")) (bs "row")])
  /\ counted p' /\ 0 <= paced_bytes p'.
Proof.
  destruct (pace_turn_correct 1 sample_paced) as (p' & sent & E & Ht & Hc & Hn & _); [lia|done|].
  exists p'. split; [|by split]. rewrite E. vm_compute in E. injection E as <- <-. reflexivity.
Defined.

(** The admission bound holds: a connection that only queues replies the
    bound admits holds at most one reply, or at most a send queue's bytes. *)
Theorem admitted_bounded p reply sendq :
  counted p -> admits p (line_bytes (reply_lines reply)) sendq = true ->
  counted (push reply p)
  /\ (length (replies (push reply p)) = 1%nat \/ paced_bytes (push reply p) <= sendq).
Proof.
  intros Hc Ha. split; [by apply push_counted|]. unfold admits, push in *. cbn [replies paced_bytes].
  destruct (replies p); [by left|]. right. by apply Z.leb_le in Ha.
Qed.

Lemma admitted_bounded_witness :
  counted (push (MkReply None [bs "xy"]) sample_paced)
  /\ (length (replies (push (MkReply None [bs "xy"]) sample_paced)) = 1%nat
      \/ paced_bytes (push (MkReply None [bs "xy"]) sample_paced) <= 100).
Proof. apply admitted_bounded; vm_compute; reflexivity. Defined.
