(* ===== verification/Middle.v ===== *)
(** * Middle parameters of core numerics ([e6ircd/src/core/middle.rs])

    A numeric's middle parameter is built from client text ([echo]), from a
    value the server owns ([own]) or from an integer; [wire] renders it as one
    wire parameter whatever it was built from. *)

From S2P Require Import Prelude Str Num Message.

Inductive MiddleSource : Type :=
| Echo (param : str)
| Own (value : str).

Definition OWN_MAX : nat := 100.

Definition Middle_echo (token : str) : MiddleSource := Echo (MiddleParam_echo token).
Definition Middle_own (value : str) : MiddleSource := Own value.

(** [From] an unsigned integer: [number.to_string()]. *)
Definition Middle_from (number : Z) : MiddleSource := Own (dec number).

(** As a release build renders it; a debug build asserts before the
    placeholder. *)
Definition wire (m : MiddleSource) : str :=
  match m with
  | Echo param => param
  | Own value =>
      if negb (stands_alone value) then bs "*" else truncate_on_char_boundary value OWN_MAX
  end.

Lemma wire_own_one value :
  utf8_valid value = true ->
  stands_alone (wire (Own value)) = true /\ length (wire (Own value)) <= OWN_MAX.
Proof.
  intros Hv. cbn [wire]. destruct (stands_alone value) eqn:Hs; cbn [negb].
  - split; [|apply truncate_le]. apply truncate_stands_alone; [done|done|unfold OWN_MAX; lia].
  - split; [done|cbn; unfold OWN_MAX; lia].
Qed.

(** Digits stand alone. *)
Lemma digits_stand_alone s :
  s <> [] -> forallb is_ascii_digit s = true -> stands_alone s = true /\ utf8_valid s = true.
Proof.
  intros Hne Hd. rewrite forallb_true_iff in Hd. split.
  - apply stands_alone_spec. split_and!; [done| |].
    + destruct s as [|b s]; [done|]. inversion Hd; subst. cbn. by byte_cases b.
    + eapply Forall_impl; [exact Hd|]. intros b. by byte_cases b.
  - apply utf8_valid_all_ascii, forallb_true_iff. eapply Forall_impl; [exact Hd|].
    intros b. by byte_cases b.
Qed.

(** Every numeric middle is exactly one bounded parameter: whether it came
    from client text, from the server or from an integer, what is written
    stands alone (non-empty, not colon-led, no space, CR, LF or NUL) and fits
    its bound; an integer is written as its decimal digits. *)
Theorem middle_one_parameter text number :
  utf8_valid text = true -> (0 <= number <= U64_MAX)%Z ->
  (stands_alone (wire (Middle_echo text)) = true /\ length (wire (Middle_echo text)) <= ECHO_MAX)
  /\ (stands_alone (wire (Middle_own text)) = true /\ length (wire (Middle_own text)) <= OWN_MAX)
  /\ wire (Middle_from number) = dec number /\ stands_alone (dec number) = true
  /\ dec_value (dec number) = number.
Proof.
  intros Hv Hn. destruct (dec_digits number) as [Hne Hdig]; [lia|].
  destruct (digits_stand_alone (dec number) Hne Hdig) as [Ha Hu].
  destruct (echo_one_param text Hv) as (He1 & He2 & _). destruct (wire_own_one text Hv) as [Ho1 Ho2].
  split_and!; [exact He1|exact He2|exact Ho1|exact Ho2| |exact Ha|apply dec_value_dec; lia].
  unfold Middle_from, wire. rewrite Ha. cbn [negb]. apply truncate_short.
  assert (length (dec number) <= 20); [|unfold OWN_MAX; lia].
  apply dec_length; [unfold U64_MAX in *; lia|lia].
Qed.

Lemma middle_one_parameter_witness :
  (stands_alone (wire (Middle_echo (bs "a b"))) = true /\ length (wire (Middle_echo (bs "a b"))) <= ECHO_MAX)
  /\ wire (Middle_from 42) = bs "42".
Proof.
  destruct (middle_one_parameter (bs "a b") 42) as (He & _ & Hf & _);
    [vm_compute; reflexivity|unfold U64_MAX; lia|].
  split; [exact He|]. rewrite Hf. vm_compute. reflexivity.
Defined.
