(* ===== verification/ListFilter.v ===== *)
(** * LIST's parameter ([e6ircd/src/core/list.rs], first half)

    The ELIST conditions: their parsing into a filter, and what the filter
    admits.  The reference semantics reads each condition on its own; the
    filter, which keeps one bound per kind, agrees with it whenever no kind of
    bound is repeated. *)

From S2P Require Import Prelude Str Num Casemap Mask.
From Stdlib Require Import Btauto.

Local Open Scope Z_scope.

Definition MAX_LIST_CONDITIONS : nat := 7.

Record Window : Type := MkWindow { since : option Z; until : option Z }.
Definition Window_default : Window := MkWindow None None.

Definition is_bounded (w : Window) : bool :=
  match since w, until w with None, None => false | _, _ => true end.

Definition none_or (o : option Z) (test : Z -> bool) : bool :=
  match o with None => true | Some v => test v end.

Definition window_contains (w : Window) (secs : Z) : bool :=
  none_or (since w) (fun since => since <=? secs) && none_or (until w) (fun until => secs <=? until).

Record ListFilter : Type := MkFilter {
  masks : list str;
  excluded : list str;
  min_members : Z;
  max_members : option Z;
  created : Window;
  topic_set : Window;
}.
Definition ListFilter_default : ListFilter := MkFilter [] [] 0 None Window_default Window_default.

Record ListCandidate : Type := MkCandidate {
  cand_key : str;
  members : Z;
  created_secs : Z;
  topic_set_secs : option Z;
}.

Inductive InvalidListParameters : Type := InvalidList.

Definition count (text : str) : option Z :=
  if negb (is_empty text) && forallb is_ascii_digit text then
    Some (foldl (fun total digit =>
      saturating_add (saturating_mul total 10) (digit_value digit)) 0 text)
  else None.

(** [C<n], [C>n], [T<n], [T>n], after the letter. *)
Definition minutes_ago (window : Window) (text : str) (now_secs : Z)
    : result InvalidListParameters Window :=
  '(within, minutes) ←
    match text with
    | b :: minutes =>
        if b =b? "<" then Ok (true, minutes)
        else if b =b? ">" then Ok (false, minutes)
        else Err InvalidList
    | [] => Err InvalidList
    end;
  minutes ← ok_or InvalidList (count minutes);
  let bound := saturating_sub now_secs (saturating_mul minutes 60) in
  Ok (if within : bool then MkWindow (Some bound) (until window)
      else MkWindow (since window) (Some bound)).

(** [u64::checked_sub(1)]. *)
Definition checked_pred (n : Z) : option Z := if n =? 0 then None else Some (n - 1).

(** One turn of the loop over the conditions. *)
Definition apply_condition (now_secs : Z) (casemap : CaseMapping) (filter : ListFilter)
    (condition : str) : result InvalidListParameters ListFilter :=
  match condition with
  | [] => Err InvalidList
  | first :: rest =>
      if first =b? "<" then
        members ← ok_or InvalidList (count rest);
        Ok (MkFilter (masks filter) (excluded filter) (min_members filter)
              (checked_pred members) (created filter) (topic_set filter))
      else if first =b? ">" then
        min ← ok_or InvalidList
          (match strip_byte "-" rest with
           | Some negative => (fun _ => 0) <$> count negative
           | None => (fun members => saturating_add members 1) <$> count rest
           end);
        Ok (MkFilter (masks filter) (excluded filter) min
              (max_members filter) (created filter) (topic_set filter))
      else if (first =b? "C") || (first =b? "c") then
        w ← minutes_ago (created filter) rest now_secs;
        Ok (MkFilter (masks filter) (excluded filter) (min_members filter)
              (max_members filter) w (topic_set filter))
      else if (first =b? "T") || (first =b? "t") then
        w ← minutes_ago (topic_set filter) rest now_secs;
        Ok (MkFilter (masks filter) (excluded filter) (min_members filter)
              (max_members filter) (created filter) w)
      else if first =b? "!" then
        Ok (MkFilter (masks filter) (excluded filter ++ [FoldedMask_new casemap rest])
              (min_members filter) (max_members filter) (created filter) (topic_set filter))
      else if (first =b? "#") || (first =b? "*") || (first =b? "?") then
        Ok (MkFilter (masks filter ++ [FoldedMask_new casemap condition]) (excluded filter)
              (min_members filter) (max_members filter) (created filter) (topic_set filter))
      else Err InvalidList
  end.

Fixpoint apply_conditions (now_secs : Z) (casemap : CaseMapping) (filter : ListFilter)
    (conditions : list str) : result InvalidListParameters ListFilter :=
  match conditions with
  | [] => Ok filter
  | condition :: conditions' =>
      filter ← apply_condition now_secs casemap filter condition;
      apply_conditions now_secs casemap filter conditions'
  end.

(** One trailing comma closes the list. *)
Definition split_conditions (parameter : str) : list str :=
  split "," (default parameter (strip_suffix_byte "," parameter)).

Definition ListFilter_parse (parameter : option str) (now_secs : Z) (casemap : CaseMapping)
    : result InvalidListParameters ListFilter :=
  match parameter with
  | None | Some [] => Ok ListFilter_default
  | Some parameter =>
      let conditions := split_conditions parameter in
      if (MAX_LIST_CONDITIONS <? length conditions)%nat then Err InvalidList
      else apply_conditions now_secs casemap ListFilter_default conditions
  end.

Definition filter_admits (f : ListFilter) (channel : ListCandidate) : bool :=
  let name := cand_key channel in
  (min_members f <=? members channel)
  && none_or (max_members f) (fun max => members channel <=? max)
  && window_contains (created f) (created_secs channel)
  && (negb (is_bounded (topic_set f))
      || match topic_set_secs channel with
         | Some secs => window_contains (topic_set f) secs
         | None => false
         end)
  && (is_empty (masks f) || existsb (fun mask => matches_folded mask name) (masks f))
  && negb (existsb (fun mask => matches_folded mask name) (excluded f)).

(** ** Reference semantics *)

(** A condition, read on its own. *)
Inductive Condition : Type :=
| Fewer (n : Z)
| More (n : Z)
| MoreThanNegative
| Created (within : bool) (minutes : Z)
| TopicSet (within : bool) (minutes : Z)
| Excluded (mask : str)
| Named (mask : str).

(** Seconds bounds: [within] is no more than [minutes] back, otherwise no less. *)
Definition age_ok (now secs : Z) (within : bool) (minutes : Z) : bool :=
  let bound := saturating_sub now (saturating_mul minutes 60) in
  if within then bound <=? secs else secs <=? bound.

Definition condition_holds (now : Z) (m : CaseMapping) (channel : ListCandidate) (c : Condition) : bool :=
  match c with
  | Fewer n => (n =? 0) || (members channel <? n)
  | More n => n <? members channel
  | MoreThanNegative => true
  | Created within minutes => age_ok now (created_secs channel) within minutes
  | TopicSet within minutes =>
      match topic_set_secs channel with
      | Some secs => age_ok now secs within minutes
      | None => false
      end
  | Excluded mask => negb (matches_folded (FoldedMask_new m mask) (cand_key channel))
  | Named mask => true
  end.

Definition named_masks (m : CaseMapping) (conds : list Condition) : list str :=
  omap (fun c => match c with Named mask => Some (FoldedMask_new m mask) | _ => None end) conds.

(** A channel meets every condition, and one of the names when any is given. *)
Definition meets (now : Z) (m : CaseMapping) (channel : ListCandidate) (conds : list Condition) : bool :=
  forallb (condition_holds now m channel) conds
  && (is_empty (named_masks m conds)
      || existsb (fun mask => matches_folded mask (cand_key channel)) (named_masks m conds)).

(** The bound a condition sets, of which the filter keeps one each. *)
Inductive BoundKind : Type := KMax | KMin | KCreated (within : bool) | KTopic (within : bool).
#[global] Instance BoundKind_eq_dec : EqDecision BoundKind.
Proof. solve_decision. Defined.

Definition bound_kind (c : Condition) : option BoundKind :=
  match c with
  | Fewer _ => Some KMax
  | More _ | MoreThanNegative => Some KMin
  | Created within _ => Some (KCreated within)
  | TopicSet within _ => Some (KTopic within)
  | Excluded _ | Named _ => None
  end.

Definition read_age (text : str) (mk : bool -> Z -> Condition) : option Condition :=
  match text with
  | b :: rest =>
      if b =b? "<" then mk true <$> count rest
      else if b =b? ">" then mk false <$> count rest
      else None
  | [] => None
  end.

Definition read_condition (text : str) : option Condition :=
  match text with
  | [] => None
  | first :: rest =>
      if first =b? "<" then Fewer <$> count rest
      else if first =b? ">" then
        match strip_byte "-" rest with
        | Some negative => (fun _ => MoreThanNegative) <$> count negative
        | None => More <$> count rest
        end
      else if (first =b? "C") || (first =b? "c") then read_age rest Created
      else if (first =b? "T") || (first =b? "t") then read_age rest TopicSet
      else if first =b? "!" then Some (Excluded rest)
      else if (first =b? "#") || (first =b? "*") || (first =b? "?") then Some (Named text)
      else None
  end.

(** The conditions of a parameter, when all can be read. *)
Definition read_conditions (parameter : str) : option (list Condition) :=
  let texts := split_conditions parameter in
  if (MAX_LIST_CONDITIONS <? length texts)%nat then None else mapM read_condition texts.

(** ** Lemmas *)

(** The saturating fold is the value, capped. *)
Lemma count_value text :
  count text = if negb (is_empty text) && forallb is_ascii_digit text
               then Some (Z.min U64_MAX (dec_value text)) else None.
Proof.
  unfold count. destruct (negb (is_empty text) && forallb is_ascii_digit text) eqn:E; [|done].
  apply andb_true_iff in E as [_ Hd]. f_equal. unfold dec_value. rewrite forallb_true_iff in Hd.
  assert (forall s, Forall (fun b => is_ascii_digit b = true) s -> forall acc, 0 <= acc ->
    foldl (fun total digit => saturating_add (saturating_mul total 10) (digit_value digit))
      (Z.min U64_MAX acc) s
    = Z.min U64_MAX (foldl (fun acc b => acc * 10 + digit_value b) acc s)) as Hf.
  { clear. induction 1 as [|b s Hb HF IH]; intros acc Ha; [done|]. cbn [foldl].
    apply digit_value_range in Hb. rewrite <- IH by nia. f_equal.
    unfold saturating_add, saturating_mul, U64_MAX. lia. }
  by rewrite <- (Hf text Hd 0) by lia.
Qed.

Lemma count_range text n : count text = Some n -> 0 <= n <= U64_MAX.
Proof.
  rewrite count_value. destruct (_ && _) eqn:E; [|done]. apply andb_true_iff in E as [_ Hd].
  apply dec_value_range in Hd. intros [= <-]. unfold U64_MAX in *. lia.
Qed.

Definition set_age (now : Z) (w : Window) (within : bool) (minutes : Z) : Window :=
  let bound := saturating_sub now (saturating_mul minutes 60) in
  if within then MkWindow (Some bound) (until w) else MkWindow (since w) (Some bound).

(** What a condition does to the filter. *)
Definition set_condition (now : Z) (m : CaseMapping) (f : ListFilter) (c : Condition) : ListFilter :=
  match c with
  | Fewer n => MkFilter (masks f) (excluded f) (min_members f) (checked_pred n) (created f) (topic_set f)
  | More n => MkFilter (masks f) (excluded f) (saturating_add n 1) (max_members f) (created f) (topic_set f)
  | MoreThanNegative => MkFilter (masks f) (excluded f) 0 (max_members f) (created f) (topic_set f)
  | Created within n => MkFilter (masks f) (excluded f) (min_members f) (max_members f)
      (set_age now (created f) within n) (topic_set f)
  | TopicSet within n => MkFilter (masks f) (excluded f) (min_members f) (max_members f)
      (created f) (set_age now (topic_set f) within n)
  | Excluded mask => MkFilter (masks f) (excluded f ++ [FoldedMask_new m mask]) (min_members f)
      (max_members f) (created f) (topic_set f)
  | Named mask => MkFilter (masks f ++ [FoldedMask_new m mask]) (excluded f) (min_members f)
      (max_members f) (created f) (topic_set f)
  end.

Lemma minutes_ago_read now w text mk :
  minutes_ago w text now =
  match read_age text mk with
  | Some _ => match text with
              | b :: rest => Ok (set_age now w (b =b? "<") (default 0 (count rest)))
              | [] => Err InvalidList
              end
  | None => Err InvalidList
  end.
Proof.
  unfold minutes_ago, read_age. destruct text as [|b rest]; [done|].
  destruct (b =b? "<"); [|destruct (b =b? ">"); [|done]]; cbn; by destruct (count rest).
Qed.

Lemma apply_condition_read now m f text :
  apply_condition now m f text =
  match read_condition text with Some c => Ok (set_condition now m f c) | None => Err InvalidList end.
Proof.
  unfold apply_condition, read_condition. destruct text as [|first rest]; [done|].
  destruct (first =b? "<"); [by destruct (count rest)|].
  destruct (first =b? ">").
  { destruct (strip_byte "-" rest) as [neg|]; [by destruct (count neg)|by destruct (count rest)]. }
  destruct (_ || (first =b? "c")); [|destruct (_ || (first =b? "t"))].
  1: rewrite (minutes_ago_read now _ rest Created).
  2: rewrite (minutes_ago_read now _ rest TopicSet).
  1, 2: unfold read_age; destruct rest as [|b r]; [done|]; destruct (b =b? "<");
    [by destruct (count r)|]; destruct (b =b? ">"); [by destruct (count r)|done].
  destruct (first =b? "!"); [done|]. by destruct (_ || (first =b? "?")).
Qed.

Lemma apply_conditions_read now m f texts :
  apply_conditions now m f texts =
  match mapM read_condition texts with
  | Some conds => Ok (foldl (set_condition now m) f conds)
  | None => Err InvalidList
  end.
Proof.
  revert f. induction texts as [|t texts IH]; intros f; [done|].
  cbn [apply_conditions mapM]. rewrite apply_condition_read.
  destruct (read_condition t) as [c|]; [|done]. cbn. rewrite IH. by destruct (mapM read_condition texts).
Qed.

(** The filter's bound of a kind is still the default. *)
Definition unset (f : ListFilter) (k : BoundKind) : Prop :=
  match k with
  | KMax => max_members f = None
  | KMin => min_members f = 0
  | KCreated true => since (created f) = None
  | KCreated false => until (created f) = None
  | KTopic true => since (topic_set f) = None
  | KTopic false => until (topic_set f) = None
  end.

Lemma unset_set now m f c k :
  bound_kind c <> Some k -> unset f k -> unset (set_condition now m f c) k.
Proof. destruct c as [| | |[]|[]| |], k as [| |[]|[]]; cbn; naive_solver. Qed.

Lemma unset_fold now m conds k :
  k ∉ omap bound_kind conds -> unset (foldl (set_condition now m) ListFilter_default conds) k.
Proof.
  induction conds as [|c conds IH] using rev_ind; [by destruct k as [| |[]|[]]|].
  rewrite omap_app, elem_of_app, foldl_app. intros Hk. apply unset_set; [|apply IH; tauto].
  intros Hc. apply Hk. right. cbn. rewrite Hc. left.
Qed.

Lemma masks_fold now m conds :
  masks (foldl (set_condition now m) ListFilter_default conds) = named_masks m conds.
Proof.
  induction conds as [|c conds IH] using rev_ind; [done|].
  unfold named_masks in *. rewrite foldl_app, omap_app, <- IH.
  destruct c; cbn; by rewrite ?app_nil_r.
Qed.

(** Everything [admits] tests but the names. *)
Definition admits_bounds (f : ListFilter) (channel : ListCandidate) : bool :=
  (min_members f <=? members channel)
  && none_or (max_members f) (fun max => members channel <=? max)
  && window_contains (created f) (created_secs channel)
  && (negb (is_bounded (topic_set f))
      || match topic_set_secs channel with
         | Some secs => window_contains (topic_set f) secs
         | None => false
         end)
  && negb (existsb (fun mask => matches_folded mask (cand_key channel)) (excluded f)).

Definition candidate_ok (channel : ListCandidate) : Prop := 0 <= members channel < U64_MAX.
Definition condition_ok (c : Condition) : Prop :=
  match c with Fewer n | More n => 0 <= n <= U64_MAX | _ => True end.

Lemma contains_set_age now w (within : bool) minutes secs :
  (if within then since w = None else until w = None) ->
  window_contains (set_age now w within minutes) secs
  = window_contains w secs && age_ok now secs within minutes.
Proof.
  unfold window_contains, set_age, age_ok. destruct within; cbn; intros ->; cbn.
  - by rewrite andb_comm.
  - by rewrite andb_true_r.
Qed.

Lemma admits_bounds_set now m f c channel :
  candidate_ok channel -> condition_ok c -> (forall k, bound_kind c = Some k -> unset f k) ->
  admits_bounds (set_condition now m f c) channel
  = admits_bounds f channel && condition_holds now m channel c.
Proof.
  intros Hch Hc Hu. unfold admits_bounds.
  destruct c as [n|n| |w n|w n|mask|mask]; cbn [set_condition masks excluded min_members max_members
    created topic_set condition_holds condition_ok bound_kind] in *.
  - rewrite (Hu KMax eq_refl). cbn [none_or].
    assert (none_or (checked_pred n) (fun max => members channel <=? max)
      = (n =? 0) || (members channel <? n)) as ->; [|btauto].
    unfold checked_pred. destruct (Z.eqb_spec n 0); [done|]. cbn.
    destruct (Z.leb_spec (members channel) (n - 1)), (Z.ltb_spec (members channel) n); lia || done.
  - rewrite (Hu KMin eq_refl). unfold candidate_ok in Hch.
    assert ((saturating_add n 1 <=? members channel) = (n <? members channel)) as ->.
    { unfold saturating_add. destruct (Z.ltb_spec n (members channel)); [apply Z.leb_le|apply Z.leb_gt]; lia. }
    rewrite (proj2 (Z.leb_le 0 _)) by lia. btauto.
  - rewrite (Hu KMin eq_refl). btauto.
  - rewrite contains_set_age by (destruct w; apply (Hu (KCreated _) eq_refl)). btauto.
  - assert (is_bounded (set_age now (topic_set f) w n) = true) as ->.
    { unfold set_age, is_bounded. destruct w; cbn; [done|]. by destruct (since (topic_set f)). }
    assert (is_bounded (topic_set f) = false -> forall s, window_contains (topic_set f) s = true) as Hb.
    { unfold is_bounded, window_contains. destruct (topic_set f) as [[|] [|]]; done. }
    destruct (topic_set_secs channel) as [secs|]; [|destruct (is_bounded (topic_set f)); btauto].
    rewrite contains_set_age by (destruct w; apply (Hu (KTopic _) eq_refl)).
    destruct (is_bounded (topic_set f)); [btauto|]. rewrite Hb by done. btauto.
  - rewrite existsb_app. cbn. btauto.
  - btauto.
Qed.

Lemma admits_bounds_fold now m conds channel :
  candidate_ok channel -> Forall condition_ok conds -> NoDup (omap bound_kind conds) ->
  admits_bounds (foldl (set_condition now m) ListFilter_default conds) channel
  = forallb (condition_holds now m channel) conds.
Proof.
  intros Hch. induction conds as [|c conds IH] using rev_ind; intros Hok Hnd.
  { unfold admits_bounds, candidate_ok in *. cbn. rewrite (proj2 (Z.leb_le 0 _)) by lia. done. }
  apply Forall_app in Hok as [Hok Hc]. rewrite Forall_singleton in Hc. rewrite omap_app in Hnd.
  apply NoDup_app in Hnd as (Hnd & Hdis & _).
  rewrite foldl_app. cbn [foldl]. rewrite admits_bounds_set; [|done|done|].
  - rewrite IH, forallb_app by done. cbn. btauto.
  - intros k Hk. apply unset_fold. intros Hin. apply (Hdis k Hin). cbn. rewrite Hk. left.
Qed.

Lemma admits_split f channel :
  filter_admits f channel = admits_bounds f channel
    && (is_empty (masks f) || existsb (fun mask => matches_folded mask (cand_key channel)) (masks f)).
Proof. unfold filter_admits, admits_bounds. btauto. Qed.

Lemma read_condition_ok text c : read_condition text = Some c -> condition_ok c.
Proof.
  unfold read_condition, read_age. intros H.
  repeat (case_match; simplify_eq/=; try done);
    repeat match goal with
    | H : _ <$> count _ = Some _ |- _ => apply fmap_Some in H as (? & ?%count_range & ->)
    end; done.
Qed.

(** A LIST parameter means what its conditions say: a parameter is accepted
    exactly when it has at most seven conditions and each can be read, and when
    no kind of bound is given twice the filter admits a channel exactly when it
    meets every condition, member counts, creation and topic ages and excluded
    masks, and one of the named masks when any is given. *)
Theorem list_filter_correct parameter now m channel conds :
  parameter <> [] -> candidate_ok channel ->
  read_conditions parameter = Some conds -> NoDup (omap bound_kind conds) ->
  exists f, ListFilter_parse (Some parameter) now m = Ok f
    /\ filter_admits f channel = meets now m channel conds.
Proof.
  intros Hne Hch Hr Hnd. unfold read_conditions in Hr. unfold ListFilter_parse.
  destruct parameter as [|b p]; [done|]. destruct (_ <? _)%nat; [done|].
  rewrite apply_conditions_read, Hr. eexists. split; [done|].
  rewrite admits_split, masks_fold, admits_bounds_fold; [done|done| |done].
  apply mapM_Some in Hr. clear -Hr. induction Hr; constructor; eauto using read_condition_ok.
Qed.

Lemma list_filter_correct_witness : exists f,
  ListFilter_parse (Some (bs "#a*,!*b,<10,C<5")) 10000 Rfc1459 = Ok f
  /\ filter_admits f (MkCandidate (bs "#ac") 3 9900 None)
     = meets 10000 Rfc1459 (MkCandidate (bs "#ac") 3 9900 None)
         [Named (bs "#a*"); Excluded (bs "*b"); Fewer 10; Created true 5].
Proof.
  apply list_filter_correct; [done|split; done|vm_compute; reflexivity|].
  cbn. repeat constructor; set_solver.
Defined.

(** A malformed LIST parameter is refused whole: a non-empty parameter is
    refused exactly when it has more than seven conditions or one that cannot
    be read. *)
Theorem list_filter_refuses parameter now m :
  parameter <> [] ->
  ListFilter_parse (Some parameter) now m = Err InvalidList <-> read_conditions parameter = None.
Proof.
  intros Hne. unfold read_conditions, ListFilter_parse. destruct parameter as [|b p]; [done|].
  destruct (_ <? _)%nat; [done|]. rewrite apply_conditions_read.
  by destruct (mapM read_condition _).
Qed.

Lemma list_filter_refuses_witness :
  ListFilter_parse (Some (bs "#a,,#b")) 0 Rfc1459 = Err InvalidList.
Proof. apply list_filter_refuses; [done|vm_compute; reflexivity]. Defined.

(** A repeated bound does not narrow: the last one replaces the earlier, so
    [<5,<10] admits a channel of seven members, which fails its first
    condition, and [<5,<0] admits any number. *)
Theorem list_filter_last_bound :
  (exists f, ListFilter_parse (Some (bs "<5,<10")) 0 Rfc1459 = Ok f
    /\ filter_admits f (MkCandidate (bs "#a") 7 0 None) = true)
  /\ (exists f, ListFilter_parse (Some (bs "<5,<0")) 0 Rfc1459 = Ok f
    /\ filter_admits f (MkCandidate (bs "#a") 7000 0 None) = true).
Proof. split; eexists; split; vm_compute; reflexivity. Qed.
