(* ===== verification/ListCursor.v ===== *)
(** * A LIST in progress ([e6ircd/src/core/list.rs], second half, and
    [channel_list_page] of [handler/chanops.rs])

    The cursor merges the pages of every channel shard in key order, asking for
    a shard's next page only when its rows are sent; a shard answers with its
    channels after the key it is asked from, as they are at the time.  An
    execution interleaves sending rows, asking for pages, answering and
    receiving them, and changes of the channels, in any order. *)

From S2P Require Import Prelude Str.
From Stdlib Require Import Sorting.Sorted.

Section Cursor.
(** A channel, what a row shows of one beside its key, and what of it the
    client's LIST or NAMES shows: nothing where the channel is hidden from the
    client or the conditions do not admit it. *)
Context {Chan Body : Type} (shows : str -> Chan -> option Body).

Record ChannelListRow : Type := MkRow { row_key : str; row_body : Body }.

Inductive ShardPage : Type :=
| Idle (after : option str)
| Requested
| Exhausted.

Record ShardCursor : Type := MkShard { shard_rows : list ChannelListRow; shard_page : ShardPage }.

(** The request's identifier, sweep and batch are carried along unchanged. *)
Record ChannelListCursor : Type := MkCursor { shards : list ShardCursor }.

Inductive NextRow : Type :=
| NRow (row : ChannelListRow)
| Waiting
| Finished.

Definition ChannelListCursor_new (n : nat) : ChannelListCursor :=
  MkCursor (replicate n (MkShard [] (Idle None))).

(** [first.is_none_or(|(_, best)| row.key < best)] takes the row. *)
Definition better_first (first : option (nat * str)) (index : nat) (row : ChannelListRow)
    : option (nat * str) :=
  if match first with None => true | Some (_, best) => str_ltb (row_key row) best end
  then Some (index, row_key row) else first.

(** The loop of [next_row]: [None] is [NextRow::Waiting]. *)
Fixpoint scan_shards (index : nat) (l : list ShardCursor) (first : option (nat * str))
    : option (option (nat * str)) :=
  match l with
  | [] => Some first
  | shard :: l' =>
      match shard_rows shard with
      | row :: _ =>
          scan_shards (S index) l' (better_first first index row)
      | [] =>
          match shard_page shard with
          | Exhausted => scan_shards (S index) l' first
          | _ => None
          end
      end
  end.

Definition pop_row (s : ShardCursor) : ShardCursor := MkShard (tail (shard_rows s)) (shard_page s).

Definition next_row (c : ChannelListCursor) : NextRow * ChannelListCursor :=
  match scan_shards 0 (shards c) None with
  | None => (Waiting, c)
  | Some None => (Finished, c)
  | Some (Some (index, _)) =>
      match shards c !! index with
      | Some (MkShard (row :: _) _) => (NRow row, MkCursor (alter pop_row index (shards c)))
      | _ => (Waiting, c)
      end
  end.

Fixpoint wanted_loop (index : nat) (l : list ShardCursor)
    : list (nat * option str) * list ShardCursor :=
  match l with
  | [] => ([], [])
  | shard :: l' =>
      let '(wanted, l'') := wanted_loop (S index) l' in
      match shard_rows shard, shard_page shard with
      | [], Idle after => ((index, after) :: wanted, MkShard [] Requested :: l'')
      | _, _ => (wanted, shard :: l'')
      end
  end.

Definition pages_wanted (c : ChannelListCursor) : list (nat * option str) * ChannelListCursor :=
  let '(wanted, l) := wanted_loop 0 (shards c) in (wanted, MkCursor l).

(** [None] is the panic on a page that was not asked for. *)
Definition accept (index : nat) (rows : list ChannelListRow) (next : option str)
    (c : ChannelListCursor) : option ChannelListCursor :=
  match shards c !! index with
  | Some (MkShard [] Requested) =>
      let page := match next with Some after => Idle (Some after) | None => Exhausted end in
      Some (MkCursor (<[index := MkShard rows page]> (shards c)))
  | _ => None
  end.

(** ** The page a shard answers with *)

Definition LIST_PAGE_SCAN : nat := 1024.

(** [ChannelDirectory::after], on the shard's channels in key order. *)
Definition channels_after (after : option str) (channels : list (str * Chan)) : list (str * Chan) :=
  List.filter (fun kc => match after with None => true | Some after => str_ltb after kc.1 end) channels.

(** The loop of [channel_list_page]. *)
Fixpoint page_loop (limit examined : nat) (rows : list ChannelListRow) (last : option str) (channels : list (str * Chan))
    : list ChannelListRow * option str :=
  match channels with
  | [] => (rows, None)
  | (key, channel) :: channels =>
      if (length rows =? limit) || (examined =? LIST_PAGE_SCAN) then (rows, last)
      else
        let rows := match shows key channel with Some body => rows ++ [MkRow key body] | None => rows end in
        page_loop limit (S examined) rows (Some key) channels
  end.

Definition channel_list_page (after : option str) (limit : nat) (channels : list (str * Chan)) : list ChannelListRow * option str :=
  page_loop limit 0 [] None (channels_after after channels).

(** ** Executions *)

(** What is on its way between the client's session and the channel shards. *)
Inductive Message : Type :=
| AskPage (index : nat) (after : option str) (limit : nat)
| Page (index : nat) (rows : list ChannelListRow) (next : option str).

Definition msg_shard (m : Message) : nat := match m with AskPage i _ _ | Page i _ _ => i end.

(** The cursor, the messages, each shard's channels in key order, and the rows
    sent so far. *)
Record Sweep : Type := MkSweep {
  sw_cursor : ChannelListCursor;
  sw_wire : list Message;
  sw_chans : list (list (str * Chan));
  sw_out : list ChannelListRow;
}.

Definition key_lt (a b : str) : Prop := str_ltb a b = true.
Definition key_le (a b : str) : Prop := str_ltb b a = false.

(** The shard a channel's key belongs to. *)
Context (owner : str -> nat).

Definition chans_ok (n : nat) (chans : list (list (str * Chan))) : Prop :=
  length chans = n /\ forall i l, chans !! i = Some l -> StronglySorted key_lt l.*1 /\ forall key, key ∈ l.*1 -> owner key = i.

Inductive sweep_step (n : nat) : Sweep -> Sweep -> Prop :=
| step_row c w chans out row c' :
    next_row c = (NRow row, c') -> sweep_step n (MkSweep c w chans out) (MkSweep c' w chans (out ++ [row]))
| step_ask c w chans out wanted c' limit :
    0 < limit -> pages_wanted c = (wanted, c') ->
    sweep_step n (MkSweep c w chans out) (MkSweep c' (w ++ ((fun ia => AskPage ia.1 ia.2 limit) <$> wanted)) chans out)
| step_answer c w1 i after limit w2 chans out l rows next :
    chans !! i = Some l -> channel_list_page after limit l = (rows, next) ->
    sweep_step n (MkSweep c (w1 ++ AskPage i after limit :: w2) chans out) (MkSweep c (w1 ++ Page i rows next :: w2) chans out)
| step_arrive c w1 i rows next w2 chans out c' :
    accept i rows next c = Some c' -> sweep_step n (MkSweep c (w1 ++ Page i rows next :: w2) chans out) (MkSweep c' (w1 ++ w2) chans out)
| step_change c w chans out chans' : chans_ok n chans' -> sweep_step n (MkSweep c w chans out) (MkSweep c w chans' out).

(** A LIST so far, with the channels there were at each step of it. *)
Inductive sweeps (n : nat) : list (list (list (str * Chan))) -> Sweep -> Prop :=
| sweeps_start chans : chans_ok n chans -> sweeps n [chans] (MkSweep (ChannelListCursor_new n) [] chans [])
| sweeps_step past s s' : sweeps n past s -> sweep_step n s s' -> sweeps n (sw_chans s' :: past) s'.

(** A row of a channel the shard had at some step, and a channel it had
    unchanged at every step. *)
Definition was_shown (past : list (list (list (str * Chan)))) (i : nat) (row : ChannelListRow) : Prop :=
  exists chans l channel, chans ∈ past /\ chans !! i = Some l /\ (row_key row, channel) ∈ l /\ shows (row_key row) channel = Some (row_body row).
Definition stayed (past : list (list (list (str * Chan)))) (i : nat) (key : str) (channel : Chan) : Prop :=
  forall chans, chans ∈ past -> exists l, chans !! i = Some l /\ (key, channel) ∈ l.

(** ** The key order *)

Lemma key_le_lt_trans a b c : key_le a b -> key_lt b c -> key_lt a c.
Proof.
  unfold key_le, key_lt. intros H1 H2. destruct (str_ltb a c) eqn:E; [done|]. destruct (str_ltb c a) eqn:E2.
  - by rewrite (str_ltb_trans _ _ _ H2 E2) in H1.
  - by rewrite (str_ltb_total _ _ E E2), H2 in H1.
Qed.

Lemma key_lt_le a b : key_lt a b -> key_le a b.
Proof. apply str_ltb_asym. Qed.

Lemma key_lt_trans a b c : key_lt a b -> key_lt b c -> key_lt a c.
Proof. apply str_ltb_trans. Qed.

Lemma key_le_ne a b : key_le a b -> a <> b -> key_lt a b.
Proof. unfold key_le, key_lt. intros H Hne. destruct (str_ltb a b) eqn:E; [done|]. by destruct Hne; apply str_ltb_total. Qed.

Lemma sorted_app_lt (l k : list str) a b : StronglySorted key_lt (l ++ k) -> a ∈ l -> b ∈ k -> key_lt a b.
Proof.
  induction l as [|x l IH]; [by intros _ ?%elem_of_nil|]. intros [Hs Hall]%StronglySorted_inv [->|Ha]%elem_of_cons Hb; [|auto].
  rewrite Forall_forall in Hall. apply Hall, elem_of_app. by right.
Qed.

(** ** Pages *)

Definition row_of (kc : str * Chan) : option ChannelListRow := MkRow kc.1 <$> shows kc.1 kc.2.

(** A page is the rows of the channels examined, and names the last of them
    unless they are all. *)
Lemma page_loop_spec limit examined rows last l :
  last <> None \/ (length rows <> limit /\ examined <> LIST_PAGE_SCAN) ->
  exists seen rest, l = seen ++ rest /\ fst (page_loop limit examined rows last l) = rows ++ omap row_of seen
    /\ match snd (page_loop limit examined rows last l) with
       | None => rest = []
       | Some k => (Some k = last /\ seen = []) \/ exists front channel, seen = front ++ [(k, channel)]
       end.
Proof.
  revert examined rows last. induction l as [|[key channel] l IH]; intros examined rows last Hlast; cbn [page_loop].
  { exists [], []. cbn. by rewrite app_nil_r. }
  destruct ((length rows =? limit) || (examined =? LIST_PAGE_SCAN)) eqn:Estop.
  - exists [], ((key, channel) :: l). cbn [fst snd app omap list_omap]. rewrite app_nil_r. split_and!; [done|done|]. destruct last as [k|]; [by left|].
    destruct Hlast as [?|[H1 H2]]; [done|]. apply orb_true_iff in Estop as [E%Nat.eqb_eq|E%Nat.eqb_eq]; done.
  - destruct (IH (S examined) (match shows key channel with Some body => rows ++ [MkRow key body] | None => rows end) (Some key)) as (seen & rest & -> & Hr & Hn); [by left|].
    exists ((key, channel) :: seen), rest. split; [done|]. split.
    + rewrite Hr. cbn. unfold row_of at 2. cbn. destruct (shows key channel); cbn; [by rewrite <- app_assoc|done].
    + destruct (snd _) as [k|]; [|done]. right. destruct Hn as [[[= ->] ->]|(front & channel' & ->)]; [by exists [], channel|].
      by exists ((key, channel) :: front), channel'.
Qed.

(** How far a shard has been read: up to a key, or all of it. *)
Definition reach_of (next : option str) : option (option str) := match next with Some k => Some (Some k) | None => None end.
Definition within (r : option (option str)) (key : str) : Prop :=
  match r with None => True | Some None => False | Some (Some k) => key_le key k end.
Definition above (after : option str) (key : str) : Prop := match after with None => True | Some k => key_lt k key end.

Lemma within_above after key k : within (Some after) key -> above after k -> key_lt key k.
Proof. destruct after as [a|]; [|done]. cbn. apply key_le_lt_trans. Qed.

Lemma within_or_above after key : within (Some after) key \/ above after key.
Proof. destruct after as [a|]; [|by right]. cbn. unfold key_le, key_lt. destruct (str_ltb a key); auto. Qed.

Lemma channels_after_elem after l kc : kc ∈ channels_after after l <-> kc ∈ l /\ above after kc.1.
Proof. unfold channels_after. rewrite elem_of_Lfilter. destruct after; cbn; naive_solver. Qed.

Lemma sorted_after after l : StronglySorted key_lt l.*1 -> StronglySorted key_lt (channels_after after l).*1.
Proof.
  intros Hs. unfold channels_after. induction l as [|kc l IH]; [constructor|]. cbn in *. apply StronglySorted_inv in Hs as [Hs Hall].
  destruct (match after with None => _ | Some _ => _ end); [|auto]. cbn. constructor; [auto|]. rewrite Forall_forall in *. intros k Hk. apply Hall.
  apply list_elem_of_fmap in Hk as (kc' & -> & Hk). apply elem_of_Lfilter in Hk as [Hk _]. by apply list_elem_of_fmap_2.
Qed.

Lemma row_of_elem row kc : row_of kc = Some row <-> row_key row = kc.1 /\ shows kc.1 kc.2 = Some (row_body row).
Proof.
  unfold row_of. rewrite fmap_Some. split; [by intros (body & -> & ->)|]. destruct row as [key body], kc as [k c]. cbn. intros [-> ->]. by exists body.
Qed.

Lemma rows_sorted l : StronglySorted key_lt l.*1 -> StronglySorted key_lt (row_key <$> omap row_of l).
Proof.
  induction l as [|kc l IH]; [constructor|]. cbn. intros [Hs Hall]%StronglySorted_inv. destruct (row_of kc) as [row|] eqn:E; [|auto]. cbn. constructor; [auto|].
  apply row_of_elem in E as [-> _]. rewrite Forall_forall in *. intros k Hk. apply Hall. apply list_elem_of_fmap in Hk as (row' & -> & Hk).
  apply list_elem_of_omap in Hk as (kc' & Hk & [-> _]%row_of_elem). by apply list_elem_of_fmap_2.
Qed.

Record page_ok (after : option str) (l : list (str * Chan)) (rows : list ChannelListRow) (next : option str) : Prop := {
  pg_sorted : StronglySorted key_lt (row_key <$> rows);
  pg_rows : forall row, row ∈ rows ->
    above after (row_key row) /\ within (reach_of next) (row_key row) /\ exists channel, (row_key row, channel) ∈ l /\ shows (row_key row) channel = Some (row_body row);
  pg_all : forall key channel body, (key, channel) ∈ l -> above after key -> within (reach_of next) key -> shows key channel = Some body -> MkRow key body ∈ rows;
  pg_next : forall k, next = Some k -> above after k;
}.

Lemma page_spec after limit l rows next :
  0 < limit -> StronglySorted key_lt l.*1 -> channel_list_page after limit l = (rows, next) -> page_ok after l rows next.
Proof.
  intros Hlim Hs%(sorted_after after). unfold channel_list_page.
  destruct (page_loop_spec limit 0 [] None (channels_after after l)) as (seen & rest & El & Hr & Hn); [right; cbn; split; [lia|done]|].
  destruct (page_loop _ _ _ _ _) as [rows' next']. cbn [fst snd app] in *. intros [= <- <-]. subst rows'. rewrite El, fmap_app in Hs.
  assert (Hin : forall kc, kc ∈ seen -> kc ∈ l /\ above after kc.1) by (intros kc Hkc; apply channels_after_elem; rewrite El; apply elem_of_app; by left).
  assert (Hseen : forall kc, kc ∈ seen -> within (reach_of next') kc.1).
  { intros kc Hkc. destruct next' as [k|]; [|done]. destruct Hn as [[? _]|(front & channel & ->)]; [done|]. apply elem_of_app in Hkc as [Hkc|Hkc%list_elem_of_singleton].
    - rewrite fmap_app, <- app_assoc in Hs. apply key_lt_le. eapply sorted_app_lt; [exact Hs|by apply list_elem_of_fmap_2|]. left.
    - subst kc. apply str_ltb_irrefl. }
  split.
  - apply rows_sorted. by apply StronglySorted_app_l in Hs.
  - intros row Hrow. apply list_elem_of_omap in Hrow as ([key channel] & Hkc & [Ek Eb]%row_of_elem). cbn [fst snd] in *. rewrite Ek.
    destruct (Hin _ Hkc) as [H1 H2]. split_and!; [done|by apply (Hseen _ Hkc)|]. by exists channel.
  - intros key channel body Hl Ha Hw Hb. apply list_elem_of_omap. exists (key, channel). split; [|by apply row_of_elem].
    assert (Hkc : (key, channel) ∈ seen ++ rest) by (rewrite <- El; by apply channels_after_elem). apply elem_of_app in Hkc as [?|Hkc]; [done|]. exfalso.
    destruct next' as [k|]; [|by rewrite Hn in Hkc; apply elem_of_nil in Hkc]. destruct Hn as [[? _]|(front & channel' & ->)]; [done|].
    assert (Hlt : key_lt k key). { eapply sorted_app_lt; [exact Hs| |by apply (list_elem_of_fmap_2 fst _ _ Hkc)]. rewrite fmap_app. apply elem_of_app. right. left. }
    cbn in Hw. unfold key_le in Hw. by rewrite Hlt in Hw.
  - intros k ->. destruct Hn as [[? _]|(front & channel & ->)]; [done|]. apply (Hin (k, channel)). apply elem_of_app. right. left.
Qed.

(** ** The row that is sent next *)

(** Nothing below the best so far is below the row or the best before it. *)
Lemma better_below first index row k :
  (forall i' k', better_first first index row = Some (i', k') -> str_ltb k' k = false) ->
  str_ltb (row_key row) k = false /\ (forall i' k', first = Some (i', k') -> str_ltb k' k = false).
Proof.
  unfold better_first. destruct first as [[i best]|]; [|naive_solver].
  destruct (str_ltb (row_key row) best) eqn:Eb; intros Hk; specialize (Hk _ _ eq_refl).
  - split; [done|]. intros i' k' [= <- <-]. eapply str_not_lt_trans; [exact Hk|]. by apply str_ltb_asym.
  - split; [by eapply str_not_lt_trans|]. by intros i' k' [= <- <-].
Qed.

Lemma better_first_Some first index row i k :
  better_first first index row = Some (i, k) -> (i = index /\ k = row_key row) \/ first = Some (i, k).
Proof. unfold better_first. case_match; naive_solver. Qed.

Lemma better_first_ne first index row : better_first first index row <> None.
Proof. unfold better_first. destruct first as [[? ?]|]; [|done]. by destruct (str_ltb _ _). Qed.

(** What a scan that found no shard waiting has established. *)
Lemma scan_spec index l first best :
  scan_shards index l first = Some best ->
  (forall s, s ∈ l -> shard_rows s = [] -> shard_page s = Exhausted)
  /\ match best with
     | None => first = None /\ forall s, s ∈ l -> shard_rows s = []
     | Some (i, k) =>
         (first = Some (i, k) \/ exists j row rows page, i = index + j /\ l !! j = Some (MkShard (row :: rows) page) /\ k = row_key row)
         /\ (forall s row rows, s ∈ l -> shard_rows s = row :: rows -> key_le k (row_key row))
         /\ (forall i' k', first = Some (i', k') -> key_le k k')
     end.
Proof.
  revert index first. induction l as [|s l IH]; intros index first; cbn [scan_shards].
  { intros [= <-]. split; [by intros s ?%elem_of_nil|]. destruct first as [[i k]|]; split; try done; [by left| |by intros s ?%elem_of_nil].
    split; [by intros s row rows ?%elem_of_nil|]. intros i' k' [= -> ->]. apply str_ltb_irrefl. }
  assert (Hshift : forall i k, (exists j row rows page, i = S index + j /\ l !! j = Some (MkShard (row :: rows) page) /\ k = row_key row) ->
    exists j row rows page, i = index + j /\ (s :: l) !! j = Some (MkShard (row :: rows) page) /\ k = row_key row).
  { intros i k (j & row & rows & page & -> & Hj & ->). exists (S j), row, rows, page. split_and!; [lia|done|done]. }
  destruct s as [[|row rows] page]; cbn [shard_rows shard_page].
  - destruct page; [done|done|]. intros H. destruct (IH _ _ H) as [H1 H2]. split.
    + intros s [->|Hs]%elem_of_cons; [done|auto].
    + destruct best as [[i k]|].
      * destruct H2 as (H2 & H3 & H4). split_and!; [naive_solver| |done]. intros s row rows [->|Hs]%elem_of_cons; [done|by apply H3].
      * destruct H2 as [-> H2]. split; [done|]. intros s [->|Hs]%elem_of_cons; [done|auto].
  - intros H. destruct (IH _ _ H) as [H1 H2]. split; [intros s [->|Hs]%elem_of_cons; [done|auto]|].
    destruct best as [[i k]|]; [|by destruct H2 as [?%better_first_ne _]]. destruct H2 as (H2 & H3 & H4).
    destruct (better_below first index row k) as [Hb1 Hb2].
    { intros i' k' E. by apply (H4 i' k'). }
    split_and!; [|by intros s row' rows' [->|Hs]%elem_of_cons; [intros [= <- <-]|apply H3]|by intros i' k'; apply Hb2].
    destruct H2 as [[[-> ->]|E]%better_first_Some|H2]; [right; exists 0, row, rows, page; split_and!; [lia|done|done]|by left|by right; apply Hshift].
Qed.

Lemma next_row_sends c row c' :
  next_row c = (NRow row, c') ->
  exists i rows page, shards c !! i = Some (MkShard (row :: rows) page) /\ shards c' = <[i := MkShard rows page]> (shards c)
    /\ forall s, s ∈ shards c -> match shard_rows s with [] => shard_page s = Exhausted | first :: _ => key_le (row_key row) (row_key first) end.
Proof.
  unfold next_row. destruct (scan_shards 0 (shards c) None) as [best|] eqn:E; [|done]. apply scan_spec in E as [H1 H2].
  destruct best as [[i k]|]; [|done]. destruct H2 as ([?|(j & row' & rows & page & -> & Hj & ->)] & H3 & _); [done|]. cbn [plus]. rewrite Hj. intros [= <- <-].
  exists j, rows, page. split_and!; [done| |].
  - cbn [shards]. apply list_eq. intros i. destruct (decide (i = j)) as [->|Hne].
    + rewrite list_lookup_alter_eq, Hj, list_lookup_insert_eq by by eapply lookup_lt_Some. done.
    + by rewrite list_lookup_alter_ne, list_lookup_insert_ne by done.
  - intros s Hs. destruct (shard_rows s) as [|first rest] eqn:Er; [by apply H1|]. by eapply H3.
Qed.

Lemma next_row_finished c c' :
  next_row c = (Finished, c') -> forall s, s ∈ shards c -> shard_rows s = [] /\ shard_page s = Exhausted.
Proof.
  unfold next_row. destruct (scan_shards 0 (shards c) None) as [best|] eqn:E; [|done]. apply scan_spec in E as [H1 H2].
  destruct best as [[i k]|]; [destruct (shards c !! i) as [[[|] ?]|]; done|]. destruct H2 as [_ H2]. intros _ s Hs. split; [auto|]. apply H1; auto.
Qed.

(** ** The invariant *)

(** Where a shard's part stands: what it holds or is being brought, and how far
    the shard has been read with that. *)
Inductive stands (i : nat) : ShardCursor -> list Message -> list ChannelListRow -> option (option str) -> Prop :=
| stands_idle rows after : stands i (MkShard rows (Idle after)) [] rows (Some after)
| stands_asked after limit : 0 < limit -> stands i (MkShard [] Requested) [AskPage i after limit] [] (Some after)
| stands_paged rows next : stands i (MkShard [] Requested) [Page i rows next] rows (reach_of next)
| stands_done rows : stands i (MkShard rows Exhausted) [] rows None.

Definition wire_of (i : nat) (w : list Message) : list Message := List.filter (fun m => msg_shard m =? i) w.

Record reads (past : list (list (list (str * Chan)))) (out : list ChannelListRow) (i : nat) (held : list ChannelListRow) (r : option (option str)) : Prop := {
  rd_sorted : StronglySorted key_lt (row_key <$> held);
  rd_held : forall b, b ∈ held -> within r (row_key b) /\ owner (row_key b) = i /\ was_shown past i b;
  rd_out : forall a, a ∈ out -> within r (row_key a) /\ forall b, b ∈ held -> key_lt (row_key a) (row_key b);
  rd_all : forall key channel body, stayed past i key channel -> within r key -> shows key channel = Some body -> MkRow key body ∈ out \/ MkRow key body ∈ held;
}.

Record sweep_inv (n : nat) (past : list (list (list (str * Chan)))) (s : Sweep) : Prop := {
  si_chans : chans_ok n (sw_chans s);
  si_now : sw_chans s ∈ past;
  si_length : length (shards (sw_cursor s)) = n;
  si_sorted : StronglySorted key_lt (row_key <$> sw_out s);
  si_out : forall a, a ∈ sw_out s -> exists i, was_shown past i a;
  si_shards : forall i x, shards (sw_cursor s) !! i = Some x -> exists held r, stands i x (wire_of i (sw_wire s)) held r /\ reads past (sw_out s) i held r;
  si_wire : forall m, m ∈ sw_wire s -> msg_shard m < n;
}.

Lemma was_shown_cons chans past i row : was_shown past i row -> was_shown (chans :: past) i row.
Proof. intros (c & l & channel & Hc & H). exists c, l, channel. split; [by right|done]. Qed.

Lemma stayed_cons chans past i key channel : stayed (chans :: past) i key channel -> stayed past i key channel.
Proof. intros H c Hc. apply H. by right. Qed.

Lemma reads_cons chans past out i held r : reads past out i held r -> reads (chans :: past) out i held r.
Proof.
  intros [H1 H2 H3 H4]. split; [done| |done|].
  - intros b Hb. destruct (H2 b Hb) as (? & ? & ?). split_and!; [done|done|by apply was_shown_cons].
  - intros key channel body Hst. apply H4. by eapply stayed_cons.
Qed.

(** A page answers for what lies beyond the key it was asked from. *)
Lemma reads_answer past out i after l rows next chans n :
  reads past out i [] (Some after) -> chans_ok n chans -> chans ∈ past -> chans !! i = Some l -> page_ok after l rows next ->
  reads past out i rows (reach_of next).
Proof.
  intros [_ _ H3 H4] Hok Hpast Hl [P1 P2 P3 P4]. split; [done| | |].
  - intros b Hb. destruct (P2 b Hb) as (Ha & Hw & channel & Hin & Hs). split_and!; [done| |by exists chans, l, channel].
    apply (proj2 (proj2 Hok i l Hl)). by apply (list_elem_of_fmap_2 fst _ _ Hin).
  - intros a Ha. destruct (H3 a Ha) as [Hw _]. split.
    + destruct next as [k|]; [|done]. apply key_lt_le. eapply within_above; [exact Hw|by apply P4].
    + intros b Hb. eapply within_above; [exact Hw|]. by apply P2.
  - intros key channel body Hst Hw Hs. destruct (within_or_above after key) as [Hwa|Hab].
    + destruct (H4 key channel body Hst Hwa Hs) as [?|?%elem_of_nil]; [by left|done].
    + right. destruct (Hst chans Hpast) as (l' & Hl' & Hin). rewrite Hl in Hl'. injection Hl' as <-. by eapply P3.
Qed.

(** Sending the row that sorts first. *)
Lemma reads_sent past out i held r row :
  reads past out i (row :: held) r -> reads past (out ++ [row]) i held r.
Proof.
  intros [H1 H2 H3 H4]. cbn in H1. apply StronglySorted_inv in H1 as [H1 Hall]. rewrite Forall_forall in Hall. split; [done| | |].
  - intros b Hb. apply H2. by right.
  - intros a [Ha| ->]%elem_of_snoc.
    + destruct (H3 a Ha) as [Hw Hlt]. split; [done|]. intros b Hb. apply Hlt. by right.
    + split; [apply H2; left|]. intros b Hb. apply Hall. by apply list_elem_of_fmap_2.
  - intros key channel body Hst Hw Hs. rewrite elem_of_snoc. destruct (H4 key channel body Hst Hw Hs) as [?|[->|?]%elem_of_cons]; auto.
Qed.

Lemma reads_passed past out i held r row :
  reads past out i held r -> within r (row_key row) -> (forall b, b ∈ held -> key_lt (row_key row) (row_key b)) -> reads past (out ++ [row]) i held r.
Proof.
  intros [H1 H2 H3 H4] Hw Hlt. split; [done|done| |].
  - intros a [Ha| ->]%elem_of_snoc; auto.
  - intros key channel body Hst Hk Hs. rewrite elem_of_snoc. destruct (H4 key channel body Hst Hk Hs); auto.
Qed.

(** ** Every step keeps it *)

Lemma wire_of_app i w w' : wire_of i (w ++ w') = wire_of i w ++ wire_of i w'.
Proof. apply List.filter_app. Qed.

Lemma wire_of_mine m w1 w2 : wire_of (msg_shard m) (w1 ++ m :: w2) = wire_of (msg_shard m) w1 ++ m :: wire_of (msg_shard m) w2.
Proof. rewrite wire_of_app. unfold wire_of at 2. cbn. by rewrite Nat.eqb_refl. Qed.

Lemma wire_of_others i m w1 w2 : msg_shard m <> i -> wire_of i (w1 ++ m :: w2) = wire_of i (w1 ++ w2).
Proof. intros Hi. rewrite !wire_of_app. f_equal. unfold wire_of. cbn. by rewrite (proj2 (Nat.eqb_neq _ _) Hi). Qed.

(** The one message of a shard's that is on its way. *)
Lemma stands_message i x m w1 w2 held r :
  stands i x (wire_of i (w1 ++ m :: w2)) held r -> msg_shard m = i ->
  wire_of i (w1 ++ w2) = [] /\ x = MkShard [] Requested
  /\ match m with
     | AskPage _ after limit => 0 < limit /\ held = [] /\ r = Some after
     | Page _ rows next => held = rows /\ r = reach_of next
     end.
Proof.
  intros Hs <-. rewrite wire_of_mine in Hs. rewrite wire_of_app. remember (wire_of _ w1 ++ m :: wire_of _ w2) as w eqn:Ew.
  assert (Hone : forall m', w = [m'] -> m = m' /\ wire_of (msg_shard m) w1 ++ wire_of (msg_shard m) w2 = []).
  { intros m' ->. destruct (wire_of (msg_shard m) w1) as [|y l]; [cbn in Ew; injection Ew as -> <-; done|]. cbn in Ew. injection Ew as _ Ew. by destruct l. }
  inversion Hs as [rows after Hx Hw|after limit Hl Hx Hw|rows next Hx Hw|rows Hx Hw]; subst x.
  - by destruct (wire_of _ w1); rewrite Ew in Hw.
  - destruct (Hone _ (eq_sym Hw)) as [-> Hnil]. done.
  - destruct (Hone _ (eq_sym Hw)) as [-> Hnil]. done.
  - by destruct (wire_of _ w1); rewrite Ew in Hw.
Qed.

Definition asked (s : ShardCursor) : ShardCursor :=
  match shard_rows s, shard_page s with [], Idle _ => MkShard [] Requested | _, _ => s end.

Lemma wanted_asked index l : snd (wanted_loop index l) = asked <$> l.
Proof.
  revert index. induction l as [|s l IH]; intros index; [done|]. cbn [wanted_loop].
  specialize (IH (S index)). destruct (wanted_loop (S index) l) as [w l']. cbn [snd] in IH. subst l'.
  by destruct s as [[|] []].
Qed.

(** What is asked of each shard. *)
Lemma wanted_of index l i :
  List.filter (fun ia => ia.1 =? index + i) (fst (wanted_loop index l))
  = match l !! i with Some (MkShard [] (Idle after)) => [(index + i, after)] | _ => [] end.
Proof.
  assert (Hnil : forall l k j, j < k -> List.filter (fun ia => ia.1 =? j) (fst (wanted_loop k l)) = []).
  { clear. induction l as [|s l IH]; intros k j Hj; [done|]. cbn [wanted_loop]. specialize (IH (S k) j). destruct (wanted_loop (S k) l) as [w l']. cbn [fst] in *.
    destruct s as [[|] []]; cbn [shard_rows shard_page fst List.filter]; try (apply IH; lia). rewrite (proj2 (Nat.eqb_neq _ _)) by lia. apply IH. lia. }
  revert index i. induction l as [|s l IH]; intros index i; [done|]. cbn [wanted_loop]. specialize (IH (S index)). specialize (Hnil l (S index) index ltac:(lia)).
  destruct (wanted_loop (S index) l) as [w l']. cbn [fst] in *. destruct i as [|i]; cbn [lookup list_lookup].
  - rewrite Nat.add_0_r. destruct s as [[|] []]; cbn [shard_rows shard_page fst List.filter]; try done. by rewrite Nat.eqb_refl, Hnil.
  - specialize (IH i). rewrite Nat.add_succ_r. cbn [Nat.add] in IH.
    destruct s as [[|] []]; cbn [shard_rows shard_page fst List.filter]; try done. rewrite (proj2 (Nat.eqb_neq _ _)) by lia. done.
Qed.

Lemma wire_of_asks limit wanted i :
  wire_of i ((fun ia => AskPage ia.1 ia.2 limit) <$> wanted) = (fun ia => AskPage ia.1 ia.2 limit) <$> List.filter (fun ia => ia.1 =? i) wanted.
Proof. unfold wire_of. induction wanted as [|[j after] wanted IH]; [done|]. cbn. destruct (j =? i); cbn; by rewrite IH. Qed.

Lemma wanted_below index l ia : ia ∈ fst (wanted_loop index l) -> ia.1 < index + length l.
Proof.
  revert index. induction l as [|s l IH]; intros index; [by intros ?%elem_of_nil|]. cbn [wanted_loop length]. specialize (IH (S index)).
  destruct (wanted_loop (S index) l) as [w l']. cbn [fst] in *.
  destruct s as [[|] []]; cbn [shard_rows shard_page fst]; try (intros Hia%IH; lia). intros [->|Hia%IH]%elem_of_cons; [cbn; lia|lia].
Qed.

Lemma within_le r a b : key_lt a b -> within r b -> within r a.
Proof. destruct r as [[k|]|]; cbn; [|done..]. unfold key_le. intros H1 H2. destruct (str_ltb k a) eqn:E; [|done]. pose proof (key_lt_trans k a b E H1) as H3. unfold key_lt in H3. congruence. Qed.

(** A shard the row sent next was not from: all it holds sorts after the row. *)
Lemma reads_other past out j i x w held r row :
  stands j x w held r -> reads past out j held r -> owner (row_key row) = i -> j <> i ->
  match shard_rows x with [] => shard_page x = Exhausted | first :: _ => key_le (row_key row) (row_key first) end ->
  reads past (out ++ [row]) j held r.
Proof.
  intros Hst Hr Ho Hne Hle.
  assert (Hheld : (held = [] /\ r = None) \/ exists first rest, held = first :: rest /\ key_le (row_key row) (row_key first)).
  { inversion Hst; subst; cbn in Hle; try done; destruct held as [|first rest]; eauto; by left. }
  destruct Hheld as [[-> ->]|(first & rest & -> & Hle')].
  - apply reads_passed; [done|done|by intros b ?%elem_of_nil].
  - destruct (rd_held _ _ _ _ _ Hr first) as (Hw & Hof & _); [left|].
    assert (Hlt : key_lt (row_key row) (row_key first)) by (apply key_le_ne; [done|congruence]).
    apply reads_passed; [done|by eapply within_le|]. pose proof (rd_sorted _ _ _ _ _ Hr) as Hs. cbn in Hs. apply StronglySorted_inv in Hs as [_ Hall]. rewrite Forall_forall in Hall.
    intros b [->|Hb]%elem_of_cons; [done|]. eapply key_lt_trans; [exact Hlt|]. apply Hall. by apply list_elem_of_fmap_2.
Qed.

Lemma sent_inv n past c w chans out row c' :
  sweep_inv n past (MkSweep c w chans out) -> next_row c = (NRow row, c') -> sweep_inv n past (MkSweep c' w chans (out ++ [row])).
Proof.
  intros [H1 H2 H3 H4 H5 H6 H7] (i & rows & page & Hi & Ec' & Hmin)%next_row_sends. cbn [sw_cursor sw_wire sw_chans sw_out] in *.
  destruct (H6 i _ Hi) as (held & r & Hst & Hr).
  assert (Hh : held = row :: rows /\ stands i (MkShard rows page) (wire_of i w) rows r) by (inversion Hst; subst; split; try done; constructor).
  destruct Hh as [-> Hst']. destruct (rd_held _ _ _ _ _ Hr row) as (_ & Ho & Hsh); [left|]. split; cbn [sw_cursor sw_wire sw_chans sw_out]; [done|done| | | | |done].
  - by rewrite Ec', length_insert.
  - rewrite fmap_app. apply StronglySorted_snoc; [done|]. apply Forall_forall. intros k (a & -> & Ha)%list_elem_of_fmap. apply (rd_out _ _ _ _ _ Hr a Ha). left.
  - intros a [Ha| ->]%elem_of_snoc; [auto|by exists i].
  - intros j x Hj. rewrite Ec' in Hj. destruct (decide (j = i)) as [->|Hne].
    + rewrite list_lookup_insert_eq in Hj by by eapply lookup_lt_Some. injection Hj as <-. exists rows, r. split; [done|by apply reads_sent].
    + rewrite list_lookup_insert_ne in Hj by done. destruct (H6 j x Hj) as (heldj & rj & Hstj & Hrj). exists heldj, rj. split; [done|].
      eapply reads_other; [done|done|exact Ho|done|]. apply Hmin. by eapply list_elem_of_lookup_2.
Qed.

Lemma asked_inv n past c w chans out wanted c' limit :
  sweep_inv n past (MkSweep c w chans out) -> 0 < limit -> pages_wanted c = (wanted, c') ->
  sweep_inv n past (MkSweep c' (w ++ ((fun ia => AskPage ia.1 ia.2 limit) <$> wanted)) chans out).
Proof.
  intros [H1 H2 H3 H4 H5 H6 H7] Hlim Hw. cbn [sw_cursor sw_wire sw_chans sw_out] in *. unfold pages_wanted in Hw.
  pose proof (wanted_asked 0 (shards c)) as Ha. pose proof (wanted_of 0 (shards c)) as Hof. pose proof (wanted_below 0 (shards c)) as Hlt.
  destruct (wanted_loop 0 (shards c)) as [wanted' l]. injection Hw as -> <-. cbn [fst snd Nat.add] in *. subst l. split; cbn [sw_cursor sw_wire sw_chans sw_out shards]; try done.
  - by rewrite length_fmap.
  - intros i x Hx. rewrite list_lookup_fmap in Hx. apply fmap_Some in Hx as (x0 & Hx0 & ->). destruct (H6 i x0 Hx0) as (held & r & Hst & Hr). exists held, r. split; [|done].
    rewrite wire_of_app, wire_of_asks, Hof, Hx0. destruct Hst as [[|row rows] after|after lim Hl|rows next|rows]; cbn; try (rewrite app_nil_r); try (by constructor).
    by destruct rows; cbn; constructor.
  - intros m [Hm|Hm]%elem_of_app; [auto|]. apply list_elem_of_fmap in Hm as (ia & -> & Hia%Hlt). cbn. lia.
Qed.

Lemma answered_inv n past c w1 i after limit w2 chans out l rows next :
  sweep_inv n past (MkSweep c (w1 ++ AskPage i after limit :: w2) chans out) -> chans !! i = Some l -> channel_list_page after limit l = (rows, next) ->
  sweep_inv n past (MkSweep c (w1 ++ Page i rows next :: w2) chans out).
Proof.
  intros [H1 H2 H3 H4 H5 H6 H7] Hl Hp. cbn [sw_cursor sw_wire sw_chans sw_out] in *. split; cbn [sw_cursor sw_wire sw_chans sw_out]; try done.
  - intros j x Hj. destruct (H6 j x Hj) as (held & r & Hst & Hr). destruct (decide (j = i)) as [->|Hne].
    + destruct (stands_message i x (AskPage i after limit) w1 w2 held r Hst eq_refl) as (Hw & -> & Hlim & -> & ->). exists rows, (reach_of next). split.
      * rewrite wire_of_app in Hw. apply app_eq_nil in Hw as [Hw1 Hw2]. pose proof (wire_of_mine (Page i rows next) w1 w2) as E. cbn in E. rewrite E, Hw1, Hw2. constructor.
      * eapply reads_answer; [done|done|done|done|]. eapply page_spec; [done| |done]. apply (proj2 H1 i l Hl).
    + exists held, r. split; [|done]. rewrite wire_of_others in Hst |- * by (cbn; congruence). done.
  - intros m [Hm|[->|Hm]%elem_of_cons]%elem_of_app; [apply H7; set_solver| |apply H7; set_solver]. apply (H7 (AskPage i after limit)). set_solver.
Qed.

Lemma arrived_inv n past c w1 i rows next w2 chans out c' :
  sweep_inv n past (MkSweep c (w1 ++ Page i rows next :: w2) chans out) -> accept i rows next c = Some c' -> sweep_inv n past (MkSweep c' (w1 ++ w2) chans out).
Proof.
  intros [H1 H2 H3 H4 H5 H6 H7] Ha. cbn [sw_cursor sw_wire sw_chans sw_out] in *. unfold accept in Ha.
  destruct (shards c !! i) as [x|] eqn:Hi; [|done]. destruct (H6 i x Hi) as (held & r & Hst & Hr).
  destruct (stands_message i x (Page i rows next) w1 w2 held r Hst eq_refl) as (Hw & -> & -> & ->). injection Ha as <-. split; cbn [sw_cursor sw_wire sw_chans sw_out shards]; try done.
  - by rewrite length_insert.
  - intros j x Hj. destruct (decide (j = i)) as [->|Hne].
    + rewrite list_lookup_insert_eq in Hj by by eapply lookup_lt_Some. injection Hj as <-. exists rows, (reach_of next). split; [|done]. rewrite Hw. destruct next; constructor.
    + rewrite list_lookup_insert_ne in Hj by done. destruct (H6 j x Hj) as (heldj & rj & Hstj & Hrj). exists heldj, rj. split; [|done].
      rewrite wire_of_others in Hstj by (cbn; congruence). done.
  - intros m Hm. apply H7. set_solver.
Qed.

Lemma sweep_inv_cons n past s chans : sweep_inv n past s -> chans_ok n chans ->
  sweep_inv n (chans :: past) (MkSweep (sw_cursor s) (sw_wire s) chans (sw_out s)).
Proof.
  intros [H1 H2 H3 H4 H5 H6 H7] Hok. split; cbn [sw_cursor sw_wire sw_chans sw_out]; try done.
  - left.
  - intros a Ha. destruct (H5 a Ha) as [i Hi]. exists i. by apply was_shown_cons.
  - intros i x Hx. destruct (H6 i x Hx) as (held & r & Hst & Hr). exists held, r. split; [done|by apply reads_cons].
Qed.

Lemma sweeps_inv n past s : sweeps n past s -> sweep_inv n past s.
Proof.
  induction 1 as [chans Hok|past s s' _ IH Hstep].
  - split; cbn [sw_cursor sw_wire sw_chans sw_out ChannelListCursor_new shards]; try done; [left|by rewrite length_replicate|constructor|by intros a ?%elem_of_nil| |by intros m ?%elem_of_nil].
    intros i x [-> _]%lookup_replicate_1. exists [], (Some None). split; [constructor|]. split; [constructor|by intros b ?%elem_of_nil|by intros a ?%elem_of_nil|done].
  - assert (Hcons : forall s', sweep_inv n past s' -> sweep_inv n (sw_chans s' :: past) s') by (intros s0 H0; destruct s0; apply (sweep_inv_cons n past _ _ H0); apply H0).
    destruct Hstep as [c w chans out row c' Hn|c w chans out wanted c' limit Hl Hw|c w1 i after limit w2 chans out l rows next Hl Hp|c w1 i rows next w2 chans out c' Ha|c w chans out chans' Hok].
    + apply Hcons. by eapply sent_inv.
    + apply Hcons. by eapply asked_inv.
    + apply Hcons. by eapply answered_inv.
    + apply Hcons. by eapply arrived_inv.
    + apply (sweep_inv_cons n past _ chans' IH Hok).
Qed.

(** ** The properties *)

Lemma scan_waiting index l first :
  scan_shards index l first = None -> exists i s, l !! i = Some s /\ shard_rows s = [] /\ shard_page s <> Exhausted.
Proof.
  revert index first. induction l as [|s l IH]; intros index first; [done|]. cbn [scan_shards].
  destruct (shard_rows s) as [|row rows] eqn:Er.
  - destruct (shard_page s) eqn:Ep; [exists O, s; rewrite Ep; done|exists O, s; rewrite Ep; done|].
    intros (i & s' & H)%IH. exists (S i), s'. done.
  - intros (i & s' & H)%IH. exists (S i), s'. done.
Qed.

Lemma next_row_waits c c' :
  next_row c = (Waiting, c') -> exists i s, shards c !! i = Some s /\ shard_rows s = [] /\ shard_page s <> Exhausted.
Proof.
  unfold next_row. destruct (scan_shards 0 (shards c) None) as [best|] eqn:E; [|intros _; by eapply scan_waiting].
  apply scan_spec in E as [_ H2]. destruct best as [[i k]|]; [|done]. destruct H2 as ([?|(j & row & rows & page & -> & Hj & _)] & _ & _); [done|]. cbn [plus]. by rewrite Hj.
Qed.

Lemma waits_for n past s c' :
  sweep_inv n past s -> next_row (sw_cursor s) = (Waiting, c') -> sw_wire s <> [] \/ fst (pages_wanted (sw_cursor s)) <> [].
Proof.
  intros Hi (i & x & Hx & Hrows & Hpage)%next_row_waits. destruct (si_shards _ _ _ Hi i x Hx) as (held & r & Hst & _). destruct x as [rows page]. cbn in *. subst rows.
  destruct page as [after| |]; [right| |done].
  - unfold pages_wanted. pose proof (wanted_of 0 (shards (sw_cursor s)) i) as Hof. rewrite Hx in Hof. destruct (wanted_loop 0 _) as [wanted l]. cbn in *. by destruct wanted.
  - left. intros E. rewrite E in Hst. cbn in Hst. inversion Hst.
Qed.

(** C23. A paced LIST, however sending rows, asking for pages, answering them
    and receiving them interleave, whatever room the client makes, and however
    channels come, change and go meanwhile: the rows are sent in the order of
    their keys and none twice, each as a shard had it at some time during the
    LIST; when the cursor reports it has finished, every channel that was there
    unchanged throughout and that the client may see has been sent; no page
    arrives that was not asked for; and while the cursor waits a page is on its
    way or there is one it asks for next. *)
Theorem list_cursor_correct n past s :
  sweeps n past s ->
  StronglySorted key_lt (row_key <$> sw_out s)
  /\ (forall row, row ∈ sw_out s -> exists i, was_shown past i row)
  /\ (forall c', next_row (sw_cursor s) = (Finished, c') ->
        forall i key channel body, stayed past i key channel -> shows key channel = Some body -> MkRow key body ∈ sw_out s)
  /\ (forall w1 i rows next w2, sw_wire s = w1 ++ Page i rows next :: w2 -> is_Some (accept i rows next (sw_cursor s)))
  /\ (forall c', next_row (sw_cursor s) = (Waiting, c') -> sw_wire s <> [] \/ fst (pages_wanted (sw_cursor s)) <> []).
Proof.
  intros Hi%sweeps_inv. split_and!; [apply Hi|apply Hi| | |by intros c'; eapply waits_for].
  - intros c' Hfin i key channel body Hst Hs. destruct (Hst _ (si_now _ _ _ Hi)) as (l & Hl & _).
    assert (Hx : is_Some (shards (sw_cursor s) !! i)). { apply lookup_lt_is_Some. rewrite (si_length _ _ _ Hi), <- (proj1 (si_chans _ _ _ Hi)). by eapply lookup_lt_Some. }
    destruct Hx as [x Hx]. destruct (next_row_finished _ _ Hfin x) as [Hrows Hpage]; [by eapply list_elem_of_lookup_2|].
    destruct (si_shards _ _ _ Hi i x Hx) as (held & r & Hsd & Hr). destruct x as [rows page]. cbn in *. subst rows page. inversion Hsd; subst.
    by destruct (rd_all _ _ _ _ _ Hr key channel body Hst I Hs) as [?|?%elem_of_nil].
  - intros w1 i rows next w2 Ew. assert (Hn : i < n) by (apply (si_wire _ _ _ Hi (Page i rows next)); rewrite Ew; set_solver).
    rewrite <- (si_length _ _ _ Hi) in Hn. apply lookup_lt_is_Some in Hn as [x Hx]. destruct (si_shards _ _ _ Hi i x Hx) as (held & r & Hst & _). rewrite Ew in Hst.
    destruct (stands_message i x (Page i rows next) w1 w2 held r Hst eq_refl) as (_ & -> & _). unfold accept. rewrite Hx. eauto.
Qed.
End Cursor.

(** Two shards; the second shard's page is answered first, and before the first
    answers a channel of its comes. *)
Definition sample_shows (key : str) (members : nat) : option nat := if (members =? 0)%nat then None else Some members.
Definition sample_owner (key : str) : nat := if str_eqb key (bs "#a") then 1 else 0.
Definition sample_chans : list (list (str * nat)) := [[(bs "#b", 2%nat)]; [(bs "#a", 1%nat)]].
Definition sample_later : list (list (str * nat)) := [[(bs "#b", 2%nat); (bs "#c", 3%nat)]; [(bs "#a", 1%nat)]].

Lemma sample_chans_ok : chans_ok sample_owner 2 sample_chans /\ chans_ok sample_owner 2 sample_later.
Proof.
  split; (split; [done|]); intros [|[|i]] l; intros [= <-]; (split; [repeat constructor|]); intros key Hk; cbn in Hk;
    repeat (apply elem_of_cons in Hk as [->|Hk]; [done|]); by apply elem_of_nil in Hk.
Qed.

Definition sample_c1 : ChannelListCursor (Body := nat) := MkCursor [MkShard [] Requested; MkShard [] Requested].
Definition sample_c2 : ChannelListCursor (Body := nat) := MkCursor [MkShard [] Requested; MkShard [MkRow (bs "#a") 1%nat] Exhausted].
Definition sample_c3 : ChannelListCursor (Body := nat) := MkCursor [MkShard [MkRow (bs "#b") 2%nat] (Idle (Some (bs "#b"))); MkShard [MkRow (bs "#a") 1%nat] Exhausted].
Definition sample_c4 : ChannelListCursor (Body := nat) := MkCursor [MkShard [MkRow (bs "#b") 2%nat] (Idle (Some (bs "#b"))); MkShard [] Exhausted].
Definition sample_c5 : ChannelListCursor (Body := nat) := MkCursor [MkShard [] (Idle (Some (bs "#b"))); MkShard [] Exhausted].
Definition sample_c6 : ChannelListCursor (Body := nat) := MkCursor [MkShard [] Requested; MkShard [] Exhausted].
Definition sample_c7 : ChannelListCursor (Body := nat) := MkCursor [MkShard [MkRow (bs "#c") 3%nat] Exhausted; MkShard [] Exhausted].
Definition sample_c8 : ChannelListCursor (Body := nat) := MkCursor [MkShard [] Exhausted; MkShard [] Exhausted].
Definition sample_rows : list (ChannelListRow (Body := nat)) := [MkRow (bs "#a") 1%nat; MkRow (bs "#b") 2%nat; MkRow (bs "#c") 3%nat].

Lemma sample_swept : exists past, sweeps sample_shows sample_owner 2 past (MkSweep sample_c8 [] sample_later sample_rows) /\ past ⊆ [sample_chans; sample_later].
Proof.
  destruct sample_chans_ok as [Hok Hok'].
  pose proof (sweeps_start sample_shows sample_owner 2 sample_chans Hok) as H.
  pose proof (sweeps_step _ _ _ _ _ _ H (step_ask sample_shows sample_owner 2 (ChannelListCursor_new 2) [] sample_chans [] [(0%nat, None); (1%nat, None)] sample_c1 1 ltac:(lia) eq_refl)) as H1.
  pose proof (sweeps_step _ _ _ _ _ _ H1 (step_answer sample_shows sample_owner 2 sample_c1 [AskPage 0 None 1] 1 None 1 [] sample_chans [] _ [MkRow (bs "#a") 1%nat] None eq_refl eq_refl)) as H2.
  pose proof (sweeps_step _ _ _ _ _ _ H2 (step_arrive sample_shows sample_owner 2 sample_c1 [AskPage 0 None 1] 1 [MkRow (bs "#a") 1%nat] None [] sample_chans [] sample_c2 eq_refl)) as H3.
  pose proof (sweeps_step _ _ _ _ _ _ H3 (step_change sample_shows sample_owner 2 sample_c2 _ _ [] sample_later Hok')) as H4.
  pose proof (sweeps_step _ _ _ _ _ _ H4 (step_answer sample_shows sample_owner 2 sample_c2 [] 0 None 1 [] sample_later [] _ [MkRow (bs "#b") 2%nat] (Some (bs "#b")) eq_refl eq_refl)) as H5.
  pose proof (sweeps_step _ _ _ _ _ _ H5 (step_arrive sample_shows sample_owner 2 sample_c2 [] 0 [MkRow (bs "#b") 2%nat] (Some (bs "#b")) [] sample_later [] sample_c3 eq_refl)) as H6.
  pose proof (sweeps_step _ _ _ _ _ _ H6 (step_row sample_shows sample_owner 2 sample_c3 [] sample_later [] (MkRow (bs "#a") 1%nat) sample_c4 eq_refl)) as H7.
  pose proof (sweeps_step _ _ _ _ _ _ H7 (step_row sample_shows sample_owner 2 sample_c4 [] sample_later _ (MkRow (bs "#b") 2%nat) sample_c5 eq_refl)) as H8.
  pose proof (sweeps_step _ _ _ _ _ _ H8 (step_ask sample_shows sample_owner 2 sample_c5 [] sample_later _ [(0%nat, Some (bs "#b"))] sample_c6 1 ltac:(lia) eq_refl)) as H9.
  pose proof (sweeps_step _ _ _ _ _ _ H9 (step_answer sample_shows sample_owner 2 sample_c6 [] 0 (Some (bs "#b")) 1 [] sample_later _ _ [MkRow (bs "#c") 3%nat] None eq_refl eq_refl)) as H10.
  pose proof (sweeps_step _ _ _ _ _ _ H10 (step_arrive sample_shows sample_owner 2 sample_c6 [] 0 [MkRow (bs "#c") 3%nat] None [] sample_later _ sample_c7 eq_refl)) as H11.
  pose proof (sweeps_step _ _ _ _ _ _ H11 (step_row sample_shows sample_owner 2 sample_c7 [] sample_later _ (MkRow (bs "#c") 3%nat) sample_c8 eq_refl)) as H12.
  eexists. split; [exact H12|]. cbn [sw_chans]. set_solver.
Qed.

Lemma list_cursor_correct_witness : MkRow (bs "#b") 2%nat ∈ sample_rows /\ StronglySorted key_lt (row_key <$> sample_rows).
Proof.
  destruct sample_swept as (past & Hs & Hp). destruct (list_cursor_correct _ _ _ _ _ Hs) as (H1 & _ & H3 & _). split; [|exact H1].
  apply (H3 sample_c8 eq_refl 0%nat (bs "#b") 2%nat 2%nat); [|reflexivity].
  intros chans Hc. specialize (Hp chans Hc). apply elem_of_cons in Hp as [->|Hp]; [|apply list_elem_of_singleton in Hp as ->]; (eexists; split; [reflexivity|]); left.
Defined.
