(* ===== verification/Meter.v ===== *)
(** * The edge's command meter ([e6irc-edge/src/meter.rs])

    The token bucket each session's lines are paid from.  Instants are
    nanoseconds of a monotonic clock; durations are read in whole milliseconds,
    as the source does. *)

From S2P Require Import Prelude.

Local Open Scope Z_scope.

Definition MAX_COMMAND_FLOOD_TOKENS : Z := 10000.

Record CommandFlood : Type := MkCommandFlood { flood_burst : Z; flood_rate : Z }.

Inductive CommandFloodError : Type :=
| RateZero
| BurstZero
| BurstBelowRate (burst rate : Z)
| AboveMaximum (maximum : Z).

Definition CommandFlood_new (burst rate : Z) : result CommandFloodError CommandFlood :=
  let maximum := MAX_COMMAND_FLOOD_TOKENS in
  if rate =? 0 then Err RateZero
  else if burst =? 0 then Err BurstZero
  else if burst <? rate then Err (BurstBelowRate burst rate)
  else if (maximum <? burst) || (maximum <? rate) then Err (AboveMaximum maximum)
  else Ok (MkCommandFlood burst rate).

Record TokenBucket : Type := MkBucket {
  bucket_flood : CommandFlood;
  tokens : Z;
  refilled_to : Z;
}.

Definition NS_PER_MS : Z := 10 ^ 6.

Definition TokenBucket_new (flood : CommandFlood) (now : Z) : TokenBucket :=
  MkBucket flood (flood_burst flood) now.

(** [u64::try_from(now.saturating_duration_since(t).as_millis())]. *)
Definition elapsed_ms (now t : Z) : Z := Z.min U64_MAX (Z.max 0 (now - t) / NS_PER_MS).

(** [1000u64.div_ceil(rate)]. *)
Definition div_ceil (a b : Z) : Z := (a + b - 1) / b.

Definition blocked_until (now : Z) (b : TokenBucket) : option Z * TokenBucket :=
  let rate := flood_rate (bucket_flood b) in
  let elapsed := elapsed_ms now (refilled_to b) in
  let credited := saturating_mul elapsed rate / 1000 in
  let refilled := refilled_to b + saturating_mul credited 1000 / rate * NS_PER_MS in
  let tokens := Z.min (saturating_add (tokens b) credited) (flood_burst (bucket_flood b)) in
  let b := MkBucket (bucket_flood b) tokens refilled in
  if 0 <? tokens then (None, b) else (Some (refilled + div_ceil 1000 rate * NS_PER_MS), b).

Definition take_token (b : TokenBucket) : TokenBucket :=
  MkBucket (bucket_flood b) (saturating_sub (tokens b) 1) (refilled_to b).

(** A session's meter: no bucket when the core meters nothing, and the
    exemption the core sets for an operator. *)
Record LineMeter : Type := MkMeter { meter_bucket : option TokenBucket; exempt : bool }.

Definition LineMeter_new (flood : option CommandFlood) (exempt : bool) (now : Z) : LineMeter :=
  MkMeter ((fun f => TokenBucket_new f now) <$> flood) exempt.

Definition meter_blocked_until (now : Z) (m : LineMeter) : option Z * LineMeter :=
  match meter_bucket m with
  | None => (None, m)
  | Some bucket =>
      let '(until, bucket) := blocked_until now bucket in
      let m := MkMeter (Some bucket) (exempt m) in
      match until with
      | None => (None, m)
      | Some until => (if exempt m then None else Some until, m)
      end
  end.

Definition meter_take (m : LineMeter) : LineMeter :=
  MkMeter (take_token <$> meter_bucket m) (exempt m).

(** One turn of [spend]'s loop at [now]: whether the line went. *)
Definition spend_at (now : Z) (m : LineMeter) : bool * LineMeter :=
  match meter_blocked_until now m with
  | (None, m) => (true, meter_take m)
  | (Some _, m) => (false, m)
  end.

(** How many lines go of one attempt at each instant. *)
Fixpoint spend_all (times : list Z) (m : LineMeter) : Z * LineMeter :=
  match times with
  | [] => (0, m)
  | now :: times' =>
      let '(went, m) := spend_at now m in
      let '(n, m) := spend_all times' m in ((if went then 1 else 0) + n, m)
  end.

(** ** Lemmas *)

Ltac zdivs := Z.to_euclidean_division_equations; nia.

(** A bucket the meter can reach at [now]. *)
Record bucket_ok (now : Z) (b : TokenBucket) : Prop := {
  ok_rate : 1 <= flood_rate (bucket_flood b);
  ok_burst : 1 <= flood_burst (bucket_flood b) <= U32_MAX;
  ok_tokens : 0 <= tokens b <= flood_burst (bucket_flood b);
  ok_watermark : refilled_to b <= now;
}.

Lemma bucket_new_ok burst rate now f :
  0 <= burst -> 0 <= rate -> CommandFlood_new burst rate = Ok f -> bucket_ok now (TokenBucket_new f now).
Proof.
  unfold CommandFlood_new. intros Hb Hr.
  destruct (Z.eqb_spec rate 0); [done|]. destruct (Z.eqb_spec burst 0); [done|].
  destruct (Z.ltb_spec burst rate); [done|].
  destruct (Z.ltb_spec MAX_COMMAND_FLOOD_TOKENS burst); [done|].
  destruct (Z.ltb_spec MAX_COMMAND_FLOOD_TOKENS rate); [done|]. intros [= <-].
  unfold MAX_COMMAND_FLOOD_TOKENS in *. split; cbn; unfold U32_MAX; lia.
Qed.

Lemma elapsed_bounds now t :
  t <= now -> 0 <= elapsed_ms now t /\ elapsed_ms now t * NS_PER_MS <= now - t.
Proof. intros Ht. unfold elapsed_ms, NS_PER_MS, U64_MAX. rewrite Z.max_r by lia. zdivs. Qed.

(** The milliseconds the watermark advances by. *)
Definition advance_ms (now : Z) (b : TokenBucket) : Z :=
  saturating_mul (saturating_mul (elapsed_ms now (refilled_to b)) (flood_rate (bucket_flood b)) / 1000) 1000
  / flood_rate (bucket_flood b).

Lemma advance_bounds now b :
  bucket_ok now b -> 0 <= advance_ms now b /\ advance_ms now b * NS_PER_MS <= now - refilled_to b.
Proof.
  intros [Hr _ _ Hw]. destruct (elapsed_bounds now (refilled_to b) Hw) as [He Hns].
  unfold advance_ms. set (e := elapsed_ms now (refilled_to b)) in *.
  set (r := flood_rate (bucket_flood b)) in *.
  assert (0 <= saturating_mul (saturating_mul e r / 1000) 1000 / r <= e) as Ha.
  { unfold saturating_mul, U64_MAX. split; [apply Z.div_pos; zdivs|].
    apply Z.div_le_upper_bound; [lia|]. clearbody e r. zdivs. }
  unfold NS_PER_MS in *. nia.
Qed.

Lemma blocked_until_ok now b : bucket_ok now b -> bucket_ok now (snd (blocked_until now b)).
Proof.
  intros Hok. pose proof (advance_bounds now b Hok) as [Ha Hns]. destruct Hok as [Hr Hb Ht Hw].
  unfold advance_ms in *. unfold blocked_until.
  assert (0 <= saturating_mul (elapsed_ms now (refilled_to b)) (flood_rate (bucket_flood b)) / 1000) as Hc.
  { destruct (elapsed_bounds now (refilled_to b) Hw). unfold saturating_mul, U64_MAX. apply Z.div_pos; nia. }
  destruct (0 <? _); cbn [snd]; split; cbn; try done; try lia;
    unfold saturating_add, U64_MAX, U32_MAX in *; lia.
Qed.

Lemma div_ceil_spec r : 1 <= r -> (div_ceil 1000 r - 1) * r < 1000 <= div_ceil 1000 r * r.
Proof. intros Hr. unfold div_ceil. zdivs. Qed.

(** An empty bucket has credited nothing. *)
Lemma blocked_nothing_credited now b until b' :
  bucket_ok now b -> blocked_until now b = (Some until, b') ->
  elapsed_ms now (refilled_to b) * flood_rate (bucket_flood b) < 1000
  /\ until = refilled_to b + div_ceil 1000 (flood_rate (bucket_flood b)) * NS_PER_MS
  /\ b' = MkBucket (bucket_flood b) 0 (refilled_to b).
Proof.
  intros [Hr Hb Ht Hw]. destruct (elapsed_bounds now (refilled_to b) Hw) as [He _].
  unfold blocked_until.
  set (e := elapsed_ms now (refilled_to b)) in *. set (r := flood_rate (bucket_flood b)) in *.
  set (credited := saturating_mul e r / 1000).
  assert (0 <= credited) as Hc by (apply Z.div_pos; unfold saturating_mul, U64_MAX; nia).
  destruct (Z.ltb_spec 0 (Z.min (saturating_add (tokens b) credited) (flood_burst (bucket_flood b))))
    as [|H0]; [done|]. intros [= <- <-].
  assert (credited = 0 /\ tokens b = 0) as [Hc0 Ht0] by (unfold saturating_add, U64_MAX in *; lia).
  assert (saturating_mul e r < 1000) as Hs by (subst credited; clearbody e r; zdivs).
  rewrite Hc0. change (saturating_mul 0 1000) with 0. rewrite Z.div_0_l by lia.
  rewrite Ht0. unfold saturating_add, saturating_mul, U64_MAX in *.
  split_and!; [lia|lia|]. f_equal; [|lia]. lia.
Qed.

(** A blocked spender wakes exactly in time: the instant an empty bucket
    names lies in the future, and at that instant a token is there. *)
Theorem meter_wakeup now b until b' :
  bucket_ok now b -> blocked_until now b = (Some until, b') ->
  now < until /\ fst (blocked_until until b') = None.
Proof.
  intros Hok Hb. destruct (blocked_nothing_credited _ _ _ _ Hok Hb) as (Hlt & -> & ->).
  destruct Hok as [Hr Hburst _ Hw]. set (r := flood_rate (bucket_flood b)) in *.
  destruct (div_ceil_spec r Hr) as [Hlo Hhi]. set (d := div_ceil 1000 r) in *.
  assert (1 <= d <= 1000) as Hd by (clear - Hr Hlo Hhi; nia).
  split.
  - assert (elapsed_ms now (refilled_to b) < d) as Hed by nia.
    unfold elapsed_ms, NS_PER_MS, U64_MAX in *. rewrite Z.max_r in Hed by lia. zdivs.
  - unfold blocked_until. cbn [refilled_to bucket_flood tokens]. fold r.
    assert (elapsed_ms (refilled_to b + d * NS_PER_MS) (refilled_to b) = d) as ->.
    { unfold elapsed_ms, NS_PER_MS, U64_MAX. rewrite Z.max_r by lia. zdivs. }
    assert (1 <= saturating_mul d r / 1000) as Hc.
    { apply Z.div_le_lower_bound; [lia|]. unfold saturating_mul, U64_MAX. lia. }
    unfold saturating_add, U64_MAX, U32_MAX in *.
    by rewrite (proj2 (Z.ltb_lt _ _)) by lia.
Qed.

Definition empty_bucket : TokenBucket := MkBucket (MkCommandFlood 40 20) 0 0.

Lemma meter_wakeup_witness :
  blocked_until 7000000 empty_bucket = (Some 50000000, empty_bucket)
  /\ 7000000 < 50000000 /\ fst (blocked_until 50000000 empty_bucket) = None.
Proof.
  split; [vm_compute; reflexivity|].
  apply (meter_wakeup 7000000 empty_bucket 50000000 empty_bucket); [|vm_compute; reflexivity].
  split; cbn; unfold U32_MAX; lia.
Defined.

(** The least time a token costs, in nanoseconds: whole milliseconds, rounded
    down. *)
Definition token_cost (b : TokenBucket) : Z := 1000 / flood_rate (bucket_flood b) * NS_PER_MS.

(** Crediting never makes up more tokens than the watermark pays for. *)
Lemma credit_paid now b :
  bucket_ok now b -> flood_rate (bucket_flood b) <= 1000 ->
  now - refilled_to b < 2 ^ 54 * NS_PER_MS ->
  let b' := snd (blocked_until now b) in
  bucket_flood b' = bucket_flood b
  /\ (tokens b' - tokens b) * token_cost b <= refilled_to b' - refilled_to b.
Proof.
  intros Hok Hrate Hspan b'. destruct Hok as [Hr Hb Ht Hw].
  destruct (elapsed_bounds now (refilled_to b) Hw) as [He Hns].
  assert (bucket_flood b' = bucket_flood b
    /\ tokens b' <= tokens b + elapsed_ms now (refilled_to b) * flood_rate (bucket_flood b) / 1000
    /\ refilled_to b' = refilled_to b +
       elapsed_ms now (refilled_to b) * flood_rate (bucket_flood b) / 1000 * 1000
         / flood_rate (bucket_flood b) * NS_PER_MS) as (Hf & Htok & Href).
  { subst b'. unfold blocked_until.
    assert (elapsed_ms now (refilled_to b) < 2 ^ 54) as Hlt by (unfold NS_PER_MS in *; lia).
    set (e := elapsed_ms now (refilled_to b)) in *. set (r := flood_rate (bucket_flood b)) in *.
    assert (saturating_mul e r = e * r) as -> by (unfold saturating_mul, U64_MAX; nia).
    assert (saturating_mul (e * r / 1000) 1000 = e * r / 1000 * 1000) as ->.
    { unfold saturating_mul, U64_MAX. assert (e * r / 1000 * 1000 <= e * r) by zdivs. nia. }
    destruct (0 <? _); cbn; split_and!; try done; unfold saturating_add; lia. }
  split; [done|]. rewrite Href. unfold token_cost.
  set (r := flood_rate (bucket_flood b)) in *.
  set (c := elapsed_ms now (refilled_to b) * r / 1000) in *.
  assert (0 <= c) as Hc by (apply Z.div_pos; nia).
  assert (c * (1000 / r) <= c * 1000 / r) as Hfloor.
  { apply Z.div_le_lower_bound; [lia|]. pose proof (Z.mul_div_le 1000 r ltac:(lia)). nia. }
  assert (0 <= 1000 / r) by (apply Z.div_pos; lia). unfold NS_PER_MS in *. nia.
Qed.

(** Instants that never go back, and the last of them. *)
Fixpoint monotone (now : Z) (times : list Z) : Prop :=
  match times with [] => True | t :: times' => now <= t /\ monotone t times' end.
Fixpoint final (now : Z) (times : list Z) : Z :=
  match times with [] => now | t :: times' => final t times' end.

Lemma final_ge now times : monotone now times -> now <= final now times.
Proof.
  revert now. induction times as [|t times IH]; intros now; cbn; [lia|].
  intros [Hle Hm]. specialize (IH t Hm). lia.
Qed.

Lemma bucket_ok_later now t b : now <= t -> bucket_ok now b -> bucket_ok t b.
Proof. intros Hle [Hr Hb Ht Hw]. split; done || lia. Qed.

(** One attempt: whether it went, and what it paid. *)
Lemma spend_at_paid now b :
  bucket_ok now b -> flood_rate (bucket_flood b) <= 1000 ->
  now - refilled_to b < 2 ^ 54 * NS_PER_MS ->
  exists went b', spend_at now (MkMeter (Some b) false) = (went, MkMeter (Some b') false)
    /\ bucket_ok now b' /\ bucket_flood b' = bucket_flood b /\ refilled_to b <= refilled_to b'
    /\ ((if went then 1 else 0) + tokens b' - tokens b) * token_cost b <= refilled_to b' - refilled_to b.
Proof.
  intros Hok Hrate Hspan.
  destruct (credit_paid now b Hok Hrate Hspan) as [Hf Hpaid].
  pose proof (blocked_until_ok now b Hok) as Hok'.
  assert (refilled_to b <= refilled_to (snd (blocked_until now b))) as Hmono.
  { destruct (advance_bounds now b Hok) as [Ha _]. unfold advance_ms, blocked_until, NS_PER_MS in *.
    destruct (0 <? _); cbn; lia. }
  unfold spend_at, meter_blocked_until. cbn [meter_bucket exempt].
  destruct (blocked_until now b) as [[until|] b1] eqn:E; cbn [snd] in *.
  - exists false, b1. split_and!; done.
  - exists true, (take_token b1). unfold meter_take. cbn.
    assert (1 <= tokens b1) as H1.
    { unfold blocked_until in E. destruct (Z.ltb_spec 0 (Z.min (saturating_add (tokens b)
        (saturating_mul (elapsed_ms now (refilled_to b)) (flood_rate (bucket_flood b)) / 1000))
        (flood_burst (bucket_flood b)))); [|done]. injection E as <-. cbn. lia. }
    unfold saturating_sub. split_and!; try done.
    + destruct Hok' as [Hr' Hb' Ht' Hw']. split; cbn; unfold saturating_sub; done || lia.
    + rewrite Z.max_r by lia. replace (1 + (tokens b1 - 1) - tokens b) with (tokens b1 - tokens b) by lia.
      done.
Qed.

Lemma spend_all_paid times now b :
  bucket_ok now b -> flood_rate (bucket_flood b) <= 1000 -> monotone now times ->
  final now times - refilled_to b < 2 ^ 54 * NS_PER_MS ->
  exists n b', spend_all times (MkMeter (Some b) false) = (n, MkMeter (Some b') false)
    /\ bucket_ok (final now times) b'
    /\ (n + tokens b' - tokens b) * token_cost b <= refilled_to b' - refilled_to b.
Proof.
  revert now b. induction times as [|t times IH]; intros now b Hok Hrate Hm Hspan; cbn [spend_all final].
  { exists 0, b. split_and!; [done|done|lia]. }
  destruct Hm as [Hle Hm]. cbn in Hspan. pose proof (final_ge t times Hm).
  destruct (spend_at_paid t b) as (went & b1 & -> & Hok1 & Hf1 & Hmono & Hp1);
    [by eapply bucket_ok_later|done|lia|].
  destruct (IH t b1) as (n & b' & -> & Hok' & Hp'); [done|by rewrite Hf1|done|lia|].
  exists ((if went then 1 else 0) + n), b'. split_and!; [done|done|].
  unfold token_cost in *. rewrite Hf1 in Hp'. nia.
Qed.

(** No session outruns its allowance: of any sequence of attempts at
    instants that never go back, a meter of a valid shape admits at most its
    burst and one line per token interval (the whole milliseconds of a token,
    for rates up to a thousand a second) of the time passed; when the rate
    divides a thousand, as the default of twenty does, that is exactly the
    burst and [rate] lines a second. *)
Theorem meter_rate_bound burst rate f start times :
  0 <= burst -> 0 <= rate <= 1000 -> CommandFlood_new burst rate = Ok f ->
  monotone start times -> final start times - start < 2 ^ 54 * NS_PER_MS ->
  let n := fst (spend_all times (LineMeter_new (Some f) false start)) in
  let interval := 1000 / rate * NS_PER_MS in
  n * interval <= burst * interval + (final start times - start)
  /\ (1000 mod rate = 0 -> n * 10 ^ 9 <= burst * 10 ^ 9 + rate * (final start times - start)).
Proof.
  intros Hb Hr Hf Hm Hspan n interval.
  pose proof (bucket_new_ok burst rate start f Hb ltac:(lia) Hf) as Hok.
  assert (flood_burst f = burst /\ flood_rate f = rate) as [Hfb Hfr].
  { unfold CommandFlood_new in Hf. repeat case_match; by simplify_eq. }
  destruct (spend_all_paid times start (TokenBucket_new f start)) as (k & b' & E & Hok' & Hp);
    [done|cbn; lia|done|done|].
  subst n. unfold LineMeter_new. cbn [fmap option_fmap option_map]. rewrite E. cbn [fst].
  unfold token_cost in Hp. cbn in Hp. rewrite Hfb, Hfr in Hp. fold interval in Hp.
  pose proof (ok_tokens _ _ Hok'). pose proof (ok_watermark _ _ Hok').
  pose proof (ok_rate _ _ Hok) as Hr1. cbn in Hr1. rewrite Hfr in Hr1.
  assert (0 <= interval) by (subst interval; unfold NS_PER_MS; apply Z.mul_nonneg_nonneg; [apply Z.div_pos; lia|lia]).
  assert (k * interval <= burst * interval + (final start times - start)) as Hmain by nia.
  split; [done|]. intros Hd.
  assert (rate * interval = 10 ^ 9) as Hi.
  { subst interval. unfold NS_PER_MS. pose proof (Z.div_mod 1000 rate ltac:(lia)). lia. }
  replace (k * 10 ^ 9) with (rate * (k * interval)) by (rewrite <- Hi; ring).
  replace (burst * 10 ^ 9) with (rate * (burst * interval)) by (rewrite <- Hi; ring).
  rewrite <- Z.mul_add_distr_l. apply Z.mul_le_mono_nonneg_l; [lia|done].
Qed.

Lemma meter_rate_bound_witness :
  let n := fst (spend_all [0; 0; 0; 100000000; 100000001]
    (LineMeter_new (Some (MkCommandFlood 20 20)) false 0)) in
  n = 5 /\ n * 10 ^ 9 <= 20 * 10 ^ 9 + 20 * (100000001 - 0).
Proof.
  split; [vm_compute; reflexivity|].
  apply (meter_rate_bound 20 20 (MkCommandFlood 20 20) 0 [0; 0; 0; 100000000; 100000001]);
    unfold NS_PER_MS; cbn; lia || reflexivity.
Defined.

(** The shape a configuration may ask for: 1500 tokens, 1500 a second. *)
Definition fast_flood : CommandFlood := MkCommandFlood 1500 1500.

(** Above a thousand lines a second the meter stops metering: the watermark
    advances in whole milliseconds, so at 1500 a second a token is credited
    for each millisecond without the watermark moving, and a session whose
    bucket ran dry is admitted any number of lines at one instant, one
    millisecond later. *)
Theorem meter_fast_rate_unbounded n :
  CommandFlood_new 1500 1500 = Ok fast_flood
  /\ fst (spend_all (repeat NS_PER_MS n) (MkMeter (Some (MkBucket fast_flood 0 0)) false)) = Z.of_nat n.
Proof.
  split; [reflexivity|].
  assert (spend_at NS_PER_MS (MkMeter (Some (MkBucket fast_flood 0 0)) false)
    = (true, MkMeter (Some (MkBucket fast_flood 0 0)) false)) as Hs by (vm_compute; reflexivity).
  induction n as [|n IH]; [done|]. cbn [repeat spend_all]. rewrite Hs.
  destruct (spend_all _ _) as [k m]. cbn [fst] in *. lia.
Qed.
