(* ===== verification/HistoryRequest.v ===== *)
(** * CHATHISTORY and MARKREAD parameters ([e6ircd/src/core/history_request.rs])

    Subcommands, selectors, limits, the TARGETS window and MARKREAD, as both
    surfaces that answer them parse them, with the failure each malformed
    request gets. *)

From S2P Require Import Prelude Str Num Message Time.

Local Open Scope Z_scope.

Definition CHATHISTORY_MAX : Z := 500.

Inductive HistoryFail : Type :=
| NeedCaps | NeedMoreParams | UnknownCommand | InvalidParams | InvalidTarget
| InvalidMsgRefType | MessageError | TemporarilyUnavailable.

Record Refusal : Type := MkRefusal { refusal_code : HistoryFail; refusal_detail : str }.

Inductive ChathistorySub : Type := Latest | Before | After | Around | Between.

(** [u8::to_ascii_uppercase]. *)
Definition to_ascii_uppercase (b : byte) : byte :=
  if is_ascii_lowercase b then u8 (bz b - 32) else b.

Definition ChathistorySub_parse (s : str) : option ChathistorySub :=
  let upper := to_ascii_uppercase <$> s in
  if str_eqb upper (bs "LATEST") then Some Latest
  else if str_eqb upper (bs "BEFORE") then Some Before
  else if str_eqb upper (bs "AFTER") then Some After
  else if str_eqb upper (bs "AROUND") then Some Around
  else if str_eqb upper (bs "BETWEEN") then Some Between
  else None.

Definition sub_name (sub : ChathistorySub) : str :=
  match sub with
  | Latest => bs "LATEST"
  | Before => bs "BEFORE"
  | After => bs "AFTER"
  | Around => bs "AROUND"
  | Between => bs "BETWEEN"
  end.

Definition takes_two_selectors (sub : ChathistorySub) : bool :=
  match sub with Between => true | _ => false end.

Definition parameter_count (sub : ChathistorySub) : nat := if takes_two_selectors sub then 5 else 4.

Definition too_many_parameters (sub : ChathistorySub) : Refusal :=
  MkRefusal InvalidParams
    (if takes_two_selectors sub then bs "Expected exactly <target> <selector> <selector> <limit>"
     else bs "Expected exactly <target> <selector> <limit>").

Inductive Selector : Type :=
| Star
| Msgid (id : str)
| Timestamp (ms : Z).

Inductive SelectorError : Type := UnknownRefType | Malformed.

Definition Selector_parse (sel : str) : result SelectorError Selector :=
  if str_eqb sel (bs "*") then Ok Star
  else
    match strip_prefix (bs "msgid=") sel with
    | Some id => if valid_message_id id then Ok (Msgid id) else Err Malformed
    | None =>
        match strip_prefix (bs "timestamp=") sel with
        | Some ts => ok_or Malformed (Timestamp <$> parse_server_time_millis ts)
        | None => Err UnknownRefType
        end
    end.

Definition is_unknown (r : result SelectorError Selector) : bool :=
  match r with Err UnknownRefType => true | _ => false end.
Definition is_star (r : result SelectorError Selector) : bool :=
  match r with Ok Star => true | _ => false end.

Definition parse_selectors (sub : ChathistorySub) (first second : str)
    : result Refusal (Selector * Selector) :=
  let first := Selector_parse first in
  let second := if takes_two_selectors sub then Selector_parse second else Ok Star in
  if is_unknown first || is_unknown second then
    Err (MkRefusal InvalidMsgRefType (bs "Unknown message reference type"))
  else
    let star_misused :=
      match sub with
      | Latest => false
      | Between => is_star first || is_star second
      | _ => is_star first
      end in
    if star_misused then Err (MkRefusal InvalidParams (bs "* is only a valid selector for LATEST"))
    else
      match first, second with
      | Ok first, Ok second => Ok (first, second)
      | _, _ => Err (MkRefusal InvalidParams (bs "Malformed message reference selector"))
      end.

(** [usize] is 64 bits wide. *)
Definition parse_limit (raw : str) : result Refusal Z :=
  ok_or (MkRefusal InvalidParams (bs "limit must be between 1 and 500"))
    (n ← parse_uint U64_MAX raw;
     if (1 <=? n) && (n <=? CHATHISTORY_MAX) then Some n else None).

Record TargetsWindow : Type := MkTargets {
  window_after : Z;
  window_before : Z;
  window_limit : Z;
}.

Definition bound (raw : str) : option Z :=
  ts ← strip_prefix (bs "timestamp=") raw; parse_server_time_millis ts.

Definition parse_targets (p : list str) : result Refusal TargetsWindow :=
  match p with
  | [_; p1; p2; p3] =>
      match bound p1, bound p2 with
      | Some a, Some b =>
          limit ← parse_limit p3;
          Ok (MkTargets (Z.min a b) (Z.max a b) limit)
      | _, _ => Err (MkRefusal InvalidParams (bs "Expected two timestamp= bounds"))
      end
  | _ =>
      let code := if (length p <? 4)%nat then NeedMoreParams else InvalidParams in
      Err (MkRefusal code (bs "Expected exactly two timestamp= bounds and a limit"))
  end.

Inductive MarkreadRequest : Type :=
| Query (target : str)
| SetMarker (target : str) (marker : Z).

(** [valid_target] is the surface's own rule for what may be named. *)
Definition parse_markread (valid_target : str -> bool) (p : list str)
    : result (str * Refusal) MarkreadRequest :=
  match p with
  | [] => Err (bs "*", MkRefusal NeedMoreParams (bs "Not enough parameters"))
  | target :: rest =>
      let refuse detail := Err (target, MkRefusal InvalidParams detail) in
      if (2 <? length p)%nat then refuse (bs "Expected <target> [timestamp=<time>]")
      else if negb (valid_target target) then refuse (bs "Invalid target")
      else
        match rest with
        | [] => Ok (Query target)
        | position :: _ =>
            match strip_prefix (bs "timestamp=") position with
            | None => refuse (bs "Expected timestamp=")
            | Some time =>
                match parse_server_time_millis time with
                | Some marker => Ok (SetMarker target marker)
                | None => refuse (bs "Malformed timestamp")
                end
            end
        end
  end.

(** ** Specification *)

(** A selector's wire form. *)
Definition selector_text (s : Selector) : str :=
  match s with
  | Star => bs "*"
  | Msgid id => bs "msgid=" ++ id
  | Timestamp ms => bs "timestamp=" ++ server_time ms
  end.

(** The selectors a client may name: a usable identifier, or an instant the
    format can write. *)
Definition selector_ok (s : Selector) : Prop :=
  match s with
  | Star => True
  | Msgid id => valid_message_id id = true
  | Timestamp ms => 0 <= ms < YEAR_10000_MS
  end.

(** Where the open bound may stand. *)
Definition star_allowed (sub : ChathistorySub) (first second : Selector) : Prop :=
  sub = Latest \/ (first <> Star /\ (sub = Between -> second <> Star)).

(** ** Lemmas *)

Lemma Selector_parse_text s : selector_ok s -> Selector_parse (selector_text s) = Ok s.
Proof.
  intros Hs. unfold Selector_parse. destruct s as [|id|ms]; cbn [selector_text selector_ok] in *.
  - done.
  - rewrite str_eqb_neq by done.
    rewrite (proj2 (strip_prefix_Some (bs "msgid=") _ id)) by done. by rewrite Hs.
  - rewrite str_eqb_neq by done.
    change (strip_prefix (bs "msgid=") _) with (@None str).
    rewrite (proj2 (strip_prefix_Some (bs "timestamp=") _ (server_time ms))) by done.
    by rewrite server_time_roundtrip_lemma.
Qed.

Lemma Selector_parse_ok text s : Selector_parse text = Ok s -> selector_ok s.
Proof.
  unfold Selector_parse. destruct (str_eqb text (bs "*")); [by intros [= <-]|].
  destruct (strip_prefix (bs "msgid=") text) as [id|].
  - destruct (valid_message_id id) eqn:E; [|done]. by intros [= <-].
  - destruct (strip_prefix (bs "timestamp=") text) as [ts|]; [|done].
    destruct (parse_server_time_millis ts) as [ms|] eqn:E; [|done]. intros [= <-].
    by apply server_time_canonical_lemma in E as [? _].
Qed.

Lemma parse_limit_Ok raw n :
  parse_limit raw = Ok n <-> parse_uint U64_MAX raw = Some n /\ 1 <= n <= CHATHISTORY_MAX.
Proof.
  unfold parse_limit. destruct (parse_uint U64_MAX raw) as [k|]; cbn; [|naive_solver].
  destruct (Z.leb_spec 1 k), (Z.leb_spec k CHATHISTORY_MAX); cbn; naive_solver lia.
Qed.

Lemma parse_limit_dec n : 1 <= n <= CHATHISTORY_MAX -> parse_limit (dec n) = Ok n.
Proof.
  intros Hn. apply parse_limit_Ok. split; [|done]. destruct (dec_digits n) as [Hne Hd]; [lia|].
  pose proof (dec_value_dec n ltac:(lia)) as Hv. unfold CHATHISTORY_MAX, U64_MAX in *.
  rewrite parse_uint_digits by (done || lia). by rewrite Hv.
Qed.

(** The second selector a subcommand reads. *)
Definition second_read (sub : ChathistorySub) (second : str) : result SelectorError Selector :=
  if takes_two_selectors sub then Selector_parse second else Ok Star.

(** CHATHISTORY selectors are read back and refused by one precedence: the
    written form of any two usable selectors, the open bound only where LATEST
    allows it, parses to them; whatever parses is usable and keeps to that
    rule; and a refusal is INVALID_MSGREFTYPE exactly when a selector that is
    read has an unknown type, INVALID_PARAMS otherwise. *)
Theorem parse_selectors_correct sub first second :
  match parse_selectors sub first second with
  | Ok (a, b) => selector_ok a /\ selector_ok b /\ star_allowed sub a b
      /\ Selector_parse first = Ok a /\ second_read sub second = Ok b
  | Err r => refusal_code r =
      (if is_unknown (Selector_parse first) || is_unknown (second_read sub second)
       then InvalidMsgRefType else InvalidParams)
  end
  /\ (forall a b, selector_ok a -> selector_ok b -> star_allowed sub a b ->
      (sub <> Between -> b = Star) ->
      parse_selectors sub (selector_text a) (selector_text b) = Ok (a, b)).
Proof.
  split.
  - unfold parse_selectors. fold (second_read sub second).
    destruct (is_unknown (Selector_parse first) || is_unknown (second_read sub second)) eqn:Eu; [done|].
    set (misused := match sub with Latest => false | _ => _ end).
    destruct misused eqn:Em; [done|].
    destruct (Selector_parse first) as [a|] eqn:Ea; [|done].
    destruct (second_read sub second) as [b|] eqn:Eb; [|done].
    assert (selector_ok b).
    { unfold second_read in Eb. destruct (takes_two_selectors sub); [by eapply Selector_parse_ok|].
      by injection Eb as <-. }
    split_and!; [by eapply Selector_parse_ok|done| |done|done].
    unfold star_allowed. subst misused. destruct sub; [by left|right..]; cbn in Em;
      (split; [intros ->; done|]); try done. intros _ ->. by rewrite orb_true_r in Em.
  - intros a b Ha Hb Hs Hone. unfold parse_selectors. rewrite (Selector_parse_text a Ha).
    assert ((if takes_two_selectors sub then Selector_parse (selector_text b) else Ok Star) = Ok b) as ->.
    { destruct sub; cbn; rewrite ?Hone by done; try done. by apply Selector_parse_text. }
    cbn [is_unknown orb]. destruct Hs as [->|[Hna Hnb]]; [done|].
    destruct sub, a, b; cbn; try done; by destruct (Hnb eq_refl).
Qed.

(** A TARGETS window does not depend on the order of its bounds and is
    within limits: swapping the two timestamps changes nothing, a window that
    is accepted runs from the earlier to the later bound, both before the year
    10000, with a limit of one to five hundred, and every such limit, written
    in decimal, is accepted. *)
Theorem targets_window_correct sub a b limit :
  parse_targets [sub; a; b; limit] = parse_targets [sub; b; a; limit]
  /\ (forall w, parse_targets [sub; a; b; limit] = Ok w ->
      0 <= window_after w <= window_before w /\ window_before w < YEAR_10000_MS
      /\ 1 <= window_limit w <= CHATHISTORY_MAX)
  /\ (forall n ta tb, 1 <= n <= CHATHISTORY_MAX -> bound a = Some ta -> bound b = Some tb ->
      parse_targets [sub; a; b; dec n] = Ok (MkTargets (Z.min ta tb) (Z.max ta tb) n)).
Proof.
  assert (forall raw t, bound raw = Some t -> 0 <= t < YEAR_10000_MS) as Hb.
  { intros raw t (ts & _ & [Ht _]%server_time_canonical_lemma)%bind_Some. done. }
  unfold parse_targets. split_and!.
  - destruct (bound a), (bound b); try done. by rewrite Z.min_comm, Z.max_comm.
  - intros w. destruct (bound a) as [ta|] eqn:Ea; [|done]. destruct (bound b) as [tb|] eqn:Eb; [|done].
    destruct (parse_limit limit) as [n|] eqn:El; [|done]. intros [= <-]. cbn.
    apply parse_limit_Ok in El as [_ Hn]. apply Hb in Ea, Eb. lia.
  - intros n ta tb Hn -> ->. by rewrite parse_limit_dec.
Qed.

(** Subcommands are recognised by their canonical name in any case. *)
Lemma sub_parse_name sub : ChathistorySub_parse (sub_name sub) = Some sub.
Proof. by destruct sub. Qed.

(** MARKREAD sets a marker exactly on a valid target and a readable instant. *)
Lemma markread_set_iff valid_target p target marker :
  parse_markread valid_target p = Ok (SetMarker target marker) <->
  exists position, p = [target; position] /\ valid_target target = true /\ bound position = Some marker.
Proof.
  unfold parse_markread, bound. split.
  - destruct p as [|t [|position [|]]]; cbn [length Nat.ltb Nat.leb]; try done.
    + by destruct (negb _).
    + destruct (valid_target t) eqn:Ev; [|done]. cbn [negb].
      destruct (strip_prefix (bs "timestamp=") position) as [time|] eqn:Es; [|done].
      destruct (parse_server_time_millis time) as [ms|] eqn:Em; [|done]. intros [= <- <-].
      exists position. by rewrite Es.
  - intros (position & -> & -> & (time & -> & ->)%bind_Some). done.
Qed.
