(* ===== verification/Multimap.v ===== *)
(** * Maps of sets that drop the sets they empty

    The membership and MONITOR directories, the account index of the user
    directory and the conversation index of the hot history are one structure:
    a map from keys to sets, an entry made with its first element and removed
    with its last ([entry(k).or_default().insert(v)], and [remove(v)] followed
    by removing an empty set). *)

From S2P Require Import Prelude.
From stdpp Require Import gmap.

Section Multimap.
Context {K V : Type} `{Countable K, Countable V}.

(** [entry(k).or_default().insert(v)]. *)
Definition mm_insert (k : K) (v : V) (m : gmap K (gset V)) : gmap K (gset V) :=
  <[k := {[v]} ∪ default ∅ (m !! k)]> m.

(** [remove(v)] from the set under [k], and the entry with it when it empties. *)
Definition mm_remove (k : K) (v : V) (m : gmap K (gset V)) : gmap K (gset V) :=
  match m !! k with
  | None => m
  | Some s => let s := s ∖ {[v]} in if bool_decide (s = ∅) then delete k m else <[k := s]> m
  end.

Definition mm_in (k : K) (v : V) (m : gmap K (gset V)) : Prop := v ∈ default ∅ (m !! k).

(** No entry is kept for an empty set. *)
Definition mm_ok (m : gmap K (gset V)) : Prop := forall k, m !! k <> Some ∅.

Lemma mm_in_insert k v m k' v' :
  mm_in k' v' (mm_insert k v m) <-> (k' = k /\ v' = v) \/ mm_in k' v' m.
Proof.
  unfold mm_in, mm_insert. destruct (decide (k' = k)) as [->|Hne].
  - rewrite lookup_insert_eq. cbn. set_solver.
  - rewrite lookup_insert_ne by done. naive_solver.
Qed.

Lemma mm_in_remove k v m k' v' :
  mm_in k' v' (mm_remove k v m) <-> mm_in k' v' m /\ ~ (k' = k /\ v' = v).
Proof.
  unfold mm_in, mm_remove. destruct (m !! k) as [s|] eqn:E.
  - case_bool_decide as He; destruct (decide (k' = k)) as [->|Hne].
    + rewrite lookup_delete_eq, E. cbn. set_solver.
    + rewrite lookup_delete_ne by done. naive_solver.
    + rewrite lookup_insert_eq, E. cbn. set_solver.
    + rewrite lookup_insert_ne by done. naive_solver.
  - split; [|by intros [? ?]]. intros Hin. split; [done|]. intros [-> ->]. rewrite E in Hin. set_solver.
Qed.

Lemma mm_ok_insert k v m : mm_ok m -> mm_ok (mm_insert k v m).
Proof.
  intros Hok k'. unfold mm_insert. destruct (decide (k' = k)) as [->|Hne].
  - rewrite lookup_insert_eq. intros [= He]. set_solver.
  - rewrite lookup_insert_ne by done. apply Hok.
Qed.

Lemma mm_ok_remove k v m : mm_ok m -> mm_ok (mm_remove k v m).
Proof.
  intros Hok k'. unfold mm_remove. destruct (m !! k) as [s|] eqn:E; [|apply Hok].
  case_bool_decide as He; destruct (decide (k' = k)) as [->|Hne].
  - by rewrite lookup_delete_eq.
  - rewrite lookup_delete_ne by done. apply Hok.
  - rewrite lookup_insert_eq. congruence.
  - rewrite lookup_insert_ne by done. apply Hok.
Qed.

(** Two maps with no empty sets are equal when they relate the same pairs. *)
Lemma mm_eq m m' : mm_ok m -> mm_ok m' -> (forall k v, mm_in k v m <-> mm_in k v m') -> m = m'.
Proof.
  intros Hm Hm' Hin. apply map_eq. intros k. specialize (Hm k). specialize (Hm' k). specialize (Hin k).
  unfold mm_in in Hin. destruct (m !! k) as [s|], (m' !! k) as [s'|]; cbn in *; [|exfalso..|done].
  - f_equal. by apply set_eq.
  - apply Hm. f_equal. set_solver.
  - apply Hm'. f_equal. set_solver.
Qed.
End Multimap.
