(* ===== verification/Session.v ===== *)
(** * Sessions ([e6ircd/src/core/state.rs], [Registration] and [Session])

    The registration state machine of one connection and the bookkeeping of the
    JOINs it has in flight to channels that other shards own.  A session carries
    some fifty more fields that none of these operations reads or writes; they
    travel in [rest], whose type is a parameter. *)

From S2P Require Import Prelude Str Keys.
From stdpp Require Import gmap.

Local Open Scope Z_scope.

Inductive Registration : Type :=
| Registering (nick user realname refused_nick : option str)
| Registered (nick user realname : str).

Section Session.
Context {R : Type}.

(** [pending_joins] and [part_on_join] count with [NonZeroUsize]. *)
Record Session : Type := MkSession {
  reg : Registration;
  host : str;
  pending_joins : gmap str positive;
  part_on_join : gmap str positive;
  rest : R;
}.

Definition with_reg (s : Session) (r : Registration) : Session :=
  MkSession r (host s) (pending_joins s) (part_on_join s) (rest s).
Definition with_joins (s : Session) (pending part : gmap str positive) : Session :=
  MkSession (reg s) (host s) pending part (rest s).

(** ** Registration *)

Definition is_registered (s : Session) : bool :=
  match reg s with Registered _ _ _ => true | Registering _ _ _ _ => false end.

Definition nick (s : Session) : option str :=
  match reg s with Registering n _ _ _ => n | Registered n _ _ => Some n end.
Definition user (s : Session) : option str :=
  match reg s with Registering _ u _ _ => u | Registered _ u _ => Some u end.
Definition realname (s : Session) : option str :=
  match reg s with Registering _ _ r _ => r | Registered _ _ r => Some r end.
Definition refused_nick (s : Session) : option str :=
  match reg s with Registering _ _ _ r => r | Registered _ _ _ => None end.

Definition set_nick (value : str) (s : Session) : Session :=
  with_reg s match reg s with
             | Registering _ u r _ => Registering (Some value) u r None
             | Registered _ u r => Registered value u r
             end.

Definition note_nick_in_use (value : str) (s : Session) : Session :=
  match reg s with
  | Registering n u r _ => with_reg s (Registering n u r (Some value))
  | Registered _ _ _ => s
  end.

Definition set_user (value : str) (s : Session) : Session :=
  match reg s with
  | Registering n _ r f => with_reg s (Registering n (Some value) r f)
  | Registered _ _ _ => s
  end.

Definition set_realname (value : str) (s : Session) : Session :=
  with_reg s match reg s with
             | Registering n u _ f => Registering n u (Some value) f
             | Registered n u _ => Registered n u value
             end.

Definition complete_registration (s : Session) : Session :=
  with_reg s match reg s with
             | Registering (Some n) (Some u) r _ => Registered n u (default [] r)
             | other => other
             end.

(** [nick!user@host]; [None] is the [unreachable!] arm. *)
Definition prefix (s : Session) : option str :=
  match reg s with
  | Registered n u _ => Some (n ++ bs "!" ++ u ++ bs "@" ++ host s)
  | Registering _ _ _ _ => None
  end.

Definition login_mask (s : Session) : str :=
  default (bs "*") (nick s) ++ bs "!" ++ default (bs "*") (user s) ++ bs "@" ++ host s.

(** ** JOINs in flight *)

Definition USIZE_MAX : positive := Z.to_pos U64_MAX.

(** [None]: the [checked_add] overflowed and the [expect] panics. *)
Definition join_sent (key : str) (s : Session) : option Session :=
  match pending_joins s !! key with
  | Some count =>
      if (count =? USIZE_MAX)%positive then None
      else Some (with_joins s (<[key := Pos.succ count]> (pending_joins s)) (part_on_join s))
  | None => Some (with_joins s (<[key := 1%positive]> (pending_joins s)) (part_on_join s))
  end.

Definition join_in_flight (key : str) (s : Session) : bool :=
  bool_decide (is_Some (pending_joins s !! key)).

Definition part_joins_in_flight (s : Session) : Session :=
  with_joins s (pending_joins s) (pending_joins s).

Definition take_one (key : str) (counts : gmap str positive) : bool * gmap str positive :=
  match counts !! key with
  | None => (false, counts)
  | Some count =>
      (true, if (count =? 1)%positive then delete key counts else <[key := Pos.pred count]> counts)
  end.

(** [None]: the [assert!] that the session sent the JOIN fails. *)
Definition join_answered (key : str) (s : Session) : option (bool * Session) :=
  let '(sent, pending) := take_one key (pending_joins s) in
  if sent then
    let '(part, parts) := take_one key (part_on_join s) in
    Some (part, with_joins s pending parts)
  else None.

(** ** Specification of the JOINs in flight

    Each channel has a queue of the JOINs sent and not yet answered, oldest
    first; a JOIN is marked when a [JOIN 0] was sent after it.  A queue holds at
    most [usize::MAX] of them. *)

Inductive JoinOp : Type := JoinSent (key : str) | JoinZero | JoinAnswered (key : str).

(** [JAnswered part] tells whether the admitted channel must be parted;
    [JPanic] is a failed assertion, after which nothing is defined. *)
Inductive JoinOut : Type := JDone | JAnswered (part : bool) | JPanic.

Abbreviation join_spec := (gmap str (list bool)).

Definition spec_join (q : join_spec) (op : JoinOp) : JoinOut * join_spec :=
  match op with
  | JoinSent key =>
      let marks := default [] (q !! key) in
      if Z.of_nat (length marks) =? U64_MAX then (JPanic, q)
      else (JDone, <[key := marks ++ [false]]> q)
  | JoinZero => (JDone, (fun marks : list bool => (fun _ => true) <$> marks) <$> q)
  | JoinAnswered key =>
      match default [] (q !! key) with
      | [] => (JPanic, q)
      | mark :: marks => (JAnswered mark, <[key := marks]> q)
      end
  end.

Definition impl_join (s : Session) (op : JoinOp) : JoinOut * Session :=
  match op with
  | JoinSent key => match join_sent key s with Some s => (JDone, s) | None => (JPanic, s) end
  | JoinZero => (JDone, part_joins_in_flight s)
  | JoinAnswered key =>
      match join_answered key s with Some (part, s) => (JAnswered part, s) | None => (JPanic, s) end
  end.

(** ** Lemmas *)

Lemma set_nick_registered value s : is_registered (set_nick value s) = is_registered s.
Proof. unfold is_registered, set_nick, with_reg. cbn. by destruct (reg s). Qed.

Lemma set_user_registered value s : is_registered (set_user value s) = is_registered s.
Proof. unfold is_registered, set_user, with_reg. by destruct (reg s) eqn:E; cbn; rewrite ?E. Qed.

Lemma set_realname_registered value s : is_registered (set_realname value s) = is_registered s.
Proof. unfold is_registered, set_realname, with_reg. cbn. by destruct (reg s). Qed.

(** A count as a number, none for an absent one. *)
Definition cnt (o : option positive) : nat := from_option Pos.to_nat 0%nat o.

Lemma cnt_take_one key counts k :
  cnt ((take_one key counts).2 !! k)
  = (if decide (k = key) then cnt (counts !! key) - 1 else cnt (counts !! k))%nat.
Proof.
  unfold take_one. destruct (counts !! key) as [c|] eqn:E; cbn [snd].
  - destruct (Pos.eqb_spec c 1) as [->|Hc]; case_decide as Hk; subst.
    + rewrite lookup_delete_eq. cbn. lia.
    + by rewrite lookup_delete_ne.
    + rewrite lookup_insert_eq. cbn. lia.
    + by rewrite lookup_insert_ne.
  - case_decide as Hk; subst; [|done]. by rewrite E.
Qed.

Lemma fst_take_one key counts : (take_one key counts).1 = bool_decide (cnt (counts !! key) <> 0%nat).
Proof.
  unfold take_one. destruct (counts !! key) as [c|] eqn:E; cbn [fst]; symmetry.
  - apply bool_decide_eq_true. cbn. lia.
  - apply bool_decide_eq_false. cbn. lia.
Qed.

(** The queue a pair of counts stands for: the oldest [parts] are marked. *)
Definition queue_of (pending parts : nat) : list bool :=
  replicate parts true ++ replicate (pending - parts) false.

Record joins_rel (s : Session) (q : join_spec) : Prop := {
  rel_le : forall k, (cnt (part_on_join s !! k) <= cnt (pending_joins s !! k))%nat;
  rel_queue : forall k, default [] (q !! k) = queue_of (cnt (pending_joins s !! k)) (cnt (part_on_join s !! k));
}.

Lemma queue_of_length pending parts : (parts <= pending)%nat -> length (queue_of pending parts) = pending.
Proof. intros ?. unfold queue_of. rewrite length_app, !length_replicate. lia. Qed.

Lemma queue_of_snoc pending parts :
  (parts <= pending)%nat -> queue_of pending parts ++ [false] = queue_of (S pending) parts.
Proof.
  intros ?. unfold queue_of. rewrite <- app_assoc. f_equal.
  rewrite Nat.sub_succ_l by done. by rewrite replicate_S_end.
Qed.

Lemma queue_of_mark pending parts :
  (parts <= pending)%nat -> (fun _ => true) <$> queue_of pending parts = queue_of pending pending.
Proof.
  intros ?. unfold queue_of. rewrite fmap_app, !fmap_replicate, <- replicate_add, Nat.sub_diag.
  cbn [replicate]. rewrite app_nil_r. f_equal. lia.
Qed.

Lemma queue_of_pop pending parts :
  (parts <= pending)%nat -> queue_of pending parts =
  (if decide (pending = 0%nat) then []
   else bool_decide (parts <> 0%nat) :: queue_of (pending - 1) (parts - 1)).
Proof.
  intros ?. unfold queue_of. case_decide as Hp; [subst; by replace parts with 0%nat by lia|].
  destruct parts as [|parts]; cbn [replicate app].
  - rewrite bool_decide_false by lia. rewrite Nat.sub_0_r. destruct pending; [done|]. cbn. by rewrite !Nat.sub_0_r.
  - rewrite bool_decide_true by lia. f_equal. f_equal; f_equal; lia.
Qed.

Lemma joins_rel_init s : pending_joins s = ∅ -> part_on_join s = ∅ -> joins_rel s ∅.
Proof. intros Hp Hq. split; intros k; rewrite Hp, Hq, ?lookup_empty; done. Qed.

Lemma join_sent_sim key s q :
  joins_rel s q ->
  fst (impl_join s (JoinSent key)) = fst (spec_join q (JoinSent key))
  /\ joins_rel (snd (impl_join s (JoinSent key))) (snd (spec_join q (JoinSent key))).
Proof.
  intros [Hle Hq]. cbn [impl_join spec_join]. rewrite Hq, queue_of_length by done.
  assert (forall c, joins_rel s q -> c = S (cnt (pending_joins s !! key)) ->
    joins_rel (with_joins s (<[key := Pos.of_nat c]> (pending_joins s)) (part_on_join s))
      (<[key := queue_of (cnt (pending_joins s !! key)) (cnt (part_on_join s !! key)) ++ [false]]> q)) as Hins.
  { intros c _ ->. split; intros k; cbn [pending_joins part_on_join with_joins];
      (destruct (decide (k = key)) as [->|]; [rewrite !lookup_insert_eq|by rewrite !lookup_insert_ne]).
    - cbn [cnt from_option]. rewrite Nat2Pos.id by done. specialize (Hle key). lia.
    - cbn [cnt from_option default]. rewrite Nat2Pos.id by done. by apply queue_of_snoc. }
  unfold join_sent. destruct (pending_joins s !! key) as [c|] eqn:E; cbn [cnt from_option] in *.
  - unfold USIZE_MAX. destruct (Pos.eqb_spec c (Z.to_pos U64_MAX)) as [->|Hc].
    + rewrite positive_nat_Z. cbn [fst snd]. done.
    + rewrite positive_nat_Z. rewrite (proj2 (Z.eqb_neq _ _)) by (unfold U64_MAX in *; lia).
      cbn [fst snd]. split; [done|]. replace (Pos.succ c) with (Pos.of_nat (S (Pos.to_nat c))) by lia.
      by apply Hins.
  - cbn [fst snd]. split; [done|]. by apply (Hins 1%nat).
Qed.

Lemma join_answered_sim key s q :
  joins_rel s q ->
  fst (impl_join s (JoinAnswered key)) = fst (spec_join q (JoinAnswered key))
  /\ joins_rel (snd (impl_join s (JoinAnswered key))) (snd (spec_join q (JoinAnswered key))).
Proof.
  intros [Hle Hq]. cbn [impl_join spec_join]. rewrite Hq, queue_of_pop by done. unfold join_answered.
  pose proof (fst_take_one key (pending_joins s)) as H1.
  pose proof (cnt_take_one key (pending_joins s)) as H2.
  pose proof (fst_take_one key (part_on_join s)) as H3.
  pose proof (cnt_take_one key (part_on_join s)) as H4.
  destruct (take_one key (pending_joins s)) as [sent pending].
  destruct (take_one key (part_on_join s)) as [part parts]. cbn [fst snd] in *. subst sent part.
  case_decide as Hp.
  - rewrite bool_decide_false by naive_solver. done.
  - rewrite bool_decide_true by done. cbn [fst snd]. split; [done|].
    split; intros k; cbn [pending_joins part_on_join with_joins]; rewrite H2, H4.
    + case_decide; [|done]. specialize (Hle key). lia.
    + case_decide as Hk; [subst; by rewrite lookup_insert_eq|by rewrite lookup_insert_ne].
Qed.

Lemma join_zero_sim s q :
  joins_rel s q -> joins_rel (part_joins_in_flight s) (snd (spec_join q JoinZero)).
Proof.
  intros [Hle Hq]. split; intros k; cbn [part_joins_in_flight pending_joins part_on_join with_joins];
    [done|]. cbn [spec_join snd]. rewrite lookup_fmap. specialize (Hle k).
  rewrite <- (queue_of_mark _ (cnt (part_on_join s !! k))) by done. rewrite <- Hq.
  by destruct (q !! k).
Qed.

(** JOINs in flight are counted as a queue would keep them: for every
    sequence of JOINs sent, [JOIN 0]s and answers, the two counters per channel
    answer as a queue of the JOINs sent does whose entries a [JOIN 0] marks --
    an answered JOIN is parted exactly when a [JOIN 0] was sent after it, and
    an answer is refused exactly when no JOIN is waiting. *)
Theorem joins_in_flight_refine s ops :
  pending_joins s = ∅ -> part_on_join s = ∅ ->
  fst (runs impl_join s ops) = fst (runs spec_join ∅ ops)
  /\ (forall key, join_in_flight key (snd (runs impl_join s ops)) = true <->
        default [] (snd (runs spec_join ∅ ops) !! key) <> []).
Proof.
  intros Hp Hq. destruct (runs_simulate impl_join spec_join (fun _ => True) joins_rel) with ops s (∅ : join_spec)
    as [Ho [Hle Hr]].
  - intros s1 s2 [key| |key] Hrel _;
      [by apply join_sent_sim|split; [done|by apply join_zero_sim]|by apply join_answered_sim].
  - by apply Forall_true.
  - by apply joins_rel_init.
  - split; [done|]. intros key. rewrite Hr. unfold join_in_flight. rewrite bool_decide_eq_true.
    specialize (Hle key). rewrite <- length_zero_iff_nil, queue_of_length by done.
    destruct (pending_joins _ !! key); cbn; rewrite is_Some_alt; split; done || lia.
Qed.
End Session.
Arguments Session R : clear implicits.

(** A session with nothing sent yet, holding no other data. *)
Definition fresh_session : Session () := MkSession (Registering None None None None) [] ∅ ∅ ().

(** Two JOINs, a [JOIN 0] between them, and three answers. *)
Lemma joins_in_flight_refine_witness :
  let ops := [JoinSent (bs "#a"); JoinZero; JoinSent (bs "#a"); JoinAnswered (bs "#a");
              JoinAnswered (bs "#a"); JoinAnswered (bs "#a")] in
  fst (runs impl_join fresh_session ops) = [JDone; JDone; JDone; JAnswered true; JAnswered false; JPanic].
Proof.
  intros ops. rewrite (proj1 (joins_in_flight_refine fresh_session ops eq_refl eq_refl)).
  vm_compute. reflexivity.
Defined.

(** A registered session has the prefix other users see; one that is not has
    none, and completing registration with a nick and a user makes it so. *)
Lemma prefix_registered {R} (s : Session R) : is_Some (prefix s) <-> is_registered s = true.
Proof. unfold prefix, is_registered. destruct (reg s); split; done. Qed.

Lemma complete_registration_spec {R} (s : Session R) :
  is_registered (complete_registration s) = is_registered s || (bool_decide (is_Some (nick s)) && bool_decide (is_Some (user s))).
Proof.
  unfold is_registered, complete_registration, nick, user, with_reg. cbn.
  by destruct (reg s) as [[|] [|] ? ?|]; cbn.
Qed.
