(* ===== verification/SessionStore.v ===== *)
(** * The session store ([e6ircd/src/core/state.rs], [SessionStore])

    Sessions live in dense slots; a connection's handle names a slot and the
    generation it was filled at, so a handle to a slot that has been reused is
    recognised.  A slot whose 32-bit generation is used up is retired.  The
    specification is a finite map from connections to sessions, with the set of
    connections touched since the last look. *)

From S2P Require Import Prelude Str Keys Session.
From stdpp Require Import gmap sorting fin_maps.

Local Open Scope Z_scope.

Section Store.
Context {R : Type}.
Abbreviation Session := (Session R).

Record SessionHandle : Type := MkHandle { handle_slot : nat; handle_generation : Z }.
Record SessionSlot : Type := MkSlot { slot_generation : Z; slot_session : option Session }.

Record SessionStore : Type := MkStore {
  by_conn : gmap Z SessionHandle;
  slots : list SessionSlot;
  free : list nat;
  store_len : Z;
  registered : Z;
  touched : list Z;
}.

Definition SessionStore_new : SessionStore := MkStore ∅ [] [] 0 0 [].

Definition with_touched (t : list Z) (st : SessionStore) : SessionStore :=
  MkStore (by_conn st) (slots st) (free st) (store_len st) (registered st) t.
Definition with_registered (r : Z) (st : SessionStore) : SessionStore :=
  MkStore (by_conn st) (slots st) (free st) (store_len st) r (touched st).

(** ** Operations *)

(** The shared lookup: the session of a connection whose handle is current. *)
Definition store_get (conn : Z) (st : SessionStore) : option Session :=
  handle ← by_conn st !! conn;
  slot ← slots st !! handle_slot handle;
  if slot_generation slot =? handle_generation handle then slot_session slot else None.

Definition contains_key (conn : Z) (st : SessionStore) : bool :=
  bool_decide (is_Some (store_get conn st)).

(** [lookup_mut]: the same lookup, and the write through the reference. *)
Definition lookup_mut (conn : Z) (f : Session -> Session) (st : SessionStore) : SessionStore :=
  match by_conn st !! conn with
  | None => st
  | Some handle =>
      match slots st !! handle_slot handle with
      | None => st
      | Some slot =>
          if slot_generation slot =? handle_generation handle then
            MkStore (by_conn st)
              (<[handle_slot handle := MkSlot (slot_generation slot) (f <$> slot_session slot)]> (slots st))
              (free st) (store_len st) (registered st) (touched st)
          else st
      end
  end.

Definition store_get_mut (conn : Z) (f : Session -> Session) (st : SessionStore) : SessionStore :=
  lookup_mut conn f (with_touched (touched st ++ [conn]) st).

(** [usize::from(session.is_registered())]. *)
Definition from_bool (b : bool) : Z := if b then 1 else 0.

(** [Vec::dedup]: drop an element equal to the one kept before it. *)
Fixpoint dedup (l : list Z) : list Z :=
  match l with
  | [] => []
  | x :: l' =>
      match dedup l' with
      | y :: t => if x =? y then y :: t else x :: y :: t
      | [] => [x]
      end
  end.

Definition take_touched (st : SessionStore) : list Z * SessionStore :=
  (dedup (merge_sort Z.le (touched st)), with_touched [] st).

Definition store_remove (conn : Z) (st : SessionStore) : option Session * SessionStore :=
  match by_conn st !! conn with
  | None => (None, st)
  | Some handle =>
      let st := MkStore (delete conn (by_conn st)) (slots st) (free st)
                  (store_len st) (registered st) (touched st) in
      match slots st !! handle_slot handle with
      | None => (None, st)
      | Some slot =>
          if slot_generation slot =? handle_generation handle then
            match slot_session slot with
            | None => (None, st)
            | Some session =>
                (* [checked_add(1)] on the u32 generation *)
                let overflow := slot_generation slot =? U32_MAX in
                let generation := if overflow then slot_generation slot else slot_generation slot + 1 in
                (Some session,
                 MkStore (by_conn st) (<[handle_slot handle := MkSlot generation None]> (slots st))
                   (if overflow then free st else free st ++ [handle_slot handle])
                   (store_len st - 1) (registered st - from_bool (is_registered session))
                   (touched st ++ [conn]))
            end
          else (None, st)
      end
  end.

(** [self.free.pop()], a new slot when none is free.  A free index is in range
    (see [inv_free]), so the default is never read. *)
Definition take_slot (st : SessionStore) : nat * Z * list SessionSlot * list nat :=
  match rev (free st) with
  | index :: rest =>
      (index, default 0 (slot_generation <$> slots st !! index), slots st, rev rest)
  | [] => (length (slots st), 0, slots st ++ [MkSlot 0 None], free st)
  end.

Definition store_insert (conn : Z) (session : Session) (st : SessionStore) : option Session * SessionStore :=
  let '(previous, st) := store_remove conn st in
  let '(index, generation, slots', free') := take_slot st in
  let slots' := alter (fun slot => MkSlot (slot_generation slot) (Some session)) index slots' in
  (previous,
   MkStore (<[conn := MkHandle index generation]> (by_conn st)) slots' free'
     (store_len st + 1) (registered st + from_bool (is_registered session)) (touched st)).

(** The session is completed through [get_mut], and the count follows it. *)
Definition store_complete_registration (conn : Z) (st : SessionStore) : SessionStore :=
  let was := store_get conn st in
  let st := store_get_mut conn complete_registration st in
  match was with
  | None => st
  | Some session =>
      if negb (is_registered session) && is_registered (complete_registration session)
      then with_registered (registered st + 1) st
      else st
  end.

Definition values (st : SessionStore) : list Session := omap slot_session (slots st).
Definition registered_len (st : SessionStore) : Z := registered st.
Definition len (st : SessionStore) : Z := store_len st.

(** [SessionIter]: the connections whose handle is current, with their session. *)
Definition store_iter (st : SessionStore) : list (Z * Session) :=
  omap (fun '(conn, handle) => pair conn <$> store_get conn st) (map_to_list (by_conn st)).

(** ** Specification *)

Abbreviation store_spec := (gmap Z Session * gset Z)%type.

Definition reg_count (m : gmap Z Session) : Z :=
  map_fold (fun _ s n => from_bool (is_registered s) + n) 0 m.

Inductive StoreOp : Type :=
| Insert (conn : Z) (session : Session) | Remove (conn : Z) | Get (conn : Z)
| GetMut (conn : Z) (f : Session -> Session) | OutputMut (conn : Z) (f : Session -> Session)
| CompleteRegistration (conn : Z) | TakeTouched | Len | RegisteredLen.

Inductive StoreOut : Type :=
| OSession (session : option Session) | OTouched (conns : list Z) | OCount (n : Z) | OUnit.

(** A removal touches the connection it found. *)
Definition touch_found (m : gmap Z Session) (conn : Z) (t : gset Z) : gset Z :=
  if bool_decide (is_Some (m !! conn)) then {[conn]} ∪ t else t.

Definition spec_store (sp : store_spec) (op : StoreOp) : StoreOut * store_spec :=
  let '(m, t) := sp in
  match op with
  | Insert conn session => (OSession (m !! conn), (<[conn := session]> m, touch_found m conn t))
  | Remove conn => (OSession (m !! conn), (delete conn m, touch_found m conn t))
  | Get conn => (OSession (m !! conn), (m, t))
  | GetMut conn f => (OUnit, (alter f conn m, {[conn]} ∪ t))
  | OutputMut conn f => (OUnit, (alter f conn m, t))
  | CompleteRegistration conn => (OUnit, (alter complete_registration conn m, {[conn]} ∪ t))
  | TakeTouched => (OTouched (merge_sort Z.le (elements t)), (m, ∅))
  | Len => (OCount (Z.of_nat (size m)), (m, t))
  | RegisteredLen => (OCount (reg_count m), (m, t))
  end.

Definition impl_store (st : SessionStore) (op : StoreOp) : StoreOut * SessionStore :=
  match op with
  | Insert conn session => let '(prev, st) := store_insert conn session st in (OSession prev, st)
  | Remove conn => let '(prev, st) := store_remove conn st in (OSession prev, st)
  | Get conn => (OSession (store_get conn st), st)
  | GetMut conn f => (OUnit, store_get_mut conn f st)
  | OutputMut conn f => (OUnit, lookup_mut conn f st)
  | CompleteRegistration conn => (OUnit, store_complete_registration conn st)
  | TakeTouched => let '(conns, st) := take_touched st in (OTouched conns, st)
  | Len => (OCount (len st), st)
  | RegisteredLen => (OCount (registered_len st), st)
  end.

(** Only [CompleteRegistration] registers a session; a write through
    [get_mut] or [output_mut] leaves it registered or not, as it was. *)
Definition op_ok (op : StoreOp) : Prop :=
  match op with
  | GetMut _ f | OutputMut _ f => forall s, is_registered (f s) = is_registered s
  | _ => True
  end.

(** ** Invariant *)

Record inv (st : SessionStore) : Prop := {
  inv_handle : forall conn h, by_conn st !! conn = Some h ->
    exists s, slots st !! handle_slot h = Some (MkSlot (handle_generation h) (Some s));
  inv_inj : forall c1 c2 h1 h2, by_conn st !! c1 = Some h1 -> by_conn st !! c2 = Some h2 ->
    handle_slot h1 = handle_slot h2 -> c1 = c2;
  inv_live : forall i g s, slots st !! i = Some (MkSlot g (Some s)) ->
    exists conn h, by_conn st !! conn = Some h /\ handle_slot h = i;
  inv_free : forall i, i ∈ free st -> exists g, slots st !! i = Some (MkSlot g None);
  inv_free_nodup : NoDup (free st);
}.

Record store_rel (st : SessionStore) (sp : store_spec) : Prop := {
  rel_inv : inv st;
  rel_get : forall conn, store_get conn st = sp.1 !! conn;
  rel_len : store_len st = Z.of_nat (size sp.1);
  rel_registered : registered st = reg_count sp.1;
  rel_touched : forall conn, conn ∈ touched st <-> conn ∈ sp.2;
}.

Lemma handle_cases conn st : inv st ->
  (by_conn st !! conn = None /\ store_get conn st = None) \/
  (exists h s, by_conn st !! conn = Some h
    /\ slots st !! handle_slot h = Some (MkSlot (handle_generation h) (Some s))
    /\ store_get conn st = Some s).
Proof.
  intros Hi. unfold store_get. destruct (by_conn st !! conn) as [h|] eqn:E; [right|by left].
  destruct (inv_handle st Hi conn h E) as [s Hs]. exists h, s. cbn. rewrite Hs. cbn.
  by rewrite Z.eqb_refl.
Qed.

Lemma store_get_same conn st st' :
  by_conn st' !! conn = by_conn st !! conn ->
  (forall h, by_conn st !! conn = Some h -> slots st' !! handle_slot h = slots st !! handle_slot h) ->
  store_get conn st' = store_get conn st.
Proof.
  intros Hb Hs. unfold store_get. rewrite Hb. destruct (by_conn st !! conn) as [h|]; cbn; [|done].
  by rewrite (Hs h eq_refl).
Qed.

Lemma inv_slot_ne st c1 c2 h1 h2 : inv st ->
  by_conn st !! c1 = Some h1 -> by_conn st !! c2 = Some h2 -> c1 <> c2 ->
  handle_slot h1 <> handle_slot h2.
Proof. intros Hi H1 H2 Hne Heq. by eapply Hne, (inv_inj st Hi). Qed.

(** *** Counting the registered *)

Lemma reg_count_insert m conn s :
  m !! conn = None -> reg_count (<[conn := s]> m) = reg_count m + from_bool (is_registered s).
Proof.
  intros Hn. unfold reg_count. rewrite map_fold_insert_L; [lia| |done]. intros. lia.
Qed.

Lemma reg_count_delete m conn s :
  m !! conn = Some s -> reg_count (delete conn m) = reg_count m - from_bool (is_registered s).
Proof.
  intros Hs. rewrite <- (insert_delete_id m conn s Hs) at 2.
  rewrite reg_count_insert by apply lookup_delete_eq. lia.
Qed.

Lemma alter_found (m : gmap Z Session) conn f s :
  m !! conn = Some s -> alter f conn m = <[conn := f s]> m.
Proof.
  intros Hs. apply map_eq. intros c. destruct (decide (c = conn)) as [->|].
  - by rewrite lookup_alter_eq, lookup_insert_eq, Hs.
  - by rewrite lookup_alter_ne, lookup_insert_ne.
Qed.

Lemma reg_count_alter m conn f s :
  m !! conn = Some s ->
  reg_count (alter f conn m) = reg_count m - from_bool (is_registered s) + from_bool (is_registered (f s)).
Proof.
  intros Hs. rewrite (alter_found m conn f s Hs), <- insert_delete_eq.
  rewrite reg_count_insert by apply lookup_delete_eq. by rewrite (reg_count_delete m conn s Hs).
Qed.

(** *** Removal *)

Definition removed_generation (g : Z) : Z := if g =? U32_MAX then g else g + 1.

(** The store once the session [conn] has in slot [h] is taken out. *)
Definition vacate (conn : Z) (h : SessionHandle) (session : Session) (st : SessionStore) : SessionStore :=
  MkStore (delete conn (by_conn st))
    (<[handle_slot h := MkSlot (removed_generation (handle_generation h)) None]> (slots st))
    (if handle_generation h =? U32_MAX then free st else free st ++ [handle_slot h])
    (store_len st - 1) (registered st - from_bool (is_registered session)) (touched st ++ [conn]).

Lemma store_remove_found conn h s st :
  by_conn st !! conn = Some h ->
  slots st !! handle_slot h = Some (MkSlot (handle_generation h) (Some s)) ->
  store_remove conn st = (Some s, vacate conn h s st).
Proof.
  intros Hb Hs. unfold store_remove, vacate, removed_generation. rewrite Hb. cbn [slots]. rewrite Hs.
  cbn [slot_generation slot_session]. rewrite Z.eqb_refl. cbn. by destruct (_ =? U32_MAX).
Qed.

Lemma vacate_inv conn h s st :
  inv st -> by_conn st !! conn = Some h ->
  slots st !! handle_slot h = Some (MkSlot (handle_generation h) (Some s)) ->
  inv (vacate conn h s st).
Proof.
  intros Hi Hb Hs. pose proof (lookup_lt_Some _ _ _ Hs) as Hlt.
  assert (handle_slot h ∉ free st) as Hnf.
  { intros [g Hg]%(inv_free st Hi). rewrite Hs in Hg. done. }
  split; cbn [vacate by_conn slots free].
  - intros c h' [Hne Hc]%lookup_delete_Some. rewrite list_lookup_insert_ne.
    + by apply (inv_handle st Hi c).
    + by eapply (inv_slot_ne st conn c).
  - intros c1 c2 h1 h2 [_ H1]%lookup_delete_Some [_ H2]%lookup_delete_Some. by eapply (inv_inj st Hi).
  - intros i g s' Hi'. destruct (decide (i = handle_slot h)) as [->|Hne].
    + by rewrite list_lookup_insert_eq in Hi' by done.
    + rewrite list_lookup_insert_ne in Hi' by done.
      destruct (inv_live st Hi i g s' Hi') as (c & h' & Hc & <-). exists c, h'. split; [|done].
      apply lookup_delete_Some. split; [|done]. intros <-. rewrite Hb in Hc. by simplify_eq.
  - intros i Hin. destruct (decide (i = handle_slot h)) as [->|Hne].
    + eexists. by apply list_lookup_insert_eq.
    + rewrite list_lookup_insert_ne by done. apply (inv_free st Hi).
      destruct (_ =? U32_MAX); [done|]. apply elem_of_snoc in Hin as [?|?]; done.
  - destruct (_ =? U32_MAX); [apply (inv_free_nodup st Hi)|].
    apply NoDup_app. split_and!; [apply (inv_free_nodup st Hi)| |apply NoDup_singleton].
    intros i Hin ->%list_elem_of_singleton. done.
Qed.

Lemma vacate_get conn h s st c :
  inv st -> by_conn st !! conn = Some h ->
  store_get c (vacate conn h s st) = if decide (c = conn) then None else store_get c st.
Proof.
  intros Hi Hb. case_decide as Hc; subst.
  - unfold store_get. cbn [vacate by_conn]. by rewrite lookup_delete_eq.
  - apply store_get_same; cbn [vacate by_conn slots]; [by apply lookup_delete_ne|].
    intros h' Hh'. apply list_lookup_insert_ne. by eapply (inv_slot_ne st conn c).
Qed.

Lemma store_remove_sim conn st sp :
  store_rel st sp ->
  fst (store_remove conn st) = sp.1 !! conn
  /\ store_rel (snd (store_remove conn st)) (delete conn sp.1, touch_found sp.1 conn sp.2)
  /\ by_conn (snd (store_remove conn st)) !! conn = None.
Proof.
  intros [Hi Hg Hl Hr Ht]. destruct (handle_cases conn st Hi) as [[Hb Hn]|(h & s & Hb & Hs & Hget)].
  - rewrite Hg in Hn. unfold store_remove. rewrite Hb. cbn [fst snd]. split; [done|]. split; [|done].
    unfold touch_found. rewrite Hn. rewrite bool_decide_false by (by intros [? ?]).
    rewrite delete_id by done. by split.
  - rewrite (store_remove_found conn h s st Hb Hs). rewrite Hg in Hget. cbn [fst snd].
    split; [done|]. split; [|apply lookup_delete_eq]. split; cbn [fst snd].
    + by apply vacate_inv.
    + intros c. rewrite (vacate_get conn h s st c Hi Hb). case_decide as Hc; subst.
      * by rewrite lookup_delete_eq.
      * by rewrite lookup_delete_ne.
    + cbn [vacate store_len]. rewrite Hl, map_size_delete_Some by done.
      assert (size sp.1 <> 0%nat) by (intros He%map_size_empty_inv; rewrite He, lookup_empty in Hget; done). lia.
    + cbn [vacate registered]. rewrite Hr. by rewrite (reg_count_delete _ _ s).
    + intros c. cbn [vacate touched]. rewrite elem_of_snoc, Ht. unfold touch_found.
      rewrite bool_decide_true by eauto. set_solver.
Qed.

(** *** Insertion *)

Lemma take_slot_spec st : inv st ->
  let '(index, g, slots0, free') := take_slot st in
  slots0 !! index = Some (MkSlot g None)
  /\ (forall i, i <> index -> slots0 !! i = slots st !! i)
  /\ (forall g s, ~ slots st !! index = Some (MkSlot g (Some s)))
  /\ NoDup free' /\ (index ∉ free') /\ (forall i, i ∈ free' -> i ∈ free st).
Proof.
  intros Hi. unfold take_slot. destruct (rev (free st)) as [|index rest] eqn:E.
  - split_and!.
    + rewrite lookup_app_r by lia. by rewrite Nat.sub_diag.
    + intros i Hne. destruct (decide (i < length (slots st))%nat).
      * by rewrite lookup_app_l.
      * rewrite !lookup_ge_None_2; [done|lia|]. rewrite length_app. cbn. lia.
    + intros g s Hs%lookup_lt_Some. lia.
    + apply (inv_free_nodup st Hi).
    + intros [g Hs%lookup_lt_Some]%(inv_free st Hi). lia.
    + done.
  - assert (free st = rev rest ++ [index]) as Hf.
    { rewrite <- (rev_involutive (free st)), E. done. }
    pose proof (inv_free_nodup st Hi) as Hnd. rewrite Hf in Hnd.
    apply NoDup_app in Hnd as (Hnd & Hdis & _).
    destruct (inv_free st Hi index) as [g Hg]; [rewrite Hf; apply elem_of_snoc; by right|].
    rewrite Hg. split_and!; try done.
    + intros Hin. by apply (Hdis index Hin), list_elem_of_singleton.
    + intros i Hin. rewrite Hf. apply elem_of_snoc. by left.
Qed.

Lemma store_insert_sim conn session st sp :
  store_rel st sp ->
  fst (store_insert conn session st) = sp.1 !! conn
  /\ store_rel (snd (store_insert conn session st))
       (<[conn := session]> sp.1, touch_found sp.1 conn sp.2).
Proof.
  intros Hrel. destruct (store_remove_sim conn st sp Hrel) as (Hp & [Hi Hg Hl Hr Ht] & Hb).
  unfold store_insert. destruct (store_remove conn st) as [previous st1]. cbn [fst snd] in *.
  pose proof (take_slot_spec st1 Hi) as Hts.
  destruct (take_slot st1) as [[[index g] slots0] free'].
  destruct Hts as (Hidx & Hoth & Hno & Hnd & Hnf & Hsub). cbn [fst snd]. split; [done|].
  assert (forall c h, by_conn st1 !! c = Some h -> handle_slot h <> index) as Hfree.
  { intros c h Hc <-. destruct (inv_handle st1 Hi c h Hc) as [s Hs]. by eapply Hno. }
  split; cbn [by_conn slots free store_len registered touched fst snd].
  - split; cbn [by_conn slots free].
    + intros c h [[<- <-]|[Hne Hc]]%lookup_insert_Some.
      * exists session. cbn [handle_slot handle_generation]. by rewrite list_lookup_alter_eq, Hidx.
      * rewrite list_lookup_alter_ne, Hoth by (intros Heq; by eapply Hfree).
        by apply (inv_handle st1 Hi c).
    + intros c1 c2 h1 h2 [[<- <-]|[Hne1 H1]]%lookup_insert_Some [[<- <-]|[Hne2 H2]]%lookup_insert_Some Heq;
        [done|by destruct (Hfree _ _ H2)|by destruct (Hfree _ _ H1)|by eapply (inv_inj st1 Hi)].
    + intros i g' s Hs. destruct (decide (i = index)) as [->|Hne].
      * exists conn, (MkHandle index g). by rewrite lookup_insert_eq.
      * rewrite list_lookup_alter_ne, Hoth in Hs by done.
        destruct (inv_live st1 Hi i g' s Hs) as (c & h & Hc & <-). exists c, h. split; [|done].
        rewrite lookup_insert_ne; [done|]. intros <-. congruence.
    + intros i Hin. assert (i <> index) by (by intros ->).
      rewrite list_lookup_alter_ne, Hoth by done. by apply (inv_free st1 Hi), Hsub.
    + done.
  - intros c. destruct (decide (c = conn)) as [->|Hne].
    + unfold store_get. cbn [by_conn slots]. rewrite !lookup_insert_eq. cbn.
      rewrite list_lookup_alter_eq, Hidx. cbn. by rewrite Z.eqb_refl.
    + rewrite lookup_insert_ne by done. rewrite <- (lookup_delete_ne sp.1 conn c) by done.
      rewrite <- Hg. apply store_get_same; cbn [by_conn slots]; [by apply lookup_insert_ne|].
      intros h Hh. pose proof (Hfree c h Hh). by rewrite list_lookup_alter_ne, Hoth.
  - rewrite Hl, <- insert_delete_eq, map_size_insert_None by apply lookup_delete_eq. lia.
  - rewrite Hr, <- insert_delete_eq, reg_count_insert by apply lookup_delete_eq. lia.
  - done.
Qed.

(** *** Writes through a reference *)

Lemma lookup_mut_rel conn f st sp t :
  inv st -> (forall c, store_get c st = sp !! c) -> store_len st = Z.of_nat (size sp) ->
  (forall c, c ∈ touched st <-> c ∈ t) ->
  registered st = reg_count (alter f conn sp) ->
  store_rel (lookup_mut conn f st) (alter f conn sp, t).
Proof.
  intros Hi Hg Hl Ht Hr. unfold lookup_mut.
  destruct (handle_cases conn st Hi) as [[Hb Hn]|(h & s & Hb & Hs & Hget)].
  - rewrite Hb. assert (alter f conn sp = sp) as Ha.
    { apply alter_id'. by rewrite <- Hg. }
    rewrite Ha in *. by split.
  - rewrite Hb, Hs. cbn [slot_generation slot_session]. rewrite Z.eqb_refl.
    pose proof (lookup_lt_Some _ _ _ Hs) as Hlt.
    split; cbn [by_conn slots free store_len registered touched fst snd]; try done.
    + split; cbn [by_conn slots free]; try apply Hi.
      * intros c h' Hc. destruct (decide (handle_slot h' = handle_slot h)) as [Heq|Hne].
        -- assert (c = conn) as -> by (by eapply (inv_inj st Hi)).
           rewrite Hb in Hc. injection Hc as <-. eexists. by rewrite list_lookup_insert_eq.
        -- rewrite list_lookup_insert_ne by done. by apply (inv_handle st Hi c).
      * intros i g s' Hs'. destruct (decide (i = handle_slot h)) as [->|Hne]; [by eauto|].
        rewrite list_lookup_insert_ne in Hs' by done. by apply (inv_live st Hi i g s').
      * intros i Hin. rewrite list_lookup_insert_ne; [by apply (inv_free st Hi)|].
        intros <-. destruct (inv_free st Hi _ Hin) as [g Hg']. congruence.
    + intros c. destruct (decide (c = conn)) as [->|Hne].
      * unfold store_get. cbn [by_conn slots]. rewrite Hb. cbn. rewrite list_lookup_insert_eq by done.
        cbn. rewrite Z.eqb_refl, lookup_alter_eq, <- Hg, Hget. done.
      * rewrite lookup_alter_ne, <- Hg by done. apply store_get_same; cbn [by_conn slots]; [done|].
        intros h' Hh'. apply list_lookup_insert_ne. by eapply (inv_slot_ne st conn c).
    + rewrite Hg in Hget. rewrite (alter_found sp conn f s Hget), map_size_insert_Some by eauto. done.
Qed.

Lemma reg_count_alter_same m conn f :
  (forall s, is_registered (f s) = is_registered s) -> reg_count (alter f conn m) = reg_count m.
Proof.
  intros Hf. destruct (m !! conn) as [s|] eqn:E.
  - rewrite (reg_count_alter m conn f s E), Hf. lia.
  - by rewrite alter_id' by done.
Qed.

Lemma touched_rel st sp conn :
  (forall c, c ∈ touched st <-> c ∈ sp) ->
  forall c, c ∈ touched (with_touched (touched st ++ [conn]) st) <-> c ∈ ({[conn]} ∪ sp : gset Z).
Proof. intros Ht c. cbn. rewrite elem_of_snoc, Ht. set_solver. Qed.

Lemma with_touched_inv t st : inv st -> inv (with_touched t st).
Proof. intros [? ? ? ? ?]. by split. Qed.

Lemma with_touched_get t st c : store_get c (with_touched t st) = store_get c st.
Proof. done. Qed.

Lemma complete_sim conn st sp :
  store_rel st sp ->
  store_rel (store_complete_registration conn st)
    (alter complete_registration conn sp.1, {[conn]} ∪ sp.2).
Proof.
  intros [Hi Hg Hl Hr Ht]. unfold store_complete_registration, store_get_mut.
  assert (forall r, r = reg_count (alter complete_registration conn sp.1) ->
    store_rel (lookup_mut conn complete_registration
                 (with_registered r (with_touched (touched st ++ [conn]) st)))
      (alter complete_registration conn sp.1, {[conn]} ∪ sp.2)) as Hrel.
  { intros r ->. apply lookup_mut_rel; try done.
    - destruct Hi. by split.
    - intros c. by apply touched_rel. }
  assert (forall r, with_registered r (lookup_mut conn complete_registration (with_touched (touched st ++ [conn]) st))
    = lookup_mut conn complete_registration (with_registered r (with_touched (touched st ++ [conn]) st))) as Hcomm.
  { intros r. unfold lookup_mut, with_registered, with_touched. cbn [by_conn slots].
    destruct (by_conn st !! conn) as [h|]; [|done]. destruct (slots st !! handle_slot h) as [sl|]; [|done].
    by destruct (_ =? _). }
  assert (forall st', with_registered (registered st') st' = st') as Hid by (by intros []).
  rewrite Hg. destruct (sp.1 !! conn) as [s|] eqn:E.
  - pose proof (reg_count_alter sp.1 conn complete_registration s E) as Hc.
    pose proof (complete_registration_spec s) as Hs.
    assert (registered (lookup_mut conn complete_registration (with_touched (touched st ++ [conn]) st)) = registered st) as Hre.
    { rewrite <- (Hid (with_touched _ _)), <- Hcomm. done. }
    destruct (is_registered s) eqn:Er, (is_registered (complete_registration s)) eqn:Er';
      cbn [negb andb from_bool orb] in *; try discriminate.
    + rewrite <- (Hid (with_touched _ _)). apply Hrel. cbn. lia.
    + rewrite Hre, Hcomm. apply Hrel. lia.
    + rewrite <- (Hid (with_touched _ _)). apply Hrel. cbn. lia.
  - rewrite <- (Hid (with_touched _ _)). apply Hrel. by rewrite alter_id' by done.
Qed.

(** *** The touched connections *)

Lemma dedup_elem l c : c ∈ dedup l <-> c ∈ l.
Proof.
  induction l as [|x l IH]; [done|]. cbn [dedup]. rewrite elem_of_cons, <- IH.
  destruct (dedup l) as [|y t]; [set_solver|]. destruct (Z.eqb_spec x y); set_solver.
Qed.

Lemma dedup_StronglySorted l : StronglySorted Z.le l -> StronglySorted Z.lt (dedup l).
Proof.
  induction 1 as [|x l Hs IH Hall]; [constructor|]. cbn [dedup].
  assert (Forall (Z.le x) (dedup l)) as Hall'.
  { apply Forall_forall. intros c. rewrite dedup_elem. by apply Forall_forall. }
  destruct (dedup l) as [|y t]; [repeat constructor|].
  destruct (Z.eqb_spec x y) as [->|Hne]; [done|]. constructor; [done|].
  apply Forall_cons in Hall' as [Hy _]. inversion IH as [|? ? _ Hlt]; subst.
  constructor; [lia|]. eapply Forall_impl; [exact Hlt|]. intros z. cbn. lia.
Qed.

Lemma StronglySorted_lt_le l : StronglySorted Z.lt l -> StronglySorted Z.le l.
Proof. induction 1; constructor; [done|]. eapply Forall_impl; [done|]. intros; lia. Qed.

Lemma StronglySorted_lt_NoDup l : StronglySorted Z.lt l -> NoDup l.
Proof.
  induction 1 as [|x l Hs IH Hall]; constructor; [|done].
  intros Hin. rewrite Forall_forall in Hall. specialize (Hall x Hin). lia.
Qed.

Lemma take_touched_sorted l (t : gset Z) :
  (forall c, c ∈ l <-> c ∈ t) -> dedup (merge_sort Z.le l) = merge_sort Z.le (elements t).
Proof.
  intros Ht. apply (StronglySorted_unique Z.le).
  - apply StronglySorted_lt_le, dedup_StronglySorted, (StronglySorted_merge_sort Z.le).
  - apply (StronglySorted_merge_sort Z.le).
  - rewrite (merge_sort_Permutation Z.le (elements t)). apply NoDup_Permutation.
    + apply StronglySorted_lt_NoDup, dedup_StronglySorted, (StronglySorted_merge_sort Z.le).
    + apply NoDup_elements.
    + intros c. rewrite dedup_elem, (merge_sort_Permutation Z.le l), elem_of_elements. apply Ht.
Qed.

Lemma store_step_sim st sp op :
  store_rel st sp -> op_ok op ->
  fst (impl_store st op) = fst (spec_store sp op)
  /\ store_rel (snd (impl_store st op)) (snd (spec_store sp op)).
Proof.
  intros Hrel Hok. pose proof Hrel as [Hi Hg Hl Hr Ht]. destruct sp as [m t]. cbn [fst snd] in *.
  destruct op as [conn session|conn|conn|conn f|conn f|conn| | |]; cbn [impl_store spec_store op_ok] in *.
  - pose proof (store_insert_sim conn session st _ Hrel) as [H1 H2].
    destruct (store_insert conn session st). cbn [fst snd] in *. by subst.
  - pose proof (store_remove_sim conn st _ Hrel) as (H1 & H2 & _).
    destruct (store_remove conn st). cbn [fst snd] in *. by subst.
  - cbn [fst snd]. by rewrite Hg.
  - split; [done|]. unfold store_get_mut. apply lookup_mut_rel; try done.
    + by apply with_touched_inv.
    + by apply touched_rel.
    + by rewrite reg_count_alter_same.
  - split; [done|]. apply lookup_mut_rel; try done. by rewrite reg_count_alter_same.
  - split; [done|]. by apply (complete_sim conn st (m, t)).
  - cbn [take_touched fst snd]. split; [by rewrite (take_touched_sorted _ t)|].
    split; cbn [fst snd]; try done; [by apply with_touched_inv|]. cbn. set_solver.
  - cbn [fst snd]. unfold len. by rewrite Hl.
  - cbn [fst snd]. unfold registered_len. by rewrite Hr.
Qed.

(** *** The sessions themselves *)

Lemma omap_seq {A B} (f : A -> option B) (l : list A) :
  omap f l = omap (fun i => l !! i ≫= f) (seq 0 (length l)).
Proof.
  induction l as [|x l IH] using rev_ind; [done|].
  rewrite length_app. cbn [length]. rewrite Nat.add_1_r, seq_S, !omap_app, IH. f_equal.
  - apply list_omap_ext, Forall_Forall2_diag, Forall_forall. intros i Hi%elem_of_seq.
    by rewrite lookup_app_l by lia.
  - cbn. by rewrite lookup_app_r, Nat.sub_diag by lia.
Qed.

Lemma omap_live {A B} (f : A -> option B) l :
  omap f l = omap f (List.filter (fun x => bool_decide (is_Some (f x))) l).
Proof.
  induction l as [|x l IH]; [done|]. cbn. destruct (f x) as [y|] eqn:E; cbn; [|done].
  rewrite E. by f_equal.
Qed.

Lemma omap_perm {A B} (f : A -> option B) l l' : l ≡ₚ l' -> omap f l ≡ₚ omap f l'.
Proof.
  induction 1 as [|x l l' _ IH|x y l|l1 l2 l3 _ IH1 _ IH2]; cbn; [done|..].
  - destruct (f x); [by rewrite IH|done].
  - destruct (f x), (f y); try done. apply Permutation_swap.
  - by rewrite IH1.
Qed.

Definition session_at (st : SessionStore) (i : nat) : option Session := slots st !! i ≫= slot_session.

Lemma session_at_handle st conn h : inv st -> by_conn st !! conn = Some h ->
  session_at st (handle_slot h) = store_get conn st /\ is_Some (store_get conn st).
Proof.
  intros Hi Hb. destruct (handle_cases conn st Hi) as [[Hb' _]|(h' & s & Hb' & Hs & ->)]; [congruence|].
  rewrite Hb in Hb'. injection Hb' as <-. unfold session_at. rewrite Hs. eauto.
Qed.

Lemma iter_handles st (L : list (Z * SessionHandle)) : inv st ->
  (forall c h, (c, h) ∈ L -> by_conn st !! c = Some h) ->
  let it := omap (fun '(conn, _) => pair conn <$> store_get conn st) L in
  it.*1 = L.*1 /\ it.*2 = omap (session_at st) ((fun e => handle_slot e.2) <$> L)
  /\ (forall c s, (c, s) ∈ it -> store_get c st = Some s).
Proof.
  intros Hi. induction L as [|[c h] L IH]; intros HL; [split_and!; try done; by intros ? ? ?%elem_of_nil|].
  destruct IH as (IH1 & IH2 & IH3); [intros c' h' Hin; apply HL; by right|].
  destruct (session_at_handle st c h Hi) as [Hs [s Hc]]; [apply HL; by left|]. rewrite Hc in Hs.
  cbn. rewrite Hc. cbn. rewrite Hs. split_and!; [by f_equal|by f_equal|].
  intros c' s' [[= -> ->]|Hin]%elem_of_cons; [done|by apply IH3].
Qed.

Lemma values_iter st : inv st -> values st ≡ₚ (store_iter st).*2.
Proof.
  intros Hi. destruct (iter_handles st (map_to_list (by_conn st)) Hi) as (_ & H2 & _).
  { intros c h. apply elem_of_map_to_list. }
  unfold store_iter. rewrite H2. unfold values. rewrite omap_seq.
  rewrite (omap_live _ (seq _ _)). apply omap_perm.
  apply NoDup_Permutation.
  - apply NoDup_Lfilter, NoDup_seq.
  - apply NoDup_fmap_2_strong; [|apply NoDup_map_to_list].
    intros [c1 h1] [c2 h2] H1%elem_of_map_to_list Hh2%elem_of_map_to_list Heq. cbn in Heq.
    assert (c1 = c2) as -> by (by eapply (inv_inj st Hi)). congruence.
  - intros i. rewrite elem_of_Lfilter, list_elem_of_fmap, bool_decide_eq_true. split.
    + intros [_ [s Hs]]. apply bind_Some in Hs as ([g o] & Hsl & Ho). cbn in Ho. subst o.
      destruct (inv_live st Hi i g s Hsl) as (c & h & Hc & <-). exists (c, h).
      by rewrite elem_of_map_to_list.
    + intros ([c h] & -> & Hc%elem_of_map_to_list). cbn.
      destruct (inv_handle st Hi c h Hc) as [s Hs]. rewrite Hs. split; [|by cbn].
      apply elem_of_seq. apply lookup_lt_Some in Hs. lia.
Qed.

Lemma iter_perm st m : inv st -> (forall c, store_get c st = m !! c) ->
  store_iter st ≡ₚ map_to_list m.
Proof.
  intros Hi Hg. destruct (iter_handles st (map_to_list (by_conn st)) Hi) as (H1 & _ & H3).
  { intros c h. apply elem_of_map_to_list. }
  apply NoDup_Permutation.
  - apply (NoDup_fmap_1 fst). unfold store_iter.
    assert (forall L, omap (fun '(conn, _) => pair conn <$> store_get conn st) L
      = omap (fun '(conn, handle) => pair conn <$> store_get conn st) L) as <- by done.
    rewrite H1. apply NoDup_fst_map_to_list.
  - apply NoDup_map_to_list.
  - intros [c s]. rewrite elem_of_map_to_list, <- Hg. split; [apply H3|].
    intros Hs. apply list_elem_of_omap.
    destruct (handle_cases c st Hi) as [[_ Hn]|(h & s' & Hb & _ & Hs')]; [congruence|].
    exists (c, h). rewrite elem_of_map_to_list. split; [done|]. by rewrite Hs.
Qed.

(** C20. The session store is a map: for every sequence of operations whose
    writes leave a session registered or not, as it was, the slots, handles and
    free list answer exactly as a finite map from connections to sessions does
    -- lookups, replaced and removed sessions, the number of sessions, the
    number registered and the touched connections, sorted and each once -- and
    the sessions it walks at the end are those of the map. *)
Theorem session_store_refines ops :
  Forall op_ok ops ->
  let st := snd (runs impl_store SessionStore_new ops) in
  let m := (snd (runs spec_store (∅, ∅) ops)).1 in
  fst (runs impl_store SessionStore_new ops) = fst (runs spec_store (∅, ∅) ops)
  /\ store_iter st ≡ₚ map_to_list m /\ values st ≡ₚ (map_to_list m).*2.
Proof.
  intros Hok st m.
  destruct (runs_simulate impl_store spec_store op_ok store_rel) with ops SessionStore_new (∅ : gmap Z Session, ∅ : gset Z)
    as [Ho [Hi Hg _ _ _]]; [intros; by apply store_step_sim|done| |].
  - split; cbn; try done; [|intros c; split; intros Hc; set_solver].
    split; cbn; try done; try (intros ? Hin; by apply elem_of_nil in Hin). constructor.
  - split; [done|]. fold st in Hi, Hg. fold m in Hg. pose proof (iter_perm st m Hi Hg) as Hp.
    split; [done|]. rewrite (values_iter st Hi). by apply fmap_Permutation.
Qed.
End Store.

(** A session that registers, is renamed, and is replaced on its connection. *)
Lemma session_store_refines_witness :
  let registering := with_reg fresh_session (Registering (Some (bs "n")) (Some (bs "u")) None None) in
  let ops := [Insert 7 registering; CompleteRegistration 7; GetMut 7 (set_nick (bs "m"));
              RegisteredLen; TakeTouched; Insert 7 fresh_session; RegisteredLen; Len; Remove 9] in
  fst (runs impl_store SessionStore_new ops)
  = [OSession None; OUnit; OUnit; OCount 1; OTouched [7];
     OSession (Some (set_nick (bs "m") (complete_registration registering)));
     OCount 0; OCount 1; OSession None].
Proof.
  intros registering ops. rewrite (proj1 (session_store_refines ops ltac:(
    repeat constructor; intros s; apply set_nick_registered))).
  vm_compute. reflexivity.
Defined.
