(* ===== verification/Nicks.v ===== *)
(** * Nicks and shards ([e6ircd/src/core/state.rs] and [core/mod.rs])

    The process-wide nick reservations every shard claims from, NickServ's nick
    registrations, the protection clocks of one session, the nick-change
    throttle, and the rule that gives each session and each channel its shard.
    A directory sits behind a mutex that each operation holds for its whole
    body, so the shards' operations on it are a sequence, here any sequence. *)

From S2P Require Import Prelude Str Keys Casemap Time.
From stdpp Require Import gmap.

Local Open Scope Z_scope.

(** ** Shards *)

Record CoreShardCount : Type := MkShardCount { shard_count : positive }.

Definition shard_for (n : CoreShardCount) (conn : Z) : Z := conn mod Zpos (shard_count n).

Record SessionOwner : Type := MkOwner { owner_conn : Z; owner_shard : Z }.

Definition session_owner (n : CoreShardCount) (conn : Z) : SessionOwner :=
  MkOwner conn (shard_for n conn).

(** FNV-1a, with the 64-bit multiplication wrapping. *)
Definition fnv_step (hash : Z) (b : byte) : Z := Z.lxor hash (bz b) * 0x100000001b3 mod 2 ^ 64.
Definition fnv (name : str) : Z := foldl fnv_step 0xcbf29ce484222325 name.

Definition shard_for_folded_channel (n : CoreShardCount) (name : str) : Z :=
  fnv name mod Zpos (shard_count n).
Definition shard_for_channel (n : CoreShardCount) (key : str) : Z := shard_for_folded_channel n key.
Definition shard_for_channel_name (n : CoreShardCount) (name : str) : Z :=
  shard_for_folded_channel n (casefold Rfc1459 name).

(** ** Nick reservations *)

Record NickReservation : Type := MkReservation { res_owner : SessionOwner; res_registered : bool }.
Abbreviation NickDirectory := (gmap str NickReservation).

Definition nick_owner (key : str) (d : NickDirectory) : option SessionOwner := res_owner <$> d !! key.

Definition registered_owner (key : str) (d : NickDirectory) : option SessionOwner :=
  reservation ← d !! key;
  if res_registered reservation then Some (res_owner reservation) else None.

Definition claim (key : str) (owner : SessionOwner) (reg : bool) (d : NickDirectory) : bool * NickDirectory :=
  match d !! key with
  | Some existing =>
      if owner_conn (res_owner existing) =? owner_conn owner
      then (true, <[key := MkReservation owner reg]> d)
      else (false, d)
  | None => (true, <[key := MkReservation owner reg]> d)
  end.

Definition release_if_owned (key : str) (conn : Z) (d : NickDirectory) : bool * NickDirectory :=
  match d !! key with
  | Some reservation =>
      if owner_conn (res_owner reservation) =? conn then (true, delete key d) else (false, d)
  | None => (false, d)
  end.

Definition mark_registered (key : str) (conn : Z) (d : NickDirectory) : NickDirectory :=
  match d !! key with
  | Some reservation =>
      if owner_conn (res_owner reservation) =? conn
      then <[key := MkReservation (res_owner reservation) true]> d
      else d
  | None => d
  end.

Inductive NickOp : Type :=
| Claim (key : str) (owner : SessionOwner) (reg : bool)
| Release (key : str) (conn : Z)
| MarkRegistered (key : str) (conn : Z).

Definition nick_step (d : NickDirectory) (op : NickOp) : bool * NickDirectory :=
  match op with
  | Claim key owner reg => claim key owner reg d
  | Release key conn => release_if_owned key conn d
  | MarkRegistered key conn => (true, mark_registered key conn d)
  end.

(** ** NickServ registrations *)

Record NickRegistrations : Type := MkRegistrations {
  grouped : gmap str str;
  enforced : gset str;
}.

Definition registrations_replace (g : list (str * str)) (e : list str) : NickRegistrations :=
  MkRegistrations (list_to_map (reverse g)) (list_to_set e).

Definition group (nick account : str) (r : NickRegistrations) : NickRegistrations :=
  MkRegistrations (<[nick := account]> (grouped r)) (enforced r).

Definition ungroup_from (nick account : str) (r : NickRegistrations) : NickRegistrations :=
  if bool_decide (grouped r !! nick = Some account)
  then MkRegistrations (delete nick (grouped r)) (enforced r) else r.

Definition set_enforce (account : str) (enforce : bool) (r : NickRegistrations) : NickRegistrations :=
  MkRegistrations (grouped r) (if enforce then {[account]} ∪ enforced r else enforced r ∖ {[account]}).

Definition forget_account (account : str) (r : NickRegistrations) : NickRegistrations :=
  MkRegistrations (filter (fun e => e.2 <> account) (grouped r)) (enforced r ∖ {[account]}).

Definition grouped_owner (nick : str) (r : NickRegistrations) : option str := grouped r !! nick.

Definition protector (nick named : str) (r : NickRegistrations) : option str :=
  let owner := default named (grouped r !! nick) in
  if bool_decide (owner ∈ enforced r) then Some owner else None.

(** ** Protection clocks *)

Record NickEnforcement : Type := MkEnforcement {
  enf_held : option str;
  deadlines : list (str * Z);
}.

Definition NickEnforcement_default : NickEnforcement := MkEnforcement None [].
Definition TRACKED : nat := 8.

Definition find_deadline (nick : str) (l : list (str * Z)) : option Z :=
  snd <$> head (List.filter (fun e => str_eqb e.1 nick) l).

(** [Iterator::min]; the list is not empty where it is used. *)
Definition earliest (l : list (str * Z)) : Z := foldr (fun e m => Z.min e.2 m) (default 0 (snd <$> head l)) l.

(** [max_by_key] returns the last of equal maxima. *)
Fixpoint latest_from (i best : nat) (bound : Z) (l : list (str * Z)) : nat :=
  match l with
  | [] => best
  | (_, d) :: l => if bound <=? d then latest_from (S i) i d l else latest_from (S i) best bound l
  end.
Definition latest_index (l : list (str * Z)) : nat :=
  match l with [] => 0%nat | (_, d) :: l' => latest_from 1 0 d l' end.

(** [Vec::swap_remove]: the last element takes the removed one's place. *)
Definition swap_remove {A} (i : nat) (l : list A) : list A :=
  match last l with
  | None => l
  | Some x => if (S i =? length l)%nat then removelast l else <[i := x]> (removelast l)
  end.

Definition deadline (nick : str) (fresh : Z) (e : NickEnforcement) : Z * NickEnforcement :=
  match find_deadline nick (deadlines e) with
  | Some d => (d, e)
  | None =>
      let full := (TRACKED <=? length (deadlines e))%nat in
      let d := if full then Z.min fresh (earliest (deadlines e)) else fresh in
      let kept := if full then swap_remove (latest_index (deadlines e)) (deadlines e) else deadlines e in
      (d, MkEnforcement (enf_held e) (kept ++ [(nick, d)]))
  end.

Definition hold (nick : str) (e : NickEnforcement) : NickEnforcement :=
  MkEnforcement (Some nick) (deadlines e).
Definition enf_release (e : NickEnforcement) : NickEnforcement := MkEnforcement None (deadlines e).

Definition due (now : Z) (e : NickEnforcement) : option str :=
  held ← enf_held e;
  if existsb (fun '(nick, d) => str_eqb nick held && (d <=? now)) (deadlines e) then Some held else None.

Definition clocked (e : NickEnforcement) : list str := (deadlines e).*1.

Definition settle (nick : str) (e : NickEnforcement) : NickEnforcement :=
  MkEnforcement (if bool_decide (enf_held e = Some nick) then None else enf_held e)
    (List.filter (fun d => negb (str_eqb d.1 nick)) (deadlines e)).

(** ** The nick-change throttle *)

Definition MAX_NICK_CHANGES : Z := 5.
Definition MAX_NICK_TIME_MS : Z := 20000.

Record NickChangeThrottle : Type := MkThrottle { change_count : Z; last_change : option Z }.
Definition NickChangeThrottle_default : NickChangeThrottle := MkThrottle 0 None.

Definition too_fast (now : Z) (t : NickChangeThrottle) : bool * NickChangeThrottle :=
  let stale := match last_change t with
               | None => true
               | Some last => MAX_NICK_TIME_MS <? millis_saturating_sub now last
               end in
  let count := if stale then 0 else change_count t in
  let count := Z.min U32_MAX (count + 1) in
  (MAX_NICK_CHANGES <? count, MkThrottle count (Some now)).

Definition throttle_step (t : NickChangeThrottle) (now : Z) : bool * NickChangeThrottle := too_fast now t.

(** ** Shards: lemmas *)

(** Every spelling of a channel's name is routed to the one shard that owns
    the channel's key, and that shard exists. *)
Lemma shard_for_channel_name_key n a b :
  casemap_eq Rfc1459 a b = true ->
  shard_for_channel_name n a = shard_for_channel n (casefold Rfc1459 b)
  /\ 0 <= shard_for_channel_name n a < Zpos (shard_count n).
Proof.
  intros Hab%casemap_eq_iff. unfold shard_for_channel_name, shard_for_channel. rewrite Hab.
  split; [done|]. unfold shard_for_folded_channel. apply Z.mod_pos_bound. lia.
Qed.

(** ** Nick reservations: lemmas *)

Lemma claim_spec key owner reg d :
  let free := nick_owner key d = None
              \/ exists o, nick_owner key d = Some o /\ owner_conn o = owner_conn owner in
  (fst (claim key owner reg d) = true <-> free)
  /\ snd (claim key owner reg d) = (if fst (claim key owner reg d) then <[key := MkReservation owner reg]> d else d).
Proof.
  cbn zeta. unfold claim, nick_owner. destruct (d !! key) as [existing|] eqn:E; cbn; [|naive_solver].
  destruct (Z.eqb_spec (owner_conn (res_owner existing)) (owner_conn owner)); naive_solver.
Qed.

Lemma nick_step_kept d key o op :
  nick_owner key d = Some o -> op <> Release key (owner_conn o) ->
  exists o', nick_owner key (snd (nick_step d op)) = Some o' /\ owner_conn o' = owner_conn o.
Proof.
  unfold nick_owner. intros Ho Hop. apply fmap_Some in Ho as (r & Hr & ->).
  assert (forall k r', r' = res_owner r \/ k <> key \/ owner_conn r' = owner_conn (res_owner r) ->
    forall b, exists o', res_owner <$> <[k := MkReservation r' b]> d !! key = Some o'
      /\ owner_conn o' = owner_conn (res_owner r)) as Hins.
  { intros k r' Hc b. destruct (decide (k = key)) as [->|Hne].
    - rewrite lookup_insert_eq. cbn. eexists. split; [done|]. naive_solver.
    - rewrite lookup_insert_ne, Hr by done. cbn. eauto. }
  destruct op as [k owner reg|k conn|k conn]; cbn [nick_step].
  - unfold claim. destruct (d !! k) as [existing|] eqn:Ek; [|].
    + destruct (Z.eqb_spec (owner_conn (res_owner existing)) (owner_conn owner)) as [He|]; cbn [snd].
      * apply Hins. destruct (decide (k = key)) as [->|]; [|by eauto]. right; right. congruence.
      * rewrite Hr. cbn. eauto.
    + cbn [snd]. apply Hins. right; left. intros ->. congruence.
  - unfold release_if_owned. destruct (d !! k) as [existing|] eqn:Ek; [|cbn; rewrite Hr; cbn; eauto].
    destruct (Z.eqb_spec (owner_conn (res_owner existing)) conn) as [He|]; cbn [snd];
      [|rewrite Hr; cbn; eauto].
    destruct (decide (k = key)) as [->|]; [|rewrite lookup_delete_ne, Hr by done; cbn; eauto].
    assert (existing = r) as -> by congruence. by destruct Hop; subst.
  - cbn [snd]. unfold mark_registered. destruct (d !! k) as [existing|] eqn:Ek; [|rewrite Hr; cbn; eauto].
    destruct (Z.eqb_spec (owner_conn (res_owner existing)) conn); [|rewrite Hr; cbn; eauto].
    apply Hins. destruct (decide (k = key)) as [->|]; [|by eauto]. left. congruence.
Qed.

(** A nick has one holder and only its holder gives it up: a claim
    succeeds exactly when the nick is free or held by the claiming connection,
    a claim that fails changes nothing, and once a connection holds a nick no
    sequence of operations of any connection on any nick, other than its own
    release of it, makes another connection its holder or leaves it free. *)
Theorem nick_holder_exclusive d key o :
  nick_owner key d = Some o ->
  (forall owner reg, owner_conn owner <> owner_conn o -> claim key owner reg d = (false, d))
  /\ (forall owner reg, owner_conn owner = owner_conn o ->
       claim key owner reg d = (true, <[key := MkReservation owner reg]> d))
  /\ (forall ops, Forall (fun op => op <> Release key (owner_conn o)) ops ->
       exists o', nick_owner key (snd (runs nick_step d ops)) = Some o' /\ owner_conn o' = owner_conn o).
Proof.
  intros Ho. split_and!.
  - intros owner reg Hne. pose proof (claim_spec key owner reg d) as [Hc Hs]. rewrite Ho in Hc.
    destruct (claim key owner reg d) as [[|] d']; cbn [fst snd] in *; [|by subst].
    destruct (proj1 Hc eq_refl) as [?|(? & [= <-] & ?)]; congruence.
  - intros owner reg He. pose proof (claim_spec key owner reg d) as [Hc Hs].
    destruct (claim key owner reg d) as [b d']; cbn [fst snd] in *.
    assert (b = true) as -> by (apply Hc; eauto). by subst.
  - intros ops Hops. apply (runs_invariant nick_step (fun op => op <> Release key (owner_conn o))
      (fun d => exists o', nick_owner key d = Some o' /\ owner_conn o' = owner_conn o)); [|done|by eauto].
    intros d' op (o' & Ho' & Hc) Hop. rewrite <- Hc in *. by apply (nick_step_kept d' key o').
Qed.

Lemma nick_holder_exclusive_witness :
  let alice := MkOwner 1 0 in let mallory := MkOwner 2 1 in
  let d := snd (claim (bs "alice") alice false ∅) in
  nick_owner (bs "alice") d = Some alice
  /\ exists o, nick_owner (bs "alice")
       (snd (runs nick_step d [Claim (bs "alice") mallory true; Release (bs "alice") 2])) = Some o
     /\ owner_conn o = 1.
Proof.
  intros alice mallory d. split; [reflexivity|].
  apply (nick_holder_exclusive d (bs "alice") alice eq_refl).
  repeat constructor; discriminate.
Defined.

(** ** The throttle: lemmas *)

(** The attempts, newest first, each no later than the window after the next. *)
Fixpoint streak (newest_first : list Z) : Z :=
  match newest_first with
  | [] => 0
  | now :: rest =>
      1 + match rest with
          | [] => 0
          | last :: _ => if now - last <=? MAX_NICK_TIME_MS then streak rest else 0
          end
  end.

Lemma streak_nonneg l : 0 <= streak l.
Proof. induction l as [|x [|y l] IH]; cbn [streak] in *; [lia..|]. destruct (_ <=? _); lia. Qed.

Lemma throttle_step_streak times now :
  throttle_step (MkThrottle (Z.min U32_MAX (streak times)) (head times)) now
  = (MAX_NICK_CHANGES <? streak (now :: times),
     MkThrottle (Z.min U32_MAX (streak (now :: times))) (Some now)).
Proof.
  unfold throttle_step, too_fast, millis_saturating_sub, saturating_sub. cbn [last_change change_count].
  pose proof (streak_nonneg times) as Hn.
  assert (forall c, 0 <= c -> Z.min U32_MAX (Z.min U32_MAX c + 1) = Z.min U32_MAX (1 + c)) as Hmin
    by (intros; lia).
  destruct times as [|last times]; cbn [head]; [reflexivity|].
  replace (MAX_NICK_TIME_MS <? Z.max 0 (now - last)) with (negb (now - last <=? MAX_NICK_TIME_MS)).
  2:{ unfold MAX_NICK_TIME_MS. destruct (Z.leb_spec (now - last) 20000), (Z.ltb_spec 20000 (Z.max 0 (now - last))); lia || done. }
  change (streak (now :: last :: times)) with
    (1 + (if now - last <=? MAX_NICK_TIME_MS then streak (last :: times) else 0)).
  destruct (now - last <=? MAX_NICK_TIME_MS); cbn [negb]; [|reflexivity].
  rewrite Hmin by done. f_equal. unfold MAX_NICK_CHANGES, U32_MAX.
  destruct (Z.ltb_spec 5 (Z.min (2 ^ 32 - 1) (1 + streak (last :: times)))),
    (Z.ltb_spec 5 (1 + streak (last :: times))); lia || done.
Qed.

Lemma throttle_run_streak times :
  snd (runs throttle_step NickChangeThrottle_default times)
  = MkThrottle (Z.min U32_MAX (streak (reverse times))) (head (reverse times)).
Proof.
  assert (forall earlier, snd (runs throttle_step
      (MkThrottle (Z.min U32_MAX (streak earlier)) (head earlier)) times)
    = MkThrottle (Z.min U32_MAX (streak (reverse times ++ earlier))) (head (reverse times ++ earlier))) as H.
  { induction times as [|now times IH]; intros earlier; [done|]. cbn [runs].
    rewrite throttle_step_streak. specialize (IH (now :: earlier)). cbn [head] in IH.
    destruct (runs throttle_step _ times) as [outs t]. cbn [snd] in *. rewrite IH.
    by rewrite reverse_cons, <- app_assoc. }
  specialize (H []). by rewrite app_nil_r in H.
Qed.

(** The nick-change throttle refuses exactly the sixth quick change and
    those after it: an attempt is refused if and only if at least five attempts
    came before it and each of the last five gaps, the one to this attempt
    included, is within the twenty-second window. *)
Theorem too_fast_iff times now :
  fst (too_fast now (snd (runs throttle_step NickChangeThrottle_default times))) = true <->
  exists earlier t5 t4 t3 t2 t1, times = earlier ++ [t5; t4; t3; t2; t1]
    /\ t4 - t5 <= MAX_NICK_TIME_MS /\ t3 - t4 <= MAX_NICK_TIME_MS /\ t2 - t3 <= MAX_NICK_TIME_MS
    /\ t1 - t2 <= MAX_NICK_TIME_MS /\ now - t1 <= MAX_NICK_TIME_MS.
Proof.
  rewrite throttle_run_streak. change (too_fast now ?t) with (throttle_step t now).
  rewrite throttle_step_streak. cbn [fst]. unfold MAX_NICK_CHANGES. rewrite Z.ltb_lt. split.
  - intros H. rewrite <- (reverse_involutive times).
    destruct (reverse times) as [|t1 [|t2 [|t3 [|t4 [|t5 rev]]]]]; cbn [streak] in H;
      repeat match type of H with context [if ?a <=? ?b then _ else _] => destruct (Z.leb_spec a b) end;
      try lia.
    exists (reverse rev), t5, t4, t3, t2, t1. rewrite !reverse_cons, <- !app_assoc. done.
  - intros (earlier & t5 & t4 & t3 & t2 & t1 & -> & ? & ? & ? & ? & ?). rewrite reverse_app.
    change (reverse [t5; t4; t3; t2; t1]) with [t1; t2; t3; t4; t5]. cbn [app].
    pose proof (streak_nonneg (t5 :: reverse earlier)).
    assert (1 <= streak (t5 :: reverse earlier)).
    { cbn. destruct (reverse earlier); [lia|]. destruct (_ <=? _); pose proof (streak_nonneg (z :: l)); cbn in *; lia. }
    change (streak (now :: t1 :: t2 :: t3 :: t4 :: t5 :: reverse earlier)) with
      (1 + (if now - t1 <=? MAX_NICK_TIME_MS then 1 + (if t1 - t2 <=? MAX_NICK_TIME_MS then
        1 + (if t2 - t3 <=? MAX_NICK_TIME_MS then 1 + (if t3 - t4 <=? MAX_NICK_TIME_MS then
        1 + (if t4 - t5 <=? MAX_NICK_TIME_MS then streak (t5 :: reverse earlier) else 0)
        else 0) else 0) else 0) else 0)).
    rewrite !(proj2 (Z.leb_le _ _)) by done. lia.
Qed.

(** ** Protection clocks: lemmas *)

Inductive EnfOp : Type :=
| Deadline (nick : str) (fresh : Z) | Hold (nick : str) | ReleaseHeld | Settle (nick : str).

Definition enf_step (e : NickEnforcement) (op : EnfOp) : option Z * NickEnforcement :=
  match op with
  | Deadline nick fresh => let '(d, e) := deadline nick fresh e in (Some d, e)
  | Hold nick => (None, hold nick e)
  | ReleaseHeld => (None, enf_release e)
  | Settle nick => (None, settle nick e)
  end.

Definition is_settle (op : EnfOp) : bool := match op with Settle _ => true | _ => false end.

Lemma swap_remove_perm {A} (l : list A) i y : l !! i = Some y -> l ≡ₚ y :: swap_remove i l.
Proof.
  intros Hi. pose proof (lookup_lt_Some _ _ _ Hi) as Hlt. unfold swap_remove.
  destruct l as [|x l _] using rev_ind; [done|]. rewrite last_snoc, removelast_last.
  rewrite length_app in *. cbn [length] in *.
  destruct (Nat.eqb_spec (S i) (length l + 1)) as [He|Hne].
  - assert (i = length l) as -> by lia. rewrite lookup_app_r, Nat.sub_diag in Hi by lia.
    injection Hi as <-. by rewrite Permutation_app_comm.
  - rewrite lookup_app_l in Hi by lia. rewrite Permutation_app_comm. cbn [app].
    rewrite insert_take_drop by lia. rewrite <- (take_drop_middle l i y Hi) at 1.
    rewrite <- !Permutation_middle. apply Permutation_swap.
Qed.

Lemma latest_from_lt i best bound l :
  (best < i)%nat -> (latest_from i best bound l < i + length l)%nat.
Proof.
  revert i best bound. induction l as [|[n d] l IH]; intros i best bound Hb; cbn [latest_from length]; [lia|].
  destruct (bound <=? d); [specialize (IH (S i) i d)|specialize (IH (S i) best bound)]; lia.
Qed.

Lemma latest_index_lt l : l <> [] -> (latest_index l < length l)%nat.
Proof.
  destruct l as [|[n d] l]; [done|]. intros _. cbn [latest_index length].
  pose proof (latest_from_lt 1 0 d l). lia.
Qed.

Lemma earliest_le l nick d : (nick, d) ∈ l -> earliest l <= d.
Proof.
  unfold earliest. generalize (default 0 (snd <$> head l)). intros z.
  induction l as [|e l IH]; [by intros ?%elem_of_nil|].
  intros [<-|Hin]%elem_of_cons; cbn; [lia|]. specialize (IH Hin). lia.
Qed.

Lemma find_deadline_Some nick l d : find_deadline nick l = Some d -> (nick, d) ∈ l.
Proof.
  unfold find_deadline. destruct (List.filter _ l) as [|[n d'] t] eqn:E; [done|]. cbn. intros [= ->].
  assert ((n, d) ∈ List.filter (fun e => str_eqb e.1 nick) l) as [Hin Hn]%elem_of_Lfilter by (rewrite E; left).
  cbn in Hn. apply bool_decide_eq_true in Hn. by subst.
Qed.

Lemma find_deadline_None nick l d : find_deadline nick l = None -> (nick, d) ∉ l.
Proof.
  unfold find_deadline. destruct (List.filter _ l) as [|[n d'] t] eqn:E; [|done]. intros _ Hin.
  assert ((nick, d) ∈ List.filter (fun e => str_eqb e.1 nick) l) as Hf.
  { apply elem_of_Lfilter. split; [done|]. apply str_eqb_refl. }
  rewrite E in Hf. by apply elem_of_nil in Hf.
Qed.

(** What [deadline] keeps when it starts a clock. *)
Definition kept_clocks (l : list (str * Z)) : list (str * Z) :=
  if (TRACKED <=? length l)%nat then swap_remove (latest_index l) l else l.

Lemma kept_clocks_spec l :
  (exists dropped, dropped ++ kept_clocks l ≡ₚ l /\ (length dropped <= 1)%nat)
  /\ (length l <= TRACKED -> length (kept_clocks l) < TRACKED)%nat
  /\ (TRACKED <= length l -> length (kept_clocks l) = length l - 1)%nat.
Proof.
  unfold kept_clocks. destruct (Nat.leb_spec TRACKED (length l)) as [Hf|Hf].
  - destruct (lookup_lt_is_Some_2 l (latest_index l)) as [y Hy].
    { apply latest_index_lt. intros ->. unfold TRACKED in Hf. cbn in Hf. lia. }
    pose proof (swap_remove_perm l _ y Hy) as Hp.
    pose proof (Permutation_length Hp) as Hl. cbn in Hl. split_and!; [|lia..].
    exists [y]. split; [by symmetry|done].
  - split_and!; [|lia..]. exists []. split; [done|cbn; lia].
Qed.

(** At most [TRACKED] clocks, one per nick. *)
Record clocks_ok (e : NickEnforcement) : Prop := {
  clocks_bounded : (length (deadlines e) <= TRACKED)%nat;
  clocks_nodup : NoDup (deadlines e).*1;
}.

Lemma clocks_functional e nick d d' :
  clocks_ok e -> (nick, d) ∈ deadlines e -> (nick, d') ∈ deadlines e -> d = d'.
Proof.
  intros [_ Hnd] H1 H2. induction (deadlines e) as [|[n x] l IH]; [by apply elem_of_nil in H1|].
  cbn in Hnd. apply NoDup_cons in Hnd as [Hn Hnd].
  assert (forall y, (n, y) ∉ l) as Hno. { intros y Hy. apply Hn. apply list_elem_of_fmap. by exists (n, y). }
  apply elem_of_cons in H1, H2. destruct H1 as [H1|H1], H2 as [H2|H2]; simplify_eq; try done.
  - by apply Hno in H2.
  - by apply Hno in H1.
  - by apply IH.
Qed.

Lemma deadline_new nick fresh e :
  find_deadline nick (deadlines e) = None ->
  deadline nick fresh e =
    (let d := if (TRACKED <=? length (deadlines e))%nat then Z.min fresh (earliest (deadlines e)) else fresh in
     (d, MkEnforcement (enf_held e) (kept_clocks (deadlines e) ++ [(nick, d)]))).
Proof. intros Hn. unfold deadline, kept_clocks. by rewrite Hn. Qed.

Lemma clocks_ok_step e op : clocks_ok e -> clocks_ok (snd (enf_step e op)).
Proof.
  intros Hok. pose proof Hok as [Hb Hnd]. destruct op as [nick fresh|nick| |nick]; cbn [enf_step]; try done.
  - destruct (find_deadline nick (deadlines e)) as [d|] eqn:E.
    + unfold deadline. by rewrite E.
    + rewrite (deadline_new nick fresh e E). cbn [snd].
      destruct (kept_clocks_spec (deadlines e)) as ((dropped & Hp & _) & Hlt & _).
      split; cbn [deadlines].
      * rewrite length_app. cbn. specialize (Hlt Hb). lia.
      * rewrite fmap_app. apply NoDup_app. split_and!; [| |apply NoDup_singleton].
        -- rewrite <- Hp, fmap_app in Hnd. by apply NoDup_app in Hnd as (_ & _ & ?).
        -- intros n Hn ->%list_elem_of_singleton. cbn in Hn.
           apply list_elem_of_fmap in Hn as ([n' d'] & -> & Hin). cbn in *.
           apply (find_deadline_None _ _ d' E). rewrite <- Hp. apply elem_of_app. by right.
  - cbn [snd]. split; cbn [settle deadlines].
    + etrans; [apply List.filter_length_le|done].
    + revert Hnd. clear. induction (deadlines e) as [|x l IH]; [done|]. cbn.
      intros [Hx Hnd]%NoDup_cons. specialize (IH Hnd). destruct (negb _); [|done]. cbn.
      apply NoDup_cons. split; [|done]. intros Hin. apply Hx.
      apply list_elem_of_fmap in Hin as (y & -> & [Hy _]%elem_of_Lfilter). by apply list_elem_of_fmap_2.
Qed.

(** The clock of [nick] was due at [d]: it still runs no later, or it was
    dropped while the list was full and a kept clock is due no later. *)
Record clock_bound (nick : str) (d : Z) (e : NickEnforcement) : Prop := {
  bound_ok : clocks_ok e;
  bound_kept : forall d', (nick, d') ∈ deadlines e -> d' <= d;
  bound_full : find_deadline nick (deadlines e) = None ->
    (TRACKED <= length (deadlines e))%nat /\ earliest (deadlines e) <= d;
}.

Lemma clock_bound_step nick d e op :
  is_settle op = false -> clock_bound nick d e -> clock_bound nick d (snd (enf_step e op)).
Proof.
  intros Hs [Hok Hk Hf]. pose proof (clocks_ok_step e op Hok) as Hok'.
  destruct op as [n fresh|n| |n]; cbn [enf_step] in *; try done.
  destruct (find_deadline n (deadlines e)) as [x|] eqn:E; [by unfold deadline in *; rewrite E in *|].
  rewrite (deadline_new n fresh e E) in *. cbn [snd] in *.
  set (d0 := if (TRACKED <=? length (deadlines e))%nat then _ else fresh) in *.
  assert (TRACKED <= length (deadlines e) -> (d0 <= earliest (deadlines e))%Z)%nat as Hd0.
  { intros Hl. unfold d0. rewrite (proj2 (Nat.leb_le _ _) Hl). lia. }
  clearbody d0. split; [done|..]; cbn [deadlines].
  all: destruct (kept_clocks_spec (deadlines e)) as ((dropped & Hp & _) & _ & Hlen).
  - intros d' [Hin|[= -> ->]]%elem_of_snoc; [apply Hk; rewrite <- Hp; apply elem_of_app; by right|].
    destruct (Hf E) as [Hl He]. specialize (Hd0 Hl). lia.
  - intros Hno. assert (TRACKED <= length (deadlines e))%nat as Hl.
    { destruct (decide (TRACKED <= length (deadlines e))%nat) as [|Hn]; [done|]. exfalso.
      destruct (find_deadline nick (deadlines e)) as [y|] eqn:Ey; [|by destruct (Hf eq_refl)].
      apply find_deadline_Some in Ey. apply (find_deadline_None _ _ y Hno).
      unfold kept_clocks. rewrite (proj2 (Nat.leb_gt _ _)) by lia. apply elem_of_app. by left. }
    rewrite length_app. cbn [length]. split; [specialize (Hlen Hl); lia|].
    etrans; [apply (earliest_le _ n); apply elem_of_snoc; right; reflexivity|].
    specialize (Hd0 Hl). destruct (find_deadline nick (deadlines e)) as [y|] eqn:Ey.
    + apply find_deadline_Some in Ey. pose proof (earliest_le _ _ _ Ey). specialize (Hk _ Ey). lia.
    + destruct (Hf eq_refl). lia.
Qed.

(** A protection clock never restarts: whatever the session did before, the
    deadline a protected nick is given bounds every later one -- however many
    other protected nicks the session cycles through, until it identifies, the
    nick's next deadline is no later, whatever fresh deadline is offered --
    and the session never tracks more than eight clocks, one per nick. *)
Theorem protection_clock_never_restarts ops nick fresh later fresh' :
  forallb (fun op => negb (is_settle op)) later = true ->
  let e := snd (runs enf_step NickEnforcement_default ops) in
  let '(d, e1) := deadline nick fresh e in
  let e2 := snd (runs enf_step e1 later) in
  fst (deadline nick fresh' e2) <= d
  /\ (length (clocked e2) <= TRACKED)%nat /\ NoDup (clocked e2).
Proof.
  intros Hlater e. assert (clocks_ok e) as Hok.
  { apply (runs_invariant enf_step (fun _ => True) clocks_ok); [intros; by apply clocks_ok_step|by apply Forall_true|].
    split; cbn; [lia|constructor]. }
  pose proof (clocks_ok_step e (Deadline nick fresh) Hok) as Hok1. cbn [enf_step] in Hok1.
  destruct (deadline nick fresh e) as [d e1] eqn:Ed. cbn [snd] in Hok1.
  assert ((nick, d) ∈ deadlines e1) as Hin.
  { destruct (find_deadline nick (deadlines e)) as [y|] eqn:E.
    - unfold deadline in Ed. rewrite E in Ed. injection Ed as <- <-. by apply find_deadline_Some.
    - rewrite (deadline_new nick fresh e E) in Ed. injection Ed as <- <-. cbn. apply elem_of_snoc. by right. }
  assert (clock_bound nick d (snd (runs enf_step e1 later))) as Hb.
  { apply (runs_invariant enf_step (fun op => is_settle op = false) (clock_bound nick d)).
    - intros; by apply clock_bound_step.
    - apply forallb_true_iff in Hlater. eapply Forall_impl; [exact Hlater|]. intros op. apply negb_true_iff.
    - split; [done|..].
      + intros d' Hd'. by rewrite (clocks_functional e1 nick d' d).
      + intros Hno. by apply (find_deadline_None _ _ d) in Hno. }
  intros e2. destruct Hb as [[Hlen Hnd] Hk Hf]. fold e2 in Hk, Hf, Hlen, Hnd. split_and!; [|by unfold clocked; rewrite length_fmap|done].
  destruct (find_deadline nick (deadlines e2)) as [y|] eqn:E.
  - unfold deadline. rewrite E. cbn. by apply Hk, find_deadline_Some.
  - rewrite (deadline_new nick fresh' e2 E). cbn [fst]. destruct (Hf eq_refl) as [Hl ?].
    rewrite (proj2 (Nat.leb_le _ _) Hl). lia.
Qed.

(** Nine protected nicks held in turn, and back to the first. *)
Lemma protection_clock_never_restarts_witness :
  let later := (fun i => Deadline [u8 (97 + i)] (60000 + i)) <$> seqZ 0 9 in
  let e1 := snd (deadline (bs "victim") 60000 NickEnforcement_default) in
  forallb (fun op => negb (is_settle op)) later = true
  /\ fst (deadline (bs "victim") 99999 (snd (runs enf_step e1 later))) <= 60000.
Proof.
  intros later e1. split; [reflexivity|].
  exact (proj1 (protection_clock_never_restarts [] (bs "victim") 60000 later 99999 eq_refl)).
Defined.
