(* ===== verification/Ip.v ===== *)
(** * Addresses

    The part of Rust's [std::net] the server uses on addresses -- parsing,
    printing, the IPv4-mapped canonical form -- and the address rules of
    [e6irc-edge/src/address.rs] built on it: the canonical client address, the
    key per-address limits are charged to, the canonical form of an operator's
    range, and the per-address connection cap. *)

From S2P Require Import Prelude Str Num Wire Keys.
From stdpp Require Import gmap.

Local Open Scope Z_scope.

(** ** [std::net] *)

#[global] Instance ip_eq_dec : EqDecision IpAddr.
Proof. solve_decision. Defined.

#[global] Program Instance ip_countable : Countable IpAddr :=
  inj_countable' (fun a => match a with V4 o => (true, o) | V6 o => (false, o) end)
    (fun '(v4, o) => if v4 : bool then V4 o else V6 o) _.
Next Obligation. by intros []. Qed.

Definition parser (A : Type) : Type := str -> option (A * str).

Definition read_given_char (c : byte) : parser () := fun s =>
  match s with b :: rest => if b =b? c then Some ((), rest) else None | [] => None end.

(** [char::to_digit]. *)
Definition to_digit (radix : Z) (b : byte) : option Z :=
  let d := if is_ascii_digit b then bz b - 48
           else if in_range "a" "z" b then bz b - 87
           else if in_range "A" "Z" b then bz b - 55
           else radix in
  if d <? radix then Some d else None.

Fixpoint read_digits (radix : Z) (s : str) : list Z * str :=
  match s with
  | [] => ([], [])
  | b :: rest =>
      match to_digit radix b with
      | Some d => let '(ds, rest) := read_digits radix rest in (d :: ds, rest)
      | None => ([], s)
      end
  end.

(** Up to [max_digits] digits, no more, of a value at most [limit]. *)
Definition read_number (radix : Z) (max_digits : nat) (allow_zero_prefix : bool) (limit : Z) : parser Z := fun s =>
  let '(ds, rest) := read_digits radix s in
  let value := foldl (fun acc d => acc * radix + d) 0 ds in
  if is_empty ds || (max_digits <? length ds)%nat
     || (negb allow_zero_prefix && starts_with "0" s && (1 <? length ds)%nat)
     || (limit <? value)
  then None else Some (value, rest).

Definition read_separator {A} (sep : byte) (index : nat) (inner : parser A) : parser A := fun s =>
  match index with
  | O => inner s
  | S _ => '(_, s) ← read_given_char sep s; inner s
  end.

Definition read_octet (index : nat) : parser Z := read_separator "." index (read_number 10 3 false 255).

Definition read_ipv4_addr : parser str := fun s =>
  '(a, s) ← read_octet 0 s; '(b, s) ← read_octet 1 s;
  '(c, s) ← read_octet 2 s; '(d, s) ← read_octet 3 s;
  Some ([u8 a; u8 b; u8 c; u8 d], s).

(** Groups [i] up to [limit], stopping at an embedded IPv4 address (told by the
    flag) or where no group follows. *)
Fixpoint read_groups (limit i : nat) (s : str) : list Z * bool * str :=
  match limit with
  | O => ([], false, s)
  | S limit' =>
      match (if (0 <? limit')%nat then read_separator ":" i read_ipv4_addr s else None) with
      | Some ([a; b; c; d], s) => ([bz a * 256 + bz b; bz c * 256 + bz d], true, s)
      | _ =>
          match read_separator ":" i (read_number 16 4 true 65535) s with
          | Some (g, s) => let '(gs, v4, s) := read_groups limit' (S i) s in (g :: gs, v4, s)
          | None => ([], false, s)
          end
      end
  end.

Definition octets_of (groups : list Z) : str := concat (map (be 2) groups).

Definition read_ipv6_addr : parser str := fun s =>
  let '(head, head_ipv4, s) := read_groups 8 0 s in
  if (length head =? 8)%nat then Some (octets_of head, s)
  else if head_ipv4 then None
  else
    '(_, s) ← read_given_char ":" s; '(_, s) ← read_given_char ":" s;
    let '(tail, _, s) := read_groups (8 - (length head + 1)) 0 s in
    Some (octets_of (head ++ repeat 0 (8 - length head - length tail) ++ tail), s).

(** [s.parse::<IpAddr>().ok()]. *)
Definition ip_parse (s : str) : option IpAddr :=
  match read_ipv4_addr s with
  | Some (o, []) => Some (V4 o)
  | Some (_, _ :: _) => None
  | None => match read_ipv6_addr s with Some (o, []) => Some (V6 o) | _ => None end
  end.

Definition hex_digit_lower (z : Z) : byte := u8 (if z <? 10 then 48 + z else 87 + z).

(** [{:x}] of a 16-bit group. *)
Definition hex_group (z : Z) : str :=
  let digits := [z / 4096; z / 256 mod 16; z / 16 mod 16; z mod 16] in
  match trim_start_matches "0" (map hex_digit_lower digits) with [] => bs "0" | s => s end.

Fixpoint groups_of (octets : str) : list Z :=
  match octets with a :: b :: rest => (bz a * 256 + bz b) :: groups_of rest | _ => [] end.

(** The first of the longest runs of zero groups, as its start and length. *)
Fixpoint longest_zeros (i : nat) (current longest : nat * nat) (groups : list Z) : nat * nat :=
  match groups with
  | [] => longest
  | g :: groups =>
      if g =? 0 then
        let current := if (current.2 =? 0)%nat then (i, 1%nat) else (current.1, S current.2) in
        longest_zeros (S i) current (if (longest.2 <? current.2)%nat then current else longest) groups
      else longest_zeros (S i) (0%nat, 0%nat) longest groups
  end.

Definition show_v4 (octets : str) : str := Str.join "."%byte (map (fun b => dec (bz b)) octets).
Definition show_groups (groups : list Z) : str := Str.join ":"%byte (map hex_group groups).

Definition to_ipv4_mapped (octets : str) : option str :=
  if bool_decide (take 12 octets = repeat x00 10 ++ [xff; xff]) then Some (drop 12 octets) else None.

(** [address.to_string()]. *)
Definition ip_show (a : IpAddr) : str :=
  match a with
  | V4 o => show_v4 o
  | V6 o =>
      match to_ipv4_mapped o with
      | Some v4 => bs "::ffff:" ++ show_v4 v4
      | None =>
          let groups := groups_of o in
          let '(start, len) := longest_zeros 0 (0%nat, 0%nat) (0%nat, 0%nat) groups in
          if (1 <? len)%nat
          then show_groups (take start groups) ++ bs "::" ++ show_groups (drop (start + len) groups)
          else show_groups groups
      end
  end.

(** [address.to_canonical()]. *)
Definition to_canonical (a : IpAddr) : IpAddr :=
  match a with
  | V4 _ => a
  | V6 o => match to_ipv4_mapped o with Some v4 => V4 v4 | None => a end
  end.

Example ip_parse_v4 : ip_parse (bs "203.0.113.9") = Some (V4 [xcb; x00; x71; x09]).
Proof. reflexivity. Qed.
Example ip_parse_refused :
  map ip_parse [bs "203.0.113.09"; bs "256.0.0.1"; bs "1.2.3"; bs "1.2.3.4.5"; bs ""; bs "user"; bs "::1::"]
  = repeat None 7.
Proof. reflexivity. Qed.
Example ip_parse_v6 :
  (ip_show <$> ip_parse (bs "2001:DB8:0::5")) = Some (bs "2001:db8::5")
  /\ (ip_show <$> ip_parse (bs "::ffff:203.0.113.9")) = Some (bs "::ffff:203.0.113.9")
  /\ (ip_show <$> ip_parse (bs "::")) = Some (bs "::")
  /\ (ip_show <$> ip_parse (bs "1:0:0:2:0:0:0:3")) = Some (bs "1:0:0:2::3").
Proof. by vm_compute. Qed.
