(* ===== verification/Address.v ===== *)
(** * Who a client is ([e6irc-edge/src/address.rs])

    The canonical client address, the key per-address limits charge, the
    canonical form of an operator's address range, the per-address connection
    cap with its guards, and the summarised refusal log.  Address ranges are
    the [ipnet] crate's: a class of operations with the documented meaning of a
    prefix as its laws. *)

From S2P Require Import Prelude Str Num Wire Keys Ip.
From stdpp Require Import gmap.

Local Open Scope Z_scope.

(** ** Address ranges: the [ipnet] crate *)

Definition bits_of_byte (b : byte) : list bool := Z.testbit (bz b) <$> [7; 6; 5; 4; 3; 2; 1; 0].
Definition bits (octets : str) : list bool := mjoin (bits_of_byte <$> octets).

(** Two addresses of one family agree on a prefix. *)
Definition same_prefix (p : Z) (a b : str) : bool :=
  bool_decide (take (Z.to_nat p) (bits a) = take (Z.to_nat p) (bits b)).

Class IpNet : Type := {
  Net : Type;
  (** [s.parse::<IpNet>().ok()] *)
  net_parse : str -> option Net;
  (** [IpNet::contains] *)
  net_contains : Net -> IpAddr -> bool;
  (** [IpNet::from(IpAddr)] *)
  net_from : IpAddr -> Net;
  (** the address and prefix of an [IpNet::V6] *)
  net_as_v6 : Net -> option (str * Z);
  (** [Ipv4Net::new] *)
  net_v4 : str -> Z -> option Net;
}.

(** What the crate documents of them. *)
Class IpNetLaws `{IpNet} : Prop := {
  contains_from : forall a b, ip_typed a -> ip_typed b -> net_contains (net_from a) b = bool_decide (a = b);
  contains_v6 : forall net addr p o,
    net_as_v6 net = Some (addr, p) -> net_contains net (V6 o) = same_prefix p addr o;
  v6_typed : forall net addr p, net_as_v6 net = Some (addr, p) -> length addr = 16%nat /\ 0 <= p <= 128;
  v4_new : forall o p, is_Some (net_v4 o p) <-> 0 <= p <= 32;
  contains_v4 : forall o p net o', net_v4 o p = Some net -> net_contains net (V4 o') = same_prefix p o o';
}.

(** ** The client's address *)

Definition ClientIp_new (address : IpAddr) : IpAddr := to_canonical address.

Definition IPV6_PREFIX_BITS : Z := 64.

(** [u128::MAX << (128 - IPV6_PREFIX_BITS)], on 128 bits. *)
Definition limit_mask : Z := Z.shiftl (2 ^ 128 - 1) (128 - IPV6_PREFIX_BITS) mod 2 ^ 128.

Definition PeerLimitKey_of (address : IpAddr) : IpAddr :=
  match to_canonical address with
  | V4 o => V4 o
  | V6 o => V6 (be 16 (Z.land (be_value o) limit_mask))
  end.

Inductive SessionLimitKey : Type := LimitAddress (key : IpAddr) | LimitInProcess (host : str).

Definition for_session_host (host : str) : SessionLimitKey :=
  match ip_parse host with
  | Some address => LimitAddress (PeerLimitKey_of address)
  | None => LimitInProcess host
  end.

Section Networks.
Context `{IpNetLaws}.

Definition canonical_network (net : Net) : option Net :=
  match net_as_v6 net with
  | None => Some net
  | Some (addr, prefix) =>
      match to_ipv4_mapped addr with
      | None => Some net
      | Some v4 => if prefix <? 96 then None else net_v4 v4 (prefix - 96)
      end
  end.

Definition trusted_contains (networks : list Net) (peer : IpAddr) : bool :=
  existsb (fun network => net_contains network (ClientIp_new peer)) networks.
End Networks.

(** ** The connection cap *)

Record LimiterState : Type := MkLimiter { counts : gmap IpAddr Z; max_per_ip : option Z }.

Definition ConnLimiter_new (max : option Z) : LimiterState := MkLimiter ∅ max.
Definition set_max (max : option Z) (l : LimiterState) : LimiterState := MkLimiter (counts l) max.

(** [Some] key is the guard; the count's entry is made either way. *)
Definition try_acquire (client : IpAddr) (l : LimiterState) : option IpAddr * LimiterState :=
  let ip := PeerLimitKey_of client in
  let count := default 0 (counts l !! ip) in
  if match max_per_ip l with Some max => max <=? count | None => false end
  then (None, MkLimiter (<[ip := count]> (counts l)) (max_per_ip l))
  else (Some ip, MkLimiter (<[ip := count + 1]> (counts l)) (max_per_ip l)).

Definition limiter_release (ip : IpAddr) (l : LimiterState) : LimiterState :=
  match counts l !! ip with
  | None => l
  | Some c =>
      MkLimiter (if c - 1 =? 0 then delete ip (counts l) else <[ip := c - 1]> (counts l)) (max_per_ip l)
  end.

(** A connection holds its guard until it ends; the guards alive are kept
    beside the limiter, and dropping one releases its slot. *)
Inductive LimiterOp : Type :=
| Acquire (client : IpAddr) | DropGuard (index : nat) | SetMax (max : option Z).

Record LimiterSystem : Type := MkSystem { limiter : LimiterState; guards : list IpAddr }.

Definition limiter_step (s : LimiterSystem) (op : LimiterOp) : bool * LimiterSystem :=
  match op with
  | Acquire client =>
      match try_acquire client (limiter s) with
      | (Some ip, l) => (true, MkSystem l (ip :: guards s))
      | (None, l) => (false, MkSystem l (guards s))
      end
  | DropGuard index =>
      match guards s !! index with
      | Some ip => (true, MkSystem (limiter_release ip (limiter s)) (delete index (guards s)))
      | None => (false, s)
      end
  | SetMax max => (true, MkSystem (set_max max (limiter s)) (guards s))
  end.

(** ** The refusal log *)

Definition PEER_REFUSAL_LOG_CAPACITY : nat := Z.to_nat 4096.

Inductive PeerRefusal : Type :=
| PerIpLimit | ConnectionIdExhausted | SocketSetup | TlsHandshakeFailed | TlsHandshakeTimedOut
| HttpHeaderTimedOut | UnusableForwardedFor | ProxyHeader.

#[global] Instance refusal_eq_dec : EqDecision PeerRefusal.
Proof. solve_decision. Defined.
Definition refusal_tag (r : PeerRefusal) : Z :=
  match r with
  | PerIpLimit => 0 | ConnectionIdExhausted => 1 | SocketSetup => 2 | TlsHandshakeFailed => 3
  | TlsHandshakeTimedOut => 4 | HttpHeaderTimedOut => 5 | UnusableForwardedFor => 6 | ProxyHeader => 7
  end.
#[global] Program Instance refusal_countable : Countable PeerRefusal :=
  inj_countable refusal_tag (fun z => nth_error
    [PerIpLimit; ConnectionIdExhausted; SocketSetup; TlsHandshakeFailed; TlsHandshakeTimedOut;
     HttpHeaderTimedOut; UnusableForwardedFor; ProxyHeader] (Z.to_nat z)) _.
Next Obligation. by intros []. Qed.

Record PeerRefusalWindow : Type := MkWindow { last_logged : Z; suppressed : Z }.
Record PeerRefusalLog : Type := MkRefusalLog {
  log_window : Z;
  log_entries : gmap (IpAddr * PeerRefusal) PeerRefusalWindow;
}.

Definition PeerRefusalLog_new (window : Z) : PeerRefusalLog := MkRefusalLog window ∅.

(** [duration_since] saturates at zero. *)
Definition duration_since (now earlier : Z) : Z := Z.max 0 (now - earlier).

(** [Some n]: a line is logged, standing for [n] suppressed ones; the line's
    text is left out. *)
Definition line_at (now : Z) (peer : IpAddr) (refusal : PeerRefusal) (log : PeerRefusalLog)
    : option Z * PeerRefusalLog :=
  let window := log_window log in
  match log_entries log !! (peer, refusal) with
  | Some entry =>
      if duration_since now (last_logged entry) <? window
      then (None, MkRefusalLog window
              (<[(peer, refusal) := MkWindow (last_logged entry) (suppressed entry + 1)]> (log_entries log)))
      else (Some (suppressed entry),
            MkRefusalLog window (<[(peer, refusal) := MkWindow now 0]> (log_entries log)))
  | None =>
      let entries := log_entries log in
      let entries :=
        if (PEER_REFUSAL_LOG_CAPACITY <=? size entries)%nat
        then filter (fun e => duration_since now (last_logged e.2) < window) entries
        else entries in
      let entries :=
        if (size entries <? PEER_REFUSAL_LOG_CAPACITY)%nat
        then <[(peer, refusal) := MkWindow now 0]> entries else entries in
      (Some 0, MkRefusalLog window entries)
  end.

(** ** Lemmas: ranges *)

Definition MAPPED_PREFIX : str := repeat x00 10 ++ [xff; xff].
(** The IPv4-mapped IPv6 address of an IPv4 one. *)
Definition mapped (o : str) : str := MAPPED_PREFIX ++ o.

Lemma bits_app a b : bits (a ++ b) = bits a ++ bits b.
Proof. unfold bits. by rewrite fmap_app, join_app. Qed.

Lemma to_ipv4_mapped_Some o v4 : to_ipv4_mapped o = Some v4 <-> take 12 o = MAPPED_PREFIX /\ v4 = drop 12 o.
Proof. unfold to_ipv4_mapped, MAPPED_PREFIX. case_bool_decide; naive_solver. Qed.

Lemma to_ipv4_mapped_mapped o : to_ipv4_mapped (mapped o) = Some o.
Proof. by apply to_ipv4_mapped_Some. Qed.

Lemma same_prefix_mapped p a b :
  96 <= p -> same_prefix p (mapped a) (mapped b) = same_prefix (p - 96) a b.
Proof.
  intros Hp. unfold same_prefix, mapped. rewrite !bits_app.
  replace (Z.to_nat p) with (length (bits MAPPED_PREFIX) + Z.to_nat (p - 96))%nat
    by (change (length (bits MAPPED_PREFIX)) with 96%nat; lia).
  rewrite !take_app_add. apply bool_decide_ext. split; [apply app_inv_head|by intros ->].
Qed.

Section NetworkLemmas.
Context `{IpNetLaws}.

(** An operator's range matches clients in the spelling they are matched
    in: an IPv4-mapped range is stored as the IPv4 range that contains exactly
    the addresses whose mapped form it contained, one shorter than [/96] is
    refused, and any other range is kept as it is. *)
Theorem canonical_network_matches net :
  match net_as_v6 net with
  | Some (addr, prefix) =>
      match to_ipv4_mapped addr with
      | Some _ =>
          (canonical_network net = None <-> prefix < 96)
          /\ (forall net' o, canonical_network net = Some net' ->
               net_contains net' (V4 o) = net_contains net (V6 (mapped o)))
      | None => canonical_network net = Some net
      end
  | None => canonical_network net = Some net
  end.
Proof.
  unfold canonical_network. destruct (net_as_v6 net) as [[addr prefix]|] eqn:E; [|done].
  destruct (to_ipv4_mapped addr) as [v4|] eqn:Em; [|done].
  destruct (v6_typed net addr prefix E) as [Hlen Hp].
  apply to_ipv4_mapped_Some in Em as [Htake ->]. split.
  - destruct (Z.ltb_spec prefix 96); [done|]. split; [|lia]. intros Hn.
    assert (is_Some (net_v4 (drop 12 addr) (prefix - 96))) as [? ?] by (apply v4_new; lia). congruence.
  - intros net' o. destruct (Z.ltb_spec prefix 96); [done|]. intros Hn.
    rewrite (contains_v4 _ _ _ _ Hn), (contains_v6 _ _ _ _ E).
    rewrite <- (take_drop 12 addr) at 2. rewrite Htake. by rewrite <- same_prefix_mapped.
Qed.
End NetworkLemmas.

(** *** A concrete range type

    An implementation of the interface, which shows its laws can be met. *)

Inductive PlainNet : Type := Net4 (o : str) (p : Z) | Net6 (o : str) (p : Z).

Definition plain_net (a : IpAddr) (p : Z) : option PlainNet :=
  match a with
  | V4 o => if p <=? 32 then Some (Net4 o p) else None
  | V6 o => if p <=? 128 then Some (Net6 o p) else None
  end.

#[local] Instance PlainIpNet : IpNet := {|
  Net := PlainNet;
  net_parse s :=
    '(a, p) ← split_once "/" s; a ← ip_parse a; p ← parse_uint 255 p; plain_net a p;
  net_contains net a :=
    match net, a with
    | Net4 o p, V4 o' => same_prefix p o o'
    | Net6 o p, V6 o' => same_prefix p o o'
    | _, _ => false
    end;
  net_from a := match a with V4 o => Net4 o 32 | V6 o => Net6 o 128 end;
  net_as_v6 net :=
    match net with
    | Net6 o p => if (length o =? 16)%nat && (0 <=? p) && (p <=? 128) then Some (o, p) else None
    | Net4 _ _ => None
    end;
  net_v4 o p := if (0 <=? p) && (p <=? 32) then Some (Net4 o p) else None;
|}.

Definition byte_of_bits (l : list bool) : byte :=
  u8 (foldl (fun acc b => acc * 2 + (if b : bool then 1 else 0)) 0 l).

Lemma byte_of_bits_of_byte b : byte_of_bits (bits_of_byte b) = b.
Proof. by byte_cases b. Qed.

Lemma bits_length o : length (bits o) = (8 * length o)%nat.
Proof. induction o as [|b o IH]; [done|]. change (bits (b :: o)) with (bits_of_byte b ++ bits o). rewrite length_app, IH. cbn. lia. Qed.

Lemma bits_inj a b : bits a = bits b -> a = b.
Proof.
  revert b. induction a as [|x a IH]; intros [|y b] Hab; [done|by apply (f_equal length) in Hab..|].
  change (bits_of_byte x ++ bits a = bits_of_byte y ++ bits b) in Hab.
  apply app_inj_1 in Hab as [Hx Ha]; [|done]. f_equal; [|by apply IH].
  by rewrite <- (byte_of_bits_of_byte x), Hx, byte_of_bits_of_byte.
Qed.

Lemma same_prefix_all n a b :
  length a = n -> length b = n -> same_prefix (8 * Z.of_nat n) a b = bool_decide (a = b).
Proof.
  intros Ha Hb. unfold same_prefix.
  rewrite !take_ge by (rewrite bits_length; lia).
  apply bool_decide_ext. split; [apply bits_inj|by intros ->].
Qed.

#[local] Instance PlainIpNetLaws : IpNetLaws.
Proof.
  split; cbn.
  - intros [o|o] [o'|o'] Ha Hb; cbn in *.
    + rewrite (same_prefix_all 4) by done. apply bool_decide_ext. naive_solver.
    + by rewrite bool_decide_false.
    + by rewrite bool_decide_false.
    + rewrite (same_prefix_all 16) by done. apply bool_decide_ext. naive_solver.
  - intros [o p|o p] addr q o'; [done|]. case_match; naive_solver.
  - intros [o p|o p] addr q; [done|]. case_match eqn:E; [|done]. intros [= <- <-]. bool_to_prop. done.
  - intros o p. case_match eqn:E; bool_to_prop; [split; [lia|by eauto]|]. split; [by intros []|].
    intros ?. apply andb_false_iff in E. bool_to_prop. destruct E; bool_to_prop; lia.
  - intros o p net o'. case_match; naive_solver.
Qed.

(** [::ffff:203.0.113.0/120] is [203.0.113.0/24], which contains 203.0.113.9. *)
Lemma canonical_network_matches_witness :
  let net := Net6 (mapped [xcb; x00; x71; x00]) 120 in
  canonical_network (net : Net) = Some (Net4 [xcb; x00; x71; x00] 24)
  /\ net_contains (Net4 [xcb; x00; x71; x00] 24 : Net) (V4 [xcb; x00; x71; x09])
     = net_contains (net : Net) (V6 (mapped [xcb; x00; x71; x09])).
Proof.
  intros net. split; [reflexivity|].
  pose proof (canonical_network_matches (net : Net)) as H. cbn in H.
  exact (proj2 H (Net4 [xcb; x00; x71; x00] 24) [xcb; x00; x71; x09] eq_refl).
Defined.

(** ** Lemmas: the limit key *)

Lemma be_value_app a b : be_value (a ++ b) = be_value a * 256 ^ slen b + be_value b.
Proof.
  induction b as [|x b IH] using rev_ind.
  - rewrite app_nil_r. change (slen []) with 0. change (be_value []) with 0. lia.
  - rewrite app_assoc, !be_value_snoc, IH, slen_app, Z.pow_add_r by apply slen_nonneg.
    change (slen [x]) with 1. lia.
Qed.

Lemma land_limit_mask hi lo :
  0 <= hi < 2 ^ 64 -> 0 <= lo < 2 ^ 64 -> Z.land (hi * 2 ^ 64 + lo) limit_mask = hi * 2 ^ 64.
Proof.
  intros Hhi Hlo. change limit_mask with (Z.shiftl (Z.ones 64) 64).
  rewrite <- lor_shiftl_add by lia. rewrite Z.land_lor_distr_l, <- Z.shiftl_land.
  rewrite Z.land_ones by lia. rewrite Z.mod_small by lia. rewrite Z.shiftl_mul_pow2 by lia.
  assert (Z.land lo (Z.shiftl (Z.ones 64) 64) = 0) as ->; [|by rewrite Z.lor_0_r].
  apply Z.bits_inj'. intros i Hi. rewrite Z.land_spec, Z.bits_0. destruct (Z.ltb_spec i 64).
  - rewrite Z.shiftl_spec_low by done. apply andb_false_r.
  - rewrite <- (Z.mod_small lo (2 ^ 64)) by done. by rewrite Z.mod_pow2_bits_high by lia.
Qed.

Lemma masked_octets o :
  length o = 16%nat -> be 16 (Z.land (be_value o) limit_mask) = take 8 o ++ repeat x00 8.
Proof.
  intros Hlen. rewrite <- (take_drop 8 o) at 1. rewrite be_value_app.
  assert (slen (drop 8 o) = 8) as Hd by (unfold slen; rewrite length_drop; lia). rewrite Hd.
  change (256 ^ 8) with (2 ^ 64).
  pose proof (be_value_range (take 8 o)) as Hhi. pose proof (be_value_range (drop 8 o)) as Hlo.
  assert (slen (take 8 o) = 8) as Ht by (unfold slen; rewrite length_take; lia). rewrite Ht in Hhi. rewrite Hd in Hlo.
  change (256 ^ 8) with (2 ^ 64) in *. rewrite land_limit_mask by done.
  rewrite <- (be_be_value' 16 (take 8 o ++ repeat x00 8)).
  - f_equal. rewrite be_value_app. change (slen (repeat x00 8)) with 8.
    change (be_value (repeat x00 8)) with 0. change (256 ^ 8) with (2 ^ 64). lia.
  - rewrite length_app, length_take. rewrite Hlen. reflexivity.
Qed.

(** A per-address limit counts one client once: two addresses are charged
    to the same key exactly when they are, canonically, one IPv4 address or two
    IPv6 addresses of one [/64] -- so an IPv4 client and its mapped spelling
    share a budget and a whole [/64] does. *)
Theorem limit_key_same a b :
  ip_typed a -> ip_typed b ->
  PeerLimitKey_of a = PeerLimitKey_of b <->
  match to_canonical a, to_canonical b with
  | V4 x, V4 y => x = y
  | V6 x, V6 y => take 8 x = take 8 y
  | _, _ => False
  end.
Proof.
  intros Ha Hb. assert (forall c, ip_typed c -> ip_typed (to_canonical c)) as Hc.
  { intros [o|o] Ho; cbn; [done|]. destruct (to_ipv4_mapped o) as [v4|] eqn:E; [|done].
    apply to_ipv4_mapped_Some in E as [_ ->]. cbn in *. rewrite length_drop. lia. }
  apply Hc in Ha, Hb. unfold PeerLimitKey_of.
  destruct (to_canonical a) as [x|x], (to_canonical b) as [y|y]; cbn in Ha, Hb;
    try rewrite (masked_octets x Ha); try rewrite (masked_octets y Hb); [naive_solver..|].
  split; [|by intros ->]. intros [= ?%app_inv_tail]. done.
Qed.

Lemma limit_key_same_witness :
  let a := V4 [xcb; x00; x71; x09] in let b := V6 (mapped [xcb; x00; x71; x09]) in
  ip_typed a /\ ip_typed b /\ PeerLimitKey_of a = PeerLimitKey_of b.
Proof.
  intros a b. split; [reflexivity|]. split; [reflexivity|].
  apply (limit_key_same a b eq_refl eq_refl). vm_compute. reflexivity.
Defined.

(** ** Lemmas: the connection cap *)

Definition held (key : IpAddr) (l : list IpAddr) : Z :=
  Z.of_nat (length (List.filter (fun k => bool_decide (k = key)) l)).

Definition counted (s : LimiterSystem) : Prop :=
  forall key, default 0 (counts (limiter s) !! key) = held key (guards s).

Lemma held_cons key k l : held key (k :: l) = held key l + (if decide (k = key) then 1 else 0).
Proof.
  unfold held. cbn [List.filter]. case_decide as Hk.
  - rewrite bool_decide_true by done. cbn [length]. lia.
  - rewrite bool_decide_false by done. lia.
Qed.

Lemma held_delete key k i l :
  l !! i = Some k -> held key (delete i l) = held key l - (if decide (k = key) then 1 else 0).
Proof.
  intros Hi. apply delete_Permutation in Hi.
  assert (held key l = held key (k :: delete i l)) as ->.
  { unfold held. f_equal. by apply Permutation_length, Lfilter_Permutation. }
  rewrite held_cons. lia.
Qed.

Lemma held_nonneg key l : 0 <= held key l.
Proof. unfold held. lia. Qed.

Lemma limiter_step_counted s op : counted s -> counted (snd (limiter_step s op)).
Proof.
  intros Hc. destruct op as [client|index|max]; cbn [limiter_step]; [|..|done].
  - unfold try_acquire. destruct (match max_per_ip (limiter s) with Some _ => _ | None => _ end);
      cbn [snd]; intros key; cbn [limiter counts guards]; rewrite ?held_cons;
      (destruct (decide (PeerLimitKey_of client = key)) as [->|]; [rewrite lookup_insert_eq|rewrite lookup_insert_ne by done]);
      cbn [default from_option]; rewrite ?Hc; unfold id; lia.
  - destruct (guards s !! index) as [ip|] eqn:E; [|done]. cbn [snd]. intros key.
    cbn [limiter guards]. rewrite (held_delete key ip index _ E), <- Hc. unfold limiter_release.
    pose proof (held_delete ip ip index _ E) as Hd. rewrite decide_True in Hd by done.
    rewrite <- Hc in Hd. pose proof (held_nonneg ip (delete index (guards s))) as Hn.
    destruct (counts (limiter s) !! ip) as [c|] eqn:Ec; cbn [default from_option] in Hd; unfold id in Hd; [|lia].
    cbn [counts]. destruct (Z.eqb_spec (c - 1) 0); destruct (decide (ip = key)) as [->|];
      rewrite ?lookup_delete_eq, ?lookup_insert_eq, ?lookup_delete_ne, ?lookup_insert_ne, ?Ec by done;
      cbn; unfold id; lia.
Qed.

(** The connection cap counts connections: however connections come, go
    and the cap is changed, a client is admitted exactly when the guards alive
    on its limit key are fewer than the cap; and while the cap is left alone no
    key ever has more guards than it. *)
Theorem conn_limiter_correct max ops client :
  let s := snd (runs limiter_step (MkSystem (ConnLimiter_new max) []) ops) in
  let key := PeerLimitKey_of client in
  (fst (limiter_step s (Acquire client)) = true <->
     match max_per_ip (limiter s) with Some m => held key (guards s) < m | None => True end)
  /\ (forall m, max = Some m -> 0 <= m -> Forall (fun op => forall m', op <> SetMax m') ops ->
        held key (guards s) <= m).
Proof.
  intros s key. assert (counted s) as Hc.
  { apply (runs_invariant limiter_step (fun _ => True) counted); [intros; by apply limiter_step_counted|by apply Forall_true|].
    intros k. cbn. by rewrite lookup_empty. }
  split.
  - cbn [limiter_step]. unfold try_acquire. rewrite Hc. fold key.
    destruct (max_per_ip (limiter s)) as [m|]; [|done]. destruct (Z.leb_spec m (held key (guards s))); cbn; split; done || lia.
  - intros m -> Hm Hops.
    enough (counted s /\ max_per_ip (limiter s) = Some m /\ forall k, held k (guards s) <= m) as (_ & _ & Hle)
      by apply Hle.
    apply (runs_invariant limiter_step (fun op => forall m', op <> SetMax m')
      (fun s => counted s /\ max_per_ip (limiter s) = Some m /\ forall k, held k (guards s) <= m)); [|done|].
    + intros s' op (Hc' & Hmax & Hle) Hop. split; [by apply limiter_step_counted|].
      destruct op as [client'|index|m']; cbn [limiter_step]; [|..|by destruct (Hop m')].
      * unfold try_acquire. rewrite Hmax, Hc'.
        destruct (Z.leb_spec m (held (PeerLimitKey_of client') (guards s'))); cbn [snd limiter guards max_per_ip]; [done|].
        split; [done|]. intros k. rewrite held_cons. specialize (Hle k). case_decide; subst; lia.
      * destruct (guards s' !! index) as [ip|] eqn:E; [|done]. cbn [snd limiter guards]. split.
        -- unfold limiter_release. destruct (counts (limiter s') !! ip); done.
        -- intros k. rewrite (held_delete k ip index _ E). specialize (Hle k). case_decide; lia.
    + split_and!; cbn; [intros k; cbn; by rewrite lookup_empty|done|done].
Qed.

(** ** Lemmas: the refusal log *)

Definition log_step (log : PeerRefusalLog) (o : Z * IpAddr * PeerRefusal) : option Z * PeerRefusalLog :=
  let '(now, peer, refusal) := o in line_at now peer refusal log.

(** The log remembers at most its capacity of peers and classes. *)
Lemma refusal_log_bounded ops window :
  (size (log_entries (snd (runs log_step (PeerRefusalLog_new window) ops))) <= PEER_REFUSAL_LOG_CAPACITY)%nat.
Proof.
  apply (runs_invariant log_step (fun _ : Z * IpAddr * PeerRefusal => True) (fun log : PeerRefusalLog => (size (log_entries log) <= PEER_REFUSAL_LOG_CAPACITY)%nat)).
  - intros log [[now peer] refusal] Hs _. cbn [log_step]. unfold line_at.
    destruct (log_entries log !! (peer, refusal)) as [e|] eqn:E.
    + cbn [log_step]. destruct (_ <? _); cbn [snd log_entries]; by rewrite map_size_insert_Some by eauto.
    + cbn [snd log_entries]. set (entries := if (PEER_REFUSAL_LOG_CAPACITY <=? size (log_entries log))%nat then _ else log_entries log).
      assert (size entries <= size (log_entries log))%nat as Hle.
      { unfold entries. destruct (_ <=? _)%nat; [|done]. apply map_size_filter || apply map_subseteq_size, map_filter_subseteq. }
      clearbody entries. destruct (Nat.ltb_spec (size entries) PEER_REFUSAL_LOG_CAPACITY) as [Hlt|]; [|lia].
      rewrite map_size_insert. destruct (entries !! (peer, refusal)); unfold id; lia.
  - by apply Forall_true.
  - cbn [PeerRefusalLog_new log_entries]. rewrite map_size_empty. lia.
Qed.
