(* ===== verification/Proxy.v ===== *)
(** * Clients behind proxies ([e6irc-edge/src/proxy_protocol.rs] and the
      forwarded addresses of [address.rs])

    The binary PROXY header a load balancer sends before its client's bytes,
    read from the stream byte for byte, and the [X-Forwarded-For] and
    [X-Forwarded-Proto] headers of a request.  A header's value is what
    [HeaderValue::to_str] makes of it: text, or [None]. *)

From S2P Require Import Prelude Str Num Wire Keys Casemap Ip Address Sanitize.

Local Open Scope Z_scope.

(** ** The PROXY header *)

Definition SIGNATURE : str := [x0d; x0a; x0d; x0a; x00; x0d; x0a; x51; x55; x49; x54; x0a].
Definition MAX_HEADER_BODY : nat := Z.to_nat 1024.

Record SocketAddr : Type := MkSocketAddr { sock_ip : IpAddr; sock_port : Z }.

Inductive ProxyHeader : Type := Local | Relayed (source : SocketAddr).

Inductive ProxyHeaderError : Type :=
| NotAHeader | Version (v : Z) | Command (c : Z) | Family (f : byte) | Short | TooLong (length : nat) | ReadFailed | TimedOut | Untrusted.

(** [prefix] has sixteen bytes. *)
Definition parse_prefix (prefix : str) : result ProxyHeaderError (Z * byte * nat) :=
  if negb (str_eqb (take 12 prefix) SIGNATURE) then Err NotAHeader
  else
    let twelve := bz (default x00 (prefix !! 12%nat)) in
    let version := Z.shiftr twelve 4 in
    if negb (version =? 2) then Err (Version version)
    else
      let command := Z.land twelve 15 in
      if 1 <? command then Err (Command command)
      else
        let length := Z.to_nat (be_value (drop 14 prefix)) in
        if (MAX_HEADER_BODY <? length)%nat then Err (TooLong length)
        else Ok (command, default x00 (prefix !! 13%nat), length).

Definition get_to (n : nat) (body : str) : result ProxyHeaderError str :=
  if (n <=? length body)%nat then Ok (take n body) else Err Short.

Definition parse_body (command : Z) (family : byte) (body : str) : result ProxyHeaderError ProxyHeader :=
  if command =? 0 then Ok Local
  else if bz family =? 0x11 then
    fields ← get_to 12 body;
    Ok (Relayed (MkSocketAddr (V4 (take 4 fields)) (be_value (take 2 (drop 8 fields)))))
  else if bz family =? 0x21 then
    fields ← get_to 36 body;
    Ok (Relayed (MkSocketAddr (V6 (take 16 fields)) (be_value (take 2 (drop 32 fields)))))
  else Err (Family family).

(** What a peer sends, and whether it then leaves the stream open, so that the
    deadline passes, or closes it. *)
Record Stream : Type := MkStream { sent : str; stalls : bool }.

Definition read_exact (n : nat) (s : Stream) : result ProxyHeaderError (str * Stream) :=
  if (n <=? length (sent s))%nat then Ok (take n (sent s), MkStream (drop n (sent s)) (stalls s))
  else Err (if stalls s then TimedOut else ReadFailed).

Definition read_header (s : Stream) : result ProxyHeaderError (ProxyHeader * Stream) :=
  '(prefix, s) ← read_exact 16 s;
  '(command, family, length) ← parse_prefix prefix;
  '(body, s) ← read_exact length s;
  h ← parse_body command family body;
  Ok (h, s).

(** ** Forwarded headers *)

Fixpoint drop_white (cs : list str) : list str :=
  match cs with c :: rest => if char_whitespace c then drop_white rest else cs | [] => [] end.

(** [str::trim]. *)
Definition trim (s : str) : str := concat (rev (drop_white (rev (drop_white (chars s))))).

(** [s.parse::<SocketAddr>().ok()], its address. *)
Definition read_port : parser Z := fun s =>
  '(_, s) ← read_given_char ":" s; read_number 10 (length s) true 65535 s.
Definition read_scope_id : parser Z := fun s =>
  '(_, s) ← read_given_char "%" s; read_number 10 (length s) true (2 ^ 32 - 1) s.
Definition read_socket_addr_v4 : parser IpAddr := fun s =>
  '(o, s) ← read_ipv4_addr s; '(_, s) ← read_port s; Some (V4 o, s).
Definition read_socket_addr_v6 : parser IpAddr := fun s =>
  '(_, s) ← read_given_char "[" s; '(o, s) ← read_ipv6_addr s;
  let s := match read_scope_id s with Some (_, s) => s | None => s end in
  '(_, s) ← read_given_char "]" s; '(_, s) ← read_port s; Some (V6 o, s).
Definition socket_ip_parse (s : str) : option IpAddr :=
  match read_socket_addr_v4 s with
  | Some (a, []) => Some a
  | Some (_, _ :: _) => None
  | None => match read_socket_addr_v6 s with Some (a, []) => Some a | _ => None end
  end.

Definition parse_forwarded_ip (entry : str) : option IpAddr :=
  let s := trim entry in
  let address :=
    match ip_parse s with
    | Some ip => Some ip
    | None =>
        match socket_ip_parse s with
        | Some ip => Some ip
        | None => inner ← strip_byte "[" s; inner ← strip_suffix_byte "]" inner; ip_parse inner
        end
    end in
  ClientIp_new <$> address.

Record UnusableForwardedFor : Type := MkUnusable { unusable_proxy : IpAddr; unusable_entry : str }.

Section Forwarded.
Context `{IpNet}.

(** [relayed_client]: [trusted] is [TrustedProxies::contains]. *)
Definition relayed_client (s : Stream) (peer : SocketAddr) (networks : list Net) : result ProxyHeaderError (SocketAddr * Stream) :=
  if negb (trusted_contains networks (sock_ip peer)) then Err Untrusted
  else
    '(h, s) ← read_header s;
    Ok (match h with Local => peer | Relayed source => source end, s).

Definition is_trusted (networks : list Net) (address : IpAddr) : bool := existsb (fun net => net_contains net address) networks.

Fixpoint first_untrusted (peer : IpAddr) (networks : list Net) (entries : list str) : result UnusableForwardedFor IpAddr :=
  match entries with
  | [] => Ok peer
  | part :: entries =>
      match parse_forwarded_ip part with
      | None => Err (MkUnusable peer (trim part))
      | Some ip => if negb (is_trusted networks ip) then Ok ip else first_untrusted peer networks entries
      end
  end.

Definition client_ip (peer : IpAddr) (values : list (option str)) (networks : list Net) : result UnusableForwardedFor IpAddr :=
  let peer := ClientIp_new peer in
  if negb (is_trusted networks peer) then Ok peer
  else
    let joined := join "," (omap id values) in
    if is_empty (trim joined) then Ok peer
    else first_untrusted peer networks (rev (split "," joined)).

Definition forwarded_https (peer : IpAddr) (values : list (option str)) (networks : list Net) : bool :=
  if negb (is_trusted networks (ClientIp_new peer)) then false
  else
    let entries := trim <$> flat_map (fun value => split "," (default [] value)) values in
    negb (is_empty entries) && forallb (fun entry => eq_ignore_ascii_case entry (bs "https")) entries.
End Forwarded.

(** ** The header, written *)

Definition write_header (command : Z) (family : byte) (body : str) : str :=
  SIGNATURE ++ [u8 (32 + command); family] ++ be 2 (Z.of_nat (length body)) ++ body.

(** What a header with this command, family and body tells; [tlv] are the
    extensions after the addresses. *)
Inductive header_says : Z -> byte -> str -> ProxyHeader -> Prop :=
| SaysLocal family body : header_says 0 family body Local
| SaysV4 src dst sport dport tlv :
    length src = 4%nat -> length dst = 4%nat -> 0 <= sport < 65536 -> 0 <= dport < 65536 ->
    header_says 1 x11 (src ++ dst ++ be 2 sport ++ be 2 dport ++ tlv) (Relayed (MkSocketAddr (V4 src) sport))
| SaysV6 src dst sport dport tlv :
    length src = 16%nat -> length dst = 16%nat -> 0 <= sport < 65536 -> 0 <= dport < 65536 ->
    header_says 1 x21 (src ++ dst ++ be 2 sport ++ be 2 dport ++ tlv) (Relayed (MkSocketAddr (V6 src) sport)).

Lemma cut_at {A} n (l : list A) : (n <= length l)%nat -> exists a b, l = a ++ b /\ length a = n.
Proof. intros Hn. exists (take n l), (drop n l). rewrite take_drop, length_take. split; [done|lia]. Qed.

Lemma version_byte b : Z.shiftr (bz b) 4 = 2 -> b = u8 (32 + Z.land (bz b) 15).
Proof. intros Hb. apply Z.eqb_eq in Hb. destruct b; vm_compute in Hb; first [discriminate Hb|reflexivity]. Qed.

Lemma command_byte c : c = 0 \/ c = 1 -> Z.shiftr (bz (u8 (32 + c))) 4 = 2 /\ Z.land (bz (u8 (32 + c))) 15 = c.
Proof. intros [->| ->]; done. Qed.

Lemma parse_prefix_spec p c f n :
  length p = 16%nat ->
  parse_prefix p = Ok (c, f, n) <->
  p = SIGNATURE ++ [u8 (32 + c); f] ++ be 2 (Z.of_nat n) /\ (c = 0 \/ c = 1) /\ (n <= MAX_HEADER_BODY)%nat.
Proof.
  intros Hlen. destruct (cut_at 12 p) as (sig & q & -> & Hsig); [lia|]. rewrite length_app in Hlen.
  destruct q as [|b12 [|b13 [|b14 [|b15 [|]]]]]; cbn in Hlen; try lia. clear Hlen.
  unfold parse_prefix. rewrite take_app_length' by done.
  rewrite !lookup_app_r by lia. rewrite Hsig. cbn [Nat.sub lookup list_lookup default].
  replace (drop 14 (sig ++ [b12; b13; b14; b15])) with [b14; b15] by (by rewrite drop_app, drop_ge, Hsig by lia).
  change (id b12) with b12. change (id b13) with b13.
  pose proof (be_value_range [b14; b15]) as Hr. change (256 ^ slen [b14; b15]) with 65536 in Hr.
  pose proof (Z.land_nonneg (bz b12) 15) as Hland. pose proof (bz_range b12) as Hb12.
  assert (Hc : 0 <= Z.land (bz b12) 15) by (apply Z.land_nonneg; lia).
  unfold str_eqb. case_bool_decide as Es; cbn [negb].
  2:{ split; [done|]. intros (E & _). apply app_inj_1 in E as [E _]; [by rewrite E in Es|done]. }
  subst sig. destruct (Z.eqb_spec (Z.shiftr (bz b12) 4) 2) as [Hv|Hv]; cbn [negb].
  2:{ split; [done|]. intros (E & Hc01 & _). apply app_inj_1 in E as [_ E]; [|done]. injection E as -> _. by destruct (command_byte c Hc01). }
  destruct (Z.ltb_spec 1 (Z.land (bz b12) 15)) as [Hbig|Hsmall].
  { split; [done|]. intros (E & Hc01 & _). apply app_inj_1 in E as [_ E]; [|done]. injection E as -> _. destruct (command_byte c Hc01) as [_ E'].
    rewrite E' in Hbig. lia. }
  destruct (Nat.ltb_spec MAX_HEADER_BODY (Z.to_nat (be_value [b14; b15]))) as [Hl|Hl].
  { split; [done|]. intros (E & _ & Hn). apply app_inj_1 in E as [_ E]; [|done]. change ([b12; b13; b14; b15]) with ([b12; b13] ++ [b14; b15]) in E.
    change (u8 (32 + c) :: f :: be 2 (Z.of_nat n)) with ([u8 (32 + c); f] ++ be 2 (Z.of_nat n)) in E.
    apply app_inj_1 in E as [_ E]; [|done]. rewrite E, be_value_be, Nat2Z.id in Hl; [lia|]. change (256 ^ Z.of_nat 2) with 65536.
    unfold MAX_HEADER_BODY in Hn. lia. }
  split.
  - intros [= <- <- <-]. split; [|split; [lia|done]]. f_equal. cbn [app]. rewrite <- version_byte by done. do 2 f_equal.
    rewrite Z2Nat.id by lia. symmetry. by apply be_be_value'.
  - intros (E & Hc01 & Hn). apply app_inj_1 in E as [_ E]; [|done]. change ([b12; b13; b14; b15]) with ([b12; b13] ++ [b14; b15]) in E.
    change (u8 (32 + c) :: f :: be 2 (Z.of_nat n)) with ([u8 (32 + c); f] ++ be 2 (Z.of_nat n)) in E.
    apply app_inj_1 in E as [E1 E2]; [|done]. injection E1 as -> ->. destruct (command_byte c Hc01) as [_ ->].
    rewrite E2, be_value_be, Nat2Z.id; [done|]. change (256 ^ Z.of_nat 2) with 65536. unfold MAX_HEADER_BODY in Hn. lia.
Qed.

Lemma fields_of k (a b p q tlv : str) :
  length a = k -> length b = k -> length p = 2%nat -> length q = 2%nat ->
  get_to (2 * k + 4) (a ++ b ++ p ++ q ++ tlv) = Ok (a ++ b ++ p ++ q) /\ take k (a ++ b ++ p ++ q) = a
  /\ take 2 (drop (2 * k) (a ++ b ++ p ++ q)) = p.
Proof.
  intros Ha Hb Hp Hq. split_and!.
  - unfold get_to. rewrite !length_app. rewrite (proj2 (Nat.leb_le _ _)) by lia.
    f_equal. rewrite !app_assoc. apply take_app_length'. rewrite !length_app. lia.
  - by apply take_app_length'.
  - rewrite app_assoc. rewrite drop_app_length' by (rewrite length_app; lia). by apply take_app_length'.
Qed.

Lemma cut_fields k (body : str) :
  (2 * k + 4 <= length body)%nat ->
  exists a b sport dport tlv, body = a ++ b ++ be 2 sport ++ be 2 dport ++ tlv
    /\ length a = k /\ length b = k /\ 0 <= sport < 65536 /\ 0 <= dport < 65536.
Proof.
  intros Hl. destruct (cut_at k body) as (a & r1 & -> & Ha); [lia|]. rewrite length_app in Hl.
  destruct (cut_at k r1) as (b & r2 & -> & Hb); [lia|]. rewrite length_app in Hl.
  destruct (cut_at 2 r2) as (p & r3 & -> & Hp); [lia|]. rewrite length_app in Hl.
  destruct (cut_at 2 r3) as (q & r4 & -> & Hq); [lia|].
  exists a, b, (be_value p), (be_value q), r4. rewrite !be_be_value' by done. split_and!; try done.
  1,3: apply be_value_range. all: eapply Z.lt_le_trans; [apply be_value_range|]; unfold slen; rewrite ?Hp, ?Hq; done.
Qed.

Lemma port_roundtrip port : 0 <= port < 65536 -> be_value (be 2 port) = port.
Proof. intros Hp. apply be_value_be. done. Qed.

Lemma length_be2 z : length (be 2 z) = 2%nat.
Proof. done. Qed.

Lemma parse_body_spec c f body h :
  c = 0 \/ c = 1 -> parse_body c f body = Ok h <-> header_says c f body h.
Proof.
  intros Hc. unfold parse_body. destruct Hc as [->| ->]; cbn [Z.eqb].
  { split; [intros [= <-]; constructor|]. by inversion 1. }
  destruct (Z.eqb_spec (bz f) 17) as [E|Hne]; [|destruct (Z.eqb_spec (bz f) 33) as [E|Hne']].
  - assert (f = x11) as -> by (by apply bz_inj). split.
    + destruct (decide (12 <= length body)%nat) as [Hl|Hl]; [|unfold get_to; by rewrite (proj2 (Nat.leb_gt _ _)) by lia].
      destruct (cut_fields 4 body Hl) as (a & b & sp & dp & tlv & -> & Ha & Hb & Hsp & Hdp).
      destruct (fields_of 4 a b (be 2 sp) (be 2 dp) tlv Ha Hb eq_refl eq_refl) as (Hg & E1 & E2).
      change (2 * 4 + 4)%nat with 12%nat in Hg. rewrite Hg.
      cbn [mbind result_bind]. change (2 * 4)%nat with 8%nat in E2. rewrite E1, E2, port_roundtrip by done. intros [= <-]. by constructor.
    + inversion 1 as [|src dst sp dp tlv Ha Hb Hsp Hdp|]; subst.
      destruct (fields_of 4 src dst (be 2 sp) (be 2 dp) tlv Ha Hb eq_refl eq_refl) as (Hg & E1 & E2).
      change (2 * 4 + 4)%nat with 12%nat in Hg. rewrite Hg. cbn [mbind result_bind]. change (2 * 4)%nat with 8%nat in E2. by rewrite E1, E2, port_roundtrip.
  - assert (f = x21) as -> by (by apply bz_inj). split.
    + destruct (decide (36 <= length body)%nat) as [Hl|Hl]; [|unfold get_to; by rewrite (proj2 (Nat.leb_gt _ _)) by lia].
      destruct (cut_fields 16 body Hl) as (a & b & sp & dp & tlv & -> & Ha & Hb & Hsp & Hdp).
      destruct (fields_of 16 a b (be 2 sp) (be 2 dp) tlv Ha Hb eq_refl eq_refl) as (Hg & E1 & E2).
      change (2 * 16 + 4)%nat with 36%nat in Hg. rewrite Hg.
      cbn [mbind result_bind]. change (2 * 16)%nat with 32%nat in E2. rewrite E1, E2, port_roundtrip by done. intros [= <-]. by constructor.
    + inversion 1 as [| |src dst sp dp tlv Ha Hb Hsp Hdp]; subst.
      destruct (fields_of 16 src dst (be 2 sp) (be 2 dp) tlv Ha Hb eq_refl eq_refl) as (Hg & E1 & E2).
      change (2 * 16 + 4)%nat with 36%nat in Hg. rewrite Hg. cbn [mbind result_bind]. change (2 * 16)%nat with 32%nat in E2. by rewrite E1, E2, port_roundtrip.
  - split; [done|]. inversion 1; subst; done.
Qed.

Lemma read_exact_spec n s a s' :
  read_exact n s = Ok (a, s') <-> sent s = a ++ sent s' /\ length a = n /\ stalls s' = stalls s.
Proof.
  destruct s as [b st]. unfold read_exact. cbn [sent stalls]. destruct (Nat.leb_spec n (length b)) as [Hl|Hl].
  - split.
    + intros [= <- <-]. cbn. rewrite take_drop, length_take. split_and!; [done|lia|done].
    + intros (E & Hn & Es). destruct s' as [b' st']. cbn in *. subst. by rewrite take_app_length, drop_app_length.
  - split; [by destruct st|]. intros (E & Hn & _). rewrite E, length_app in Hl. lia.
Qed.

Lemma result_bind_Ok {E A B} (m : result E A) (f : A -> result E B) b :
  (m ≫= f) = Ok b <-> exists a, m = Ok a /\ f a = Ok b.
Proof. destruct m; cbn; naive_solver. Qed.

Lemma read_header_spec (s s' : Stream) (h : ProxyHeader) :
  read_header s = Ok (h, s') <->
  exists command family body, header_says command family body h /\ (length body <= MAX_HEADER_BODY)%nat
    /\ sent s = write_header command family body ++ sent s' /\ stalls s' = stalls s.
Proof.
  unfold read_header. rewrite result_bind_Ok. split.
  - intros ([p s1] & (E1 & Hp & St1)%read_exact_spec & H). rewrite result_bind_Ok in H. destruct H as ([[c f] n] & H1 & H2).
    apply parse_prefix_spec in H1 as (-> & Hc & Hn); [|done]. rewrite result_bind_Ok in H2.
    destruct H2 as ([body s2] & (E2 & Hb & St2)%read_exact_spec & H3). rewrite result_bind_Ok in H3. destruct H3 as (h' & H3 & [= <- <-]).
    exists c, f, body. split; [by apply parse_body_spec|]. rewrite E1, E2, St2, St1. split_and!; [lia| |done].
    unfold write_header. rewrite Hb, <- !app_assoc. done.
  - intros (c & f & body & Hs & Hl & E & Est). assert (Hc : c = 0 \/ c = 1) by (inversion Hs; auto).
    exists (SIGNATURE ++ [u8 (32 + c); f] ++ be 2 (Z.of_nat (length body)), MkStream (body ++ sent s') (stalls s)). split.
    { apply read_exact_spec. cbn. rewrite E. unfold write_header. by rewrite <- !app_assoc. }
    rewrite result_bind_Ok. exists (c, f, length body). split; [by apply parse_prefix_spec|].
    rewrite result_bind_Ok. exists (body, s'). split; [by apply read_exact_spec|]. rewrite result_bind_Ok. exists h. split; [by apply parse_body_spec|done].
Qed.

(** Behind a load balancer a client's address is taken exactly from a
    well-formed header at the start of the stream of a trusted proxy: the
    address and port the proxy wrote, or the proxy's own where it says the
    connection is its own.  From anyone else nothing is believed, and not a
    byte after the header is taken from the stream, whatever the client
    sends. *)
Theorem relayed_client_exact `{IpNet} (s s' : Stream) (peer client : SocketAddr) (networks : list Net) :
  relayed_client s peer networks = Ok (client, s') <->
  trusted_contains networks (sock_ip peer) = true
  /\ exists command family body h, header_says command family body h /\ (length body <= MAX_HEADER_BODY)%nat
     /\ sent s = write_header command family body ++ sent s' /\ stalls s' = stalls s
     /\ client = match h with Local => peer | Relayed source => source end.
Proof.
  unfold relayed_client. destruct (trusted_contains networks (sock_ip peer)); cbn [negb]; [|naive_solver].
  rewrite result_bind_Ok. split.
  - intros ([h s1] & (c & f & body & Hs)%read_header_spec & [= <- <-]). split; [done|]. exists c, f, body, h. naive_solver.
  - intros (_ & c & f & body & h & ? & ? & ? & ? & ->). exists (h, s'). split; [|done]. apply read_header_spec. by exists c, f, body.
Qed.

(** ** Whom a forwarded header names *)

Lemma split_join_values c l : l <> [] -> split c (join c l) = flat_map (split c) l.
Proof.
  induction l as [|a l IH]; [done|]. intros _. destruct l as [|b l]; [cbn; by rewrite app_nil_r|].
  change (join c (a :: b :: l)) with (a ++ c :: join c (b :: l)). rewrite split_app, IH by done. done.
Qed.

Lemma drop_white_nil cs : drop_white cs = [] -> Forall (fun c => char_whitespace c = true) cs.
Proof. induction cs as [|c cs IH]; [done|]. cbn. destruct (char_whitespace c) eqn:E; [|done]. intros H. constructor; auto. Qed.

Lemma drop_white_not cs c rest : drop_white cs = c :: rest -> char_whitespace c = false.
Proof. induction cs as [|d cs IH]; [done|]. cbn. destruct (char_whitespace d) eqn:E; [done|]. by intros [= <- _]. Qed.

Lemma drop_white_sub cs x : x ∈ drop_white cs -> x ∈ cs.
Proof. induction cs as [|c cs IH]; [done|]. cbn. destruct (char_whitespace c); [|done]. intros H. right. auto. Qed.

Lemma chars_nonempty s : [] ∉ chars s.
Proof.
  unfold chars, utf8_chunks. generalize (length s). intros fuel. revert s. induction fuel as [|fuel IH]; intros [|b s]; cbn; try by intros ?%elem_of_nil.
  destruct (utf8_next b s) as [ok n]. cbn. intros [?|?]%elem_of_cons; [done|]. by eapply IH.
Qed.

Lemma trim_empty_no_comma s : trim s = [] -> ","%byte ∉ s.
Proof.
  intros Ht Hin. apply ascii_in_chars in Hin; [|done]. unfold trim in Ht.
  assert (Hcs : drop_white (chars s) = []).
  { destruct (drop_white (chars s)) as [|c rest] eqn:E; [done|]. exfalso. pose proof (drop_white_not _ _ _ E) as Hc.
    assert (Hne : [] ∉ chars s) by apply chars_nonempty.
    assert (Hsub : forall x, x ∈ c :: rest -> x ∈ chars s) by (intros x Hx; rewrite <- E in Hx; by apply drop_white_sub in Hx).
    destruct (drop_white (rev (c :: rest))) as [|d ds] eqn:E2.
    - apply drop_white_nil in E2. rewrite Forall_forall in E2. assert (char_whitespace c = true); [|congruence]. apply E2.
      apply list_elem_of_In, in_rev. rewrite rev_involutive. by left.
    - cbn [rev] in Ht. rewrite concat_app in Ht. apply app_eq_nil in Ht as [_ Hd]. cbn in Hd. rewrite app_nil_r in Hd. subst d.
      apply Hne, Hsub. apply list_elem_of_In, in_rev, list_elem_of_In. apply drop_white_sub. rewrite E2. by left. }
  apply drop_white_nil in Hcs. rewrite Forall_forall in Hcs. specialize (Hcs _ Hin). done.
Qed.

Lemma parse_forwarded_trim entry ip : parse_forwarded_ip entry = Some ip -> trim entry <> [].
Proof. intros E Ht. unfold parse_forwarded_ip in E. rewrite Ht in E. done. Qed.

Section Named.
Context `{IpNet} (networks : list Net).

Lemma first_untrusted_app peer trusted entries :
  Forall (fun e => exists ip, parse_forwarded_ip e = Some ip /\ is_trusted networks ip = true) trusted ->
  first_untrusted peer networks (trusted ++ entries) = first_untrusted peer networks entries.
Proof. induction 1 as [|e l (ip & Hp & Ht) _ IH]; [done|]. cbn. by rewrite Hp, Ht. Qed.

(** C29. A request's client is the peer itself unless the peer is a trusted
    proxy. From one, when the headers that carry the client's entry and the
    trusted proxies' after it are text, it is the last entry that is not itself
    a trusted proxy, whatever was written before it, in the same header or in
    others, text or not: nothing written before it changes who the client is
    taken for. An entry there that is no address refuses the request. A header
    that is not text is dropped whole, with the entry a proxy added to it. *)
Theorem forwarded_client_unforgeable (peer : IpAddr) (forged : list (option str)) (honest : list str)
    (evil proxies : list str) (client : str)
    (Hentries : flat_map (split ",") honest = evil ++ client :: proxies)
    (Hproxies : Forall (fun e => exists ip, parse_forwarded_ip e = Some ip /\ is_trusted networks ip = true) proxies)
    (Hclient : match parse_forwarded_ip client with Some ip => is_trusted networks ip = false | None => trim client <> [] end) :
  let peer' := ClientIp_new peer in
  client_ip peer (forged ++ (Some <$> honest)) networks
  = if negb (is_trusted networks peer') then Ok peer'
    else match parse_forwarded_ip client with Some ip => Ok ip | None => Err (MkUnusable peer' (trim client)) end.
Proof.
  cbn zeta. unfold client_ip. destruct (is_trusted networks (ClientIp_new peer)) eqn:Ep; cbn [negb]; [|done].
  assert (Eo : omap id (forged ++ (Some <$> honest)) = omap id forged ++ honest).
  { rewrite omap_app. f_equal. clear. induction honest as [|h l IH]; [done|]. cbn. by f_equal. }
  rewrite Eo. set (values := omap id forged ++ honest).
  assert (Hne : values <> []).
  { unfold values. destruct honest; [cbn in Hentries; by destruct evil|]. by destruct (omap id forged). }
  assert (Hsplit : split "," (join "," values) = (flat_map (split ",") (omap id forged) ++ evil) ++ client :: proxies).
  { rewrite split_join_values by done. unfold values. rewrite flat_map_app, Hentries. by rewrite app_assoc. }
  assert (Htc : trim client <> []).
  { destruct (parse_forwarded_ip client) eqn:E; [by eapply parse_forwarded_trim|done]. }
  destruct (is_empty (trim (join "," values))) eqn:Et.
  - apply is_empty_true in Et. pose proof (trim_empty_no_comma _ Et) as Hno. rewrite split_no_sep_id in Hsplit by done.
    destruct (flat_map (split ",") (omap id forged) ++ evil) as [|x l]; [|by destruct l]. cbn in Hsplit. injection Hsplit as E _.
    rewrite E in Et. done.
  - rewrite Hsplit, rev_app_distr. cbn [rev]. rewrite <- app_assoc, first_untrusted_app.
    + cbn [app first_untrusted]. destruct (parse_forwarded_ip client) as [ip|]; [|done]. by rewrite Hclient.
    + apply Forall_rev. done.
Qed.

(** A request counts as made over HTTPS only when a trusted proxy says so
    in every entry it passed on: one entry that says otherwise, or is not
    text, anywhere in any of the headers, is enough for it not to. *)
Theorem forwarded_https_unanimous (peer : IpAddr) (values : list (option str)) :
  forwarded_https peer values networks = true <->
  is_trusted networks (ClientIp_new peer) = true /\ values <> []
  /\ forall value, value ∈ values ->
       exists text, value = Some text /\ forall entry, entry ∈ split "," text -> eq_ignore_ascii_case (trim entry) (bs "https") = true.
Proof.
  unfold forwarded_https. destruct (is_trusted networks (ClientIp_new peer)); cbn [negb]; [|naive_solver].
  rewrite andb_true_iff, negb_true_iff, forallb_true_iff, Forall_fmap, Forall_forall. split.
  - intros [Hne Hall]. split; [done|]. split; [by intros ->|]. intros value Hv.
    assert (Hs : forall entry, entry ∈ split "," (default [] value) -> eq_ignore_ascii_case (trim entry) (bs "https") = true).
    { intros entry He. apply Hall. apply list_elem_of_In, in_flat_map. exists value. split; by apply list_elem_of_In. }
    destruct value as [text|]; [by exists text|]. exfalso. specialize (Hs [] ltac:(by left)). done.
  - intros (_ & Hne & Hall). split.
    + apply is_empty_false. destruct values as [|v l]; [done|]. cbn. pose proof (split_ne "," (default [] v)). by destruct (split "," (default [] v)).
    + intros entry (value & Hv%list_elem_of_In & He%list_elem_of_In)%list_elem_of_In%in_flat_map.
      destruct (Hall value Hv) as (text & -> & Ht). by apply Ht.
Qed.
End Named.

Section ProxySample.
#[local] Existing Instance PlainIpNet.

Lemma forwarded_client_unforgeable_witness :
  client_ip (V4 [x0a; x00; x00; x01]) ([Some (bs "1.1.1.1"); None] ++ (Some <$> [bs "6.6.6.6, [2001:db8::1]:443 ,10.0.0.1"]))
    [net_from (V4 [x0a; x00; x00; x01])]
  = Ok (V6 [x20; x01; x0d; xb8; x00; x00; x00; x00; x00; x00; x00; x00; x00; x00; x00; x01]).
Proof.
  refine (forwarded_client_unforgeable [net_from (V4 [x0a; x00; x00; x01])] (V4 [x0a; x00; x00; x01]) [Some (bs "1.1.1.1"); None]
    [bs "6.6.6.6, [2001:db8::1]:443 ,10.0.0.1"] [bs "6.6.6.6"] [bs "10.0.0.1"] (bs " [2001:db8::1]:443 ") eq_refl _ eq_refl).
  constructor; [|constructor]. eexists. split; vm_compute; reflexivity.
Defined.

(** Two headers reach the server, the second with the entry the trusted proxy
    added after bytes of the client's: where one of those is not visible text
    the second is dropped, and the client is who the first says. *)
Example untext_header_forges :
  client_ip (V4 [x0a; x00; x00; x01]) [Some (bs "6.6.6.6"); None] [net_from (V4 [x0a; x00; x00; x01])] = Ok (V4 [x06; x06; x06; x06])
  /\ client_ip (V4 [x0a; x00; x00; x01]) [Some (bs "6.6.6.6"); Some (bs "x, 9.9.9.9")] [net_from (V4 [x0a; x00; x00; x01])] = Ok (V4 [x09; x09; x09; x09]).
Proof. split; vm_compute; reflexivity. Qed.
End ProxySample.
