(* ===== verification/BanMask.v ===== *)
(** * Ban masks ([e6ircd/src/core/banmask.rs] and the bans of [core/state.rs])

    What a stored mask means -- a glob, an address range, an account extban --
    and whether a user matches it; the keys masks are stored under; and the
    server bans built on them. *)

From S2P Require Import Prelude Str Casemap Mask Num Wire Keys Ip Address.

Local Open Scope Z_scope.

Definition EXTBAN_PREFIX : byte := "$".
Definition EXTBAN_TYPES : str := bs "a".
Definition ACCOUNT_EXTBAN : byte := "a".

(** [char::to_ascii_lowercase]. *)
Definition to_ascii_lowercase (b : byte) : byte := if is_ascii_uppercase b then u8 (bz b + 32) else b.

Inductive MaskError : Type := UnknownExtban | MalformedExtban | MalformedCidr.

(** Who a mask is tested against. *)
Record MaskSubject : Type := MkSubject {
  shown : str;
  address : option IpAddr;
  by_address : option str;
  account : option str;
}.

Definition subject_by_address (shown : str) (address : option IpAddr) : option str :=
  address ← address;
  '(head, host) ← rsplit_once "@" shown;
  let address := ip_show address in
  if str_eqb host address then None else Some (head ++ bs "@" ++ address).

Definition MaskSubject_new (shown : str) (address : option IpAddr) (account : option str) : MaskSubject :=
  MkSubject shown address (subject_by_address shown address) account.

Definition subject_head (s : MaskSubject) : str :=
  match rsplit_once "@" (shown s) with Some (head, _) => head | None => shown s end.

Definition opt_test {A} (f : A -> bool) (o : option A) : bool := match o with Some a => f a | None => false end.

Section BanMask.
Context `{IpNet}.

Inductive MaskShape : Type :=
| Glob
| Cidr (head : option str) (net : Net)
| Account (negated : bool) (pattern : option str).

Definition parse_extban (extban : str) : result MaskError MaskShape :=
  let '(negated, rest) :=
    match strip_byte "~" extban with Some rest => (true, rest) | None => (false, extban) end in
  match rest with
  | [] => Err MalformedExtban
  | kind :: data =>
      if negb (contains_byte (to_ascii_lowercase kind) EXTBAN_TYPES) then Err UnknownExtban
      else
        match data with
        | [] => Ok (Account negated None)
        | _ =>
            match strip_byte ":" data with
            | None => Err MalformedExtban
            | Some pattern =>
                if is_empty pattern || contains_byte EXTBAN_PREFIX pattern then Err MalformedExtban
                else Ok (Account negated (Some pattern))
            end
        end
  end.

Definition shape_network (head : option str) (host : str) : result MaskError MaskShape :=
  match split_once "/" host with
  | Some (address, _) =>
      if bool_decide (is_Some (ip_parse address)) then
        match net_parse host ≫= canonical_network with
        | Some net => Ok (Cidr head net)
        | None => Err MalformedCidr
        end
      else Ok Glob
  | None =>
      match ip_parse host with
      | Some address => Ok (Cidr head (net_from (to_canonical address)))
      | None => Ok Glob
      end
  end.

Definition MaskShape_parse (mask : str) : result MaskError MaskShape :=
  match strip_byte EXTBAN_PREFIX mask with
  | Some extban => parse_extban extban
  | None =>
      match rsplit_once "@" mask with
      | Some (head, host) => shape_network (Some head) host
      | None => shape_network None mask
      end
  end.

Definition shape_matches (shape : MaskShape) (m : CaseMapping) (display : str) (subject : MaskSubject) : bool :=
  let glob mask text := mask_matches m mask text in
  match shape with
  | Glob => glob display (shown subject) || opt_test (glob display) (by_address subject)
  | Cidr head net =>
      let in_net := opt_test (net_contains net) (address subject) in
      let head_matches := match head with None => true | Some head => glob head (subject_head subject) end in
      (in_net && head_matches) || glob display (shown subject)
  | Account negated pattern =>
      let hit := match account subject, pattern with
                 | Some _, None => true
                 | Some account, Some pattern => glob pattern account
                 | None, _ => false
                 end in
      xorb hit negated
  end.

(** ** Mask keys *)

Record MaskKey : Type := MkMaskKey { folded : str; display : str; shape : MaskShape }.

Definition MaskKey_new (mask : str) (m : CaseMapping) : MaskKey :=
  MkMaskKey (casefold m mask) mask (match MaskShape_parse mask with Ok s => s | Err _ => Glob end).

Definition mask_key_matches (k : MaskKey) (m : CaseMapping) (subject : MaskSubject) : bool :=
  shape_matches (shape k) m (display k) subject.

(** [PartialEq for MaskKey]. *)
Definition mask_key_eq (a b : MaskKey) : bool := str_eqb (folded a) (folded b).

(** ** Server bans *)

Inductive BanKind : Type := Kline | Dline | Xline.

Definition ban_kind_token (k : BanKind) : str :=
  match k with Kline => bs "kline" | Dline => bs "dline" | Xline => bs "xline" end.
Definition ban_kind_from_token (s : str) : option BanKind :=
  if str_eqb s (bs "kline") then Some Kline
  else if str_eqb s (bs "dline") then Some Dline
  else if str_eqb s (bs "xline") then Some Xline
  else None.

Record ServerBan : Type := MkServerBan {
  ban_mask : MaskKey;
  ban_reason : str;
  ban_set_by : str;
  ban_kind : BanKind;
  expires_at_secs : option Z;
}.

Record ServerBanSubject : Type := MkBanSubject {
  ban_user : str;
  ban_host : str;
  ban_real_ip : option IpAddr;
  ban_realname : str;
}.

Definition in_force (ban : ServerBan) (now_secs : Z) : bool :=
  match expires_at_secs ban with None => true | Some at_secs => now_secs <? at_secs end.

(** [div_ceil(60)]. *)
Definition minutes_left (ban : ServerBan) (now_secs : Z) : option Z :=
  (fun at_secs => (saturating_sub at_secs now_secs + 59) / 60) <$> expires_at_secs ban.

Definition server_ban_matches (ban : ServerBan) (m : CaseMapping) (subject : ServerBanSubject) : bool :=
  match ban_kind ban with
  | Kline =>
      mask_key_matches (ban_mask ban) m
        (MaskSubject_new (ban_user subject ++ bs "@" ++ ban_host subject) (ban_real_ip subject) None)
  | Dline =>
      opt_test (fun address => mask_key_matches (ban_mask ban) m
                  (MaskSubject_new (ip_show address) (Some address) None)) (ban_real_ip subject)
  | Xline => mask_matches m (display (ban_mask ban)) (ban_realname subject)
  end.

(** ** Lemmas *)

Lemma rsplit_once_absent c s : c ∉ s -> rsplit_once c s = None.
Proof.
  induction s as [|b s IH]; [done|]. intros [Hb Hs]%not_elem_of_cons. cbn. rewrite (IH Hs).
  by rewrite (proj2 (byte_eqb_neq b c)).
Qed.

Lemma rsplit_once_app c pre post : c ∉ post -> rsplit_once c (pre ++ c :: post) = Some (pre, post).
Proof.
  intros Hp. induction pre as [|b pre IH]; cbn.
  - by rewrite (rsplit_once_absent c post Hp), byte_eqb_refl.
  - by rewrite IH.
Qed.

Lemma subject_new_parts head host a acct :
  "@"%byte ∉ host ->
  let s := MaskSubject_new (head ++ bs "@" ++ host) (Some a) acct in
  subject_head s = head
  /\ by_address s = (if str_eqb host (ip_show a) then None else Some (head ++ bs "@" ++ ip_show a)).
Proof.
  intros Hh. cbn. unfold subject_head, subject_by_address. cbn.
  change (bs "@" ++ host) with ("@"%byte :: host). rewrite (rsplit_once_app _ head host Hh). done.
Qed.

(** Whether a mask, as it was written, names the user [head] at address [a]. *)
Definition names_address (k : MaskKey) (m : CaseMapping) (head : str) (a : IpAddr) (acct : option str) : bool :=
  match shape k with
  | Glob => mask_matches m (display k) (head ++ bs "@" ++ ip_show a)
  | Cidr h net =>
      net_contains net a && match h with None => true | Some h => mask_matches m h head end
  | Account _ _ => shape_matches (shape k) m (display k) (MkSubject [] None None acct)
  end.

Lemma mask_key_matches_cloak mask m head host a acct :
  "@"%byte ∉ host ->
  let k := MaskKey_new mask m in
  mask_key_matches k m (MaskSubject_new (head ++ bs "@" ++ host) (Some a) acct)
  = names_address k m head a acct
    || match shape k with
       | Account _ _ => false
       | _ => mask_matches m mask (head ++ bs "@" ++ host)
       end.
Proof.
  intros Hh k. unfold mask_key_matches, names_address.
  destruct (subject_new_parts head host a acct Hh) as [Hhead Hby].
  change (display k) with mask. destruct (shape k) as [|h net|negated pattern]; cbn [shape_matches].
  - rewrite Hby. cbn [shown MaskSubject_new].
    destruct (str_eqb host (ip_show a)) eqn:E; cbn [opt_test].
    + apply str_eqb_eq in E. subst. by destruct (mask_matches _ _ _).
    + apply orb_comm.
  - rewrite Hhead. done.
  - cbn. by rewrite orb_false_r.
Qed.

(** A cloak is no way out of a ban on the address, and no way into one: a
    user who connected from [a] matches a stored mask exactly when the mask
    names that address -- a glob over the address text, a range or a single
    address with its [nick!user] part, an account extban -- or, for a mask that
    is not an extban, when it matches the host the user currently shows. *)
Theorem ban_sees_through_cloak mask m head host a acct :
  "@"%byte ∉ host ->
  let k := MaskKey_new mask m in
  mask_key_matches k m (MaskSubject_new (head ++ bs "@" ++ host) (Some a) acct)
  = names_address k m head a acct
    || match shape k with
       | Account _ _ => false
       | _ => mask_matches m mask (head ++ bs "@" ++ host)
       end.
Proof.
  exact (mask_key_matches_cloak mask m head host a acct).
Qed.

(** A K-line is a mask on [user@host], so no [SETHOST] lifts it from an
    address it names. *)
Lemma kline_sees_through_cloak mask m reason by_whom expires user host a realname :
  "@"%byte ∉ host -> names_address (MaskKey_new mask m) m user a None = true ->
  server_ban_matches (MkServerBan (MaskKey_new mask m) reason by_whom Kline expires) m
    (MkBanSubject user host (Some a) realname) = true.
Proof.
  intros Hh Hn. cbn [server_ban_matches ban_kind ban_mask ban_user ban_host ban_real_ip].
  by rewrite mask_key_matches_cloak, Hn by done.
Qed.

(** A ban in force has at least a minute left to show. *)
Lemma minutes_left_pos ban now n :
  in_force ban now = true -> minutes_left ban now = Some n -> 1 <= n.
Proof.
  unfold in_force, minutes_left. destruct (expires_at_secs ban) as [at_secs|]; [|done].
  intros Hf%Z.ltb_lt [= <-]. unfold saturating_sub. apply Z.div_le_lower_bound; lia.
Qed.

(** Masks that differ only in case are one entry. *)
Lemma mask_key_eq_case m a b :
  mask_key_eq (MaskKey_new a m) (MaskKey_new b m) = casemap_eq m a b.
Proof.
  unfold mask_key_eq. cbn. destruct (casemap_eq m a b) eqn:E.
  - apply str_eqb_eq. by apply casemap_eq_iff.
  - apply str_eqb_neq. intros Hab%casemap_eq_iff. congruence.
Qed.
End BanMask.

Section Spellings.
Context `{IpNetLaws}.

(** A ban on a single address matches the address however either is spelt. *)
Lemma address_mask_any_spelling head host written m a u shown_host acct :
  "/"%byte ∉ written -> "@"%byte ∉ written -> "@"%byte ∉ shown_host ->
  strip_byte EXTBAN_PREFIX (head ++ bs "@" ++ written) = None ->
  ip_parse written = Some host -> ip_typed (to_canonical host) -> to_canonical host = to_canonical a ->
  mask_matches m head u = true ->
  mask_key_matches (MaskKey_new (head ++ bs "@" ++ written) m) m
    (MaskSubject_new (u ++ bs "@" ++ shown_host) (Some (ClientIp_new a)) acct) = true.
Proof.
  intros Hs Ha Hh Hx Hp Ht Hc Hm. rewrite mask_key_matches_cloak by done.
  assert (shape (MaskKey_new (head ++ bs "@" ++ written) m) = Cidr (Some head) (net_from (to_canonical host))) as Hsh.
  { cbn [MaskKey_new shape]. unfold MaskShape_parse. rewrite Hx.
    change (bs "@" ++ written) with ("@"%byte :: written). rewrite (rsplit_once_app _ head written Ha).
    unfold shape_network. rewrite (proj2 (split_once_None "/" written) Hs), Hp. done. }
  unfold names_address. rewrite Hsh, contains_from; [|done|by unfold ClientIp_new; rewrite <- Hc].
  unfold ClientIp_new. rewrite Hc, bool_decide_true by done. by rewrite Hm.
Qed.
End Spellings.

#[local] Existing Instance PlainIpNet.

(** A user cloaked behind a name, and a ban on the range it came from. *)
Lemma ban_sees_through_cloak_witness :
  ("@"%byte ∉ bs "cloak.test")
  /\ mask_key_matches (MaskKey_new (bs "*!*@203.0.113.0/24") Rfc1459) Rfc1459
       (MaskSubject_new (bs "n!u" ++ bs "@" ++ bs "cloak.test") (Some (V4 [xcb; x00; x71; x09])) None) = true.
Proof.
  assert ("@"%byte ∉ bs "cloak.test") as Hh by (apply contains_byte_false; reflexivity).
  split; [exact Hh|].
  rewrite (ban_sees_through_cloak (bs "*!*@203.0.113.0/24") Rfc1459 (bs "n!u") (bs "cloak.test")
             (V4 [xcb; x00; x71; x09]) None Hh).
  vm_compute. reflexivity.
Defined.
