(* ===== verification/Channel.v ===== *)
(** * Channel modes and mode locks ([e6ircd/src/core/state.rs], [ChanModes] and
      [MlockModes]; [enforce_mlock] of [core/handler/channel.rs])

    A channel's flag modes, key and limit with their printed form, the lock
    services keep on the flag modes, and its enforcement. *)

From S2P Require Import Prelude Str Keys Casemap Mask Num Wire Ip Address BanMask Nicks.
From stdpp Require Import gmap.

Local Open Scope Z_scope.

(** ** Flag modes *)

Record ChanModes : Type := MkChanModes {
  invite_only : bool;
  moderated : bool;
  no_external : bool;
  topic_ops_only : bool;
  secret : bool;
  no_ctcp : bool;
  free_invite : bool;
  chan_key : option str;
  chan_limit : option Z;
}.

Definition ChanModes_default : ChanModes := MkChanModes false false false false false false false None None.

Definition FLAGS : str := bs "gimnstC".

Definition flag (m : ChanModes) (c : byte) : option bool :=
  match c with
  | "g" => Some (free_invite m)
  | "i" => Some (invite_only m)
  | "m" => Some (moderated m)
  | "n" => Some (no_external m)
  | "s" => Some (secret m)
  | "t" => Some (topic_ops_only m)
  | "C" => Some (no_ctcp m)
  | _ => None
  end%byte.

(** [flag_mut] and the write through it; [None] for a byte that is no flag. *)
Definition set_flag (m : ChanModes) (c : byte) (v : bool) : option ChanModes :=
  let 'MkChanModes i mo n t s ct g k l := m in
  match c with
  | "g" => Some (MkChanModes i mo n t s ct v k l)
  | "i" => Some (MkChanModes v mo n t s ct g k l)
  | "m" => Some (MkChanModes i v n t s ct g k l)
  | "n" => Some (MkChanModes i mo v t s ct g k l)
  | "s" => Some (MkChanModes i mo n t v ct g k l)
  | "t" => Some (MkChanModes i mo n v s ct g k l)
  | "C" => Some (MkChanModes i mo n t s v g k l)
  | _ => None
  end%byte.

Definition with_key (m : ChanModes) (k : option str) : ChanModes :=
  let 'MkChanModes i mo n t s ct g _ l := m in MkChanModes i mo n t s ct g k l.
Definition with_limit (m : ChanModes) (l : option Z) : ChanModes :=
  let 'MkChanModes i mo n t s ct g k _ := m in MkChanModes i mo n t s ct g k l.

(** The mode string, then the key and the limit for a member. *)
Definition with_args (m : ChanModes) (member : bool) : list str :=
  let set := List.filter (fun c => bool_decide (flag m c = Some true)) FLAGS in
  let modes := bs "+" ++ set
    ++ match chan_key m with Some _ => bs "k" | None => [] end
    ++ match chan_limit m with Some _ => bs "l" | None => [] end in
  let args :=
    if member then
      match chan_key m with Some k => [k] | None => [] end
      ++ match chan_limit m with Some l => [dec l] | None => [] end
    else [] in
  modes :: args.

(** ** Mode locks *)

Record MlockModes : Type := MkMlock { lock_on : str; lock_off : str }.

Definition MlockModes_default : MlockModes := MkMlock [] [].
Definition LOCKABLE : str := FLAGS.

(** [String::retain(|x| x != c)]. *)
Definition without (c : byte) (s : str) : str := List.filter (fun x => negb (x =b? c)) s.

(** [Err] carries the character refused. *)
Fixpoint mlock_loop (spec : list str) (adding : bool) (m : MlockModes) : result str MlockModes :=
  match spec with
  | [] => Ok m
  | [c] :: spec =>
      if c =b? "+" then mlock_loop spec true m
      else if c =b? "-" then mlock_loop spec false m
      else if contains_byte c LOCKABLE then
        let on := without c (lock_on m) in
        let off := without c (lock_off m) in
        mlock_loop spec adding (if adding then MkMlock (on ++ [c]) off else MkMlock on (off ++ [c]))
      else Err [c]
  | other :: _ => Err other
  end.

Definition mlock_parse (spec : str) : result str MlockModes :=
  m ← mlock_loop (chars spec) true MlockModes_default;
  mret (MkMlock (List.filter (fun c => contains_byte c (lock_on m)) LOCKABLE)
                (List.filter (fun c => contains_byte c (lock_off m)) LOCKABLE)).

Definition mlock_render (m : MlockModes) : str :=
  (if is_empty (lock_on m) then [] else bs "+" ++ lock_on m)
  ++ (if is_empty (lock_off m) then [] else bs "-" ++ lock_off m).

Definition mlock_is_empty (m : MlockModes) : bool := is_empty (lock_on m) && is_empty (lock_off m).

(** The modes a lock turns on and off in a channel that differs from it. *)
Definition mlock_changes (m : MlockModes) (modes : ChanModes) : str * str :=
  (List.filter (fun c => bool_decide (flag modes c = Some false)) (lock_on m),
   List.filter (fun c => bool_decide (flag modes c = Some true)) (lock_off m)).

(** [set_chan_bool_mode] over the changes; [None] where the [expect] panics. *)
Fixpoint set_flags (cs : str) (v : bool) (modes : ChanModes) : option ChanModes :=
  match cs with
  | [] => Some modes
  | c :: cs => modes ← set_flag modes c v; set_flags cs v modes
  end.

(** [enforce_mlock]: the changed modes and the mode change announced, [None]
    when the channel already complies. *)
Definition enforce_mlock (m : MlockModes) (modes : ChanModes) : option (option (ChanModes * str)) :=
  let '(on, off) := mlock_changes m modes in
  if is_empty on && is_empty off then Some None
  else
    modes ← set_flags on true modes;
    modes ← set_flags off false modes;
    Some (Some (modes, mlock_render (MkMlock on off))).

(** ** Lemmas: flags *)

Lemma flag_dec c : c ∈ FLAGS \/ flag ChanModes_default c = None.
Proof. destruct c; (by right) || (left; by apply contains_byte_spec). Qed.

Lemma flag_is_Some m c : is_Some (flag m c) <-> c ∈ FLAGS.
Proof.
  rewrite <- contains_byte_spec. destruct c; cbn; split; intros H; try done; by destruct H.
Qed.

Lemma set_flag_flag m c v m' c' :
  set_flag m c v = Some m' -> flag m' c' = if c' =b? c then Some v else flag m c'.
Proof.
  destruct m as [i mo n t s ct g k l]. unfold set_flag.
  destruct c; try done; intros [= <-]; by destruct c'.
Qed.

Lemma set_flag_is_Some m c v : is_Some (set_flag m c v) <-> c ∈ FLAGS.
Proof.
  rewrite <- contains_byte_spec. destruct m as [i mo n t s ct g k l].
  destruct c; cbn; split; intros H; try done; by destruct H.
Qed.

Lemma set_flag_args m c v m' :
  set_flag m c v = Some m' -> chan_key m' = chan_key m /\ chan_limit m' = chan_limit m.
Proof.
  destruct m as [i mo n t s ct g k l]. unfold set_flag. destruct c; try done; by intros [= <-].
Qed.

(** ** Lemmas: mode locks *)

Definition singletons (s : str) : list str := (fun b => [b]) <$> s.

Lemma chars_ascii s : forallb is_ascii s = true -> chars s = singletons s.
Proof.
  unfold chars, singletons. induction s as [|b s IH]; [done|]. cbn [forallb]. intros [Hb Hs]%andb_true_iff.
  rewrite chunks_ascii_cons by done. cbn [fmap list_fmap]. by rewrite <- IH.
Qed.

(** What a spec asks of mode [c]: the sign before its last mention. *)
Fixpoint policy (spec : list str) (adding : bool) (c : byte) : option bool :=
  match spec with
  | [] => None
  | x :: spec =>
      let adding := if bool_decide (x = bs "+") then true else if bool_decide (x = bs "-") then false else adding in
      match policy spec adding c with
      | Some v => Some v
      | None => if bool_decide (x = [c]) then Some adding else None
      end
  end.

Lemma policy_plus spec adding c : c ∈ FLAGS -> policy (["+"%byte] :: spec) adding c = policy spec true c.
Proof.
  intros Hc. cbn [policy]. rewrite (bool_decide_true (_ = bs "+")) by done.
  rewrite (bool_decide_false (_ = [c])); [by destruct (policy _ _ _)|].
  intros [= <-]. by apply contains_byte_spec in Hc.
Qed.

Lemma policy_minus spec adding c : c ∈ FLAGS -> policy (["-"%byte] :: spec) adding c = policy spec false c.
Proof.
  intros Hc. cbn [policy]. rewrite (bool_decide_true (_ = bs "-")), (bool_decide_false (_ = bs "+")) by done.
  rewrite (bool_decide_false (_ = [c])); [by destruct (policy _ _ _)|].
  intros [= <-]. by apply contains_byte_spec in Hc.
Qed.

Lemma policy_mode spec adding x c :
  x <> "+"%byte -> x <> "-"%byte ->
  policy ([x] :: spec) adding c = match policy spec adding c with Some v => Some v | None => if x =b? c then Some adding else None end.
Proof.
  intros Hp Hm. cbn [policy]. rewrite !(bool_decide_false ([x] = bs _)) by (by intros [= ->]).
  destruct (policy _ _ _); [done|]. destruct (byte_eqb_spec x c) as [->|]; [by rewrite bool_decide_true|].
  by rewrite bool_decide_false by (intros [= ->]; done).
Qed.

Definition spec_char_ok (x : str) : Prop := x = bs "+" \/ x = bs "-" \/ exists c, x = [c] /\ c ∈ FLAGS.

(** The lock a policy stands for, its modes in the table's order. *)
Definition of_policy (p : byte -> option bool) : MlockModes :=
  MkMlock (List.filter (fun c => bool_decide (p c = Some true)) FLAGS)
          (List.filter (fun c => bool_decide (p c = Some false)) FLAGS).

Definition lock_of (m : MlockModes) (c : byte) : option bool :=
  if contains_byte c (lock_on m) then Some true
  else if contains_byte c (lock_off m) then Some false else None.

Lemma contains_without c x s : contains_byte c (without x s) = contains_byte c s && negb (c =b? x).
Proof.
  apply eq_true_iff_eq. rewrite andb_true_iff, negb_true_iff, !contains_byte_spec, byte_eqb_neq.
  unfold without. rewrite elem_of_Lfilter, negb_true_iff, byte_eqb_neq. done.
Qed.

Lemma contains_app c a b : contains_byte c (a ++ b) = contains_byte c a || contains_byte c b.
Proof. unfold contains_byte. apply existsb_app. Qed.

Lemma contains_one c x : contains_byte c [x] = (c =b? x).
Proof.
  apply eq_true_iff_eq. rewrite contains_byte_spec, list_elem_of_singleton. symmetry. apply byte_eqb_eq.
Qed.

(** The sets stay disjoint, so each mode has at most one sign. *)
Definition disjoint_lock (m : MlockModes) : Prop :=
  forall c, contains_byte c (lock_on m) && contains_byte c (lock_off m) = false.

Lemma mlock_loop_spec spec : forall adding m, disjoint_lock m ->
  match mlock_loop spec adding m with
  | Ok m' => Forall spec_char_ok spec /\ disjoint_lock m'
      /\ forall c, c ∈ FLAGS -> lock_of m' c = match policy spec adding c with Some v => Some v | None => lock_of m c end
  | Err x => ~ spec_char_ok x /\ x ∈ spec
  end.
Proof.
  induction spec as [|x spec IH]; intros adding m Hd; [by split_and!|].
  destruct x as [|c [|c2 x]].
  1, 3: cbn [mlock_loop]; split; [|by left]; by intros [?|[?|(? & ? & ?)]].
  cbn [mlock_loop]. destruct (byte_eqb_spec c "+") as [->|Hplus].
  { specialize (IH true m Hd). destruct (mlock_loop spec true m) as [m'|e].
    - destruct IH as (H1 & H2 & H3). split_and!; [by constructor; [left|]|done|]. intros c Hc.
      by rewrite (H3 c Hc), (policy_plus spec adding c Hc).
    - destruct IH. split; [done|by right]. }
  destruct (byte_eqb_spec c "-") as [->|Hminus].
  { specialize (IH false m Hd). destruct (mlock_loop spec false m) as [m'|e].
    - destruct IH as (H1 & H2 & H3). split_and!; [by constructor; [right; left|]|done|]. intros c Hc.
      by rewrite (H3 c Hc), (policy_minus spec adding c Hc).
    - destruct IH. split; [done|by right]. }
  destruct (contains_byte c LOCKABLE) eqn:El.
  - apply contains_byte_spec in El. set (m1 := if adding then _ else _).
    assert (disjoint_lock m1 /\ forall d, lock_of m1 d = if d =b? c then Some adding else lock_of m d) as [Hd1 Hl1].
    { subst m1. split.
      - intros d. specialize (Hd d). destruct adding; cbn [lock_on lock_off];
          rewrite contains_app, !contains_without, contains_one;
          destruct (d =b? c), (contains_byte d (lock_on m)), (contains_byte d (lock_off m)); done.
      - intros d. specialize (Hd d). unfold lock_of. destruct adding; cbn [lock_on lock_off];
          rewrite contains_app, !contains_without, contains_one;
          destruct (d =b? c), (contains_byte d (lock_on m)), (contains_byte d (lock_off m)); done. }
    clearbody m1. specialize (IH adding m1 Hd1). destruct (mlock_loop spec adding m1) as [m'|e].
    + destruct IH as (H1 & H2 & H3). split_and!; [|done|].
      * constructor; [|done]. right. right. by exists c.
      * intros d Hdf. rewrite (H3 d Hdf), policy_mode, Hl1 by done. destruct (policy spec adding d); [done|].
        destruct (byte_eqb_spec d c) as [->|Hne]; [by rewrite byte_eqb_refl|].
        by rewrite (proj2 (byte_eqb_neq c d)) by congruence.
    + destruct IH. split; [done|by right].
  - split; [|by left]. apply contains_byte_false in El.
    intros [[= ->]|[[= ->]|(d & [= ->] & Hd')]]; done.
Qed.

Lemma mlock_parse_policy spec m :
  mlock_parse spec = Ok m -> m = of_policy (policy (chars spec) true).
Proof.
  unfold mlock_parse. pose proof (mlock_loop_spec (chars spec) true MlockModes_default) as H.
  destruct (mlock_loop (chars spec) true MlockModes_default) as [m'|e]; [|done].
  intros E. assert (m = MkMlock (List.filter (fun c => contains_byte c (lock_on m')) LOCKABLE)
    (List.filter (fun c => contains_byte c (lock_off m')) LOCKABLE)) as -> by (by injection E).
  destruct H as (_ & Hd & Hl); [done|]. unfold of_policy, LOCKABLE.
  assert (forall c, c ∈ FLAGS -> lock_of m' c = policy (chars spec) true c) as Hl'.
  { intros c Hc. rewrite (Hl c Hc). by destruct (policy _ _ _). }
  f_equal; apply filter_ext_in; intros c Hc%list_elem_of_In; rewrite <- (Hl' c Hc); unfold lock_of;
    specialize (Hd c); destruct (contains_byte c (lock_on m')), (contains_byte c (lock_off m')); try done.
Qed.

Lemma contains_filter_FLAGS q c : c ∈ FLAGS -> contains_byte c (List.filter q FLAGS) = q c.
Proof. intros Hc. apply eq_true_iff_eq. rewrite contains_byte_spec, elem_of_Lfilter. naive_solver. Qed.

Lemma lock_of_policy p c : c ∈ FLAGS -> lock_of (of_policy p) c = p c.
Proof.
  intros Hc. unfold lock_of, of_policy. cbn [lock_on lock_off]. rewrite !contains_filter_FLAGS by done.
  destruct (p c) as [[]|]; [by rewrite bool_decide_true|by rewrite bool_decide_false, bool_decide_true|
    by rewrite !bool_decide_false].
Qed.

Lemma of_policy_ext p q : (forall c, c ∈ FLAGS -> p c = q c) -> of_policy p = of_policy q.
Proof. intros H. unfold of_policy. f_equal; apply filter_ext_in; intros c Hc%list_elem_of_In; by rewrite H. Qed.

(** A spec of known characters is accepted, one with any other refused. *)
Lemma mlock_parse_ok spec :
  Forall spec_char_ok (chars spec) -> mlock_parse spec = Ok (of_policy (policy (chars spec) true)).
Proof.
  intros Hok. pose proof (mlock_loop_spec (chars spec) true MlockModes_default) as H.
  pose proof (mlock_parse_policy spec) as Hp. unfold mlock_parse in *.
  destruct (mlock_loop (chars spec) true MlockModes_default) as [m'|e].
  - exact (f_equal Ok (Hp _ eq_refl)).
  - destruct H as [Hn Hin]; [done|]. rewrite Forall_forall in Hok. by apply Hok in Hin.
Qed.

(** A run of modes under one sign. *)
Lemma policy_run l rest adding c :
  Forall (fun x => x ∈ FLAGS) l ->
  policy (singletons l ++ rest) adding c
  = match policy rest adding c with
    | Some v => Some v
    | None => if contains_byte c l then Some adding else None
    end.
Proof.
  induction 1 as [|x l Hx Hl IH]; [cbn; by destruct (policy rest adding c)|].
  unfold singletons in *. cbn [fmap list_fmap app]. apply contains_byte_spec in Hx.
  rewrite policy_mode, IH by (by intros ->). cbn [contains_byte existsb].
  destruct (policy rest adding c); [done|]. fold (contains_byte c l). by destruct (contains_byte c l), (x =b? c).
Qed.

Definition flags_only (m : MlockModes) : Prop :=
  Forall (fun x => x ∈ FLAGS) (lock_on m) /\ Forall (fun x => x ∈ FLAGS) (lock_off m).

Lemma filter_FLAGS q : Forall (fun x => x ∈ FLAGS) (List.filter q FLAGS).
Proof. apply Forall_forall. intros x Hx%elem_of_Lfilter. tauto. Qed.

Lemma policy_flags_only p : flags_only (of_policy p).
Proof. split; apply filter_FLAGS. Qed.

Lemma FLAGS_ascii l : Forall (fun x => x ∈ FLAGS) l -> forallb is_ascii l = true.
Proof.
  intros H. apply forallb_forall. intros x Hx%list_elem_of_In. rewrite Forall_forall in H. apply H in Hx.
  by destruct x; apply contains_byte_spec in Hx.
Qed.

Lemma chars_render m :
  flags_only m ->
  chars (mlock_render m)
  = (if is_empty (lock_on m) then [] else ["+"%byte] :: singletons (lock_on m))
    ++ (if is_empty (lock_off m) then [] else ["-"%byte] :: singletons (lock_off m)).
Proof.
  intros [Hon%FLAGS_ascii Hoff%FLAGS_ascii]. rewrite chars_ascii.
  - unfold mlock_render, singletons. rewrite fmap_app. by destruct (lock_on m), (lock_off m).
  - unfold mlock_render. rewrite forallb_app.
    destruct (is_empty (lock_on m)), (is_empty (lock_off m)); cbn [app bs]; rewrite ?forallb_app; cbn; by rewrite ?Hon, ?Hoff.
Qed.

Lemma policy_render m c :
  flags_only m -> c ∈ FLAGS -> disjoint_lock m -> policy (chars (mlock_render m)) true c = lock_of m c.
Proof.
  intros Hf Hc Hd. rewrite chars_render by done. destruct Hf as [Hon Hoff]. specialize (Hd c).
  assert (forall b, policy (if is_empty (lock_off m) then [] else ["-"%byte] :: singletons (lock_off m)) b c
    = if contains_byte c (lock_off m) then Some false else None) as Hpo.
  { intros b. destruct (lock_off m) as [|x l] eqn:E; [done|]. cbn [is_empty]. rewrite <- E.
    rewrite policy_minus, <- (app_nil_r (singletons _)), policy_run by (done || by rewrite E). done. }
  unfold lock_of. destruct (lock_on m) as [|x l] eqn:E; [apply Hpo|]. cbn [is_empty app]. rewrite <- E in *.
  rewrite policy_plus, policy_run, Hpo by done.
  by destruct (contains_byte c (lock_on m)), (contains_byte c (lock_off m)).
Qed.

Lemma render_ok m : flags_only m -> Forall spec_char_ok (chars (mlock_render m)).
Proof.
  intros Hf. rewrite chars_render by done. destruct Hf as [Hon Hoff].
  assert (forall l, Forall (fun x => x ∈ FLAGS) l -> Forall spec_char_ok (singletons l)) as Hs.
  { intros l Hl. unfold singletons. apply Forall_fmap. eapply Forall_impl; [exact Hl|]. intros x Hx. right. right. by exists x. }
  apply Forall_app. split; [destruct (lock_on m) eqn:E|destruct (lock_off m) eqn:E]; try constructor; auto.
  - by left.
  - by right; left.
Qed.

Lemma policy_disjoint p : disjoint_lock (of_policy p).
Proof.
  intros c. apply not_true_is_false. rewrite andb_true_iff, !contains_byte_spec.
  intros [[Hc H1]%elem_of_Lfilter [_ H2]%elem_of_Lfilter]. apply bool_decide_eq_true in H1, H2. congruence.
Qed.

Lemma mlock_parse_render p : mlock_parse (mlock_render (of_policy p)) = Ok (of_policy p).
Proof.
  pose proof (policy_flags_only p) as Hf. rewrite mlock_parse_ok by (by apply render_ok). f_equal.
  apply of_policy_ext. intros c Hc. rewrite policy_render by auto using policy_disjoint. by apply lock_of_policy.
Qed.

(** What enforcing a lock changes: the locked modes that differ. *)
Definition differing (p : byte -> option bool) (modes : ChanModes) (c : byte) : option bool :=
  if bool_decide (flag modes c = p c) then None else p c.

Lemma flag_FLAGS modes c : c ∈ FLAGS -> exists v, flag modes c = Some v.
Proof. intros Hc. by apply (flag_is_Some modes c). Qed.

Lemma mlock_changes_policy p modes on off :
  mlock_changes (of_policy p) modes = (on, off) -> MkMlock on off = of_policy (differing p modes).
Proof.
  unfold mlock_changes. cbn [of_policy lock_on lock_off]. rewrite !filter_filter_and. intros E.
  assert (on = fst (on, off)) as -> by done. assert (off = snd (on, off)) as Hoff by done. rewrite Hoff at 2.
  rewrite <- E. cbn [fst snd]. unfold of_policy, differing.
  f_equal; apply filter_ext_in; intros c Hc%list_elem_of_In;
    destruct (flag_FLAGS modes c Hc) as [v ->]; by destruct v, (p c) as [[]|].
Qed.

Lemma set_flags_spec cs v : forall modes, Forall (fun c => c ∈ FLAGS) cs ->
  exists modes', set_flags cs v modes = Some modes'
    /\ (forall c, flag modes' c = if contains_byte c cs then Some v else flag modes c)
    /\ chan_key modes' = chan_key modes /\ chan_limit modes' = chan_limit modes.
Proof.
  induction cs as [|x cs IH]; intros modes Hcs; [by exists modes|]. apply Forall_cons in Hcs as [Hx Hcs].
  destruct (proj2 (set_flag_is_Some modes x v) Hx) as [m1 E1].
  destruct (IH m1 Hcs) as (m2 & E2 & Hf & Hk & Hl). exists m2. cbn [set_flags]. rewrite E1. split; [done|].
  destruct (set_flag_args _ _ _ _ E1) as [Hk1 Hl1]. split; [|by rewrite Hk, Hl].
  intros c. rewrite Hf, (set_flag_flag _ _ _ _ c E1). cbn [contains_byte existsb]. fold (contains_byte c cs).
  destruct (contains_byte c cs), (byte_eqb_spec c x) as [->|Hne]; rewrite ?byte_eqb_refl; try done.
  - by rewrite orb_true_r.
  - by rewrite (proj2 (byte_eqb_neq x c)).
Qed.

(** ** Mode locks: theorems *)

(** [MlockModes::parse] accepts exactly the specifications made of signs
    and flag modes and otherwise names an offending character; an accepted
    lock asks of each mode what the sign before its last mention asks
    ([lock_of]: on, off or nothing), and printing a lock and parsing it again
    gives the same lock, so a lock read back from the database is the one
    stored. *)
Theorem mlock_parse_correct (spec : str) :
  match mlock_parse spec with
  | Ok m =>
      Forall spec_char_ok (chars spec)
      /\ (forall c, c ∈ FLAGS -> lock_of m c = policy (chars spec) true c)
      /\ mlock_parse (mlock_render m) = Ok m
  | Err x => ~ spec_char_ok x /\ x ∈ chars spec
  end.
Proof.
  pose proof (mlock_loop_spec (chars spec) true MlockModes_default ltac:(done)) as H.
  pose proof (mlock_parse_policy spec) as Hp. destruct (mlock_parse spec) as [m|x] eqn:E.
  - rewrite (Hp _ eq_refl). split_and!.
    + unfold mlock_parse in E. by destruct (mlock_loop _ _ _); [|done]; destruct H.
    + intros c Hc. by apply lock_of_policy.
    + apply mlock_parse_render.
  - unfold mlock_parse in E. destruct (mlock_loop _ _ _) as [m|y]; [done|]. by injection E as ->.
Qed.

(** [enforce_mlock] never panics.  When it changes nothing the channel
    already complies with the lock; otherwise every locked mode ends up as the
    lock asks, every other mode, the key and the limit stay as they were, some
    mode did change, and the announced mode string names exactly the modes
    whose value changed, each with its new sign. *)
Theorem enforce_mlock_correct (spec : str) (m : MlockModes) (modes : ChanModes)
    (Hm : mlock_parse spec = Ok m) :
  match enforce_mlock m modes with
  | None => False
  | Some None => forall c v, c ∈ FLAGS -> lock_of m c = Some v -> flag modes c = Some v
  | Some (Some (modes', announced)) =>
      (forall c, c ∈ FLAGS -> flag modes' c = match lock_of m c with Some v => Some v | None => flag modes c end)
      /\ chan_key modes' = chan_key modes /\ chan_limit modes' = chan_limit modes
      /\ (exists c, c ∈ FLAGS /\ flag modes' c <> flag modes c)
      /\ mlock_parse announced
         = Ok (of_policy (fun c => if bool_decide (flag modes' c = flag modes c) then None else flag modes' c))
  end.
Proof.
  apply mlock_parse_policy in Hm as ->. set (p := policy (chars spec) true). clearbody p.
  unfold enforce_mlock. destruct (mlock_changes (of_policy p) modes) as [on off] eqn:E.
  apply mlock_changes_policy in E. pose proof (policy_flags_only (differing p modes)) as Hf. rewrite <- E in Hf.
  assert (forall c, c ∈ FLAGS -> lock_of (MkMlock on off) c = differing p modes c) as Hl
    by (intros c Hc; rewrite E; by apply lock_of_policy).
  pose proof (policy_disjoint (differing p modes)) as Hd. rewrite <- E in Hd.
  destruct (is_empty on && is_empty off) eqn:Ee.
  - apply andb_true_iff in Ee as [Eon Eoff]. destruct on, off; try done. intros c v Hc.
    rewrite lock_of_policy by done. intros Hv. specialize (Hl c Hc). unfold differing in Hl. cbn in Hl.
    rewrite Hv in Hl. by destruct (bool_decide (flag modes c = Some v)) eqn:Eb; [apply bool_decide_eq_true in Eb|].
  - destruct Hf as [Hon Hoff]. cbn [lock_on lock_off] in Hon, Hoff.
    destruct (set_flags_spec on true modes Hon) as (m1 & -> & H1 & Hk1 & Hl1). cbn [mbind option_bind].
    destruct (set_flags_spec off false m1 Hoff) as (m2 & -> & H2 & Hk2 & Hl2). cbn [mbind option_bind].
    assert (forall c, c ∈ FLAGS -> flag m2 c = match differing p modes c with Some v => Some v | None => flag modes c end) as Hfl.
    { intros c Hc. rewrite H2, H1, <- (Hl c Hc). unfold lock_of. cbn [lock_on lock_off]. specialize (Hd c). cbn [lock_on lock_off] in Hd.
      by destruct (contains_byte c on), (contains_byte c off). }
    split_and!; [|congruence|congruence| |].
    + intros c Hc. rewrite lock_of_policy, Hfl by done. unfold differing. case_bool_decide as Ec; [|done].
      by destruct (p c).
    + assert (exists c, c ∈ FLAGS /\ lock_of (MkMlock on off) c <> None) as (c & Hc & Hn).
      { destruct on as [|c on]; [destruct off as [|c off]; [done|]|]; exists c; [inv Hoff|inv Hon];
          (split; [done|]); unfold lock_of, contains_byte; cbn; by rewrite byte_eqb_refl. }
      exists c. split; [done|]. rewrite (Hl c Hc) in Hn. rewrite (Hfl c Hc). unfold differing in *.
      case_bool_decide as Ec; [done|]. destruct (p c); congruence.
    + rewrite E, mlock_parse_render. f_equal. apply of_policy_ext. intros c Hc. rewrite (Hfl c Hc).
      unfold differing. case_bool_decide as Ec; [by rewrite bool_decide_true|].
      destruct (p c) as [v|] eqn:Ep; [by rewrite bool_decide_false|by rewrite bool_decide_true].
Qed.

Lemma enforce_mlock_correct_witness :
  exists m modes', enforce_mlock m ChanModes_default = Some (Some (modes', bs "+nt"))
    /\ (forall c, c ∈ FLAGS -> flag modes' c = match lock_of m c with Some v => Some v | None => flag ChanModes_default c end).
Proof.
  exists (MkMlock (bs "nt") (bs "s")). eexists. split; [reflexivity|].
  apply (enforce_mlock_correct (bs "+n-s+t") (MkMlock (bs "nt") (bs "s")) ChanModes_default). reflexivity.
Defined.
