(* ===== verification/HistoryRing.v ===== *)
(** * History rings ([e6ircd/src/core/hot_history.rs], [e6ircd/src/core/mod.rs])

    A buffer's recent messages, kept in the order of their places (time stamp,
    then message id), bounded in entries and in bytes.  The specification is
    the whole history: every entry the ring was given and has not been told to
    erase, in order.  The ring holds a suffix of it.  Byte and entry counts are
    unbounded integers here; that they equal sums over the entries held shows
    that the subtractions on [usize] never underflow. *)

From S2P Require Import Prelude Str Num.
From stdpp Require Import sorting.

Local Open Scope Z_scope.

Definition HISTORY_RING_CAP : nat := 500.

(** ** Entries and places *)

Inductive HistoryKind : Type := KPrivmsg | KNotice | KTagmsg.
#[global] Instance HistoryKind_eq_dec : EqDecision HistoryKind.
Proof. solve_decision. Defined.

Inductive HistoryScope : Type := Text | TextAndTags.
#[global] Instance HistoryScope_eq_dec : EqDecision HistoryScope.
Proof. solve_decision. Defined.

Definition scope_admits (scope : HistoryScope) (kind : HistoryKind) : bool :=
  bool_decide (scope = TextAndTags) || negb (bool_decide (kind = KTagmsg)).

Record HistoryRow : Type := MkRow {
  row_msgid : str;
  row_ts : Z;
  row_sender_prefix : str;
  row_sender_account : option str;
  row_kind : HistoryKind;
  row_body : str;
  row_sender_is_bot : bool;
  row_multiline : option str;
  row_client_tags : str;
}.

#[global] Instance HistoryRow_eq_dec : EqDecision HistoryRow.
Proof. solve_decision. Defined.

(** The derived order: the time, then the id, an absent id first. *)
Record HistoryPlace : Type := MkPlace { place_ts : Z; place_msgid : option str }.

Definition msgid_ltb (a b : option str) : bool :=
  match a, b with
  | None, Some _ => true
  | Some a, Some b => str_ltb a b
  | _, None => false
  end.

Definition place_ltb (a b : HistoryPlace) : bool :=
  (place_ts a <? place_ts b)
  || ((place_ts a =? place_ts b) && msgid_ltb (place_msgid a) (place_msgid b)).
Definition place_leb (a b : HistoryPlace) : bool := negb (place_ltb b a).

Definition place (row : HistoryRow) : HistoryPlace := MkPlace (row_ts row) (Some (row_msgid row)).

Definition zlen (s : str) : Z := Z.of_nat (length s).
Definition opt_len (s : option str) : Z := match s with Some s => zlen s | None => 0 end.

(** ** Newest entries per scope *)

Record Latest : Type := MkLatest { latest_text : option Z; latest_text_and_tags : option Z }.

Definition in_scope (l : Latest) (scope : HistoryScope) : option Z :=
  match scope with Text => latest_text l | TextAndTags => latest_text_and_tags l end.

Record ScopeNewest : Type := MkScopeNewest { held : Z; newest : option Z }.
Definition ScopeNewest_default : ScopeNewest := MkScopeNewest 0 None.

(** [Option]'s [max]: [None] is below every value. *)
Definition opt_max (a : option Z) (b : Z) : option Z := Some (match a with Some a => Z.max a b | None => b end).

Definition newest_push (ts : Z) (s : ScopeNewest) : ScopeNewest :=
  MkScopeNewest (held s + 1) (opt_max (newest s) ts).
Definition newest_expire (s : ScopeNewest) : ScopeNewest :=
  let held := held s - 1 in MkScopeNewest held (if held =? 0 then None else newest s).

Record ScopedMaxima : Type := MkMaxima { maxima_text : ScopeNewest; maxima_text_and_tags : ScopeNewest }.
Definition ScopedMaxima_default : ScopedMaxima := MkMaxima ScopeNewest_default ScopeNewest_default.

(** The loop over [scopes()], [f] applied to the scopes that admit the entry. *)
Definition on_scopes (kind : HistoryKind) (f : ScopeNewest -> ScopeNewest) (m : ScopedMaxima) : ScopedMaxima :=
  MkMaxima (if scope_admits Text kind then f (maxima_text m) else maxima_text m)
           (if scope_admits TextAndTags kind then f (maxima_text_and_tags m) else maxima_text_and_tags m).

Definition maxima_push (entry : HistoryRow) (m : ScopedMaxima) : ScopedMaxima :=
  on_scopes (row_kind entry) (newest_push (row_ts entry)) m.
Definition maxima_expire (oldest : HistoryRow) (m : ScopedMaxima) : ScopedMaxima :=
  on_scopes (row_kind oldest) newest_expire m.
Definition maxima_latest (m : ScopedMaxima) : Latest :=
  MkLatest (newest (maxima_text m)) (newest (maxima_text_and_tags m)).

(** ** The ring *)

Record HistoryRing : Type := MkRing {
  entries : list HistoryRow;
  complete : bool;
  shed_through : option (Z * str);
  maxima : ScopedMaxima;
  ring_bytes : Z;
}.

Definition HistoryRing_new (complete : bool) : HistoryRing :=
  MkRing [] complete None ScopedMaxima_default 0.

Definition ring_latest (r : HistoryRing) : Latest := maxima_latest (maxima r).

(** [iter().rposition(p)]. *)
Fixpoint rposition {A} (p : A -> bool) (l : list A) : option nat :=
  match l with
  | [] => None
  | x :: l =>
      match rposition p l with
      | Some i => Some (S i)
      | None => if p x then Some 0%nat else None
      end
  end.

(** [VecDeque::insert]. *)
Definition insert_at {A} (i : nat) (x : A) (l : list A) : list A := take i l ++ x :: drop i l.

Section Ring.
(** [size_of::<HistoryEntry>()]. *)
Context (entry_size : N).

Definition footprint (entry : HistoryRow) : Z :=
  Z.of_N entry_size + zlen (row_msgid entry) + zlen (row_sender_prefix entry)
  + opt_len (row_sender_account entry) + zlen (row_body entry) + opt_len (row_multiline entry)
  + zlen (row_client_tags entry).

(** The [while] of [push]. *)
Fixpoint shed_loop (budget : Z) (l : list HistoryRow) (complete : bool) (shed : option (Z * str))
    (m : ScopedMaxima) (bytes : Z) : HistoryRing :=
  match l with
  | [] => MkRing l complete shed m bytes
  | oldest :: rest =>
      if (HISTORY_RING_CAP <? length l)%nat || ((budget <? bytes) && (1 <? length l)%nat)
      then shed_loop budget rest false (Some (row_ts oldest, row_msgid oldest))
             (maxima_expire oldest m) (bytes - footprint oldest)
      else MkRing l complete shed m bytes
  end.

Definition before_shed (entry : HistoryRow) (r : HistoryRing) : bool :=
  match shed_through r with
  | Some (ts, msgid) => place_ltb (place entry) (MkPlace ts (Some msgid))
  | None => false
  end.

Definition position_of (entry : HistoryRow) (l : list HistoryRow) : nat :=
  match rposition (fun held => place_leb (place held) (place entry)) l with
  | Some before => S before
  | None => 0
  end.

Definition ring_push (entry : HistoryRow) (budget : Z) (r : HistoryRing) : HistoryRing :=
  if before_shed entry r then r
  else
    shed_loop budget (insert_at (position_of entry (entries r)) entry (entries r)) (complete r) (shed_through r)
      (maxima_push entry (maxima r)) (ring_bytes r + footprint entry).

(** [retain], with whether anything was removed. *)
Definition ring_retain (keep : HistoryRow -> bool) (r : HistoryRing) : bool * HistoryRing :=
  let kept := List.filter keep (entries r) in
  if (length kept =? length (entries r))%nat then (false, r)
  else
    let r' := fold_left (fun r entry => ring_push entry U64_MAX r) kept (HistoryRing_new (complete r)) in
    (true, MkRing (entries r') (complete r') (shed_through r) (maxima r') (ring_bytes r')).
End Ring.

(** ** The order of places *)

Definition place_le (a b : HistoryPlace) : Prop := place_leb a b = true.
Definition row_le (a b : HistoryRow) : Prop := place_le (place a) (place b).

Lemma msgid_ltb_asym a b : msgid_ltb a b = true -> msgid_ltb b a = false.
Proof. destruct a, b; cbn; try done. apply str_ltb_asym. Qed.

Lemma msgid_not_lt_trans a b c : msgid_ltb b a = false -> msgid_ltb c b = false -> msgid_ltb c a = false.
Proof. destruct a, b, c; cbn; try done. apply str_not_lt_trans. Qed.

Lemma place_ltb_asym a b : place_ltb a b = true -> place_ltb b a = false.
Proof.
  unfold place_ltb. intros [H|[H1%Z.eqb_eq H2]%andb_true_iff]%orb_true_iff.
  - apply Z.ltb_lt in H. rewrite (proj2 (Z.ltb_ge _ _)), (proj2 (Z.eqb_neq _ _)) by lia. done.
  - rewrite H1, Z.ltb_irrefl, (msgid_ltb_asym _ _ H2). by rewrite andb_false_r.
Qed.

Lemma place_le_trans a b c : place_le a b -> place_le b c -> place_le a c.
Proof.
  unfold place_le, place_leb, place_ltb. rewrite !negb_true_iff, !orb_false_iff, !andb_false_iff, !Z.ltb_ge, !Z.eqb_neq.
  intros [H1 H2] [H3 H4]. split; [lia|].
  destruct H2 as [|H2], H4 as [|H4]; try (left; lia).
  right. by eapply msgid_not_lt_trans.
Qed.

Lemma place_lt_le a b : place_ltb a b = true -> place_le a b.
Proof. intros H. unfold place_le, place_leb. by rewrite place_ltb_asym. Qed.

Lemma place_nlt_le a b : place_ltb a b = false -> place_le b a.
Proof. unfold place_le, place_leb. by intros ->. Qed.

Lemma place_le_ts a b : place_le a b -> place_ts a <= place_ts b.
Proof. unfold place_le, place_leb, place_ltb. rewrite negb_true_iff, orb_false_iff, Z.ltb_ge. tauto. Qed.

#[global] Instance row_le_trans : Transitive row_le.
Proof. intros a b c. apply place_le_trans. Qed.

(** ** Specification: the whole history in order *)

(** A row goes after every row placed no later. *)
Fixpoint place_insert (entry : HistoryRow) (l : list HistoryRow) : list HistoryRow :=
  match l with
  | [] => [entry]
  | x :: l' => if place_leb (place x) (place entry) then x :: place_insert entry l' else entry :: l
  end.

Inductive ROp : Type := RPush (entry : HistoryRow) | RRetain (keep : HistoryRow -> bool).

Definition history_step (all : list HistoryRow) (o : ROp) : list HistoryRow :=
  match o with
  | RPush entry => place_insert entry all
  | RRetain keep => List.filter keep all
  end.

(** The latest time stamp of the rows a scope admits. *)
Definition max_ts (l : list HistoryRow) : option Z := foldr (fun x acc => opt_max acc (row_ts x)) None l.
Definition in_scope_of (scope : HistoryScope) (l : list HistoryRow) : list HistoryRow :=
  List.filter (fun x => scope_admits scope (row_kind x)) l.
Definition latest_of (l : list HistoryRow) : Latest :=
  MkLatest (max_ts (in_scope_of Text l)) (max_ts (in_scope_of TextAndTags l)).

Lemma place_insert_perm e l : place_insert e l ≡ₚ e :: l.
Proof. induction l as [|x l IH]; [done|]. cbn. destruct (place_leb _ _); [|done]. rewrite IH. constructor. Qed.

Lemma place_insert_sorted e l : StronglySorted row_le l -> StronglySorted row_le (place_insert e l).
Proof.
  induction 1 as [|x l Hs IH Hx]; [repeat constructor|]. cbn. destruct (place_leb (place x) (place e)) eqn:E.
  - constructor; [done|]. rewrite place_insert_perm. by constructor.
  - apply negb_false_iff, place_lt_le in E. constructor; [by constructor|].
    constructor; [done|]. eapply Forall_impl; [exact Hx|]. intros y Hy. by eapply row_le_trans.
Qed.

Lemma place_insert_older e older l :
  Forall (fun x => place_le (place x) (place e)) older ->
  place_insert e (older ++ l) = older ++ place_insert e l.
Proof. induction 1 as [|x older Hx _ IH]; [done|]. cbn. unfold place_le in Hx. by rewrite Hx, IH. Qed.

Lemma place_insert_newer e older l :
  Forall (fun x => place_ltb (place e) (place x) = true) l ->
  place_insert e (older ++ l) = place_insert e older ++ l.
Proof.
  intros Hl. induction older as [|x older IH]; cbn.
  - destruct Hl as [|x l Hx _]; [done|]. cbn. unfold place_leb. by rewrite Hx.
  - destruct (place_leb _ _); [|done]. cbn. by rewrite IH.
Qed.

Lemma rposition_Some {A} (p : A -> bool) l i : rposition p l = Some i -> exists x, x ∈ l /\ p x = true.
Proof.
  revert i. induction l as [|y l IH]; intros i; cbn [rposition]; [done|].
  destruct (rposition p l) as [j|]; [destruct (IH j eq_refl) as (x & Hx & Hp); exists x; by split; [right|]|].
  destruct (p y) eqn:Ey; [|done]. exists y. by split; [left|].
Qed.

(** The position [rposition] finds is the insertion point. *)
Lemma insert_at_position e l :
  StronglySorted row_le l -> insert_at (position_of e l) e l = place_insert e l.
Proof.
  induction 1 as [|x l Hs IH Hx]; [done|]. unfold position_of, insert_at in *. cbn [rposition place_insert].
  destruct (rposition _ l) as [i|] eqn:E.
  - assert (place_leb (place x) (place e) = true) as ->; [|cbn; by rewrite <- IH].
    apply rposition_Some in E as (y & Hy & Hp). rewrite Forall_forall in Hx.
    by apply (place_le_trans _ (place y)); [apply Hx|].
  - cbn in IH. destruct (place_leb (place x) (place e)); cbn; [by rewrite <- IH|done].
Qed.

(** ** Newest entries per scope: lemmas *)

Lemma opt_max_comm a x y : opt_max (opt_max a x) y = opt_max (opt_max a y) x.
Proof. unfold opt_max. destruct a; f_equal; lia. Qed.

#[global] Instance max_ts_perm : Proper ((≡ₚ) ==> eq) max_ts.
Proof.
  intros l l' Hp. induction Hp as [|x l l' _ IH|x y l|]; cbn; [done|by f_equal| |congruence].
  apply opt_max_comm.
Qed.

Lemma max_ts_above x l :
  l <> [] -> Forall (fun y => row_ts x <= row_ts y) l -> max_ts (x :: l) = max_ts l.
Proof.
  intros Hne Hl. destruct Hl as [|y l Hy _]; [done|]. cbn. unfold opt_max. f_equal.
  destruct (foldr _ None l); lia.
Qed.

Definition scope_ok (scope : HistoryScope) (s : ScopeNewest) (l : list HistoryRow) : Prop :=
  held s = Z.of_nat (length (in_scope_of scope l)) /\ newest s = max_ts (in_scope_of scope l).

Definition maxima_ok (m : ScopedMaxima) (l : list HistoryRow) : Prop :=
  scope_ok Text (maxima_text m) l /\ scope_ok TextAndTags (maxima_text_and_tags m) l.

#[global] Instance scope_ok_perm scope s : Proper ((≡ₚ) ==> iff) (scope_ok scope s).
Proof.
  intros l l' Hp. unfold scope_ok, in_scope_of.
  by rewrite (Lfilter_Permutation (fun x => scope_admits scope (row_kind x)) l l' Hp).
Qed.

#[global] Instance maxima_ok_perm m : Proper ((≡ₚ) ==> iff) (maxima_ok m).
Proof. intros l l' Hp. unfold maxima_ok. by rewrite Hp. Qed.

Lemma scope_push scope s l e :
  scope_ok scope s l ->
  scope_ok scope (if scope_admits scope (row_kind e) then newest_push (row_ts e) s else s) (e :: l).
Proof.
  unfold scope_ok, in_scope_of. intros [Hh Hn]. cbn [List.filter].
  destruct (scope_admits scope (row_kind e)); [|done]. cbn. rewrite Hh, Hn. split; [lia|done].
Qed.

Lemma scope_expire scope s l e :
  Forall (row_le e) l -> scope_ok scope s (e :: l) ->
  scope_ok scope (if scope_admits scope (row_kind e) then newest_expire s else s) l.
Proof.
  unfold scope_ok, in_scope_of. intros Hl [Hh Hn]. cbn [List.filter] in *.
  destruct (scope_admits scope (row_kind e)); [|done]. unfold newest_expire. cbn [held newest].
  set (rest := List.filter _ l) in *. rewrite Hh. cbn [length]. split; [lia|].
  destruct (Z.eqb_spec (Z.of_nat (S (length rest)) - 1) 0) as [E|E].
  - destruct rest; [done|cbn in E; lia].
  - rewrite Hn. apply max_ts_above; [by intros ->|].
    apply Forall_forall. intros y [Hy _]%elem_of_Lfilter. rewrite Forall_forall in Hl. apply Hl in Hy.
    by apply place_le_ts in Hy.
Qed.

Lemma maxima_push_ok m l e : maxima_ok m l -> maxima_ok (maxima_push e m) (e :: l).
Proof. intros [H1 H2]. split; [by apply (scope_push Text)|by apply (scope_push TextAndTags)]. Qed.

Lemma maxima_expire_ok m l e : Forall (row_le e) l -> maxima_ok m (e :: l) -> maxima_ok (maxima_expire e m) l.
Proof. intros Hl [H1 H2]. split; [by apply (scope_expire Text _ l e)|by apply (scope_expire TextAndTags _ l e)]. Qed.

(** ** The ring invariant *)

Section Inv.
Context (entry_size : N).

Abbreviation footprint := (footprint entry_size).
Abbreviation ring_push := (ring_push entry_size).
Abbreviation ring_retain := (ring_retain entry_size).

Fixpoint total_bytes (l : list HistoryRow) : Z :=
  match l with [] => 0 | x :: l => footprint x + total_bytes l end.

#[local] Instance total_bytes_perm : Proper ((≡ₚ) ==> eq) total_bytes.
Proof.
  intros l l' Hp. induction Hp as [|x l l' _ IH|x y l|]; cbn; [done|by f_equal|lia|congruence].
Qed.

Lemma footprint_nonneg x : 0 <= footprint x.
Proof. unfold footprint, opt_len, zlen. destruct (row_sender_account x), (row_multiline x); lia. Qed.

Lemma total_bytes_nonneg l : 0 <= total_bytes l.
Proof. induction l as [|x l IH]; cbn; [lia|]. pose proof (footprint_nonneg x). lia. Qed.

Lemma total_bytes_filter f l : total_bytes (List.filter f l) <= total_bytes l.
Proof. induction l as [|x l IH]; cbn; [lia|]. pose proof (footprint_nonneg x). destruct (f x); cbn; lia. Qed.

(** Over one of the ring's bounds. *)
Definition over (budget : Z) (l : list HistoryRow) : bool :=
  (HISTORY_RING_CAP <? length l)%nat || ((budget <? total_bytes l) && (1 <? length l)%nat).

(** What has been shed is placed no later than [shed_through], what is held no
    earlier. *)
Definition split_ok (shed : option (Z * str)) (older l : list HistoryRow) : Prop :=
  match shed with
  | None => older = []
  | Some (ts, id) =>
      Forall (fun x => place_le (place x) (MkPlace ts (Some id))) older
      /\ Forall (fun x => place_le (MkPlace ts (Some id)) (place x)) l
  end.

(** [r] holds the newest rows [all] has, [older] being the rest. *)
Record holds (all older : list HistoryRow) (r : HistoryRing) : Prop := {
  holds_split : all = older ++ entries r;
  holds_sorted : StronglySorted row_le all;
  holds_shed : split_ok (shed_through r) older (entries r);
  holds_complete : complete r = true -> shed_through r = None;
  holds_maxima : maxima_ok (maxima r) (entries r);
  holds_bytes : ring_bytes r = total_bytes (entries r);
}.

(** The shedding loop drops the shortest prefix that brings the rest within
    the bounds. *)
Lemma shed_loop_spec budget all l : forall older c s m b,
  holds all older (MkRing l c s m b) ->
  exists dropped,
    let r := shed_loop entry_size budget l c s m b in
    l = dropped ++ entries r
    /\ holds all (older ++ dropped) r
    /\ over budget (entries r) = false
    /\ (forall k, (k < length dropped)%nat -> over budget (drop k l) = true)
    /\ (dropped = [] -> r = MkRing l c s m b).
Proof.
  induction l as [|x l IH]; intros older c s m b Hr.
  { exists []. rewrite app_nil_r. split_and!; try done; [|cbn; lia]. unfold over. cbn. by rewrite andb_false_r. }
  pose proof Hr as [Hall Hs Hsp Hc Hm Hb]. cbn [entries shed_through complete maxima ring_bytes] in *. cbn [shed_loop].
  destruct (_ || _) eqn:E; rewrite Hb in E; fold (over budget (x :: l)) in E.
  - destruct (IH (older ++ [x]) false (Some (row_ts x, row_msgid x)) (maxima_expire x m) (b - footprint x))
      as (dropped & Hl & Hh & Ho & Hk & _).
    { rewrite Hall in Hs. apply StronglySorted_app in Hs as (Hs1 & Hs2 & Hs3).
      inversion Hs3 as [|? ? Hs4 Hx]; subst. split; cbn [entries shed_through complete maxima ring_bytes].
      - by rewrite <- app_assoc.
      - by apply StronglySorted_app.
      - split; [|by eapply Forall_impl; [exact Hx|]]. apply Forall_app. split; [|repeat constructor].
        + apply Forall_forall. intros y Hy. apply Hs1; [done|]. left.
        + apply place_nlt_le. unfold place_ltb. cbn. by rewrite Z.ltb_irrefl, str_ltb_irrefl, andb_false_r.
      - done.
      - by apply maxima_expire_ok.
      - cbn. lia. }
    exists (x :: dropped). split_and!; [cbn; by rewrite <- Hl|by rewrite cons_middle, app_assoc|done| |done].
    intros [|k] Hlt; [done|]. cbn. apply Hk. cbn in Hlt. lia.
  - exists []. rewrite app_nil_r. split_and!; try done. cbn. lia.
Qed.

Lemma ring_push_spec all older r e budget :
  holds all older r ->
  exists older', holds (place_insert e all) older' (ring_push e budget r)
    /\ if before_shed e r then ring_push e budget r = r
       else exists dropped,
         place_insert e (entries r) = dropped ++ entries (ring_push e budget r)
         /\ over budget (entries (ring_push e budget r)) = false
         /\ (forall k, (k < length dropped)%nat -> over budget (drop k (place_insert e (entries r))) = true)
         /\ (dropped = [] -> complete (ring_push e budget r) = complete r
                             /\ shed_through (ring_push e budget r) = shed_through r).
Proof.
  intros [Hall Hs Hsp Hc Hm Hb]. pose proof (place_insert_sorted e all Hs) as Hs'.
  unfold ring_push. destruct (before_shed e r) eqn:Eb.
  - unfold before_shed in Eb. destruct (shed_through r) as [[ts id]|] eqn:Est; [|done].
    destruct Hsp as [Hsp1 Hsp2]. exists (place_insert e older). split; [|done].
    assert (place_insert e all = place_insert e older ++ entries r) as Hi.
    { rewrite Hall. apply place_insert_newer. eapply Forall_impl; [exact Hsp2|]. intros x Hx.
      destruct (place_ltb (place e) (place x)) eqn:E; [done|]. apply place_nlt_le in E.
      pose proof (place_le_trans _ _ _ Hx E) as H. unfold place_le, place_leb in H. by rewrite Eb in H. }
    split; try done; rewrite ?Est.
    + split; [|done]. rewrite place_insert_perm. constructor; [by apply place_lt_le|done].
    + intros Hcc. by apply Hc in Hcc.
  - assert (Hi : place_insert e all = older ++ place_insert e (entries r)).
    { rewrite Hall. apply place_insert_older. unfold before_shed in Eb.
      destruct (shed_through r) as [[ts id]|]; [|rewrite Hsp; constructor]. destruct Hsp as [Hsp _].
      eapply Forall_impl; [exact Hsp|]. intros x Hx. eapply place_le_trans; [exact Hx|]. by apply place_nlt_le. }
    assert (Hse : StronglySorted row_le (entries r)) by (rewrite Hall in Hs; by apply StronglySorted_app_1_r in Hs).
    rewrite insert_at_position by done.
    destruct (shed_loop_spec budget (place_insert e all) (place_insert e (entries r)) older (complete r)
      (shed_through r) (maxima_push e (maxima r)) (ring_bytes r + footprint e)) as (dropped & H1 & H2 & H3 & H4 & H5).
    + split; cbn [entries shed_through complete maxima ring_bytes]; try done.
      * unfold split_ok, before_shed in *. destruct (shed_through r) as [[ts id]|]; [|done]. destruct Hsp as [Hsp1 Hsp2].
        split; [done|]. rewrite place_insert_perm. constructor; [by apply place_nlt_le|done].
      * rewrite place_insert_perm. by apply maxima_push_ok.
      * rewrite place_insert_perm. cbn. lia.
    + exists (older ++ dropped). split; [done|]. exists dropped. split_and!; try done.
      intros Hd. by rewrite (H5 Hd).
Qed.

Lemma over_app budget l1 l2 : over budget (l1 ++ l2) = false -> over budget l1 = false.
Proof.
  unfold over. rewrite length_app, !orb_false_iff, !andb_false_iff, !Nat.ltb_ge, !Z.ltb_ge. intros [Hn Hb].
  assert (total_bytes l1 <= total_bytes (l1 ++ l2)).
  { clear. induction l1 as [|x l1 IH]; cbn; [apply total_bytes_nonneg|lia]. }
  split; [lia|]. destruct Hb; [left|right]; lia.
Qed.

Lemma over_filter budget f l : over budget l = false -> over budget (List.filter f l) = false.
Proof.
  unfold over. rewrite !orb_false_iff, !andb_false_iff, !Nat.ltb_ge, !Z.ltb_ge. intros [Hn Hb].
  pose proof (total_bytes_filter f l). pose proof (filter_length_le f l). split; [lia|]. destruct Hb; [left|right]; lia.
Qed.

(** Pushing rows in order into a ring with room for them all keeps them all. *)
Lemma rebuild_spec l2 : forall l1 r,
  StronglySorted row_le (l1 ++ l2) -> over U64_MAX (l1 ++ l2) = false ->
  holds l1 [] r -> shed_through r = None ->
  let r' := fold_left (fun r e => ring_push e U64_MAX r) l2 r in
  holds (l1 ++ l2) [] r' /\ shed_through r' = None /\ complete r' = complete r.
Proof.
  induction l2 as [|e l2 IH]; intros l1 r Hs Ho Hr Hn; cbn [fold_left].
  { by rewrite app_nil_r in *. }
  rewrite cons_middle, app_assoc in *.
  assert (Hins : place_insert e l1 = l1 ++ [e]).
  { rewrite <- (app_nil_r l1) at 1. apply place_insert_older. apply Forall_forall. intros x Hx.
    rewrite <- app_assoc in Hs. apply StronglySorted_app in Hs as (Hs & _ & _). apply Hs; [done|]. left. }
  destruct (ring_push_spec l1 [] r e U64_MAX Hr) as (older' & Hr' & Hp).
  unfold before_shed in Hp. rewrite Hn in Hp. destruct Hp as (dropped & Hd & _ & Hk & Hsame).
  pose proof (holds_split _ _ _ Hr) as Hall. cbn in Hall. rewrite <- Hall, Hins in Hd, Hk.
  assert (dropped = []) as ->.
  { destruct dropped as [|x dropped]; [done|]. specialize (Hk 0%nat). cbn in Hk. rewrite (over_app _ _ l2) in Hk by done.
    by specialize (Hk ltac:(lia)). }
  destruct (Hsame eq_refl) as [Hc' Hn'].
  destruct (IH (l1 ++ [e]) (ring_push e U64_MAX r)) as (H1 & H2 & H3); [done|done| |done|by rewrite H3].
  rewrite <- Hins. pose proof (holds_shed _ _ _ Hr') as Ho'. rewrite Hn' in Ho'. cbn in Ho'. by subst older'.
Qed.

Lemma filter_same_length {A} (f : A -> bool) l : length (List.filter f l) = length l -> List.filter f l = l.
Proof.
  induction l as [|x l IH]; [done|]. cbn. destruct (f x); cbn; intros H; [f_equal; auto|].
  pose proof (filter_length_le f l). lia.
Qed.

Lemma filter_sorted {A} (R : relation A) f l : StronglySorted R l -> StronglySorted R (List.filter f l).
Proof.
  induction 1 as [|x l _ IH Hx]; cbn; [constructor|]. destruct (f x); [|done]. constructor; [done|].
  apply Forall_forall. intros y [Hy _]%elem_of_Lfilter. rewrite Forall_forall in Hx. auto.
Qed.

Lemma ring_retain_spec all older r keep :
  holds all older r -> over U64_MAX (entries r) = false ->
  let '(changed, r') := ring_retain keep r in
  holds (List.filter keep all) (List.filter keep older) r'
  /\ entries r' = List.filter keep (entries r)
  /\ complete r' = complete r
  /\ changed = negb (bool_decide (entries r' = entries r)).
Proof.
  intros [Hall Hs Hsp Hc Hm Hb] Ho. unfold ring_retain.
  assert (Hsp' : split_ok (shed_through r) (List.filter keep older) (List.filter keep (entries r))).
  { unfold split_ok in *. destruct (shed_through r) as [[ts id]|]; [|by subst]. destruct Hsp. by split; apply Forall_Lfilter. }
  assert (Hall' : List.filter keep all = List.filter keep older ++ List.filter keep (entries r))
    by (by rewrite Hall, List.filter_app).
  assert (Hse : StronglySorted row_le (entries r)) by (rewrite Hall in Hs; by apply StronglySorted_app_1_r in Hs).
  destruct (Nat.eqb_spec (length (List.filter keep (entries r))) (length (entries r))) as [El|El].
  - apply filter_same_length in El. rewrite bool_decide_true by done. rewrite El in *. split_and!; try done.
    split; try done. by apply filter_sorted.
  - destruct (rebuild_spec (List.filter keep (entries r)) [] (HistoryRing_new (complete r)))
      as ([H1 H2 H3 H4 H5 H6] & H7 & H8); [by apply filter_sorted|by apply over_filter|by repeat split; try constructor|done|].
    cbn [entries complete app] in *. rewrite <- H1 in *. split_and!; try done.
    + split; cbn [entries shed_through complete maxima ring_bytes]; try done.
      * by apply filter_sorted.
      * by rewrite H8.
    + rewrite bool_decide_false; [done|]. intros E. by rewrite E in El.
Qed.

Definition ring_step (budget : Z) (r : HistoryRing) (o : ROp) : HistoryRing :=
  match o with
  | RPush entry => ring_push entry budget r
  | RRetain keep => snd (ring_retain keep r)
  end.

Lemma over_weaken b b' l : b <= b' -> over b l = false -> over b' l = false.
Proof.
  unfold over. rewrite !orb_false_iff, !andb_false_iff, !Z.ltb_ge. intros Hb [Hn Ho]. split; [done|].
  destruct Ho; [left; lia|by right].
Qed.

Lemma ring_step_holds budget all older r o :
  budget <= U64_MAX -> holds all older r -> over budget (entries r) = false ->
  exists older', holds (history_step all o) older' (ring_step budget r o)
    /\ over budget (entries (ring_step budget r o)) = false.
Proof.
  intros Hb Hr Ho. destruct o as [e|keep]; cbn [ring_step history_step].
  - destruct (ring_push_spec all older r e budget Hr) as (older' & Hr' & Hp). exists older'. split; [done|].
    destruct (before_shed e r); [by rewrite Hp|]. by destruct Hp as (? & ? & ? & ?).
  - pose proof (ring_retain_spec all older r keep Hr (over_weaken _ _ _ Hb Ho)) as Hk.
    destruct (ring_retain keep r) as [changed r']. destruct Hk as (Hr' & He & _). cbn [snd].
    exists (List.filter keep older). split; [done|]. rewrite He. by apply over_filter.
Qed.

Lemma new_holds c : holds [] [] (HistoryRing_new c).
Proof. by repeat split; try constructor. Qed.

Lemma ring_steps_hold budget ops : forall all older r,
  budget <= U64_MAX -> holds all older r -> over budget (entries r) = false ->
  exists older', holds (fold_left history_step ops all) older' (fold_left (ring_step budget) ops r)
    /\ over budget (entries (fold_left (ring_step budget) ops r)) = false.
Proof.
  induction ops as [|o ops IH]; intros all older r Hb Hr Ho; cbn [fold_left]; [by exists older|].
  destruct (ring_step_holds budget all older r o Hb Hr Ho) as (older' & Hr' & Ho'). by eapply IH.
Qed.
End Inv.

Arguments holds {_}.

(** C21. After any sequence of pushes (in any order of arrival) and erasures,
    a history ring holds exactly the newest part of everything it was given
    and not told to erase, in the order of time stamp and message id with
    nothing missing inside it: the whole history is some older rows followed
    by the ring's.  It says it is complete only when there are no older rows,
    it holds at most [HISTORY_RING_CAP] rows and its byte budget (or a single
    row), its byte count is that of its rows, and the newest time it reports
    for each scope is that of its rows in that scope. *)
Theorem ring_holds_newest (entry_size : N) (budget : Z) (whole : bool) (ops : list ROp)
    (Hb : budget <= U64_MAX) :
  let r := fold_left (ring_step entry_size budget) ops (HistoryRing_new whole) in
  let all := fold_left history_step ops [] in
  exists older,
    all = older ++ entries r
    /\ StronglySorted row_le all
    /\ (complete r = true -> older = [])
    /\ (length (entries r) <= HISTORY_RING_CAP)%nat
    /\ (ring_bytes r <= budget \/ (length (entries r) <= 1)%nat)
    /\ ring_bytes r = total_bytes entry_size (entries r)
    /\ ring_latest r = latest_of (entries r).
Proof.
  intros r all.
  destruct (ring_steps_hold entry_size budget ops [] [] (HistoryRing_new whole) Hb (new_holds _ _)) as (older & Hr & Ho).
  { unfold over. cbn. by rewrite andb_false_r. }
  fold r all in Hr, Ho. exists older. destruct Hr as [Hall Hs Hsp Hc [[_ Hm1] [_ Hm2]] Hby].
  unfold over in Ho. apply orb_false_iff in Ho as [Hn%Nat.ltb_ge Ho]. split_and!; try done.
  - intros H. specialize (Hc H). by rewrite Hc in Hsp.
  - apply andb_false_iff in Ho as [Ho%Z.ltb_ge|Ho%Nat.ltb_ge]; [left; by rewrite Hby|by right].
  - unfold ring_latest, maxima_latest, latest_of. by rewrite Hm1, Hm2.
Qed.

Definition sample_row (ts : Z) (id : str) (kind : HistoryKind) : HistoryRow :=
  MkRow id ts (bs "a!b@c") None kind (bs "hi") false None [].

Definition sample_ops : list ROp :=
  [RPush (sample_row 5 (bs "b") KPrivmsg); RPush (sample_row 3 (bs "a") KNotice);
   RPush (sample_row 7 (bs "c") KTagmsg); RPush (sample_row 4 (bs "z") KNotice)].

Lemma ring_holds_newest_witness :
  let r := fold_left (ring_step 8 40) sample_ops (HistoryRing_new true) in
  entries r = [sample_row 5 (bs "b") KPrivmsg; sample_row 7 (bs "c") KTagmsg]
  /\ ring_latest r = MkLatest (Some 5) (Some 7)
  /\ exists older, fold_left history_step sample_ops [] = older ++ entries r.
Proof.
  split_and!; [reflexivity|reflexivity|].
  destruct (ring_holds_newest 8 40 true sample_ops ltac:(done)) as (older & H & _). by exists older.
Defined.
