(* ===== verification/HotHistory.v ===== *)
(** * The hot history store ([e6ircd/src/core/hot_history.rs], [HotHistory];
      [e6ircd/src/core/state.rs], [HistoryKey])

    The rings of every channel and conversation, the least-recently-active
    order they are evicted in, the index from an identity to its conversations
    and the bytes of all rings.  [HashSet] and [HashMap] iteration orders are
    whatever [elements] and [map_to_list] give: no theorem depends on them. *)

From S2P Require Import Prelude Str Keys Casemap Multimap Recency HistoryRing.
From stdpp Require Import gmap.

Local Open Scope Z_scope.

(** ** History keys *)

Definition dm_conversation_key (a b : str) : str * list str :=
  let '(lo, hi) := if str_leb a b then (a, b) else (b, a) in
  (lo ++ bs "!" ++ hi, if bool_decide (lo = hi) then [lo] else [lo; hi]).

Definition participants (key : str) : option (str * str) :=
  if starts_with "#" key then None else split_once "!" key.

Record HotHistoryBounds : Type := MkBounds { max_rings : Z; max_ring_bytes : Z; max_bytes : Z }.

Record HotHistory : Type := MkHot {
  rings : gmap str HistoryRing;
  recency : Recency (K := str);
  conversations : gmap str (gset str);
  hot_bytes : Z;
}.

Definition HotHistory_default : HotHistory := MkHot ∅ Recency_default ∅ 0.

(** The two identities of a conversation's key, none for a channel's. *)
Definition identities (key : str) : list str :=
  match participants key with Some (lo, hi) => [lo; hi] | None => [] end.

Definition hot_insert (key : str) (ring : HistoryRing) (h : HotHistory) : HotHistory :=
  MkHot (<[key := ring]> (rings h)) (recency h)
    (fold_left (fun c identity => mm_insert identity key c) (identities key) (conversations h)) (hot_bytes h).

(** [forget_ring], with whether there was a ring. *)
Definition forget_ring (key : str) (h : HotHistory) : bool * HotHistory :=
  match rings h !! key with
  | None => (false, h)
  | Some ring =>
      (true, MkHot (delete key (rings h)) (recency h)
        (fold_left (fun c identity => mm_remove identity key c) (identities key) (conversations h))
        (hot_bytes h - ring_bytes ring))
  end.

Definition hot_remove (key : str) (h : HotHistory) : bool * HotHistory :=
  forget_ring key (MkHot (rings h) (snd (Recency.remove key (recency h))) (conversations h) (hot_bytes h)).

(** The eviction loop of [push], one round per ring held; [None] is the
    [expect] on an empty order. *)
Fixpoint evict_loop (fuel : nat) (bounds : HotHistoryBounds) (h : HotHistory) (evicted : list str)
    : option (list str * HotHistory) :=
  let len := Z.of_nat (recency_len (recency h)) in
  if (max_rings bounds <? len) || ((max_bytes bounds <? hot_bytes h) && (1 <? len)) then
    match fuel with
    | O => None
    | S fuel =>
        let '(cold, r) := pop_oldest (recency h) in
        cold ← cold;
        let h := snd (forget_ring cold (MkHot (rings h) r (conversations h) (hot_bytes h))) in
        evict_loop fuel bounds h (evicted ++ [cold])
    end
  else Some (evicted, h).

Section Store.
Context (entry_size : N).

Definition push_ring (key : str) (entry : HistoryRow) (whole_record : bool) (bounds : HotHistoryBounds)
    (h : HotHistory) : HotHistory :=
  let '(h, held) :=
    match rings h !! key with
    | Some ring =>
        let bytes := hot_bytes h - ring_bytes ring in
        let ring := ring_push entry_size entry (max_ring_bytes bounds) ring in
        (MkHot (<[key := ring]> (rings h)) (recency h) (conversations h) bytes, ring_bytes ring)
    | None =>
        let ring := ring_push entry_size entry (max_ring_bytes bounds) (HistoryRing_new whole_record) in
        (hot_insert key ring h, ring_bytes ring)
    end in
  MkHot (rings h) (touch key (recency h)) (conversations h) (hot_bytes h + held).

Definition hot_push (key : str) (entry : HistoryRow) (whole_record : bool) (bounds : HotHistoryBounds)
    (h : HotHistory) : option (list str * HotHistory) :=
  let h := push_ring key entry whole_record bounds h in
  evict_loop (recency_len (recency h)) bounds h [].

Definition mark_incomplete (key : str) (h : HotHistory) : HotHistory :=
  match rings h !! key with
  | Some ring =>
      MkHot (<[key := MkRing (entries ring) false (shed_through ring) (maxima ring) (ring_bytes ring)]> (rings h))
        (recency h) (conversations h) (hot_bytes h)
  | None => h
  end.

Definition conversations_of (identity : str) (h : HotHistory) : list str :=
  elements (default ∅ (conversations h !! identity)).

Definition forget_identity (identity : str) (h : HotHistory) : HotHistory :=
  fold_left (fun h key => snd (hot_remove key h)) (conversations_of identity h) h.

(** The rows [forget_account] keeps. *)
Definition not_sent_by (folded : str) (casemap : CaseMapping) (entry : HistoryRow) : bool :=
  match row_sender_account entry with
  | Some sender => negb (bool_decide (casefold casemap sender = folded))
  | None => true
  end.

(** [forget_account]; [shed] sums what each ring lost. *)
Definition forget_account (folded : str) (casemap : CaseMapping) (h : HotHistory) : list str * HotHistory :=
  let h := forget_identity folded h in
  let retained := (fun ring => ring_retain entry_size (not_sent_by folded casemap) ring) <$> rings h in
  let shed := map_fold (fun _ ring acc =>
    acc + (ring_bytes ring - ring_bytes (snd (ring_retain entry_size (not_sent_by folded casemap) ring)))) 0 (rings h) in
  let changed := fst <$> List.filter (fun '(_, (changed, _)) => changed) (map_to_list retained) in
  (changed, MkHot (snd <$> retained) (recency h) (conversations h) (hot_bytes h - shed)).
End Store.

(** ** Consistency *)

(** The bytes of every ring together. *)
Definition sum_bytes (m : gmap str HistoryRing) : Z := map_fold (fun _ ring acc => ring_bytes ring + acc) 0 m.

Lemma sum_bytes_insert k ring m : m !! k = None -> sum_bytes (<[k := ring]> m) = ring_bytes ring + sum_bytes m.
Proof. intros Hk. unfold sum_bytes. rewrite map_fold_insert_L; [done|intros; lia|done]. Qed.

Lemma sum_bytes_delete k ring m : m !! k = Some ring -> sum_bytes (delete k m) = sum_bytes m - ring_bytes ring.
Proof.
  intros Hk. rewrite <- (insert_delete_id m k ring Hk) at 2. rewrite sum_bytes_insert by apply lookup_delete_eq. lia.
Qed.

Lemma sum_bytes_update k old ring m :
  m !! k = Some old -> sum_bytes (<[k := ring]> m) = sum_bytes m - ring_bytes old + ring_bytes ring.
Proof.
  intros Hk. rewrite <- insert_delete_eq, sum_bytes_insert by apply lookup_delete_eq.
  rewrite (sum_bytes_delete k old) by done. lia.
Qed.

Lemma sum_bytes_fmap (f : HistoryRing -> HistoryRing) m :
  map_fold (fun _ ring acc => acc + (ring_bytes ring - ring_bytes (f ring))) 0 m
  = sum_bytes m - sum_bytes (f <$> m).
Proof.
  induction m as [|k ring m Hk IH] using map_ind; [done|].
  rewrite fmap_insert, !sum_bytes_insert by (done || by rewrite lookup_fmap, Hk).
  rewrite map_fold_insert_L, IH by (done || intros; lia). lia.
Qed.

(** A key is indexed under the identities that take part in it. *)
Lemma index_insert (key : str) (ids : list str) : forall c i k,
  mm_in i k (fold_left (fun c i => mm_insert i key c) ids c) <-> (k = key /\ i ∈ ids) \/ mm_in i k c.
Proof.
  induction ids as [|x ids IH]; intros c i k; cbn [fold_left]; [set_solver|].
  rewrite IH, mm_in_insert. set_solver.
Qed.

Lemma index_remove (key : str) (ids : list str) : forall c i k,
  mm_in i k (fold_left (fun c i => mm_remove i key c) ids c) <-> mm_in i k c /\ ~ (k = key /\ i ∈ ids).
Proof.
  induction ids as [|x ids IH]; intros c i k; cbn [fold_left]; [set_solver|].
  rewrite IH, mm_in_remove. set_solver.
Qed.

Lemma index_insert_ok (key : str) (ids : list str) : forall c, mm_ok c -> mm_ok (fold_left (fun c i => mm_insert i key c) ids c).
Proof. induction ids as [|x ids IH]; intros c Hc; [done|]. cbn. by apply IH, mm_ok_insert. Qed.

Lemma index_remove_ok (key : str) (ids : list str) : forall c, mm_ok c -> mm_ok (fold_left (fun c i => mm_remove i key c) ids c).
Proof. induction ids as [|x ids IH]; intros c Hc; [done|]. cbn. by apply IH, mm_ok_remove. Qed.

Section Consistent.
Context (entry_size : N).

Definition ring_ok (ring : HistoryRing) : Prop :=
  exists all older, holds (entry_size := entry_size) all older ring /\ over entry_size U64_MAX (entries ring) = false.

(** Everything but the eviction order, which [push] and [remove] change apart
    from the rings: [live] are the keys with a ring. *)
Record indexed (h : HotHistory) : Prop := {
  indexed_convs : mm_ok (conversations h);
  indexed_in : forall i k, mm_in i k (conversations h) <-> is_Some (rings h !! k) /\ i ∈ identities k;
  indexed_bytes : hot_bytes h = sum_bytes (rings h);
  indexed_rings : map_Forall (fun _ => ring_ok) (rings h);
}.

Record hot_ok (h : HotHistory) : Prop := {
  hot_indexed : indexed h;
  hot_recency : Recency.inv (recency h);
  hot_keys : forall k, k ∈ Recency.abs (recency h) <-> is_Some (rings h !! k);
}.

Lemma forget_ring_indexed key h : indexed h -> indexed (snd (forget_ring key h)).
Proof.
  intros [Hc Hi Hb Hr]. unfold forget_ring. destruct (rings h !! key) as [ring|] eqn:E; [|done]. cbn [snd].
  split; cbn [conversations rings hot_bytes].
  - by apply index_remove_ok.
  - intros i k. rewrite index_remove, Hi, !lookup_delete_is_Some. split; [|naive_solver].
    intros [[Hk Hin] Hn]. split; [|done]. split; [|done]. intros <-. by apply Hn.
  - by rewrite (sum_bytes_delete _ ring), Hb.
  - by apply map_Forall_delete.
Qed.

Lemma forget_ring_rings key h :
  rings (snd (forget_ring key h)) = delete key (rings h) /\ recency (snd (forget_ring key h)) = recency h.
Proof.
  unfold forget_ring. destruct (rings h !! key) eqn:E; [done|]. cbn. by rewrite delete_id.
Qed.

Lemma elem_of_lru_without (k key : str) l : k ∈ lru_without key l <-> k ∈ l /\ k <> key.
Proof. unfold lru_without. rewrite elem_of_Lfilter, negb_true_iff, bool_decide_eq_false. done. Qed.

Lemma hot_remove_ok key h : hot_ok h -> hot_ok (snd (hot_remove key h)).
Proof.
  intros [Hi Hr Hk]. destruct (remove_sim key (recency h) Hr) as (Hr' & Ha & _). unfold hot_remove.
  set (h1 := MkHot _ _ _ _). destruct (forget_ring_rings key h1) as [E1 E2].
  split; [apply forget_ring_indexed; by destruct Hi|by rewrite E2|].
  intros k. rewrite E1, E2. cbn [h1 recency rings]. rewrite Ha, elem_of_lru_without, Hk, lookup_delete_is_Some. naive_solver.
Qed.

Lemma forget_identity_ok identity h : hot_ok h -> hot_ok (forget_identity identity h).
Proof.
  unfold forget_identity. generalize (conversations_of identity h). intros l. revert h.
  induction l as [|k l IH]; intros h Hh; [done|]. cbn. by apply IH, hot_remove_ok.
Qed.

Lemma mark_incomplete_ok key h : hot_ok h -> hot_ok (mark_incomplete key h).
Proof.
  intros [[Hc Hi Hb Hr] Hre Hk]. unfold mark_incomplete. destruct (rings h !! key) as [ring|] eqn:E; [|done].
  assert (forall k ring', is_Some (<[key := ring']> (rings h) !! k) <-> is_Some (rings h !! k)) as Hd.
  { intros k ring'. destruct (decide (k = key)) as [->|]; [rewrite lookup_insert_eq, E|rewrite lookup_insert_ne by done]; naive_solver. }
  split; [split|done|]; cbn [rings recency conversations hot_bytes]; [done| | | |].
  - intros i k. by rewrite Hd.
  - rewrite (sum_bytes_update _ ring) by done. cbn. lia.
  - apply map_Forall_insert_2; [|done]. destruct (Hr key ring E) as (all & older & [? ? ? ? ? ?] & ?).
    exists all, older. by split.
  - intros k. by rewrite Hd.
Qed.

Definition without_rings (keys : list str) (m : gmap str HistoryRing) : gmap str HistoryRing :=
  fold_left (fun m k => delete k m) keys m.

Definition over_store (bounds : HotHistoryBounds) (m : gmap str HistoryRing) : bool :=
  (max_rings bounds <? Z.of_nat (size m)) || ((max_bytes bounds <? sum_bytes m) && (1 <? Z.of_nat (size m))).

Lemma hot_size h : hot_ok h -> recency_len (recency h) = size (rings h) /\ length (Recency.abs (recency h)) = size (rings h).
Proof.
  intros [Hi Hr Hk]. pose proof (keys_length _ Hr) as Hl. fold (Recency.abs (recency h)) in Hl.
  assert (length (Recency.abs (recency h)) = size (rings h)) as He; [|unfold recency_len; by rewrite <- Hl].
  rewrite <- (size_dom (rings h)), <- (size_list_to_set (C := gset str)) by apply keys_nodup, Hr.
  f_equal. apply set_eq. intros k. by rewrite elem_of_list_to_set, elem_of_dom, Hk.
Qed.

Lemma evict_loop_spec bounds (Hb : 0 <= max_rings bounds) fuel : forall h ev,
  hot_ok h -> (size (rings h) <= fuel)%nat ->
  exists n h',
    evict_loop fuel bounds h ev = Some (ev ++ take n (Recency.abs (recency h)), h')
    /\ hot_ok h'
    /\ rings h' = without_rings (take n (Recency.abs (recency h))) (rings h)
    /\ Recency.abs (recency h') = drop n (Recency.abs (recency h))
    /\ (n <= length (Recency.abs (recency h)))%nat
    /\ over_store bounds (rings h') = false
    /\ (forall k, (k < n)%nat -> over_store bounds (without_rings (take k (Recency.abs (recency h))) (rings h)) = true).
Proof.
  induction fuel as [|fuel IH]; intros h ev Hh Hf; pose proof (hot_size h Hh) as [Hl Ha]; cbn [evict_loop];
    rewrite Hl, (indexed_bytes _ (hot_indexed _ Hh)); fold (over_store bounds (rings h)).
  { assert (over_store bounds (rings h) = false) as E.
    { unfold over_store. rewrite (proj2 (Z.ltb_ge (max_rings bounds) _)), (proj2 (Z.ltb_ge 1 _)) by lia. by rewrite andb_false_r. }
    rewrite E. exists 0%nat, h. cbn [take]. rewrite app_nil_r. split_and!; try done; lia. }
  destruct (over_store bounds (rings h)) eqn:E.
  2: { exists 0%nat, h. cbn [take]. rewrite app_nil_r. split_and!; try done; lia. }
  destruct Hh as [Hi Hr Hk]. destruct (pop_sim _ Hr) as [Hr' Hp].
  destruct (Recency.abs (recency h)) as [|k rest] eqn:Ek.
  { unfold over_store in E. rewrite <- Ha in E. cbn in E. rewrite andb_false_r, orb_false_r in E. apply Z.ltb_lt in E. lia. }
  destruct (pop_oldest (recency h)) as [cold r]. cbn [fst snd] in *. destruct Hp as [-> Hrest]. cbn [mbind option_bind].
  set (h1 := MkHot _ _ _ _). destruct (forget_ring_rings k h1) as [E1 E2]. cbn [h1 rings recency] in E1, E2.
  assert (NoDup (k :: rest)) as Hnd by (rewrite <- Ek; apply keys_nodup, Hr). apply NoDup_cons in Hnd as [Hnk _].
  destruct (IH (snd (forget_ring k h1)) (ev ++ [k])) as (n & h' & He & Hok & Hrings & Habs & Hn & Ho & Hmin).
  - split; [apply forget_ring_indexed; by destruct Hi|by rewrite E2|]. intros k'. rewrite E1, E2, Hrest.
    rewrite lookup_delete_is_Some, <- Hk, elem_of_cons. split; [|naive_solver].
    intros Hin. split; [by intros <-|by right].
  - rewrite E1, map_size_delete. destruct (proj1 (Hk k) ltac:(left)) as [ring ->]. lia.
  - rewrite E1, E2, Hrest in *. exists (S n), h'. split_and!; try done.
    + rewrite He. cbn [take]. by rewrite <- app_assoc.
    + cbn [length]. lia.
    + intros [|j] Hj; [done|]. cbn. apply Hmin. lia.
Qed.

Lemma ring_push_ok e budget ring : budget <= U64_MAX -> ring_ok ring -> ring_ok (ring_push entry_size e budget ring).
Proof.
  intros Hb (all & older & Hr & Ho). destruct (ring_push_spec entry_size all older ring e budget Hr) as (older' & Hr' & Hp).
  exists (place_insert e all), older'. split; [done|]. destruct (before_shed e ring); [by rewrite Hp|].
  destruct Hp as (? & _ & Hp & _). by eapply over_weaken.
Qed.

Lemma ring_new_ok c : ring_ok (HistoryRing_new c).
Proof. exists [], []. split; [apply new_holds|]. done. Qed.

(** What [push] makes of the pushed ring, and of the order. *)
Lemma push_ring_spec key entry whole bounds h :
  max_ring_bytes bounds <= U64_MAX -> hot_ok h ->
  let h1 := push_ring entry_size key entry whole bounds h in
  hot_ok h1
  /\ rings h1 = <[key := ring_push entry_size entry (max_ring_bytes bounds)
        (default (HistoryRing_new whole) (rings h !! key))]> (rings h)
  /\ Recency.abs (recency h1) = lru_without key (Recency.abs (recency h)) ++ [key].
Proof.
  intros Hb [[Hc Hi Hby Hr] Hre Hk]. destruct (touch_sim key _ Hre) as [Hre' Ha]. unfold push_ring.
  destruct (rings h !! key) as [ring|] eqn:E; cbn [rings recency hot_insert conversations hot_bytes default].
  - set (ring' := ring_push _ _ _ _).
    assert (forall k, is_Some (<[key := ring']> (rings h) !! k) <-> is_Some (rings h !! k)) as Hd.
    { intros k. destruct (decide (k = key)) as [->|]; [rewrite lookup_insert_eq, E|rewrite lookup_insert_ne by done]; naive_solver. }
    split_and!; [|done|done]. split; [split|done|]; cbn [rings recency conversations hot_bytes]; [done| | | |].
    + intros i k. by rewrite Hd.
    + rewrite (sum_bytes_update _ ring) by done. lia.
    + apply map_Forall_insert_2; [|done]. apply ring_push_ok; [done|]. by apply (Hr key).
    + intros k. rewrite Ha, Hd, elem_of_app, list_elem_of_singleton, elem_of_lru_without, Hk.
      destruct (decide (k = key)) as [->|]; [rewrite E|]; naive_solver.
  - split_and!; [|done|done]. split; [split|done|]; cbn [rings recency conversations hot_bytes].
    + by apply index_insert_ok.
    + intros i k. rewrite index_insert, Hi, lookup_insert_is_Some. destruct (decide (k = key)) as [->|].
      * rewrite E. naive_solver.
      * naive_solver.
    + rewrite sum_bytes_insert by done. lia.
    + apply map_Forall_insert_2; [|done]. apply ring_push_ok; [done|apply ring_new_ok].
    + intros k. rewrite Ha, elem_of_app, list_elem_of_singleton, elem_of_lru_without, Hk, lookup_insert_is_Some.
      destruct (decide (k = key)) as [->|]; naive_solver.
Qed.

Lemma forget_account_ok folded cm h : hot_ok h -> hot_ok (snd (forget_account entry_size folded cm h)).
Proof.
  intros Hh%(forget_identity_ok folded). unfold forget_account.
  set (h1 := forget_identity folded h) in *. clearbody h1. destruct Hh as [[Hc Hi Hby Hr] Hre Hk]. cbn [snd].
  assert (forall k, is_Some ((snd <$> ((fun ring => ring_retain entry_size (not_sent_by folded cm) ring) <$> rings h1)) !! k)
    <-> is_Some (rings h1 !! k)) as Hd by (intros k; by rewrite !lookup_fmap, !fmap_is_Some).
  split; [split|done|]; cbn [rings recency conversations hot_bytes]; [done| | | |].
  - intros i k. by rewrite Hd.
  - rewrite (sum_bytes_fmap (fun ring => snd (ring_retain entry_size (not_sent_by folded cm) ring))), Hby.
    rewrite <- map_fmap_compose. unfold compose. lia.
  - intros k ring'. rewrite !lookup_fmap. destruct (rings h1 !! k) as [ring|] eqn:E; [|done]. cbn. intros [= <-].
    destruct (Hr k ring E) as (all & older & Hring & Ho).
    pose proof (ring_retain_spec entry_size all older ring (not_sent_by folded cm) Hring Ho) as Hs.
    destruct (ring_retain entry_size (not_sent_by folded cm) ring) as [ch r']. destruct Hs as (Hs & He & _). cbn [snd].
    eexists _, _. split; [exact Hs|]. rewrite He. by apply over_filter.
  - intros k. by rewrite Hd.
Qed.
End Consistent.

(** ** Runs of the store *)

Inductive HOp : Type :=
| HPush (key : str) (entry : HistoryRow) (whole_record : bool) (bounds : HotHistoryBounds)
| HMarkIncomplete (key : str)
| HRemove (key : str)
| HForgetIdentity (identity : str)
| HForgetAccount (folded : str) (casemap : CaseMapping).

Definition hot_step (entry_size : N) (o : HOp) (h : HotHistory) : option HotHistory :=
  match o with
  | HPush key entry whole bounds => snd <$> hot_push entry_size key entry whole bounds h
  | HMarkIncomplete key => Some (mark_incomplete key h)
  | HRemove key => Some (snd (hot_remove key h))
  | HForgetIdentity identity => Some (forget_identity identity h)
  | HForgetAccount folded casemap => Some (snd (forget_account entry_size folded casemap h))
  end.

Fixpoint hot_run (entry_size : N) (ops : list HOp) (h : HotHistory) : option HotHistory :=
  match ops with
  | [] => Some h
  | o :: ops => h ← hot_step entry_size o h; hot_run entry_size ops h
  end.

(** Bounds that fit their machine types, at least one ring allowed. *)
Definition bounds_ok (b : HotHistoryBounds) : Prop := 1 <= max_rings b /\ max_ring_bytes b <= U64_MAX.
Definition hop_ok (o : HOp) : Prop := match o with HPush _ _ _ b => bounds_ok b | _ => True end.

Lemma lru_without_NoDup (key : str) l : NoDup l -> NoDup (lru_without key l).
Proof. apply NoDup_Lfilter. Qed.

Lemma lookup_without_rings l : forall m k, is_Some (without_rings l m !! k) <-> is_Some (m !! k) /\ (k ∉ l).
Proof.
  induction l as [|x l IH]; intros m k; cbn; [set_solver|]. unfold without_rings in IH.
  rewrite IH, lookup_delete_is_Some, not_elem_of_cons. naive_solver.
Qed.

Lemma lookup_without_rings_ne l : forall m k, (k ∉ l) -> without_rings l m !! k = m !! k.
Proof.
  induction l as [|x l IH]; intros m k; cbn; [done|]. intros [Hx Hl]%not_elem_of_cons. unfold without_rings in IH.
  by rewrite IH, lookup_delete_ne by done.
Qed.

Lemma key_not_cold (key : str) n l : key ∉ take n (lru_without key l).
Proof.
  intros Hin. assert (key ∈ lru_without key l) as [_ Hne]%elem_of_lru_without; [|done].
  rewrite <- (take_drop n). apply elem_of_app. by left.
Qed.

Lemma over_store_two bounds m : 1 <= max_rings bounds -> over_store bounds m = true -> (2 <= size m)%nat.
Proof.
  unfold over_store. intros Hb [H%Z.ltb_lt|[_ H%Z.ltb_lt]%andb_true_iff]%orb_true_iff; lia.
Qed.

(** [push] never panics, and evicts from the cold end of the order only what
    must go. *)
Lemma hot_push_spec entry_size key entry whole bounds h :
  bounds_ok bounds -> hot_ok entry_size h ->
  exists n h',
    let cold := lru_without key (Recency.abs (recency h)) in
    let pushed := <[key := ring_push entry_size entry (max_ring_bytes bounds)
                             (default (HistoryRing_new whole) (rings h !! key))]> (rings h) in
    hot_push entry_size key entry whole bounds h = Some (take n cold, h')
    /\ hot_ok entry_size h'
    /\ rings h' = without_rings (take n cold) pushed
    /\ Recency.abs (recency h') = drop n cold ++ [key]
    /\ over_store bounds (rings h') = false
    /\ (forall k, (k < n)%nat -> over_store bounds (without_rings (take k cold) pushed) = true).
Proof.
  intros [Hb1 Hb2] Hh. destruct (push_ring_spec entry_size key entry whole bounds h Hb2 Hh) as (Hh1 & Hr1 & Ha1).
  unfold hot_push. set (h1 := push_ring _ _ _ _ _ _) in *. destruct (hot_size _ _ Hh1) as [Hl1 Hl2].
  destruct (evict_loop_spec entry_size bounds ltac:(lia) (recency_len (recency h1)) h1 [] Hh1 ltac:(lia))
    as (n & h' & He & Hok & Hrings & Habs & Hn & Ho & Hmin).
  set (cold := lru_without key (Recency.abs (recency h))) in *. rewrite Ha1 in *. cbn [app] in He.
  assert (n <= length cold)%nat as Hnc.
  { destruct (decide (n <= length cold)%nat); [done|]. exfalso.
    specialize (Hmin (length cold) ltac:(lia)). rewrite take_app_length in Hmin.
    apply over_store_two in Hmin; [|done]. rewrite <- size_dom in Hmin.
    assert (dom (without_rings cold (rings h1)) ⊆ {[key]}) as Hd%subseteq_size; [|rewrite size_singleton in Hd; lia].
    intros k. rewrite elem_of_dom, lookup_without_rings, <- (hot_keys _ _ Hh1), Ha1. set_solver. }
  exists n, h'. cbn zeta. rewrite <- Hr1. rewrite take_app_le in He, Hrings by done. rewrite drop_app_le in Habs by done.
  split_and!; try done. intros k Hk. specialize (Hmin k Hk). by rewrite take_app_le in Hmin by lia.
Qed.

Lemma hot_step_ok entry_size o h :
  hop_ok o -> hot_ok entry_size h -> exists h', hot_step entry_size o h = Some h' /\ hot_ok entry_size h'.
Proof.
  intros Ho Hh. destruct o as [key e w b|key|key|i|f cm]; cbn.
  - destruct (hot_push_spec entry_size key e w b h Ho Hh) as (n & h' & -> & Hok & _). by exists h'.
  - eexists. split; [done|]. by apply mark_incomplete_ok.
  - eexists. split; [done|]. by apply hot_remove_ok.
  - eexists. split; [done|]. by apply forget_identity_ok.
  - eexists. split; [done|]. by apply forget_account_ok.
Qed.

Lemma hot_default_ok entry_size : hot_ok entry_size HotHistory_default.
Proof.
  split; [split|apply Recency.inv_default|]; cbn.
  - intros k. by rewrite lookup_empty.
  - intros i k. unfold mm_in. rewrite !lookup_empty. cbn. split; [set_solver|]. by intros [[] _].
  - done.
  - apply map_Forall_empty.
  - intros k. rewrite lookup_empty. split; [by intros ?%elem_of_nil|by intros []].
Qed.

Lemma hot_run_ok entry_size ops : forall h, Forall hop_ok ops -> hot_ok entry_size h ->
  exists h', hot_run entry_size ops h = Some h' /\ hot_ok entry_size h'.
Proof.
  induction ops as [|o ops IH]; intros h Hops Hh; cbn; [by exists h|]. apply Forall_cons in Hops as [Ho Hops].
  destruct (hot_step_ok entry_size o h Ho Hh) as (h1 & -> & Hh1). by apply IH.
Qed.

(** ** Theorems *)

(** However pushes, evictions, removals, erasures and incompleteness marks
    follow one another, the store never panics and stays consistent: the rings
    held are exactly the keys in the eviction order, each once; an identity is
    indexed under exactly the conversations held that it takes part in, with
    no empty index entry; the byte count is the sum over the rings; and every
    ring holds the newest part of some ordered history within its bounds. *)
Theorem hot_history_consistent (entry_size : N) (ops : list HOp) (Hops : Forall hop_ok ops) :
  exists h, hot_run entry_size ops HotHistory_default = Some h
    /\ (forall k, k ∈ Recency.abs (recency h) <-> is_Some (rings h !! k))
    /\ NoDup (Recency.abs (recency h))
    /\ (forall identity k, k ∈ conversations_of identity h <-> is_Some (rings h !! k) /\ identity ∈ identities k)
    /\ (forall identity, conversations h !! identity <> Some ∅)
    /\ hot_bytes h = sum_bytes (rings h)
    /\ map_Forall (fun _ ring => exists all older, holds (entry_size := entry_size) all older ring
         /\ (length (entries ring) <= HISTORY_RING_CAP)%nat) (rings h).
Proof.
  destruct (hot_run_ok entry_size ops HotHistory_default Hops (hot_default_ok _)) as (h & Hrun & [[Hc Hi Hb Hr] Hre Hk]).
  exists h. split_and!; try done.
  - apply keys_nodup, Hre.
  - intros i k. unfold conversations_of. rewrite elem_of_elements. apply Hi.
  - intros k ring Hring. destruct (Hr k ring Hring) as (all & older & Hh & Ho). exists all, older. split; [done|].
    unfold over in Ho. apply orb_false_iff in Ho as [Ho%Nat.ltb_ge _]. done.
Qed.

Definition sample_bounds : HotHistoryBounds := MkBounds 2 1000 100.
Definition sample_hops : list HOp :=
  [HPush (bs "#a") (sample_row 1 (bs "x") KPrivmsg) true sample_bounds;
   HPush (bs "al!bo") (sample_row 2 (bs "y") KNotice) false sample_bounds;
   HPush (bs "#c") (sample_row 3 (bs "z") KTagmsg) true sample_bounds; HForgetIdentity (bs "bo")].

Lemma sample_hops_ok : Forall hop_ok sample_hops.
Proof. repeat constructor; cbn; try done; unfold U64_MAX; lia. Qed.

Lemma hot_history_consistent_witness :
  exists h, hot_run 8 sample_hops HotHistory_default = Some h /\ hot_bytes h = sum_bytes (rings h).
Proof.
  destruct (hot_history_consistent 8 sample_hops sample_hops_ok) as (h & Hh & _ & _ & _ & _ & Hb & _). exists h. split; [exact Hh|exact Hb].
Defined.

(** A push keeps the pushed ring, as the ring itself takes the entry in,
    and evicts other rings from the least recently active on, each only while
    the store is over its limit of rings or of bytes; it stops within both
    limits (or with a single ring), leaves every other ring as it was, and
    makes the pushed key the most recently active. *)
Theorem hot_push_evicts_coldest (entry_size : N) (ops : list HOp) (h : HotHistory)
    (key : str) (entry : HistoryRow) (whole : bool) (bounds : HotHistoryBounds)
    (Hops : Forall hop_ok ops) (Hrun : hot_run entry_size ops HotHistory_default = Some h)
    (Hb : bounds_ok bounds) :
  exists n h',
    let cold := lru_without key (Recency.abs (recency h)) in
    let pushed := <[key := ring_push entry_size entry (max_ring_bytes bounds)
                             (default (HistoryRing_new whole) (rings h !! key))]> (rings h) in
    hot_push entry_size key entry whole bounds h = Some (take n cold, h')
    /\ rings h' = without_rings (take n cold) pushed
    /\ rings h' !! key = pushed !! key
    /\ Recency.abs (recency h') = drop n cold ++ [key]
    /\ Z.of_nat (size (rings h')) <= max_rings bounds
    /\ (sum_bytes (rings h') <= max_bytes bounds \/ (size (rings h') <= 1)%nat)
    /\ (forall k, (k < n)%nat -> over_store bounds (without_rings (take k cold) pushed) = true).
Proof.
  destruct (hot_run_ok entry_size ops HotHistory_default Hops (hot_default_ok _)) as (h0 & Hrun' & Hh).
  rewrite Hrun in Hrun'. injection Hrun' as <-.
  destruct (hot_push_spec entry_size key entry whole bounds h Hb Hh) as (n & h' & He & Hok & Hr & Ha & Ho & Hmin).
  exists n, h'. cbn zeta in *. unfold over_store in Ho at 1. apply orb_false_iff in Ho as [Ho1%Z.ltb_ge Ho2].
  split_and!; try done.
  - rewrite Hr. apply lookup_without_rings_ne, key_not_cold.
  - apply andb_false_iff in Ho2 as [Ho2%Z.ltb_ge|Ho2%Z.ltb_ge]; [by left|right; lia].
Qed.

Lemma hot_push_evicts_coldest_witness :
  exists n h', hot_push 8 (bs "#d") (sample_row 9 (bs "w") KPrivmsg) true sample_bounds HotHistory_default
    = Some (take n [], h') /\ rings h' = {[bs "#d" := ring_push 8 (sample_row 9 (bs "w") KPrivmsg) 1000 (HistoryRing_new true)]}.
Proof.
  destruct (hot_push_evicts_coldest 8 [] HotHistory_default (bs "#d") (sample_row 9 (bs "w") KPrivmsg) true sample_bounds)
    as (n & h' & He & Hr & _).
  - constructor.
  - reflexivity.
  - split; cbn; unfold U64_MAX; lia.
  - exists n, h'. split; [exact He|]. rewrite Hr. change (Recency.abs _) with (@nil str). cbn [lru_without List.filter].
    rewrite take_nil. done.
Defined.

(** *** Erasure *)

Lemma forget_keys_rings l : forall h,
  rings (fold_left (fun h key => snd (hot_remove key h)) l h) = without_rings l (rings h).
Proof.
  induction l as [|k l IH]; intros h; [done|]. cbn [fold_left]. rewrite IH. unfold hot_remove.
  set (h1 := MkHot _ _ _ _). destruct (forget_ring_rings k h1) as [-> _]. done.
Qed.

Lemma without_rings_lookup l : forall m k ring, without_rings l m !! k = Some ring <-> m !! k = Some ring /\ (k ∉ l).
Proof.
  intros m k ring. destruct (decide (k ∈ l)) as [Hin|Hin].
  - split; [|tauto]. intros E. exfalso. assert (is_Some (without_rings l m !! k)) as [_ ?]%lookup_without_rings by eauto. done.
  - rewrite lookup_without_rings_ne by done. tauto.
Qed.

(** Erasing an account leaves nothing of it in the store: no conversation
    its identity takes part in has a ring, and no ring holds a row whose sender
    account folds to it.  Every other row stays where it was, and the keys
    reported are those of the rings that lost rows but remain. *)
Theorem forget_account_erases (entry_size : N) (ops : list HOp) (h : HotHistory) (folded : str) (cm : CaseMapping)
    (Hops : Forall hop_ok ops) (Hrun : hot_run entry_size ops HotHistory_default = Some h) :
  let '(changed, h') := forget_account entry_size folded cm h in
  (forall k ring', rings h' !! k = Some ring' <->
     exists ring, rings h !! k = Some ring /\ (folded ∉ identities k)
       /\ ring' = snd (ring_retain entry_size (not_sent_by folded cm) ring))
  /\ (forall k ring ring', rings h !! k = Some ring -> rings h' !! k = Some ring' ->
     entries ring' = List.filter (not_sent_by folded cm) (entries ring)
     /\ complete ring' = complete ring
     /\ (k ∈ changed <-> entries ring' <> entries ring))
  /\ (forall k, k ∈ changed -> is_Some (rings h' !! k)).
Proof.
  destruct (hot_run_ok entry_size ops HotHistory_default Hops (hot_default_ok _)) as (h0 & Hrun' & Hh).
  rewrite Hrun in Hrun'. injection Hrun' as <-. clear Hrun.
  pose proof (forget_identity_ok entry_size folded h Hh) as Hh1.
  assert (Hr1 : forall k ring, rings (forget_identity folded h) !! k = Some ring <-> rings h !! k = Some ring /\ (folded ∉ identities k)).
  { intros k ring. unfold forget_identity. rewrite forget_keys_rings, without_rings_lookup.
    destruct Hh as [[_ Hi _ _] _ _]. unfold conversations_of. rewrite elem_of_elements. fold (mm_in folded k (conversations h)).
    rewrite Hi. split; intros [E Hn]; (split; [done|]); [|tauto]. intros Hin. apply Hn. split; [by eexists|done]. }
  unfold forget_account. set (h1 := forget_identity folded h) in *. clearbody h1. cbn [rings].
  set (retain := fun ring => ring_retain entry_size (not_sent_by folded cm) ring).
  assert (Hl : forall k ring', (snd <$> (retain <$> rings h1)) !! k = Some ring' <->
    exists ring, rings h1 !! k = Some ring /\ ring' = snd (retain ring)).
  { intros k ring'. rewrite !lookup_fmap. destruct (rings h1 !! k) as [ring|]; cbn; split.
    - intros [= <-]. by exists ring.
    - intros (ring1 & E & ->). by injection E as <-.
    - done.
    - by intros (ring1 & ? & _). }
  assert (Hch : forall k, k ∈ (fst <$> List.filter (fun '(_, (changed, _)) => changed) (map_to_list (retain <$> rings h1))) <->
    exists ring, rings h1 !! k = Some ring /\ fst (retain ring) = true).
  { intros k. rewrite list_elem_of_fmap. split.
    - intros ([k' [b r]] & -> & [Hin Hb]%elem_of_Lfilter). apply elem_of_map_to_list in Hin. rewrite lookup_fmap in Hin.
      cbn. destruct (rings h1 !! k') as [ring|]; [|done]. injection Hin as Hin. exists ring. by rewrite Hin.
    - intros (ring & E & Hb). exists (k, retain ring). split; [done|]. apply elem_of_Lfilter. split.
      + apply elem_of_map_to_list. by rewrite lookup_fmap, E.
      + by destruct (retain ring). }
  split_and!.
  - intros k ring'. rewrite Hl. setoid_rewrite Hr1.
    split; [intros (ring & [? ?] & ?)|intros (ring & ? & ? & ?)]; by exists ring.
  - intros k ring ring' E (ring1 & E1 & ->)%Hl. pose proof (proj1 (proj1 (Hr1 _ _) E1)) as E2. rewrite E in E2. injection E2 as <-.
    destruct (indexed_rings _ _ (hot_indexed _ _ Hh) k ring E) as (all & older & Hring & Ho).
    pose proof (ring_retain_spec entry_size all older ring (not_sent_by folded cm) Hring Ho) as Hs.
    rewrite Hch. unfold retain. destruct (ring_retain entry_size (not_sent_by folded cm) ring) as [b r'] eqn:Er.
    destruct Hs as (_ & He & Hc & ->). split_and!; [done|done|]. cbn [fst snd]. split.
    + intros (ring2 & E2 & Hb). rewrite E1 in E2. injection E2 as <-. rewrite Er in Hb. cbn in Hb.
      by apply negb_true_iff, bool_decide_eq_false in Hb.
    + intros Hne. exists ring. split; [done|]. rewrite Er. cbn. by apply negb_true_iff, bool_decide_eq_false.
  - intros k (ring & E & _)%Hch. rewrite !lookup_fmap, E. by eexists.
Qed.

Lemma forget_account_erases_witness :
  exists h, hot_run 8 sample_hops HotHistory_default = Some h
    /\ forall k, k ∈ fst (forget_account 8 (bs "al") Ascii h) -> is_Some (rings (snd (forget_account 8 (bs "al") Ascii h)) !! k).
Proof.
  destruct (hot_run_ok 8 sample_hops HotHistory_default sample_hops_ok (hot_default_ok _)) as (h & Hh & _).
  exists h. split; [exact Hh|]. pose proof (forget_account_erases 8 sample_hops h (bs "al") Ascii sample_hops_ok Hh) as H.
  destruct (forget_account 8 (bs "al") Ascii h) as [changed h']. exact (proj2 (proj2 H)).
Defined.

(** *** Conversation keys *)

Lemma bang_split a b : ("!"%byte ∉ a) -> split_once "!" (a ++ bs "!" ++ b) = Some (a, b).
Proof. intros Ha. apply split_once_Some. done. Qed.

Lemma dm_key_lo_hi a b :
  exists lo hi, fst (dm_conversation_key a b) = lo ++ bs "!" ++ hi /\ str_le lo hi
    /\ ((lo = a /\ hi = b) \/ (lo = b /\ hi = a))
    /\ snd (dm_conversation_key a b) = if bool_decide (lo = hi) then [lo] else [lo; hi].
Proof.
  unfold dm_conversation_key. destruct (str_leb a b) eqn:E; [exists a, b|exists b, a]; cbn [fst snd];
    (split_and!; [done| |auto|done]); [done|].
  destruct (str_le_total a b) as [H|H]; [unfold str_le in H; congruence|done].
Qed.

(** A conversation's storage key does not depend on which side computes
    it, two pairs of identities share a key only when they are the same pair,
    the recorded peers are exactly the two identities, the key names them back
    ([participants], given that no identity holds an exclamation mark or starts with
    a number sign), and it is never a channel's key: so a history query can
    only reach the conversation of the two identities it was made for. *)
Theorem dm_conversation_key_exact (a b c d : str)
    (Ha : "!"%byte ∉ a) (Hb : "!"%byte ∉ b) (Hc : "!"%byte ∉ c) (Hd : "!"%byte ∉ d)
    (Ha' : starts_with "#" a = false) (Hb' : starts_with "#" b = false) (Hne : a <> []) (Hne' : b <> []) :
  dm_conversation_key a b = dm_conversation_key b a
  /\ (fst (dm_conversation_key a b) = fst (dm_conversation_key c d) <-> (a = c /\ b = d) \/ (a = d /\ b = c))
  /\ (forall x, x ∈ snd (dm_conversation_key a b) <-> x = a \/ x = b)
  /\ NoDup (snd (dm_conversation_key a b))
  /\ (exists lo hi, participants (fst (dm_conversation_key a b)) = Some (lo, hi)
        /\ ((lo = a /\ hi = b) \/ (lo = b /\ hi = a)))
  /\ starts_with "#" (fst (dm_conversation_key a b)) = false.
Proof.
  assert (Hsym : forall x y, dm_conversation_key x y = dm_conversation_key y x).
  { intros x y. unfold dm_conversation_key. destruct (str_leb x y) eqn:E1, (str_leb y x) eqn:E2; try done.
    - assert (x = y) as -> by (by apply (anti_symm str_le)). done.
    - exfalso. destruct (str_le_total x y); unfold str_le in *; congruence. }
  destruct (dm_key_lo_hi a b) as (lo & hi & Hk & Hle & Hab & Hp). destruct (dm_key_lo_hi c d) as (lo' & hi' & Hk' & Hle' & Hcd & _).
  assert (("!"%byte ∉ lo) /\ ("!"%byte ∉ lo')) as [Hlo Hlo'] by naive_solver.
  assert (starts_with "#" (fst (dm_conversation_key a b)) = false) as Hh.
  { rewrite Hk. destruct Hab as [[-> ->]|[-> ->]]; [destruct a|destruct b]; done. }
  split_and!; [apply Hsym| | | | |done].
  - split; [|by intros [[-> ->]|[-> ->]]; [|rewrite Hsym]]. rewrite Hk, Hk'. intros E.
    apply (f_equal (split_once "!")) in E. rewrite !bang_split in E by done. injection E as -> ->. naive_solver.
  - intros x. rewrite Hp. case_bool_decide; set_solver.
  - rewrite Hp. case_bool_decide; [apply NoDup_singleton|]. repeat constructor; set_solver.
  - exists lo, hi. split; [|done]. unfold participants. rewrite Hh, Hk. by apply bang_split.
Qed.

Lemma dm_conversation_key_exact_witness :
  fst (dm_conversation_key (bs "bob") (bs "alice")) = bs "alice!bob"
  /\ dm_conversation_key (bs "bob") (bs "alice") = dm_conversation_key (bs "alice") (bs "bob").
Proof.
  split; [reflexivity|].
  apply (dm_conversation_key_exact (bs "bob") (bs "alice") (bs "x") (bs "y"));
    first [by apply contains_byte_false | reflexivity | discriminate].
Defined.

(** A ring made again after its eviction says it is complete, though it holds
    only the newest of the two messages its target has seen: without a
    database [whole_record] is true for every new ring. *)
Example evicted_ring_complete_again :
  let b := MkBounds 1 1000 1000 in
  let push key id := HPush key (sample_row 1 id KPrivmsg) true b in
  (h ← hot_run 8 [push (bs "#a") (bs "1"); push (bs "#b") (bs "2"); push (bs "#a") (bs "3")] HotHistory_default;
   ring ← rings h !! bs "#a"; Some (complete ring, row_msgid <$> entries ring)) = Some (true, [bs "3"]).
Proof. vm_compute. reflexivity. Qed.
