(* ===== verification/ChannelState.v ===== *)
(** * Channels ([e6ircd/src/core/state.rs], [MemberModes] to [Channel])

    A channel as its owning shard holds it: members with their ranks and
    delivery recipients, the recipient list cached for delivery, the mask lists
    and who they silence.  What a session's capabilities are is a parameter:
    the channel only compares them.  [HashMap] iteration order is that of
    [map_to_list]. *)

From S2P Require Import Prelude Str Keys Casemap Wire Ip Address BanMask Nicks Channel.
From stdpp Require Import gmap.

Local Open Scope Z_scope.

(** ** Members *)

Record MemberModes : Type := MkModes { op : bool; voice : bool }.

Definition sigils (m : MemberModes) (multi_prefix : bool) : str :=
  match op m, voice m, multi_prefix with
  | true, true, true => bs "@+"
  | true, _, _ => bs "@"
  | false, true, _ => bs "+"
  | false, false, _ => []
  end.

Record MemberIdentity : Type := MkIdentity {
  identity_nick : str;
  identity_prefix : str;
  identity_invisible : bool;
}.

(** [idle_since] is a handle the session writes through; here its index. *)
Record ChannelMemberProfile : Type := MkProfile {
  profile_user : str;
  profile_host : str;
  profile_real_ip : option IpAddr;
  profile_realname : str;
  profile_account : option str;
  profile_away : bool;
  profile_oper : bool;
  profile_bot : bool;
  profile_idle_since : nat;
}.

Record Topic : Type := MkTopic { topic_text : str; topic_set_by : str; topic_set_at_secs : Z }.

#[global] Instance SessionOwner_eq_dec : EqDecision SessionOwner.
Proof. solve_decision. Defined.

Section Channel.
Context {Caps : Type} `{EqDecision Caps} `{IpNet}.

Record Recipient : Type := MkRecipient { recipient_owner : SessionOwner; recipient_caps : Caps }.
#[global] Instance Recipient_eq_dec : EqDecision Recipient.
Proof. solve_decision. Defined.

Definition recipient_conn (r : Recipient) : Z := owner_conn (recipient_owner r).

Record ChannelMember : Type := MkMember {
  member_modes : MemberModes;
  member_recipient : Recipient;
  member_identity : MemberIdentity;
  member_profile : ChannelMemberProfile;
}.

Record ListEntry : Type := MkListEntry { entry_mask : MaskKey; entry_set_by : str; entry_set_at_secs : Z }.

Record Channel : Type := MkChannel {
  chan_name : str;
  chan_topic : option Topic;
  chan_members : gmap Z ChannelMember;
  cached_recipients : option (list Recipient);
  chan_modes : ChanModes;
  bans : list ListEntry;
  quiets : list ListEntry;
  ban_exceptions : list ListEntry;
  invite_exceptions : list ListEntry;
  invited : gset Z;
  last_knock : option Z;
  created_at : Z;
}.

Definition Channel_new (name : str) (topic : option Topic) (modes : ChanModes) (created_at : Z) : Channel :=
  MkChannel name topic ∅ None modes [] [] [] [] ∅ None created_at.

(** The fields the member operations write. *)
Definition with_members (m : gmap Z ChannelMember) (cache : option (list Recipient)) (ch : Channel) : Channel :=
  MkChannel (chan_name ch) (chan_topic ch) m cache (chan_modes ch) (bans ch) (quiets ch) (ban_exceptions ch)
    (invite_exceptions ch) (invited ch) (last_knock ch) (created_at ch).

Definition is_member (conn : Z) (ch : Channel) : bool := bool_decide (is_Some (chan_members ch !! conn)).
Definition member (conn : Z) (ch : Channel) : option MemberModes := member_modes <$> chan_members ch !! conn.

(** A write through [member_mut]. *)
Definition member_mut (conn : Z) (f : MemberModes -> MemberModes) (ch : Channel) : Channel :=
  match chan_members ch !! conn with
  | Some mb =>
      with_members (<[conn := MkMember (f (member_modes mb)) (member_recipient mb) (member_identity mb) (member_profile mb)]>
        (chan_members ch)) (cached_recipients ch) ch
  | None => ch
  end.

Definition member_count (ch : Channel) : nat := size (chan_members ch).
Definition has_members (ch : Channel) : bool := negb (bool_decide (chan_members ch = ∅)).

Definition recipients_where (include : Z -> MemberModes -> bool) (ch : Channel) : list Recipient :=
  (fun '(_, mb) => member_recipient mb)
    <$> List.filter (fun '(conn, mb) => include conn (member_modes mb)) (map_to_list (chan_members ch)).

(** [recipients], filling the cache. *)
Definition recipients (ch : Channel) : list Recipient * Channel :=
  match cached_recipients ch with
  | Some l => (l, ch)
  | None =>
      let l := (fun '(_, mb) => member_recipient mb) <$> map_to_list (chan_members ch) in
      (l, with_members (chan_members ch) (Some l) ch)
  end.

Definition add_member_with_profile (r : Recipient) (profile : ChannelMemberProfile) (identity : MemberIdentity)
    (modes : MemberModes) (ch : Channel) : Channel :=
  with_members (<[recipient_conn r := MkMember modes r identity profile]> (chan_members ch)) None ch.

Definition remove_member (conn : Z) (ch : Channel) : option MemberModes * Channel :=
  let removed := member_modes <$> chan_members ch !! conn in
  (removed, with_members (delete conn (chan_members ch))
     match removed with Some _ => None | None => cached_recipients ch end ch).

Definition update_member (r : Recipient) (identity : MemberIdentity) (profile : ChannelMemberProfile) (ch : Channel)
    : bool * Channel :=
  match chan_members ch !! recipient_conn r with
  | None => (false, ch)
  | Some mb =>
      if negb (bool_decide (recipient_owner (member_recipient mb) = recipient_owner r)) then (false, ch)
      else
        (true, with_members (<[recipient_conn r := MkMember (member_modes mb) r identity profile]> (chan_members ch))
           (if bool_decide (member_recipient mb = r) then cached_recipients ch else None) ch)
  end.

Definition update_recipient (r : Recipient) (ch : Channel) : Channel :=
  match chan_members ch !! recipient_conn r with
  | None => ch
  | Some mb =>
      if bool_decide (member_recipient mb = r) then ch
      else with_members (<[recipient_conn r := MkMember (member_modes mb) r (member_identity mb) (member_profile mb)]>
             (chan_members ch)) None ch
  end.

Definition member_named (m : CaseMapping) (nick : str) (ch : Channel) : option (Z * Recipient * MemberIdentity) :=
  let nick := casefold m nick in
  '(conn, mb) ← List.find
    (fun '(_, mb) => bool_decide (casefold m (identity_nick (member_identity mb)) = nick)) (map_to_list (chan_members ch));
  Some (conn, member_recipient mb, member_identity mb).

(** ** Visibility, bans and speaking *)

Definition hidden_from (conn : Z) (ch : Channel) : bool := secret (chan_modes ch) && negb (is_member conn ch).

Definition any_match (m : CaseMapping) (masks : list MaskKey) (subject : MaskSubject) : bool :=
  existsb (fun k => mask_key_matches k m subject) masks.

Definition masks (l : list ListEntry) : list MaskKey := entry_mask <$> l.

Definition is_banned (m : CaseMapping) (subject : MaskSubject) (ch : Channel) : bool :=
  any_match m (masks (bans ch)) subject && negb (any_match m (masks (ban_exceptions ch)) subject).
Definition is_quieted (m : CaseMapping) (subject : MaskSubject) (ch : Channel) : bool :=
  any_match m (masks (quiets ch)) subject && negb (any_match m (masks (ban_exceptions ch)) subject).
Definition is_invite_excepted (m : CaseMapping) (subject : MaskSubject) (ch : Channel) : bool :=
  any_match m (masks (invite_exceptions ch)) subject.
Definition is_silenced (m : CaseMapping) (subject : MaskSubject) (ch : Channel) : bool :=
  is_banned m subject ch || is_quieted m subject ch.

Definition may_speak (mb : option MemberModes) (m : CaseMapping) (subject : MaskSubject) (ch : Channel) : bool :=
  match mb with
  | Some modes =>
      if op modes || voice modes then true
      else negb (moderated (chan_modes ch)) && negb (is_silenced m subject ch)
  | None =>
      negb (no_external (chan_modes ch)) && negb (moderated (chan_modes ch)) && negb (is_silenced m subject ch)
  end.

(** ** The recipient cache *)

Inductive MemberOp : Type :=
| OAdd (r : Recipient) (profile : ChannelMemberProfile) (identity : MemberIdentity) (modes : MemberModes)
| ORemove (conn : Z)
| OUpdate (r : Recipient) (identity : MemberIdentity) (profile : ChannelMemberProfile)
| OUpdateRecipient (r : Recipient)
| OModes (conn : Z) (f : MemberModes -> MemberModes)
| ORecipients.

Definition member_step (ch : Channel) (o : MemberOp) : Channel :=
  match o with
  | OAdd r profile identity modes => add_member_with_profile r profile identity modes ch
  | ORemove conn => snd (remove_member conn ch)
  | OUpdate r identity profile => snd (update_member r identity profile ch)
  | OUpdateRecipient r => update_recipient r ch
  | OModes conn f => member_mut conn f ch
  | ORecipients => snd (recipients ch)
  end.

Definition recipient_map (ch : Channel) : gmap Z Recipient := member_recipient <$> chan_members ch.

(** Each member sits under its own connection, and a cached list is the
    current members' recipients. *)
Record cache_ok (ch : Channel) : Prop := {
  cache_conn : forall conn mb, chan_members ch !! conn = Some mb -> recipient_conn (member_recipient mb) = conn;
  cache_current : forall l, cached_recipients ch = Some l -> l ≡ₚ (map_to_list (recipient_map ch)).*2;
}.

Lemma recipients_of_map (m : gmap Z ChannelMember) :
  (fun '(_, mb) => member_recipient mb) <$> map_to_list m ≡ₚ (map_to_list (member_recipient <$> m)).*2.
Proof.
  rewrite map_to_list_fmap, <- list_fmap_compose. erewrite list_fmap_ext; [done|]. by intros ? [? ?] ?.
Qed.

Lemma cache_insert conn mb ch :
  recipient_conn (member_recipient mb) = conn -> cache_ok ch -> cache_ok (with_members (<[conn := mb]> (chan_members ch)) None ch).
Proof.
  intros Hc [H1 H2]. split; cbn; [|done]. intros conn' mb'. rewrite lookup_insert_Some. naive_solver.
Qed.

(** Replacing a member by one with the same recipient keeps the cache. *)
Lemma cache_same conn mb mb' ch :
  chan_members ch !! conn = Some mb -> member_recipient mb' = member_recipient mb ->
  cache_ok ch -> cache_ok (with_members (<[conn := mb']> (chan_members ch)) (cached_recipients ch) ch).
Proof.
  intros Hm Hr [H1 H2]. split; cbn.
  - intros conn' m'. rewrite lookup_insert_Some. intros [[<- <-]|[_ ?]]; [rewrite Hr|]; eauto.
  - intros l Hl. rewrite (H2 l Hl). unfold recipient_map. cbn. rewrite fmap_insert, Hr, insert_id; [done|].
    by rewrite lookup_fmap, Hm.
Qed.

Lemma member_step_ok ch o : cache_ok ch -> cache_ok (member_step ch o).
Proof.
  intros Hch. destruct o as [r pr i md|conn|r i pr|r|conn f|]; cbn [member_step].
  - by apply cache_insert.
  - pose proof Hch as [H1 H2]. unfold remove_member. cbn [snd]. destruct (chan_members ch !! conn) eqn:E.
    + split; cbn; [|done]. intros conn' mb'. rewrite lookup_delete_Some. naive_solver.
    + rewrite delete_id by done. by split.
  - unfold update_member. destruct (chan_members ch !! recipient_conn r) as [mb|] eqn:E; [|done].
    destruct (negb _); [done|]. cbn [snd]. case_bool_decide as Er; [|by apply cache_insert].
    apply (cache_same _ mb); [done|done|done].
  - unfold update_recipient. destruct (chan_members ch !! recipient_conn r) as [mb|] eqn:E; [|done].
    case_bool_decide as Er; [done|]. by apply cache_insert.
  - unfold member_mut. destruct (chan_members ch !! conn) as [mb|] eqn:E; [|done]. by apply (cache_same _ mb).
  - unfold recipients. destruct (cached_recipients ch) as [l|] eqn:E; [done|]. cbn [snd]. destruct Hch as [H1 _].
    split; cbn; [done|]. intros l [= <-]. apply recipients_of_map.
Qed.

Lemma member_steps_ok ops : forall ch, cache_ok ch -> cache_ok (fold_left member_step ops ch).
Proof. induction ops as [|o ops IH]; intros ch Hch; [done|]. cbn. by apply IH, member_step_ok. Qed.

Lemma recipients_current ch : cache_ok ch -> fst (recipients ch) ≡ₚ (map_to_list (recipient_map ch)).*2.
Proof.
  intros [_ H2]. unfold recipients. destruct (cached_recipients ch) as [l|] eqn:E; [by apply H2|apply recipients_of_map].
Qed.

(** However members join, leave, change rank or are renewed between
    deliveries, the recipient list a delivery uses (cached since the last one
    or rebuilt) is the current members' recipients, each connection once: no
    one who left is sent to, no one who joined is missed, and no stale
    capabilities are used. *)
Theorem recipients_coherent (name : str) (topic : option Topic) (modes : ChanModes) (at_ms : Z) (ops : list MemberOp) :
  let ch := fold_left member_step ops (Channel_new name topic modes at_ms) in
  (forall r, r ∈ fst (recipients ch) <-> exists mb, chan_members ch !! recipient_conn r = Some mb /\ member_recipient mb = r)
  /\ NoDup (recipient_conn <$> fst (recipients ch))
  /\ length (fst (recipients ch)) = member_count ch.
Proof.
  intros ch. assert (cache_ok ch) as Hch by (apply member_steps_ok; by split).
  pose proof (recipients_current ch Hch) as Hp. destruct Hch as [H1 _].
  assert (recipient_conn <$> (map_to_list (recipient_map ch)).*2 = (map_to_list (recipient_map ch)).*1) as Hk.
  { rewrite <- list_fmap_compose. apply list_fmap_ext. intros i [conn r] Hin. cbn.
    apply list_elem_of_lookup_2, elem_of_map_to_list in Hin. unfold recipient_map in Hin. rewrite lookup_fmap in Hin.
    destruct (chan_members ch !! conn) as [mb|] eqn:E; [|done]. injection Hin as <-. by apply H1. }
  split_and!.
  - intros r. rewrite Hp, list_elem_of_fmap. split.
    + intros ([conn r'] & -> & Hin%elem_of_map_to_list). unfold recipient_map in Hin. rewrite lookup_fmap in Hin. cbn.
      destruct (chan_members ch !! conn) as [mb|] eqn:E; [|done]. injection Hin as <-. exists mb. by rewrite (H1 _ _ E).
    + intros (mb & E & <-). exists (recipient_conn (member_recipient mb), member_recipient mb). split; [done|].
      apply elem_of_map_to_list. unfold recipient_map. by rewrite lookup_fmap, E.
  - rewrite Hp, Hk. apply NoDup_fst_map_to_list.
  - rewrite Hp, length_fmap, length_map_to_list. unfold recipient_map. by rewrite map_size_fmap.
Qed.
End Channel.
