(* ===== verification/Directories.v ===== *)
(** * Memberships and monitors ([e6ircd/src/core/state.rs], [MonitorDirectory]
      and [MembershipDirectory])

    What every shard may ask about channels it does not own: who is in which
    channel, what a channel's owner publishes, and the WHO, WHOIS and NICK
    answers given from it.  Each directory sits behind a mutex every operation
    holds for its whole body, so what the shards do is a sequence of these
    operations.  The answers are shown to be those the channels' owners would
    give. *)

From S2P Require Import Prelude Str Keys Casemap Multimap Wire Ip Address BanMask Nicks Channel HistoryRing ChannelState.
From stdpp Require Import gmap sorting.

Local Open Scope Z_scope.

(** ** MONITOR lists *)

Definition watch (key : str) (watcher : Z) (d : gmap str (gset Z)) : gmap str (gset Z) :=
  mm_insert key watcher d.
Definition unwatch (key : str) (watcher : Z) (d : gmap str (gset Z)) : gmap str (gset Z) :=
  mm_remove key watcher d.
Definition watchers (key : str) (d : gmap str (gset Z)) : list Z := elements (default ∅ (d !! key)).

(** ** Channel membership *)

Section Memberships.
Context {Caps : Type} `{EqDecision Caps} `{IpNet}.
Abbreviation Channel := (Channel (Caps := Caps)).

Record SilencingMasks : Type := MkSilencing {
  silencing_bans : list MaskKey;
  silencing_quiets : list MaskKey;
  silencing_exceptions : list MaskKey;
}.

Definition silences (m : CaseMapping) (subject : MaskSubject) (s : SilencingMasks) : bool :=
  (any_match m (silencing_bans s) subject || any_match m (silencing_quiets s) subject)
  && negb (any_match m (silencing_exceptions s) subject).

Record PublicChannel : Type := MkPublicChannel {
  public_name : str;
  public_secret : bool;
  public_ranks : gmap Z MemberModes;
  public_latest : Latest;
  public_created_at : Z;
  public_silencing : SilencingMasks;
}.

Record MembershipDirectory : Type := MkMemberships {
  by_conn : gmap Z (gset str);
  channels : gmap str PublicChannel;
}.

Definition publish_channel (key : str) (channel : option PublicChannel) (d : MembershipDirectory)
    : MembershipDirectory :=
  MkMemberships (by_conn d)
    match channel with
    | Some channel => <[key := channel]> (channels d)
    | None => delete key (channels d)
    end.

Definition publish_latest_message (key : str) (latest : Latest) (d : MembershipDirectory)
    : bool * MembershipDirectory :=
  match channels d !! key with
  | Some ch =>
      (true, MkMemberships (by_conn d)
        (<[key := MkPublicChannel (public_name ch) (public_secret ch) (public_ranks ch) latest (public_created_at ch)
                    (public_silencing ch)]> (channels d)))
  | None => (false, d)
  end.

Definition channel_activity (key : str) (scope : HistoryScope) (d : MembershipDirectory) : option (str * Z) :=
  channel ← channels d !! key;
  latest ← in_scope (public_latest channel) scope;
  Some (public_name channel, latest).
Definition channel_name (key : str) (d : MembershipDirectory) : option str := public_name <$> channels d !! key.
Definition channel_created_at (key : str) (d : MembershipDirectory) : option Z := public_created_at <$> channels d !! key.

Definition join (conn : Z) (key : str) (d : MembershipDirectory) : MembershipDirectory :=
  MkMemberships (mm_insert conn key (by_conn d)) (channels d).
Definition part (conn : Z) (key : str) (d : MembershipDirectory) : MembershipDirectory :=
  MkMemberships (mm_remove conn key (by_conn d)) (channels d).
Definition release (conn : Z) (d : MembershipDirectory) : MembershipDirectory :=
  MkMemberships (delete conn (by_conn d)) (channels d).

Definition in_any_channel (conn : Z) (d : MembershipDirectory) : bool :=
  match by_conn d !! conn with Some s => negb (bool_decide (s = ∅)) | None => false end.

Definition shares (a b : Z) (d : MembershipDirectory) : bool :=
  match by_conn d !! a, by_conn d !! b with
  | Some a, Some b => negb (bool_decide (a ∩ b = ∅))
  | _, _ => false
  end.

Definition membership_contains (conn : Z) (key : str) (d : MembershipDirectory) : bool :=
  match by_conn d !! conn with Some s => bool_decide (key ∈ s) | None => false end.

Definition keys_of (conn : Z) (d : MembershipDirectory) : list str := elements (default ∅ (by_conn d !! conn)).

Definition rank_sigils (target : Z) (channel : PublicChannel) (multi_prefix : bool) : str :=
  match public_ranks channel !! target with Some modes => sigils modes multi_prefix | None => [] end.

(** [target]'s channel [key] as WHOIS shows it to [requester]. *)
Definition whois_shown (target requester : Z) (multi_prefix : bool) (d : MembershipDirectory)
    (key : str) : option str :=
  channel ← channels d !! key;
  if public_secret channel && negb (membership_contains requester key d) then None
  else Some (rank_sigils target channel multi_prefix ++ public_name channel).

Definition whois_channels (target requester : Z) (multi_prefix : bool) (d : MembershipDirectory)
    : list str :=
  merge_sort str_le (omap (whois_shown target requester multi_prefix d) (keys_of target d)).

Definition who_shown (target requester : Z) (target_invisible multi_prefix : bool)
    (d : MembershipDirectory) (key : str) : option (str * str) :=
  channel ← channels d !! key;
  if membership_contains requester key d || (negb target_invisible && negb (public_secret channel))
  then Some (public_name channel, rank_sigils target channel multi_prefix) else None.

(** The first, in key order, a WHO of [target] shows. *)
Definition who_channel (target requester : Z) (target_invisible multi_prefix : bool)
    (d : MembershipDirectory) : option (str * str) :=
  head (omap (who_shown target requester target_invisible multi_prefix d)
          (merge_sort str_le (keys_of target d))).

Definition plain_in (conn : Z) (channel : PublicChannel) : bool :=
  match public_ranks channel !! conn with Some modes => negb (op modes || voice modes) | None => true end.

Definition silenced_in (conn : Z) (m : CaseMapping) (subject : MaskSubject) (d : MembershipDirectory) : option str :=
  head (merge_sort str_le
    (public_name <$> List.filter (fun channel => plain_in conn channel && silences m subject (public_silencing channel))
       (omap (fun key => channels d !! key) (keys_of conn d)))).

(** ** What a channel's owner publishes ([publish_changed_channels]) *)

Definition published (ch : Channel) (latest : Latest) : PublicChannel :=
  MkPublicChannel (chan_name ch) (secret (chan_modes ch))
    (base.filter (fun kv => op (snd kv) || voice (snd kv) = true) (member_modes <$> chan_members ch)) latest (created_at ch)
    (MkSilencing (masks (bans ch)) (masks (quiets ch)) (masks (ban_exceptions ch))).

(** ** Lemmas *)

Lemma membership_keys conn key d : key ∈ keys_of conn d <-> membership_contains conn key d = true.
Proof.
  unfold keys_of, membership_contains. rewrite elem_of_elements. destruct (by_conn d !! conn); cbn.
  - by rewrite bool_decide_eq_true.
  - split; [set_solver|done].
Qed.

Lemma published_ranks ch latest conn modes :
  member conn ch = Some modes ->
  public_ranks (published ch latest) !! conn = if op modes || voice modes then Some modes else None.
Proof.
  intros Hm. cbn. rewrite map_lookup_filter, lookup_fmap. unfold member in Hm. rewrite Hm. by destruct modes as [[] []].
Qed.

(** A member without a rank publishes none and shows none. *)
Lemma published_sigils ch latest conn modes multi :
  member conn ch = Some modes -> rank_sigils conn (published ch latest) multi = sigils modes multi.
Proof.
  intros Hm. unfold rank_sigils. rewrite (published_ranks _ _ _ _ Hm). destruct modes as [[] []]; done.
Qed.

Lemma published_plain ch latest conn modes :
  member conn ch = Some modes -> plain_in conn (published ch latest) = negb (op modes || voice modes).
Proof.
  intros Hm. unfold plain_in. rewrite (published_ranks _ _ _ _ Hm). by destruct modes as [[] []].
Qed.

Lemma published_silences ch latest m subject :
  silences m subject (public_silencing (published ch latest)) = is_silenced m subject ch.
Proof.
  apply andb_orb_distrib_l.
Qed.

Lemma is_member_iff conn (ch : Channel) : is_member conn ch = true <-> exists modes, member conn ch = Some modes.
Proof.
  unfold is_member, member. rewrite bool_decide_eq_true. split.
  - intros [mb ->]. by eexists.
  - intros [modes E]. destruct (chan_members ch !! conn); [by eexists|done].
Qed.

(** The directory agrees with the channels' owners: what is published is each
    channel as it is, and the membership index lists the members. *)
Record agrees (own : gmap str Channel) (latest : str -> Latest) (d : MembershipDirectory) : Prop := {
  agrees_published : forall key, channels d !! key = (fun ch => published ch (latest key)) <$> own !! key;
  agrees_members : forall conn key,
    membership_contains conn key d = true <-> exists ch, own !! key = Some ch /\ is_member conn ch = true;
}.

Section Agree.
Context (own : gmap str Channel) (latest : str -> Latest) (d : MembershipDirectory) (Hd : agrees own latest d).

Lemma agrees_key conn key :
  key ∈ keys_of conn d <-> exists ch modes, own !! key = Some ch /\ member conn ch = Some modes.
Proof.
  rewrite membership_keys, (agrees_members _ _ _ Hd). setoid_rewrite is_member_iff. naive_solver.
Qed.

Lemma agrees_hidden key ch requester :
  own !! key = Some ch -> public_secret (published ch (latest key)) && negb (membership_contains requester key d)
    = hidden_from requester ch.
Proof.
  intros E. unfold hidden_from. cbn. f_equal. f_equal. apply eq_true_iff_eq. rewrite (agrees_members _ _ _ Hd), E. naive_solver.
Qed.

Lemma whois_shown_agrees target requester multi key ch modes :
  own !! key = Some ch -> member target ch = Some modes ->
  whois_shown target requester multi d key
  = if hidden_from requester ch then None else Some (sigils modes multi ++ chan_name ch).
Proof.
  intros E Hm. unfold whois_shown. rewrite (agrees_published _ _ _ Hd), E. cbn [fmap option_fmap option_map mbind option_bind].
  by rewrite (agrees_hidden _ _ _ E), (published_sigils _ _ _ _ _ Hm).
Qed.

Lemma who_shown_agrees target requester invisible multi key ch modes :
  own !! key = Some ch -> member target ch = Some modes ->
  who_shown target requester invisible multi d key
  = if is_member requester ch || (negb invisible && negb (secret (chan_modes ch)))
    then Some (chan_name ch, sigils modes multi) else None.
Proof.
  intros E Hm. unfold who_shown. rewrite (agrees_published _ _ _ Hd), E. cbn [fmap option_fmap option_map mbind option_bind].
  rewrite (published_sigils _ _ _ _ _ Hm). cbn [published public_secret public_name].
  assert (membership_contains requester key d = is_member requester ch) as ->; [|done].
  apply eq_true_iff_eq. rewrite (agrees_members _ _ _ Hd), E. naive_solver.
Qed.
End Agree.

Lemma head_omap {A B} (f : A -> option B) l :
  match head (omap f l) with
  | Some y => exists l1 x l2, l = l1 ++ x :: l2 /\ f x = Some y /\ Forall (fun a => f a = None) l1
  | None => Forall (fun a => f a = None) l
  end.
Proof.
  induction l as [|a l IH]; [constructor|]. cbn. destruct (f a) as [b|] eqn:E; [by exists [], a, l|].
  destruct (head (omap f l)) as [y|]; [|by constructor].
  destruct IH as (l1 & x & l2 & -> & Hx & Hl). exists (a :: l1), x, l2. split_and!; [done|done|by constructor].
Qed.

Lemma merge_sort_sorted l : StronglySorted str_le (merge_sort str_le l).
Proof. apply StronglySorted_merge_sort; apply _. Qed.

(** Given that the directory agrees with the channels' owners, WHOIS lists
    exactly the target's channels that are not hidden from the requester, each
    with the target's rank there, in order; and WHO shows the first such
    channel, in key order, that the requester shares or that is public while
    the target is not invisible, or none when there is none.  So neither
    answer discloses a secret channel to a stranger, whichever shard gives
    it. *)
Theorem whois_and_who_exact (own : gmap str Channel) (latest : str -> Latest) (d : MembershipDirectory)
    (target requester : Z) (invisible multi : bool) (Hd : agrees own latest d) :
  let shown key ch modes := own !! key = Some ch /\ member target ch = Some modes
    /\ is_member requester ch || (negb invisible && negb (secret (chan_modes ch))) = true in
  (forall text, text ∈ whois_channels target requester multi d <->
     exists key ch modes, own !! key = Some ch /\ member target ch = Some modes
       /\ hidden_from requester ch = false /\ text = sigils modes multi ++ chan_name ch)
  /\ StronglySorted str_le (whois_channels target requester multi d)
  /\ match who_channel target requester invisible multi d with
     | Some (name, rank) => exists key ch modes, shown key ch modes
         /\ hidden_from requester ch = false /\ name = chan_name ch /\ rank = sigils modes multi
         /\ forall key' ch' modes', shown key' ch' modes' -> str_le key key'
     | None => forall key ch modes, ~ shown key ch modes
     end.
Proof.
  cbn zeta. split_and!; [|apply merge_sort_sorted|].
  - intros text. unfold whois_channels. rewrite (merge_sort_Permutation str_le), list_elem_of_omap. split.
    + intros (key & Hin & Hs). apply (agrees_key _ _ _ Hd) in Hin as (ch & modes & E & Hm). exists key, ch, modes.
      rewrite (whois_shown_agrees _ _ _ Hd _ _ _ _ _ _ E Hm) in Hs. destruct (hidden_from requester ch); [done|].
      by injection Hs as <-.
    + intros (key & ch & modes & E & Hm & Hh & ->). exists key. split; [apply (agrees_key _ _ _ Hd); eauto|].
      by rewrite (whois_shown_agrees _ _ _ Hd _ _ _ _ _ _ E Hm), Hh.
  - unfold who_channel. set (l := merge_sort str_le (keys_of target d)).
    assert (Hl : forall key ch modes, own !! key = Some ch -> member target ch = Some modes -> key ∈ l).
    { intros key ch modes E Hm. unfold l. rewrite (merge_sort_Permutation str_le). apply (agrees_key _ _ _ Hd). eauto. }
    pose proof (head_omap (who_shown target requester invisible multi d) l) as Hh.
    destruct (head _) as [[name rank]|].
    + destruct Hh as (l1 & key & l2 & El & Hs & Hn).
      assert (key ∈ l) as Hk by (rewrite El; set_solver). unfold l in Hk. rewrite (merge_sort_Permutation str_le) in Hk.
      apply (agrees_key _ _ _ Hd) in Hk as (ch & modes & E & Hm).
      rewrite (who_shown_agrees _ _ _ Hd _ _ _ _ _ _ _ E Hm) in Hs. destruct (_ || _) eqn:Ev; [|done].
      injection Hs as <- <-. exists key, ch, modes. split_and!; try done.
      * unfold hidden_from. destruct (is_member requester ch); cbn; [by rewrite andb_false_r|].
        destruct (secret (chan_modes ch)); [|done]. by rewrite andb_false_r in Ev.
      * intros key' ch' modes' (E' & Hm' & Ev'). pose proof (Hl _ _ _ E' Hm') as Hin. rewrite El in Hin.
        pose proof (merge_sort_sorted (keys_of target d)) as Hs. fold l in Hs. rewrite El in Hs.
        apply elem_of_app in Hin as [Hin|[->|Hin]%elem_of_cons].
        -- rewrite Forall_forall in Hn. apply Hn in Hin.
           rewrite (who_shown_agrees _ _ _ Hd _ _ _ _ _ _ _ E' Hm'), Ev' in Hin. done.
        -- reflexivity.
        -- apply StronglySorted_app_1_r in Hs. inversion Hs as [|? ? _ Hf]; subst. rewrite Forall_forall in Hf. auto.
    + intros key ch modes (E & Hm & Ev). pose proof (Hl _ _ _ E Hm) as Hin. rewrite Forall_forall in Hh. apply Hh in Hin.
      by rewrite (who_shown_agrees _ _ _ Hd _ _ _ _ _ _ _ E Hm), Ev in Hin.
Qed.

(** Given that the directory agrees with the owners, a NICK is refused for
    a channel exactly when the session holds no rank in some channel whose
    owner would refuse its messages for a ban or quiet, and the channel named
    is such a channel, the first by name. *)
Theorem silenced_in_exact (own : gmap str Channel) (latest : str -> Latest) (d : MembershipDirectory)
    (conn : Z) (m : CaseMapping) (subject : MaskSubject) (Hd : agrees own latest d) :
  let silenced ch := exists key modes, own !! key = Some ch /\ member conn ch = Some modes
    /\ op modes || voice modes = false /\ is_silenced m subject ch = true in
  match silenced_in conn m subject d with
  | Some name => (exists ch, silenced ch /\ chan_name ch = name) /\ forall ch, silenced ch -> str_le name (chan_name ch)
  | None => forall ch, ~ silenced ch
  end.
Proof.
  cbn zeta. unfold silenced_in. set (names := public_name <$> _).
  assert (Hn : forall name, name ∈ names <-> exists ch, chan_name ch = name /\ exists key modes, own !! key = Some ch
    /\ member conn ch = Some modes /\ op modes || voice modes = false /\ is_silenced m subject ch = true).
  { intros name. unfold names. rewrite list_elem_of_fmap. setoid_rewrite elem_of_Lfilter. setoid_rewrite list_elem_of_omap.
    setoid_rewrite (agrees_published _ _ _ Hd). setoid_rewrite (agrees_key _ _ _ Hd). setoid_rewrite andb_true_iff. split.
    - intros (pc & -> & (key & (ch & modes & E & Hm) & Ep) & Hp & Hs). rewrite E in Ep. injection Ep as <-.
      rewrite (published_plain _ _ _ _ Hm), negb_true_iff in Hp. rewrite published_silences in Hs.
      exists ch. split; [done|]. by exists key, modes.
    - intros (ch & <- & key & modes & E & Hm & Hp & Hs). exists (published ch (latest key)). split; [done|].
      rewrite (published_plain _ _ _ _ Hm), published_silences, Hp, Hs. split; [|done]. exists key. rewrite E. eauto. }
  pose proof (merge_sort_sorted names) as Hs. pose proof (merge_sort_Permutation str_le names) as Hp.
  destruct (merge_sort str_le names) as [|name l]; cbn [head].
  - intros ch Hch. assert (chan_name ch ∈ names) as Hin by (apply Hn; eauto). rewrite <- Hp in Hin. by apply elem_of_nil in Hin.
  - split.
    + assert (name ∈ names) as (ch & <- & Hch)%Hn by (rewrite <- Hp; left). by exists ch.
    + intros ch Hch. assert (chan_name ch ∈ names) as Hin by (apply Hn; eauto). rewrite <- Hp in Hin.
      inversion Hs as [|? ? _ Hf]; subst. apply elem_of_cons in Hin as [->|Hin]; [reflexivity|]. rewrite Forall_forall in Hf. auto.
Qed.
End Memberships.

(** ** A concrete directory *)

Section Sample.
#[local] Existing Instance PlainIpNet.

Definition sample_recipient : Recipient (Caps := ()) := MkRecipient (MkOwner 1 0) ().
Definition sample_channel : Channel (Caps := ()) :=
  add_member_with_profile sample_recipient (MkProfile (bs "u") (bs "h") None (bs "r") None false false false 0)
    (MkIdentity (bs "bob") (bs "bob!u@h") false) (MkModes true false)
    (Channel_new (bs "#Rust") None (MkChanModes false false false false true false false None None) 5).
Definition sample_latest (key : str) : Latest := MkLatest None None.
Definition sample_directory : MembershipDirectory :=
  join 1 (bs "#rust") (publish_channel (bs "#rust") (Some (published sample_channel (MkLatest None None))) (MkMemberships ∅ ∅)).

Lemma sample_agrees : agrees {[bs "#rust" := sample_channel]} sample_latest sample_directory.
Proof.
  split.
  - intros key. destruct (decide (key = bs "#rust")) as [->|Hne].
    + rewrite lookup_singleton_eq. reflexivity.
    + rewrite lookup_singleton_ne by done. cbn [sample_directory channels join publish_channel]. by rewrite lookup_insert_ne.
  - intros conn key. unfold membership_contains, sample_directory, join, mm_insert. cbn [by_conn publish_channel].
    rewrite lookup_empty. cbn [default from_option]. destruct (decide (conn = 1)) as [->|Hc].
    + rewrite lookup_insert_eq, bool_decide_eq_true. split.
      * intros Hin. assert (key = bs "#rust") as -> by set_solver. exists sample_channel. split; [apply lookup_singleton_eq|done].
      * intros (ch & [<- _]%lookup_singleton_Some & _). set_solver.
    + rewrite lookup_insert_ne, lookup_empty by done. split; [done|]. intros (ch & [_ <-]%lookup_singleton_Some & Hm).
      unfold is_member, sample_channel, add_member_with_profile in Hm. cbn [chan_members with_members] in Hm.
      rewrite lookup_insert_ne in Hm by done. done.
Qed.

Lemma whois_and_who_exact_witness :
  (forall text, text ∈ whois_channels 1 2 false sample_directory -> False) /\ who_channel 1 2 false false sample_directory = None.
Proof.
  destruct (whois_and_who_exact {[bs "#rust" := sample_channel]} sample_latest sample_directory 1 2 false false sample_agrees)
    as (Hw & _ & _).
  split; [|reflexivity]. intros text (key & ch & modes & [_ <-]%lookup_singleton_Some & _ & Hh & _)%Hw. by vm_compute in Hh.
Defined.

Lemma silenced_in_exact_witness :
  silenced_in 1 Ascii (MaskSubject_new (bs "bob!u@h") None None) sample_directory = None
  /\ forall ch, ~ (exists key modes, ({[bs "#rust" := sample_channel]} : gmap str _) !! key = Some ch /\ member 1 ch = Some modes
    /\ op modes || voice modes = false /\ is_silenced Ascii (MaskSubject_new (bs "bob!u@h") None None) ch = true).
Proof.
  split; [reflexivity|].
  exact (silenced_in_exact {[bs "#rust" := sample_channel]} sample_latest sample_directory 1 Ascii
    (MaskSubject_new (bs "bob!u@h") None None) sample_agrees).
Defined.
End Sample.
