(* ===== verification/Publish.v ===== *)
(** * Publishing what an event changed ([e6ircd/src/core/state.rs],
      [ChannelDirectory] and [publish_changed_channels])

    A shard owns its channels and their history; the other shards answer from
    what it publishes.  An event records which channels it touched and which
    history rings it changed, and publishes those, and only those, when it
    ends.  The channel's contents, the hot history and the membership directory
    are the models of their own files; the rest of [ServerState] does not
    matter here. *)

From S2P Require Import Prelude Str Keys Casemap Multimap Wire Ip Address BanMask Nicks Channel Recency HistoryRing HotHistory ChannelState Directories.
From stdpp Require Import gmap sorting.

Local Open Scope Z_scope.

Section Publish.
Context {Caps : Type} `{EqDecision Caps} `{IpNet}.
Context (entry_size : N).
Abbreviation Channel := (Channel (Caps := Caps)).

(** ** The shard's channels *)

Record ChannelDirectory : Type := MkChannels {
  own_channels : gmap str Channel;
  touched : list str;
  activity_touched : list str;
}.

Definition ChannelDirectory_new : ChannelDirectory := MkChannels ∅ [] [].

Definition dir_get (key : str) (c : ChannelDirectory) : option Channel := own_channels c !! key.

(** [get_mut] and the write through it. *)
Definition dir_get_mut (key : str) (f : Channel -> Channel) (c : ChannelDirectory) : ChannelDirectory :=
  MkChannels (alter f key (own_channels c)) (touched c ++ [key]) (activity_touched c).

(** [entry(key).or_insert(made)] and the write through it. *)
Definition dir_entry (key : str) (made : Channel) (f : Channel -> Channel) (c : ChannelDirectory) : ChannelDirectory :=
  MkChannels (<[key := f (default made (own_channels c !! key))]> (own_channels c)) (touched c ++ [key])
    (activity_touched c).

Definition dir_remove (key : str) (c : ChannelDirectory) : ChannelDirectory :=
  MkChannels (delete key (own_channels c)) (touched c ++ [key]) (activity_touched c).

Definition touch_activity (key : str) (c : ChannelDirectory) : ChannelDirectory :=
  MkChannels (own_channels c) (touched c) (activity_touched c ++ [key]).

(** [Vec::dedup]: consecutive repetitions. *)
Fixpoint dedup_keys (l : list str) : list str :=
  match l with
  | [] => []
  | a :: l' =>
      match dedup_keys l' with
      | b :: r => if bool_decide (a = b) then b :: r else a :: b :: r
      | [] => [a]
      end
  end.

Definition sorted_unique (keys : list str) : list str := dedup_keys (merge_sort str_le keys).

Definition take_touched (c : ChannelDirectory) : list str * ChannelDirectory :=
  (sorted_unique (touched c), MkChannels (own_channels c) [] (activity_touched c)).
Definition take_activity_touched (c : ChannelDirectory) : list str * ChannelDirectory :=
  (sorted_unique (activity_touched c), MkChannels (own_channels c) (touched c) []).

(** ** The parts of the server state involved *)

Record ShardState : Type := MkShard {
  shard_channels : ChannelDirectory;
  shard_history : HotHistory;
  memberships : MembershipDirectory;
}.

Definition ShardState_new (d : MembershipDirectory) : ShardState := MkShard ChannelDirectory_new HotHistory_default d.

Definition latest_channel_message (key : str) (s : ShardState) : Latest :=
  match rings (shard_history s) !! key with Some ring => ring_latest ring | None => MkLatest None None end.

(** [key.channel()] is the key itself when it starts with a number sign. *)
Definition channel_ring_changed (key : str) (c : ChannelDirectory) : ChannelDirectory :=
  if starts_with "#" key then touch_activity key c else c.

Definition push_history (key : str) (entry : HistoryRow) (whole_record : bool) (bounds : HotHistoryBounds)
    (s : ShardState) : option ShardState :=
  '(evicted, h) ← hot_push entry_size key entry whole_record bounds (shard_history s);
  let c := channel_ring_changed key (shard_channels s) in
  Some (MkShard (fold_left (fun c cold => channel_ring_changed cold c) evicted c) h (memberships s)).

Definition remove_channel (key : str) (s : ShardState) : ShardState :=
  MkShard (dir_remove key (shard_channels s)) (snd (hot_remove key (shard_history s))) (memberships s).

(** The history half of [forget_deleted_account]. *)
Definition forget_deleted_account (folded : str) (m : CaseMapping) (s : ShardState) : ShardState :=
  let '(changed, h) := forget_account entry_size folded m (shard_history s) in
  MkShard (fold_left (fun c key => channel_ring_changed key c) changed (shard_channels s)) h (memberships s).

(** The record published for [key], none when the channel is gone. *)
Definition record_of (key : str) (s : ShardState) : option PublicChannel :=
  (fun ch => published ch (latest_channel_message key s)) <$> own_channels (shard_channels s) !! key.

(** The second loop of [publish_changed_channels]; [None] is its [assert!]. *)
Fixpoint publish_activity (keys published_whole : list str) (s : ShardState) (d : MembershipDirectory)
    : option MembershipDirectory :=
  match keys with
  | [] => Some d
  | key :: keys =>
      if bool_decide (key ∈ published_whole) || negb (bool_decide (is_Some (own_channels (shard_channels s) !! key)))
      then publish_activity keys published_whole s d
      else
        let '(done_, d) := publish_latest_message key (latest_channel_message key s) d in
        if done_ then publish_activity keys published_whole s d else None
  end.

Definition publish_changed_channels (s : ShardState) : option ShardState :=
  let '(keys, c) := take_touched (shard_channels s) in
  let d := fold_left (fun d key => publish_channel key (record_of key s) d) keys (memberships s) in
  let '(active, c) := take_activity_touched c in
  d ← publish_activity active keys s d;
  Some (MkShard c (shard_history s) d).

(** ** Events *)

Inductive EventOp : Type :=
| EMutate (key : str) (f : Channel -> Channel)
| EEntry (key : str) (made : Channel) (f : Channel -> Channel)
| ERemoveChannel (key : str)
| EPushHistory (key : str) (entry : HistoryRow) (whole_record : bool) (bounds : HotHistoryBounds)
| EMarkIncomplete (key : str)
| EForgetAccount (folded : str) (m : CaseMapping)
| EForgetIdentity (identity : str)
| EJoin (conn : Z) (key : str)
| EPart (conn : Z) (key : str)
| ERelease (conn : Z)
(** Another shard publishes a channel it owns. *)
| EForeign (key : str) (record : option PublicChannel).

Definition on_channels (f : ChannelDirectory -> ChannelDirectory) (s : ShardState) : ShardState :=
  MkShard (f (shard_channels s)) (shard_history s) (memberships s).
Definition on_history (f : HotHistory -> HotHistory) (s : ShardState) : ShardState :=
  MkShard (shard_channels s) (f (shard_history s)) (memberships s).
Definition on_memberships (f : MembershipDirectory -> MembershipDirectory) (s : ShardState) : ShardState :=
  MkShard (shard_channels s) (shard_history s) (f (memberships s)).

Definition event_step (s : ShardState) (o : EventOp) : option ShardState :=
  match o with
  | EMutate key f => Some (on_channels (dir_get_mut key f) s)
  | EEntry key made f => Some (on_channels (dir_entry key made f) s)
  | ERemoveChannel key => Some (remove_channel key s)
  | EPushHistory key entry whole bounds => push_history key entry whole bounds s
  | EMarkIncomplete key => Some (on_history (mark_incomplete key) s)
  | EForgetAccount folded m => Some (forget_deleted_account folded m s)
  | EForgetIdentity identity => Some (on_history (forget_identity identity) s)
  | EJoin conn key => Some (on_memberships (Directories.join conn key) s)
  | EPart conn key => Some (on_memberships (part conn key) s)
  | ERelease conn => Some (on_memberships (release conn) s)
  | EForeign key record => Some (on_memberships (publish_channel key record) s)
  end.

Fixpoint event_steps (s : ShardState) (ops : list EventOp) : option ShardState :=
  match ops with
  | [] => Some s
  | o :: ops => s ← event_step s o; event_steps s ops
  end.

(** Events, each published as it ends. *)
Fixpoint run_events (s : ShardState) (events : list (list EventOp)) : option ShardState :=
  match events with
  | [] => Some s
  | ops :: events => s ← event_steps s ops; s ← publish_changed_channels s; run_events s events
  end.

(** ** Lemmas *)

Lemma elem_of_dedup k l : k ∈ dedup_keys l <-> k ∈ l.
Proof.
  induction l as [|a l IH]; [done|]. cbn. rewrite elem_of_cons, <- IH.
  destruct (dedup_keys l) as [|b r]; [set_solver|]. case_bool_decide; set_solver.
Qed.

Lemma elem_of_sorted_unique k l : k ∈ sorted_unique l <-> k ∈ l.
Proof. unfold sorted_unique. by rewrite elem_of_dedup, (merge_sort_Permutation str_le). Qed.

Lemma ring_changed_own key c : own_channels (channel_ring_changed key c) = own_channels c /\ touched (channel_ring_changed key c) = touched c.
Proof. unfold channel_ring_changed. by destruct (starts_with "#" key). Qed.

Lemma rings_changed keys : forall c,
  let c' := fold_left (fun c key => channel_ring_changed key c) keys c in
  own_channels c' = own_channels c /\ touched c' = touched c
  /\ forall k, k ∈ activity_touched c' <-> k ∈ activity_touched c \/ (k ∈ keys /\ starts_with "#" k = true).
Proof.
  induction keys as [|x keys IH]; intros c; cbn [fold_left].
  { split_and!; [done|done|]. intros k. split; [by left|]. intros [?|[?%elem_of_nil ?]]; done. }
  destruct (IH (channel_ring_changed x c)) as (H1 & H2 & H3). destruct (ring_changed_own x c) as [H4 H5].
  split_and!; [congruence|congruence|]. intros k. rewrite H3. unfold channel_ring_changed.
  destruct (starts_with "#" x) eqn:E; cbn [touch_activity activity_touched].
  - rewrite elem_of_app, list_elem_of_singleton, elem_of_cons.
    split; [intros [[?|Hk]|[? ?]]; try subst; auto|intros [?|[[Hk|?] ?]]; auto].
  - rewrite elem_of_cons. split; [intros [?|[? ?]]; auto|intros [?|[[Hk|?] ?]]; [by auto|congruence|auto]].
Qed.

Lemma publish_touched_lookup keys s : forall d k,
  channels (fold_left (fun d key => publish_channel key (record_of key s) d) keys d) !! k
  = if decide (k ∈ keys) then record_of k s else channels d !! k.
Proof.
  induction keys as [|x keys IH]; intros d k; cbn [fold_left]; [done|]. rewrite IH.
  assert (channels (publish_channel x (record_of x s) d) !! k = if decide (k = x) then record_of k s else channels d !! k) as ->.
  { unfold publish_channel. cbn. destruct (decide (k = x)) as [->|Hne].
    - destruct (record_of x s); [by rewrite lookup_insert_eq|by rewrite lookup_delete_eq].
    - destruct (record_of x s); [by rewrite lookup_insert_ne|by rewrite lookup_delete_ne]. }
  destruct (decide (k ∈ keys)), (decide (k = x)), (decide (k ∈ x :: keys)); set_solver.
Qed.

Definition with_latest (latest : Latest) (ch : PublicChannel) : PublicChannel :=
  MkPublicChannel (public_name ch) (public_secret ch) (public_ranks ch) latest (public_created_at ch) (public_silencing ch).

Lemma publish_latest_lookup key latest d k :
  is_Some (channels d !! key) ->
  exists d', publish_latest_message key latest d = (true, d')
    /\ channels d' !! k = if decide (k = key) then with_latest latest <$> channels d !! k else channels d !! k.
Proof.
  intros [ch E]. unfold publish_latest_message. rewrite E. eexists. split; [done|]. cbn.
  destruct (decide (k = key)) as [->|]; [by rewrite lookup_insert_eq, E|by rewrite lookup_insert_ne].
Qed.

(** The second loop never fails where every channel not published whole has a
    record, and then refreshes the newest-message times. *)
Lemma publish_activity_spec keys whole s : forall d,
  (forall k, k ∈ keys -> (k ∉ whole) -> is_Some (own_channels (shard_channels s) !! k) -> is_Some (channels d !! k)) ->
  exists d', publish_activity keys whole s d = Some d' /\
    forall k, channels d' !! k =
      if decide (k ∈ keys /\ (k ∉ whole) /\ is_Some (own_channels (shard_channels s) !! k))
      then with_latest (latest_channel_message k s) <$> channels d !! k else channels d !! k.
Proof.
  induction keys as [|x keys IH]; intros d Hd; cbn [publish_activity].
  { exists d. split; [done|]. intros k. rewrite decide_False; [done|]. by intros [?%elem_of_nil _]. }
  destruct (bool_decide (x ∈ whole) || negb (bool_decide (is_Some (own_channels (shard_channels s) !! x)))) eqn:E.
  - destruct (IH d) as (d' & -> & Hl). { intros k Hk. apply Hd. by right. }
    exists d'. split; [done|]. intros k. rewrite Hl. apply decide_ext.
    rewrite elem_of_cons. split; [tauto|]. intros [[->|?] [? ?]]; [exfalso|tauto].
    apply orb_true_iff in E as [E%bool_decide_eq_true|E%negb_true_iff%bool_decide_eq_false]; done.
  - apply orb_false_iff in E as [E1%bool_decide_eq_false E2%negb_false_iff%bool_decide_eq_true].
    assert (is_Some (channels d !! x)) as Hx by (apply Hd; [left|done|done]).
    destruct (publish_latest_lookup x (latest_channel_message x s) d x Hx) as (d1 & E & _). rewrite E.
    assert (Hd1 : forall k, channels d1 !! k = if decide (k = x) then with_latest (latest_channel_message x s) <$> channels d !! k else channels d !! k).
    { intros k. destruct (publish_latest_lookup x (latest_channel_message x s) d k Hx) as (d2 & E' & Hk). congruence. }
    destruct (IH d1) as (d' & -> & Hl).
    { intros k Hk Hw Ho. rewrite Hd1. destruct (decide (k = x)) as [->|]; [by rewrite fmap_is_Some|]. apply Hd; [by right|done|done]. }
    exists d'. split; [done|]. intros k. rewrite Hl, Hd1. destruct (decide (k = x)) as [->|Hne].
    + rewrite (decide_True (P := x ∈ x :: keys /\ _)) by (split; [left|done]). destruct (decide _); [|done].
      by destruct (channels d !! x).
    + apply decide_ext. rewrite elem_of_cons. tauto.
Qed.

(** Publication writes only the records of channels. *)
Lemma publish_activity_index keys whole s : forall d d',
  publish_activity keys whole s d = Some d' -> by_conn d' = by_conn d.
Proof.
  induction keys as [|x keys IH]; intros d d'; cbn [publish_activity]; [by intros [= <-]|].
  destruct (_ || _); [apply IH|]. unfold publish_latest_message. destruct (channels d !! x); [|done].
  intros E%IH. exact E.
Qed.

Lemma publish_index s s' : publish_changed_channels s = Some s' -> by_conn (memberships s') = by_conn (memberships s).
Proof.
  unfold publish_changed_channels. cbn [take_touched take_activity_touched activity_touched].
  destruct (publish_activity _ _ _ _) as [d|] eqn:E; [|done]. cbn [mbind option_bind]. intros [= <-]. cbn [memberships].
  apply publish_activity_index in E. rewrite E. clear E. generalize (memberships s) as d0.
  induction (sorted_unique (touched (shard_channels s))) as [|k keys IH]; intros d0; [done|]. cbn [fold_left].
  etransitivity; [apply IH|done].
Qed.

(** A channel that is neither here nor published stays unpublished. *)
Lemma publish_absent s s' key :
  publish_changed_channels s = Some s' -> own_channels (shard_channels s) !! key = None ->
  channels (memberships s) !! key = None -> channels (memberships s') !! key = None.
Proof.
  unfold publish_changed_channels. cbn [take_touched take_activity_touched activity_touched].
  set (keys := sorted_unique (touched (shard_channels s))). set (active := sorted_unique _). intros E Ho Hd.
  assert (Hfold : channels (fold_left (fun d k => publish_channel k (record_of k s) d) keys (memberships s)) !! key = None).
  { rewrite publish_touched_lookup. destruct (decide (key ∈ keys)); [|done]. unfold record_of. by rewrite Ho. }
  revert Hfold E. generalize (fold_left (fun d k => publish_channel k (record_of k s) d) keys (memberships s)) as d. clear Hd.
  intros d Hd. destruct (publish_activity active keys s d) as [d'|] eqn:E; [|done]. cbn [mbind option_bind]. intros [= <-].
  cbn [memberships]. revert d d' Hd E. induction active as [|x active IH]; intros d d' Hd; cbn [publish_activity].
  { by intros [= <-]. }
  destruct (_ || _) eqn:Eb; [by apply IH|]. unfold publish_latest_message.
  destruct (channels d !! x) as [ch|] eqn:Ex; [|done]. apply IH. cbn [channels].
  apply orb_false_iff in Eb as [_ Eb%negb_false_iff%bool_decide_eq_true]. destruct (decide (x = key)) as [->|Hne].
  - rewrite Ho in Eb. by destruct Eb.
  - by rewrite lookup_insert_ne.
Qed.

(** ** The invariant between publications *)

Section Mine.
(** The channels this shard owns. *)
Context (mine : str -> Prop) (mine_channel : forall key, mine key -> starts_with "#" key = true).

Definition event_ok (o : EventOp) : Prop :=
  match o with
  | EMutate key _ | EEntry key _ _ | ERemoveChannel key => mine key
  | EPushHistory _ _ _ bounds => bounds_ok bounds
  | EForeign key _ => ~ mine key
  | _ => True
  end.

(** A channel not touched is published as it is, but for its newest-message
    time when its ring changed. *)
Record pending (s : ShardState) : Prop := {
  pending_history : hot_ok entry_size (shard_history s);
  pending_own : forall key, is_Some (own_channels (shard_channels s) !! key) -> mine key;
  pending_record : forall key, mine key -> (key ∉ touched (shard_channels s)) ->
    exists latest, channels (memberships s) !! key = (fun ch => published ch latest) <$> own_channels (shard_channels s) !! key
      /\ ((key ∉ activity_touched (shard_channels s)) -> latest = latest_channel_message key s);
}.

Lemma identities_channel key : starts_with "#" key = true -> identities key = [].
Proof. unfold identities, participants. by intros ->. Qed.

(** Changing the history: rings not reported keep their newest times. *)
Lemma pending_rings s h c :
  pending s -> hot_ok entry_size h ->
  own_channels c = own_channels (shard_channels s) -> touched c = touched (shard_channels s) ->
  (forall key, mine key -> (key ∉ activity_touched c) -> key ∉ activity_touched (shard_channels s)) ->
  (forall key, mine key -> (key ∉ touched c) -> (key ∉ activity_touched c) ->
    latest_channel_message key (MkShard c h (memberships s)) = latest_channel_message key s) ->
  pending (MkShard c h (memberships s)).
Proof.
  intros [Hh Ho Hr] Hh' Eo Et Ha Hl. split; cbn [shard_channels shard_history memberships]; [done| |].
  - by rewrite Eo.
  - intros key Hk Hnt. rewrite Eo. destruct (Hr key Hk) as (latest & -> & Hlatest); [by rewrite <- Et|].
    exists latest. split; [done|]. intros Hna. rewrite Hl by done. auto.
Qed.

Lemma latest_same key (s s' : ShardState) :
  rings (shard_history s') !! key = rings (shard_history s) !! key ->
  latest_channel_message key s' = latest_channel_message key s.
Proof. unfold latest_channel_message. by intros ->. Qed.

Lemma pending_touch key c' s h d :
  pending s -> mine key -> hot_ok entry_size h -> channels d = channels (memberships s) ->
  touched c' = touched (shard_channels s) ++ [key] -> activity_touched c' = activity_touched (shard_channels s) ->
  (forall k, k <> key -> own_channels c' !! k = own_channels (shard_channels s) !! k) ->
  (forall k, k <> key -> rings h !! k = rings (shard_history s) !! k) ->
  pending (MkShard c' h d).
Proof.
  intros [Hh Ho Hr] Hk Hh' Ed Et Ea Hc Hrings. split; cbn [shard_channels shard_history memberships]; [done| |].
  - intros k Hs. destruct (decide (k = key)) as [->|]; [done|]. rewrite Hc in Hs by done. auto.
  - intros k Hm Hnt. rewrite Et, not_elem_of_app in Hnt. destruct Hnt as [Hnt Hne]. rewrite list_elem_of_singleton in Hne.
    destruct (Hr k Hm Hnt) as (latest & E & Hl). exists latest. rewrite Ed, E, Hc by done. split; [done|].
    rewrite Ea. intros Hna. rewrite (latest_same k s); [auto|]. by apply Hrings.
Qed.

Lemma hot_remove_rings key h : rings (snd (hot_remove key h)) = delete key (rings h).
Proof. unfold hot_remove. set (h1 := MkHot _ _ _ _). by destruct (forget_ring_rings key h1) as [-> _]. Qed.

Lemma forget_identity_channel identity h key :
  hot_ok entry_size h -> starts_with "#" key = true -> rings (forget_identity identity h) !! key = rings h !! key.
Proof.
  intros [[_ Hi _ _] _ _] Hk. unfold forget_identity. rewrite forget_keys_rings. apply lookup_without_rings_ne.
  unfold conversations_of. rewrite elem_of_elements. intros Hin. apply Hi in Hin as [_ Hin].
  rewrite identities_channel in Hin by done. by apply elem_of_nil in Hin.
Qed.

Lemma push_history_pending key entry whole bounds s :
  bounds_ok bounds -> pending s -> exists s', push_history key entry whole bounds s = Some s' /\ pending s'.
Proof.
  intros Hb Hs. destruct (hot_push_spec entry_size key entry whole bounds (shard_history s) Hb (pending_history _ Hs))
    as (n & h' & E & Hok & Hrings & _). unfold push_history. rewrite E. cbn [mbind option_bind]. eexists. split; [done|].
  set (evicted := take n _) in *. destruct (rings_changed evicted (channel_ring_changed key (shard_channels s))) as (H1 & H2 & H3).
  destruct (ring_changed_own key (shard_channels s)) as [H4 H5].
  assert (Hkey : forall k, starts_with "#" k = true -> k ∉ activity_touched (channel_ring_changed key (shard_channels s)) ->
    (k ∉ activity_touched (shard_channels s)) /\ k <> key).
  { intros k Hk. unfold channel_ring_changed. destruct (starts_with "#" key) eqn:Es; cbn; [set_solver|].
    intros ?. split; [done|]. congruence. }
  apply pending_rings; [done|done|congruence|congruence| |].
  - intros k Hm Hn. apply mine_channel in Hm. rewrite H3 in Hn. apply Hkey; tauto.
  - intros k Hm _ Hn. apply latest_same. cbn [shard_history]. apply mine_channel in Hm. rewrite H3 in Hn.
    destruct (Hkey k Hm) as [_ Hne]; [tauto|]. rewrite Hrings, lookup_without_rings_ne by tauto. by rewrite lookup_insert_ne.
Qed.

Lemma retain_latest k folded m h :
  hot_ok entry_size h -> starts_with "#" k = true ->
  (k ∉ fst (forget_account entry_size folded m h)) ->
  rings (snd (forget_account entry_size folded m h)) !! k = rings h !! k.
Proof.
  intros Hh Hk. unfold forget_account. cbn [fst snd rings]. rewrite !lookup_fmap, forget_identity_channel by done.
  set (h1 := forget_identity folded h). intros Hn.
  destruct (rings h !! k) as [ring|] eqn:E; [|done]. cbn. f_equal.
  destruct (ring_retain entry_size (not_sent_by folded m) ring) as [[] ring'] eqn:Er.
  - exfalso. apply Hn, list_elem_of_fmap. exists (k, (true, ring')). split; [done|]. apply elem_of_Lfilter. split; [|done].
    apply elem_of_map_to_list. rewrite lookup_fmap. unfold h1. rewrite forget_identity_channel, E by done. cbn. by rewrite Er.
  - unfold ring_retain in Er. destruct (_ =? _)%nat; [|done]. by injection Er as <-.
Qed.

Lemma event_step_pending s o : event_ok o -> pending s -> exists s', event_step s o = Some s' /\ pending s'.
Proof.
  intros Ho Hs. pose proof Hs as [Hh Hown Hr].
  destruct o as [key f|key made f|key|key e w b|key|folded m|i|conn key|conn key|conn|key rc]; cbn [event_step];
    try (eexists; split; [reflexivity|]).
  - apply (pending_touch key _ s); try done. intros k Hne. cbn. by rewrite lookup_alter_ne.
  - apply (pending_touch key _ s); try done. intros k Hne. cbn. by rewrite lookup_insert_ne.
  - apply (pending_touch key _ s); try done; [by apply hot_remove_ok|..]; intros k Hne; cbn [dir_remove own_channels];
      rewrite ?hot_remove_rings; by rewrite lookup_delete_ne.
  - by apply push_history_pending.
  - apply pending_rings; try done; [by apply mark_incomplete_ok|]. intros k Hm _ _. unfold latest_channel_message. cbn.
    unfold mark_incomplete. destruct (rings (shard_history s) !! key) as [ring|] eqn:E; [|done]. cbn.
    destruct (decide (k = key)) as [->|]; [by rewrite lookup_insert_eq, E|by rewrite lookup_insert_ne].
  - pose proof (forget_account_ok entry_size folded m _ Hh) as Hok.
    pose proof (fun k => retain_latest k folded m _ Hh) as Hret. unfold forget_deleted_account.
    destruct (forget_account entry_size folded m (shard_history s)) as [changed h']. cbn [fst snd] in *.
    destruct (rings_changed changed (shard_channels s)) as (H1 & H2 & H3). apply pending_rings; try done.
    + intros k _ Hn. rewrite H3 in Hn. tauto.
    + intros k Hm%mine_channel _ Hn. rewrite H3 in Hn. apply latest_same, Hret; tauto.
  - apply pending_rings; try done; [by apply forget_identity_ok|]. intros k Hm%mine_channel _ _. apply latest_same.
    by apply forget_identity_channel.
  - by split.
  - by split.
  - by split.
  - split; cbn [shard_channels shard_history memberships on_memberships]; [done|done|]. intros k Hm Hnt.
    destruct (Hr k Hm Hnt) as (latest & E & Hl). exists latest. split; [|done]. rewrite <- E.
    cbn in Ho. assert (k <> key) by (by intros ->). unfold publish_channel. cbn.
    destruct rc; [by rewrite lookup_insert_ne|by rewrite lookup_delete_ne].
Qed.

(** Every owned channel is published as it is, and nothing else of the
    shard's. *)
Definition published_as_is (s : ShardState) : Prop :=
  forall key, mine key -> channels (memberships s) !! key = record_of key s.

Lemma publish_spec s :
  pending s -> exists s', publish_changed_channels s = Some s' /\ published_as_is s' /\ pending s'
    /\ own_channels (shard_channels s') = own_channels (shard_channels s) /\ shard_history s' = shard_history s.
Proof.
  intros [Hh Ho Hr]. unfold publish_changed_channels. cbn [take_touched take_activity_touched activity_touched].
  set (keys := sorted_unique (touched (shard_channels s))). set (active := sorted_unique _).
  destruct (publish_activity_spec active keys s
    (fold_left (fun d key => publish_channel key (record_of key s) d) keys (memberships s))) as (d' & -> & Hd').
  { intros k _ Hk Hs. rewrite publish_touched_lookup, decide_False by done.
    destruct (Hr k (Ho k Hs)) as (latest & -> & _); [|by rewrite fmap_is_Some].
    intros Hin. by apply Hk, elem_of_sorted_unique. }
  cbn [mbind option_bind]. eexists. split; [done|]. set (s' := MkShard _ _ d').
  assert (Hcur : published_as_is s').
  { intros key Hm. change (record_of key s') with (record_of key s). cbn [s' memberships]. rewrite Hd', publish_touched_lookup.
    destruct (decide (key ∈ keys)) as [Hk|Hk].
    - rewrite decide_False by tauto. done.
    - destruct (Hr key Hm) as (latest & E & Hl); [by intros ?%elem_of_sorted_unique|]. rewrite E. unfold record_of.
      destruct (own_channels (shard_channels s) !! key) as [ch|] eqn:Ec; cbn; [|by destruct (decide _)].
      destruct (decide _) as [_|Hn]; [done|]. rewrite Hl; [done|]. intros Hin. apply Hn. split; [by apply elem_of_sorted_unique|]. by split. }
  split; [done|]. split; [|done]. split; [done|done|]. intros key Hm _. exists (latest_channel_message key s'). split; [|done].
  by apply Hcur.
Qed.

Lemma event_steps_pending ops : forall s, Forall event_ok ops -> pending s ->
  exists s', event_steps s ops = Some s' /\ pending s'.
Proof.
  induction ops as [|o ops IH]; intros s Hops Hs; cbn; [by exists s|]. apply Forall_cons in Hops as [Ho Hops].
  destruct (event_step_pending s o Ho Hs) as (s1 & -> & Hs1). by apply IH.
Qed.

Lemma run_events_spec events : forall s, Forall (Forall event_ok) events -> pending s -> published_as_is s ->
  exists s', run_events s events = Some s' /\ published_as_is s' /\ pending s'.
Proof.
  induction events as [|ops events IH]; intros s Hev Hs Hp; cbn [run_events]; [by exists s|]. apply Forall_cons in Hev as [Ho Hev].
  destruct (event_steps_pending ops s Ho Hs) as (s1 & -> & Hs1). cbn [mbind option_bind].
  destruct (publish_spec s1 Hs1) as (s2 & -> & Hp2 & Hs2 & _). by apply IH.
Qed.
End Mine.
End Publish.

(** C6. Whatever a shard's events do to its channels and their history, and
    whatever the other shards publish or record about membership meanwhile,
    publication never fails its assertion, and after each event what is
    published about every channel the shard owns is that channel as it is: its
    name, secrecy, ranks, silencing masks, and the newest time of its history
    ring in every scope.  A channel that is gone is no longer published. *)
Theorem published_channels_current {Caps : Type} `{EqDecision Caps} `{IpNet} (entry_size : N)
    (mine : str -> Prop) (events : list (list (EventOp (Caps := Caps)))) (d : MembershipDirectory)
    (Hmine : forall key, mine key -> starts_with "#" key = true)
    (Hd : forall key, mine key -> channels d !! key = None)
    (Hev : Forall (Forall (event_ok mine)) events) :
  exists s, run_events entry_size (ShardState_new d) events = Some s
    /\ forall key, mine key -> channels (memberships s) !! key
         = (fun ch => published ch (latest_channel_message key s)) <$> own_channels (shard_channels s) !! key.
Proof.
  destruct (run_events_spec entry_size mine Hmine events (ShardState_new d)) as (s & Hrun & Hp & _); [done| | |by exists s].
  - split; cbn; [apply hot_default_ok|by intros key []|]. intros key Hm _. exists (MkLatest None None). by rewrite Hd.
  - intros key Hm. cbn. by rewrite Hd.
Qed.

Section Sample.
#[local] Existing Instance PlainIpNet.

Definition sample_event : list (EventOp (Caps := ())) :=
  [EEntry (bs "#rust") sample_channel (fun ch => ch);
   EPushHistory (bs "#rust") (sample_row 7 (bs "m") KPrivmsg) true (MkBounds 4 1000 1000); EJoin 1 (bs "#rust")].

Lemma published_channels_current_witness :
  exists s, run_events 8 (ShardState_new (MkMemberships ∅ ∅)) [sample_event; [EMutate (bs "#rust") (fun ch => ch)]] = Some s
    /\ channels (memberships s) !! bs "#rust"
       = (fun ch => published ch (latest_channel_message (bs "#rust") s)) <$> own_channels (shard_channels s) !! bs "#rust".
Proof.
  destruct (published_channels_current (Caps := ()) 8 (fun key => key = bs "#rust")
    [sample_event; [EMutate (bs "#rust") (fun ch => ch)]] (MkMemberships ∅ ∅)) as (s & Hs & Hp).
  - by intros key ->.
  - intros key _. apply lookup_empty.
  - repeat constructor; cbn; unfold U64_MAX; lia.
  - exists s. split; [exact Hs|exact (Hp _ eq_refl)].
Defined.
End Sample.
