(* ===== verification/Users.v ===== *)
(** * The user directory, WHOWAS and signed-in credentials
      ([e6ircd/src/core/state.rs], [PublicUser], [Users], [WhowasDirectory],
      [SignedInCredentials]; [e6ircd/src/identity.rs], [CredentialId])

    Three process-wide records about users.  Where the source would hit an
    [unreachable!] or underflow a count, the operations return [None], and the
    theorems show they never do. *)

From S2P Require Import Prelude Str Keys Casemap Multimap Wire Ip Nicks ChannelState.
From stdpp Require Import gmap.

Local Open Scope Z_scope.

(** ** Public users *)

Definition from_bool (b : bool) : Z := if b then 1 else 0.

(** How many entries of a map pass a test. *)
Definition how_many {V} (f : V -> bool) (m : gmap Z V) : Z :=
  Z.of_nat (size (base.filter (fun kv => f (snd kv) = true) m)).

Lemma how_many_insert {V} (f : V -> bool) conn user m :
  m !! conn = None -> how_many f (<[conn := user]> m) = how_many f m + from_bool (f user).
Proof.
  intros Hm. unfold how_many. destruct (f user) eqn:E; cbn [from_bool].
  - rewrite map_filter_insert_True by done. rewrite map_size_insert_None; [lia|].
    rewrite map_lookup_filter, Hm. done.
  - rewrite map_filter_insert_False by (cbn; by rewrite E). rewrite delete_id by done. lia.
Qed.

Lemma how_many_delete {V} (f : V -> bool) conn user m :
  m !! conn = Some user -> how_many f m = how_many f (delete conn m) + from_bool (f user).
Proof.
  intros Hm. rewrite <- (insert_delete_id m conn user Hm) at 1. apply how_many_insert, lookup_delete_eq.
Qed.

Lemma how_many_replace {V} (f : V -> bool) conn user user' m :
  m !! conn = Some user -> how_many f (<[conn := user']> m) = how_many f m - from_bool (f user) + from_bool (f user').
Proof.
  intros Hm. rewrite (how_many_delete f conn user m Hm), <- insert_delete_eq, how_many_insert by apply lookup_delete_eq. lia.
Qed.

Lemma how_many_nonneg {V} (f : V -> bool) m : 0 <= how_many f m.
Proof. unfold how_many. lia. Qed.

Section Users.
Context {Caps : Type} `{EqDecision Caps}.

Record PublicUser : Type := MkPublicUser {
  pu_recipient : Recipient (Caps := Caps);
  pu_nick : str;
  pu_user : str;
  pu_host : str;
  pu_real_ip : option IpAddr;
  pu_realname : str;
  pu_account : option str;
  pu_away : option str;
  pu_oper : bool;
  pu_bot : bool;
  pu_invisible : bool;
  pu_wallops : bool;
  pu_registered_only : bool;
  pu_secure : bool;
  pu_signon : Z;
  pu_idle_since : nat;
}.

Definition pu_conn (u : PublicUser) : Z := recipient_conn (pu_recipient u).
Definition pu_prefix (u : PublicUser) : str := pu_nick u ++ bs "!" ++ pu_user u ++ bs "@" ++ pu_host u.

(** Who the user is for owning direct-message history. *)
Definition pu_identity (m : CaseMapping) (u : PublicUser) : str :=
  match pu_account u with
  | Some account => casefold m account
  | None => bs "~" ++ casefold m (pu_nick u)
  end.

Definition member_identity_of (u : PublicUser) : MemberIdentity :=
  MkIdentity (pu_nick u) (pu_prefix u) (pu_invisible u).
Definition member_profile_of (u : PublicUser) : ChannelMemberProfile :=
  MkProfile (pu_user u) (pu_host u) (pu_real_ip u) (pu_realname u) (pu_account u)
    (bool_decide (is_Some (pu_away u))) (pu_oper u) (pu_bot u) (pu_idle_since u).

(** [sender] is the sending session's account and whether it is an operator. *)
Definition refuses_unregistered (sender_conn : Z) (sender_account : option str) (sender_oper : bool) (u : PublicUser) : bool :=
  pu_registered_only u && negb (sender_conn =? pu_conn u) && negb (bool_decide (is_Some sender_account)) && negb sender_oper.

(** ** The directory *)

Record UserCounts : Type := MkCounts { count_users : Z; count_invisible : Z; count_opers : Z }.

Record Users : Type := MkUsers {
  users_by_conn : gmap Z PublicUser;
  by_account : gmap str (gset Z);
  counts : UserCounts;
}.

Definition Users_default : Users := MkUsers ∅ ∅ (MkCounts 0 0 0).

Definition account_key (u : PublicUser) : option str := casefold Rfc1459 <$> pu_account u.


(** [a -= b] on [usize]. *)
Definition sub (a b : Z) : option Z := if a <? b then None else Some (a - b).

Definition users_remove (conn : Z) (us : Users) : option Users :=
  match users_by_conn us !! conn with
  | None => Some us
  | Some user =>
      by_account ←
        match account_key user with
        | None => Some (by_account us)
        | Some account =>
            match by_account us !! account with
            | None => None
            | Some _ => Some (mm_remove account conn (by_account us))
            end
        end;
      users ← sub (count_users (counts us)) 1;
      invisible ← sub (count_invisible (counts us)) (from_bool (pu_invisible user));
      opers ← sub (count_opers (counts us)) (from_bool (pu_oper user));
      Some (MkUsers (delete conn (users_by_conn us)) by_account (MkCounts users invisible opers))
  end.

Definition users_insert (user : PublicUser) (us : Users) : option Users :=
  us ← users_remove (pu_conn user) us;
  let conn := pu_conn user in
  let by_account :=
    match account_key user with
    | Some account => mm_insert account conn (by_account us)
    | None => by_account us
    end in
  let c := counts us in
  Some (MkUsers (<[conn := user]> (users_by_conn us)) by_account
    (MkCounts (count_users c + 1) (count_invisible c + from_bool (pu_invisible user))
       (count_opers c + from_bool (pu_oper user)))).

(** Some user logged in to [account]: the first of the set's iteration. *)
Definition logged_in_as (account : str) (us : Users) : option PublicUser :=
  conns ← by_account us !! account;
  conn ← head (elements conns);
  users_by_conn us !! conn.

(** ** Consistency *)

Inductive UserOp : Type := Publish (user : PublicUser) | Withdraw (conn : Z).

Definition users_step (us : Users) (o : UserOp) : option Users :=
  match o with Publish user => users_insert user us | Withdraw conn => users_remove conn us end.

Fixpoint users_run (us : Users) (ops : list UserOp) : option Users :=
  match ops with
  | [] => Some us
  | o :: ops => us ← users_step us o; users_run us ops
  end.

(** The reference: the last record published by each connection still there. *)
Definition reference_step (m : gmap Z PublicUser) (o : UserOp) : gmap Z PublicUser :=
  match o with Publish user => <[pu_conn user := user]> m | Withdraw conn => delete conn m end.

Record users_ok (us : Users) : Prop := {
  users_conn : forall conn user, users_by_conn us !! conn = Some user -> pu_conn user = conn;
  users_index : forall account conn, mm_in account conn (by_account us) <->
    exists user, users_by_conn us !! conn = Some user /\ account_key user = Some account;
  users_index_ok : mm_ok (by_account us);
  users_counts : counts us = MkCounts (Z.of_nat (size (users_by_conn us)))
    (how_many pu_invisible (users_by_conn us)) (how_many pu_oper (users_by_conn us));
}.

Lemma sub_ok a b : b <= a -> sub a b = Some (a - b).
Proof. intros H. unfold sub. by rewrite (proj2 (Z.ltb_ge _ _)). Qed.

Lemma users_remove_ok conn us :
  users_ok us -> exists us', users_remove conn us = Some us' /\ users_ok us'
    /\ users_by_conn us' = delete conn (users_by_conn us).
Proof.
  intros [Hc Hi Hok Hn]. unfold users_remove. destruct (users_by_conn us !! conn) as [user|] eqn:E.
  2: { exists us. by rewrite delete_id. }
  set (m := delete conn (users_by_conn us)).
  assert (Hacc : exists ba, match account_key user with
      | None => Some (by_account us)
      | Some account => match by_account us !! account with None => None | Some _ => Some (mm_remove account conn (by_account us)) end
      end = Some ba /\ mm_ok ba /\
      forall account c, mm_in account c ba <-> exists u, m !! c = Some u /\ account_key u = Some account).
  { assert (Hm : forall account c, (exists u, m !! c = Some u /\ account_key u = Some account) <->
      mm_in account c (by_account us) /\ c <> conn).
    { intros account c. rewrite Hi. unfold m. setoid_rewrite lookup_delete_Some. naive_solver. }
    destruct (account_key user) as [account|] eqn:Ea.
    - assert (Hin : mm_in account conn (by_account us)) by (apply Hi; eauto).
      destruct (by_account us !! account) as [s|] eqn:Es.
      2: { unfold mm_in in Hin. rewrite Es in Hin. set_solver. }
      eexists. split; [done|]. split; [by apply mm_ok_remove|]. intros a c. rewrite Hm, mm_in_remove. split; [|tauto].
      intros [Hac Hne]. split; [done|]. intros ->. apply Hne. apply Hi in Hac as (u & Eu & Ek). split; [congruence|done].
    - eexists. split; [done|]. split; [done|]. intros a c. rewrite Hm. split; [|tauto]. intros Hac. split; [done|].
      intros ->. apply Hi in Hac as (u & Eu & Ek). congruence. }
  destruct Hacc as (ba & -> & Hba & Hbi). cbn [mbind option_bind]. rewrite Hn. cbn [count_users count_invisible count_opers].
  assert (size (users_by_conn us) = S (size m)) as Hs.
  { unfold m. rewrite map_size_delete, E. assert (size (users_by_conn us) <> 0)%nat; [|lia].
    intros H0%map_size_empty_inv. rewrite H0, lookup_empty in E. done. }
  rewrite (how_many_delete pu_invisible conn user), (how_many_delete pu_oper conn user) by done. fold m.
  pose proof (how_many_nonneg pu_invisible m). pose proof (how_many_nonneg pu_oper m).
  rewrite !sub_ok by lia. cbn [mbind option_bind]. eexists. split; [done|]. split; [|done].
  split; cbn [users_by_conn by_account counts]; [|done|done|].
  - intros c u. unfold m. rewrite lookup_delete_Some. intros [_ ?]. auto.
  - f_equal; lia.
Qed.

Lemma users_insert_ok user us :
  users_ok us -> exists us', users_insert user us = Some us' /\ users_ok us'
    /\ users_by_conn us' = <[pu_conn user := user]> (users_by_conn us).
Proof.
  intros Hus. unfold users_insert. destruct (users_remove_ok (pu_conn user) us Hus) as (us1 & -> & [Hc Hi Hok Hn] & Em).
  cbn [mbind option_bind]. eexists. split; [done|]. cbn [users_by_conn]. rewrite <- (insert_delete_eq (users_by_conn us)), <- Em.
  split; [|done]. assert (Hf : users_by_conn us1 !! pu_conn user = None) by (rewrite Em; apply lookup_delete_eq).
  split; cbn [users_by_conn by_account counts].
  - intros c u. rewrite lookup_insert_Some. intros [[<- <-]|[_ ?]]; auto.
  - intros a c. setoid_rewrite lookup_insert_Some.
    assert (mm_in a c (match account_key user with Some account => mm_insert account (pu_conn user) (by_account us1) | None => by_account us1 end)
      <-> (account_key user = Some a /\ c = pu_conn user) \/ mm_in a c (by_account us1)) as ->.
    { destruct (account_key user); [rewrite mm_in_insert|]; naive_solver. }
    rewrite Hi. split.
    + intros [[Ha ->]|(u & Eu & Ek)]; [by eexists; eauto|]. exists u. split; [|done]. right. split; [|done]. intros <-. congruence.
    + intros (u & [[<- <-]|[_ Eu]] & Ek); [by left|right; eauto].
  - destruct (account_key user); [by apply mm_ok_insert|done].
  - rewrite Hn, map_size_insert_None, !how_many_insert by done. cbn. f_equal; lia.
Qed.

Lemma users_run_ok ops : forall us, users_ok us ->
  exists us', users_run us ops = Some us' /\ users_ok us' /\ users_by_conn us' = fold_left reference_step ops (users_by_conn us).
Proof.
  induction ops as [|o ops IH]; intros us Hus; cbn [users_run fold_left]; [by exists us|].
  assert (exists us1, users_step us o = Some us1 /\ users_ok us1 /\ users_by_conn us1 = reference_step (users_by_conn us) o)
    as (us1 & -> & Hus1 & <-) by (destruct o; [by apply users_insert_ok|by apply users_remove_ok]).
  by apply IH.
Qed.

Lemma users_default_ok : users_ok Users_default.
Proof.
  split; cbn.
  - by intros conn user ?.
  - intros a c. unfold mm_in. rewrite !lookup_empty. cbn. split; [set_solver|]. by intros (? & ? & _).
  - intros k. by rewrite lookup_empty.
  - done.
Qed.

(** However records are published and withdrawn, the user directory never
    reaches its [unreachable!] nor underflows a count: it holds the last record
    each connection still there published; its counts of users, invisible
    users and operators are those of the records; and the account index names
    exactly the connections logged in to each account, so that resolving an
    account finds a user of it when there is one and none otherwise. *)
Theorem users_consistent (ops : list UserOp) :
  exists us, users_run Users_default ops = Some us
    /\ users_by_conn us = fold_left reference_step ops ∅
    /\ counts us = MkCounts (Z.of_nat (size (users_by_conn us)))
         (how_many pu_invisible (users_by_conn us)) (how_many pu_oper (users_by_conn us))
    /\ (forall account conn, conn ∈ default ∅ (by_account us !! account) <->
          exists user, users_by_conn us !! conn = Some user /\ account_key user = Some account)
    /\ (forall account, match logged_in_as account us with
          | Some user => users_by_conn us !! pu_conn user = Some user /\ account_key user = Some account
          | None => forall conn user, users_by_conn us !! conn = Some user -> account_key user <> Some account
          end).
Proof.
  destruct (users_run_ok ops Users_default users_default_ok) as (us & Hrun & [Hc Hi Hok Hn] & Hm).
  exists us. split_and!; try done. intros account. unfold logged_in_as.
  destruct (by_account us !! account) as [s|] eqn:E; cbn [mbind option_bind].
  - destruct (elements s) as [|conn l] eqn:Es; cbn [head mbind option_bind].
    { exfalso. apply (Hok account). rewrite E. f_equal. apply leibniz_equiv. by apply elements_empty_inv. }
    assert (mm_in account conn (by_account us)) as Hin.
    { unfold mm_in. rewrite E. cbn. apply elem_of_elements. rewrite Es. left. }
    apply Hi in Hin as (user & Eu & Ek). rewrite Eu. by rewrite (Hc _ _ Eu).
  - intros conn user Eu Ek. assert (mm_in account conn (by_account us)) as Hin by (apply Hi; eauto).
    unfold mm_in in Hin. rewrite E in Hin. set_solver.
Qed.
End Users.

(** ** WHOWAS *)

Definition WHOWAS_CAP : nat := Z.to_nat 1000.
Definition WHOWAS_PER_NICK : nat := 20.

Record WhowasEntry : Type := MkWhowas {
  ww_nick : str;
  ww_user : str;
  ww_host : str;
  ww_realname : str;
  ww_signoff : Z;
}.

Abbreviation whowas_ring := (list (str * WhowasEntry)).

Definition of_nick (key : str) (e : str * WhowasEntry) : bool := bool_decide (fst e = key).

(** [enumerate().filter(p).map(index).nth(n)]. *)
Fixpoint nth_index {A} (p : A -> bool) (n : nat) (l : list A) : option nat :=
  match l with
  | [] => None
  | x :: l =>
      if p x then match n with O => Some 0%nat | S n => S <$> nth_index p n l end
      else S <$> nth_index p n l
  end.

(** [VecDeque::remove(i)]. *)
Definition remove_at {A} (i : nat) (l : list A) : list A := take i l ++ drop (S i) l.

Definition whowas_record (key : str) (entry : WhowasEntry) (ring : whowas_ring) : whowas_ring :=
  let ring :=
    match nth_index (of_nick key) (WHOWAS_PER_NICK - 1) ring with
    | Some index => remove_at index ring
    | None => if (length ring =? WHOWAS_CAP)%nat then removelast ring else ring
    end in
  (key, entry) :: ring.

Definition whowas_of (key : str) (limit : nat) (ring : whowas_ring) : list WhowasEntry :=
  take limit (snd <$> List.filter (of_nick key) ring).

Lemma nth_index_Some {A} (p : A -> bool) l : forall n i, nth_index p n l = Some i ->
  exists l1 x l2, l = l1 ++ x :: l2 /\ length l1 = i /\ p x = true /\ length (List.filter p l1) = n.
Proof.
  induction l as [|x l IH]; intros n i; cbn [nth_index]; [done|]. destruct (p x) eqn:E.
  - destruct n as [|n]; [intros [= <-]; by exists [], x, l|].
    destruct (nth_index p n l) as [j|] eqn:Ej; [|done]. intros [= <-].
    destruct (IH n j Ej) as (l1 & y & l2 & -> & <- & Hy & Hn). exists (x :: l1), y, l2. cbn. rewrite E. cbn. by rewrite Hn.
  - destruct (nth_index p n l) as [j|] eqn:Ej; [|done]. intros [= <-].
    destruct (IH n j Ej) as (l1 & y & l2 & -> & <- & Hy & Hn). exists (x :: l1), y, l2. cbn. by rewrite E.
Qed.

Lemma nth_index_None {A} (p : A -> bool) l : forall n, nth_index p n l = None -> (length (List.filter p l) <= n)%nat.
Proof.
  induction l as [|x l IH]; intros n; cbn [nth_index List.filter]; [cbn; lia|]. destruct (p x).
  - destruct n as [|n]; [done|]. intros H%fmap_None. apply IH in H. cbn. lia.
  - intros H%fmap_None. by apply IH.
Qed.

Lemma remove_at_app {A} (l1 : list A) x l2 : remove_at (length l1) (l1 ++ x :: l2) = l1 ++ l2.
Proof.
  unfold remove_at. rewrite take_app_length. f_equal. rewrite cons_middle, app_assoc, drop_app_length'; [done|].
  rewrite length_app. cbn. lia.
Qed.

(** Each nick's records are the newest of the log's, at most the cap. *)
Record whowas_ok (log ring : whowas_ring) : Prop := {
  whowas_sub : ring `sublist_of` log;
  whowas_len : (length ring <= WHOWAS_CAP)%nat;
  whowas_per_nick : forall key, (length (List.filter (of_nick key) ring) <= WHOWAS_PER_NICK)%nat;
  whowas_prefix : forall key, List.filter (of_nick key) ring `prefix_of` List.filter (of_nick key) log;
}.

Lemma filter_removelast_prefix {A} (p : A -> bool) l : List.filter p (removelast l) `prefix_of` List.filter p l.
Proof.
  destruct l as [|x l] using rev_ind; [done|]. rewrite removelast_last, List.filter_app. by apply prefix_app_r.
Qed.

(** Whatever [record] drops is the oldest of its nick. *)
Lemma whowas_drop key ring log :
  whowas_ok log ring ->
  let ring' := match nth_index (of_nick key) (WHOWAS_PER_NICK - 1) ring with
    | Some index => remove_at index ring
    | None => if (length ring =? WHOWAS_CAP)%nat then removelast ring else ring
    end in
  whowas_ok log ring' /\ (length ring' < WHOWAS_CAP)%nat
  /\ (length (List.filter (of_nick key) ring') < WHOWAS_PER_NICK)%nat.
Proof.
  intros [Hsub Hlen Hper Hpre]. destruct (nth_index _ _ ring) as [i|] eqn:E.
  - apply nth_index_Some in E as (l1 & x & l2 & -> & <- & Hx & Hn). rewrite remove_at_app.
    assert (Hl2 : List.filter (of_nick key) l2 = []).
    { specialize (Hper key). rewrite List.filter_app, length_app, Hn in Hper. cbn in Hper. rewrite Hx in Hper. cbn in Hper.
      destruct (List.filter (of_nick key) l2); [done|]. unfold WHOWAS_PER_NICK in Hper. cbn in Hper. lia. }
    assert (Hkey : forall k, List.filter (of_nick k) (l1 ++ l2) `prefix_of` List.filter (of_nick k) (l1 ++ x :: l2)).
    { intros k. rewrite !List.filter_app. cbn. destruct (of_nick k x) eqn:Ek; [|done].
      apply bool_decide_eq_true in Hx, Ek. subst. rewrite Hl2, app_nil_r. by apply prefix_app_r. }
    rewrite length_app in *. cbn in Hlen. split_and!; [split| |].
    + transitivity (l1 ++ x :: l2); [|done]. apply sublist_app; [done|]. by apply sublist_cons.
    + rewrite length_app. lia.
    + intros k. transitivity (length (List.filter (of_nick k) (l1 ++ x :: l2))); [|done]. by apply prefix_length.
    + intros k. by transitivity (List.filter (of_nick k) (l1 ++ x :: l2)).
    + rewrite ?length_app. lia.
    + rewrite List.filter_app, Hl2, app_nil_r, Hn. unfold WHOWAS_PER_NICK. lia.
  - apply nth_index_None in E.
    assert (HS : (WHOWAS_PER_NICK - 1 < WHOWAS_PER_NICK)%nat) by (unfold WHOWAS_PER_NICK; lia).
    destruct (Nat.eqb_spec (length ring) WHOWAS_CAP) as [El|El].
    + pose proof (fun k => filter_removelast_prefix (of_nick k) ring) as Hrl.
      assert (length (removelast ring) < WHOWAS_CAP)%nat as Hrlen.
      { destruct ring as [|y ring] using rev_ind; [by vm_compute in El|]. rewrite removelast_last. rewrite length_app in El. cbn in El. lia. }
      split_and!; [split| |]; [| |intros k|intros k| |].
      * transitivity ring; [|done]. destruct ring as [|y ring] using rev_ind; [done|]. rewrite removelast_last. by apply sublist_inserts_r.
      * lia.
      * etrans; [apply prefix_length, Hrl|done].
      * by etrans; [apply Hrl|].
      * done.
      * pose proof (prefix_length _ _ (Hrl key)). lia.
    + split_and!; [done|lia|lia].
Qed.

Lemma whowas_record_ok key entry log ring : whowas_ok log ring -> whowas_ok ((key, entry) :: log) (whowas_record key entry ring).
Proof.
  intros H. destruct (whowas_drop key ring log H) as ([Hsub Hlen Hper Hpre] & Hl & Hk). unfold whowas_record.
  set (ring' := match nth_index _ _ ring with Some _ => _ | None => _ end) in *. split.
  - by constructor.
  - cbn. lia.
  - intros k. cbn. destruct (of_nick k (key, entry)) eqn:E; [|done]. apply bool_decide_eq_true in E. cbn in E. subst k. cbn. lia.
  - intros k. cbn. destruct (of_nick k (key, entry)); [|done]. by apply prefix_cons.
Qed.

Definition record_all (log : list (str * WhowasEntry)) : whowas_ring :=
  fold_left (fun ring e => whowas_record (fst e) (snd e) ring) log [].

Lemma record_all_ok l : whowas_ok (reverse l) (record_all l).
Proof.
  unfold record_all. induction l as [|[key entry] l IH] using rev_ind.
  - split; cbn; try done; lia.
  - rewrite fold_left_app, reverse_snoc. cbn. by apply whowas_record_ok.
Qed.

(** However users leave and change nick, the WHOWAS ring holds at most a
    thousand records and at most twenty of any nick, in the order they were
    made; a WHOWAS answers with the newest records of that nick, newest first,
    none missing in between (the answer is the start of everything ever
    recorded for the nick), and the last record made is always there. *)
Theorem whowas_newest (l : list (str * WhowasEntry)) (key : str) (limit : nat) :
  (length (record_all l) <= WHOWAS_CAP)%nat
  /\ (length (List.filter (of_nick key) (record_all l)) <= WHOWAS_PER_NICK)%nat
  /\ record_all l `sublist_of` reverse l
  /\ whowas_of key limit (record_all l) `prefix_of` (snd <$> List.filter (of_nick key) (reverse l))
  /\ head (record_all l) = head (reverse l).
Proof.
  destruct (record_all_ok l) as [H1 H2 H3 H4]. split_and!; try done.
  - unfold whowas_of. transitivity (snd <$> List.filter (of_nick key) (record_all l)).
    + rewrite <- (take_drop limit (snd <$> _)) at 2. by apply prefix_app_r.
    + destruct (H4 key) as [rest ->]. rewrite fmap_app. by apply prefix_app_r.
  - unfold record_all. destruct l as [|[k e] l] using rev_ind; [done|]. by rewrite fold_left_app, reverse_snoc.
Qed.

(** ** Signed-in credentials *)

Inductive IssuedCredential : Type := AppPassword (id : Z) | ApiToken (id : Z).
#[global] Instance IssuedCredential_eq_dec : EqDecision IssuedCredential.
Proof. solve_decision. Defined.
#[global] Program Instance IssuedCredential_countable : Countable IssuedCredential :=
  inj_countable' (fun c => match c with AppPassword i => inl i | ApiToken i => inr i end)
    (fun s => match s with inl i => AppPassword i | inr i => ApiToken i end) _.
Next Obligation. by intros []. Qed.

Inductive CredentialId : Type := AccountPassword | Issued (c : IssuedCredential).

Abbreviation SignedInCredentials := (gmap IssuedCredential Z).

Definition credential_hold (credential : CredentialId) (m : SignedInCredentials) : SignedInCredentials :=
  match credential with
  | Issued issued => <[issued := default 0 (m !! issued) + 1]> m
  | AccountPassword => m
  end.

(** [None] is the [unreachable!]. *)
Definition credential_release (credential : CredentialId) (m : SignedInCredentials) : option SignedInCredentials :=
  match credential with
  | AccountPassword => Some m
  | Issued issued =>
      match m !! issued with
      | None => None
      | Some n => let n := n - 1 in Some (if n =? 0 then delete issued m else <[issued := n]> m)
      end
  end.

Definition credentials_held (m : SignedInCredentials) : list IssuedCredential := (map_to_list m).*1.

(** A session signs in with a credential, or one that is signed in leaves. *)
Inductive SignIn : Type := SessionIn (credential : CredentialId) | SessionOut (i : nat).

Definition sign_step (s : option (list CredentialId * SignedInCredentials)) (o : SignIn)
    : option (list CredentialId * SignedInCredentials) :=
  '(live, m) ← s;
  match o with
  | SessionIn c => Some (c :: live, credential_hold c m)
  | SessionOut i =>
      match live !! i with
      | None => Some (live, m)
      | Some c => m ← credential_release c m; Some (delete i live, m)
      end
  end.

Definition holders (c : IssuedCredential) (live : list CredentialId) : Z :=
  Z.of_nat (length (List.filter (fun x => match x with Issued d => bool_decide (d = c) | AccountPassword => false end) live)).

Definition credentials_ok (live : list CredentialId) (m : SignedInCredentials) : Prop :=
  forall c, m !! c = if holders c live =? 0 then None else Some (holders c live).

Lemma holders_cons c x live :
  holders c (x :: live) = holders c live + match x with Issued d => if bool_decide (d = c) then 1 else 0 | AccountPassword => 0 end.
Proof. unfold holders. cbn. destruct x as [|d]; [lia|]. case_bool_decide; cbn; lia. Qed.

Lemma holders_delete c i x live :
  live !! i = Some x -> holders c live = holders c (delete i live) + match x with Issued d => if bool_decide (d = c) then 1 else 0 | AccountPassword => 0 end.
Proof.
  revert i. induction live as [|y live IH]; intros [|i]; cbn [lookup list_lookup]; [done|done| |].
  - intros [= ->]. apply holders_cons.
  - intros H%IH. change (delete (S i) (y :: live)) with (y :: delete i live). rewrite !holders_cons, H. lia.
Qed.

Lemma elem_of_Lfilter_issued c live :
  Issued c ∈ List.filter (fun x => match x with Issued d => bool_decide (d = c) | AccountPassword => false end) live
  <-> Issued c ∈ live.
Proof. rewrite elem_of_Lfilter, bool_decide_eq_true. tauto. Qed.

Lemma holders_nonneg c live : 0 <= holders c live.
Proof. unfold holders. lia. Qed.

Lemma sign_step_ok live m o :
  credentials_ok live m -> exists live' m', sign_step (Some (live, m)) o = Some (live', m') /\ credentials_ok live' m'.
Proof.
  intros Hok. destruct o as [c|i]; cbn.
  - eexists _, _. split; [done|]. intros d. rewrite holders_cons. pose proof (holders_nonneg d live) as Hd.
    destruct c as [|c]; cbn; [rewrite Z.add_0_r; apply Hok|]. case_bool_decide as E.
    + subst d. rewrite lookup_insert_eq, (Hok c). rewrite (proj2 (Z.eqb_neq (holders c live + 1) 0)) by lia.
      destruct (Z.eqb_spec (holders c live) 0) as [->|]; done.
    + rewrite lookup_insert_ne, Z.add_0_r by done. apply Hok.
  - destruct (live !! i) as [c|] eqn:Ei; [|by eexists _, _]. pose proof (fun d => holders_delete d i c live Ei) as Hd.
    destruct c as [|c]; cbn.
    + eexists _, _. split; [done|]. intros d. rewrite (Hok d), (Hd d). by rewrite Z.add_0_r.
    + pose proof (Hd c) as Hc. rewrite bool_decide_true in Hc by done. cbn iota in Hc. pose proof (holders_nonneg c (delete i live)).
      rewrite (Hok c), (proj2 (Z.eqb_neq (holders c live) 0)) by lia. cbn. eexists _, _. split; [done|]. intros d.
      specialize (Hd d). case_bool_decide as E.
      * subst d. replace (holders c live - 1) with (holders c (delete i live)) by lia.
        destruct (holders c (delete i live) =? 0); [by rewrite lookup_delete_eq|by rewrite lookup_insert_eq].
      * rewrite Z.add_0_r in Hd. rewrite <- Hd. destruct (_ =? 0) eqn:E0; [rewrite lookup_delete_ne by done|rewrite lookup_insert_ne by done]; apply Hok.
Qed.

(** As sessions sign in and out, the count of signed-in credentials never
    reaches its [unreachable!], and the credentials it names are exactly the
    issued ones some live session signed in with, each once: the set a
    revocation listener asks about after it was disconnected. *)
Theorem signed_in_credentials_exact (ops : list SignIn) :
  exists live m, fold_left sign_step ops (Some ([], ∅)) = Some (live, m)
    /\ (forall c, c ∈ credentials_held m <-> Issued c ∈ live)
    /\ NoDup (credentials_held m).
Proof.
  assert (forall ops live m, credentials_ok live m ->
    exists live' m', fold_left sign_step ops (Some (live, m)) = Some (live', m') /\ credentials_ok live' m') as Hrun.
  { clear ops. induction ops as [|o ops IH]; intros live m Hok; cbn [fold_left]; [by eexists _, _|].
    destruct (sign_step_ok live m o Hok) as (live' & m' & -> & Hok'). by apply IH. }
  destruct (Hrun ops [] ∅) as (live & m & -> & Hok). { intros c. by rewrite lookup_empty. }
  exists live, m. split; [done|]. split; [|apply NoDup_fst_map_to_list]. intros c. unfold credentials_held.
  rewrite list_elem_of_fmap. transitivity (is_Some (m !! c)).
  { split; [intros ([c' n] & -> & Hin%elem_of_map_to_list); by eexists|]. intros [n E]. exists (c, n). by rewrite elem_of_map_to_list. }
  rewrite (Hok c). unfold holders. rewrite <- (elem_of_Lfilter_issued c live).
  destruct (List.filter _ live) as [|x l] eqn:E; cbn [length].
  - split; [by intros []|]. by intros ?%elem_of_nil.
  - rewrite (proj2 (Z.eqb_neq _ 0)) by lia. split; [intros _|by eexists].
    assert (x ∈ List.filter (fun x => match x with Issued d => bool_decide (d = c) | AccountPassword => false end) live) as Hx
      by (rewrite E; left). apply elem_of_Lfilter in Hx as [_ Hx]. destruct x as [|d]; [done|].
    apply bool_decide_eq_true in Hx as ->. left.
Qed.
