(* ===== verification/Registry.v ===== *)
(** * Registered channels ([e6ircd/src/core/state.rs], [FounderDirectory],
      [RetainedTopicDirectory], [ChannelOptionsDirectory])

    Who owns a registered channel and inherits it, the topics kept for it, its
    mode lock and its access list.  [HashMap]s filled from rows keep the last
    row of a key, as collecting into one does. *)

From S2P Require Import Prelude Str Keys Channel ChannelState.
From stdpp Require Import gmap.

Local Open Scope Z_scope.

(** [rows.into_iter().collect()] into a map. *)
Definition collect {V} (rows : list (str * V)) : gmap str V := foldl (fun m '(k, v) => <[k := v]> m) ∅ rows.

(** ** Founders and successors *)

Record ChannelOwnership : Type := MkOwnership { own_founder : str; own_successor : option str }.
#[global] Instance ChannelOwnership_eq_dec : EqDecision ChannelOwnership.
Proof. solve_decision. Defined.

Abbreviation FounderDirectory := (gmap str ChannelOwnership).

Definition founders_replace (rows : list (str * str)) : FounderDirectory :=
  collect ((fun '(channel, founder) => (channel, MkOwnership founder None)) <$> rows).

Definition replace_successors (rows : list (str * str)) (d : FounderDirectory) : FounderDirectory :=
  foldl (fun d '(channel, successor) => alter (fun o => MkOwnership (own_founder o) (Some successor)) channel d)
    ((fun o => MkOwnership (own_founder o) None) <$> d) rows.

Definition founder (key : str) (d : FounderDirectory) : option str := own_founder <$> d !! key.
Definition successor (key : str) (d : FounderDirectory) : option str := d !! key ≫= own_successor.
Definition register (key founder : str) (d : FounderDirectory) : FounderDirectory := <[key := MkOwnership founder None]> d.

Definition transfer (key to_founder : str) (d : FounderDirectory) : FounderDirectory :=
  if bool_decide (own_founder <$> d !! key = Some to_founder) then d
  else <[key := MkOwnership to_founder None]> d.

Definition set_successor (key : str) (to : option str) (d : FounderDirectory) : FounderDirectory :=
  alter (fun o => MkOwnership (own_founder o) to) key d.

Definition forget_successor (account : str) (d : FounderDirectory) : FounderDirectory :=
  (fun o => if bool_decide (own_successor o = Some account) then MkOwnership (own_founder o) None else o) <$> d.

Definition founders_remove (key : str) (d : FounderDirectory) : FounderDirectory := delete key d.
Definition founders_count (account : str) (d : FounderDirectory) : Z :=
  Z.of_nat (size (base.filter (fun kv => own_founder (snd kv) = account) d)).

(** ** Retained topics *)

Definition topics_replace (rows : list (str * Topic)) : gmap str Topic := collect rows.
Definition topics_get (key : str) (d : gmap str Topic) : option Topic := d !! key.
Definition topics_set (key : str) (topic : Topic) (d : gmap str Topic) : gmap str Topic := <[key := topic]> d.
Definition topics_remove (key : str) (d : gmap str Topic) : gmap str Topic := delete key d.

(** ** Durable options *)

Record ChannelOptions : Type := MkOptions {
  keeptopic_off : gset str;
  opt_mlock : gmap str MlockModes;
  access : gmap str (gmap str str);
}.

Definition replace_keeptopic_off (names : list str) (o : ChannelOptions) : ChannelOptions :=
  MkOptions (list_to_set names) (opt_mlock o) (access o).
Definition set_keeptopic (key : str) (enabled : bool) (o : ChannelOptions) : ChannelOptions :=
  MkOptions (if enabled then keeptopic_off o ∖ {[key]} else keeptopic_off o ∪ {[key]}) (opt_mlock o) (access o).
Definition replace_mlock (mlock : gmap str MlockModes) (o : ChannelOptions) : ChannelOptions :=
  MkOptions (keeptopic_off o) mlock (access o).
Definition get_mlock (key : str) (o : ChannelOptions) : option MlockModes := opt_mlock o !! key.
Definition set_mlock (key : str) (mlock : option MlockModes) (o : ChannelOptions) : ChannelOptions :=
  MkOptions (keeptopic_off o)
    (match mlock with Some l => <[key := l]> (opt_mlock o) | None => delete key (opt_mlock o) end) (access o).

Definition access_insert (channel account flags : str) (a : gmap str (gmap str str)) : gmap str (gmap str str) :=
  <[channel := <[account := flags]> (default ∅ (a !! channel))]> a.

Definition replace_access (rows : list (str * str * str)) (o : ChannelOptions) : ChannelOptions :=
  MkOptions (keeptopic_off o) (opt_mlock o)
    (foldl (fun a '(channel, account, flags) => access_insert channel account flags a) ∅ rows).

Definition access_entries (key : str) (o : ChannelOptions) : list (str * str) :=
  match access o !! key with Some entries => map_to_list entries | None => [] end.
Definition access_flags (key account : str) (o : ChannelOptions) : option str :=
  entries ← access o !! key; entries !! account.

Definition set_access (key account : str) (flags : option str) (o : ChannelOptions) : ChannelOptions :=
  MkOptions (keeptopic_off o) (opt_mlock o)
    match flags with
    | Some flags => access_insert key account flags (access o)
    | None =>
        match access o !! key with
        | Some entries =>
            let entries := delete account entries in
            if bool_decide (entries = ∅) then delete key (access o) else <[key := entries]> (access o)
        | None => access o
        end
    end.

Definition options_remove_account (account : str) (o : ChannelOptions) : ChannelOptions :=
  MkOptions (keeptopic_off o) (opt_mlock o)
    (omap (fun entries : gmap str str =>
       let entries := delete account entries in if bool_decide (entries = ∅) then None else Some entries) (access o)).

Definition options_remove (key : str) (o : ChannelOptions) : ChannelOptions :=
  MkOptions (keeptopic_off o ∖ {[key]}) (delete key (opt_mlock o)) (delete key (access o)).

(** ** Access lists: the flat relation *)

Inductive AccessOp : Type :=
| ASet (key account : str) (flags : option str)
| ARemoveAccount (account : str)
| ARemoveChannel (key : str).

Definition access_step (o : ChannelOptions) (op : AccessOp) : ChannelOptions :=
  match op with
  | ASet key account flags => set_access key account flags o
  | ARemoveAccount account => options_remove_account account o
  | ARemoveChannel key => options_remove key o
  end.

(** The flags of each channel and account, as a table of rows would hold them. *)
Definition rows_step (f : str -> str -> option str) (op : AccessOp) : str -> str -> option str :=
  match op with
  | ASet key account flags => fun k a => if decide (k = key /\ a = account) then flags else f k a
  | ARemoveAccount account => fun k a => if decide (a = account) then None else f k a
  | ARemoveChannel key => fun k a => if decide (k = key) then None else f k a
  end.

Definition no_empty (a : gmap str (gmap str str)) : Prop := forall k, a !! k <> Some ∅.

Lemma access_flags_insert key account flags o k a :
  access_flags k a (MkOptions (keeptopic_off o) (opt_mlock o) (access_insert key account flags (access o)))
  = if decide (k = key /\ a = account) then Some flags else access_flags k a o.
Proof.
  unfold access_flags, access_insert. cbn [access]. destruct (decide (k = key)) as [->|Hk].
  - rewrite lookup_insert_eq. cbn [mbind option_bind]. destruct (decide (a = account)) as [->|Ha].
    + by rewrite lookup_insert_eq, decide_True.
    + rewrite lookup_insert_ne, decide_False by naive_solver. destruct (access o !! key); cbn; by rewrite ?lookup_empty.
  - rewrite lookup_insert_ne, decide_False by naive_solver. done.
Qed.

Lemma access_step_flags op o :
  no_empty (access o) ->
  no_empty (access (access_step o op))
  /\ forall k a, access_flags k a (access_step o op) = rows_step (fun k a => access_flags k a o) op k a.
Proof.
  intros Hn. destruct op as [key account [flags|]|account|key]; cbn [access_step rows_step].
  - split; [|intros k a; apply access_flags_insert]. intros k. cbn. unfold access_insert.
    rewrite lookup_insert_Some. intros [[_ H]|[_ H]]; [by apply insert_non_empty in H|by apply (Hn k)].
  - unfold set_access. destruct (access o !! key) as [entries|] eqn:E.
    + case_bool_decide as He; (split; [intros k; cbn|intros k a; unfold access_flags; cbn]).
      * rewrite lookup_delete_Some. intros [_ H]. by apply (Hn k).
      * destruct (decide (k = key)) as [->|Hk].
        -- rewrite lookup_delete_eq, E. cbn. destruct (decide _) as [|Hne]; [done|].
           assert (delete account entries !! a = None) as H by (by rewrite He, lookup_empty).
           rewrite lookup_delete_ne in H by naive_solver. done.
        -- rewrite lookup_delete_ne, decide_False by naive_solver. done.
      * rewrite lookup_insert_Some. intros [[_ H]|[_ H]]; [done|by apply (Hn k)].
      * destruct (decide (k = key)) as [->|Hk].
        -- rewrite lookup_insert_eq, E. cbn. destruct (decide (a = account)) as [->|Ha].
           ++ by rewrite lookup_delete_eq, decide_True.
           ++ by rewrite lookup_delete_ne, decide_False by naive_solver.
        -- rewrite lookup_insert_ne, decide_False by naive_solver. done.
    + split; [done|]. intros k a. unfold access_flags. cbn. destruct (decide _) as [[-> ->]|]; [by rewrite E|done].
  - split.
    + intros k. cbn. rewrite lookup_omap. destruct (access o !! k) as [entries|]; cbn; [|done].
      case_bool_decide; [done|]. congruence.
    + intros k a. unfold access_flags. cbn. rewrite lookup_omap. destruct (access o !! k) as [entries|] eqn:E; cbn.
      * case_bool_decide as He; cbn.
        -- destruct (decide (a = account)); [done|]. assert (delete account entries !! a = None) as H by (by rewrite He, lookup_empty).
           by rewrite lookup_delete_ne in H.
        -- destruct (decide (a = account)) as [->|]; [by rewrite lookup_delete_eq|by rewrite lookup_delete_ne].
      * by destruct (decide (a = account)).
  - split.
    + intros k. cbn. rewrite lookup_delete_Some. intros [_ H]. by apply (Hn k).
    + intros k a. unfold access_flags. cbn. destruct (decide (k = key)) as [->|]; [by rewrite lookup_delete_eq|by rewrite lookup_delete_ne].
Qed.

(** A registered channel's access list behaves as a table of rows keyed by
    channel and account: a set row holds its flags until it is cleared, the
    account is deleted, or the channel is dropped, no other row is touched,
    and no channel is left with an empty list. *)
Theorem access_list_refines_rows (ops : list AccessOp) :
  let o := fold_left access_step ops (MkOptions ∅ ∅ ∅) in
  (forall k a, access_flags k a o = fold_left rows_step ops (fun _ _ => None) k a)
  /\ (forall k, access o !! k <> Some ∅)
  /\ (forall k a flags, (a, flags) ∈ access_entries k o <-> fold_left rows_step ops (fun _ _ => None) k a = Some flags).
Proof.
  assert (forall ops o f, no_empty (access o) -> (forall k a, access_flags k a o = f k a) ->
    no_empty (access (fold_left access_step ops o))
    /\ forall k a, access_flags k a (fold_left access_step ops o) = fold_left rows_step ops f k a) as Hrun.
  { clear ops. induction ops as [|op ops IH]; intros o f Hn Hf; cbn [fold_left]; [done|].
    destruct (access_step_flags op o Hn) as [Hn' Hf']. apply IH; [done|]. intros k a. rewrite Hf'.
    destruct op; cbn; by rewrite ?Hf. }
  destruct (Hrun ops (MkOptions ∅ ∅ ∅) (fun _ _ => None)) as [Hn Hf].
  { intros k. cbn. by rewrite lookup_empty. }
  { intros k a. unfold access_flags. cbn. by rewrite lookup_empty. }
  split_and!; [done|done|]. intros k a flags. rewrite <- Hf. unfold access_entries, access_flags.
  destruct (access _ !! k) as [entries|]; cbn; [apply elem_of_map_to_list|]. split; [by intros ?%elem_of_nil|done].
Qed.

(** ** Succession *)

Definition transfers (rows : list (str * str)) (d : FounderDirectory) : FounderDirectory :=
  foldl (fun d '(channel, founder) => transfer channel founder d) d rows.

Lemma transfer_lookup key f d k :
  transfer key f d !! k = if decide (k = key)
    then (if bool_decide (own_founder <$> d !! key = Some f) then d !! key else Some (MkOwnership f None)) else d !! k.
Proof.
  unfold transfer. destruct (bool_decide _) eqn:E; destruct (decide (k = key)) as [->|]; try done.
  - by rewrite lookup_insert_eq.
  - by rewrite lookup_insert_ne.
Qed.

Lemma transfers_founder rows : forall d k f,
  NoDup rows.*1 -> (k, f) ∈ rows -> own_founder <$> transfers rows d !! k = Some f.
Proof.
  induction rows as [|[c g] rows IH]; intros d k f Hnd; [by intros ?%elem_of_nil|]. cbn in Hnd. apply NoDup_cons in Hnd as [Hc Hnd].
  intros [[= -> ->]|Hin]%elem_of_cons; [|by apply IH].
  assert (forall rows d, (c ∉ rows.*1) -> transfers rows d !! c = d !! c) as Hother.
  { clear. induction rows as [|[k f] rows IH]; intros d Hn; [done|]. cbn in Hn. apply not_elem_of_cons in Hn as [Hk Hn].
    cbn. unfold transfers in IH. rewrite IH by done. rewrite transfer_lookup, decide_False by done. done. }
  change (own_founder <$> transfers rows (transfer c g d) !! c = Some g). rewrite Hother, transfer_lookup, decide_True by done.
  by case_bool_decide.
Qed.

(** Channels passed on already are left alone. *)
Lemma transfers_noop rows : forall d,
  (forall k f, (k, f) ∈ rows -> own_founder <$> d !! k = Some f) -> transfers rows d = d.
Proof.
  induction rows as [|[k f] rows IH]; intros d H; [done|]. cbn.
  assert (transfer k f d = d) as ->; [|apply IH; intros k' f' Hin; apply H; by right].
  unfold transfer. rewrite bool_decide_true; [done|]. apply H. left.
Qed.

(** The channels a deleted account founded pass to their new founders once,
    however many shards apply the same broadcast and whatever successors are
    set in between: applying it again changes nothing, so a successor the new
    founder has named meanwhile is kept. *)
Theorem succession_applies_once (rows changes : list (str * str)) (d : FounderDirectory)
    (Hrows : NoDup rows.*1) :
  let once := transfers rows d in
  let changed := foldl (fun d '(channel, to) => set_successor channel (Some to) d) once changes in
  transfers rows changed = changed
  /\ (forall channel f, (channel, f) ∈ rows -> founder channel changed = Some f).
Proof.
  intros once changed.
  assert (forall k, own_founder <$> changed !! k = own_founder <$> once !! k) as Hsame.
  { subst changed. clearbody once. clear. revert once. induction changes as [|[c t] changes IH]; intros once k; [done|].
    cbn. rewrite IH. unfold set_successor. destruct (decide (c = k)) as [->|].
    - rewrite lookup_alter_eq. by destruct (once !! k).
    - by rewrite lookup_alter_ne. }
  assert (forall k f, (k, f) ∈ rows -> own_founder <$> changed !! k = Some f) as Hf.
  { intros k f Hin. rewrite Hsame. by apply transfers_founder. }
  split; [by apply transfers_noop|exact Hf].
Qed.

Lemma succession_applies_once_witness :
  let d := transfers [(bs "#a", bs "bob")] (register (bs "#a") (bs "al") ∅) in
  let changed := set_successor (bs "#a") (Some (bs "eve")) d in
  transfers [(bs "#a", bs "bob")] changed = changed /\ founder (bs "#a") changed = Some (bs "bob").
Proof.
  destruct (succession_applies_once [(bs "#a", bs "bob")] [(bs "#a", bs "eve")] (register (bs "#a") (bs "al") ∅)) as [H1 H2].
  - repeat constructor. by intros ?%elem_of_nil.
  - split; [exact H1|]. apply (H2 (bs "#a") (bs "bob")). left.
Defined.
