(* ===== verification/Events.v ===== *)
(** * Event lines and message ids ([e6ircd/src/core/state.rs], [Caps] to
      [MsgidSource], [broadcast_recipients]; [render_delivery] of
      [handler/channel.rs])

    A client's capabilities, the tags the server attaches to a line for one
    recipient, the broadcast that renders a line once per variant, and the
    source of message ids. *)

From S2P Require Import Prelude Str Num Time Message Parse Address Nicks ChannelState.

Local Open Scope Z_scope.

(** ** Capabilities *)

Record Caps : Type := MkCaps {
  server_time : bool;
  echo_message : bool;
  message_tags : bool;
  cap_notify : bool;
  multi_prefix : bool;
  userhost_in_names : bool;
  extended_join : bool;
  away_notify : bool;
  account_notify : bool;
  account_tag : bool;
  setname : bool;
  invite_notify : bool;
  batch : bool;
  chathistory : bool;
  read_marker : bool;
  labeled_response : bool;
  chghost : bool;
  extended_monitor : bool;
  standard_replies : bool;
  sasl : bool;
  account_registration : bool;
  multiline : bool;
}.
#[global] Instance Caps_eq_dec : EqDecision Caps.
Proof. solve_decision. Defined.

Definition Caps_default : Caps :=
  MkCaps false false false false false false false false false false false false false false false false
    false false false false false false.

(** ** Tags *)

Record Originator : Type := MkOriginator { orig_account : option str; orig_bot : bool }.

Definition when (b : bool) (s : str) : list str := if b then [s] else [].

Definition event_tags (caps : Caps) (ts : Z) (msgid account : option str) (bot : bool) : list str :=
  match msgid with Some msgid => when (message_tags caps) (bs "msgid=" ++ msgid) | None => [] end
  ++ when (server_time caps) (bs "time=" ++ Time.server_time ts)
  ++ match account with
     | Some account => when (account_tag caps) (bs "account=" ++ escape_tag_value account)
     | None => []
     end
  ++ when (message_tags caps && bot) (bs "bot").

Record EventLine : Type := MkEventLine { ev_body : str; ev_ts : Z; ev_origin : option Originator }.

Definition by_user (origin : Originator) (ts : Z) (body : str) : EventLine := MkEventLine body ts (Some origin).
Definition by_server (ts : Z) (body : str) : EventLine := MkEventLine body ts None.
Definition with_body (line : EventLine) (body : str) : EventLine := MkEventLine body (ev_ts line) (ev_origin line).

Definition CRLF : str := [CR; LF].

Definition tagged (tags : list str) (body : str) : str :=
  match tags with [] => body | _ => bs "@" ++ join ";" tags ++ bs " " ++ body end ++ CRLF.

Definition render (line : EventLine) (caps : Caps) : str :=
  let '(account, bot) := match ev_origin line with Some o => (orig_account o, orig_bot o) | None => (None, false) end in
  tagged (event_tags caps (ev_ts line) None account bot) (ev_body line).

Definition bit (b : bool) : Z := if b then 1 else 0.
Definition variant (caps : Caps) : Z :=
  Z.lor (bit (server_time caps)) (Z.lor (Z.shiftl (bit (account_tag caps)) 1) (Z.shiftl (bit (message_tags caps)) 2)).

(** ** Deliveries *)

Record Delivery : Type := MkDelivery {
  d_account : option str;
  d_bot : bool;
  d_msgid : str;
  d_client_tags : str;
  d_body : str;
  d_ts : Z;
  d_bypass_capture : bool;
}.

Definition render_delivery (caps : Caps) (d : Delivery) : str :=
  let tags := event_tags caps (d_ts d) (Some (d_msgid d)) (d_account d) (d_bot d) in
  let tags := tags ++ when (message_tags caps && negb (is_empty (d_client_tags d))) (d_client_tags d) in
  tagged tags (d_body d).

(** Where a broadcast puts a line: in a session's queue here, or with the
    shard that owns the session. *)
Inductive Outgoing : Type := SendBytes (conn : Z) (line : str) | Remote (owner : SessionOwner) (line : str).

Definition route (shard : Z) (capture : option Z) (r : Recipient (Caps := Caps)) (bytes : str) : Outgoing :=
  let captured := match capture with Some conn => conn =? recipient_conn r | None => false end in
  if negb (owner_shard (recipient_owner r) =? shard) && negb captured then Remote (recipient_owner r) bytes
  else SendBytes (recipient_conn r) bytes.

(** The loop of [broadcast_recipients] over its array of renderings. *)
Fixpoint broadcast_loop (shard : Z) (capture : option Z) (rs : list (Recipient (Caps := Caps))) (line : EventLine)
    (rendered : list (option str)) : list Outgoing :=
  match rs with
  | [] => []
  | r :: rs =>
      let i := Z.to_nat (variant (recipient_caps r)) in
      let '(bytes, rendered) :=
        match rendered !! i with
        | Some (Some bytes) => (bytes, rendered)
        | _ => let bytes := render line (recipient_caps r) in (bytes, <[i := Some bytes]> rendered)
        end in
      route shard capture r bytes :: broadcast_loop shard capture rs line rendered
  end.

Definition broadcast_recipients (shard : Z) (capture : option Z) (rs : list (Recipient (Caps := Caps))) (line : EventLine)
    : list Outgoing :=
  broadcast_loop shard capture rs line (replicate 8 None).

Definition broadcast_channel `{IpNet} (shard : Z) (capture : option Z) (chan : option (Channel (Caps := Caps))) (line : EventLine)
    (except : option Z) : list Outgoing :=
  match chan with
  | None => []
  | Some ch =>
      broadcast_recipients shard capture
        (List.filter (fun r => negb (bool_decide (Some (recipient_conn r) = except))) (fst (recipients ch))) line
  end.

(** ** Message ids *)

Definition hex_digit (z : Z) : byte := u8 (if z <? 10 then 48 + z else 87 + z).

(** [{:016x}]: a [u64] has at most sixteen digits. *)
Fixpoint hex_fixed (w : nat) (z : Z) : str :=
  match w with O => [] | S w => hex_fixed w (z / 16) ++ [hex_digit (z mod 16)] end.
Definition hex16 (z : Z) : str := hex_fixed 16 z.

Record MsgidSource : Type := MkMsgids { stem : str; counter : Z }.

Definition with_boot (shard boot : Z) : MsgidSource := MkMsgids (dec shard ++ bs "-" ++ hex16 boot ++ bs "-") 0.

(** [None] when the counter overflows. *)
Definition msgid_next (now : Z) (s : MsgidSource) : option (str * MsgidSource) :=
  counter ← checked_add_u64 (counter s) 1;
  Some (dec now ++ bs "-" ++ stem s ++ hex16 counter, MkMsgids (stem s) counter).

Fixpoint msgids (s : MsgidSource) (nows : list Z) : option (list str) :=
  match nows with
  | [] => Some []
  | now :: nows => '(id, s) ← msgid_next now s; ids ← msgids s nows; Some (id :: ids)
  end.

(** ** Rendering once per variant *)

Lemma variant_caps a b :
  variant a = variant b ->
  server_time a = server_time b /\ account_tag a = account_tag b /\ message_tags a = message_tags b.
Proof.
  unfold variant. destruct (server_time a), (account_tag a), (message_tags a), (server_time b), (account_tag b), (message_tags b);
    cbn; intros Hv; try done; lia.
Qed.

Lemma variant_range caps : (Z.to_nat (variant caps) < 8)%nat /\ 0 <= variant caps.
Proof.
  unfold variant. destruct (server_time caps), (account_tag caps), (message_tags caps);
    (split; [by apply Nat.ltb_lt|by apply Z.leb_le]).
Qed.

Lemma render_variant line a b : variant a = variant b -> render line a = render line b.
Proof.
  intros (H1 & H2 & H3)%variant_caps. unfold render, event_tags. destruct (match ev_origin line with Some _ => _ | None => _ end).
  by rewrite H1, H2, H3.
Qed.

(** What the array holds is what it was rendered for. *)
Definition cache_right (line : EventLine) (rendered : list (option str)) : Prop :=
  length rendered = 8%nat
  /\ forall caps bytes, rendered !! Z.to_nat (variant caps) = Some (Some bytes) -> bytes = render line caps.

Lemma broadcast_loop_spec shard capture line rs : forall rendered,
  cache_right line rendered ->
  broadcast_loop shard capture rs line rendered
  = (fun r => route shard capture r (render line (recipient_caps r))) <$> rs.
Proof.
  induction rs as [|r rs IH]; intros rendered [Hl Hr]; [done|]. cbn [broadcast_loop fmap list_fmap map].
  destruct (rendered !! Z.to_nat (variant (recipient_caps r))) as [[bytes|]|] eqn:E; cbv beta zeta iota.
  - rewrite (Hr _ _ E), IH by by split. done.
  - rewrite IH; [done|]. split; [by rewrite length_insert|]. intros caps bytes.
    pose proof (variant_range caps). pose proof (variant_range (recipient_caps r)).
    destruct (decide (variant caps = variant (recipient_caps r))) as [Hv|Hv].
    + rewrite Hv, list_lookup_insert_eq by lia. intros [= <-]. by apply render_variant.
    + rewrite list_lookup_insert_ne by lia. apply Hr.
  - apply lookup_ge_None in E. pose proof (variant_range (recipient_caps r)). lia.
Qed.

(** Though it renders a line once per variant of capabilities, a broadcast
    gives every recipient, in order, the line rendered for exactly its own
    capabilities, by its own queue or its shard. *)
Theorem broadcast_renders_each shard capture rs line :
  broadcast_recipients shard capture rs line
  = (fun r => route shard capture r (render line (recipient_caps r))) <$> rs.
Proof.
  apply broadcast_loop_spec. split; [done|]. intros caps bytes. pose proof (variant_range caps) as [Hv _].
  intros E%list_elem_of_lookup_2%elem_of_replicate. by destruct E.
Qed.

(** ** What a client decodes *)

Lemma dec_pad_plain w z : forallb (fun b => negb (needs_escape b)) (dec_pad w z) = true.
Proof.
  assert (Hd : forall z, 0 <= z -> forallb (fun b => negb (needs_escape b)) (dec z) = true).
  { intros y Hy. destruct (dec_digits y Hy) as [_ Hd]. apply forallb_true_iff in Hd. apply forallb_true_iff.
    eapply Forall_impl; [exact Hd|]. intros b. by byte_cases b. }
  assert (Hr : forall n, forallb (fun b => negb (needs_escape b)) (repeat "0"%byte n) = true) by (induction n; done).
  unfold dec_pad. destruct (Z.ltb_spec z 0); cbn [forallb]; rewrite ?forallb_app, ?Hr, Hd by lia; done.
Qed.

Lemma server_time_plain ts : escape_tag_value (Time.server_time ts) = Time.server_time ts.
Proof.
  unfold escape_tag_value. destruct (existsb needs_escape (Time.server_time ts)) eqn:E; [|done]. exfalso.
  assert (forallb (fun b => negb (needs_escape b)) (Time.server_time ts) = true) as Hp.
  { unfold Time.server_time. destruct (civil_from_days _) as [[y mo] d]. unfold format_time.
    repeat (rewrite ?forallb_app; cbn [forallb]; rewrite ?dec_pad_plain); done. }
  apply existsb_exists in E as (b & Hin & Hb). rewrite forallb_forall in Hp. apply Hp in Hin. by rewrite Hb in Hin.
Qed.

Definition tag_when (b : bool) (key : str) (v : option str) : list Tag := if b then [MkTag key v] else [].

(** The tags of a line by what they say. *)
Definition expected_tags (caps : Caps) (ts : Z) (account : option str) (bot : bool) : list Tag :=
  tag_when (server_time caps) (bs "time") (Some (Time.server_time ts))
  ++ (match account with Some a => tag_when (account_tag caps) (bs "account") (Some a) | None => [] end)
  ++ tag_when (message_tags caps && bot) (bs "bot") None.

Lemma event_tags_expected caps ts account bot :
  event_tags caps ts None account bot = render_tag <$> expected_tags caps ts account bot.
Proof.
  unfold event_tags, expected_tags. rewrite app_nil_l, !fmap_app. f_equal; [|f_equal].
  - destruct (server_time caps); [|done]. cbn [when tag_when fmap list_fmap map]. unfold render_tag. cbn [tag_value tag_key].
    by rewrite server_time_plain.
  - destruct account as [a|]; [|done]. by destruct (account_tag caps).
  - by destruct (message_tags caps && bot).
Qed.

Lemma tagged_render caps ts account bot m :
  msg_tags m = [] ->
  tagged (event_tags caps ts None account bot) (render_message m)
  = render_message (MkMessage (expected_tags caps ts account bot) (msg_source m) (msg_command m) (msg_params m) (msg_has_trailing m))
    ++ CRLF.
Proof.
  intros Ht. rewrite event_tags_expected. unfold tagged, render_message. rewrite Ht. cbn [msg_tags msg_source msg_command msg_params msg_has_trailing render_tags app].
  destruct (expected_tags caps ts account bot) as [|t tags]; [done|]. unfold render_tags.
  cbn [fmap list_fmap map]. change (bs "@") with ["@"%byte]. change (bs " ") with [" "%byte]. cbn [app]. rewrite <- !app_assoc. cbn [app]. by rewrite <- !app_assoc.
Qed.

Lemma server_time_no_nul ts : contains_byte NUL (Time.server_time ts) = false.
Proof.
  apply contains_byte_false. intros Hin. pose proof (escape_safe (Time.server_time ts)) as Hs. rewrite server_time_plain in Hs.
  rewrite forallb_forall in Hs. apply list_elem_of_In, Hs in Hin. done.
Qed.

Lemma expected_wf caps ts account bot :
  (forall a, account = Some a -> contains_byte NUL a = false) -> forallb wf_tag (expected_tags caps ts account bot) = true.
Proof.
  intros Ha. unfold expected_tags. rewrite !forallb_app. rewrite !andb_true_iff. split_and!.
  - destruct (server_time caps); [|done]. cbn [tag_when forallb]. unfold wf_tag. cbn [tag_key tag_value]. by rewrite server_time_no_nul.
  - destruct account as [a|]; [|done]. destruct (account_tag caps); [|done]. cbn [tag_when forallb]. unfold wf_tag.
    cbn [tag_key tag_value]. by rewrite (Ha a).
  - by destruct (message_tags caps && bot).
Qed.

Definition origin_account (line : EventLine) : option str := ev_origin line ≫= orig_account.
Definition origin_bot (line : EventLine) : bool := match ev_origin line with Some o => orig_bot o | None => false end.

Lemma render_eq line caps :
  render line caps = tagged (event_tags caps (ev_ts line) None (origin_account line) (origin_bot line)) (ev_body line).
Proof. unfold render, origin_account, origin_bot. by destruct (ev_origin line). Qed.

(** A client that parses an event line as it was rendered for it reads the
    message the event is, with the time of the event, the originator's account
    (whatever bytes it is written with) and the bot mark exactly when it
    negotiated each: a line by the server carries no originator tag. *)
Theorem event_line_decodes line caps m :
  wf_message m = true -> msg_tags m = [] -> ev_body line = render_message m -> 0 <= ev_ts line < YEAR_10000_MS ->
  (forall a, origin_account line = Some a -> contains_byte NUL a = false) ->
  exists wire m', render line caps = wire ++ CRLF /\ parse wire = Ok m'
    /\ (msg_source m', msg_command m', msg_params m') = (msg_source m, msg_command m, msg_params m)
    /\ ((message_tag m' (bs "time") ≫= tag_value) ≫= parse_server_time_millis) = (if server_time caps then Some (ev_ts line) else None)
    /\ (message_tag m' (bs "account") ≫= tag_value) = (if account_tag caps then origin_account line else None)
    /\ bool_decide (is_Some (message_tag m' (bs "bot"))) = message_tags caps && origin_bot line.
Proof.
  intros Hwf Ht Hb Hts Ha. rewrite render_eq, Hb, tagged_render by done. eexists _, _. split; [done|]. split.
  { apply parse_render_lemma. unfold wf_message in *. cbn [msg_tags msg_source msg_command msg_params msg_has_trailing].
    rewrite expected_wf by done. bool_to_prop. rewrite andb_true_l. by rewrite !andb_true_iff. }
  split; [done|]. unfold message_tag. cbn [msg_tags]. unfold expected_tags.
  destruct (server_time caps), (account_tag caps), (origin_account line) as [a|], (message_tags caps), (origin_bot line);
    cbn [tag_when app andb]; (split_and!; [|reflexivity|reflexivity]); try reflexivity;
    apply (server_time_roundtrip_lemma _ Hts).
Qed.

Lemma event_line_decodes_witness :
  exists wire m', render (by_user (MkOriginator (Some (bs "a\b")) true) 0 (bs ":n!u@h MODE #c +o x"))
      (MkCaps true false true false false false false false false true false false false false false false false false false false false false)
    = wire ++ CRLF /\ parse wire = Ok m' /\ (message_tag m' (bs "account") ≫= tag_value) = Some (bs "a\b").
Proof.
  destruct (event_line_decodes (by_user (MkOriginator (Some (bs "a\b")) true) 0 (bs ":n!u@h MODE #c +o x"))
    (MkCaps true false true false false false false false false true false false false false false false false false false false false false)
    (MkMessage [] (Some (MkSource (bs "n") (Some (bs "u")) (Some (bs "h")))) (bs "MODE") [bs "#c"; bs "+o"; bs "x"] false))
    as (wire & m' & H1 & H2 & _ & _ & H3 & _).
  - reflexivity.
  - reflexivity.
  - reflexivity.
  - unfold YEAR_10000_MS. cbn. lia.
  - intros a [= <-]. reflexivity.
  - exists wire, m'. split_and!; [exact H1|exact H2|exact H3].
Defined.

(** ** Message ids are unique and ordered *)

Lemma hex_fixed_length w z : length (hex_fixed w z) = w.
Proof. revert z. induction w as [|w IH]; intros z; [done|]. cbn [hex_fixed]. rewrite length_app, IH. cbn. lia. Qed.

Lemma bz_hex_digit z : 0 <= z < 16 -> bz (hex_digit z) = if z <? 10 then 48 + z else 87 + z.
Proof. intros Hz. unfold hex_digit. rewrite bz_u8. apply Z.mod_small. destruct (z <? 10); lia. Qed.

Lemma hex_digit_lt a b : 0 <= a < 16 -> 0 <= b < 16 -> (bz (hex_digit a) <? bz (hex_digit b)) = (a <? b).
Proof.
  intros Ha Hb. rewrite !bz_hex_digit by done.
  destruct (Z.ltb_spec a 10), (Z.ltb_spec b 10), (Z.ltb_spec a b); try (apply Z.ltb_lt; lia); apply Z.ltb_ge; lia.
Qed.

Lemma hex_not_dash w z : 0 <= z -> "-"%byte ∉ hex_fixed w z.
Proof.
  revert z. induction w as [|w IH]; intros z Hz; cbn [hex_fixed]; [apply not_elem_of_nil|].
  pose proof (Z.div_pos z 16). pose proof (Z.mod_pos_bound z 16).
  rewrite elem_of_app, list_elem_of_singleton. intros [Hin|E]; [by apply (IH (z / 16)) in Hin; [|lia]|].
  apply (f_equal bz) in E. rewrite bz_hex_digit in E by lia. change (bz "-") with 45 in E. destruct (z mod 16 <? 10); lia.
Qed.

Lemma str_ltb_app a b u v :
  length a = length b -> str_ltb (a ++ u) (b ++ v) = str_ltb a b || (bool_decide (a = b) && str_ltb u v).
Proof.
  revert b. induction a as [|x a IH]; intros [|y b] Hl; try done. cbn [app str_ltb]. injection Hl as Hl. rewrite (IH _ Hl).
  destruct (Z.ltb_spec (bz x) (bz y)), (Z.ltb_spec (bz y) (bz x)); try lia; try done.
  - symmetry. apply orb_false_iff. split; [done|]. rewrite bool_decide_false; [done|]. intros [= -> _]. lia.
  - assert (x = y) as -> by (apply bz_inj; lia). f_equal. f_equal. apply bool_decide_ext. naive_solver.
Qed.

Lemma hex_fixed_lt w a b :
  0 <= a -> a < b -> b < 16 ^ Z.of_nat w -> str_ltb (hex_fixed w a) (hex_fixed w b) = true.
Proof.
  revert a b. induction w as [|w IH]; intros a b Ha Hab Hb; [cbn in Hb; lia|].
  rewrite Nat2Z.inj_succ, Z.pow_succ_r in Hb by lia. cbn [hex_fixed]. rewrite str_ltb_app by by rewrite !hex_fixed_length.
  pose proof (Z.div_mod a 16). pose proof (Z.div_mod b 16). pose proof (Z.mod_pos_bound a 16). pose proof (Z.mod_pos_bound b 16).
  destruct (decide (a / 16 = b / 16)) as [E|E].
  - rewrite E, bool_decide_true by done. cbn [str_ltb]. rewrite !hex_digit_lt by lia.
    rewrite (proj2 (Z.ltb_lt (a mod 16) (b mod 16))) by lia. apply orb_true_r.
  - rewrite IH; [done|apply Z.div_pos; lia| |apply Z.div_lt_upper_bound; lia].
    pose proof (Z.div_le_mono a b 16). lia.
Qed.

Lemma hex_fixed_inj w a b :
  0 <= a < 16 ^ Z.of_nat w -> 0 <= b < 16 ^ Z.of_nat w -> hex_fixed w a = hex_fixed w b -> a = b.
Proof.
  intros Ha Hb E. destruct (Z.lt_trichotomy a b) as [Hlt|[->|Hlt]]; [|done|].
  - pose proof (hex_fixed_lt w a b ltac:(lia) Hlt ltac:(lia)) as Hs. by rewrite E, str_ltb_irrefl in Hs.
  - pose proof (hex_fixed_lt w b a ltac:(lia) Hlt ltac:(lia)) as Hs. by rewrite E, str_ltb_irrefl in Hs.
Qed.

Lemma dec_inj a b : 0 <= a -> 0 <= b -> dec a = dec b -> a = b.
Proof. intros Ha Hb E. by rewrite <- (dec_value_dec a Ha), <- (dec_value_dec b Hb), E. Qed.

Lemma dec_not_dash z : 0 <= z -> "-"%byte ∉ dec z.
Proof.
  intros Hz Hin. destruct (dec_digits z Hz) as [_ Hd]. rewrite forallb_forall in Hd. by apply list_elem_of_In, Hd in Hin.
Qed.

(** Splitting at the first dash. *)
Lemma dash_inj a b x y :
  "-"%byte ∉ a -> "-"%byte ∉ b -> a ++ bs "-" ++ x = b ++ bs "-" ++ y -> a = b /\ x = y.
Proof.
  intros Ha Hb E. change (bs "-") with ["-"%byte] in E. cbn [app] in E.
  pose proof (split_once_app "-" a x Ha) as H1. pose proof (split_once_app "-" b y Hb) as H2. rewrite E in H1. split; congruence.
Qed.

Definition msgid (shard boot now c : Z) : str := dec now ++ bs "-" ++ stem (with_boot shard boot) ++ hex16 c.

(** A message id names its instant, shard, process and place in the sequence. *)
Lemma msgid_inj shard boot now c shard' boot' now' c' :
  0 <= shard -> 0 <= boot <= U64_MAX -> 0 <= now -> 0 <= c <= U64_MAX ->
  0 <= shard' -> 0 <= boot' <= U64_MAX -> 0 <= now' -> 0 <= c' <= U64_MAX ->
  msgid shard boot now c = msgid shard' boot' now' c' -> (shard, boot, now, c) = (shard', boot', now', c').
Proof.
  unfold U64_MAX. intros. unfold msgid, with_boot in *. cbn [stem] in *. rewrite <- !app_assoc in *.
  match goal with E : _ = _ |- _ =>
    apply dash_inj in E as [Hn E]; [|by apply dec_not_dash..]; apply dash_inj in E as [Hs E]; [|by apply dec_not_dash..];
    apply dash_inj in E as [Hb Hc]; [|by apply hex_not_dash; lia..]
  end.
  apply dec_inj in Hn, Hs; [|lia..]. apply hex_fixed_inj in Hb, Hc; [|cbn; lia..]. congruence.
Qed.

Lemma msgids_spec s nows ids :
  0 <= counter s <= U64_MAX -> msgids s nows = Some ids ->
  ids = imap (fun i now => dec now ++ bs "-" ++ stem s ++ hex16 (counter s + 1 + Z.of_nat i)) nows
  /\ counter s + Z.of_nat (length nows) <= U64_MAX.
Proof.
  revert s ids. induction nows as [|now nows IH]; intros s ids Hc; cbn [msgids].
  { intros [= <-]. cbn. split; [done|lia]. }
  unfold msgid_next, checked_add_u64. destruct (Z.leb_spec (counter s + 1) U64_MAX) as [Hle|]; [|done]. cbn [mbind option_bind].
  destruct (msgids _ nows) as [ids'|] eqn:E; [|done]. cbn [mbind option_bind]. intros [= <-].
  apply IH in E as [-> Hb]; [|cbn; lia]. cbn [counter stem] in *. split; [|cbn [length]; lia].
  cbn [imap]. rewrite Z.add_0_r. f_equal. apply imap_ext. intros i x _. unfold compose. do 4 f_equal. lia.
Qed.

Lemma msgids_lookup shard boot nows ids i id :
  msgids (with_boot shard boot) nows = Some ids -> ids !! i = Some id ->
  exists now, nows !! i = Some now /\ id = msgid shard boot now (1 + Z.of_nat i) /\ 0 <= 1 + Z.of_nat i <= U64_MAX.
Proof.
  intros [-> Hb]%msgids_spec; [|cbn; unfold U64_MAX; lia]. rewrite list_lookup_imap.
  destruct (nows !! i) as [now|] eqn:E; [|done]. intros [= <-]. exists now. split; [done|]. apply lookup_lt_Some in E.
  cbn [counter with_boot] in Hb |- *. split; [done|lia].
Qed.

(** The ids a shard stamps are pairwise distinct; those it stamps within
    one millisecond ascend byte by byte, in the order they were stamped; and no
    other shard, and no other process of the same shard, ever stamps one of
    them. *)
Theorem msgids_unique_and_ordered shard boot nows ids shard' boot' nows' ids' :
  0 <= shard -> 0 <= boot <= U64_MAX -> Forall (fun now => 0 <= now) nows -> msgids (with_boot shard boot) nows = Some ids ->
  0 <= shard' -> 0 <= boot' <= U64_MAX -> Forall (fun now => 0 <= now) nows' -> msgids (with_boot shard' boot') nows' = Some ids' ->
  NoDup ids
  /\ (forall i j now a b, (i < j)%nat -> nows !! i = Some now -> nows !! j = Some now -> ids !! i = Some a -> ids !! j = Some b ->
       str_ltb a b = true)
  /\ ((shard, boot) <> (shard', boot') -> forall id, id ∈ ids -> id ∉ ids').
Proof.
  intros Hs Hb Hn Hi Hs' Hb' Hn' Hi'. rewrite Forall_lookup in Hn, Hn'. split_and!.
  - apply NoDup_alt. intros i j id Ha Hj.
    destruct (msgids_lookup _ _ _ _ _ _ Hi Ha) as (now & En & -> & Hc). destruct (msgids_lookup _ _ _ _ _ _ Hi Hj) as (now' & En' & E & Hc').
    apply msgid_inj in E; eauto. injection E as _ E. lia.
  - intros i j now a b Hij Eni Enj Ha Hj.
    destruct (msgids_lookup _ _ _ _ _ _ Hi Ha) as (? & ? & -> & Hc). destruct (msgids_lookup _ _ _ _ _ _ Hi Hj) as (? & ? & -> & Hc').
    simplify_eq. unfold msgid. rewrite !app_assoc. rewrite str_ltb_app, bool_decide_true by done.
    rewrite str_ltb_irrefl. cbn [orb andb]. apply hex_fixed_lt; [lia|lia|]. unfold U64_MAX in *. cbn. lia.
  - intros Hne id [i Ha]%list_elem_of_lookup [j Hj]%list_elem_of_lookup. apply Hne.
    destruct (msgids_lookup _ _ _ _ _ _ Hi Ha) as (now & En & -> & Hc). destruct (msgids_lookup _ _ _ _ _ _ Hi' Hj) as (now' & En' & E & Hc').
    apply msgid_inj in E; eauto. congruence.
Qed.

Lemma msgids_unique_and_ordered_witness :
  exists ids ids', msgids (with_boot 0 7) [5; 5; 6] = Some ids /\ msgids (with_boot 1 7) [5] = Some ids' /\ NoDup ids
    /\ (forall id, id ∈ ids -> id ∉ ids').
Proof.
  eexists _, _. split; [reflexivity|]. split; [reflexivity|].
  destruct (msgids_unique_and_ordered 0 7 [5; 5; 6] _ 1 7 [5] _ ltac:(lia) ltac:(unfold U64_MAX; lia)
    ltac:(repeat constructor; lia) eq_refl ltac:(lia) ltac:(unfold U64_MAX; lia) ltac:(repeat constructor; lia) eq_refl)
    as (H1 & _ & H3).
  split; [exact H1|]. apply H3. congruence.
Defined.
