(* ===== verification/ModeChange.v ===== *)
(** * Channel MODE ([e6ircd/src/core/handler/channel.rs], [channel_mode_by] and
      [broadcast_mode_changes])

    A MODE command on a channel, run where the channel is owned: the query and
    operator gates, the loop over the mode characters with their parameters,
    limits and refusals, and the lines that announce what changed.  Replies are
    values; their numerics' texts are not modelled.  The clock is read once per
    command: every mask one command sets carries the same second. *)

From S2P Require Import Prelude Str Keys Casemap Mask Num Wire Message Middle Ip Address BanMask Nicks Channel ChannelState.
From stdpp Require Import gmap.

Local Open Scope Z_scope.

Definition MAXLIST : nat := 100.
Definition MODES : nat := 4.
Definition BANMASKLEN : nat := OWN_MAX.
Definition KEYLEN : nat := 24.

(** ** Masks and keys *)

Definition star (s : str) : str := if is_empty s then bs "*" else s.

Definition normalize_ban_mask (mask : str) : str :=
  if starts_with EXTBAN_PREFIX mask then mask
  else
    match split_once "!" mask with
    | Some (nick, rest) =>
        match split_once "@" rest with
        | Some (user, host) => star nick ++ bs "!" ++ star user ++ bs "@" ++ star host
        | None => star nick ++ bs "!" ++ star rest ++ bs "@*"
        end
    | None =>
        match split_once "@" mask with
        | Some (user, host) => bs "*!" ++ star user ++ bs "@" ++ star host
        | None =>
            if contains_byte "." mask || contains_byte ":" mask then bs "*!*@" ++ mask
            else star mask ++ bs "!*@*"
        end
    end.

Definition truncate_chars (s : str) (max : nat) : str := truncate_on_char_boundary s max.

(** A byte no middle parameter may hold. *)
Definition space_or_control (b : byte) : bool := (bz b <=? 32) || (bz b =? 127).

Inductive MaskRefusal : Type := SpaceOrControl | LeadingColon | BadShape (e : MaskError).

Definition valid_channel_key (key : str) : bool :=
  negb (is_empty key) && negb (starts_with ":" key)
  && negb (existsb (fun b => space_or_control b || (b =b? ",")) key).

Definition channel_key_matches (m : CaseMapping) (key supplied : str) : bool :=
  str_eqb (casefold m key) (casefold m supplied).

Definition mlock_conflict (lock : option MlockModes) (c : byte) (adding : bool) : bool :=
  match lock with
  | Some l => (adding && contains_byte c (lock_off l)) || (negb adding && contains_byte c (lock_on l))
  | None => false
  end.

Section ModeChange.
Context {Caps : Type} `{EqDecision Caps} `{IpNet}.
Abbreviation Channel := (Channel (Caps := Caps)).

Definition channel_list_mask (raw : str) (adding : bool) (m : CaseMapping) : result MaskRefusal MaskKey :=
  let mask := truncate_chars (normalize_ban_mask raw) BANMASKLEN in
  if adding then
    if existsb space_or_control mask then Err SpaceOrControl
    else if starts_with ":" raw || starts_with ":" mask then Err LeadingColon
    else match MaskShape_parse mask with
         | Err e => Err (BadShape e)
         | Ok _ => Ok (MaskKey_new mask m)
         end
  else Ok (MaskKey_new mask m).

(** ** Replies *)

Inductive ModeReply : Type :=
| NoSuchChannel
| ChannelModeIs (modes : list str) (created_secs : Z)
| ListDump (mode : byte) (entries : list ListEntry)
| ChanOpPrivsNeeded
| MlockRestricted (adding : bool) (mode : byte) (lock : str)
| NeedMoreParams
| InvalidKey
| InvalidLimit (arg : str)
| InvalidMask (mode : byte) (why : MaskRefusal)
| BanListFull (mask : str)
| NoSuchNick (who : str)
| UserNotInChannel (who : str)
| UnknownMode (mode : str)
| TooManyModes (modes : str).

(** An applied change: whether it sets the mode, the mode, its parameter. *)
Definition Change : Type := (bool * byte * option str)%type.

Record ModeState : Type := MkModeState {
  ms_chan : Channel;
  ms_adding : bool;
  ms_args : list str;
  ms_changes : list Change;
  ms_listed : str;
  ms_parameters : nat;
  ms_over : str;
  ms_over_sign : option bool;
  ms_unknown : bool;
  ms_replies : list ModeReply;
}.

(** ** Writing the channel *)

Definition with_modes (f : ChanModes -> ChanModes) (ch : Channel) : Channel :=
  MkChannel (chan_name ch) (chan_topic ch) (chan_members ch) (cached_recipients ch) (f (chan_modes ch)) (bans ch)
    (quiets ch) (ban_exceptions ch) (invite_exceptions ch) (invited ch) (last_knock ch) (created_at ch).

Definition clear_invited (ch : Channel) : Channel :=
  MkChannel (chan_name ch) (chan_topic ch) (chan_members ch) (cached_recipients ch) (chan_modes ch) (bans ch)
    (quiets ch) (ban_exceptions ch) (invite_exceptions ch) ∅ (last_knock ch) (created_at ch).

Inductive ListMode : Type := Bans | Quiets | Exceptions | InviteExceptions.
#[global] Instance ListMode_eq_dec : EqDecision ListMode.
Proof. solve_decision. Defined.

Definition list_mode (c : byte) : option ListMode :=
  match c with
  | "b" => Some Bans
  | "q" => Some Quiets
  | "e" => Some Exceptions
  | "I" => Some InviteExceptions
  | _ => None
  end%byte.

Definition get_list (l : ListMode) (ch : Channel) : list ListEntry :=
  match l with
  | Bans => bans ch
  | Quiets => quiets ch
  | Exceptions => ban_exceptions ch
  | InviteExceptions => invite_exceptions ch
  end.

Definition set_list (l : ListMode) (es : list ListEntry) (ch : Channel) : Channel :=
  MkChannel (chan_name ch) (chan_topic ch) (chan_members ch) (cached_recipients ch) (chan_modes ch)
    (if decide (l = Bans) then es else bans ch) (if decide (l = Quiets) then es else quiets ch)
    (if decide (l = Exceptions) then es else ban_exceptions ch)
    (if decide (l = InviteExceptions) then es else invite_exceptions ch)
    (invited ch) (last_knock ch) (created_at ch).

Definition combined (ch : Channel) : nat :=
  length (bans ch) + length (quiets ch) + length (ban_exceptions ch) + length (invite_exceptions ch).

(** ** Updates of the loop's state *)

Definition push_reply (r : ModeReply) (s : ModeState) : ModeState :=
  MkModeState (ms_chan s) (ms_adding s) (ms_args s) (ms_changes s) (ms_listed s) (ms_parameters s) (ms_over s)
    (ms_over_sign s) (ms_unknown s) (ms_replies s ++ [r]).
Definition set_adding (b : bool) (s : ModeState) : ModeState :=
  MkModeState (ms_chan s) b (ms_args s) (ms_changes s) (ms_listed s) (ms_parameters s) (ms_over s)
    (ms_over_sign s) (ms_unknown s) (ms_replies s).
Definition set_args (args : list str) (s : ModeState) : ModeState :=
  MkModeState (ms_chan s) (ms_adding s) args (ms_changes s) (ms_listed s) (ms_parameters s) (ms_over s)
    (ms_over_sign s) (ms_unknown s) (ms_replies s).
Definition change (ch : Channel) (c : Change) (s : ModeState) : ModeState :=
  MkModeState ch (ms_adding s) (ms_args s) (ms_changes s ++ [c]) (ms_listed s) (ms_parameters s) (ms_over s)
    (ms_over_sign s) (ms_unknown s) (ms_replies s).
Definition note_listed (c : byte) (s : ModeState) : ModeState :=
  MkModeState (ms_chan s) (ms_adding s) (ms_args s) (ms_changes s) (ms_listed s ++ [c]) (ms_parameters s) (ms_over s)
    (ms_over_sign s) (ms_unknown s) (ms_replies s).
Definition note_unknown (s : ModeState) : ModeState :=
  MkModeState (ms_chan s) (ms_adding s) (ms_args s) (ms_changes s) (ms_listed s) (ms_parameters s) (ms_over s)
    (ms_over_sign s) true (ms_replies s).
Definition count_parameter (s : ModeState) : ModeState :=
  MkModeState (ms_chan s) (ms_adding s) (ms_args s) (ms_changes s) (ms_listed s) (S (ms_parameters s)) (ms_over s)
    (ms_over_sign s) (ms_unknown s) (ms_replies s).

(** [push_mode]: the sign when it changes ([None] is the initial space), then
    the character. *)
Definition push_mode (applied : str) (last_sign : option bool) (adding : bool) (c : byte) : str * option bool :=
  (applied ++ (if bool_decide (last_sign = Some adding) then [] else [if adding then "+"%byte else "-"%byte]) ++ [c],
   Some adding).

Definition note_over (c : byte) (s : ModeState) : ModeState :=
  let '(over, sign) := push_mode (ms_over s) (ms_over_sign s) (ms_adding s) c in
  MkModeState (ms_chan s) (ms_adding s) (tail (ms_args s)) (ms_changes s) (ms_listed s) (ms_parameters s) over sign
    (ms_unknown s) (ms_replies s).

(** What the command knows: the casemapping, the channel's mode lock, whether
    a nick is registered with the server, who acts and when. *)
Record ModeContext : Type := MkContext {
  cx_casemap : CaseMapping;
  cx_lock : option MlockModes;
  cx_online : str -> bool;
  cx_actor : str;
  cx_now_secs : Z;
}.

(** ** One mode character, by kind *)

Definition takes_parameter (c : byte) (s : ModeState) : bool :=
  match c with
  | "k" | "o" | "v" => true
  | "l" => ms_adding s
  | "b" | "q" | "e" | "I" => negb (bool_decide (ms_args s = []))
  | _ => false
  end%byte.

Definition flag_mode (cx : ModeContext) (c : byte) (s : ModeState) : ModeState :=
  let adding := ms_adding s in
  if mlock_conflict (cx_lock cx) c adding then
    push_reply (MlockRestricted adding c (match cx_lock cx with Some l => mlock_render l | None => [] end)) s
  else
    let ch := ms_chan s in
    match flag (chan_modes ch) c, set_flag (chan_modes ch) c adding with
    | Some now, Some modes =>
        if Bool.eqb now adding then s
        else
          let ch := with_modes (fun _ => modes) ch in
          let ch := if (c =b? "i") && negb adding then clear_invited ch else ch in
          change ch (adding, c, None) s
    | _, _ => s
    end.

Definition key_mode (s : ModeState) : ModeState :=
  let ch := ms_chan s in
  if ms_adding s then
    match ms_args s with
    | [] => push_reply NeedMoreParams s
    | k :: args =>
        let s := set_args args s in
        if negb (valid_channel_key k) then push_reply InvalidKey s
        else
          let k := truncate_chars k KEYLEN in
          if bool_decide (chan_key (chan_modes ch) = Some k) then s
          else change (with_modes (fun modes => with_key modes (Some k)) ch) (true, "k"%byte, Some k) s
    end
  else
    let s := set_args (tail (ms_args s)) s in
    match chan_key (chan_modes ch) with
    | Some _ => change (with_modes (fun modes => with_key modes None) ch) (false, "k"%byte, Some (bs "*")) s
    | None => s
    end.

Definition limit_mode (s : ModeState) : ModeState :=
  let ch := ms_chan s in
  if ms_adding s then
    match ms_args s with
    | [] => push_reply NeedMoreParams s
    | l :: args =>
        let s := set_args args s in
        match parse_uint U32_MAX l with
        | Some n =>
            if 0 <? n then
              if bool_decide (chan_limit (chan_modes ch) = Some n) then s
              else change (with_modes (fun modes => with_limit modes (Some n)) ch) (true, "l"%byte, Some (dec n)) s
            else push_reply (InvalidLimit l) s
        | None => push_reply (InvalidLimit l) s
        end
    end
  else
    match chan_limit (chan_modes ch) with
    | Some _ =>
        let ch := with_modes (fun modes => with_limit modes None) ch in
        let ch := if invite_only (chan_modes ch) then ch else clear_invited ch in
        change ch (false, "l"%byte, None) s
    | None => s
    end.

Definition mask_mode (cx : ModeContext) (c : byte) (l : ListMode) (s : ModeState) : ModeState :=
  match ms_args s with
  | [] =>
      if contains_byte c (ms_listed s) then s
      else push_reply (ListDump c (get_list l (ms_chan s))) (note_listed c s)
  | raw :: args =>
      let s := set_args args s in
      let adding := ms_adding s in
      match channel_list_mask raw adding (cx_casemap cx) with
      | Err why => push_reply (InvalidMask c why) s
      | Ok mask_key =>
          let ch := ms_chan s in
          let entries := get_list l ch in
          let is_new := negb (existsb (fun entry => mask_key_eq (entry_mask entry) mask_key) entries) in
          if adding && is_new && (MAXLIST <=? combined ch)%nat then push_reply (BanListFull (display mask_key)) s
          else if adding then
            if is_new then
              change (set_list l (entries ++ [MkListEntry mask_key (cx_actor cx) (cx_now_secs cx)]) ch)
                (true, c, Some (display mask_key)) s
            else s
          else
            let kept := List.filter (fun entry => negb (mask_key_eq (entry_mask entry) mask_key)) entries in
            if (length kept =? length entries)%nat then s
            else change (set_list l kept ch) (false, c, Some (display mask_key)) s
      end
  end.

Definition rank_of (c : byte) (modes : MemberModes) : bool := if c =b? "o" then op modes else voice modes.
Definition set_rank (c : byte) (v : bool) (modes : MemberModes) : MemberModes :=
  if c =b? "o" then MkModes v (voice modes) else MkModes (op modes) v.

Definition rank_mode (cx : ModeContext) (c : byte) (s : ModeState) : ModeState :=
  match ms_args s with
  | [] => push_reply NeedMoreParams s
  | who :: args =>
      let s := set_args args s in
      let ch := ms_chan s in
      match member_named (cx_casemap cx) who ch with
      | None =>
          push_reply (if cx_online cx (casefold (cx_casemap cx) who) then UserNotInChannel who else NoSuchNick who) s
      | Some (conn, _, who_is) =>
          match member conn ch with
          | None => push_reply (UserNotInChannel who) s
          | Some modes =>
              if Bool.eqb (rank_of c modes) (ms_adding s) then s
              else change (member_mut conn (set_rank c (ms_adding s)) ch) (ms_adding s, c, Some (identity_nick who_is)) s
          end
      end
  end.

(** ** The loop *)

Definition mode_byte (cx : ModeContext) (c : byte) (s : ModeState) : ModeState :=
  if c =b? "+" then set_adding true s
  else if c =b? "-" then set_adding false s
  else if contains_byte c FLAGS then flag_mode cx c s
  else if c =b? "k" then key_mode s
  else if c =b? "l" then limit_mode s
  else match list_mode c with
       | Some l => mask_mode cx c l s
       | None =>
           if (c =b? "o") || (c =b? "v") then rank_mode cx c s
           else if ms_unknown s then s else push_reply (UnknownMode [c]) (note_unknown s)
       end.

Definition mode_char (cx : ModeContext) (s : ModeState) (x : str) : ModeState :=
  match x with
  | [c] =>
      if takes_parameter c s then
        let s := count_parameter s in
        if (MODES <? ms_parameters s)%nat then note_over c s else mode_byte cx c s
      else mode_byte cx c s
  | _ => if ms_unknown s then s else push_reply (UnknownMode x) (note_unknown s)
  end.

Definition mode_start (ch : Channel) (args : list str) : ModeState :=
  MkModeState ch true args [] [] 0 [] None false [].

Definition mode_loop (cx : ModeContext) (modes : str) (args : list str) (ch : Channel) : ModeState :=
  fold_left (mode_char cx) (chars modes) (mode_start ch args).

(** A lone list mode is a query, an exception list's only for an operator. *)
Definition list_query (rest : list str) (is_op : bool) (ch : Channel) : option ModeReply :=
  match rest with
  | [token] =>
      match chars (default token (strip_byte "+" token)) with
      | [[c]] =>
          l ← list_mode c;
          if bool_decide (l = Exceptions \/ l = InviteExceptions) && negb is_op then None
          else Some (ListDump c (get_list l ch))
      | _ => None
      end
  | _ => None
  end.

(** [channel_mode_by] on the channel named, if there is one: the channel, the
    replies to the sender and the changes to announce. *)
Definition channel_mode_by (cx : ModeContext) (conn : Z) (rest : list str) (chan : option Channel)
    : option Channel * list ModeReply * list Change :=
  match chan with
  | None => (None, [NoSuchChannel], [])
  | Some ch =>
      let is_op := match member conn ch with Some m => op m | None => false end in
      if hidden_from conn ch then (chan, [NoSuchChannel], [])
      else
        match rest with
        | [] => (chan, [ChannelModeIs (with_args (chan_modes ch) (is_member conn ch)) (created_at ch / 1000)], [])
        | modes :: args =>
            match list_query rest is_op ch with
            | Some reply => (chan, [reply], [])
            | None =>
                if negb is_op then (chan, [ChanOpPrivsNeeded], [])
                else
                  let s := mode_loop cx modes args ch in
                  let over := if is_empty (ms_over s) then [] else [TooManyModes (ms_over s)] in
                  (Some (ms_chan s), ms_replies s ++ over, ms_changes s)
            end
        end
  end.
End ModeChange.

(** ** Announcing the changes *)

(** A MODE line: its mode string and parameters, after the source, command and
    channel name. *)
Record ModeLine : Type := MkLine { line_modes : str; line_args : list str }.

Fixpoint args_len (args : list str) : nat :=
  match args with [] => 0 | a :: args => 1 + length a + args_len args end.

(** The line's text after its fixed part. *)
Definition line_text (base : str) (l : ModeLine) : str :=
  base ++ line_modes l ++ mjoin (cons " "%byte <$> line_args l).

(** The text's length on the wire, with its CR and LF. *)
Definition line_len (base : nat) (l : ModeLine) : nat :=
  base + length (line_modes l) + args_len (line_args l) + 2.

Definition arg_cost (arg : option str) : nat := match arg with Some a => 1 + length a | None => 0 end.
Definition arg_list (arg : option str) : list str := match arg with Some a => [a] | None => [] end.

(** [broadcast_mode_changes]: [base] is the length of the line's fixed part. *)
Fixpoint broadcast_loop (base : nat) (changes : list Change) (modes : str) (args : list str) (last_sign : option bool)
    : list ModeLine :=
  match changes with
  | [] => if is_empty modes then [] else [MkLine modes args]
  | (adding, c, arg) :: changes =>
      let sign_cost := if bool_decide (last_sign = Some adding) then 0%nat else 1%nat in
      let prospective := (base + length modes + sign_cost + 1 + args_len args + arg_cost arg + 2)%nat in
      if negb (is_empty modes) && (512 <? prospective)%nat then
        let '(modes', sign) := push_mode [] None adding c in
        MkLine modes args :: broadcast_loop base changes modes' (arg_list arg) sign
      else
        let '(modes', sign) := push_mode modes last_sign adding c in
        broadcast_loop base changes modes' (args ++ arg_list arg) sign
  end.

Definition broadcast_mode_changes (base : nat) (changes : list Change) : list ModeLine :=
  broadcast_loop base changes [] [] None.

(** ** What a client reads *)

(** The modes that carry a parameter, by the advertised [CHANMODES] and
    [PREFIX] classes. *)
Definition wants_arg (adding : bool) (c : byte) : bool :=
  contains_byte c (bs "beIqkov") || ((c =b? "l") && adding).

Fixpoint decode_modes (modes : str) (adding : bool) (args : list str) : list Change :=
  match modes with
  | [] => []
  | c :: modes =>
      if c =b? "+" then decode_modes modes true args
      else if c =b? "-" then decode_modes modes false args
      else if wants_arg adding c then
        match args with
        | a :: args => (adding, c, Some a) :: decode_modes modes adding args
        | [] => []
        end
      else (adding, c, None) :: decode_modes modes adding args
  end.

Definition decode_line (l : ModeLine) : list Change := decode_modes (line_modes l) true (line_args l).

(** A change as the loop makes them: a mode character with a parameter exactly
    when its class has one. *)
Definition change_ok (x : Change) : Prop :=
  let '(adding, c, arg) := x in
  c <> "+"%byte /\ c <> "-"%byte /\ wants_arg adding c = bool_decide (is_Some arg).

Lemma args_len_app a b : args_len (a ++ b) = (args_len a + args_len b)%nat.
Proof. induction a as [|x a IH]; [done|]. cbn. rewrite IH. lia. Qed.

Lemma args_len_list arg : args_len (arg_list arg) = arg_cost arg.
Proof. destruct arg; cbn; lia. Qed.

Lemma line_text_len base l : (length (line_text base l) + 2)%nat = line_len (length base) l.
Proof.
  unfold line_text, line_len. rewrite !length_app. assert (length (mjoin (cons " "%byte <$> line_args l)) = args_len (line_args l)); [|lia].
  induction (line_args l) as [|a args IH]; [done|]. cbn [fmap list_fmap map mjoin list_join concat args_len].
  rewrite length_app. cbn [length]. fold (mjoin (M := list) (cons " "%byte <$> args)). unfold mjoin, list_join in *. lia.
Qed.

(** Decoding one more mode at the end of a line: the sign last written holds. *)
Lemma decode_snoc modes : forall adding args last c arg adding',
  (forall x more, decode_modes (modes ++ x) adding (args ++ more) = decode_modes modes adding args ++ decode_modes x (default adding last) more) ->
  change_ok (adding', c, arg) ->
  forall x more,
    decode_modes (fst (push_mode modes last adding' c) ++ x) adding ((args ++ arg_list arg) ++ more)
    = (decode_modes modes adding args ++ [(adding', c, arg)]) ++ decode_modes x adding' more.
Proof.
  intros adding args last c arg adding' Hd (Hp & Hm & Hw) x more. unfold push_mode. cbn [fst].
  rewrite <- !app_assoc, Hd. f_equal. apply byte_eqb_neq in Hp, Hm.
  assert (Hone : forall b, b = adding' -> decode_modes ([c] ++ x) b (arg_list arg ++ more) = (adding', c, arg) :: decode_modes x adding' more).
  { intros b ->. cbn [app decode_modes]. rewrite Hp, Hm, Hw. destruct arg as [a|]; by cbn. }
  destruct (bool_decide (last = Some adding')) eqn:El.
  - apply bool_decide_eq_true in El. apply Hone. by rewrite El.
  - cbn [app]. destruct adding'; by apply (Hone _).
Qed.

(** The state of the line being built: it decodes to the changes it holds and
    can be continued. *)
Record line_ok (modes : str) (args : list str) (last : option bool) (done_ : list Change) : Prop := {
  line_decodes : forall x more, decode_modes (modes ++ x) true (args ++ more) = done_ ++ decode_modes x (default true last) more;
}.

Lemma line_push modes args last done_ adding c arg :
  line_ok modes args last done_ -> change_ok (adding, c, arg) ->
  line_ok (fst (push_mode modes last adding c)) (args ++ arg_list arg) (Some adding) (done_ ++ [(adding, c, arg)]).
Proof.
  intros [Hd] Hc. assert (Hdone : decode_modes modes true args = done_).
  { specialize (Hd [] []). rewrite !app_nil_r in Hd. exact Hd. }
  split. intros x more. cbn [default from_option]. rewrite (decode_snoc modes true args last c arg adding); [by rewrite Hdone| |done].
  intros x' more'. by rewrite Hd, Hdone.
Qed.

Lemma line_start : line_ok [] [] None [].
Proof. by split. Qed.

Lemma line_decode modes args last done_ : line_ok modes args last done_ -> decode_line (MkLine modes args) = done_.
Proof. intros [Hd]. specialize (Hd [] []). rewrite !app_nil_r in Hd. exact Hd. Qed.

Lemma push_mode_len modes last adding c :
  length (fst (push_mode modes last adding c))
  = (length modes + (if bool_decide (last = Some adding) then 0 else 1) + 1)%nat.
Proof. unfold push_mode. cbn. rewrite !length_app. case_bool_decide; cbn; lia. Qed.

Lemma push_mode_nonempty modes last adding c : is_empty (fst (push_mode modes last adding c)) = false.
Proof. unfold push_mode. cbn. destruct modes; [|done]. by case_bool_decide. Qed.

Definition decode_lines (lines : list ModeLine) : list Change := mjoin (decode_line <$> lines).

Lemma decode_lines_cons l lines : decode_lines (l :: lines) = decode_line l ++ decode_lines lines.
Proof. done. Qed.

Lemma broadcast_spec base changes : forall modes args last done_,
  Forall change_ok changes ->
  Forall (fun '(_, _, arg) => base + 2 + arg_cost arg + 2 <= 512)%nat changes ->
  line_ok modes args last done_ -> (modes = [] -> args = [] /\ last = None /\ done_ = []) ->
  (modes = [] \/ line_len base (MkLine modes args) <= 512)%nat ->
  let lines := broadcast_loop base changes modes args last in
  decode_lines lines = done_ ++ changes /\ Forall (fun l => line_len base l <= 512)%nat lines.
Proof.
  induction changes as [|[[adding c] arg] changes IH]; intros modes args last done_ Hok Hfit Hline Hempty Hlen.
  { cbn [broadcast_loop]. destruct (is_empty modes) eqn:E.
    - destruct modes; [|done]. destruct (Hempty eq_refl) as (_ & _ & ->). by split.
    - rewrite decode_lines_cons, (line_decode _ _ _ _ Hline). split; [done|]. constructor; [|constructor].
      destruct Hlen as [->|Hlen]; done. }
  apply Forall_cons in Hok as [Hc Hok]. apply Forall_cons in Hfit as [Hf Hfit]. cbn [broadcast_loop].
  destruct (negb (is_empty modes) && _) eqn:E.
  - apply andb_true_iff in E as [Hne _]. pose proof (line_push [] [] None [] adding c arg line_start Hc) as Hnew.
    pose proof (push_mode_len [] None adding c) as Hpl. pose proof (push_mode_nonempty [] None adding c) as Hpn.
    destruct (push_mode [] None adding c) as [modes' sign] eqn:Ep. assert (sign = Some adding) as -> by (by injection Ep).
    cbn [fst app] in *. destruct (IH modes' (arg_list arg) (Some adding) [(adding, c, arg)]) as [H1 H2]; try done.
    + by intros ->.
    + right. unfold line_len. cbn [line_modes line_args]. rewrite Hpl, args_len_list. rewrite bool_decide_false by done. cbn. lia.
    + rewrite decode_lines_cons, (line_decode _ _ _ _ Hline), H1. split; [done|]. constructor; [|done].
      destruct Hlen as [->|Hlen]; [done|exact Hlen].
  - pose proof (line_push modes args last done_ adding c arg Hline Hc) as Hnew.
    pose proof (push_mode_len modes last adding c) as Hpl. pose proof (push_mode_nonempty modes last adding c) as Hpn.
    destruct (push_mode modes last adding c) as [modes' sign] eqn:Ep. assert (sign = Some adding) as -> by (by injection Ep).
    cbn [fst] in *. destruct (IH modes' (args ++ arg_list arg) (Some adding) (done_ ++ [(adding, c, arg)])) as [H1 H2]; try done.
    + by intros ->.
    + right. unfold line_len. cbn [line_modes line_args]. rewrite Hpl, args_len_app, args_len_list.
      apply andb_false_iff in E as [E|E%Nat.ltb_ge]; [|lia].
      apply negb_false_iff in E. destruct modes; [|done]. destruct (Hempty eq_refl) as (-> & -> & _).
      rewrite bool_decide_false by done. cbn. lia.
    + rewrite H1, <- app_assoc. by split.
Qed.
