(* ===== verification/ModeReplay.v ===== *)
(** * Channel MODE: what clients see is what the channel is

    The theorems about [ModeChange]: a client that tracks a channel from the
    announced MODE lines holds the channel's state, the mode lock is respected,
    and the lists, the key and the lines stay within their bounds. *)

From S2P Require Import Prelude Str Keys Casemap Mask Num Wire Message Middle Ip Address BanMask Nicks Channel ChannelState ModeChange.
From stdpp Require Import gmap.

Local Open Scope Z_scope.

Section Replay.
Context {Caps : Type} `{EqDecision Caps} `{IpNet}.
Abbreviation Channel := (Channel (Caps := Caps)).
Abbreviation ModeState := (ModeState (Caps := Caps)).

(** ** A client's view of a channel *)

(** Its modes, its mask lists and its members' ranks. *)
Record View : Type := MkView {
  v_modes : ChanModes;
  v_bans : list MaskKey;
  v_quiets : list MaskKey;
  v_exceptions : list MaskKey;
  v_invites : list MaskKey;
  v_ranks : gmap Z MemberModes;
}.

Definition view (ch : Channel) : View :=
  MkView (chan_modes ch) (masks (bans ch)) (masks (quiets ch)) (masks (ban_exceptions ch)) (masks (invite_exceptions ch))
    (member_modes <$> chan_members ch).

Definition view_list (l : ListMode) (v : View) : list MaskKey :=
  match l with Bans => v_bans v | Quiets => v_quiets v | Exceptions => v_exceptions v | InviteExceptions => v_invites v end.

Definition view_set_list (l : ListMode) (es : list MaskKey) (v : View) : View :=
  MkView (v_modes v) (if decide (l = Bans) then es else v_bans v) (if decide (l = Quiets) then es else v_quiets v)
    (if decide (l = Exceptions) then es else v_exceptions v) (if decide (l = InviteExceptions) then es else v_invites v) (v_ranks v).

Definition view_set_modes (modes : ChanModes) (v : View) : View :=
  MkView modes (v_bans v) (v_quiets v) (v_exceptions v) (v_invites v) (v_ranks v).
Definition view_set_ranks (r : gmap Z MemberModes) (v : View) : View :=
  MkView (v_modes v) (v_bans v) (v_quiets v) (v_exceptions v) (v_invites v) r.

(** A client applies an announced change, finding members by nick. *)
Definition replay (m : CaseMapping) (resolve : str -> option Z) (v : View) (x : Change) : View :=
  let '(adding, c, arg) := x in
  if contains_byte c FLAGS then view_set_modes (default (v_modes v) (set_flag (v_modes v) c adding)) v
  else if c =b? "k" then view_set_modes (with_key (v_modes v) (if adding then arg else None)) v
  else if c =b? "l" then
    view_set_modes (with_limit (v_modes v) (if adding then arg ≫= parse_uint U32_MAX else None)) v
  else
    match list_mode c, arg with
    | Some l, Some mask =>
        let key := MaskKey_new mask m in
        view_set_list l
          (if adding then view_list l v ++ [key] else List.filter (fun k => negb (mask_key_eq k key)) (view_list l v)) v
    | None, Some who =>
        match resolve who with
        | Some conn => view_set_ranks (alter (set_rank c adding) conn (v_ranks v)) v
        | None => v
        end
    | _, None => v
    end.

(** Every change announced was one. *)
Fixpoint all_real (m : CaseMapping) (resolve : str -> option Z) (v : View) (changes : list Change) : Prop :=
  match changes with
  | [] => True
  | x :: changes => replay m resolve v x <> v /\ all_real m resolve (replay m resolve v x) changes
  end.

Lemma all_real_snoc m resolve changes x : forall v,
  all_real m resolve v (changes ++ [x]) <->
  all_real m resolve v changes /\ replay m resolve (fold_left (replay m resolve) changes v) x <> fold_left (replay m resolve) changes v.
Proof. induction changes as [|y changes IH]; intros v; cbn; [tauto|]. rewrite IH. tauto. Qed.

(** ** Members by nick *)

(** No two members' nicks are the same under the casemapping. *)
Definition nicks_distinct (m : CaseMapping) (ch : Channel) : Prop :=
  forall a b mba mbb, chan_members ch !! a = Some mba -> chan_members ch !! b = Some mbb ->
    casefold m (identity_nick (member_identity mba)) = casefold m (identity_nick (member_identity mbb)) -> a = b.

(** Nicks are no longer than a mask may be. *)
Definition nicks_short (ch : Channel) : Prop :=
  forall conn mb, chan_members ch !! conn = Some mb -> (length (identity_nick (member_identity mb)) <= BANMASKLEN)%nat.

Definition resolve (m : CaseMapping) (ch : Channel) (who : str) : option Z := (fun x => fst (fst x)) <$> member_named m who ch.

Lemma member_named_Some m who (ch : Channel) conn r i :
  member_named m who ch = Some (conn, r, i) ->
  exists mb, chan_members ch !! conn = Some mb /\ member_identity mb = i
    /\ casefold m (identity_nick i) = casefold m who.
Proof.
  unfold member_named. destruct (List.find _ _) as [[c mb]|] eqn:E; [|done]. cbn. intros [= <- <- <-].
  apply find_some in E as [Hin%list_elem_of_In%elem_of_map_to_list Hn%bool_decide_eq_true]. by exists mb.
Qed.

Lemma member_named_None m who (ch : Channel) conn mb :
  member_named m who ch = None -> chan_members ch !! conn = Some mb ->
  casefold m (identity_nick (member_identity mb)) <> casefold m who.
Proof.
  unfold member_named. destruct (List.find _ _) as [[c mb']|] eqn:E; [done|]. intros _ Hmb Heq.
  pose proof (find_none _ _ E (conn, mb)) as Hn. rewrite <- list_elem_of_In, elem_of_map_to_list in Hn.
  specialize (Hn Hmb). cbn in Hn. apply bool_decide_eq_false in Hn. done.
Qed.

Lemma resolve_member m (ch : Channel) conn mb :
  nicks_distinct m ch -> chan_members ch !! conn = Some mb -> resolve m ch (identity_nick (member_identity mb)) = Some conn.
Proof.
  intros Hd Hmb. unfold resolve. destruct (member_named m _ ch) as [[[c r] i]|] eqn:E; cbn.
  - apply member_named_Some in E as (mb' & Hc & <- & Hn). f_equal. by eapply Hd.
  - exfalso. by eapply member_named_None.
Qed.

(** ** The loop's invariant *)

Section Loop.
Context (cx : ModeContext) (ch0 : Channel) (Hdist : nicks_distinct (cx_casemap cx) ch0) (Hshort : nicks_short ch0).
Abbreviation m := (cx_casemap cx).
Abbreviation replay0 := (replay m (resolve m ch0)).

(** The members are those the command found, up to their ranks. *)
Definition same_members (ch : Channel) : Prop :=
  forall conn, member_identity <$> chan_members ch !! conn = member_identity <$> chan_members ch0 !! conn.

Definition combined_bound (ch : Channel) : Prop := (combined ch <= Nat.max MAXLIST (combined ch0))%nat.

(** A flag the lock holds as it asks stays so. *)
Definition lock_kept (ch : Channel) : Prop :=
  forall c v, mlock_conflict (cx_lock cx) c (negb v) = true ->
    flag (chan_modes ch0) c = Some v -> flag (chan_modes ch) c = Some v.

(** How many announced changes carried a parameter. *)
Definition with_parameter (changes : list Change) : nat :=
  length (List.filter (fun '(_, _, arg) => bool_decide (is_Some arg)) changes).

(** A change the decoder reads back, short enough to announce. *)
Definition announced (x : Change) : Prop := change_ok x /\ (arg_cost (snd x) <= 1 + BANMASKLEN)%nat.

Record loop_ok (s : ModeState) : Prop := {
  loop_view : view (ms_chan s) = fold_left replay0 (ms_changes s) (view ch0);
  loop_real : all_real m (resolve m ch0) (view ch0) (ms_changes s);
  loop_members : same_members (ms_chan s);
  loop_combined : combined_bound (ms_chan s);
  loop_lock : lock_kept (ms_chan s);
  loop_changes : Forall announced (ms_changes s);
}.

Lemma loop_keep s s' :
  loop_ok s -> ms_chan s' = ms_chan s -> ms_changes s' = ms_changes s -> loop_ok s'.
Proof. intros [H1 H2 H3 H4 H5 H6] Ec Ex. split; by rewrite ?Ec, ?Ex. Qed.

(** A change is kept in step with the view it announces. *)
Lemma loop_change s ch x :
  loop_ok s -> view ch = replay0 (view (ms_chan s)) x -> view ch <> view (ms_chan s) ->
  same_members ch -> combined_bound ch -> lock_kept ch -> announced x -> loop_ok (change ch x s).
Proof.
  intros [H1 H2 H3 H4 H5 H6] Hv Hne Hm Hc Hl Hx. split; cbn [change ms_chan ms_changes]; try done.
  - by rewrite fold_left_app, <- H1.
  - apply all_real_snoc. split; [done|]. rewrite <- H1, <- Hv. done.
  - apply Forall_app. split; [done|]. by constructor.
Qed.

Lemma lock_kept_flags (ch ch' : Channel) :
  (forall c, flag (chan_modes ch') c = flag (chan_modes ch) c) -> lock_kept ch -> lock_kept ch'.
Proof. intros Hf Hl c v Hc H0. rewrite Hf. by apply Hl. Qed.

Lemma flag_with_key modes k c : flag (with_key modes k) c = flag modes c.
Proof. destruct modes. by destruct c. Qed.
Lemma with_key_same modes k : with_key modes k = modes -> chan_key modes = k.
Proof. destruct modes. by intros [= ->]. Qed.
Lemma with_limit_same modes l : with_limit modes l = modes -> chan_limit modes = l.
Proof. destruct modes. by intros [= ->]. Qed.
Lemma flag_with_limit modes l c : flag (with_limit modes l) c = flag modes c.
Proof. destruct modes. by destruct c. Qed.

(** Writing only the modes keeps the members and lists, whether or not the
    pending invites go too. *)
Lemma loop_modes s (b : bool) modes x :
  let ch := with_modes (fun _ => modes) (ms_chan s) in
  loop_ok s -> view_set_modes modes (view (ms_chan s)) = replay0 (view (ms_chan s)) x -> modes <> chan_modes (ms_chan s) ->
  lock_kept ch -> announced x -> loop_ok (change (if b then clear_invited ch else ch) x s).
Proof.
  intros ch Hs Hr Hne Hl Hx.
  assert (Hb : forall ch', chan_modes ch' = modes -> view ch' = view ch -> chan_members ch' = chan_members (ms_chan s) ->
    combined ch' = combined (ms_chan s) -> loop_ok (change ch' x s)).
  { intros ch' Hm Hv Hmem Hc. apply loop_change; try done.
    - by rewrite Hv, <- Hr.
    - rewrite Hv. intros E. apply Hne. by apply (f_equal v_modes) in E.
    - intros conn. rewrite Hmem. apply (loop_members s Hs).
    - unfold combined_bound. rewrite Hc. apply (loop_combined s Hs).
    - intros c v Hc' H0. rewrite Hm. by apply Hl. }
  destruct b; by apply Hb.
Qed.

Lemma flag_change_ok adding c : contains_byte c FLAGS = true -> announced (adding, c, None).
Proof. intros Hc. split; [|cbn; lia]. revert Hc. destruct c; vm_compute; intros; split_and!; done || by destruct adding. Qed.

Lemma truncated_announced adding c k n :
  change_ok (adding, c, Some k) -> (n <= BANMASKLEN)%nat -> announced (adding, c, Some (truncate_chars k n)).
Proof. intros Hc Hn. split; [exact Hc|]. cbn. pose proof (truncate_le k n). unfold truncate_chars. lia. Qed.

Lemma limit_announced n : 0 <= n <= U32_MAX -> announced (true, "l"%byte, Some (dec n)).
Proof.
  intros Hn. split; [by split_and!|]. cbn [snd arg_cost]. assert (length (dec n) <= 10)%nat; [|unfold BANMASKLEN, OWN_MAX; lia].
  apply dec_length; [unfold U32_MAX in *; lia|lia].
Qed.

Lemma flag_mode_ok c s : contains_byte c FLAGS = true -> loop_ok s -> loop_ok (flag_mode cx c s).
Proof.
  intros Hc Hs. unfold flag_mode. destruct (mlock_conflict _ c _) eqn:Ec; [by apply (loop_keep s)|].
  destruct (flag _ c) as [now|] eqn:Ef; [|done]. destruct (set_flag _ c _) as [modes|] eqn:Es; [|done].
  destruct (Bool.eqb now (ms_adding s)) eqn:Eb; [done|]. apply eqb_false_iff in Eb.
  pose proof (set_flag_flag _ _ _ _ c Es) as Hf. rewrite byte_eqb_refl in Hf.
  apply (loop_modes s _ modes); try done.
  - cbn [replay]. rewrite Hc. cbn [view v_modes]. by rewrite Es.
  - intros ->. congruence.
  - intros d v Hd H0. cbn [with_modes chan_modes]. rewrite (set_flag_flag _ _ _ _ d Es). destruct (byte_eqb_spec d c) as [->|].
    + destruct (ms_adding s), v; try done; cbn [negb] in Hd; congruence.
    + by apply (loop_lock s Hs).
  - apply flag_change_ok, Hc.
Qed.

Lemma key_mode_ok s : loop_ok s -> loop_ok (key_mode s).
Proof.
  intros Hs. unfold key_mode. destruct (ms_adding s) eqn:Ea.
  - destruct (ms_args s) as [|k args]; [by apply (loop_keep s)|]. destruct (negb _); [by apply (loop_keep s)|].
    case_bool_decide as Ek; [by apply (loop_keep s)|].
    apply (loop_modes (set_args args s) false (with_key (chan_modes (ms_chan s)) (Some (truncate_chars k KEYLEN)))); try done.
    + by apply (loop_keep s).
    + intros E. by apply Ek, with_key_same.
    + apply (lock_kept_flags (ms_chan s)); [intros d; apply flag_with_key|apply (loop_lock s Hs)].
    + apply truncated_announced; [by split_and!|unfold KEYLEN, BANMASKLEN, OWN_MAX; lia].
  - destruct (chan_key _) as [k|] eqn:Ek; [|by apply (loop_keep s)].
    apply (loop_modes (set_args (tail (ms_args s)) s) false (with_key (chan_modes (ms_chan s)) None)); try done.
    + by apply (loop_keep s).
    + intros E%with_key_same. cbn [ms_chan set_args] in E. by rewrite E in Ek.
    + apply (lock_kept_flags (ms_chan s)); [intros d; apply flag_with_key|apply (loop_lock s Hs)].
    + split; [by split_and!|by apply Nat.leb_le].
Qed.

Lemma parse_uint_dec max n : 0 <= n <= max -> parse_uint max (dec n) = Some n.
Proof.
  intros Hn. destruct (dec_digits n ltac:(lia)) as [Hne Hd]. rewrite parse_uint_digits; rewrite ?dec_value_dec by lia; done || lia.
Qed.

Lemma limit_mode_ok s : loop_ok s -> loop_ok (limit_mode s).
Proof.
  intros Hs. unfold limit_mode. destruct (ms_adding s) eqn:Ea.
  - destruct (ms_args s) as [|l args]; [by apply (loop_keep s)|]. destruct (parse_uint U32_MAX l) as [n|] eqn:Ep; [|by apply (loop_keep s)].
    destruct (Z.ltb_spec 0 n); [|by apply (loop_keep s)]. case_bool_decide as Ek; [by apply (loop_keep s)|].
    apply (loop_modes (set_args args s) false (with_limit (chan_modes (ms_chan s)) (Some n))); try done.
    + by apply (loop_keep s).
    + apply parse_uint_bound in Ep. cbn [replay]. cbn [option_bind mbind]. by rewrite parse_uint_dec.
    + intros E. by apply Ek, with_limit_same.
    + apply (lock_kept_flags (ms_chan s)); [intros d; apply flag_with_limit|apply (loop_lock s Hs)].
    + by apply limit_announced, (parse_uint_bound _ l).
  - destruct (chan_limit _) as [k|] eqn:Ek; [|done].
    rewrite <- if_negb. apply (loop_modes s (negb _) (with_limit (chan_modes (ms_chan s)) None)); try done.
    + intros E%with_limit_same. cbn [ms_chan set_args] in E. by rewrite E in Ek.
    + apply (lock_kept_flags (ms_chan s)); [intros d; apply flag_with_limit|apply (loop_lock s Hs)].
    + split; [by split_and!|by apply Nat.leb_le].
Qed.
(** ** Mask lists *)

Lemma channel_list_mask_key raw adding k :
  channel_list_mask raw adding m = Ok k -> MaskKey_new (display k) m = k /\ (length (display k) <= BANMASKLEN)%nat.
Proof.
  intros Hk. assert (k = MaskKey_new (truncate_chars (normalize_ban_mask raw) BANMASKLEN) m) as ->.
  { revert Hk. unfold channel_list_mask. destruct adding; [|by intros [= <-]]. repeat (case_match; try done); by intros [= <-]. }
  split; [done|]. apply truncate_le.
Qed.

Lemma view_set_list_eq l es (ch : Channel) : view (set_list l es ch) = view_set_list l (masks es) (view ch).
Proof. by destruct l. Qed.

Lemma view_get_list l (ch : Channel) : view_list l (view ch) = masks (get_list l ch).
Proof. by destruct l. Qed.

Lemma combined_set_list l es (ch : Channel) :
  (combined (set_list l es ch) + length (get_list l ch) = combined ch + length es)%nat.
Proof. destruct l; unfold combined; cbn [set_list bans quiets ban_exceptions invite_exceptions get_list]; repeat (case_decide; try done); lia. Qed.

Lemma masks_filter f es : masks (List.filter (fun e => f (entry_mask e)) es) = List.filter f (masks es).
Proof. unfold masks. induction es as [|e es IH]; [done|]. cbn. destruct (f (entry_mask e)); cbn; by rewrite IH. Qed.

Lemma list_mode_change c l arg adding : list_mode c = Some l -> (length arg <= BANMASKLEN)%nat -> announced (adding, c, Some arg).
Proof. intros Hl Ha. split; [|cbn; lia]. revert Hl. destruct c; try done; intros _; cbn; split_and!; done. Qed.

Lemma replay_list c l adding mask v :
  list_mode c = Some l ->
  replay0 v (adding, c, Some mask)
  = view_set_list l (if adding then view_list l v ++ [MaskKey_new mask m]
      else List.filter (fun k => negb (mask_key_eq k (MaskKey_new mask m))) (view_list l v)) v.
Proof. destruct c; try done; intros [= <-]; reflexivity. Qed.

(** Writing one mask list keeps the modes and members. *)
Lemma loop_list s c l es k :
  loop_ok s -> list_mode c = Some l -> MaskKey_new (display k) m = k -> (length (display k) <= BANMASKLEN)%nat ->
  masks es = (if ms_adding s then masks (get_list l (ms_chan s)) ++ [k]
    else List.filter (fun k' => negb (mask_key_eq k' k)) (masks (get_list l (ms_chan s)))) ->
  length es <> length (get_list l (ms_chan s)) ->
  (length es <= length (get_list l (ms_chan s)) \/ combined (ms_chan s) < MAXLIST /\ length es <= S (length (get_list l (ms_chan s))))%nat ->
  loop_ok (change (set_list l es (ms_chan s)) (ms_adding s, c, Some (display k)) s).
Proof.
  intros Hs Hl Hk Hd Hes Hne Hlen. pose proof (combined_set_list l es (ms_chan s)) as Hcomb.
  apply loop_change; try done.
  - by rewrite (replay_list c l), view_set_list_eq, Hk, view_get_list, Hes.
  - intros E%(f_equal (view_list l)). rewrite !view_get_list in E. apply (f_equal length) in E.
    unfold masks in E. rewrite !length_map in E. apply Hne. revert E. by destruct l.
  - intros conn. apply (loop_members s Hs).
  - pose proof (loop_combined s Hs) as Hb. unfold combined_bound in *. lia.
  - intros d v. apply (loop_lock s Hs).
  - by apply (list_mode_change c l).
Qed.

Lemma mask_mode_ok c l s : list_mode c = Some l -> loop_ok s -> loop_ok (mask_mode cx c l s).
Proof.
  intros Hl Hs. unfold mask_mode. destruct (ms_args s) as [|raw args].
  { destruct (contains_byte _ _); [done|]. by apply (loop_keep s). }
  destruct (channel_list_mask _ _ _) as [k|why] eqn:Ek; [|by apply (loop_keep s)].
  apply channel_list_mask_key in Ek as [Ek Ed]. set (s1 := set_args args s). assert (loop_ok s1) as Hs1 by by apply (loop_keep s).
  destruct (ms_adding s1) eqn:Ea; cbn [andb].
  - destruct (negb _); cbn [andb]; [|done]. destruct (Nat.leb_spec MAXLIST (combined (ms_chan s1))); [by apply (loop_keep s)|].
    rewrite <- Ea. apply loop_list; try done.
    + rewrite Ea. unfold masks. by rewrite map_app.
    + rewrite length_app. cbn. lia.
    + right. split; [done|]. rewrite length_app. cbn. lia.
  - destruct (Nat.eqb_spec (length (List.filter (fun entry => negb (mask_key_eq (entry_mask entry) k)) (get_list l (ms_chan s1))))
      (length (get_list l (ms_chan s1)))) as [|Hne]; [done|].
    rewrite <- Ea. apply loop_list; try done.
    + rewrite Ea. apply (masks_filter (fun k' => negb (mask_key_eq k' k))).
    + left. apply filter_length_le.
Qed.
(** ** Ranks *)

Lemma view_member_mut conn f (ch : Channel) :
  view (member_mut conn f ch) = view_set_ranks (alter f conn (v_ranks (view ch))) (view ch).
Proof.
  unfold member_mut. destruct (chan_members ch !! conn) as [mb|] eqn:E; unfold view, view_set_ranks; cbn; f_equal.
  - rewrite fmap_insert. cbn. apply map_eq. intros k. destruct (decide (conn = k)) as [<-|Hne].
    + rewrite lookup_insert_eq, lookup_alter_eq, lookup_fmap, E. done.
    + by rewrite lookup_insert_ne, lookup_alter_ne.
  - apply map_eq. intros k. destruct (decide (conn = k)) as [<-|Hne].
    + rewrite lookup_alter_eq, lookup_fmap, E. done.
    + by rewrite lookup_alter_ne.
Qed.

Lemma member_mut_identity conn f (ch : Channel) k :
  member_identity <$> chan_members (member_mut conn f ch) !! k = member_identity <$> chan_members ch !! k.
Proof.
  unfold member_mut. destruct (chan_members ch !! conn) as [mb|] eqn:E; [|done]. cbn [with_members chan_members].
  destruct (decide (conn = k)) as [<-|Hne]; [by rewrite lookup_insert_eq, E|by rewrite lookup_insert_ne].
Qed.

Lemma member_mut_same conn f (ch : Channel) :
  chan_modes (member_mut conn f ch) = chan_modes ch /\ combined (member_mut conn f ch) = combined ch.
Proof. unfold member_mut. by destruct (chan_members ch !! conn). Qed.

Lemma replay_rank c adding who v conn :
  (c =b? "o") || (c =b? "v") = true -> resolve m ch0 who = Some conn ->
  replay0 v (adding, c, Some who) = view_set_ranks (alter (set_rank c adding) conn (v_ranks v)) v.
Proof.
  intros Hc Hr. apply orb_true_iff in Hc as [Hc|Hc]; apply byte_eqb_eq in Hc as ->; unfold replay; cbn [list_mode]; by rewrite Hr.
Qed.

Lemma set_rank_other c adding modes :
  Bool.eqb (rank_of c modes) adding = false -> set_rank c adding modes <> modes.
Proof.
  intros E%eqb_false_iff. unfold rank_of, set_rank in *. destruct modes as [o v].
  destruct (c =b? "o"); cbn in *; congruence.
Qed.

Lemma rank_announced adding c who :
  (c =b? "o") || (c =b? "v") = true -> (length who <= BANMASKLEN)%nat -> announced (adding, c, Some who).
Proof.
  intros Hc Hw. split; [|cbn; lia]. apply orb_true_iff in Hc as [Hc|Hc]; apply byte_eqb_eq in Hc as ->; by split_and!.
Qed.

Lemma rank_mode_ok c s : (c =b? "o") || (c =b? "v") = true -> loop_ok s -> loop_ok (rank_mode cx c s).
Proof.
  intros Hc Hs. unfold rank_mode. destruct (ms_args s) as [|who args]; [by apply (loop_keep s)|].
  set (s1 := set_args args s). assert (loop_ok s1) as Hs1 by by apply (loop_keep s).
  destruct (member_named m who (ms_chan s1)) as [[[conn r] i]|] eqn:En; [|by apply (loop_keep s)].
  apply member_named_Some in En as (mb & Hmb & Hi & Hn). unfold member. rewrite Hmb. cbn [fmap option_fmap option_map].
  destruct (Bool.eqb _ _) eqn:Eb; [done|]. apply set_rank_other in Eb.
  pose proof (loop_members s1 Hs1 conn) as H0. rewrite Hmb in H0. cbn in H0.
  destruct (chan_members ch0 !! conn) as [mb0|] eqn:E0; [|done]. injection H0 as H0.
  assert (resolve m ch0 (identity_nick i) = Some conn) as Hr by (rewrite <- Hi, H0; by apply resolve_member).
  destruct (member_mut_same conn (set_rank c (ms_adding s1)) (ms_chan s1)) as [Em Ec]. apply loop_change; try done.
  - by rewrite (replay_rank c _ _ _ conn), view_member_mut.
  - rewrite view_member_mut. intros E%(f_equal v_ranks)%(f_equal (lookup conn)). cbn [view_set_ranks v_ranks view] in E.
    rewrite lookup_alter_eq, !lookup_fmap, Hmb in E. by injection E.
  - intros k. rewrite member_mut_identity. apply (loop_members s1 Hs1).
  - unfold combined_bound. rewrite Ec. apply (loop_combined s1 Hs1).
  - intros d v Hd Hv. rewrite Em. by apply (loop_lock s1 Hs1).
  - apply rank_announced; [done|]. by rewrite <- Hi, H0; eapply Hshort.
Qed.

(** ** Parameters *)

Lemma with_parameter_app a b : with_parameter (a ++ b) = (with_parameter a + with_parameter b)%nat.
Proof. unfold with_parameter. by rewrite List.filter_app, length_app. Qed.

(** At most one change, with a parameter only when [p]. *)
Definition one_change (p : bool) (s s' : ModeState) : Prop :=
  ms_parameters s' = ms_parameters s
  /\ (ms_changes s' = ms_changes s
      \/ exists x, ms_changes s' = ms_changes s ++ [x] /\ (p = true \/ snd x = None)).

Lemma one_change_none p s s' : ms_parameters s' = ms_parameters s -> ms_changes s' = ms_changes s -> one_change p s s'.
Proof. intros Hp Hc. split; [done|by left]. Qed.

Lemma one_change_some (p : bool) s s' ch x :
  ms_parameters s' = ms_parameters s -> ms_changes s' = ms_changes s -> p = true \/ snd x = None -> one_change p s (change ch x s').
Proof. intros Hp Hc Hx. split; [done|]. right. exists x. cbn. by rewrite Hc. Qed.

Ltac one_change :=
  repeat case_match; first [by apply one_change_none | by apply one_change_some; [ | | left] | by apply one_change_some; [ | | right]].

Lemma flag_mode_one p c s : one_change p s (flag_mode cx c s).
Proof. unfold flag_mode. one_change. Qed.
Lemma key_mode_one s : one_change true s (key_mode s).
Proof. unfold key_mode. one_change. Qed.
Lemma limit_mode_one s : one_change (ms_adding s) s (limit_mode s).
Proof. unfold limit_mode. one_change. Qed.
Lemma mask_mode_one c l s : one_change (negb (bool_decide (ms_args s = []))) s (mask_mode cx c l s).
Proof. unfold mask_mode. destruct (ms_args s); one_change. Qed.
Lemma rank_mode_one c s : one_change true s (rank_mode cx c s).
Proof. unfold rank_mode. one_change. Qed.

(** Only a mode that takes a parameter announces one. *)
Lemma mode_byte_one c (s : ModeState) : one_change (takes_parameter c s) s (mode_byte cx c s).
Proof.
  unfold mode_byte. destruct (byte_eqb_spec c "+") as [->|]; [by apply one_change_none|].
  destruct (byte_eqb_spec c "-") as [->|]; [by apply one_change_none|].
  destruct (contains_byte c FLAGS); [apply flag_mode_one|].
  destruct (byte_eqb_spec c "k") as [->|]; [apply key_mode_one|]. destruct (byte_eqb_spec c "l") as [->|]; [apply limit_mode_one|].
  destruct (list_mode c) as [l|] eqn:El.
  { replace (takes_parameter c s) with (negb (bool_decide (ms_args s = []))) by (by destruct c). apply mask_mode_one. }
  destruct (byte_eqb_spec c "o") as [->|]; [apply rank_mode_one|]. destruct (byte_eqb_spec c "v") as [->|]; [apply rank_mode_one|].
  cbn [orb]. destruct (ms_unknown s); by apply one_change_none.
Qed.

Definition parameters_ok (s : ModeState) : Prop := (with_parameter (ms_changes s) <= Nat.min MODES (ms_parameters s))%nat.

Lemma one_change_ok (p : bool) s s' :
  one_change p s s' -> (with_parameter (ms_changes s) + (if p then 1 else 0) <= Nat.min MODES (ms_parameters s))%nat -> parameters_ok s'.
Proof.
  intros [Hp [Hc|(x & Hc & Hx)]] Hs; unfold parameters_ok; rewrite Hp, Hc; [lia|]. rewrite with_parameter_app.
  destruct x as [[b c] [a|]]; cbn in *; [|lia]. destruct Hx as [->|]; [lia|done].
Qed.

Lemma mode_char_parameters s x : parameters_ok s -> parameters_ok (mode_char cx s x).
Proof.
  intros Hs. assert (Hu : parameters_ok (if ms_unknown s then s else push_reply (UnknownMode x) (note_unknown s))) by by destruct (ms_unknown s).
  destruct x as [|c [|]]; [done| |done]. cbn [mode_char]. destruct (takes_parameter c s) eqn:Et.
  - destruct (Nat.ltb_spec MODES (ms_parameters (count_parameter s))) as [|Hle].
    + unfold note_over, parameters_ok in *. destruct (push_mode _ _ _ _). cbn [ms_changes ms_parameters count_parameter] in *. lia.
    + apply (one_change_ok _ _ _ (mode_byte_one c (count_parameter s))). unfold parameters_ok in Hs.
      cbn [ms_changes ms_parameters count_parameter] in *. destruct (takes_parameter _ _); lia.
  - apply (one_change_ok _ _ _ (mode_byte_one c s)). rewrite Et. unfold parameters_ok in Hs. lia.
Qed.

Lemma mode_loop_parameters modes args : parameters_ok (mode_loop cx modes args ch0).
Proof.
  unfold mode_loop. assert (parameters_ok (mode_start ch0 args)) as Hs by apply Nat.le_0_l.
  revert Hs. generalize (mode_start ch0 args). induction (chars modes) as [|x xs IH]; intros s Hs; [done|]. by apply IH, mode_char_parameters.
Qed.

(** ** The whole loop *)

Lemma mode_byte_ok c s : loop_ok s -> loop_ok (mode_byte cx c s).
Proof.
  intros Hs. unfold mode_byte. destruct (c =b? "+"); [by apply (loop_keep s)|]. destruct (c =b? "-"); [by apply (loop_keep s)|].
  destruct (contains_byte c FLAGS) eqn:Ef; [by apply flag_mode_ok|]. destruct (c =b? "k"); [by apply key_mode_ok|].
  destruct (c =b? "l"); [by apply limit_mode_ok|]. destruct (list_mode c) as [l|] eqn:El; [by apply mask_mode_ok|].
  destruct (_ || _) eqn:Er; [by apply rank_mode_ok|]. destruct (ms_unknown s); [done|by apply (loop_keep s)].
Qed.

Lemma mode_char_ok x s : loop_ok s -> loop_ok (mode_char cx s x).
Proof.
  intros Hs. assert (Hu : loop_ok (if ms_unknown s then s else push_reply (UnknownMode x) (note_unknown s))).
  { destruct (ms_unknown s); [done|by apply (loop_keep s)]. }
  destruct x as [|c [|]]; [done| |done]. cbn [mode_char]. destruct (takes_parameter c s); [|by apply mode_byte_ok].
  assert (loop_ok (count_parameter s)) as Hc by by apply (loop_keep s).
  destruct (Nat.ltb _ _); [|by apply mode_byte_ok]. unfold note_over. destruct (push_mode _ _ _ _). by apply (loop_keep s).
Qed.

Lemma mode_loop_ok modes args : loop_ok (mode_loop cx modes args ch0).
Proof.
  unfold mode_loop. assert (loop_ok (mode_start ch0 args)) as Hs by (split; [done|done|done|apply Nat.le_max_r|intros c v _ Hf; exact Hf|constructor]).
  revert Hs. generalize (mode_start ch0 args). induction (chars modes) as [|x xs IH]; intros s Hs; [done|]. by apply IH, mode_char_ok.
Qed.
End Loop.

(** ** The command *)

Definition is_operator (conn : Z) (ch : Channel) : bool := match member conn ch with Some modes => op modes | None => false end.

(** The command leaves the channel alone, or an operator who can see it ran
    the loop. *)
Lemma channel_mode_cases cx conn rest ch ch' replies changes :
  channel_mode_by cx conn rest (Some ch) = (Some ch', replies, changes) ->
  (ch' = ch /\ changes = [])
  \/ (is_operator conn ch = true /\ hidden_from conn ch = false
      /\ exists modes args, let s := mode_loop cx modes args ch in ch' = ms_chan s /\ changes = ms_changes s).
Proof.
  unfold channel_mode_by. fold (is_operator conn ch). destruct (hidden_from conn ch); [intros [= <- <- <-]; by left|].
  destruct rest as [|modes args]; [intros [= <- <- <-]; by left|].
  destruct (list_query _ _ _); [intros [= <- <- <-]; by left|].
  destruct (is_operator conn ch); [|intros [= <- <- <-]; by left]. cbn [negb]. intros E. right. split_and!; [done..|].
  exists modes, args. cbv zeta in *. split; congruence.
Qed.

Lemma announced_fits base changes :
  (base + 5 + BANMASKLEN <= 512)%nat -> Forall announced changes ->
  Forall change_ok changes /\ Forall (fun '(_, _, arg) => base + 2 + arg_cost arg + 2 <= 512)%nat changes.
Proof.
  intros Hb Hc. split; (eapply Forall_impl; [exact Hc|]); [by intros x []|].
  intros [[b c] arg] [_ Ha]. cbn [snd] in Ha. lia.
Qed.

(** C1. A client that decodes the MODE lines announced for a command by the
    advertised [CHANMODES] and [PREFIX] classes, and applies them to the
    channel as it was (modes, mask lists, members' ranks), holds exactly the
    channel's new state; every change announced changed something; and every
    line fits in 512 bytes.  The members' nicks are distinct and a line's fixed
    part leaves room for the longest parameter. *)
Theorem mode_announcements_exact cx conn rest ch ch' replies changes (base : str) :
  let m := cx_casemap cx in
  nicks_distinct m ch -> nicks_short ch -> (length base + 5 + BANMASKLEN <= 512)%nat ->
  channel_mode_by cx conn rest (Some ch) = (Some ch', replies, changes) ->
  let lines := broadcast_mode_changes (length base) changes in
  view ch' = fold_left (replay m (resolve m ch)) (decode_lines lines) (view ch)
  /\ all_real m (resolve m ch) (view ch) (decode_lines lines)
  /\ Forall (fun l => length (line_text base l) + 2 <= 512)%nat lines.
Proof.
  intros m Hd Hn Hb E lines. destruct (channel_mode_cases _ _ _ _ _ _ _ E) as [[-> Hc]|(_ & _ & modes & args & -> & Hc)].
  { unfold lines. rewrite Hc. cbn. by split_and!. }
  pose proof (mode_loop_ok cx ch Hd Hn modes args) as Hok.
  destruct (announced_fits (length base) changes Hb) as [H1 H2]; [rewrite Hc; apply (loop_changes _ _ _ Hok)|].
  destruct (broadcast_spec (length base) changes [] [] None []) as [Hdec Hlen]; [exact H1|exact H2|apply line_start|done|by left|].
  fold (broadcast_mode_changes (length base) changes) in Hdec, Hlen. fold lines in Hdec, Hlen. rewrite Hdec, Hc. cbn [app].
  split_and!; [apply (loop_view _ _ _ Hok)|apply (loop_real _ _ _ Hok)|].
  eapply Forall_impl; [exact Hlen|]. intros l Hl. cbn beta in Hl. by rewrite line_text_len.
Qed.

(** C24. A MODE command changes a channel only for an operator to whom it is
    not hidden; it keeps every flag that the mode lock asks for and that was
    so, never takes the four mask lists together past the advertised limit
    unless they were past it before, applies at most [MODES] changes with a
    parameter, and adds or removes no member. *)
Theorem mode_command_bounded cx conn rest ch ch' replies changes :
  nicks_distinct (cx_casemap cx) ch -> nicks_short ch ->
  channel_mode_by cx conn rest (Some ch) = (Some ch', replies, changes) ->
  (is_operator conn ch = false \/ hidden_from conn ch = true -> ch' = ch /\ changes = [])
  /\ (forall c v, mlock_conflict (cx_lock cx) c (negb v) = true ->
       flag (chan_modes ch) c = Some v -> flag (chan_modes ch') c = Some v)
  /\ (combined ch' <= Nat.max MAXLIST (combined ch))%nat
  /\ (with_parameter changes <= MODES)%nat
  /\ (forall k, member_identity <$> chan_members ch' !! k = member_identity <$> chan_members ch !! k).
Proof.
  intros Hd Hn E. destruct (channel_mode_cases _ _ _ _ _ _ _ E) as [[-> ->]|(Ho & Hh & modes & args & -> & ->)].
  { split_and!; [done|done|apply Nat.le_max_r|apply Nat.le_0_l|done]. }
  pose proof (mode_loop_ok cx ch Hd Hn modes args) as Hok. pose proof (mode_loop_parameters cx ch modes args) as Hp.
  split_and!.
  - by rewrite Ho, Hh; intros [|].
  - apply (loop_lock _ _ _ Hok).
  - apply (loop_combined _ _ _ Hok).
  - unfold parameters_ok in Hp. lia.
  - apply (loop_members _ _ _ Hok).
Qed.
End Replay.

(** ** Witnesses *)

#[local] Existing Instance PlainIpNet.

Definition sample_chan : Channel (Caps := ()) :=
  add_member_with_profile (MkRecipient (MkOwner 1 0) ()) (MkProfile (bs "u") (bs "h") None (bs "r") None false false false 0)
    (MkIdentity (bs "bob") (bs "bob!u@h") false) (MkModes true false)
    (Channel_new (bs "#Rust") None (MkChanModes false false false false true false false None None) 5).

Definition sample_context : ModeContext := MkContext Rfc1459 None (fun _ => false) (bs "bob!u@h") 7.

Lemma sample_members conn mb :
  chan_members sample_chan !! conn = Some mb -> conn = 1 /\ identity_nick (member_identity mb) = bs "bob".
Proof.
  unfold sample_chan, add_member_with_profile, with_members. cbn [chan_members].
  intros [[<- <-]|[_ E]]%lookup_insert_Some; [done|]. unfold Channel_new in E. cbn [chan_members] in E. by rewrite lookup_empty in E.
Qed.

Lemma sample_distinct : nicks_distinct Rfc1459 sample_chan.
Proof. intros a b mba mbb [-> _]%sample_members [-> _]%sample_members _. done. Qed.
Lemma sample_short : nicks_short sample_chan.
Proof. intros a mb [_ ->]%sample_members. by apply Nat.leb_le. Qed.

Definition sample_rest : list str := [bs "+ib-o"; bs "*!*@spam.example"; bs "BOB"].

Abbreviation sample_run := (channel_mode_by sample_context 1 sample_rest (Some sample_chan)).

Lemma sample_run_changes : match sample_run with (Some _, _, changes) => length changes | _ => 0%nat end = 3%nat.
Proof. vm_compute. reflexivity. Qed.

Lemma mode_announcements_exact_witness :
  match sample_run with
  | (Some ch', replies, changes) =>
      length changes = 3%nat
      /\ view ch' = fold_left (replay Rfc1459 (resolve Rfc1459 sample_chan))
           (decode_lines (broadcast_mode_changes (length (bs ":bob!u@h MODE #Rust ")) changes)) (view sample_chan)
  | _ => False
  end.
Proof.
  pose proof sample_run_changes as Hl. destruct sample_run as [[[ch'|] replies] changes] eqn:E; [|done]. split; [exact Hl|].
  apply (mode_announcements_exact sample_context 1 sample_rest sample_chan ch' replies changes (bs ":bob!u@h MODE #Rust ")).
  - exact sample_distinct.
  - exact sample_short.
  - by apply Nat.leb_le.
  - exact E.
Defined.

Lemma mode_command_bounded_witness :
  match sample_run with
  | (Some ch', replies, changes) => length changes = 3%nat /\ (with_parameter changes <= MODES)%nat
  | _ => False
  end.
Proof.
  pose proof sample_run_changes as Hl. destruct sample_run as [[[ch'|] replies] changes] eqn:E; [|done]. split; [exact Hl|].
  apply (mode_command_bounded sample_context 1 sample_rest sample_chan ch' replies changes).
  - exact sample_distinct.
  - exact sample_short.
  - exact E.
Defined.
