(* ===== verification/ChannelOps.v ===== *)
(** * A channel's commands where it is owned ([e6ircd/src/core/handler/channel.rs]
      and [chanops.rs], the [_on_owner] functions; [remove_vanished_member] and
      [quit_channel_member] of [state.rs])

    JOIN, PART, KICK, INVITE, KNOCK and TOPIC as the shard that owns the
    channel runs them, with the lines they send to the members.  Each takes the
    shard's channels and history ([Publish]) and the registries of registered
    channels ([Registry]) and returns its typed result, the state after it and
    what was sent, in order.  The wall and monotonic clocks are read once per
    command.  A broadcast reads [recipients]; that it also fills the cache is
    left out, since no operation can tell ([recipients_coherent]). *)

From S2P Require Import Prelude Str Keys Casemap Mask Num Time Wire Message Middle Ip Address BanMask Nicks Channel Recency HistoryRing HotHistory ChannelState Directories Publish Registry Events ModeChange.
From stdpp Require Import gmap.

Local Open Scope Z_scope.

Definition INVITE_LIMIT : nat := 100.
Definition TOPICLEN : nat := Z.to_nat 390.
Definition KICKLEN : nat := Z.to_nat 390.
Definition KNOCK_DELAY_CHANNEL_MS : Z := 60 * 1000.

Definition fit_trailing (head text : str) : str := truncate_on_char_boundary text (510 - length head).
Definition fitted_line (head text : str) : str := head ++ fit_trailing head text.

Definition knock_throttled (last : option Z) (now delay_ms : Z) : bool :=
  match last with Some last => saturating_sub now last <? delay_ms | None => false end.

Section ChannelOps.
Context `{IpNet}.
Abbreviation Channel := (Channel (Caps := Caps)).
Abbreviation ShardState := (ShardState (Caps := Caps)).
Abbreviation Recipient := (Recipient (Caps := Caps)).

(** ** Who acts *)

Record ChannelActor : Type := MkActor {
  actor_recipient : Recipient;
  actor_identity : MemberIdentity;
  actor_account : option str;
  actor_realname : str;
  actor_away : option str;
  actor_bot : bool;
  actor_profile : ChannelMemberProfile;
}.

Definition actor_conn (a : ChannelActor) : Z := recipient_conn (actor_recipient a).
Definition mask_subject (a : ChannelActor) : MaskSubject :=
  MaskSubject_new (identity_prefix (actor_identity a)) (profile_real_ip (actor_profile a)) (actor_account a).
Definition profile_originator (p : ChannelMemberProfile) : Originator := MkOriginator (profile_account p) (profile_bot p).
Definition actor_line (a : ChannelActor) (ts : Z) (body : str) : EventLine :=
  by_user (profile_originator (actor_profile a)) ts body.

(** ** The state and its surroundings *)

Record OwnerState : Type := MkOwnerState {
  os_state : ShardState;
  os_founders : gmap str ChannelOwnership;
  os_pending_registrations : gmap str str;
  os_topics : gmap str Topic;
  os_options : ChannelOptions;
  os_pending_topics : gmap str (Z * option Topic);
  os_topic_revision : Z;
}.

(** The shard, the connection a capture collects a response for, the
    casemapping, the server's name and the clocks. *)
Record Env : Type := MkEnv {
  env_shard : Z;
  env_capture : option Z;
  env_casemap : CaseMapping;
  env_server : str;
  env_now : Z;
  env_mono : Z;
}.

Definition os_channels (s : OwnerState) : gmap str Channel := own_channels (shard_channels (os_state s)).

Definition set_state (f : ShardState -> ShardState) (s : OwnerState) : OwnerState :=
  MkOwnerState (f (os_state s)) (os_founders s) (os_pending_registrations s) (os_topics s) (os_options s)
    (os_pending_topics s) (os_topic_revision s).
Definition set_channels (f : ChannelDirectory (Caps := Caps) -> ChannelDirectory (Caps := Caps)) (s : OwnerState) : OwnerState :=
  set_state (on_channels f) s.

Definition chan_key (e : Env) (name : str) : str := casefold (env_casemap e) name.
Definition service_prefix (e : Env) (service : str) : str :=
  service ++ bs "!" ++ service ++ bs "@services." ++ env_server e.

Definition is_founder (e : Env) (key account : str) (s : OwnerState) : bool :=
  bool_decide (founder key (os_founders s) = Some (casefold (env_casemap e) account)).
Definition is_registered (key : str) (s : OwnerState) : bool := bool_decide (is_Some (founder key (os_founders s))).
Definition channel_registration_pending (key : str) (s : OwnerState) : bool :=
  bool_decide (is_Some (os_pending_registrations s !! key)).
Definition access_modes (e : Env) (key account : str) (s : OwnerState) : bool * bool :=
  match access_flags key (casefold (env_casemap e) account) (os_options s) with
  | Some flags => (contains_byte "o" flags, contains_byte "v" flags)
  | None => (false, false)
  end.

(** [broadcast_channel] to the channel as it is in [s]. *)
Definition broadcast (e : Env) (key : str) (line : EventLine) (except : option Z) (s : OwnerState) : list Outgoing :=
  broadcast_channel (env_shard e) (env_capture e) (os_channels s !! key) line except.

(** [send_event_recipient]: past any capture. *)
Definition send_event (e : Env) (r : Recipient) (line : EventLine) : Outgoing :=
  route (env_shard e) None r (render line (recipient_caps r)).

(** Remove [key] when its last member has left. *)
Definition drop_if_empty (key : str) (s : OwnerState) : OwnerState :=
  match os_channels s !! key with
  | Some ch => if has_members ch then s else set_state (remove_channel key) s
  | None => s
  end.

(** [get_mut] when nothing is written through it. *)
Definition touch (key : str) (s : OwnerState) : OwnerState := set_channels (dir_get_mut key id) s.

(** ** JOIN *)

Inductive ChannelJoinFailure : Type := Banned | BadKey | InviteOnly | Full.

Record ChannelJoinSuccess : Type := MkJoined {
  joined_key : str;
  joined_display : str;
  joined_topic : option Topic;
  joined_secret : bool;
  joined_members : list (MemberModes * MemberIdentity);
  own_join : EventLine;
  own_modes : list EventLine;
}.

Inductive ChannelJoinResult : Type :=
| Joined (j : ChannelJoinSuccess)
| AlreadyMember
| Rejected (f : ChannelJoinFailure).

(** The admission checks, in their order. *)
Definition admission (e : Env) (actor : ChannelActor) (join_key : option str) (ch : Channel) : option ChannelJoinFailure :=
  let m := env_casemap e in
  let subject := mask_subject actor in
  let was_invited := bool_decide (actor_conn actor ∈ invited ch) in
  if is_banned m subject ch then Some Banned
  else if match Channel.chan_key (chan_modes ch) with
          | Some key => negb (match join_key with Some k => channel_key_matches m key k | None => false end)
          | None => false
          end then Some BadKey
  else if invite_only (chan_modes ch) && negb was_invited && negb (is_invite_excepted m subject ch) then Some InviteOnly
  else if match chan_limit (chan_modes ch) with
          | Some limit => (limit <=? Z.of_nat (member_count ch)) && negb was_invited
          | None => false
          end then Some Full
  else None.

Definition set_invited (f : gset Z -> gset Z) (ch : Channel) : Channel :=
  MkChannel (chan_name ch) (chan_topic ch) (chan_members ch) (cached_recipients ch) (chan_modes ch) (bans ch)
    (quiets ch) (ban_exceptions ch) (invite_exceptions ch) (f (invited ch)) (last_knock ch) (created_at ch).
Definition set_topic (topic : option Topic) (ch : Channel) : Channel :=
  MkChannel (chan_name ch) topic (chan_members ch) (cached_recipients ch) (chan_modes ch) (bans ch)
    (quiets ch) (ban_exceptions ch) (invite_exceptions ch) (invited ch) (last_knock ch) (created_at ch).
Definition set_last_knock (at_ : option Z) (ch : Channel) : Channel :=
  MkChannel (chan_name ch) (chan_topic ch) (chan_members ch) (cached_recipients ch) (chan_modes ch) (bans ch)
    (quiets ch) (ban_exceptions ch) (invite_exceptions ch) (invited ch) at_ (created_at ch).

(** The channel a JOIN finds or makes. *)
Definition fresh_channel (e : Env) (key name : str) (s : OwnerState) : Channel :=
  Channel_new name (topics_get key (os_topics s)) (MkChanModes false false true true false false false None None) (env_now e).

(** The JOIN lines to the other members, each with the joiner's away state
    behind it for those who asked for it. *)
Definition join_lines (e : Env) (conn : Z) (plain extended : EventLine) (away : option EventLine) (rs : list Recipient)
    : list Outgoing :=
  flat_map (fun r =>
    let caps := recipient_caps r in
    if recipient_conn r =? conn then []
    else
      send_event e r (if extended_join caps then extended else plain)
      :: (if away_notify caps then match away with Some l => [send_event e r l] | None => [] end else [])) rs.

(** [enforce_mlock] on the live channel: the announced line, or nothing when
    there is no lock or it complies.  [None] is its [expect]. *)
Definition enforce_mlock_on (e : Env) (key : str) (s : OwnerState) : option (OwnerState * option EventLine) :=
  match get_mlock key (os_options s), os_channels s !! key with
  | Some lock, Some ch =>
      r ← enforce_mlock lock (chan_modes ch);
      match r with
      | None => Some (s, None)
      | Some (modes, spec) =>
          Some (set_channels (dir_get_mut key (with_modes (fun _ => modes))) s,
                Some (by_server (env_now e)
                  (bs ":" ++ service_prefix e (bs "ChanServ") ++ bs " MODE " ++ chan_name ch ++ bs " " ++ spec)))
      end
  | _, _ => Some (s, None)
  end.

(** What the actor's account is granted on joining: founder, auto-op,
    auto-voice. *)
Definition join_access (e : Env) (key : str) (actor : ChannelActor) (s : OwnerState) : bool * bool * bool :=
  match actor_account actor with
  | Some a => let '(o, v) := access_modes e key a s in (is_founder e key a s, o, v)
  | None => (false, false, false)
  end.

(** The MODE that announces the grants to those already there. *)
Definition grant_line (e : Env) (display nick : str) (op voice : bool) : EventLine :=
  by_server (env_now e)
    (bs ":" ++ service_prefix e (bs "ChanServ") ++ bs " MODE " ++ display ++ bs " +"
     ++ (if op then bs "o" else []) ++ (if voice then bs "v" else [])
     ++ (if op then bs " " ++ nick else []) ++ (if voice then bs " " ++ nick else [])).

Definition member_list (ch : Channel) : list (MemberModes * MemberIdentity) :=
  (fun x => (member_modes (snd x), member_identity (snd x))) <$> map_to_list (chan_members ch).

Definition join_on_owner (e : Env) (actor : ChannelActor) (name : str) (join_key : option str) (s : OwnerState)
    : option (ChannelJoinResult * OwnerState * list Outgoing) :=
  let conn := actor_conn actor in
  let key := chan_key e name in
  let newly_created := negb (bool_decide (is_Some (os_channels s !! key))) in
  let made := fresh_channel e key name s in
  let s := set_channels (dir_entry key made id) s in
  let chan := default made (os_channels s !! key) in
  if is_member conn chan then Some (AlreadyMember, s, [])
  else
    let '(is_founder, access_op, access_voice) := join_access e key actor s in
    let s := touch key s in
    match admission e actor join_key chan with
    | Some failure => Some (Rejected failure, s, [])
    | None =>
        let first := negb (has_members chan) in
        let registered := is_registered key s || channel_registration_pending key s in
        let modes := MkModes ((first && negb registered) || is_founder || access_op) access_voice in
        let s := set_channels (dir_get_mut key (fun ch =>
                   set_invited (fun i => i ∖ {[conn]})
                     (add_member_with_profile (actor_recipient actor) (actor_profile actor) (actor_identity actor) modes ch))) s in
        let display := chan_name chan in
        let prefix := identity_prefix (actor_identity actor) in
        let account := default (bs "*") (actor_account actor) in
        let plain_join := actor_line actor (env_now e) (bs ":" ++ prefix ++ bs " JOIN " ++ display) in
        let extended := with_body plain_join
          (fitted_line (bs ":" ++ prefix ++ bs " JOIN " ++ display ++ bs " " ++ account ++ bs " :") (actor_realname actor)) in
        let away := (fun away => with_body plain_join (fitted_line (bs ":" ++ prefix ++ bs " AWAY :") away)) <$> actor_away actor in
        let members := match os_channels s !! key with Some ch => fst (recipients ch) | None => [] end in
        let sent := join_lines e conn plain_join extended away members in
        let granted := negb first && (is_founder || access_op || access_voice) in
        let grant := grant_line e display (identity_nick (actor_identity actor)) (is_founder || access_op) access_voice in
        let sent := sent ++ (if granted then broadcast e key grant (Some conn) s else []) in
        let own := if granted then [grant] else [] in
        '(s, lock_line) ← (if newly_created then enforce_mlock_on e key s else Some (s, None));
        let sent := sent ++ match lock_line with Some l => broadcast e key l (Some conn) s | None => [] end in
        let own := own ++ match lock_line with Some l => [l] | None => [] end in
        let chan := default made (os_channels s !! key) in
        Some (Joined (MkJoined key display (chan_topic chan) (secret (chan_modes chan)) (member_list chan)
                (if extended_join (recipient_caps (actor_recipient actor)) then extended else plain_join) own), s, sent)
    end.

(** ** PART and departures *)

Inductive ChannelPartResult : Type :=
| PartNoSuchChannel | PartHidden | PartNotOnChannel
| Parted (key : str) (line : EventLine).

Definition remove_from (key : str) (conn : Z) (s : OwnerState) : OwnerState :=
  set_channels (dir_get_mut key (fun ch => snd (remove_member conn ch))) s.

Definition part_on_owner (e : Env) (actor : ChannelActor) (name : str) (reason : option str) (s : OwnerState)
    : ChannelPartResult * OwnerState * list Outgoing :=
  let conn := actor_conn actor in
  let key := chan_key e name in
  match os_channels s !! key with
  | None => (PartNoSuchChannel, s, [])
  | Some ch =>
      if hidden_from conn ch then (PartHidden, s, [])
      else if negb (is_member conn ch) then (PartNotOnChannel, s, [])
      else
        let prefix := identity_prefix (actor_identity actor) in
        let suppress_reason := negb (may_speak (member conn ch) (env_casemap e) (mask_subject actor) ch) in
        let bare := bs ":" ++ prefix ++ bs " PART " ++ chan_name ch in
        let body := match reason with
                    | Some r => if suppress_reason then bare else fitted_line (bare ++ bs " :") r
                    | None => bare
                    end in
        let line := actor_line actor (env_now e) body in
        let sent := broadcast e key line (Some conn) s in
        (Parted key line, drop_if_empty key (remove_from key conn s), sent)
  end.

(** The membership index is updated here as in the source, by [memberships.part]. *)
Definition remove_vanished_member (e : Env) (key : str) (conn : Z) (s : OwnerState) : OwnerState * list Outgoing :=
  match (ch ← os_channels s !! key; mb ← chan_members ch !! conn; Some (ch, mb)) with
  | None => (touch key s, [])
  | Some (ch, mb) =>
      let line := by_user (profile_originator (member_profile mb)) (env_now e)
        (bs ":" ++ identity_prefix (member_identity mb) ++ bs " PART " ++ chan_name ch) in
      let s := set_state (on_memberships (part conn key)) (remove_from key conn s) in
      (drop_if_empty key s, broadcast e key line None s)
  end.

(** [quit_channel_member] without the lines, which [Peers] gathers. *)
Definition quit_channel_member (keys : list str) (conn : Z) (s : OwnerState) : OwnerState :=
  fold_left (fun s key =>
    let was_member := match os_channels s !! key with Some ch => is_member conn ch | None => false end in
    let s := remove_from key conn s in
    if was_member then drop_if_empty key s else s) keys s.

(** ** KICK *)

Inductive ChannelKickResult : Type :=
| KickNoSuchChannel | KickHidden | KickNotOnChannel | KickNotOperator
| KickUserNotInChannel (victim channel : str)
| Kicked (echo : EventLine).

(** With the victim and its session, whose index of channels the caller updates. *)
Definition kick_on_owner (e : Env) (actor : ChannelActor) (channel who : str) (reason : option str) (s : OwnerState)
    : ChannelKickResult * OwnerState * list Outgoing * option (Z * SessionOwner) :=
  let conn := actor_conn actor in
  let key := chan_key e channel in
  match os_channels s !! key with
  | None => (KickNoSuchChannel, s, [], None)
  | Some ch =>
      if hidden_from conn ch then (KickHidden, s, [], None)
      else if negb (is_member conn ch) then (KickNotOnChannel, s, [], None)
      else if negb (match member conn ch with Some modes => op modes | None => false end) then (KickNotOperator, s, [], None)
      else
        match member_named (env_casemap e) who ch with
        | None => (KickUserNotInChannel who (chan_name ch), s, [], None)
        | Some (victim, recipient, who_is) =>
            let prefix := identity_prefix (actor_identity actor) in
            let head := bs ":" ++ prefix ++ bs " KICK " ++ chan_name ch ++ bs " " ++ identity_nick who_is ++ bs " :" in
            let body := match reason with
                        | Some reason => fitted_line head (truncate_chars reason KICKLEN)
                        | None => head ++ identity_nick (actor_identity actor)
                        end in
            let line := actor_line actor (env_now e) body in
            let sent := broadcast e key line (Some conn) s in
            (Kicked line, drop_if_empty key (remove_from key victim s), sent, Some (victim, recipient_owner recipient))
        end
  end.

(** ** INVITE *)

Inductive InviteeTarget : Type := InviteSession (owner : SessionOwner) | InviteService.

Inductive ChannelInviteResult : Type :=
| InviteNoSuchChannel | InviteHidden | InviteNotOnChannel | InviteNotOperator
| InviteUserOnChannel (invitee channel : str)
| Invited (invitee : str) (away : option str) (channel : str).

Section Invite.
(** Which holder a full set gives up: the source takes whichever its hash set
    yields first. *)
Context (pick : gset Z -> Z).

(** The [while] loop: each turn gives up one holder. *)
Fixpoint make_room (fuel : nat) (conn : Z) (holders : gset Z) : gset Z :=
  match fuel with
  | O => holders
  | S fuel =>
      if (INVITE_LIMIT <=? size holders)%nat && negb (bool_decide (conn ∈ holders))
      then make_room fuel conn (holders ∖ {[pick holders]})
      else holders
  end.

Definition record_invite (conn : Z) (holders : gset Z) : gset Z :=
  {[conn]} ∪ make_room (S (size holders)) conn holders.

Definition invite_on_owner (e : Env) (actor : ChannelActor) (target : str) (invitee : InviteeTarget) (nick : str)
    (away : option str) (s : OwnerState) : ChannelInviteResult * OwnerState * list Outgoing :=
  let conn := actor_conn actor in
  let key := chan_key e target in
  match os_channels s !! key with
  | None => (InviteNoSuchChannel, s, [])
  | Some ch =>
      let display := chan_name ch in
      if hidden_from conn ch then (InviteHidden, s, [])
      else if negb (is_member conn ch) then (InviteNotOnChannel, s, [])
      else if negb (free_invite (chan_modes ch)) && negb (match member conn ch with Some modes => op modes | None => false end)
      then (InviteNotOperator, s, [])
      else
        match invitee with
        | InviteService => (Invited nick None display, s, [])
        | InviteSession owner =>
            let who := owner_conn owner in
            if is_member who ch then (InviteUserOnChannel nick display, s, [])
            else
              let told := List.filter (fun r => invite_notify (recipient_caps r))
                (recipients_where (fun member modes =>
                   negb (member =? conn) && negb (member =? who) && (free_invite (chan_modes ch) || op modes)) ch) in
              let record := invite_only (chan_modes ch) || bool_decide (is_Some (chan_limit (chan_modes ch))) in
              let s := set_channels (dir_get_mut key (if record then set_invited (record_invite who) else id)) s in
              let line := actor_line actor (env_now e)
                (bs ":" ++ identity_prefix (actor_identity actor) ++ bs " INVITE " ++ nick ++ bs " :" ++ display) in
              (Invited nick away display, s, (fun r => send_event e r line) <$> told)
        end
  end.
End Invite.

(** ** KNOCK *)

Inductive ChannelKnockResult : Type :=
| KnockNoSuchChannel | KnockHidden
| AlreadyOnChannel (display : str) | ChannelOpen (display : str) | KnockCannotSend (display : str)
| TooManyKnocks (display scope : str)
| KnockDelivered (display : str).

(** [RPL_KNOCK] is 710. *)
Definition knock_on_owner (e : Env) (actor : ChannelActor) (target : str) (user_throttled : bool) (s : OwnerState)
    : ChannelKnockResult * OwnerState * list Outgoing :=
  let conn := actor_conn actor in
  let key := chan_key e target in
  match os_channels s !! key with
  | None => (KnockNoSuchChannel, s, [])
  | Some ch =>
      let display := chan_name ch in
      let full := match chan_limit (chan_modes ch) with Some limit => limit <=? Z.of_nat (member_count ch) | None => false end in
      if hidden_from conn ch then (KnockHidden, s, [])
      else if is_member conn ch then (AlreadyOnChannel display, s, [])
      else if negb (invite_only (chan_modes ch) || bool_decide (is_Some (Channel.chan_key (chan_modes ch))) || full)
      then (ChannelOpen display, s, [])
      else if is_silenced (env_casemap e) (mask_subject actor) ch then (KnockCannotSend display, s, [])
      else if user_throttled then (TooManyKnocks display (bs "user"), s, [])
      else if knock_throttled (last_knock ch) (env_mono e) KNOCK_DELAY_CHANNEL_MS then (TooManyKnocks display (bs "channel"), s, [])
      else
        let told := recipients_where (fun _ modes => free_invite (chan_modes ch) || op modes) ch in
        let s := set_channels (dir_get_mut key (set_last_knock (Some (env_mono e)))) s in
        let line := by_server (env_now e)
          (bs ":" ++ env_server e ++ bs " 710 " ++ display ++ bs " " ++ display ++ bs " "
           ++ identity_prefix (actor_identity actor) ++ bs " :has asked for an invite.") in
        (KnockDelivered display, s, (fun r => send_event e r line) <$> told)
  end.

(** ** TOPIC *)

Inductive ChannelTopicResult : Type :=
| TopicNoSuchChannel | TopicHidden | TopicNotOnChannel | TopicNotOperator | TopicCannotSend
| TopicIs (display : str) (topic : option Topic)
| TopicSet (line : EventLine)
| TopicUnavailable (display message : str).

(** A topic write on its way to the database. *)
Record TopicRequest : Type := MkTopicRequest {
  request_channel : str;
  request_display : str;
  request_prefix : str;
  request_origin : Originator;
  request_topic : option Topic;
  request_revision : Z;
}.

Definition set_pending_topics (f : gmap str (Z * option Topic) -> gmap str (Z * option Topic)) (revision : Z) (s : OwnerState)
    : OwnerState :=
  MkOwnerState (os_state s) (os_founders s) (os_pending_registrations s) (os_topics s) (os_options s)
    (f (os_pending_topics s)) revision.
Definition set_retained (f : gmap str Topic -> gmap str Topic) (s : OwnerState) : OwnerState :=
  MkOwnerState (os_state s) (os_founders s) (os_pending_registrations s) (f (os_topics s)) (os_options s)
    (os_pending_topics s) (os_topic_revision s).

Definition topic_line (prefix display text : str) : str := bs ":" ++ prefix ++ bs " TOPIC " ++ display ++ bs " :" ++ text.

(** [queue_takes] is whether the database's queue accepts the request.  A
    request queued is answered later: no result now. *)
Definition topic_set_on_owner (e : Env) (actor : ChannelActor) (target raw_text : str) (queue_takes : bool) (s : OwnerState)
    : option ChannelTopicResult * OwnerState * list Outgoing * option TopicRequest :=
  let conn := actor_conn actor in
  let key := chan_key e target in
  match os_channels s !! key with
  | None => (Some TopicNoSuchChannel, s, [], None)
  | Some ch =>
      if hidden_from conn ch then (Some TopicHidden, s, [], None)
      else
        match member conn ch with
        | None => (Some TopicNotOnChannel, s, [], None)
        | Some modes =>
            if topic_ops_only (chan_modes ch) && negb (op modes) then (Some TopicNotOperator, s, [], None)
            else if negb (may_speak (Some modes) (env_casemap e) (mask_subject actor) ch) then (Some TopicCannotSend, s, [], None)
            else
              let display := chan_name ch in
              let prefix := identity_prefix (actor_identity actor) in
              let text := fit_trailing (topic_line prefix display []) (truncate_chars raw_text TOPICLEN) in
              let topic := if is_empty text then None else Some (MkTopic text prefix (as_secs (env_now e))) in
              if negb (is_registered key s) && negb (channel_registration_pending key s) then
                let s := set_channels (dir_get_mut key (set_topic topic)) s in
                let line := actor_line actor (env_now e) (topic_line prefix display text) in
                (Some (TopicSet line), s, broadcast e key line (Some conn) s, None)
              else
                match checked_add_u64 (os_topic_revision s) 1 with
                | None => (Some (TopicUnavailable display (bs "Topic revision space exhausted")), s, [], None)
                | Some revision =>
                    let s := set_pending_topics id revision s in
                    let request := MkTopicRequest key display prefix (profile_originator (actor_profile actor)) topic revision in
                    if queue_takes then
                      (None, set_pending_topics (insert key (revision, topic)) revision s, [], Some request)
                    else (Some (TopicUnavailable display (bs "Topic could not be persisted")), s, [], None)
                end
        end
  end.

(** The query half of [topic_on_owner]. *)
Definition topic_query_on_owner (e : Env) (actor : ChannelActor) (target : str) (s : OwnerState) : ChannelTopicResult :=
  match os_channels s !! chan_key e target with
  | None => TopicNoSuchChannel
  | Some ch => if hidden_from (actor_conn actor) ch then TopicHidden else TopicIs (chan_name ch) (chan_topic ch)
  end.

Definition clear_pending_topic (key : str) (revision : Z) (s : OwnerState) : OwnerState :=
  match os_pending_topics s !! key with
  | Some (pending, _) => if pending =? revision then set_pending_topics (delete key) (os_topic_revision s) s else s
  | None => s
  end.

(** The database's answer: the write is committed, kept across an empty channel
    when [retained]. *)
Definition channel_topic_set (e : Env) (conn : Z) (r : TopicRequest) (retained : bool) (s : OwnerState)
    : EventLine * OwnerState * list Outgoing :=
  let key := chan_key e (request_channel r) in
  let s := clear_pending_topic key (request_revision r) s in
  let s := if retained && is_registered key s
           then set_retained (match request_topic r with Some t => topics_set key t | None => topics_remove key end) s
           else set_retained (topics_remove key) s in
  let text := match request_topic r with Some t => topic_text t | None => [] end in
  let line := by_user (request_origin r) (env_now e) (topic_line (request_prefix r) (request_display r) text) in
  let s := set_channels (dir_get_mut key (set_topic (request_topic r))) s in
  (line, s, broadcast e key line (Some conn) s).

Definition channel_topic_failed (e : Env) (channel : str) (revision : Z) (s : OwnerState) : OwnerState :=
  clear_pending_topic (chan_key e channel) revision s.
(** ** MODE

    [channel_mode_by] on the channel named, the changes announced in as many
    lines as they need.  The channel is marked changed whether or not the loop
    wrote it: publishing it again as it was is not seen. *)
Definition mode_on_owner (e : Env) (online : str -> bool) (actor : ChannelActor) (target : str) (rest : list str) (s : OwnerState)
    : list ModeReply * OwnerState * list Outgoing :=
  let key := chan_key e target in
  let prefix := identity_prefix (actor_identity actor) in
  let cx := MkContext (env_casemap e) (get_mlock key (os_options s)) online prefix (as_secs (env_now e)) in
  match channel_mode_by cx (actor_conn actor) rest (os_channels s !! key) with
  | (Some ch, replies, changes) =>
      let s := set_channels (dir_get_mut key (fun _ => ch)) s in
      let base := bs ":" ++ prefix ++ bs " MODE " ++ chan_name ch ++ bs " " in
      (replies, s,
       flat_map (fun l => broadcast e key (actor_line actor (env_now e) (line_text base l)) None s)
         (broadcast_mode_changes (length base) changes))
  | (None, replies, _) => (replies, s, [])
  end.

(** [apply_mlock], when services set a lock on a live channel. *)
Definition apply_mlock (e : Env) (key : str) (s : OwnerState) : option (OwnerState * list Outgoing) :=
  '(s, line) ← enforce_mlock_on e key s;
  Some (s, match line with Some l => broadcast e key l None s | None => [] end).

(** [apply_channel_member_update] without the event it reports. *)
Definition apply_channel_member_update (keys : list str) (r : Recipient) (who : MemberIdentity) (profile : ChannelMemberProfile)
    (s : OwnerState) : OwnerState :=
  fold_left (fun s key => set_channels (dir_get_mut key (fun ch => snd (update_member r who profile ch))) s) keys s.
End ChannelOps.
