(* ===== verification/Multiline.v ===== *)
(** * Multiline messages ([e6ircd/src/core/handler/message.rs], the
      [draft/multiline] half; [MultilineBatch] of [core/state.rs];
      [HistoryResponseCaps] of [core/mod.rs])

    A batch a client opens, fills and closes; the one message it becomes; and
    how that message is rendered for each recipient, live and replayed.  The
    texts of FAIL lines are left out; which failure it is, is a value. *)

From stdpp Require Import gmap.
From S2P Require Import Prelude Str Keys Casemap Num Time Message Parse Sanitize Nicks ChannelState Events ModeChange ChannelOps.

Local Open Scope nat_scope.

(** ** Message kinds *)

Inductive MessageKind : Type := Privmsg | Notice.
#[global] Instance MessageKind_eq_dec : EqDecision MessageKind.
Proof. solve_decision. Defined.

Definition kind_wire (k : MessageKind) : str := match k with Privmsg => bs "PRIVMSG" | Notice => bs "NOTICE" end.
Definition is_loud (k : MessageKind) : bool := match k with Privmsg => true | Notice => false end.

Definition is_blocked_ctcp (text : str) : bool :=
  starts_with x01 text && negb (bool_decide (is_Some (ctcp_action text))).

(** ** Batches *)

Definition MULTILINE_CAP : str := bs "draft/multiline".
Definition MULTILINE_MAX_BYTES : nat := Z.to_nat 4096.
Definition MULTILINE_MAX_LINES : nat := 32.
Definition MULTILINE_CONCAT_TAG : str := bs "draft/multiline-concat".

Record MultilineBatch : Type := MkBatch {
  batch_reference : str;
  batch_target : str;
  batch_client_tags : str;
  batch_label : option str;
  batch_lines : list (str * bool);
  batch_bytes : nat;
  batch_kind : option MessageKind;
}.

Record CompletedMultiline : Type := MkCompleted {
  completed_target : str;
  completed_client_tags : str;
  completed_label : option str;
  completed_lines : list (str * bool);
  completed_kind : MessageKind;
}.

Inductive MultilineRefusal : Type := EmptyBatch | NoText (loud : bool).

Definition complete (b : MultilineBatch) : result (MultilineRefusal * option str) CompletedMultiline :=
  match batch_kind b, is_empty (batch_lines b) with
  | Some kind, false =>
      if forallb (fun l => is_empty (fst l)) (batch_lines b) then Err (NoText (is_loud kind), batch_label b)
      else Ok (MkCompleted (batch_target b) (batch_client_tags b) (batch_label b) (batch_lines b) kind)
  | _, _ => Err (EmptyBatch, batch_label b)
  end.

(** Why a batch command or a line of a batch failed. *)
Inductive BatchFailure : Type :=
| BadSyntax | NotNegotiated | OtherBatchType | AlreadyOpen | NoSuchBatch | BadSign
| NotOpenHere | WrongTarget (batch_target line_target : str) | ConcatFirst | ConcatBlank | MixedKinds | TooManyLines | TooManyBytes.

(** What a command did about the session's batch. *)
Inductive BatchOutcome : Type :=
| NotBatched
| Collected
| Opened
(** The failure, under the label of the batch it abandoned. *)
| Failed (why : BatchFailure) (label : option str)
| Closed (r : result (MultilineRefusal * option str) CompletedMultiline).

(** [multiline_fail]: whatever batch was open is gone. *)
Definition multiline_fail (why : BatchFailure) (open : option MultilineBatch) : option MultilineBatch * BatchOutcome :=
  (None, Failed why (open ≫= batch_label)).

(** [multiline_collect]: [tags] and [p] are the message's. *)
Definition multiline_collect (m : CaseMapping) (tags : list Tag) (p : list str) (kind : MessageKind) (open : option MultilineBatch)
    : option MultilineBatch * BatchOutcome :=
  match List.find (fun t => str_eqb (tag_key t) (bs "batch")) tags with
  | None => (open, NotBatched)
  | Some tag =>
      let reference := default [] (tag_value tag) in
      match open with
      | None => multiline_fail NotOpenHere open
      | Some b =>
          if negb (str_eqb (batch_reference b) reference) then multiline_fail NotOpenHere open
          else
            let line_target := default [] (head p) in
            let text := default [] (p !! 1) in
            let concat := existsb (fun t => str_eqb (tag_key t) MULTILINE_CONCAT_TAG) tags in
            if negb (str_eqb (casefold m line_target) (casefold m (batch_target b)))
            then multiline_fail (WrongTarget (batch_target b) line_target) open
            else if concat && is_empty (batch_lines b) then multiline_fail ConcatFirst open
            else if concat && is_empty text then multiline_fail ConcatBlank open
            else if match batch_kind b with Some established => negb (bool_decide (established = kind)) | None => false end
            then multiline_fail MixedKinds open
            else if MULTILINE_MAX_LINES <=? length (batch_lines b) then multiline_fail TooManyLines open
            else if MULTILINE_MAX_BYTES <? batch_bytes b + length text then multiline_fail TooManyBytes open
            else
              (Some (MkBatch (batch_reference b) (batch_target b) (batch_client_tags b) (batch_label b)
                 (batch_lines b ++ [(text, concat)]) (batch_bytes b + length text)
                 (Some (default kind (batch_kind b)))), Collected)
      end
  end.

(** [cmd_batch], for a session that negotiated [draft/multiline] when
    [negotiated]; [label] is the label its capture gives up. *)
Definition cmd_batch (negotiated : bool) (tags : list Tag) (label : option str) (p : list str) (open : option MultilineBatch)
    : option MultilineBatch * BatchOutcome :=
  match head p with
  | None => multiline_fail BadSyntax open
  | Some word =>
      match chars word with
      | sign :: rest =>
          let reference := mjoin rest in
          if str_eqb sign (bs "+") then
            if is_empty reference then multiline_fail BadSyntax open
            else if negb negotiated then multiline_fail NotNegotiated open
            else
              match p !! 1, p !! 2 with
              | Some batch_type, Some target =>
                  if negb (str_eqb batch_type MULTILINE_CAP) then multiline_fail OtherBatchType open
                  else if bool_decide (is_Some open) then multiline_fail AlreadyOpen open
                  else (Some (MkBatch reference target (client_tag_string tags) label [] 0 None), Opened)
              | _, _ => multiline_fail BadSyntax open
              end
          else if str_eqb sign (bs "-") then
            match open with
            | Some b => if str_eqb (batch_reference b) reference then (None, Closed (complete b)) else multiline_fail NoSuchBatch open
            | None => multiline_fail NoSuchBatch open
            end
          else multiline_fail BadSign open
      | [] => multiline_fail BadSign open
      end
  end.

(** ** Reassembly and CTCP *)

(** A batch as one text: a line that continues the one before joins it. *)
Fixpoint reassemble_from (first : bool) (lines : list (str * bool)) : str :=
  match lines with
  | [] => []
  | (text, concat) :: lines => (if negb first && negb concat then [LF] else []) ++ text ++ reassemble_from false lines
  end.

Definition multiline_carries_blocked_ctcp (lines : list (str * bool)) : bool :=
  existsb is_blocked_ctcp (split LF (reassemble_from true lines)) || existsb (fun l => is_blocked_ctcp (fst l)) lines.

(** ** History *)

Definition encode_multiline (lines : list (str * bool)) : str :=
  join LF ((fun l : str * bool => (if snd l then bs "1" else bs "0") ++ fst l) <$> lines).

Definition decode_multiline (encoded : str) : list (str * bool) :=
  (fun line : str => (if is_char_boundary line 1 then drop 1 line else [], starts_with "1" line)) <$> split LF encoded.

Definition multiline_plain_text (encoded : str) : str := join " " (fst <$> decode_multiline encoded).

(** ** Rendering *)

Record HistoryResponseCaps : Type := MkHistoryCaps {
  h_batch : bool;
  h_message_tags : bool;
  h_server_time : bool;
  h_account_tag : bool;
  h_multiline : bool;
}.

Definition history_caps (c : Caps) : HistoryResponseCaps :=
  MkHistoryCaps (batch c) (message_tags c) (server_time c) (account_tag c) (multiline c).

Definition history_event_tags (h : HistoryResponseCaps) (ts : Z) (msgid account : option str) (bot : bool) : list str :=
  event_tags (MkCaps (h_server_time h) false (h_message_tags h) false false false false false false (h_account_tag h)
    false false false false false false false false false false false false) ts msgid account bot.

Record MultilineMessage : Type := MkMultiline {
  mm_prefix : str;
  mm_kind : MessageKind;
  mm_target : str;
  mm_lines : list (str * bool);
  mm_client_tags : str;
  mm_msgid : str;
  mm_ts : Z;
  mm_account : option str;
  mm_bot : bool;
}.

Record MultilineFraming : Type := MkFraming {
  fr_caps : HistoryResponseCaps;
  fr_batch_ref : str;
  fr_outer_batch : option str;
  fr_label : option str;
  fr_server : str;
}.

Definition tag_prefix (tags : list str) : str := match tags with [] => [] | _ => bs "@" ++ join ";" tags ++ bs " " end.

(** One turn takes at least a character of [rest]. *)
Definition next_piece (head rest : str) : str :=
  let piece := fit_trailing head rest in
  if is_empty piece && negb (is_empty rest) then default [] (hd_error (chars rest)) else piece.

Fixpoint split_loop (fuel : nat) (head rest : str) (continuable : bool) : list str :=
  match fuel with
  | O => []
  | S fuel =>
      let piece := next_piece head rest in
      let rest := drop (length piece) rest in
      piece :: (if is_empty rest || negb continuable then [] else split_loop fuel head rest continuable)
  end.

Definition split_to_fit (head text : str) (continuable : bool) : list str := split_loop (S (length text)) head text continuable.

Definition opt_list {A} (o : option A) : list A := match o with Some a => [a] | None => [] end.

(** The lines of one line of the batch: its pieces, all but the first marked as
    continuing where the recipient can be told. *)
Definition batch_pieces (h : HistoryResponseCaps) (head : str) (line : str * bool) : list (str * bool) :=
  imap (fun i piece => (piece, h_message_tags h && (snd line || negb (i =? 0)%nat))) (split_to_fit head (fst line) (h_message_tags h)).

(** One message per line with text, the id on the first. *)
Fixpoint flat_lines (tags : bool -> list str) (head : str) (first : bool) (lines : list (str * bool)) : list str :=
  match lines with
  | [] => []
  | (text, _) :: lines =>
      if is_empty text then flat_lines tags head first lines
      else (tag_prefix (tags first) ++ head ++ fit_trailing head text) :: flat_lines tags head false lines
  end.

Definition render_multiline (m : MultilineMessage) (f : MultilineFraming) : list str :=
  let h := fr_caps f in
  let head := bs ":" ++ mm_prefix m ++ bs " " ++ kind_wire (mm_kind m) ++ bs " " ++ mm_target m ++ bs " :" in
  let outer := opt_list ((fun o => bs "batch=" ++ o) <$> fr_outer_batch f) in
  let client_tags := when (h_message_tags h && negb (is_empty (mm_client_tags m))) (mm_client_tags m) in
  if h_multiline h && h_batch h then
    let open := outer ++ opt_list ((fun l => bs "label=" ++ l) <$> fr_label f)
                ++ history_event_tags h (mm_ts m) (Some (mm_msgid m)) (mm_account m) (mm_bot m) ++ client_tags in
    let common := history_event_tags h (mm_ts m) None (mm_account m) (mm_bot m) in
    [tag_prefix open ++ bs ":" ++ mm_prefix m ++ bs " BATCH +" ++ fr_batch_ref f ++ bs " " ++ MULTILINE_CAP ++ bs " " ++ mm_target m]
    ++ ((fun p => tag_prefix ((bs "batch=" ++ fr_batch_ref f) :: common ++ when (snd p) MULTILINE_CONCAT_TAG) ++ head ++ fst p)
         <$> flat_map (batch_pieces h head) (mm_lines m))
    ++ [tag_prefix outer ++ bs ":" ++ fr_server f ++ bs " BATCH -" ++ fr_batch_ref f]
  else
    let outer := if h_batch h then outer else [] in
    flat_lines (fun first => outer ++ history_event_tags h (mm_ts m) (if first then Some (mm_msgid m) else None) (mm_account m) (mm_bot m)
                             ++ client_tags) head true (mm_lines m).

(** ** Cutting a line into pieces *)

Lemma next_piece_spec head rest :
  utf8_valid rest = true ->
  exists rest', rest = next_piece head rest ++ rest' /\ utf8_valid (next_piece head rest) = true /\ utf8_valid rest' = true
    /\ (rest <> [] -> next_piece head rest <> [])
    /\ (length head <= 506 -> length head + length (next_piece head rest) <= 510)
    /\ (length head <= 506 -> next_piece head rest = fit_trailing head rest).
Proof.
  intros Hv. unfold next_piece. set (piece := fit_trailing head rest).
  assert (Hpiece : exists rest', rest = piece ++ rest' /\ utf8_valid piece = true).
  { destruct (truncate_prefix rest (510 - length head)) as [t Ht]. exists t. split; [done|]. by apply truncate_valid. }
  assert (Hlen : length piece <= 510 - length head) by apply truncate_le.
  destruct Hpiece as (rest' & E & Hp). destruct (is_empty piece && negb (is_empty rest)) eqn:Eb.
  - apply andb_true_iff in Eb as [Ee%is_empty_true Er%negb_true_iff%is_empty_false].
    destruct rest as [|b rest]; [done|]. destruct (chars_cons b rest Hv) as (tail & rest2 & -> & Hc & Hv2 & _). rewrite Hc.
    cbn [hd_error default from_option id]. exists rest2. assert (Hv1 : utf8_valid (b :: tail) = true).
    { unfold chars in Hc. destruct (utf8_chunks (b :: tail ++ rest2)) as [|[ok chunk] chunks] eqn:Ech; [done|]. cbn in Hc. injection Hc as Hchunk _. subst chunk.
      rewrite chunks_cons in Ech. injection Ech as Eok Et _. rewrite utf8_valid_cons in Hv. apply andb_true_iff in Hv as [Hok _].
      rewrite <- Et. destruct (utf8_next b (tail ++ rest2)) as [ok' n] eqn:En. cbn in *. subst ok' ok.
      rewrite utf8_valid_cons, (next_take _ _ _ En). cbn. rewrite drop_ge; [done|]. rewrite length_take. lia. }
    assert (Hroom : length head <= 506 -> False).
    { intros Hh. assert (Hn : 4 <= 510 - length head) by lia. set (n := 510 - length head) in *.
      assert (piece = truncate_on_char_boundary (b :: tail ++ rest2) n) as Hpd by done.
      destruct (decide (length (b :: tail ++ rest2) <= n)) as [Hle|Hgt]; [by rewrite truncate_short, Ee in Hpd|].
      pose proof (truncate_near (b :: tail ++ rest2) n Hv ltac:(lia)) as Hnear. rewrite <- Hpd, Ee in Hnear. cbn in Hnear. lia. }
    split_and!; [done|done|done|done|by intros ?%Hroom|by intros ?%Hroom].
  - exists rest'. split_and!; [done|done| | |lia|done].
    + rewrite E in Hv. by rewrite utf8_valid_app in Hv.
    + intros Hr Hp0. rewrite Hp0 in Eb. cbn in Eb. by apply negb_false_iff, is_empty_true in Eb.
Qed.

Lemma split_loop_spec head fuel : forall rest,
  utf8_valid rest = true -> length rest < fuel ->
  mjoin (split_loop fuel head rest true) = rest
  /\ (length head <= 506 -> Forall (fun p => length head + length p <= 510) (split_loop fuel head rest true))
  /\ Forall (fun p => utf8_valid p = true /\ forall b, b ∈ p -> b ∈ rest) (split_loop fuel head rest true)
  /\ split_loop fuel head rest true <> [].
Proof.
  induction fuel as [|fuel IH]; intros rest Hv Hf; [lia|]. cbn [split_loop negb]. rewrite orb_false_r.
  destruct (next_piece_spec head rest Hv) as (rest' & E & Hvp & Hvr & Hne & Hlen & _). set (piece := next_piece head rest) in *.
  assert (Hdrop : drop (length piece) rest = rest') by (rewrite E at 1; apply drop_app_length). rewrite Hdrop.
  assert (Hel : forall b, b ∈ piece -> b ∈ rest) by (intros b Hb; rewrite E; set_solver).
  destruct (is_empty rest') eqn:Er.
  - apply is_empty_true in Er as ->. rewrite app_nil_r in E. cbn [mjoin list_join]. rewrite app_nil_r. split_and!; [by rewrite <- E| | |done].
    + intros Hh. constructor; [auto|constructor].
    + constructor; [done|constructor].
  - apply is_empty_false in Er. assert (Hr : rest <> []) by (intros ->; destruct piece, rest'; done). specialize (Hne Hr).
    assert (Hl : length rest = length piece + length rest') by (rewrite E at 1; apply length_app).
    destruct (IH rest' Hvr) as (H1 & H2 & H3 & H4); [destruct piece; [done|cbn in Hl; lia]|]. split_and!; [| | |done].
    + cbn [mjoin list_join]. rewrite E at 1. f_equal. exact H1.
    + intros Hh. constructor; auto.
    + constructor; [done|]. eapply Forall_impl; [exact H3|]. intros p [Hp1 Hp2]. split; [done|]. intros b Hb. rewrite E. set_solver.
Qed.

Lemma split_to_fit_spec head text :
  utf8_valid text = true ->
  mjoin (split_to_fit head text true) = text
  /\ (length head <= 506 -> Forall (fun p => length head + length p <= 510) (split_to_fit head text true))
  /\ Forall (fun p => utf8_valid p = true /\ forall b, b ∈ p -> b ∈ text) (split_to_fit head text true)
  /\ split_to_fit head text true <> [].
Proof. intros Hv. apply split_loop_spec; [done|lia]. Qed.

(** ** What a client that knows [draft/multiline] puts together *)

Fixpoint merge_from (line : str) (lines : list (str * bool)) : list str :=
  match lines with
  | [] => [line]
  | (text, true) :: lines => merge_from (line ++ text) lines
  | (text, false) :: lines => line :: merge_from text lines
  end.
Definition merge (lines : list (str * bool)) : list str :=
  match lines with [] => [] | (text, _) :: lines => merge_from text lines end.

Lemma merge_continued ps : forall line r,
  merge_from line (((fun p => (p, true)) <$> ps) ++ r) = merge_from (line ++ mjoin ps) r.
Proof.
  induction ps as [|p ps IH]; intros line r; cbn [fmap list_fmap map app merge_from mjoin list_join]; [by rewrite app_nil_r|].
  rewrite IH. by rewrite <- app_assoc.
Qed.

Lemma batch_pieces_shape h head line :
  h_message_tags h = true -> utf8_valid (fst line) = true ->
  exists p ps, batch_pieces h head line = (p, snd line) :: ((fun p => (p, true)) <$> ps) /\ p ++ mjoin ps = fst line.
Proof.
  intros Ht Hv. unfold batch_pieces. rewrite Ht. destruct (split_to_fit_spec head (fst line) Hv) as (Hj & _ & _ & Hne).
  destruct (split_to_fit head (fst line) true) as [|p ps]; [done|]. exists p, ps. split; [|done]. cbn [imap andb]. rewrite orb_false_r.
  f_equal.
  transitivity (imap (fun _ p => (p, true)) ps).
  - apply imap_ext. intros i x _. cbn. by rewrite orb_true_r.
  - clear. generalize 0 as k. induction ps as [|x ps IH]; intros k; [done|]. cbn. f_equal. apply (IH 0).
Qed.

Lemma merge_batch_from h head lines : h_message_tags h = true -> Forall (fun l => utf8_valid (fst l) = true) lines ->
  forall line, merge_from line (flat_map (batch_pieces h head) lines) = merge_from line lines.
Proof.
  intros Ht Hv. induction Hv as [|[text c] lines Hl _ IH]; intros line; [done|]. cbn [flat_map].
  destruct (batch_pieces_shape h head (text, c) Ht Hl) as (p & ps & -> & Hj). cbn [fst snd] in *.
  cbn [app merge_from]. destruct c; rewrite merge_continued, IH.
  - by rewrite <- app_assoc, Hj.
  - by rewrite Hj.
Qed.

Lemma merge_batch h head lines : h_message_tags h = true -> Forall (fun l => utf8_valid (fst l) = true) lines ->
  merge (flat_map (batch_pieces h head) lines) = merge lines.
Proof.
  intros Ht Hv. destruct Hv as [|[text c] lines Hl Hv]; [done|]. cbn [flat_map merge].
  destruct (batch_pieces_shape h head (text, c) Ht Hl) as (p & ps & -> & Hj). cbn [fst snd] in *.
  cbn [app merge]. by rewrite merge_continued, Hj, merge_batch_from.
Qed.

(** ** The batch on the wire *)

Definition line_head (m : MultilineMessage) : str :=
  bs ":" ++ mm_prefix m ++ bs " " ++ kind_wire (mm_kind m) ++ bs " " ++ mm_target m ++ bs " :".

(** What is true of any message the server renders: a source and a target that
    stand in their places, legal text, a batch reference the server made, and
    room for text. *)
Record multiline_ok (s : Source) (m : MultilineMessage) (f : MultilineFraming) : Prop := {
  ml_source : wf_source s = true /\ mm_prefix m = raw_source s;
  ml_target : stands_alone (mm_target m) = true;
  ml_text : Forall (fun l => utf8_valid (fst l) = true /\ contains_illegal_byte (fst l) = false) (mm_lines m);
  ml_ref : existsb needs_escape (fr_batch_ref f) = false;
  ml_account : forall a, mm_account m = Some a -> contains_byte NUL a = false;
  ml_room : length (line_head m) <= 506;
}.

(** A line of a batch as a client reads it: its text, and whether it continues
    the line before. *)
Definition read_piece (m : Message) : str * bool :=
  (default [] (msg_params m !! 1), bool_decide (is_Some (message_tag m MULTILINE_CONCAT_TAG))).

Definition piece_caps (h : HistoryResponseCaps) : Caps :=
  MkCaps (h_server_time h) false (h_message_tags h) false false false false false false (h_account_tag h)
    false false false false false false false false false false false false.

Definition piece_message (s : Source) (m : MultilineMessage) (f : MultilineFraming) (p : str * bool) : Message :=
  MkMessage (MkTag (bs "batch") (Some (fr_batch_ref f))
             :: expected_tags (piece_caps (fr_caps f)) (mm_ts m) (mm_account m) (mm_bot m)
             ++ tag_when (snd p) MULTILINE_CONCAT_TAG None)
    (Some s) (kind_wire (mm_kind m)) [mm_target m; fst p] true.

Definition piece_line (m : MultilineMessage) (f : MultilineFraming) (p : str * bool) : str :=
  tag_prefix ((bs "batch=" ++ fr_batch_ref f) :: history_event_tags (fr_caps f) (mm_ts m) None (mm_account m) (mm_bot m)
              ++ when (snd p) MULTILINE_CONCAT_TAG) ++ line_head m ++ fst p.

Lemma piece_line_render s m f p : multiline_ok s m f -> piece_line m f p = render_message (piece_message s m f p).
Proof.
  intros [[_ Hp] _ _ Hr _ _]. unfold piece_line, render_message, piece_message. cbn [msg_tags msg_source msg_command msg_params msg_has_trailing].
  unfold history_event_tags. rewrite event_tags_expected. fold (piece_caps (fr_caps f)).
  rewrite render_source_raw. unfold line_head. rewrite Hp. unfold tag_prefix, render_tags.
  assert (Htag : render_tag (MkTag (bs "batch") (Some (fr_batch_ref f))) = bs "batch=" ++ fr_batch_ref f).
  { unfold render_tag. cbn [tag_value tag_key]. unfold escape_tag_value. by rewrite Hr. }
  rewrite fmap_cons, Htag, fmap_app. assert ((render_tag <$> tag_when (snd p) MULTILINE_CONCAT_TAG None) = when (snd p) MULTILINE_CONCAT_TAG) as ->
    by (by destruct (snd p)).
  cbn [render_params]. change (bs ":") with [":"%byte]. change (bs " ") with [" "%byte]. change (bs " :") with [" "%byte; ":"%byte].
  change (bs "@") with ["@"%byte]. rewrite <- ?app_assoc. cbn [app]. rewrite <- ?app_assoc. cbn [app]. rewrite <- ?app_assoc. done.
Qed.

Lemma piece_message_wf s m f p :
  multiline_ok s m f -> contains_illegal_byte (fst p) = false -> wf_message (piece_message s m f p) = true.
Proof.
  intros [[Hs _] Ht _ Hr Ha _] Hi. unfold wf_message, piece_message. cbn [msg_tags msg_source msg_command msg_params msg_has_trailing forallb].
  rewrite forallb_app, expected_wf, Hs by done. cbn [wf_params]. rewrite Ht.
  assert (wf_tag (MkTag (bs "batch") (Some (fr_batch_ref f))) = true) as ->.
  { unfold wf_tag. cbn [tag_key tag_value]. change (negb (is_empty (bs "batch"))) with true.
    change (lacks _ (bs "batch")) with true. cbn [andb]. apply negb_true_iff, contains_byte_false. intros Hin.
    apply existsb_false_iff in Hr. rewrite Forall_forall in Hr. by apply Hr in Hin. }
  assert (forallb wf_tag (tag_when (snd p) MULTILINE_CONCAT_TAG None) = true) as -> by (by destruct (snd p)).
  assert (valid_command (kind_wire (mm_kind m)) = true) as -> by (by destruct (mm_kind m)). cbn [andb].
  apply lacks_spec. apply existsb_false_iff in Hi. eapply Forall_impl; [exact Hi|]. intros b Hb. split; [set_solver|done].
Qed.

Lemma piece_message_tags s m f p :
  message_tag (piece_message s m f p) (bs "batch") = Some (MkTag (bs "batch") (Some (fr_batch_ref f)))
  /\ read_piece (piece_message s m f p) = p.
Proof.
  unfold read_piece, message_tag, piece_message, expected_tags. cbn [msg_tags msg_params default from_option id].
  destruct p as [text c]. cbn [fst snd].
  destruct (server_time (piece_caps (fr_caps f))), (account_tag (piece_caps (fr_caps f))), (mm_account m) as [a|],
    (message_tags (piece_caps (fr_caps f))), (mm_bot m), c; split; reflexivity.
Qed.

Lemma render_batch m f :
  h_multiline (fr_caps f) = true -> h_batch (fr_caps f) = true ->
  exists open close, render_multiline m f
    = open :: (piece_line m f <$> flat_map (batch_pieces (fr_caps f) (line_head m)) (mm_lines m)) ++ [close].
Proof. intros Hm Hb. unfold render_multiline. rewrite Hm, Hb. cbn [andb app]. eexists _, _. reflexivity. Qed.

Lemma batch_pieces_legal s m f : multiline_ok s m f ->
  h_message_tags (fr_caps f) = true ->
  Forall (fun p => contains_illegal_byte (fst p) = false /\ length (line_head m) + length (fst p) <= 510)
    (flat_map (batch_pieces (fr_caps f) (line_head m)) (mm_lines m)).
Proof.
  intros Hok Ht. pose proof (ml_text _ _ _ Hok) as Htext. pose proof (ml_room _ _ _ Hok) as Hroom. clear Hok.
  induction Htext as [|[text c] lines [Hv Hi] _ IH]; [constructor|]. cbn [flat_map]. apply Forall_app. split; [|exact IH].
  unfold batch_pieces. rewrite Ht. cbn [fst snd]. destruct (split_to_fit_spec (line_head m) text Hv) as (_ & Hlen & Hel & _).
  apply Forall_forall. intros p Hp. apply elem_of_lookup_imap in Hp as (i & x & -> & Hx%list_elem_of_lookup_2). cbn [fst].
  rewrite Forall_forall in Hel, Hlen. split; [|by apply Hlen]. apply existsb_false_iff, Forall_forall. intros b Hb.
  apply existsb_false_iff in Hi. rewrite Forall_forall in Hi. apply Hi. by apply (Hel x Hx).
Qed.

(** C33. A client with [draft/multiline], [batch] and [message-tags], parsing
    the lines between the opening and the closing of a batch, finds in each the
    message's source, verb and target and the batch's reference, and by joining
    the lines marked as continuing puts together exactly the lines the sender
    wrote, however long they are and whatever prefix the relay put before them;
    and no line is longer than the wire allows. Without [message-tags] no line
    can be marked as continuing, and a line too long is cut instead. *)
Theorem multiline_batch_reassembles (s : Source) (m : MultilineMessage) (f : MultilineFraming)
    (Hok : multiline_ok s m f)
    (Hcaps : h_multiline (fr_caps f) = true /\ h_batch (fr_caps f) = true /\ h_message_tags (fr_caps f) = true) :
  exists open wires msgs close,
    render_multiline m f = open :: wires ++ [close]
    /\ Forall2 (fun wire msg => parse wire = Ok msg) wires msgs
    /\ Forall (fun msg => msg_source msg = Some s /\ msg_command msg = kind_wire (mm_kind m)
         /\ head (msg_params msg) = Some (mm_target m)
         /\ (message_tag msg (bs "batch") ≫= tag_value) = Some (fr_batch_ref f)) msgs
    /\ Forall (fun msg => length (line_head m) + length (fst (read_piece msg)) <= MAX_LINE_LEN - 2) msgs
    /\ merge (read_piece <$> msgs) = merge (mm_lines m).
Proof.
  destruct Hcaps as (Hm & Hb & Ht). destruct (render_batch m f Hm Hb) as (open & close & E).
  set (pieces := flat_map (batch_pieces (fr_caps f) (line_head m)) (mm_lines m)) in *.
  pose proof (batch_pieces_legal s m f Hok Ht) as Hl. fold pieces in Hl.
  exists open, (piece_line m f <$> pieces), (piece_message s m f <$> pieces), close. split; [exact E|]. split_and!.
  - apply Forall2_fmap_2, Forall_Forall2_diag. eapply Forall_impl; [exact Hl|]. intros p [Hp _]. rewrite (piece_line_render s) by done.
    by apply parse_render_lemma, piece_message_wf.
  - apply Forall_fmap, Forall_forall. intros p _. destruct (piece_message_tags s m f p) as [Hb' _].
    split_and!; [done|done|done|]. by rewrite Hb'.
  - apply Forall_fmap. eapply Forall_impl; [exact Hl|]. intros p [_ Hp].
    destruct (piece_message_tags s m f p) as [_ Hr]. change (length (line_head m) + length (fst (read_piece (piece_message s m f p))) <= 510). rewrite Hr. exact Hp.
  - rewrite <- list_fmap_compose. assert (read_piece ∘ piece_message s m f <$> pieces = pieces) as ->.
    { rewrite <- (list_fmap_id pieces) at 2. apply list_fmap_ext. intros _ p _. cbn. apply piece_message_tags. }
    apply merge_batch; [done|]. eapply Forall_impl; [apply (ml_text _ _ _ Hok)|]. by intros l [? _].
Qed.

Definition sample_multiline : MultilineMessage :=
  MkMultiline (bs "n!u@h") Privmsg (bs "#c") [(bs "a", false); ([], false); (repeat "x"%byte 600, false); (bs "z", true)] [] (bs "1-0") 0 None false.
Definition sample_framing : MultilineFraming := MkFraming (MkHistoryCaps true true true false true) (bs "7-1") None None (bs "irc.test").

Lemma multiline_batch_reassembles_witness :
  exists open wires msgs close, render_multiline sample_multiline sample_framing = open :: wires ++ [close]
    /\ Forall2 (fun wire msg => parse wire = Ok msg) wires msgs
    /\ merge (read_piece <$> msgs) = [bs "a"; []; repeat "x"%byte 600 ++ bs "z"].
Proof.
  destruct (multiline_batch_reassembles (MkSource (bs "n") (Some (bs "u")) (Some (bs "h"))) sample_multiline sample_framing)
    as (open & wires & msgs & close & E & Hp & _ & _ & Hm).
  - split; try reflexivity.
    + split; reflexivity.
    + repeat constructor; reflexivity.
    + intros a [=].
    + vm_compute. lia.
  - split_and!; reflexivity.
  - exists open, wires, msgs, close. split; [exact E|]. split; [exact Hp|]. exact Hm.
Defined.

(** ** CTCP *)

Lemma merge_from_split lines : forall line,
  (LF ∉ line) -> Forall (fun l => LF ∉ fst l) lines -> split LF (line ++ reassemble_from false lines) = merge_from line lines.
Proof.
  induction lines as [|[text c] lines IH]; intros line Hl Hf; cbn [reassemble_from merge_from].
  { rewrite app_nil_r. by apply split_no_sep_id. }
  apply Forall_cons in Hf as [Ht Hf]. cbn [fst] in Ht. destruct c; cbn [negb andb app].
  - rewrite app_assoc. apply IH; [|done]. rewrite not_elem_of_app. done.
  - rewrite split_app_sep by done. f_equal. by apply IH.
Qed.

Lemma merge_split lines :
  lines <> [] -> Forall (fun l => LF ∉ fst l) lines -> split LF (reassemble_from true lines) = merge lines.
Proof.
  intros Hne Hf. destruct lines as [|[text c] lines]; [done|]. apply Forall_cons in Hf as [Ht Hf]. cbn [reassemble_from negb andb app merge].
  by apply merge_from_split.
Qed.

(** Cutting a text that is no blocked CTCP leaves none, given room for the
    ACTION tag and what ends it. *)
Lemma truncate_not_ctcp text n :
  utf8_valid text = true -> 8 <= n -> is_blocked_ctcp text = false -> is_blocked_ctcp (truncate_on_char_boundary text n) = false.
Proof.
  intros Hv Hn. destruct (decide (length text <= n)) as [Hle|Hgt]; [by rewrite truncate_short|].
  unfold is_blocked_ctcp. intros Hb. apply andb_false_iff in Hb as [Hs|Ha].
  - destruct (truncate_prefix text n) as [t Ht]. destruct (truncate_on_char_boundary text n) as [|b p]; [done|].
    rewrite Ht in Hs. cbn in *. by rewrite Hs.
  - apply negb_false_iff, bool_decide_eq_true in Ha. apply andb_false_iff. right. apply negb_false_iff, bool_decide_eq_true.
    unfold ctcp_action in *. destruct (strip_prefix (x01 :: bs "ACTION") text) as [rest|] eqn:E; [|by destruct Ha].
    apply strip_prefix_Some in E. assert (Hrest : exists c r, rest = c :: r /\ (c = " "%byte \/ c = x01)).
    { destruct rest as [|c r]; [exfalso; rewrite E, app_nil_r in Hgt; cbn in Hgt; lia|]. exists c, r. split; [done|].
      cbn [strip_byte is_empty orb starts_with] in Ha. destruct (byte_eqb_spec c " "); [by left|].
      destruct (byte_eqb_spec c x01); [by right|]. by destruct Ha. }
    destruct Hrest as (c & r & -> & Hc).
    assert (Hcut : exists p, truncate_on_char_boundary text n = (x01 :: bs "ACTION") ++ c :: p).
    { unfold truncate_on_char_boundary. exists (take (floor_char_boundary text n - 8) r).
      destruct (floor_char_boundary_spec text n) as (_ & _ & _ & Hmax).
      assert (Hb8 : is_char_boundary text 8 = true).
      { rewrite E in Hv |- *. rewrite utf8_valid_app_ascii in Hv by (by destruct Hc as [-> | ->]).
        apply andb_true_iff in Hv as [_ Hr]. destruct r as [|b r]; [done|]. cbn. rewrite utf8_valid_cons in Hr.
        apply andb_true_iff in Hr as [Hr _]. destruct (utf8_next b r) as [ok k] eqn:En. cbn in Hr. subst ok.
        by rewrite (utf8_next_lead _ _ _ En). }
      assert (Hf : 8 <= floor_char_boundary text n).
      { destruct (decide (8 <= floor_char_boundary text n)); [done|]. rewrite Hmax in Hb8 by lia. done. }
      generalize dependent (floor_char_boundary text n). intros k _ Hf. rewrite E.
      change ((x01 :: bs "ACTION") ++ c :: r) with (((x01 :: bs "ACTION") ++ [c]) ++ r).
      rewrite take_app_ge by exact Hf. done. }
    destruct Hcut as [p ->]. assert (strip_prefix (x01 :: bs "ACTION") ((x01 :: bs "ACTION") ++ c :: p) = Some (c :: p)) as ->
      by (by apply strip_prefix_Some).
    destruct Hc as [-> | ->]; cbn; by eexists.
Qed.

Lemma split_not_continuable head text :
  split_to_fit head text false = [next_piece head text].
Proof. unfold split_to_fit. cbn [split_loop negb]. by rewrite orb_true_r. Qed.

Lemma existsb_Exists {A} (f : A -> bool) l : existsb f l = true <-> Exists (fun x => f x = true) l.
Proof. rewrite existsb_exists, List.Exists_exists. done. Qed.

(** A channel that blocks CTCP refuses a batch exactly when some recipient
    would read a blocked CTCP in it: in a line a multiline client puts
    together, or in a line any other client is sent on its own.  So when it
    does not refuse, none of the forms the batch is sent in carries one,
    however the sender cut it and wherever the relay cuts it again. *)
Theorem multiline_ctcp_not_evaded (lines : list (str * bool)) (head : str)
    (Hne : lines <> [])
    (Htext : Forall (fun l => utf8_valid (fst l) = true /\ contains_illegal_byte (fst l) = false) lines)
    (Hroom : length head <= 502) :
  let blocked text := is_blocked_ctcp text = true in
  (multiline_carries_blocked_ctcp lines = true <-> Exists blocked (merge lines) \/ Exists blocked (fst <$> lines))
  /\ (multiline_carries_blocked_ctcp lines = false ->
      Forall (fun text => is_blocked_ctcp text = false) (merge lines)
      /\ Forall (fun l => is_blocked_ctcp (fit_trailing head (fst l)) = false) lines
      /\ Forall (fun l => Forall (fun p => is_blocked_ctcp p = false) (split_to_fit head (fst l) false)) lines).
Proof.
  cbn zeta. assert (Hlf : Forall (fun l => LF ∉ fst l) lines).
  { eapply Forall_impl; [exact Htext|]. intros l [_ Hi] Hin. apply existsb_false_iff in Hi. rewrite Forall_forall in Hi. by apply Hi in Hin. }
  unfold multiline_carries_blocked_ctcp. rewrite (merge_split lines Hne Hlf). split.
  { rewrite orb_true_iff, !existsb_Exists. by rewrite Exists_fmap. }
  intros [Hm Hr]%orb_false_iff. apply existsb_false_iff in Hm, Hr. split; [done|].
  assert (Hcut : Forall (fun l => is_blocked_ctcp (fit_trailing head (fst l)) = false) lines).
  { rewrite Forall_forall in Hr, Htext |- *. intros l Hl. apply truncate_not_ctcp; [by apply Htext|lia|by apply Hr]. }
  split; [done|]. rewrite Forall_forall in Hcut, Htext |- *. intros l Hl. rewrite split_not_continuable.
  constructor; [|constructor]. destruct (next_piece_spec head (fst l)) as (_ & _ & _ & _ & _ & _ & Hfit); [by apply Htext|].
  rewrite Hfit by lia. by apply Hcut.
Qed.

Lemma multiline_ctcp_not_evaded_witness :
  multiline_carries_blocked_ctcp [(x01 :: bs "ACTION", false); (bs "VERSION", true)] = true
  /\ Forall (fun l => is_blocked_ctcp (fit_trailing (bs ":n!u@h PRIVMSG #c :") (fst l)) = false) [(x01 :: bs "ACTION waves", false); (bs "hi", false)].
Proof.
  destruct (multiline_ctcp_not_evaded [(x01 :: bs "ACTION waves", false); (bs "hi", false)] (bs ":n!u@h PRIVMSG #c :")) as [_ H].
  - discriminate.
  - repeat constructor; reflexivity.
  - vm_compute. lia.
  - split; [vm_compute; reflexivity|]. destruct H as (_ & H & _); [vm_compute; reflexivity|exact H].
Defined.

(** ** History *)

Lemma valid_head_lead b text : utf8_valid (b :: text) = true -> is_cont b = false.
Proof.
  rewrite utf8_valid_cons. intros [Hr _]%andb_true_iff. destruct (utf8_next b text) as [ok k] eqn:En. cbn in Hr. subst ok.
  by apply utf8_next_lead in En.
Qed.

(** A multiline message read back from history is the lines that were
    stored, blank lines and continuation marks included, so its replay is the
    message that was delivered. *)
Theorem multiline_history_roundtrip (lines : list (str * bool)) (Hne : lines <> [])
    (Htext : Forall (fun l => utf8_valid (fst l) = true /\ contains_illegal_byte (fst l) = false) lines) :
  decode_multiline (encode_multiline lines) = lines
  /\ multiline_plain_text (encode_multiline lines) = join " " (fst <$> lines).
Proof.
  assert (H : decode_multiline (encode_multiline lines) = lines).
  { unfold decode_multiline, encode_multiline. rewrite split_join.
    - rewrite <- list_fmap_compose. rewrite <- (list_fmap_id lines) at 2. apply list_fmap_ext. intros i [text c] Hl%list_elem_of_lookup_2.
      rewrite Forall_forall in Htext. destruct (Htext _ Hl) as [Hv _]. cbn in *.
      assert (is_char_boundary ((if c then bs "1" else bs "0") ++ text) 1 = true) as Hb.
      { destruct c, text as [|b text]; cbn; try done; by rewrite (valid_head_lead _ _ Hv). }
      destruct c; cbn in *; by rewrite Hb.
    - by destruct lines.
    - apply Forall_fmap. eapply Forall_impl; [exact Htext|]. intros [text c] [_ Hi]. cbn in *. intros Hin.
      assert (LF ∈ text) as Hlf by (destruct c; apply elem_of_cons in Hin as [Hin|Hin]; done).
      apply existsb_false_iff in Hi. rewrite Forall_forall in Hi. by apply Hi in Hlf. }
  split; [done|]. unfold multiline_plain_text. by rewrite H.
Qed.

Lemma multiline_history_roundtrip_witness :
  decode_multiline (encode_multiline [(bs "hello", false); ([], false); (bs "world", true)]) = [(bs "hello", false); ([], false); (bs "world", true)].
Proof.
  refine (proj1 (multiline_history_roundtrip [(bs "hello", false); ([], false); (bs "world", true)] _ _)).
  - discriminate.
  - repeat constructor; reflexivity.
Defined.

(** ** Batches stay within their bounds *)

Definition text_bytes (lines : list (str * bool)) : nat := list_sum ((fun l => length (fst l)) <$> lines).

Record batch_ok (b : MultilineBatch) : Prop := {
  bo_reference : batch_reference b <> [];
  bo_lines : length (batch_lines b) <= MULTILINE_MAX_LINES;
  bo_bytes : batch_bytes b = text_bytes (batch_lines b) /\ batch_bytes b <= MULTILINE_MAX_BYTES;
  bo_kind : batch_kind b = None <-> batch_lines b = [];
  bo_first : forall l, head (batch_lines b) = Some l -> snd l = false;
  bo_concat : Forall (fun l => snd l = true -> fst l <> []) (batch_lines b);
}.

Inductive BatchOp : Type :=
| BLine (tags : list Tag) (p : list str) (kind : MessageKind)
| BBatch (negotiated : bool) (tags : list Tag) (label : option str) (p : list str).

Definition batch_step (m : CaseMapping) (open : option MultilineBatch) (o : BatchOp) : BatchOutcome * option MultilineBatch :=
  match o with
  | BLine tags p kind => let '(open, r) := multiline_collect m tags p kind open in (r, open)
  | BBatch negotiated tags label p => let '(open, r) := cmd_batch negotiated tags label p open in (r, open)
  end.

Definition open_ok (open : option MultilineBatch) : Prop := forall b, open = Some b -> batch_ok b.

(** What an outcome promises. *)
Definition outcome_ok (r : BatchOutcome) : Prop :=
  match r with
  | Closed (Ok c) =>
      length (completed_lines c) <= MULTILINE_MAX_LINES /\ text_bytes (completed_lines c) <= MULTILINE_MAX_BYTES
      /\ Exists (fun l => fst l <> []) (completed_lines c)
      /\ Forall (fun l => snd l = true -> fst l <> []) (completed_lines c)
      /\ forall l, head (completed_lines c) = Some l -> snd l = false
  | _ => True
  end.

Lemma text_bytes_snoc lines l : text_bytes (lines ++ [l]) = text_bytes lines + length (fst l).
Proof. unfold text_bytes. rewrite fmap_app, list_sum_app. cbn. lia. Qed.

Lemma collect_ok m tags p kind open :
  open_ok open -> open_ok (fst (multiline_collect m tags p kind open)) /\ outcome_ok (snd (multiline_collect m tags p kind open)).
Proof.
  intros Ho. unfold multiline_collect. destruct (List.find _ tags) as [tag|]; [|done]. destruct open as [b|]; [|done].
  pose proof (Ho b eq_refl) as [H1 H2 [H3 H3'] H4 H5 H6].
  destruct (negb (str_eqb (batch_reference b) _)); [done|]. destruct (negb (str_eqb (casefold m _) _)); [done|].
  destruct (_ && is_empty (batch_lines b)) eqn:Ef; [done|]. destruct (_ && is_empty (default [] (p !! 1))) eqn:Eb; [done|].
  destruct (match batch_kind b with Some _ => _ | None => _ end); [done|].
  destruct (MULTILINE_MAX_LINES <=? length (batch_lines b)) eqn:El; [done|]. destruct (MULTILINE_MAX_BYTES <? _) eqn:Ey; [done|].
  apply Nat.leb_gt in El. apply Nat.ltb_ge in Ey. split; [|done]. intros b' [= <-].
  split; cbn [batch_reference batch_lines batch_bytes batch_kind]; [done| | | | |].
  - rewrite length_app. cbn. lia.
  - rewrite text_bytes_snoc, <- H3. done.
  - split; [done|]. by intros []%app_nil.
  - intros l. destruct (batch_lines b) as [|l0 ls]; [|intros [= <-]; by apply H5]. intros [= <-]. cbn.
    by rewrite andb_true_r in Ef.
  - apply Forall_app. split; [done|]. constructor; [|constructor]. cbn [fst snd]. intros Hc. rewrite Hc in Eb. by apply is_empty_false in Eb.
Qed.

Lemma complete_ok b : batch_ok b -> outcome_ok (Closed (complete b)).
Proof.
  intros [H1 H2 [H3 H3'] H4 H5 H6]. unfold complete. destruct (batch_kind b) as [kind|]; [|done]. destruct (is_empty (batch_lines b)); [done|].
  destruct (forallb _ _) eqn:Ef; [done|]. cbn [outcome_ok completed_lines]. split_and!; [done|by rewrite <- H3| |done|done].
  apply Bool.not_true_iff_false in Ef. destruct (decide (Exists (fun l : str * bool => fst l <> []) (batch_lines b))) as [|Hn]; [done|]. exfalso.
  apply Ef, forallb_true_iff. apply not_Exists_Forall in Hn; [|apply _]. eapply Forall_impl; [exact Hn|]. intros l Hl. cbn in *.
  apply is_empty_true. by apply dec_stable.
Qed.

Lemma cmd_batch_ok negotiated tags label p open :
  open_ok open -> open_ok (fst (cmd_batch negotiated tags label p open)) /\ outcome_ok (snd (cmd_batch negotiated tags label p open)).
Proof.
  intros Ho. unfold cmd_batch. destruct (head p) as [word|]; [|done]. destruct (chars word) as [|sign rest]; [done|].
  destruct (str_eqb sign (bs "+")).
  - destruct (is_empty (mjoin rest)) eqn:Er; [done|]. destruct (negb negotiated); [done|].
    destruct (p !! 1) as [ty|], (p !! 2) as [target|]; try done. destruct (negb _); [done|]. case_bool_decide; [done|].
    split; [|done]. intros b [= <-]. apply is_empty_false in Er. split; cbn; try done; lia.
  - destruct (str_eqb sign (bs "-")); [|done]. destruct open as [b|]; [|done]. destruct (str_eqb _ _); [|done].
    split; [done|]. apply complete_ok. by apply Ho.
Qed.

(** Whatever a client sends, an open batch stays within the limits on lines
    and bytes its capability advertises, and the message a closing completes
    is within them, has text, begins with a line that continues nothing, and
    has no blank continuation. *)
Theorem multiline_batches_bounded (m : CaseMapping) (ops : list BatchOp) :
  let '(outcomes, open) := runs (batch_step m) None ops in
  (forall b, open = Some b -> batch_ok b) /\ Forall outcome_ok outcomes.
Proof.
  assert (H : forall open, open_ok open -> open_ok (snd (runs (batch_step m) open ops)) /\ Forall outcome_ok (fst (runs (batch_step m) open ops))).
  { induction ops as [|o ops IH]; intros open Ho; [by split; [|constructor]|]. cbn [runs].
    assert (Hstep : open_ok (snd (batch_step m open o)) /\ outcome_ok (fst (batch_step m open o))).
    { destruct o as [tags p kind|negotiated tags label p]; cbn [batch_step].
      - pose proof (collect_ok m tags p kind open Ho) as Hc. by destruct (multiline_collect m tags p kind open).
      - pose proof (cmd_batch_ok negotiated tags label p open Ho) as Hc. by destruct (cmd_batch negotiated tags label p open). }
    destruct (batch_step m open o) as [r open1]. destruct Hstep as [H1 H2]. cbn [fst snd] in *.
    specialize (IH open1 H1). destruct (runs (batch_step m) open1 ops) as [rs open2]. cbn in *. destruct IH. split; [done|by constructor]. }
  pose proof (H None ltac:(done)) as Hr. destruct (runs (batch_step m) None ops) as [outcomes open]. exact Hr.
Qed.
