(* ===== verification/Deliver.v ===== *)
(** * Message delivery ([e6ircd/src/core/handler/message.rs]; [deliver_message]
      and [deliver_and_echo] of [channel.rs])

    PRIVMSG, NOTICE, TAGMSG and multiline messages: the one gate a channel puts
    them through, who receives them and what of them history keeps; and direct
    messages to users.  The wall clock is read once per message.  The database
    is the request it is handed, and whether its queue took it. *)

From stdpp Require Import gmap.
From S2P Require Import Prelude Str Keys Casemap Num Time Message Parse Sanitize Wire Ip Address BanMask Nicks Recency HistoryRing HotHistory Channel ChannelState Directories Publish Users Registry Events ModeChange ChannelOps Multiline.

Local Open Scope Z_scope.

(** ** Targets *)

Inductive StatusSigil : Type := OpsOnly | Voiced.

Definition sigil_split (target : str) : option StatusSigil * str :=
  match target with
  | b :: rest =>
      if (b =b? "@") && starts_with "#" rest then (Some OpsOnly, rest)
      else if (b =b? "+") && starts_with "#" rest then (Some Voiced, rest)
      else (None, target)
  | [] => (None, target)
  end.

Definition sigil_wire (s : StatusSigil) : str := match s with OpsOnly => bs "@" | Voiced => bs "+" end.
Definition sigil_admits (s : StatusSigil) (modes : MemberModes) : bool :=
  match s with OpsOnly => op modes | Voiced => op modes || voice modes end.

(** [CanonicalTarget::channel]. *)
Definition canonical_channel (sigil : option StatusSigil) (name : str) : str :=
  match sigil with Some s => sigil_wire s ++ name | None => name end.

Definition relayed_line (prefix verb target text : str) : str * str :=
  let overhead := (1 + length prefix + 1 + length verb + 1 + length target + 2)%nat in
  let text := truncate_on_char_boundary text (510 - overhead) in
  (bs ":" ++ prefix ++ bs " " ++ verb ++ bs " " ++ target ++ bs " :" ++ text, text).

Definition tagmsg_line (prefix target : str) : str := bs ":" ++ prefix ++ bs " TAGMSG " ++ target.

Definition kind_history (k : MessageKind) : HistoryKind := match k with Privmsg => KPrivmsg | Notice => KNotice end.

(** ** History *)

(** What the database is asked to keep ([DbRequest::LogMessage]). *)
Record LogMessage : Type := MkLog {
  log_target : str;
  log_peers : list str;
  log_row : HistoryRow;
  log_body : str;
}.

Definition plain_body (row : HistoryRow) : str :=
  match row_multiline row with Some encoded => multiline_plain_text encoded | None => row_body row end.

(** What of the configuration matters: whether a database backs the history,
    its bounds, and whether the database's queue takes this message. *)
Record HistoryConfig : Type := MkHistoryConfig {
  sasl_enabled : bool;
  history_bounds : HotHistoryBounds;
  queue_takes : bool;
}.

Section Deliver.
Context `{IpNet} (entry_size : N).
Abbreviation Channel := (Channel (Caps := Caps)).
Abbreviation Recipient := (Recipient (Caps := Caps)).
Abbreviation ShardState := (ShardState (Caps := Caps)).

Definition record_history (c : HistoryConfig) (key : str) (dm_peers : list str) (entry : HistoryRow) (st : ShardState)
    : option (ShardState * option LogMessage) :=
  st ← push_history entry_size key entry (negb (sasl_enabled c)) (history_bounds c) st;
  if existsb (starts_with "~") dm_peers || negb (sasl_enabled c) then Some (st, None)
  else if queue_takes c then Some (st, Some (MkLog key dm_peers entry (plain_body entry)))
  else Some (on_history (mark_incomplete key) st, None).

(** ** The gate *)

Inductive SpeakRefusal : Type := CannotSend | NoCtcp | NotPrivileged.

Definition speak_refusal (ch : Channel) (conn : Z) (m : CaseMapping) (subject : MaskSubject) (status : option StatusSigil)
    (carries_blocked_ctcp : bool) : option SpeakRefusal :=
  let mb := member conn ch in
  if bool_decide (is_Some status) && negb (match mb with Some modes => op modes || voice modes | None => false end)
  then Some NotPrivileged
  else if negb (may_speak mb m subject ch) then Some CannotSend
  else if no_ctcp (chan_modes ch) && carries_blocked_ctcp then Some NoCtcp
  else None.

(** Everyone a channel message reaches, the sender aside. *)
Definition audience (conn : Z) (status : option StatusSigil) (ch : Channel) : list Recipient :=
  recipients_where (fun member modes =>
    negb (member =? conn) && match status with Some sigil => sigil_admits sigil modes | None => true end) ch.

(** ** Delivery *)

(** [deliver_message]; [capture] is the connection a capture collects for. *)
Definition deliver_message (e : Env) (rs : list Recipient) (d : Delivery) : list Outgoing :=
  (fun r => route (env_shard e) (if d_bypass_capture d then None else env_capture e) r (render_delivery (recipient_caps r) d)) <$> rs.

Inductive ChannelMessageResult : Type :=
| Delivered (echo : option str)
| MessageNoSuchChannel (target : str) (loud : bool)
| MessageCannotSend (target : str) (why : SpeakRefusal) (loud : bool).

Definition message_entry (msgid : str) (ts : Z) (prefix : str) (account : option str) (kind : MessageKind) (text : str) (bot : bool)
    (client_tags : str) : HistoryRow :=
  MkRow msgid ts prefix account (kind_history kind) text bot None (history_client_tags client_tags).

Definition entry_delivery (entry : HistoryRow) (client_tags body : str) : Delivery :=
  MkDelivery (row_sender_account entry) (row_sender_is_bot entry) (row_msgid entry) client_tags body (row_ts entry) true.

(** A state, its message ids, and what was sent and handed to the database. *)
Record Effects : Type := MkEffects {
  ef_state : OwnerState;
  ef_ids : MsgidSource;
  ef_sent : list Outgoing;
  ef_log : option LogMessage;
}.

Definition message_on_owner (e : Env) (c : HistoryConfig) (actor : ChannelActor) (target text : str) (kind : MessageKind)
    (client_tags : str) (s : OwnerState) (ids : MsgidSource) : option (ChannelMessageResult * Effects) :=
  let '(status, chan_target) := sigil_split target in
  let key := ChannelOps.chan_key e chan_target in
  match os_channels s !! key with
  | None => Some (MessageNoSuchChannel target (is_loud kind), MkEffects s ids [] None)
  | Some ch =>
      match speak_refusal ch (actor_conn actor) (env_casemap e) (mask_subject actor) status (is_blocked_ctcp text) with
      | Some why => Some (MessageCannotSend target why (is_loud kind), MkEffects s ids [] None)
      | None =>
          let prefix := identity_prefix (actor_identity actor) in
          let '(line, text) := relayed_line prefix (kind_wire kind) (canonical_channel status (chan_name ch)) text in
          '(msgid, ids) ← msgid_next (env_now e) ids;
          let entry := message_entry msgid (env_now e) prefix (actor_account actor) kind text (actor_bot actor) client_tags in
          let d := entry_delivery entry client_tags line in
          let sent := deliver_message e (audience (actor_conn actor) status ch) d in
          let caps := recipient_caps (actor_recipient actor) in
          let echo := if echo_message caps then Some (render_delivery caps d) else None in
          match status with
          | Some _ => Some (Delivered echo, MkEffects s ids sent None)
          | None =>
              '(st, log) ← record_history c key [] entry (os_state s);
              Some (Delivered echo, MkEffects (set_state (fun _ => st) s) ids sent log)
          end
      end
  end.

(** *** TAGMSG *)

Definition tagmsg_audience (rs : list Recipient) : list Recipient := List.filter (fun r => message_tags (recipient_caps r)) rs.

Definition tagmsg_entry (msgid : str) (ts : Z) (prefix : str) (account : option str) (bot : bool) (client_tags : str) : HistoryRow :=
  MkRow msgid ts prefix account KTagmsg [] bot None (history_client_tags client_tags).

Definition tagmsg_on_owner (e : Env) (c : HistoryConfig) (actor : ChannelActor) (target client_tags : str)
    (s : OwnerState) (ids : MsgidSource) : option (ChannelMessageResult * Effects) :=
  let '(status, chan_target) := sigil_split target in
  let key := ChannelOps.chan_key e chan_target in
  match os_channels s !! key with
  | None => Some (MessageNoSuchChannel target true, MkEffects s ids [] None)
  | Some ch =>
      match speak_refusal ch (actor_conn actor) (env_casemap e) (mask_subject actor) status false with
      | Some why => Some (MessageCannotSend target why true, MkEffects s ids [] None)
      | None =>
          let prefix := identity_prefix (actor_identity actor) in
          let line := tagmsg_line prefix (canonical_channel status (chan_name ch)) in
          '(msgid, ids) ← msgid_next (env_now e) ids;
          let entry := tagmsg_entry msgid (env_now e) prefix (actor_account actor) (actor_bot actor) client_tags in
          let d := entry_delivery entry client_tags line in
          let sent := deliver_message e (tagmsg_audience (audience (actor_conn actor) status ch)) d in
          let caps := recipient_caps (actor_recipient actor) in
          let echo := if echo_message caps then Some (render_delivery caps d) else None in
          if bool_decide (status = None) && negb (is_empty (row_client_tags entry)) then
            '(st, log) ← record_history c key [] entry (os_state s);
            Some (Delivered echo, MkEffects (set_state (fun _ => st) s) ids sent log)
          else Some (Delivered echo, MkEffects s ids sent None)
      end
  end.

(** *** Multiline *)

Inductive ChannelMultilineResult : Type :=
| MultilineDelivered (echo : list str) (label : option str)
| MultilineNoSuchChannel (target : str) (loud : bool) (label : option str)
| MultilineCannotSend (target : str) (why : SpeakRefusal) (loud : bool) (label : option str).

Definition multiline_history_entry (m : MultilineMessage) : HistoryRow :=
  MkRow (mm_msgid m) (mm_ts m) (mm_prefix m) (mm_account m) (kind_history (mm_kind m)) [] (mm_bot m)
    (Some (encode_multiline (mm_lines m))) (history_client_tags (mm_client_tags m)).

(** The lines one recipient is sent, each with its CRLF. *)
Definition multiline_copy (e : Env) (m : MultilineMessage) (batch_ref : str) (label : option str) (caps : Caps) : list str :=
  (fun line => line ++ CRLF) <$> render_multiline m (MkFraming (history_caps caps) batch_ref None label (env_server e)).

Definition multiline_on_owner (e : Env) (c : HistoryConfig) (actor : ChannelActor) (b : CompletedMultiline)
    (s : OwnerState) (ids : MsgidSource) : option (ChannelMultilineResult * Effects) :=
  let kind := completed_kind b in
  let '(status, chan_target) := sigil_split (completed_target b) in
  let key := ChannelOps.chan_key e chan_target in
  match os_channels s !! key with
  | None => Some (MultilineNoSuchChannel (completed_target b) (is_loud kind) (completed_label b), MkEffects s ids [] None)
  | Some ch =>
      match speak_refusal ch (actor_conn actor) (env_casemap e) (mask_subject actor) status
              (multiline_carries_blocked_ctcp (completed_lines b)) with
      | Some why => Some (MultilineCannotSend (completed_target b) why (is_loud kind) (completed_label b), MkEffects s ids [] None)
      | None =>
          '(msgid, ids) ← msgid_next (env_now e) ids;
          '(batch_ref, ids) ← msgid_next (env_now e) ids;
          let m := MkMultiline (identity_prefix (actor_identity actor)) kind (canonical_channel status (chan_name ch))
                     (completed_lines b) (completed_client_tags b) msgid (env_now e) (actor_account actor) (actor_bot actor) in
          let sent := flat_map (fun r => (fun line => route (env_shard e) None r line)
                        <$> multiline_copy e m batch_ref None (recipient_caps r)) (audience (actor_conn actor) status ch) in
          let caps := recipient_caps (actor_recipient actor) in
          let echo := if echo_message caps then multiline_copy e m batch_ref (completed_label b) caps else [] in
          let r := MultilineDelivered echo (completed_label b) in
          match status with
          | Some _ => Some (r, MkEffects s ids sent None)
          | None =>
              '(st, log) ← record_history c key [] (multiline_history_entry m) (os_state s);
              Some (r, MkEffects (set_state (fun _ => st) s) ids sent log)
          end
      end
  end.

(** ** Direct messages

    The user half of [deliver_one_message]: the sender is a session of this
    shard, the peer's session may live anywhere. *)

Inductive DirectResult : Type :=
| NoSuchNick (loud : bool)
| NonRegistered (nick : str) (loud : bool)
(** [forward] is the copy for the shard of the peer's session. *)
| DirectDelivered (echo : option str) (away : option str) (forward : option (SessionOwner * str * HistoryRow)).

Definition registered_user (key : str) (nicks : NickDirectory) (users : Users (Caps := Caps)) : option (PublicUser (Caps := Caps)) :=
  owner ← registered_owner key nicks;
  users_by_conn users !! owner_conn owner.

(** [conn_identity] of a registered session. *)
Definition actor_identity_key (m : CaseMapping) (a : ChannelActor) : str :=
  match actor_account a with
  | Some account => casefold m account
  | None => bs "~" ++ casefold m (identity_nick (actor_identity a))
  end.

Definition direct_message (e : Env) (c : HistoryConfig) (actor : ChannelActor) (sender_oper : bool) (target text : str)
    (kind : MessageKind) (client_tags : str) (nicks : NickDirectory) (users : Users (Caps := Caps)) (s : OwnerState) (ids : MsgidSource)
    : option (DirectResult * Effects) :=
  let m := env_casemap e in
  match registered_user (casefold m target) nicks users with
  | None => Some (NoSuchNick (is_loud kind), MkEffects s ids [] None)
  | Some peer =>
      if refuses_unregistered (actor_conn actor) (actor_account actor) sender_oper peer
      then Some (NonRegistered (pu_nick peer) (is_loud kind), MkEffects s ids [] None)
      else
        let prefix := identity_prefix (actor_identity actor) in
        let '(line, text) := relayed_line prefix (kind_wire kind) (pu_nick peer) text in
        '(msgid, ids) ← msgid_next (env_now e) ids;
        let entry := message_entry msgid (env_now e) prefix (actor_account actor) kind text (actor_bot actor) client_tags in
        let d := entry_delivery entry client_tags line in
        let sent := deliver_message e [pu_recipient peer] d in
        let caps := recipient_caps (actor_recipient actor) in
        let echo := if echo_message caps then Some (render_delivery caps d) else None in
        let '(key, peers) := dm_conversation_key (actor_identity_key m actor) (pu_identity m peer) in
        '(st, log) ← record_history c key peers entry (os_state s);
        let away := if is_loud kind && negb (pu_conn peer =? actor_conn actor) then pu_away peer else None in
        let owner := recipient_owner (pu_recipient peer) in
        let forward := if owner_shard owner =? env_shard e then None else Some (owner, key, entry) in
        Some (DirectDelivered echo away forward, MkEffects (set_state (fun _ => st) s) ids sent log)
  end.

(** ** Who receives what *)

Definition copy_to (conn : Z) (o : Outgoing) : option str :=
  match o with
  | SendBytes c line => if c =? conn then Some line else None
  | Remote owner line => if owner_conn owner =? conn then Some line else None
  end.

(** The lines [conn] is sent, in order. *)
Definition copies (conn : Z) (sent : list Outgoing) : list str := omap (copy_to conn) sent.

Lemma copy_route shard r bytes conn :
  copy_to conn (route shard None r bytes) = if recipient_conn r =? conn then Some bytes else None.
Proof. unfold route. by destruct (negb _ && _). Qed.

Lemma copies_route shard conn r lines :
  copies conn ((fun line => route shard None r line) <$> lines) = if recipient_conn r =? conn then lines else [].
Proof.
  unfold copies. induction lines as [|l lines IH]; [by destruct (_ =? _)|]. cbn [fmap list_fmap map]. cbn. rewrite copy_route.
  cbn in IH. rewrite IH. by destruct (_ =? _).
Qed.

Lemma copies_app conn a b : copies conn (a ++ b) = copies conn a ++ copies conn b.
Proof. apply omap_app. Qed.

(** A fan-out over members under their own connections gives each its copy. *)
Lemma copies_members shard (f : Recipient -> list str) conn (l : list (Z * ChannelMember (Caps := Caps))) :
  NoDup l.*1 -> Forall (fun x => recipient_conn (member_recipient (snd x)) = fst x) l ->
  copies conn (flat_map (fun r => (fun line => route shard None r line) <$> f r) ((fun '(_, mb) => member_recipient mb) <$> l))
  = match list_find (fun x => fst x = conn) l with Some (_, (_, mb)) => f (member_recipient mb) | None => [] end.
Proof.
  induction l as [|[c mb] l IH]; intros Hn Hc; [done|]. apply NoDup_cons in Hn as [Hnot Hn]. apply Forall_cons in Hc as [Hm Hc].
  cbn [fmap list_fmap map flat_map fst snd] in *. rewrite copies_app, copies_route, Hm, IH by done. cbn [list_find fst].
  destruct (decide (c = conn)) as [->|Hne].
  - rewrite Z.eqb_refl. destruct (list_find _ l) as [[i [c' mb']]|] eqn:E; cbn; [|apply app_nil_r].
    apply list_find_Some in E as (Hl & Hc' & _). cbn in Hc'. subst c'. exfalso. apply Hnot.
    apply list_elem_of_fmap. exists (conn, mb'). split; [done|]. by eapply list_elem_of_lookup_2.
  - apply Z.eqb_neq in Hne. rewrite Hne. cbn [app]. by destruct (list_find _ l) as [[i [c' mb']]|].
Qed.

Lemma NoDup_Lfilter_fst {A B} (f : A * B -> bool) (l : list (A * B)) : NoDup l.*1 -> NoDup (List.filter f l).*1.
Proof.
  induction l as [|x l IH]; [done|]. rewrite fmap_cons. intros [Hx Hn]%NoDup_cons. cbn [List.filter]. destruct (f x); [|by apply IH].
  rewrite fmap_cons. apply NoDup_cons. split; [|by apply IH]. intros (y & E & [Hy _]%elem_of_Lfilter)%list_elem_of_fmap.
  apply Hx. rewrite E. by apply list_elem_of_fmap_2.
Qed.

(** Whether a message from [sender] under [status] reaches a member. *)
Definition reaches (sender : Z) (status : option StatusSigil) (conn : Z) (modes : MemberModes) : bool :=
  negb (conn =? sender) && match status with Some sigil => sigil_admits sigil modes | None => true end.

Lemma list_find_filter_map (P : Z -> ChannelMember (Caps := Caps) -> bool) conn (members : gmap Z ChannelMember) :
  match list_find (fun x => fst x = conn) (List.filter (fun '(c, mb) => P c mb) (map_to_list members)) with
  | Some (_, (_, mb)) => Some mb | None => None end
  = match members !! conn with Some mb => if P conn mb then Some mb else None | None => None end.
Proof.
  destruct (list_find _ _) as [[i [c mb]]|] eqn:E.
  - apply list_find_Some in E as (Hl & Hc & _). cbn in Hc. subst c. apply list_elem_of_lookup_2, elem_of_Lfilter in Hl as [Hm Hp].
    apply elem_of_map_to_list in Hm. by rewrite Hm, Hp.
  - apply list_find_None in E. destruct (members !! conn) as [mb|] eqn:Em; [|done]. destruct (P conn mb) eqn:Ep; [|done]. exfalso.
    rewrite Forall_forall in E. apply (E (conn, mb)); [|done]. apply elem_of_Lfilter. split; [by apply elem_of_map_to_list|done].
Qed.

Lemma audience_copies shard sender status (ch : Channel) (f : Recipient -> list str) conn :
  cache_ok ch ->
  copies conn (flat_map (fun r => (fun line => route shard None r line) <$> f r) (audience sender status ch))
  = match chan_members ch !! conn with
    | Some mb => if reaches sender status conn (member_modes mb) then f (member_recipient mb) else []
    | None => []
    end.
Proof.
  intros Hch. unfold audience, recipients_where. rewrite copies_members.
  - pose proof (list_find_filter_map (fun c mb => reaches sender status c (member_modes mb)) conn (chan_members ch)) as Hf.
    unfold reaches in *. destruct (list_find _ _) as [[i [c mb]]|], (chan_members ch !! conn) as [mb'|]; cbn in *; try done.
    + destruct (negb _ && _); by simplify_eq.
    + by destruct (negb _ && _).
  - apply (NoDup_Lfilter_fst). apply NoDup_fst_map_to_list.
  - apply Forall_forall. intros [c mb] [Hm _]%elem_of_Lfilter. apply elem_of_map_to_list in Hm. by apply (cache_conn _ Hch).
Qed.

Lemma deliver_audience e sender status (ch : Channel) d conn :
  cache_ok ch -> d_bypass_capture d = true ->
  copies conn (deliver_message e (audience sender status ch) d)
  = match chan_members ch !! conn with
    | Some mb => if reaches sender status conn (member_modes mb) then [render_delivery (recipient_caps (member_recipient mb)) d] else []
    | None => []
    end.
Proof.
  intros Hch Hd. rewrite <- (audience_copies (env_shard e) sender status ch (fun r => [render_delivery (recipient_caps r) d]) conn Hch).
  f_equal. unfold deliver_message. rewrite Hd. induction (audience sender status ch) as [|r rs IH]; [done|]. cbn. by f_equal.
Qed.

Lemma tagmsg_deliver e rs d :
  d_bypass_capture d = true ->
  deliver_message e (tagmsg_audience rs) d
  = flat_map (fun r => (fun line => route (env_shard e) None r line)
      <$> (if message_tags (recipient_caps r) then [render_delivery (recipient_caps r) d] else [])) rs.
Proof.
  intros Hd. unfold deliver_message, tagmsg_audience. rewrite Hd. induction rs as [|r rs IH]; [done|].
  cbn [List.filter flat_map]. destruct (message_tags (recipient_caps r)); cbn [fmap list_fmap map app]; [by f_equal|done].
Qed.

(** ** What history keeps *)

(** [entry] was put in [key]'s ring, and the database asked to keep it exactly
    when there is one and every party is authenticated; a message it could not
    take leaves the ring marked incomplete. *)
Definition stored (c : HistoryConfig) (key : str) (peers : list str) (entry : HistoryRow) (h h' : HotHistory) (log : option LogMessage) : Prop :=
  let persisted := sasl_enabled c && negb (existsb (starts_with "~") peers) in
  let pushed := ring_push entry_size entry (max_ring_bytes (history_bounds c)) (default (HistoryRing_new (negb (sasl_enabled c))) (rings h !! key)) in
  (exists ring, rings h' !! key = Some ring /\ entries ring = entries pushed
     /\ HistoryRing.complete ring = HistoryRing.complete pushed && negb (persisted && negb (queue_takes c)))
  /\ log = (if persisted && queue_takes c then Some (MkLog key peers entry (plain_body entry)) else None).

Lemma record_history_spec c key peers entry st :
  hot_ok entry_size (shard_history st) -> bounds_ok (history_bounds c) ->
  exists st' log, record_history c key peers entry st = Some (st', log)
    /\ own_channels (shard_channels st') = own_channels (shard_channels st) /\ memberships st' = memberships st
    /\ hot_ok entry_size (shard_history st')
    /\ stored c key peers entry (shard_history st) (shard_history st') log.
Proof.
  intros Hh Hb. destruct (hot_push_spec entry_size key entry (negb (sasl_enabled c)) (history_bounds c) (shard_history st) Hb Hh)
    as (n & h' & E & Hok & Hr & _). unfold record_history, push_history. rewrite E. cbn [mbind option_bind]. cbn zeta in Hr.
  set (pushed := ring_push entry_size entry (max_ring_bytes (history_bounds c)) _) in Hr.
  assert (Hring : rings h' !! key = Some pushed).
  { rewrite Hr, lookup_without_rings_ne; [apply lookup_insert_eq|]. apply key_not_cold. }
  set (evicted := take n _) in *. destruct (rings_changed evicted (channel_ring_changed key (shard_channels st))) as (H1 & _ & _).
  destruct (ring_changed_own key (shard_channels st)) as [H2 _]. rewrite H2 in H1.
  destruct (existsb (starts_with "~") peers) eqn:Ep, (sasl_enabled c) eqn:Es; cbn [orb negb];
    [| | |]; try (eexists _, _; split; [done|]; cbn [shard_channels memberships shard_history]; split_and!; [done|done|done|];
      unfold stored; rewrite Es, Ep; cbn [andb negb]; split; [|done]; exists pushed; by rewrite andb_true_r).
  destruct (queue_takes c) eqn:Eq; eexists _, _; (split; [done|]); cbn [shard_channels memberships shard_history on_history]; split_and!; try done;
    unfold stored; rewrite ?Es, ?Ep, ?Eq; cbn [andb negb].
  - split; [|done]. exists pushed. by rewrite andb_true_r.
  - by apply mark_incomplete_ok.
  - split; [|done]. unfold mark_incomplete. rewrite Hring. eexists. cbn [rings]. split; [apply lookup_insert_eq|]. split; [done|].
    cbn [HistoryRing.complete]. by rewrite andb_false_r.
Qed.

(** ** Lines *)

Lemma relayed_again prefix verb target text :
  relayed_line prefix verb target (snd (relayed_line prefix verb target text)) = relayed_line prefix verb target text.
Proof.
  unfold relayed_line. cbn [snd]. set (n := (510 - _)%nat).
  rewrite (truncate_short (truncate_on_char_boundary text n) n) by apply truncate_le. done.
Qed.

Lemma relayed_fits prefix verb target text :
  (length prefix + length verb + length target <= 505)%nat -> (length (fst (relayed_line prefix verb target text)) <= 510)%nat.
Proof.
  intros Hl. unfold relayed_line. cbn [fst]. set (n := (510 - _)%nat). pose proof (truncate_le text n) as Ht. rewrite !length_app.
  change (length (bs ":")) with 1%nat. change (length (bs " ")) with 1%nat. change (length (bs " :")) with 2%nat. unfold n in *. lia.
Qed.

Lemma msgid_next_Some now ids : counter ids < U64_MAX -> is_Some (msgid_next now ids).
Proof.
  intros Hc. unfold msgid_next, checked_add_u64. destruct (_ <=? _) eqn:E; [by eexists|]. apply Z.leb_gt in E. lia.
Qed.

Lemma msgid_next_twice now ids :
  0 <= counter ids < U64_MAX - 1 ->
  exists a ids1 b ids2, msgid_next now ids = Some (a, ids1) /\ msgid_next now ids1 = Some (b, ids2) /\ a <> b.
Proof.
  intros Hc. unfold msgid_next, checked_add_u64. rewrite (proj2 (Z.leb_le (counter ids + 1) _)) by lia. cbn [mbind option_bind].
  eexists _, _, _, _. split; [done|]. cbn [counter stem]. rewrite (proj2 (Z.leb_le (counter ids + 1 + 1) _)) by lia.
  split; [done|]. intros Heq. do 3 apply app_inv_head in Heq.
  pose proof (hex_fixed_lt 16 (counter ids + 1) (counter ids + 1 + 1)) as Hlt. unfold hex16 in *. rewrite Heq, str_ltb_irrefl in Hlt.
  unfold U64_MAX in *. discriminate Hlt; cbn; lia.
Qed.

(** *** Who is anonymous *)

Lemma lower_tilde m b : lower m b = "~"%byte -> b = "~"%byte.
Proof. by destruct m, b. Qed.

Lemma identity_anonymous m (account : option str) nick :
  (forall a, account = Some a -> starts_with "~" a = false) ->
  starts_with "~" (match account with Some a => casefold m a | None => bs "~" ++ casefold m nick end)
  = negb (bool_decide (is_Some account)).
Proof.
  intros Ha. destruct account as [a|]; [|done]. rewrite bool_decide_true by done. cbn [negb].
  specialize (Ha a eq_refl). destruct a as [|b a]; [done|]. unfold starts_with, casefold in *. cbn [fmap list_fmap map] in *.
  apply byte_eqb_neq. apply byte_eqb_neq in Ha. intros Hl%lower_tilde. done.
Qed.

Lemma conversation_anonymous a b : existsb (starts_with "~") (snd (dm_conversation_key a b)) = starts_with "~" a || starts_with "~" b.
Proof.
  destruct (dm_key_lo_hi a b) as (lo & hi & _ & _ & Hlh & ->). case_bool_decide as He; cbn [existsb]; rewrite ?orb_false_r;
    destruct Hlh as [[-> ->]|[-> ->]]; subst; rewrite ?orb_diag; try done; apply orb_comm.
Qed.

(** Whether a channel lets someone speak, by its rules: a status message
    needs op or voice; someone with op or voice may speak; anyone else may when
    the channel is not moderated, no mask silences them and, from outside, the
    channel takes outside messages; and a channel that blocks CTCP takes none. *)
Theorem speak_rules (ch : Channel) (conn : Z) (m : CaseMapping) (subject : MaskSubject) (status : option StatusSigil) (ctcp : bool) :
  let privileged := exists modes, member conn ch = Some modes /\ op modes || voice modes = true in
  speak_refusal ch conn m subject status ctcp = None <->
  (status = None \/ privileged)
  /\ (privileged \/ (moderated (chan_modes ch) = false /\ is_silenced m subject ch = false
                     /\ (is_member conn ch = true \/ no_external (chan_modes ch) = false)))
  /\ (no_ctcp (chan_modes ch) = true -> ctcp = false).
Proof.
  cbn zeta. assert (Hp : (exists modes, member conn ch = Some modes /\ op modes || voice modes = true)
    <-> match member conn ch with Some modes => op modes || voice modes | None => false end = true).
  { destruct (member conn ch); naive_solver. }
  assert (Hm : is_member conn ch = true <-> is_Some (member conn ch)) by (rewrite is_member_iff; unfold is_Some; naive_solver).
  rewrite Hp. unfold speak_refusal, may_speak.
  destruct (member conn ch) as [modes|] eqn:E.
  - assert (is_member conn ch = true) as Hm' by (by apply Hm).
    destruct (op modes || voice modes) eqn:Ev; destruct status, (moderated (chan_modes ch)), (is_silenced m subject ch), (no_ctcp (chan_modes ch)), ctcp;
      cbn; naive_solver.
  - assert (is_member conn ch = false) as Hm' by (apply Bool.not_true_iff_false; rewrite Hm; by intros []).
    destruct status, (moderated (chan_modes ch)), (is_silenced m subject ch), (no_ctcp (chan_modes ch)), (no_external (chan_modes ch)), ctcp;
      cbn; naive_solver.
Qed.

Section Exact.
Context (e : Env) (c : HistoryConfig) (actor : ChannelActor) (s : OwnerState) (ids : MsgidSource).
(** What the invariants of the channels, the history and the ids give. *)
Context (Hch : forall key ch, os_channels s !! key = Some ch -> cache_ok ch).
Context (Hhot : hot_ok entry_size (shard_history (os_state s))) (Hb : bounds_ok (history_bounds c)).
Abbreviation me := (actor_conn actor).
Abbreviation prefix := (identity_prefix (actor_identity actor)).
Abbreviation my_caps := (recipient_caps (actor_recipient actor)).

(** C25. A message to a channel: with no such channel, or refused, nothing is
    sent, stored or changed.  Otherwise every member but the sender whom the
    status sigil admits is sent exactly one copy, rendered for what it
    negotiated, and no one else any; the sender is echoed one when it asked;
    all copies carry one id and time, and the text history keeps under that id
    and time is the text delivered, so that a replay is the same line.  A
    status message is not kept. *)
Theorem channel_message_exact (target text : str) (kind : MessageKind) (client_tags : str) (Hids : counter ids < U64_MAX) :
  exists r ef, message_on_owner e c actor target text kind client_tags s ids = Some (r, ef)
  /\ let '(status, name) := sigil_split target in
     let key := ChannelOps.chan_key e name in
     match os_channels s !! key with
     | None => r = MessageNoSuchChannel target (is_loud kind) /\ ef = MkEffects s ids [] None
     | Some ch =>
         match speak_refusal ch me (env_casemap e) (mask_subject actor) status (is_blocked_ctcp text) with
         | Some why => r = MessageCannotSend target why (is_loud kind) /\ ef = MkEffects s ids [] None
         | None =>
             let relay := relayed_line prefix (kind_wire kind) (canonical_channel status (chan_name ch)) in
             exists entry d,
               msgid_next (env_now e) ids = Some (row_msgid entry, ef_ids ef)
               /\ (d_msgid d, d_ts d, d_body d) = (row_msgid entry, row_ts entry, fst (relay text))
               /\ relay (row_body entry) = relay text
               /\ r = Delivered (if echo_message my_caps then Some (render_delivery my_caps d) else None)
               /\ (forall conn, copies conn (ef_sent ef)
                    = match chan_members ch !! conn with
                      | Some mb => if reaches me status conn (member_modes mb)
                                   then [render_delivery (recipient_caps (member_recipient mb)) d] else []
                      | None => []
                      end)
               /\ os_channels (ef_state ef) = os_channels s
               /\ match status with
                  | Some _ => ef_state ef = s /\ ef_log ef = None
                  | None => stored c key [] entry (shard_history (os_state s)) (shard_history (os_state (ef_state ef))) (ef_log ef)
                  end
         end
     end.
Proof.
  unfold message_on_owner. destruct (sigil_split target) as [status name]. cbn zeta. set (key := ChannelOps.chan_key e name).
  destruct (os_channels s !! key) as [ch|] eqn:Ec; [|eexists _, _; split; [done|done]].
  destruct (speak_refusal _ _ _ _ _ _) as [why|]; [eexists _, _; split; [done|done]|].
  pose proof (relayed_again prefix (kind_wire kind) (canonical_channel status (chan_name ch)) text) as Hagain.
  destruct (relayed_line prefix (kind_wire kind) (canonical_channel status (chan_name ch)) text) as [line body]. cbn [snd] in Hagain.
  destruct (msgid_next_Some (env_now e) ids Hids) as [[msgid ids'] Eid]. rewrite Eid. cbn [mbind option_bind].
  set (entry := message_entry _ _ _ _ _ _ _ _). set (d := entry_delivery entry client_tags line).
  assert (Hsent : forall conn, copies conn (deliver_message e (audience me status ch) d)
    = match chan_members ch !! conn with
      | Some mb => if reaches me status conn (member_modes mb) then [render_delivery (recipient_caps (member_recipient mb)) d] else []
      | None => [] end) by (intros conn; apply deliver_audience; [by eapply Hch|done]).
  destruct status as [sigil|].
  - eexists _, _. split; [done|]. exists entry, d. split_and!; done.
  - destruct (record_history_spec c key [] entry (os_state s) Hhot Hb) as (st' & log & E & Hown & _ & _ & Hst). rewrite E. cbn [mbind option_bind].
    eexists _, _. split; [done|]. exists entry, d. split_and!; done.
Qed.

(** A TAGMSG to a channel goes through the gate a message goes through;
    it then reaches exactly those a message would who negotiated
    message-tags, one copy each, and history keeps it exactly when the channel
    at large was addressed and a tag that lasts is on it. *)
Theorem channel_tagmsg_exact (target client_tags : str) (Hids : counter ids < U64_MAX) :
  exists r ef, tagmsg_on_owner e c actor target client_tags s ids = Some (r, ef)
  /\ let '(status, name) := sigil_split target in
     let key := ChannelOps.chan_key e name in
     match os_channels s !! key with
     | None => r = MessageNoSuchChannel target true /\ ef = MkEffects s ids [] None
     | Some ch =>
         match speak_refusal ch me (env_casemap e) (mask_subject actor) status false with
         | Some why => r = MessageCannotSend target why true /\ ef = MkEffects s ids [] None
         | None =>
             exists entry d,
               msgid_next (env_now e) ids = Some (row_msgid entry, ef_ids ef)
               /\ (d_msgid d, d_ts d, d_body d)
                  = (row_msgid entry, row_ts entry, tagmsg_line prefix (canonical_channel status (chan_name ch)))
               /\ row_client_tags entry = history_client_tags client_tags
               /\ r = Delivered (if echo_message my_caps then Some (render_delivery my_caps d) else None)
               /\ (forall conn, copies conn (ef_sent ef)
                    = match chan_members ch !! conn with
                      | Some mb => if reaches me status conn (member_modes mb)
                                   then if message_tags (recipient_caps (member_recipient mb))
                                        then [render_delivery (recipient_caps (member_recipient mb)) d] else []
                                   else []
                      | None => []
                      end)
               /\ os_channels (ef_state ef) = os_channels s
               /\ (status = None /\ history_client_tags client_tags <> []
                   /\ stored c key [] entry (shard_history (os_state s)) (shard_history (os_state (ef_state ef))) (ef_log ef)
                   \/ (status <> None \/ history_client_tags client_tags = []) /\ ef_state ef = s /\ ef_log ef = None)
         end
     end.
Proof.
  unfold tagmsg_on_owner. destruct (sigil_split target) as [status name]. cbn zeta. set (key := ChannelOps.chan_key e name).
  destruct (os_channels s !! key) as [ch|] eqn:Ec; [|eexists _, _; split; [done|done]].
  destruct (speak_refusal _ _ _ _ _ _) as [why|]; [eexists _, _; split; [done|done]|].
  destruct (msgid_next_Some (env_now e) ids Hids) as [[msgid ids'] Eid]. rewrite Eid. cbn [mbind option_bind].
  set (entry := tagmsg_entry _ _ _ _ _ _). set (d := entry_delivery entry client_tags _).
  assert (Hsent : forall conn, copies conn (deliver_message e (tagmsg_audience (audience me status ch)) d) = _)
    by (intros conn; rewrite tagmsg_deliver by done;
        apply (audience_copies _ _ _ _ (fun r => if message_tags (recipient_caps r) then [render_delivery (recipient_caps r) d] else []));
        by eapply Hch).
  destruct (bool_decide (status = None) && negb (is_empty (row_client_tags entry))) eqn:Ek.
  - apply andb_true_iff in Ek as [->%bool_decide_eq_true Ht%negb_true_iff%is_empty_false].
    destruct (record_history_spec c key [] entry (os_state s) Hhot Hb) as (st' & log & E & Hown & _ & _ & Hst). rewrite E. cbn [mbind option_bind].
    eexists _, _. split; [done|]. exists entry, d. split_and!; try done. by left.
  - eexists _, _. split; [done|]. exists entry, d. split_and!; try done. right. split; [|done].
    apply andb_false_iff in Ek as [Hs%bool_decide_eq_false|Ht%negb_false_iff]; [by left|right].
    apply is_empty_true in Ht. done.
Qed.

(** C26. A message to a user: with no such user, or refused because the
    recipient takes messages of authenticated users only, nothing is sent or
    stored.  Otherwise the user is sent exactly one copy and no one else any;
    the conversation keeps the text delivered, under the key of the two
    identities; and the database is handed it only when both parties are
    authenticated, so that no later holder of a nickname reads it back.  The
    away text is returned for a PRIVMSG to someone else, and the shard of the
    recipient's session is given the same entry under the same key. *)
Theorem direct_message_exact (sender_oper : bool) (target text : str) (kind : MessageKind) (client_tags : str)
    (nicks : NickDirectory) (users : Users (Caps := Caps)) (Hids : counter ids < U64_MAX)
    (Hmine : forall a, actor_account actor = Some a -> starts_with "~" a = false)
    (Htheirs : forall conn u a, users_by_conn users !! conn = Some u -> pu_account u = Some a -> starts_with "~" a = false) :
  exists r ef, direct_message e c actor sender_oper target text kind client_tags nicks users s ids = Some (r, ef)
  /\ match registered_user (casefold (env_casemap e) target) nicks users with
     | None => r = NoSuchNick (is_loud kind) /\ ef = MkEffects s ids [] None
     | Some peer =>
         if refuses_unregistered me (actor_account actor) sender_oper peer
         then r = NonRegistered (pu_nick peer) (is_loud kind) /\ ef = MkEffects s ids [] None
         else
           let relay := relayed_line prefix (kind_wire kind) (pu_nick peer) in
           let parties := dm_conversation_key (actor_identity_key (env_casemap e) actor) (pu_identity (env_casemap e) peer) in
           let owner := recipient_owner (pu_recipient peer) in
           exists entry d,
             msgid_next (env_now e) ids = Some (row_msgid entry, ef_ids ef)
             /\ (d_msgid d, d_ts d, d_body d) = (row_msgid entry, row_ts entry, fst (relay text))
             /\ relay (row_body entry) = relay text
             /\ r = DirectDelivered (if echo_message my_caps then Some (render_delivery my_caps d) else None)
                      (if is_loud kind && negb (pu_conn peer =? me) then pu_away peer else None)
                      (if owner_shard owner =? env_shard e then None else Some (owner, fst parties, entry))
             /\ (forall conn, copies conn (ef_sent ef)
                  = if pu_conn peer =? conn then [render_delivery (recipient_caps (pu_recipient peer)) d] else [])
             /\ os_channels (ef_state ef) = os_channels s
             /\ stored c (fst parties) (snd parties) entry (shard_history (os_state s)) (shard_history (os_state (ef_state ef))) (ef_log ef)
             /\ (is_Some (ef_log ef) <-> sasl_enabled c = true /\ queue_takes c = true
                   /\ is_Some (actor_account actor) /\ is_Some (pu_account peer))
     end.
Proof.
  unfold direct_message. destruct (registered_user _ nicks users) as [peer|] eqn:Ep; [|eexists _, _; split; [done|done]].
  destruct (refuses_unregistered _ _ _ _); [eexists _, _; split; [done|done]|]. cbn zeta.
  pose proof (relayed_again prefix (kind_wire kind) (pu_nick peer) text) as Hagain.
  destruct (relayed_line prefix (kind_wire kind) (pu_nick peer) text) as [line body]. cbn [snd] in Hagain.
  destruct (msgid_next_Some (env_now e) ids Hids) as [[msgid ids'] Eid]. rewrite Eid. cbn [mbind option_bind].
  set (entry := message_entry _ _ _ _ _ _ _ _). set (d := entry_delivery entry client_tags line).
  assert (Hanon : existsb (starts_with "~") (snd (dm_conversation_key (actor_identity_key (env_casemap e) actor) (pu_identity (env_casemap e) peer)))
    = negb (bool_decide (is_Some (actor_account actor))) || negb (bool_decide (is_Some (pu_account peer)))).
  { rewrite conversation_anonymous. unfold actor_identity_key, pu_identity. rewrite !identity_anonymous; [done| |done].
    intros a Ha. unfold registered_user in Ep. destruct (registered_owner _ nicks) as [o|]; [|done]. cbn in Ep. by eapply Htheirs. }
  destruct (dm_conversation_key _ _) as [key peers]. cbn [fst snd] in *.
  destruct (record_history_spec c key peers entry (os_state s) Hhot Hb) as (st' & log & E & Hown & _ & _ & Hst). rewrite E. cbn [mbind option_bind].
  eexists _, _. split; [done|]. exists entry, d. split_and!; try done.
  - intros conn. cbn [ef_sent]. unfold deliver_message. cbn [fmap list_fmap map d_bypass_capture]. unfold copies. cbn [omap list_omap].
    change (d_bypass_capture d) with true. cbv iota. rewrite copy_route. unfold pu_conn. by destruct (_ =? _).
  - cbn [ef_log]. destruct Hst as [_ ->]. rewrite Hanon.
    destruct (sasl_enabled c), (queue_takes c), (actor_account actor), (pu_account peer); cbn; rewrite ?is_Some_alt; naive_solver.
Qed.

(** A multiline message to a channel goes through the same gate, a CTCP
    hidden in any of its lines counted; it reaches exactly those a message
    would, each with the whole message rendered for what it negotiated, and
    history keeps one entry for it, under the id it was delivered with. *)
Theorem channel_multiline_exact (b : CompletedMultiline) (Hids : 0 <= counter ids < U64_MAX - 1) :
  exists r ef, multiline_on_owner e c actor b s ids = Some (r, ef)
  /\ let '(status, name) := sigil_split (completed_target b) in
     let key := ChannelOps.chan_key e name in
     let loud := is_loud (completed_kind b) in
     match os_channels s !! key with
     | None => r = MultilineNoSuchChannel (completed_target b) loud (completed_label b) /\ ef = MkEffects s ids [] None
     | Some ch =>
         match speak_refusal ch me (env_casemap e) (mask_subject actor) status (multiline_carries_blocked_ctcp (completed_lines b)) with
         | Some why => r = MultilineCannotSend (completed_target b) why loud (completed_label b) /\ ef = MkEffects s ids [] None
         | None =>
             exists m batch_ref,
               (mm_prefix m, mm_kind m, mm_target m, mm_lines m)
               = (prefix, completed_kind b, canonical_channel status (chan_name ch), completed_lines b)
               /\ mm_msgid m <> batch_ref
               /\ r = MultilineDelivered (if echo_message my_caps then multiline_copy e m batch_ref (completed_label b) my_caps else [])
                        (completed_label b)
               /\ (forall conn, copies conn (ef_sent ef)
                    = match chan_members ch !! conn with
                      | Some mb => if reaches me status conn (member_modes mb)
                                   then multiline_copy e m batch_ref None (recipient_caps (member_recipient mb)) else []
                      | None => []
                      end)
               /\ os_channels (ef_state ef) = os_channels s
               /\ match status with
                  | Some _ => ef_state ef = s /\ ef_log ef = None
                  | None => stored c key [] (multiline_history_entry m) (shard_history (os_state s))
                              (shard_history (os_state (ef_state ef))) (ef_log ef)
                  end
         end
     end.
Proof.
  unfold multiline_on_owner. destruct (sigil_split (completed_target b)) as [status name]. cbn zeta. set (key := ChannelOps.chan_key e name).
  destruct (os_channels s !! key) as [ch|] eqn:Ec; [|eexists _, _; split; [done|done]].
  destruct (speak_refusal _ _ _ _ _ _) as [why|]; [eexists _, _; split; [done|done]|].
  destruct (msgid_next_twice (env_now e) ids Hids) as (msgid & ids1 & batch_ref & ids2 & E1 & E2 & Hne).
  rewrite E1. cbn [mbind option_bind]. rewrite E2. cbn [mbind option_bind].
  set (m := MkMultiline _ _ _ _ _ _ _ _ _).
  pose proof (fun conn => audience_copies (env_shard e) me status ch (fun r => multiline_copy e m batch_ref None (recipient_caps r)) conn
    (Hch key ch Ec)) as Hsent.
  destruct status as [sigil|].
  - eexists _, _. split; [done|]. exists m, batch_ref. split_and!; done.
  - destruct (record_history_spec c key [] (multiline_history_entry m) (os_state s) Hhot Hb) as (st' & log & E & Hown & _ & _ & Hst).
    rewrite E. cbn [mbind option_bind]. eexists _, _. split; [done|]. exists m, batch_ref. split_and!; done.
Qed.
End Exact.
End Deliver.

(** ** Witnesses *)

Section DeliverSample.
#[local] Existing Instance PlainIpNet.

Definition talk_env : Env := MkEnv 0 None Rfc1459 (bs "irc.test") 1000 1000.
Definition talk_caps : Caps :=
  MkCaps false true true false false false false false false false false false false false false false
    false false false false false false.
Definition talk_actor (conn : Z) (nick : str) (account : option str) : ChannelActor :=
  MkActor (MkRecipient (MkOwner conn 0) talk_caps) (MkIdentity nick (nick ++ bs "!u@h") false) account (bs "r") None false
    (MkProfile (bs "u") (bs "h") None (bs "r") None false false false 0).
Definition talk_add (a : ChannelActor) : MemberOp (Caps := Caps) :=
  OAdd (actor_recipient a) (actor_profile a) (actor_identity a) (MkModes false false).
Definition talk_channel : ChannelState.Channel (Caps := Caps) :=
  fold_left member_step [talk_add (talk_actor 1 (bs "bob") None); talk_add (talk_actor 2 (bs "carol") None)]
    (Channel_new (bs "#Rust") None ChanModes_default 0).
Definition talk_state : OwnerState :=
  MkOwnerState (MkShard (MkChannels {[bs "#rust" := talk_channel]} [] []) HotHistory_default (MkMemberships ∅ ∅)) ∅ ∅ ∅ (MkOptions ∅ ∅ ∅) ∅ 0.
Definition talk_config : HistoryConfig := MkHistoryConfig true (MkBounds 10 1000 10000) true.

Lemma talk_cache key ch : os_channels talk_state !! key = Some ch -> cache_ok ch.
Proof.
  change (os_channels talk_state) with ({[bs "#rust" := talk_channel]} : gmap str (ChannelState.Channel (Caps := Caps))).
  intros [_ <-]%lookup_singleton_Some. apply (member_steps_ok [_; _]). by split.
Qed.
Lemma talk_found : os_channels talk_state !! ChannelOps.chan_key talk_env (bs "#RUST") = Some talk_channel.
Proof. exact (lookup_singleton_eq (M := gmap str) (bs "#rust") talk_channel). Qed.
Lemma talk_bounds : bounds_ok (history_bounds talk_config).
Proof. split; vm_compute; discriminate. Qed.
Lemma talk_ids : 0 <= counter (with_boot 0 0) < U64_MAX - 1.
Proof. vm_compute. split; [discriminate|reflexivity]. Qed.
Abbreviation bob := (talk_actor 1 (bs "bob") None).

Lemma channel_message_exact_witness :
  exists echo ef, message_on_owner 8 talk_env talk_config bob (bs "#RUST") (bs "hi") Privmsg [] talk_state (with_boot 0 0)
    = Some (Delivered (Some echo), ef)
  /\ length (copies 2 (ef_sent ef)) = 1%nat /\ copies 1 (ef_sent ef) = [] /\ copies 3 (ef_sent ef) = [] /\ is_Some (ef_log ef).
Proof.
  destruct (channel_message_exact 8 talk_env talk_config bob talk_state (with_boot 0 0) talk_cache (hot_default_ok 8) talk_bounds
              (bs "#RUST") (bs "hi") Privmsg [] eq_refl) as (r & ef & E & H).
  change (sigil_split (bs "#RUST")) with (@None StatusSigil, bs "#RUST") in H. cbv iota zeta in H.
  rewrite talk_found in H. change (speak_refusal talk_channel _ _ _ _ _) with (@None SpeakRefusal) in H. cbv iota in H.
  destruct H as (entry & d & _ & _ & _ & -> & Hc & _ & [_ Hlog]). eexists _, ef. split; [exact E|].
  rewrite !Hc, Hlog. split_and!; [reflexivity|reflexivity|reflexivity|by eexists].
Defined.

Lemma channel_tagmsg_exact_witness :
  exists echo ef, tagmsg_on_owner 8 talk_env talk_config bob (bs "#RUST") (bs "+typing=active") talk_state (with_boot 0 0)
    = Some (Delivered (Some echo), ef)
  /\ length (copies 2 (ef_sent ef)) = 1%nat /\ copies 1 (ef_sent ef) = [] /\ ef_state ef = talk_state /\ ef_log ef = None.
Proof.
  destruct (channel_tagmsg_exact 8 talk_env talk_config bob talk_state (with_boot 0 0) talk_cache (hot_default_ok 8) talk_bounds
              (bs "#RUST") (bs "+typing=active") eq_refl) as (r & ef & E & H).
  change (sigil_split (bs "#RUST")) with (@None StatusSigil, bs "#RUST") in H. cbv iota zeta in H.
  rewrite talk_found in H. change (speak_refusal talk_channel _ _ _ _ _) with (@None SpeakRefusal) in H. cbv iota in H.
  destruct H as (entry & d & _ & _ & _ & -> & Hc & _ & Hs). eexists _, ef. split; [exact E|]. rewrite !Hc.
  split; [reflexivity|]. split; [reflexivity|]. destruct Hs as [(_ & Hne & _)|[_ Hs]]; [|exact Hs].
  exfalso. apply Hne. reflexivity.
Defined.

Lemma channel_multiline_exact_witness :
  exists echo ef, multiline_on_owner 8 talk_env talk_config bob
      (MkCompleted (bs "#RUST") [] None [(bs "a", false); (bs "b", false)] Privmsg) talk_state (with_boot 0 0)
    = Some (MultilineDelivered echo None, ef)
  /\ (exists m batch_ref, copies 2 (ef_sent ef) = multiline_copy talk_env m batch_ref None talk_caps
        /\ mm_lines m = [(bs "a", false); (bs "b", false)] /\ mm_target m = bs "#Rust")
  /\ copies 1 (ef_sent ef) = [] /\ is_Some (ef_log ef).
Proof.
  destruct (channel_multiline_exact 8 talk_env talk_config bob talk_state (with_boot 0 0) talk_cache (hot_default_ok 8) talk_bounds
              (MkCompleted (bs "#RUST") [] None [(bs "a", false); (bs "b", false)] Privmsg) talk_ids)
    as (r & ef & E & H).
  change (sigil_split _) with (@None StatusSigil, bs "#RUST") in H. cbv iota zeta in H.
  rewrite talk_found in H. change (speak_refusal talk_channel _ _ _ _ _) with (@None SpeakRefusal) in H. cbv iota in H.
  destruct H as (m & bref & Hm & _ & -> & Hc & _ & [_ Hlog]). eexists _, ef. split; [exact E|].
  rewrite !Hc, Hlog.
  split_and!; [|reflexivity|by eexists]. exists m, bref. injection Hm as _ _ Ht Hl. rewrite Ht, Hl. split_and!; reflexivity.
Defined.

Definition talk_user : PublicUser (Caps := Caps) :=
  MkPublicUser (MkRecipient (MkOwner 2 1) talk_caps) (bs "Carol") (bs "u") (bs "h") None (bs "r") (Some (bs "carol")) (Some (bs "lunch"))
    false false false false false false 0 0.
Definition talk_users : Users (Caps := Caps) := MkUsers {[2 := talk_user]} ∅ (MkCounts 1 0 0).
Definition talk_nicks : NickDirectory := {[bs "carol" := MkReservation (MkOwner 2 1) true]}.

Lemma direct_message_exact_witness :
  exists echo forward ef,
    direct_message 8 talk_env talk_config bob false (bs "CAROL") (bs "hi") Privmsg [] talk_nicks talk_users talk_state (with_boot 0 0)
    = Some (DirectDelivered (Some echo) (Some (bs "lunch")) (Some forward), ef)
  /\ length (copies 2 (ef_sent ef)) = 1%nat /\ ~ is_Some (ef_log ef).
Proof.
  destruct (direct_message_exact 8 talk_env talk_config bob talk_state (with_boot 0 0) (hot_default_ok 8) talk_bounds false
              (bs "CAROL") (bs "hi") Privmsg [] talk_nicks talk_users eq_refl) as (r & ef & E & H).
  - intros a Ha. discriminate Ha.
  - intros conn u a Hu. change (users_by_conn talk_users) with ({[2 := talk_user]} : gmap Z (PublicUser (Caps := Caps))) in Hu.
    apply lookup_singleton_Some in Hu as [_ <-]. intros [= <-]. reflexivity.
  - change (registered_user _ talk_nicks talk_users) with (Some talk_user) in H. cbv iota in H.
    change (refuses_unregistered _ _ _ _) with false in H. cbv iota zeta in H.
    destruct H as (entry & d & _ & _ & _ & -> & Hc & _ & _ & Hlog). eexists _, _, ef. split; [exact E|].
    rewrite Hc. split; [reflexivity|]. intros Hs%Hlog. destruct Hs as (_ & _ & [x Hx] & _). discriminate Hx.
Defined.
End DeliverSample.
