(* ===== verification/Cap.v ===== *)
(** * Capability negotiation ([e6ircd/src/core/handler/registration.rs],
      [cmd_cap]; [cap_reply_lines] of [handler/mod.rs]; [CAP_NAMES] of
      [state.rs])

    What the server offers, how a request is applied, and the lines that carry
    the answers.  What [cmd_cap] does to a session's registration is in
    [Handshake]. *)

From S2P Require Import Prelude Str Num Time Message Events Multiline ChannelOps.

Local Open Scope nat_scope.

(** A [CapAccessor]: reading the field, and writing it. *)
Record CapAccessor : Type := MkAccessor { cap_get : Caps -> bool; cap_set : bool -> Caps -> Caps }.

(** The fields in the order of [Caps], and a write of one of them. *)
Definition caps_fields (c : Caps) : list bool :=
  [Events.server_time c; echo_message c; message_tags c; cap_notify c; multi_prefix c; userhost_in_names c; extended_join c; away_notify c; account_notify c; account_tag c; setname c; invite_notify c; batch c; chathistory c; read_marker c; labeled_response c; chghost c; extended_monitor c; standard_replies c; sasl c; account_registration c; multiline c].
Definition caps_of (l : list bool) : Caps :=
  let f i := default false (l !! i) in
  MkCaps (f 0) (f 1) (f 2) (f 3) (f 4) (f 5) (f 6) (f 7) (f 8) (f 9) (f 10) (f 11) (f 12) (f 13) (f 14) (f 15) (f 16) (f 17) (f 18) (f 19) (f 20) (f 21).
Definition field (i : nat) : CapAccessor :=
  MkAccessor (fun c => default false (caps_fields c !! i)) (fun v c => caps_of (<[i := v]> (caps_fields c))).

Definition CAP_NAMES : list (str * CapAccessor) :=
  [(bs "server-time", field 0);
   (bs "echo-message", field 1);
   (bs "message-tags", field 2);
   (bs "cap-notify", field 3);
   (bs "multi-prefix", field 4);
   (bs "userhost-in-names", field 5);
   (bs "extended-join", field 6);
   (bs "away-notify", field 7);
   (bs "account-notify", field 8);
   (bs "account-tag", field 9);
   (bs "setname", field 10);
   (bs "invite-notify", field 11);
   (bs "batch", field 12);
   (bs "draft/chathistory", field 13);
   (bs "draft/read-marker", field 14);
   (bs "labeled-response", field 15);
   (bs "chghost", field 16);
   (bs "extended-monitor", field 17);
   (bs "standard-replies", field 18);
   (bs "chathistory", field 13)].

(** What of the configuration the offer depends on. *)
Record CapConfig : Type := MkCapConfig {
  cap_sasl_enabled : bool;
  registration_before_connect : bool;
  registration_require_email : bool;
}.

Definition ACCOUNT_REGISTRATION_CAP : str := bs "draft/account-registration".

Definition account_registration_flags (c : CapConfig) : str :=
  join "," ((if registration_before_connect c then [bs "before-connect"] else [])
            ++ (if registration_require_email c then [bs "email-required"] else [])).

Record ValueCap : Type := MkValueCap { vc_name : str; vc_accessor : CapAccessor; ls_token : CapConfig -> bool -> option str }.

Definition VALUE_CAPS : list ValueCap :=
  [MkValueCap (bs "sasl") (field 19) (fun c v302 =>
     if cap_sasl_enabled c then Some (if v302 then bs "sasl=PLAIN,OAUTHBEARER" else bs "sasl") else None);
   MkValueCap ACCOUNT_REGISTRATION_CAP (field 20) (fun c v302 =>
     if cap_sasl_enabled c then
       Some (if v302 then let flags := account_registration_flags c in
                          if is_empty flags then ACCOUNT_REGISTRATION_CAP else ACCOUNT_REGISTRATION_CAP ++ bs "=" ++ flags
             else ACCOUNT_REGISTRATION_CAP)
     else None);
   MkValueCap MULTILINE_CAP (field 21) (fun _ v302 =>
     Some (if v302 then MULTILINE_CAP ++ bs "=max-bytes=" ++ dec (Z.of_nat MULTILINE_MAX_BYTES) ++ bs ",max-lines=" ++ dec (Z.of_nat MULTILINE_MAX_LINES)
           else MULTILINE_CAP))].

(** The tokens of CAP LS and CAP LIST. *)
Definition ls_tokens (c : CapConfig) (v302 : bool) : list str :=
  (fst <$> CAP_NAMES) ++ omap (fun vc => ls_token vc c v302) VALUE_CAPS.
Definition list_tokens (caps : Caps) : list str :=
  (fst <$> List.filter (fun x => cap_get (snd x) caps) CAP_NAMES)
  ++ (vc_name <$> List.filter (fun vc => cap_get (vc_accessor vc) caps) VALUE_CAPS).

(** ** CAP REQ *)

(** Which field a token switches; [None] for an unknown one. *)
Definition req_accessor (c : CapConfig) (name : str) : option CapAccessor :=
  match List.find (fun vc => str_eqb (vc_name vc) name && bool_decide (is_Some (ls_token vc c false))) VALUE_CAPS with
  | Some vc => Some (vc_accessor vc)
  | None => snd <$> List.find (fun x => str_eqb (fst x) name) CAP_NAMES
  end.

Definition req_token (token : str) : str * bool :=
  match strip_byte "-" token with Some name => (name, false) | None => (token, true) end.

(** The loop over the tokens; [None] where one is unknown. *)
Fixpoint req_loop (c : CapConfig) (cap_302 : bool) (tokens : list str) (caps : Caps) : option Caps :=
  match tokens with
  | [] => Some caps
  | token :: tokens =>
      let '(name, enable) := req_token token in
      if cap_302 && str_eqb name (bs "cap-notify") then req_loop c cap_302 tokens caps
      else match req_accessor c name with
           | Some acc => req_loop c cap_302 tokens (cap_set acc enable caps)
           | None => None
           end
  end.

Definition req_tokens (request : str) : list str := List.filter (fun t => negb (is_empty t)) (split " " request).

Definition cap_head (server target verb : str) : str := bs ":" ++ server ++ bs " CAP " ++ target ++ bs " " ++ verb ++ bs " :".

(** The capabilities after CAP REQ, and its answer. *)
Definition cap_req (c : CapConfig) (server target : str) (cap_302 : bool) (request : str) (caps : Caps) : option Caps * str :=
  let wanted := if is_empty request then None else req_loop c cap_302 (req_tokens request) caps in
  let fits := length (fit_trailing (cap_head server target (bs "ACK")) request) =? length request in
  match wanted, fits with
  | Some caps, true => (Some caps, cap_head server target (bs "ACK") ++ fit_trailing (cap_head server target (bs "ACK")) request)
  | _, _ => (None, cap_head server target (bs "NAK") ++ fit_trailing (cap_head server target (bs "NAK")) request)
  end.

(** ** The lines of a reply *)

Definition cap_version_302 (version : option str) : bool :=
  match version ≫= parse_uint (2 ^ 32 - 1) with Some v => (302 <=? v)%Z | None => false end.

(** [chunks] and the last of them. *)
Fixpoint cap_chunks (budget : nat) (tokens : list str) (current : str) : list str :=
  match tokens with
  | [] => [current]
  | token :: tokens =>
      if negb (is_empty current) && (budget <? length current + 1 + length token) then current :: cap_chunks budget tokens token
      else cap_chunks budget tokens ((if is_empty current then [] else current ++ bs " ") ++ token)
  end.

Fixpoint cap_lines (source target verb : str) (v302 : bool) (chunks : list str) : list str :=
  match chunks with
  | [] => []
  | chunk :: rest =>
      (bs ":" ++ source ++ bs " CAP " ++ target ++ bs " " ++ verb ++ bs " " ++ (if negb (is_empty rest) && v302 then bs "* " else []) ++ bs ":" ++ chunk)
      :: cap_lines source target verb v302 rest
  end.

Definition cap_reply_lines (source target verb : str) (tokens : list str) (v302 : bool) : list str :=
  let budget := 510 - length (bs ":" ++ source ++ bs " CAP " ++ target ++ bs " " ++ verb ++ bs " * :") in
  cap_lines source target verb v302 (cap_chunks budget tokens []).

(** ** Names and fields *)

Lemma caps_fields_of l : length l = 22 -> caps_fields (caps_of l) = l.
Proof. intros Hl. do 23 (destruct l as [|? l]; [try discriminate Hl; reflexivity|]). discriminate Hl. Qed.

Lemma field_get_set i j v c : i < 22 -> cap_get (field j) (cap_set (field i) v c) = if bool_decide (i = j) then v else cap_get (field j) c.
Proof.
  intros Hi. cbn [field cap_get cap_set]. rewrite caps_fields_of by (by rewrite length_insert).
  case_bool_decide as E; [subst; by rewrite list_lookup_insert_eq|by rewrite list_lookup_insert_ne].
Qed.

(** Every name with the field it switches. *)
Definition cap_table : list (str * nat) :=
  imap (fun i x => (fst x, if (i =? 19)%nat then 13 else i)) CAP_NAMES ++ [(bs "sasl", 19); (ACCOUNT_REGISTRATION_CAP, 20); (MULTILINE_CAP, 21)].

Lemma cap_table_names :
  CAP_NAMES = (fun x => (fst x, field (snd x))) <$> take 20 cap_table
  /\ (fun vc => (vc_name vc, vc_accessor vc)) <$> VALUE_CAPS = (fun x => (fst x, field (snd x))) <$> drop 20 cap_table
  /\ NoDup (fst <$> cap_table) /\ Forall (fun x => snd x < 22) cap_table.
Proof.
  split; [reflexivity|]. split; [reflexivity|]. split; [apply (bool_decide_unpack _); vm_compute; reflexivity|].
  apply (bool_decide_unpack _). vm_compute. reflexivity.
Qed.

Lemma cap_table_inj name i j : (name, i) ∈ cap_table -> (name, j) ∈ cap_table -> i = j.
Proof.
  destruct cap_table_names as (_ & _ & Hn & _). revert Hn. generalize cap_table. induction l as [|[n k] l IH]; cbn; [by intros _ ?%elem_of_nil|].
  rewrite NoDup_cons. intros [Hx Hl] [E|H]%elem_of_cons [E'|H']%elem_of_cons; simplify_eq; try done; [| |by apply IH].
  - exfalso. apply Hx. by apply (list_elem_of_fmap_2 fst) in H'.
  - exfalso. apply Hx. by apply (list_elem_of_fmap_2 fst) in H.
Qed.

Lemma list_tokens_elem name caps : name ∈ list_tokens caps <-> exists i, (name, i) ∈ cap_table /\ cap_get (field i) caps = true.
Proof.
  destruct cap_table_names as (E1 & E2 & _ & _). unfold list_tokens. rewrite <- (take_drop 20 cap_table), elem_of_app.
  assert (HA : forall x, x ∈ CAP_NAMES <-> exists n i, x = (n, field i) /\ (n, i) ∈ take 20 cap_table).
  { intros x. rewrite E1, list_elem_of_fmap. split; [intros ([n i] & -> & ?); by exists n, i|intros (n & i & -> & ?); by exists (n, i)]. }
  assert (HB : forall n a, (n, a) ∈ ((fun vc => (vc_name vc, vc_accessor vc)) <$> VALUE_CAPS) <-> exists i, a = field i /\ (n, i) ∈ drop 20 cap_table).
  { intros n a. rewrite E2, list_elem_of_fmap. split; [intros ([m i] & [= -> ->] & ?); by exists i|intros (i & -> & ?); by exists (n, i)]. }
  split.
  - intros [H|H].
    + apply list_elem_of_fmap in H as (x & -> & [Hx Hg]%elem_of_Lfilter). apply HA in Hx as (n & i & -> & Hi). exists i.
      split; [apply elem_of_app; by left|done].
    + apply list_elem_of_fmap in H as (vc & -> & [Hv Hg]%elem_of_Lfilter).
      apply (list_elem_of_fmap_2 (fun vc => (vc_name vc, vc_accessor vc))) in Hv. apply HB in Hv as (i & Ea & Hi). rewrite Ea in Hg.
      exists i. split; [apply elem_of_app; by right|done].
  - intros (i & [Hi|Hi]%elem_of_app & Hg).
    + left. apply list_elem_of_fmap. exists (name, field i). split; [done|]. apply elem_of_Lfilter. split; [|done]. apply HA. by exists name, i.
    + right. assert (H : (name, field i) ∈ ((fun vc => (vc_name vc, vc_accessor vc)) <$> VALUE_CAPS)) by (apply HB; by exists i).
      apply list_elem_of_fmap in H as (vc & [= -> Ea] & Hv). apply list_elem_of_fmap. exists vc. split; [done|]. apply elem_of_Lfilter. by rewrite <- Ea.
Qed.

(** Whether a name is offered: always, but for those that need accounts. *)
Definition offered (c : CapConfig) (name : str) : bool :=
  existsb (fun x => str_eqb (fst x) name) CAP_NAMES
  || existsb (fun vc => str_eqb (vc_name vc) name && bool_decide (is_Some (ls_token vc c false))) VALUE_CAPS.

Lemma find_None_existsb {A} (f : A -> bool) l : List.find f l = None <-> existsb f l = false.
Proof. induction l as [|x l IH]; cbn; [done|]. by destruct (f x). Qed.

Lemma req_accessor_spec c name :
  match req_accessor c name with
  | Some acc => offered c name = true /\ exists i, (name, i) ∈ cap_table /\ acc = field i
  | None => offered c name = false
  end.
Proof.
  destruct cap_table_names as (E1 & E2 & _ & _). unfold req_accessor, offered.
  destruct (List.find _ VALUE_CAPS) as [vc|] eqn:Ev.
  - apply find_some in Ev as [Hin H]. split.
    + apply orb_true_iff. right. apply existsb_exists. by exists vc.
    + apply andb_true_iff in H as [Hn%bool_decide_eq_true _]. apply list_elem_of_In, (list_elem_of_fmap_2 (fun vc => (vc_name vc, vc_accessor vc))) in Hin.
      rewrite E2 in Hin. apply list_elem_of_fmap in Hin as ([n i] & [= Hn' Ha] & Hi). exists i. split; [|done].
      rewrite <- Hn, Hn', <- (take_drop 20 cap_table). apply elem_of_app. by right.
  - apply find_None_existsb in Ev. rewrite Ev, orb_false_r. destruct (List.find _ CAP_NAMES) as [[n a]|] eqn:En; cbn [fmap option_fmap option_map].
    + apply find_some in En as [Hin H]. split; [apply existsb_exists; by exists (n, a)|]. apply bool_decide_eq_true in H. cbn in H. subst n.
      apply list_elem_of_In in Hin. rewrite E1 in Hin. apply list_elem_of_fmap in Hin as ([n i] & [= -> Ha] & Hi). exists i. split; [|done].
      rewrite <- (take_drop 20 cap_table). apply elem_of_app. by left.
    + by apply find_None_existsb.
Qed.

Definition token_name (token : str) : str := match split_once "=" token with Some (name, _) => name | None => token end.

Lemma ls_names_offered c v302 name : name ∈ token_name <$> ls_tokens c v302 <-> offered c name = true.
Proof.
  assert (Hn : token_name <$> ls_tokens c v302 = (fst <$> CAP_NAMES) ++ (if cap_sasl_enabled c then [bs "sasl"; ACCOUNT_REGISTRATION_CAP] else []) ++ [MULTILINE_CAP]).
  { destruct c as [[] [] []], v302; vm_compute; reflexivity. }
  rewrite Hn. unfold offered. rewrite orb_true_iff, !elem_of_app.
  assert (H1 : name ∈ fst <$> CAP_NAMES <-> existsb (fun x => str_eqb (fst x) name) CAP_NAMES = true).
  { rewrite existsb_exists. split.
    - intros (x & -> & Hx)%list_elem_of_fmap. exists x. split; [by apply list_elem_of_In|]. by apply bool_decide_eq_true.
    - intros (x & Hx%list_elem_of_In & E%bool_decide_eq_true). rewrite <- E. by apply list_elem_of_fmap_2. }
  rewrite H1. apply or_iff_compat_l. clear.
  assert (Hs : forall a : str, bool_decide (is_Some (Some a)) = true) by (intros a; by apply bool_decide_true).
  assert (Hs' : bool_decide (is_Some (@None str)) = false) by (apply bool_decide_false; by intros []).
  unfold str_eqb. cbn [VALUE_CAPS existsb vc_name ls_token]. destruct (cap_sasl_enabled c); rewrite ?Hs, ?Hs', ?andb_true_r, ?andb_false_r, orb_false_r;
    cbn [orb]; rewrite ?orb_true_iff, !bool_decide_eq_true, ?elem_of_cons, ?elem_of_nil; naive_solver.
Qed.

(** What CAP LS advertises is exactly what CAP REQ accepts, whatever the
    configuration and the version asked for; and a capability that was just
    switched on is in CAP LIST, one that was switched off is not, and no name
    of another capability changes. *)
Theorem cap_offer_coherent (c : CapConfig) (v302 : bool) (caps : Caps) (name : str) :
  (name ∈ token_name <$> ls_tokens c v302 <-> is_Some (req_accessor c name))
  /\ forall acc v, req_accessor c name = Some acc ->
       (name ∈ list_tokens (cap_set acc v caps) <-> v = true)
       /\ forall other acc', req_accessor c other = Some acc' -> (other ∈ list_tokens (cap_set acc v caps) <-> other ∈ list_tokens caps)
                             \/ acc' = acc.
Proof.
  split.
  - rewrite ls_names_offered. pose proof (req_accessor_spec c name) as H. destruct (req_accessor c name) as [acc|].
    + split; [by eexists|]. by destruct H.
    + rewrite H. split; [done|]. by intros [].
  - intros acc v E. pose proof (req_accessor_spec c name) as H. rewrite E in H. destruct H as (_ & i & Hi & ->).
    pose proof (proj2 (proj2 (proj2 cap_table_names))) as Hlt. rewrite Forall_forall in Hlt. pose proof (Hlt _ Hi) as Hi22. cbn in Hi22. split.
    + rewrite list_tokens_elem. split.
      * intros (j & Hj & Hg). rewrite <- (cap_table_inj _ _ _ Hi Hj), field_get_set, bool_decide_true in Hg by done. done.
      * intros ->. exists i. split; [done|]. by rewrite field_get_set, bool_decide_true.
    + intros other acc' E'. pose proof (req_accessor_spec c other) as H. rewrite E' in H. destruct H as (_ & j & Hj & ->).
      destruct (decide (i = j)) as [->|Hne]; [by right|left]. rewrite !list_tokens_elem.
      split; intros (j' & Hj' & Hg); exists j'; (split; [done|]); rewrite (cap_table_inj _ _ _ Hj' Hj) in *; rewrite field_get_set, bool_decide_false in *; done.
Qed.

(** ** Requests *)

(** What a request says of field [i], in order. *)
Definition mentions (c : CapConfig) (cap_302 : bool) (tokens : list str) (i : nat) : list bool :=
  omap (fun token =>
    let '(name, enable) := req_token token in
    if cap_302 && str_eqb name (bs "cap-notify") then None
    else if offered c name && bool_decide ((name, i) ∈ cap_table) then Some enable else None) tokens.

Definition token_ok (c : CapConfig) (cap_302 : bool) (token : str) : Prop :=
  let name := fst (req_token token) in cap_302 = true /\ name = bs "cap-notify" \/ offered c name = true.

Lemma last_cons_default {A} (l : list A) (x : A) : last (x :: l) = Some (default x (last l)).
Proof. revert x. induction l as [|y l IH]; intros x; [done|]. rewrite last_cons_cons, IH. done. Qed.

Lemma req_loop_spec c cap_302 tokens : forall caps,
  match req_loop c cap_302 tokens caps with
  | Some caps' => Forall (token_ok c cap_302) tokens
      /\ forall i, i < 22 -> cap_get (field i) caps' = default (cap_get (field i) caps) (last (mentions c cap_302 tokens i))
  | None => ~ Forall (token_ok c cap_302) tokens
  end.
Proof.
  induction tokens as [|token tokens IH]; intros caps; cbn [req_loop]; [by split|].
  unfold mentions, token_ok in *. cbn [omap list_omap]. destruct (req_token token) as [name enable] eqn:Et. cbn [fst].
  destruct (cap_302 && str_eqb name (bs "cap-notify")) eqn:E302.
  - apply andb_true_iff in E302 as [-> En%bool_decide_eq_true]. specialize (IH caps). destruct (req_loop c true tokens caps) as [caps'|].
    + destruct IH as [Hok Hget]. split; [|done]. constructor; [rewrite Et; by left|done].
    + intros [_ Hf]%Forall_cons. done.
  - pose proof (req_accessor_spec c name) as Hacc. destruct (req_accessor c name) as [acc|].
    + destruct Hacc as (Hoff & j & Hj & ->). specialize (IH (cap_set (field j) enable caps)).
      destruct (req_loop c cap_302 tokens _) as [caps'|]; [|intros [_ Hf]%Forall_cons; done].
      destruct IH as [Hok Hget]. split; [constructor; [rewrite Et; by right|done]|]. intros i Hi. rewrite Hget by done.
      pose proof (proj2 (proj2 (proj2 cap_table_names))) as Hlt. rewrite Forall_forall in Hlt. specialize (Hlt _ Hj). cbn in Hlt.
      rewrite Hoff, field_get_set by done. cbn [andb]. destruct (decide (j = i)) as [<-|Hne].
      * rewrite (bool_decide_true (j = j)) by done. rewrite (bool_decide_true ((name, j) ∈ cap_table)) by done. by rewrite last_cons_default.
      * rewrite bool_decide_false by done. rewrite bool_decide_false; [done|]. intros Hin. by apply Hne, (cap_table_inj name).
    + intros [Hok _]%Forall_cons. rewrite Et in Hok. cbn in Hok. destruct Hok as [[-> ->]|Hok]; [|congruence]. done.
Qed.

(** C32. CAP REQ is all or nothing: it is acknowledged exactly when it is not
    empty, every capability in it is offered (or is the implied [cap-notify]
    of a 302 client) and it can be echoed whole; then each capability is what
    the request says of it last, and every other as it was.  Otherwise nothing
    changes.  The answer fits the wire either way. *)
Theorem cap_req_exact (c : CapConfig) (server target : str) (cap_302 : bool) (request : str) (caps : Caps)
    (Hhead : length (cap_head server target (bs "ACK")) <= 510) :
  let '(r, line) := cap_req c server target cap_302 request caps in
  let tokens := req_tokens request in
  length line <= 510
  /\ (is_Some r <-> request <> [] /\ Forall (token_ok c cap_302) tokens /\ length (cap_head server target (bs "ACK")) + length request <= 510)
  /\ (forall caps', r = Some caps' -> line = cap_head server target (bs "ACK") ++ request
       /\ forall i, i < 22 -> cap_get (field i) caps' = default (cap_get (field i) caps) (last (mentions c cap_302 tokens i))).
Proof.
  unfold cap_req. set (head := cap_head server target (bs "ACK")) in *. set (nak := cap_head server target (bs "NAK")).
  assert (Enak : length nak = length head) by (unfold nak, head, cap_head; by rewrite !length_app).
  pose proof (req_loop_spec c cap_302 (req_tokens request) caps) as Hloop.
  assert (Hfit : length (fit_trailing head request) = length request <-> length head + length request <= 510).
  { unfold fit_trailing. split.
    - pose proof (truncate_le request (510 - length head)). lia.
    - intros Hl. by rewrite truncate_short by lia. }
  assert (Hnak : length (nak ++ fit_trailing nak request) <= 510).
  { rewrite length_app. unfold fit_trailing. pose proof (truncate_le request (510 - length nak)). lia. }
  assert (Hnone : forall P : Prop, ~ P -> (is_Some (@None Caps) <-> P)) by (intros P HP; split; [by intros []|done]).
  destruct (is_empty request) eqn:Ee.
  { apply is_empty_true in Ee. subst request. split; [done|]. split; [|done]. apply Hnone. naive_solver. }
  apply is_empty_false in Ee. destruct (Nat.eqb_spec (length (fit_trailing head request)) (length request)) as [Ef|Ef].
  - apply Hfit in Ef. destruct (req_loop c cap_302 (req_tokens request) caps) as [caps'|].
    + destruct Hloop as [Hok Hget].
      assert (Ht : fit_trailing head request = request) by (unfold fit_trailing; by rewrite truncate_short by lia). rewrite Ht.
      split; [rewrite length_app; lia|]. split; [split; [by intros _|by eexists]|]. intros caps'' [= <-]. by split.
    + split; [done|]. split; [|done]. apply Hnone. naive_solver.
  - assert (Hno : ~ length head + length request <= 510) by tauto.
    destruct (req_loop c cap_302 (req_tokens request) caps); (split; [done|]; split; [|done]; apply Hnone; naive_solver).
Qed.

Lemma cap_req_exact_witness :
  let '(r, line) := cap_req (MkCapConfig false true false) (bs "irc.test") (bs "*") true (bs "batch -cap-notify chathistory -batch") Caps_default in
  length line <= 510 /\ (is_Some r <-> bs "batch -cap-notify chathistory -batch" <> []
    /\ Forall (token_ok (MkCapConfig false true false) true) (req_tokens (bs "batch -cap-notify chathistory -batch"))
    /\ length (cap_head (bs "irc.test") (bs "*") (bs "ACK")) + length (bs "batch -cap-notify chathistory -batch") <= 510).
Proof.
  pose proof (cap_req_exact (MkCapConfig false true false) (bs "irc.test") (bs "*") true (bs "batch -cap-notify chathistory -batch") Caps_default
    ltac:(vm_compute; lia)) as H. destruct (cap_req _ _ _ _ _ _) as [r line]. split; apply H.
Defined.

(** ** Reply lines *)

Lemma cap_chunks_spec budget tokens : forall current,
  Forall (fun t => t <> [] /\ (" "%byte ∉ t) /\ length t <= budget) tokens -> length current <= budget ->
  Forall (fun chunk => length chunk <= budget) (cap_chunks budget tokens current)
  /\ flat_map (split " ") (cap_chunks budget tokens current)
     = match current, tokens with [], t :: tokens => t :: tokens | _, _ => split " " current ++ tokens end
  /\ cap_chunks budget tokens current <> [].
Proof.
  induction tokens as [|t tokens IH]; intros current Hf Hc; cbn [cap_chunks flat_map].
  - split; [by apply Forall_singleton|]. split; [|done]. by destruct current.
  - apply Forall_cons in Hf as [(Hne & Hsp & Hl) Hf].
    assert (Hnext : forall cur, cur = t \/ (exists c, c <> [] /\ cur = c ++ " "%byte :: t) -> length cur <= budget ->
      Forall (fun chunk => length chunk <= budget) (cap_chunks budget tokens cur)
      /\ flat_map (split " ") (cap_chunks budget tokens cur) = split " " cur ++ tokens).
    { intros cur Hcur Hlc. destruct (IH cur Hf Hlc) as (H1 & H2 & _). split; [done|]. rewrite H2.
      destruct cur; [|done]. destruct Hcur as [E|(c & _ & E)]; [congruence|by destruct c]. }
    destruct (is_empty current) eqn:Ec; cbn [negb andb app].
    + apply is_empty_true in Ec. subst current. destruct (Hnext t (or_introl eq_refl) Hl) as [H1 H2]. split; [done|]. split; [|by apply (IH t)].
      rewrite H2, (split_no_sep_id _ t) by done. done.
    + apply is_empty_false in Ec. destruct (Nat.ltb_spec budget (length current + 1 + length t)) as [Hb|Hb].
      * destruct (Hnext t (or_introl eq_refl) Hl) as [H1 H2]. split; [by constructor|]. split; [|done]. cbn [flat_map]. rewrite H2, (split_no_sep_id _ t) by done.
        by destruct current.
      * destruct (Hnext ((current ++ bs " ") ++ t)) as [H1 H2].
        { right. exists current. split; [done|]. by rewrite <- app_assoc. }
        { rewrite !length_app. cbn. lia. }
        split; [done|]. split; [|apply IH; [done|rewrite !length_app; cbn; lia]]. rewrite H2.
        rewrite <- app_assoc. change (bs " " ++ t) with (" "%byte :: t). rewrite split_app, (split_no_sep_id _ t) by done.
        rewrite <- app_assoc. by destruct current.
Qed.

(** The lines of a CAP LS or LIST reply each fit the wire, and the client
    that puts their trailing parameters together reads exactly the tokens, in
    order and none of them split; a 302 client is told by the marker that more
    lines follow, on every line but the last. *)
Theorem cap_reply_lines_complete (source target verb : str) (tokens : list str) (v302 : bool)
    (Hne : tokens <> [])
    (Htok : Forall (fun t => t <> [] /\ (" "%byte ∉ t)
                     /\ length (bs ":" ++ source ++ bs " CAP " ++ target ++ bs " " ++ verb ++ bs " * :") + length t <= 510) tokens) :
  exists chunks last,
    cap_reply_lines source target verb tokens v302
    = ((fun chunk => bs ":" ++ source ++ bs " CAP " ++ target ++ bs " " ++ verb ++ bs " " ++ (if v302 then bs "* " else []) ++ bs ":" ++ chunk) <$> chunks)
      ++ [bs ":" ++ source ++ bs " CAP " ++ target ++ bs " " ++ verb ++ bs " :" ++ last]
    /\ flat_map (split " ") (chunks ++ [last]) = tokens
    /\ Forall (fun line => length line <= 510) (cap_reply_lines source target verb tokens v302).
Proof.
  unfold cap_reply_lines. set (h := length (bs ":" ++ source ++ bs " CAP " ++ target ++ bs " " ++ verb ++ bs " * :")) in *.
  assert (Hh : h <= 510). { destruct tokens as [|t ts]; [done|]. apply Forall_cons in Htok as [(_ & _ & ?) _]. lia. }
  destruct (cap_chunks_spec (510 - h) tokens []) as (Hlen & Hflat & Hcne); [|cbn; lia|].
  { eapply Forall_impl; [exact Htok|]. intros t (? & ? & ?). split_and!; [done|done|lia]. }
  assert (Hall : flat_map (split " ") (cap_chunks (510 - h) tokens []) = tokens) by (rewrite Hflat; by destruct tokens).
  clear Hflat Htok Hne. revert Hall Hlen Hcne. generalize (cap_chunks (510 - h) tokens []). intros chunks. revert tokens.
  induction chunks as [|chunk chunks IH]; intros tokens Hall Hlen Hcne; [done|]. apply Forall_cons in Hlen as [Hl Hlen]. cbn [cap_lines].
  assert (Hh' : h = length source + length target + length verb + 11) by (unfold h; rewrite !length_app; cbn; lia).
  destruct chunks as [|chunk' chunks].
  - exists [], chunk. cbn [is_empty negb andb app fmap list_fmap map cap_lines]. split; [done|]. split; [done|]. apply Forall_singleton.
    rewrite !length_app. cbn [length]. change (length (bs " CAP ")) with 5. change (length (bs " ")) with 1. change (length (bs ":")) with 1. lia.
  - destruct (IH (flat_map (split " ") (chunk' :: chunks)) eq_refl Hlen ltac:(done)) as (cs & lst & E & Hf & Hfit).
    exists (chunk :: cs), lst. rewrite E. cbn [is_empty negb andb app fmap list_fmap map]. split; [done|]. split.
    + cbn [flat_map] in *. by rewrite Hf, <- Hall.
    + rewrite <- E. constructor; [|exact Hfit]. rewrite !length_app. destruct v302; cbn [length];
        change (length (bs " CAP ")) with 5; change (length (bs " ")) with 1; change (length (bs ":")) with 1; change (length (bs "* ")) with 2; lia.
Qed.

Lemma cap_reply_lines_complete_witness :
  exists chunks last, flat_map (split " ") (chunks ++ [last]) = ls_tokens (MkCapConfig true true true) true
    /\ Forall (fun line => length line <= 510)
         (cap_reply_lines (bs "irc.test") (bs "*") (bs "LS") (ls_tokens (MkCapConfig true true true) true) true).
Proof.
  destruct (cap_reply_lines_complete (bs "irc.test") (bs "*") (bs "LS") (ls_tokens (MkCapConfig true true true) true) true) as (chunks & lst & _ & H1 & H2).
  - discriminate.
  - apply (bool_decide_unpack _). vm_compute. reflexivity.
  - by exists chunks, lst.
Defined.
