(* ===== verification/ChannelSafety.v ===== *)
(** * What a channel's commands may do to it

    The theorems about [ChannelOps]: every command acts on channels by a few
    elementary steps, so no channel is left without members, each stays under
    the key of its name, invitations are bounded and never outlive the mode
    that makes them mean something, and JOIN admits exactly whom the channel's
    modes and lists let in. *)

From S2P Require Import Prelude Str Keys Casemap Mask Num Time Wire Message Middle Ip Address BanMask Nicks Channel Recency HistoryRing HotHistory ChannelState Directories Publish Registry Events ModeChange ModeReplay ChannelOps.
From stdpp Require Import gmap.

Local Open Scope Z_scope.

Section Safety.
Context `{IpNet} (m : CaseMapping) (pick : gset Z -> Z).
Abbreviation Channel := (Channel (Caps := Caps)).
Abbreviation Recipient := (Recipient (Caps := Caps)).

(** ** Elementary steps *)

Definition welcome (r : Recipient) (profile : ChannelMemberProfile) (who : MemberIdentity) (modes : MemberModes) (ch : Channel) : Channel :=
  set_invited (fun i => i ∖ {[recipient_conn r]}) (add_member_with_profile r profile who modes ch).

Definition holds_invites (ch : Channel) : bool :=
  invite_only (chan_modes ch) || bool_decide (is_Some (chan_limit (chan_modes ch))).

(** What a command may do to a channel; [locks] says whether services' mode
    locks are among the commands. *)
Inductive chan_step (locks : bool) : Channel -> Channel -> Prop :=
| StepAdmit r profile who modes ch : chan_step locks ch (welcome r profile who modes ch)
| StepLeave conn ch : has_members (snd (remove_member conn ch)) = true -> chan_step locks ch (snd (remove_member conn ch))
| StepInvite conn ch :
    holds_invites ch = true -> is_member conn ch = false -> chan_step locks ch (set_invited (record_invite pick conn) ch)
| StepKnock at_ ch : chan_step locks ch (set_last_knock at_ ch)
| StepTopic topic ch : chan_step locks ch (set_topic topic ch)
| StepUpdate r who profile ch : chan_step locks ch (snd (update_member r who profile ch))
| StepMode cx modes args ch : chan_step locks ch (ms_chan (mode_loop cx modes args ch))
| StepLock modes ch : locks = true -> chan_step locks ch (with_modes (fun _ => modes) ch).

(** A channel as it is made: empty under its modes, with its first member. *)
Inductive born (key : str) : Channel -> Prop :=
| Born name topic now r profile who modes lock_modes :
    key = casefold m name ->
    born key (with_modes lock_modes
      (welcome r profile who modes (Channel_new name topic (MkChanModes false false true true false false false None None) now))).

(** Every channel there is after was there before, by steps, or is new. *)
Definition evolves (locks : bool) (cs cs' : gmap str Channel) : Prop :=
  forall key ch', cs' !! key = Some ch' ->
    (exists ch, cs !! key = Some ch /\ rtc (chan_step locks) ch ch') \/ (cs !! key = None /\ born key ch').

Lemma evolves_refl locks cs : evolves locks cs cs.
Proof. intros key ch E. left. exists ch. split; [done|apply rtc_refl]. Qed.

Lemma evolves_alter locks cs key f :
  (forall ch, cs !! key = Some ch -> rtc (chan_step locks) ch (f ch)) -> evolves locks cs (alter f key cs).
Proof.
  intros Hf k ch'. destruct (decide (key = k)) as [<-|Hne].
  - rewrite lookup_alter_eq. intros (ch & E & ->)%fmap_Some. left. exists ch. split; [done|by apply Hf].
  - rewrite lookup_alter_ne by done. apply evolves_refl.
Qed.

Lemma evolves_delete locks cs key : evolves locks cs (delete key cs).
Proof. intros k ch' [_ E]%lookup_delete_Some. by apply evolves_refl. Qed.

(** ** JOIN *)

Definition base_modes : ChanModes := MkChanModes false false true true false false false None None.

(** The channel a JOIN acts on: the one there is, or one made for it. *)
Definition join_channel (e : Env) (name : str) (s : OwnerState) : Channel :=
  default (fresh_channel e (ChannelOps.chan_key e name) name s) (os_channels s !! ChannelOps.chan_key e name).

(** What the joiner is granted. *)
Definition join_modes (e : Env) (actor : ChannelActor) (key : str) (ch : Channel) (s : OwnerState) : MemberModes :=
  let '(is_founder, access_op, access_voice) := join_access e key actor s in
  MkModes ((negb (has_members ch) && negb (is_registered key s || channel_registration_pending key s)) || is_founder || access_op)
    access_voice.

Lemma fresh_admits e actor join_key key name s : admission e actor join_key (fresh_channel e key name s) = None.
Proof. reflexivity. Qed.

Lemma enforce_mlock_on_spec e key s s' line :
  enforce_mlock_on e key s = Some (s', line) ->
  exists g, os_channels s' = alter (with_modes g) key (os_channels s)
    /\ os_options s' = os_options s /\ os_founders s' = os_founders s.
Proof.
  assert (Hid : os_channels s = alter (with_modes id) key (os_channels s)).
  { symmetry. apply alter_id. by intros []. }
  unfold enforce_mlock_on. destruct (get_mlock _ _) as [lock|]; [|intros [= <- <-]; by exists id].
  destruct (os_channels s !! key) as [ch|] eqn:E; [|intros [= <- <-]; by exists id].
  destruct (enforce_mlock lock (chan_modes ch)) as [[[modes spec]|]|]; cbn [mbind option_bind]; [| |done].
  - intros [= <- <-]. by exists (fun _ => modes).
  - intros [= <- <-]. by exists id.
Qed.

Lemma alter_id_eq (key : str) (cs : gmap str Channel) : alter id key cs = cs.
Proof. by apply alter_id. Qed.

(** How a JOIN ends, by what it found. *)
Lemma join_cases e actor name join_key s r s' sent :
  join_on_owner e actor name join_key s = Some (r, s', sent) ->
  let key := ChannelOps.chan_key e name in
  let ch := join_channel e name s in
  if is_member (actor_conn actor) ch then r = AlreadyMember /\ os_channels s' = os_channels s /\ sent = []
  else match admission e actor join_key ch with
  | Some f => r = Rejected f /\ os_channels s' = os_channels s /\ sent = []
  | None => exists j g, r = Joined j /\ joined_key j = key
      /\ os_channels s' = <[key := with_modes g (welcome (actor_recipient actor) (actor_profile actor) (actor_identity actor)
           (join_modes e actor key ch s) ch)]> (os_channels s)
      /\ (is_Some (os_channels s !! key) -> g = id)
  end.
Proof.
  intros E key ch. unfold join_on_owner in E. fold key in E.
  assert (Hch : os_channels (set_channels (dir_entry key (fresh_channel e key name s) id) s) = <[key := ch]> (os_channels s)) by done.
  rewrite Hch, lookup_insert_eq in E. cbn [default from_option id] in E.
  assert (Hold : is_Some (os_channels s !! key) -> <[key := ch]> (os_channels s) = os_channels s).
  { intros [c Hc]. apply insert_id. unfold ch, join_channel. fold key. by rewrite Hc. }
  assert (Hnew : os_channels s !! key = None -> ch = fresh_channel e key name s).
  { intros Hc. unfold ch, join_channel. fold key. by rewrite Hc. }
  destruct (is_member (actor_conn actor) ch) eqn:Em.
  { injection E as <- <- <-. rewrite Hch. split; [done|]. split; [|done]. apply Hold.
    destruct (os_channels s !! key) eqn:Ec; [done|]. rewrite (Hnew eq_refl) in Em. by vm_compute in Em. }
  unfold join_modes. change (join_access e key actor (set_channels _ s)) with (join_access e key actor s) in E.
  destruct (join_access e key actor s) as [[isf aop] avoice].
  destruct (admission e actor join_key ch) as [f|] eqn:Ea.
  { injection E as <- <- <-. split; [done|]. split; [|done].
    change (os_channels (touch key ?x)) with (alter id key (os_channels x)). rewrite Hch, alter_id_eq. apply Hold.
    destruct (os_channels s !! key) eqn:Ec; [done|]. rewrite (Hnew eq_refl), fresh_admits in Ea. done. }
  match type of E with context [set_channels (dir_get_mut key ?f) ?x] => set (s2 := set_channels (dir_get_mut key f) x) in E end.
  assert (Hs2 : os_channels s2 = <[key := welcome (actor_recipient actor) (actor_profile actor) (actor_identity actor)
    (MkModes (negb (has_members ch) && negb (is_registered key s || channel_registration_pending key s) || isf || aop) avoice) ch]>
    (os_channels s)).
  { change (os_channels s2) with (alter (fun c => welcome (actor_recipient actor) (actor_profile actor) (actor_identity actor)
      (MkModes (negb (has_members ch) && negb (is_registered key s || channel_registration_pending key s) || isf || aop) avoice) c) key
      (alter id key (<[key := ch]> (os_channels s)))).
    rewrite alter_id_eq. apply alter_insert_eq. }
  assert (Hid : forall c : Channel, with_modes id c = c) by by intros [].
  destruct (os_channels s !! key) as [c|] eqn:Ec.
  - rewrite bool_decide_true in E by done. cbn [negb mbind option_bind] in E. injection E as <- <- <-.
    eexists _, id. split; [done|]. split; [done|]. by rewrite Hid, <- Hs2.
  - rewrite bool_decide_false in E by (by intros []). cbn [negb] in E.
    destruct (enforce_mlock_on e key s2) as [[s3 line]|] eqn:El; [|done]. cbn [mbind option_bind] in E. injection E as <- <- <-.
    apply enforce_mlock_on_spec in El as (g & Hg & _). eexists _, g. split; [done|]. split; [done|]. split; [|by intros []].
    by rewrite Hg, Hs2, alter_insert_eq.
Qed.

Lemma join_evolves locks e actor name join_key s r s' sent :
  env_casemap e = m -> join_on_owner e actor name join_key s = Some (r, s', sent) -> evolves locks (os_channels s) (os_channels s').
Proof.
  intros He E. apply join_cases in E. destruct (is_member _ _); [destruct E as (_ & -> & _); apply evolves_refl|].
  destruct (admission _ _ _ _); [destruct E as (_ & -> & _); apply evolves_refl|]. destruct E as (j & g & _ & _ & -> & Hg).
  set (key := ChannelOps.chan_key e name) in *. intros k ch' [[<- <-]|[Hne E]]%lookup_insert_Some; [|by apply evolves_refl].
  unfold join_channel. fold key. destruct (os_channels s !! key) as [c|] eqn:Ec; cbn [default from_option id].
  - left. exists c. split; [done|]. rewrite (Hg ltac:(done)). apply rtc_once.
    replace (with_modes id _) with (welcome (actor_recipient actor) (actor_profile actor) (actor_identity actor) (join_modes e actor key c s) c)
      by done. apply StepAdmit.
  - right. split; [done|]. unfold fresh_channel. apply (Born key name). unfold key, ChannelOps.chan_key. by rewrite He.
Qed.

(** ** Leaving *)

Lemma drop_channels key s :
  os_channels (drop_if_empty key s)
  = match os_channels s !! key with
    | Some ch => if has_members ch then os_channels s else delete key (os_channels s)
    | None => os_channels s
    end.
Proof. unfold drop_if_empty. destruct (os_channels s !! key) as [ch|]; [|done]. by destruct (has_members ch). Qed.

Lemma leave_evolves locks key conn s : evolves locks (os_channels s) (os_channels (drop_if_empty key (remove_from key conn s))).
Proof.
  rewrite drop_channels. change (os_channels (remove_from key conn s)) with (alter (fun ch => snd (remove_member conn ch)) key (os_channels s)).
  rewrite lookup_alter_eq. destruct (os_channels s !! key) as [ch|] eqn:E; cbn [fmap option_fmap option_map].
  - destruct (has_members _) eqn:Eh.
    + apply evolves_alter. intros c Hc. simplify_eq. apply rtc_once. by apply StepLeave.
    + intros k ch' [Hne E']%lookup_delete_Some. rewrite lookup_alter_ne in E' by done. by apply evolves_refl.
  - apply evolves_alter. intros c Hc. congruence.
Qed.

Lemma remove_absent conn (ch : Channel) : is_member conn ch = false -> snd (remove_member conn ch) = ch.
Proof.
  unfold is_member, remove_member. rewrite bool_decide_eq_false, <- eq_None_not_Some. intros E. rewrite E. cbn.
  rewrite delete_id by done. by destruct ch.
Qed.

Lemma quit_evolves_one locks key conn s :
  evolves locks (os_channels s)
    (os_channels (if match os_channels s !! key with Some ch => is_member conn ch | None => false end
      then drop_if_empty key (remove_from key conn s) else remove_from key conn s)).
Proof.
  destruct (match os_channels s !! key with Some ch => _ | None => _ end) eqn:Em; [apply leave_evolves|].
  apply evolves_alter. intros ch Hc. unfold os_channels in Em. rewrite Hc in Em. rewrite remove_absent by done. apply rtc_refl.
Qed.

(** ** The commands as one system *)

Inductive OwnerOp : Type :=
| OJoin (e : Env) (actor : ChannelActor) (name : str) (join_key : option str)
| OPart (e : Env) (actor : ChannelActor) (name : str) (reason : option str)
| OKick (e : Env) (actor : ChannelActor) (channel who : str) (reason : option str)
| OInvite (e : Env) (actor : ChannelActor) (target : str) (invitee : InviteeTarget) (nick : str) (away : option str)
| OKnock (e : Env) (actor : ChannelActor) (target : str) (user_throttled : bool)
| OTopic (e : Env) (actor : ChannelActor) (target text : str) (queue_takes : bool)
| OTopicSet (e : Env) (conn : Z) (r : TopicRequest) (retained : bool)
| OTopicFailed (e : Env) (channel : str) (revision : Z)
| OMode (e : Env) (online : str -> bool) (actor : ChannelActor) (target : str) (rest : list str)
| OVanished (e : Env) (key : str) (conn : Z)
| OQuit (keys : list str) (conn : Z)
| OUpdate (keys : list str) (r : Recipient) (who : MemberIdentity) (profile : ChannelMemberProfile)
| OLock (e : Env) (key : str)
(** Registrations, options and pending registrations change. *)
| ORegistry (founders : gmap str ChannelOwnership) (pending : gmap str str) (topics : gmap str Topic) (options : ChannelOptions).

(** [None] is a panic. *)
Definition owner_step (s : OwnerState) (o : OwnerOp) : option OwnerState :=
  match o with
  | OJoin e actor name k => '(_, s, _) ← join_on_owner e actor name k s; Some s
  | OPart e actor name reason => let '(_, s, _) := part_on_owner e actor name reason s in Some s
  | OKick e actor channel who reason => let '(_, s, _, _) := kick_on_owner e actor channel who reason s in Some s
  | OInvite e actor target invitee nick away => let '(_, s, _) := invite_on_owner pick e actor target invitee nick away s in Some s
  | OKnock e actor target throttled => let '(_, s, _) := knock_on_owner e actor target throttled s in Some s
  | OTopic e actor target text takes => let '(_, s, _, _) := topic_set_on_owner e actor target text takes s in Some s
  | OTopicSet e conn r retained => let '(_, s, _) := channel_topic_set e conn r retained s in Some s
  | OTopicFailed e channel revision => Some (channel_topic_failed e channel revision s)
  | OMode e online actor target rest => let '(_, s, _) := mode_on_owner e online actor target rest s in Some s
  | OVanished e key conn => Some (fst (remove_vanished_member e key conn s))
  | OQuit keys conn => Some (quit_channel_member keys conn s)
  | OUpdate keys r who profile => Some (apply_channel_member_update keys r who profile s)
  | OLock e key => '(s, _) ← apply_mlock e key s; Some s
  | ORegistry f p t o => Some (MkOwnerState (os_state s) f p t o (os_pending_topics s) (os_topic_revision s))
  end.

(** The server has one casemapping; [locks] says whether services set locks. *)
Definition op_ok (locks : bool) (o : OwnerOp) : Prop :=
  match o with
  | OJoin e _ _ _ => env_casemap e = m
  | OLock _ _ => locks = true
  | _ => True
  end.

(** A property of each channel under its key. *)
Definition all_channels (P : str -> Channel -> Prop) (s : OwnerState) : Prop := forall key ch, os_channels s !! key = Some ch -> P key ch.

Section Invariant.
Context (locks : bool) (P : str -> Channel -> Prop).
Context (P_born : forall key ch, born key ch -> P key ch).
Context (P_step : forall key ch ch', P key ch -> chan_step locks ch ch' -> P key ch').

Lemma P_steps key ch ch' : rtc (chan_step locks) ch ch' -> P key ch -> P key ch'.
Proof. induction 1; eauto. Qed.

Lemma evolves_all s s' : evolves locks (os_channels s) (os_channels s') -> all_channels P s -> all_channels P s'.
Proof.
  intros He Hs key ch' E. destruct (He key ch' E) as [(ch & E0 & Hr)|[_ Hb]]; [|by apply P_born].
  by eapply P_steps; [exact Hr|apply Hs].
Qed.

Lemma alter_all s s' key f :
  os_channels s' = alter f key (os_channels s) -> (forall ch, os_channels s !! key = Some ch -> rtc (chan_step locks) ch (f ch)) ->
  all_channels P s -> all_channels P s'.
Proof. intros E Hf. apply evolves_all. rewrite E. by apply evolves_alter. Qed.

Lemma same_all s s' : os_channels s' = os_channels s -> all_channels P s -> all_channels P s'.
Proof. intros E. apply evolves_all. rewrite E. apply evolves_refl. Qed.

Lemma leave_all key conn s : all_channels P s -> all_channels P (drop_if_empty key (remove_from key conn s)).
Proof. apply evolves_all, leave_evolves. Qed.

Lemma quit_all keys conn : forall s, all_channels P s -> all_channels P (quit_channel_member keys conn s).
Proof.
  induction keys as [|key keys IH]; intros s Hs; [done|]. apply IH. revert Hs. apply evolves_all, quit_evolves_one.
Qed.

Lemma update_all keys r who profile : forall s, all_channels P s -> all_channels P (apply_channel_member_update keys r who profile s).
Proof.
  induction keys as [|key keys IH]; intros s Hs; [done|]. apply IH. revert Hs. eapply alter_all; [done|].
  intros ch _. apply rtc_once, StepUpdate.
Qed.

Lemma clear_pending_channels key revision s : os_channels (clear_pending_topic key revision s) = os_channels s.
Proof. unfold clear_pending_topic. destruct (os_pending_topics s !! key) as [[p t]|]; [|done]. by destruct (p =? revision). Qed.

Lemma mode_all e online actor target rest s : all_channels P s -> all_channels P (snd (fst (mode_on_owner e online actor target rest s))).
Proof.
  intros Hs. unfold mode_on_owner. destruct (os_channels s !! _) as [ch|] eqn:Ec; [|done].
  destruct (channel_mode_by _ _ rest (Some ch)) as [[[ch'|] replies] changes] eqn:E; [|done]. cbn [fst snd]. revert Hs.
  eapply alter_all; [done|]. intros c Hc. rewrite Ec in Hc. injection Hc as <-.
  destruct (channel_mode_cases _ _ _ _ _ _ _ E) as [[-> _]|(_ & _ & modes & args & -> & _)]; [apply rtc_refl|].
  apply rtc_once, StepMode.
Qed.

Lemma vanished_all e key conn s : all_channels P s -> all_channels P (fst (remove_vanished_member e key conn s)).
Proof.
  intros Hs. unfold remove_vanished_member. destruct (mbind _ _) as [[ch mb]|]; cbn [fst].
  - apply (same_all (drop_if_empty key (remove_from key conn s))); [|by apply leave_all]. by rewrite !drop_channels.
  - revert Hs. eapply alter_all; [done|]. intros ch _. apply rtc_refl.
Qed.

Lemma lock_all e key s s' sent : locks = true -> apply_mlock e key s = Some (s', sent) -> all_channels P s -> all_channels P s'.
Proof.
  intros Hl. unfold apply_mlock. destruct (enforce_mlock_on e key s) as [[s1 line]|] eqn:E; [|done]. intros [= <- _].
  apply enforce_mlock_on_spec in E as (g & Hg & _). apply (alter_all _ _ _ _ Hg). intros ch _. apply rtc_once.
  by apply (StepLock _ (g (chan_modes ch)) ch).
Qed.

(** The outcomes of a command: nothing, a departure, or one channel's step. *)
Ltac settle :=
  first [ by apply same_all | apply leave_all
        | eapply alter_all; [done|]; intros ?ch Hch; simplify_eq;
          first [ apply rtc_refl | apply rtc_once; first [by apply StepInvite | apply StepKnock | apply StepTopic] ] ].

Lemma topic_set_all e conn r retained s : all_channels P s -> all_channels P (snd (fst (channel_topic_set e conn r retained s))).
Proof.
  unfold channel_topic_set. cbn [fst snd]. set (key := ChannelOps.chan_key _ _).
  apply (alter_all _ _ key (set_topic (request_topic r))); [|intros ch _; apply rtc_once, StepTopic].
  rewrite <- (clear_pending_channels key (request_revision r) s). by destruct (retained && _).
Qed.

Lemma owner_step_all s o s' : op_ok locks o -> owner_step s o = Some s' -> all_channels P s -> all_channels P s'.
Proof.
  destruct o; cbn [op_ok owner_step]; intros Ho E.
  - destruct (join_on_owner _ _ _ _ _) as [[[r s1] sent]|] eqn:Ej; [|done]. injection E as <-. eapply evolves_all, join_evolves; done.
  - unfold part_on_owner in E. repeat case_match; simplify_eq; settle.
  - unfold kick_on_owner in E. repeat case_match; simplify_eq; settle.
  - unfold invite_on_owner in E. repeat case_match; simplify_eq; settle.
  - unfold knock_on_owner in E. repeat case_match; simplify_eq; settle.
  - unfold topic_set_on_owner in E. repeat case_match; simplify_eq; settle.
  - pose proof (topic_set_all e conn r retained s) as Ht. destruct (channel_topic_set _ _ _ _ _) as [[l s1] sent]. by injection E as <-.
  - injection E as <-. apply same_all, clear_pending_channels.
  - pose proof (mode_all e online actor target rest s) as Hm. destruct (mode_on_owner _ _ _ _ _ _) as [[l s1] sent]. by injection E as <-.
  - injection E as <-. apply vanished_all.
  - injection E as <-. apply quit_all.
  - injection E as <-. apply update_all.
  - destruct (apply_mlock e key s) as [[s1 sent]|] eqn:El; [|done]. injection E as <-. by eapply lock_all.
  - injection E as <-. by apply same_all.
Qed.
End Invariant.

(** ** No command panics *)

Definition locks_ok (options : ChannelOptions) : Prop := forall key lock, get_mlock key options = Some lock -> flags_only lock.

Lemma enforce_mlock_total lock modes : flags_only lock -> is_Some (enforce_mlock lock modes).
Proof.
  intros [Hon Hoff]. unfold enforce_mlock. destruct (mlock_changes lock modes) as [on off] eqn:E.
  unfold mlock_changes in E. injection E as Eon Eoff. destruct (_ && _); [by eexists|].
  assert (Hf : forall q l, Forall (fun c => c ∈ FLAGS) l -> Forall (fun c => c ∈ FLAGS) (List.filter q l)).
  { intros q l Hl. rewrite Forall_forall in *. intros c [Hc _]%elem_of_Lfilter. auto. }
  destruct (set_flags_spec on true modes) as (m1 & -> & _); [rewrite <- Eon; by apply Hf|]. cbn [mbind option_bind].
  destruct (set_flags_spec off false m1) as (m2 & -> & _); [rewrite <- Eoff; by apply Hf|]. by eexists.
Qed.

Lemma enforce_mlock_on_total e key s : locks_ok (os_options s) -> is_Some (enforce_mlock_on e key s).
Proof.
  intros Hl. unfold enforce_mlock_on. destruct (get_mlock _ _) as [lock|] eqn:El; [|by eexists]. destruct (os_channels s !! key) as [ch|]; [|by eexists].
  destruct (enforce_mlock_total lock (chan_modes ch) (Hl _ _ El)) as [[[modes spec]|] ->]; by eexists.
Qed.

(** ** Invariants of the mode loop *)

Section ModeInvariant.
Context (cx : ModeContext) (Q : Channel -> Prop).
Context (Q_flag : forall c s, Q (ms_chan s) -> Q (ms_chan (flag_mode cx c s))).
Context (Q_key : forall s, Q (ms_chan s) -> Q (ms_chan (key_mode s))).
Context (Q_limit : forall s, Q (ms_chan s) -> Q (ms_chan (limit_mode s))).
Context (Q_mask : forall c l s, Q (ms_chan s) -> Q (ms_chan (mask_mode cx c l s))).
Context (Q_rank : forall c s, Q (ms_chan s) -> Q (ms_chan (rank_mode cx c s))).

Lemma mode_byte_inv c s : Q (ms_chan s) -> Q (ms_chan (mode_byte cx c s)).
Proof. intros Hs. unfold mode_byte. repeat case_match; auto. Qed.

Lemma mode_loop_inv modes args ch : Q ch -> Q (ms_chan (mode_loop cx modes args ch)).
Proof.
  unfold mode_loop. intros Hq. assert (Hs : Q (ms_chan (mode_start ch args))) by done. revert Hs. generalize (mode_start ch args).
  induction (chars modes) as [|x xs IH]; intros s Hs; [done|]. cbn [fold_left]. apply IH.
  destruct x as [|c [|]]; cbn [mode_char]; [by destruct (ms_unknown s)| |by destruct (ms_unknown s)].
  destruct (takes_parameter c s); [|by apply mode_byte_inv]. destruct (Nat.ltb _ _); [|by apply mode_byte_inv].
  unfold note_over. by destruct (push_mode _ _ _ _).
Qed.
End ModeInvariant.

(** ** Members and names *)

Definition well_kept (key : str) (ch : Channel) : Prop := has_members ch = true /\ key = casefold m (chan_name ch).

Lemma has_members_iff (ch : Channel) : has_members ch = true <-> exists conn, is_Some (chan_members ch !! conn).
Proof.
  unfold has_members. rewrite negb_true_iff, bool_decide_eq_false. split.
  - intros (conn & mb & E)%map_choose. by exists conn; rewrite E.
  - intros (conn & mb & E) E0. by rewrite E0, lookup_empty in E.
Qed.

Lemma has_members_insert conn mb (ch : Channel) cache : has_members (with_members (<[conn := mb]> (chan_members ch)) cache ch) = true.
Proof. apply has_members_iff. exists conn. cbn. by rewrite lookup_insert_eq. Qed.

Lemma well_kept_members (key : str) conn mb (ch : Channel) cache :
  key = casefold m (chan_name ch) -> well_kept key (with_members (<[conn := mb]> (chan_members ch)) cache ch).
Proof. intros Hk. split; [apply has_members_insert|done]. Qed.

Lemma well_kept_mode cx modes args key ch : well_kept key ch -> well_kept key (ms_chan (mode_loop cx modes args ch)).
Proof.
  apply mode_loop_inv.
  - intros c s Hs. unfold flag_mode. repeat case_match; done.
  - intros s Hs. unfold key_mode. repeat case_match; done.
  - intros s Hs. unfold limit_mode. repeat case_match; done.
  - intros c l s Hs. unfold mask_mode. repeat case_match; done.
  - intros c s [Hm Hk]. unfold rank_mode. repeat case_match; try done. cbn [ms_chan change]. unfold member_mut.
    destruct (chan_members _ !! _); [|done]. by apply well_kept_members.
Qed.

Lemma well_kept_step locks key ch ch' : well_kept key ch -> chan_step locks ch ch' -> well_kept key ch'.
Proof.
  intros [Hm Hk] Hs. destruct Hs; try done.
  - destruct (well_kept_members key (recipient_conn r) (MkMember modes r who profile) ch None Hk) as [Hm' Hk']. done.
  - unfold update_member. destruct (chan_members ch !! _); [|done]. destruct (negb _); [done|]. by apply well_kept_members.
  - by apply well_kept_mode.
Qed.

Lemma well_kept_born key ch : born key ch -> well_kept key ch.
Proof.
  intros [name topic now r profile who modes g ->]. split; [|done]. apply has_members_iff. exists (recipient_conn r).
  cbn. by rewrite lookup_insert_eq.
Qed.

(** ** Invitations *)

Record invites_ok (ch : Channel) : Prop := {
  invites_bounded : (size (invited ch) <= INVITE_LIMIT)%nat;
  invites_held : invited ch = ∅ \/ holds_invites ch = true;
  invites_outside : forall conn, conn ∈ invited ch -> is_member conn ch = false;
}.

Lemma invites_none ch : invited ch = ∅ -> invites_ok ch.
Proof. intros E. split; rewrite ?E; [rewrite size_empty; lia|by left|set_solver]. Qed.

(** A channel with the same members and invitations, whose modes still call
    for them. *)
Lemma invites_keep ch ch' :
  invites_ok ch -> invited ch' = invited ch -> (forall conn, is_member conn ch' = is_member conn ch) ->
  (holds_invites ch = true -> holds_invites ch' = true) -> invites_ok ch'.
Proof.
  intros [Hb Hh Ho] Ei Em Ep. split; rewrite ?Ei; [done|naive_solver|]. intros conn Hin. rewrite Em. auto.
Qed.

Lemma set_flag_invite modes c v modes' :
  set_flag modes c v = Some modes' ->
  invite_only modes' = (if c =b? "i" then v else invite_only modes) /\ chan_limit modes' = chan_limit modes.
Proof. destruct modes, c; try done; by intros [= <-]. Qed.

Lemma with_key_invites modes k : invite_only (with_key modes k) = invite_only modes /\ chan_limit (with_key modes k) = chan_limit modes.
Proof. by destruct modes. Qed.

Lemma with_limit_invites modes l : invite_only (with_limit modes l) = invite_only modes /\ chan_limit (with_limit modes l) = l.
Proof. by destruct modes. Qed.

Lemma invites_flag cx c s : invites_ok (ms_chan s) -> invites_ok (ms_chan (flag_mode cx c s)).
Proof.
  intros Hs. unfold flag_mode. destruct (mlock_conflict _ _ _); [done|]. destruct (flag _ c); [|done].
  destruct (set_flag _ c _) as [modes|] eqn:E; [|done]. destruct (Bool.eqb _ _); [done|]. cbn [ms_chan change].
  apply set_flag_invite in E as [Ei El]. destruct (byte_eqb_spec c "i") as [->|Hne]; cbn [andb].
  - destruct (ms_adding s); cbn [negb]; [|by apply invites_none]. apply (invites_keep (ms_chan s)); try done.
    intros _. unfold holds_invites. cbn. by rewrite Ei.
  - apply (invites_keep (ms_chan s)); try done. unfold holds_invites. cbn. by rewrite Ei, El.
Qed.

Lemma invites_key s : invites_ok (ms_chan s) -> invites_ok (ms_chan (key_mode s)).
Proof.
  assert (Hk : forall k (ch : Channel), invites_ok ch -> invites_ok (with_modes (fun modes => with_key modes k) ch)).
  { intros k ch Hs. apply (invites_keep ch); try done. unfold holds_invites. cbn. by destruct (with_key_invites (chan_modes ch) k) as [-> ->]. }
  intros Hs. unfold key_mode. repeat case_match; try done; by apply Hk.
Qed.

Lemma invites_limit s : invites_ok (ms_chan s) -> invites_ok (ms_chan (limit_mode s)).
Proof.
  intros Hs. unfold limit_mode. destruct (ms_adding s).
  - destruct (ms_args s) as [|l args]; [done|]. destruct (parse_uint _ l) as [n|]; [|done]. destruct (0 <? n); [|done].
    case_bool_decide; [done|]. apply (invites_keep (ms_chan s)); try done. intros _. unfold holds_invites. cbn.
    destruct (with_limit_invites (chan_modes (ms_chan s)) (Some n)) as [-> ->]. by rewrite orb_true_r.
  - destruct (chan_limit _); [|done]. cbn [ms_chan change]. destruct (with_limit_invites (chan_modes (ms_chan s)) None) as [Ei El].
    cbn [with_modes chan_modes]. rewrite Ei. destruct (invite_only (chan_modes (ms_chan s))) eqn:Eo; [|by apply invites_none].
    apply (invites_keep (ms_chan s)); try done. intros _. unfold holds_invites. cbn. by rewrite Ei.
Qed.

Lemma invites_mode cx modes args ch : invites_ok ch -> invites_ok (ms_chan (mode_loop cx modes args ch)).
Proof.
  apply mode_loop_inv; [apply invites_flag|apply invites_key|apply invites_limit| |].
  - intros c l s Hs. unfold mask_mode. repeat case_match; try done; by apply (invites_keep (ms_chan s)).
  - intros c s Hs. unfold rank_mode. repeat case_match; try done. cbn [ms_chan change]. apply (invites_keep (ms_chan s)); try done.
    + unfold member_mut. by destruct (chan_members _ !! _).
    + intros conn. unfold is_member. apply bool_decide_ext.
      rewrite <- !(fmap_is_Some member_identity), member_mut_identity. done.
    + unfold holds_invites. by rewrite (proj1 (member_mut_same _ _ _)).
Qed.

Lemma invites_born (key : str) ch : born key ch -> invites_ok ch.
Proof. intros []. apply invites_none. cbn. set_solver. Qed.

Section Pick.
Context (Hpick : forall holders, holders <> ∅ -> pick holders ∈ holders).

Lemma make_room_spec fuel conn : forall holders,
  (size holders < fuel)%nat ->
  let r := make_room pick fuel conn holders in
  r ⊆ holders /\ (conn ∈ r \/ (size r < INVITE_LIMIT)%nat).
Proof.
  induction fuel as [|fuel IH]; intros holders Hf; [lia|]. cbn [make_room].
  destruct (Nat.leb_spec INVITE_LIMIT (size holders)) as [Hl|Hl]; cbn [andb]; [|by split; [|right]].
  case_bool_decide as Hc; cbn [negb]; [by split; [|left]|].
  assert (pick holders ∈ holders) as Hp by (apply Hpick; intros ->; rewrite size_empty in Hl; unfold INVITE_LIMIT in Hl; lia).
  destruct (IH (holders ∖ {[pick holders]})) as [Hsub Hr].
  - rewrite size_difference by set_solver. rewrite size_singleton. unfold INVITE_LIMIT in Hl. lia.
  - split; [set_solver|done].
Qed.

Lemma record_invite_spec conn holders :
  (size holders <= INVITE_LIMIT)%nat ->
  (size (record_invite pick conn holders) <= INVITE_LIMIT)%nat /\ record_invite pick conn holders ⊆ {[conn]} ∪ holders.
Proof.
  intros Hs. unfold record_invite. destruct (make_room_spec (S (size holders)) conn holders) as [Hsub Hr]; [lia|].
  split; [|set_solver]. destruct Hr as [Hin|Hlt].
  - rewrite subseteq_union_1 by set_solver. etransitivity; [by apply subseteq_size|done].
  - rewrite size_union_alt, size_singleton. etransitivity; [apply Nat.add_le_mono_l, (subseteq_size _ (make_room pick (S (size holders)) conn holders)); set_solver|]. lia.
Qed.

Lemma invites_step ch ch' : invites_ok ch -> chan_step false ch ch' -> invites_ok ch'.
Proof.
  intros Hs Hstep. destruct Hstep; try done; try (by apply (invites_keep ch)).
  - destruct Hs as [Hb Hh Ho]. split; cbn.
    + etransitivity; [|exact Hb]. apply subseteq_size. set_solver.
    + destruct Hh as [->|]; [left; set_solver|by right].
    + intros conn [Hin Hne]%elem_of_difference. apply Ho in Hin. revert Hin. unfold is_member. cbn.
      rewrite !bool_decide_eq_false. rewrite lookup_insert_ne by set_solver. done.
  - destruct Hs as [Hb Hh Ho]. split; [done|done|]. intros c Hin%Ho. revert Hin. unfold is_member. cbn.
    rewrite !bool_decide_eq_false, <- !eq_None_not_Some. intros E. by apply lookup_delete_None; right.
  - destruct Hs as [Hb Hh Ho]. destruct (record_invite_spec conn (invited ch) Hb) as [Hb' Hsub]. split; cbn; [done|by right|].
    intros c Hc. change (is_member c ch = false). apply Hsub in Hc. apply elem_of_union in Hc as [->%elem_of_singleton|Hin]; auto.
  - apply (invites_keep ch); try done; unfold update_member; (destruct (chan_members ch !! _) eqn:E; [|done]);
      (destruct (negb _); [done|]); try done. intros k. unfold is_member. cbn. apply bool_decide_ext.
    destruct (decide (recipient_conn r = k)) as [<-|Hne]; [rewrite lookup_insert_eq, E|by rewrite lookup_insert_ne]. done.
  - by apply invites_mode.
Qed.

End Pick.

(** ** Runs *)

Definition registry_ok (o : OwnerOp) : Prop := match o with ORegistry _ _ _ options => locks_ok options | _ => True end.

Definition OwnerState_new (d : MembershipDirectory) : OwnerState :=
  MkOwnerState (ShardState_new d) ∅ ∅ ∅ (MkOptions ∅ ∅ ∅) ∅ 0.

Fixpoint owner_run (s : OwnerState) (ops : list OwnerOp) : option OwnerState :=
  match ops with
  | [] => Some s
  | o :: ops => s ← owner_step s o; owner_run s ops
  end.

Lemma join_total e actor name join_key s : locks_ok (os_options s) -> is_Some (join_on_owner e actor name join_key s).
Proof.
  intros Hl. unfold join_on_owner. destruct (is_member _ _); [by eexists|]. destruct (join_access _ _ _ _) as [[isf o] v].
  destruct (admission _ _ _ _); [by eexists|]. destruct (negb (bool_decide _)); [|by eexists].
  match goal with |- context [enforce_mlock_on e ?key ?s2] => destruct (enforce_mlock_on_total e key s2 Hl) as [[s3 line] ->] end.
  by eexists.
Qed.

Lemma quit_options keys conn : forall s, os_options (quit_channel_member keys conn s) = os_options s.
Proof.
  induction keys as [|key keys IH]; intros s; [done|]. cbn [quit_channel_member fold_left].
  etransitivity; [apply IH|]. destruct (match os_channels s !! key with Some _ => _ | None => _ end); [|done].
  unfold drop_if_empty. by repeat case_match.
Qed.

Lemma update_options keys r who profile : forall s, os_options (apply_channel_member_update keys r who profile s) = os_options s.
Proof. induction keys as [|key keys IH]; intros s; [done|]. etransitivity; [apply IH|done]. Qed.

Lemma drop_options key s : os_options (drop_if_empty key s) = os_options s.
Proof. unfold drop_if_empty. by repeat case_match. Qed.

Lemma enforce_options e key s s' line : enforce_mlock_on e key s = Some (s', line) -> os_options s' = os_options s.
Proof. by intros (g & _ & Ho & _)%enforce_mlock_on_spec. Qed.

Lemma join_options e actor name join_key s r s' sent :
  join_on_owner e actor name join_key s = Some (r, s', sent) -> os_options s' = os_options s.
Proof.
  unfold join_on_owner. destruct (is_member _ _); [by intros [= <- <- <-]|]. destruct (join_access _ _ _ _) as [[isf o] v].
  destruct (admission _ _ _ _); [by intros [= <- <- <-]|]. destruct (negb (bool_decide _)); [|by intros [= <- <- <-]].
  destruct (enforce_mlock_on _ _ _) as [[s3 line]|] eqn:El; [|done]. cbn [mbind option_bind]. intros [= <- <- <-].
  by rewrite (enforce_options _ _ _ _ _ El).
Qed.

Lemma clear_pending_options key revision s : os_options (clear_pending_topic key revision s) = os_options s.
Proof. unfold clear_pending_topic. by repeat case_match. Qed.

(** No command panics while the locks hold only flag modes. *)
Lemma owner_step_total s o :
  locks_ok (os_options s) -> registry_ok o -> exists s', owner_step s o = Some s' /\ locks_ok (os_options s').
Proof.
  intros Hl Hr. assert (Hsame : forall s', owner_step s o = Some s' -> os_options s' = os_options s -> exists s', owner_step s o = Some s' /\ locks_ok (os_options s')).
  { intros s' E Ho. exists s'. by rewrite Ho. }
  destruct o; cbn [owner_step] in *.
  - destruct (join_total e actor name join_key s Hl) as [[[r s1] sent] Ej]. rewrite Ej in *. cbn [mbind option_bind] in *.
    eapply Hsame; [done|by eapply join_options].
  - unfold part_on_owner in *. repeat case_match; simplify_eq; (eapply Hsame; [done|]); by rewrite ?drop_options.
  - unfold kick_on_owner in *. repeat case_match; simplify_eq; (eapply Hsame; [done|]); by rewrite ?drop_options.
  - unfold invite_on_owner in *. repeat case_match; simplify_eq; by eapply Hsame.
  - unfold knock_on_owner in *. repeat case_match; simplify_eq; by eapply Hsame.
  - unfold topic_set_on_owner in *. repeat case_match; simplify_eq; by eapply Hsame.
  - eapply Hsame; [done|]. cbn. rewrite <- (clear_pending_options (ChannelOps.chan_key e (request_channel r)) (request_revision r) s).
    by destruct (retained && _).
  - eapply Hsame; [done|]. apply clear_pending_options.
  - unfold mode_on_owner in *. destruct (channel_mode_by _ _ _ _) as [[[ch|] replies] changes]; by eapply Hsame.
  - eapply Hsame; [done|]. unfold remove_vanished_member. destruct (mbind _ _) as [[ch mb]|]; [|done]. cbn [fst]. by rewrite drop_options.
  - eapply Hsame; [done|]. apply quit_options.
  - eapply Hsame; [done|]. apply update_options.
  - unfold apply_mlock in *. destruct (enforce_mlock_on_total e key s Hl) as [[s1 line] E]. rewrite E in *. cbn [mbind option_bind] in *.
    eapply Hsame; [done|]. by eapply enforce_options.
  - eexists. split; [done|]. exact Hr.
Qed.

Lemma owner_run_all locks (P : str -> Channel -> Prop) ops :
  (forall key ch, born key ch -> P key ch) -> (forall key ch ch', P key ch -> chan_step locks ch ch' -> P key ch') ->
  forall s, Forall (fun o => op_ok locks o /\ registry_ok o) ops -> locks_ok (os_options s) -> all_channels P s ->
  exists s', owner_run s ops = Some s' /\ all_channels P s'.
Proof.
  intros Hb Hst. induction ops as [|o ops IH]; intros s Hops Hl Hs; [by exists s|]. apply Forall_cons in Hops as [[Ho Hr] Hops].
  destruct (owner_step_total s o Hl Hr) as (s1 & E & Hl1). cbn [owner_run]. rewrite E. cbn [mbind option_bind].
  apply IH; try done. by eapply (owner_step_all locks P).
Qed.

Lemma OwnerState_new_all P d : all_channels P (OwnerState_new d).
Proof. intros key ch E. change ((∅ : gmap str Channel) !! key = Some ch) in E. by rewrite lookup_empty in E. Qed.

Lemma OwnerState_new_locks d : locks_ok (os_options (OwnerState_new d)).
Proof. intros key lock E. change ((∅ : gmap str MlockModes) !! key = Some lock) in E. by rewrite lookup_empty in E. Qed.

(** ** Admission *)

(** The rules a channel lets clients in by, each as the refusal it answers with:
    [passes f] when the client is not refused for [f]. *)
Definition passes (e : Env) (actor : ChannelActor) (join_key : option str) (ch : Channel) (f : ChannelJoinFailure) : Prop :=
  match f with
  | Banned => is_banned (env_casemap e) (mask_subject actor) ch = false
  | BadKey => forall key, Channel.chan_key (chan_modes ch) = Some key ->
      exists k, join_key = Some k /\ casefold (env_casemap e) key = casefold (env_casemap e) k
  | InviteOnly => invite_only (chan_modes ch) = true ->
      actor_conn actor ∈ invited ch \/ is_invite_excepted (env_casemap e) (mask_subject actor) ch = true
  | Full => forall limit, chan_limit (chan_modes ch) = Some limit ->
      Z.of_nat (member_count ch) < limit \/ actor_conn actor ∈ invited ch
  end.

(** The order they are put to a client in. *)
Definition join_rules : list ChannelJoinFailure := [Banned; BadKey; InviteOnly; Full].

Definition may_enter (e : Env) (actor : ChannelActor) (join_key : option str) (ch : Channel) : Prop :=
  Forall (passes e actor join_key ch) join_rules.

(** [f] is the first rule the client does not pass. *)
Definition first_failed (e : Env) (actor : ChannelActor) (join_key : option str) (ch : Channel) (f : ChannelJoinFailure) : Prop :=
  exists before after, join_rules = before ++ f :: after
    /\ Forall (passes e actor join_key ch) before /\ ~ passes e actor join_key ch f.

Section Admission.
Context (e : Env) (actor : ChannelActor) (join_key : option str) (ch : Channel).

(** The test [admission] makes for each rule. *)
Definition refuses (f : ChannelJoinFailure) : bool :=
  let was_invited := bool_decide (actor_conn actor ∈ invited ch) in
  match f with
  | Banned => is_banned (env_casemap e) (mask_subject actor) ch
  | BadKey => match Channel.chan_key (chan_modes ch) with
              | Some key => negb (match join_key with Some k => channel_key_matches (env_casemap e) key k | None => false end)
              | None => false
              end
  | InviteOnly => invite_only (chan_modes ch) && negb was_invited && negb (is_invite_excepted (env_casemap e) (mask_subject actor) ch)
  | Full => match chan_limit (chan_modes ch) with
            | Some limit => (limit <=? Z.of_nat (member_count ch)) && negb was_invited
            | None => false
            end
  end.

Lemma refuses_iff f : refuses f = false <-> passes e actor join_key ch f.
Proof.
  destruct f; cbn [refuses passes].
  - done.
  - destruct (Channel.chan_key (chan_modes ch)) as [key|]; [|naive_solver]. rewrite negb_false_iff. split.
    + intros Hk key' [= <-]. destruct join_key as [k|]; [|done]. exists k. split; [done|]. by apply str_eqb_eq.
    + intros Hk. destruct (Hk key eq_refl) as (k & -> & E). by apply str_eqb_eq.
  - destruct (invite_only (chan_modes ch)); cbn [andb]; [|naive_solver]. rewrite andb_false_iff, !negb_false_iff, bool_decide_eq_true. naive_solver.
  - destruct (chan_limit (chan_modes ch)) as [limit|]; [|naive_solver]. rewrite andb_false_iff, negb_false_iff, bool_decide_eq_true, Z.leb_gt. naive_solver.
Qed.

Lemma admission_finds : admission e actor join_key ch = List.find refuses join_rules.
Proof. reflexivity. Qed.

Lemma find_first {A} (f : A -> bool) l :
  match List.find f l with
  | Some a => exists before after, l = before ++ a :: after /\ Forall (fun b => f b = false) before /\ f a = true
  | None => Forall (fun b => f b = false) l
  end.
Proof.
  induction l as [|b l IH]; cbn; [done|]. destruct (f b) eqn:Eb; [by exists [], l|].
  destruct (List.find f l) as [a|]; [|by constructor]. destruct IH as (before & after & -> & Hb & Ha). exists (b :: before), after. split_and!; [done|by constructor|done].
Qed.

Lemma refuses_all l : Forall (fun f => refuses f = false) l -> Forall (passes e actor join_key ch) l.
Proof. intros Hl. eapply Forall_impl; [exact Hl|]. intros f. apply refuses_iff. Qed.

Lemma admission_spec :
  match admission e actor join_key ch with
  | Some f => first_failed e actor join_key ch f
  | None => may_enter e actor join_key ch
  end.
Proof.
  rewrite admission_finds. pose proof (find_first refuses join_rules) as Hf. destruct (List.find refuses join_rules) as [f|]; [|by apply refuses_all].
  destruct Hf as (before & after & El & Hb & Ha). exists before, after. split; [done|]. split; [by apply refuses_all|]. rewrite <- refuses_iff. congruence.
Qed.
End Admission.

(** C5. A JOIN that is answered leaves every other channel as it is.  A member
    changes nothing; anyone else is let in exactly when not banned, holding the
    key, invited or excepted where the channel is invite-only, and invited or
    within the limit, and otherwise is refused for the first of these rules, in
    this order, that fails, and changes nothing.  Whoever gets in is a member, an operator only as the
    creator of an unregistered channel, its founder or by the access list, and
    has used up the invitation. *)
Theorem join_admits_exactly e actor name join_key s r s' sent :
  join_on_owner e actor name join_key s = Some (r, s', sent) ->
  let key := ChannelOps.chan_key e name in
  let ch := join_channel e name s in
  match r with
  | AlreadyMember => is_member (actor_conn actor) ch = true /\ os_channels s' = os_channels s /\ sent = []
  | Rejected f =>
      is_member (actor_conn actor) ch = false /\ first_failed e actor join_key ch f /\ os_channels s' = os_channels s /\ sent = []
  | Joined j =>
      is_member (actor_conn actor) ch = false /\ may_enter e actor join_key ch
      /\ exists ch', os_channels s' = <[key := ch']> (os_channels s)
           /\ chan_members ch' = <[actor_conn actor := MkMember (join_modes e actor key ch s) (actor_recipient actor)
                (actor_identity actor) (actor_profile actor)]> (chan_members ch)
           /\ invited ch' = invited ch ∖ {[actor_conn actor]}
           /\ (chan_name ch', bans ch', quiets ch', ban_exceptions ch', invite_exceptions ch')
              = (chan_name ch, bans ch, quiets ch, ban_exceptions ch, invite_exceptions ch)
           /\ (is_Some (os_channels s !! key) -> chan_modes ch' = chan_modes ch)
           /\ (op (join_modes e actor key ch s) = true ->
                (has_members ch = false /\ is_registered key s = false /\ channel_registration_pending key s = false)
                \/ exists a, actor_account actor = Some a /\ (is_founder e key a s = true \/ fst (access_modes e key a s) = true))
  end.
Proof.
  intros E key ch. pose proof (join_cases _ _ _ _ _ _ _ _ E) as Hc. cbv zeta in Hc. fold ch key in Hc.
  destruct (is_member (actor_conn actor) ch) eqn:Em; [by destruct Hc as (-> & -> & ->)|].
  pose proof (admission_spec e actor join_key ch) as Ha. destruct (admission e actor join_key ch) as [f|].
  - by destruct Hc as (-> & -> & ->).
  - destruct Hc as (j & g & -> & _ & -> & Hg). split; [done|]. split; [done|]. eexists. split; [done|].
    split_and!; try done.
    + intros Hs. by rewrite (Hg Hs).
    + unfold join_modes, join_access. destruct (actor_account actor) as [a|].
      * destruct (access_modes e key a s) as [o v] eqn:Eo. cbn [op]. rewrite !orb_true_iff, andb_true_iff, !negb_true_iff, orb_false_iff.
        intros [[[? []]|Hf]|Ho]; [left; by split_and!|right; exists a..]; rewrite ?Eo; auto.
      * cbn [op]. rewrite !orb_false_r, andb_true_iff, !negb_true_iff, orb_false_iff. intros (? & ? & ?). left. by split_and!.
Qed.

(** C38. Whatever JOINs, PARTs, KICKs, INVITEs, KNOCKs, TOPICs, MODEs, quits,
    departures, member updates, mode locks and registrations reach a shard, in
    any order, no command panics, and every channel it then has has a member
    and sits under the folded form of its own name: none is left behind empty,
    and a JOIN that is refused makes none. *)
Theorem channels_well_kept (d : MembershipDirectory) (ops : list OwnerOp)
    (Hops : Forall (fun o => op_ok true o /\ registry_ok o) ops) :
  exists s, owner_run (OwnerState_new d) ops = Some s
    /\ forall key ch, os_channels s !! key = Some ch -> has_members ch = true /\ key = casefold m (chan_name ch).
Proof.
  apply (owner_run_all true well_kept); [apply well_kept_born|intros key ch ch'; apply well_kept_step|done|apply OwnerState_new_locks|apply OwnerState_new_all].
Qed.

(** While services apply no mode lock to a live channel, an invitation is
    held only on a channel that is invite-only or limited, only for someone not
    in it, and a channel holds at most [INVITE_LIMIT] of them, whichever holder
    a full channel gives up: none is stocked for when the channel is locked
    again. *)
Theorem invites_not_stocked (d : MembershipDirectory) (ops : list OwnerOp)
    (Hpick : forall holders, holders <> ∅ -> pick holders ∈ holders)
    (Hops : Forall (fun o => op_ok false o /\ registry_ok o) ops) :
  exists s, owner_run (OwnerState_new d) ops = Some s
    /\ forall key ch, os_channels s !! key = Some ch ->
         (size (invited ch) <= INVITE_LIMIT)%nat
         /\ forall conn, conn ∈ invited ch ->
              is_member conn ch = false /\ (invite_only (chan_modes ch) = true \/ is_Some (chan_limit (chan_modes ch))).
Proof.
  destruct (owner_run_all false (fun _ => invites_ok) ops invites_born (fun _ ch ch' => invites_step Hpick ch ch')
    (OwnerState_new d) Hops (OwnerState_new_locks d) (OwnerState_new_all _ d)) as (s & Hrun & Hs).
  exists s. split; [done|]. intros key ch [Hb Hh Ho]%Hs. split; [done|]. intros conn Hin. split; [by apply Ho|].
  destruct Hh as [E|Hh]; [set_solver|]. unfold holds_invites in Hh. apply orb_true_iff in Hh as [?|?%bool_decide_eq_true]; auto.
Qed.
End Safety.

(** ** Witnesses *)

Section Sample.
#[local] Existing Instance PlainIpNet.

Definition sample_env : Env := MkEnv 0 None Rfc1459 (bs "irc.test") 1000 1000.
Definition sample_actor (conn : Z) (nick : str) : ChannelActor :=
  MkActor (MkRecipient (MkOwner conn 0) Caps_default) (MkIdentity nick (nick ++ bs "!u@h") false) None (bs "r") None false
    (MkProfile (bs "u") (bs "h") None (bs "r") None false false false 0).
Definition sample_start : OwnerState := OwnerState_new (MkMemberships ∅ ∅).
Definition pick_first (holders : gset Z) : Z := default 0 (head (elements holders)).

Lemma pick_first_in holders : holders <> ∅ -> pick_first holders ∈ holders.
Proof.
  intros Hne. unfold pick_first. destruct (elements holders) as [|x l] eqn:E; [by apply elements_empty_inv in E; set_solver|].
  cbn. apply elem_of_elements. rewrite E. left.
Qed.

Abbreviation sample_join := (join_on_owner sample_env (sample_actor 1 (bs "bob")) (bs "#Rust") None sample_start).

Lemma sample_join_ok : match sample_join with Some (Joined _, _, _) => true | _ => false end = true.
Proof. vm_compute. reflexivity. Qed.

Lemma join_admits_exactly_witness :
  match sample_join with
  | Some (Joined _, s', _) => may_enter sample_env (sample_actor 1 (bs "bob")) None (join_channel sample_env (bs "#Rust") sample_start)
  | _ => False
  end.
Proof.
  pose proof sample_join_ok as Hok. destruct sample_join as [[[[j| |f] s'] sent]|] eqn:E; try discriminate Hok.
  exact (proj1 (proj2 (join_admits_exactly sample_env (sample_actor 1 (bs "bob")) (bs "#Rust") None sample_start (Joined j) s' sent E))).
Defined.

Definition sample_ops : list OwnerOp :=
  [OJoin sample_env (sample_actor 1 (bs "bob")) (bs "#Rust") None; OMode sample_env (fun _ => true) (sample_actor 1 (bs "bob")) (bs "#rust") [bs "+i"];
   OInvite sample_env (sample_actor 1 (bs "bob")) (bs "#rust") (InviteSession (MkOwner 2 0)) (bs "carol") None].

Lemma channels_well_kept_witness :
  exists s, owner_run pick_first sample_start sample_ops = Some s
    /\ forall key ch, os_channels s !! key = Some ch -> has_members ch = true /\ key = casefold Rfc1459 (chan_name ch).
Proof. apply (channels_well_kept Rfc1459 pick_first). repeat constructor. Defined.

Lemma invites_not_stocked_witness :
  exists s, owner_run pick_first sample_start sample_ops = Some s
    /\ forall key ch, os_channels s !! key = Some ch -> (size (invited ch) <= INVITE_LIMIT)%nat
         /\ forall conn, conn ∈ invited ch ->
              is_member conn ch = false /\ (invite_only (chan_modes ch) = true \/ is_Some (chan_limit (chan_modes ch))).
Proof. apply (invites_not_stocked Rfc1459 pick_first); [exact pick_first_in|repeat constructor]. Defined.

(** A mode lock that opens the channel leaves the invitations standing: an
    invitation from before admits its holder after the lock is gone and an
    operator has made the channel invite-only again. *)
Example lock_stocks_invitation :
  let registry lock := ORegistry ∅ ∅ ∅ (MkOptions ∅ lock ∅) in
  let mode spec := OMode sample_env (fun _ => true) (sample_actor 1 (bs "bob")) (bs "#rust") [spec] in
  match owner_run pick_first sample_start
    (sample_ops ++ [registry {[bs "#rust" := MkMlock [] (bs "i")]}; OLock sample_env (bs "#rust"); registry ∅; mode (bs "+i")]) with
  | Some s =>
      match join_on_owner sample_env (sample_actor 2 (bs "carol")) (bs "#rust") None s,
            join_on_owner sample_env (sample_actor 3 (bs "dave")) (bs "#rust") None s with
      | Some (Joined _, _, _), Some (Rejected InviteOnly, _, _) => true
      | _, _ => false
      end
  | None => false
  end = true.
Proof. vm_compute. reflexivity. Qed.
End Sample.
