(* ===== verification/OneShard.v ===== *)
(** * A server of one shard ([e6ircd/src/core/handler/channel.rs], [cmd_join]
      and [cmd_part]; the session halves of JOIN, PART, KICK and QUIT;
      [ChannelName] of [e6ircd/src/sanitize.rs])

    The commands of [ChannelOps] joined to the sessions that send them: the
    lists of targets, each session's index of its channels, the membership
    directory, and the publication at the end of every event.  With one shard
    every channel and session is owned here and no JOIN is ever in flight. *)

From S2P Require Import Prelude Str Keys Casemap Mask Num Time Multimap Wire Message Middle Ip Address BanMask Nicks Channel Recency HistoryRing HotHistory ChannelState Directories Publish Registry Events ModeChange ModeReplay ChannelOps ChannelSafety Sanitize.
From stdpp Require Import gmap.

Local Open Scope Z_scope.

(** ** Target lists *)

(** [unique_targets_indexed] from position [i], the folded names [seen]. *)
Fixpoint unique_from (m : CaseMapping) (i : nat) (targets : list str) (seen : list str) : list (nat * str) :=
  match targets with
  | [] => []
  | t :: targets =>
      if negb (is_empty t) && negb (bool_decide (casefold m t ∈ seen))
      then (i, t) :: unique_from m (S i) targets (casefold m t :: seen)
      else unique_from m (S i) targets seen
  end.

Definition unique_targets_indexed (targets : str) (m : CaseMapping) : list (nat * str) :=
  unique_from m 0 (Str.split "," targets) [].

(** The targets within [cap], and the first one past it. *)
Definition capped_channel_targets (m : CaseMapping) (targets : str) (cap : nat) : list (nat * str) * option str :=
  let all := unique_targets_indexed targets m in (take cap all, snd <$> head (drop cap all)).

Definition MAX_CHANNELS_PER_SESSION : nat := Z.to_nat 250.
Definition JOIN_TARGMAX : nat := MAX_CHANNELS_PER_SESSION.
Definition PART_TARGMAX : nat := MAX_CHANNELS_PER_SESSION.

Section OneShard.
Context `{IpNet} (m : CaseMapping) (entry_size : N) (pick : gset Z -> Z).
Abbreviation Channel := (Channel (Caps := Caps)).
Abbreviation Recipient := (Recipient (Caps := Caps)).

(** ** The server *)

(** The owner's state and each registered session's channels. *)
Record Server : Type := MkServer {
  sv_owner : OwnerState;
  sv_sessions : gmap Z (gset str);
}.

Definition session_channels (conn : Z) (sv : Server) : gset str := default ∅ (sv_sessions sv !! conn).

Definition on_memberships_of (f : MembershipDirectory -> MembershipDirectory) (s : OwnerState) : OwnerState :=
  set_state (on_memberships f) s.

Definition enter (conn : Z) (key : str) (sv : Server) : Server :=
  MkServer (on_memberships_of (Directories.join conn key) (sv_owner sv))
    (alter (fun keys => {[key]} ∪ keys) conn (sv_sessions sv)).

(** [remove_session_channel], and the session half of PART. *)
Definition remove_session_channel (conn : Z) (key : str) (sv : Server) : Server :=
  MkServer (on_memberships_of (part conn key) (sv_owner sv)) (alter (fun keys => keys ∖ {[key]}) conn (sv_sessions sv)).

Definition with_owner (s : OwnerState) (sv : Server) : Server := MkServer s (sv_sessions sv).

(** ** PART *)

Inductive Reply : Type :=
| NeedMoreParameters
| TooManyTargets (target : str)
| BadChannelName (target : str)
| NoSuchChannelName (target : str)
| TooManyChannels (target : str)
| JoinAnswer (r : ChannelJoinResult)
| PartAnswer (r : ChannelPartResult)
| ListsMismatch
| NotKicked (target : str)
| KickAnswer (r : ChannelKickResult).

Definition part_one (e : Env) (actor : ChannelActor) (reason : option str) (sv : Server) (target : str)
    : Server * list Reply * list Outgoing :=
  let '(r, s, sent) := part_on_owner e actor target reason (sv_owner sv) in
  let sv := with_owner s sv in
  (match r with Parted key _ => remove_session_channel (actor_conn actor) key sv | _ => sv end, [PartAnswer r], sent).

(** Commands over a list of targets, in order. *)
Fixpoint over_targets {A} (f : Server -> A -> option (Server * list Reply * list Outgoing)) (targets : list A) (sv : Server)
    : option (Server * list Reply * list Outgoing) :=
  match targets with
  | [] => Some (sv, [], [])
  | t :: targets =>
      '(sv, r1, o1) ← f sv t;
      '(sv, r2, o2) ← over_targets f targets sv;
      Some (sv, r1 ++ r2, o1 ++ o2)
  end.

Definition no_target (targets : str) : bool := forallb is_empty (Str.split "," targets).
Definition over_reply (over : option str) : list Reply := match over with Some t => [TooManyTargets t] | None => [] end.

Definition cmd_part (e : Env) (actor : ChannelActor) (p : list str) (sv : Server) : option (Server * list Reply * list Outgoing) :=
  let targets := default [] (head p) in
  if no_target targets then Some (sv, [NeedMoreParameters], [])
  else
    let '(kept, over) := capped_channel_targets (env_casemap e) targets PART_TARGMAX in
    '(sv, replies, sent) ← over_targets (fun sv t => Some (part_one e actor (p !! 1%nat) sv (snd t))) kept sv;
    Some (sv, over_reply over ++ replies, sent).

(** ** JOIN *)

Definition join_one (e : Env) (actor : ChannelActor) (keys : list str) (sv : Server) (t : nat * str)
    : option (Server * list Reply * list Outgoing) :=
  let '(i, target) := t in
  match ChannelName_parse target with
  | Err NotAChannel => Some (sv, [NoSuchChannelName target], [])
  | Err Illegal => Some (sv, [BadChannelName target], [])
  | Ok name =>
      let conn := actor_conn actor in
      let mine := session_channels conn sv in
      if negb (bool_decide (ChannelOps.chan_key e target ∈ mine)) && (MAX_CHANNELS_PER_SESSION <=? size mine)%nat
      then Some (sv, [TooManyChannels target], [])
      else
        '(r, s, sent) ← join_on_owner e actor name (keys !! i) (sv_owner sv);
        let sv := with_owner s sv in
        Some (match r with Joined j => enter conn (joined_key j) sv | _ => sv end, [JoinAnswer r], sent)
  end.

Definition cmd_join (e : Env) (actor : ChannelActor) (p : list str) (sv : Server) : option (Server * list Reply * list Outgoing) :=
  let targets := default [] (head p) in
  if no_target targets then Some (sv, [NeedMoreParameters], [])
  else if str_eqb targets (bs "0") then
    let names := elements (session_channels (actor_conn actor) sv) in
    if is_empty names then Some (sv, [], []) else cmd_part e actor [Str.join "," names] sv
  else
    let keys := match p !! 1%nat with Some k => Str.split "," k | None => [] end in
    let '(kept, over) := capped_channel_targets (env_casemap e) targets JOIN_TARGMAX in
    '(sv, replies, sent) ← over_targets (join_one e actor keys) kept sv;
    Some (sv, over_reply over ++ replies, sent).

(** ** KICK and QUIT *)

Definition TARGMAX : nat := 4.

Definition kick_one (e : Env) (actor : ChannelActor) (channel who : str) (reason : option str) (sv : Server)
    : Server * ChannelKickResult * list Outgoing :=
  let '(r, s, sent, victim) := kick_on_owner e actor channel who reason (sv_owner sv) in
  let sv := with_owner s sv in
  (match victim with Some (conn, _) => remove_session_channel conn (ChannelOps.chan_key e channel) sv | None => sv end, r, sent).

(** Who is kicked from where: one channel for every user, or the lists side by
    side. *)
Definition kick_pairs (channels users : list str) : option (list (str * str)) :=
  match channels with
  | [channel] => Some ((fun who => (channel, who)) <$> users)
  | _ => if (length channels =? length users)%nat then Some (zip channels users) else None
  end.

Fixpoint kick_loop (e : Env) (actor : ChannelActor) (reason : option str) (pairs : list (str * str)) (seen : list (str * str))
    (kicked : nat) (sv : Server) : Server * list Reply * list Outgoing :=
  match pairs with
  | [] => (sv, [], [])
  | (channel, who) :: pairs =>
      let pair := (casefold (env_casemap e) channel, casefold (env_casemap e) who) in
      if bool_decide (pair ∈ seen) then kick_loop e actor reason pairs seen kicked sv
      else if (TARGMAX <=? kicked)%nat then (sv, [NotKicked who], [])
      else
        let '(sv, r, o1) := kick_one e actor channel who reason sv in
        let '(sv, rs, o2) := kick_loop e actor reason pairs (pair :: seen) (S kicked) sv in
        (sv, KickAnswer r :: rs, o1 ++ o2)
  end.

Definition cmd_kick (e : Env) (actor : ChannelActor) (p : list str) (sv : Server) : Server * list Reply * list Outgoing :=
  match p with
  | channels_param :: users_param :: rest =>
      let named s := List.filter (fun x => negb (is_empty x)) (Str.split "," s) in
      let channels := named channels_param in
      let users := named users_param in
      if is_empty channels || is_empty users then (sv, [NeedMoreParameters], [])
      else
        match kick_pairs channels users with
        | Some pairs => kick_loop e actor (head rest) pairs [] 0 sv
        | None => (sv, [ListsMismatch], [])
        end
  | _ => (sv, [NeedMoreParameters], [])
  end.

(** What a registered session's departure does to its channels. *)
Definition quit (conn : Z) (sv : Server) : Server :=
  let s := quit_channel_member (elements (session_channels conn sv)) conn (sv_owner sv) in
  MkServer (on_memberships_of (release conn) s) (delete conn (sv_sessions sv)).

(** ** Events *)

(** A command is dispatched for a session there is. *)
Definition has_session (conn : Z) (sv : Server) : bool := bool_decide (is_Some (sv_sessions sv !! conn)).

Inductive ServerOp : Type :=
| SOpen (conn : Z)
| SJoin (e : Env) (actor : ChannelActor) (p : list str)
| SPart (e : Env) (actor : ChannelActor) (p : list str)
| SKick (e : Env) (actor : ChannelActor) (p : list str)
| SQuit (conn : Z)
| SOwner (o : OwnerOp)
| SHistory (key : str) (entry : HistoryRow) (whole : bool) (bounds : HotHistoryBounds).

Definition server_op (sv : Server) (o : ServerOp) : option Server :=
  match o with
  | SOpen conn => Some (MkServer (sv_owner sv) (<[conn := session_channels conn sv]> (sv_sessions sv)))
  | SJoin e actor p =>
      if has_session (actor_conn actor) sv then '(sv, _, _) ← cmd_join e actor p sv; Some sv else Some sv
  | SPart e actor p =>
      if has_session (actor_conn actor) sv then '(sv, _, _) ← cmd_part e actor p sv; Some sv else Some sv
  | SKick e actor p => Some (if has_session (actor_conn actor) sv then fst (fst (cmd_kick e actor p sv)) else sv)
  | SQuit conn => Some (quit conn sv)
  | SOwner o => s ← owner_step pick (sv_owner sv) o; Some (with_owner s sv)
  | SHistory key entry whole bounds =>
      st ← push_history entry_size key entry whole bounds (os_state (sv_owner sv));
      Some (with_owner (set_state (fun _ => st) (sv_owner sv)) sv)
  end.

(** One event and the publication that ends it; [None] is a panic. *)
Definition server_event (sv : Server) (o : ServerOp) : option Server :=
  sv ← server_op sv o;
  st ← publish_changed_channels (os_state (sv_owner sv));
  Some (with_owner (set_state (fun _ => st) (sv_owner sv)) sv).

Fixpoint server_run (sv : Server) (ops : list ServerOp) : option Server :=
  match ops with [] => Some sv | o :: ops => sv ← server_event sv o; server_run sv ops end.

Definition Server_new : Server := MkServer (OwnerState_new (MkMemberships ∅ ∅)) ∅.

(** ** What the commands do to the shard, as publication sees it *)

(** Keys of channels: they start with a number sign, hold no comma and are
    folded under the server's casemapping. *)
Definition mine (key : str) : Prop := starts_with "#" key = true /\ (","%byte ∉ key) /\ casefold m key = key.

Lemma mine_channel key : mine key -> starts_with "#" key = true.
Proof. by intros (? & _). Qed.

(** Operations on owned channels and history, and nothing else. *)
Definition channel_op (o : EventOp (Caps := Caps)) : Prop :=
  match o with
  | EMutate key _ | EEntry key _ _ | ERemoveChannel key => mine key
  | EPushHistory _ _ _ bounds => bounds_ok bounds
  | _ => False
  end.

(** [s'] is [s] after such operations. *)
Definition runs (s s' : OwnerState) : Prop :=
  exists ops, event_steps entry_size (os_state s) ops = Some (os_state s') /\ Forall channel_op ops.

Lemma event_steps_app st ops ops' :
  event_steps (Caps := Caps) entry_size st (ops ++ ops') = (st ← event_steps entry_size st ops; event_steps entry_size st ops').
Proof.
  revert st. induction ops as [|o ops IH]; intros st; [done|]. cbn. destruct (event_step entry_size st o) as [st'|]; [apply IH|done].
Qed.

Lemma runs_trans s1 s2 s3 : runs s1 s2 -> runs s2 s3 -> runs s1 s3.
Proof.
  intros (o1 & E1 & H1) (o2 & E2 & H2). exists (o1 ++ o2). split; [by rewrite event_steps_app, E1|by apply Forall_app].
Qed.

Lemma runs_same s s' : os_state s' = os_state s -> runs s s'.
Proof. intros E. exists []. by rewrite E. Qed.

Lemma runs_one o s s' : channel_op o -> event_step entry_size (os_state s) o = Some (os_state s') -> runs s s'.
Proof. intros Ho E. exists [o]. cbn [event_steps]. rewrite E. split; [done|]. by constructor. Qed.

Lemma runs_mutate key f s : mine key -> runs s (set_channels (dir_get_mut key f) s).
Proof. intros Hk. by apply (runs_one (EMutate key f)). Qed.

Lemma runs_entry key made f s : mine key -> runs s (set_channels (dir_entry key made f) s).
Proof. intros Hk. by apply (runs_one (EEntry key made f)). Qed.

Lemma runs_remove key s : mine key -> runs s (set_state (remove_channel key) s).
Proof. intros Hk. by apply (runs_one (ERemoveChannel key)). Qed.

Lemma runs_pending s s' : runs s s' -> pending entry_size mine (os_state s) -> pending entry_size mine (os_state s').
Proof.
  intros (ops & E & Hops) Hp. destruct (event_steps_pending entry_size mine mine_channel ops (os_state s)) as (st & E' & Hst); [|done|congruence].
  eapply Forall_impl; [exact Hops|]. intros []; cbn; done.
Qed.

Lemma runs_index s s' : runs s s' -> memberships (os_state s') = memberships (os_state s).
Proof.
  intros (ops & E & Hops). revert E. generalize (os_state s) as st. induction Hops as [|o ops Ho _ IH]; intros st; cbn [event_steps].
  { by intros [= ->]. }
  destruct (event_step entry_size st o) as [st'|] eqn:Es; [|done]. cbn [mbind option_bind]. intros E%IH. rewrite E.
  destruct o; cbn in Ho, Es; try done; simplify_eq; try done. unfold push_history in Es.
  destruct (hot_push _ _ _ _ _ _) as [[evicted h]|]; [|done]. by injection Es as <-.
Qed.

Lemma runs_drop key s : mine key -> runs s (drop_if_empty key s).
Proof. intros Hk. unfold drop_if_empty. repeat case_match; [by apply runs_same|by apply runs_remove|by apply runs_same]. Qed.

Lemma runs_leave key conn s : mine key -> runs s (drop_if_empty key (remove_from key conn s)).
Proof. intros Hk. eapply runs_trans; [by apply runs_mutate|by apply runs_drop]. Qed.

Lemma runs_enforce e key s s' line : mine key -> enforce_mlock_on e key s = Some (s', line) -> runs s s'.
Proof.
  intros Hk. unfold enforce_mlock_on. destruct (get_mlock _ _) as [lock|]; [|intros [= <- <-]; by apply runs_same].
  destruct (os_channels s !! key) as [ch|]; [|intros [= <- <-]; by apply runs_same].
  destruct (enforce_mlock _ _) as [[[modes spec]|]|]; cbn [mbind option_bind]; [| |done]; intros [= <- <-]; [by apply runs_mutate|by apply runs_same].
Qed.

Lemma runs_join e actor name join_key s r s' sent :
  mine (ChannelOps.chan_key e name) -> join_on_owner e actor name join_key s = Some (r, s', sent) -> runs s s'.
Proof.
  intros Hk. unfold join_on_owner. set (key := ChannelOps.chan_key e name) in *.
  assert (H1 : runs s (set_channels (dir_entry key (fresh_channel e key name s) id) s)) by by apply runs_entry.
  destruct (is_member _ _); [by intros [= <- <- <-]|]. destruct (join_access _ _ _ _) as [[isf o] v].
  assert (H2 := runs_trans _ _ _ H1 (runs_mutate key id _ Hk)). destruct (admission _ _ _ _); [by intros [= <- <- <-]|].
  match goal with |- context [set_channels (dir_get_mut key ?f) (touch key ?x)] =>
    assert (H3 := runs_trans _ _ _ H2 (runs_mutate key f (touch key x) Hk)) end.
  destruct (negb (bool_decide _)); [|intros [= <- <- <-]; exact H3].
  destruct (enforce_mlock_on _ _ _) as [[s3 line]|] eqn:El; [|done]. cbn [mbind option_bind]. intros [= <- <- <-].
  eapply runs_trans; [exact H3|by eapply runs_enforce].
Qed.

(** ** Who is where *)

Definition in_channel (conn : Z) (key : str) (s : OwnerState) : Prop :=
  exists ch, os_channels s !! key = Some ch /\ is_member conn ch = true.

(** The same people in the same channels. *)
Definition same_members (s s' : OwnerState) : Prop := forall conn key, in_channel conn key s' <-> in_channel conn key s.

Lemma members_same s s' : os_channels s' = os_channels s -> same_members s s'.
Proof. intros E conn key. unfold in_channel. by rewrite E. Qed.

Lemma members_alter s s' key f :
  os_channels s' = alter f key (os_channels s) ->
  (forall ch conn, os_channels s !! key = Some ch -> is_member conn (f ch) = is_member conn ch) -> same_members s s'.
Proof.
  intros E Hf conn k. unfold in_channel. rewrite E. destruct (decide (key = k)) as [<-|Hne]; [|by rewrite lookup_alter_ne].
  rewrite lookup_alter_eq. destruct (os_channels s !! key) as [ch|] eqn:Ec; cbn [fmap option_fmap option_map]; [|split; by intros (? & [=] & _)].
  split; intros (c & [= <-] & Hm); eexists; (split; [done|]); by rewrite Hf in *.
Qed.

Lemma is_member_remove conn c (ch : Channel) :
  is_member c (snd (remove_member conn ch)) = is_member c ch && negb (bool_decide (c = conn)).
Proof.
  unfold is_member, remove_member. cbn. destruct (decide (c = conn)) as [->|Hne].
  - rewrite lookup_delete_eq, (bool_decide_true (conn = conn)), andb_false_r by done. by rewrite bool_decide_false by (by intros []).
  - rewrite lookup_delete_ne, (bool_decide_false (c = conn)) by done. by rewrite andb_true_r.
Qed.

Lemma leave_lookup key conn s k :
  os_channels (drop_if_empty key (remove_from key conn s)) !! k
  = if decide (k = key)
    then match os_channels s !! key with
         | Some ch => let ch := snd (remove_member conn ch) in if has_members ch then Some ch else None
         | None => None
         end
    else os_channels s !! k.
Proof.
  rewrite drop_channels.
  change (os_channels (remove_from key conn s)) with (alter (fun ch => snd (remove_member conn ch)) key (os_channels s)).
  rewrite lookup_alter_eq. destruct (os_channels s !! key) as [ch|] eqn:E; cbn [fmap option_fmap option_map]; cbv beta zeta.
  - destruct (has_members _) eqn:Eh; destruct (decide (k = key)) as [->|Hne].
    + by rewrite lookup_alter_eq, E.
    + by rewrite lookup_alter_ne.
    + by rewrite lookup_delete_eq.
    + by rewrite lookup_delete_ne, lookup_alter_ne.
  - destruct (decide (k = key)) as [->|Hne]; [by rewrite lookup_alter_eq, E|by rewrite lookup_alter_ne].
Qed.

Lemma leave_members key conn s c k :
  in_channel c k (drop_if_empty key (remove_from key conn s)) <-> in_channel c k s /\ ~ (c = conn /\ k = key).
Proof.
  unfold in_channel. rewrite leave_lookup. destruct (decide (k = key)) as [->|Hne]; [|naive_solver].
  destruct (os_channels s !! key) as [ch|]; [|naive_solver]. cbn zeta.
  transitivity (is_member c (snd (remove_member conn ch)) = true).
  - destruct (has_members _) eqn:Eh; [naive_solver|]. split; [by intros (? & [=] & _)|]. intros Hm. exfalso.
    unfold is_member in Hm. apply bool_decide_eq_true in Hm. apply Bool.not_true_iff_false in Eh.
    apply Eh, has_members_iff. by exists c.
  - rewrite is_member_remove, andb_true_iff, negb_true_iff, bool_decide_eq_false. naive_solver.
Qed.

Lemma join_members e actor name join_key s r s' sent :
  join_on_owner e actor name join_key s = Some (r, s', sent) ->
  match r with
  | Joined j => joined_key j = ChannelOps.chan_key e name
      /\ forall c k, in_channel c k s' <-> in_channel c k s \/ (c = actor_conn actor /\ k = ChannelOps.chan_key e name)
  | _ => same_members s s'
  end.
Proof.
  intros E. apply join_cases in E. set (key := ChannelOps.chan_key e name) in *.
  destruct (is_member _ _) eqn:Em; [destruct E as (-> & E & _); by apply members_same|].
  destruct (admission _ _ _ _); [destruct E as (-> & E & _); by apply members_same|].
  destruct E as (j & g & -> & Hj & E & _). split; [done|]. intros c k. unfold in_channel. rewrite E.
  destruct (decide (k = key)) as [->|Hne]; [|rewrite lookup_insert_ne by done; naive_solver].
  rewrite lookup_insert_eq. transitivity (c = actor_conn actor \/ is_member c (join_channel e name s) = true).
  - transitivity (is_Some (<[actor_conn actor := MkMember (join_modes e actor key (join_channel e name s) s) (actor_recipient actor)
      (actor_identity actor) (actor_profile actor)]> (chan_members (join_channel e name s)) !! c)).
    { unfold is_member. split; [intros (? & [= <-] & Hm%bool_decide_eq_true); exact Hm|].
      intros Hm. eexists. split; [done|]. by apply bool_decide_eq_true. }
    unfold is_member. rewrite bool_decide_eq_true. rewrite lookup_insert_is_Some. destruct (decide (c = actor_conn actor)); naive_solver.
  - unfold join_channel. fold key. destruct (os_channels s !! key) as [ch|]; cbn [default from_option id]; [naive_solver|].
    split; [intros [->|Hm]; [by right|by vm_compute in Hm]|]. intros [(? & [=] & _)|[-> _]]. by left.
Qed.

Lemma quit_members keys conn : forall s c k,
  in_channel c k (quit_channel_member keys conn s) <-> in_channel c k s /\ ~ (c = conn /\ k ∈ keys).
Proof.
  induction keys as [|key keys IH]; intros s c k; cbn [quit_channel_member fold_left]; [set_solver|].
  etransitivity; [apply IH|]. clear IH. rewrite elem_of_cons.
  destruct (match os_channels s !! key with Some ch => _ | None => _ end) eqn:Em; [rewrite leave_members; naive_solver|].
  assert (Hs : same_members s (remove_from key conn s)).
  { eapply members_alter; [done|]. intros ch c' E. cbv beta. rewrite is_member_remove. case_bool_decide as Hc; cbn [negb]; [|apply andb_true_r].
    subst. rewrite E in Em. by rewrite Em. }
  rewrite (Hs c k). assert (~ in_channel conn key s); [|naive_solver]. intros (ch & E & Hm). rewrite E in Em. congruence.
Qed.

Lemma runs_quit keys conn : forall s, Forall mine keys -> runs s (quit_channel_member keys conn s).
Proof.
  induction keys as [|key keys IH]; intros s Hk; cbn [quit_channel_member fold_left]; [by apply runs_same|].
  apply Forall_cons in Hk as [Hk Hks]. eapply runs_trans; [|by apply IH].
  destruct (match os_channels s !! key with Some ch => _ | None => _ end); [by apply runs_leave|by apply runs_mutate].
Qed.

(** ** The other commands leave everyone where they are *)

(** The owner's commands that move nobody; the names in a database's answer
    and in a services' lock are channels'. *)
Definition quiet (o : OwnerOp) : Prop :=
  match o with
  | OInvite _ _ _ _ _ _ | OKnock _ _ _ _ | OTopic _ _ _ _ _ | OTopicFailed _ _ _ | OMode _ _ _ _ _ => True
  | OTopicSet e _ r _ => mine (ChannelOps.chan_key e (request_channel r))
  | OUpdate keys _ _ _ => Forall mine keys
  | OLock _ key => mine key
  | ORegistry _ _ _ options => locks_ok options
  | _ => False
  end.

Definition stays (s s' : OwnerState) : Prop := runs s s' /\ same_members s s'.

Lemma stays_refl s s' : os_state s' = os_state s -> stays s s'.
Proof. intros E. split; [by apply runs_same|]. apply members_same. unfold os_channels. by rewrite E. Qed.

Lemma stays_trans s1 s2 s3 : stays s1 s2 -> stays s2 s3 -> stays s1 s3.
Proof. intros [R1 M1] [R2 M2]. split; [by eapply runs_trans|]. intros c k. by rewrite (M2 c k), (M1 c k). Qed.

Lemma stays_mutate key f s :
  mine key -> (forall ch c, os_channels s !! key = Some ch -> is_member c (f ch) = is_member c ch) ->
  stays s (set_channels (dir_get_mut key f) s).
Proof. intros Hk Hf. split; [by apply runs_mutate|]. by eapply members_alter. Qed.

Lemma update_is_member r who profile (ch : Channel) c : is_member c (snd (update_member r who profile ch)) = is_member c ch.
Proof.
  unfold update_member. destruct (chan_members ch !! recipient_conn r) as [mb|] eqn:E; [|done]. destruct (negb _); [done|]. unfold is_member. cbn.
  apply bool_decide_ext. rewrite lookup_insert_is_Some. destruct (decide (c = recipient_conn r)) as [->|]; [|naive_solver].
  rewrite E. naive_solver.
Qed.

Lemma stays_update keys r who profile : forall s, Forall mine keys -> stays s (apply_channel_member_update keys r who profile s).
Proof.
  induction keys as [|key keys IH]; intros s Hk; cbn [apply_channel_member_update fold_left]; [by apply stays_refl|].
  apply Forall_cons in Hk as [Hk Hks]. eapply stays_trans; [|by apply IH]. apply stays_mutate; [done|].
  intros ch c _. apply update_is_member.
Qed.

Lemma mode_is_member cx modes args (ch : Channel) c : is_member c (ms_chan (mode_loop cx modes args ch)) = is_member c ch.
Proof.
  apply (mode_loop_inv cx (fun ch' => is_member c ch' = is_member c ch)); [| | | | |done].
  - intros x s Hs. unfold flag_mode. repeat case_match; done.
  - intros s Hs. unfold key_mode. repeat case_match; done.
  - intros s Hs. unfold limit_mode. repeat case_match; done.
  - intros x l s Hs. unfold mask_mode. repeat case_match; done.
  - intros x s Hs. unfold rank_mode. repeat case_match; try done. cbn [ms_chan change set_args]. rewrite <- Hs. unfold member_mut.
    destruct (chan_members _ !! _) as [mb|] eqn:E; [|done]. unfold is_member. cbn. apply bool_decide_ext.
    rewrite lookup_insert_is_Some. match goal with |- ?a = c \/ _ <-> _ => destruct (decide (a = c)) as [<-|] end; [|naive_solver].
    rewrite E. naive_solver.
Qed.

Lemma stays_mode e online actor target rest s :
  (forall key, is_Some (os_channels s !! key) -> mine key) -> stays s (snd (fst (mode_on_owner e online actor target rest s))).
Proof.
  intros Hm. unfold mode_on_owner. destruct (os_channels s !! _) as [ch|] eqn:Ec; [|by apply stays_refl].
  destruct (channel_mode_by _ _ rest (Some ch)) as [[[ch'|] replies] changes] eqn:E; [|by apply stays_refl]. cbn [fst snd].
  apply stays_mutate; [by apply Hm; rewrite Ec|]. intros c0 c Hc. rewrite Ec in Hc. injection Hc as <-.
  destruct (channel_mode_cases _ _ _ _ _ _ _ E) as [[-> _]|(_ & _ & modes & args & -> & _)]; [done|]. apply mode_is_member.
Qed.

Lemma stays_topic_set e conn r retained s :
  mine (ChannelOps.chan_key e (request_channel r)) -> stays s (snd (fst (channel_topic_set e conn r retained s))).
Proof.
  intros Hk. unfold channel_topic_set. cbn [fst snd]. eapply stays_trans; [|by apply stays_mutate].
  apply stays_refl. transitivity (os_state (clear_pending_topic (ChannelOps.chan_key e (request_channel r)) (request_revision r) s)).
  - by destruct (retained && _).
  - unfold clear_pending_topic. by repeat case_match.
Qed.

Lemma stays_enforce e key s s' line : mine key -> enforce_mlock_on e key s = Some (s', line) -> stays s s'.
Proof.
  intros Hk E. split; [by eapply runs_enforce|]. apply enforce_mlock_on_spec in E as (g & Hg & _). by eapply members_alter.
Qed.

Lemma quiet_stays s o s' :
  (forall key, is_Some (os_channels s !! key) -> mine key) -> quiet o -> owner_step pick s o = Some s' -> stays s s'.
Proof.
  intros Hm Ho E. assert (Hk : forall key ch, os_channels s !! key = Some ch -> mine key) by (intros key ch Ec; apply Hm; by rewrite Ec).
  destruct o; try done; cbn [owner_step quiet] in *.
  - unfold invite_on_owner in E. repeat case_match; simplify_eq; try (by apply stays_refl); (apply stays_mutate; [by eapply Hk|done]).
  - unfold knock_on_owner in E. repeat case_match; simplify_eq; try (by apply stays_refl); (apply stays_mutate; [by eapply Hk|done]).
  - unfold topic_set_on_owner in E. repeat case_match; simplify_eq; try (by apply stays_refl); (apply stays_mutate; [by eapply Hk|done]).
  - pose proof (stays_topic_set e conn r retained s Ho) as Ht. destruct (channel_topic_set _ _ _ _ _) as [[l s1] sent]. by injection E as <-.
  - injection E as <-. apply stays_refl. unfold channel_topic_failed, clear_pending_topic. by repeat case_match.
  - pose proof (stays_mode e online actor target rest s Hm) as Ht. destruct (mode_on_owner _ _ _ _ _ _) as [[l s1] sent]. by injection E as <-.
  - injection E as <-. by apply stays_update.
  - unfold apply_mlock in E. destruct (enforce_mlock_on e key s) as [[s1 line]|] eqn:El; [|done]. injection E as <-. by eapply stays_enforce.
  - injection E as <-. by apply stays_refl.
Qed.

(** ** Names that may be created are channels' *)

Lemma lower_comma b : lower m b = ","%byte -> b = ","%byte.
Proof. destruct m, b; vm_compute; congruence. Qed.

Lemma ChannelName_mine e target name :
  env_casemap e = m -> ChannelName_parse target = Ok name -> name = target /\ mine (ChannelOps.chan_key e name).
Proof.
  intros He. unfold ChannelName_parse. destruct (_ || _) eqn:Eb; [done|]. destruct (negb _) eqn:Es; [done|].
  destruct (length target =? 1)%nat; [done|]. intros [= <-]. split; [done|]. unfold mine, ChannelOps.chan_key. rewrite He.
  split_and!.
  - apply negb_false_iff in Es. destruct target as [|b target]; [done|]. cbn in *. destruct (byte_eqb_spec b "#") as [->|]; [|done]. by destruct m.
  - unfold casefold. intros (b & Hb & Hin)%list_elem_of_fmap. symmetry in Hb. apply lower_comma in Hb as ->.
    apply orb_false_iff in Eb as [_ Ef]. apply ascii_in_chars in Hin; [|done].
    assert (existsb forbidden_in_channel_name (chars target) = true); [|congruence].
    apply existsb_exists. exists [","%byte]. split; [by apply list_elem_of_In|done].
  - apply casefold_idem_lemma.
Qed.

(** ** The server's invariant *)

Record server_ok (sv : Server) : Prop := {
  so_pending : pending entry_size mine (os_state (sv_owner sv));
  so_sessions : forall conn key, in_channel conn key (sv_owner sv) <-> key ∈ session_channels conn sv;
  so_index : forall conn key,
    mm_in conn key (by_conn (memberships (os_state (sv_owner sv)))) <-> in_channel conn key (sv_owner sv);
  so_absent : forall key, ~ mine key -> channels (memberships (os_state (sv_owner sv))) !! key = None;
  so_bound : forall conn, (size (session_channels conn sv) <= MAX_CHANNELS_PER_SESSION)%nat;
  so_locks : locks_ok (os_options (sv_owner sv));
}.

Lemma so_mine sv key : server_ok sv -> is_Some (os_channels (sv_owner sv) !! key) -> mine key.
Proof. intros Hs. exact (pending_own _ _ _ (so_pending _ Hs) key). Qed.

Lemma session_mine sv conn key : server_ok sv -> key ∈ session_channels conn sv -> mine key.
Proof. intros Hs (ch & E & _)%(so_sessions _ Hs). apply (so_mine _ _ Hs). by rewrite E. Qed.

(** The owner's part changed by operations on channels; who moved is said by
    the sessions and the index alike. *)
Lemma server_ok_move sv s f sessions :
  server_ok sv -> runs (sv_owner sv) s -> locks_ok (os_options s) ->
  let sv' := MkServer (on_memberships_of f s) sessions in
  (forall d, channels (f d) = channels d) ->
  (forall conn key, in_channel conn key s <-> key ∈ session_channels conn sv') ->
  (forall conn key, mm_in conn key (by_conn (f (memberships (os_state (sv_owner sv))))) <-> in_channel conn key s) ->
  (forall conn, (size (session_channels conn sv') <= MAX_CHANNELS_PER_SESSION)%nat) -> server_ok sv'.
Proof.
  intros Hs Hr Hl sv' Hf Hin Hix Hb. pose proof (runs_pending _ _ Hr (so_pending _ Hs)) as Hp. pose proof (runs_index _ _ Hr) as Hm.
  split; cbn [sv_owner sv' on_memberships_of set_state os_state os_options on_memberships memberships]; try done.
  - destruct Hp as [H1 H2 H3]. split; [done|done|]. intros key Hk Ht. specialize (H3 key Hk Ht).
    change (memberships _) with (f (memberships (os_state s))). rewrite Hf. exact H3.
  - intros conn key. rewrite Hm. apply Hix.
  - intros key Hk. rewrite Hf, Hm. by apply (so_absent _ Hs).
Qed.

Lemma server_ok_stays sv s : server_ok sv -> stays (sv_owner sv) s -> locks_ok (os_options s) -> server_ok (with_owner s sv).
Proof.
  intros Hs [Hr Hm] Hl.
  assert (with_owner s sv = MkServer (on_memberships_of id s) (sv_sessions sv)) as ->.
  { unfold with_owner, on_memberships_of, set_state. by destruct s as [[] ? ? ? ? ? ?]. }
  apply (server_ok_move sv); try done.
  - intros conn key. rewrite (Hm conn key). apply (so_sessions _ Hs).
  - intros conn key. rewrite (Hm conn key). apply (so_index _ Hs).
  - apply (so_bound _ Hs).
Qed.

(** *** Leaving and entering *)

Lemma session_leave s sv conn key c :
  session_channels c (MkServer s (alter (fun keys => keys ∖ {[key]}) conn (sv_sessions sv)))
  = if decide (c = conn) then session_channels c sv ∖ {[key]} else session_channels c sv.
Proof.
  unfold session_channels. cbn [sv_sessions]. destruct (decide (c = conn)) as [->|Hne]; [|by rewrite lookup_alter_ne].
  rewrite lookup_alter_eq. destruct (sv_sessions sv !! conn); cbn; [done|]. set_solver.
Qed.

Lemma server_ok_leave sv key conn :
  server_ok sv -> mine key ->
  server_ok (remove_session_channel conn key (with_owner (drop_if_empty key (remove_from key conn (sv_owner sv))) sv)).
Proof.
  intros Hs Hk. unfold remove_session_channel. cbn [sv_owner with_owner sv_sessions].
  apply (server_ok_move sv); [done|by apply runs_leave|rewrite drop_options; apply (so_locks _ Hs)|done| | |].
  - intros c k. rewrite session_leave, leave_members, (so_sessions _ Hs). destruct (decide (c = conn)) as [->|]; set_solver.
  - intros c k. cbn [part by_conn]. rewrite mm_in_remove, leave_members, (so_index _ Hs). naive_solver.
  - intros c. rewrite session_leave. etransitivity; [|apply (so_bound _ Hs c)].
    destruct (decide (c = conn)); [|done]. apply subseteq_size. set_solver.
Qed.

Lemma part_one_ok e actor reason sv target :
  server_ok sv -> server_ok (fst (fst (part_one e actor reason sv target))).
Proof.
  intros Hs. unfold part_one, part_on_owner. set (key := ChannelOps.chan_key e target).
  assert (Hsame : server_ok (with_owner (sv_owner sv) sv)) by (by destruct sv).
  destruct (os_channels (sv_owner sv) !! key) as [ch|] eqn:E; [|done].
  destruct (hidden_from _ _); [done|]. destruct (negb _); [done|]. cbn [fst].
  apply server_ok_leave; [done|]. apply (so_mine _ _ Hs). by rewrite E.
Qed.

Lemma kick_one_ok e actor channel who reason sv :
  server_ok sv -> server_ok (fst (fst (kick_one e actor channel who reason sv))).
Proof.
  intros Hs. unfold kick_one, kick_on_owner. set (key := ChannelOps.chan_key e channel).
  assert (Hsame : server_ok (with_owner (sv_owner sv) sv)) by (by destruct sv).
  destruct (os_channels (sv_owner sv) !! key) as [ch|] eqn:E; [|done].
  destruct (hidden_from _ _); [done|]. destruct (negb _); [done|]. destruct (negb _); [done|].
  destruct (member_named _ _ _) as [[[victim r] who_is]|]; [|done]. cbn [fst].
  apply server_ok_leave; [done|]. apply (so_mine _ _ Hs). by rewrite E.
Qed.

Lemma kick_loop_ok e actor reason pairs : forall seen kicked sv,
  server_ok sv -> server_ok (fst (fst (kick_loop e actor reason pairs seen kicked sv))).
Proof.
  induction pairs as [|[channel who] pairs IH]; intros seen kicked sv Hs; cbn [kick_loop]; [done|].
  case_bool_decide; [by apply IH|]. destruct (TARGMAX <=? kicked)%nat; [done|].
  pose proof (kick_one_ok e actor channel who reason sv Hs) as H1. destruct (kick_one _ _ _ _ _ _) as [[sv1 r] o1].
  specialize (IH ((casefold (env_casemap e) channel, casefold (env_casemap e) who) :: seen) (S kicked) sv1 H1).
  destruct (kick_loop _ _ _ _ _ _ _) as [[sv2 rs] o2]. exact IH.
Qed.

Lemma cmd_kick_ok e actor p sv : server_ok sv -> server_ok (fst (fst (cmd_kick e actor p sv))).
Proof.
  intros Hs. unfold cmd_kick. destruct p as [|c [|u rest]]; [done|done|]. destruct (_ || _); [done|].
  destruct (kick_pairs _ _); [|done]. by apply kick_loop_ok.
Qed.

Lemma quit_ok conn sv : server_ok sv -> server_ok (quit conn sv).
Proof.
  intros Hs. unfold quit. set (keys := elements (session_channels conn sv)).
  assert (Hsc : forall c s, session_channels c (MkServer s (delete conn (sv_sessions sv))) = if decide (c = conn) then ∅ else session_channels c sv).
  { intros c s. unfold session_channels. cbn [sv_sessions]. destruct (decide (c = conn)) as [->|Hne]; [by rewrite lookup_delete_eq|by rewrite lookup_delete_ne]. }
  apply (server_ok_move sv); [done| |rewrite quit_options; apply (so_locks _ Hs)|done| | |].
  - apply runs_quit, Forall_forall. intros key Hin%elem_of_elements. by apply (session_mine _ conn _ Hs).
  - intros c k. rewrite Hsc, quit_members; unfold keys; rewrite elem_of_elements, (so_sessions _ Hs). destruct (decide (c = conn)) as [->|]; set_solver.
  - intros c k. cbn [release by_conn]. rewrite quit_members; unfold keys; rewrite elem_of_elements, (so_sessions _ Hs). unfold mm_in.
    destruct (decide (c = conn)) as [->|Hne]; [rewrite lookup_delete_eq; set_solver|].
    rewrite lookup_delete_ne by done. rewrite <- (so_sessions _ Hs), <- (so_index _ Hs). unfold mm_in. naive_solver.
  - intros c. rewrite Hsc. destruct (decide (c = conn)); [rewrite size_empty; apply Nat.le_0_l|apply (so_bound _ Hs)].
Qed.

Lemma session_enter s sv conn key c :
  has_session conn sv = true ->
  session_channels c (MkServer s (alter (fun keys => {[key]} ∪ keys) conn (sv_sessions sv)))
  = if decide (c = conn) then {[key]} ∪ session_channels c sv else session_channels c sv.
Proof.
  unfold has_session. intros [keys E]%bool_decide_eq_true. unfold session_channels. cbn [sv_sessions].
  destruct (decide (c = conn)) as [->|Hne]; [|by rewrite lookup_alter_ne]. by rewrite lookup_alter_eq, E.
Qed.

Lemma join_one_ok e actor keys sv t :
  env_casemap e = m -> server_ok sv -> has_session (actor_conn actor) sv = true ->
  exists sv' replies sent, join_one e actor keys sv t = Some (sv', replies, sent)
    /\ server_ok sv' /\ has_session (actor_conn actor) sv' = true.
Proof.
  intros He Hs Hc. destruct t as [i target]. unfold join_one. destruct (ChannelName_parse target) as [name|[]] eqn:En; [|by eexists _, _, _..].
  apply (ChannelName_mine e) in En as [-> Hk]; [|done]. set (key := ChannelOps.chan_key e target) in *. set (conn := actor_conn actor) in *.
  destruct (negb _ && _) eqn:Efull; [by eexists _, _, _|].
  destruct (join_total e actor target (keys !! i) (sv_owner sv) (so_locks _ Hs)) as [[[r s] sent] Ej]. rewrite Ej. cbn [mbind option_bind].
  pose proof (runs_join _ _ _ _ _ _ _ _ Hk Ej) as Hr. pose proof (join_members _ _ _ _ _ _ _ _ Ej) as Hm.
  assert (Hl : locks_ok (os_options s)) by (rewrite (join_options _ _ _ _ _ _ _ _ Ej); apply (so_locks _ Hs)).
  eexists _, _, _. split; [done|]. destruct r as [j| |]; [|by split; [apply server_ok_stays|]..].
  destruct Hm as [-> Hm]. fold key in Hm |- *. unfold enter. cbn [sv_owner with_owner sv_sessions]. split.
  - apply (server_ok_move sv); try done.
    + intros c k. rewrite session_enter, Hm, (so_sessions _ Hs) by done. destruct (decide (c = conn)) as [->|]; set_solver.
    + intros c k. cbn [Directories.join by_conn]. rewrite mm_in_insert, Hm, (so_index _ Hs). naive_solver.
    + intros c. rewrite session_enter by done. pose proof (so_bound _ Hs c) as Hb. destruct (decide (c = conn)) as [->|]; [|done].
      destruct (decide (key ∈ session_channels conn sv)) as [Hin|Hin].
      * replace ({[key]} ∪ session_channels conn sv) with (session_channels conn sv) by set_solver. done.
      * rewrite bool_decide_false in Efull by done. cbn [negb andb] in Efull. apply Nat.leb_gt in Efull.
        rewrite size_union, size_singleton by set_solver. lia.
  - unfold has_session in *. cbn [sv_sessions]. apply bool_decide_eq_true in Hc as [ks E]. apply bool_decide_eq_true.
    by rewrite lookup_alter_eq, E.
Qed.

(** *** Commands and events *)

Lemma over_targets_ok {A} (I : Server -> Prop) (f : Server -> A -> option (Server * list Reply * list Outgoing)) targets :
  (forall sv t, I sv -> exists sv' r o, f sv t = Some (sv', r, o) /\ I sv') ->
  forall sv, I sv -> exists sv' r o, over_targets f targets sv = Some (sv', r, o) /\ I sv'.
Proof.
  intros Hf. induction targets as [|t targets IH]; intros sv Hi; cbn [over_targets]; [by eexists _, _, _|].
  destruct (Hf sv t Hi) as (sv1 & r1 & o1 & -> & H1). cbn [mbind option_bind].
  destruct (IH sv1 H1) as (sv2 & r2 & o2 & -> & H2). cbn [mbind option_bind]. by eexists _, _, _.
Qed.

Lemma cmd_part_ok e actor p sv :
  server_ok sv -> exists sv' r o, cmd_part e actor p sv = Some (sv', r, o) /\ server_ok sv'.
Proof.
  intros Hs. unfold cmd_part. destruct (no_target _); [by eexists _, _, _|]. destruct (capped_channel_targets _ _ _) as [kept over].
  destruct (over_targets_ok server_ok (fun sv t => Some (part_one e actor (p !! 1%nat) sv (snd t))) kept) with sv as (sv' & r & o & -> & H'); [|done|].
  - intros sv0 t H0. pose proof (part_one_ok e actor (p !! 1%nat) sv0 (snd t) H0) as Hp.
    destruct (part_one _ _ _ _ _) as [[sv1 r1] o1]. by eexists _, _, _.
  - by eexists _, _, _.
Qed.

Lemma cmd_join_ok e actor p sv :
  env_casemap e = m -> server_ok sv -> has_session (actor_conn actor) sv = true ->
  exists sv' r o, cmd_join e actor p sv = Some (sv', r, o) /\ server_ok sv'.
Proof.
  intros He Hs Hc. unfold cmd_join. destruct (no_target _); [by eexists _, _, _|].
  destruct (str_eqb _ _). { destruct (is_empty _); [by eexists _, _, _|by apply cmd_part_ok]. }
  destruct (capped_channel_targets _ _ _) as [kept over].
  match goal with |- context [over_targets ?f kept sv] =>
    destruct (over_targets_ok (fun sv => server_ok sv /\ has_session (actor_conn actor) sv = true) f kept) with sv
      as (sv' & r & o & -> & H' & _); [|done|] end.
  - intros sv0 t [H0 Hc0]. by apply join_one_ok.
  - by eexists _, _, _.
Qed.

(** What an operation must be: of the server's casemapping, and quiet where it
    is the owner's alone. *)
Definition server_op_ok (o : ServerOp) : Prop :=
  match o with
  | SJoin e _ _ => env_casemap e = m
  | SOwner o => quiet o
  | SHistory _ _ _ bounds => bounds_ok bounds
  | _ => True
  end.

Lemma server_op_inv sv o : server_ok sv -> server_op_ok o -> exists sv', server_op sv o = Some sv' /\ server_ok sv'.
Proof.
  intros Hs Ho. destruct o as [conn|e actor p|e actor p|e actor p|conn|o|key entry whole bounds]; cbn [server_op server_op_ok] in *.
  - eexists. split; [done|]. assert (Hsc : forall c, session_channels c (MkServer (sv_owner sv) (<[conn:=session_channels conn sv]> (sv_sessions sv))) = session_channels c sv).
    { intros c. unfold session_channels. cbn [sv_sessions]. destruct (decide (c = conn)) as [->|]; [by rewrite lookup_insert_eq|by rewrite lookup_insert_ne]. }
    destruct Hs. split; try done; intros *; by rewrite Hsc.
  - destruct (has_session _ _) eqn:Hc; [|by eexists]. destruct (cmd_join_ok e actor p sv Ho Hs Hc) as (sv' & r & o & -> & H'). by eexists.
  - destruct (has_session _ _) eqn:Hc; [|by eexists]. destruct (cmd_part_ok e actor p sv Hs) as (sv' & r & o & -> & H'). by eexists.
  - eexists. split; [done|]. destruct (has_session _ _); [by apply cmd_kick_ok|done].
  - eexists. split; [done|]. by apply quit_ok.
  - destruct (owner_step_total pick (sv_owner sv) o (so_locks _ Hs)) as (s & E & Hl); [by destruct o|]. rewrite E. cbn [mbind option_bind].
    eexists. split; [done|]. apply server_ok_stays; [done| |done]. eapply quiet_stays; [|done|done]. intros key. by apply so_mine.
  - destruct (push_history_pending entry_size mine mine_channel key entry whole bounds (os_state (sv_owner sv)) Ho (so_pending _ Hs)) as (st & E & _).
    rewrite E. cbn [mbind option_bind]. eexists. split; [done|]. apply server_ok_stays; [done| |apply (so_locks _ Hs)]. split.
    + by apply (runs_one (EPushHistory key entry whole bounds)).
    + apply members_same. unfold push_history in E. destruct (hot_push _ _ _ _ _ _) as [[evicted h]|]; [|done]. injection E as <-.
      unfold os_channels. cbn [set_state os_state shard_channels].
      destruct (rings_changed evicted (channel_ring_changed key (shard_channels (os_state (sv_owner sv))))) as (-> & _ & _).
      by destruct (ring_changed_own key (shard_channels (os_state (sv_owner sv)))) as [-> _].
Qed.

Lemma server_event_inv sv o :
  server_ok sv -> server_op_ok o ->
  exists sv', server_event sv o = Some sv' /\ server_ok sv' /\ published_as_is mine (os_state (sv_owner sv')).
Proof.
  intros Hs Ho. destruct (server_op_inv sv o Hs Ho) as (sv1 & E & H1). unfold server_event. rewrite E. cbn [mbind option_bind].
  destruct (publish_spec entry_size mine (os_state (sv_owner sv1)) (so_pending _ H1)) as (st & Ep & Hpub & Hpend & Hown & Hh).
  rewrite Ep. cbn [mbind option_bind]. eexists. split; [done|]. split; [|done].
  assert (Hin : forall conn key, in_channel conn key (set_state (fun _ => st) (sv_owner sv1)) <-> in_channel conn key (sv_owner sv1)).
  { apply members_same. exact Hown. }
  destruct H1 as [H1 H2 H3 H4 H5 H6]. split; [done| | | |done|done].
  - intros conn key. rewrite Hin. apply H2.
  - intros conn key. rewrite Hin. cbn [with_owner sv_owner set_state os_state]. rewrite (publish_index _ _ Ep). apply H3.
  - intros key Hk. eapply publish_absent; [exact Ep| |by apply H4].
    destruct (own_channels _ !! key) eqn:Eo; [|done]. exfalso. apply Hk, (pending_own _ _ _ H1). by rewrite Eo.
Qed.

Definition settled (sv : Server) : Prop := server_ok sv /\ published_as_is mine (os_state (sv_owner sv)).

Lemma server_run_inv ops : forall sv, Forall server_op_ok ops -> settled sv ->
  exists sv', server_run sv ops = Some sv' /\ settled sv'.
Proof.
  induction ops as [|o ops IH]; intros sv Hops Hs; cbn [server_run]; [by exists sv|]. apply Forall_cons in Hops as [Ho Hops].
  destruct (server_event_inv sv o (proj1 Hs) Ho) as (sv1 & -> & H1 & P1). by apply IH.
Qed.

Lemma Server_new_settled : settled Server_new.
Proof.
  assert (Hsc : forall conn, session_channels conn Server_new = ∅) by (intros conn; unfold session_channels; cbn; by rewrite lookup_empty).
  assert (Hn : forall conn key, ~ in_channel conn key (sv_owner Server_new)).
  { intros conn key (ch & E & _). change ((∅ : gmap str Channel) !! key = Some ch) in E. by rewrite lookup_empty in E. }
  split; [split|].
  - split.
    + apply hot_default_ok.
    + intros key [ch E]. change ((∅ : gmap str Channel) !! key = Some ch) in E. by rewrite lookup_empty in E.
    + intros key _ _. exists (MkLatest None None). cbn. by rewrite !lookup_empty.
  - intros conn key. rewrite Hsc. split; [by intros ?%Hn|set_solver].
  - intros conn key. unfold mm_in. cbn. rewrite lookup_empty. cbn. split; [set_solver|by intros ?%Hn].
  - intros key _. cbn. apply lookup_empty.
  - intros conn. rewrite Hsc, size_empty. apply Nat.le_0_l.
  - apply OwnerState_new_locks.
  - intros key _. cbn. by rewrite !lookup_empty.
Qed.

Lemma settled_agrees sv :
  settled sv ->
  agrees (os_channels (sv_owner sv)) (fun key => latest_channel_message key (os_state (sv_owner sv))) (memberships (os_state (sv_owner sv))).
Proof.
  intros [Hs Hp]. split.
  - intros key. destruct (os_channels (sv_owner sv) !! key) as [ch|] eqn:E.
    + rewrite (Hp key); [unfold record_of; unfold os_channels in E; by rewrite E|]. apply (so_mine _ _ Hs). by rewrite E.
    + destruct (channels _ !! key) as [pc|] eqn:Ec; [|done]. exfalso. assert (~ mine key) as Hk.
      { intros Hk. rewrite (Hp key Hk) in Ec. unfold record_of, os_channels in *. by rewrite E in Ec. }
      rewrite (so_absent _ Hs key Hk) in Ec. done.
  - intros conn key. rewrite <- membership_keys. unfold keys_of. rewrite elem_of_elements. exact (so_index _ Hs conn key).
Qed.

(** *** JOIN 0 *)

Lemma unique_from_mine keys : forall i seen,
  Forall mine keys -> NoDup keys -> (forall k, k ∈ keys -> k ∉ seen) -> snd <$> unique_from m i keys seen = keys.
Proof.
  induction keys as [|k keys IH]; intros i seen Hk Hn Hd; [done|]. apply Forall_cons in Hk as [(Hs & _ & Hf) Hk]. apply NoDup_cons in Hn as [Hin Hn].
  cbn [unique_from]. rewrite Hf. assert (is_empty k = false) as -> by (by destruct k). rewrite bool_decide_false by (apply Hd; set_solver).
  cbn [negb andb]. rewrite fmap_cons. cbn [snd]. f_equal. apply IH; [done|done|]. intros k' Hk'. set_solver.
Qed.

(** Parting a channel the session is in. *)
Lemma part_one_leaves e actor reason sv key :
  env_casemap e = m -> server_ok sv -> key ∈ session_channels (actor_conn actor) sv ->
  forall c, session_channels c (fst (fst (part_one e actor reason sv key)))
    = if decide (c = actor_conn actor) then session_channels c sv ∖ {[key]} else session_channels c sv.
Proof.
  intros He Hs Hin c. pose proof (session_mine _ _ _ Hs Hin) as (_ & _ & Hf). apply (so_sessions _ Hs) in Hin as (ch & E & Hm).
  unfold part_one, part_on_owner, ChannelOps.chan_key. rewrite He, Hf, E.
  assert (hidden_from (actor_conn actor) ch = false) as -> by (unfold hidden_from; rewrite Hm; apply andb_false_r).
  rewrite Hm. cbn [negb fst]. unfold remove_session_channel. exact (session_leave _ sv _ _ c).
Qed.

Lemma part_all_leaves e actor reason keys : env_casemap e = m ->
  forall sv, server_ok sv -> NoDup (snd <$> keys) -> (forall k, k ∈ snd <$> keys -> k ∈ session_channels (actor_conn actor) sv) ->
  exists sv' r o, over_targets (A := nat * str) (fun sv t => Some (part_one e actor reason sv (snd t))) keys sv = Some (sv', r, o)
    /\ server_ok sv' /\ forall c, session_channels c sv'
      = if decide (c = actor_conn actor) then session_channels c sv ∖ list_to_set (snd <$> keys) else session_channels c sv.
Proof.
  intros He. induction keys as [|[i k] keys IH]; intros sv Hs Hn Hin; cbn [over_targets].
  { eexists _, _, _. split; [done|]. split; [done|]. intros c. destruct (decide _); [|done]. set_solver. }
  rewrite fmap_cons in *. cbn [snd] in *. apply NoDup_cons in Hn as [Hk Hn].
  pose proof (part_one_leaves e actor reason sv k He Hs (Hin k ltac:(set_solver))) as Hl.
  pose proof (part_one_ok e actor reason sv k Hs) as Hok. destruct (part_one e actor reason sv k) as [[sv1 r1] o1]. cbn [fst mbind option_bind] in *.
  destruct (IH sv1 Hok Hn) as (sv2 & r2 & o2 & -> & H2 & Hl2).
  { intros k' Hk'. rewrite Hl. rewrite decide_True by done. set_solver. }
  cbn [mbind option_bind]. eexists _, _, _. split; [done|]. split; [done|]. intros c. rewrite Hl2, Hl.
  destruct (decide _); [|done]. cbn [list_to_set]. set_solver.
Qed.

(** C2. On a server of one shard, whatever JOINs, PARTs, KICKs, QUITs, other
    commands, database answers and messages arrive, in whatever order, no event
    panics; and after each, the channels published and the membership index
    are the channels as they are, every session's own index holds exactly the
    channels it is a member of, and no session is in more channels than the
    limit. *)
Theorem one_shard_consistent (ops : list ServerOp) (Hops : Forall server_op_ok ops) :
  exists sv, server_run Server_new ops = Some sv
    /\ agrees (os_channels (sv_owner sv)) (fun key => latest_channel_message key (os_state (sv_owner sv)))
         (memberships (os_state (sv_owner sv)))
    /\ (forall conn key, key ∈ session_channels conn sv <-> in_channel conn key (sv_owner sv))
    /\ forall conn, (size (session_channels conn sv) <= MAX_CHANNELS_PER_SESSION)%nat.
Proof.
  destruct (server_run_inv ops _ Hops Server_new_settled) as (sv & E & Hs). exists sv. split; [done|].
  split; [by apply settled_agrees|]. destruct Hs as [Hs _]. split; [|apply (so_bound _ Hs)].
  intros conn key. symmetry. apply (so_sessions _ Hs).
Qed.

(** [JOIN 0] in any state the server reaches leaves the session in no
    channel at all, and no other session's channels change: the list of names
    it parts is read back whole, none is taken for a repetition, none is past
    the limit on targets, and no channel refuses. *)
Theorem join_zero_parts_all (ops : list ServerOp) (sv : Server) (e : Env) (actor : ChannelActor)
    (Hops : Forall server_op_ok ops) (Hrun : server_run Server_new ops = Some sv) (He : env_casemap e = m) :
  exists sv' replies sent, cmd_join e actor [bs "0"] sv = Some (sv', replies, sent)
    /\ session_channels (actor_conn actor) sv' = ∅
    /\ (forall key, ~ in_channel (actor_conn actor) key (sv_owner sv'))
    /\ forall conn, conn <> actor_conn actor -> session_channels conn sv' = session_channels conn sv.
Proof.
  destruct (server_run_inv ops _ Hops Server_new_settled) as (sv0 & E & Hs & _). rewrite Hrun in E. injection E as <-.
  unfold cmd_join. cbn [head default from_option]. change (no_target (id (bs "0"))) with false. change (str_eqb (id (bs "0")) (bs "0")) with true.
  cbn iota. set (names := elements (session_channels (actor_conn actor) sv)).
  assert (Hnames : Forall mine names) by (apply Forall_forall; intros k Hk%elem_of_elements; by apply (session_mine _ _ _ Hs Hk)).
  assert (Hnone : forall sv', server_ok sv' -> session_channels (actor_conn actor) sv' = ∅ -> forall key, ~ in_channel (actor_conn actor) key (sv_owner sv')).
  { intros sv' Hs' E key. rewrite (so_sessions _ Hs'), E. set_solver. }
  destruct (is_empty names) eqn:En.
  { apply is_empty_true, elements_empty_inv, leibniz_equiv in En. eexists _, _, _. split; [done|]. split; [done|]. split; [by apply Hnone|done]. }
  apply is_empty_false in En. unfold cmd_part, no_target, capped_channel_targets, unique_targets_indexed. cbn [head default from_option id].
  rewrite split_join by first [done|eapply Forall_impl; [exact Hnames|]; intros k (_ & Hc & _); exact Hc].
  assert (forallb is_empty names = false) as ->.
  { destruct names as [|k names]; [done|]. apply Forall_cons in Hnames as [(Hk & _) _]. by destruct k. }
  assert (Hu : snd <$> unique_from (env_casemap e) 0 names [] = names).
  { rewrite He. apply unique_from_mine; [done|apply NoDup_elements|set_solver]. }
  assert (Hlen : (length (unique_from (env_casemap e) 0 names []) <= PART_TARGMAX)%nat).
  { rewrite <- (length_fmap snd), Hu. apply (so_bound _ Hs). }
  rewrite (take_ge _ _ Hlen).
  destruct (part_all_leaves e actor ([Str.join "," names] !! 1%nat) (unique_from (env_casemap e) 0 names []) He sv Hs) as (sv' & r & o & -> & Hs' & Hl).
  { rewrite Hu. apply NoDup_elements. }
  { rewrite Hu. intros k Hk. by apply elem_of_elements in Hk. }
  cbn [mbind option_bind]. eexists _, _, _. split; [done|]. rewrite Hu in Hl.
  assert (Hz : session_channels (actor_conn actor) sv' = ∅).
  { rewrite Hl, decide_True by done. unfold names. apply leibniz_equiv. rewrite list_to_set_elements. set_solver. }
  split; [done|]. split; [by apply Hnone|]. intros conn Hne. by rewrite Hl, decide_False.
Qed.
End OneShard.

(** ** A concrete server *)

#[local] Existing Instance PlainIpNet.

Definition sample_ops_server : list ServerOp :=
  let ann := sample_actor 1 (bs "ann") in
  [SOpen 1; SJoin sample_env ann [bs "#Rust,,#rust,#c"]; SKick sample_env ann [bs "#c"; bs "ann"]].

Lemma sample_ops_server_ok : Forall (server_op_ok Rfc1459) sample_ops_server.
Proof. repeat constructor. Qed.

Lemma one_shard_consistent_witness :
  exists sv, server_run 8 pick_first Server_new sample_ops_server = Some sv
    /\ (size (session_channels 1 sv) <= MAX_CHANNELS_PER_SESSION)%nat.
Proof.
  destruct (one_shard_consistent Rfc1459 8 pick_first sample_ops_server sample_ops_server_ok) as (sv & E & _ & _ & Hb).
  exists sv. split; [exact E|apply Hb].
Defined.

Lemma sample_server_runs : is_Some (server_run 8 pick_first Server_new sample_ops_server).
Proof.
  assert (match server_run 8 pick_first Server_new sample_ops_server with Some _ => true | None => false end = true) as E
    by (vm_compute; reflexivity).
  destruct (server_run _ _ _ _); [by eexists|done].
Qed.

Lemma join_zero_parts_all_witness :
  exists sv, server_run 8 pick_first Server_new sample_ops_server = Some sv
    /\ match cmd_join sample_env (sample_actor 1 (bs "ann")) [bs "0"] sv with
       | Some (sv', _, _) => session_channels 1 sv' = ∅
       | None => False
       end.
Proof.
  destruct sample_server_runs as [sv E]. exists sv. split; [exact E|].
  destruct (join_zero_parts_all Rfc1459 8 pick_first sample_ops_server sv sample_env (sample_actor 1 (bs "ann")) sample_ops_server_ok E eq_refl)
    as (sv' & replies & sent & Ej & Hz & _).
  rewrite Ej. exact Hz.
Defined.
