(* ===== verification/Identity.v ===== *)
(** * The names, addresses and passwords an account may be given

    Models [e6ircd/src/identity.rs]: [PasswordPolicy::new_password],
    [ReservedAccountNames::claimable] and [ContactEmail::parse]. *)

From S2P Require Import Prelude Str Num Casemap BanMask.

Definition MAX_PASSWORD_LEN : nat := 512.

Inductive PasswordRefusal : Type := TooShort (minimum : nat) | TooLong (minimum : nat).

(** [PasswordRefusal::explanation]. *)
Definition password_explanation (r : PasswordRefusal) : str :=
  let minimum := match r with TooShort minimum | TooLong minimum => minimum end in
  let characters := if (minimum =? 1)%nat then bs "character" else bs "characters" in
  bs "Passwords must be at least " ++ dec (Z.of_nat minimum) ++ bs " " ++ characters ++ bs " and at most "
    ++ dec (Z.of_nat MAX_PASSWORD_LEN) ++ bs " bytes.".

Definition new_password (minimum : nat) (raw : str) : result PasswordRefusal str :=
  if (length (chars raw) <? minimum)%nat then Err (TooShort minimum)
  else if (MAX_PASSWORD_LEN <? length raw)%nat then Err (TooLong minimum)
  else Ok raw.

Definition SERVICE_NICKS : list str := [bs "nickserv"; bs "chanserv"].

Inductive NameClaimRefusal : Type := ServiceNick | ConfiguredAdministrator.

(** [ReservedAccountNames::claimable]; [reserved] holds the names casefolded. *)
Definition claimable (reserved : list str) (name : str) : result NameClaimRefusal unit :=
  let folded := casefold Rfc1459 name in
  if existsb (str_eqb folded) SERVICE_NICKS then Err ServiceNick
  else if existsb (str_eqb folded) reserved then Err ConfiguredAdministrator
  else Ok ().

Definition MAX_CONTACT_EMAIL_LEN : nat := 254.

(** [u8::is_ascii_control] and [u8::is_ascii_whitespace]. *)
Definition is_ascii_control (b : byte) : bool := (bz b <? 32)%Z || (bz b =? 127)%Z.
Definition is_ascii_whitespace (b : byte) : bool :=
  (bz b =? 32)%Z || (bz b =? 9)%Z || (bz b =? 10)%Z || (bz b =? 12)%Z || (bz b =? 13)%Z.

Fixpoint has_dots (s : str) : bool :=
  match s with
  | a :: ((b :: _) as s) => ((a =b? ".") && (b =b? ".")) || has_dots s
  | _ => false
  end.

Definition local_byte (b : byte) : bool := is_ascii_alphanumeric b || contains_byte b (bs ".!#$%&'*+-/=?^_`{|}~").

Definition valid_email_domain (domain : str) : bool :=
  if is_empty domain || (253 <? length domain)%nat || ends_with "." domain || negb (forallb is_ascii domain) then false
  else
    let labels := split "." domain in
    (2 <=? length labels)%nat
    && forallb (fun label => negb (is_empty label) && (length label <=? 63)%nat && negb (starts_with "-" label) && negb (ends_with "-" label)
                             && forallb (fun b => is_ascii_alphanumeric b || (b =b? "-")) label) labels.

(** [ContactEmail::parse]. *)
Definition parse_contact_email (raw : str) : option str :=
  if is_empty raw || (MAX_CONTACT_EMAIL_LEN <? length raw)%nat || negb (forallb is_ascii raw)
     || existsb (fun b => is_ascii_control b || is_ascii_whitespace b) raw then None
  else
    match split_once "@" raw with
    | None => None
    | Some (local, domain) =>
        if is_empty local || (64 <? length local)%nat || starts_with "." local || ends_with "." local || has_dots local
           || existsb (fun b => negb (local_byte b)) local then None
        else
          let domain := to_ascii_lowercase <$> domain in
          if valid_email_domain domain then Some (local ++ bs "@" ++ domain) else None
    end.

Example contact_emails :
  parse_contact_email (bs "Ada.L@Example.ORG") = Some (bs "Ada.L@example.org")
  /\ parse_contact_email (bs "ada..l@example.org") = None /\ parse_contact_email (bs "ada@localhost") = None
  /\ parse_contact_email (bs "ada@@example.org") = None /\ parse_contact_email (bs "ada@-x.org") = None.
Proof. vm_compute. by split_and!. Qed.
