(* ===== verification/Handshake.v ===== *)
(** * Registration and authentication of a shard's connections

    Models [e6ircd/src/core/handler/registration.rs] (NICK, USER, PASS, CAP),
    [handler/sasl.rs] (AUTHENTICATE and the verdicts of credential checks),
    [handler/services.rs] (IDENTIFY, LOGOUT, nick protection and the end of
    registration), [handler/admin.rs] (ended credentials and suspensions) and
    what of [core/state.rs] they change.

    A handler is a computation on the shard's state that also collects what it
    sends and tells other components, in order ([Effect]); it fails where the
    source panics ([expect], indexing by a connection that is gone,
    [unreachable!], a debug assertion). *)

From stdpp Require Import gmap.
From S2P Require Import Prelude Str Num Casemap Mask Wire Keys Ip Address BanMask Message Sanitize Proxy Sasl HistoryRequest Middle Session Nicks Channel ChannelState Directories Multimap Users Events Multiline ModeChange ChannelOps Cap Identity.

Local Open Scope Z_scope.

(** ** Data *)

Inductive SaslState : Type := Idle | PlainPending | BearerPending | Verifying.
#[global] Instance SaslState_eq_dec : EqDecision SaslState.
Proof. solve_decision. Defined.

Inductive CredentialOrigin : Type := OriginSasl | NickServIdentify.
#[global] Instance CredentialOrigin_eq_dec : EqDecision CredentialOrigin.
Proof. solve_decision. Defined.

Inductive ConnectionTransport : Type := Tcp | Tls | WebSocket | SecureWebSocket | LocalTransport.

Record Login : Type := MkLogin {
  login_account : str;
  login_credential : CredentialId;
  login_expires_at : option Z;
}.

Inductive EndedSignIns : Type :=
| EndedAccount (key : str)
| EndedCredential (credential : IssuedCredential)
| EndedEvery.
#[global] Instance EndedSignIns_eq_dec : EqDecision EndedSignIns.
Proof. solve_decision. Defined.
#[global] Program Instance EndedSignIns_countable : Countable EndedSignIns :=
  inj_countable'
    (fun e => match e with EndedAccount k => inl k | EndedCredential c => inr (Some c) | EndedEvery => inr None end)
    (fun s => match s with inl k => EndedAccount k | inr (Some c) => EndedCredential c | inr None => EndedEvery end) _.
Next Obligation. by intros []. Qed.

Inductive StaleVerdict : Type := CredentialEnded | StaleRechecked.

(** The fields of a session that registration and authentication read or
    write; a [PendingServiceReply] is the label its answer carries. *)
Record Handshake : Type := MkHandshake {
  transport : ConnectionTransport;
  real_ip : option IpAddr;
  cap_negotiating : bool;
  cap_302 : bool;
  caps : Caps;
  login : option Login;
  sasl : SaslState;
  sasl_verify : option (option str);
  sasl_buf : str;
  credential_attempts : Z;
  pending_identify : option (option str);
  verify_epoch : Z;
  nick_enforcement : NickEnforcement;
  nick_changes : NickChangeThrottle;
  oper : option str;
  pending_register : option (option str);
}.

Abbreviation Session := (@Session.Session Handshake).

Definition set_cap_negotiating (v : bool) (h : Handshake) : Handshake :=
  MkHandshake (transport h) (real_ip h) v (cap_302 h) (caps h) (login h) (sasl h) (sasl_verify h) (sasl_buf h)
    (credential_attempts h) (pending_identify h) (verify_epoch h) (nick_enforcement h) (nick_changes h) (oper h) (pending_register h).
Definition set_caps (v302 : bool) (v : Caps) (h : Handshake) : Handshake :=
  MkHandshake (transport h) (real_ip h) (cap_negotiating h) v302 v (login h) (sasl h) (sasl_verify h) (sasl_buf h)
    (credential_attempts h) (pending_identify h) (verify_epoch h) (nick_enforcement h) (nick_changes h) (oper h) (pending_register h).
Definition set_login (v : option Login) (h : Handshake) : Handshake :=
  MkHandshake (transport h) (real_ip h) (cap_negotiating h) (cap_302 h) (caps h) v (sasl h) (sasl_verify h) (sasl_buf h)
    (credential_attempts h) (pending_identify h) (verify_epoch h) (nick_enforcement h) (nick_changes h) (oper h) (pending_register h).
Definition set_sasl (v : SaslState) (h : Handshake) : Handshake :=
  MkHandshake (transport h) (real_ip h) (cap_negotiating h) (cap_302 h) (caps h) (login h) v (sasl_verify h) (sasl_buf h)
    (credential_attempts h) (pending_identify h) (verify_epoch h) (nick_enforcement h) (nick_changes h) (oper h) (pending_register h).
Definition set_sasl_verify (v : option (option str)) (h : Handshake) : Handshake :=
  MkHandshake (transport h) (real_ip h) (cap_negotiating h) (cap_302 h) (caps h) (login h) (sasl h) v (sasl_buf h)
    (credential_attempts h) (pending_identify h) (verify_epoch h) (nick_enforcement h) (nick_changes h) (oper h) (pending_register h).
Definition set_sasl_buf (v : str) (h : Handshake) : Handshake :=
  MkHandshake (transport h) (real_ip h) (cap_negotiating h) (cap_302 h) (caps h) (login h) (sasl h) (sasl_verify h) v
    (credential_attempts h) (pending_identify h) (verify_epoch h) (nick_enforcement h) (nick_changes h) (oper h) (pending_register h).
Definition set_credential_attempts (v : Z) (h : Handshake) : Handshake :=
  MkHandshake (transport h) (real_ip h) (cap_negotiating h) (cap_302 h) (caps h) (login h) (sasl h) (sasl_verify h) (sasl_buf h)
    v (pending_identify h) (verify_epoch h) (nick_enforcement h) (nick_changes h) (oper h) (pending_register h).
Definition set_pending_identify (v : option (option str)) (h : Handshake) : Handshake :=
  MkHandshake (transport h) (real_ip h) (cap_negotiating h) (cap_302 h) (caps h) (login h) (sasl h) (sasl_verify h) (sasl_buf h)
    (credential_attempts h) v (verify_epoch h) (nick_enforcement h) (nick_changes h) (oper h) (pending_register h).
Definition set_verify_epoch (v : Z) (h : Handshake) : Handshake :=
  MkHandshake (transport h) (real_ip h) (cap_negotiating h) (cap_302 h) (caps h) (login h) (sasl h) (sasl_verify h) (sasl_buf h)
    (credential_attempts h) (pending_identify h) v (nick_enforcement h) (nick_changes h) (oper h) (pending_register h).
Definition set_nick_enforcement (v : NickEnforcement) (h : Handshake) : Handshake :=
  MkHandshake (transport h) (real_ip h) (cap_negotiating h) (cap_302 h) (caps h) (login h) (sasl h) (sasl_verify h) (sasl_buf h)
    (credential_attempts h) (pending_identify h) (verify_epoch h) v (nick_changes h) (oper h) (pending_register h).
Definition set_nick_changes (v : NickChangeThrottle) (h : Handshake) : Handshake :=
  MkHandshake (transport h) (real_ip h) (cap_negotiating h) (cap_302 h) (caps h) (login h) (sasl h) (sasl_verify h) (sasl_buf h)
    (credential_attempts h) (pending_identify h) (verify_epoch h) (nick_enforcement h) v (oper h) (pending_register h).
Definition set_pending_register (v : option (option str)) (h : Handshake) : Handshake :=
  MkHandshake (transport h) (real_ip h) (cap_negotiating h) (cap_302 h) (caps h) (login h) (sasl h) (sasl_verify h) (sasl_buf h)
    (credential_attempts h) (pending_identify h) (verify_epoch h) (nick_enforcement h) (nick_changes h) (oper h) v.

(** [Session::account] and [Session::signed_in_with]. *)
Definition account (s : Session) : option str := login_account <$> login (rest s).
Definition signed_in_with (s : Session) : option CredentialId := login_credential <$> login (rest s).
Definition secure (s : Session) : bool :=
  match transport (rest s) with Tls | SecureWebSocket => true | _ => false end.

Definition with_rest (f : Handshake -> Handshake) (s : Session) : Session :=
  MkSession (reg s) (host s) (pending_joins s) (part_on_join s) (f (rest s)).

(** How a client asked for an account. *)
Inductive AccountOrigin : Type := FromNickServ | RegisterCommand.

Inductive DbRequest : Type :=
| VerifyPassword (conn : Z) (account password : str) (origin : CredentialOrigin)
| VerifyToken (conn : Z) (token : str) (authzid : option str)
| CreateAccount (conn : Z) (name : str) (contact_email : option str) (password : str) (origin : AccountOrigin).

(** The replies of the database that answer a credential check; [retry_after]
    is [LoginRetryAfter], in seconds. *)
Inductive DbReply : Type :=
| PasswordVerified (account : str) (credential : CredentialId) (expires_in : option Z) (origin : CredentialOrigin)
| PasswordRejected (origin : CredentialOrigin)
| PasswordThrottled (origin : CredentialOrigin) (retry_after : Z)
| Unavailable (origin : CredentialOrigin).

(** The replies that answer a request for an account. *)
Inductive AccountReply : Type :=
| AccountRegisterUnavailable (origin : AccountOrigin)
| AccountCreated (account : str) (origin : AccountOrigin)
| AccountExists (origin : AccountOrigin).

Inductive Denial : Type := Rejected | Throttled (retry_after : Z) | DenialUnavailable | Rechecked.

(** What a handler sends, and the calls it makes into other components: the
    database queue, the audit trail, WHOWAS, the membership directory, MONITOR,
    the history of unauthenticated identities, and the peers on channels. *)
Inductive Effect : Type :=
| Numeric (conn : Z) (code : Z) (middles : list MiddleSource) (trailing : option str)
| Send (conn : Z) (line : str)
| ServiceNotice (conn : Z) (service text : str)
| Labelled (conn : Z) (label : str) (inner : list Effect)
| SendEvent (conn : Z) (body : str)
| Isupport (conn : Z)
| Push (request : DbRequest)
| Audit (actor action target : str)
| RecordWhowas (conn : Z)
| SyncMember (conn : Z)
| RefreshRecipient (conn : Z)
| MonitorNotify (nick : str) (online : bool)
| IdentityReleased (identity : str)
| AccountNotify (conn : Z) (line : str)
| QuitLine (conn : Z) (line : str)
| NotifyOpers (except : Z) (text : str).

Section Core.
Context `{IpNet}.

Record SaslRequirement : Type := MkSaslRequirement { req_everyone : bool; req_ranges : list Net }.

Definition covers (r : SaslRequirement) (address : option IpAddr) : bool :=
  req_everyone r || opt_test (fun address => existsb (fun range => net_contains range (to_canonical address)) (req_ranges r)) address.

Record Config : Type := MkConfig {
  casemap : CaseMapping;
  shards : CoreShardCount;
  shard : Z;
  server_name : str;
  network_name : str;
  nicklen : nat;
  cap_config : CapConfig;
  sasl_requirement : SaslRequirement;
  motd : list str;
  version : str;
  minimum_chars : nat;
  reserved_account_names : list str;
}.

(** What of the server outside the shard's own state a handler reads: the
    clocks, whether the database queue and the audit trail take the next
    request, whether the rate of account creation from the connection's address
    admits another ([registration_rate_ok]), the published memberships, the
    label the command was captured under, and the counts LUSERS reports. *)
Record Env : Type := MkHandshakeEnv {
  clock_secs : Z;
  mono_clock : Z;
  db_takes : bool;
  audit_takes : bool;
  registration_takes : bool;
  memberships : MembershipDirectory;
  captured_label : option str;
  user_counts : UserCounts;
  census : Z * Z * Z;
}.

Record Core : Type := MkCore {
  sessions : gmap Z Session;
  nicks : NickDirectory;
  nick_registrations : NickRegistrations;
  server_bans : list ServerBan;
  suspended_accounts : gset str;
  account_sessions : gmap str (gset Z);
  signed_in_credentials : SignedInCredentials;
  credential_epoch : Z;
  credentials_ended : gmap EndedSignIns Z;
}.

Definition set_sessions (f : gmap Z Session -> gmap Z Session) (s : Core) : Core :=
  MkCore (f (sessions s)) (nicks s) (nick_registrations s) (server_bans s) (suspended_accounts s) (account_sessions s)
    (signed_in_credentials s) (credential_epoch s) (credentials_ended s).
Definition set_nicks (d : NickDirectory) (s : Core) : Core :=
  MkCore (sessions s) d (nick_registrations s) (server_bans s) (suspended_accounts s) (account_sessions s)
    (signed_in_credentials s) (credential_epoch s) (credentials_ended s).
Definition set_suspended (f : gset str -> gset str) (s : Core) : Core :=
  MkCore (sessions s) (nicks s) (nick_registrations s) (server_bans s) (f (suspended_accounts s)) (account_sessions s)
    (signed_in_credentials s) (credential_epoch s) (credentials_ended s).
Definition set_logins (index : gmap str (gset Z)) (held : SignedInCredentials) (s : Core) : Core :=
  MkCore (sessions s) (nicks s) (nick_registrations s) (server_bans s) (suspended_accounts s) index held
    (credential_epoch s) (credentials_ended s).
Definition set_ended (epoch : Z) (ended : gmap EndedSignIns Z) (s : Core) : Core :=
  MkCore (sessions s) (nicks s) (nick_registrations s) (server_bans s) (suspended_accounts s) (account_sessions s)
    (signed_in_credentials s) epoch ended.

(** ** Computations *)

Definition M (A : Type) : Type := Core -> option (A * Core * list Effect).

#[export] Instance M_ret : MRet M := fun _ a s => Some (a, s, []).
#[export] Instance M_bind : MBind M := fun _ _ f m s =>
  match m s with
  | None => None
  | Some (a, s, out) => match f a s with None => None | Some (b, s, out') => Some (b, s, out ++ out') end
  end.

Definition panic {A} : M A := fun _ => None.
Definition get : M Core := fun s => Some (s, s, []).
Definition modify (f : Core -> Core) : M unit := fun s => Some ((), f s, []).
Definition emit (e : Effect) : M unit := fun s => Some ((), s, [e]).
Definition expect {A} (o : option A) : M A := match o with Some a => mret a | None => panic end.

Fixpoint each {A} (f : A -> M unit) (l : list A) : M unit :=
  match l with [] => mret () | x :: l => f x;; each f l end.

(** [state.sessions[&conn]], and [get_mut(&conn).expect(...)]. *)
Definition session (conn : Z) : M Session := s ← get; expect (sessions s !! conn : option Session).
Definition on_session (conn : Z) (f : Session -> Session) : M unit :=
  x ← session conn; modify (set_sessions <[conn := f x]>).
Definition on_handshake (conn : Z) (f : Handshake -> Handshake) : M unit := on_session conn (with_rest f).

Definition numeric (conn code : Z) (middles : list MiddleSource) (trailing : option str) : M unit :=
  emit (Numeric conn code middles trailing).
Definition send (conn : Z) (line : str) : M unit := emit (Send conn line).
Definition service_notice (conn : Z) (service text : str) : M unit := emit (ServiceNotice conn service text).

(** [emit_labeled_unheld]. *)
Definition emit_labeled_unheld (conn : Z) (label : option str) (m : M unit) : M unit := fun s =>
  match m s with
  | None => None
  | Some (a, s, out) => Some (a, s, match label with None => out | Some label => [Labelled conn label out] end)
  end.

Section Handlers.
Context (c : Config) (e : Env).

Definition nick_key (nick : str) : str := casefold (casemap c) nick.
Definition account_key (name : str) : str := casefold (casemap c) name.
Definition nick_protector (key : str) (s : Core) : option str := protector key (account_key key) (nick_registrations s).

Definition err_needmoreparams (conn : Z) (cmd : str) : M unit :=
  numeric conn 461 [Middle_own cmd] (Some (bs "Not enough parameters")).

(** ** Logins *)

Definition forget_login (l : Login) (conn : Z) : M unit :=
  s ← get;
  held ← expect (credential_release (login_credential l) (signed_in_credentials s));
  let key := account_key (login_account l) in
  conns ← expect (account_sessions s !! key : option (gset Z));
  _ ← expect (if decide (conn ∈ conns) then Some () else None);
  modify (set_logins (mm_remove key conn (account_sessions s)) held).

Definition release_unauthenticated_identity (nick : str) : M unit :=
  emit (IdentityReleased (bs "~" ++ casefold (casemap c) nick)).

Definition set_account (conn : Z) (account : str) (credential : CredentialId) (expires_in : option Z) : M unit :=
  let expires_at := (fun remaining => saturating_add (mono_clock e) (Z.min U64_MAX remaining)) <$> expires_in in
  let key := account_key account in
  x ← session conn;
  let released := match login (rest x) with None => nick x | Some _ => None end in
  let mask := login_mask x in
  on_handshake conn (set_login (Some (MkLogin account credential expires_at)));;
  match login (rest x) with Some previous => forget_login previous conn | None => mret () end;;
  numeric conn 900 [Middle_own mask; Middle_own account] (Some (bs "You are now logged in as " ++ account));;
  s ← get;
  let settled := List.filter (fun n => match nick_protector n s with None => true | Some p => str_eqb p key end)
                   (clocked (nick_enforcement (rest x))) in
  on_handshake conn (fun h => set_nick_enforcement (foldl (fun en n => settle n en) (nick_enforcement h) settled) h);;
  modify (fun s => set_logins (mm_insert key conn (account_sessions s))
                     (credential_hold credential (signed_in_credentials s)) s);;
  match released with Some nick => release_unauthenticated_identity nick | None => mret () end.

Definition clear_account (conn : Z) : M unit :=
  x ← session conn;
  match login (rest x) with
  | None => mret ()
  | Some previous =>
      on_handshake conn (set_login None);;
      forget_login previous conn;;
      numeric conn 901 [Middle_own (login_mask x)] (Some (bs "You are now logged out"))
  end.

Definition notify_account_change (conn : Z) (account : str) : M unit :=
  s ← get;
  match sessions s !! conn with
  | Some x =>
      if Session.is_registered x then
        prefix ← expect (prefix x); emit (AccountNotify conn (bs ":" ++ prefix ++ bs " ACCOUNT " ++ account))
      else mret ()
  | None => mret ()
  end.

(** ** Closing *)

Definition close (conn : Z) (reason : str) : M unit :=
  s ← get;
  match sessions s !! conn with
  | None => mret ()
  | Some x =>
      (if Session.is_registered x then
         emit (RecordWhowas conn);;
         prefix ← expect (prefix x);
         let head := bs ":" ++ prefix ++ bs " QUIT :" in
         emit (QuitLine conn (head ++ fit_trailing head reason))
       else mret ());;
      modify (set_sessions (delete conn));;
      match login (rest x) with Some l => forget_login l conn | None => mret () end;;
      match nick x with
      | None => mret ()
      | Some nick =>
          modify (fun s => set_nicks (snd (release_if_owned (nick_key nick) conn (nicks s))) s);;
          (if Session.is_registered x then emit (MonitorNotify nick false) else mret ());;
          match login (rest x) with None => release_unauthenticated_identity nick | Some _ => mret () end
      end
  end.

Definition close_with_error (conn : Z) (reason : str) : M unit :=
  s ← get;
  let host := match sessions s !! conn with Some x => host x | None => [] end in
  send conn (closing_link host reason);; close conn reason.

(** ** Nick protection *)

Definition NICK_ENFORCE_DELAY_MS : Z := 30000.
Definition GUEST_NICK_SPACE : Z := 10 ^ 5.

Definition enforced_protector (conn : Z) (s : Core) : option (str * str * str) :=
  x ← sessions s !! conn;
  nick ← nick x;
  let key := nick_key nick in
  let identified := account_key <$> account x in
  p ← nick_protector key s;
  if decide (identified = Some p) then None else Some (nick, key, p).

Definition verification_in_flight (h : Handshake) : bool :=
  bool_decide (is_Some (sasl_verify h)) || bool_decide (is_Some (pending_identify h)).

(** [div_ceil(1000)]. *)
Definition whole_seconds (ms : Z) : Z := (ms + 999) / 1000.

(** [change_claimed_nick]: what a change of nick ends in is the protection
    check for a registered session and the end of registration for another;
    both rename sessions themselves, so they are arguments here. *)
Definition change_claimed_nick (check complete : M unit) (conn : Z) (nick key : str) : M unit :=
  x ← session conn;
  let registered := Session.is_registered x in
  let old_key := nick_key <$> Session.nick x in
  let case_change_only := bool_decide (old_key = Some key) in
  (if registered && negb case_change_only then emit (RecordWhowas conn) else mret ());;
  on_session conn (Session.set_nick nick);;
  match old_key with
  | Some old => if str_eqb old key then mret ()
                else modify (fun s => set_nicks (snd (release_if_owned old conn (nicks s))) s)
  | None => mret ()
  end;;
  if registered then
    previous_prefix ← expect (prefix x);
    emit (SendEvent conn (bs ":" ++ previous_prefix ++ bs " NICK " ++ nick));;
    emit (SyncMember conn);;
    (if case_change_only then mret ()
     else
       match Session.nick x with
       | Some old_nick =>
           match account x with None => release_unauthenticated_identity old_nick | Some _ => mret () end;;
           emit (MonitorNotify old_nick false)
       | None => mret ()
       end;;
       emit (MonitorNotify nick true));;
    check
  else complete.

Definition claim_nick (key : str) (conn : Z) : M bool :=
  x ← session conn;
  s ← get;
  let '(claimed, d) := claim key (MkOwner conn (shard c)) (Session.is_registered x) (nicks s) in
  modify (set_nicks d);; mret claimed.

(** [force_nick]: its callers rename registered sessions, so the end of
    registration is not reached from it. *)
Definition force_nick (check : M unit) (conn : Z) (nick : str) : M bool :=
  x ← session conn;
  if decide (Session.nick x = Some nick) then mret true
  else
    claimed ← claim_nick (nick_key nick) conn;
    if negb claimed then mret false
    else change_claimed_nick check panic conn nick (nick_key nick);; mret true.

(** [rename_to_guest]: [remaining] numbers are still to try, from [at_] on. *)
Fixpoint guest_loop (check : M unit) (conn at_ : Z) (remaining : nat) : M unit :=
  match remaining with
  | O => close_with_error conn (bs "Nickname enforcement: no Guest nick is free")
  | S remaining =>
      let guest := bs "Guest" ++ dec (at_ mod GUEST_NICK_SPACE) in
      s ← get;
      if bool_decide (is_Some (nick_protector (nick_key guest) s)) then guest_loop check conn (at_ + 1) remaining
      else
        renamed ← force_nick check conn guest;
        if renamed : bool then mret () else guest_loop check conn (at_ + 1) remaining
  end.

Definition rename_to_guest (check : M unit) (conn : Z) : M unit :=
  guest_loop check conn (conn mod GUEST_NICK_SPACE) (Z.to_nat GUEST_NICK_SPACE).

(** [queue_audit]: a server without a database has no audit trail. *)
Definition queue_audit (actor action target : str) : M bool :=
  if negb (cap_sasl_enabled (cap_config c)) then mret true
  else if audit_takes e then emit (Audit actor action target);; mret true
  else mret false.

Definition enforce_rename (check : M unit) (conn : Z) (nick key protector : str) : M unit :=
  recorded ← queue_audit protector (bs "NICK_GUEST_RENAME") key;
  if negb recorded then mret ()
  else
    on_handshake conn (fun h => set_nick_enforcement (enf_release (nick_enforcement h)) h);;
    service_notice conn (bs "NickServ") (bs "You failed to identify in time for the nickname " ++ nick);;
    rename_to_guest check conn.

(** [check_nick_protection].  A rename checks the nick it ends on in its turn;
    that one is protected by nobody, so the second check renames no more:
    [depth] of 2 is enough, and running out of it is a failure. *)
Fixpoint check_nick_protection (depth : nat) (conn : Z) : M unit :=
  match depth with
  | O => panic
  | S depth =>
      s ← get;
      match enforced_protector conn s with
      | None =>
          if decide (is_Some (sessions s !! conn))
          then on_handshake conn (fun h => set_nick_enforcement (enf_release (nick_enforcement h)) h) else mret ()
      | Some (nick, key, protector) =>
          let now := mono_clock e in
          x ← session conn;
          if decide (enf_held (nick_enforcement (rest x)) = Some key) then mret ()
          else
            let '(at_, en) := deadline key (saturating_add now NICK_ENFORCE_DELAY_MS) (nick_enforcement (rest x)) in
            on_handshake conn (set_nick_enforcement (hold key en));;
            if at_ <=? now then
              if negb (verification_in_flight (rest x))
              then enforce_rename (check_nick_protection depth conn) conn nick key protector else mret ()
            else
              service_notice conn (bs "NickServ")
                (bs "This nickname is registered. Please choose a different nickname, or identify via "
                 ++ [x02] ++ bs "/msg NickServ IDENTIFY " ++ protector ++ bs " <password>" ++ [x02] ++ bs ".");;
              service_notice conn (bs "NickServ")
                (bs "You have " ++ dec (whole_seconds (saturating_sub at_ now))
                 ++ bs " seconds to identify to your nickname before it is changed.")
      end
  end.

Definition check_protection (conn : Z) : M unit := check_nick_protection 2 conn.

(** [enforce_nick_protection], on the clock tick. *)
Definition enforce_one (conn : Z) : M unit :=
  x ← session conn;
  s ← get;
  match enforced_protector conn s with
  | Some (nick, key, protector) =>
      if decide (enf_held (nick_enforcement (rest x)) = Some key)
      then enforce_rename (check_protection conn) conn nick key protector
      else on_handshake conn (fun h => set_nick_enforcement (enf_release (nick_enforcement h)) h)
  | None => on_handshake conn (fun h => set_nick_enforcement (enf_release (nick_enforcement h)) h)
  end.

Definition enforce_nick_protection (now : Z) : M unit :=
  s ← get;
  each enforce_one
    (List.filter (fun conn => match sessions s !! conn with
                              | Some x => negb (verification_in_flight (rest x))
                                          && bool_decide (is_Some (due now (nick_enforcement (rest x))))
                              | None => false
                              end) ((map_to_list (sessions s)).*1)).

(** ** The end of registration *)

Definition server_ban_subject (x : Session) : ServerBanSubject :=
  MkBanSubject (default (bs "*") (Session.user x)) (host x) (real_ip (rest x)) (default [] (realname x)).

Definition ban_match (subject : ServerBanSubject) (s : Core) : option (BanKind * str) :=
  (fun ban => (ban_kind ban, ban_reason ban))
    <$> head (List.filter (fun ban => server_ban_matches ban (casemap c) subject)
                (List.filter (fun ban => in_force ban (clock_secs e)) (server_bans s))).

(** [str::trim_end]. *)
Definition trim_end (s : str) : str := concat (rev (drop_white (rev (chars s)))).

Definition public_ban_reason (reason : str) : str :=
  trim_end (match split_once "|" reason with Some (public, _) => public | None => reason end).

(** [BanKind::label]. *)
Definition ban_label (k : BanKind) : str :=
  match k with Kline => bs "K-Line" | Dline => bs "D-Line" | Xline => bs "X-Line" end.

Definition refuse_unauthenticated (conn : Z) : M bool :=
  x ← session conn;
  if bool_decide (is_Some (account x)) || (match transport (rest x) with LocalTransport => true | _ => false end)
     || negb (covers (sasl_requirement c) (real_ip (rest x)))
  then mret false
  else
    numeric conn 465 [] (Some (bs "You need to identify via SASL to use this server"));;
    close_with_error conn (bs "SASL access only");;
    mret true.

Definition send_lusers (conn : Z) : M unit :=
  let users := count_users (user_counts e) in
  let invisible := count_invisible (user_counts e) in
  let opers := count_opers (user_counts e) in
  let '(connections, channels, max) := census e in
  let unknown := saturating_sub connections users in
  numeric conn 251 [] (Some (bs "There are " ++ dec (users - invisible) ++ bs " users and " ++ dec invisible
                             ++ bs " invisible on 1 servers"));;
  (if 0 <? opers then numeric conn 252 [Middle_from opers] (Some (bs "operator(s) online")) else mret ());;
  (if 0 <? unknown then numeric conn 253 [Middle_from unknown] (Some (bs "unknown connection(s)")) else mret ());;
  (if 0 <? channels then numeric conn 254 [Middle_from channels] (Some (bs "channels formed")) else mret ());;
  numeric conn 255 [] (Some (bs "I have " ++ dec users ++ bs " clients and 0 servers"));;
  numeric conn 265 [Middle_from users; Middle_from max]
    (Some (bs "Current local users " ++ dec users ++ bs ", max " ++ dec max));;
  numeric conn 266 [Middle_from users; Middle_from max]
    (Some (bs "Current global users " ++ dec users ++ bs ", max " ++ dec max)).

Definition send_motd (conn : Z) : M unit :=
  if is_empty (motd c) then numeric conn 422 [] (Some (bs "MOTD File is missing"))
  else
    numeric conn 375 [] (Some (bs "- " ++ server_name c ++ bs " Message of the day - "));;
    each (fun line => numeric conn 372 [] (Some (bs "- " ++ line))) (motd c);;
    numeric conn 376 [] (Some (bs "End of /MOTD command.")).

Definition USER_MODES : str := bs "iowBRZ".
Definition CHANMODES_LIST : str := bs "eIbq".
Definition CHANMODES_ALWAYS_PARAM : str := bs "k".
Definition CHANMODES_SET_PARAM : str := bs "l".
Definition CHANMODES_FLAGS : str := FLAGS.
Definition PREFIX_MODES : str := bs "ov".
Definition myinfo_channel_modes : str :=
  CHANMODES_LIST ++ CHANMODES_ALWAYS_PARAM ++ CHANMODES_SET_PARAM ++ CHANMODES_FLAGS ++ PREFIX_MODES.
Definition myinfo_param_channel_modes : str :=
  CHANMODES_LIST ++ CHANMODES_ALWAYS_PARAM ++ CHANMODES_SET_PARAM ++ PREFIX_MODES.

(** The end of [maybe_complete_registration]: what follows the welcome, and
    the welcome. *)
Definition welcome_burst (conn : Z) (x : Session) : M unit :=
  numeric conn 2 [] (Some (bs "Your host is " ++ server_name c ++ bs ", running version e6ircd-" ++ version c));;
  numeric conn 3 [] (Some (bs "This server was created at build time"));;
  numeric conn 4 [Middle_own (server_name c); Middle_own (bs "e6ircd-" ++ version c); Middle_own USER_MODES;
                  Middle_own myinfo_channel_modes; Middle_own myinfo_param_channel_modes] None;;
  emit (Isupport conn);;
  send_lusers conn;;
  send_motd conn;;
  nick ← expect (Session.nick x);
  (if secure x then send conn (bs ":" ++ nick ++ bs " MODE " ++ nick ++ bs " :+Z") else mret ());;
  emit (MonitorNotify nick true);;
  check_protection conn.

Definition welcome (conn : Z) : M unit :=
  x ← session conn;
  prefix ← expect (prefix x);
  numeric conn 1 [] (Some (bs "Welcome to the " ++ network_name c ++ bs " Network, " ++ prefix));;
  welcome_burst conn x.

Definition ready (x : Session) : bool :=
  negb (Session.is_registered x) && negb (cap_negotiating (rest x)) && bool_decide (is_Some (Session.nick x))
  && bool_decide (is_Some (Session.user x)) && negb (bool_decide (is_Some (sasl_verify (rest x)))).

Definition maybe_complete_registration (conn : Z) : M unit :=
  x ← session conn;
  if negb (ready x) then mret ()
  else
    (match sasl (rest x) with
     | PlainPending | BearerPending =>
         on_handshake conn (fun h => set_sasl_buf [] (set_sasl Idle h));;
         numeric conn 906 [] (Some (bs "SASL authentication aborted"))
     | Idle | Verifying => mret ()
     end);;
    x ← session conn;
    s ← get;
    match ban_match (server_ban_subject x) s with
    | Some (kind, reason) =>
        let reason := public_ban_reason reason in
        numeric conn 465 [] (Some (bs "You are banned from this server: " ++ reason));;
        close_with_error conn (ban_label kind ++ bs "d: " ++ reason)
    | None =>
        refused ← refuse_unauthenticated conn;
        if refused : bool then mret ()
        else
          on_session conn Session.complete_registration;;
          x ← session conn;
          match Session.nick x with
          | Some nick => modify (fun s => set_nicks (mark_registered (nick_key nick) conn (nicks s)) s)
          | None => mret ()
          end;;
          emit (SyncMember conn);;
          welcome conn
    end.

(** ** NICK, USER, PASS *)

Definition is_service_nick (key : str) : bool := existsb (str_eqb key) SERVICE_NICKS.

Definition USERLEN : nat := 10.
Definition REALLEN : nat := Z.to_nat 150.

Definition state_silenced_in (conn : Z) (x : Session) : M (option str) :=
  prefix ← expect (prefix x);
  mret (silenced_in conn (casemap c) (MaskSubject_new prefix (real_ip (rest x)) (account x)) (memberships e)).

(** [nick_change_too_fast]. *)
Definition nick_change_too_fast (conn : Z) : M bool :=
  x ← session conn;
  let '(fast, changes) := too_fast (mono_clock e) (nick_changes (rest x)) in
  on_handshake conn (set_nick_changes changes);;
  mret (fast && negb (bool_decide (is_Some (oper (rest x))))).

(** From the claim of the nick on ([cmd_nick], last part). *)
Definition take_nick (conn : Z) (nick key : str) : M unit :=
  claimed ← claim_nick key conn;
  if negb claimed then
    on_session conn (note_nick_in_use nick);;
    numeric conn 433 [Middle_echo nick] (Some (bs "Nickname is already in use"))
  else change_claimed_nick (check_protection conn) (maybe_complete_registration conn) conn nick key.

(** What a change of nick of a registered session is refused for. *)
Definition nick_refused (conn : Z) (x : Session) (nick key : str) : M bool :=
  silenced ← state_silenced_in conn x;
  match silenced with
  | Some channel =>
      numeric conn 435 [Middle_echo nick; Middle_own channel] (Some (bs "Cannot change nickname while banned on channel"));;
      mret true
  | None =>
      s ← get;
      let held_by_another := match nick_owner key (nicks s) with Some o => negb (owner_conn o =? conn) | None => false end in
      if held_by_another then mret false
      else
        fast ← nick_change_too_fast conn;
        if negb fast then mret false
        else
          numeric conn 438 [Middle_own (default (bs "*") (Session.nick x)); Middle_echo nick]
            (Some (bs "Nick change too fast. Please wait " ++ dec (MAX_NICK_TIME_MS / 1000) ++ bs " seconds."));;
          mret true
  end.

Definition cmd_nick (conn : Z) (p : list str) : M unit :=
  match p with
  | [] | [] :: _ => numeric conn 431 [] (Some (bs "No nickname given"))
  | nick :: _ =>
      if negb (valid_nick nick (nicklen c)) then numeric conn 432 [Middle_echo nick] (Some (bs "Erroneous nickname"))
      else
        let key := nick_key nick in
        if is_service_nick key then numeric conn 432 [Middle_echo nick] (Some (bs "Nickname is reserved"))
        else
          x ← session conn;
          if negb (Session.is_registered x) then take_nick conn nick key
          else if decide (Session.nick x = Some nick) then mret ()
          else
            refused ← nick_refused conn x nick key;
            if refused : bool then mret () else take_nick conn nick key
  end.

Definition already_registered (conn : Z) : M unit := numeric conn 462 [] (Some (bs "You may not reregister")).

Definition cmd_pass (conn : Z) (p : list str) : M unit :=
  x ← session conn;
  if Session.is_registered x then already_registered conn
  else match p with [] | [] :: _ => err_needmoreparams conn (bs "PASS") | _ => mret () end.

Definition cmd_user (conn : Z) (p : list str) : M unit :=
  x ← session conn;
  if Session.is_registered x then already_registered conn
  else
    match p with
    | (_ :: _) as user :: _ :: _ :: (_ :: _) as real :: _ =>
        match username user USERLEN with
        | None => numeric conn 468 [Middle_echo user] (Some (bs "Invalid username"))
        | Some kept =>
            on_session conn (fun x => set_realname (truncate_chars real REALLEN) (set_user kept x));;
            maybe_complete_registration conn
        end
    | _ => err_needmoreparams conn (bs "USER")
    end.

(** ** CAP *)

Definition cap_target (x : Session) : str := default (bs "*") (Session.nick x).

Definition mark_negotiating (conn : Z) : M unit :=
  x ← session conn;
  if Session.is_registered x then mret () else on_handshake conn (set_cap_negotiating true).

Definition cap_notify_on (caps : Caps) : Caps := cap_set (field 3) true caps.

Definition cmd_cap (conn : Z) (p : list str) : M unit :=
  x ← session conn;
  let target := cap_target x in
  let sub := match p with [] => [] | s :: _ => to_ascii_uppercase <$> s end in
  if str_eqb sub (bs "LS") then
    mark_negotiating conn;;
    let v302 := cap_version_302 (p !! 1%nat) in
    (if v302 then on_handshake conn (fun h => set_caps true (cap_notify_on (caps h)) h);; emit (RefreshRecipient conn) else mret ());;
    each (send conn) (cap_reply_lines (server_name c) target (bs "LS") (ls_tokens (cap_config c) v302) v302)
  else if str_eqb sub (bs "LIST") then
    each (send conn) (cap_reply_lines (server_name c) target (bs "LIST") (list_tokens (caps (rest x))) (cap_302 (rest x)))
  else if str_eqb sub (bs "REQ") then
    mark_negotiating conn;;
    let request := default [] (p !! 1%nat) in
    let '(applied, line) := cap_req (cap_config c) (server_name c) target (cap_302 (rest x)) request (caps (rest x)) in
    match applied with
    | Some caps => on_handshake conn (fun h => set_caps (cap_302 h) caps h);; emit (RefreshRecipient conn)
    | None => mret ()
    end;;
    send conn line
  else if str_eqb sub (bs "END") then
    if negb (Session.is_registered x) && cap_negotiating (rest x) then
      on_handshake conn (set_cap_negotiating false);; maybe_complete_registration conn
    else mret ()
  else numeric conn 410 [Middle_echo sub] (Some (bs "Invalid CAP command")).

(** ** SASL *)

Definition LIMIT : Z := 8.

(** [CredentialAttemptBudget::consume]. *)
Definition consume (used : Z) : bool * Z := if LIMIT <=? used then (false, used) else (true, used + 1).

Definition credential_attempt_ok (conn : Z) : M bool :=
  x ← session conn;
  let '(ok, used) := consume (credential_attempts (rest x)) in
  on_handshake conn (set_credential_attempts used);;
  if negb ok then close_with_error conn (bs "Too many authentication attempts");; mret false
  else mret true.

Definition sasl_fail (conn : Z) : M unit :=
  on_handshake conn (set_sasl Idle);; numeric conn 904 [] (Some (bs "SASL authentication failed")).
Definition sasl_unavailable (conn : Z) : M unit :=
  on_handshake conn (set_sasl Idle);; numeric conn 904 [] (Some (bs "SASL authentication temporarily unavailable")).
Definition RECHECKED : str := bs "Credentials were re-checked while yours were being verified; please try again".
Definition sasl_rechecked (conn : Z) : M unit :=
  on_handshake conn (set_sasl Idle);; numeric conn 904 [] (Some RECHECKED).

(** [LoginRetryAfter::explanation]. *)
Definition retry_explanation (retry_after : Z) : str :=
  bs "Too many failed login attempts for this account; try again in " ++ dec retry_after ++ bs " seconds".
Definition sasl_throttled (conn retry_after : Z) : M unit :=
  on_handshake conn (set_sasl Idle);; numeric conn 904 [] (Some (retry_explanation retry_after)).

(** A verdict of an attempt that was aborted meanwhile is answered empty. *)
Definition sasl_verdict (conn : Z) (label : option str) (m : M unit) : M unit :=
  x ← session conn;
  emit_labeled_unheld conn label (if decide (sasl (rest x) = Verifying) then m else mret ()).

Definition take_identify_label (conn : Z) : M (option (option str)) :=
  x ← session conn;
  on_handshake conn (set_pending_identify None);;
  mret (pending_identify (rest x)).

Definition verify_denied (conn : Z) (origin : CredentialOrigin) (label : option str) (denial : Denial) : M unit :=
  match origin with
  | OriginSasl =>
      sasl_verdict conn label
        match denial with
        | Rejected => sasl_fail conn
        | Throttled retry_after => sasl_throttled conn retry_after
        | DenialUnavailable => sasl_unavailable conn
        | Rechecked => sasl_rechecked conn
        end
  | NickServIdentify =>
      taken ← take_identify_label conn;
      match taken with
      | None => mret ()
      | Some label =>
          x ← session conn;
          let text := match denial with
                      | DenialUnavailable => bs "Services are temporarily unavailable. Try again later."
                      | Throttled retry_after => retry_explanation retry_after
                      | Rechecked => RECHECKED
                      | Rejected => bs "Invalid password for " ++ [x02] ++ default (bs "*") (Session.nick x) ++ [x02] ++ bs "."
                      end in
          emit_labeled_unheld conn label (service_notice conn (bs "NickServ") text)
      end
  end.

Definition credential_check_queued (conn : Z) : M unit :=
  s ← get;
  if decide (is_Some (sessions s !! conn)) then on_handshake conn (set_verify_epoch (credential_epoch s)) else mret ().

Definition sasl_verify_queued (conn : Z) : M unit :=
  on_handshake conn (set_sasl_verify (Some (captured_label e)));; credential_check_queued conn.

(** The end of a complete payload: the credentials are sent to the store. *)
Definition queue_sasl_check (conn : Z) (request : DbRequest) : M unit :=
  on_handshake conn (set_sasl Verifying);;
  if db_takes e then emit (Push request);; sasl_verify_queued conn
  else sasl_fail conn.

Definition require_cred_payload (conn : Z) (request : option DbRequest) : M unit :=
  ok ← credential_attempt_ok conn;
  if negb ok then mret ()
  else match request with None => sasl_fail conn | Some request => queue_sasl_check conn request end.

Definition sasl_request (conn : Z) (mechanism : SaslState) (payload : str) : option DbRequest :=
  match mechanism with
  | PlainPending =>
      (fun p => VerifyPassword conn (plain_account p) (plain_password p) OriginSasl) <$> parse_plain_payload payload
  | _ => (fun o => VerifyToken conn (oauth_token o) (oauth_authzid o)) <$> parse_oauthbearer_payload payload
  end.

(** A line of the payload ([cmd_authenticate], the pending states). *)
Definition sasl_chunk (conn : Z) (arg : str) (x : Session) : M unit :=
  let piece := if str_eqb arg (bs "+") then [] else arg in
  if (MAX_AUTHENTICATE_PAYLOAD_LEN <? length (sasl_buf (rest x)) + length piece)%nat then
    ok ← credential_attempt_ok conn;
    if negb ok then mret ()
    else on_handshake conn (set_sasl_buf []);; sasl_fail conn
  else
    on_handshake conn (set_sasl_buf (sasl_buf (rest x) ++ piece));;
    if (length arg =? MAX_AUTHENTICATE_CHUNK_LEN)%nat then mret ()
    else
      let payload := sasl_buf (rest x) ++ piece in
      on_handshake conn (set_sasl_buf []);;
      if verification_in_flight (rest x) then sasl_fail conn
      else require_cred_payload conn (sasl_request conn (sasl (rest x)) payload).

Definition cmd_authenticate (conn : Z) (p : list str) : M unit :=
  x ← session conn;
  if negb (cap_sasl_enabled (cap_config c)) || negb (Events.sasl (caps (rest x))) then sasl_fail conn
  else
    match p with
    | [] => err_needmoreparams conn (bs "AUTHENTICATE")
    | arg :: _ =>
        if bool_decide (is_Some (account x)) then numeric conn 907 [] (Some (bs "You have already authenticated"))
        else if str_eqb arg (bs "*") then
          on_handshake conn (fun h => set_sasl_buf [] (set_sasl Idle h));;
          numeric conn 906 [] (Some (bs "SASL authentication aborted"))
        else if (MAX_AUTHENTICATE_CHUNK_LEN <? length arg)%nat then
          on_handshake conn (fun h => set_sasl_buf [] (set_sasl Idle h));;
          numeric conn 905 [] (Some (bs "SASL message too long"))
        else
          match sasl (rest x) with
          | Idle =>
              if eq_ignore_ascii_case arg (bs "PLAIN") then
                on_handshake conn (set_sasl PlainPending);; send conn (bs "AUTHENTICATE +")
              else if eq_ignore_ascii_case arg (bs "OAUTHBEARER") then
                on_handshake conn (set_sasl BearerPending);; send conn (bs "AUTHENTICATE +")
              else
                numeric conn 908 [Middle_own (bs "PLAIN,OAUTHBEARER")] (Some (bs "are available SASL mechanisms"));;
                sasl_fail conn
          | PlainPending | BearerPending => sasl_chunk conn arg x
          | Verifying =>
              on_handshake conn (set_sasl Idle);;
              numeric conn 904 [] (Some (bs "SASL authentication abandoned while it was being verified"))
          end
    end.

(** ** Verdicts *)

Definition ended_since (s : Core) (h : Handshake) (key : EndedSignIns) : bool :=
  opt_test (fun ended => verify_epoch h <? ended) (credentials_ended s !! key).

Definition stale_verdict (conn : Z) (account : str) (credential : CredentialId) (s : Core) : option StaleVerdict :=
  x ← sessions s !! conn;
  if ended_since s (rest x) (EndedAccount (account_key account))
     || (match credential with Issued issued => ended_since s (rest x) (EndedCredential issued) | AccountPassword => false end)
  then Some CredentialEnded
  else if ended_since s (rest x) EndedEvery then Some StaleRechecked
  else None.

Definition is_account_suspended (account : str) (s : Core) : bool := bool_decide (account_key account ∈ suspended_accounts s).

Definition reply_origin (reply : DbReply) : CredentialOrigin :=
  match reply with
  | PasswordVerified _ _ _ o | PasswordRejected o | PasswordThrottled o _ | Unavailable o => o
  end.

(** Why a verdict the store verified is refused all the same. *)
Definition verdict_denial (conn : Z) (reply : DbReply) (s : Core) : option Denial :=
  match reply with
  | PasswordVerified account credential _ _ =>
      if is_account_suspended account s then Some Rejected
      else match stale_verdict conn account credential s with
           | Some CredentialEnded => Some Rejected
           | Some StaleRechecked => Some Rechecked
           | None => None
           end
  | _ => None
  end.

(** The outstanding check is answered, and the label its verdict carries. *)
Definition take_sasl_label (conn : Z) : M (option str) :=
  x ← session conn;
  on_handshake conn (set_sasl_verify None);;
  mret (mjoin (sasl_verify (rest x))).

(** The verdict itself; [false] where [db_reply] returns without looking at
    registration again. *)
Definition apply_verdict (conn : Z) (reply : DbReply) (label : option str) : M bool :=
  match reply with
  | PasswordVerified account credential expires_in OriginSasl =>
      x ← session conn;
      if decide (sasl (rest x) = Verifying) then
        sasl_verdict conn label
          (on_handshake conn (set_sasl Idle);;
           set_account conn account credential expires_in;;
           numeric conn 903 [] (Some (bs "SASL authentication successful")));;
        notify_account_change conn account;; mret true
      else sasl_verdict conn label (mret ());; mret false
  | PasswordVerified account credential expires_in NickServIdentify =>
      taken ← take_identify_label conn;
      match taken with
      | None => mret false
      | Some label =>
          emit_labeled_unheld conn label
            (set_account conn account credential expires_in;;
             service_notice conn (bs "NickServ") (bs "You are now identified for " ++ [x02] ++ account ++ [x02] ++ bs "."));;
          notify_account_change conn account;; mret true
      end
  | PasswordRejected origin => verify_denied conn origin label Rejected;; mret true
  | PasswordThrottled origin retry_after => verify_denied conn origin label (Throttled retry_after);; mret true
  | Unavailable origin => verify_denied conn origin label DenialUnavailable;; mret true
  end.

(** [db_reply], for the verdicts of credential checks: what follows the
    taking of the label, and the whole. *)
Definition conclude (conn : Z) (reply : DbReply) (label : option str) : M unit :=
  s ← get;
  match verdict_denial conn reply s with
  | Some denial => verify_denied conn (reply_origin reply) label denial
  | None =>
      again ← apply_verdict conn reply label;
      if again : bool then maybe_complete_registration conn else mret ()
  end.

Definition db_reply (conn : Z) (reply : DbReply) : M unit :=
  s ← get;
  if decide (is_Some (sessions s !! conn)) then
    label ← match reply_origin reply with OriginSasl => take_sasl_label conn | NickServIdentify => mret None end;
    conclude conn reply label
  else mret ().

(** ** NickServ *)

Definition services_unavailable (conn : Z) (service : str) : M unit :=
  service_notice conn service (bs "Services are temporarily unavailable. Try again later.").

Definition nickserv_identify (conn : Z) (args : list str) : M unit :=
  x ← session conn;
  named ← match args with
          | [password] => nick ← expect (Session.nick x); mret (Some (nick, password))
          | [account; password] => mret (Some (account, password))
          | _ => mret None
          end;
  match named with
  | None => service_notice conn (bs "NickServ") (bs "Syntax: IDENTIFY [account] <password>")
  | Some (account, password) =>
      if verification_in_flight (rest x) then
        service_notice conn (bs "NickServ") (bs "An authentication is already in progress. Try again in a moment.")
      else
        ok ← credential_attempt_ok conn;
        if negb ok then mret ()
        else if db_takes e then
          emit (Push (VerifyPassword conn account password NickServIdentify));;
          on_handshake conn (set_pending_identify (Some (captured_label e)));;
          credential_check_queued conn
        else services_unavailable conn (bs "NickServ")
  end.

Definition nickserv_logout (conn : Z) : M unit :=
  x ← session conn;
  match account x with
  | None => service_notice conn (bs "NickServ") (bs "You are not logged in.")
  | Some _ =>
      clear_account conn;;
      notify_account_change conn (bs "*");;
      service_notice conn (bs "NickServ") (bs "You are now logged out.")
  end.

(** ** Registering an account *)

(** [fail_line]. *)
Definition fail_line (server command code : str) (context : list str) (detail : str) : str :=
  fitted_line (bs ":" ++ server ++ bs " FAIL " ++ command ++ bs " " ++ code
               ++ concat ((fun param => bs " " ++ MiddleParam_echo param) <$> context) ++ bs " :") detail.

Definition register_fail (conn : Z) (code account detail : str) : M unit :=
  send conn (fail_line (server_name c) (bs "REGISTER") code [account] detail).

Definition unclaimable (refusal : NameClaimRefusal) : str :=
  match refusal with
  | ServiceNick => bs "That account name is a services nick and cannot be registered"
  | ConfiguredAdministrator => bs "That account name is reserved for a server administrator and cannot be registered"
  end.

Definition cmd_register (conn : Z) (p : list str) : M unit :=
  x ← session conn;
  let TEMPORARILY_UNAVAILABLE := bs "TEMPORARILY_UNAVAILABLE" in
  if negb (cap_sasl_enabled (cap_config c)) then
    register_fail conn TEMPORARILY_UNAVAILABLE (bs "*") (bs "Account registration is not available on this server")
  else
    match p with
    | [account'; email; password] =>
        if negb (Session.is_registered x) && negb (registration_before_connect (cap_config c)) then
          register_fail conn (bs "COMPLETE_CONNECTION_REQUIRED") (default (bs "*") (Session.nick x))
            (bs "Complete your connection before registering an account")
        else
          match Session.nick x with
          | None =>
              match refused_nick x with
              | Some taken => register_fail conn (bs "ACCOUNT_EXISTS") taken (bs "That name is held by another user")
              | None => register_fail conn (bs "NEED_NICK") (bs "*") (bs "You must hold a nickname before registering an account")
              end
          | Some nick =>
              if negb (str_eqb account' (bs "*")) && negb (casemap_eq (casemap c) account' nick) then
                register_fail conn (bs "ACCOUNT_NAME_MUST_BE_NICK") account' (bs "You may only register the nickname you are currently using")
              else
                match claimable (reserved_account_names c) nick with
                | Err refusal => register_fail conn (bs "BAD_ACCOUNT_NAME") nick (unclaimable refusal)
                | Ok _ =>
                    if registration_require_email (cap_config c) && str_eqb email (bs "*") then
                      register_fail conn (bs "INVALID_EMAIL") nick (bs "An email address is required to register on this server")
                    else
                      match (if str_eqb email (bs "*") then Some None else Some <$> parse_contact_email email) with
                      | None => register_fail conn (bs "INVALID_EMAIL") nick (bs "Supply a valid email address or * when email is optional")
                      | Some contact_email =>
                          match new_password (minimum_chars c) password with
                          | Err refusal =>
                              register_fail conn (match refusal with TooShort _ => bs "WEAK_PASSWORD" | TooLong _ => bs "UNACCEPTABLE_PASSWORD" end)
                                nick (password_explanation refusal)
                          | Ok password =>
                              if bool_decide (is_Some (account x)) then
                                register_fail conn (bs "ALREADY_AUTHENTICATED") nick (bs "You are already logged in")
                              else if bool_decide (is_Some (pending_register (rest x))) then
                                register_fail conn TEMPORARILY_UNAVAILABLE nick (bs "A registration is already in progress")
                              else if negb (registration_takes e) then
                                register_fail conn TEMPORARILY_UNAVAILABLE nick
                                  (bs "Too many account registrations from your address; try again later")
                              else
                                ok ← credential_attempt_ok conn;
                                if negb ok then mret ()
                                else if db_takes e then
                                  emit (Push (CreateAccount conn nick contact_email password RegisterCommand));;
                                  on_handshake conn (set_pending_register (Some (captured_label e)))
                                else
                                  register_fail conn TEMPORARILY_UNAVAILABLE nick (bs "Account registration is temporarily unavailable")
                          end
                      end
                end
          end
    | _ =>
        register_fail conn (bs "NEED_MORE_PARAMS") (default (bs "*") (Session.nick x))
          (bs "Syntax: REGISTER <account|*> <email|*> <password>")
    end.

(** [refuse_unclaimable_nick]: the notice, when no account may claim [nick]. *)
Definition unclaimable_notice (nick : str) : option str :=
  match claimable (reserved_account_names c) nick with
  | Ok _ => None
  | Err refusal =>
      let why := match refusal with
                 | ServiceNick => bs "is a services nick"
                 | ConfiguredAdministrator => bs "is reserved for a server administrator"
                 end in
      Some ([x02] ++ nick ++ [x02] ++ bs " " ++ why ++ bs " and cannot be registered.")
  end.

Definition nickserv_register (conn : Z) (args : list str) : M unit :=
  let notice := service_notice conn (bs "NickServ") in
  let create password contact_email :=
    match new_password (minimum_chars c) password with
    | Err refusal => notice (password_explanation refusal)
    | Ok password =>
        x ← session conn;
        if bool_decide (is_Some (account x)) then notice (bs "You are already logged in.")
        else
          name ← expect (Session.nick x);
          match unclaimable_notice name with
          | Some text => notice text
          | None =>
              if negb (registration_takes e) then notice (bs "Too many account registrations from your address. Try again later.")
              else
                ok ← credential_attempt_ok conn;
                if negb ok then mret ()
                else if db_takes e then emit (Push (CreateAccount conn name contact_email password FromNickServ))
                else services_unavailable conn (bs "NickServ")
          end
    end in
  let syntax := notice (bs "Syntax: REGISTER <password> [email]") in
  match args with
  | [password] => if registration_require_email (cap_config c) then syntax else create password None
  | [password; email] =>
      match parse_contact_email email with
      | Some email => create password (Some email)
      | None => notice (bs "Invalid email address. Syntax: REGISTER <password> [email]")
      end
  | _ => syntax
  end.

(** [take_register_label]. *)
Definition take_register_label (conn : Z) : M (option str) :=
  x ← session conn;
  on_handshake conn (set_pending_register None);;
  mret (mjoin (pending_register (rest x))).

(** [emit_deferred_labeled]: the lines under the label; that the output held
    back behind the answer is released after it is not modelled. *)
Definition emit_deferred_labeled (conn : Z) (label : option str) (m : M unit) : M unit := emit_labeled_unheld conn label m.

(** [db_reply], for the answers to a request for an account. A created account
    is logged in at once: neither suspensions nor ended credentials are asked. *)
Definition account_reply (conn : Z) (reply : AccountReply) : M unit :=
  let notice := service_notice conn (bs "NickServ") in
  s ← get;
  match sessions s !! conn with
  | None => mret ()
  | Some x =>
      let nick := default (bs "*") (Session.nick x) in
      match reply with
      | AccountRegisterUnavailable FromNickServ => services_unavailable conn (bs "NickServ")
      | AccountRegisterUnavailable RegisterCommand =>
          label ← take_register_label conn;
          emit_deferred_labeled conn label
            (register_fail conn (bs "TEMPORARILY_UNAVAILABLE") nick (bs "Account registration is temporarily unavailable"))
      | AccountCreated account FromNickServ =>
          set_account conn account AccountPassword None;;
          notice ([x02] ++ account ++ [x02] ++ bs " is now registered to your connection.");;
          notify_account_change conn account
      | AccountCreated account RegisterCommand =>
          label ← take_register_label conn;
          emit_deferred_labeled conn label
            (set_account conn account AccountPassword None;;
             send conn (bs ":" ++ server_name c ++ bs " REGISTER SUCCESS " ++ account ++ bs " :Account registered, you are now logged in"));;
          notify_account_change conn account
      | AccountExists FromNickServ => notice ([x02] ++ nick ++ [x02] ++ bs " is already registered.")
      | AccountExists RegisterCommand =>
          label ← take_register_label conn;
          emit_deferred_labeled conn label (register_fail conn (bs "ACCOUNT_EXISTS") nick (bs "Account already exists"))
      end
  end.

(** ** Ended credentials, suspensions and expired logins *)

Definition min_epoch (l : list Z) : option Z :=
  match l with [] => None | x :: l => Some (foldl Z.min x l) end.

(** The epoch of the oldest check still outstanding. *)
Definition oldest_outstanding (s : Core) : option Z :=
  min_epoch (verify_epoch <$> List.filter verification_in_flight (rest <$> (map_to_list (sessions s)).*2)).

(** [+= 1] on a [u64], which wraps in the released build. *)
Definition next_epoch (s : Core) : Z := (credential_epoch s + 1) mod 2 ^ 64.

Definition end_credentials (ended : EndedSignIns) : M unit :=
  modify (fun s => set_ended (next_epoch s)
    match oldest_outstanding s with
    | None => ∅
    | Some oldest => <[ended := next_epoch s]> (filter (fun kv => oldest < kv.2) (credentials_ended s))
    end s).

Definition conns_where (f : Session -> bool) (s : Core) : list Z :=
  (List.filter (fun kv => f kv.2) (map_to_list (sessions s))).*1.

Definition close_killed (conn : Z) (target comment killer source : str) : M unit :=
  emit (NotifyOpers conn (bs "Received KILL message for " ++ target ++ bs " from " ++ killer ++ bs ": " ++ comment));;
  send conn (fitted_line (bs ":" ++ source ++ bs " KILL " ++ target ++ bs " :") comment);;
  close_with_error conn (bs "Killed (" ++ killer ++ bs " (" ++ comment ++ bs "))").

Definition disconnect_suspended (conn : Z) (reason actor : str) : M unit :=
  s ← get;
  match sessions s !! conn with
  | None => mret ()
  | Some x =>
      if Session.is_registered x then
        match Session.nick x with Some target => close_killed conn target reason actor (server_name c) | None => mret () end
      else
        let head := bs "ERROR :Closing Link: " ++ server_name c ++ bs " (" in
        send conn (head ++ fit_trailing (head ++ bs ")") reason ++ bs ")");;
        close conn reason
  end.

Definition disconnect_account (key : str) (reason actor : str) : M unit :=
  s ← get;
  each (fun conn => disconnect_suspended conn reason actor)
    (conns_where (fun x => bool_decide (account_key <$> account x = Some key)) s).

Definition apply_account_sessions_ended (account reason actor : str) : M unit :=
  end_credentials (EndedAccount (account_key account));;
  disconnect_account (account_key account) reason actor.

Definition revocation_reason (c : IssuedCredential) : str :=
  match c with AppPassword _ => bs "App password revoked" | ApiToken _ => bs "Personal access token revoked" end.

Definition apply_credential_sessions_ended (credential : IssuedCredential) : M unit :=
  end_credentials (EndedCredential credential);;
  s ← get;
  each (fun conn => close_with_error conn (revocation_reason credential))
    (conns_where (fun x => match signed_in_with x with Some (Issued i) => bool_decide (i = credential) | _ => false end) s).

Definition refuse_verdicts_in_flight : M unit := end_credentials EndedEvery.

Definition apply_account_suspension (account : str) (suspended : bool) (reason actor : str) : M unit :=
  let key := account_key account in
  if negb suspended then modify (set_suspended (fun a => a ∖ {[key]}))
  else modify (set_suspended (fun a => {[key]} ∪ a));; disconnect_account key reason actor.

Definition expire_logins (now : Z) : M unit :=
  s ← get;
  each (fun conn => close_with_error conn (bs "Personal access token expired"))
    (conns_where (fun x => match login (rest x) with
                           | Some l => opt_test (fun at_ => at_ <=? now) (login_expires_at l)
                           | None => false
                           end) s).

(** ** Opening *)

(** [ServerState::open], the fields registration and authentication use;
    [address] is the host read as an address. *)
Definition open_session (shown : str) (address : option IpAddr) (t : ConnectionTransport) : Session :=
  MkSession (Registering None None None None) (mask_middle shown) ∅ ∅
    (MkHandshake t (to_canonical <$> address) false false Caps_default None Idle None [] 0 None 0
       NickEnforcement_default NickChangeThrottle_default None None).

Definition open (conn : Z) (shown : str) (t : ConnectionTransport) : M unit :=
  s ← get;
  match sessions s !! conn with
  | Some _ => panic
  | None => modify (set_sessions <[conn := open_session shown (ip_parse (mask_middle shown)) t]>)
  end.

(** ** Events *)

Inductive Command : Type :=
| CmdCap (p : list str) | CmdAuthenticate (p : list str) | CmdNick (p : list str) | CmdUser (p : list str) | CmdPass (p : list str)
| CmdRegister (p : list str) | CmdIdentify (args : list str) | CmdNickServRegister (args : list str) | CmdLogout.

(** The part of [dispatch_parsed] that reaches these commands: the first six
    are legal before registration, NickServ is not. *)
Definition dispatch_parsed (conn : Z) (command : Command) : M unit :=
  let registered_only m :=
    x ← session conn;
    if Session.is_registered x then m else numeric conn 451 [] (Some (bs "You have not registered")) in
  match command with
  | CmdCap p => cmd_cap conn p
  | CmdAuthenticate p => cmd_authenticate conn p
  | CmdNick p => cmd_nick conn p
  | CmdUser p => cmd_user conn p
  | CmdPass p => cmd_pass conn p
  | CmdRegister p => cmd_register conn p
  | CmdIdentify args => registered_only (nickserv_identify conn args)
  | CmdNickServRegister args => registered_only (nickserv_register conn args)
  | CmdLogout => registered_only (nickserv_logout conn)
  end.

Definition dispatch (conn : Z) (command : Command) : M unit :=
  s ← get;
  if decide (is_Some (sessions s !! conn)) then dispatch_parsed conn command else mret ().

(** [Foreign] operations are other shards' on the shared nick directory;
    [BansSet] and [RegistrationsSet] replace the mirrors those directories
    keep, however operators and services changed them. *)
Inductive Input : Type :=
| Opened (conn : Z) (shown : str) (t : ConnectionTransport)
| Line (conn : Z) (command : Command)
| Verdict (conn : Z) (reply : DbReply)
| AccountAnswered (conn : Z) (reply : AccountReply)
| Closed (conn : Z) (reason : str)
| Tick (now : Z)
| AccountSessionsEnded (account reason actor : str)
| CredentialSessionsEnded (credential : IssuedCredential)
| RefuseVerdictsInFlight
| AccountSuspensionApplied (account : str) (suspended : bool) (reason actor : str)
| Foreign (op : NickOp)
| BansSet (bans : list ServerBan)
| RegistrationsSet (r : NickRegistrations).

Definition handle (i : Input) : M unit :=
  match i with
  | Opened conn shown t => open conn shown t
  | Line conn command => dispatch conn command
  | Verdict conn reply => db_reply conn reply
  | AccountAnswered conn reply => account_reply conn reply
  | Closed conn reason => close conn reason
  | Tick now => expire_logins now;; enforce_nick_protection now
  | AccountSessionsEnded account reason actor => apply_account_sessions_ended account reason actor
  | CredentialSessionsEnded credential => apply_credential_sessions_ended credential
  | RefuseVerdictsInFlight => refuse_verdicts_in_flight
  | AccountSuspensionApplied account suspended reason actor => apply_account_suspension account suspended reason actor
  | Foreign op => modify (fun s => set_nicks (snd (nick_step (nicks s) op)) s)
  | BansSet bans => modify (fun s => MkCore (sessions s) (nicks s) (nick_registrations s) bans (suspended_accounts s)
                              (account_sessions s) (signed_in_credentials s) (credential_epoch s) (credentials_ended s))
  | RegistrationsSet r => modify (fun s => MkCore (sessions s) (nicks s) r (server_bans s) (suspended_accounts s)
                              (account_sessions s) (signed_in_credentials s) (credential_epoch s) (credentials_ended s))
  end.
End Handlers.

Definition Core_new : Core := MkCore ∅ ∅ (MkRegistrations ∅ ∅) [] ∅ ∅ ∅ 0 ∅.

(** A run: each event with what it finds outside the shard. *)
Fixpoint run (c : Config) (ins : list (Env * Input)) : M unit :=
  match ins with [] => mret () | (e, i) :: ins => handle c e i;; run c ins end.
End Core.
