(* ===== verification/HandshakeSafety.v ===== *)
(** * Registration and authentication: what always holds

    The invariant of [Handshake]'s state, that no handler panics, and what the
    handlers do to one connection: it is welcomed at most once and only through
    the gate, spends its credential attempts, has one check in flight, and is
    logged in only by a verdict. *)

From stdpp Require Import gmap.
From S2P Require Import Prelude Str Num Casemap Mask Wire Keys Ip Address BanMask Message Sanitize Proxy Sasl HistoryRequest Middle Session Nicks Channel ChannelState Directories Multimap Users Events Multiline ModeChange ChannelOps Cap Identity Handshake.

Local Open Scope Z_scope.

(** ** What was sent *)

(** The effects with those under a label laid out. *)
Fixpoint flat (x : Effect) : list Effect :=
  match x with Labelled _ _ inner => flat_map flat inner | x => [x] end.

Definition is_welcome (conn : Z) (x : Effect) : bool :=
  match x with Numeric k code _ _ => (k =? conn) && (code =? 1) | _ => false end.
Definition is_check (conn : Z) (x : Effect) : bool :=
  match x with Push (VerifyPassword k _ _ _) | Push (VerifyToken k _ _) => k =? conn | _ => false end.

Definition count (f : Effect -> bool) (out : list Effect) : nat := length (List.filter f (flat_map flat out)).
Definition welcomes (conn : Z) (out : list Effect) : nat := count (is_welcome conn) out.
Definition checks (conn : Z) (out : list Effect) : nat := count (is_check conn) out.

Lemma count_app f out out' : count f (out ++ out') = (count f out + count f out')%nat.
Proof. unfold count. by rewrite flat_map_app, List.filter_app, length_app. Qed.

Lemma welcomes_app conn out out' : welcomes conn (out ++ out') = (welcomes conn out + welcomes conn out')%nat.
Proof. apply count_app. Qed.
Lemma checks_app conn out out' : checks conn (out ++ out') = (checks conn out + checks conn out')%nat.
Proof. apply count_app. Qed.

(** Nobody is welcomed and nothing is checked. *)
Definition quiet (out : list Effect) : Prop := forall k, welcomes k out = 0%nat /\ checks k out = 0%nat.

Lemma quiet_nil : quiet [].
Proof. done. Qed.

Lemma quiet_app out out' : quiet out -> quiet out' -> quiet (out ++ out').
Proof. intros H1 H2 k. rewrite welcomes_app, checks_app. destruct (H1 k) as [-> ->], (H2 k) as [-> ->]. done. Qed.

Lemma quiet_labelled conn label out : quiet out -> quiet [Labelled conn label out].
Proof. intros Hq k. destruct (Hq k) as [Hw Hc]. unfold welcomes, checks, count in *. cbn [flat_map flat]. by rewrite app_nil_r. Qed.

Lemma quiet_numeric conn code middles trailing : (code =? 1) = false -> quiet [Numeric conn code middles trailing].
Proof. intros Hc k. unfold welcomes, checks, count. cbn. by rewrite Hc, andb_false_r. Qed.

Ltac quiet := first [done | apply quiet_numeric; reflexivity | apply quiet_app; quiet | assumption].

Section Safety.
Context `{IpNet} (c : Config).

Lemma session_run k s x : sessions s !! k = Some x -> session k s = Some (x, s, []).
Proof. intros Hx. unfold session, mbind, M_bind, get. by rewrite Hx. Qed.

(** ** The invariant *)

Definition mine (conn : Z) : Prop := shard_for (shards c) conn = shard c.

Record session_ok (epoch : Z) (x : Session) : Prop := {
  ok_attempts : 0 <= credential_attempts (rest x) <= LIMIT;
  ok_verifying : sasl (rest x) = Verifying -> is_Some (sasl_verify (rest x));
  ok_single : sasl_verify (rest x) = None \/ pending_identify (rest x) = None;
  ok_buf : (length (sasl_buf (rest x)) <= MAX_AUTHENTICATE_PAYLOAD_LEN)%nat;
  ok_held : is_Some (enf_held (nick_enforcement (rest x))) -> Session.is_registered x = true;
  ok_epoch : 0 <= verify_epoch (rest x) <= epoch;
}.

Definition signed_in_by (i : IssuedCredential) (x : Session) : bool :=
  match signed_in_with x with Some (Issued j) => bool_decide (j = i) | _ => false end.

Definition held_count (n : Z) : option Z := if n =? 0 then None else Some n.

Record inv (s : Core) : Prop := {
  inv_mine : forall conn x, sessions s !! conn = Some x -> mine conn;
  inv_nick : forall conn x n, sessions s !! conn = Some x -> Session.nick x = Some n ->
    nicks s !! nick_key c n = Some (MkReservation (MkOwner conn (shard c)) (Session.is_registered x));
  inv_reserved : forall key r, nicks s !! key = Some r -> mine (owner_conn (res_owner r)) ->
    exists x n, sessions s !! owner_conn (res_owner r) = Some x /\ Session.nick x = Some n /\ nick_key c n = key;
  inv_index : forall key conn, mm_in key conn (account_sessions s) <->
    exists x, sessions s !! conn = Some x /\ account_key c <$> account x = Some key;
  inv_index_ok : mm_ok (account_sessions s);
  inv_credentials : forall i, signed_in_credentials s !! i = held_count (how_many (signed_in_by i) (sessions s));
  inv_sessions : forall conn x, sessions s !! conn = Some x -> session_ok (credential_epoch s) x;
}.

Lemma inv_session s conn x x' :
  inv s -> sessions s !! conn = Some x -> Session.nick x' = Session.nick x -> Session.is_registered x' = Session.is_registered x ->
  login (rest x') = login (rest x) -> session_ok (credential_epoch s) x' -> inv (set_sessions <[conn := x']> s).
Proof.
  intros [Hm Hn Hr Hi Ho Hc Hs] Hx En Er El Hok.
  assert (Hcase : forall k y, sessions (set_sessions <[conn := x']> s) !! k = Some y ->
            (k = conn /\ y = x') \/ (k <> conn /\ sessions s !! k = Some y)).
  { intros k y. cbn. destruct (decide (k = conn)) as [->|Hk]; [rewrite lookup_insert_eq; naive_solver|rewrite lookup_insert_ne by done; auto]. }
  split; cbn [nicks account_sessions signed_in_credentials credential_epoch set_sessions].
  - intros k y [[-> ->]|[_ Hy]]%Hcase; eauto.
  - intros k y n [[-> ->]|[_ Hy]]%Hcase Hny; [|by eapply Hn]. rewrite Er. apply Hn; [done|]. by rewrite <- En.
  - intros key r Hk Hmine. destruct (Hr key r Hk Hmine) as (y & n & Hy & Hny & Hkey). cbn.
    destruct (decide (owner_conn (res_owner r) = conn)) as [E|Hne].
    + rewrite E in *. rewrite lookup_insert_eq. exists x', n. split; [done|]. split; [|done]. rewrite En. congruence.
    + rewrite lookup_insert_ne by done. by exists y, n.
  - intros key k. rewrite Hi. cbn. destruct (decide (k = conn)) as [->|Hk]; [|by rewrite lookup_insert_ne by done].
    rewrite Hx, lookup_insert_eq. unfold account. split; intros (y & [= <-] & Hy); eexists; (split; [done|]); by rewrite ?El in *.
  - done.
  - intros i. rewrite Hc. f_equal. cbn [sessions set_sessions]. rewrite (how_many_replace _ _ _ _ _ Hx).
    assert (E : signed_in_by i x' = signed_in_by i x) by (unfold signed_in_by, signed_in_with; by rewrite El). rewrite E. lia.
  - intros k y [[-> ->]|[_ Hy]]%Hcase; [done|eauto].
Qed.

(** ** Credentials held *)

Definition presents (i : IssuedCredential) (l : option Login) : bool :=
  match login_credential <$> l with Some (Issued j) => bool_decide (j = i) | _ => false end.

Lemma release_counts (m : SignedInCredentials) (f : IssuedCredential -> Z) l :
  (forall i, m !! i = held_count (f i)) -> (forall i, from_bool (presents i (Some l)) <= f i) ->
  exists held, credential_release (login_credential l) m = Some held
    /\ forall i, held !! i = held_count (f i - from_bool (presents i (Some l))).
Proof.
  intros Hm Hf. unfold credential_release, presents in *. cbn in *. destruct (login_credential l) as [|j].
  { exists m. split; [done|]. intros i. rewrite Hm. cbn. by rewrite Z.sub_0_r. }
  specialize (Hf j) as Hj. rewrite bool_decide_true in Hj by done. cbn in Hj. rewrite Hm. unfold held_count at 1.
  destruct (Z.eqb_spec (f j) 0) as [|Hne]; [lia|]. eexists. split; [done|]. intros i.
  destruct (decide (j = i)) as [<-|Hji].
  - rewrite bool_decide_true by done. cbn. unfold held_count. destruct (f j - 1 =? 0); [apply lookup_delete_eq|apply lookup_insert_eq].
  - rewrite bool_decide_false by done. cbn. rewrite Z.sub_0_r, <- Hm. destruct (f j - 1 =? 0); [by apply lookup_delete_ne|by apply lookup_insert_ne].
Qed.

Lemma hold_counts (m : SignedInCredentials) (f : IssuedCredential -> Z) l :
  (forall i, m !! i = held_count (f i)) -> (forall i, 0 <= f i) ->
  forall i, credential_hold (login_credential l) m !! i = held_count (f i + from_bool (presents i (Some l))).
Proof.
  intros Hm Hf i. unfold credential_hold, presents. cbn. destruct (login_credential l) as [|j]; [by rewrite Hm; cbn; rewrite Z.add_0_r|].
  destruct (decide (j = i)) as [<-|Hji].
  - rewrite lookup_insert_eq, Hm, bool_decide_true by done. cbn. specialize (Hf j). unfold held_count.
    destruct (Z.eqb_spec (f j) 0) as [E|], (Z.eqb_spec (f j + 1) 0); cbn; (lia || rewrite ?E; done).
  - by rewrite lookup_insert_ne, Hm, bool_decide_false, Z.add_0_r by done.
Qed.

Lemma signed_in_presents i x : signed_in_by i x = presents i (login (rest x)).
Proof. done. Qed.

Lemma presents_counted s conn x i :
  sessions s !! conn = Some x -> from_bool (presents i (login (rest x))) <= how_many (signed_in_by i) (sessions s).
Proof.
  intros Hx. rewrite (how_many_delete (signed_in_by i) conn x _ Hx), signed_in_presents.
  pose proof (how_many_nonneg (signed_in_by i) (delete conn (sessions s))). lia.
Qed.

(** ** A session that is gone *)

Record gone (conn : Z) (x : Session) (s s' : Core) : Prop := {
  gone_sessions : sessions s' = delete conn (sessions s);
  gone_nicks : nicks s' = match Session.nick x with Some n => delete (nick_key c n) (nicks s) | None => nicks s end;
  gone_index : account_sessions s' = match login (rest x) with
                                     | Some l => mm_remove (account_key c (login_account l)) conn (account_sessions s)
                                     | None => account_sessions s
                                     end;
  gone_credentials : forall i, signed_in_credentials s' !! i
    = held_count (how_many (signed_in_by i) (sessions s) - from_bool (presents i (login (rest x))));
  gone_epoch : credential_epoch s' = credential_epoch s;
}.

Lemma inv_gone conn x s s' : inv s -> sessions s !! conn = Some x -> gone conn x s s' -> inv s'.
Proof.
  intros [Hm Hn Hr Hi Ho Hc Hs] Hx [Es En Ei Ec Ee].
  assert (Hcase : forall k y, sessions s' !! k = Some y -> k <> conn /\ sessions s !! k = Some y).
  { intros k y. rewrite Es. by intros [? ?]%lookup_delete_Some. }
  split.
  - intros k y [_ Hy]%Hcase; eauto.
  - intros k y n [Hk Hy]%Hcase Hny. rewrite En. specialize (Hn _ _ _ Hy Hny) as Hkey.
    destruct (Session.nick x) as [nx|] eqn:Enx; [|done]. specialize (Hn _ _ _ Hx Enx).
    rewrite lookup_delete_ne; [done|]. intros E. rewrite E in Hn. congruence.
  - intros key r Hk Hmine.
    assert (Hold : nicks s !! key = Some r /\ forall nx, Session.nick x = Some nx -> nick_key c nx <> key).
    { rewrite En in Hk. destruct (Session.nick x) as [nx|]; [|naive_solver]. apply lookup_delete_Some in Hk as [? ?]. naive_solver. }
    destruct Hold as [Hold Hne]. destruct (Hr key r Hold Hmine) as (y & n & Hy & Hny & Hkey). exists y, n. rewrite Es.
    destruct (decide (conn = owner_conn (res_owner r))) as [E|]; [|by rewrite lookup_delete_ne].
    rewrite <- E, Hx in Hy. injection Hy as <-. by destruct (Hne n Hny).
  - intros key k. rewrite Es. transitivity (mm_in key k (account_sessions s) /\ k <> conn).
    + rewrite Ei. destruct (login (rest x)) as [l|] eqn:El.
      * rewrite mm_in_remove. split; [|naive_solver]. intros [Hin Hnot]. split; [done|]. intros ->. apply Hnot. split; [|done].
        apply Hi in Hin as (y & Hy & Hacc). rewrite Hx in Hy. injection Hy as <-. unfold account in Hacc. rewrite El in Hacc. cbn in Hacc. congruence.
      * split; [|naive_solver]. intros Hin. split; [done|]. intros ->. apply Hi in Hin as (y & Hy & Hacc). rewrite Hx in Hy.
        injection Hy as <-. unfold account in Hacc. by rewrite El in Hacc.
    + rewrite Hi. split.
      * intros [(y & Hy & ?) Hk]. exists y. by rewrite lookup_delete_ne.
      * intros (y & [Hk Hy]%lookup_delete_Some & ?). split; [by exists y|done].
  - rewrite Ei. destruct (login (rest x)); [by apply mm_ok_remove|done].
  - intros i. rewrite Ec. f_equal. rewrite Es, (how_many_delete (signed_in_by i) conn x _ Hx), signed_in_presents. lia.
  - intros k y [_ Hy]%Hcase. rewrite Ee. eauto.
Qed.

Lemma forget_login_run l conn s held :
  credential_release (login_credential l) (signed_in_credentials s) = Some held ->
  mm_in (account_key c (login_account l)) conn (account_sessions s) ->
  forget_login c l conn s = Some ((), set_logins (mm_remove (account_key c (login_account l)) conn (account_sessions s)) held s, []).
Proof.
  intros Hh Hin. unfold forget_login, mbind, M_bind, get. rewrite Hh. cbn [expect mret M_ret].
  unfold mm_in in Hin. destruct (account_sessions s !! account_key c (login_account l)) as [conns|] eqn:Ec; [|set_solver].
  cbn [expect mret M_ret default] in *. rewrite decide_True by done. done.
Qed.

(** What closing a session leaves behind, whatever is sent on the way. *)
Record same_settings (s s' : Core) : Prop := {
  ss_epoch : credential_epoch s' = credential_epoch s;
  ss_ended : credentials_ended s' = credentials_ended s;
  ss_bans : server_bans s' = server_bans s;
  ss_registrations : nick_registrations s' = nick_registrations s;
  ss_suspended : suspended_accounts s' = suspended_accounts s;
}.

Lemma close_run conn reason s x :
  inv s -> sessions s !! conn = Some x ->
  exists s' out, close c conn reason s = Some ((), s', out) /\ gone conn x s s' /\ same_settings s s' /\ quiet out.
Proof.
  intros [Hm Hn Hr Hi Ho Hc Hs] Hx.
  assert (Hforget : forall s1, signed_in_credentials s1 = signed_in_credentials s -> account_sessions s1 = account_sessions s ->
    exists held, match login (rest x) with Some l => forget_login c l conn | None => mret () end s1
       = Some ((), set_logins match login (rest x) with
                              | Some l => mm_remove (account_key c (login_account l)) conn (account_sessions s)
                              | None => account_sessions s end held s1, [])
      /\ forall i, held !! i = held_count (how_many (signed_in_by i) (sessions s) - from_bool (presents i (login (rest x))))).
  { intros s1 E1 E2. destruct (login (rest x)) as [l|] eqn:El.
    - destruct (release_counts (signed_in_credentials s) (fun i => how_many (signed_in_by i) (sessions s)) l Hc) as (held & Hh & Hcount).
      { intros i. rewrite <- El. by apply (presents_counted s conn). }
      exists held. split; [|done]. rewrite <- E2. apply forget_login_run; [by rewrite E1|]. rewrite E2. apply Hi. exists x. split; [done|].
      unfold account. by rewrite El.
    - exists (signed_in_credentials s). split; [|intros i; rewrite Hc; cbn; by rewrite Z.sub_0_r]. rewrite <- E1, <- E2. by destruct s1. }
  assert (Hnick : forall n, Session.nick x = Some n -> forall d, d = nicks s -> snd (release_if_owned (nick_key c n) conn d) = delete (nick_key c n) (nicks s)).
  { intros n En d ->. unfold release_if_owned. rewrite (Hn _ _ _ Hx En). cbn. by rewrite Z.eqb_refl. }
  destruct (Hforget (set_sessions (delete conn) s) eq_refl eq_refl) as (held & Hf & Hcount). clear Hforget.
  unfold close, mbind, M_bind, get. rewrite Hx.
  assert (Hpre : exists out, (if Session.is_registered x
      then emit (RecordWhowas conn);; prefix ← expect (prefix x); emit (QuitLine conn ((bs ":" ++ prefix ++ bs " QUIT :") ++ fit_trailing (bs ":" ++ prefix ++ bs " QUIT :") reason))
      else mret ()) s = Some ((), s, out) /\ quiet out).
  { destruct (Session.is_registered x) eqn:Er; [|by eexists].
    destruct (prefix x) as [pre|] eqn:Ep; [|unfold prefix, Session.is_registered in *; by destruct (reg x)]. by eexists. }
  destruct Hpre as (out & Hpre & Hq). unfold mbind, M_bind in Hpre. rewrite Hpre. cbn [modify]. rewrite Hf.
  destruct (Session.nick x) as [n|] eqn:En.
  - destruct (login (rest x)) as [l|] eqn:El, (Session.is_registered x); eexists _, _; (split; [reflexivity|]); cbn [app];
      (split; [|split; [done|by apply quiet_app]]); (split; cbn; try done; [by rewrite En; apply Hnick|by rewrite El|by rewrite El]).
  - eexists _, _. split; [reflexivity|]. split; [|split; [done|]].
    + split; cbn; try done. by rewrite En.
    + cbn [app]. rewrite ?app_nil_r. done.
Qed.

(** ** A session that logs in or out *)

Record relogged (conn : Z) (x : Session) (l : option Login) (s s' : Core) : Prop := {
  re_session : exists x', sessions s' = <[conn := x']> (sessions s) /\ reg x' = reg x /\ login (rest x') = l /\ host x' = host x
    /\ transport (rest x') = transport (rest x) /\ real_ip (rest x') = real_ip (rest x)
    /\ cap_negotiating (rest x') = cap_negotiating (rest x) /\ credential_attempts (rest x') = credential_attempts (rest x)
    /\ verification_in_flight (rest x') = verification_in_flight (rest x) /\ verify_epoch (rest x') = verify_epoch (rest x)
    /\ (session_ok (credential_epoch s) x -> session_ok (credential_epoch s) x') /\ sasl (rest x') = sasl (rest x);
  re_nicks : nicks s' = nicks s;
  re_index : forall key k, mm_in key k (account_sessions s') <->
    (k <> conn /\ mm_in key k (account_sessions s)) \/ (k = conn /\ (account_key c ∘ login_account) <$> l = Some key);
  re_index_ok : mm_ok (account_sessions s');
  re_credentials : forall i, signed_in_credentials s' !! i
    = held_count (how_many (signed_in_by i) (sessions s) - from_bool (presents i (login (rest x))) + from_bool (presents i l));
  re_settings : same_settings s s';
}.

Lemma inv_relogged conn x l s s' : inv s -> sessions s !! conn = Some x -> relogged conn x l s s' -> inv s'.
Proof.
  intros [Hm Hn Hr Hi Ho Hc Hs] Hx [(x' & Es & Ereg & El & _ & _ & _ & _ & _ & _ & _ & Hok & _) En Ei Eo Ec [Ee _ _ _ _]].
  assert (Hcase : forall k y, sessions s' !! k = Some y -> (k = conn /\ y = x') \/ (k <> conn /\ sessions s !! k = Some y)).
  { intros k y. rewrite Es. destruct (decide (k = conn)) as [->|Hk]; [rewrite lookup_insert_eq; naive_solver|rewrite lookup_insert_ne by done; auto]. }
  assert (Enick : Session.nick x' = Session.nick x) by (unfold Session.nick; by rewrite Ereg).
  assert (Eregd : Session.is_registered x' = Session.is_registered x) by (unfold Session.is_registered; by rewrite Ereg).
  split.
  - intros k y [[-> ->]|[_ Hy]]%Hcase; eauto.
  - intros k y n [[-> ->]|[_ Hy]]%Hcase Hny; rewrite En; [|by eapply Hn]. rewrite Eregd. apply Hn; [done|]. by rewrite <- Enick.
  - intros key r Hk Hmine. rewrite En in Hk. destruct (Hr key r Hk Hmine) as (y & n & Hy & Hny & Hkey). rewrite Es.
    destruct (decide (owner_conn (res_owner r) = conn)) as [E|Hne].
    + rewrite E in *. rewrite lookup_insert_eq. exists x', n. split; [done|]. split; [|done]. rewrite Enick. congruence.
    + rewrite lookup_insert_ne by done. by exists y, n.
  - intros key k. rewrite Ei, Es, Hi. destruct (decide (k = conn)) as [->|Hk].
    + rewrite lookup_insert_eq. unfold account. split.
      * intros [[? _]|[_ Hl]]; [done|]. exists x'. split; [done|]. rewrite El. by destruct l.
      * intros (y & [= <-] & Hy). right. split; [done|]. rewrite El in Hy. by destruct l.
    + rewrite lookup_insert_ne by done. naive_solver.
  - done.
  - intros i. rewrite Ec. f_equal. rewrite Es, (how_many_replace _ _ _ _ _ Hx), !signed_in_presents, El. done.
  - intros k y [[-> ->]|[_ Hy]]%Hcase; rewrite Ee; eauto.
Qed.

Lemma settle_held n en : is_Some (enf_held (settle n en)) -> is_Some (enf_held en).
Proof. unfold settle. cbn. by case_bool_decide; [intros [? ?]|]. Qed.

Lemma settle_all_held ns en : is_Some (enf_held (foldl (fun en n => settle n en) en ns)) -> is_Some (enf_held en).
Proof. revert en. induction ns as [|n ns IH]; intros en; [done|]. cbn. intros Hh%IH. by eapply settle_held. Qed.

Lemma set_account_run e conn account credential expires_in s x :
  inv s -> sessions s !! conn = Some x ->
  exists l s' out, set_account c e conn account credential expires_in s = Some ((), s', out) /\ login_account l = account
    /\ login_credential l = credential /\ relogged conn x (Some l) s s' /\ quiet out.
Proof.
  intros Hinv Hx. destruct Hinv as [Hm Hn Hr Hi Ho Hc Hs].
  set (l := MkLogin account credential ((fun remaining => saturating_add (mono_clock e) (Z.min U64_MAX remaining)) <$> expires_in)).
  set (s1 := set_sessions <[conn := with_rest (set_login (Some l)) x]> s).
  assert (Hforget : exists index held,
    match login (rest x) with Some l => forget_login c l conn | None => mret () end s1 = Some ((), set_logins index held s1, [])
    /\ (forall key k, mm_in key k index <-> k <> conn /\ mm_in key k (account_sessions s)) /\ mm_ok index
    /\ forall i, held !! i = held_count (how_many (signed_in_by i) (sessions s) - from_bool (presents i (login (rest x))))).
  { destruct (login (rest x)) as [l0|] eqn:El.
    - destruct (release_counts (signed_in_credentials s) (fun i => how_many (signed_in_by i) (sessions s)) l0 Hc) as (held & Hh & Hcount).
      { intros i. rewrite <- El. by apply (presents_counted s conn). }
      eexists _, held. split; [apply (forget_login_run l0 conn s1 held); [done|]|].
      { apply Hi. exists x. split; [done|]. unfold Handshake.account. by rewrite El. }
      split; [|split; [by apply mm_ok_remove|done]]. intros key k. cbn [s1 account_sessions set_sessions]. rewrite mm_in_remove.
      split; [|naive_solver]. intros [Hin Hnot]. split; [|done]. intros ->. apply Hnot. split; [|done].
      apply Hi in Hin as (y & Hy & Hacc). rewrite Hx in Hy. injection Hy as <-. unfold Handshake.account in Hacc. rewrite El in Hacc. cbn in Hacc. congruence.
    - exists (account_sessions s), (signed_in_credentials s). split; [by destruct s|]. split; [|split; [done|intros i; rewrite Hc; cbn; by rewrite Z.sub_0_r]].
      intros key k. split; [|naive_solver]. intros Hin. split; [|done]. intros ->. apply Hi in Hin as (y & Hy & Hacc). rewrite Hx in Hy.
      injection Hy as <-. unfold Handshake.account in Hacc. by rewrite El in Hacc. }
  destruct Hforget as (index & held & Hf & Hindex & Hiok & Hheld).
  assert (Hrel : exists out, quiet out /\ forall s2, match match login (rest x) with None => Session.nick x | Some _ => None end with
      Some nick => release_unauthenticated_identity c nick | None => mret () end s2 = Some ((), s2, out)).
  { destruct (login (rest x)); [by exists []|]. destruct (Session.nick x) as [n|]; [|by exists []].
    by exists [IdentityReleased (bs "~" ++ casefold (casemap c) n)]. }
  exists l. unfold set_account, mbind, M_bind. rewrite (session_run conn s x Hx). cbn [app].
  unfold on_handshake at 1, on_session at 1, mbind, M_bind. rewrite (session_run conn s x Hx). cbn [app modify]. fold l. fold s1.
  rewrite Hf. cbn [numeric emit app get].
  unfold on_handshake, on_session, mbind, M_bind.
  rewrite (session_run conn _ (with_rest (set_login (Some l)) x)) by (cbn; apply lookup_insert_eq). cbn [app modify].
  destruct Hrel as (out & Hq & Hrel). rewrite Hrel. eexists _, _. split; [reflexivity|]. split; [done|]. split; [done|]. split.
  - split.
    + eexists. split; [cbn; by rewrite insert_insert_eq|]. split_and!; try done.
      intros [? ? ? ? Hh ?]. split; try done. intros Hen. apply Hh. exact (settle_all_held _ _ Hen).
    + done.
    + intros key k. cbn. rewrite mm_in_insert, Hindex. naive_solver.
    + by apply mm_ok_insert.
    + intros i. cbn. apply (hold_counts held (fun i => how_many (signed_in_by i) (sessions s) - from_bool (presents i (login (rest x)))) l Hheld).
      intros k. pose proof (presents_counted s conn x k Hx). lia.
    + done.
  - cbn [app]. change (quiet ([Numeric conn 900 [Middle_own (login_mask x); Middle_own account] (Some (bs "You are now logged in as " ++ account))] ++ out)).
    quiet.
Qed.

Lemma clear_account_run conn s x l :
  inv s -> sessions s !! conn = Some x -> login (rest x) = Some l ->
  exists s' out, clear_account c conn s = Some ((), s', out) /\ relogged conn x None s s' /\ quiet out
    /\ sessions s' = <[conn := with_rest (set_login None) x]> (sessions s).
Proof.
  intros [Hm Hn Hr Hi Ho Hc Hs] Hx El. set (s1 := set_sessions <[conn := with_rest (set_login None) x]> s).
  destruct (release_counts (signed_in_credentials s) (fun i => how_many (signed_in_by i) (sessions s)) l Hc) as (held & Hh & Hcount).
  { intros i. rewrite <- El. by apply (presents_counted s conn). }
  assert (Hmem : mm_in (account_key c (login_account l)) conn (account_sessions s)).
  { apply Hi. exists x. split; [done|]. unfold account. by rewrite El. }
  assert (Hf : forget_login c l conn s1 = Some ((), set_logins (mm_remove (account_key c (login_account l)) conn (account_sessions s)) held s1, []))
    by (by apply (forget_login_run l conn s1 held)).
  unfold clear_account, mbind, M_bind. rewrite (session_run conn s x Hx), El. cbn [app].
  unfold on_handshake, on_session, mbind, M_bind. rewrite (session_run conn s x Hx). cbn [app modify]. fold s1. rewrite Hf.
  eexists _, _. split; [reflexivity|]. split; [|by split; [cbn [app]; quiet|]]. split.
  - eexists. split; [reflexivity|]. split_and!; try done. by intros [].
  - done.
  - intros key k. cbn. rewrite mm_in_remove. split; [|naive_solver]. intros [Hin Hnot]. left. split; [|done]. intros ->. apply Hnot. split; [|done].
    apply Hi in Hin as (y & Hy & Hacc). rewrite Hx in Hy. injection Hy as <-. unfold account in Hacc. rewrite El in Hacc. cbn in Hacc. congruence.
  - by apply mm_ok_remove.
  - intros i. cbn. rewrite Hcount, El. change (presents i None) with false. cbn [from_bool]. by rewrite Z.add_0_r.
  - done.
Qed.

(** ** A session that takes a nick *)

Lemma claim_nick_run key conn s x :
  sessions s !! conn = Some x ->
  claim_nick c key conn s
  = Some (fst (claim key (MkOwner conn (shard c)) (Session.is_registered x) (nicks s)),
          set_nicks (snd (claim key (MkOwner conn (shard c)) (Session.is_registered x) (nicks s))) s, []).
Proof.
  intros Hx. unfold claim_nick, mbind, M_bind. rewrite (session_run conn s x Hx). cbn [get app].
  by destruct (claim key (MkOwner conn (shard c)) (Session.is_registered x) (nicks s)).
Qed.

(** The directory and the session after a claim that succeeded. *)
Definition renamed (conn : Z) (x : Session) (nick : str) (s : Core) : Core :=
  let taken := <[nick_key c nick := MkReservation (MkOwner conn (shard c)) (Session.is_registered x)]> (nicks s) in
  set_nicks match nick_key c <$> Session.nick x with
            | Some old => if str_eqb old (nick_key c nick) then taken else delete old taken
            | None => taken
            end (set_sessions <[conn := Session.set_nick nick x]> s).

Lemma set_nick_nick nick (x : Session) : Session.nick (Session.set_nick nick x) = Some nick.
Proof. unfold Session.nick, Session.set_nick. by destruct x as [[] ? ? ? ?]. Qed.

Lemma inv_renamed conn x nick s :
  inv s -> sessions s !! conn = Some x ->
  (forall r, nicks s !! nick_key c nick = Some r -> owner_conn (res_owner r) = conn) -> inv (renamed conn x nick s).
Proof.
  intros [Hm Hn Hr Hi Ho Hc Hs] Hx Hfree. set (x' := Session.set_nick nick x). set (key := nick_key c nick).
  assert (Hcase : forall k y, sessions (renamed conn x nick s) !! k = Some y -> (k = conn /\ y = x') \/ (k <> conn /\ sessions s !! k = Some y)).
  { intros k y. cbn. destruct (decide (k = conn)) as [->|Hk]; [rewrite lookup_insert_eq; naive_solver|rewrite lookup_insert_ne by done; auto]. }
  assert (Hnicks : forall k, nicks (renamed conn x nick s) !! k
    = if decide (k = key) then Some (MkReservation (MkOwner conn (shard c)) (Session.is_registered x))
      else if decide (nick_key c <$> Session.nick x = Some k) then None else nicks s !! k).
  { intros k. cbn. fold key. destruct (nick_key c <$> Session.nick x) as [old|] eqn:Eold.
    - unfold str_eqb. destruct (bool_decide_reflect (old = key)) as [->|Hne]; destruct (decide (k = key)) as [->|Hk];
        [by rewrite lookup_insert_eq|..|].
      + rewrite lookup_insert_ne by done. destruct (decide (Some key = Some k)); [congruence|done].
      + by rewrite lookup_delete_ne, lookup_insert_eq by done.
      + destruct (decide (Some old = Some k)) as [E|E]; [injection E as ->; apply lookup_delete_eq|].
        rewrite lookup_delete_ne, lookup_insert_ne by congruence. done.
    - destruct (decide (k = key)) as [->|Hk]; [by rewrite lookup_insert_eq|]. rewrite lookup_insert_ne by done. by destruct (decide (None = Some k)). }
  split.
  - intros k y [[-> ->]|[_ Hy]]%Hcase; eauto.
  - intros k y n Hy Hny. rewrite Hnicks. apply Hcase in Hy as [[-> ->]|[Hk Hy]].
    + unfold x' in Hny. rewrite set_nick_nick in Hny. injection Hny as <-. rewrite decide_True by done. unfold x'. by rewrite set_nick_registered.
    + specialize (Hn _ _ _ Hy Hny) as Hkn. destruct (decide (nick_key c n = key)) as [E|_].
      { rewrite E in Hkn. specialize (Hfree _ Hkn). cbn in Hfree. congruence. }
      destruct (decide (nick_key c <$> Session.nick x = Some (nick_key c n))) as [E|_]; [|done].
      destruct (Session.nick x) as [nx|] eqn:Enx; [|done]. cbn in E. injection E as E. specialize (Hn _ _ _ Hx Enx). congruence.
  - intros k r Hk Hmine. rewrite Hnicks in Hk. cbn. destruct (decide (k = key)) as [->|Hkk].
    + injection Hk as <-. cbn. rewrite lookup_insert_eq. exists x', nick. split; [done|]. split; [apply set_nick_nick|done].
    + destruct (decide (nick_key c <$> Session.nick x = Some k)) as [|Hold]; [done|].
      destruct (Hr k r Hk Hmine) as (y & n & Hy & Hny & Hkey). destruct (decide (owner_conn (res_owner r) = conn)) as [E|Hne].
      * rewrite E, Hx in Hy. injection Hy as <-. rewrite Hny in Hold. cbn in Hold. congruence.
      * rewrite lookup_insert_ne by done. by exists y, n.
  - intros key' k. cbn. rewrite Hi. destruct (decide (k = conn)) as [->|Hk]; [|by rewrite lookup_insert_ne by done].
    rewrite Hx, lookup_insert_eq. split; intros (y & [= <-] & Hy); eexists; (split; [done|done]).
  - done.
  - intros i. cbn. rewrite Hc. f_equal. rewrite (how_many_replace _ _ _ _ _ Hx).
    assert (E : signed_in_by i (Session.set_nick nick x) = signed_in_by i x) by done. rewrite E. lia.
  - intros k y [[-> ->]|[_ Hy]]%Hcase; [|eauto]. destruct (Hs _ _ Hx). split; try done. unfold x'. by rewrite set_nick_registered.
Qed.

Lemma change_run check complete conn x nick s :
  inv s -> sessions s !! conn = Some x ->
  exists out, quiet out /\
    change_claimed_nick c check complete conn nick (nick_key c nick)
      (set_nicks (<[nick_key c nick := MkReservation (MkOwner conn (shard c)) (Session.is_registered x)]> (nicks s)) s)
    = match (if Session.is_registered x then check else complete) (renamed conn x nick s) with
      | Some (a, s', out') => Some (a, s', out ++ out')
      | None => None
      end.
Proof.
  intros Hi Hx. set (s0 := set_nicks _ s). set (key := nick_key c nick).
  assert (Hrel : match nick_key c <$> Session.nick x with
            | Some old => if str_eqb old key then mret ()
                          else modify (fun s => set_nicks (snd (release_if_owned old conn (nicks s))) s)
            | None => mret () end (set_sessions <[conn := Session.set_nick nick x]> s0)
          = Some ((), renamed conn x nick s, [])).
  { unfold renamed. fold key. destruct (Session.nick x) as [n|] eqn:En; [|done]. cbn [fmap option_fmap option_map].
    unfold str_eqb. destruct (bool_decide_reflect (nick_key c n = key)) as [|Hne]; [done|]. unfold modify. cbn. unfold release_if_owned.
    rewrite lookup_insert_ne by done. rewrite (inv_nick _ Hi _ _ _ Hx En). cbn. by rewrite Z.eqb_refl. }
  unfold change_claimed_nick, mbind, M_bind. rewrite (session_run conn s0 x Hx). cbn [app].
  assert (Hw : exists out, quiet out /\ (if Session.is_registered x && negb (bool_decide (nick_key c <$> Session.nick x = Some key)) then emit (RecordWhowas conn) else mret ()) s0
            = Some ((), s0, out)).
  { destruct (Session.is_registered x && _); [by exists [RecordWhowas conn]|by exists []]. }
  destruct Hw as (out1 & Hq1 & Hw). fold key. rewrite Hw. unfold on_session, mbind, M_bind. rewrite (session_run conn s0 x Hx). cbn [app modify]. rewrite Hrel.
  destruct (Session.is_registered x) eqn:Er.
  - destruct (prefix x) as [pre|] eqn:Ep; [|unfold prefix, Session.is_registered in *; by destruct (reg x)]. cbn [expect mret M_ret emit app].
    set (peers := if bool_decide _ then _ else _).
    assert (Hp : exists out2, quiet out2 /\ forall s2, peers s2 = Some ((), s2, out2)).
    { unfold peers. case_bool_decide; [by exists []|]. destruct (Session.nick x) as [old|]; [|by exists [MonitorNotify nick true]].
      destruct (account x); [by exists [MonitorNotify old false; MonitorNotify nick true]|].
      by exists [IdentityReleased (bs "~" ++ casefold (casemap c) old); MonitorNotify old false; MonitorNotify nick true]. }
    destruct Hp as (out2 & Hq2 & Hp).
    exists (out1 ++ [SendEvent conn (bs ":" ++ pre ++ bs " NICK " ++ nick); SyncMember conn] ++ out2). split; [by apply quiet_app; [|apply quiet_app]|].
    rewrite Hp. destruct (check (renamed conn x nick s)) as [[[a s'] out']|]; [|done]. cbn [app]. rewrite <- app_assoc. done.
  - exists out1. split; [done|]. destruct (complete (renamed conn x nick s)) as [[[a s'] out']|]; done.
Qed.

(** ** A session that completes its registration *)

Definition completed (conn : Z) (x : Session) (key : str) (s : Core) : Core :=
  set_nicks (mark_registered key conn (nicks s)) (set_sessions <[conn := Session.complete_registration x]> s).

Lemma complete_fields (x : Session) n u :
  Session.nick x = Some n -> Session.user x = Some u ->
  let x' := Session.complete_registration x in
  Session.is_registered x' = true /\ Session.nick x' = Some n /\ Session.user x' = Some u /\ default [] (realname x') = default [] (realname x).
Proof. unfold Session.nick, Session.user, Session.complete_registration, realname. destruct x as [[[?|] [?|] ? ?|] ? ? ? ?]; cbn; naive_solver. Qed.

Lemma inv_completed conn x n u s :
  inv s -> sessions s !! conn = Some x -> Session.nick x = Some n -> Session.user x = Some u -> inv (completed conn x (nick_key c n) s).
Proof.
  intros [Hm Hn Hr Hi Ho Hc Hs] Hx En Eu. destruct (complete_fields x n u En Eu) as (Er' & En' & _ & _).
  set (x' := Session.complete_registration x) in *. set (key := nick_key c n).
  assert (Hcase : forall k y, sessions (completed conn x key s) !! k = Some y -> (k = conn /\ y = x') \/ (k <> conn /\ sessions s !! k = Some y)).
  { intros k y. cbn. destruct (decide (k = conn)) as [->|Hk]; [rewrite lookup_insert_eq; naive_solver|rewrite lookup_insert_ne by done; auto]. }
  assert (Hnicks : nicks (completed conn x key s) = <[key := MkReservation (MkOwner conn (shard c)) true]> (nicks s)).
  { cbn. unfold mark_registered. pose proof (Hn _ _ _ Hx En) as E. fold key in E. rewrite E. cbn. by rewrite Z.eqb_refl. }
  split.
  - intros k y [[-> ->]|[_ Hy]]%Hcase; eauto.
  - intros k y m Hy Hny. rewrite Hnicks. apply Hcase in Hy as [[-> ->]|[Hk Hy]].
    + rewrite En' in Hny. injection Hny as <-. by rewrite lookup_insert_eq, Er'.
    + rewrite lookup_insert_ne; [by apply Hn|]. intros E. specialize (Hn _ _ _ Hy Hny) as H1. rewrite <- E in H1. specialize (Hn _ _ _ Hx En) as H2. fold key in H2. congruence.
  - intros k r Hk Hmine. rewrite Hnicks in Hk. cbn. destruct (decide (k = key)) as [->|Hkk].
    + rewrite lookup_insert_eq in Hk. injection Hk as <-. cbn. rewrite lookup_insert_eq. by exists x', n.
    + rewrite lookup_insert_ne in Hk by done. destruct (Hr k r Hk Hmine) as (y & m & Hy & Hny & Hkey).
      destruct (decide (owner_conn (res_owner r) = conn)) as [E|Hne]; [|rewrite lookup_insert_ne by done; by exists y, m].
      rewrite E in *. rewrite Hx in Hy. injection Hy as <-. rewrite lookup_insert_eq. exists x', n. split; [done|]. split; [done|]. congruence.
  - intros key' k. cbn. rewrite Hi. destruct (decide (k = conn)) as [->|Hk]; [|by rewrite lookup_insert_ne by done].
    rewrite Hx, lookup_insert_eq. split; intros (y & [= <-] & Hy); eexists; (split; [done|done]).
  - done.
  - intros i. cbn. rewrite Hc. f_equal. rewrite (how_many_replace _ _ _ _ _ Hx).
    assert (E : signed_in_by i (Session.complete_registration x) = signed_in_by i x) by done. rewrite E. lia.
  - intros k y [[-> ->]|[_ Hy]]%Hcase; [|eauto]. by destruct (Hs _ _ Hx).
Qed.

(** ** What a handler may do to a connection *)

Section Moves.
Context (e : Env) (G : Login -> Prop).

(** What lets a connection register: it ended its negotiation, no ban in force
    names it, and it is logged in where that is required of it. *)
Record gate (s : Core) (x : Session) : Prop := {
  gate_ended : cap_negotiating (rest x) = false;
  gate_ban : ban_match c e (server_ban_subject x) s = None;
  gate_login : is_Some (login (rest x)) \/ transport (rest x) = LocalTransport \/ covers (sasl_requirement c) (real_ip (rest x)) = false;
}.

Record changed (s : Core) (x x' : Session) (w q : nat) : Prop := {
  ch_registered : Session.is_registered x = true ->
    Session.is_registered x' = true /\ Session.user x' = Session.user x /\ realname x' = realname x
    /\ cap_negotiating (rest x') = cap_negotiating (rest x);
  ch_fixed : host x' = host x /\ transport (rest x') = transport (rest x) /\ real_ip (rest x') = real_ip (rest x);
  ch_welcome : w = if Session.is_registered x' && negb (Session.is_registered x) then 1%nat else 0%nat;
  ch_gate : Session.is_registered x = false -> Session.is_registered x' = true -> gate s x';
  ch_attempts : Z.of_nat q <= credential_attempts (rest x') - credential_attempts (rest x);
  ch_flight : verification_in_flight (rest x') = true ->
    (q = 0%nat /\ verification_in_flight (rest x) = true /\ verify_epoch (rest x') = verify_epoch (rest x))
    \/ (q <> 0%nat /\ verify_epoch (rest x') = credential_epoch s);
  ch_login : login (rest x') = login (rest x) \/ exists l, login (rest x') = Some l /\ G l;
}.

Definition moved (s : Core) (o o' : option Session) (w q : nat) : Prop :=
  match o, o' with
  | Some x, Some x' => changed s x x' w q
  | Some x, None => (w <= if Session.is_registered x then 0 else 1)%nat /\ credential_attempts (rest x) + Z.of_nat q <= LIMIT
  | None, None => w = 0%nat /\ q = 0%nat
  | None, Some _ => False
  end.

(** [moves conn s out s']: only [conn] is changed, and only as above. *)
Record moves (conn : Z) (s : Core) (out : list Effect) (s' : Core) : Prop := {
  mv_epoch : credential_epoch s' = credential_epoch s;
  mv_ended : credentials_ended s' = credentials_ended s;
  mv_bans : server_bans s' = server_bans s;
  mv_registrations : nick_registrations s' = nick_registrations s;
  mv_suspended : suspended_accounts s' = suspended_accounts s;
  mv_others : forall k, k <> conn -> sessions s' !! k = sessions s !! k /\ welcomes k out = 0%nat /\ checks k out = 0%nat;
  mv_conn : moved s (sessions s !! conn) (sessions s' !! conn) (welcomes conn out) (checks conn out);
}.

Lemma changed_refl s x : changed s x x 0 0.
Proof. split; [done|done|by destruct (Session.is_registered x)|congruence|lia|by left|by left]. Qed.

Lemma moved_refl s o : moved s o o 0 0.
Proof. destruct o; [apply changed_refl|done]. Qed.

Lemma gate_kept s s' x x' w q :
  server_bans s' = server_bans s -> changed s' x x' w q -> Session.is_registered x = true -> gate s x -> gate s x'.
Proof.
  intros Hb Hc Hr [G1 G2 G3]. destruct (ch_registered _ _ _ _ _ Hc Hr) as (_ & Hu & Hn & Hcap).
  destruct (ch_fixed _ _ _ _ _ Hc) as (Hh & Ht & Hip). split.
  - congruence.
  - rewrite <- G2. unfold server_ban_subject. by rewrite Hh, Hip, Hu, Hn.
  - rewrite Ht, Hip. destruct G3 as [Hl|G3]; [|by right]. left.
    destruct (ch_login _ _ _ _ _ Hc) as [->|(l & -> & _)]; eauto.
Qed.

Lemma gate_same_bans s s' x : server_bans s' = server_bans s -> gate s' x -> gate s x.
Proof. intros Hb [G1 G2 G3]. split; [done| |done]. rewrite <- G2. unfold ban_match. by rewrite Hb. Qed.

Lemma changed_trans s s' x y z w1 q1 w2 q2 :
  server_bans s' = server_bans s -> credential_epoch s' = credential_epoch s ->
  changed s x y w1 q1 -> changed s' y z w2 q2 -> changed s x z (w1 + w2) (q1 + q2).
Proof.
  intros Hb He H1 H2. pose proof (ch_registered _ _ _ _ _ H1) as R1. pose proof (ch_registered _ _ _ _ _ H2) as R2.
  pose proof (ch_fixed _ _ _ _ _ H1) as F1. pose proof (ch_fixed _ _ _ _ _ H2) as F2.
  pose proof (ch_welcome _ _ _ _ _ H1) as W1. pose proof (ch_welcome _ _ _ _ _ H2) as W2. split.
  - intros Hr. destruct (R1 Hr) as (Hy & ? & ? & ?). destruct (R2 Hy) as (? & ? & ? & ?). split_and!; congruence.
  - destruct F1 as (? & ? & ?), F2 as (? & ? & ?). split_and!; congruence.
  - subst w1 w2. destruct (Session.is_registered x), (Session.is_registered y), (Session.is_registered z);
      cbn; try done; try (destruct R1; done); destruct R2; done.
  - intros Hx Hz. destruct (Session.is_registered y) eqn:Hy.
    + eapply gate_kept; [exact Hb|exact H2|done|]. by apply H1.
    + apply (gate_same_bans s s'); [done|]. by apply H2.
  - pose proof (ch_attempts _ _ _ _ _ H1). pose proof (ch_attempts _ _ _ _ _ H2). lia.
  - intros Hf. destruct (ch_flight _ _ _ _ _ H2 Hf) as [(-> & Hfy & Ev)|[Hq Ev]].
    + destruct (ch_flight _ _ _ _ _ H1 Hfy) as [(-> & ? & ?)|[? ?]]; [left|right]; split_and?; try done; try congruence; lia.
    + right. split; [lia|congruence].
  - destruct (ch_login _ _ _ _ _ H2) as [->|?]; [|by right]. by apply H1.
Qed.

Lemma moved_trans s s' o1 o2 o3 w1 q1 w2 q2 :
  server_bans s' = server_bans s -> credential_epoch s' = credential_epoch s ->
  moved s o1 o2 w1 q1 -> moved s' o2 o3 w2 q2 -> moved s o1 o3 (w1 + w2) (q1 + q2).
Proof.
  intros Hb He. unfold moved. destruct o1 as [x|], o2 as [y|], o3 as [z|]; try done; try lia.
  - by apply changed_trans.
  - intros C1 [Hw2 ?]. pose proof (ch_attempts _ _ _ _ _ C1). pose proof (ch_welcome _ _ _ _ _ C1) as Hw. pose proof (ch_registered _ _ _ _ _ C1) as Hr.
    split; [|lia]. destruct (Session.is_registered x) eqn:Ex.
    + destruct Hr as [Hy _]; [done|]. rewrite Hy in *. cbn in Hw. lia.
    + destruct (Session.is_registered y); cbn in Hw; lia.
Qed.

Lemma moves_trans conn s out s' out' s'' : moves conn s out s' -> moves conn s' out' s'' -> moves conn s (out ++ out') s''.
Proof.
  intros [E1 D1 B1 N1 S1 O1 C1] [E2 D2 B2 N2 S2 O2 C2]. split; [congruence..| |].
  - intros k Hk. destruct (O1 k Hk) as (? & ? & ?), (O2 k Hk) as (? & ? & ?). rewrite welcomes_app, checks_app. split_and!; [congruence|lia..].
  - rewrite welcomes_app, checks_app. by eapply moved_trans.
Qed.

Lemma moves_quiet conn s out s' :
  credential_epoch s' = credential_epoch s -> credentials_ended s' = credentials_ended s -> server_bans s' = server_bans s ->
  nick_registrations s' = nick_registrations s -> suspended_accounts s' = suspended_accounts s -> sessions s' = sessions s -> quiet out ->
  moves conn s out s'.
Proof.
  intros He Hd Hb Hn Hu Hs Hq. split; [done..| |].
  - intros k _. destruct (Hq k) as [-> ->]. by rewrite Hs.
  - destruct (Hq conn) as [-> ->]. rewrite Hs. apply moved_refl.
Qed.

(** ** Safe computations *)

Definition ok {A} (conn : Z) (m : M A) (Q : A -> Core -> Prop) (s : Core) : Prop :=
  match m s with
  | Some (a, s', out) => inv s' /\ moves conn s out s' /\ Q a s'
  | None => False
  end.

Lemma ok_ret {A} conn (a : A) Q s : inv s -> Q a s -> ok conn (mret a) Q s.
Proof. intros Hi Hq. split; [done|]. split; [|done]. by apply moves_quiet. Qed.

Lemma ok_bind {A B} conn (m : M A) (f : A -> M B) P Q s :
  ok conn m P s -> (forall a s', inv s' -> P a s' -> ok conn (f a) Q s') -> ok conn (m ≫= f) Q s.
Proof.
  unfold ok, mbind, M_bind. destruct (m s) as [[[a s1] out]|]; [|done]. intros (Hi & Hm & Hp) Hf. specialize (Hf a s1 Hi Hp).
  destruct (f a s1) as [[[b s2] out2]|]; [|done]. destruct Hf as (? & ? & ?). split; [done|]. split; [|done]. by eapply moves_trans.
Qed.

Lemma ok_mono {A} conn (m : M A) (P Q : A -> Core -> Prop) s : ok conn m P s -> (forall a s', inv s' -> P a s' -> Q a s') -> ok conn m Q s.
Proof. unfold ok. destruct (m s) as [[[a s1] out]|]; [|done]. intros (? & ? & ?) Hq. auto. Qed.

Lemma ok_get {B} conn (f : Core -> M B) Q s : ok conn (f s) Q s -> ok conn (get ≫= f) Q s.
Proof. unfold ok, mbind, M_bind, get. by destruct (f s s) as [[[? ?] ?]|]. Qed.

Lemma ok_expect {A B} conn (o : option A) (f : A -> M B) Q s a : o = Some a -> ok conn (f a) Q s -> ok conn (expect o ≫= f) Q s.
Proof. intros ->. unfold ok, mbind, M_bind. cbn. by destruct (f a s) as [[[? ?] ?]|]. Qed.

Lemma ok_session {B} conn k (f : Session -> M B) Q s x : sessions s !! k = Some x -> ok conn (f x) Q s -> ok conn (session k ≫= f) Q s.
Proof.
  intros Hx Hf. unfold ok, mbind, M_bind. rewrite (session_run k s x Hx). cbn [app]. unfold ok in Hf. by destruct (f x s) as [[[? ?] ?]|].
Qed.

Lemma ok_emit conn x Q s : inv s -> quiet [x] -> Q () s -> ok conn (emit x) Q s.
Proof. intros Hi Hq HQ. split; [done|]. split; [|done]. by apply moves_quiet. Qed.

Lemma ok_labelled conn k label m Q s : ok conn m Q s -> ok conn (emit_labeled_unheld k label m) Q s.
Proof.
  unfold ok, emit_labeled_unheld. destruct (m s) as [[[a s1] out]|]; [|done]. intros (Hi & Hm & HQ). split; [done|]. split; [|done].
  destruct label as [label|]; [|done]. destruct Hm as [? ? ? ? ? Ho Hc].
  assert (Hw : forall f, count f [Labelled k label out] = count f out) by (intros f; unfold count; cbn [flat_map flat]; by rewrite app_nil_r).
  split; [done..| |]; unfold welcomes, checks in *; intros; rewrite !Hw; auto.
Qed.

Lemma ok_each {A} conn (f : A -> M unit) (l : list A) (Q : Core -> Prop) s :
  inv s -> Q s -> (forall a s', a ∈ l -> inv s' -> Q s' -> ok conn (f a) (fun _ s'' => Q s'') s') -> ok conn (each f l) (fun _ => Q) s.
Proof.
  intros Hi HQ Hf. revert s Hi HQ. induction l as [|a l IH]; intros s Hi HQ; cbn [each]; [by apply ok_ret|].
  eapply ok_bind; [by apply Hf; [left| |]|]. intros u s' Hi' HQ'. apply IH; [|done|done]. intros b s'' Hb. apply Hf. by right.
Qed.

(** ** Changes of one session *)

Lemma lookup_set_sessions s conn x : sessions (set_sessions <[conn := x]> s) !! conn = Some x.
Proof. apply lookup_insert_eq. Qed.

Lemma changed_still s x x' :
  Session.is_registered x' = Session.is_registered x ->
  (Session.is_registered x = true -> Session.user x' = Session.user x /\ realname x' = realname x
     /\ cap_negotiating (rest x') = cap_negotiating (rest x)) ->
  host x' = host x -> transport (rest x') = transport (rest x) -> real_ip (rest x') = real_ip (rest x) ->
  credential_attempts (rest x) <= credential_attempts (rest x') ->
  (verification_in_flight (rest x') = true -> verification_in_flight (rest x) = true /\ verify_epoch (rest x') = verify_epoch (rest x)) ->
  login (rest x') = login (rest x) -> changed s x x' 0 0.
Proof.
  intros Hr Hu ? ? ? ? Hf ?. split; try done.
  - intros Hx. split; [by rewrite Hr|auto].
  - rewrite Hr. by destruct (Session.is_registered x).
  - congruence.
  - lia.
  - intros ?. left. split; [done|auto].
  - by left.
Qed.

Lemma moves_session conn s x x' :
  sessions s !! conn = Some x -> changed s x x' 0 0 -> moves conn s [] (set_sessions <[conn := x']> s).
Proof.
  intros Hx Hc. split; try done.
  - intros k Hk. cbn. by rewrite lookup_insert_ne by done.
  - cbn. by rewrite Hx, lookup_insert_eq.
Qed.

Lemma moves_gone conn s x s' out :
  sessions s !! conn = Some x -> sessions s' = delete conn (sessions s) -> 0 <= credential_attempts (rest x) <= LIMIT ->
  credential_epoch s' = credential_epoch s -> credentials_ended s' = credentials_ended s -> server_bans s' = server_bans s ->
  nick_registrations s' = nick_registrations s -> suspended_accounts s' = suspended_accounts s -> quiet out -> moves conn s out s'.
Proof.
  intros Hx Hs Ha ? ? ? ? ? Hq. split; [done..| |].
  - intros k Hk. destruct (Hq k) as [-> ->]. by rewrite Hs, lookup_delete_ne by done.
  - destruct (Hq conn) as [-> ->]. rewrite Hs, Hx, lookup_delete_eq. cbn. split; lia.
Qed.

(** A change that keeps who the session is and what it has in flight. *)
Record still (x x' : Session) : Prop := {
  st_nick : Session.nick x' = Session.nick x;
  st_registered : Session.is_registered x' = Session.is_registered x;
  st_profile : Session.is_registered x = true -> Session.user x' = Session.user x /\ realname x' = realname x
    /\ cap_negotiating (rest x') = cap_negotiating (rest x);
  st_host : host x' = host x;
  st_transport : transport (rest x') = transport (rest x);
  st_ip : real_ip (rest x') = real_ip (rest x);
  st_attempts : credential_attempts (rest x) <= credential_attempts (rest x');
  st_flight : verification_in_flight (rest x') = true ->
    verification_in_flight (rest x) = true /\ verify_epoch (rest x') = verify_epoch (rest x);
  st_login : login (rest x') = login (rest x);
}.

Lemma ok_on_session conn f Q s x :
  inv s -> sessions s !! conn = Some x -> still x (f x) -> session_ok (credential_epoch s) (f x) ->
  Q () (set_sessions <[conn := f x]> s) -> ok conn (on_session conn f) Q s.
Proof.
  intros Hi Hx [] Hok HQ. unfold ok, on_session, mbind, M_bind. rewrite (session_run conn s x Hx). cbn [modify app].
  split; [by eapply inv_session|]. split; [|done]. apply (moves_session conn s x); [done|]. by apply changed_still.
Qed.

Lemma ok_on_handshake conn f Q s x :
  inv s -> sessions s !! conn = Some x -> still x (with_rest f x) -> session_ok (credential_epoch s) (with_rest f x) ->
  Q () (set_sessions <[conn := with_rest f x]> s) -> ok conn (on_handshake conn f) Q s.
Proof. apply ok_on_session. Qed.

Lemma ok_close conn reason s : inv s -> ok conn (close c conn reason) (fun _ s' => sessions s' = delete conn (sessions s)) s.
Proof.
  intros Hi. destruct (sessions s !! conn) as [x|] eqn:Hx.
  - destruct (close_run conn reason s x Hi Hx) as (s' & out & E & Hg & [? ? ? ? ?] & Hq). unfold ok. rewrite E.
    split; [by eapply inv_gone|]. split; [|apply Hg]. eapply moves_gone; try done; [apply Hg|]. by destruct (inv_sessions _ Hi _ _ Hx).
  - unfold ok, close, mbind, M_bind, get. rewrite Hx. cbn. split; [done|]. split; [by apply moves_quiet|]. by rewrite delete_id.
Qed.

Lemma ok_close_with_error conn reason s : inv s -> ok conn (close_with_error c conn reason) (fun _ s' => sessions s' = delete conn (sessions s)) s.
Proof.
  intros Hi. unfold close_with_error. apply ok_get. eapply ok_bind; [apply (ok_emit _ _ (fun _ s' => s' = s)); [done|done|done]|].
  intros _ s' Hi' ->. by apply ok_close.
Qed.

Lemma moves_relogged conn x l s s' out :
  sessions s !! conn = Some x -> relogged conn x (Some l) s s' -> G l -> quiet out -> moves conn s out s'.
Proof.
  intros Hx [(x' & Es & Ereg & El & Eh & Et & Ei & Ec & Ea & Ef & Ev & _) _ _ _ _ [? ? ? ? ?]] HG Hq.
  assert (Eu : Session.user x' = Session.user x /\ realname x' = realname x /\ Session.is_registered x' = Session.is_registered x)
    by (unfold Session.user, realname, Session.is_registered; by rewrite Ereg).
  destruct Eu as (Eu & Ern & Er). split; [done..| |].
  - intros k Hk. rewrite Es, lookup_insert_ne by done. by destruct (Hq k) as [-> ->].
  - destruct (Hq conn) as [-> ->]. rewrite Hx, Es, lookup_insert_eq. cbn. split.
    + by rewrite Er.
    + done.
    + rewrite Er. by destruct (Session.is_registered x).
    + congruence.
    + lia.
    + rewrite Ef, Ev. by left.
    + right. by exists l.
Qed.

Lemma ok_set_account conn account credential expires_in s x :
  inv s -> sessions s !! conn = Some x -> (forall l, login_account l = account -> login_credential l = credential -> G l) ->
  ok conn (set_account c e conn account credential expires_in)
    (fun _ s' => exists x', sessions s' !! conn = Some x' /\ Session.is_registered x' = Session.is_registered x
                 /\ sasl (rest x') = sasl (rest x)) s.
Proof.
  intros Hi Hx HG. destruct (set_account_run e conn account credential expires_in s x Hi Hx) as (l & s' & out & E & Ea & Ec & Hr & Hq).
  unfold ok. rewrite E. split; [by eapply inv_relogged|]. split; [by eapply moves_relogged; eauto|].
  destruct Hr as [(x' & Es & Ereg & _ & _ & _ & _ & _ & _ & _ & _ & _ & Esasl) _ _ _ _ _]. exists x'. rewrite Es, lookup_insert_eq.
  split; [done|]. unfold Session.is_registered. by rewrite Ereg.
Qed.

Lemma ok_notify_account_change conn account s : inv s -> ok conn (notify_account_change conn account) (fun _ s' => s' = s) s.
Proof.
  intros Hi. unfold notify_account_change. apply ok_get. destruct (sessions s !! conn) as [x|] eqn:Hx; [|by apply ok_ret].
  destruct (Session.is_registered x) eqn:Er; [|by apply ok_ret].
  destruct (prefix x) as [pre|] eqn:Ep; [|unfold prefix, Session.is_registered in *; by destruct (reg x)].
  eapply ok_expect; [done|]. by apply ok_emit.
Qed.

(** ** Renaming and nick protection *)

Lemma moves_renamed conn x nick s out : sessions s !! conn = Some x -> quiet out -> moves conn s out (renamed conn x nick s).
Proof.
  intros Hx Hq. split; try done.
  - intros k Hk. cbn. rewrite lookup_insert_ne by done. by destruct (Hq k) as [-> ->].
  - cbn. rewrite Hx, lookup_insert_eq. destruct (Hq conn) as [-> ->]. apply changed_still; try done; [apply set_nick_registered|].
    intros _. split_and!; try done; unfold Session.user, realname, Session.set_nick; by destruct x as [[] ? ? ? ?].
Qed.

Lemma bind_run {A B} (m : M A) (f : A -> M B) s a s' : m s = Some (a, s', []) -> (m ≫= f) s = f a s'.
Proof. intros Hm. unfold mbind, M_bind. rewrite Hm. by destruct (f a s') as [[[? ?] ?]|]. Qed.

Lemma on_session_run conn f s x : sessions s !! conn = Some x -> on_session conn f s = Some ((), set_sessions <[conn := f x]> s, []).
Proof. intros Hx. unfold on_session. by rewrite (bind_run _ _ _ _ _ (session_run conn s x Hx)). Qed.

Lemma ok_claimed {A} conn x nick check complete (refused : M A) (tail : unit -> M A) Q s :
  inv s -> sessions s !! conn = Some x ->
  ok conn refused Q s ->
  (inv (renamed conn x nick s) -> ok conn ((if Session.is_registered x then check else complete) ≫= tail) Q (renamed conn x nick s)) ->
  ok conn (claimed ← claim_nick c (nick_key c nick) conn;
           if negb claimed then refused else change_claimed_nick c check complete conn nick (nick_key c nick) ≫= tail) Q s.
Proof.
  intros Hi Hx Href Htail. unfold ok. rewrite (bind_run _ _ _ _ _ (claim_nick_run _ conn s x Hx)).
  assert (Hdone : (forall r, nicks s !! nick_key c nick = Some r -> owner_conn (res_owner r) = conn) ->
    match (change_claimed_nick c check complete conn nick (nick_key c nick) ≫= tail)
      (set_nicks (<[nick_key c nick := MkReservation (MkOwner conn (shard c)) (Session.is_registered x)]> (nicks s)) s) with
    | Some (a, s', out) => inv s' /\ moves conn s out s' /\ Q a s' | None => False end).
  { intros Hfree. specialize (Htail (inv_renamed _ _ _ _ Hi Hx Hfree)). destruct (change_run check complete conn x nick s Hi Hx) as (out & Hq & E).
    unfold mbind, M_bind. rewrite E. unfold ok, mbind, M_bind in Htail.
    destruct ((if Session.is_registered x then check else complete) (renamed conn x nick s)) as [[[u s1] out1]|]; [|done].
    destruct (tail u s1) as [[[a s2] out2]|]; [|done]. destruct Htail as (? & Hm & ?). split; [done|]. split; [|done].
    rewrite <- app_assoc. eapply moves_trans; [by apply moves_renamed|done]. }
  unfold claim. destruct (nicks s !! nick_key c nick) as [r|] eqn:Er; [|by apply Hdone].
  cbn [owner_conn]. destruct (Z.eqb_spec (owner_conn (res_owner r)) conn) as [E|Hne]; cbn [fst snd negb].
  - apply Hdone. naive_solver.
  - assert (Es : set_nicks (nicks s) s = s) by (by destruct s). rewrite Es. apply Href.
Qed.

Lemma ok_bind_ret conn (m : M unit) Q s : ok conn (m ≫= mret) Q s <-> ok conn m Q s.
Proof. unfold ok, mbind, M_bind. destruct (m s) as [[[[] s'] out]|]; [|done]. cbn. by rewrite app_nil_r. Qed.

Lemma still_refl x : still x x.
Proof. by split. Qed.

Lemma ok_release_enforcement conn s x Q :
  inv s -> sessions s !! conn = Some x -> (forall s', inv s' -> nick_registrations s' = nick_registrations s ->
    (exists x', sessions s' !! conn = Some x' /\ reg x' = reg x) -> Q () s') ->
  ok conn (on_handshake conn (fun h => set_nick_enforcement (enf_release (nick_enforcement h)) h)) Q s.
Proof.
  intros Hi Hx HQ. assert (Hok : session_ok (credential_epoch s) (with_rest (fun h => set_nick_enforcement (enf_release (nick_enforcement h)) h) x)).
  { destruct (inv_sessions _ Hi _ _ Hx). split; try done. by intros []. }
  eapply ok_on_handshake; [done|done|by split|done|].
  apply HQ; [by eapply inv_session|done|]. eexists. split; [apply lookup_insert_eq|done].
Qed.

(** Where nobody protects the nick the check renames nobody. *)
Lemma ok_check_unprotected depth conn s x Q :
  inv s -> sessions s !! conn = Some x -> (forall n, Session.nick x = Some n -> nick_protector c (nick_key c n) s = None) ->
  (forall s', Q () s') -> ok conn (check_nick_protection c e (S depth) conn) Q s.
Proof.
  intros Hi Hx Hn HQ. cbn [check_nick_protection]. apply ok_get.
  assert (E : enforced_protector c conn s = None).
  { unfold enforced_protector. rewrite Hx. cbn. destruct (Session.nick x) as [n|]; [|done]. cbn. by rewrite (Hn n). }
  rewrite E, decide_True by eauto. by eapply ok_release_enforcement.
Qed.

Lemma guest_loop_ok depth conn remaining at_ s x :
  inv s -> sessions s !! conn = Some x -> Session.is_registered x = true ->
  ok conn (guest_loop c (check_nick_protection c e (S depth) conn) conn at_ remaining) (fun _ _ => True) s.
Proof.
  revert at_. induction remaining as [|remaining IH]; intros at_ Hi Hx Hr; cbn [guest_loop].
  { eapply ok_mono; [by apply ok_close_with_error|done]. }
  apply ok_get. set (guest := bs "Guest" ++ dec (at_ mod GUEST_NICK_SPACE)). case_bool_decide as Hp; [by apply IH|].
  assert (Hfree : nick_protector c (nick_key c guest) s = None) by (destruct (nick_protector c (nick_key c guest) s); [by destruct Hp|done]).
  eapply (ok_bind _ _ _ (fun b s' => b = false -> s' = s)).
  - unfold force_nick. eapply ok_session; [done|]. destruct (decide (Session.nick x = Some guest)); [by apply ok_ret|].
    apply (ok_claimed conn x); [done|done|by apply ok_ret|]. intros Hi'. rewrite Hr.
    eapply (ok_bind _ _ _ (fun _ _ => True)); [|intros u s' Hs' _; by apply ok_ret].
    eapply ok_check_unprotected; [done|apply lookup_insert_eq| |done]. intros n0. rewrite set_nick_nick. by intros [= <-].
  - intros [|] s' Hi' Hs'; [by apply ok_ret|]. rewrite (Hs' eq_refl). by apply IH.
Qed.

Lemma enforce_rename_ok depth conn nick key protector s x :
  inv s -> sessions s !! conn = Some x -> Session.is_registered x = true ->
  ok conn (enforce_rename c e (check_nick_protection c e (S depth) conn) conn nick key protector) (fun _ _ => True) s.
Proof.
  intros Hi Hx Hr. unfold enforce_rename. eapply (ok_bind _ _ _ (fun _ s' => s' = s)).
  { unfold queue_audit. destruct (negb _); [by apply ok_ret|]. destruct (audit_takes e); [|by apply ok_ret].
    eapply (ok_bind _ _ _ (fun _ s' => s' = s)); [by apply ok_emit|]. intros u s' Hi' ->. by apply ok_ret. }
  intros [|] s' _ ->; cbn [negb]; [|by apply ok_ret].
  eapply ok_bind; [apply (ok_release_enforcement conn s x (fun _ s' => exists x', sessions s' !! conn = Some x' /\ reg x' = reg x)); [done|done|auto]|].
  intros u s1 Hi1 (x1 & Hx1 & Ereg). eapply (ok_bind _ _ _ (fun _ s' => s' = s1)); [by apply ok_emit|].
  intros u' s2 Hi2 ->. eapply guest_loop_ok; [done|done|]. unfold Session.is_registered. by rewrite Ereg.
Qed.

Lemma check_protection_ok conn s x :
  inv s -> sessions s !! conn = Some x -> Session.is_registered x = true -> ok conn (check_protection c e conn) (fun _ _ => True) s.
Proof.
  intros Hi Hx Hr. unfold check_protection. change 2%nat with (S 1). cbn [check_nick_protection]. apply ok_get.
  destruct (enforced_protector c conn s) as [[[nick key] protector]|] eqn:Ep.
  - eapply ok_session; [done|]. destruct (decide (enf_held (nick_enforcement (rest x)) = Some key)); [by apply ok_ret|].
    destruct (deadline _ _ _) as [at_ en]. eapply ok_bind.
    { apply (ok_on_handshake conn _ (fun _ s' => exists x', sessions s' !! conn = Some x' /\ reg x' = reg x) s x); [done|done|by split| |].
      - destruct (inv_sessions _ Hi _ _ Hx). split; try done.
      - eexists. split; [apply lookup_insert_eq|done]. }
    intros u s1 Hi1 (x1 & Hx1 & Ereg). assert (Hr1 : Session.is_registered x1 = true) by (unfold Session.is_registered; by rewrite Ereg).
    destruct (at_ <=? mono_clock e).
    + destruct (verification_in_flight (rest x)); cbn [negb]; [by apply ok_ret|]. by eapply (enforce_rename_ok 0).
    + eapply (ok_bind _ _ _ (fun _ s' => s' = s1)); [by apply ok_emit|]. intros u' s2 Hi2 ->. by apply ok_emit.
  - rewrite decide_True by eauto. by eapply ok_release_enforcement.
Qed.

(** ** The end of registration *)

Lemma ok_quiet conn (m : M unit) s : (exists out, m s = Some ((), s, out) /\ quiet out) -> inv s -> ok conn m (fun _ s' => s' = s) s.
Proof. intros (out & E & Hq) Hi. unfold ok. rewrite E. split; [done|]. split; [by apply moves_quiet|done]. Qed.

Lemma ok_numeric conn k code middles trailing s :
  inv s -> (code =? 1) = false -> ok conn (numeric k code middles trailing) (fun _ s' => s' = s) s.
Proof. intros Hi Hc. apply ok_emit; [done|by apply quiet_numeric|done]. Qed.

(** Run the next command, which changes nothing. *)
Ltac ok_skip := match goal with |- ok _ _ _ ?s => eapply (ok_bind _ _ _ (fun _ s' => s' = s)) end;
  [first [apply ok_numeric; [assumption|reflexivity] | apply ok_emit; [assumption|done|reflexivity] | apply ok_ret; [assumption|reflexivity]]
  |intros ? ? ? ->].

Lemma send_motd_ok conn s : inv s -> ok conn (send_motd c conn) (fun _ s' => s' = s) s.
Proof.
  intros Hi. unfold send_motd. destruct (is_empty (motd c)); [by apply ok_numeric|]. ok_skip.
  eapply (ok_bind _ _ _ (fun _ s' => s' = s)); [|intros ? ? ? ->; by apply ok_numeric].
  apply (ok_each conn _ _ (fun s' => s' = s)); [done|done|]. intros line s' _ Hi' ->. by apply ok_numeric.
Qed.

Lemma send_lusers_ok conn s : inv s -> ok conn (send_lusers e conn) (fun _ s' => s' = s) s.
Proof.
  intros Hi. unfold send_lusers. destruct (census e) as [[connections channels] max]. ok_skip.
  do 3 (eapply (ok_bind _ _ _ (fun _ s' => s' = s)); [destruct (_ <? _); [by apply ok_numeric|by apply ok_ret]|intros ? ? ? ->]).
  do 2 ok_skip. by apply ok_numeric.
Qed.

Lemma welcome_burst_ok conn s x :
  inv s -> sessions s !! conn = Some x -> Session.is_registered x = true -> ok conn (welcome_burst c e conn x) (fun _ _ => True) s.
Proof.
  intros Hi Hx Hr. unfold welcome_burst. do 4 ok_skip.
  eapply ok_bind; [by apply send_lusers_ok|]. intros ? ? _ ->. eapply ok_bind; [by apply send_motd_ok|]. intros ? ? _ ->.
  destruct (Session.nick x) as [n|] eqn:En; [|unfold Session.nick, Session.is_registered in *; by destruct (reg x)].
  eapply ok_expect; [done|]. eapply (ok_bind _ _ _ (fun _ s' => s' = s)); [destruct (secure x); [by apply ok_emit|by apply ok_ret]|].
  intros ? ? _ ->. ok_skip. by eapply check_protection_ok.
Qed.

Lemma complete_block_ok conn s x n u :
  inv s -> sessions s !! conn = Some x -> Session.is_registered x = false -> Session.nick x = Some n -> Session.user x = Some u ->
  gate s x ->
  ok conn (on_session conn Session.complete_registration;;
           x ← session conn;
           match Session.nick x with
           | Some nick => modify (fun s => set_nicks (mark_registered (nick_key c nick) conn (nicks s)) s)
           | None => mret ()
           end;;
           emit (SyncMember conn);;
           welcome c e conn) (fun _ _ => True) s.
Proof.
  intros Hi Hx Hr En Eu Hg. destruct (complete_fields x n u En Eu) as (Er' & En' & Eu' & Ern').
  pose proof (inv_completed conn x n u s Hi Hx En Eu) as Hi2. set (x' := Session.complete_registration x) in *. set (s2 := completed conn x (nick_key c n) s) in *.
  assert (Hx2 : sessions s2 !! conn = Some x') by apply lookup_insert_eq.
  pose proof (welcome_burst_ok conn s2 x' Hi2 Hx2 Er') as Hburst. unfold ok in *.
  rewrite (bind_run _ _ _ _ _ (on_session_run conn _ s x Hx)).
  erewrite bind_run; [|apply (session_run conn _ x'); apply lookup_insert_eq]. rewrite En'.
  erewrite bind_run; [|reflexivity]. change (set_nicks _ _) with s2. unfold mbind at 1, M_bind at 1. cbn [emit app].
  unfold welcome. erewrite bind_run; [|by apply session_run].
  destruct (prefix x') as [pre|] eqn:Ep; [|unfold prefix, Session.is_registered in *; by destruct (reg x')].
  erewrite bind_run; [|reflexivity]. unfold numeric at 1, mbind, M_bind. cbn [emit].
  destruct (welcome_burst c e conn x' s2) as [[[a s3] out]|]; [|done]. destruct Hburst as (? & Hm & _). split; [done|]. split; [|done]. cbn [app].
  set (w := Numeric conn 1 _ _). change (SyncMember conn :: w :: out) with ([SyncMember conn; w] ++ out). eapply moves_trans; [|done].
  assert (Hw : forall k, welcomes k [SyncMember conn; w] = (if decide (k = conn) then 1 else 0)%nat /\ checks k [SyncMember conn; w] = 0%nat).
  { intros k. split; [|done]. unfold welcomes, count. cbn. destruct (decide (k = conn)) as [->|Hk]; [by rewrite Z.eqb_refl|].
    destruct (Z.eqb_spec conn k); [congruence|done]. }
  split; try done.
  - intros k Hk. destruct (Hw k) as [-> ->]. rewrite decide_False by done. cbn. by rewrite lookup_insert_ne by done.
  - destruct (Hw conn) as [-> ->]. rewrite decide_True by done. rewrite Hx, Hx2. cbn. split.
    + congruence.
    + done.
    + by rewrite Er', Hr.
    + intros _ _. destruct Hg as [G1 G2 G3]. split; [done| |done]. rewrite <- G2. unfold server_ban_subject. by rewrite Eu', Eu, Ern'.
    + cbn. lia.
    + by left.
    + by left.
Qed.

Lemma refuse_unauthenticated_ok conn s x :
  inv s -> sessions s !! conn = Some x ->
  ok conn (refuse_unauthenticated c conn) (fun refused s' => refused = false -> s' = s
    /\ (is_Some (login (rest x)) \/ transport (rest x) = LocalTransport \/ covers (sasl_requirement c) (real_ip (rest x)) = false)) s.
Proof.
  intros Hi Hx. unfold refuse_unauthenticated. eapply ok_session; [done|].
  destruct (bool_decide (is_Some (account x)) || _ || _) eqn:E.
  - apply ok_ret; [done|]. intros _. split; [done|]. rewrite !orb_true_iff, bool_decide_eq_true, negb_true_iff in E.
    destruct E as [[E|E]|E]; [left|right; left|by right; right]; [|by destruct (transport (rest x))].
    unfold account in E. by rewrite fmap_is_Some in E.
  - ok_skip. eapply ok_bind; [by apply ok_close_with_error|]. intros ? s' ? _. by apply ok_ret.
Qed.

Lemma maybe_complete_ok conn s x :
  inv s -> sessions s !! conn = Some x -> ok conn (maybe_complete_registration c e conn) (fun _ _ => True) s.
Proof.
  intros Hi Hx. unfold maybe_complete_registration. eapply ok_session; [done|]. destruct (ready x) eqn:Hr; cbn [negb]; [|by apply ok_ret].
  unfold ready in Hr. rewrite !andb_true_iff, !negb_true_iff, !bool_decide_eq_true in Hr. destruct Hr as [[[[Hreg Hneg] [n En]] [u Eu]] _].
  eapply (ok_bind _ _ _ (fun _ s1 => exists x1, sessions s1 !! conn = Some x1 /\ reg x1 = reg x /\ cap_negotiating (rest x1) = false)).
  { assert (Hend : ok conn (on_handshake conn (fun h => set_sasl_buf [] (set_sasl Idle h));;
        numeric conn 906 [] (Some (bs "SASL authentication aborted"))) (fun _ s1 => exists x1, sessions s1 !! conn = Some x1 /\ reg x1 = reg x
          /\ cap_negotiating (rest x1) = false) s).
    { eapply ok_bind; [eapply (ok_on_handshake conn _ (fun _ s1 => sessions s1 !! conn = Some (with_rest (fun h => set_sasl_buf [] (set_sasl Idle h)) x))); [done|done|by split| |apply lookup_insert_eq]|].
      - destruct (inv_sessions _ Hi _ _ Hx). split; try done. cbn. lia.
      - intros ? s1 Hi1 Hx1. eapply ok_mono; [by apply ok_numeric|]. intros ? ? _ ->. eexists. split; [exact Hx1|done]. }
    destruct (sasl (rest x)); try done; apply ok_ret; try done; by exists x. }
  intros _ s1 Hi1 (x1 & Hx1 & Ereg & Hneg1). eapply ok_session; [done|]. apply ok_get.
  destruct (ban_match c e (server_ban_subject x1) s1) as [[kind reason]|] eqn:Hban.
  { ok_skip. eapply ok_mono; [by apply ok_close_with_error|done]. }
  eapply ok_bind; [by apply refuse_unauthenticated_ok|]. intros [|] s2 Hi2 Hs2; [by apply ok_ret|]. destruct (Hs2 eq_refl) as [-> Hlog].
  apply (complete_block_ok conn s1 x1 n u); try done.
  - unfold Session.is_registered in *. by rewrite Ereg.
  - unfold Session.nick in *. by rewrite Ereg.
  - unfold Session.user in *. by rewrite Ereg.
Qed.

(** ** NICK, USER, PASS, CAP *)

Lemma ok_handshake_at conn f s x :
  inv s -> sessions s !! conn = Some x -> still x (with_rest f x) -> session_ok (credential_epoch s) (with_rest f x) ->
  ok conn (on_handshake conn f) (fun _ s1 => s1 = set_sessions <[conn := with_rest f x]> s) s.
Proof. intros Hi Hx Hs Hok. by eapply ok_on_handshake. Qed.

Lemma ok_claimed_last conn x nick check complete (refused : M unit) Q s :
  inv s -> sessions s !! conn = Some x ->
  ok conn refused Q s ->
  (inv (renamed conn x nick s) -> ok conn (if Session.is_registered x then check else complete) Q (renamed conn x nick s)) ->
  ok conn (claimed ← claim_nick c (nick_key c nick) conn;
           if negb claimed then refused else change_claimed_nick c check complete conn nick (nick_key c nick)) Q s.
Proof.
  intros Hi Hx Href Htail.
  assert (Hok : ok conn (claimed ← claim_nick c (nick_key c nick) conn;
           if negb claimed then refused else change_claimed_nick c check complete conn nick (nick_key c nick) ≫= mret) Q s).
  { apply (ok_claimed conn x); [done|done|done|]. intros Hi'. apply ok_bind_ret. auto. }
  unfold ok, mbind, M_bind in *. destruct (claim_nick c (nick_key c nick) conn s) as [[[[|] s1] out1]|]; [|done|done]. cbn [negb] in *.
  destruct (change_claimed_nick c check complete conn nick (nick_key c nick) s1) as [[[[] s2] out2]|]; [|done]. cbn in Hok. by rewrite app_nil_r in Hok.
Qed.

Lemma take_nick_ok conn nick s x : inv s -> sessions s !! conn = Some x -> ok conn (take_nick c e conn nick (nick_key c nick)) (fun _ _ => True) s.
Proof.
  intros Hi Hx. unfold take_nick. apply (ok_claimed_last conn x); [done|done| |].
  - assert (Hn : forall y : Session, still y (note_nick_in_use nick y)) by (intros [[] ? ? ? ?]; by split).
    eapply (ok_bind _ _ _ (fun _ _ => True)); [|intros ? s' ? _; eapply ok_mono; [by apply ok_numeric|done]].
    eapply ok_on_session; [done|done|apply Hn| |done]. destruct (inv_sessions _ Hi _ _ Hx). destruct x as [[] ? ? ? ?]; by split.
  - intros Hi'. pose proof (lookup_set_sessions s conn (Session.set_nick nick x)) as Hx'. destruct (Session.is_registered x) eqn:Hr.
    + eapply check_protection_ok; [done|exact Hx'|]. by rewrite set_nick_registered.
    + eapply maybe_complete_ok; [done|exact Hx'].
Qed.

Lemma nick_refused_ok conn x nick key s :
  inv s -> sessions s !! conn = Some x -> Session.is_registered x = true ->
  ok conn (nick_refused c e conn x nick key) (fun _ s' => is_Some (sessions s' !! conn)) s.
Proof.
  intros Hi Hx Hr. unfold nick_refused, state_silenced_in. destruct (proj2 (prefix_registered x) Hr) as [pre Hp].
  eapply (ok_bind _ _ _ (fun _ s' => s' = s)); [eapply ok_expect; [done|]; by apply ok_ret|]. intros silenced s' _ ->.
  destruct silenced as [channel|]; [ok_skip; apply ok_ret; eauto|]. apply ok_get.
  destruct (match nick_owner _ _ with Some _ => _ | None => _ end); [apply ok_ret; eauto|].
  eapply (ok_bind _ _ _ (fun _ s' => is_Some (sessions s' !! conn))).
  - unfold nick_change_too_fast. eapply ok_session; [done|]. destruct (too_fast _ _) as [fast changes].
    eapply ok_bind; [apply (ok_handshake_at conn _ s x); [done|done|by split|by destruct (inv_sessions _ Hi _ _ Hx)]|].
    intros ? s1 Hi1 ->. apply ok_ret; [done|]. rewrite lookup_set_sessions. eauto.
  - intros [|] s1 Hi1 Hs1; cbn [negb]; [|by apply ok_ret]. ok_skip. by apply ok_ret.
Qed.

Lemma cmd_nick_ok conn p s x : inv s -> sessions s !! conn = Some x -> ok conn (cmd_nick c e conn p) (fun _ _ => True) s.
Proof.
  intros Hi Hx. unfold cmd_nick. destruct p as [|[|b nick] p]; [eapply ok_mono; [by apply ok_numeric|done]..|].
  destruct (negb (valid_nick _ _)); [eapply ok_mono; [by apply ok_numeric|done]|].
  destruct (is_service_nick _); [eapply ok_mono; [by apply ok_numeric|done]|]. eapply ok_session; [done|].
  destruct (Session.is_registered x) eqn:Hr; cbn [negb]; [|by eapply take_nick_ok].
  destruct (decide _); [by apply ok_ret|]. eapply ok_bind; [by apply nick_refused_ok|].
  intros [|] s1 Hi1 [x1 Hx1]; [by apply ok_ret|]. by eapply take_nick_ok.
Qed.

Lemma cmd_pass_ok conn p s x : inv s -> sessions s !! conn = Some x -> ok conn (cmd_pass conn p) (fun _ _ => True) s.
Proof.
  intros Hi Hx. unfold cmd_pass. eapply ok_session; [done|]. destruct (Session.is_registered x); [eapply ok_mono; [by apply ok_numeric|done]|].
  destruct p as [|[|? ?] ?]; try (eapply ok_mono; [by apply ok_numeric|done]). by apply ok_ret.
Qed.

Lemma cmd_user_ok conn p s x : inv s -> sessions s !! conn = Some x -> ok conn (cmd_user c e conn p) (fun _ _ => True) s.
Proof.
  intros Hi Hx. unfold cmd_user. eapply ok_session; [done|]. destruct (Session.is_registered x) eqn:Hr; [eapply ok_mono; [by apply ok_numeric|done]|].
  assert (Hneed : ok conn (err_needmoreparams conn (bs "USER")) (fun _ _ => True) s) by (eapply ok_mono; [by apply ok_numeric|done]).
  destruct p as [|[|? ?] [|? [|? [|[|? ?] ?]]]]; try exact Hneed. destruct (username _ _) as [kept|]; [|eapply ok_mono; [by apply ok_numeric|done]].
  eapply ok_bind; [eapply (ok_on_session conn _ (fun _ s1 => is_Some (sessions s1 !! conn))); [done|done| | |rewrite lookup_set_sessions; eauto]|].
  - unfold Session.is_registered in Hr. destruct x as [[] ? ? ? ?]; [|done]. by split.
  - destruct (inv_sessions _ Hi _ _ Hx). unfold Session.is_registered in Hr. destruct x as [[] ? ? ? ?]; [|done]. by split.
  - intros ? s1 Hi1 [x1 Hx1]. by eapply maybe_complete_ok.
Qed.

Lemma sends_ok conn lines s : inv s -> ok conn (each (send conn) lines) (fun _ _ => True) s.
Proof. intros Hi. apply (ok_each conn _ _ (fun _ => True)); [done|done|]. intros a s' _ Hi' _. by apply ok_emit. Qed.

Lemma mark_negotiating_ok conn s x :
  inv s -> sessions s !! conn = Some x ->
  ok conn (mark_negotiating conn) (fun _ s1 => exists x1, sessions s1 !! conn = Some x1 /\ reg x1 = reg x) s.
Proof.
  intros Hi Hx. unfold mark_negotiating. eapply ok_session; [done|]. destruct (Session.is_registered x) eqn:Hr; [apply ok_ret; eauto|].
  eapply ok_mono; [apply (ok_handshake_at conn _ s x); [done|done| |by destruct (inv_sessions _ Hi _ _ Hx)]|].
  - split; try done. congruence.
  - intros ? ? _ ->. eexists. split; [apply lookup_set_sessions|done].
Qed.

Lemma set_caps_ok conn f s x :
  inv s -> sessions s !! conn = Some x -> (forall h, exists v caps, f h = set_caps v caps h) ->
  ok conn (on_handshake conn f;; emit (RefreshRecipient conn)) (fun _ _ => True) s.
Proof.
  intros Hi Hx Hf. eapply (ok_bind _ _ _ (fun _ _ => True)); [|intros; by apply ok_emit].
  destruct (Hf (rest x)) as (v & cs & E). assert (Ex : with_rest f x = with_rest (set_caps v cs) x) by (unfold with_rest; by rewrite E).
  eapply ok_on_handshake; [done|done|rewrite Ex; by split|rewrite Ex; by destruct (inv_sessions _ Hi _ _ Hx)|done].
Qed.

Lemma cmd_cap_ok conn p s x : inv s -> sessions s !! conn = Some x -> ok conn (cmd_cap c e conn p) (fun _ _ => True) s.
Proof.
  intros Hi Hx. unfold cmd_cap. eapply ok_session; [done|]. destruct (str_eqb _ (bs "LS")).
  { eapply ok_bind; [by eapply mark_negotiating_ok|]. intros ? s1 Hi1 (x1 & Hx1 & _). eapply (ok_bind _ _ _ (fun _ _ => True)); [|intros; by apply sends_ok].
    destruct (cap_version_302 _); [|by apply ok_ret]. eapply set_caps_ok; [done|done|]. intros h. by eexists _, _. }
  destruct (str_eqb _ (bs "LIST")); [by apply sends_ok|]. destruct (str_eqb _ (bs "REQ")).
  { eapply ok_bind; [by eapply mark_negotiating_ok|]. intros ? s1 Hi1 (x1 & Hx1 & _). destruct (cap_req _ _ _ _ _ _) as [applied line].
    eapply (ok_bind _ _ _ (fun _ _ => True)); [|intros; by apply ok_emit]. destruct applied as [cs|]; [|by apply ok_ret].
    eapply set_caps_ok; [done|done|]. intros h. by eexists _, _. }
  destruct (str_eqb _ (bs "END")).
  { destruct (Session.is_registered x) eqn:Hr; cbn [negb andb]; [by apply ok_ret|]. destruct (cap_negotiating (rest x)); [|by apply ok_ret].
    eapply ok_bind; [apply (ok_handshake_at conn _ s x); [done|done| |by destruct (inv_sessions _ Hi _ _ Hx)]|].
    - split; try done. congruence.
    - intros ? s1 Hi1 ->. eapply maybe_complete_ok; [done|apply lookup_set_sessions]. }
  eapply ok_mono; [by apply ok_numeric|done].
Qed.

(** ** AUTHENTICATE and IDENTIFY *)

Lemma set_sessions_twice conn x y s : set_sessions <[conn := y]> (set_sessions <[conn := x]> s) = set_sessions <[conn := y]> s.
Proof. unfold set_sessions. cbn. by rewrite insert_insert_eq. Qed.

Lemma on_handshake_run conn f s x : sessions s !! conn = Some x -> on_handshake conn f s = Some ((), set_sessions <[conn := with_rest f x]> s, []).
Proof. apply on_session_run. Qed.

(** A computation that ends with one session changed. *)
Lemma ok_jump {A} conn (m : M A) a (Q : A -> Core -> Prop) s x x' out :
  m s = Some (a, set_sessions <[conn := x']> s, out) -> inv s -> sessions s !! conn = Some x ->
  Session.nick x' = Session.nick x -> Session.is_registered x' = Session.is_registered x -> login (rest x') = login (rest x) ->
  session_ok (credential_epoch s) x' -> changed s x x' (welcomes conn out) (checks conn out) ->
  (forall k, k <> conn -> welcomes k out = 0%nat /\ checks k out = 0%nat) -> Q a (set_sessions <[conn := x']> s) -> ok conn m Q s.
Proof.
  intros E Hi Hx En Er El Hok Hc Hk HQ. unfold ok. rewrite E. split; [by eapply inv_session|]. split; [|done]. split; try done.
  - intros k Hne. cbn. rewrite lookup_insert_ne by done. split; [done|auto].
  - cbn. by rewrite Hx, lookup_insert_eq.
Qed.

Lemma sasl_end_ok conn f text s x :
  inv s -> sessions s !! conn = Some x -> f = set_sasl Idle \/ f = (fun h => set_sasl_buf [] (set_sasl Idle h)) ->
  forall code, (code =? 1) = false -> ok conn (on_handshake conn f;; numeric conn code [] text) (fun _ _ => True) s.
Proof.
  intros Hi Hx Hf code Hcode. eapply (ok_bind _ _ _ (fun _ _ => True)); [|intros; eapply ok_mono; [by apply ok_numeric|done]].
  destruct (inv_sessions _ Hi _ _ Hx). destruct Hf as [-> | ->]; (eapply ok_on_handshake; [done|done|by split| |done]); split; try done; cbn; lia.
Qed.

Lemma sasl_fail_ok conn s x : inv s -> sessions s !! conn = Some x -> ok conn (sasl_fail conn) (fun _ _ => True) s.
Proof. intros Hi Hx. by eapply sasl_end_ok; eauto. Qed.

Lemma attempt_closes conn s x :
  inv s -> sessions s !! conn = Some x -> LIMIT <= credential_attempts (rest x) ->
  ok conn (credential_attempt_ok c conn) (fun ok _ => ok = false) s.
Proof.
  intros Hi Hx Ha. unfold credential_attempt_ok. eapply ok_session; [done|]. unfold consume. rewrite (proj2 (Z.leb_le _ _)) by done.
  eapply ok_bind; [apply (ok_handshake_at conn _ s x); [done|done|split; try done; cbn; lia|]|].
  - destruct (inv_sessions _ Hi _ _ Hx). by split.
  - intros ? s1 Hi1 ->. cbn [negb]. eapply ok_bind; [by apply ok_close_with_error|]. intros ? s2 Hi2 _. by apply ok_ret.
Qed.

Definition spent (x : Session) : Session := with_rest (set_credential_attempts (credential_attempts (rest x) + 1)) x.

Lemma attempt_run conn s x :
  sessions s !! conn = Some x -> credential_attempts (rest x) < LIMIT ->
  credential_attempt_ok c conn s = Some (true, set_sessions <[conn := spent x]> s, []).
Proof.
  intros Hx Ha. unfold credential_attempt_ok. rewrite (bind_run _ _ _ _ _ (session_run conn s x Hx)). unfold consume.
  rewrite (proj2 (Z.leb_gt _ _)) by done. by rewrite (bind_run _ _ _ _ _ (on_handshake_run conn _ s x Hx)).
Qed.

Lemma checks_push conn req k :
  match req with VerifyPassword k _ _ _ | VerifyToken k _ _ => k = conn | CreateAccount _ _ _ _ _ => False end ->
  welcomes k [Push req] = 0%nat /\ checks k [Push req] = if decide (k = conn) then 1%nat else 0%nat.
Proof.
  intros Hr. split; [done|]. unfold checks, count. cbn. destruct req as [k' ? ? ?|k' ? ?|]; [subst k'|subst k'|done]; destruct (decide (k = conn)) as [->|Hk];
    rewrite ?Z.eqb_refl; try done; destruct (Z.eqb_spec conn k); congruence || done.
Qed.

Definition addressed (conn : Z) (req : DbRequest) : Prop :=
  match req with VerifyPassword k _ _ _ | VerifyToken k _ _ => k = conn | CreateAccount _ _ _ _ _ => False end.

(** A check is sent off: one attempt more, and the epoch of now. *)
Lemma ok_checked conn (m : M unit) s x x' req :
  m s = Some ((), set_sessions <[conn := x']> s, [Push req]) -> inv s -> sessions s !! conn = Some x -> addressed conn req ->
  credential_attempts (rest x) < LIMIT -> reg x' = reg x -> host x' = host x -> login (rest x') = login (rest x) ->
  transport (rest x') = transport (rest x) -> real_ip (rest x') = real_ip (rest x) -> cap_negotiating (rest x') = cap_negotiating (rest x) ->
  credential_attempts (rest x') = credential_attempts (rest x) + 1 -> verify_epoch (rest x') = credential_epoch s ->
  nick_enforcement (rest x') = nick_enforcement (rest x) -> (length (sasl_buf (rest x')) <= MAX_AUTHENTICATE_PAYLOAD_LEN)%nat ->
  (sasl (rest x') = Verifying -> is_Some (sasl_verify (rest x'))) -> (sasl_verify (rest x') = None \/ pending_identify (rest x') = None) ->
  ok conn m (fun _ _ => True) s.
Proof.
  intros E Hi Hx Hreq Ha Er Eh El Et Eip Ec Ea Ev Een Hb Hv Hs.
  assert (Ereg : Session.is_registered x' = Session.is_registered x /\ Session.nick x' = Session.nick x /\ Session.user x' = Session.user x
    /\ realname x' = realname x) by (unfold Session.is_registered, Session.nick, Session.user, realname; by rewrite Er).
  destruct Ereg as (Er1 & Er2 & Er3 & Er4). destruct (inv_sessions _ Hi _ _ Hx) as [Hat _ _ _ Hheld Hep].
  eapply (ok_jump conn m () _ s x x' [Push req]); try done.
  - split; [lia|done|done|done| |lia]. by rewrite Er1, Een.
  - destruct (checks_push conn req conn Hreq) as [-> ->]. rewrite decide_True by done. split.
    + by rewrite Er1.
    + done.
    + rewrite Er1. by destruct (Session.is_registered x).
    + rewrite Er1. congruence.
    + lia.
    + intros _. by right.
    + by left.
  - intros k Hk. destruct (checks_push conn req k Hreq) as [-> ->]. by rewrite decide_False.
Qed.

Lemma credential_check_run conn s x :
  sessions s !! conn = Some x ->
  credential_check_queued conn s = Some ((), set_sessions <[conn := with_rest (set_verify_epoch (credential_epoch s)) x]> s, []).
Proof.
  intros Hx. unfold credential_check_queued. erewrite bind_run; [|reflexivity]. rewrite decide_True by (rewrite Hx; eauto). by apply on_handshake_run.
Qed.

(** A session whose check was just queued. *)
Definition queued (epoch : Z) (x : Session) : Session :=
  with_rest (fun h => set_verify_epoch epoch (set_sasl_verify (Some (captured_label e)) (set_sasl Verifying h))) (spent x).

Lemma require_cred_payload_run conn r s x :
  sessions s !! conn = Some x -> credential_attempts (rest x) < LIMIT -> db_takes e = true ->
  require_cred_payload c e conn (Some r) s = Some ((), set_sessions <[conn := queued (credential_epoch s) x]> s, [Push r]).
Proof.
  intros Hx Ha Edb. unfold require_cred_payload. rewrite (bind_run _ _ _ _ _ (attempt_run conn s x Hx Ha)). cbn [negb].
  unfold queue_sasl_check. erewrite bind_run; [|eapply on_handshake_run; apply lookup_set_sessions]. rewrite set_sessions_twice.
  rewrite Edb. unfold mbind, M_bind. cbn [emit]. unfold sasl_verify_queued.
  erewrite bind_run; [|eapply on_handshake_run; apply lookup_set_sessions]. rewrite set_sessions_twice.
  erewrite credential_check_run; [|apply lookup_set_sessions]. by rewrite set_sessions_twice.
Qed.

Lemma require_cred_payload_ok conn req s x :
  inv s -> sessions s !! conn = Some x -> verification_in_flight (rest x) = false -> (forall r, req = Some r -> addressed conn r) ->
  ok conn (require_cred_payload c e conn req) (fun _ _ => True) s.
Proof.
  intros Hi Hx Hf Hreq. destruct (inv_sessions _ Hi _ _ Hx) as [Hat Hver Hsing Hbuf Hheld Hep]. unfold require_cred_payload.
  destruct (Z_le_gt_dec LIMIT (credential_attempts (rest x))) as [Ha|Ha].
  { eapply ok_bind; [by eapply attempt_closes|]. intros b s1 Hi1 ->. by apply ok_ret. }
  assert (Hf' : sasl_verify (rest x) = None /\ pending_identify (rest x) = None).
  { unfold verification_in_flight in Hf. apply orb_false_iff in Hf as [H1%bool_decide_eq_false H2%bool_decide_eq_false].
    rewrite <- !eq_None_not_Some in *. done. }
  assert (Hspent : inv (set_sessions <[conn := spent x]> s)).
  { eapply inv_session; try done. split; try done. cbn. lia. }
  pose proof (attempt_run conn s x Hx ltac:(lia)) as Hrun. destruct req as [r|].
  - assert (Hx1 : sessions (set_sessions <[conn := spent x]> s) !! conn = Some (spent x)) by apply lookup_set_sessions.
    destruct (db_takes e) eqn:Edb.
    + eapply (ok_checked conn _ s x (queued (credential_epoch s) x) r); try done; [|auto|lia|right; apply Hf'].
      apply require_cred_payload_run; [done|lia|done].
    + eapply (ok_jump conn _ () _ s x (with_rest (fun h => set_sasl Idle (set_sasl Verifying h)) (spent x)) [Numeric conn 904 [] (Some (bs "SASL authentication failed"))]); try done.
      * rewrite (bind_run _ _ _ _ _ Hrun). cbn [negb]. unfold queue_sasl_check. rewrite (bind_run _ _ _ _ _ (on_handshake_run conn _ _ _ Hx1)), set_sessions_twice.
        rewrite Edb. unfold sasl_fail. erewrite bind_run; [|eapply on_handshake_run; apply lookup_set_sessions]. by rewrite set_sessions_twice.
      * split; try done. cbn. lia.
      * destruct (quiet_numeric conn 904 [] (Some (bs "SASL authentication failed")) eq_refl conn) as [-> ->].
        apply changed_still; try done. cbn. lia.
      * intros k _. by apply quiet_numeric.
  - eapply (ok_bind _ _ _ (fun b s1 => b = true /\ sessions s1 !! conn = Some (spent x))).
    + eapply ok_jump; [exact Hrun|done|done|done|done|done| | | |].
      * by apply (inv_sessions _ Hspent conn), lookup_set_sessions.
      * apply changed_still; try done. cbn. lia.
      * done.
      * split; [done|apply lookup_set_sessions].
    + intros b s1 Hi1 [-> Hx1]. by eapply sasl_fail_ok.
Qed.

Lemma sasl_request_addressed conn mech payload r : sasl_request conn mech payload = Some r -> addressed conn r.
Proof. unfold sasl_request. destruct mech; intros (? & _ & ->)%fmap_Some; done. Qed.

Lemma attempt_ok conn s x :
  inv s -> sessions s !! conn = Some x ->
  ok conn (credential_attempt_ok c conn) (fun b s1 => b = true -> s1 = set_sessions <[conn := spent x]> s) s.
Proof.
  intros Hi Hx. destruct (inv_sessions _ Hi _ _ Hx) as [Hat Hver Hsing Hbuf Hheld Hep].
  destruct (Z_le_gt_dec LIMIT (credential_attempts (rest x))) as [Ha|Ha].
  { eapply ok_mono; [by eapply attempt_closes|]. intros b s1 _ ->. done. }
  eapply ok_jump; [apply (attempt_run conn s x Hx); lia|done|done|done|done|done| | |done|done].
  - split; try done. cbn. lia.
  - apply changed_still; try done. cbn. lia.
Qed.

Lemma sasl_chunk_ok conn arg s x : inv s -> sessions s !! conn = Some x -> ok conn (sasl_chunk c e conn arg x) (fun _ _ => True) s.
Proof.
  intros Hi Hx. destruct (inv_sessions _ Hi _ _ Hx) as [Hat Hver Hsing Hbuf Hheld Hep]. unfold sasl_chunk.
  set (piece := if str_eqb arg (bs "+") then [] else arg).
  destruct (Nat.ltb_spec MAX_AUTHENTICATE_PAYLOAD_LEN (length (sasl_buf (rest x)) + length piece)) as [Hover|Hfit].
  - eapply ok_bind; [by apply (attempt_ok conn s x)|]. intros [|] s1 Hi1 Hs1; cbn [negb]; [|by apply ok_ret]. rewrite (Hs1 eq_refl) in *.
    eapply ok_bind; [apply (ok_handshake_at conn _ _ (spent x)); [done|apply lookup_set_sessions|by split|]|].
    + destruct (inv_sessions _ Hi1 conn (spent x) (lookup_set_sessions _ _ _)). split; try done. cbn. lia.
    + intros ? s2 Hi2 ->. eapply sasl_fail_ok; [done|apply lookup_set_sessions].
  - eapply ok_bind; [apply (ok_handshake_at conn _ s x); [done|done|by split|]|].
    { split; try done. cbn. by rewrite length_app. }
    intros ? s1 Hi1 ->. destruct (length arg =? MAX_AUTHENTICATE_CHUNK_LEN)%nat; [by apply ok_ret|].
    eapply ok_bind; [apply (ok_handshake_at conn _ _ (with_rest (set_sasl_buf (sasl_buf (rest x) ++ piece)) x)); [done|apply lookup_set_sessions|by split|]|].
    { split; try done. cbn. lia. }
    intros ? s2 Hi2 ->. rewrite set_sessions_twice in *. destruct (verification_in_flight (rest x)) eqn:Hf.
    + eapply sasl_fail_ok; [done|apply lookup_set_sessions].
    + eapply require_cred_payload_ok; [done|apply lookup_set_sessions|done|]. intros r. apply sasl_request_addressed.
Qed.

Lemma cmd_authenticate_ok conn p s x : inv s -> sessions s !! conn = Some x -> ok conn (cmd_authenticate c e conn p) (fun _ _ => True) s.
Proof.
  intros Hi Hx. destruct (inv_sessions _ Hi _ _ Hx) as [Hat Hver Hsing Hbuf Hheld Hep]. unfold cmd_authenticate. eapply ok_session; [done|].
  destruct (negb (cap_sasl_enabled (cap_config c)) || _); [by eapply sasl_fail_ok|].
  destruct p as [|arg p]; [eapply ok_mono; [by apply ok_numeric|done]|]. case_bool_decide; [eapply ok_mono; [by apply ok_numeric|done]|].
  destruct (str_eqb arg (bs "*")); [by eapply sasl_end_ok; eauto|].
  destruct (MAX_AUTHENTICATE_CHUNK_LEN <? length arg)%nat; [by eapply sasl_end_ok; eauto|].
  assert (Hpend : forall st, st <> Verifying -> ok conn (on_handshake conn (set_sasl st);; send conn (bs "AUTHENTICATE +")) (fun _ _ => True) s).
  { intros st Hst. eapply (ok_bind _ _ _ (fun _ _ => True)); [|intros; by apply ok_emit].
    eapply ok_on_handshake; [done|done|by split| |done]. by split. }
  destruct (sasl (rest x)) eqn:Es; [|by apply sasl_chunk_ok|by apply sasl_chunk_ok|by eapply sasl_end_ok; eauto].
  destruct (eq_ignore_ascii_case arg (bs "PLAIN")); [by apply Hpend|]. destruct (eq_ignore_ascii_case arg (bs "OAUTHBEARER")); [by apply Hpend|].
  ok_skip. by eapply sasl_fail_ok.
Qed.

Lemma nickserv_identify_ok conn args s x :
  inv s -> sessions s !! conn = Some x -> Session.is_registered x = true -> ok conn (nickserv_identify c e conn args) (fun _ _ => True) s.
Proof.
  intros Hi Hx Hr. destruct (inv_sessions _ Hi _ _ Hx) as [Hat Hver Hsing Hbuf Hheld Hep]. unfold nickserv_identify. eapply ok_session; [done|].
  eapply (ok_bind _ _ _ (fun _ s' => s' = s)).
  { destruct args as [|a [|b [|? ?]]]; try (by apply ok_ret).
    destruct (Session.nick x) as [n|] eqn:En; [|unfold Session.nick, Session.is_registered in *; by destruct (reg x)].
    eapply ok_expect; [done|]. by apply ok_ret. }
  intros [[account password]|] s' _ ->; [|by apply ok_emit]. destruct (verification_in_flight (rest x)) eqn:Hf; [by apply ok_emit|].
  assert (Hf' : sasl_verify (rest x) = None /\ pending_identify (rest x) = None).
  { unfold verification_in_flight in Hf. apply orb_false_iff in Hf as [H1%bool_decide_eq_false H2%bool_decide_eq_false].
    rewrite <- !eq_None_not_Some in *. done. }
  destruct (Z_le_gt_dec LIMIT (credential_attempts (rest x))) as [Ha|Ha].
  { eapply ok_bind; [by eapply attempt_closes|]. intros b s1 Hi1 ->. by apply ok_ret. }
  pose proof (attempt_run conn s x Hx ltac:(lia)) as Hrun. destruct (db_takes e) eqn:Edb.
  - eapply (ok_checked conn _ s x (with_rest (fun h => set_verify_epoch (credential_epoch s) (set_pending_identify (Some (captured_label e)) h)) (spent x))
      (VerifyPassword conn account password NickServIdentify)); try done; [|lia|left; apply Hf'].
    rewrite (bind_run _ _ _ _ _ Hrun). cbn [negb]. unfold mbind at 1, M_bind at 1. cbn [emit].
    erewrite bind_run; [|eapply on_handshake_run; apply lookup_set_sessions]. rewrite set_sessions_twice.
    erewrite credential_check_run; [|apply lookup_set_sessions]. by rewrite set_sessions_twice.
  - eapply ok_bind; [by apply (attempt_ok conn s x)|]. intros [|] s1 Hi1 _; cbn [negb]; [by apply ok_emit|by apply ok_ret].
Qed.

(** ** Registering an account *)

Lemma register_fail_ok conn code account detail s : inv s -> ok conn (register_fail c conn code account detail) (fun _ _ => True) s.
Proof. intros Hi. by apply ok_emit. Qed.

Lemma ok_pending_register conn v Q s x :
  inv s -> sessions s !! conn = Some x -> Q () (set_sessions <[conn := with_rest (set_pending_register v) x]> s) ->
  ok conn (on_handshake conn (set_pending_register v)) Q s.
Proof. intros Hi Hx HQ. eapply ok_on_handshake; [done|done|by split| |done]. by destruct (inv_sessions _ Hi _ _ Hx). Qed.

(** An attempt is spent, and the request goes off where the queue takes it. *)
Lemma create_account_ok conn (sent refused : M unit) s x :
  inv s -> sessions s !! conn = Some x ->
  (forall s1 x1, inv s1 -> sessions s1 !! conn = Some x1 -> ok conn sent (fun _ _ => True) s1) ->
  (forall s1, inv s1 -> ok conn refused (fun _ _ => True) s1) ->
  ok conn (ok ← credential_attempt_ok c conn; if negb ok then mret () else if db_takes e then sent else refused) (fun _ _ => True) s.
Proof.
  intros Hi Hx Hs Hr. eapply ok_bind; [by apply (attempt_ok conn s x)|]. intros [|] s1 Hi1 Hs1; cbn [negb]; [|by apply ok_ret].
  rewrite (Hs1 eq_refl) in *. destruct (db_takes e); [|by apply Hr]. by apply (Hs _ (spent x)); [|apply lookup_set_sessions].
Qed.

Lemma cmd_register_ok conn p s x : inv s -> sessions s !! conn = Some x -> ok conn (cmd_register c e conn p) (fun _ _ => True) s.
Proof.
  intros Hi Hx. unfold cmd_register. eapply ok_session; [done|].
  repeat first [by apply register_fail_ok | eapply create_account_ok; [done|done| |by intros; apply register_fail_ok] | case_match].
  all: intros s1 x1 Hi1 Hx1; ok_skip; by eapply ok_pending_register.
Qed.

Lemma nickserv_register_ok conn args s x :
  inv s -> sessions s !! conn = Some x -> Session.is_registered x = true -> ok conn (nickserv_register c e conn args) (fun _ _ => True) s.
Proof.
  intros Hi Hx Hr. unfold nickserv_register.
  assert (Hc : forall password (contact_email : option str),
    ok conn (match new_password (minimum_chars c) password with
      | Err refusal => service_notice conn (bs "NickServ") (password_explanation refusal)
      | Ok password =>
          x ← session conn;
          if bool_decide (is_Some (account x)) then service_notice conn (bs "NickServ") (bs "You are already logged in.")
          else
            name ← expect (Session.nick x);
            match unclaimable_notice c name with
            | Some text => service_notice conn (bs "NickServ") text
            | None =>
                if negb (registration_takes e)
                then service_notice conn (bs "NickServ") (bs "Too many account registrations from your address. Try again later.")
                else
                  ok ← credential_attempt_ok c conn;
                  if negb ok then mret ()
                  else if db_takes e then emit (Push (CreateAccount conn name contact_email password FromNickServ))
                  else services_unavailable conn (bs "NickServ")
            end
      end) (fun _ _ => True) s).
  { intros password contact_email. destruct (new_password _ _) as [password'|]; [|by apply ok_emit]. eapply ok_session; [done|].
    case_bool_decide; [by apply ok_emit|].
    destruct (Session.nick x) as [n|] eqn:En; [|unfold Session.nick, Session.is_registered in *; by destruct (reg x)].
    eapply ok_expect; [done|]. destruct (unclaimable_notice c n); [by apply ok_emit|]. destruct (negb (registration_takes e)); [by apply ok_emit|].
    eapply create_account_ok; [done|done| |]; intros; by apply ok_emit. }
  destruct args as [|password [|email [|? ?]]]; try by apply ok_emit.
  - destruct (registration_require_email _); [by apply ok_emit|apply Hc].
  - destruct (parse_contact_email email); [apply Hc|by apply ok_emit].
Qed.

Lemma take_register_ok conn s x :
  inv s -> sessions s !! conn = Some x ->
  ok conn (take_register_label conn) (fun _ s1 => sessions s1 !! conn = Some (with_rest (set_pending_register None) x)) s.
Proof.
  intros Hi Hx. unfold take_register_label. eapply ok_session; [done|].
  eapply (ok_bind _ _ _ (fun _ s1 => sessions s1 !! conn = Some (with_rest (set_pending_register None) x))).
  - eapply ok_pending_register; [done|done|]. apply lookup_set_sessions.
  - intros ? s1 Hi1 Hx1. by apply ok_ret.
Qed.

Lemma registered_answer_ok conn (m : M unit) s x :
  inv s -> sessions s !! conn = Some x ->
  (forall s1 x1, inv s1 -> sessions s1 !! conn = Some x1 -> ok conn m (fun _ _ => True) s1) ->
  ok conn (label ← take_register_label conn; emit_deferred_labeled conn label m) (fun _ _ => True) s.
Proof. intros Hi Hx Hm. eapply ok_bind; [by eapply take_register_ok|]. intros label s1 Hi1 Hx1. apply ok_labelled. exact (Hm _ _ Hi1 Hx1). Qed.

(** A created account is logged in, then the client is told. *)
Lemma created_ok conn account (told : M unit) s x :
  inv s -> sessions s !! conn = Some x -> (forall l, login_account l = account -> login_credential l = AccountPassword -> G l) ->
  (forall s1, inv s1 -> ok conn told (fun _ _ => True) s1) ->
  ok conn (set_account c e conn account AccountPassword None;; told) (fun _ _ => True) s.
Proof. intros Hi Hx HG Ht. eapply ok_bind; [by eapply ok_set_account|]. intros ? s1 Hi1 _. by apply Ht. Qed.

Lemma account_reply_ok conn reply s :
  inv s -> (forall account origin l, reply = AccountCreated account origin -> login_account l = account -> login_credential l = AccountPassword -> G l) ->
  ok conn (account_reply c e conn reply) (fun _ _ => True) s.
Proof.
  intros Hi HG. unfold account_reply. apply ok_get. destruct (sessions s !! conn) as [x|] eqn:Hx; [|by apply ok_ret].
  assert (Hn : forall account s1, inv s1 -> ok conn (notify_account_change conn account) (fun _ _ => True) s1)
    by (intros account s1 Hi1; eapply ok_mono; [by apply ok_notify_account_change|done]).
  destruct reply as [[|]|account [|]|[|]]; try by apply ok_emit.
  - eapply registered_answer_ok; [done|done|]. intros. by apply register_fail_ok.
  - eapply created_ok; [done|done|by intros l; eapply HG|]. intros s1 Hi1. ok_skip. by apply Hn.
  - eapply ok_bind; [by eapply take_register_ok|]. intros label s1 Hi1 Hx1. eapply (ok_bind _ _ _ (fun _ _ => True)); [|by intros; apply Hn].
    apply ok_labelled. eapply created_ok; [done|exact Hx1|by intros l; eapply HG|]. intros s2 Hi2. by apply ok_emit.
  - eapply registered_answer_ok; [done|done|]. intros. by apply register_fail_ok.
Qed.

(** ** Verdicts *)

Lemma ok_via {A} conn (m m' : M A) Q s s1 : m s = m' s1 -> moves conn s [] s1 -> ok conn m' Q s1 -> ok conn m Q s.
Proof.
  intros E Hm. unfold ok. rewrite E. destruct (m' s1) as [[[a s2] out]|]; [|done]. intros (? & ? & ?). split; [done|]. split; [|done].
  by apply (moves_trans conn s [] s1 out s2).
Qed.

Lemma notice_labelled conn label text s : inv s ->
  ok conn (emit_labeled_unheld conn label (service_notice conn (bs "NickServ") text)) (fun _ s' => s' = s) s.
Proof. intros Hi. apply ok_labelled. by apply ok_emit. Qed.

Lemma take_identify_ok conn s x :
  inv s -> sessions s !! conn = Some x ->
  ok conn (take_identify_label conn) (fun l s1 => l = pending_identify (rest x)
     /\ s1 = set_sessions <[conn := with_rest (set_pending_identify None) x]> s) s.
Proof.
  intros Hi Hx. unfold take_identify_label. eapply ok_session; [done|]. eapply ok_bind; [apply (ok_handshake_at conn _ s x); [done|done| |]|].
  - split; try done. unfold verification_in_flight. cbn. rewrite orb_false_r. intros ->. done.
  - destruct (inv_sessions _ Hi _ _ Hx). split; try done. by right.
  - intros ? s1 Hi1 ->. by apply ok_ret.
Qed.

Lemma verify_denied_identify_ok conn label denial s x :
  inv s -> sessions s !! conn = Some x ->
  ok conn (verify_denied conn NickServIdentify label denial) (fun _ s1 => is_Some (sessions s1 !! conn)) s.
Proof.
  intros Hi Hx. unfold verify_denied. eapply ok_bind; [by apply take_identify_ok|]. intros l s1 Hi1 [-> ->].
  destruct (pending_identify (rest x)) as [label'|]; [|apply ok_ret; [done|rewrite lookup_set_sessions; eauto]].
  eapply ok_session; [apply lookup_set_sessions|]. eapply ok_mono; [by apply notice_labelled|]. intros ? ? _ ->. rewrite lookup_set_sessions. eauto.
Qed.

(** A verdict for an attempt that was aborted is dropped. *)
Lemma verify_denied_aborted_ok conn label denial s x :
  inv s -> sessions s !! conn = Some x -> sasl (rest x) <> Verifying ->
  ok conn (verify_denied conn OriginSasl label denial) (fun _ s1 => s1 = s) s.
Proof.
  intros Hi Hx Hv. unfold verify_denied, sasl_verdict. eapply ok_session; [done|]. rewrite decide_False by done. apply ok_labelled. by apply ok_ret.
Qed.

Definition answered (x : Session) : Session := with_rest (set_sasl_verify None) x.
Definition concluded (x : Session) : Session := with_rest (set_sasl Idle) (answered x).

Lemma answered_flight x : verification_in_flight (rest (answered x)) = true -> verification_in_flight (rest x) = true.
Proof. unfold verification_in_flight. cbn. intros ->. apply orb_true_r. Qed.

Lemma concluded_moves conn s x :
  inv s -> sessions s !! conn = Some x -> inv (set_sessions <[conn := concluded x]> s) /\ moves conn s [] (set_sessions <[conn := concluded x]> s).
Proof.
  intros Hi Hx. destruct (inv_sessions _ Hi _ _ Hx). split.
  - eapply inv_session; try done. split; try done. by left.
  - apply (moves_session conn s x); [done|]. apply changed_still; try done. intros Hf. split; [|done]. by apply answered_flight.
Qed.

Lemma labelled_handshake conn label f (m : M unit) s x :
  sessions s !! conn = Some x ->
  emit_labeled_unheld conn label (on_handshake conn f;; m) s = emit_labeled_unheld conn label m (set_sessions <[conn := with_rest f x]> s).
Proof. intros Hx. unfold emit_labeled_unheld. by rewrite (bind_run _ _ _ _ _ (on_handshake_run conn f s x Hx)). Qed.

Lemma verdict_denial_same conn reply s x f :
  sessions s !! conn = Some x -> verify_epoch (f (rest x)) = verify_epoch (rest x) ->
  verdict_denial c conn reply (set_sessions <[conn := with_rest f x]> s) = verdict_denial c conn reply s.
Proof.
  intros Hx Hv. unfold verdict_denial. destruct reply as [account credential expires_in origin| | |]; try done.
  change (is_account_suspended c account (set_sessions <[conn := with_rest f x]> s)) with (is_account_suspended c account s).
  destruct (is_account_suspended c account s); [done|]. unfold stale_verdict. rewrite lookup_set_sessions, Hx. cbn. unfold ended_since. cbn. by rewrite Hv.
Qed.

Definition denial_text (denial : Denial) : str :=
  match denial with
  | Rejected => bs "SASL authentication failed"
  | Throttled retry_after => retry_explanation retry_after
  | DenialUnavailable => bs "SASL authentication temporarily unavailable"
  | Rechecked => RECHECKED
  end.

Lemma bind_same {A B} (m m' : M A) (f : A -> M B) s s' : m s = m' s' -> (m ≫= f) s = (m' ≫= f) s'.
Proof. intros E. unfold mbind, M_bind. by rewrite E. Qed.

Lemma verify_denied_run conn label denial s x :
  sessions s !! conn = Some x -> sasl (rest x) = Verifying ->
  verify_denied conn OriginSasl label denial (set_sessions <[conn := answered x]> s)
  = emit_labeled_unheld conn label (numeric conn 904 [] (Some (denial_text denial))) (set_sessions <[conn := concluded x]> s).
Proof.
  intros Hx Hv. unfold verify_denied, sasl_verdict. erewrite bind_run; [|apply session_run, lookup_set_sessions].
  rewrite decide_True by done.
  destruct denial; unfold sasl_fail, sasl_throttled, sasl_unavailable, sasl_rechecked; erewrite labelled_handshake by apply lookup_set_sessions;
    by rewrite set_sessions_twice.
Qed.

Lemma take_sasl_run conn s x :
  sessions s !! conn = Some x -> take_sasl_label conn s = Some (mjoin (sasl_verify (rest x)), set_sessions <[conn := answered x]> s, []).
Proof.
  intros Hx. unfold take_sasl_label. rewrite (bind_run _ _ _ _ _ (session_run conn s x Hx)). by rewrite (bind_run _ _ _ _ _ (on_handshake_run conn _ s x Hx)).
Qed.

Lemma logged_in_ok conn label account credential expires_in (last : M unit) s x :
  inv s -> sessions s !! conn = Some x -> (forall l, login_account l = account -> login_credential l = credential -> G l) ->
  (forall s', inv s' -> ok conn last (fun _ s'' => s'' = s') s') ->
  ok conn (again ← (emit_labeled_unheld conn label (set_account c e conn account credential expires_in;; last);;
                    notify_account_change conn account;; mret true);
           if again : bool then maybe_complete_registration c e conn else mret ()) (fun _ _ => True) s.
Proof.
  intros Hi Hx HG Hlast. eapply (ok_bind _ _ _ (fun b s1 => b = true /\ is_Some (sessions s1 !! conn))).
  - eapply (ok_bind _ _ _ (fun _ s1 => is_Some (sessions s1 !! conn))).
    + apply ok_labelled. eapply ok_bind; [by eapply ok_set_account|]. intros ? s1 Hi1 (x1 & Hx1 & _).
      eapply ok_mono; [by apply Hlast|]. intros ? ? _ ->. eauto.
    + intros ? s1 Hi1 Hx1. eapply ok_bind; [by apply ok_notify_account_change|]. intros ? ? _ ->. by apply ok_ret.
  - intros b s1 Hi1 [-> [x1 Hx1]]. by eapply maybe_complete_ok.
Qed.

(** The logins a verdict may make. *)
Definition verdict_logs_in (conn : Z) (reply : DbReply) (s : Core) (x : Session) : Prop :=
  forall account credential expires_in origin l, reply = PasswordVerified account credential expires_in origin ->
    verdict_denial c conn reply s = None -> verification_in_flight (rest x) = true ->
    login_account l = account -> login_credential l = credential -> G l.

Lemma then_complete_ok conn (m : M unit) s :
  ok conn m (fun _ s1 => is_Some (sessions s1 !! conn)) s ->
  ok conn (again ← (m;; mret true); if again : bool then maybe_complete_registration c e conn else mret ()) (fun _ _ => True) s.
Proof.
  intros Hm. eapply (ok_bind _ _ _ (fun b s1 => b = true /\ is_Some (sessions s1 !! conn))).
  - eapply ok_bind; [exact Hm|]. intros ? s1 Hi1 Hx1. by apply ok_ret.
  - intros b s1 Hi1 [-> [x1 Hx1]]. by eapply maybe_complete_ok.
Qed.

Lemma conclude_identify_ok conn reply s x :
  inv s -> sessions s !! conn = Some x -> reply_origin reply = NickServIdentify -> verdict_logs_in conn reply s x ->
  ok conn (conclude c e conn reply None) (fun _ _ => True) s.
Proof.
  intros Hi Hx Ho HG. unfold conclude. apply ok_get. rewrite Ho. destruct (verdict_denial c conn reply s) as [denial|] eqn:Hd.
  { eapply ok_mono; [by eapply verify_denied_identify_ok|done]. }
  destruct reply as [account credential expires_in o|o|o retry_after|o]; cbn [reply_origin] in Ho; subst o;
    try (apply then_complete_ok; by eapply verify_denied_identify_ok).
  unfold apply_verdict. destruct (pending_identify (rest x)) as [label|] eqn:Hp.
  - assert (E : (take_identify_label conn) s = Some (Some label, set_sessions <[conn := with_rest (set_pending_identify None) x]> s, [])).
    { unfold take_identify_label. rewrite (bind_run _ _ _ _ _ (session_run conn s x Hx)), (bind_run _ _ _ _ _ (on_handshake_run conn _ s x Hx)). by rewrite Hp. }
    pose proof (take_identify_ok conn s x Hi Hx) as Hok. unfold ok in Hok. rewrite E in Hok. destruct Hok as (Hi1 & Hm1 & _).
    eapply ok_via; [apply bind_same; apply (bind_run _ _ _ _ _ E)|exact Hm1|].
    eapply logged_in_ok; [done|apply lookup_set_sessions| |].
    + intros l El Ec. eapply HG; eauto. unfold verification_in_flight. rewrite Hp. cbn. apply orb_true_r.
    + intros s' Hi'. by apply ok_emit.
  - eapply (ok_bind _ _ _ (fun b _ => b = false)); [|intros b s1 Hi1 ->; by apply ok_ret].
    eapply ok_bind; [by apply take_identify_ok|]. rewrite Hp. intros l s1 Hi1 [-> ->]. by apply ok_ret.
Qed.

(** A login the store verified, of an attempt still being verified. *)
Definition accepted (conn : Z) (label : option str) (account : str) (credential : CredentialId) (expires_in : option Z) : M bool :=
  emit_labeled_unheld conn label
    (set_account c e conn account credential expires_in;; numeric conn 903 [] (Some (bs "SASL authentication successful")));;
  notify_account_change conn account;; mret true.

Lemma accepted_run conn label account credential expires_in s x :
  sessions s !! conn = Some x -> sasl (rest x) = Verifying ->
  apply_verdict c e conn (PasswordVerified account credential expires_in OriginSasl) label (set_sessions <[conn := answered x]> s)
  = accepted conn label account credential expires_in (set_sessions <[conn := concluded x]> s).
Proof.
  intros Hx Hv. unfold apply_verdict, accepted. erewrite bind_run; [|apply session_run, lookup_set_sessions].
  rewrite decide_True by done. apply bind_same. unfold sasl_verdict. erewrite bind_run; [|apply session_run, lookup_set_sessions].
  rewrite decide_True by done. erewrite labelled_handshake by apply lookup_set_sessions. by rewrite set_sessions_twice.
Qed.

(** The verdict of an attempt still being verified: it ends there, whatever it is. *)
Lemma conclude_verifying_ok conn reply label s x :
  inv s -> sessions s !! conn = Some x -> reply_origin reply = OriginSasl -> sasl (rest x) = Verifying -> verdict_logs_in conn reply s x ->
  exists m', conclude c e conn reply label (set_sessions <[conn := answered x]> s) = m' (set_sessions <[conn := concluded x]> s)
    /\ ok conn m' (fun _ _ => True) (set_sessions <[conn := concluded x]> s).
Proof.
  intros Hi Hx Ho Hv HG. destruct (concluded_moves conn s x Hi Hx) as [Hi1 _]. set (s1 := set_sessions <[conn := concluded x]> s) in *.
  assert (Hx1 : sessions s1 !! conn = Some (concluded x)) by apply lookup_set_sessions.
  assert (Hlab : forall denial, ok conn (emit_labeled_unheld conn label (numeric conn 904 [] (Some (denial_text denial))))
     (fun _ s' => is_Some (sessions s' !! conn)) s1).
  { intros denial. apply ok_labelled. eapply ok_mono; [by apply ok_numeric|]. intros ? ? _ ->. eauto. }
  unfold conclude. erewrite bind_run; [|reflexivity]. unfold answered at 1. rewrite verdict_denial_same by done. rewrite Ho.
  destruct (verdict_denial c conn reply s) as [denial|] eqn:Hd.
  { eexists. split; [by apply verify_denied_run|]. eapply ok_mono; [apply Hlab|done]. }
  destruct reply as [account credential expires_in o|o|o retry_after|o]; cbn [reply_origin] in Ho; subst o;
    try (eexists; split; [apply bind_same, bind_same, verify_denied_run; done|by apply then_complete_ok]).
  eexists. split; [by apply bind_same, accepted_run|].
  eapply logged_in_ok; [done|done| |by intros; apply ok_numeric]. intros l El Ec. eapply HG; eauto.
  unfold verification_in_flight. apply orb_true_iff. left. apply bool_decide_eq_true. by apply (inv_sessions _ Hi _ _ Hx).
Qed.

(** The verdict of an attempt that was aborted changes nothing more. *)
Lemma conclude_aborted_ok conn reply label s x :
  inv s -> sessions s !! conn = Some x -> reply_origin reply = OriginSasl -> sasl (rest x) <> Verifying ->
  ok conn (conclude c e conn reply label) (fun _ _ => True) s.
Proof.
  intros Hi Hx Ho Hv. unfold conclude. apply ok_get. rewrite Ho.
  destruct (verdict_denial c conn reply s) as [denial|] eqn:Hd; [eapply ok_mono; [by eapply verify_denied_aborted_ok|done]|].
  destruct reply as [account credential expires_in o|o|o retry_after|o]; cbn [reply_origin] in Ho; subst o;
    try (apply then_complete_ok; eapply ok_mono; [by eapply verify_denied_aborted_ok|intros ? ? _ ->; eauto]).
  eapply (ok_bind _ _ _ (fun b _ => b = false)); [|intros b s2 Hi2 ->; by apply ok_ret].
  unfold apply_verdict. eapply ok_session; [done|]. rewrite decide_False by done.
  eapply ok_bind; [|intros u s2 Hi2 _; by apply ok_ret]. unfold sasl_verdict. eapply ok_session; [done|]. rewrite decide_False by done.
  apply (ok_labelled conn conn label _ (fun _ _ => True)). by apply ok_ret.
Qed.

Lemma db_reply_ok conn reply s x :
  inv s -> sessions s !! conn = Some x -> verdict_logs_in conn reply s x -> ok conn (db_reply c e conn reply) (fun _ _ => True) s.
Proof.
  intros Hi Hx HG. destruct (inv_sessions _ Hi _ _ Hx) as [Hat Hver Hsing Hbuf Hheld Hep]. unfold db_reply. apply ok_get. rewrite decide_True by (rewrite Hx; eauto).
  destruct (reply_origin reply) eqn:Ho.
  2:{ eapply (ok_bind _ _ _ (fun l s' => l = None /\ s' = s)); [by apply ok_ret|]. intros l s' _ [-> ->]. by eapply conclude_identify_ok. }
  destruct (decide (sasl (rest x) = Verifying)) as [Hv|Hv].
  - destruct (concluded_moves conn s x Hi Hx) as [Hi1 Hm1].
    destruct (conclude_verifying_ok conn reply (mjoin (sasl_verify (rest x))) s x Hi Hx Ho Hv HG) as (m' & E & Hok).
    eapply ok_via; [|exact Hm1|exact Hok]. by rewrite (bind_run _ _ _ _ _ (take_sasl_run conn s x Hx)).
  - assert (Hi1 : inv (set_sessions <[conn := answered x]> s)) by (eapply inv_session; try done; split; try done; by left).
    assert (Hm1 : moves conn s [] (set_sessions <[conn := answered x]> s)).
    { apply (moves_session conn s x); [done|]. apply changed_still; try done. intros Hf. split; [|done]. by apply answered_flight. }
    eapply ok_via; [apply (bind_run _ _ _ _ _ (take_sasl_run conn s x Hx))|done|].
    eapply conclude_aborted_ok; [done|apply lookup_set_sessions|done|done].
Qed.
End Moves.
End Safety.
