(* ===== verification/HandshakeRun.v ===== *)
(** * Runs of registration and authentication

    Every event a shard can be given, in any order, from the empty shard: none
    panics and the invariant of [HandshakeSafety] holds; a connection is
    welcomed once, through the gate, and has a bounded number of credentials
    checked; and a session is logged in only by a verdict whose credentials
    still stand. *)

From stdpp Require Import gmap.
From S2P Require Import Prelude Str Num Casemap Mask Wire Keys Ip Address BanMask Message Sanitize Proxy Sasl HistoryRequest Middle Session Nicks Channel ChannelState Directories Multimap Users Events Multiline ModeChange ChannelOps Cap Identity Handshake HandshakeSafety.

Local Open Scope Z_scope.

(** A run so far, the latest event first: each event with what it sent. *)
Abbreviation Trace := (list (Input * list Effect)).

Section Run.
Context `{IpNet} (c : Config).

(** ** Computations over several connections *)

Section Steps.
Context (e : Env) (G : Z -> Login -> Prop).

Record evolves (s : Core) (out : list Effect) (s' : Core) : Prop := {
  ev_epoch : credential_epoch s' = credential_epoch s;
  ev_ended : credentials_ended s' = credentials_ended s;
  ev_bans : server_bans s' = server_bans s;
  ev_conn : forall conn, moved c e (G conn) s (sessions s !! conn) (sessions s' !! conn) (welcomes conn out) (checks conn out);
}.

Lemma moves_evolves conn s out s' : moves c e (G conn) conn s out s' -> evolves s out s'.
Proof.
  intros [? ? ? ? ? Ho Hc]. split; [done..|]. intros k. destruct (decide (k = conn)) as [->|Hk]; [done|].
  destruct (Ho k Hk) as (-> & -> & ->). apply moved_refl.
Qed.

Lemma evolves_trans s out s' out' s'' : evolves s out s' -> evolves s' out' s'' -> evolves s (out ++ out') s''.
Proof.
  intros [E1 D1 B1 C1] [E2 D2 B2 C2]. split; [congruence..|]. intros k. rewrite welcomes_app, checks_app. by eapply moved_trans.
Qed.

Definition oks {A} (m : M A) (Q : A -> Core -> Prop) (s : Core) : Prop :=
  match m s with
  | Some (a, s', out) => inv c s' /\ evolves s out s' /\ Q a s'
  | None => False
  end.

Lemma oks_ok {A} conn (m : M A) Q s : ok c e (G conn) conn m Q s -> oks m Q s.
Proof. unfold ok, oks. destruct (m s) as [[[a s'] out]|]; [|done]. intros (? & ?%moves_evolves & ?). done. Qed.

Lemma oks_bind {A B} (m : M A) (f : A -> M B) P Q s :
  oks m P s -> (forall a s', inv c s' -> P a s' -> oks (f a) Q s') -> oks (m ≫= f) Q s.
Proof.
  unfold oks, mbind, M_bind. destruct (m s) as [[[a s1] out]|]; [|done]. intros (Hi & Hm & Hp) Hf. specialize (Hf a s1 Hi Hp).
  destruct (f a s1) as [[[b s2] out2]|]; [|done]. destruct Hf as (? & ? & ?). split; [done|]. split; [|done]. by eapply evolves_trans.
Qed.

Lemma oks_ret {A} (a : A) (Q : A -> Core -> Prop) s : inv c s -> Q a s -> oks (mret a) Q s.
Proof. intros Hi HQ. apply (oks_ok 0). by apply ok_ret. Qed.

Lemma oks_get {B} (f : Core -> M B) Q s : oks (f s) Q s -> oks (get ≫= f) Q s.
Proof. unfold oks, mbind, M_bind, get. by destruct (f s s) as [[[? ?] ?]|]. Qed.

Lemma oks_each {A} (f : A -> M unit) (l : list A) s :
  inv c s -> (forall a s', inv c s' -> oks (f a) (fun _ _ => True) s') -> oks (each f l) (fun _ _ => True) s.
Proof.
  intros Hi Hf. revert s Hi. induction l as [|a l IH]; intros s Hi; cbn [each]; [by apply oks_ret|].
  eapply oks_bind; [by apply Hf|]. intros u s' Hi' _. by apply IH.
Qed.

Lemma close_each_ok (reason : Z -> str) l s : inv c s -> oks (each (fun conn => close_with_error c conn (reason conn)) l) (fun _ _ => True) s.
Proof. intros Hi. apply oks_each; [done|]. intros k s' Hi'. apply (oks_ok k). eapply ok_mono; [by apply ok_close_with_error|done]. Qed.

Lemma disconnect_account_ok key reason actor s : inv c s -> oks (disconnect_account c key reason actor) (fun _ _ => True) s.
Proof.
  intros Hi. unfold disconnect_account. apply oks_get. apply oks_each; [done|]. intros k s' Hi'. apply (oks_ok k).
  unfold disconnect_suspended. apply ok_get. destruct (sessions s' !! k) as [x|]; [|by apply ok_ret]. destruct (Session.is_registered x).
  - destruct (Session.nick x) as [target|]; [|by apply ok_ret]. unfold close_killed.
    do 2 (eapply (ok_bind _ _ _ _ _ _ (fun _ s1 => s1 = s')); [by apply ok_emit|intros ? ? _ ->]). eapply ok_mono; [by apply ok_close_with_error|done].
  - eapply (ok_bind _ _ _ _ _ _ (fun _ s1 => s1 = s')); [by apply ok_emit|intros ? ? _ ->]. eapply ok_mono; [by apply ok_close|done].
Qed.

Lemma enforce_one_ok conn s x : inv c s -> sessions s !! conn = Some x -> ok c e (G conn) conn (enforce_one c e conn) (fun _ _ => True) s.
Proof.
  intros Hi Hx. unfold enforce_one. eapply ok_session; [done|]. apply ok_get.
  assert (Hrel : ok c e (G conn) conn (on_handshake conn (fun h => set_nick_enforcement (enf_release (nick_enforcement h)) h)) (fun _ _ => True) s)
    by (by eapply ok_release_enforcement).
  destruct (enforced_protector c conn s) as [[[n key] protector]|]; [|done].
  destruct (decide _) as [Hh|]; [|done]. eapply (enforce_rename_ok c e (G conn) 1); [done|done|].
  destruct (inv_sessions _ _ Hi _ _ Hx) as [_ _ _ _ Hheld _]. apply Hheld. rewrite Hh. eauto.
Qed.

Lemma enforce_each_ok l s :
  inv c s -> NoDup l -> (forall k, k ∈ l -> is_Some (sessions s !! k)) -> oks (each (enforce_one c e) l) (fun _ _ => True) s.
Proof.
  revert s. induction l as [|conn l IH]; intros s Hi Hnd Hl; cbn [each]; [by apply oks_ret|].
  apply NoDup_cons in Hnd as [Hnot Hnd]. destruct (Hl conn) as [x Hx]; [left|].
  pose proof (enforce_one_ok conn s x Hi Hx) as Hok. eapply (oks_bind _ _ (fun _ s' => forall k, k ∈ l -> is_Some (sessions s' !! k))).
  - unfold ok, oks in *. destruct (enforce_one c e conn s) as [[[u s'] out]|]; [|done]. destruct Hok as (? & Hm & _). split; [done|].
    split; [by eapply moves_evolves|]. intros k Hk. destruct (mv_others _ _ _ _ _ _ _ Hm k) as (-> & _ & _); [set_solver|]. apply Hl. by right.
  - intros u s' Hi' Hl'. by apply IH.
Qed.

Lemma tick_ok now s : inv c s -> oks (expire_logins c now;; enforce_nick_protection c e now) (fun _ _ => True) s.
Proof.
  intros Hi. eapply (oks_bind _ _ (fun _ _ => True)); [unfold expire_logins; apply oks_get; by apply (close_each_ok (fun _ => _))|].
  intros u s' Hi' _. unfold enforce_nick_protection. apply oks_get. apply enforce_each_ok; [done| |].
  - apply NoDup_Lfilter. apply NoDup_fst_map_to_list.
  - intros k Hk. apply elem_of_Lfilter in Hk as [Hk _]. apply list_elem_of_fmap in Hk as ([k' x] & -> & Hk). apply elem_of_map_to_list in Hk. cbn. eauto.
Qed.
End Steps.

(** ** One event *)

(** What of the credentials an event ends. *)
Definition ended_by (i : Input) : option EndedSignIns :=
  match i with
  | AccountSessionsEnded account _ _ => Some (EndedAccount (account_key c account))
  | CredentialSessionsEnded credential => Some (EndedCredential credential)
  | RefuseVerdictsInFlight => Some EndedEvery
  | _ => None
  end.

(** What an event may log a connection in as: what the store verified, when
    the connection waits for the verdict and nothing denies it, or the account
    the store created. *)
Definition logs_in (i : Input) (s : Core) (conn : Z) (l : Login) : Prop :=
  (exists expires_in origin x,
    i = Verdict conn (PasswordVerified (login_account l) (login_credential l) expires_in origin)
    /\ verdict_denial c conn (PasswordVerified (login_account l) (login_credential l) expires_in origin) s = None
    /\ sessions s !! conn = Some x /\ verification_in_flight (rest x) = true)
  \/ (exists origin, i = AccountAnswered conn (AccountCreated (login_account l) origin) /\ login_credential l = AccountPassword).

(** What an event does to the session of [conn], with the welcomes sent to it
    and the credential checks queued for it. *)
Inductive turned (e : Env) (i : Input) (s s' : Core) (conn : Z) : option Session -> option Session -> nat -> nat -> Prop :=
| turned_moved o o' w q : moved c e (logs_in i s conn) s' o o' w q -> turned e i s s' conn o o' w q
| turned_out x : i = Line conn CmdLogout -> Session.is_registered x = true ->
    turned e i s s' conn (Some x) (Some (with_rest (set_login None) x)) 0 0
| turned_opened shown t : i = Opened conn shown t ->
    turned e i s s' conn None (Some (open_session shown (ip_parse (mask_middle shown)) t)) 0 0.

Definition ended_after (i : Input) (s : Core) : gmap EndedSignIns Z :=
  match ended_by i with
  | None => credentials_ended s
  | Some key =>
      match oldest_outstanding s with
      | None => ∅
      | Some oldest => <[key := credential_epoch s + 1]> (filter (fun kv => oldest < kv.2) (credentials_ended s))
      end
  end.

Record stepped (e : Env) (i : Input) (s : Core) (out : list Effect) (s' : Core) : Prop := {
  st_epoch : credential_epoch s' = credential_epoch s + (if ended_by i is Some _ then 1 else 0);
  st_ended : credentials_ended s' = ended_after i s;
  st_conn : forall conn, turned e i s s' conn (sessions s !! conn) (sessions s' !! conn) (welcomes conn out) (checks conn out);
}.

(** What the rest of the server keeps to: connection numbers are this shard's
    and never used twice, other shards change the nicks of their own
    connections, and the epoch is below the range of its counter. *)
Definition op_conn (op : NickOp) : Z :=
  match op with Claim _ owner _ => owner_conn owner | Release _ conn | MarkRegistered _ conn => conn end.

Definition input_ok (i : Input) (s : Core) : Prop :=
  match i with
  | Opened conn _ _ => mine c conn /\ sessions s !! conn = None
  | Foreign op => ~ mine c (op_conn op)
  | _ => if ended_by i is Some _ then credential_epoch s + 1 < 2 ^ 64 else True
  end.

Lemma moved_by e G s s' o o' w q :
  server_bans s' = server_bans s -> credential_epoch s' = credential_epoch s -> moved c e G s o o' w q -> moved c e G s' o o' w q.
Proof.
  intros Hb He. unfold moved. destruct o, o'; try done. intros [? ? ? Hg ? Hf ?]. split; try done.
  - intros ? ?. apply (gate_same_bans c e s' s); [done|auto].
  - intros Hv. destruct (Hf Hv) as [?|[? ?]]; [by left|right; split; [done|congruence]].
Qed.

(** The shape of the proofs for one event. *)
Definition event_ok (e : Env) (i : Input) (s : Core) : Prop :=
  match handle c e i s with Some (_, s', out) => inv c s' /\ stepped e i s out s' | None => False end.

Lemma event_evolves e i s s1 (m : M unit) :
  (handle c e i s = m s1) -> sessions s1 = sessions s -> credential_epoch s1 = credential_epoch s + (if ended_by i is Some _ then 1 else 0) ->
  credentials_ended s1 = ended_after i s ->
  oks e (logs_in i s) m (fun _ _ => True) s1 -> event_ok e i s.
Proof.
  unfold event_ok, oks. intros -> Es Ee Ed. destruct (m s1) as [[[u s'] out]|]; [|done]. intros (Hi & [E1 E2 E3 E4] & _). split; [done|]. split.
  - congruence.
  - congruence.
  - intros conn. apply turned_moved. specialize (E4 conn). rewrite Es in E4. by apply (moved_by e _ s1).
Qed.

Lemma event_conn e i s conn :
  ended_by i = None -> ok c e (logs_in i s conn) conn (handle c e i) (fun _ _ => True) s -> event_ok e i s.
Proof.
  intros He Hok. apply (event_evolves e i s s (handle c e i)); [done|done| | |].
  - rewrite He. lia.
  - unfold ended_after. by rewrite He.
  - by apply (oks_ok e (logs_in i s) conn).
Qed.

Lemma inv_epoch s epoch ended : inv c s -> credential_epoch s <= epoch -> inv c (set_ended epoch ended s).
Proof.
  intros [Hm Hn Hr Hi Ho Hc Hs] He. split; try done. intros conn x Hx. destruct (Hs conn x Hx). split; try done. cbn. lia.
Qed.

Lemma line_ok e conn command s : inv c s -> event_ok e (Line conn command) s.
Proof.
  intros Hi. destruct (sessions s !! conn) as [x|] eqn:Hx.
  2:{ apply (event_conn e _ s conn); [done|]. cbn [handle]. unfold dispatch. apply ok_get. rewrite decide_False by (rewrite Hx; by intros []).
      by apply ok_ret. }
  assert (Hd : handle c e (Line conn command) s = dispatch_parsed c e conn command s).
  { cbn [handle]. unfold dispatch, mbind at 1, M_bind at 1, get. rewrite decide_True by (rewrite Hx; eauto).
    by destruct (dispatch_parsed c e conn command s) as [[[? ?] ?]|]. }
  assert (Hone : ok c e (logs_in (Line conn command) s conn) conn (dispatch_parsed c e conn command) (fun _ _ => True) s -> event_ok e (Line conn command) s).
  { intros Hok. apply (event_evolves e _ s s (dispatch_parsed c e conn command)); [done|done|cbn; lia|done|]. by apply (oks_ok e (logs_in _ s) conn). }
  destruct command as [p|p|p|p|p|p|args|args|]; cbn [dispatch_parsed] in *.
  - by eapply Hone, cmd_cap_ok.
  - by eapply Hone, cmd_authenticate_ok.
  - by eapply Hone, cmd_nick_ok.
  - by eapply Hone, cmd_user_ok.
  - by eapply Hone, cmd_pass_ok.
  - by eapply Hone, cmd_register_ok.
  - apply Hone. eapply ok_session; [done|]. destruct (Session.is_registered x) eqn:Er; [by eapply nickserv_identify_ok|].
    eapply ok_mono; [by apply ok_numeric|done].
  - apply Hone. eapply ok_session; [done|]. destruct (Session.is_registered x) eqn:Er; [by eapply nickserv_register_ok|].
    eapply ok_mono; [by apply ok_numeric|done].
  - rewrite (bind_run _ _ _ _ _ (session_run conn s x Hx)) in Hd.
    destruct (Session.is_registered x) eqn:Er.
    2:{ apply Hone. eapply ok_session; [done|]. rewrite Er. eapply ok_mono; [by apply ok_numeric|done]. }
    destruct (login (rest x)) as [l|] eqn:El.
    2:{ apply Hone. eapply ok_session; [done|]. rewrite Er. unfold nickserv_logout. eapply ok_session; [done|]. unfold account. rewrite El.
        by apply ok_emit. }
    unfold event_ok. rewrite Hd. unfold nickserv_logout. rewrite (bind_run _ _ _ _ _ (session_run conn s x Hx)). unfold account. rewrite El. cbn [fmap option_fmap option_map].
    destruct (clear_account_run c conn s x l Hi Hx El) as (s1 & out & Hrun & Hre & Hq & Hs1).
    pose proof (inv_relogged c conn x None s s1 Hi Hx Hre) as Hi1. unfold mbind, M_bind. rewrite Hrun.
    assert (Hx1 : sessions s1 !! conn = Some (with_rest (set_login None) x)) by (rewrite Hs1; apply lookup_insert_eq).
    destruct (proj2 (prefix_registered (with_rest (set_login None) x)) Er) as [pre Hpre].
    unfold notify_account_change, mbind, M_bind, get. rewrite Hx1. change (Session.is_registered (with_rest (set_login None) x)) with (Session.is_registered x).
    rewrite Er, Hpre. cbn [expect mret M_ret emit service_notice app]. split; [done|]. destruct (re_settings _ _ _ _ _ _ Hre) as [E1 E2 _ _ _]. split.
    + cbn. lia.
    + done.
    + intros k. assert (Hq' : quiet (out ++ [AccountNotify conn (bs ":" ++ pre ++ bs " ACCOUNT " ++ bs "*"); ServiceNotice conn (bs "NickServ") (bs "You are now logged out.")]))
        by (by apply quiet_app). destruct (Hq' k) as [-> ->]. rewrite Hs1. destruct (decide (k = conn)) as [->|Hk].
      * rewrite lookup_insert_eq, Hx. by apply turned_out.
      * rewrite lookup_insert_ne by done. apply turned_moved. apply moved_refl.
Qed.

Lemma verdict_ok e conn reply s : inv c s -> event_ok e (Verdict conn reply) s.
Proof.
  intros Hi. apply (event_conn e _ s conn); [done|]. cbn [handle]. destruct (sessions s !! conn) as [x|] eqn:Hx.
  - eapply db_reply_ok; [done|done|]. intros account credential expires_in origin l -> Hd Hf <- <-. left. by exists expires_in, origin, x.
  - unfold db_reply. apply ok_get. rewrite decide_False by (rewrite Hx; by intros []). by apply ok_ret.
Qed.

Lemma account_answer_ok e conn reply s : inv c s -> event_ok e (AccountAnswered conn reply) s.
Proof.
  intros Hi. apply (event_conn e _ s conn); [done|]. cbn [handle]. apply account_reply_ok; [done|].
  intros account origin l -> <- Hc. right. by exists origin.
Qed.

Lemma opened_ok e conn shown t s : inv c s -> input_ok (Opened conn shown t) s -> 0 <= credential_epoch s -> event_ok e (Opened conn shown t) s.
Proof.
  intros [Hm Hn Hr Hi Ho Hc Hs] [Hmine Hx] He. unfold event_ok. cbn [handle]. unfold open, mbind, M_bind, get. rewrite Hx. cbn [modify app].
  set (y := open_session shown (ip_parse (mask_middle shown)) t).
  assert (Hcase : forall k z, sessions (set_sessions <[conn := y]> s) !! k = Some z -> (k = conn /\ z = y) \/ (k <> conn /\ sessions s !! k = Some z)).
  { intros k z. cbn. destruct (decide (k = conn)) as [->|Hk]; [rewrite lookup_insert_eq; naive_solver|rewrite lookup_insert_ne by done; auto]. }
  split; [split|split].
  - intros k z [[-> ->]|[_ Hz]]%Hcase; eauto.
  - intros k z n [[-> ->]|[_ Hz]]%Hcase Hnz; [done|by eapply Hn].
  - intros key r Hk Hmr. destruct (Hr key r Hk Hmr) as (z & n & Hz & Hnz & Hkey). exists z, n. cbn. rewrite lookup_insert_ne; [done|]. intros E. rewrite <- E in Hz. congruence.
  - intros key k. rewrite Hi. cbn. destruct (decide (k = conn)) as [->|Hk]; [|by rewrite lookup_insert_ne].
    rewrite Hx, lookup_insert_eq. split; intros (z & [= <-] & Hz). done.
  - done.
  - intros i. cbn. rewrite Hc. f_equal. rewrite how_many_insert by done. cbn. lia.
  - intros k z [[-> ->]|[_ Hz]]%Hcase; [|eauto]. split; cbn; try done; unfold LIMIT, MAX_AUTHENTICATE_PAYLOAD_LEN; first [lia | by left | by intros []].
  - cbn. lia.
  - done.
  - intros k. cbn [sessions set_sessions]. destruct (decide (k = conn)) as [->|Hk].
    + rewrite lookup_insert_eq, Hx. by eapply turned_opened.
    + rewrite lookup_insert_ne by done. apply turned_moved. apply moved_refl.
Qed.

(** The events that end credentials: the epoch moves on, then sessions close. *)
Lemma ending_ok e i key (m : M unit) s :
  ended_by i = Some key -> handle c e i s = (end_credentials key;; m) s -> inv c s -> 0 <= credential_epoch s -> input_ok i s ->
  (forall s1, inv c s1 -> oks e (logs_in i s) m (fun _ _ => True) s1) -> event_ok e i s.
Proof.
  intros He Hh Hi H0 Hin Hm. assert (Hroom : credential_epoch s + 1 < 2 ^ 64) by (destruct i; try done; cbn in Hin; done).
  assert (Hnext : next_epoch s = credential_epoch s + 1) by (apply Z.mod_small; lia).
  eapply (event_evolves e i s (set_ended (next_epoch s)
    match oldest_outstanding s with
    | None => ∅
    | Some oldest => <[key := next_epoch s]> (filter (fun kv => oldest < kv.2) (credentials_ended s))
    end s) m).
  - rewrite Hh. exact (bind_run _ (fun _ => m) s () _ eq_refl).
  - done.
  - rewrite He. done.
  - unfold ended_after. rewrite He. cbn. by rewrite Hnext.
  - apply Hm. apply inv_epoch; [done|lia].
Qed.

Lemma nicks_kept s d :
  inv c s -> (forall key r, mine c (owner_conn (res_owner r)) -> d !! key = Some r <-> nicks s !! key = Some r) -> inv c (set_nicks d s).
Proof.
  intros [Hm Hn Hr Hi Ho Hc Hs] Hd. split; try done.
  - intros conn x n Hx En. cbn. apply Hd; [cbn; by eapply Hm|]. by eapply Hn.
  - intros key r Hk Hmine. apply (Hr key r); [|done]. by apply Hd.
Qed.

Lemma foreign_step d op key r :
  ~ mine c (op_conn op) -> mine c (owner_conn (res_owner r)) -> snd (nick_step d op) !! key = Some r <-> d !! key = Some r.
Proof.
  intros Hnot Hmine. assert (Hne : op_conn op <> owner_conn (res_owner r)) by (intros E; by rewrite E in Hnot).
  assert (Hins : forall k r', owner_conn (res_owner r') = op_conn op -> (forall r0, d !! k = Some r0 -> owner_conn (res_owner r0) = op_conn op) ->
     <[k := r']> d !! key = Some r <-> d !! key = Some r).
  { intros k r' E Hk. destruct (decide (k = key)) as [->|]; [|by rewrite lookup_insert_ne]. rewrite lookup_insert_eq. split.
    - intros [= ->]. congruence.
    - intros Hr. apply Hk in Hr. congruence. }
  destruct op as [k owner reg|k conn|k conn]; cbn [nick_step op_conn] in *.
  - unfold claim. destruct (d !! k) as [r0|] eqn:Ek; [|by apply Hins; rewrite ?Ek].
    destruct (Z.eqb_spec (owner_conn (res_owner r0)) (owner_conn owner)); [|done]. apply Hins; [done|]. intros r1. rewrite Ek. by intros [= <-].
  - unfold release_if_owned. destruct (d !! k) as [r0|] eqn:Ek; [|done].
    destruct (Z.eqb_spec (owner_conn (res_owner r0)) conn) as [E|]; [|done]. cbn [snd]. rewrite lookup_delete_Some. split; [naive_solver|].
    intros Hr. split; [|done]. intros ->. rewrite Ek in Hr. congruence.
  - unfold mark_registered. destruct (d !! k) as [r0|] eqn:Ek; [|done]. cbn [snd].
    destruct (Z.eqb_spec (owner_conn (res_owner r0)) conn); [|done]. apply Hins; [done|]. intros r1. rewrite Ek. by intros [= <-].
Qed.

Lemma quiet_event e i s s' :
  handle c e i s = Some ((), s', []) -> ended_by i = None -> inv c s' -> credential_epoch s' = credential_epoch s ->
  credentials_ended s' = credentials_ended s -> sessions s' = sessions s -> event_ok e i s.
Proof.
  intros Hh He Hi E1 E2 E3. unfold event_ok. rewrite Hh. split; [done|]. split.
  - rewrite He. lia.
  - unfold ended_after. by rewrite He.
  - intros k. rewrite E3. apply turned_moved. apply moved_refl.
Qed.

Lemma event_all e i s :
  ended_by i = None -> oks e (logs_in i s) (handle c e i) (fun _ _ => True) s -> event_ok e i s.
Proof.
  intros He Hok. apply (event_evolves e i s s (handle c e i)); [done|done|rewrite He; lia| |done]. unfold ended_after. by rewrite He.
Qed.

Lemma handle_ok e i s : inv c s -> 0 <= credential_epoch s -> input_ok i s -> event_ok e i s.
Proof.
  intros Hi H0 Hin. destruct i as [conn shown t|conn command|conn reply|conn reply|conn reason|now|account reason actor|credential| |account [|] reason actor|op|bans|r].
  - by apply opened_ok.
  - by apply line_ok.
  - by apply verdict_ok.
  - by apply account_answer_ok.
  - apply (event_conn e _ s conn); [done|]. eapply ok_mono; [by apply ok_close|done].
  - apply event_all; [done|]. by apply tick_ok.
  - eapply ending_ok; [done|done|done|done|done|]. intros s1 Hi1. by apply disconnect_account_ok.
  - eapply ending_ok; [done|done|done|done|done|]. intros s1 Hi1. apply oks_get. by apply (close_each_ok e _ (fun _ => _)).
  - apply (ending_ok e _ EndedEvery (mret ())); [done| |done|done|done|].
    + done.
    + intros s1 Hi1. by apply oks_ret.
  - apply (event_evolves e _ s (set_suspended (fun a => {[account_key c account]} ∪ a) s) (disconnect_account c (account_key c account) reason actor));
      [|done|cbn; lia|done|].
    + exact (bind_run _ (fun _ => disconnect_account c (account_key c account) reason actor) s () _ eq_refl).
    + apply disconnect_account_ok. by destruct Hi.
  - eapply quiet_event; [done|done| |done|done|done]. by destruct Hi.
  - eapply quiet_event; [done|done| |done|done|done]. apply nicks_kept; [done|]. intros key r' Hm. by apply foreign_step.
  - eapply quiet_event; [done|done| |done|done|done]. by destruct Hi.
  - eapply quiet_event; [done|done| |done|done|done]. by destruct Hi.
Qed.

(** ** Runs *)

Definition opened (t : Trace) : list Z := omap (fun ev => match ev.1 with Opened conn _ _ => Some conn | _ => None end) t.
Definition was_opened (conn : Z) (t : Trace) : Prop := conn ∈ opened t.
Definition sent (t : Trace) : list Effect := concat (rev t.*2).

Definition legal (t : Trace) (s : Core) (i : Input) : Prop :=
  match i with
  | Opened conn _ _ => mine c conn /\ ~ was_opened conn t
  | _ => input_ok i s
  end.

Inductive reaches : Trace -> Core -> Prop :=
| reaches_new : reaches [] Core_new
| reaches_step t s e i out s' :
    reaches t s -> legal t s i -> handle c e i s = Some ((), s', out) -> reaches ((i, out) :: t) s'.

(** What was ended since the latest credential check of [conn] was queued. *)
Fixpoint ended_since_check (conn : Z) (t : Trace) : list EndedSignIns :=
  match t with
  | [] => []
  | (i, out) :: t => if (0 <? checks conn out)%nat then [] else option_list (ended_by i) ++ ended_since_check conn t
  end.

Definition welcomed (conn : Z) (s : Core) (n : nat) : Prop :=
  match sessions s !! conn with
  | Some x => n = if Session.is_registered x then 1%nat else 0%nat
  | None => (n <= 1)%nat
  end.

Definition charged (conn : Z) (s : Core) (n : nat) : Prop :=
  match sessions s !! conn with
  | Some x => Z.of_nat n <= credential_attempts (rest x)
  | None => Z.of_nat n <= LIMIT
  end.

Record kept (t : Trace) (s : Core) : Prop := {
  kept_inv : inv c s;
  kept_epoch : 0 <= credential_epoch s;
  kept_ended : forall key at_, credentials_ended s !! key = Some at_ -> at_ <= credential_epoch s;
  kept_fresh : forall conn, ~ was_opened conn t ->
    sessions s !! conn = None /\ welcomes conn (sent t) = 0%nat /\ checks conn (sent t) = 0%nat;
  kept_welcomes : forall conn, welcomed conn s (welcomes conn (sent t));
  kept_checks : forall conn, charged conn s (checks conn (sent t));
  kept_flight : forall conn x key, sessions s !! conn = Some x -> verification_in_flight (rest x) = true ->
    ended_since s (rest x) key = true <-> key ∈ ended_since_check conn t;
}.

Lemma sent_cons i out t : sent ((i, out) :: t) = sent t ++ out.
Proof. unfold sent. cbn. rewrite concat_app. cbn. by rewrite app_nil_r. Qed.

Lemma was_opened_cons conn i out t :
  ~ was_opened conn ((i, out) :: t) -> ~ was_opened conn t /\ forall shown transport, i <> Opened conn shown transport.
Proof.
  unfold was_opened, opened. destruct i; cbn; set_solver.
Qed.

Lemma min_epoch_le l m z : min_epoch l = Some m -> z ∈ l -> m <= z.
Proof.
  destruct l as [|y l]; [done|]. cbn. intros [= <-].
  assert (Hf : forall l a, foldl Z.min a l <= a /\ forall z, z ∈ l -> foldl Z.min a l <= z).
  { clear. induction l as [|b l IH]; intros a; cbn; [split; [lia|set_solver]|]. destruct (IH (Z.min a b)) as [H1 H2].
    split; [lia|]. intros z [->|Hz]%elem_of_cons; [lia|auto]. }
  destruct (Hf l y) as [H1 H2]. intros [->|Hz]%elem_of_cons; auto.
Qed.

Lemma oldest_covers s conn x :
  sessions s !! conn = Some x -> verification_in_flight (rest x) = true ->
  exists oldest, oldest_outstanding s = Some oldest /\ oldest <= verify_epoch (rest x).
Proof.
  intros Hx Hf. assert (Hin : verify_epoch (rest x) ∈ (verify_epoch <$> List.filter verification_in_flight (rest <$> (map_to_list (sessions s)).*2))).
  { apply list_elem_of_fmap. exists (rest x). split; [done|]. apply elem_of_Lfilter. split; [|done]. apply list_elem_of_fmap. exists x. split; [done|].
    apply list_elem_of_fmap. exists (conn, x). split; [done|]. by apply elem_of_map_to_list. }
  unfold oldest_outstanding. destruct (min_epoch _) as [m|] eqn:Em; [exists m; split; [done|]; by eapply min_epoch_le|].
  destruct (verify_epoch <$> _); [set_solver|done].
Qed.

(** An entry dropped for being older than every outstanding check was about none of them. *)
Lemma ended_after_spec i s conn x key :
  sessions s !! conn = Some x -> verification_in_flight (rest x) = true -> verify_epoch (rest x) <= credential_epoch s ->
  opt_test (fun at_ => verify_epoch (rest x) <? at_) (ended_after i s !! key) = true
  <-> ended_by i = Some key \/ ended_since s (rest x) key = true.
Proof.
  intros Hx Hf Hv. unfold ended_after, ended_since. destruct (ended_by i) as [k|]; [|naive_solver].
  destruct (oldest_covers s conn x Hx Hf) as (oldest & -> & Ho). destruct (decide (k = key)) as [->|Hk].
  - rewrite lookup_insert_eq. cbn. rewrite Z.ltb_lt. split; [auto|lia].
  - rewrite lookup_insert_ne by done. rewrite map_lookup_filter. destruct (credentials_ended s !! key) as [at_|]; cbn; [|naive_solver].
    unfold guard. case_decide; cbn; rewrite ?Z.ltb_lt; split; try (intros [?|?]; congruence || lia); try naive_solver; lia.
Qed.

Lemma legal_input t s i : kept t s -> legal t s i -> input_ok i s.
Proof. intros Hk Hl. destruct i; try done. destruct Hl as [? Hn]. split; [done|]. by apply (kept_fresh _ _ Hk). Qed.

Lemma kept_stepped t s e i out s' :
  kept t s -> legal t s i -> handle c e i s = Some ((), s', out) -> inv c s' /\ stepped e i s out s'.
Proof.
  intros Hk Hl Hh. pose proof (handle_ok e i s (kept_inv _ _ Hk) (kept_epoch _ _ Hk) (legal_input _ _ _ Hk Hl)) as Hok.
  unfold event_ok in Hok. by rewrite Hh in Hok.
Qed.

Section Kept.
Context (t : Trace) (s s' : Core) (e : Env) (i : Input) (out : list Effect).
Context (Hk : kept t s) (Hl : legal t s i) (Hst : stepped e i s out s').

Lemma turned_fresh conn : ~ was_opened conn ((i, out) :: t) ->
  sessions s' !! conn = None /\ welcomes conn (sent ((i, out) :: t)) = 0%nat /\ checks conn (sent ((i, out) :: t)) = 0%nat.
Proof.
  intros [Hn Hi]%was_opened_cons. destruct (kept_fresh _ _ Hk conn Hn) as (Hs & Hw & Hc).
  rewrite sent_cons, welcomes_app, checks_app, Hw, Hc. pose proof (st_conn _ _ _ _ _ Hst conn) as Ht. rewrite Hs in Ht.
  inversion Ht as [o o' w q Hm|x ? ?|shown tr ->]; subst.
  - unfold moved in Hm. destruct (sessions s' !! conn); [done|]. by destruct Hm as [-> ->].
  - by destruct (Hi shown tr).
Qed.

Lemma turned_welcomes conn : welcomed conn s' (welcomes conn (sent ((i, out) :: t))).
Proof.
  rewrite sent_cons, welcomes_app. pose proof (kept_welcomes _ _ Hk conn) as Hw. unfold welcomed in *.
  pose proof (st_conn _ _ _ _ _ Hst conn) as Ht. inversion Ht as [o o' w q Hm Eo Eo' Ew Eq|x E Er Eo Eo' Ew Eq|shown tr Ei Eo Eo' Ew Eq].
  - unfold moved in Hm. destruct (sessions s !! conn) as [x|], (sessions s' !! conn) as [x'|].
    + rewrite (ch_welcome _ _ _ _ _ _ _ _ Hm), Hw. destruct (Session.is_registered x) eqn:Er; [|by destruct (Session.is_registered x')].
      destruct (ch_registered _ _ _ _ _ _ _ _ Hm Er) as [-> _]. done.
    + destruct Hm as [Hm _]. destruct (Session.is_registered x); lia.
    + done.
    + lia.
  - rewrite <- Eo, Er in Hw. change (Session.is_registered (with_rest (set_login None) x)) with (Session.is_registered x). rewrite Er. lia.
  - cbn. subst i. destruct (kept_fresh _ _ Hk conn (proj2 Hl)) as (_ & -> & _). lia.
Qed.

Lemma turned_checks conn : charged conn s' (checks conn (sent ((i, out) :: t))).
Proof.
  rewrite sent_cons, checks_app. pose proof (kept_checks _ _ Hk conn) as Hc. unfold charged in *.
  pose proof (st_conn _ _ _ _ _ Hst conn) as Ht. inversion Ht as [o o' w q Hm Eo Eo' Ew Eq|x E Er Eo Eo' Ew Eq|shown tr Ei Eo Eo' Ew Eq].
  - unfold moved in Hm. destruct (sessions s !! conn) as [x|], (sessions s' !! conn) as [x'|].
    + pose proof (ch_attempts _ _ _ _ _ _ _ _ Hm). lia.
    + destruct Hm as [_ Hm]. lia.
    + done.
    + lia.
  - rewrite <- Eo in Hc. cbn. lia.
  - cbn. subst i. destruct (kept_fresh _ _ Hk conn (proj2 Hl)) as (_ & _ & ->). lia.
Qed.

Lemma turned_ended key at_ : credentials_ended s' !! key = Some at_ -> at_ <= credential_epoch s'.
Proof.
  rewrite (st_ended _ _ _ _ _ Hst), (st_epoch _ _ _ _ _ Hst). unfold ended_after. destruct (ended_by i) as [k|].
  - destruct (oldest_outstanding s) as [oldest|]; [|by rewrite lookup_empty]. intros [[_ <-]|[_ Hf]]%lookup_insert_Some; [lia|].
    apply map_lookup_filter_Some in Hf as [Hf _]. apply (kept_ended _ _ Hk) in Hf. lia.
  - intros Hf%(kept_ended _ _ Hk). lia.
Qed.

(** A check that is still outstanding, or was queued by the event. *)
Lemma turned_in_flight conn x' :
  sessions s' !! conn = Some x' -> verification_in_flight (rest x') = true ->
  (checks conn out = 0%nat /\ exists x, sessions s !! conn = Some x /\ verification_in_flight (rest x) = true /\ verify_epoch (rest x') = verify_epoch (rest x))
  \/ (checks conn out <> 0%nat /\ verify_epoch (rest x') = credential_epoch s').
Proof.
  intros Hx' Hf. pose proof (st_conn _ _ _ _ _ Hst conn) as Ht. rewrite Hx' in Ht.
  inversion Ht as [o o' w q Hm Eo Eo' Ew Eq|x E Er Eo Eo' Ew Eq|shown tr Ei Eo Eo' Ew Eq].
  - unfold moved in Hm. destruct (sessions s !! conn) as [x|]; [|done]. destruct (ch_flight _ _ _ _ _ _ _ _ Hm Hf) as [(? & ? & ?)|?]; [left; eauto|by right].
  - subst x'. left. split; [done|]. exists x. done.
  - by subst x'.
Qed.

Lemma turned_flight conn x' key :
  sessions s' !! conn = Some x' -> verification_in_flight (rest x') = true ->
  ended_since s' (rest x') key = true <-> key ∈ ended_since_check conn ((i, out) :: t).
Proof.
  intros Hx' Hf. cbn [ended_since_check]. destruct (turned_in_flight conn x' Hx' Hf) as [(-> & x & Hx & Hfx & Ev)|[Hq Ev]].
  - rewrite Nat.ltb_irrefl, elem_of_app, <- (kept_flight _ _ Hk conn x key Hx Hfx).
    unfold ended_since at 1. rewrite Ev, (st_ended _ _ _ _ _ Hst).
    rewrite (ended_after_spec i s conn x key Hx Hfx); [|apply (inv_sessions _ _ (kept_inv _ _ Hk) conn x Hx)].
    destruct (ended_by i); cbn; set_solver.
  - destruct (Nat.ltb_spec 0 (checks conn out)); [|lia]. split; [|set_solver]. unfold ended_since. rewrite Ev.
    destruct (credentials_ended s' !! key) as [at_|] eqn:Ek; cbn; [|done]. apply turned_ended in Ek. rewrite Z.ltb_lt. lia.
Qed.
End Kept.

Lemma reaches_kept t s : reaches t s -> kept t s.
Proof.
  induction 1 as [|t s e i out s' Hr Hk Hl Hh].
  - split; try done; [split; try done| |].
    + intros key conn. split; [unfold mm_in; cbn; by rewrite lookup_empty|by intros (x & ? & _)].
    + intros conn. unfold welcomed. cbn. rewrite lookup_empty. lia.
    + intros conn. unfold charged. cbn. by rewrite lookup_empty.
  - destruct (kept_stepped t s e i out s' Hk Hl Hh) as [Hi Hst]. split.
    + done.
    + rewrite (st_epoch _ _ _ _ _ Hst). pose proof (kept_epoch _ _ Hk). destruct (ended_by i); lia.
    + by eapply turned_ended.
    + by eapply turned_fresh.
    + by eapply turned_welcomes.
    + by eapply turned_checks.
    + by eapply turned_flight.
Qed.

(** ** What denies a verdict *)

(** Nothing about the credentials was ended or suspended since their check
    was queued. *)
Definition standing (t : Trace) (s : Core) (conn : Z) (account : str) (credential : CredentialId) : Prop :=
  (account_key c account ∉ suspended_accounts s)
  /\ (EndedAccount (account_key c account) ∉ ended_since_check conn t)
  /\ (forall issued, credential = Issued issued -> EndedCredential issued ∉ ended_since_check conn t)
  /\ (EndedEvery ∉ ended_since_check conn t).

Lemma standing_denial t s conn x account credential expires_in origin :
  kept t s -> sessions s !! conn = Some x -> verification_in_flight (rest x) = true ->
  verdict_denial c conn (PasswordVerified account credential expires_in origin) s = None <-> standing t s conn account credential.
Proof.
  intros Hk Hx Hf. unfold standing. setoid_rewrite <- (kept_flight _ _ Hk conn x _ Hx Hf).
  unfold verdict_denial, is_account_suspended. case_bool_decide as Hs; [naive_solver|]. unfold stale_verdict. rewrite Hx. cbn.
  destruct (ended_since s (rest x) (EndedAccount _)); cbn; [naive_solver|].
  destruct credential as [|j].
  - destruct (ended_since s (rest x) EndedEvery); naive_solver.
  - destruct (ended_since s (rest x) (EndedCredential j)) eqn:Ej, (ended_since s (rest x) EndedEvery); try naive_solver.
    split; [intros _|done]. split_and!; try done. intros k [= <-]. by rewrite Ej.
Qed.

Lemma bind_out {A B} (m : M A) (f : A -> M B) s b s' out :
  (m ≫= f) s = Some (b, s', out) ->
  exists a s1 out1 out2, m s = Some (a, s1, out1) /\ f a s1 = Some (b, s', out2) /\ out = out1 ++ out2.
Proof.
  unfold mbind, M_bind. destruct (m s) as [[[a s1] out1]|]; [|done]. destruct (f a s1) as [[[b' s2] out2]|] eqn:Ef; [|done].
  intros [= -> -> <-]. by exists a, s1, out1, out2.
Qed.

Definition SUCCESS (conn : Z) : Effect := Numeric conn 903 [] (Some (bs "SASL authentication successful")).

Lemma labelled_out conn label m s a s' out :
  emit_labeled_unheld conn label m s = Some (a, s', out) -> exists inner, m s = Some (a, s', inner) /\ flat_map flat out = flat_map flat inner.
Proof.
  unfold emit_labeled_unheld. destruct (m s) as [[[b s1] inner]|]; [|done]. intros [= <- <- <-]. exists inner. split; [done|].
  destruct label; [|done]. cbn. by rewrite app_nil_r.
Qed.

Lemma verifying_reply conn reply s x :
  sessions s !! conn = Some x -> reply_origin reply = OriginSasl -> forall e,
  db_reply c e conn reply s = conclude c e conn reply (mjoin (sasl_verify (rest x))) (set_sessions <[conn := answered x]> s).
Proof.
  intros Hx Ho e. unfold db_reply. rewrite (bind_run _ _ s s s eq_refl). rewrite decide_True by (rewrite Hx; eauto). rewrite Ho.
  by rewrite (bind_run _ _ _ _ _ (take_sasl_run conn s x Hx)).
Qed.

Lemma accepted_sends e conn reply s x account credential expires_in s' out :
  reply = PasswordVerified account credential expires_in OriginSasl ->
  sessions s !! conn = Some x -> sasl (rest x) = Verifying -> db_reply c e conn reply s = Some ((), s', out) ->
  SUCCESS conn ∈ flat_map flat out <-> verdict_denial c conn reply s = None.
Proof.
  intros Er Hx Hv. rewrite (verifying_reply conn reply s x Hx) by by rewrite Er. unfold conclude.
  rewrite (bind_run _ _ _ _ (set_sessions <[conn := answered x]> s) eq_refl). unfold answered at 1. rewrite verdict_denial_same by done. fold (answered x).
  destruct (verdict_denial c conn reply s) as [denial|].
  - rewrite Er. cbn [reply_origin]. rewrite verify_denied_run by done. intros (inner & [= _ <-] & ->)%labelled_out. split; [|done].
    cbn. intros [[=]|[]%elem_of_nil]%elem_of_cons.
  - rewrite Er. intros (b & s1 & out1 & out2 & Hap & _ & ->)%bind_out. split; [done|]. intros _. rewrite accepted_run in Hap by done.
    apply bind_out in Hap as (u & s2 & o1 & o2 & Hlab & _ & ->). apply labelled_out in Hlab as (inner & Hin & Hfl).
    apply bind_out in Hin as (u' & s3 & o3 & o4 & _ & Hlast & ->). injection Hlast as _ <- <-.
    rewrite !flat_map_app, Hfl, flat_map_app. rewrite !elem_of_app. left. left. right. left.
Qed.

(** ** Playing events *)

#[export] Instance legal_decision t s i : Decision (legal t s i).
Proof. destruct i; unfold legal, input_ok, mine, was_opened; cbn; apply _. Defined.

(** The run of given events, where every one of them is legal. *)
Fixpoint play (t : Trace) (s : Core) (ins : list (Env * Input)) : option (Trace * Core) :=
  match ins with
  | [] => Some (t, s)
  | (e, i) :: ins =>
      if decide (legal t s i) then
        match handle c e i s with Some (_, s', out) => play ((i, out) :: t) s' ins | None => None end
      else None
  end.

Lemma play_reaches ins t s t' s' : reaches t s -> play t s ins = Some (t', s') -> reaches t' s'.
Proof.
  revert t s. induction ins as [|[e i] ins IH]; intros t s Hr; cbn; [by intros [= <- <-]|].
  case_decide as Hl; [|done]. destruct (handle c e i s) as [[[[] s1] out]|] eqn:Eh; [|done]. apply IH. by eapply reaches_step.
Qed.

(** ** Properties *)

(** C3.  In every run no event panics, and the invariant holds before and
    after it: every session's nick is reserved to it with its registration,
    no reservation of the shard's is left behind, the index of accounts and
    the counts of presented credentials are those of the sessions, at most one
    credential check of a session is outstanding and its budget is kept. *)
Theorem handshake_safe t s e i :
  reaches t s -> legal t s i -> inv c s /\ exists s' out, handle c e i s = Some ((), s', out) /\ inv c s'.
Proof.
  intros Hk%reaches_kept Hl. split; [apply Hk|].
  pose proof (handle_ok e i s (kept_inv _ _ Hk) (kept_epoch _ _ Hk) (legal_input _ _ _ Hk Hl)) as Hok.
  unfold event_ok in Hok. destruct (handle c e i s) as [[[[] s'] out]|]; [|done]. destruct Hok. by exists s', out.
Qed.

(** C30.  In every run a connection is welcomed at most once, exactly once if
    it is registered and never while it is not, and the server checks at most
    eight credentials for it. *)
Theorem welcomed_once_checked_bounded t s conn :
  reaches t s ->
  (welcomes conn (sent t) <= 1)%nat /\ (checks conn (sent t) <= 8)%nat
  /\ (forall x, sessions s !! conn = Some x -> welcomes conn (sent t) = if Session.is_registered x then 1%nat else 0%nat).
Proof.
  intros Hk%reaches_kept. pose proof (kept_welcomes _ _ Hk conn) as Hw. pose proof (kept_checks _ _ Hk conn) as Hc.
  unfold welcomed, charged in *. destruct (sessions s !! conn) as [x|] eqn:Hx.
  - destruct (inv_sessions _ _ (kept_inv _ _ Hk) _ _ Hx) as [Ha _ _ _ _ _]. unfold LIMIT in Ha.
    split_and!; [destruct (Session.is_registered x); lia|lia|]. by intros y [= <-].
  - unfold LIMIT in Hc. split_and!; [done|lia|done].
Qed.

(** C8.  A connection that is registered after an event and was not before
    passed the gate in that event: it had ended its capability negotiation, no
    ban in force matches it, it is logged in where the server requires it of
    its address, its nick is reserved to it as registered, and the event sent
    its welcome. *)
Theorem registered_through_gate t s e i out s' conn x' :
  reaches t s -> legal t s i -> handle c e i s = Some ((), s', out) ->
  sessions s' !! conn = Some x' -> Session.is_registered x' = true ->
  (exists x, sessions s !! conn = Some x /\ Session.is_registered x = true /\ welcomes conn out = 0%nat)
  \/ (gate c e s' x' /\ welcomes conn out = 1%nat
      /\ exists n, Session.nick x' = Some n /\ nicks s' !! nick_key c n = Some (MkReservation (MkOwner conn (shard c)) true)).
Proof.
  intros Hk%reaches_kept Hl Hh Hx' Hr. destruct (kept_stepped t s e i out s' Hk Hl Hh) as [Hi Hst].
  pose proof (st_conn _ _ _ _ _ Hst conn) as Ht. rewrite Hx' in Ht.
  inversion Ht as [o o' w q Hm Eo Eo' Ew Eq|x E Er Eo Eo' Ew Eq|shown tr Ei Eo Eo' Ew Eq].
  - unfold moved in Hm. destruct (sessions s !! conn) as [x|]; [|done]. pose proof (ch_welcome _ _ _ _ _ _ _ _ Hm) as Hw. rewrite Hr in Hw.
    destruct (Session.is_registered x) eqn:Erx; [left; by exists x|right]. split; [by apply Hm|]. split; [done|].
    destruct (Session.nick x') as [n|] eqn:En; [|unfold Session.is_registered, Session.nick in *; by destruct (reg x')].
    exists n. split; [done|]. rewrite <- Hr. by eapply (inv_nick _ _ Hi).
  - left. exists x. done.
  - subst x'. done.
Qed.

(** C4.  A session is logged in by the verdict on the check it has
    outstanding, as the account and with the credential the store verified,
    and only while they stand: the account is not suspended, and neither its
    sign-ins, nor the credential, nor every verdict in flight was ended since
    the check was queued. The one other way in is the store's answer that it
    created the account, as REGISTER or NickServ asked: the session is then
    logged in with the account's password, and nothing else is checked. *)
Theorem login_only_by_standing_verdict t s e i out s' conn x x' l :
  reaches t s -> legal t s i -> handle c e i s = Some ((), s', out) ->
  sessions s !! conn = Some x -> sessions s' !! conn = Some x' -> login (rest x') = Some l -> login (rest x) <> Some l ->
  ((exists expires_in origin, i = Verdict conn (PasswordVerified (login_account l) (login_credential l) expires_in origin))
   /\ verification_in_flight (rest x) = true /\ standing t s conn (login_account l) (login_credential l))
  \/ (exists origin, i = AccountAnswered conn (AccountCreated (login_account l) origin) /\ login_credential l = AccountPassword).
Proof.
  intros Hk%reaches_kept Hl Hh Hx Hx' Hlog Hnew. destruct (kept_stepped t s e i out s' Hk Hl Hh) as [Hi Hst].
  pose proof (st_conn _ _ _ _ _ Hst conn) as Ht. rewrite Hx, Hx' in Ht.
  inversion Ht as [o o' w q Hm Eo Eo' Ew Eq|y E Er Eo Eo' Ew Eq|]; [|by rewrite <- Eo' in Hlog].
  destruct (ch_login _ _ _ _ _ _ _ _ Hm) as [E|(l' & El & HG)]; [congruence|].
  rewrite Hlog in El. injection El as <-. destruct HG as [(expires_in & origin & y & -> & Hd & Hy & Hf)|HG]; [left|by right].
  rewrite Hx in Hy. injection Hy as <-. split; [by eexists _, _|]. split; [done|].
  by apply (standing_denial t s conn x _ _ expires_in origin).
Qed.

(** C7.  The verdict on a SASL attempt that the store verified is answered
    with success exactly when the credentials still stand: the bounded record
    of what was ended, pruned as checks are answered, loses nothing an
    outstanding check depends on. *)
Theorem verified_sasl_succeeds_iff_standing t s e conn x account credential expires_in out s' :
  reaches t s -> sessions s !! conn = Some x -> sasl (rest x) = Verifying ->
  handle c e (Verdict conn (PasswordVerified account credential expires_in OriginSasl)) s = Some ((), s', out) ->
  SUCCESS conn ∈ flat_map flat out <-> standing t s conn account credential.
Proof.
  intros Hk%reaches_kept Hx Hv Hh. cbn [handle] in Hh. rewrite (accepted_sends e conn _ s x account credential expires_in s' out eq_refl Hx Hv Hh).
  apply (standing_denial t s conn x); [done|done|]. unfold verification_in_flight. apply orb_true_iff. left. apply bool_decide_eq_true.
  by apply (inv_sessions _ _ (kept_inv _ _ Hk) _ _ Hx).
Qed.
End Run.

(** ** A server, and runs of it *)

Section Sample.
#[local] Existing Instance PlainIpNet.

Definition sample_config : Config :=
  MkConfig Rfc1459 (MkShardCount 1) 0 (bs "irc.test") (bs "Test") 16 (MkCapConfig true false false) (MkSaslRequirement true []) [] (bs "1") 8 [].
Definition sample_env : Env := MkHandshakeEnv 0 0 true true true (MkMemberships ∅ ∅) None (MkCounts 0 0 0) (0, 0, 0).
Definition sample_verdict : Input := Verdict 1 (PasswordVerified (bs "alice") AccountPassword None OriginSasl).

(** A client that registers with SASL, up to the credentials it sent. *)
Definition sample_sasl : list Input :=
  [Opened 1 (bs "host.example") Tcp; Line 1 (CmdCap [bs "REQ"; bs "sasl"]); Line 1 (CmdNick [bs "alice"]);
   Line 1 (CmdUser [bs "a"; bs "0"; bs "*"; bs "real"]); Line 1 (CmdAuthenticate [bs "PLAIN"]);
   Line 1 (CmdAuthenticate [bs "AGFsaWNlAHNlY3JldA=="])].
Definition sample_end : Input := Line 1 (CmdCap [bs "END"]).

Definition sample_play (ins : list Input) : option (Trace * Core) :=
  play sample_config [] Core_new ((fun i => (sample_env, i)) <$> ins).

Definition of_session {A} (f : Session -> A) (s : Core) : option A := f <$> sessions s !! 1.

(** The registration gate waits for the verdict, then lets the client in. *)
Example sample_registers :
  option_map (fun r => (of_session Session.is_registered r.2, welcomes 1 (sent r.1), checks 1 (sent r.1))) (sample_play (sample_sasl ++ [sample_end]))
    = Some (Some false, 0%nat, 1%nat)
  /\ option_map (fun r => (of_session Session.is_registered r.2, welcomes 1 (sent r.1), checks 1 (sent r.1)))
       (sample_play (sample_sasl ++ [sample_end; sample_verdict])) = Some (Some true, 1%nat, 1%nat).
Proof. split; vm_compute; reflexivity. Qed.

Definition sample_at (ins : list Input) : Trace * Core := default ([], Core_new) (sample_play ins).

Lemma sample_at_reaches ins : bool_decide (is_Some (fst <$> sample_play ins)) = true -> reaches sample_config (sample_at ins).1 (sample_at ins).2.
Proof.
  unfold sample_at. destruct (sample_play ins) as [[t s]|] eqn:Ep; [|by rewrite bool_decide_eq_true; intros []].
  intros _. exact (play_reaches sample_config _ [] Core_new t s (reaches_new _) Ep).
Qed.

(** An event at the end of a run: what it leaves of session 1 and sends. *)
Definition sample_step (ins : list Input) (i : Input) : option (Core * list Effect) :=
  match handle sample_config sample_env i (sample_at ins).2 with Some (_, s', out) => Some (s', out) | None => None end.

Lemma sample_step_run ins i s' out :
  sample_step ins i = Some (s', out) -> handle sample_config sample_env i (sample_at ins).2 = Some ((), s', out).
Proof. unfold sample_step. destruct (handle _ _ _ _) as [[[[] s1] out1]|]; [|done]. by intros [= -> ->]. Qed.

Lemma handshake_safe_witness :
  exists s' out, handle sample_config sample_env sample_verdict (sample_at (sample_sasl ++ [sample_end])).2 = Some ((), s', out) /\ inv sample_config s'.
Proof.
  apply (handshake_safe sample_config (sample_at (sample_sasl ++ [sample_end])).1 _ sample_env sample_verdict).
  - apply sample_at_reaches. vm_compute. reflexivity.
  - exact I.
Defined.

Lemma welcomed_once_checked_bounded_witness :
  (welcomes 1 (sent (sample_at (sample_sasl ++ [sample_end; sample_verdict])).1) <= 1)%nat
  /\ (checks 1 (sent (sample_at (sample_sasl ++ [sample_end; sample_verdict])).1) <= 8)%nat
  /\ welcomes 1 (sent (sample_at (sample_sasl ++ [sample_end; sample_verdict])).1) = 1%nat.
Proof.
  destruct (welcomed_once_checked_bounded sample_config (sample_at (sample_sasl ++ [sample_end; sample_verdict])).1
              (sample_at (sample_sasl ++ [sample_end; sample_verdict])).2 1) as (Hw & Hc & _).
  - apply sample_at_reaches. vm_compute. reflexivity.
  - split; [exact Hw|]. split; [exact Hc|]. vm_compute. reflexivity.
Defined.

(** What a step leaves of session 1, as booleans. *)
Definition sample_left {A} (f : Session -> A) (ins : list Input) (i : Input) : option A := r ← sample_step ins i; of_session f r.1.

Lemma sample_left_inv {A} (f : Session -> A) ins i a :
  sample_left f ins i = Some a -> exists s' out x', sample_step ins i = Some (s', out) /\ sessions s' !! 1 = Some x' /\ f x' = a.
Proof.
  unfold sample_left, of_session. destruct (sample_step ins i) as [[s' out]|]; [|done]. cbn. intros (x' & Hl & Hx')%fmap_Some. by exists s', out, x'.
Qed.

Lemma registered_through_gate_witness :
  exists s' out x', sample_step (sample_sasl ++ [sample_end]) sample_verdict = Some (s', out) /\ sessions s' !! 1 = Some x'
    /\ gate sample_config sample_env s' x' /\ welcomes 1 out = 1%nat.
Proof.
  assert (Hb : of_session Session.is_registered (sample_at (sample_sasl ++ [sample_end])).2 = Some false) by (vm_compute; reflexivity).
  destruct (sample_left_inv Session.is_registered (sample_sasl ++ [sample_end]) sample_verdict true) as (s' & out & x' & Hs & Hx' & Hr); [vm_compute; reflexivity|].
  exists s', out, x'. split; [exact Hs|]. split; [exact Hx'|].
  destruct (registered_through_gate sample_config (sample_at (sample_sasl ++ [sample_end])).1 (sample_at (sample_sasl ++ [sample_end])).2
              sample_env sample_verdict out s' 1 x') as [(x & Hx & Hrx & _)|(Hg & Hw & _)].
  - apply sample_at_reaches. vm_compute. reflexivity.
  - exact I.
  - by apply sample_step_run.
  - exact Hx'.
  - exact Hr.
  - exfalso. unfold of_session in Hb. rewrite Hx in Hb. cbn in Hb. congruence.
  - split; [exact Hg|exact Hw].
Defined.

Lemma login_only_by_standing_verdict_witness :
  standing sample_config (sample_at (sample_sasl ++ [sample_end])).1 (sample_at (sample_sasl ++ [sample_end])).2 1 (bs "alice") AccountPassword.
Proof.
  assert (Hb : of_session (login ∘ rest) (sample_at (sample_sasl ++ [sample_end])).2 = Some None) by (vm_compute; reflexivity).
  unfold of_session in Hb. destruct (sessions (sample_at (sample_sasl ++ [sample_end])).2 !! 1) as [x|] eqn:Hx; [|discriminate Hb].
  destruct (sample_left_inv (login ∘ rest) (sample_sasl ++ [sample_end]) sample_verdict (Some (MkLogin (bs "alice") AccountPassword None)))
    as (s' & out & x' & Hs & Hx' & Hl); [vm_compute; reflexivity|].
  destruct (login_only_by_standing_verdict sample_config (sample_at (sample_sasl ++ [sample_end])).1 (sample_at (sample_sasl ++ [sample_end])).2
           sample_env sample_verdict out s' 1 x x' (MkLogin (bs "alice") AccountPassword None))
    as [(_ & _ & Hst)|(? & Hi & _)].
  - apply sample_at_reaches. vm_compute. reflexivity.
  - exact I.
  - by apply sample_step_run.
  - exact Hx.
  - exact Hx'.
  - exact Hl.
  - cbn in Hb. congruence.
  - exact Hst.
  - discriminate Hi.
Defined.

(** An account asked for over REGISTER by a client whose server lets accounts
    be registered before the connection is: a second request is refused while
    the first is outstanding, and the answer logs the session in. *)
Definition open_config : Config :=
  MkConfig Rfc1459 (MkShardCount 1) 0 (bs "irc.test") (bs "Test") 16 (MkCapConfig true true false) (MkSaslRequirement false []) [] (bs "1") 8 [bs "root"].
Definition sample_register (nick : str) : Input := Line 1 (CmdRegister [nick; bs "*"; bs "sesame open"]).
Definition sample_created : Input := AccountAnswered 1 (AccountCreated (bs "alice") RegisterCommand).
Definition sample_registered (nick : str) (ins : list Input) : option (list (list Effect) * option (option str)) :=
  (fun r => (rev (List.filter (fun x => match x with Send _ _ | Push _ => true | _ => false end) <$> r.1.*2), of_session account r.2))
    <$> play open_config [] Core_new ((fun i => (sample_env, i)) <$> [Opened 1 (bs "host.example") Tcp; Line 1 (CmdNick [nick])] ++ ins).

Example register_logs_in :
  option_map (fun r => (skipn 2 r.1, r.2)) (sample_registered (bs "alice") [sample_register (bs "alice"); sample_register (bs "*"); sample_created])
  = Some ([[Push (CreateAccount 1 (bs "alice") None (bs "sesame open") RegisterCommand)];
           [Send 1 (bs ":irc.test FAIL REGISTER TEMPORARILY_UNAVAILABLE alice :A registration is already in progress")];
           [Send 1 (bs ":irc.test REGISTER SUCCESS alice :Account registered, you are now logged in")]], Some (Some (bs "alice")))
  /\ option_map (fun r => skipn 2 r.1) (sample_registered (bs "Root") [sample_register (bs "*")])
     = Some [[Send 1 (bs ":irc.test FAIL REGISTER BAD_ACCOUNT_NAME Root :That account name is reserved for a server administrator and cannot be registered")]].
Proof. split; vm_compute; reflexivity. Qed.

Lemma verified_sasl_succeeds_iff_standing_witness :
  exists s' out, sample_step (sample_sasl ++ [RefuseVerdictsInFlight]) sample_verdict = Some (s', out)
    /\ (SUCCESS 1 ∈ flat_map flat out <->
        standing sample_config (sample_at (sample_sasl ++ [RefuseVerdictsInFlight])).1 (sample_at (sample_sasl ++ [RefuseVerdictsInFlight])).2 1
          (bs "alice") AccountPassword).
Proof.
  assert (Hb : of_session (fun x => bool_decide (sasl (rest x) = Verifying)) (sample_at (sample_sasl ++ [RefuseVerdictsInFlight])).2 = Some true)
    by (vm_compute; reflexivity).
  unfold of_session in Hb. destruct (sessions (sample_at (sample_sasl ++ [RefuseVerdictsInFlight])).2 !! 1) as [x|] eqn:Hx; [|discriminate Hb].
  destruct (sample_left_inv Session.is_registered (sample_sasl ++ [RefuseVerdictsInFlight]) sample_verdict false) as (s' & out & x' & Hs & _ & _);
    [vm_compute; reflexivity|].
  exists s', out. split; [exact Hs|].
  apply (verified_sasl_succeeds_iff_standing sample_config _ (sample_at (sample_sasl ++ [RefuseVerdictsInFlight])).2 sample_env 1 x (bs "alice") AccountPassword None out s').
  - apply sample_at_reaches. vm_compute. reflexivity.
  - exact Hx.
  - cbn in Hb. injection Hb as Hb. by apply bool_decide_eq_true in Hb.
  - by apply sample_step_run.
Defined.

(** A verified verdict that is refused ends the attempt and does not look at
    registration again: a client that had sent everything else stays
    unregistered although nothing is missing, until it sends another line. *)
Example refused_verdict_strands_ready_session :
  sample_left (fun x => (ready x, Session.is_registered x, bool_decide (sasl (rest x) = Idle)))
    (sample_sasl ++ [sample_end; RefuseVerdictsInFlight]) sample_verdict = Some (true, false, true)
  /\ sample_left Session.is_registered (sample_sasl ++ [sample_end]) (Verdict 1 (PasswordRejected OriginSasl)) = None.
Proof. split; vm_compute; reflexivity. Qed.

(** A response interrupted by giving up the capability leaves its bytes
    behind: the next attempt's credentials are read after them and refused. *)
Example interrupted_response_spoils_next :
  sample_left (fun x => length (sasl_buf (rest x)))
    [Opened 1 (bs "host.example") Tcp; Line 1 (CmdCap [bs "REQ"; bs "sasl"]); Line 1 (CmdAuthenticate [bs "PLAIN"]);
     Line 1 (CmdAuthenticate [repeat "A"%byte 400]); Line 1 (CmdCap [bs "REQ"; bs "-sasl"]); Line 1 (CmdAuthenticate [bs "*"]);
     Line 1 (CmdCap [bs "REQ"; bs "sasl"])] (Line 1 (CmdAuthenticate [bs "PLAIN"])) = Some 400%nat.
Proof. vm_compute. reflexivity. Qed.
End Sample.
