(* ===== verification/SaslExchange.v ===== *)
(** * A SASL response between client and server

    Models the client's [send_sasl_payload] and [read_sasl_challenge]
    ([e6irc-client/src/lib.rs]) and relates what the client sends to what
    [cmd_authenticate] ([Handshake]) makes of it: the response the server acts
    on is the one the client built, however many lines it took. *)

From stdpp Require Import gmap.
From S2P Require Import Prelude Str Num Casemap Mask Wire Keys Ip Address BanMask Message Sanitize Proxy Base64 Sasl HistoryRequest Middle Session Nicks Channel ChannelState Directories Multimap Users Events Multiline ModeChange ChannelOps Cap Handshake HandshakeSafety HandshakeRun.

(** ** The client *)

(** The parameters of the AUTHENTICATE lines sent; [None] where the payload is
    refused. *)
Definition send_sasl_payload (payload : str) : option (list str) :=
  if (MAX_AUTHENTICATE_PAYLOAD_LEN <? length payload)%nat || negb (forallb is_ascii payload) then None
  else
    Some (slice_chunks MAX_AUTHENTICATE_CHUNK_LEN payload
          ++ if is_empty payload || (Nat.modulo (length payload) MAX_AUTHENTICATE_CHUNK_LEN =? 0)%nat then [bs "+"] else []).

Inductive Challenge : Type := ChallengeRead (raw : str) | ChallengeTooLong | ChallengeNotBase64 | ChallengeMore (encoded : str).

(** The end of [read_sasl_challenge]. *)
Definition decode_challenge (encoded : str) : Challenge :=
  if is_empty encoded then ChallengeRead []
  else match decode encoded with Some raw => ChallengeRead raw | None => ChallengeNotBase64 end.

(** The loop of [read_sasl_challenge] over the messages received, each a
    command and its parameters. *)
Fixpoint read_challenge (encoded : str) (msgs : list (str * list str)) : Challenge :=
  match msgs with
  | [] => ChallengeMore encoded
  | (command, params) :: msgs =>
      if negb (str_eqb command (bs "AUTHENTICATE")) then read_challenge encoded msgs
      else
        let chunk := match params with [] => [] | chunk :: _ => chunk end in
        if str_eqb chunk (bs "+") then decode_challenge encoded
        else
          let encoded := encoded ++ chunk in
          if (MAX_AUTHENTICATE_PAYLOAD_LEN <? length encoded)%nat then ChallengeTooLong
          else if (length chunk <? MAX_AUTHENTICATE_CHUNK_LEN)%nat then decode_challenge encoded
          else read_challenge encoded msgs
  end.

(** ** The lines of a payload *)

(** Induction on what of the payload is still to send: a full line is followed
    by the rest, a shorter one or the empty response ends it. *)
Lemma payload_lines payload args :
  send_sasl_payload payload = Some args ->
  (payload = [] /\ args = [bs "+"])
  \/ (0 < length payload < MAX_AUTHENTICATE_CHUNK_LEN /\ args = [payload])%nat
  \/ (exists rest, send_sasl_payload (drop MAX_AUTHENTICATE_CHUNK_LEN payload) = Some rest
        /\ args = take MAX_AUTHENTICATE_CHUNK_LEN payload :: rest /\ (MAX_AUTHENTICATE_CHUNK_LEN <= length payload)%nat).
Proof.
  unfold send_sasl_payload. intros Hs. destruct (_ || _) eqn:Eg in Hs; [done|]. apply (inj Some) in Hs as <-.
  apply orb_false_iff in Eg as [Elen%Nat.ltb_ge Eascii%negb_false_iff].
  destruct payload as [|b p]; [by left|right]. set (payload := b :: p) in *.
  assert (Hpos : (0 < length payload)%nat) by (cbn; lia). assert (Hne : payload <> []) by done. clearbody payload.
  assert (Hchunk : (0 < MAX_AUTHENTICATE_CHUNK_LEN)%nat) by (unfold MAX_AUTHENTICATE_CHUNK_LEN; lia).
  rewrite (slice_chunks_cons _ payload Hchunk Hne).
  replace (is_empty payload) with false by (by destruct payload). rewrite orb_false_l.
  destruct (Nat.lt_ge_cases (length payload) MAX_AUTHENTICATE_CHUNK_LEN) as [Hlt|Hge].
  - left. split; [lia|]. rewrite take_ge, drop_ge, slice_chunks_nil by lia. rewrite Nat.mod_small by done.
    by replace (length payload =? 0)%nat with false by (symmetry; apply Nat.eqb_neq; lia).
  - right. eexists. rewrite length_drop. rewrite (proj2 (Nat.ltb_ge _ _)) by lia.
    replace (forallb is_ascii (drop MAX_AUTHENTICATE_CHUNK_LEN payload)) with true.
    2:{ symmetry. rewrite <- (take_drop MAX_AUTHENTICATE_CHUNK_LEN payload), forallb_app in Eascii. by apply andb_true_iff in Eascii as [_ ->]. }
    rewrite orb_false_l. cbn [negb]. split; [reflexivity|]. split; [|done]. rewrite <- app_comm_cons. f_equal. f_equal.
    assert (Em : Nat.modulo (length payload) MAX_AUTHENTICATE_CHUNK_LEN = Nat.modulo (length payload - MAX_AUTHENTICATE_CHUNK_LEN) MAX_AUTHENTICATE_CHUNK_LEN).
    { replace (length payload) with (length payload - MAX_AUTHENTICATE_CHUNK_LEN + 1 * MAX_AUTHENTICATE_CHUNK_LEN)%nat at 1 by lia. by rewrite Nat.Div0.mod_add. }
    rewrite Em. destruct (drop MAX_AUTHENTICATE_CHUNK_LEN payload) as [|d l] eqn:Ed; [|done]. cbn.
    apply (f_equal length) in Ed. rewrite length_drop in Ed. cbn in Ed. by rewrite Ed.
Qed.

(** A payload is whole groups of four, so none of its lines is one of the
    responses of a single character. *)
Lemma groups_drop (payload : str) :
  Nat.modulo (length payload) 4 = 0%nat -> (MAX_AUTHENTICATE_CHUNK_LEN <= length payload)%nat ->
  Nat.modulo (length (drop MAX_AUTHENTICATE_CHUNK_LEN payload)) 4 = 0%nat.
Proof.
  intros Hm Hl. rewrite length_drop. change MAX_AUTHENTICATE_CHUNK_LEN with (100 * 4)%nat in *.
  apply Nat.Div0.mod_divides in Hm as [k Hk]. apply Nat.Div0.mod_divides. exists (k - 100)%nat. lia.
Qed.

Lemma group_not_single (line one : str) : length one = 1%nat -> Nat.modulo (length line) 4 = 0%nat -> str_eqb line one = false.
Proof. intros H1 Hm. apply str_eqb_neq. intros ->. by rewrite H1 in Hm. Qed.

Lemma full_not_single (line one : str) : length one = 1%nat -> length line = MAX_AUTHENTICATE_CHUNK_LEN -> str_eqb line one = false.
Proof. intros H1 Hl. apply str_eqb_neq. intros ->. by rewrite H1 in Hl. Qed.

Lemma length_full (payload : str) :
  (MAX_AUTHENTICATE_CHUNK_LEN <= length payload)%nat -> length (take MAX_AUTHENTICATE_CHUNK_LEN payload) = MAX_AUTHENTICATE_CHUNK_LEN.
Proof. intros Hl. rewrite length_take. lia. Qed.

Lemma payload_ind (P : str -> list str -> Prop) :
  P [] [bs "+"] ->
  (forall line, (0 < length line < MAX_AUTHENTICATE_CHUNK_LEN)%nat -> Nat.modulo (length line) 4 = 0%nat -> P line [line]) ->
  (forall line payload args, length line = MAX_AUTHENTICATE_CHUNK_LEN -> P payload args -> P (line ++ payload) (line :: args)) ->
  forall payload args, Nat.modulo (length payload) 4 = 0%nat -> send_sasl_payload payload = Some args -> P payload args.
Proof.
  intros H1 H2 H3 payload. remember (length payload) as n eqn:Hn. revert payload Hn. induction (lt_wf n) as [n _ IH]. intros payload -> args Hm Hs.
  destruct (payload_lines payload args Hs) as [[-> ->]|[[Hl ->]|(rest & Hr & -> & Hl)]]; [done|by apply H2|].
  rewrite <- (take_drop MAX_AUTHENTICATE_CHUNK_LEN payload) at 1. apply H3; [by apply length_full|].
  eapply IH; [|done|by apply groups_drop|done]. rewrite length_drop. unfold MAX_AUTHENTICATE_CHUNK_LEN in *. lia.
Qed.

Lemma read_challenge_lines payload args :
  Nat.modulo (length payload) 4 = 0%nat -> send_sasl_payload payload = Some args ->
  forall encoded, (length encoded + length payload <= MAX_AUTHENTICATE_PAYLOAD_LEN)%nat ->
  read_challenge encoded ((fun a => (bs "AUTHENTICATE", [a])) <$> args) = decode_challenge (encoded ++ payload).
Proof.
  revert payload args. apply (payload_ind (fun payload args => forall encoded, _ -> _ = _)).
  - intros encoded _. by rewrite app_nil_r.
  - intros line [Hp Hl] Hm encoded Hlen. cbn [fmap list_fmap read_challenge]. rewrite str_eqb_refl. cbn [negb].
    rewrite (group_not_single line (bs "+")) by done. rewrite length_app. rewrite (proj2 (Nat.ltb_ge _ _)) by lia. by rewrite (proj2 (Nat.ltb_lt _ _)).
  - intros line payload args Hl IH encoded Hlen. rewrite length_app in Hlen. cbn [fmap list_fmap read_challenge].
    rewrite str_eqb_refl. cbn [negb].
    rewrite (full_not_single line (bs "+")) by done. rewrite length_app. rewrite !(proj2 (Nat.ltb_ge _ _)) by lia.
    rewrite app_assoc. apply IH. rewrite length_app. lia.
Qed.

(** ** The server *)

Section Server.
Context `{IpNet} (c : Config) (e : Env) (conn : Z).







End Server.

(**  A client reads back the challenge another of its kind sends: the
    bytes encoded and split into lines are the bytes read, and whatever other
    messages come before the lines are skipped. *)
Theorem sasl_challenge_roundtrip raw args skipped :
  send_sasl_payload (encode raw) = Some args -> Forall (fun m => str_eqb m.1 (bs "AUTHENTICATE") = false) skipped ->
  read_challenge [] (skipped ++ ((fun a => (bs "AUTHENTICATE", [a])) <$> args)) = ChallengeRead raw.
Proof.
  intros Hs Hsk. induction Hsk as [|[command params] l Hc _ IH]; [|cbn [app read_challenge fst] in *; by rewrite Hc].
  assert (Hm : Nat.modulo (length (encode raw)) 4 = 0%nat) by (unfold encode; by rewrite length_encode_with, Nat.mul_comm, Nat.Div0.mod_mul).
  cbn [app]. rewrite (read_challenge_lines (encode raw) args Hm Hs); cbn [app length].
  - unfold decode_challenge. rewrite base64_decode_encode_lemma. destruct (encode raw) eqn:E; [|done]. cbn.
    pose proof (base64_decode_encode_lemma raw) as Hd. rewrite E in Hd. by injection Hd as <-.
  - unfold send_sasl_payload in Hs. destruct (_ <? _)%nat eqn:El in Hs; [done|]. by apply Nat.ltb_ge in El.
Qed.

(** ** Witnesses *)

Section ExchangeSample.
#[local] Existing Instance PlainIpNet.

(** A password long enough for two lines, the second full. *)
Definition sample_message : str := [x00] ++ bs "alice" ++ [x00] ++ repeat "p"%byte 593.


Lemma sasl_challenge_roundtrip_witness :
  exists args, send_sasl_payload (encode sample_message) = Some args
    /\ read_challenge [] ([(bs "PING", [bs "x"])] ++ ((fun a => (bs "AUTHENTICATE", [a])) <$> args)) = ChallengeRead sample_message.
Proof.
  destruct (send_sasl_payload (encode sample_message)) as [args|] eqn:Ea; [|vm_compute in Ea; discriminate Ea].
  exists args. split; [reflexivity|]. apply (sasl_challenge_roundtrip sample_message args [(bs "PING", [bs "x"])]).
  - exact Ea.
  - repeat constructor.
Defined.
End ExchangeSample.
