(* ===== verification/Names.v ===== *)
(** * How a network names things ([e6irc-client/src/names.rs])

    Channel prefixes, STATUSMSG sigils and the case mapping, as the network's
    005 lines declare them; the client's messages and the subject of a numeric
    ([e6irc-client/src/lib.rs]).  A message's conversation is what is left of
    its target without the fewest sigils that leave a channel. *)

From stdpp Require Import gmap.
From S2P Require Import Prelude Str Casemap Isupport Wire Message Sanitize HistoryRequest.

Local Open Scope nat_scope.

(** [s.contains(c)] for a character. *)
Definition has_char (s c : str) : bool := existsb (str_eqb c) (chars s).
Definition first_char (s : str) : option str := head (chars s).

(** ** Messages as the client keeps them *)

Record OwnedMessage : Type := MkOwned {
  own_tags : list (str * option str);
  own_source : option str;
  own_command : str;
  own_params : list str;
}.

(** [OwnedMessage::tag]: the last of that name, with its value. *)
Definition own_tag (m : OwnedMessage) (key : str) : option str :=
  kv ← head (List.filter (fun kv : str * option str => str_eqb kv.1 key) (rev (own_tags m)));
  snd kv.

Definition from_message (m : Message) : OwnedMessage :=
  MkOwned ((fun t => (tag_key t, tag_value t)) <$> msg_tags m)
    ((fun s => src_name s
               ++ match src_user s with Some u => bs "!" ++ u | None => [] end
               ++ match src_host s with Some h => bs "@" ++ h | None => [] end) <$> msg_source m)
    (to_ascii_uppercase <$> msg_command m) (msg_params m).

Definition numeric_subject (m : OwnedMessage) : option str :=
  let index := if existsb (str_eqb (own_command m)) [bs "341"; bs "353"; bs "441"; bs "443"] then 2 else 1 in
  own_params m !! index.

Definition MAX_DIAGNOSTIC_CHARS : nat := 300.
Definition bounded_diagnostic (detail : str) : str :=
  concat ((fun c => if char_control c then bs " " else c) <$> take MAX_DIAGNOSTIC_CHARS (chars detail)).

(** ** Maps *)

(** [HashMap] iterates in an order of its own: [iter] is any. *)
Definition iterates {A} (iter : gmap str A -> list (str * A)) : Prop := forall m, iter m ≡ₚ map_to_list m.

(** [collect] into a map: a later pair replaces an earlier one of its key. *)
Definition collect {A} (l : list (str * A)) : gmap str A := list_to_map (reverse l).

(** ** Naming rules *)

Definition DEFAULT_CHANTYPES : str := bs "#&".

Record NetworkNames : Type := MkNames {
  casemapping : CaseMapping;
  chantypes : str;
  statusmsg : str;
  unrecognised_casemapping : option str;
}.

#[global] Instance NetworkNames_eq_dec : EqDecision NetworkNames.
Proof. solve_decision. Defined.

Definition NetworkNames_default : NetworkNames := MkNames Rfc1459 DEFAULT_CHANTYPES [] None.
Definition with_casemapping (m : CaseMapping) : NetworkNames := MkNames m DEFAULT_CHANTYPES [] None.

Record NamesChanged : Type := MkChanged {
  changed_casemapping : bool;
  changed_chantypes : bool;
  changed_statusmsg : bool;
}.
Definition NamesChanged_default : NamesChanged := MkChanged false false false.

Definition is_channel (names : NetworkNames) (target : str) : bool :=
  match first_char target with Some first => has_char (chantypes names) first | None => false end.

(** The loop of [conversation], on the characters left. *)
Fixpoint conversation_loop (names : NetworkNames) (target : str) (rest : list str) : str :=
  match rest with
  | [] => target
  | sigil :: rest =>
      if has_char (statusmsg names) sigil then
        if is_channel names (concat rest) then concat rest else conversation_loop names target rest
      else target
  end.
Definition conversation (names : NetworkNames) (target : str) : str := conversation_loop names target (chars target).

Definition names_eq (names : NetworkNames) (a b : str) : bool := casemap_eq (casemapping names) a b.
Definition names_fold (names : NetworkNames) (name : str) : str := casefold (casemapping names) name.

Definition adopt_token (names : NetworkNames) (token : IsupportToken) : NetworkNames :=
  let value := default [] (isupport_value token) in
  let name := isupport_name token in
  if str_eqb name (bs "CASEMAPPING") then
    if negated token then MkNames Rfc1459 (chantypes names) (statusmsg names) None
    else match from_isupport_token value with
         | Some mapping => MkNames mapping (chantypes names) (statusmsg names) None
         | None => MkNames Ascii (chantypes names) (statusmsg names) (Some (bounded_diagnostic value))
         end
  else if str_eqb name (bs "CHANTYPES") then
    MkNames (casemapping names) (if negated token then DEFAULT_CHANTYPES else value) (statusmsg names) (unrecognised_casemapping names)
  else if str_eqb name (bs "STATUSMSG") then
    MkNames (casemapping names) (chantypes names) (if negated token then [] else value) (unrecognised_casemapping names)
  else names.

Definition adopt_tokens (names : NetworkNames) (tokens : list str) : NetworkNames * NamesChanged :=
  let after := foldl adopt_token names (omap (fun raw => result_ok (isupport_parse raw)) tokens) in
  (after, MkChanged (negb (bool_decide (casemapping after = casemapping names)))
            (negb (bool_decide (chantypes after = chantypes names))) (negb (bool_decide (statusmsg after = statusmsg names)))).

Definition adopt_isupport (names : NetworkNames) (m : OwnedMessage) : NetworkNames * NamesChanged :=
  if negb (str_eqb (own_command m) (bs "005")) then (names, NamesChanged_default)
  else
    let n := length (own_params m) in
    adopt_tokens names (take (n - 1 - 1) (drop 1 (own_params m))).

(** ** Lemmas *)

Lemma names_eq_iff names a b : names_eq names a b = true <-> names_fold names a = names_fold names b.
Proof. apply casemap_eq_iff. Qed.

(** What is taken off is sigils only, as few as leave a channel; without any,
    nothing is. *)
Lemma conversation_loop_spec names target rest :
  (conversation_loop names target rest = target
   /\ forall k, k < length rest -> Forall (fun c => has_char (statusmsg names) c = true) (take (S k) rest) -> is_channel names (concat (drop (S k) rest)) = false)
  \/ exists k, k < length rest /\ conversation_loop names target rest = concat (drop (S k) rest)
     /\ Forall (fun c => has_char (statusmsg names) c = true) (take (S k) rest) /\ is_channel names (concat (drop (S k) rest)) = true
     /\ forall j, j < k -> is_channel names (concat (drop (S j) rest)) = false.
Proof.
  induction rest as [|sigil rest IH]; cbn [conversation_loop].
  { left. split; [done|]. intros k Hk. cbn in Hk. lia. }
  destruct (has_char (statusmsg names) sigil) eqn:Es.
  2:{ left. split; [done|]. intros k _ HF. cbn in HF. apply Forall_cons in HF as [HF _]. congruence. }
  destruct (is_channel names (concat rest)) eqn:Ec.
  { right. exists 0. split; [cbn; lia|]. split; [done|]. split; [cbn; by repeat constructor|]. split; [done|]. intros j Hj. lia. }
  destruct IH as [[IH1 IH2]|(k & Hk & E & HF & Hc & Hmin)].
  - left. split; [done|]. intros [|k] Hk HF; [done|]. cbn in HF. apply Forall_cons in HF as [_ HF]. cbn [drop]. apply IH2; [cbn in Hk; lia|done].
  - right. exists (S k). split; [cbn; lia|]. split; [done|]. split; [cbn in *; by constructor|]. split; [done|].
    intros [|j] Hj; [done|]. cbn [drop]. apply Hmin. lia.
Qed.

Lemma iterates_keys {A} (iter : gmap str A -> list (str * A)) m : iterates iter -> list_to_set (iter m).*1 = dom m.
Proof. intros Hi. rewrite (Hi m). apply set_eq. intros key. rewrite elem_of_list_to_set, elem_of_dom, list_elem_of_fmap. split.
  - intros ([k x] & -> & H%elem_of_map_to_list). by exists x.
  - intros [x H]. exists (key, x). split; [done|]. by apply elem_of_map_to_list.
Qed.

Lemma iterates_elem {A} (iter : gmap str A -> list (str * A)) m key x : iterates iter -> (key, x) ∈ iter m <-> m !! key = Some x.
Proof. intros Hi. rewrite (Hi m). apply elem_of_map_to_list. Qed.
