(* ===== verification/UpstreamIdentity.v ===== *)
(** * The identity a driver presents upstream ([e6ircd/src/bouncer/upstream_identity.rs])

    The nickname, user name, real name, channels and keys a driver puts into
    its registration and JOIN lines, each admitted by a parser of its own, so
    that none can change the shape of the line it is put in. *)

From stdpp Require Import gmap.
From S2P Require Import Prelude Str Keys Casemap Num Isupport Wire Message Parse Sanitize HistoryRequest Ip Address Proxy Names.

Local Open Scope nat_scope.

(** ** Errors and characters *)

Record UpstreamIdentityError : Type := MkIdentityError { err_field : str; err_reason : str }.

#[global] Instance UpstreamIdentityError_eq_dec : EqDecision UpstreamIdentityError.
Proof. solve_decision. Defined.

Definition breaks_a_parameter (c : str) : bool := char_whitespace c || char_control c.

(** ** Names *)

Record UpstreamNick : Type := MkUpstreamNick { nick_str : str }.
Record UpstreamUsername : Type := MkUpstreamUsername { username_str : str }.
Record UpstreamRealname : Type := MkUpstreamRealname { realname_str : str }.
Record UpstreamChannel : Type := MkUpstreamChannel { channel_str : str }.
Record ConfirmedChannel : Type := MkConfirmed { confirmed_str : str }.
Record ChannelKey : Type := MkKey { key_str : str }.
Record UpstreamSaslAccount : Type := MkSaslAccount { sasl_account_str : str }.

#[global] Instance ConfirmedChannel_eq_dec : EqDecision ConfirmedChannel.
Proof. solve_decision. Defined.
#[global] Instance ChannelKey_eq_dec : EqDecision ChannelKey.
Proof. solve_decision. Defined.

Definition nick_error (reason : str) : UpstreamIdentityError := MkIdentityError (bs "nick") reason.

Definition UpstreamNick_parse (value : str) : result UpstreamIdentityError UpstreamNick :=
  match first_char value with
  | None => Err (nick_error (bs "is required"))
  | Some first =>
      if 64 <? length value then Err (nick_error (bs "is limited to 64 bytes"))
      else if char_in (bs ":#&+!~%@$") first then Err (nick_error (bs "must not begin with a channel or prefix character"))
      else if existsb (fun c => breaks_a_parameter c || char_in (bs ",*?!@") c) (chars value) then
        Err (nick_error (bs "must be one word without spaces, control characters, or any of , * ? ! @"))
      else Ok (MkUpstreamNick value)
  end.

Definition username_error (reason : str) : UpstreamIdentityError := MkIdentityError (bs "username") reason.

Definition UpstreamUsername_parse (value : str) : result UpstreamIdentityError UpstreamUsername :=
  match value with
  | [] => Err (username_error (bs "is required"))
  | first :: _ =>
      if 10 <? length value then Err (username_error (bs "is limited to 10 bytes"))
      else if negb (is_ascii_alphanumeric first) then Err (username_error (bs "must begin with an ASCII letter or digit"))
      else if negb (forallb (fun b => is_ascii_alphanumeric b || (b =b? "_") || (b =b? "-")) value) then
        Err (username_error (bs "may contain only ASCII letters, digits, '_' and '-'"))
      else Ok (MkUpstreamUsername value)
  end.

Definition realname_error (reason : str) : UpstreamIdentityError := MkIdentityError (bs "realname") reason.

Definition UpstreamRealname_parse (value : str) : result UpstreamIdentityError UpstreamRealname :=
  if is_empty value then Err (realname_error (bs "is required"))
  else if 128 <? length value then Err (realname_error (bs "is limited to 128 bytes"))
  else if existsb char_control (chars value) then Err (realname_error (bs "must not contain control characters"))
  else Ok (MkUpstreamRealname value).

(** ** Channels and keys *)

Definition one_channel_word (value : str) : result str unit :=
  if length (chars value) <? 2 then Err (bs "names need at least one character after the prefix")
  else if existsb (fun c => breaks_a_parameter c || str_eqb c (bs ",")) (chars value) then
    Err (bs "names must be one word each, without spaces, commas, or control characters")
  else Ok tt.

Definition channel_shape (value : str) : result str unit :=
  match first_char value with
  | Some first => if char_in (bs "#&+!") first then one_channel_word value else Err (bs "names must begin with #, &, + or !")
  | None => Err (bs "names must begin with #, &, + or !")
  end.

Definition autojoin_error (reason : str) : UpstreamIdentityError := MkIdentityError (bs "autojoin") reason.

Definition UpstreamChannel_MAX_BYTES : nat := 64.

Definition UpstreamChannel_parse (value : str) : result UpstreamIdentityError UpstreamChannel :=
  if UpstreamChannel_MAX_BYTES <? length value then Err (autojoin_error (bs "names are limited to 64 bytes"))
  else match channel_shape value with Ok _ => Ok (MkUpstreamChannel value) | Err reason => Err (autojoin_error reason) end.

Definition ConfirmedChannel_MAX_BYTES : nat := 200.

Definition ConfirmedChannel_parse (value : str) (names : NetworkNames) : option ConfirmedChannel :=
  if (length value <=? ConfirmedChannel_MAX_BYTES) && is_channel names value && is_ok (one_channel_word value) then Some (MkConfirmed value) else None.

Definition ChannelKey_MAX_BYTES : nat := 100.

Definition ChannelKey_parse (value : str) : option ChannelKey :=
  if negb (is_empty value) && (length value <=? ChannelKey_MAX_BYTES) && negb (starts_with ":" value)
     && negb (existsb (fun c => breaks_a_parameter c || str_eqb c (bs ",")) (chars value))
  then Some (MkKey value) else None.

(** ** Autojoin *)

Record AutojoinEntry : Type := MkAutojoinEntry { entry_channel : str; entry_key : option str }.

Definition AutojoinEntry_MAX_CONFIGURED : nat := 64.
Definition AutojoinEntry_MAX_SUBMITTED_BYTES : nat := UpstreamChannel_MAX_BYTES + 1 + ChannelKey_MAX_BYTES.

Definition unkeyed (channel : str) : AutojoinEntry := MkAutojoinEntry channel None.

Definition from_submitted (value : str) : AutojoinEntry :=
  match split_once " " value with
  | Some (channel, key) => MkAutojoinEntry channel (Some key)
  | None => unkeyed value
  end.

Record AutojoinChannel : Type := MkAutojoin { autojoin_channel : UpstreamChannel; autojoin_key : option ChannelKey }.

Definition from_entry (entry : AutojoinEntry) : result UpstreamIdentityError AutojoinChannel :=
  key ← match entry_key entry with
        | None => Ok None
        | Some key =>
            match ChannelKey_parse key with
            | Some key => Ok (Some key)
            | None => Err (autojoin_error (bs "keys must be one word each, of at most 100 bytes, without commas, control characters, or a leading ':'"))
            end
        end;
  channel ← UpstreamChannel_parse (entry_channel entry);
  Ok (MkAutojoin channel key).

Definition parse_list (entries : list AutojoinEntry) : result UpstreamIdentityError (list AutojoinChannel) :=
  if AutojoinEntry_MAX_CONFIGURED <? length entries then Err (autojoin_error (bs "is limited to 64 channels"))
  else mapM from_entry entries.

Definition AutojoinChannel_parse (value : str) : result UpstreamIdentityError AutojoinChannel := from_entry (from_submitted value).

(** ** SASL login and the whole identity *)

Definition sasl_account_error (reason : str) : UpstreamIdentityError := MkIdentityError (bs "sasl_account") reason.

Definition UpstreamSaslAccount_parse (value : str) : result UpstreamIdentityError UpstreamSaslAccount :=
  if is_empty value then Err (sasl_account_error (bs "is required"))
  else if 255 <? length value then Err (sasl_account_error (bs "is limited to 255 bytes"))
  else if negb (str_eqb (trim value) value) then Err (sasl_account_error (bs "must not begin or end with whitespace"))
  else if contains_byte CR value || contains_byte LF value || contains_byte NUL value then
    Err (sasl_account_error (bs "must not contain CR, LF or NUL"))
  else Ok (MkSaslAccount value).

Record UpstreamIdentity : Type := MkIdentity {
  id_nick : UpstreamNick;
  id_username : UpstreamUsername;
  id_realname : UpstreamRealname;
  id_autojoin : list AutojoinChannel;
}.

Definition UpstreamIdentity_parse (nick username realname : str) (autojoin : list AutojoinEntry) : result UpstreamIdentityError UpstreamIdentity :=
  nick ← UpstreamNick_parse nick;
  username ← UpstreamUsername_parse username;
  realname ← UpstreamRealname_parse realname;
  autojoin ← parse_list autojoin;
  Ok (MkIdentity nick username realname autojoin).

(** ** Lemmas: what a parsed word is made of *)

(** A byte no character of a word may be is not in it. *)
Lemma no_bad_char (bad : str -> bool) value b :
  existsb bad (chars value) = false -> is_ascii b = true -> bad [b] = true -> b ∉ value.
Proof.
  intros Hbad Ha Hb Hin. apply (ascii_in_chars b value Ha) in Hin. apply not_true_iff_false in Hbad. apply Hbad, existsb_exists. exists [b].
  split; [by apply list_elem_of_In|done].
Qed.

Lemma illegal_breaks b : is_illegal_byte b = true -> is_ascii b = true /\ breaks_a_parameter [b] = true.
Proof. by destruct b. Qed.

Lemma one_word_bytes bad value :
  existsb (fun c => breaks_a_parameter c || bad c) (chars value) = false -> Forall (fun b => b <> " "%byte /\ is_illegal_byte b = false) value.
Proof.
  intros H. apply Forall_forall. intros b Hb. split.
  - intros ->. revert Hb. by eapply no_bad_char.
  - apply not_true_iff_false. intros [Ha Hbr]%illegal_breaks. revert Hb. eapply no_bad_char; [exact H|done|]. cbn beta. by rewrite Hbr.
Qed.

Lemma one_word_comma value : existsb (fun c => breaks_a_parameter c || str_eqb c (bs ",")) (chars value) = false -> ","%byte ∉ value.
Proof. intros H. eapply no_bad_char; [exact H|done|done]. Qed.

Lemma one_channel_word_ok value :
  one_channel_word value = Ok tt -> value <> [] /\ (","%byte ∉ value) /\ Forall (fun b => b <> " "%byte /\ is_illegal_byte b = false) value.
Proof.
  unfold one_channel_word. destruct (length (chars value) <? 2) eqn:El; [done|]. destruct (existsb _ (chars value)) eqn:Eb; [done|]. intros _. split_and!.
  - intros ->. done.
  - by apply one_word_comma.
  - by apply (one_word_bytes (fun c => str_eqb c (bs ","))) in Eb.
Qed.
