(* ===== verification/ChannelViews.v ===== *)
(** * What a bouncer knows of an upstream's channels ([e6ircd/src/bouncer/channel_views.rs])

    The topic and member list of every channel an upstream session is in,
    followed line by line within a bound on what is held, and the replies an
    attaching client is shown from them.  The lines come from a server a tenant
    chose: the view stays within its bound whatever it sends, and it holds the
    network's members whenever the network tells of every change. *)

From stdpp Require Import gmap sorting.
From S2P Require Import Prelude Str Keys Casemap Num Time Wire Message Isupport Sanitize HistoryRequest Names Ip Address BanMask Nicks Channel ChannelState Directories ChannelOps.

Local Open Scope Z_scope.

Definition MAX_TRACKED_MEMBERSHIPS : Z := 20000.

(** ** Data *)

Inductive Topic : Type :=
| TopicUnknown
| TopicUnset
| TopicSet (text : str) (by_ at_ : option str).

(** [modes] is only read and written by characters. *)
Record Member : Type := MkMember { member_nick : str; member_modes : list str }.

Inductive MemberList : Type :=
| Receiving (members : gmap str Member)
| Complete (members : gmap str Member)
| Unknown.

Record ChannelView : Type := MkView {
  view_topic : Topic;
  view_symbol : str;
  view_members : MemberList;
}.

Record ChannelViews : Type := MkViews {
  channels : gmap str ChannelView;
  memberships : Z;
}.

Inductive ClientTags : Type := Relayed | Denied.

Record UpstreamFeatures : Type := MkFeatures {
  myinfo_modes : option (list str);
  isupport : list str;
  client_tags : ClientTags;
}.

Definition members_of (l : MemberList) : option (gmap str Member) :=
  match l with Receiving m | Complete m => Some m | Unknown => None end.

(** [members_mut]: the list with its members changed. *)
Definition on_members (f : gmap str Member -> gmap str Member) (l : MemberList) : MemberList :=
  match l with Receiving m => Receiving (f m) | Complete m => Complete (f m) | Unknown => Unknown end.

Definition list_len (l : MemberList) : Z :=
  match members_of l with Some m => Z.of_nat (size m) | None => 0 end.

Definition joined_view : ChannelView := MkView TopicUnknown (bs "=") (Receiving ∅).

Definition set_topic (t : Topic) (v : ChannelView) : ChannelView := MkView t (view_symbol v) (view_members v).
Definition set_symbol (c : str) (v : ChannelView) : ChannelView := MkView (view_topic v) c (view_members v).
Definition set_members (l : MemberList) (v : ChannelView) : ChannelView := MkView (view_topic v) (view_symbol v) l.

Definition members_known (v : ChannelView) : bool := match view_members v with Complete _ => true | _ => false end.

(** [-=] on a [usize]: [None] where it would go below zero. *)
Definition checked_sub (a b : Z) : option Z := if b <=? a then Some (a - b) else None.

(** ** Prefixes and modes *)

Definition feature_value (features : UpstreamFeatures) (name : str) : option str :=
  head (omap (fun token => rest ← strip_prefix name token; strip_byte "=" rest) (isupport features)).

Record Prefix : Type := MkPrefix { prefix_modes : list str; prefix_symbols : list str }.

Definition Prefix_of (features : UpstreamFeatures) : Prefix :=
  let prefix := default (bs "(ov)@+") (feature_value features (bs "PREFIX")) in
  let '(modes, symbols) :=
    default (bs "ov", bs "@+") (rest ← strip_byte "(" prefix; split_once ")" rest) in
  MkPrefix (chars modes) (chars symbols).

Definition mem_char (cs : list str) (c : str) : bool := existsb (str_eqb c) cs.

(** [Prefix::symbol]. *)
Definition prefix_symbol (p : Prefix) (modes : list str) : str :=
  default [] (snd <$> head (List.filter (fun ms => mem_char modes ms.1) (zip (prefix_modes p) (prefix_symbols p)))).

Fixpoint index_of (c : str) (cs : list str) : option nat :=
  match cs with [] => None | x :: cs => if str_eqb x c then Some O else S <$> index_of c cs end.

(** The characters an entry begins with that are symbols, and the rest. *)
Fixpoint symbols_prefix (symbols : list str) (cs : list str) : list str * list str :=
  match cs with
  | c :: cs' => if mem_char symbols c then let '(a, b) := symbols_prefix symbols cs' in (c :: a, b) else ([], cs)
  | [] => ([], [])
  end.

(** The modes the symbols show; [self.modes[index]] fails past the modes. *)
Fixpoint shown_modes (p : Prefix) (symbols : list str) : option (list str) :=
  match symbols with
  | [] => Some []
  | c :: symbols =>
      match index_of c (prefix_symbols p) with
      | None => shown_modes p symbols
      | Some i => m ← prefix_modes p !! i; ms ← shown_modes p symbols; Some (m :: ms)
      end
  end.

(** [Prefix::split]. *)
Definition prefix_split (p : Prefix) (entry : str) : option (str * list str) :=
  let '(symbols, rest) := symbols_prefix (prefix_symbols p) (chars entry) in
  modes ← shown_modes p symbols;
  let nick := concat rest in
  Some (match split_once "!" nick with Some (nick, _) => nick | None => nick end, modes).

(** [channel_mode_changes]: [adding] and the arguments not taken yet. *)
Fixpoint mode_changes_loop (always parameter when_set : str) (membership : list str) (modes : list str)
    (adding : bool) (arguments : list str) : list (bool * str * option str) :=
  match modes with
  | [] => []
  | mode :: modes =>
      if str_eqb mode (bs "+") then mode_changes_loop always parameter when_set membership modes true arguments
      else if str_eqb mode (bs "-") then mode_changes_loop always parameter when_set membership modes false arguments
      else
        let takes := has_char always mode || has_char parameter mode || mem_char membership mode || (adding && has_char when_set mode) in
        let '(argument, arguments) := if takes : bool then (head arguments, tail arguments) else (None, arguments) in
        (adding, mode, argument) :: mode_changes_loop always parameter when_set membership modes adding arguments
  end.

Definition channel_mode_changes (features : UpstreamFeatures) (modes : str) (arguments : list str) : list (bool * str * option str) :=
  let kinds := split "," (default (bs "beI,k,l,imnpst") (feature_value features (bs "CHANMODES"))) in
  let kind i := default [] (kinds !! i) in
  mode_changes_loop (kind 0%nat) (kind 1%nat) (kind 2%nat) (prefix_modes (Prefix_of features)) (chars modes) true arguments.

(** ** Operations *)

Definition ChannelViews_default : ChannelViews := MkViews ∅ 0.
Definition views_clear (_ : ChannelViews) : ChannelViews := MkViews ∅ 0.

Definition put (channel : str) (view : ChannelView) (v : ChannelViews) : ChannelViews :=
  MkViews (<[channel := view]> (channels v)) (memberships v).
Definition set_memberships (n : Z) (v : ChannelViews) : ChannelViews := MkViews (channels v) n.

Definition views_left (folded : str) (v : ChannelViews) : option ChannelViews :=
  match channels v !! folded with
  | None => Some v
  | Some view => n ← checked_sub (memberships v) (list_len (view_members view)); Some (MkViews (delete folded (channels v)) n)
  end.

Definition views_joined (folded : str) (v : ChannelViews) : option ChannelViews :=
  v ← views_left folded v; Some (put folded joined_view v).

(** The modes of an entry the member is not known to hold are added. *)
Definition add_modes (modes : list str) (m : Member) : Member :=
  MkMember (member_nick m) (foldl (fun held mode => if mem_char held mode then held else held ++ [mode]) (member_modes m) modes).

Definition add_member (names : NetworkNames) (channel nick : str) (modes : list str) (v : ChannelViews) : option ChannelViews :=
  match channels v !! channel with
  | None => Some v
  | Some view =>
      match members_of (view_members view) with
      | None => Some v
      | Some members =>
          let folded := names_fold names nick in
          match members !! folded with
          | Some member => Some (put channel (set_members (on_members <[folded := add_modes modes member]> (view_members view)) view) v)
          | None =>
              if MAX_TRACKED_MEMBERSHIPS <=? memberships v then
                n ← checked_sub (memberships v) (list_len (view_members view));
                Some (set_memberships n (put channel (set_members Unknown view) v))
              else
                Some (set_memberships (memberships v + 1)
                        (put channel (set_members (on_members <[folded := MkMember nick modes]> (view_members view)) view) v))
          end
      end
  end.

Definition remove_member (names : NetworkNames) (channel nick : str) (v : ChannelViews) : option ChannelViews :=
  match channels v !! channel with
  | None => Some v
  | Some view =>
      match members_of (view_members view) with
      | None => Some v
      | Some members =>
          match members !! names_fold names nick with
          | None => Some v
          | Some _ =>
              n ← checked_sub (memberships v) 1;
              Some (set_memberships n (put channel (set_members (on_members (delete (names_fold names nick)) (view_members view)) view) v))
          end
      end
  end.

(** A loop whose body may fail. *)
Fixpoint each_view {A} (f : A -> ChannelViews -> option ChannelViews) (l : list A) (v : ChannelViews) : option ChannelViews :=
  match l with [] => Some v | a :: l => v ← f a v; each_view f l v end.

Definition channel_list (names : NetworkNames) (params : list str) (index : nat) : list str :=
  match params !! index with
  | Some list => names_fold names <$> List.filter (fun name => negb (is_empty name)) (split "," list)
  | None => []
  end.

(** QUIT: in every channel; how many were removed. *)
Definition quit_views (folded : str) (v : ChannelViews) : option ChannelViews :=
  let removed := map_fold (fun _ view n => n + match members_of (view_members view) with
                                               | Some members => if members !! folded is Some _ then 1 else 0
                                               | None => 0 end) 0 (channels v) in
  n ← checked_sub (memberships v) removed;
  Some (MkViews ((fun view => set_members (on_members (delete folded) (view_members view)) view) <$> channels v) n).

(** NICK: a member takes its new name in every channel it is in. *)
Definition rename_in (old folded_new new : str) (members : gmap str Member) : gmap str Member :=
  match members !! old with
  | Some member => <[folded_new := MkMember new (member_modes member)]> (delete old members)
  | None => members
  end.
Definition rename_views (old folded_new new : str) (v : ChannelViews) : ChannelViews :=
  MkViews ((fun view => set_members (on_members (rename_in old folded_new new) (view_members view)) view) <$> channels v) (memberships v).

(** 353: a list after a complete one is a new list. *)
Definition restart_list (channel : str) (view : ChannelView) (v : ChannelViews) : option ChannelViews :=
  match view_members view with
  | Complete members =>
      n ← checked_sub (memberships v) (Z.of_nat (size members));
      Some (set_memberships n (put channel (set_members (Receiving ∅) view) v))
  | _ => Some (put channel view v)
  end.

Definition names_line (names : NetworkNames) (features : UpstreamFeatures) (params : list str) (v : ChannelViews) : option ChannelViews :=
  let count := length params in
  let at_ i := default [] (params !! i) in
  let channel := names_fold names (at_ (count - 2)%nat) in
  let symbol := if (4 <=? count)%nat then first_char (at_ (count - 3)%nat) else None in
  match channels v !! channel with
  | None => Some v
  | Some view =>
      let view := match symbol with Some symbol => set_symbol symbol view | None => view end in
      v ← restart_list channel view v;
      each_view (fun entry v =>
        r ← prefix_split (Prefix_of features) entry;
        if is_empty r.1 then Some v else add_member names channel r.1 r.2 v)
        (List.filter (fun entry => negb (is_empty entry)) (split " " (at_ (count - 1)%nat))) v
  end.

Definition finish_list (view : ChannelView) : ChannelView :=
  match view_members view with Receiving members => set_members (Complete members) view | _ => view end.

(** The view of the channel a parameter names, changed where there is one. *)
Definition on_view (names : NetworkNames) (channel : option str) (f : ChannelView -> ChannelView) (v : ChannelViews) : ChannelViews :=
  match channel with
  | Some channel => match channels v !! names_fold names channel with Some view => put (names_fold names channel) (f view) v | None => v end
  | None => v
  end.

Definition topic_numeric (command : str) (params : list str) (view : ChannelView) : ChannelView :=
  if str_eqb command (bs "331") then set_topic TopicUnset view
  else if str_eqb command (bs "332") then set_topic (TopicSet (default [] (last params)) None None) view
  else match view_topic view with TopicSet text _ _ => set_topic (TopicSet text (params !! 2%nat) (params !! 3%nat)) view | _ => view end.

Definition topic_line (m : Message) (view : ChannelView) : ChannelView :=
  let text := default [] (msg_params m !! 1%nat) in
  set_topic
    (if is_empty text then TopicUnset
     else TopicSet text (src_name <$> msg_source m)
            (tag ← message_tag m (bs "time"); value ← tag_value tag; millis ← parse_server_time_millis value; Some (dec (millis / 1000)))) view.

(** One change of a membership mode. *)
Definition member_mode (names : NetworkNames) (membership : list str) (members : gmap str Member) (change : bool * str * option str) : gmap str Member :=
  match change with
  | (adding, mode, Some nick) =>
      if mem_char membership mode then
        alter (fun member => if adding then add_modes [mode] member
                             else MkMember (member_nick member) (List.filter (fun held => negb (str_eqb held mode)) (member_modes member)))
          (names_fold names nick) members
      else members
  | _ => members
  end.

Definition mode_line (names : NetworkNames) (features : UpstreamFeatures) (params : list str) (v : ChannelViews) : ChannelViews :=
  match params with
  | channel :: modes :: arguments =>
      on_view names (Some channel) (fun view =>
        set_members (on_members (fun members => foldl (member_mode names (prefix_modes (Prefix_of features))) members
                                                  (channel_mode_changes features modes arguments)) (view_members view)) view) v
  | _ => v
  end.

Definition kick_line (names : NetworkNames) (own : str) (params : list str) (v : ChannelViews) : option ChannelViews :=
  let targets := split "," (default [] (params !! 1%nat)) in
  each_view (fun ic v =>
    let target := default [] (match targets !! ic.1 with Some t => Some t | None => head targets end) in
    if names_eq names target own then Some v else remove_member names ic.2 target v)
    (imap pair (channel_list names params 0)) v.

(** [observe]: [own] is the session's nick before the line. *)
Definition views_observe (m : Message) (names : NetworkNames) (features : UpstreamFeatures) (own : str) (v : ChannelViews) : option ChannelViews :=
  let source := src_name <$> msg_source m in
  let from_us := match source with Some source => names_eq names source own | None => false end in
  let params := msg_params m in
  let command := to_ascii_uppercase <$> msg_command m in
  if str_eqb command (bs "JOIN") then
    match source with
    | Some nick => if from_us then Some v else each_view (fun channel => add_member names channel nick []) (channel_list names params 0) v
    | None => Some v
    end
  else if str_eqb command (bs "PART") then
    match source with
    | Some nick => if from_us then Some v else each_view (fun channel => remove_member names channel nick) (channel_list names params 0) v
    | None => Some v
    end
  else if str_eqb command (bs "KICK") then kick_line names own params v
  else if str_eqb command (bs "QUIT") then
    match source with Some nick => if from_us then Some v else quit_views (names_fold names nick) v | None => Some v end
  else if str_eqb command (bs "NICK") then
    match source, params !! 0%nat with
    | Some old, Some new => Some (rename_views (names_fold names old) (names_fold names new) new v)
    | _, _ => Some v
    end
  else if str_eqb command (bs "353") && (3 <=? length params)%nat then names_line names features params v
  else if str_eqb command (bs "366") then Some (on_view names (params !! 1%nat) finish_list v)
  else if str_eqb command (bs "331") || str_eqb command (bs "332") || str_eqb command (bs "333") then
    Some (on_view names (params !! 1%nat) (topic_numeric (msg_command m) params) v)
  else if str_eqb command (bs "TOPIC") then Some (on_view names (params !! 0%nat) (topic_line m) v)
  else if str_eqb command (bs "MODE") then Some (mode_line names features params v)
  else Some v.

Definition held (cs : gmap str ChannelView) : Z := map_fold (fun _ view n => list_len (view_members view) + n) 0 cs.

Definition views_rekey (iter_views : gmap str ChannelView -> list (str * ChannelView)) (iter_members : gmap str Member -> list (str * Member))
    (names : NetworkNames) (displays : gmap str str) (v : ChannelViews) : ChannelViews :=
  let rekeyed := collect (omap (fun kv => display ← displays !! kv.1;
      Some (names_fold names display,
            set_members (on_members (fun members => collect ((fun kv => (names_fold names (member_nick kv.2), kv.2)) <$> iter_members members))
                           (view_members kv.2)) kv.2)) (iter_views (channels v))) in
  MkViews rekeyed (held rekeyed).

(** ** Replies to an attaching client *)

(** The loop of [names_reply] over the members, [line] being filled. *)
Fixpoint names_fill (head line : str) (entries : list str) : list str :=
  match entries with
  | [] => if (length head <? length line)%nat then [line] else []
  | entry :: entries =>
      let full := (length head <? length line)%nat && (MAX_LINE_LEN <? length line + 1 + length entry + 2)%nat in
      let start := if full then head else line in
      let next := (if (length head <? length start)%nat then start ++ bs " " else start) ++ entry in
      if full then line :: names_fill head next entries else names_fill head next entries
  end.

Definition names_entries (p : Prefix) (members : gmap str Member) : list str :=
  omap (fun folded => (fun m => prefix_symbol p (member_modes m) ++ member_nick m) <$> members !! folded)
    (merge_sort str_le (map_to_list members).*1).

Definition names_reply (view : ChannelView) (server nick channel : str) (features : UpstreamFeatures) : option (list str) :=
  match view_members view with
  | Complete members =>
      let head := bs ":" ++ server ++ bs " 353 " ++ nick ++ bs " " ++ view_symbol view ++ bs " " ++ channel ++ bs " :" in
      let end_ := bs ":" ++ server ++ bs " 366 " ++ nick ++ bs " " ++ channel ++ bs " :" in
      Some (names_fill head head (names_entries (Prefix_of features) members)
            ++ [end_ ++ fit_trailing end_ (bs "End of /NAMES list")])
  | _ => None
  end.

Definition topic_reply (view : ChannelView) (server nick channel : str) : option (list str) :=
  match view_topic view with
  | TopicUnknown => None
  | TopicUnset =>
      let head := bs ":" ++ server ++ bs " 331 " ++ nick ++ bs " " ++ channel ++ bs " :" in
      Some [head ++ fit_trailing head (bs "No topic is set")]
  | TopicSet text by_ at_ =>
      let head := bs ":" ++ server ++ bs " 332 " ++ nick ++ bs " " ++ channel ++ bs " :" in
      Some ((head ++ fit_trailing head text)
            :: match by_, at_ with
               | Some by_, Some at_ => [bs ":" ++ server ++ bs " 333 " ++ nick ++ bs " " ++ channel ++ bs " " ++ by_ ++ bs " " ++ at_]
               | _, _ => []
               end)
  end.

(** ** What is held *)

Lemma held_insert cs channel view :
  held (<[channel := view]> cs) = held cs - match cs !! channel with Some old => list_len (view_members old) | None => 0 end + list_len (view_members view).
Proof.
  unfold held. rewrite <- insert_delete_eq. rewrite map_fold_insert_L; [|intros; lia|apply lookup_delete_eq].
  destruct (cs !! channel) as [old|] eqn:E.
  - rewrite <- (insert_delete_id cs channel old E) at 2. rewrite map_fold_insert_L; [lia|intros; lia|apply lookup_delete_eq].
  - rewrite delete_id by done. lia.
Qed.

Lemma held_views_delete cs channel old : cs !! channel = Some old -> held (delete channel cs) = held cs - list_len (view_members old).
Proof.
  intros E. unfold held. rewrite <- (insert_delete_id cs channel old E) at 2. rewrite map_fold_insert_L; [lia|intros; lia|apply lookup_delete_eq].
Qed.

Lemma list_len_nonneg l : 0 <= list_len l.
Proof. unfold list_len. destruct (members_of l); lia. Qed.

Lemma held_views_nonneg cs : 0 <= held cs.
Proof.
  unfold held. apply (map_fold_weak_ind (fun n _ => 0 <= n)); [done|]. intros _ view m n _ Hn. pose proof (list_len_nonneg (view_members view)). lia.
Qed.

Lemma held_lookup cs channel view : cs !! channel = Some view -> list_len (view_members view) <= held cs.
Proof. intros E. pose proof (held_views_delete cs channel view E). pose proof (held_views_nonneg (delete channel cs)). lia. Qed.

(** A change of every view, as a sum. *)
Lemma held_fmap (f : ChannelView -> ChannelView) (g : ChannelView -> Z) cs :
  (forall view, list_len (view_members (f view)) + g view = list_len (view_members view)) ->
  held (f <$> cs) + map_fold (fun _ view n => n + g view) 0 cs = held cs.
Proof.
  intros Hf. unfold held. induction cs as [|channel view cs Hn IH] using map_ind; [done|].
  rewrite fmap_insert, !map_fold_insert_L; try done; try (intros; lia); [|by rewrite lookup_fmap, Hn]. specialize (Hf view). lia.
Qed.

(** ** The bound *)

Record views_ok (v : ChannelViews) : Prop := {
  vo_held : held (channels v) <= memberships v;
  vo_bound : memberships v <= MAX_TRACKED_MEMBERSHIPS;
}.

Definition safe (f : ChannelViews -> option ChannelViews) : Prop := forall v, views_ok v -> exists v', f v = Some v' /\ views_ok v'.

Lemma checked_sub_some a b : b <= a -> checked_sub a b = Some (a - b).
Proof. intros Hb. unfold checked_sub. by rewrite (proj2 (Z.leb_le _ _)). Qed.

Lemma safe_each {A} (f : A -> ChannelViews -> option ChannelViews) l : (forall a, safe (f a)) -> safe (each_view f l).
Proof.
  intros Hf. induction l as [|a l IH]; intros v Hv; cbn; [by exists v|]. destruct (Hf a v Hv) as (v' & -> & Hv'). cbn. by apply IH.
Qed.

Lemma views_ok_put channel old view v n :
  views_ok v -> channels v !! channel = Some old -> n <= MAX_TRACKED_MEMBERSHIPS ->
  list_len (view_members view) - list_len (view_members old) <= n - memberships v -> views_ok (set_memberships n (put channel view v)).
Proof. intros [H1 H2] E Hn Hd. split; cbn; [|done]. rewrite held_insert, E. lia. Qed.

Lemma safe_left folded : safe (views_left folded).
Proof.
  intros v [H1 H2]. unfold views_left. destruct (channels v !! folded) as [view|] eqn:E; [|by exists v].
  pose proof (held_lookup _ _ _ E). pose proof (list_len_nonneg (view_members view)). rewrite checked_sub_some by lia. eexists. split; [done|].
  split; cbn; [|lia]. rewrite (held_views_delete _ _ _ E). lia.
Qed.

Lemma safe_joined folded : safe (views_joined folded).
Proof.
  intros v Hv. unfold views_joined. destruct (safe_left folded v Hv) as (v' & E & [H1 H2]). rewrite E. cbn. eexists. split; [done|].
  split; cbn; [|done]. rewrite held_insert. change (list_len (view_members joined_view)) with 0.
  destruct (channels v' !! folded) as [old|] eqn:Eo; [|lia]. pose proof (list_len_nonneg (view_members old)). lia.
Qed.

Lemma on_members_len f l n :
  (forall m, members_of l = Some m -> Z.of_nat (size (f m)) = Z.of_nat (size m) + n) -> members_of l <> None \/ n = 0 ->
  list_len (on_members f l) = list_len l + n.
Proof. intros Hf Hn. unfold list_len. destruct l as [m|m|]; cbn in *; [by rewrite Hf..|destruct Hn; [done|lia]]. Qed.

Lemma add_member_safe names channel nick modes : safe (add_member names channel nick modes).
Proof.
  intros v Hv. pose proof Hv as [H1 H2]. unfold add_member. destruct (channels v !! channel) as [view|] eqn:E; [|by exists v].
  destruct (members_of (view_members view)) as [members|] eqn:Em; [|by exists v].
  pose proof (held_lookup _ _ _ E) as Hl. destruct (members !! names_fold names nick) as [member|] eqn:Ek.
  - eexists. split; [done|]. apply (views_ok_put channel view _ v (memberships v)); [done|done|done|]. cbn.
    rewrite (on_members_len _ _ 0); [lia| |by right]. intros m. rewrite Em. intros [= <-]. rewrite map_size_insert_Some by eauto. lia.
  - destruct (Z.leb_spec MAX_TRACKED_MEMBERSHIPS (memberships v)).
    + rewrite checked_sub_some by lia. eexists. split; [done|]. pose proof (list_len_nonneg (view_members view)).
      apply (views_ok_put channel view); [done|done|lia|]. cbn. lia.
    + eexists. split; [done|]. apply (views_ok_put channel view); [done|done|lia|]. cbn.
      rewrite (on_members_len _ _ 1); [lia| |left; by rewrite Em]. intros m. rewrite Em. intros [= <-]. rewrite map_size_insert_None by done. lia.
Qed.

Lemma remove_member_safe names channel nick : safe (remove_member names channel nick).
Proof.
  intros v Hv. pose proof Hv as [H1 H2]. unfold remove_member. destruct (channels v !! channel) as [view|] eqn:E; [|by exists v].
  destruct (members_of (view_members view)) as [members|] eqn:Em; [|by exists v].
  destruct (members !! names_fold names nick) as [member|] eqn:Ek; [|by exists v].
  pose proof (held_lookup _ _ _ E) as Hl. assert (Hs : size members <> 0%nat) by (apply (map_size_ne_0_lookup_2 _ (names_fold names nick)); eauto).
  assert (1 <= list_len (view_members view)) by (unfold list_len; rewrite Em; lia).
  rewrite checked_sub_some by lia. eexists. split; [done|]. apply (views_ok_put channel view); [done|done|lia|]. cbn.
  rewrite (on_members_len _ _ (-1)); [lia| |left; by rewrite Em]. intros m. rewrite Em. intros [= <-]. rewrite map_size_delete_Some by eauto. lia.
Qed.

Definition quit_view (folded : str) (view : ChannelView) : ChannelView := set_members (on_members (delete folded) (view_members view)) view.
Definition quit_count (folded : str) (cs : gmap str ChannelView) : Z :=
  map_fold (fun _ view n => n + match members_of (view_members view) with
                                | Some members => if members !! folded is Some _ then 1 else 0
                                | None => 0 end) 0 cs.

Lemma quit_held folded cs : held (quit_view folded <$> cs) + quit_count folded cs = held cs /\ 0 <= quit_count folded cs.
Proof.
  split.
  - apply (held_fmap (quit_view folded) (fun view => match members_of (view_members view) with Some members => if members !! folded is Some _ then 1 else 0 | None => 0 end)).
    intros view. unfold quit_view, list_len. destruct (view_members view) as [m|m|]; cbn; try lia;
      (destruct (m !! folded) eqn:Em; [rewrite map_size_delete_Some by eauto; assert (size m <> 0%nat) by (apply (map_size_ne_0_lookup_2 _ folded); eauto); lia
                                      |rewrite map_size_delete_None by done; lia]).
  - unfold quit_count. apply (map_fold_weak_ind (fun n _ => 0 <= n)); [done|]. intros _ view m n _ Hn.
    destruct (members_of _) as [ms|]; [destruct (ms !! folded)|]; lia.
Qed.

Lemma quit_views_run folded v : held (channels v) <= memberships v ->
  quit_views folded v = Some (MkViews (quit_view folded <$> channels v) (memberships v - quit_count folded (channels v))).
Proof.
  intros Hh. destruct (quit_held folded (channels v)) as [Hq H0]. pose proof (held_views_nonneg (quit_view folded <$> channels v)). unfold quit_views.
  change (map_fold _ 0 (channels v)) with (quit_count folded (channels v)). by rewrite checked_sub_some by lia.
Qed.

Lemma quit_views_safe folded : safe (quit_views folded).
Proof.
  intros v [H1 H2]. rewrite quit_views_run by done. eexists. split; [done|]. destruct (quit_held folded (channels v)) as [Hq H0]. split; cbn; lia.
Qed.

Lemma held_fmap_le (f : ChannelView -> ChannelView) cs :
  (forall view, list_len (view_members (f view)) <= list_len (view_members view)) -> held (f <$> cs) <= held cs.
Proof.
  intros Hf. assert (Hh := held_fmap f (fun view => list_len (view_members view) - list_len (view_members (f view))) cs (fun view => ltac:(cbn; lia))). cbn beta in Hh.
  assert (0 <= map_fold (fun _ view n => n + (list_len (view_members view) - list_len (view_members (f view)))) 0 cs).
  { apply (map_fold_weak_ind (fun n _ => 0 <= n)); [done|]. intros _ view m n _ Hn. specialize (Hf view). lia. }
  lia.
Qed.

Lemma on_members_le f l : (forall m, (size (f m) <= size m)%nat) -> list_len (on_members f l) <= list_len l.
Proof. intros Hf. unfold list_len. destruct l as [m|m|]; cbn; [specialize (Hf m); lia..|done]. Qed.

Lemma rename_in_size old folded_new new members : (size (rename_in old folded_new new members) <= size members)%nat.
Proof.
  unfold rename_in. destruct (members !! old) as [member|] eqn:E; [|done].
  pose proof (map_size_ne_0_lookup_2 members old ltac:(eauto)). pose proof (map_size_delete_Some old members ltac:(eauto)).
  rewrite map_size_insert. destruct (delete old members !! folded_new); cbn; lia.
Qed.

Lemma rename_views_safe old folded_new new : safe (fun v => Some (rename_views old folded_new new v)).
Proof.
  intros v [H1 H2]. eexists. split; [done|]. split; cbn; [|done]. etransitivity; [|exact H1]. apply held_fmap_le. intros view. cbn.
  apply on_members_le. intros m. apply rename_in_size.
Qed.

Lemma size_alter (f : Member -> Member) (k : str) (m : gmap str Member) : size (alter f k m) = size m.
Proof. by rewrite <- !size_dom, dom_alter_L. Qed.

Lemma member_mode_size names membership members changes : size (foldl (member_mode names membership) members changes) = size members.
Proof.
  revert members. induction changes as [|[[adding mode] [nick|]] changes IH]; intros members; cbn; [done| |apply IH].
  rewrite IH. destruct (mem_char membership mode); [|done]. apply size_alter.
Qed.

Lemma on_view_safe names channel f : (forall view, list_len (view_members (f view)) <= list_len (view_members view)) ->
  safe (fun v => Some (on_view names channel f v)).
Proof.
  intros Hf v Hv. eexists. split; [done|]. unfold on_view. destruct channel as [channel|]; [|done].
  destruct (channels v !! names_fold names channel) as [view|] eqn:E; [|done]. destruct Hv as [H1 H2].
  apply (views_ok_put _ view _ v (memberships v)); [done|done|done|]. specialize (Hf view). lia.
Qed.

Lemma finish_list_len view : list_len (view_members (finish_list view)) <= list_len (view_members view).
Proof. unfold finish_list. by destruct (view_members view) eqn:E; cbn; rewrite ?E. Qed.

Lemma topic_numeric_len command params view : list_len (view_members (topic_numeric command params view)) <= list_len (view_members view).
Proof. unfold topic_numeric. destruct (str_eqb command (bs "331")), (str_eqb command (bs "332")); try done. by destruct (view_topic view). Qed.

Lemma mode_line_safe names features params : safe (fun v => Some (mode_line names features params v)).
Proof.
  unfold mode_line. destruct params as [|channel [|modes arguments]]; try (intros v Hv; by exists v).
  apply (on_view_safe names (Some channel)). intros view. cbn. apply on_members_le. intros m. by rewrite member_mode_size.
Qed.

Definition prefix_ok (features : UpstreamFeatures) : Prop :=
  (length (prefix_symbols (Prefix_of features)) <= length (prefix_modes (Prefix_of features)))%nat.

Lemma index_of_lt c cs i : index_of c cs = Some i -> (i < length cs)%nat.
Proof.
  revert i. induction cs as [|x cs IH]; intros i; cbn; [done|]. destruct (str_eqb x c); [intros [= <-]; lia|].
  intros (j & Hj & ->)%fmap_Some. apply IH in Hj. lia.
Qed.

Lemma prefix_split_some features entry : prefix_ok features -> is_Some (prefix_split (Prefix_of features) entry).
Proof.
  intros Hp. unfold prefix_split. destruct (symbols_prefix _ _) as [symbols rest].
  assert (Hs : is_Some (shown_modes (Prefix_of features) symbols)).
  { induction symbols as [|c symbols IH]; cbn; [eauto|]. destruct (index_of c _) as [i|] eqn:Ei; [|done]. apply index_of_lt in Ei. unfold prefix_ok in Hp.
    destruct (lookup_lt_is_Some_2 (prefix_modes (Prefix_of features)) i ltac:(lia)) as [m ->]. destruct IH as [ms ->]. cbn. eauto. }
  destruct Hs as [modes ->]. cbn. eauto.
Qed.

Lemma restart_safe channel view v :
  views_ok v -> (exists old, channels v !! channel = Some old /\ view_members view = view_members old) ->
  exists v', restart_list channel view v = Some v' /\ views_ok v'.
Proof.
  intros Hv (old & E & Em). pose proof (held_lookup _ _ _ E) as Hl. pose proof Hv as [H1 H2]. unfold restart_list.
  destruct (view_members view) as [m|m|] eqn:Ev; (eexists; split; [first [done|rewrite checked_sub_some; [done|]]|]).
  - apply (views_ok_put channel old view v (memberships v)); [done|done|done|]. rewrite Ev, Em. lia.
  - rewrite <- Em in Hl. cbn in Hl. lia.
  - apply (views_ok_put channel old); [done|done|lia|]. rewrite <- Em. change (0 - Z.of_nat (size m) <= memberships v - Z.of_nat (size m) - memberships v). lia.
  - apply (views_ok_put channel old view v (memberships v)); [done|done|done|]. rewrite Ev, Em. lia.
Qed.

Lemma names_line_safe names features params : prefix_ok features -> safe (names_line names features params).
Proof.
  intros Hp v Hv. unfold names_line. cbn zeta. set (channel := names_fold names _). destruct (channels v !! channel) as [view|] eqn:E; [|by exists v].
  set (view' := match _ with Some symbol => set_symbol symbol view | None => view end).
  destruct (restart_safe channel view' v Hv) as (v1 & -> & Hv1).
  { exists view. split; [done|]. unfold view'. by destruct (if (4 <=? length params)%nat then _ else _). }
  cbn. apply safe_each; [|done]. intros entry v2 Hv2. destruct (prefix_split_some features entry Hp) as [[nick modes] ->]. cbn.
  destruct (is_empty nick); [by exists v2|]. by apply add_member_safe.
Qed.

Lemma observe_safe m names features own : prefix_ok features -> safe (views_observe m names features own).
Proof.
  intros Hp. assert (Hid : safe Some) by (intros v Hv; by exists v).
  intros v Hv. unfold views_observe. cbn zeta.
  repeat match goal with |- exists v', (if ?b then _ else _) = _ /\ _ => destruct b end;
    first [ by exists v | by apply rename_views_safe | by apply names_line_safe | by apply mode_line_safe
          | apply on_view_safe; [apply finish_list_len|done] | apply on_view_safe; [apply topic_numeric_len|done] | by apply on_view_safe | idtac ].
  - destruct (src_name <$> msg_source m) as [nick|]; [|by exists v]. destruct (names_eq names nick own); [by exists v|].
    apply safe_each; [|done]. intros channel. apply add_member_safe.
  - destruct (src_name <$> msg_source m) as [nick|]; [|by exists v]. destruct (names_eq names nick own); [by exists v|].
    apply safe_each; [|done]. intros channel. apply remove_member_safe.
  - apply safe_each; [|done]. intros [i channel] v2 Hv2. cbn. destruct (names_eq _ _ own); [by exists v2|]. by apply remove_member_safe.
  - destruct (src_name <$> msg_source m) as [nick|]; [|by exists v]. destruct (names_eq names nick own); [by exists v|]. by apply quit_views_safe.
  - destruct (src_name <$> msg_source m) as [old|]; [|by exists v]. destruct (msg_params m !! 0%nat) as [new|]; [|by exists v]. by apply rename_views_safe.
Qed.

(** ** A new case mapping *)

Definition sum_views (l : list (str * ChannelView)) : Z := foldr (fun kv n => list_len (view_members kv.2) + n) 0 l.

Lemma sum_views_cons kv l : sum_views (kv :: l) = list_len (view_members kv.2) + sum_views l.
Proof. done. Qed.

Lemma sum_views_perm l l' : l ≡ₚ l' -> sum_views l = sum_views l'.
Proof. intros Hp. unfold sum_views. induction Hp; cbn in *; lia. Qed.

Lemma held_sum cs : held cs = sum_views (map_to_list cs).
Proof.
  unfold held, sum_views. rewrite map_fold_foldr. induction (map_to_list cs) as [|[k view] l IH]; cbn; [done|]. by rewrite IH.
Qed.

Lemma held_collect l : held (list_to_map l) <= sum_views l.
Proof.
  induction l as [|[k view] l IH]; [done|]. rewrite list_to_map_cons, held_insert, sum_views_cons. cbn [snd]. destruct (list_to_map l !! k) as [old|]; [|lia].
  pose proof (list_len_nonneg (view_members old)). lia.
Qed.

Lemma size_collect (l : list (str * Member)) : (size (list_to_map (M := gmap str Member) l) <= length l)%nat.
Proof. induction l as [|[k m] l IH]; cbn; [done|]. rewrite map_size_insert. destruct (list_to_map l !! k); cbn in *; lia. Qed.

Lemma sum_views_omap (f : str * ChannelView -> option (str * ChannelView)) l :
  (forall kv kv', f kv = Some kv' -> list_len (view_members kv'.2) <= list_len (view_members kv.2)) -> sum_views (omap f l) <= sum_views l.
Proof.
  intros Hf. induction l as [|kv l IH]; [done|]. cbn [omap list_omap]. rewrite sum_views_cons. destruct (f kv) as [kv'|] eqn:E; [rewrite sum_views_cons; specialize (Hf _ _ E); lia|].
  pose proof (list_len_nonneg (view_members kv.2)). lia.
Qed.

Lemma rekey_safe iter_views iter_members names displays :
  iterates iter_views -> iterates iter_members -> safe (fun v => Some (views_rekey iter_views iter_members names displays v)).
Proof.
  intros Hv Hm v [H1 H2]. eexists. split; [done|]. unfold views_rekey. set (rekeyed := collect _).
  assert (Hle : held rekeyed <= held (channels v)).
  { unfold rekeyed, collect. etransitivity; [apply held_collect|]. rewrite (sum_views_perm _ _ (reverse_Permutation _)), held_sum, <- (sum_views_perm _ _ (Hv _)).
    apply sum_views_omap. intros [k view] kv'. cbn. intros (display & _ & [= <-])%bind_Some. cbn. apply on_members_le. intros m.
    unfold collect. etransitivity; [apply size_collect|]. rewrite length_reverse, length_fmap, (Permutation_length (Hm m)). by rewrite length_map_to_list. }
  split; cbn; [done|]. lia.
Qed.

(** ** Runs *)

Inductive ViewOp : Type :=
| OpClear
| OpLeft (folded : str)
| OpJoined (folded : str)
| OpRekey (iter_views : gmap str ChannelView -> list (str * ChannelView)) (iter_members : gmap str Member -> list (str * Member))
    (names : NetworkNames) (displays : gmap str str)
| OpObserve (m : Message) (names : NetworkNames) (features : UpstreamFeatures) (own : str).

Definition view_op (op : ViewOp) (v : ChannelViews) : option ChannelViews :=
  match op with
  | OpClear => Some (views_clear v)
  | OpLeft folded => views_left folded v
  | OpJoined folded => views_joined folded v
  | OpRekey iter_views iter_members names displays => Some (views_rekey iter_views iter_members names displays v)
  | OpObserve m names features own => views_observe m names features own v
  end.

Definition op_ok (op : ViewOp) : Prop :=
  match op with
  | OpRekey iter_views iter_members _ _ => iterates iter_views /\ iterates iter_members
  | OpObserve _ _ features _ => prefix_ok features
  | _ => True
  end.

Lemma op_safe op : op_ok op -> safe (view_op op).
Proof.
  destruct op; cbn.
  - intros _ v Hv. eexists. split; [done|]. by split.
  - intros _. apply safe_left.
  - intros _. apply safe_joined.
  - intros []. by apply rekey_safe.
  - apply observe_safe.
Qed.

Lemma ops_safe ops : Forall op_ok ops -> safe (each_view view_op ops).
Proof.
  intros Hops. induction Hops as [|op ops Hop _ IH]; intros v Hv; cbn; [by exists v|]. destruct (op_safe op Hop v Hv) as (v' & -> & Hv'). by apply IH.
Qed.

(**  Whatever lines an upstream sends, channels the session joins and
    leaves and case mappings the network adopts, following them never fails
    and the members held over all channels never exceed the bound, provided
    the network's PREFIX shows no more symbols than it has modes. *)
Theorem views_bounded ops :
  Forall op_ok ops ->
  exists v, each_view view_op ops ChannelViews_default = Some v /\ 0 <= held (channels v) <= memberships v /\ memberships v <= MAX_TRACKED_MEMBERSHIPS.
Proof.
  intros Hops. destruct (ops_safe ops Hops ChannelViews_default) as (v & E & [H1 H2]); [by split|]. exists v. split; [done|].
  pose proof (held_views_nonneg (channels v)). lia.
Qed.

(** A list arrives, a member joins, another quits; the case mapping changes. *)
Definition sample_ops : list ViewOp :=
  let line source command params := OpObserve (MkMessage [] (Some (MkSource source None None)) command params false) NetworkNames_default (MkFeatures None [] Relayed) (bs "me") in
  [ OpJoined (bs "#room");
    line (bs "irc.net") (bs "353") [bs "me"; bs "="; bs "#Room"; bs "@alice +bob me"];
    line (bs "irc.net") (bs "366") [bs "me"; bs "#room"; bs "End of /NAMES list"];
    line (bs "carol") (bs "JOIN") [bs "#room"];
    line (bs "bob") (bs "QUIT") [bs "bye"];
    OpRekey map_to_list map_to_list (with_casemapping Ascii) {[ bs "#room" := bs "#Room" ]} ].

Lemma views_bounded_witness :
  exists v, each_view view_op sample_ops ChannelViews_default = Some v /\ 0 <= held (channels v) <= memberships v /\ memberships v <= MAX_TRACKED_MEMBERSHIPS.
Proof.
  apply views_bounded. repeat (apply Forall_cons; split); cbn [op_ok]; first [exact I|split; intros m; reflexivity|apply Forall_nil_2|apply Nat.leb_le; reflexivity].
Defined.

(** PREFIX is not checked: an entry that shows a symbol past the modes fails. *)
Example prefix_symbol_past_modes_fails :
  each_view view_op
    [ OpJoined (bs "#room");
      OpObserve (MkMessage [] None (bs "353") [bs "me"; bs "="; bs "#room"; bs "+bob"] false) NetworkNames_default
        (MkFeatures None [bs "PREFIX=(o)@+"] Relayed) (bs "me") ] ChannelViews_default = None.
Proof. reflexivity. Qed.

(** A NICK onto a name already held leaves one member where two were counted. *)
Example rename_onto_member_drifts :
  (fun v => (held (channels v), memberships v)) <$>
  each_view view_op
    [ OpJoined (bs "#room");
      OpObserve (MkMessage [] None (bs "353") [bs "me"; bs "="; bs "#room"; bs "alice bob"] false) NetworkNames_default (MkFeatures None [] Relayed) (bs "me");
      OpObserve (MkMessage [] (Some (MkSource (bs "alice") None None)) (bs "NICK") [bs "bob"] false) NetworkNames_default (MkFeatures None [] Relayed) (bs "me") ]
    ChannelViews_default = Some (1, 2).
Proof. vm_compute. reflexivity. Qed.
