(* ===== verification/SessionState.v ===== *)
(** * An upstream session as the bouncer tracks it ([IrcSessionState] of [e6ircd/src/bouncer/mod.rs])

    The session's nick, the channels it is in, what the network said of itself
    and of its channels, followed line by line.  The lines are the upstream's:
    what is tracked stays within its bounds and is keyed under the names the
    network uses whatever it sends. *)

From stdpp Require Import gmap sorting.
From S2P Require Import Prelude Str Keys Casemap Num Time Wire Message Isupport Sanitize HistoryRequest Names Ip Address BanMask Nicks Channel ChannelState Directories ChannelOps UpstreamIdentity ChannelViews.

Local Open Scope nat_scope.

(** ** Data *)

Definition MAX_TRACKED_CHANNELS : nat := 512.
Definition UNTRACKED_NAME_SHOWN : nat := 64.
Definition MAX_UPSTREAM_ISUPPORT_TOKENS : nat := 128.
Definition MAX_UPSTREAM_ISUPPORT_TOKEN_LEN : nat := 200.

Inductive ChannelLimitExceeded : Type := LimitExceeded.

Record IrcSessionSnapshot : Type := MkSnapshot { snap_nick : str; snap_channels : list str }.

Record ShownIdentity : Type := MkShown { shown_user : option str; shown_host : str }.

Record SessionChange : Type := MkChange {
  change_nick : option str;
  shown_identity : option ShownIdentity;
  change_joined : list ConfirmedChannel;
  change_left : list str;
  casemapping_changed : bool;
  untracked : list str;
}.
Definition SessionChange_default : SessionChange := MkChange None None [] [] false [].

Definition UpstreamFeatures_default : UpstreamFeatures := MkFeatures None [] Relayed.

Record IrcSessionState : Type := MkState {
  sess_nick : option str;
  sess_channels : gmap str ConfirmedChannel;
  sess_views : option ChannelViews;
  sess_features : UpstreamFeatures;
  sess_names : NetworkNames;
  in_burst : bool;
}.

Definition IrcSessionState_default : IrcSessionState := MkState None ∅ None UpstreamFeatures_default NetworkNames_default false.
Definition with_names (names : NetworkNames) : IrcSessionState := MkState None ∅ None UpstreamFeatures_default names false.
Definition following_channels : IrcSessionState := MkState None ∅ (Some ChannelViews_default) UpstreamFeatures_default NetworkNames_default false.

Definition set_channels (cs : gmap str ConfirmedChannel) (s : IrcSessionState) : IrcSessionState :=
  MkState (sess_nick s) cs (sess_views s) (sess_features s) (sess_names s) (in_burst s).
Definition set_views (v : option ChannelViews) (s : IrcSessionState) : IrcSessionState :=
  MkState (sess_nick s) (sess_channels s) v (sess_features s) (sess_names s) (in_burst s).
Definition set_nick (nick : option str) (s : IrcSessionState) : IrcSessionState :=
  MkState nick (sess_channels s) (sess_views s) (sess_features s) (sess_names s) (in_burst s).
Definition set_features (f : UpstreamFeatures) (s : IrcSessionState) : IrcSessionState :=
  MkState (sess_nick s) (sess_channels s) (sess_views s) f (sess_names s) (in_burst s).
Definition set_names (names : NetworkNames) (s : IrcSessionState) : IrcSessionState :=
  MkState (sess_nick s) (sess_channels s) (sess_views s) (sess_features s) names (in_burst s).
Definition set_burst (b : bool) (s : IrcSessionState) : IrcSessionState :=
  MkState (sess_nick s) (sess_channels s) (sess_views s) (sess_features s) (sess_names s) b.

(** ** What the network says of itself *)

(** [key] of [observe_isupport]. *)
Definition token_key (token : str) : str := default token (head (split "=" token)).
Definition isupport_key (token : str) : str :=
  let token := default token (strip_byte "-" token) in default token (head (split "=" token)).

Definition client_tag_deny (f : UpstreamFeatures) : option str :=
  match client_tags f with
  | Denied => Some (bs "CLIENTTAGDENY=*")
  | Relayed => List.find (fun token => str_eqb (isupport_key token) (bs "CLIENTTAGDENY")) (isupport f)
  end.

(** The first kept token of [name] replaced; [None] where there is none. *)
Fixpoint replace_token (name token : str) (kept : list str) : option (list str) :=
  match kept with
  | [] => None
  | t :: kept => if str_eqb (token_key t) name then Some (token :: kept) else cons t <$> replace_token name token kept
  end.

Definition observe_token (kept : list str) (token : str) : list str :=
  if is_empty token || starts_with ":" token || (MAX_UPSTREAM_ISUPPORT_TOKEN_LEN <? length token) then kept
  else match strip_byte "-" token with
       | Some withdrawn => List.filter (fun t => negb (str_eqb (token_key t) withdrawn)) kept
       | None =>
           match replace_token (token_key token) token kept with
           | Some kept => kept
           | None => if MAX_UPSTREAM_ISUPPORT_TOKENS <=? length kept then kept else kept ++ [token]
           end
       end.

Definition observe_isupport (tokens : list str) (f : UpstreamFeatures) : UpstreamFeatures :=
  MkFeatures (myinfo_modes f) (foldl observe_token (isupport f) tokens) (client_tags f).

(** ** The registration burst *)

Definition REGISTRATION_BURST : list str :=
  [bs "001"; bs "002"; bs "003"; bs "004"; bs "005"; bs "042"; bs "250"; bs "251"; bs "252"; bs "253"; bs "254"; bs "255"; bs "265"; bs "266"; bs "372"; bs "375"; bs "376"; bs "396"; bs "422"].

Definition in_registration_burst (line : str) (s : IrcSessionState) : bool * IrcSessionState :=
  if negb (in_burst s) then (false, s)
  else match parse line with
       | Err _ => (false, set_burst false s)
       | Ok message =>
           let command := msg_command message in
           if negb (existsb (str_eqb command) REGISTRATION_BURST) then
             let from_server := match msg_source message with
                                | None => true
                                | Some source => negb (bool_decide (is_Some (src_user source))) && negb (bool_decide (is_Some (src_host source)))
                                end in
             let interleaved := (eq_ignore_ascii_case command (bs "NOTICE") && from_server) || eq_ignore_ascii_case command (bs "MODE") in
             (false, if interleaved then s else set_burst false s)
           else (true, if str_eqb command (bs "376") || str_eqb command (bs "422") then set_burst false s else s)
       end.

(** ** Operations *)

Definition state_view (channel : str) (s : IrcSessionState) : option ChannelView :=
  v ← sess_views s; channels v !! names_fold (sess_names s) channel.

(** [sort_by_key] with the fold as the key. *)
Definition by_fold (names : NetworkNames) (a b : str) : Prop := str_le (names_fold names a) (names_fold names b).
#[global] Instance by_fold_dec names : RelDecision (by_fold names).
Proof. intros a b. unfold by_fold. apply _. Defined.

Definition snapshot (iter : gmap str ConfirmedChannel -> list (str * ConfirmedChannel)) (s : IrcSessionState) : option IrcSessionSnapshot :=
  nick ← sess_nick s;
  Some (MkSnapshot nick (merge_sort (by_fold (sess_names s)) (confirmed_str <$> (iter (sess_channels s)).*2))).

Definition begin_session (nick : str) (s : IrcSessionState) : IrcSessionState :=
  MkState (Some nick) ∅ (views_clear <$> sess_views s) (MkFeatures None [] (client_tags (sess_features s))) (sess_names s) (in_burst s).

(** Channels filed under [names]. *)
Definition keyed (names : NetworkNames) (l : list ConfirmedChannel) : gmap str ConfirmedChannel :=
  collect ((fun channel => (names_fold names (confirmed_str channel), channel)) <$> l).

(** The orders in which the maps a line reaches iterate. *)
Record Orders : Type := MkOrders {
  order_views : gmap str ChannelView -> list (str * ChannelView);
  order_members : gmap str Member -> list (str * Member);
  order_channels : gmap str ConfirmedChannel -> list (str * ConfirmedChannel);
}.
Definition orders_ok (o : Orders) : Prop := iterates (order_views o) /\ iterates (order_members o) /\ iterates (order_channels o).

Definition rekey (o : Orders) (s : IrcSessionState) : IrcSessionState :=
  let views := views_rekey (order_views o) (order_members o) (sess_names s) (confirmed_str <$> sess_channels s) <$> sess_views s in
  set_channels (keyed (sess_names s) (order_channels o (sess_channels s)).*2) (set_views views s).

Definition adopt (o : Orders) (names : NetworkNames) (features : UpstreamFeatures) (s : IrcSessionState) : IrcSessionState :=
  let rekeyed := negb (bool_decide (casemapping (sess_names s) = casemapping names)) in
  let s := set_features features (set_names names s) in
  if rekeyed then rekey o s else s.

Definition replace (snap : IrcSessionSnapshot) (s : IrcSessionState) : IrcSessionState :=
  MkState (Some (snap_nick snap)) (keyed (sess_names s) (omap (fun channel => ConfirmedChannel_parse channel (sess_names s)) (snap_channels snap)))
    (views_clear <$> sess_views s) (sess_features s) (sess_names s) (in_burst s).

Definition state_at (snap : IrcSessionSnapshot) (names : NetworkNames) (features : UpstreamFeatures) : IrcSessionState :=
  replace snap (MkState None ∅ (Some ChannelViews_default) features names false).

(** *** One line *)

Definition params_list (params : list str) (index : nat) : list str :=
  match params !! index with Some value => List.filter (fun item => negb (is_empty item)) (split "," value) | None => [] end.

(** [SessionChange::leave]: the channels left, and those named so far. *)
Definition leave (names : NetworkNames) (acc : gmap str ConfirmedChannel * list str) (channel : str) : gmap str ConfirmedChannel * list str :=
  if acc.1 !! names_fold names channel is Some _ then (delete (names_fold names channel) acc.1, acc.2 ++ [channel]) else acc.

(** JOIN: the names confirmed, filed, and those that are no channel. *)
Definition confirm (names : NetworkNames) (acc : gmap str ConfirmedChannel * list str) (name : str) : gmap str ConfirmedChannel * list str :=
  match ConfirmedChannel_parse name names with
  | Some channel => (<[names_fold names (confirmed_str channel) := channel]> acc.1, acc.2)
  | None => (acc.1, acc.2 ++ [truncate_on_char_boundary name UNTRACKED_NAME_SHOWN])
  end.

(** The channels [observe] files for a JOIN, and those new to it. *)
Definition file_joined (acc : gmap str ConfirmedChannel * list ConfirmedChannel) (kc : str * ConfirmedChannel) : gmap str ConfirmedChannel * list ConfirmedChannel :=
  (<[kc.1 := kc.2]> acc.1, if acc.1 !! kc.1 is Some _ then acc.2 else acc.2 ++ [kc.2]).

Definition kicked (names : NetworkNames) (is_us : str -> bool) (params : list str) (cs : gmap str ConfirmedChannel) : gmap str ConfirmedChannel * list str :=
  let channels := params_list params 0 in
  let targets := params_list params 1 in
  if length channels =? length targets then
    foldl (fun acc ct => if is_us ct.2 then leave names acc ct.1 else acc) (cs, []) (zip channels targets)
  else match channels with
       | [channel] => if existsb is_us targets then leave names (cs, []) channel else (cs, [])
       | _ => (cs, [])
       end.

Definition set_left (left_ : list str) (c : SessionChange) : SessionChange :=
  MkChange (change_nick c) (shown_identity c) (change_joined c) left_ (casemapping_changed c) (untracked c).
Definition set_shown (shown_ : ShownIdentity) (c : SessionChange) : SessionChange :=
  MkChange (change_nick c) (Some shown_) (change_joined c) (change_left c) (casemapping_changed c) (untracked c).

(** The match of [observe] on the command: what it changes of the session
    before its views, and of the change reported. *)
Definition observe_command (o : Orders) (message : Message) (own : str) (c : SessionChange) (s : IrcSessionState)
    : result ChannelLimitExceeded (SessionChange * IrcSessionState) :=
  let names := sess_names s in
  let is_us candidate := names_eq names candidate own in
  let from_us := match msg_source message with Some source => is_us (src_name source) | None => false end in
  let params := msg_params message in
  let to_us := match params with first :: _ => is_us first | [] => false end in
  let command := to_ascii_uppercase <$> msg_command message in
  if str_eqb command (bs "NICK") && from_us then
    match params with
    | nick :: _ => Ok (MkChange (Some nick) (shown_identity c) (change_joined c) (change_left c) (casemapping_changed c) (untracked c), set_nick (Some nick) s)
    | [] => Ok (c, s)
    end
  else if str_eqb command (bs "396") && to_us then
    match params !! 1 with
    | Some host => Ok (if is_empty host then c else set_shown (MkShown None host) c, s)
    | None => Ok (c, s)
    end
  else if str_eqb command (bs "JOIN") && from_us then
    let '(confirmed, refused) := foldl (confirm names) (∅, untracked c) (params_list params 0) in
    let added := length (List.filter (fun kc : str * ConfirmedChannel => negb (bool_decide (is_Some (sess_channels s !! kc.1)))) (map_to_list confirmed)) in
    if MAX_TRACKED_CHANNELS <? size (sess_channels s) + added then Err LimitExceeded
    else
      let '(cs, joined) := foldl file_joined (sess_channels s, change_joined c) (order_channels o confirmed) in
      Ok (MkChange (change_nick c) (shown_identity c) joined (change_left c) (casemapping_changed c) refused, set_channels cs s)
  else if str_eqb command (bs "PART") && from_us then
    let '(cs, left_) := foldl (leave names) (sess_channels s, []) (params_list params 0) in Ok (set_left left_ c, set_channels cs s)
  else if str_eqb command (bs "KICK") then
    let '(cs, left_) := kicked names is_us params (sess_channels s) in Ok (set_left left_ c, set_channels cs s)
  else if str_eqb command (bs "QUIT") && from_us then Ok (c, set_channels ∅ s)
  else if str_eqb command (bs "004") && to_us && (5 <=? length params) then
    Ok (c, set_features (MkFeatures (Some (List.filter (fun modes => negb (is_empty modes) && negb (starts_with ":" modes)) (take 3 (drop 3 params))))
                           (isupport (sess_features s)) (client_tags (sess_features s))) s)
  else if str_eqb command (bs "005") && to_us && (3 <=? length params) then
    let tokens := take (length params - 2) (drop 1 params) in
    let '(names, adopted) := adopt_tokens (sess_names s) tokens in
    let s := set_names names (set_features (observe_isupport tokens (sess_features s)) s) in
    if changed_casemapping adopted then
      Ok (MkChange (change_nick c) (shown_identity c) (change_joined c) (change_left c) true (untracked c), rekey o s)
    else Ok (c, s)
  else Ok (c, s).

(** What the views are told of a line: [None] is a panic. *)
Definition observe_views (message : Message) (own : str) (we_quit : bool) (c : SessionChange) (s : IrcSessionState) (v : ChannelViews) : option ChannelViews :=
  let v := if we_quit then views_clear v else v in
  v ← each_view (fun channel => views_left (names_fold (sess_names s) channel)) (change_left c) v;
  v ← each_view (fun channel => views_joined (names_fold (sess_names s) (confirmed_str channel))) (change_joined c) v;
  views_observe message (sess_names s) (sess_features s) own v.

Definition observe_message (o : Orders) (message : Message) (own : str) (s : IrcSessionState)
    : option (result ChannelLimitExceeded SessionChange * IrcSessionState) :=
  let from_us := match msg_source message with Some source => names_eq (sess_names s) (src_name source) own | None => false end in
  let we_quit := eq_ignore_ascii_case (msg_command message) (bs "QUIT") && from_us in
  let c := match msg_source message with
           | Some source =>
               match src_host source with
               | Some host => if from_us then set_shown (MkShown (src_user source) host) SessionChange_default else SessionChange_default
               | None => SessionChange_default
               end
           | None => SessionChange_default
           end in
  match observe_command o message own c s with
  | Err e => Some (Err e, s)
  | Ok (c, s) =>
      match sess_views s with
      | None => Some (Ok c, s)
      | Some v => v ← observe_views message own we_quit c s v; Some (Ok c, set_views (Some v) s)
      end
  end.

(** [observe]. *)
Definition observe (o : Orders) (line : str) (s : IrcSessionState) : option (result ChannelLimitExceeded SessionChange * IrcSessionState) :=
  match sess_nick s with
  | None => Some (Ok SessionChange_default, s)
  | Some own =>
      match parse line with
      | Err _ => Some (Ok SessionChange_default, s)
      | Ok message => observe_message o message own s
      end
  end.

Definition mirror (o : Orders) (line : str) (s : IrcSessionState) : option (str * SessionChange * IrcSessionState) :=
  '(r, s) ← observe o line s;
  Some (match r with
        | Ok change => (line, change, s)
        | Err _ => (bs ":*bnc* NOTICE * :upstream line omitted: it exceeds the tracked channel limit", SessionChange_default, s)
        end).

(** [expect]: [None] before the welcome. *)
Definition downstream_nick (s : IrcSessionState) : option str := sess_nick s.

(** ** Invariant *)

Definition one_channel (c : ConfirmedChannel) : Prop := length (confirmed_str c) <= ConfirmedChannel_MAX_BYTES /\ one_channel_word (confirmed_str c) = Ok tt.

(** A channel is filed under the network's own fold of its name. *)
Definition filed (names : NetworkNames) (cs : gmap str ConfirmedChannel) : Prop :=
  forall key c, cs !! key = Some c -> key = names_fold names (confirmed_str c) /\ one_channel c.

(** The value a token gives a PREFIX has no more symbols than modes. *)
Definition prefix_token_ok (token : str) : Prop :=
  forall value, (rest ← strip_prefix (bs "PREFIX") token; strip_byte "=" rest) = Some value -> prefix_ok (MkFeatures None [token] Relayed).

Definition isupport_ok (tokens : list str) : Prop :=
  length tokens <= MAX_UPSTREAM_ISUPPORT_TOKENS /\ Forall (fun t => length t <= MAX_UPSTREAM_ISUPPORT_TOKEN_LEN) tokens
  /\ NoDup (token_key <$> tokens) /\ Forall prefix_token_ok tokens.

Definition views_within (v : ChannelViews) (cs : gmap str ConfirmedChannel) : Prop := views_ok v /\ dom (channels v) ⊆ dom cs.

Record tracked (s : IrcSessionState) : Prop := {
  tr_size : size (sess_channels s) <= MAX_TRACKED_CHANNELS;
  tr_filed : filed (sess_names s) (sess_channels s);
  tr_isupport : isupport_ok (isupport (sess_features s));
  tr_views : forall v, sess_views s = Some v -> views_within v (sess_channels s);
}.

(** ** The network's tokens *)

Lemma feature_value_cons myinfo token tokens tags name :
  feature_value (MkFeatures myinfo (token :: tokens) tags) name
  = match (rest ← strip_prefix name token; strip_byte "=" rest) with Some value => Some value | None => feature_value (MkFeatures myinfo tokens tags) name end.
Proof. unfold feature_value. cbn [isupport omap list_omap]. by destruct (strip_prefix name token ≫= _). Qed.

Lemma prefix_of_value f g : feature_value f (bs "PREFIX") = feature_value g (bs "PREFIX") -> Prefix_of f = Prefix_of g.
Proof. intros E. unfold Prefix_of. by rewrite E. Qed.

Lemma prefix_tokens_ok myinfo tokens tags : Forall prefix_token_ok tokens -> prefix_ok (MkFeatures myinfo tokens tags).
Proof.
  induction 1 as [|token tokens Ht _ IH].
  - unfold prefix_ok. change (Prefix_of (MkFeatures myinfo [] tags)) with (MkPrefix (chars (bs "ov")) (chars (bs "@+"))). vm_compute. lia.
  - unfold prefix_ok in *. destruct (rest ← strip_prefix (bs "PREFIX") token; strip_byte "=" rest) as [value|] eqn:E.
    + specialize (Ht value E). unfold prefix_ok in Ht. erewrite prefix_of_value; [exact Ht|]. by rewrite !feature_value_cons, E.
    + erewrite prefix_of_value; [exact IH|]. by rewrite feature_value_cons, E.
Qed.

Lemma replace_token_spec name token kept kept' :
  replace_token name token kept = Some kept' -> exists a t b, kept = a ++ t :: b /\ kept' = a ++ token :: b /\ token_key t = name.
Proof.
  revert kept'. induction kept as [|t kept IH]; intros kept'; cbn; [done|]. destruct (str_eqb (token_key t) name) eqn:E.
  - intros [= <-]. apply str_eqb_eq in E. by exists [], t, kept.
  - intros (k & Hk & ->)%fmap_Some. destruct (IH k Hk) as (a & t' & b & -> & -> & Hn). by exists (t :: a), t', b.
Qed.

Lemma replace_token_none name token kept : replace_token name token kept = None -> name ∉ token_key <$> kept.
Proof.
  induction kept as [|t kept IH]; cbn; [set_solver|]. destruct (str_eqb (token_key t) name) eqn:E; [done|]. intros H%fmap_None.
  apply not_elem_of_cons. split; [|auto]. intros ->. by rewrite str_eqb_refl in E.
Qed.

Lemma observe_token_ok kept token : isupport_ok kept -> prefix_token_ok token -> isupport_ok (observe_token kept token).
Proof.
  intros (Hn & Hl & Hd & Hp) Ht. unfold observe_token.
  destruct (is_empty token || starts_with ":" token || (MAX_UPSTREAM_ISUPPORT_TOKEN_LEN <? length token)) eqn:Eg; [done|].
  apply orb_false_iff in Eg as [_ Hlen%Nat.ltb_ge]. destruct (strip_byte "-" token) as [withdrawn|].
  - split_and!.
    + pose proof (List.filter_length_le (fun t => negb (str_eqb (token_key t) withdrawn)) kept). lia.
    + apply Forall_forall. intros t [Ht' _]%elem_of_Lfilter. rewrite Forall_forall in Hl. auto.
    + clear -Hd. induction kept as [|t kept IH]; [done|]. cbn in *. apply NoDup_cons in Hd as [Hnot Hd]. destruct (negb _); cbn; [|auto].
      constructor; [|auto]. intros (x & E & [Hx _]%elem_of_Lfilter)%list_elem_of_fmap. apply Hnot, list_elem_of_fmap. eauto.
    + apply Forall_forall. intros t [Ht' _]%elem_of_Lfilter. rewrite Forall_forall in Hp. auto.
  - destruct (replace_token (token_key token) token kept) as [kept'|] eqn:Er.
    + apply replace_token_spec in Er as (a & t & b & -> & -> & Hk). rewrite !fmap_app, !fmap_cons, Hk in Hd.
      rewrite length_app in Hn. apply Forall_app in Hl as [Hl1 Hl2], Hp as [Hp1 Hp2]. apply Forall_cons in Hl2 as [_ Hl2], Hp2 as [_ Hp2].
      split_and!; [by rewrite length_app|by apply Forall_app_2; [|constructor]|by rewrite fmap_app, fmap_cons|by apply Forall_app_2; [|constructor]].
    + apply replace_token_none in Er. destruct (Nat.leb_spec MAX_UPSTREAM_ISUPPORT_TOKENS (length kept)); [done|]. split_and!.
      * rewrite length_app. cbn. lia.
      * apply Forall_app_2; [done|]. by apply Forall_singleton.
      * rewrite fmap_app. apply NoDup_app. split_and!; [done| |by apply NoDup_singleton]. intros x Hx Hx'%list_elem_of_singleton. by subst.
      * apply Forall_app_2; [done|]. by apply Forall_singleton.
Qed.

Lemma observe_isupport_ok tokens f : isupport_ok (isupport f) -> Forall prefix_token_ok tokens -> isupport_ok (isupport (observe_isupport tokens f)).
Proof.
  intros Hf Ht. cbn. revert Hf. generalize (isupport f). induction Ht as [|token tokens Ht _ IH]; intros kept Hk; [done|]. cbn. by apply IH, observe_token_ok.
Qed.

(** ** The views are of channels tracked *)

Definition same_dom (f : ChannelViews -> option ChannelViews) : Prop := forall v v', f v = Some v' -> dom (channels v') = dom (channels v).

Lemma same_dom_each {A} (f : A -> ChannelViews -> option ChannelViews) l : (forall a, same_dom (f a)) -> same_dom (each_view f l).
Proof.
  intros Hf. induction l as [|a l IH]; intros v v'; cbn; [by intros [= <-]|]. destruct (f a v) as [w|] eqn:E; [|done]. cbn. intros H.
  rewrite (IH _ _ H). by apply (Hf a).
Qed.

Lemma dom_put key view old v : channels v !! key = Some old -> dom (channels (put key view v)) = dom (channels v).
Proof. intros E. cbn. rewrite dom_insert_L. apply elem_of_dom_2 in E. set_solver. Qed.

Lemma add_member_dom names key nick modes : same_dom (add_member names key nick modes).
Proof.
  intros v v'. unfold add_member. destruct (channels v !! key) as [view|] eqn:E; [|by intros [= <-]]. destruct (members_of _) as [ms|]; [|by intros [= <-]].
  destruct (ms !! _).
  - intros [= <-]. by apply (dom_put key _ view).
  - destruct (MAX_TRACKED_MEMBERSHIPS <=? memberships v)%Z; [destruct (checked_sub _ _); [|done]; cbn|]; intros [= <-]; by apply (dom_put key _ view).
Qed.

Lemma remove_member_dom names key nick : same_dom (remove_member names key nick).
Proof.
  intros v v'. unfold remove_member. destruct (channels v !! key) as [view|] eqn:E; [|by intros [= <-]]. destruct (members_of _) as [ms|]; [|by intros [= <-]].
  destruct (ms !! _); [|by intros [= <-]]. destruct (checked_sub _ _); [|done]. cbn. intros [= <-]. by apply (dom_put key _ view).
Qed.

Lemma on_view_dom names channel f : same_dom (fun v => Some (on_view names channel f v)).
Proof.
  intros v v' [= <-]. unfold on_view. destruct channel as [channel|]; [|done]. destruct (channels v !! _) as [view|] eqn:E; [|done]. by apply (dom_put _ _ view).
Qed.

Lemma names_line_dom names features params : same_dom (names_line names features params).
Proof.
  intros v v'. unfold names_line. cbn zeta. set (key := names_fold names _). destruct (channels v !! key) as [view|] eqn:E; [|by intros [= <-]].
  set (view' := match _ with Some symbol => set_symbol symbol view | None => view end).
  destruct (restart_list key view' v) as [w|] eqn:Er; [|done]. cbn. intros H.
  assert (Hw : dom (channels w) = dom (channels v)).
  { revert Er. unfold restart_list. destruct (view_members view'); [|destruct (checked_sub _ _); [|done]; cbn|]; intros [= <-]; by apply (dom_put key _ view). }
  rewrite <- Hw. revert H. apply same_dom_each. intros entry u u'. destruct (prefix_split _ entry) as [r|]; [|done]. cbn.
  destruct (is_empty r.1); [by intros [= <-]|]. apply add_member_dom.
Qed.

Lemma views_observe_dom m names features own : same_dom (views_observe m names features own).
Proof.
  intros v v'. unfold views_observe. cbn zeta.
  repeat match goal with |- (if ?b then _ else _) = _ -> _ => destruct b end;
    try (by intros [= <-]); try apply on_view_dom; try apply names_line_dom.
  - destruct (src_name <$> msg_source m) as [nick|]; [|by intros [= <-]]. destruct (names_eq names nick own); [by intros [= <-]|].
    apply same_dom_each. intros channel. apply add_member_dom.
  - destruct (src_name <$> msg_source m) as [nick|]; [|by intros [= <-]]. destruct (names_eq names nick own); [by intros [= <-]|].
    apply same_dom_each. intros channel. apply remove_member_dom.
  - apply same_dom_each. intros [i channel] u u'. cbn. destruct (names_eq _ _ own); [by intros [= <-]|]. apply remove_member_dom.
  - destruct (src_name <$> msg_source m) as [nick|]; [|by intros [= <-]]. destruct (names_eq names nick own); [by intros [= <-]|].
    unfold quit_views. destruct (checked_sub _ _); [|done]. cbn. intros [= <-]. cbn. apply dom_fmap_L.
  - destruct (src_name <$> msg_source m) as [old|]; [|by intros [= <-]]. destruct (msg_params m !! 0) as [new|]; [|by intros [= <-]].
    intros [= <-]. cbn. apply dom_fmap_L.
  - intros [= <-]. unfold mode_line. destruct (msg_params m) as [|channel [|modes arguments]]; try done. by eapply (on_view_dom names (Some channel)).
Qed.

Lemma left_dom key v v' : views_left key v = Some v' -> dom (channels v') = dom (channels v) ∖ {[ key ]}.
Proof.
  unfold views_left. destruct (channels v !! key) as [view|] eqn:E.
  - destruct (checked_sub _ _); [|done]. cbn. intros [= <-]. cbn. apply dom_delete_L.
  - intros [= <-]. apply not_elem_of_dom in E. set_solver.
Qed.

Lemma lefts_dom names l v v' :
  each_view (fun channel => views_left (names_fold names channel)) l v = Some v' ->
  dom (channels v') = dom (channels v) ∖ list_to_set (names_fold names <$> l).
Proof.
  revert v. induction l as [|channel l IH]; intros v; cbn; [intros [= <-]; set_solver|]. destruct (views_left _ v) as [w|] eqn:E; [|done]. cbn. intros H.
  rewrite (IH _ H), (left_dom _ _ _ E). set_solver.
Qed.

Lemma joineds_dom names l v v' :
  each_view (fun channel => views_joined (names_fold names (confirmed_str channel))) l v = Some v' ->
  dom (channels v') ⊆ dom (channels v) ∪ list_to_set ((fun c => names_fold names (confirmed_str c)) <$> l).
Proof.
  revert v. induction l as [|channel l IH]; intros v; cbn; [intros [= <-]; set_solver|]. destruct (views_joined _ v) as [w|] eqn:E; [|done]. cbn. intros H%IH.
  unfold views_joined in E. destruct (views_left _ v) as [u|] eqn:El; [|done]. cbn in E. injection E as <-. cbn in H. rewrite dom_insert_L, (left_dom _ _ _ El) in H. set_solver.
Qed.

(** What is left of the channels viewed by what a line leaves and joins. *)
Definition views_follow_change (c : SessionChange) (s : IrcSessionState) (keys : gset str) : Prop :=
  (keys ∖ list_to_set (names_fold (sess_names s) <$> change_left c))
  ∪ list_to_set ((fun ch => names_fold (sess_names s) (confirmed_str ch)) <$> change_joined c) ⊆ dom (sess_channels s).

Lemma observe_views_within message own (we_quit : bool) c s v :
  views_ok v -> prefix_ok (sess_features s) -> views_follow_change c s (if we_quit then ∅ else dom (channels v)) ->
  exists v', observe_views message own we_quit c s v = Some v' /\ views_within v' (sess_channels s).
Proof.
  intros Hv Hp Hkeys. unfold observe_views. set (v0 := if we_quit then views_clear v else v).
  assert (H0 : views_ok v0) by (unfold v0; destruct we_quit; [by split|done]).
  assert (Hd0 : dom (channels v0) = (if we_quit then (∅ : gset str) else dom (channels v))) by (unfold v0; by destruct we_quit).
  destruct (safe_each (fun channel => views_left (names_fold (sess_names s) channel)) (change_left c) (fun _ : str => safe_left _) v0 H0) as (v1 & E1 & H1).
  destruct (safe_each (fun channel => views_joined (names_fold (sess_names s) (confirmed_str channel))) (change_joined c) (fun _ : ConfirmedChannel => safe_joined _) v1 H1) as (v2 & E2 & H2).
  destruct (observe_safe message (sess_names s) (sess_features s) own Hp v2 H2) as (v3 & E3 & H3).
  exists v3. rewrite E1. cbn [mbind option_bind]. rewrite E2. cbn [mbind option_bind]. split; [done|]. split; [done|].
  rewrite (views_observe_dom _ _ _ _ _ _ E3). etransitivity; [by apply joineds_dom|]. rewrite (lefts_dom _ _ _ _ E1), Hd0. exact Hkeys.
Qed.

(** ** Channels joined and left *)

Lemma fold_preserves {A B} (P : A -> Prop) (f : A -> B -> A) l : (forall a b, P a -> P (f a b)) -> forall a, P a -> P (foldl f a l).
Proof. intros Hf. induction l as [|b l IH]; intros a Ha; cbn; auto. Qed.

(** What is left of [cs] is without the channels named. *)
Definition departed (names : NetworkNames) (cs : gmap str ConfirmedChannel) (acc : gmap str ConfirmedChannel * list str) : Prop :=
  acc.1 ⊆ cs /\ dom acc.1 = dom cs ∖ list_to_set (names_fold names <$> acc.2).

Lemma departed_none names cs : departed names cs (cs, []).
Proof. split; [done|]. cbn. set_solver. Qed.

Lemma leave_departed names cs acc channel : departed names cs acc -> departed names cs (leave names acc channel).
Proof.
  intros [Hs Hd]. unfold leave. destruct (acc.1 !! names_fold names channel) as [c|] eqn:E; [|done]. split; cbn.
  - etransitivity; [apply delete_subseteq|done].
  - rewrite dom_delete_L, Hd, fmap_app, list_to_set_app_L. cbn. set_solver.
Qed.

Lemma kicked_departed names is_us params cs : departed names cs (kicked names is_us params cs).
Proof.
  unfold kicked. destruct (length (params_list params 0) =? length (params_list params 1)).
  - apply (fold_preserves (departed names cs)); [|apply departed_none]. intros acc [channel target] Hacc. cbn. destruct (is_us target); [by apply leave_departed|done].
  - destruct (params_list params 0) as [|channel [|]]; try apply departed_none. destruct (existsb is_us _); [apply leave_departed|]; apply departed_none.
Qed.

Lemma filed_subset names cs cs' : filed names cs -> cs' ⊆ cs -> filed names cs'.
Proof. intros Hf Hs key c E. apply Hf. by eapply lookup_weaken. Qed.

Lemma ConfirmedChannel_parse_one value names c : ConfirmedChannel_parse value names = Some c -> confirmed_str c = value /\ one_channel c.
Proof.
  unfold ConfirmedChannel_parse, one_channel. destruct (length value <=? ConfirmedChannel_MAX_BYTES) eqn:El; [|done]. destruct (is_channel names value); [|done].
  destruct (one_channel_word value) as [[]|] eqn:Ew; [|done]. cbn. intros [= <-]. cbn. apply Nat.leb_le in El. auto.
Qed.

Lemma filed_insert names cs c : filed names cs -> one_channel c -> filed names (<[names_fold names (confirmed_str c) := c]> cs).
Proof. intros Hf Hc key c'. rewrite lookup_insert_Some. intros [[<- <-]|[_ E]]; [done|by apply Hf]. Qed.

Lemma confirm_filed names l : filed names (foldl (confirm names) (∅, []) l).1.
Proof.
  apply (fold_preserves (fun acc => filed names acc.1)); [|done]. intros acc name Hacc. unfold confirm.
  destruct (ConfirmedChannel_parse name names) as [c|] eqn:E; [|done]. apply ConfirmedChannel_parse_one in E as [_ Hc]. by apply filed_insert.
Qed.

Lemma file_joined_spec names cs l :
  filed names cs -> Forall (fun kc : str * ConfirmedChannel => kc.1 = names_fold names (confirmed_str kc.2) /\ one_channel kc.2) l ->
  forall acc, acc = foldl file_joined (cs, []) l ->
  filed names acc.1 /\ dom acc.1 = dom cs ∪ list_to_set l.*1 /\ ((fun ch => names_fold names (confirmed_str ch)) <$> acc.2) ⊆ l.*1.
Proof.
  intros Hcs. induction l as [|[key c] l IH] using rev_ind; intros HF acc ->; [cbn; split_and!; [done|set_solver|set_solver]|].
  apply Forall_app in HF as [HF [Hk Hc]%Forall_singleton]. destruct (IH HF _ eq_refl) as (H1 & H2 & H3). rewrite foldl_snoc. set (acc := foldl file_joined (cs, []) l) in *.
  cbn in Hk, Hc. split_and!; cbn.
  - rewrite Hk. by apply filed_insert.
  - rewrite dom_insert_L, H2, fmap_app, list_to_set_app_L. cbn. set_solver.
  - rewrite fmap_app. cbn. destruct (acc.1 !! key); [set_solver|]. rewrite fmap_app. cbn. rewrite <- Hk. set_solver.
Qed.

Lemma size_union_list (X : gset str) (l : list str) : size (X ∪ list_to_set l) <= size X + length l.
Proof.
  induction l as [|x l IH]; cbn; [by rewrite union_empty_r_L, Nat.add_0_r|]. rewrite (union_comm_L {[x]}), (union_assoc_L X), union_comm_L.
  assert (Hu : forall (Y : gset str), size ({[x]} ∪ Y) <= S (size Y)).
  { intros Y. rewrite size_union_alt, size_singleton. pose proof (subseteq_size (Y ∖ {[x]}) Y ltac:(set_solver)). lia. }
  specialize (Hu (X ∪ list_to_set l)). lia.
Qed.

Lemma joined_size (cs confirmed cs' : gmap str ConfirmedChannel) :
  dom cs' = dom cs ∪ dom confirmed ->
  size cs' <= size cs + length (List.filter (fun kc : str * ConfirmedChannel => negb (bool_decide (is_Some (cs !! kc.1)))) (map_to_list confirmed)).
Proof.
  intros Hd. set (new := List.filter _ _). rewrite <- (size_dom cs'), <- (size_dom cs), Hd, <- (length_fmap fst new).
  etransitivity; [|apply size_union_list]. apply subseteq_size. intros key. rewrite !elem_of_union. intros [H|H]; [by left|].
  destruct (cs !! key) as [c|] eqn:E; [left; by apply elem_of_dom_2 in E|right]. apply elem_of_dom in H as [c H].
  rewrite elem_of_list_to_set. apply list_elem_of_fmap. exists (key, c). split; [done|]. apply elem_of_Lfilter. split; [by apply elem_of_map_to_list|].
  cbn. by rewrite E.
Qed.

(** ** A new case mapping *)

Lemma keyed_filed names l : Forall one_channel l -> filed names (keyed names l).
Proof.
  intros Hl key c. unfold keyed, collect. intros E%elem_of_list_to_map_2. apply elem_of_reverse, list_elem_of_fmap in E as (c' & [= -> ->] & Hc).
  rewrite Forall_forall in Hl. auto.
Qed.

Lemma dom_keyed names l : dom (keyed names l) = list_to_set ((fun c => names_fold names (confirmed_str c)) <$> l).
Proof.
  unfold keyed, collect. rewrite dom_list_to_map_L. apply set_eq. intros key. rewrite !elem_of_list_to_set, list_elem_of_fmap. setoid_rewrite elem_of_reverse. split.
  - intros ([k c] & -> & (c' & [= -> ->] & H)%list_elem_of_fmap). apply list_elem_of_fmap. eauto.
  - intros (c & -> & H)%list_elem_of_fmap. exists (names_fold names (confirmed_str c), c). split; [done|]. apply list_elem_of_fmap. eauto.
Qed.

Lemma size_keyed names l : size (keyed names l) <= length l.
Proof.
  rewrite <- size_dom, dom_keyed. rewrite <- (length_fmap (fun c => names_fold names (confirmed_str c)) l). generalize ((fun c => names_fold names (confirmed_str c)) <$> l).
  intros keys. pose proof (size_union_list ∅ keys) as H. rewrite union_empty_l_L, size_empty in H. done.
Qed.

Lemma one_values (names : NetworkNames) (cs : gmap str ConfirmedChannel) (iter : gmap str ConfirmedChannel -> list (str * ConfirmedChannel)) : iterates iter -> filed names cs -> Forall one_channel (iter cs).*2.
Proof. intros Hi Hf. apply Forall_forall. intros c ([key c'] & -> & H)%list_elem_of_fmap. apply (iterates_elem iter) in H; [|done]. by apply (Hf key). Qed.

Lemma rekey_keys o s v :
  orders_ok o -> dom (channels v) ⊆ dom (sess_channels s) ->
  dom (channels (views_rekey (order_views o) (order_members o) (sess_names s) (confirmed_str <$> sess_channels s) v)) ⊆ dom (sess_channels (rekey o s)).
Proof.
  intros (Hv & Hm & Hc) Hd. cbn. unfold collect at 1. rewrite dom_list_to_map_L, dom_keyed. intros key. rewrite !elem_of_list_to_set, !list_elem_of_fmap.
  setoid_rewrite elem_of_reverse. intros ([k view] & -> & ([k' view'] & H & E)%list_elem_of_omap). cbn in E.
  apply bind_Some in E as (display & Ed & E). injection E as <- _. rewrite lookup_fmap in Ed. apply fmap_Some in Ed as (c & Ec & ->). exists c. split; [done|].
  apply list_elem_of_fmap. exists (k', c). split; [done|]. by apply iterates_elem.
Qed.

Lemma rekey_tracked names o s :
  orders_ok o -> size (sess_channels s) <= MAX_TRACKED_CHANNELS -> filed names (sess_channels s) -> isupport_ok (isupport (sess_features s)) ->
  (forall v, sess_views s = Some v -> views_within v (sess_channels s)) -> tracked (rekey o s).
Proof.
  intros Ho Hsize Hf Hi Hv. pose proof Ho as (Ho1 & Ho2 & Ho3). split.
  - cbn. etransitivity; [apply size_keyed|]. by rewrite length_fmap, (Permutation_length (Ho3 _)), length_map_to_list.
  - cbn. apply keyed_filed. by apply (one_values names).
  - done.
  - cbn. intros v (w & Ew & ->)%fmap_Some. destruct (Hv w Ew) as [Hok Hd]. split; [|by apply rekey_keys].
    destruct (rekey_safe (order_views o) (order_members o) (sess_names s) (confirmed_str <$> sess_channels s) Ho1 Ho2 w Hok) as (w' & [= <-] & H). done.
Qed.

(** ** One line *)

Record commanded (we_quit : bool) (c : SessionChange) (s : IrcSessionState) : Prop := {
  cm_size : size (sess_channels s) <= MAX_TRACKED_CHANNELS;
  cm_filed : filed (sess_names s) (sess_channels s);
  cm_isupport : isupport_ok (isupport (sess_features s));
  cm_views : forall v, sess_views s = Some v -> views_ok v /\ views_follow_change c s (if we_quit then ∅ else dom (channels v));
}.

Lemma commanded_same we_quit c s s' :
  tracked s -> change_joined c = [] -> change_left c = [] -> sess_channels s' = sess_channels s -> sess_views s' = sess_views s ->
  casemapping (sess_names s') = casemapping (sess_names s) -> isupport_ok (isupport (sess_features s')) -> commanded we_quit c s'.
Proof.
  intros [T1 T2 T3 T4] Hj Hl Hc Hv Hn Hi. split; [by rewrite Hc| |done|].
  - rewrite Hc. intros key ch E. unfold names_fold. rewrite Hn. by apply T2.
  - rewrite Hv. intros v E. destruct (T4 v E) as [Hok Hd]. split; [done|]. unfold views_follow_change. rewrite Hj, Hl, Hc. destruct we_quit; set_solver.
Qed.

Lemma commanded_departed we_quit c s acc :
  tracked s -> change_joined c = [] -> departed (sess_names s) (sess_channels s) acc -> commanded we_quit (set_left acc.2 c) (set_channels acc.1 s).
Proof.
  intros [T1 T2 T3 T4] Hj [Hs Hd]. split; [| |done|]; cbn.
  - pose proof (map_subseteq_size _ _ Hs). lia.
  - by eapply filed_subset.
  - intros v E. destruct (T4 v E) as [Hok Hv]. split; [done|]. unfold views_follow_change. cbn. rewrite Hj, Hd. destruct we_quit; set_solver.
Qed.

Lemma commanded_joined we_quit o c s confirmed acc refused :
  tracked s -> iterates (order_channels o) -> change_left c = [] -> filed (sess_names s) confirmed ->
  size (sess_channels s) + length (List.filter (fun kc : str * ConfirmedChannel => negb (bool_decide (is_Some (sess_channels s !! kc.1)))) (map_to_list confirmed)) <= MAX_TRACKED_CHANNELS ->
  acc = foldl file_joined (sess_channels s, []) (order_channels o confirmed) ->
  commanded we_quit (MkChange (change_nick c) (shown_identity c) acc.2 (change_left c) (casemapping_changed c) refused) (set_channels acc.1 s).
Proof.
  intros [T1 T2 T3 T4] Ho Hl Hf Hsize Hacc.
  destruct (file_joined_spec (sess_names s) (sess_channels s) (order_channels o confirmed) T2) with (acc := acc) as (J1 & J2 & J3); [|done|].
  { apply Forall_forall. intros [key ch] H. apply (iterates_elem (order_channels o)) in H; [|done]. by apply Hf. }
  rewrite (iterates_keys (order_channels o) confirmed Ho) in J2. split; [| |done|]; cbn.
  - etransitivity; [by apply joined_size|done].
  - done.
  - intros v E. destruct (T4 v E) as [Hok Hv]. split; [done|]. unfold views_follow_change. cbn. rewrite Hl, J2.
    assert (Hk : list_to_set ((fun ch => names_fold (sess_names s) (confirmed_str ch)) <$> acc.2) ⊆ (dom confirmed : gset str)).
    { rewrite <- (iterates_keys (order_channels o) confirmed Ho). intros x. rewrite !elem_of_list_to_set. apply J3. }
    destruct we_quit; set_solver.
Qed.

Lemma to_upper_lower s : casefold Ascii (to_ascii_uppercase <$> s) = casefold Ascii s.
Proof.
  unfold casefold. rewrite <- list_fmap_compose. apply list_fmap_ext. intros _ b _. cbn. by destruct b.
Qed.

Lemma upper_ignores_case s word : str_eqb (to_ascii_uppercase <$> s) word = true -> eq_ignore_ascii_case s word = true.
Proof. intros <-%str_eqb_eq. apply casemap_eq_iff. by rewrite to_upper_lower. Qed.

Lemma adopt_keeps_mapping names tokens names' adopted :
  adopt_tokens names tokens = (names', adopted) -> changed_casemapping adopted = false -> casemapping names' = casemapping names.
Proof. unfold adopt_tokens. intros [= <- <-]. cbn. rewrite negb_false_iff. by intros ?%bool_decide_eq_true. Qed.

(** A 005 line advertises no PREFIX with more symbols than modes. *)
Definition features_ok (m : Message) : Prop := (to_ascii_uppercase <$> msg_command m) = bs "005" -> Forall prefix_token_ok (msg_params m).
Definition line_ok (line : str) : Prop := forall m, parse line = Ok m -> features_ok m.

Lemma observe_command_ok o m own we_quit c s c' s' :
  orders_ok o -> tracked s -> features_ok m -> change_joined c = [] -> change_left c = [] -> untracked c = [] ->
  we_quit = eq_ignore_ascii_case (msg_command m) (bs "QUIT")
            && match msg_source m with Some source => names_eq (sess_names s) (src_name source) own | None => false end ->
  observe_command o m own c s = Ok (c', s') -> commanded we_quit c' s'.
Proof.
  intros Ho Ht Hp Hj Hl Hu Hq. unfold observe_command. cbn zeta. set (from_us := match msg_source m with Some _ => _ | None => false end) in *.
  pose proof (tr_isupport _ Ht) as Hi.
  destruct (str_eqb _ (bs "NICK") && from_us); [destruct (msg_params m); intros [= <- <-]; by eapply commanded_same|].
  destruct (str_eqb _ (bs "396") && _).
  { destruct (msg_params m !! 1) as [host|]; intros [= <- <-]; [destruct (is_empty host)|]; by eapply commanded_same. }
  destruct (str_eqb _ (bs "JOIN") && from_us).
  { rewrite Hu, Hj. destruct (foldl (confirm (sess_names s)) (∅, []) (params_list (msg_params m) 0)) as [confirmed refused] eqn:Ec.
    destruct (MAX_TRACKED_CHANNELS <? _) eqn:Es; [done|]. apply Nat.ltb_ge in Es.
    destruct (foldl file_joined (sess_channels s, []) (order_channels o confirmed)) as [cs joined] eqn:Ea. intros [= <- <-].
    apply (commanded_joined we_quit o c s confirmed (cs, joined) refused); [done|apply Ho|done| |done|done].
    pose proof (confirm_filed (sess_names s) (params_list (msg_params m) 0)) as Hf. by rewrite Ec in Hf. }
  destruct (str_eqb _ (bs "PART") && from_us).
  { destruct (foldl (leave (sess_names s)) (sess_channels s, []) (params_list (msg_params m) 0)) as [cs left_] eqn:Ea. intros [= <- <-].
    apply (commanded_departed we_quit c s (cs, left_)); [done|done|]. rewrite <- Ea.
    apply (fold_preserves (departed (sess_names s) (sess_channels s))); [|apply departed_none]. intros acc channel. apply leave_departed. }
  destruct (str_eqb _ (bs "KICK")).
  { destruct (kicked (sess_names s) _ (msg_params m) (sess_channels s)) as [cs left_] eqn:Ea. intros [= <- <-].
    apply (commanded_departed we_quit c s (cs, left_)); [done|done|]. rewrite <- Ea. apply kicked_departed. }
  destruct (str_eqb _ (bs "QUIT") && from_us) eqn:Eq.
  { apply andb_true_iff in Eq as [Eq Ef]. intros [= <- <-]. rewrite Ef, (upper_ignores_case _ _ Eq) in Hq. subst we_quit. split; [apply Nat.le_0_l|done|done|].
    intros v E. destruct (tr_views _ Ht v E) as [Hok _]. split; [done|]. unfold views_follow_change. rewrite Hj, Hl. set_solver. }
  destruct (str_eqb _ (bs "004") && _ && _); [intros [= <- <-]; by eapply commanded_same|].
  destruct (str_eqb _ (bs "005") && _ && _) eqn:E5; [|intros [= <- <-]; by eapply commanded_same].
  apply andb_true_iff in E5 as [[E5%str_eqb_eq _]%andb_true_iff _]. specialize (Hp E5). assert (Htok : Forall prefix_token_ok (take (length (msg_params m) - 2) (drop 1 (msg_params m)))) by by apply Forall_take, Forall_drop.
  destruct (adopt_tokens (sess_names s) _) as [names' adopted] eqn:Ea. destruct (changed_casemapping adopted) eqn:Ech; intros [= <- <-].
  - set (s1 := set_names _ _). destruct (rekey_tracked (sess_names s) o s1 Ho) as [R1 R2 R3 R4]; [apply Ht|apply Ht|by apply observe_isupport_ok|apply Ht|].
    split; [done..|]. intros v E. destruct (R4 v E) as [Hok Hd]. split; [done|]. unfold views_follow_change. cbn [change_left change_joined]. rewrite Hj, Hl. destruct we_quit; set_solver.
  - eapply commanded_same; [done..| |by apply observe_isupport_ok]. by apply (adopt_keeps_mapping _ _ _ _ Ea).
Qed.

Lemma observe_message_ok o m own s :
  orders_ok o -> tracked s -> features_ok m ->
  exists r s', observe_message o m own s = Some (r, s') /\ tracked s' /\ (r = Err LimitExceeded -> s' = s).
Proof.
  intros Ho Ht Hp. unfold observe_message. set (c := match msg_source m with Some _ => _ | None => _ end).
  assert (Hc : change_joined c = [] /\ change_left c = [] /\ untracked c = []).
  { unfold c. destruct (msg_source m) as [source|]; [|done]. destruct (src_host source); [|done]. by destruct (names_eq _ _ own). }
  destruct Hc as (Hj & Hl & Hu). destruct (observe_command o m own c s) as [[c' s']|[]] eqn:E; [|by exists (Err LimitExceeded), s].
  pose proof (observe_command_ok o m own _ c s c' s' Ho Ht Hp Hj Hl Hu eq_refl E) as [C1 C2 C3 C4].
  destruct (sess_views s') as [v|] eqn:Ev.
  - destruct (C4 v eq_refl) as [Hok Hk].
    assert (Hpre : prefix_ok (sess_features s')) by (destruct (sess_features s'); by apply prefix_tokens_ok, C3).
    destruct (observe_views_within m own _ c' s' v Hok Hpre Hk) as (v' & -> & Hv').
    eexists _, _. split; [done|]. split; [|done]. split; [done..|]. cbn. by intros ? [= <-].
  - eexists _, _. split; [done|]. split; [|done]. split; [done..|]. by rewrite Ev.
Qed.

(** ** Runs *)

Inductive SessionOp : Type :=
| SBegin (nick : str)
| SLine (o : Orders) (line : str)
| SBurst (line : str)
| SAdopt (o : Orders) (names : NetworkNames) (features : UpstreamFeatures)
| SReplace (snap : IrcSessionSnapshot).

Definition session_op (op : SessionOp) (s : IrcSessionState) : option IrcSessionState :=
  match op with
  | SBegin nick => Some (begin_session nick s)
  | SLine o line => snd <$> observe o line s
  | SBurst line => Some (in_registration_burst line s).2
  | SAdopt o names features => Some (adopt o names features s)
  | SReplace snap => Some (replace snap s)
  end.

Fixpoint session_run (ops : list SessionOp) (s : IrcSessionState) : option IrcSessionState :=
  match ops with [] => Some s | op :: ops => s ← session_op op s; session_run ops s end.

(** A line advertises no PREFIX with more symbols than modes; features and
    snapshots are taken from a session. *)
Definition session_op_ok (op : SessionOp) : Prop :=
  match op with
  | SBegin _ | SBurst _ => True
  | SLine o line => orders_ok o /\ line_ok line
  | SAdopt o _ features => orders_ok o /\ isupport_ok (isupport features)
  | SReplace snap => length (snap_channels snap) <= MAX_TRACKED_CHANNELS
  end.

Lemma clear_within (v : option ChannelViews) cs w : views_clear <$> v = Some w -> views_within w cs.
Proof. intros (u & _ & ->)%fmap_Some. split; [by split|]. cbn. set_solver. Qed.

Lemma begin_tracked nick s : tracked (begin_session nick s).
Proof.
  split; cbn; [apply Nat.le_0_l|done| |].
  - split_and!; [apply Nat.le_0_l|constructor|constructor|constructor].
  - intros v. apply clear_within.
Qed.

Lemma replace_tracked snap s : tracked s -> length (snap_channels snap) <= MAX_TRACKED_CHANNELS -> tracked (replace snap s).
Proof.
  intros Ht Hl. split; cbn; [| |apply Ht|intros v; apply clear_within].
  - etransitivity; [apply size_keyed|]. etransitivity; [|exact Hl]. clear. induction (snap_channels snap) as [|c l IH]; [done|]. cbn. destruct (ConfirmedChannel_parse c _); cbn; lia.
  - apply keyed_filed, Forall_forall. intros c (value & _ & E)%list_elem_of_omap. by apply ConfirmedChannel_parse_one in E as [_ ?].
Qed.

Lemma burst_tracked line s : tracked s -> tracked (in_registration_burst line s).2.
Proof.
  assert (Hb : forall b, tracked s -> tracked (set_burst b s)) by by intros b [].
  intros Ht. unfold in_registration_burst. destruct (in_burst s); [|done]. cbn. destruct (parse line) as [m|]; [|by apply Hb].
  destruct (negb _); cbn; [destruct (_ || _)|destruct (_ || _)]; try done; by apply Hb.
Qed.

Lemma adopt_tracked o names features s : orders_ok o -> tracked s -> isupport_ok (isupport features) -> tracked (adopt o names features s).
Proof.
  intros Ho [T1 T2 T3 T4] Hi. unfold adopt. cbn zeta. destruct (negb _) eqn:E.
  - by apply (rekey_tracked (sess_names s)).
  - apply negb_false_iff, bool_decide_eq_true in E. split; [done| |done|done]. cbn. intros key c Hc. unfold names_fold. rewrite <- E. by apply T2.
Qed.

Lemma session_op_tracked op s : session_op_ok op -> tracked s -> exists s', session_op op s = Some s' /\ tracked s'.
Proof.
  intros Hop Ht. destruct op as [nick|o line|line|o names features|snap]; cbn in *.
  - eexists. split; [done|]. apply begin_tracked.
  - destruct Hop as [Ho Hline]. unfold observe. destruct (sess_nick s) as [own|]; [|by exists s]. destruct (parse line) as [m|] eqn:E; [|by exists s].
    destruct (observe_message_ok o m own s Ho Ht (Hline m E)) as (r & s' & -> & Hs' & _). by exists s'.
  - eexists. split; [done|]. by apply burst_tracked.
  - eexists. split; [done|]. destruct Hop. by apply adopt_tracked.
  - eexists. split; [done|]. by apply replace_tracked.
Qed.

(** C34.  Let no PREFIX the upstream declares show more symbols than modes.
    Then whatever else it sends, from a session's beginning on and across
    reconnects, case mappings and mirrors of sessions so bounded, tracking does not fail and holds at
    most 512 channels, each filed under the network's own fold of its name and
    fit to be put back into a JOIN line as one channel, at most 128 tokens of
    at most 200 bytes with one of each key, and views of channels tracked only,
    within the bound on members.  A PREFIX with more symbols can make it fail. *)
Theorem session_tracked ops s :
  tracked s -> Forall session_op_ok ops -> exists s', session_run ops s = Some s' /\ tracked s'.
Proof.
  intros Ht Hops. revert s Ht. induction Hops as [|op ops Hop _ IH]; intros s Ht; cbn; [by exists s|].
  destruct (session_op_tracked op s Hop Ht) as (s' & -> & Hs'). by apply IH.
Qed.

(** A session's burst, a join and its lines, a kick and a change of mapping. *)
Definition sample_orders : Orders := MkOrders map_to_list map_to_list map_to_list.
Definition sample_session : list SessionOp :=
  [ SBegin (bs "me");
    SLine sample_orders (bs ":irc.net 005 me CHANTYPES=# PREFIX=(ov)@+ :are supported by this server");
    SLine sample_orders (bs ":me!u@h JOIN #Room,#other");
    SLine sample_orders (bs ":irc.net 353 me = #room :@alice me");
    SLine sample_orders (bs ":alice!u@h KICK #other me :out");
    SLine sample_orders (bs ":irc.net 005 me CASEMAPPING=ascii :are supported by this server") ].

Lemma following_tracked : tracked following_channels.
Proof.
  split; cbn; [apply Nat.le_0_l|done| |].
  - split_and!; [apply Nat.le_0_l|constructor|constructor|constructor].
  - intros v [= <-]. split; [by split|done].
Qed.

Lemma prefix_token_check token :
  match (rest ← strip_prefix (bs "PREFIX") token; strip_byte "=" rest) with
  | Some _ => length (prefix_symbols (Prefix_of (MkFeatures None [token] Relayed))) <=? length (prefix_modes (Prefix_of (MkFeatures None [token] Relayed)))
  | None => true
  end = true -> prefix_token_ok token.
Proof. intros H value E. rewrite E in H. by apply Nat.leb_le. Qed.

Definition line_check (line : str) : bool :=
  match parse line with
  | Ok m => forallb (fun token =>
      match (rest ← strip_prefix (bs "PREFIX") token; strip_byte "=" rest) with
      | Some _ => length (prefix_symbols (Prefix_of (MkFeatures None [token] Relayed))) <=? length (prefix_modes (Prefix_of (MkFeatures None [token] Relayed)))
      | None => true
      end) (msg_params m)
  | Err _ => true
  end.

Lemma line_check_ok line : line_check line = true -> line_ok line.
Proof.
  unfold line_check. intros H m E _. rewrite E in H. rewrite forallb_forall in H. apply Forall_forall. intros token Ht%list_elem_of_In. by apply prefix_token_check, H.
Qed.

Lemma sample_orders_ok : orders_ok sample_orders.
Proof. split; [intros m; reflexivity|]. split; intros m; reflexivity. Qed.

Lemma session_tracked_witness : exists s, session_run sample_session following_channels = Some s /\ tracked s.
Proof.
  apply session_tracked; [exact following_tracked|].
  repeat (apply Forall_cons; split); cbn [session_op_ok];
    first [exact I|apply Forall_nil_2|split; [exact sample_orders_ok|apply line_check_ok; vm_compute; reflexivity]].
Defined.
