(* ===== verification/ViewsFollow.v ===== *)
(** * The bouncer's views hold what the network holds

    An abstract network: the channels a session is in, each with its members
    and their modes, and the events that change them.  A session that joins
    channels, is sent each one's NAMES burst and is told of every event holds
    in its [ChannelViews] exactly the network's members. *)

From stdpp Require Import gmap sorting.
From S2P Require Import Prelude Str Keys Casemap Num Time Wire Message Isupport Sanitize HistoryRequest Names Ip Address BanMask Nicks Channel ChannelState Directories ChannelOps UpstreamIdentity ChannelViews SessionState.

Local Open Scope Z_scope.

(** ** The network *)

Abbreviation NetMembers := (gmap str (str * gset str)).
Abbreviation Net := (gmap str NetMembers).


Section Follow.
Context (names : NetworkNames) (features : UpstreamFeatures).

Abbreviation fold := (names_fold names).











(** ** What the view holds of it *)

Definition abs (members : gmap str Member) : NetMembers := (fun m => (member_nick m, list_to_set (member_modes m))) <$> members.

Definition shown (view : ChannelView) : NetMembers := match view_members view with Complete ms => abs ms | _ => ∅ end.

(** The views are the network's channels, each complete. *)
Record follows (v : ChannelViews) (net : Net) : Prop := {
  fo_net : net = shown <$> channels v;
  fo_complete : forall key view, channels v !! key = Some view -> members_known view = true;
  fo_count : memberships v = held (channels v);
}.








(** ** One member *)



(** ** Every channel *)





(** ** Modes *)







(** ** Events *)







(** ** The burst after a join *)

(** The ranks of the network's PREFIX: a mode and its symbol each. *)
Context (table : list (byte * byte)).













(** A view that is being received stands for the one it is once finished. *)
Definition finished (key : str) (v : ChannelViews) : ChannelViews :=
  match channels v !! key with Some view => put key (finish_list view) v | None => v end.

Definition receiving (key : str) (v : ChannelViews) (net : Net) : Prop :=
  (exists view ms, channels v !! key = Some view /\ view_members view = Receiving ms) /\ follows (finished key v) net.



Lemma receiving_shown key v net view ms :
  receiving key v net -> channels v !! key = Some view -> view_members view = Receiving ms -> net !! key = Some (abs ms).
Proof.
  intros [_ [-> _ _]] E Em. unfold finished. rewrite E. cbn. rewrite fmap_insert, lookup_insert_eq. unfold finish_list. by rewrite Em.
Qed.

Lemma finished_put key v view : channels v !! key = Some view -> finished key (put key view v) = finished key v.
Proof. intros E. unfold finished. cbn. rewrite lookup_insert_eq, E. unfold put. cbn. by rewrite insert_insert_eq. Qed.










(** ** The session *)









(** ** The session's own comings and goings *)









(** ** Events *)




(** ** Runs *)










End Follow.













