(* ===== verification/Rejoin.v ===== *)
(** * What a driver rejoins after a drop ([e6ircd/src/bouncer/irc_driver.rs])

    The reconnect intent: the channels the upstream confirmed, each with the
    key it is joined with, kept across sessions within a bound; the JOIN lines
    that restore it, which a server reads back as exactly the channels and keys
    they were written for; and the names attached clients asked for. *)

From stdpp Require Import gmap.
From S2P Require Import Prelude Str Keys Casemap Num Time Wire Message Parse Isupport Sanitize HistoryRequest Names Ip Address BanMask Nicks Channel ChannelState Directories ChannelOps UpstreamIdentity ChannelViews SessionState.

Local Open Scope nat_scope.

(** ** Data *)

Record Intended : Type := MkIntended { intended_channel : ConfirmedChannel; intended_key : option ChannelKey }.

Record Intent : Type := MkIntent {
  intent_channels : gmap str Intended;
  intent_names : NetworkNames;
  offered_keys : gmap str ChannelKey;
}.


(** ** The intent *)

(** [iter] is the order the map's values come in. *)
Definition intent_adopt (iter : gmap str Intended -> list (str * Intended)) (names : NetworkNames) (i : Intent) : Intent :=
  if bool_decide (casemapping (intent_names i) = casemapping names) then MkIntent (intent_channels i) names (offered_keys i)
  else MkIntent (collect ((fun x => (names_fold names (confirmed_str (intended_channel x)), x)) <$> (iter (intent_channels i)).*2)) names ∅.

(** One channel a line confirmed: [None] past the bound. *)
Definition intend (channel : ConfirmedChannel) (i : Intent) : option Intent :=
  let folded := names_fold (intent_names i) (confirmed_str channel) in
  if (if intent_channels i !! folded is Some _ then false else true) && (MAX_TRACKED_CHANNELS <=? size (intent_channels i)) then None
  else
    let key := match offered_keys i !! folded with
               | Some key => Some key
               | None => intended ← intent_channels i !! folded; intended_key intended
               end in
    Some (MkIntent (<[folded := MkIntended channel key]> (intent_channels i)) (intent_names i) (delete folded (offered_keys i))).

Fixpoint intend_all (joined : list ConfirmedChannel) (i : Intent) : result ChannelLimitExceeded unit * Intent :=
  match joined with
  | [] => (Ok tt, i)
  | channel :: joined => match intend channel i with Some i => intend_all joined i | None => (Err LimitExceeded, i) end
  end.

Definition drop_intended (i : Intent) (channel : str) : Intent :=
  MkIntent (delete (names_fold (intent_names i) channel) (intent_channels i)) (intent_names i) (offered_keys i).

(** [apply]: an error leaves what was folded in before it. *)
Definition apply_change (iter : gmap str Intended -> list (str * Intended)) (change : SessionChange) (names : NetworkNames) (i : Intent)
    : result ChannelLimitExceeded unit * Intent :=
  intend_all (change_joined change) (foldl drop_intended (intent_adopt iter names i) (change_left change)).



Definition set_key (channel : str) (key : option ChannelKey) (i : Intent) : Intent :=
  MkIntent (alter (fun x => MkIntended (intended_channel x) key) (names_fold (intent_names i) channel) (intent_channels i)) (intent_names i) (offered_keys i).

Definition forget (channel : str) (i : Intent) : bool * Intent :=
  ((if intent_channels i !! names_fold (intent_names i) channel is Some _ then true else false), drop_intended i channel).


(** ** JOIN lines *)

Definition JOIN_LINE_BUDGET : nat := 510.

(** [render]. *)
Definition render_join (names keys : list str) : str :=
  if is_empty keys then bs "JOIN " ++ Str.join ","%byte names else bs "JOIN " ++ Str.join ","%byte names ++ bs " " ++ Str.join ","%byte keys.

Definition with_key (keys : list str) (key : option ChannelKey) : list str :=
  match key with Some key => keys ++ [key_str key] | None => keys end.

(** The loop of [join_lines], [names] and [keys] being the line begun. *)
Fixpoint fill_joins (names keys : list str) (channels : list (str * option ChannelKey)) : list str :=
  match channels with
  | [] => if is_empty names then [] else [render_join names keys]
  | (channel, key) :: channels =>
      if negb (is_empty names) && (JOIN_LINE_BUDGET <? length (render_join (names ++ [channel]) (with_key keys key))) then
        render_join names keys :: fill_joins [channel] (with_key [] key) channels
      else fill_joins (names ++ [channel]) (with_key keys key) channels
  end.

Definition is_keyed (ck : str * option ChannelKey) : bool := if ck.2 is Some _ then true else false.
Definition ordered (channels : list (str * option ChannelKey)) : list (str * option ChannelKey) :=
  List.filter is_keyed channels ++ List.filter (fun ck => negb (is_keyed ck)) channels.

Definition join_lines (channels : list (str * option ChannelKey)) : list str := fill_joins [] [] (ordered channels).

(** ** Following lines *)

Definition refused_join (message : OwnedMessage) : option str :=
  if existsb (str_eqb (own_command message)) [bs "403"; bs "471"; bs "473"; bs "474"; bs "475"] then numeric_subject message else None.

Definition key_change (message : OwnedMessage) (features : UpstreamFeatures) : option (str * option ChannelKey) :=
  if negb (eq_ignore_ascii_case (own_command message) (bs "MODE")) then None
  else match own_params message with
       | channel :: modes :: arguments =>
           if negb (contains_byte "k" modes) then None
           else
             change ← last ((fun c => if c.1.1 : bool then argument ← c.2; ChannelKey_parse argument else None)
                              <$> List.filter (fun c => str_eqb c.1.2 (bs "k")) (channel_mode_changes features modes arguments));
             Some (channel, change)
       | _ => None
       end.

Definition server_notice (server target text : str) : str :=
  fitted_line (bs ":" ++ server ++ bs " NOTICE " ++ target ++ bs " :") text.
Definition bnc_notice (target text : str) : str := server_notice (bs "*bnc*") (MiddleParam_echo target) text.

(** [follow_membership]: [live] is the session's channels, where there is a
    session; the notice emitted, and the intent after. *)
Definition follow_membership (live : option (list str)) (features : UpstreamFeatures) (message : OwnedMessage) (names : NetworkNames) (i : Intent)
    : list str * Intent :=
  let '(notices, i) :=
    match refused_join message, live with
    | Some channel, Some live =>
        if negb (existsb (fun member => names_eq names member channel) live) then
          let '(was, i) := forget channel i in
          (if was : bool then [bnc_notice (bs "*") (channel ++ bs " will not be rejoined after a reconnect: the upstream refused to join it (" ++ own_command message ++ bs ")")] else [], i)
        else ([], i)
    | _, _ => ([], i)
    end in
  (notices, match key_change message features with Some (channel, key) => set_key channel key i | None => i end).

(** ** Names asked for *)

Definition MAX_REQUESTED_NICKS : nat := 8.

Definition requested_observe (line : str) (requested : list str) : list str :=
  match parse line with
  | Err _ => requested
  | Ok message =>
      if negb (eq_ignore_ascii_case (msg_command message) (bs "NICK")) then requested
      else match msg_params message with
           | nick :: _ =>
               if is_empty nick then requested
               else (if length requested =? MAX_REQUESTED_NICKS then tail requested else requested) ++ [nick]
           | [] => requested
           end
  end.

(** The rest of the requests, where one is confirmed. *)
Fixpoint drain_through (names : NetworkNames) (nick : str) (requested : list str) : option (list str) :=
  match requested with
  | [] => None
  | r :: requested => if names_eq names r nick then Some requested else drain_through names nick requested
  end.
Definition requested_confirms (nick : str) (names : NetworkNames) (requested : list str) : bool * list str :=
  match drain_through names nick requested with Some rest => (true, rest) | None => (false, requested) end.

Record SelfIdentity : Type := MkSelf { self_nick : str; self_user : str; self_host : str }.

(** What a rename nobody asked for is announced as. *)
Definition renamed_detail (old new : str) : str := bs "upstream renamed this session from " ++ old ++ bs " to " ++ new.

Record Tracker : Type := MkTracker { tk_intent : Intent; tk_identity : SelfIdentity; tk_requested : list str }.

(** [track]: the errors recorded, the result and the driver's state after. *)
Definition track (iter : gmap str Intended -> list (str * Intended)) (names : NetworkNames) (emitted : result ChannelLimitExceeded SessionChange) (t : Tracker)
    : list str * result ChannelLimitExceeded unit * Tracker :=
  match emitted with
  | Err e => ([], Err e, t)
  | Ok change =>
      let ident := match shown_identity change with
                      | Some shown => MkSelf (self_nick (tk_identity t)) (default (self_user (tk_identity t)) (shown_user shown)) (shown_host shown)
                      | None => tk_identity t
                      end in
      let '(errors, ident, requested) :=
        match change_nick change with
        | Some nick =>
            let '(asked, requested) := requested_confirms nick names (tk_requested t) in
            (if asked : bool then [] else [renamed_detail (self_nick ident) nick], MkSelf nick (self_user ident) (self_host ident), requested)
        | None => ([], ident, tk_requested t)
        end in
      let '(r, i) := apply_change iter change names (tk_intent t) in
      (errors, r, MkTracker i ident requested)
  end.

(** ** Reading JOIN lines back *)

(** How a server reads one: a key is its channel's by position. *)
Definition read_join (line : str) : option (list (str * option str)) :=
  match parse line with
  | Ok m =>
      if str_eqb (msg_command m) (bs "JOIN") then
        match msg_params m with
        | [channels] => Some ((fun c => (c, None)) <$> split "," channels)
        | [channels; keys] => Some (imap (fun i c => (c, split "," keys !! i)) (split "," channels))
        | _ => None
        end
      else None
  | Err _ => None
  end.

Definition read_joins (lines : list str) : option (list (list (str * option str))) := mapM read_join lines.

Definition plain (ck : str * option ChannelKey) : str * option str := (ck.1, key_str <$> ck.2).
Definition plain_group (g : list (str * option ChannelKey)) : list (str * option str) := plain <$> g.










(** *** The groups the lines are *)





(** *** One line *)









Lemma concat_plain groups : concat (plain_group <$> groups) = plain <$> concat groups.
Proof. induction groups as [|g groups IH]; [done|]. cbn. by rewrite IH, fmap_app. Qed.


(** ** The intent's invariant *)

















(** ** What is rejoined *)









(** A network whose CHANTYPES holds a colon can confirm a channel whose name
    begins with one; the JOIN line written for it names another. *)
Example colon_channel_rejoined_as_another :
  ConfirmedChannel_parse (bs ":ab") (MkNames Rfc1459 (bs "#:") [] None) = Some (MkConfirmed (bs ":ab"))
  /\ read_joins (join_lines [(bs ":ab", None)]) = Some [[(bs "ab", None)]].
Proof. split; reflexivity. Qed.
