(* ===== verification/Replies.v ===== *)
(** * Which attached client an upstream line answers ([e6ircd/src/bouncer/replies.rs])

    Every attached client shares one upstream connection.  A reply belongs to
    the attachment whose command asked for it: told by its label where the
    upstream labels its answers, and by the order of the answers where it does
    not.  What waits is bounded and forgotten after a minute. *)

From stdpp Require Import gmap sorting.
From S2P Require Import Prelude Str Keys Casemap Num Time Wire Message Parse Isupport Sanitize HistoryRequest Names.

Local Open Scope Z_scope.

(** ** Data *)

(** An [Instant], in nanoseconds. *)
Definition PENDING_REPLY_WINDOW : Z := 60 * 1000000000.
Definition MAX_PENDING : nat := 128.
Definition BARRIER_TOKEN : str := bs "e6bnc-route-".

Inductive Correlation : Type := Labels | Order.

Inductive Upstream : Type :=
| UpSession (line : str) (origin : option Z)
| UpReply (line : str) (origin : Z)
| UpConsumed.

Record Query : Type := MkQuery {
  q_verb : str;
  q_replies : list Z;
  q_ends : list Z;
  q_continuing_errors : list Z;
  q_local_params : option nat;
}.

Definition QUERIES : list Query :=
  [ MkQuery (bs "WHO") [352; 354] [315] [] None;
    MkQuery (bs "WHOIS") [276; 301; 307; 310; 311; 312; 313; 317; 319; 320; 330; 335; 338; 378; 379; 671] [318] [401; 402] (Some 1%nat);
    MkQuery (bs "WHOWAS") [312; 314; 330; 338] [369] [406] None;
    MkQuery (bs "LIST") [321; 322] [323] [] None;
    MkQuery (bs "NAMES") [353] [366] [403] None;
    MkQuery (bs "TOPIC") [332] [331; 333] [] None;
    MkQuery (bs "MODE") [324; 346; 348; 367; 728] [221; 329; 347; 349; 368; 729] [] None;
    MkQuery (bs "USERHOST") [] [302] [] None;
    MkQuery (bs "ISON") [] [303] [] None;
    MkQuery (bs "INVITE") [336] [337; 341] [] None;
    MkQuery (bs "AWAY") [] [305; 306] [] None;
    MkQuery (bs "LUSERS") [251; 252; 253; 254; 255; 265] [266] [] (Some 1%nat);
    MkQuery (bs "MOTD") [372; 375] [376; 422] [] (Some 0%nat);
    MkQuery (bs "TIME") [] [391] [] (Some 0%nat);
    MkQuery (bs "ADMIN") [256; 257; 258] [259] [] (Some 0%nat);
    MkQuery (bs "INFO") [371; 373] [374] [] (Some 0%nat);
    MkQuery (bs "LINKS") [364] [365] [] (Some 1%nat);
    MkQuery (bs "STATS") [211; 212; 213; 214; 215; 216; 217; 218; 240; 241; 242; 243; 244; 245; 246; 247; 248; 249; 250] [219] [] (Some 1%nat) ].

Definition RPL_AWAY : Z := 301.
Definition JOIN_BURST : list Z := [324; 328; 329; 332; 333; 353; 366].

Definition mem (code : Z) (codes : list Z) : bool := existsb (Z.eqb code) codes.

Definition query_of (verb : str) (params : list str) : option Query :=
  query ← List.find (fun q => str_eqb (q_verb q) verb) QUERIES;
  if str_eqb verb (bs "MODE") then
    match params with
    | [_] => Some query
    | [_; modes] =>
        let modes := trim_start_matches "+" modes in
        if (length modes =? 1)%nat && match modes with [b] => contains_byte b (bs "beIq") | _ => false end then Some query else None
    | _ => None
    end
  else if str_eqb verb (bs "TOPIC") then if (length params =? 1)%nat then Some query else None
  else if str_eqb verb (bs "INVITE") then if (length params =? 2)%nat || is_empty params then Some query else None
  else Some query.

Record Pending : Type := MkPending {
  p_id : Z;
  p_origin : Z;
  p_verb : str;
  p_targets : list str;
  p_query : option Query;
  p_remote : bool;
  p_since : Z;
}.

Record Labelled : Type := MkLabelled { lb_origin : Z; lb_since : Z }.

Record ReplyRouter : Type := MkRouter {
  pending : list Pending;
  labels : gmap str Labelled;
  batches : gmap str (option str);
  joining : gset str;
  next_id : Z;
  barrier_sent : option Z;
}.
Definition ReplyRouter_default : ReplyRouter := MkRouter [] ∅ ∅ ∅ 0 None.

Definition set_pending (l : list Pending) (r : ReplyRouter) : ReplyRouter := MkRouter l (labels r) (batches r) (joining r) (next_id r) (barrier_sent r).
Definition set_labels (l : gmap str Labelled) (r : ReplyRouter) : ReplyRouter := MkRouter (pending r) l (batches r) (joining r) (next_id r) (barrier_sent r).
Definition set_batches (b : gmap str (option str)) (r : ReplyRouter) : ReplyRouter := MkRouter (pending r) (labels r) b (joining r) (next_id r) (barrier_sent r).
Definition set_joining (j : gset str) (r : ReplyRouter) : ReplyRouter := MkRouter (pending r) (labels r) (batches r) j (next_id r) (barrier_sent r).
Definition set_barrier (b : option Z) (r : ReplyRouter) : ReplyRouter := MkRouter (pending r) (labels r) (batches r) (joining r) (next_id r) b.

(** ** Lines *)

Definition is_error (code : Z) : bool := (400 <=? code) && (code <? 600) || (code =? 263).

Definition is_standard_reply (m : OwnedMessage) : bool := existsb (str_eqb (own_command m)) [bs "FAIL"; bs "WARN"; bs "NOTE"].

Definition command_targets (verb : str) (params : list str) (names : NetworkNames) : list str :=
  let text_last := existsb (str_eqb verb) [bs "PRIVMSG"; bs "NOTICE"; bs "PART"; bs "KICK"; bs "TOPIC"; bs "QUIT"; bs "AWAY"; bs "KNOCK"] in
  let named := if text_last && (1 <? length params)%nat then take (length params - 1) params else params in
  (fun name => names_fold names (conversation names name)) <$> List.filter (fun name => negb (is_empty name)) (flat_map (split ",") named).

Definition with_label (line : str) (m : Message) (label : str) : option str :=
  let body := match strip_byte "@" line with
              | Some rest => match split_once " " rest with Some (_, body) => body | None => [] end
              | None => line
              end in
  let tags := ((fun t => match tag_value t with Some value => tag_key t ++ bs "=" ++ escape_tag_value value | None => tag_key t end)
                 <$> List.filter (fun t => negb (str_eqb (tag_key t) (bs "label"))) (msg_tags m)) ++ [bs "label=" ++ label] in
  let labelled := bs "@" ++ join ";" tags ++ bs " " ++ body in
  if client_frame_fits labelled then Some labelled else None.

Definition framing_tag (tag : str) : bool :=
  match split "=" tag with key :: _ => str_eqb key (bs "label") || str_eqb key (bs "batch") | [] => false end.

Definition without_framing_tags (raw : str) : str :=
  match strip_byte "@" raw with
  | None => raw
  | Some rest =>
      match split_once " " rest with
      | None => raw
      | Some (tags, body) =>
          let kept := List.filter (fun tag => negb (framing_tag tag)) (split ";" tags) in
          if (length kept =? length (split ";" tags))%nat then raw
          else if is_empty kept then body
          else bs "@" ++ join ";" kept ++ bs " " ++ body
      end
  end.

(** ** The router *)

Definition fresh_at (now since : Z) : bool := Z.max 0 (now - since) <? PENDING_REPLY_WINDOW.

Definition expire (now : Z) (r : ReplyRouter) : ReplyRouter :=
  set_labels (filter (fun kl => fresh_at now (lb_since kl.2) = true) (labels r))
    (set_pending (List.filter (fun p => fresh_at now (p_since p)) (pending r)) r).

(** [min_by_key] over a map iterated as [iter] says: the first of the least. *)
Fixpoint oldest_of (best : str * Labelled) (l : list (str * Labelled)) : str * Labelled :=
  match l with
  | [] => best
  | kl :: l => oldest_of (if lb_since kl.2 <? lb_since best.2 then kl else best) l
  end.
Definition oldest (l : list (str * Labelled)) : option str :=
  match l with [] => None | kl :: l => Some (oldest_of kl l).1 end.

Definition forward (iter : gmap str Labelled -> list (str * Labelled)) (origin : Z) (line : str) (correlation : Correlation) (names : NetworkNames) (now : Z)
    (r : ReplyRouter) : str * ReplyRouter :=
  let r := expire now r in
  match parse line with
  | Err _ => (line, r)
  | Ok m =>
      if origin =? 0 then (line, r)
      else
        let id := next_id r + 1 in
        let r := MkRouter (pending r) (labels r) (batches r) (joining r) id (barrier_sent r) in
        match correlation with
        | Labels =>
            let label := bs "e6b" ++ dec id in
            match with_label line m label with
            | None => (line, r)
            | Some labelled =>
                let ls := if (MAX_PENDING <=? size (labels r))%nat then
                            match oldest (iter (labels r)) with Some label => delete label (labels r) | None => labels r end
                          else labels r in
                (labelled, set_labels (<[label := MkLabelled origin now]> ls) r)
            end
        | Order =>
            let verb := to_ascii_uppercase <$> msg_command m in
            let params := msg_params m in
            let query := query_of verb params in
            let remote := match query with
                          | Some q => match q_local_params q with Some local => (local <? length params)%nat | None => false end
                          | None => false
                          end in
            let ps := if (MAX_PENDING <=? length (pending r))%nat then tail (pending r) else pending r in
            (line, set_pending (ps ++ [MkPending id origin verb (command_targets verb params names) query remote now]) r)
        end
  end.

(** The greatest of a list. *)
Fixpoint max_of (l : list Z) : option Z :=
  match l with [] => None | x :: l => Some (match max_of l with Some y => Z.max x y | None => x end) end.

Definition is_query (p : Pending) : bool := if p_query p is Some _ then true else false.

Definition barrier_due (r : ReplyRouter) : option str * ReplyRouter :=
  match barrier_sent r with
  | Some _ => (None, r)
  | None =>
      match max_of (p_id <$> List.filter (fun p => negb (is_query p)) (pending r)) with
      | None => (None, r)
      | Some newest => (Some (bs "PING :" ++ BARRIER_TOKEN ++ dec newest), set_barrier (Some newest) r)
      end
  end.

Definition frame_batch (m : OwnedMessage) (r : ReplyRouter) : ReplyRouter :=
  match own_params m with
  | [] => r
  | reference :: _ =>
      match strip_byte "+" reference with
      | Some id =>
          let label := match own_tag m (bs "label") with
                       | Some label => Some label
                       | None => outer ← own_tag m (bs "batch"); default None (batches r !! outer)
                       end in
          if (size (batches r) <? MAX_PENDING)%nat then set_batches (<[id := label]> (batches r)) r else r
      | None =>
          match strip_byte "-" reference with
          | Some id =>
              let rest := delete id (batches r) in
              match batches r !! id with
              | Some (Some label) =>
                  let r := set_batches rest r in
                  if existsb (fun kv => bool_decide (kv.2 = Some label)) (map_to_list rest) then r else set_labels (delete label (labels r)) r
              | _ => set_batches rest r
              end
          | None => r
          end
      end
  end.

Definition source_nick (source : str) : str := match split_once "!" source with Some (nick, _) => nick | None => source end.

Definition track_join_burst (m : OwnedMessage) (names : NetworkNames) (own_nick : str) (r : ReplyRouter) : ReplyRouter :=
  let ours := match own_source m with Some source => names_eq names (source_nick source) own_nick | None => false end in
  if ours && eq_ignore_ascii_case (own_command m) (bs "JOIN") then
    match own_params m with
    | channels :: _ =>
        set_joining (foldl (fun j channel => if (size j <? MAX_PENDING)%nat then {[ names_fold names channel ]} ∪ j else j) (joining r)
                       (List.filter (fun channel => negb (is_empty channel)) (split "," channels))) r
    | [] => r
    end
  else r.

Definition in_join_burst (code : Z) (m : OwnedMessage) (names : NetworkNames) (r : ReplyRouter) : bool * ReplyRouter :=
  if negb (mem code JOIN_BURST) then (false, r)
  else match numeric_subject m with
       | None => (false, r)
       | Some channel =>
           let key := names_fold names channel in
           if negb (bool_decide (key ∈ joining r)) then (false, r)
           else (true, if code =? 366 then set_joining (joining r ∖ {[ key ]}) r else r)
       end.

(** [position]. *)
Fixpoint position (f : Pending -> bool) (l : list Pending) : option nat :=
  match l with [] => None | p :: l => if f p then Some O else S <$> position f l end.

Definition answers (code : Z) (p : Pending) : bool :=
  match p_query p with Some q => mem code (q_replies q) || mem code (q_ends q) || mem code (q_continuing_errors q) | None => false end.

Definition about (names : NetworkNames) (m : OwnedMessage) (p : Pending) : bool :=
  match numeric_subject m with Some subject => existsb (str_eqb (names_fold names subject)) (p_targets p) | None => false end.

(** The pending command a numeric is taken to answer. *)
Definition answered_by (code : Z) (m : OwnedMessage) (names : NetworkNames) (ps : list Pending) : option nat :=
  match position (fun p => answers code p && about names m p) ps with
  | Some i => Some i
  | None =>
      match (if code =? RPL_AWAY then position (about names m) ps else None) with
      | Some i => Some i
      | None =>
          match position (answers code) ps with
          | Some i => Some i
          | None =>
              if negb (is_error code) then None
              else if mem code [263; 421; 461] then
                verb ← own_params m !! 1%nat; position (fun p => str_eqb (p_verb p) (to_ascii_uppercase <$> verb)) ps
              else position (about names m) ps
          end
      end
  end.

Definition ended (code : Z) (p : Pending) : bool :=
  match p_query p with Some q => mem code (q_ends q) || (is_error code && negb (mem code (q_continuing_errors q))) | None => false end.

Definition answer_to_numeric (code : Z) (m : OwnedMessage) (names : NetworkNames) (r : ReplyRouter) : option Z * ReplyRouter :=
  match (i ← answered_by code m names (pending r); p ← pending r !! i; Some (i, p)) with
  | None => (None, r)
  | Some (i, p) =>
      let ps := if ended code p then list_delete i (pending r) else pending r in
      (Some (p_origin p), set_pending (List.filter (fun x => (p_id p <=? p_id x) || p_remote x || negb (is_query x)) ps) r)
  end.

Definition answer_to_standard_reply (m : OwnedMessage) (r : ReplyRouter) : option Z * ReplyRouter :=
  match (verb ← own_params m !! 0%nat; i ← position (fun p => str_eqb (p_verb p) (to_ascii_uppercase <$> verb)) (pending r); p ← pending r !! i; Some (i, p)) with
  | None => (None, r)
  | Some (i, p) =>
      (Some (p_origin p), if str_eqb (own_command m) (bs "FAIL") && is_query p then set_pending (list_delete i (pending r)) r else r)
  end.

(** The id a PONG of the router's own PING names. *)
Definition barrier_answer (m : OwnedMessage) : option Z :=
  if str_eqb (own_command m) (bs "PONG") then
    token ← last (own_params m); id ← strip_prefix BARRIER_TOKEN token; parse_uint (2 ^ 64 - 1) id
  else None.

(** The label a line answers, and whether it carries it itself. *)
Definition line_label (m : OwnedMessage) (r : ReplyRouter) : option str * bool :=
  match own_tag m (bs "label") with
  | Some label => (Some label, true)
  | None => (batch ← own_tag m (bs "batch"); default None (batches r !! batch), false)
  end.

Definition numeric_of (m : OwnedMessage) : option Z := if (length (own_command m) =? 3)%nat then parse_uint 65535 (own_command m) else None.

Definition classify (m : OwnedMessage) (raw : str) (names : NetworkNames) (own_nick : str) (now : Z) (r : ReplyRouter) : Upstream * ReplyRouter :=
  let r := expire now r in
  if str_eqb (own_command m) (bs "BATCH") then (UpConsumed, frame_batch m r)
  else match barrier_answer m with
  | Some covered =>
      let r := set_pending (List.filter (fun p => is_query p || (covered <? p_id p)) (pending r)) r in
      (UpConsumed, if bool_decide (barrier_sent r = Some covered) then set_barrier None r else r)
  | None =>
      let '(label, direct) := line_label m r in
      let line := without_framing_tags raw in
      if str_eqb (own_command m) (bs "ACK") then
        (UpConsumed, match label with Some label => set_labels (delete label (labels r)) r | None => r end)
      else
        let r := track_join_burst m names own_nick r in
        let numeric := numeric_of m in
        let '(join_state, r) := match numeric with Some code => in_join_burst code m names r | None => (false, r) end in
        match label with
        | Some label =>
            let origin := lb_origin <$> labels r !! label in
            let r := if direct : bool then set_labels (delete label (labels r)) r else r in
            match origin with
            | Some origin =>
                if (bool_decide (is_Some numeric) && negb join_state) || is_standard_reply m then (UpReply line origin, r)
                else (UpSession line (Some origin), r)
            | None => (UpSession line None, r)
            end
        | None =>
            if join_state : bool then (UpSession line None, r)
            else
              let '(origin, r) := match numeric with
                                  | Some code => answer_to_numeric code m names r
                                  | None => if is_standard_reply m then answer_to_standard_reply m r else (None, r)
                                  end in
              (match origin with Some origin => UpReply line origin | None => UpSession line None end, r)
        end
  end.

(** ** Bounds *)

(** What every operation keeps: each of the router's collections is bounded,
    and what waits in order is in the order it was forwarded. *)
Record router_ok (r : ReplyRouter) : Prop := {
  ro_pending : (length (pending r) <= MAX_PENDING)%nat;
  ro_labels : (size (labels r) <= MAX_PENDING)%nat;
  ro_batches : (size (batches r) <= MAX_PENDING)%nat;
  ro_joining : (size (joining r) <= MAX_PENDING)%nat;
  ro_sorted : StronglySorted (fun a b => p_id a < p_id b) (pending r);
  ro_ids : Forall (fun p => p_id p <= next_id r) (pending r);
}.

Lemma sorted_filter (f : Pending -> bool) l : StronglySorted (fun a b => p_id a < p_id b) l -> StronglySorted (fun a b => p_id a < p_id b) (List.filter f l).
Proof.
  induction 1 as [|p l _ IH HF]; cbn; [constructor|]. destruct (f p); [|done]. constructor; [done|]. rewrite Forall_forall in HF |- *.
  intros x [Hx _]%elem_of_Lfilter. auto.
Qed.

Lemma sorted_app {A} (R : A -> A -> Prop) l k : StronglySorted R (l ++ k) <-> StronglySorted R l /\ StronglySorted R k /\ forall x y, x ∈ l -> y ∈ k -> R x y.
Proof.
  induction l as [|a l IH]; cbn.
  - split; [intros H; split_and!; [constructor|done|set_solver]|by intros (_ & H & _)].
  - split.
    + intros [H1%IH H2]%StronglySorted_inv. destruct H1 as (H3 & H4 & H5). apply Forall_app in H2 as [H6 H7]. split_and!; [by constructor|done|].
      intros x y [->|Hx]%elem_of_cons Hy; [rewrite Forall_forall in H7; auto|auto].
    + intros ([H1 H2]%StronglySorted_inv & H3 & H4). constructor; [apply IH; split_and!; [done|done|intros; apply H4; [by right|done]]|].
      apply Forall_app. split; [done|]. apply Forall_forall. intros y Hy. apply H4; [by left|done].
Qed.

Lemma sorted_delete {A} (R : A -> A -> Prop) i l : StronglySorted R l -> StronglySorted R (delete i l).
Proof.
  intros H. destruct (l !! i) as [x|] eqn:E; [|apply lookup_ge_None_1 in E; rewrite delete_take_drop, take_ge, drop_ge, app_nil_r by lia; done].
  rewrite delete_take_drop. rewrite <- (take_drop_middle l i x E) in H. apply sorted_app in H as (H1 & [H2 _]%StronglySorted_inv & H3). apply sorted_app. split_and!; [done|done|].
  intros a b Ha Hb. apply H3; [done|by right].
Qed.

(** An operation that keeps fewer of what waits. *)
Lemma set_pending_ok l r : router_ok r -> (length l <= length (pending r))%nat -> StronglySorted (fun a b => p_id a < p_id b) l -> l ⊆ pending r -> router_ok (set_pending l r).
Proof.
  intros [R1 R2 R3 R4 R5 R6] Hlen Hs Hsub. split; cbn; [lia|done..|]. rewrite Forall_forall in R6 |- *. auto.
Qed.

Lemma filter_pending_ok f r : router_ok r -> router_ok (set_pending (List.filter f (pending r)) r).
Proof.
  intros Hr. apply set_pending_ok; [done|apply List.filter_length_le|apply sorted_filter, Hr|]. intros x [Hx _]%elem_of_Lfilter. done.
Qed.

Lemma fewer_labels_ok l r : router_ok r -> l ⊆ labels r -> router_ok (set_labels l r).
Proof. intros [R1 R2 R3 R4 R5 R6] Hl. split; cbn; try done. pose proof (map_subseteq_size _ _ Hl). lia. Qed.

Lemma expire_ok now r : router_ok r -> router_ok (expire now r).
Proof. intros Hr. unfold expire. apply fewer_labels_ok; [by apply filter_pending_ok|]. cbn. apply map_filter_subseteq. Qed.

Lemma size_label_insert (label : str) (x : Labelled) (m : gmap str Labelled) : (size (<[label := x]> m) <= S (size m))%nat.
Proof. rewrite map_size_insert. destruct (m !! label); cbn; lia. Qed.


Lemma oldest_in l label : oldest l = Some label -> exists x, (label, x) ∈ l.
Proof.
  assert (Hgo : forall l best, exists x, ((oldest_of best l).1, x) ∈ best :: l).
  { clear. induction l as [|kl l IH]; intros best; cbn; [destruct best as [k x]; exists x; cbn; left|].
    destruct (IH (if lb_since kl.2 <? lb_since best.2 then kl else best)) as [x Hx]. exists x. destruct (lb_since kl.2 <? lb_since best.2); set_solver. }
  destruct l as [|kl l]; cbn; [done|]. intros [= <-]. apply Hgo.
Qed.

Lemma oldest_some l : l <> [] -> is_Some (oldest l).
Proof. destruct l; [done|]. cbn. eauto. Qed.

(** Making room for one more label. *)
Definition room_for_label (iter : gmap str Labelled -> list (str * Labelled)) (ls : gmap str Labelled) : gmap str Labelled :=
  if (MAX_PENDING <=? size ls)%nat then match oldest (iter ls) with Some label => delete label ls | None => ls end else ls.

Lemma room_for_label_spec iter ls : iterates iter -> (size ls <= MAX_PENDING)%nat -> room_for_label iter ls ⊆ ls /\ (size (room_for_label iter ls) < MAX_PENDING)%nat.
Proof.
  intros Hi Hs. unfold room_for_label. destruct (Nat.leb_spec MAX_PENDING (size ls)) as [H|H]; [|done].
  destruct (oldest (iter ls)) as [label|] eqn:E.
  - apply oldest_in in E as [x Hx]. apply (iterates_elem iter) in Hx; [|done]. split; [apply delete_subseteq|].
    pose proof (map_size_ne_0_lookup_2 ls label ltac:(eauto)). rewrite (map_size_delete_Some label) by eauto. lia.
  - exfalso. assert (Hne : iter ls <> []).
    { intros En. pose proof (Permutation_length (Hi ls)) as Hl. rewrite En, length_map_to_list in Hl. cbn in Hl. unfold MAX_PENDING in H. lia. }
    destruct (oldest_some _ Hne) as [y Hy]. congruence.
Qed.

Lemma forward_ok iter origin line correlation names now r : iterates iter -> router_ok r -> router_ok (forward iter origin line correlation names now r).2.
Proof.
  intros Hi Hr%(expire_ok now). unfold forward. generalize dependent (expire now r). intros r0 Hr.
  destruct (parse line) as [m|]; [|done]. destruct (origin =? 0); [done|].
  assert (Hid : router_ok (MkRouter (pending r0) (labels r0) (batches r0) (joining r0) (next_id r0 + 1) (barrier_sent r0))).
  { destruct Hr as [R1 R2 R3 R4 R5 R6]. split; cbn; try done. eapply Forall_impl; [exact R6|]. intros p Hp. cbn in Hp. lia. }
  destruct correlation; cbn zeta.
  - destruct (with_label line m _) as [labelled|]; [|done]. cbn [snd]. fold (room_for_label iter (labels (MkRouter (pending r0) (labels r0) (batches r0) (joining r0) (next_id r0 + 1) (barrier_sent r0)))).
    destruct Hid as [R1 R2 R3 R4 R5 R6]. cbn in R2. destruct (room_for_label_spec iter (labels r0) Hi R2) as [_ Hsz]. split; cbn; try done.
    etransitivity; [apply size_label_insert|exact Hsz].
  - cbn [snd]. destruct Hr as [R1 R2 R3 R4 R5 R6]. set (ps := if (MAX_PENDING <=? length (pending _))%nat then _ else _).
    assert (Hps : (S (length ps) <= MAX_PENDING)%nat /\ ps ⊆ pending r0 /\ StronglySorted (fun a b => p_id a < p_id b) ps).
    { unfold ps. cbn [pending]. destruct (Nat.leb_spec MAX_PENDING (length (pending r0))) as [H|H]; [|split_and!; [lia|done|done]]. destruct (pending r0) as [|p l]; cbn in *; [unfold MAX_PENDING in H; lia|].
      split_and!; [lia|set_solver|by apply StronglySorted_inv in R5 as [? _]]. }
    destruct Hps as (Hlen & Hsub & Hss). rewrite Forall_forall in R6. split; cbn; try done.
    + rewrite length_app. cbn. lia.
    + apply sorted_app. split_and!; [done|by repeat constructor|]. intros x y Hx ->%list_elem_of_singleton. cbn. specialize (R6 x (Hsub x Hx)). lia.
    + apply Forall_app. split; [|apply Forall_singleton; cbn; lia]. apply Forall_forall. intros x Hx. specialize (R6 x (Hsub x Hx)). lia.
Qed.

Lemma frame_batch_ok m r : router_ok r -> router_ok (frame_batch m r).
Proof.
  intros Hr. pose proof Hr as [R1 R2 R3 R4 R5 R6]. unfold frame_batch. destruct (own_params m) as [|reference rest]; [done|].
  destruct (strip_byte "+" reference) as [id|].
  - destruct (Nat.ltb_spec (size (batches r)) MAX_PENDING) as [H|H]; [|done]. split; cbn; try done. rewrite map_size_insert. destruct (batches r !! id); [exact R3|exact H].
  - destruct (strip_byte "-" reference) as [id|]; [|done].
    assert (Hb : router_ok (set_batches (delete id (batches r)) r)).
    { split; cbn; try done. pose proof (map_subseteq_size _ _ (delete_subseteq (batches r) id)). lia. }
    destruct (batches r !! id) as [[label|]|]; [|done|done]. destruct (existsb _ _); [done|]. apply fewer_labels_ok; [done|]. cbn. apply delete_subseteq.
Qed.

Lemma track_join_burst_ok m names own r : router_ok r -> router_ok (track_join_burst m names own r).
Proof.
  intros [R1 R2 R3 R4 R5 R6]. unfold track_join_burst. destruct (_ && _); [|done]. destruct (own_params m) as [|channels rest]; [done|]. split; cbn [pending labels batches joining next_id set_joining]; try done.
  generalize (List.filter (fun channel => negb (is_empty channel)) (split "," channels)). intros l. revert R4. generalize (joining r).
  induction l as [|c l IH]; intros j Hj; cbn [foldl]; [done|]. apply IH. destruct (Nat.ltb_spec (size j) MAX_PENDING) as [H|H]; [|done].
  rewrite size_union_alt, size_singleton. pose proof (subseteq_size (j ∖ {[names_fold names c]}) j ltac:(set_solver)). lia.
Qed.

Lemma in_join_burst_ok code m names r : router_ok r -> router_ok (in_join_burst code m names r).2.
Proof.
  intros Hr. unfold in_join_burst. destruct (negb (mem code JOIN_BURST)); [done|]. destruct (numeric_subject m) as [channel|]; [|done]. destruct (negb _); [done|]. cbn.
  destruct (code =? 366); [|done]. destruct Hr as [R1 R2 R3 R4 R5 R6]. split; cbn; try done.
  pose proof (subseteq_size (joining r ∖ {[names_fold names channel]}) (joining r) ltac:(set_solver)). lia.
Qed.

Lemma length_delete_le {A} i (l : list A) : (length (delete i l) <= length l)%nat.
Proof. rewrite delete_take_drop, length_app, length_take, length_drop. lia. Qed.

Lemma filter_sub {A} (f : A -> bool) l : List.filter f l ⊆ l.
Proof. intros x [Hx _]%elem_of_Lfilter. done. Qed.

Lemma delete_sub {A} i (l : list A) : delete i l ⊆ l.
Proof.
  intros x Hx. rewrite delete_take_drop in Hx. rewrite <- (take_drop i l). apply elem_of_app. apply elem_of_app in Hx as [Hx|Hx]; [by left|right].
  rewrite <- (take_drop 1 (drop i l)), drop_drop. apply elem_of_app. right. by rewrite Nat.add_1_r.
Qed.

Lemma delete_pending_ok i r : router_ok r -> router_ok (set_pending (delete i (pending r)) r).
Proof.
  intros Hr. apply set_pending_ok; [done|apply length_delete_le|apply sorted_delete, Hr|apply delete_sub].
Qed.

Lemma answer_to_numeric_ok code m names r : router_ok r -> router_ok (answer_to_numeric code m names r).2.
Proof.
  intros Hr. unfold answer_to_numeric. destruct (i ← answered_by code m names (pending r); p ← pending r !! i; Some (i, p)) as [[i p]|]; [|done]. cbn.
  destruct (ended code p).
  - apply (filter_pending_ok _ (set_pending (delete i (pending r)) r)). by apply delete_pending_ok.
  - by apply filter_pending_ok.
Qed.

Lemma answer_to_standard_reply_ok m r : router_ok r -> router_ok (answer_to_standard_reply m r).2.
Proof.
  intros Hr. unfold answer_to_standard_reply. destruct (verb ← own_params m !! 0%nat; _) as [[i p]|]; [|done]. cbn. destruct (_ && _); [|done]. by apply delete_pending_ok.
Qed.

Lemma classify_ok m raw names own now r : router_ok r -> router_ok (classify m raw names own now r).2.
Proof.
  intros Hr%(expire_ok now). unfold classify. generalize dependent (expire now r). intros r0 Hr.
  destruct (str_eqb (own_command m) (bs "BATCH")); [by apply frame_batch_ok|]. destruct (barrier_answer m) as [covered|].
  { cbn [snd]. pose proof (filter_pending_ok (fun p => is_query p || (covered <? p_id p)) r0 Hr) as Hf. destruct (bool_decide _); [|done]. by destruct Hf. }
  destruct (line_label m r0) as [label direct]. destruct (str_eqb (own_command m) (bs "ACK")).
  { cbn [snd]. destruct label; [|done]. apply fewer_labels_ok; [done|apply delete_subseteq]. }
  pose proof (track_join_burst_ok m names own r0 Hr) as Hj. generalize dependent (track_join_burst m names own r0). intros r1 H1.
  destruct (match numeric_of m with Some code => in_join_burst code m names r1 | None => (false, r1) end) as [join_state r2] eqn:Ej.
  assert (H2 : router_ok r2).
  { destruct (numeric_of m) as [code|]; [|by injection Ej as <- <-]. pose proof (in_join_burst_ok code m names r1 H1) as H. by rewrite Ej in H. }
  destruct label as [label|].
  - assert (H3 : router_ok (if direct : bool then set_labels (delete label (labels r2)) r2 else r2)).
    { destruct direct; [|done]. apply fewer_labels_ok; [done|apply delete_subseteq]. }
    destruct (lb_origin <$> labels r2 !! label); [|done]. by destruct (_ || _).
  - destruct join_state; [done|]. destruct (numeric_of m) as [code|].
    + pose proof (answer_to_numeric_ok code m names r2 H2) as H. by destruct (answer_to_numeric code m names r2).
    + destruct (is_standard_reply m); [|done]. pose proof (answer_to_standard_reply_ok m r2 H2) as H. by destruct (answer_to_standard_reply m r2).
Qed.

(** ** Who asked *)

(** A command forwarded for an attachment: when, under which label, as which line. *)
Record Asked : Type := MkAsked { as_origin : Z; as_time : Z; as_label : option str; as_line : str }.

Inductive RouterOp : Type :=
| RForward (iter : gmap str Labelled -> list (str * Labelled)) (origin : Z) (line : str) (correlation : Correlation) (names : NetworkNames) (now : Z)
| RBarrier
| RClassify (m : OwnedMessage) (raw : str) (names : NetworkNames) (own : str) (now : Z).

Definition router_op (op : RouterOp) (r : ReplyRouter) : ReplyRouter :=
  match op with
  | RForward iter origin line correlation names now => (forward iter origin line correlation names now r).2
  | RBarrier => (barrier_due r).2
  | RClassify m raw names own now => (classify m raw names own now r).2
  end.

(** What [op] asks of the upstream, given the router it is applied to. *)
Definition asks (op : RouterOp) (r : ReplyRouter) : list Asked :=
  match op with
  | RForward iter origin line correlation names now =>
      let '(sent, r') := forward iter origin line correlation names now r in
      if (origin =? 0) || negb (is_ok (parse line)) then []
      else match correlation with
           | Order => [MkAsked origin now None sent]
           | Labels =>
               let label := bs "e6b" ++ dec (next_id r') in
               if bool_decide (is_Some (labels r' !! label)) then [MkAsked origin now (Some label) sent] else []
           end
  | _ => []
  end.

Fixpoint router_run (ops : list RouterOp) (r : ReplyRouter) (asked : list Asked) : ReplyRouter * list Asked :=
  match ops with [] => (r, asked) | op :: ops => router_run ops (router_op op r) (asked ++ asks op r) end.

Definition router_op_ok (op : RouterOp) : Prop := match op with RForward iter _ _ _ _ _ => iterates iter | _ => True end.

(** Fewer wait after than before. *)
Definition fewer (r' r : ReplyRouter) : Prop := pending r' ⊆ pending r /\ labels r' ⊆ labels r /\ next_id r' = next_id r.

Lemma fewer_refl r : fewer r r.
Proof. by split. Qed.

Lemma fewer_trans r3 r2 r1 : fewer r3 r2 -> fewer r2 r1 -> fewer r3 r1.
Proof. intros (A1 & A2 & A3) (B1 & B2 & B3). split_and!; [set_solver|by etransitivity|congruence]. Qed.

Lemma fewer_pending l r : l ⊆ pending r -> fewer (set_pending l r) r.
Proof. by split. Qed.

Lemma fewer_set_labels l r : l ⊆ labels r -> fewer (set_labels l r) r.
Proof. by split. Qed.

Lemma expire_fewer now r : fewer (expire now r) r.
Proof. split_and!; [apply filter_sub|apply map_filter_subseteq|done]. Qed.

Lemma frame_batch_fewer m r : fewer (frame_batch m r) r.
Proof.
  unfold frame_batch. destruct (own_params m) as [|reference rest]; [done|]. destruct (strip_byte "+" reference) as [id|]; [by destruct (_ <? _)%nat|].
  destruct (strip_byte "-" reference) as [id|]; [|done]. destruct (batches r !! id) as [[label|]|]; [|done|done]. destruct (existsb _ _); [done|].
  split_and!; [done|apply delete_subseteq|done].
Qed.

Lemma track_join_burst_fewer m names own r : fewer (track_join_burst m names own r) r.
Proof. unfold track_join_burst. destruct (_ && _); [|done]. by destruct (own_params m). Qed.

Lemma in_join_burst_fewer code m names r : fewer (in_join_burst code m names r).2 r.
Proof.
  unfold in_join_burst. destruct (negb (mem code JOIN_BURST)); [done|]. destruct (numeric_subject m); [|done]. destruct (negb _); [done|]. cbn. by destruct (code =? 366).
Qed.

(** A numeric's or a standard reply's answer is to a command that waits. *)
Lemma answer_to_numeric_from code m names r :
  fewer (answer_to_numeric code m names r).2 r /\ forall o, (answer_to_numeric code m names r).1 = Some o -> exists p, p ∈ pending r /\ p_origin p = o.
Proof.
  unfold answer_to_numeric. destruct (i ← answered_by code m names (pending r); p ← pending r !! i; Some (i, p)) as [[i p]|] eqn:E; [|split; [done|by intros o]].
  apply bind_Some in E as (j & _ & E). apply bind_Some in E as (p' & Hp & [= -> ->]). cbn. split.
  - apply fewer_pending. etransitivity; [apply filter_sub|]. destruct (ended code p); [apply delete_sub|done].
  - intros o [= <-]. exists p. split; [by eapply list_elem_of_lookup_2|done].
Qed.

Lemma answer_to_standard_reply_from m r :
  fewer (answer_to_standard_reply m r).2 r /\ forall o, (answer_to_standard_reply m r).1 = Some o -> exists p, p ∈ pending r /\ p_origin p = o.
Proof.
  unfold answer_to_standard_reply. destruct (verb ← own_params m !! 0%nat; _) as [[i p]|] eqn:E; [|split; [done|by intros o]].
  apply bind_Some in E as (verb & _ & E). apply bind_Some in E as (j & _ & E). apply bind_Some in E as (p' & Hp & [= -> ->]). cbn. split.
  - destruct (_ && _); [|done]. apply fewer_pending, delete_sub.
  - intros o [= <-]. exists p. split; [by eapply list_elem_of_lookup_2|done].
Qed.

(** The attachment an upstream line is given to. *)
Definition given_to (u : Upstream) : option Z := match u with UpSession _ origin => origin | UpReply _ origin => Some origin | UpConsumed => None end.

Lemma classify_from m raw names own now r :
  let r0 := expire now r in
  fewer (classify m raw names own now r).2 r0
  /\ forall o, given_to (classify m raw names own now r).1 = Some o ->
       match (line_label m r0).1 with
       | Some label => exists x, labels r0 !! label = Some x /\ lb_origin x = o
       | None => exists p, p ∈ pending r0 /\ p_origin p = o
       end.
Proof.
  unfold classify. cbn zeta. generalize (expire now r). clear r. intros r0.
  destruct (str_eqb (own_command m) (bs "BATCH")); [split; [apply frame_batch_fewer|done]|]. destruct (barrier_answer m) as [covered|].
  { cbn. split; [|done]. assert (Hf : fewer (set_pending (List.filter (fun p => is_query p || (covered <? p_id p)) (pending r0)) r0) r0) by apply fewer_pending, filter_sub. by destruct (bool_decide _). }
  destruct (line_label m r0) as [label direct]. cbn [fst]. destruct (str_eqb (own_command m) (bs "ACK")).
  { cbn. split; [|done]. destruct label; [|done]. apply fewer_set_labels, delete_subseteq. }
  pose proof (track_join_burst_fewer m names own r0) as H1. generalize dependent (track_join_burst m names own r0). intros r1 H1.
  destruct (match numeric_of m with Some code => in_join_burst code m names r1 | None => (false, r1) end) as [join_state r2] eqn:Ej.
  assert (H2 : fewer r2 r0).
  { apply (fewer_trans _ r1); [|done]. destruct (numeric_of m) as [code|]; [|by injection Ej as <- <-]. pose proof (in_join_burst_fewer code m names r1) as H. by rewrite Ej in H. }
  assert (Hpend : forall o, (exists p, p ∈ pending r2 /\ p_origin p = o) -> exists p, p ∈ pending r0 /\ p_origin p = o).
  { intros o (p & Hp & E). exists p. split; [by apply H2|done]. }
  destruct label as [label|].
  - assert (H3 : fewer (if direct : bool then set_labels (delete label (labels r2)) r2 else r2) r0).
    { destruct direct; [|done]. apply (fewer_trans _ r2); [|done]. apply fewer_set_labels, delete_subseteq. }
    destruct (labels r2 !! label) as [x|] eqn:Ex; cbn [fmap option_fmap option_map]; [|by split].
    assert (Hx' : exists y, labels r0 !! label = Some y /\ lb_origin y = lb_origin x) by (exists x; split; [by eapply lookup_weaken; [exact Ex|apply H2]|done]).
    destruct (_ || _); (split; [done|]); cbn; intros o [= <-]; done.
  - destruct join_state; [by split|]. destruct (numeric_of m) as [code|].
    + destruct (answer_to_numeric_from code m names r2) as [Hf Ho]. destruct (answer_to_numeric code m names r2) as [[o|] r3]; cbn in *; (split; [by apply (fewer_trans _ r2)|]); [|done].
      intros o' [= <-]. by apply Hpend, Ho.
    + destruct (is_standard_reply m); [|by split]. destruct (answer_to_standard_reply_from m r2) as [Hf Ho].
      destruct (answer_to_standard_reply m r2) as [[o|] r3]; cbn in *; (split; [by apply (fewer_trans _ r2)|]); [|done]. intros o' [= <-]. by apply Hpend, Ho.
Qed.

(** The commands that wait are commands asked, and no label is used twice. *)
Record known (asked : list Asked) (r : ReplyRouter) : Prop := {
  kn_pending : forall p, p ∈ pending r -> exists a, a ∈ asked /\ as_origin a = p_origin p /\ as_time a = p_since p /\ as_label a = None;
  kn_labels : forall label x, labels r !! label = Some x -> exists a, a ∈ asked /\ as_origin a = lb_origin x /\ as_time a = lb_since x /\ as_label a = Some label;
  kn_ids : 0 <= next_id r /\ forall a label, a ∈ asked -> as_label a = Some label -> exists id, 0 <= id <= next_id r /\ label = bs "e6b" ++ dec id;
  kn_once : NoDup (omap as_label asked);
  kn_origins : Forall (fun a => as_origin a <> 0) asked;
}.

Lemma known_fewer asked r r' : known asked r -> fewer r' r -> known asked r'.
Proof.
  intros [K1 K2 K3 K4 K5] (F1 & F2 & F3). split; [intros p Hp; by apply K1, F1|intros label x Hx; apply K2; by eapply lookup_weaken|by rewrite F3|done|done].
Qed.

Lemma label_inj a b : 0 <= a -> 0 <= b -> bs "e6b" ++ dec a = bs "e6b" ++ dec b -> a = b.
Proof. intros Ha Hb E. apply app_inv_head in E. apply (f_equal dec_value) in E. by rewrite !dec_value_dec in E. Qed.

Lemma known_label_fresh asked r id : known asked r -> next_id r < id -> labels r !! (bs "e6b" ++ dec id) = None /\ (bs "e6b" ++ dec id ∉ omap as_label asked).
Proof.
  intros [K1 K2 [K3 K3'] K4 K5] Hid.
  assert (Hnot : forall a, a ∈ asked -> as_label a <> Some (bs "e6b" ++ dec id)).
  { intros a Ha E. destruct (K3' a _ Ha E) as (id' & Hid' & El). apply label_inj in El; lia. }
  split.
  - destruct (labels r !! (bs "e6b" ++ dec id)) as [x|] eqn:Ex; [|done]. destruct (K2 _ _ Ex) as (a & Ha & _ & _ & El). by apply Hnot in El.
  - intros (a & Ha & El)%list_elem_of_omap. by apply (Hnot a).
Qed.

Lemma known_more asked r a r' :
  known asked r -> next_id r <= next_id r' -> as_origin a <> 0 ->
  (forall label, as_label a = Some label -> label = bs "e6b" ++ dec (next_id r') /\ next_id r < next_id r') ->
  (forall p, p ∈ pending r' -> p ∈ pending r \/ (as_origin a = p_origin p /\ as_time a = p_since p /\ as_label a = None)) ->
  (forall label x, labels r' !! label = Some x -> labels r !! label = Some x \/ (as_origin a = lb_origin x /\ as_time a = lb_since x /\ as_label a = Some label)) ->
  known (asked ++ [a]) r'.
Proof.
  intros Hk Hn Ho Hl Hp Hx. pose proof Hk as [K1 K2 [K3 K3'] K4 K5]. split.
  - intros p H. destruct (Hp p H) as [H'|H']; [destruct (K1 p H') as (b & Hb & E); exists b; split; [apply elem_of_app; by left|done]|].
    exists a. split; [apply elem_of_app; right; by left|done].
  - intros label x H. destruct (Hx label x H) as [H'|H']; [destruct (K2 label x H') as (b & Hb & E); exists b; split; [apply elem_of_app; by left|done]|].
    exists a. split; [apply elem_of_app; right; by left|done].
  - split; [lia|]. intros b label [Hb| ->%list_elem_of_singleton]%elem_of_app E.
    + destruct (K3' b label Hb E) as (id & Hid & ->). exists id. split; [lia|done].
    + destruct (Hl label E) as [-> Hlt]. exists (next_id r'). split; [lia|done].
  - rewrite omap_app. cbn. destruct (as_label a) as [label|] eqn:E; [|by rewrite app_nil_r]. destruct (Hl label eq_refl) as [-> Hlt].
    apply NoDup_app. split_and!; [done| |apply NoDup_singleton]. intros x H ->%list_elem_of_singleton. by apply (known_label_fresh asked r (next_id r') Hk Hlt).
  - apply Forall_app. split; [done|by apply Forall_singleton].
Qed.

Lemma forward_known asked iter origin line correlation names now r :
  iterates iter -> router_ok r -> known asked r ->
  known (asked ++ asks (RForward iter origin line correlation names now) r) (forward iter origin line correlation names now r).2.
Proof.
  intros Hi Hr Hk. apply (known_fewer _ _ (expire now r)) in Hk; [|apply expire_fewer]. apply (expire_ok now) in Hr. cbn [asks]. unfold forward.
  generalize dependent (expire now r). clear r. intros r Hr Hk. destruct (parse line) as [m|]; [|cbn; rewrite orb_true_r, app_nil_r; done].
  destruct (Z.eqb_spec origin 0) as [->|Ho]; [cbn; by rewrite app_nil_r|].
  assert (Hn : 0 <= next_id r) by apply Hk.
  destruct correlation; cbn zeta.
  - destruct (with_label line m _) as [labelled|]; cbn [is_ok negb orb next_id labels fst snd set_labels].
    + rewrite lookup_insert_eq, bool_decide_eq_true_2 by eauto. apply (known_more _ r); cbn; [done|lia|done| |by left|].
      * intros label [= <-]. split; [done|lia].
      * intros label x. rewrite lookup_insert_Some. intros [[<- <-]|[_ H]]; [by right|left]. revert H.
        fold (room_for_label iter (labels r)). intros H. eapply lookup_weaken; [exact H|]. apply (room_for_label_spec iter (labels r) Hi), Hr.
    + destruct (known_label_fresh asked r (next_id r + 1) Hk ltac:(lia)) as [-> _]. rewrite bool_decide_eq_false_2 by by intros []. rewrite app_nil_r.
      destruct Hk as [K1 K2 [K3 K3'] K4 K5]. split; cbn; try done. split; [lia|]. intros a label Ha El. destruct (K3' a label Ha El) as (id & Hid & ->). exists id. split; [lia|done].
  - cbn [is_ok negb orb snd]. apply (known_more _ r); cbn [pending set_pending labels next_id as_origin as_time as_label]; [done|lia|done|done| |by left].
    intros p [H| ->%list_elem_of_singleton]%elem_of_app; [left|by right]. destruct (MAX_PENDING <=? length (pending r))%nat; [|done].
    destruct (pending r); [done|by right].
Qed.

Lemma barrier_ok r : router_ok r -> router_ok (barrier_due r).2.
Proof. intros Hr. unfold barrier_due. destruct (barrier_sent r); [done|]. destruct (max_of _); [|done]. by destruct Hr. Qed.

Lemma barrier_fewer r : fewer (barrier_due r).2 r.
Proof. unfold barrier_due. destruct (barrier_sent r); [done|]. by destruct (max_of _). Qed.

Lemma router_op_keeps op r asked : router_op_ok op -> router_ok r -> known asked r -> router_ok (router_op op r) /\ known (asked ++ asks op r) (router_op op r).
Proof.
  intros Hop Hr Hk. destruct op as [iter origin line correlation names now| |m raw names own now]; cbn [router_op].
  - split; [by apply forward_ok|by apply forward_known].
  - split; [by apply barrier_ok|]. cbn [asks]. rewrite app_nil_r. eapply known_fewer; [exact Hk|apply barrier_fewer].
  - split; [by apply classify_ok|]. cbn [asks]. rewrite app_nil_r. eapply known_fewer; [exact Hk|]. eapply fewer_trans; [apply classify_from|apply expire_fewer].
Qed.

Lemma router_run_keeps ops : forall r asked, Forall router_op_ok ops -> router_ok r -> known asked r ->
  router_ok (router_run ops r asked).1 /\ known (router_run ops r asked).2 (router_run ops r asked).1.
Proof.
  induction ops as [|op ops IH]; intros r asked HF Hr Hk; [done|]. apply Forall_cons in HF as [Hop HF]. cbn. destruct (router_op_keeps op r asked Hop Hr Hk). by apply IH.
Qed.

Lemma router_default_ok : router_ok ReplyRouter_default /\ known [] ReplyRouter_default.
Proof. split; split; cbn; try done; try apply Nat.le_0_l; try constructor; try set_solver. Qed.

(** C12.  Whatever clients forward and the upstream says: no more than 128
    commands, labels, batches and joins are held, no two commands were sent
    under one label, and a line given to an attachment answers a command that
    attachment had forwarded within the last minute: the very command whose
    label it carries where it is labelled, and one forwarded without a label
    where it is not. *)
Theorem reply_reaches_its_asker ops m raw names own now :
  Forall router_op_ok ops ->
  let r := (router_run ops ReplyRouter_default []).1 in
  let asked := (router_run ops ReplyRouter_default []).2 in
  (length (pending r) <= MAX_PENDING /\ size (labels r) <= MAX_PENDING /\ size (batches r) <= MAX_PENDING /\ size (joining r) <= MAX_PENDING)%nat
  /\ NoDup (omap as_label asked)
  /\ forall o, given_to (classify m raw names own now r).1 = Some o ->
       exists a, a ∈ asked /\ as_origin a = o /\ o <> 0 /\ fresh_at now (as_time a) = true /\ as_label a = (line_label m (expire now r)).1.
Proof.
  intros HF r asked. destruct router_default_ok as [H0 H0']. destruct (router_run_keeps ops _ _ HF H0 H0') as [Hr Hk]. fold r in Hr. fold r asked in Hk.
  split; [by destruct Hr|]. split; [apply Hk|]. intros o Ho. destruct (classify_from m raw names own now r) as [_ Hfrom]. specialize (Hfrom o Ho).
  pose proof (known_fewer _ _ _ Hk (expire_fewer now r)) as [K1 K2 _ _ K5]. rewrite Forall_forall in K5.
  destruct (line_label m (expire now r)).1 as [label|].
  - destruct Hfrom as (x & Hx & <-). destruct (K2 label x Hx) as (a & Ha & E1 & E2 & E3). exists a. split_and!; [done|done|rewrite <- E1; by apply K5| |done].
    rewrite E2. cbn in Hx. by apply map_lookup_filter_Some in Hx as [_ Hf].
  - destruct Hfrom as (p & Hp & <-). destruct (K1 p Hp) as (a & Ha & E1 & E2 & E3). exists a. split_and!; [done|done|rewrite <- E1; by apply K5| |done].
    rewrite E2. cbn in Hp. by apply elem_of_Lfilter in Hp as [_ Hf].
Qed.

(** ** An upstream that answers in order *)

(** A query outstanding upstream. *)
Record Out : Type := MkOut { out_origin : Z; out_query : Query; out_targets : list str; out_since : Z }.

(** A client's query forwarded, or a numeric of the oldest query's answer. *)
Inductive ServeStep : Type :=
| SvAsk (iter : gmap str Labelled -> list (str * Labelled)) (origin : Z) (line : str) (m : Message) (q : Query) (now : Z)
| SvAnswer (code : Z) (m : OwnedMessage) (raw : str) (now : Z).

Section InOrder.
Context (names : NetworkNames) (own : str).

Definition out_answers (code : Z) (o : Out) : bool := mem code (q_replies (out_query o)) || mem code (q_ends (out_query o)) || mem code (q_continuing_errors (out_query o)).
Definition out_ended (code : Z) (o : Out) : bool := mem code (q_ends (out_query o)) || (is_error code && negb (mem code (q_continuing_errors (out_query o)))).
Definition out_about (m : OwnedMessage) (o : Out) : bool :=
  match numeric_subject m with Some subject => existsb (str_eqb (names_fold names subject)) (out_targets o) | None => false end.

Definition verb_of (m : Message) : str := to_ascii_uppercase <$> msg_command m.

(** The upstream: it queues what it is asked and answers the oldest. *)
Definition serve (st : ServeStep) (outs : list Out) : list Out :=
  match st with
  | SvAsk _ origin _ m q now => outs ++ [MkOut origin q (command_targets (verb_of m) (msg_params m) names) now]
  | SvAnswer code _ _ _ => match outs with o :: rest => if out_ended code o then rest else outs | [] => [] end
  end.

Definition all_fresh (now : Z) (outs : list Out) : Prop := Forall (fun o => fresh_at now (out_since o) = true) outs.

(** The query is one the upstream answers itself; an answer names the oldest
    query's subject, or no other query that awaits it. *)
Definition legal_serve (st : ServeStep) (outs : list Out) : Prop :=
  match st with
  | SvAsk iter origin line m q now =>
      origin <> 0 /\ parse line = Ok m /\ query_of (verb_of m) (msg_params m) = Some q
      /\ match q_local_params q with Some local => (length (msg_params m) <= local)%nat | None => True end
      /\ all_fresh now outs /\ (length outs < MAX_PENDING)%nat
  | SvAnswer code m raw now =>
      exists o rest, outs = o :: rest /\ out_answers code o = true /\ all_fresh now outs /\ numeric_of m = Some code
        /\ own_tag m (bs "label") = None /\ own_tag m (bs "batch") = None
        /\ (out_about m o = true \/ forall o', o' ∈ rest -> out_about m o' = false)
  end.

(** What the router makes of a step, and what the upstream meant by it. *)
Definition routed (st : ServeStep) (r : ReplyRouter) : option Upstream * ReplyRouter :=
  match st with
  | SvAsk iter origin line _ _ now => (None, (forward iter origin line Order names now r).2)
  | SvAnswer _ m raw now => let '(u, r) := classify m raw names own now r in (Some u, r)
  end.
Definition meant (st : ServeStep) (outs : list Out) : option Upstream :=
  match st with
  | SvAsk _ _ _ _ _ _ => None
  | SvAnswer _ _ raw _ => match outs with o :: _ => Some (UpReply (without_framing_tags raw) (out_origin o)) | [] => None end
  end.

Fixpoint legal_serves (steps : list ServeStep) (outs : list Out) : Prop :=
  match steps with [] => True | st :: steps => legal_serve st outs /\ legal_serves steps (serve st outs) end.
Fixpoint routed_all (steps : list ServeStep) (r : ReplyRouter) : list (option Upstream) :=
  match steps with [] => [] | st :: steps => let '(u, r) := routed st r in u :: routed_all steps r end.
Fixpoint meant_all (steps : list ServeStep) (outs : list Out) : list (option Upstream) :=
  match steps with [] => [] | st :: steps => meant st outs :: meant_all steps (serve st outs) end.

(** The router's queue is the upstream's. *)
Definition waits (p : Pending) (o : Out) : Prop :=
  p_origin p = out_origin o /\ p_query p = Some (out_query o) /\ p_targets p = out_targets o /\ p_since p = out_since o /\ p_remote p = false.

Record mirrors (r : ReplyRouter) (outs : list Out) : Prop := {
  mi_ok : router_ok r;
  mi_waits : Forall2 waits (pending r) outs;
  mi_joining : joining r = ∅;
}.

Lemma fresh_stays now r outs : mirrors r outs -> all_fresh now outs -> pending (expire now r) = pending r.
Proof.
  intros [_ Hw _] Hf. cbn. apply forallb_filter_id, forallb_forall. intros p Hp%list_elem_of_In. apply list_elem_of_lookup_1 in Hp as [i Hp].
  destruct (Forall2_lookup_l _ _ _ _ _ Hw Hp) as (o & Ho & (_ & _ & _ & -> & _)). unfold all_fresh in Hf. rewrite Forall_forall in Hf. apply Hf. by eapply list_elem_of_lookup_2.
Qed.

Lemma ask_mirrors iter origin line m q now r outs :
  mirrors r outs -> legal_serve (SvAsk iter origin line m q now) outs -> mirrors (forward iter origin line Order names now r).2 (serve (SvAsk iter origin line m q now) outs).
Proof.
  intros Hm (Ho & Hp & Hq & Hl & Hf & Hroom). pose proof (fresh_stays now r outs Hm Hf) as Hst. destruct Hm as [Hok Hw Hj].
  assert (Hlen : length (pending r) = length outs) by by eapply Forall2_length.
  assert (Hok' : router_ok (forward iter origin line Order names now r).2).
  { pose proof (expire_ok now r Hok) as Hx. unfold forward in *. rewrite Hp. destruct (Z.eqb_spec origin 0); [done|]. cbn zeta. cbn [snd pending].
    rewrite Hst, (proj2 (Nat.leb_gt _ _)) by lia. destruct Hx as [R1 R2 R3 R4 R5 R6]. rewrite Hst in *. rewrite Forall_forall in R6. split; cbn [pending labels batches joining next_id set_pending]; try done.
    - rewrite length_app. cbn. lia.
    - apply sorted_app. split_and!; [done|by repeat constructor|]. intros x y Hx ->%list_elem_of_singleton. cbn [p_id]. specialize (R6 x Hx). lia.
    - apply Forall_app. split; [|apply Forall_singleton; cbn [p_id]; lia]. apply Forall_forall. intros x Hx. specialize (R6 x Hx). lia. }
  split; [exact Hok'| |].
  - unfold forward. rewrite Hp. destruct (Z.eqb_spec origin 0); [done|]. cbn zeta. cbn [snd pending set_pending]. rewrite Hst, (proj2 (Nat.leb_gt _ _)) by lia. cbn [serve].
    apply Forall2_app; [done|]. constructor; [|constructor]. unfold verb_of in *. rewrite Hq. split_and!; [done..|]. cbn [p_remote]. destruct (q_local_params q); [by apply Nat.ltb_ge|done].
  - unfold forward. rewrite Hp. destruct (Z.eqb_spec origin 0); done.
Qed.

Lemma numeric_command m code : numeric_of m = Some code ->
  str_eqb (own_command m) (bs "BATCH") = false /\ str_eqb (own_command m) (bs "PONG") = false /\ str_eqb (own_command m) (bs "ACK") = false
  /\ eq_ignore_ascii_case (own_command m) (bs "JOIN") = false.
Proof.
  unfold numeric_of. destruct (Nat.eqb_spec (length (own_command m)) 3) as [Hl|]; [|done]. intros Hp. split_and!; apply not_true_iff_false; intros E.
  - apply str_eqb_eq in E. rewrite E in Hl. done.
  - apply str_eqb_eq in E. rewrite E in Hl. done.
  - apply str_eqb_eq in E. rewrite E in Hp. done.
  - apply casemap_eq_iff in E. apply (f_equal length) in E. unfold casefold in E. rewrite !length_fmap, Hl in E. done.
Qed.

Lemma waits_answers code p o : waits p o -> answers code p = out_answers code o.
Proof. intros (_ & E & _). unfold answers, out_answers. by rewrite E. Qed.
Lemma waits_ended code p o : waits p o -> ended code p = out_ended code o.
Proof. intros (_ & E & _). unfold ended, out_ended. by rewrite E. Qed.
Lemma waits_about m p o : waits p o -> about names m p = out_about m o.
Proof. intros (_ & _ & E & _). unfold about, out_about. by rewrite E. Qed.

Lemma position_none f l : (forall p, p ∈ l -> f p = false) -> position f l = None.
Proof. induction l as [|p l IH]; intros Hf; cbn; [done|]. rewrite (Hf p) by left. rewrite IH; [done|]. intros x Hx. apply Hf. by right. Qed.

Lemma answered_oldest code m p o ps outs :
  waits p o -> Forall2 waits ps outs -> out_answers code o = true -> (out_about m o = true \/ forall o', o' ∈ outs -> out_about m o' = false) ->
  answered_by code m names (p :: ps) = Some 0%nat.
Proof.
  intros Hw HF Ha Hab. unfold answered_by. cbn [position]. rewrite (waits_answers _ _ _ Hw), Ha, (waits_about _ _ _ Hw). cbn [andb].
  destruct (out_about m o) eqn:Eo; [done|]. destruct Hab as [|Hab]; [done|].
  assert (Hno : forall x, x ∈ ps -> about names m x = false).
  { intros x Hx. apply list_elem_of_lookup_1 in Hx as [i Hx]. destruct (Forall2_lookup_l _ _ _ _ _ HF Hx) as (o' & Ho' & Hw'). rewrite (waits_about _ _ _ Hw'). apply Hab. by eapply list_elem_of_lookup_2. }
  rewrite position_none; [|intros x Hx; rewrite Hno by done; apply andb_false_r]. cbn [fmap option_fmap option_map].
  rewrite position_none by done. by destruct (code =? RPL_AWAY).
Qed.

Lemma classify_numeric m raw now r code :
  numeric_of m = Some code -> own_tag m (bs "label") = None -> own_tag m (bs "batch") = None -> joining r = ∅ ->
  classify m raw names own now r
  = let '(origin, r') := answer_to_numeric code m names (expire now r) in
    (match origin with Some origin => UpReply (without_framing_tags raw) origin | None => UpSession (without_framing_tags raw) None end, r').
Proof.
  intros Hn Hl Hb Hj. destruct (numeric_command m code Hn) as (C1 & C2 & C3 & C4). unfold classify, barrier_answer, line_label, track_join_burst. rewrite C1, C2, C3, C4, Hl, Hb, Hn, andb_false_r.
  cbn [mbind option_bind]. assert (E : in_join_burst code m names (expire now r) = (false, expire now r)); [|by rewrite E].
  unfold in_join_burst. destruct (negb (mem code JOIN_BURST)); [done|]. destruct (numeric_subject m); [|done].
  change (joining (expire now r)) with (joining r). rewrite Hj, bool_decide_eq_false_2 by set_solver. done.
Qed.

Lemma answer_mirrors code m raw now r outs :
  mirrors r outs -> legal_serve (SvAnswer code m raw now) outs ->
  exists o rest, outs = o :: rest /\ (classify m raw names own now r).1 = UpReply (without_framing_tags raw) (out_origin o)
    /\ mirrors (classify m raw names own now r).2 (serve (SvAnswer code m raw now) outs).
Proof.
  intros Hm (o & rest & -> & Ha & Hf & Hn & Hl & Hb & Hab). exists o, rest. split; [done|].
  pose proof (classify_ok m raw names own now r (mi_ok _ _ Hm)) as Hok. pose proof (fresh_stays now r _ Hm Hf) as Hst. destruct Hm as [Hrok Hw Hj].
  pose proof (ro_sorted _ Hrok) as Hs. rewrite (classify_numeric m raw now r code Hn Hl Hb Hj) in *.
  inversion Hw as [|p o' ps rest' Hp Hps Eps Eo]; subst. rewrite <- Eps in Hst, Hs. unfold answer_to_numeric in *. rewrite Hst in *.
  rewrite (answered_oldest code m p o ps rest Hp Hps Ha Hab) in *. cbn [mbind option_bind lookup list_lookup] in *. pose proof Hp as (Horig & _). rewrite Horig in *. split; [done|].
  split; [exact Hok| |done]. cbn [snd pending set_pending serve]. rewrite (waits_ended _ _ _ Hp).
  assert (Hkeep : forall x, x ∈ p :: ps -> (p_id p <=? p_id x) || p_remote x || negb (is_query x) = true).
  { intros x [->|Hx]%elem_of_cons; [by rewrite Z.leb_refl|]. apply StronglySorted_inv in Hs as [_ HF]. rewrite Forall_forall in HF. specialize (HF x Hx).
    rewrite (proj2 (Z.leb_le _ _)) by lia. done. }
  rewrite forallb_filter_id.
  - destruct (out_ended code o); [done|by constructor].
  - apply forallb_forall. intros x Hx%list_elem_of_In. apply Hkeep. destruct (out_ended code o); [by right|done].
Qed.

Lemma serve_routed steps : forall r outs, mirrors r outs -> legal_serves steps outs -> routed_all steps r = meant_all steps outs.
Proof.
  induction steps as [|st steps IH]; intros r outs Hm Hl; [done|]. destruct Hl as [Hst Hl]. destruct st as [iter origin line m q now|code m raw now]; cbn [routed_all routed meant_all meant].
  - f_equal. apply IH; [by apply ask_mirrors|done].
  - destruct (answer_mirrors code m raw now r outs Hm Hst) as (o & rest & -> & E & Hm'). destruct (classify m raw names own now r) as [u r']. cbn in E, Hm'. subst u. f_equal. by apply IH.
Qed.

Lemma default_mirrors : mirrors ReplyRouter_default [].
Proof. split; [apply router_default_ok|constructor|done]. Qed.
End InOrder.

(** C35.  Attached clients' queries forwarded unlabelled, fewer than the router
    holds, to an upstream that answers each itself, by the numerics of its
    answer and not by an error, in the order it was asked and while none has
    waited a minute: each line of an answer is given to the client whose query
    it answers, and to no one else, provided the line names that query's own
    subject or one that no other query pending names. Without that proviso a
    line can go to a later query that names what the line is about. *)
Theorem in_order_answers_routed names own steps :
  legal_serves names steps [] -> routed_all names own steps ReplyRouter_default = meant_all names steps [].
Proof. apply serve_routed, default_mirrors. Qed.

(** Two clients' queries answered in turn. *)
Definition sample_line (s : str) : OwnedMessage := match parse s with Ok m => from_message m | Err _ => MkOwned [] None [] [] end.
Definition sample_ask (origin : Z) (line : str) (now : Z) : ServeStep :=
  let m := match parse line with Ok m => m | Err _ => MkMessage [] None [] [] false end in
  SvAsk map_to_list origin line m (default (MkQuery [] [] [] [] None) (query_of (verb_of m) (msg_params m))) now.
Definition sample_answer (code : Z) (line : str) (now : Z) : ServeStep := SvAnswer code (sample_line line) line now.

Definition sample_serve : list ServeStep :=
  [ sample_ask 1 (bs "WHOIS alice") 0;
    sample_ask 2 (bs "WHO #room") 1;
    sample_answer 311 (bs ":irc.net 311 me alice u h * :A") 2;
    sample_answer 318 (bs ":irc.net 318 me alice :End of /WHOIS list") 3;
    sample_answer 352 (bs ":irc.net 352 me #room u h irc.net bob H :0 B") 4;
    sample_answer 315 (bs ":irc.net 315 me #room :End of /WHO list") 5 ].

Ltac sample_fresh := repeat (apply Forall_cons; split; [vm_compute; reflexivity|]); apply Forall_nil_2.
Ltac sample_answered :=
  eexists _, _; split; [reflexivity|]; split; [vm_compute; reflexivity|]; split; [sample_fresh|];
  split; [vm_compute; reflexivity|]; split; [vm_compute; reflexivity|]; split; [vm_compute; reflexivity|]; left; vm_compute; reflexivity.

Lemma in_order_answers_routed_witness :
  given_to <$> omap id (routed_all NetworkNames_default (bs "me") sample_serve ReplyRouter_default) = [Some 1; Some 1; Some 2; Some 2].
Proof.
  rewrite in_order_answers_routed; [vm_compute; reflexivity|]. unfold sample_serve, sample_ask. cbn [legal_serves]. split_and!.
  - cbn [legal_serve]. split_and!; [discriminate|reflexivity|reflexivity|apply Nat.leb_le; reflexivity|sample_fresh|apply Nat.ltb_lt; reflexivity].
  - cbn [legal_serve]. split_and!; [discriminate|reflexivity|reflexivity|exact I|sample_fresh|apply Nat.ltb_lt; reflexivity].
  - sample_answered.
  - sample_answered.
  - sample_answered.
  - sample_answered.
  - exact I.
Defined.

(** A labelled command and the line that answers it. *)
Definition sample_routed : list RouterOp :=
  [ RForward map_to_list 7 (bs "WHOIS alice") Labels NetworkNames_default 0;
    RForward map_to_list 8 (bs "WHO #room") Labels NetworkNames_default 1;
    RBarrier ].

Lemma reply_reaches_its_asker_witness :
  given_to (classify (sample_line (bs "@label=e6b2 :irc.net 315 me #room :End")) (bs "@label=e6b2 :irc.net 315 me #room :End") NetworkNames_default (bs "me") 2
             (router_run sample_routed ReplyRouter_default []).1).1 = Some 8
  /\ exists a, a ∈ (router_run sample_routed ReplyRouter_default []).2 /\ as_origin a = 8.
Proof.
  assert (E : given_to (classify (sample_line (bs "@label=e6b2 :irc.net 315 me #room :End")) (bs "@label=e6b2 :irc.net 315 me #room :End") NetworkNames_default (bs "me") 2
             (router_run sample_routed ReplyRouter_default []).1).1 = Some 8) by (vm_compute; reflexivity).
  split; [exact E|]. destruct (reply_reaches_its_asker sample_routed (sample_line (bs "@label=e6b2 :irc.net 315 me #room :End"))
    (bs "@label=e6b2 :irc.net 315 me #room :End") NetworkNames_default (bs "me") 2) as (_ & _ & H).
  - repeat constructor; intros m; reflexivity.
  - destruct (H 8 E) as (a & Ha & Ho & _). exists a. split; [exact Ha|exact Ho].
Defined.

(** The first line of the answer to [WHO alice] names a channel alice is on; a
    later query about that channel is taken to be the one answered, and the
    query really answered is given up as passed over. *)
Definition sample_crossed : list ServeStep :=
  [ sample_ask 1 (bs "WHO alice") 0;
    sample_ask 2 (bs "WHO #room") 1;
    sample_answer 352 (bs ":irc.net 352 me #room u h irc.net alice H :0 A") 2;
    sample_answer 315 (bs ":irc.net 315 me alice :End of /WHO list") 3 ].
Example crossed_who_misrouted :
  given_to <$> omap id (routed_all NetworkNames_default (bs "me") sample_crossed ReplyRouter_default) = [Some 2; Some 2]
  /\ given_to <$> omap id (meant_all NetworkNames_default sample_crossed []) = [Some 1; Some 1].
Proof. split; vm_compute; reflexivity. Qed.
