(* ===== verification/NickRegain.v ===== *)
(** * Taking the configured nickname back ([e6ircd/src/bouncer/nick_regain.rs])

    The state of one wait for a nickname a ghost still holds, fed the
    upstream's lines and the clock: what it sends, when it next has something
    to do, and when it gives up. *)

From stdpp Require Import gmap sorting.
From S2P Require Import Prelude Str Keys Casemap Num Time Wire Message Parse Isupport Sanitize HistoryRequest Ip Address Proxy Names UpstreamIdentity.

Local Open Scope Z_scope.

(** ** Data *)

(** Durations and instants in nanoseconds. *)
Record NickRegainTiming : Type := MkTiming { poll : Z; window : Z }.
Definition NickRegainTiming_default : NickRegainTiming := MkTiming (15 * 1000000000) (300 * 1000000000).

Definition EVERY_SERVERS_NICKLEN : nat := 9.

Definition alternative_nick (configured : str) : str :=
  if (length (chars configured) <? EVERY_SERVERS_NICKLEN)%nat then configured ++ bs "_"
  else concat (removelast (chars configured)) ++ (if str_eqb (default [] (last (chars configured))) (bs "_") then bs "-" else bs "_").

Inductive Watch : Type :=
| Burst
| Monitor
| Ison (next : Z).

Inductive Services : Type := NotAsked | ToAsk | AskedServ | Answered.

Inductive Attempt : Type :=
| Idle (not_before : Z) (free : bool)
| SentNick.

Inductive RegistrationRefusal : Type :=
| InvalidNickname | InvalidUsername | NicknameInUse | ServerPasswordRejected | ServerPasswordRequired | NetworkBanned
| NotRegistered | WelcomedAsAnotherNickname | NicknameRegainRefused | SaslUnavailable | SaslAborted | SaslFailed.
Record RegistrationRejection : Type := MkRejection { refusal : RegistrationRefusal; diagnostic : str }.

Record Step : Type := MkStep { send : list str; consumed : bool; refused : option RegistrationRejection }.
Definition Step_default : Step := MkStep [] false None.

Record NickRegain : Type := MkRegain {
  configured : str;
  alternative : str;
  timing : NickRegainTiming;
  began : Z;
  watch : Watch;
  services : Services;
  attempt : Attempt;
}.

Definition set_watch (w : Watch) (n : NickRegain) : NickRegain := MkRegain (configured n) (alternative n) (timing n) (began n) w (services n) (attempt n).
Definition set_services (s : Services) (n : NickRegain) : NickRegain := MkRegain (configured n) (alternative n) (timing n) (began n) (watch n) s (attempt n).
Definition set_attempt (a : Attempt) (n : NickRegain) : NickRegain := MkRegain (configured n) (alternative n) (timing n) (began n) (watch n) (services n) a.

Definition regain_new (nick alt : str) (authenticated : bool) (t : NickRegainTiming) (now : Z) : NickRegain :=
  MkRegain nick alt t now Burst (if authenticated then ToAsk else NotAsked) (Idle now false).

(** ** Text *)

(** [{:?}] of a [Duration]: the largest unit it reaches, with what is left of it
    after a point and without its last zeros. *)
Fixpoint drop_zeros (digits : str) : str :=
  match digits with b :: rest => if b =b? "0" then drop_zeros rest else digits | [] => [] end.
Definition fmt_decimal (integer fraction : Z) (width : nat) (unit : str) : str :=
  dec integer ++ (if fraction =? 0 then [] else bs "." ++ rev (drop_zeros (rev (fixed width fraction)))) ++ unit.
Definition duration_debug (d : Z) : str :=
  if 1000000000 <=? d then fmt_decimal (d / 1000000000) (d mod 1000000000) 9 (bs "s")
  else if 1000000 <=? d then fmt_decimal (d / 1000000) (d mod 1000000) 6 (bs "ms")
  else if 1000 <=? d then fmt_decimal (d / 1000) (d mod 1000) 3 [xc2; xb5; "s"%byte]
  else fmt_decimal d 0 0 (bs "ns").

Definition not_regained (requested alternative : str) (waited : Z) : RegistrationRejection :=
  MkRejection NicknameInUse (bounded_diagnostic (requested ++ bs " was still in use " ++ duration_debug waited ++ bs " after registering as " ++ alternative)).
Definition regain_refused (requested said : str) : RegistrationRejection :=
  MkRejection NicknameRegainRefused (bounded_diagnostic (requested ++ bs " cannot be regained: " ++ said)).

Definition is_digit_char (c : str) : bool := match c with [b] => is_ascii_digit b | _ => false end.
Definition next_if_digit (cs : list str) : list str := match cs with c :: rest => if is_digit_char c then rest else cs | [] => [] end.

(** A colour code's digits, and its background's. *)
Definition skip_colour (cs : list str) : list str :=
  let cs := next_if_digit (next_if_digit cs) in
  match cs with c :: rest => if str_eqb c (bs ",") then next_if_digit (next_if_digit rest) else cs | [] => [] end.

(** The loop of [plain_text]: each turn takes a character at least. *)
Fixpoint plain_loop (fuel : nat) (cs : list str) : str :=
  match fuel with
  | O => []
  | S fuel =>
      match cs with
      | [] => []
      | c :: cs => if str_eqb c [x03] then plain_loop fuel (skip_colour cs) else if char_control c then plain_loop fuel cs else c ++ plain_loop fuel cs
      end
  end.
Definition plain_text (said : str) : str := plain_loop (S (length (chars said))) (chars said).

(** [to_lowercase], as far as ASCII phrases see it: the characters whose lower
    case holds an ASCII letter are the ASCII capitals, the Kelvin sign and the
    dotted capital I; every other keeps bytes no phrase has. *)
Definition char_lower (c : str) : str :=
  match c with
  | [b] => [lower Ascii b]
  | [b0; b1] => if str_eqb c [xc4; xb0] then bs "i" ++ [xcc; x87] else c
  | [b0; b1; b2] => if str_eqb c [xe2; x84; xaa] then bs "k" else c
  | _ => c
  end.
Definition to_lowercase (s : str) : str := concat (char_lower <$> chars s).

(** [s.contains(phrase)]. *)
Fixpoint contains (phrase s : str) : bool :=
  (if strip_prefix phrase s is Some _ then true else false) || match s with [] => false | _ :: s => contains phrase s end.

Inductive ServicesAnswer : Type := SaRefused | SaFree | SaSettled | SaUnrelated.

Definition ServicesAnswer_read (said : str) : ServicesAnswer :=
  let said := to_lowercase (plain_text said) in
  let says phrases := existsb (fun phrase => contains phrase said) phrases in
  if says [bs "invalid password"; bs "access denied"; bs "you may not"; bs "you do not have access"; bs "not authorized"; bs "permission denied"] then SaRefused
  else if says [bs "is not online"; bs "is not in use"] then SaFree
  else if says [bs "regained"; bs "has been released"; bs "has been ghosted"; bs "not a registered nick"; bs "is not registered"; bs "isn't registered";
                bs "unknown command"; bs "is not a valid command"; bs "invalid command"] then SaSettled
  else SaUnrelated.

(** ** The wait *)

Definition wake (n : NickRegain) : Z :=
  let wake := began n + window (timing n) in
  let wake := match watch n with
              | Burst => Z.min wake (began n + poll (timing n))
              | Ison next => Z.min wake next
              | Monitor => wake
              end in
  match attempt n with Idle not_before true => Z.min wake not_before | _ => wake end.

Definition push (line : str) (st : Step) : Step := MkStep (send st ++ [line]) (consumed st) (refused st).

Definition start_watching (now : Z) (isupport : list str) (n : NickRegain) (st : Step) : NickRegain * Step :=
  let '(n, st) := match services n with
                  | ToAsk => (set_services AskedServ n, push (bs "PRIVMSG NickServ :REGAIN " ++ configured n) st)
                  | _ => (n, st)
                  end in
  if existsb (fun token => match split "=" token with key :: _ => str_eqb key (bs "MONITOR") | [] => false end) isupport then
    (set_watch Monitor n, push (bs "MONITOR + " ++ configured n) st)
  else (set_watch (Ison (now + poll (timing n))) n, push (bs "ISON " ++ configured n) st).

Definition try_nick (now : Z) (n : NickRegain) (st : Step) : NickRegain * Step :=
  match attempt n with
  | Idle not_before _ =>
      if not_before <=? now then (set_attempt SentNick n, push (bs "NICK " ++ configured n) st) else (set_attempt (Idle not_before true) n, st)
  | SentNick => (n, st)
  end.

Definition on_tick (now : Z) (isupport : list str) (n : NickRegain) : NickRegain * Step :=
  if began n + window (timing n) <=? now then
    (n, MkStep [] false (Some (not_regained (configured n) (alternative n) (window (timing n)))))
  else
    let '(n, st) := match watch n with
                    | Burst => if began n + poll (timing n) <=? now then start_watching now isupport n Step_default else (n, Step_default)
                    | Ison next =>
                        if next <=? now then (set_watch (Ison (now + poll (timing n))) n, push (bs "ISON " ++ configured n) Step_default) else (n, Step_default)
                    | Monitor => (n, Step_default)
                    end in
    match attempt n with Idle _ true => try_nick now n st | _ => (n, st) end.

Definition names_configured (m : OwnedMessage) (names : NetworkNames) (separator : byte) (n : NickRegain) : bool :=
  match last (own_params m) with
  | Some list => existsb (fun entry => names_eq names (default entry (head (split "!" entry))) (configured n)) (split separator list)
  | None => false
  end.

Definition refuses_our_nick (m : OwnedMessage) (names : NetworkNames) (n : NickRegain) : bool :=
  match attempt n with
  | SentNick => match numeric_subject m with Some subject => names_eq names subject (configured n) | None => false end
  | Idle _ _ => false
  end.

Definition from_nickserv (m : OwnedMessage) (names : NetworkNames) : bool :=
  match own_source m with Some source => names_eq names (default source (head (split "!" source))) (bs "NickServ") | None => false end.

(** The latest word on whether the nickname is free. *)
Definition note_free (free : bool) (n : NickRegain) : NickRegain :=
  match attempt n with Idle not_before _ => set_attempt (Idle not_before free) n | SentNick => n end.

Definition consume (st : Step) : Step := MkStep (send st) true (refused st).

Definition is_burst (n : NickRegain) : bool := match watch n with Burst => true | _ => false end.
Definition is_monitor (n : NickRegain) : bool := match watch n with Monitor => true | _ => false end.
Definition is_ison (n : NickRegain) : bool := match watch n with Ison _ => true | _ => false end.
Definition is_asked (n : NickRegain) : bool := match services n with AskedServ => true | _ => false end.

Definition told_free (free : bool) (now : Z) (n : NickRegain) : NickRegain * Step :=
  let n := note_free free n in
  if free then try_nick now n (consume Step_default) else (n, consume Step_default).

Definition on_line (m : OwnedMessage) (names : NetworkNames) (isupport : list str) (now : Z) (n : NickRegain) : NickRegain * Step :=
  let command := own_command m in
  let said_ code := str_eqb command code in
  if (said_ (bs "376") || said_ (bs "422")) && is_burst n then start_watching now isupport n Step_default
  else if (said_ (bs "730") || said_ (bs "731")) && names_configured m names "," n then told_free (said_ (bs "731")) now n
  else if said_ (bs "734") && is_monitor n then (set_watch (Ison now) n, consume Step_default)
  else if said_ (bs "303") && is_ison n then told_free (negb (names_configured m names " " n)) now n
  else if (said_ (bs "433") || said_ (bs "435") || said_ (bs "436") || said_ (bs "437") || said_ (bs "438") || said_ (bs "447")) && refuses_our_nick m names n then
    (set_attempt (Idle (now + poll (timing n)) (said_ (bs "437"))) n, consume Step_default)
  else if said_ (bs "432") && refuses_our_nick m names n then
    (n, MkStep [] true (Some (regain_refused (configured n) (default (bs "erroneous nickname") (last (own_params m))))))
  else if said_ (bs "NOTICE") && is_asked n && from_nickserv m names then
    let said := default [] (last (own_params m)) in
    match ServicesAnswer_read said with
    | SaRefused => (n, MkStep [] false (Some (regain_refused (configured n) (plain_text said))))
    | SaFree => try_nick now (note_free true (set_services Answered n)) Step_default
    | SaSettled => (set_services Answered n, Step_default)
    | SaUnrelated => (n, Step_default)
    end
  else (n, Step_default).

Definition finished (n : NickRegain) : list str := match watch n with Monitor => [bs "MONITOR - " ++ configured n] | _ => [] end.

(** ** The loop of [plain_text] ends *)

Lemma next_if_digit_length cs : (length (next_if_digit cs) <= length cs)%nat.
Proof. destruct cs as [|c cs]; cbn; [done|]. destruct (is_digit_char c); cbn; lia. Qed.

Lemma skip_colour_length cs : (length (skip_colour cs) <= length cs)%nat.
Proof.
  unfold skip_colour. pose proof (next_if_digit_length cs). pose proof (next_if_digit_length (next_if_digit cs)).
  destruct (next_if_digit (next_if_digit cs)) as [|c rest] eqn:E; [cbn; lia|]. destruct (str_eqb c (bs ",")); [|lia].
  pose proof (next_if_digit_length rest). pose proof (next_if_digit_length (next_if_digit rest)). cbn in *. lia.
Qed.

Lemma plain_loop_enough fuel fuel' cs : (length cs < fuel)%nat -> (length cs < fuel')%nat -> plain_loop fuel cs = plain_loop fuel' cs.
Proof.
  revert fuel' cs. induction fuel as [|fuel IH]; intros fuel' cs H H'; [lia|]. destruct fuel' as [|fuel']; [lia|]. destruct cs as [|c cs]; [done|]. cbn [length] in *. cbn [plain_loop].
  pose proof (skip_colour_length cs). destruct (str_eqb c [x03]); [apply IH; lia|]. destruct (char_control c); [apply IH; lia|]. f_equal. apply IH; lia.
Qed.

(** ** The alternative nickname *)

Lemma chars_app_ascii s (b : byte) : is_ascii b = true -> chars (s ++ [b]) = chars s ++ [[b]].
Proof. intros Hb. unfold chars. rewrite (chunks_app_ascii s b []) by done. by rewrite fmap_app. Qed.

Lemma utf8_next_take b rest n : utf8_next b rest = (true, n) -> utf8_next b (take n rest) = (true, n).
Proof.
  unfold utf8_next. intros H. destruct (utf8_char_width b) as [|[|[|[|[|]]]]]; destruct rest as [|r0 [|r1 [|r2 rest]]]; cbn in *; try done;
    repeat case_match; simplify_eq/=; try done; repeat case_match; simplify_eq/=; congruence.
Qed.

(** The first characters of a text are characters of their own. *)
Lemma chars_take (s : str) k : utf8_valid s = true -> chars (concat (take k (chars s))) = take k (chars s).
Proof.
  revert k. induction s as [|b rest IH] using chunks_ind; intros k Hv; [by destruct k|].
  rewrite utf8_valid_cons in Hv. apply andb_true_iff in Hv as [Hok Hv]. destruct (utf8_next b rest) as [ok n] eqn:En. cbn in *. subst ok.
  assert (Ec : chars (b :: rest) = (b :: take n rest) :: chars (drop n rest)) by (unfold chars; rewrite chunks_cons, En; done).
  rewrite Ec. destruct k as [|k]; [done|]. cbn [take concat]. destruct (utf8_next_cont _ _ _ _ En) as [Hn _].
  assert (Eb : utf8_chunks (b :: take n rest) = [(true, b :: take n rest)]).
  { rewrite chunks_cons, (utf8_next_take _ _ _ En). cbn. rewrite take_take, Nat.min_id, drop_ge by (rewrite length_take; lia). done. }
  unfold chars at 1. rewrite chunks_app_valid by (unfold utf8_valid; by rewrite Eb). rewrite Eb, fmap_app. cbn. f_equal. apply IH, Hv.
Qed.

Lemma removelast_take {A} (l : list A) : removelast l = take (length l - 1) l.
Proof. induction l as [|x [|y l] IH]; [done|done|]. change (removelast (x :: y :: l)) with (x :: removelast (y :: l)). rewrite IH. cbn. by rewrite Nat.sub_0_r. Qed.

Definition alternative_last (s : str) : str := if str_eqb (default [] (last (chars s))) (bs "_") then bs "-" else bs "_".

Lemma chars_alternative s : utf8_valid s = true ->
  chars (alternative_nick s) = if (length (chars s) <? EVERY_SERVERS_NICKLEN)%nat then chars s ++ [bs "_"] else take (length (chars s) - 1) (chars s) ++ [alternative_last s].
Proof.
  intros Hv. unfold alternative_nick, alternative_last. destruct (_ <? _)%nat; [by apply chars_app_ascii|]. rewrite removelast_take.
  destruct (str_eqb _ (bs "_")); unfold bs; cbn; rewrite chars_app_ascii by done; by rewrite chars_take.
Qed.

Lemma chars_concat s : concat (chars s) = s.
Proof. apply concat_chunks. Qed.

Lemma length_concat_le {A} (k : nat) (l : list (list A)) : Forall (fun x => (length x <= k)%nat) l -> (length (concat l) <= k * length l)%nat.
Proof. induction 1 as [|x l Hx _ IH]; cbn; [lia|]. rewrite length_app. lia. Qed.

Lemma chars_short s : Forall (fun c => (length c <= 4)%nat) (chars s).
Proof.
  induction s as [|b rest IH] using chunks_ind; [constructor|]. unfold chars. rewrite chunks_cons. cbn. constructor; [|exact IH]. cbn.
  rewrite length_take. enough ((utf8_next b rest).2 <= 3)%nat by lia. unfold utf8_next.
  repeat match goal with |- context [match ?x with _ => _ end] => destruct x end; cbn; lia.
Qed.

(** ** Pacing *)

Inductive RegainEvent : Type :=
| ETick (isupport : list str)
| ELine (m : OwnedMessage) (names : NetworkNames) (isupport : list str).

Definition regain_event (now : Z) (e : RegainEvent) (n : NickRegain) : NickRegain * Step :=
  match e with ETick isupport => on_tick now isupport n | ELine m names isupport => on_line m names isupport now n end.

(** The driver drops the wait once it is refused. *)
Fixpoint regain_run (events : list (Z * RegainEvent)) (n : NickRegain) : list (Z * Step) :=
  match events with
  | [] => []
  | (now, e) :: events => let '(n, st) := regain_event now e n in (now, st) :: if refused st is Some _ then [] else regain_run events n
  end.

Definition is_nick (n : NickRegain) (line : str) : bool := str_eqb line (bs "NICK " ++ configured n).
Definition nicks (n : NickRegain) (st : Step) : list str := List.filter (is_nick n) (send st).
Definition nick_times (n : NickRegain) (log : list (Z * Step)) : list Z := flat_map (fun ts => (fun _ => ts.1) <$> nicks n ts.2) log.

(** How one event can move the attempt. *)
Definition attempt_moves (now : Z) (n n' : NickRegain) (st : Step) : Prop :=
  configured n' = configured n /\ timing n' = timing n /\
  ((length (nicks n st) = 1%nat /\ attempt n' = SentNick /\ exists nb f, attempt n = Idle nb f /\ nb <= now)
   \/ (nicks n st = [] /\ (attempt n' = attempt n \/ (exists nb f f', attempt n = Idle nb f /\ attempt n' = Idle nb f')
                         \/ (attempt n = SentNick /\ exists f, attempt n' = Idle (now + poll (timing n)) f)))).

Lemma not_nick n (prefix rest : str) :
  negb (starts_with "N" prefix) && negb (is_empty prefix) = true -> is_nick n (prefix ++ rest) = false.
Proof.
  intros [H1%negb_true_iff H2%negb_true_iff]%andb_true_iff. unfold is_nick. apply str_eqb_neq. destruct prefix as [|b prefix]; [done|]. intros [= -> _]. done.
Qed.

Lemma nicks_push n line st : nicks n (push line st) = nicks n st ++ (if is_nick n line then [line] else []).
Proof. unfold nicks, push. cbn. rewrite List.filter_app. cbn. by destruct (is_nick n line). Qed.

Lemma start_watching_quiet now isupport n st :
  nicks n (start_watching now isupport n st).2 = nicks n st /\ attempt (start_watching now isupport n st).1 = attempt n
  /\ configured (start_watching now isupport n st).1 = configured n /\ timing (start_watching now isupport n st).1 = timing n.
Proof.
  assert (H1 := not_nick n (bs "PRIVMSG NickServ :REGAIN ") (configured n) eq_refl). assert (H2 := not_nick n (bs "MONITOR + ") (configured n) eq_refl).
  assert (H3 := not_nick n (bs "ISON ") (configured n) eq_refl).
  unfold start_watching. destruct (services n); destruct (existsb _ isupport); cbn [fst snd set_services set_watch configured timing attempt];
    rewrite ?nicks_push, ?H1, ?H2, ?H3, ?app_nil_r; done.
Qed.

Lemma try_nick_moves now n st : nicks n st = [] -> attempt_moves now n (try_nick now n st).1 (try_nick now n st).2.
Proof.
  intros Hst. unfold attempt_moves, try_nick. destruct (attempt n) as [nb f|] eqn:E; [|cbn; rewrite E; eauto 10]. destruct (Z.leb_spec nb now) as [H|H]; cbn [fst snd]; (split; [done|]; split; [done|]).
  - left. rewrite nicks_push, Hst. assert (Hn : is_nick n (bs "NICK " ++ configured n) = true) by apply str_eqb_refl. rewrite Hn. eauto 10.
  - right. eauto 10.
Qed.

(** What was noted of the nickname beforehand changes no move. *)
Lemma moves_after now n n1 n' st :
  configured n1 = configured n -> timing n1 = timing n -> (attempt n1 = attempt n \/ exists nb f f', attempt n = Idle nb f /\ attempt n1 = Idle nb f') ->
  attempt_moves now n1 n' st -> attempt_moves now n n' st.
Proof.
  intros Hc Ht Ha (H1 & H2 & H). unfold attempt_moves, nicks, is_nick in *. rewrite Hc in H. rewrite Hc in H1. rewrite Ht in H, H2. split; [done|]. split; [done|].
  destruct H as [(Hl & Hs & nb & f & Hi & Hle)|(Hl & H)]; [left|right]; (split; [done|]).
  - split; [done|]. destruct Ha as [Ha|(nb' & g & g' & Ha & Ha')]; [rewrite <- Ha; eauto|]. rewrite Ha' in Hi. injection Hi as <- <-. eauto.
  - destruct Ha as [Ha|(nb' & g & g' & Ha & Ha')]; [by rewrite <- Ha|]. right. left. destruct H as [H|[(nb & f & f' & Hi & H)|(Hi & _)]]; [| |congruence].
    + rewrite Ha' in H. eauto.
    + rewrite Ha' in Hi. injection Hi as <- <-. eauto.
Qed.

Lemma note_free_same free n : configured (note_free free n) = configured n /\ timing (note_free free n) = timing n
  /\ (attempt (note_free free n) = attempt n \/ exists nb f f', attempt n = Idle nb f /\ attempt (note_free free n) = Idle nb f').
Proof. unfold note_free. destruct (attempt n) eqn:E; cbn; split_and!; try done; [right; eauto|left; done]. Qed.

Lemma quiet_moves now n n' st : configured n' = configured n -> timing n' = timing n -> attempt n' = attempt n -> nicks n st = [] -> attempt_moves now n n' st.
Proof. intros H1 H2 H3 H4. split; [done|]. split; [done|]. right. auto. Qed.

Lemma told_free_moves free now n : attempt_moves now n (told_free free now n).1 (told_free free now n).2.
Proof.
  unfold told_free. destruct (note_free_same free n) as (H1 & H2 & H3). destruct free.
  - eapply moves_after; [exact H1|exact H2|exact H3|]. by apply try_nick_moves.
  - eapply moves_after; [exact H1|exact H2|exact H3|]. by apply quiet_moves.
Qed.

(** A send that is no NICK before the rest of a tick. *)
Lemma moves_before now n n1 st n' st' :
  configured n1 = configured n -> timing n1 = timing n -> attempt n1 = attempt n ->
  attempt_moves now n1 n' st' -> nicks n st = [] -> attempt_moves now n n' st'.
Proof. intros H1 H2 H3 H _. eapply moves_after; [exact H1|exact H2|by left|exact H]. Qed.

Lemma on_tick_moves now isupport n : attempt_moves now n (on_tick now isupport n).1 (on_tick now isupport n).2.
Proof.
  unfold on_tick. destruct (began n + window (timing n) <=? now); [by apply quiet_moves|].
  assert (Hison := not_nick n (bs "ISON ") (configured n) eq_refl).
  assert (Hw : exists n1 st1, match watch n with
                    | Burst => if began n + poll (timing n) <=? now then start_watching now isupport n Step_default else (n, Step_default)
                    | Ison next => if next <=? now then (set_watch (Ison (now + poll (timing n))) n, push (bs "ISON " ++ configured n) Step_default) else (n, Step_default)
                    | Monitor => (n, Step_default)
                    end = (n1, st1) /\ configured n1 = configured n /\ timing n1 = timing n /\ attempt n1 = attempt n /\ nicks n st1 = []).
  { destruct (watch n) as [| |next].
    - destruct (_ <=? now); [|by eexists _, _]. destruct (start_watching_quiet now isupport n Step_default) as (H1 & H2 & H3 & H4).
      destruct (start_watching now isupport n Step_default) as [n1 st1]. eexists _, _. split; [done|]. done.
    - by eexists _, _.
    - destruct (next <=? now); [|by eexists _, _]. eexists _, _. split; [done|]. rewrite nicks_push, Hison. done. }
  destruct Hw as (n1 & st1 & -> & H1 & H2 & H3 & H4). assert (H4' : nicks n1 st1 = []) by (unfold nicks, is_nick in *; by rewrite H1).
  assert (Hq : attempt_moves now n1 n1 st1) by by apply quiet_moves.
  eapply moves_after; [exact H1|exact H2|by left|]. destruct (attempt n1) as [nb [|]|]; [by apply try_nick_moves|done|done].
Qed.

Lemma on_line_moves m names isupport now n : attempt_moves now n (on_line m names isupport now n).1 (on_line m names isupport now n).2.
Proof.
  unfold on_line. cbn zeta.
  destruct (_ && is_burst n).
  { destruct (start_watching_quiet now isupport n Step_default) as (H1 & H2 & H3 & H4). by apply quiet_moves. }
  destruct (_ && names_configured m names "," n); [apply told_free_moves|]. destruct (_ && is_monitor n); [by apply quiet_moves|].
  destruct (_ && is_ison n); [apply told_free_moves|]. destruct (_ && refuses_our_nick m names n) eqn:E.
  { apply andb_true_iff in E as [_ E]. unfold refuses_our_nick in E. destruct (attempt n) eqn:Ea; [done|]. cbn [fst snd]. split; [done|]. split; [done|]. right. split; [done|]. right. right. cbn. eauto. }
  destruct (str_eqb (own_command m) (bs "432") && _); [by apply quiet_moves|]. destruct (_ && from_nickserv m names); [|by apply quiet_moves].
  destruct (ServicesAnswer_read _); try by apply quiet_moves.
  destruct (note_free_same true (set_services Answered n)) as (H1 & H2 & H3). eapply moves_after; [exact H1|exact H2|exact H3|]. by apply try_nick_moves.
Qed.

Lemma regain_event_moves now e n : attempt_moves now n (regain_event now e n).1 (regain_event now e n).2.
Proof. destruct e; [apply on_tick_moves|apply on_line_moves]. Qed.

(** The next NICK comes no sooner than a poll after the last one. *)
Definition owed (after : Z) (n : NickRegain) : Prop :=
  match attempt n with Idle nb _ => after <= nb | SentNick => True end.

Lemma run_paced events : forall n last,
  0 <= poll (timing n) -> StronglySorted Z.le (last :: events.*1) -> owed (last + poll (timing n)) n ->
  StronglySorted (fun a b => a + poll (timing n) <= b) (last :: nick_times n (regain_run events n)).
Proof.
  induction events as [|[now e] events IH]; intros n last Hp Hs Ho; cbn [regain_run nick_times flat_map]; [by repeat constructor|].
  pose proof (regain_event_moves now e n) as Hm. destruct (regain_event now e n) as [n1 st]. cbn [fst snd] in Hm. destruct Hm as (Hc & Ht & Hm).
  cbn in Hs. apply StronglySorted_inv in Hs as [Hs HF]. apply Forall_cons in HF as [Hle HF].
  assert (Htail : forall after, owed (after + poll (timing n1)) n1 -> last <= after <= now \/ after = now ->
            StronglySorted (fun a b => a + poll (timing n) <= b) (after :: nick_times n (if refused st is Some _ then [] else regain_run events n1))).
  { intros after Ho1 Hafter. destruct (refused st); [by repeat constructor|]. replace (nick_times n (regain_run events n1)) with (nick_times n1 (regain_run events n1)).
    2:{ unfold nick_times, nicks, is_nick. by rewrite Hc. }
    rewrite <- Ht. apply IH; [by rewrite Ht|constructor|done].
    - by apply StronglySorted_inv in Hs as [? _].
    - apply StronglySorted_inv in Hs as [_ HF']. eapply Forall_impl; [exact HF'|]. intros x Hx. cbn in Hx. lia. }
  cbn [flat_map fst snd]. destruct Hm as [(Hl & Ha & nb & f & Hi & Hnb)|(Hl & Ha)].
  - destruct (nicks n st) as [|x [|]]; [done| |done]. cbn [fmap list_fmap app]. specialize (Htail now). unfold owed in Ho, Htail. rewrite Hi in Ho. rewrite Ha in Htail.
    specialize (Htail I ltac:(lia)). constructor; [exact Htail|]. constructor; [lia|]. apply StronglySorted_inv in Htail as [_ HF'].
    eapply Forall_impl; [exact HF'|]. intros y Hy. cbn in Hy. lia.
  - rewrite Hl. cbn [fmap list_fmap app]. apply Htail; [|left; lia]. rewrite Ht. unfold owed in *.
    destruct Ha as [->|[(nb & f & f' & Hi & ->)|(Hi & f & ->)]]; [done|by rewrite Hi in Ho|lia].
Qed.

(** C37.  However the upstream answers and whenever it is heard: the wait for
    the configured nickname never has a NICK sent within a poll interval of
    the one before it. *)
Theorem regain_paced nick alt authenticated t began events :
  0 <= poll t -> StronglySorted Z.le (began :: events.*1) ->
  StronglySorted (fun a b => a + poll t <= b) (nick_times (regain_new nick alt authenticated t began) (regain_run events (regain_new nick alt authenticated t began))).
Proof.
  intros Hp Hs. set (n := regain_new nick alt authenticated t began).
  assert (Hgo : StronglySorted (fun a b => a + poll (timing n) <= b) ((began - poll t) :: nick_times n (regain_run events n))).
  { apply run_paced; [done| |unfold owed; cbn; lia]. apply StronglySorted_inv in Hs as [Hs HF]. constructor; [done|]. eapply Forall_impl; [exact HF|]. intros x Hx. cbn in Hx. lia. }
  by apply StronglySorted_inv in Hgo as [Hgo _].
Qed.

(** ** Waking *)

(** C36.  [wake] is exactly when the clock has something to do: before it a
    tick changes and sends nothing, and a tick at or after it either ends the
    wait or leaves the next one in the future, so the driver neither misses a
    deadline nor spins; at the end of the window the wait always ends. *)
Theorem wake_exact now isupport n :
  0 < poll (timing n) ->
  (now < wake n -> on_tick now isupport n = (n, Step_default))
  /\ (wake n <= now -> refused (on_tick now isupport n).2 <> None \/ now < wake (on_tick now isupport n).1)
  /\ (began n + window (timing n) <= now -> refused (on_tick now isupport n).2 <> None).
Proof.
  intros Hp. unfold on_tick. split; [|split].
  - unfold wake. intros Hw. rewrite (proj2 (Z.leb_gt _ _)) by (destruct (watch n), (attempt n) as [? []|]; lia).
    assert (Hfree : forall st, (match attempt n with Idle _ true => try_nick now n st | _ => (n, st) end) = (n, st)).
    { intros st. destruct (attempt n) as [nb [|]|] eqn:Ea; [|done|done]. unfold try_nick. rewrite Ea, (proj2 (Z.leb_gt _ _)) by (destruct (watch n); lia).
      f_equal. destruct n. cbn in *. by subst. }
    destruct (watch n) as [| |next]; [rewrite (proj2 (Z.leb_gt _ _)) by (destruct (attempt n) as [? []|]; lia)| |rewrite (proj2 (Z.leb_gt _ _)) by (destruct (attempt n) as [? []|]; lia)]; apply Hfree.
  - intros Hw. destruct (Z.leb_spec (began n + window (timing n)) now) as [H|H]; [left; done|right].
    assert (Hwatch : exists n1 st1, match watch n with
                    | Burst => if began n + poll (timing n) <=? now then start_watching now isupport n Step_default else (n, Step_default)
                    | Ison next => if next <=? now then (set_watch (Ison (now + poll (timing n))) n, push (bs "ISON " ++ configured n) Step_default) else (n, Step_default)
                    | Monitor => (n, Step_default)
                    end = (n1, st1) /\ began n1 = began n /\ timing n1 = timing n
                    /\ match watch n1 with Burst => now < began n + poll (timing n) | Ison next => now < next | Monitor => True end).
    { destruct (watch n) as [| |next] eqn:Ew.
      - destruct (Z.leb_spec (began n + poll (timing n)) now) as [Hb|Hb]; [|eexists _, _; rewrite Ew; eauto].
        unfold start_watching. destruct (services n), (existsb _ isupport); eexists _, _; (split; [done|]); cbn; split_and!; try done; lia.
      - eexists _, _. rewrite Ew. eauto.
      - destruct (Z.leb_spec next now) as [Hb|Hb]; [|eexists _, _; rewrite Ew; eauto]. eexists _, _. split; [done|]. cbn. split_and!; [done|done|lia]. }
    destruct Hwatch as (n1 & st1 & -> & Hb & Ht & Hw1).
    assert (Hmin : forall n2, began n2 = began n1 -> timing n2 = timing n1 -> watch n2 = watch n1 -> match attempt n2 with Idle nb true => now < nb | _ => True end -> now < wake n2).
    { intros n2 B2 T2 W2 A2. unfold wake. rewrite B2, T2, W2, Hb, Ht. destruct (watch n1), (attempt n2) as [? []|]; lia. }
    destruct (attempt n1) as [nb [|]|] eqn:Ea; cbn [fst]; [|apply Hmin; [done..|by rewrite Ea]|apply Hmin; [done..|by rewrite Ea]].
    unfold try_nick. rewrite Ea. destruct (Z.leb_spec nb now); cbn [fst]; apply Hmin; done.
  - intros H. by rewrite (proj2 (Z.leb_le _ _) H).
Qed.

(** ** The alternative is a nickname *)

Lemma alternative_length s : UpstreamNick_parse s = Ok (MkUpstreamNick s) -> utf8_valid s = true -> (length (alternative_nick s) <= 64)%nat.
Proof.
  intros Hp Hv. pose proof (chars_concat (alternative_nick s)) as Hc. rewrite chars_alternative in Hc by done. rewrite <- Hc.
  unfold UpstreamNick_parse in Hp. destruct (first_char s); [|done]. destruct (Nat.ltb_spec 64 (length s)) as [|Hl]; [done|]. clear Hp.
  unfold EVERY_SERVERS_NICKLEN. destruct (Nat.ltb_spec (length (chars s)) 9) as [H|H]; rewrite concat_app, length_app.
  - pose proof (length_concat_le 4 (chars s) (chars_short s)). rewrite chars_concat in *. change (length (concat [bs "_"])) with 1%nat. lia.
  - assert (Hlast : (length (concat [alternative_last s]) = 1)%nat) by (unfold alternative_last; by destruct (str_eqb _ _)). rewrite Hlast.
    assert (Hsplit : chars s = take (length (chars s) - 1) (chars s) ++ drop (length (chars s) - 1) (chars s)) by by rewrite take_drop.
    assert (Hs : length s = (length (concat (take (length (chars s) - 1) (chars s))) + length (concat (drop (length (chars s) - 1) (chars s))))%nat).
    { rewrite <- length_app, <- concat_app, <- Hsplit. by rewrite chars_concat. }
    destruct (drop (length (chars s) - 1) (chars s)) as [|c rest] eqn:Ed.
    { apply (f_equal length) in Ed. rewrite length_drop in Ed. cbn in Ed. lia. }
    assert (Hc' : c <> []). { intros ->. apply (chars_nonempty s). rewrite Hsplit. apply elem_of_app. right. by left. }
    destruct c; [done|]. cbn in Hs. lia.
Qed.

Lemma alternative_first s : chars s <> [] -> utf8_valid s = true -> first_char (alternative_nick s) = first_char s.
Proof.
  intros Hne Hv. unfold first_char. rewrite chars_alternative by done. unfold EVERY_SERVERS_NICKLEN. destruct (Nat.ltb_spec (length (chars s)) 9) as [H|H].
  - by destruct (chars s).
  - destruct (chars s) as [|c [|d l]]; [done|cbn in H; lia|]. cbn. done.
Qed.

(**  The nickname registration falls back to is one the same grammar
    admits, is not the configured one, and has no more characters than the
    larger of the configured one and the nine every server takes. *)
Theorem alternative_nick_fits s :
  UpstreamNick_parse s = Ok (MkUpstreamNick s) -> utf8_valid s = true ->
  UpstreamNick_parse (alternative_nick s) = Ok (MkUpstreamNick (alternative_nick s)) /\ alternative_nick s <> s
  /\ (length (chars (alternative_nick s)) <= Nat.max EVERY_SERVERS_NICKLEN (length (chars s)))%nat.
Proof.
  intros Hp Hv. pose proof (alternative_length s Hp Hv) as Hlen.
  assert (Hne : chars s <> []) by (unfold UpstreamNick_parse, first_char in Hp; by destruct (chars s)).
  pose proof (alternative_first s Hne Hv) as Hfirst. pose proof (chars_alternative s Hv) as Hc.
  assert (Hlast : forall c, c = bs "_" \/ c = alternative_last s -> breaks_a_parameter c || char_in (bs ",*?!@") c = false).
  { intros c [->| ->]; [done|]. unfold alternative_last. by destruct (str_eqb _ _). }
  split; [|split].
  - unfold UpstreamNick_parse in *. rewrite Hfirst. destruct (first_char s) as [first|]; [|done]. rewrite (proj2 (Nat.ltb_ge _ _) Hlen).
    destruct (64 <? length s)%nat; [done|]. destruct (char_in _ first); [done|]. destruct (existsb _ (chars s)) eqn:Eb; [done|].
    replace (existsb _ (chars (alternative_nick s))) with false; [done|]. symmetry. apply not_true_iff_false. intros (c & Hin & Hbad)%existsb_exists.
    apply not_true_iff_false in Eb. apply Eb. apply existsb_exists. apply list_elem_of_In in Hin. rewrite Hc in Hin.
    destruct (length (chars s) <? EVERY_SERVERS_NICKLEN)%nat; apply elem_of_app in Hin as [Hin| ->%list_elem_of_singleton]; try (rewrite Hlast in Hbad by auto; done).
    + exists c. split; [by apply list_elem_of_In|done].
    + exists c. split; [|done]. apply list_elem_of_In. apply elem_of_take in Hin as (i & Hi & _). by eapply list_elem_of_lookup_2.
  - intros E. rewrite E in Hc. destruct (length (chars s) <? EVERY_SERVERS_NICKLEN)%nat.
    + apply (f_equal length) in Hc. rewrite length_app in Hc. cbn in Hc. lia.
    + apply (f_equal last) in Hc. rewrite last_snoc in Hc. unfold alternative_last in Hc.
      destruct (str_eqb (default [] (last (chars s))) (bs "_")) eqn:Es; rewrite Hc in Es; discriminate.
  - rewrite Hc. unfold EVERY_SERVERS_NICKLEN. destruct (Nat.ltb_spec (length (chars s)) 9) as [H|H]; rewrite length_app; [cbn [length]; lia|]. rewrite length_take. cbn [length].
    assert (length (chars s) <> 0)%nat by (destruct (chars s); [done|cbn; lia]). lia.
Qed.

Lemma alternative_nick_fits_witness : alternative_nick (bs "guest-420") = bs "guest-42_" /\ UpstreamNick_parse (alternative_nick (bs "guest-420")) = Ok (MkUpstreamNick (alternative_nick (bs "guest-420"))).
Proof. split; [vm_compute; reflexivity|]. apply (alternative_nick_fits (bs "guest-420")); vm_compute; reflexivity. Defined.

(** A wait that sees the nickname go free, has its NICK refused and tries again. *)
Definition sample_regain : NickRegain := regain_new (bs "alice") (bs "alice_") true (MkTiming 10 100) 0.
Definition sample_events : list (Z * RegainEvent) :=
  let line s := match parse s with Ok m => from_message m | Err _ => MkOwned [] None [] [] end in
  [ (1, ELine (line (bs ":irc.net 376 alice_ :End of /MOTD")) NetworkNames_default []);
    (2, ELine (line (bs ":irc.net 303 alice_ :")) NetworkNames_default []);
    (3, ELine (line (bs ":irc.net 437 alice_ alice :unavailable")) NetworkNames_default []);
    (5, ETick []); (13, ETick []); (20, ETick []) ].

Lemma regain_paced_witness :
  nick_times sample_regain (regain_run sample_events sample_regain) = [2; 13]
  /\ StronglySorted (fun a b => a + 10 <= b) (nick_times sample_regain (regain_run sample_events sample_regain)).
Proof.
  split; [vm_compute; reflexivity|]. apply (regain_paced (bs "alice") (bs "alice_") true (MkTiming 10 100) 0 sample_events); [done|].
  repeat constructor; done.
Defined.

Lemma wake_exact_witness : wake sample_regain = 10 /\ on_tick 9 [] sample_regain = (sample_regain, Step_default).
Proof. split; [reflexivity|]. apply (wake_exact 9 [] sample_regain); [reflexivity|vm_compute; reflexivity]. Defined.
