(* ===== verification/Backlog.v ===== *)
(** * The bouncer's backlog ([bouncer/mod.rs], [Buffer])

    The ring of recent upstream lines an attaching client is played, its
    cursors, the lines restored from storage, and the session's state at the
    oldest line held, which every line that leaves the ring advances. *)

From stdpp Require Import gmap.
From S2P Require Import Prelude Str Keys Casemap Num Time Wire Message Parse Isupport Sanitize HistoryRequest Names Ip Address BanMask Nicks Channel ChannelState Directories ChannelOps UpstreamIdentity ChannelViews SessionState.

Local Open Scope Z_scope.

(** ** Lines in and out *)

Definition line_time (line : str) : option Z :=
  match parse line with Ok m => (message_tag m (bs "time") ≫= tag_value) ≫= parse_server_time_millis | Err _ => None end.

(** [tag.split('=').next() != Some(key)]. *)
Definition tag_named (key tag : str) : bool := match split "=" tag with name :: _ => str_eqb name key | [] => false end.

Definition without_tag (line key : str) : str :=
  match strip_byte "@" line with
  | None => line
  | Some rest =>
      match split_once " " rest with
      | None => []
      | Some (tags, body) =>
          match List.filter (fun tag => negb (tag_named key tag)) (split ";" tags) with
          | [] => body
          | kept => bs "@" ++ Str.join ";"%byte kept ++ bs " " ++ body
          end
      end
  end.

Definition stamp_time (line time : str) : str :=
  match parse line with
  | Err _ => line
  | Ok m =>
      match (message_tag m (bs "time") ≫= tag_value) ≫= parse_server_time_millis with
      | Some _ => line
      | None =>
          let untimed := without_tag line (bs "time") in
          let stamped := match strip_byte "@" untimed with
                         | Some rest => bs "@time=" ++ time ++ bs ";" ++ rest
                         | None => bs "@time=" ++ time ++ bs " " ++ untimed
                         end in
          if server_frame_fits stamped then stamped else line
      end
  end.

(** [ingest], at [now]. *)
Definition ingest (now : Z) (line : str) : str := stamp_time (upstream_line line) (server_time now).

Definition is_registration_burst_line (line : str) : bool :=
  match parse line with Ok m => existsb (str_eqb (msg_command m)) REGISTRATION_BURST | Err _ => false end.

(** ** Cursors *)

Record ReplayCursor : Type := MkCursor { cursor_epoch : Z; cursor_seq : Z }.

Definition cursor_parse (text : str) : option ReplayCursor :=
  '(epoch, seq) ← split_once ":" text;
  epoch ← parse_uint U64_MAX epoch; seq ← parse_uint U64_MAX seq;
  Some (MkCursor epoch seq).
Definition cursor_display (c : ReplayCursor) : str := dec (cursor_epoch c) ++ bs ":" ++ dec (cursor_seq c).

(** ** The ring *)

Record BufferedLine : Type := MkBuffered { bl_seq : Z; bl_line : str }.

Inductive RingEntry : Type :=
| RingLine (line : BufferedLine)
| RingSession (seq : Z) (snapshot : IrcSessionSnapshot).

Definition entry_seq (e : RingEntry) : Z := match e with RingLine line => bl_seq line | RingSession seq _ => seq end.
Definition entry_line (e : RingEntry) : option BufferedLine := match e with RingLine line => Some line | RingSession _ _ => None end.

Record Replay : Type := MkReplay {
  replay_lines : list BufferedLine;
  boundaries : list (nat * IrcSessionSnapshot);
  replay_epoch : Z;
  replay_position : Z;
  resumed : bool;
}.
Definition cursor_at (r : Replay) (seq : Z) : ReplayCursor := MkCursor (replay_epoch r) seq.
Definition replay_cursor (r : Replay) : ReplayCursor := cursor_at r (replay_position r).

Definition BACKLOG_BYTES_PER_LINE : Z := Z.of_nat MAX_LINE_LEN.

(** [HistoryRetention]: days, zero to keep all. *)
Definition DAY_MS : Z := 24 * 60 * 60 * 1000.
Definition retention_cutoff (days now : Z) : option Z := if days =? 0 then None else Some (saturating_sub now (saturating_mul days DAY_MS)).

Record Buffer : Type := MkBuffer {
  entries : list RingEntry;
  cap : Z;
  byte_cap : Z;
  bytes : Z;
  epoch : Z;
  next_seq : Z;
  retention : Z;
  ring_head : option IrcSessionState;
  buf_names : NetworkNames;
  buf_features : UpstreamFeatures;
}.

Definition ring_len (b : Buffer) : Z := Z.of_nat (length (entries b)).

(** The epoch of the [ordinal]th ring of the process, made at [now]. *)
Definition ring_epoch (now ordinal : Z) : Z := Z.lor (Z.shiftl now 16 mod 2 ^ 64) (Z.land ordinal 65535).

Definition Buffer_new (now ordinal capacity : Z) : Buffer :=
  MkBuffer [] capacity (saturating_mul (Z.max capacity 1) BACKLOG_BYTES_PER_LINE) 0 (ring_epoch now ordinal) (capacity + 1) 0
    (Some following_channels) NetworkNames_default UpstreamFeatures_default.

Definition buffer_adopt (o : Orders) (names : NetworkNames) (features : UpstreamFeatures) (b : Buffer) : Buffer :=
  MkBuffer (entries b) (cap b) (byte_cap b) (bytes b) (epoch b) (next_seq b) (retention b) (adopt o names features <$> ring_head b) names features.

Definition cutoff (now : Z) (b : Buffer) : option Z := retention_cutoff (retention b) now.

Definition keeps (cutoff : option Z) (line : BufferedLine) : bool :=
  match cutoff with
  | None => true
  | Some cutoff => match line_time (bl_line line) with Some time => cutoff <=? time | None => true end
  end.

(** What an entry that leaves the ring makes of the state before it. *)
Definition advance (o : Orders) (names : NetworkNames) (features : UpstreamFeatures) (e : RingEntry) (h : option IrcSessionState)
    : option (option IrcSessionState) :=
  match e with
  | RingLine line => match h with Some s => Some ∘ snd <$> observe o (bl_line line) s | None => Some None end
  | RingSession _ snapshot => Some (Some (state_at snapshot names features))
  end.

Definition entry_bytes (e : RingEntry) : Z := match e with RingLine line => Z.of_nat (length (bl_line line)) | RingSession _ _ => 0 end.

Definition evict_oldest (o : Orders) (b : Buffer) : option Buffer :=
  match entries b with
  | e :: rest =>
      held ← checked_sub (bytes b) (entry_bytes e);
      h ← advance o (buf_names b) (buf_features b) e (ring_head b);
      Some (MkBuffer rest (cap b) (byte_cap b) held (epoch b) (next_seq b) (retention b) h (buf_names b) (buf_features b))
  | [] => Some b
  end.

(** A loop that evicts while [test]: at most what is held. *)
Fixpoint evict_while (fuel : nat) (o : Orders) (test : Buffer -> bool) (b : Buffer) : option Buffer :=
  match fuel with
  | O => Some b
  | S fuel => if test b then b ← evict_oldest o b; evict_while fuel o test b else Some b
  end.
Definition evict_all (o : Orders) (test : Buffer -> bool) (b : Buffer) : option Buffer := evict_while (length (entries b)) o test b.

Definition expired (now : Z) (b : Buffer) : bool :=
  match entries b with RingLine line :: _ => negb (keeps (cutoff now b) line) | _ => false end.
Definition evict_expired (o : Orders) (now : Z) (b : Buffer) : option Buffer := evict_all o (expired now) b.

Definition is_full (b : Buffer) : bool := Z.max (cap b) 1 <=? ring_len b.
Definition overweight (b : Buffer) : bool := (byte_cap b <? bytes b) && (1 <? ring_len b).

Definition append (e : RingEntry) (b : Buffer) : Buffer :=
  MkBuffer (entries b ++ [e]) (cap b) (byte_cap b) (bytes b + entry_bytes e) (epoch b) (next_seq b + 1) (retention b) (ring_head b) (buf_names b) (buf_features b).

Definition push (o : Orders) (now : Z) (line : str) (b : Buffer) : option (Z * Buffer) :=
  b ← evict_expired o now b;
  b ← evict_all o is_full b;
  let seq := next_seq b in
  b ← evict_all o overweight (append (RingLine (MkBuffered seq line)) b);
  Some (seq, b).

Definition push_session (o : Orders) (snapshot : IrcSessionSnapshot) (b : Buffer) : option Buffer :=
  b ← evict_all o is_full b;
  Some (append (RingSession (next_seq b) snapshot) b).

Definition kept_lines (now : Z) (b : Buffer) : list BufferedLine := List.filter (keeps (cutoff now b)) (omap entry_line (entries b)).

Definition position (b : Buffer) : Z := next_seq b - 1.

Definition buffer_snapshot (now : Z) (b : Buffer) : list str := bl_line <$> kept_lines now b.

Fixpoint through_lines (seq : Z) (l : list BufferedLine) : list str :=
  match l with [] => [] | line :: l => if bl_seq line <=? seq then bl_line line :: through_lines seq l else [] end.
Definition lines_through (now : Z) (through : ReplayCursor) (b : Buffer) : option (list str) :=
  if negb (cursor_epoch through =? epoch b) || (next_seq b <=? cursor_seq through) then None
  else Some (through_lines (cursor_seq through) (kept_lines now b)).

Definition honoured (after : option ReplayCursor) (b : Buffer) : bool :=
  match after with
  | Some c => (cursor_epoch c =? epoch b) && (cursor_seq c <? next_seq b)
              && match entries b with oldest :: _ => entry_seq oldest <=? cursor_seq c + 1 | [] => true end
  | None => false
  end.

Definition replay_entry (cutoff : option Z) (acc : list BufferedLine * list (nat * IrcSessionSnapshot)) (e : RingEntry)
    : list BufferedLine * list (nat * IrcSessionSnapshot) :=
  match e with
  | RingLine line => if keeps cutoff line then (acc.1 ++ [line], acc.2) else acc
  | RingSession _ snapshot => (acc.1, acc.2 ++ [(length acc.1, snapshot)])
  end.

Definition replay_after (now : Z) (after : option ReplayCursor) (b : Buffer) : Replay :=
  let from := match after with Some c => if honoured after b then cursor_seq c + 1 else 0 | None => 0 end in
  let '(lines, bounds) := foldl (replay_entry (cutoff now b)) ([], []) (List.filter (fun e => from <=? entry_seq e) (entries b)) in
  MkReplay lines bounds (epoch b) (position b) (honoured after b).

(** ** Lines restored from storage *)

Inductive StoredOwnNick : Type := NotRecorded | NoNick | OwnNick (nick : str).
Record StoredBacklogLine : Type := MkStored { stored_line : str; stored_at : str; own_nick : StoredOwnNick }.

Fixpoint restored_nick (own_nicks : list StoredOwnNick) : option (option str) :=
  match own_nicks with
  | [] => Some None
  | NotRecorded :: _ => None
  | NoNick :: own_nicks => restored_nick own_nicks
  | OwnNick nick :: _ => Some (Some nick)
  end.
Definition restored_head (own_nicks : list StoredOwnNick) (names : NetworkNames) (features : UpstreamFeatures) : option IrcSessionState :=
  (fun nick => MkState nick ∅ (Some ChannelViews_default) features names false) <$> restored_nick own_nicks.

Definition oldest_seq (b : Buffer) : Z := match entries b with oldest :: _ => entry_seq oldest | [] => next_seq b end.

Definition prepend (line : BufferedLine) (b : Buffer) : Buffer :=
  MkBuffer (RingLine line :: entries b) (cap b) (byte_cap b) (bytes b + entry_bytes (RingLine line)) (epoch b) (next_seq b) (retention b) (ring_head b) (buf_names b) (buf_features b).

(** The loop of [preload_front], newest first: the nicks restored, newest
    first, and the ring; [None] where a position underflows. *)
Fixpoint preload_loop (older : list StoredBacklogLine) (restored : list StoredOwnNick) (b : Buffer) : option (list StoredOwnNick * Buffer) :=
  match older with
  | [] => Some (restored, b)
  | stored :: older =>
      seq ← checked_sub (oldest_seq b) 1;
      let line := stamp_time (upstream_line (stored_line stored)) (stored_at stored) in
      if byte_cap b <? bytes b + Z.of_nat (length line) then Some (restored, b)
      else preload_loop older (restored ++ [own_nick stored]) (prepend (MkBuffered seq line) b)
  end.

Definition set_head (h : option IrcSessionState) (b : Buffer) : Buffer :=
  MkBuffer (entries b) (cap b) (byte_cap b) (bytes b) (epoch b) (next_seq b) (retention b) h (buf_names b) (buf_features b).

Definition preload_front (older : list StoredBacklogLine) (b : Buffer) : option Buffer :=
  let older := List.filter (fun stored => negb (is_registration_burst_line (stored_line stored))) older in
  let room := saturating_sub (cap b) (ring_len b) in
  '(restored, b) ← preload_loop (take (Z.to_nat room) (rev older)) [] b;
  Some (match restored with [] => b | _ => set_head (restored_head (rev restored) (buf_names b) (buf_features b)) b end).

(** ** The ring's invariant *)

Definition weight (l : list RingEntry) : Z := foldr (fun e n => entry_bytes e + n) 0 l.
Definition count_lines (l : list RingEntry) : nat := length (omap entry_line l).

(** A line held advertises no PREFIX with more symbols than modes; a snapshot
    held is a session's. *)
Definition entry_ok (e : RingEntry) : Prop :=
  match e with
  | RingLine line => line_ok (bl_line line)
  | RingSession _ snapshot => (length (snap_channels snapshot) <= MAX_TRACKED_CHANNELS)%nat
  end.

Record ring_base (b : Buffer) : Prop := {
  rb_cap : 0 <= cap b;
  rb_seq : forall i e, entries b !! i = Some e -> entry_seq e = next_seq b - ring_len b + Z.of_nat i;
  rb_next : cap b + 1 <= next_seq b;
  rb_bytes : bytes b = weight (entries b);
  rb_head : forall s, ring_head b = Some s -> tracked s;
  rb_lines : Forall entry_ok (entries b);
  rb_features : isupport_ok (isupport (buf_features b));
}.

Record ring_ok (b : Buffer) : Prop := {
  ro_base : ring_base b;
  ro_len : ring_len b <= Z.max (cap b) 1;
  ro_bound : bytes b <= byte_cap b \/ (count_lines (entries b) <= 1)%nat;
}.

(** The state at the oldest entry, advanced past the entries that left. *)
Inductive advances (names : NetworkNames) (features : UpstreamFeatures) : option IrcSessionState -> list RingEntry -> option IrcSessionState -> Prop :=
| advances_nil h : advances names features h [] h
| advances_cons o e h h1 l h2 :
    orders_ok o -> advance o names features e h = Some h1 -> advances names features h1 l h2 -> advances names features h (e :: l) h2.

(** [b'] is [b] with [pushed] entered at its end and [ev] gone from its front. *)
Record moved (b b' : Buffer) (pushed ev : list RingEntry) : Prop := {
  mv_entries : entries b ++ pushed = ev ++ entries b';
  mv_next : next_seq b' = next_seq b + Z.of_nat (length pushed);
  mv_cap : cap b' = cap b;
  mv_byte_cap : byte_cap b' = byte_cap b;
  mv_epoch : epoch b' = epoch b;
}.
Record followed (b b' : Buffer) (ev : list RingEntry) : Prop := {
  fl_names : buf_names b' = buf_names b;
  fl_features : buf_features b' = buf_features b;
  fl_head : advances (buf_names b) (buf_features b) (ring_head b) ev (ring_head b');
}.

Lemma advances_app names features h l h1 l' h2 : advances names features h l h1 -> advances names features h1 l' h2 -> advances names features h (l ++ l') h2.
Proof. induction 1; intros H'; cbn; [done|]. econstructor; eauto. Qed.

Lemma ring_moved_refl b : moved b b [] [].
Proof. split; [by rewrite app_nil_r|cbn; lia|done..]. Qed.

Lemma ring_moved_trans b b1 b2 p1 p2 e1 e2 : moved b b1 p1 e1 -> moved b1 b2 p2 e2 -> moved b b2 (p1 ++ p2) (e1 ++ e2).
Proof.
  intros [A1 A2 A3 A4 A5] [B1 B2 B3 B4 B5]. split; [|rewrite length_app; lia|congruence..].
  by rewrite app_assoc, A1, <- !app_assoc, B1.
Qed.

Lemma followed_refl b : followed b b [].
Proof. split; [done..|constructor]. Qed.

Lemma followed_trans b b1 b2 e1 e2 : followed b b1 e1 -> followed b1 b2 e2 -> followed b b2 (e1 ++ e2).
Proof. intros [A1 A2 A3] [B1 B2 B3]. split; [congruence..|]. rewrite A1, A2 in B3. by eapply advances_app. Qed.

Lemma entry_bytes_nonneg e : 0 <= entry_bytes e.
Proof. destruct e; cbn; lia. Qed.

Lemma weight_nonneg l : 0 <= weight l.
Proof. unfold weight. induction l as [|e l IH]; cbn; [done|]. pose proof (entry_bytes_nonneg e). lia. Qed.

Lemma weight_app l k : weight (l ++ k) = weight l + weight k.
Proof. unfold weight. induction l as [|e l IH]; cbn; [done|]. rewrite IH. lia. Qed.

Lemma count_lines_app l k : count_lines (l ++ k) = (count_lines l + count_lines k)%nat.
Proof. unfold count_lines. rewrite omap_app, length_app. done. Qed.

Lemma count_le l : (count_lines l <= length l)%nat.
Proof. unfold count_lines. induction l as [|e l IH]; cbn; [done|]. destruct (entry_line e); cbn; lia. Qed.

Lemma advance_tracked o names features e h :
  orders_ok o -> entry_ok e -> isupport_ok (isupport features) -> (forall s, h = Some s -> tracked s) ->
  exists h', advance o names features e h = Some h' /\ forall s, h' = Some s -> tracked s.
Proof.
  intros Ho He Hf Hh. destruct e as [line|seq snapshot]; cbn.
  - destruct h as [s|]; [|by exists None].
    destruct (session_op_tracked (SLine o (bl_line line)) s) as (s' & E & Hs'); [by split|by apply Hh|]. cbn in E.
    destruct (observe o (bl_line line) s) as [[r s1]|]; [|done]. cbn in *. injection E as ->. exists (Some s'). split; [done|]. by intros ? [= <-].
  - eexists. split; [done|]. intros s [= <-]. unfold state_at. apply replace_tracked; [|exact He].
    split; cbn; [apply Nat.le_0_l|done|done|]. intros v [= <-]. split; [by split|done].
Qed.

Ltac ring_cbn := cbn [entries cap byte_cap bytes epoch next_seq retention ring_head buf_names buf_features append].

Lemma evict_oldest_ok o b : orders_ok o -> ring_base b ->
  exists b' ev, evict_oldest o b = Some b' /\ ring_base b' /\ moved b b' [] ev /\ followed b b' ev /\ retention b' = retention b /\ length (entries b') = pred (length (entries b)).
Proof.
  intros Ho Hb. pose proof Hb as [H1 H2 H3 H4 H5 H6 H7]. unfold evict_oldest.
  destruct (entries b) as [|e rest] eqn:Ee.
  { exists b, []. rewrite Ee. split_and!; [done|done|apply ring_moved_refl|apply followed_refl|done|done]. }
  change (weight (e :: rest)) with (entry_bytes e + weight rest) in H4. pose proof (entry_bytes_nonneg e). pose proof (weight_nonneg rest). rewrite checked_sub_some by lia. cbn [mbind option_bind].
  apply Forall_cons in H6 as [He Hr]. destruct (advance_tracked o (buf_names b) (buf_features b) e (ring_head b) Ho He H7 H5) as (h & Ea & Hh). rewrite Ea. cbn [mbind option_bind].
  eexists _, [e]. split; [done|]. split; [|split_and!]; ring_cbn; try done.
  - split; ring_cbn; try done; [|lia]. intros i x Hx. rewrite (H2 (S i) x) by done. unfold ring_len. rewrite Ee. cbn [entries length next_seq]. lia.
  - split; cbn; [by rewrite app_nil_r, Ee|lia|done..].
  - split; cbn; [done..|]. econstructor; [done|done|constructor].
Qed.

Lemma evict_while_ok fuel o test b : orders_ok o -> ring_base b ->
  exists b' ev, evict_while fuel o test b = Some b' /\ ring_base b' /\ moved b b' [] ev /\ followed b b' ev /\ retention b' = retention b
    /\ ((length (entries b) <= fuel)%nat -> (forall x, entries x = [] -> test x = false) -> test b' = false).
Proof.
  intros Ho. revert b. induction fuel as [|fuel IH]; intros b Hb; cbn.
  - exists b, []. split_and!; [done|done|apply ring_moved_refl|apply followed_refl|done|]. intros Hl Ht. apply Ht. by destruct (entries b); [|cbn in Hl; lia].
  - destruct (test b) eqn:Et; [|exists b, []; split_and!; [done|done|apply ring_moved_refl|apply followed_refl|done|done]].
    destruct (evict_oldest_ok o b Ho Hb) as (b1 & e1 & -> & Hb1 & M1 & F1 & R1 & L1). cbn.
    destruct (IH b1 Hb1) as (b2 & e2 & -> & Hb2 & M2 & F2 & R2 & T2). exists b2, (e1 ++ e2). split_and!; [done|done|by apply (ring_moved_trans _ _ _ _ _ _ _ M1 M2)|by eapply followed_trans|congruence|].
    intros Hl. apply T2. lia.
Qed.

Lemma evict_all_ok o test b : orders_ok o -> ring_base b -> (forall x, entries x = [] -> test x = false) ->
  exists b' ev, evict_all o test b = Some b' /\ ring_base b' /\ moved b b' [] ev /\ followed b b' ev /\ retention b' = retention b /\ test b' = false.
Proof.
  intros Ho Hb Ht. destruct (evict_while_ok (length (entries b)) o test b Ho Hb) as (b' & ev & E & H1 & H2 & H3 & H4 & H5).
  exists b', ev. split_and!; [done..|]. by apply H5.
Qed.

(** Eviction keeps the bounds. *)
Lemma moved_bounds b b' ev : ring_base b -> ring_base b' -> moved b b' [] ev ->
  ring_len b' <= ring_len b /\ bytes b' <= bytes b /\ (count_lines (entries b') <= count_lines (entries b))%nat.
Proof.
  intros Hb Hb' [E _ _ _ _]. rewrite app_nil_r in E. unfold ring_len. rewrite (rb_bytes _ Hb), (rb_bytes _ Hb'), E, length_app, weight_app, count_lines_app.
  pose proof (weight_nonneg ev). lia.
Qed.

Lemma evict_ring_ok o test b : orders_ok o -> ring_ok b -> (forall x, entries x = [] -> test x = false) ->
  exists b' ev, evict_all o test b = Some b' /\ ring_ok b' /\ moved b b' [] ev /\ followed b b' ev /\ retention b' = retention b /\ test b' = false.
Proof.
  intros Ho [Hb Hl Hw] Ht. destruct (evict_all_ok o test b Ho Hb Ht) as (b' & ev & E & Hb' & M & F & R & T).
  exists b', ev. split_and!; try done. pose proof (moved_bounds _ _ _ Hb Hb' M) as (L1 & L2 & L3). destruct M as [_ _ Hc Hbc _].
  split; [done|rewrite Hc; lia|]. rewrite Hbc. destruct Hw; [left|right]; lia.
Qed.

Lemma append_base e b : ring_base b -> entry_ok e -> entry_seq e = next_seq b -> ring_base (append e b).
Proof.
  intros [H1 H2 H3 H4 H5 H6 H7] He Hs. split; ring_cbn; [done| |lia| |done| |done].
  - intros i x Hx. unfold ring_len in *. cbn [entries append]. rewrite length_app. cbn [length]. apply lookup_app_Some in Hx as [Hx|[Hl Hx]].
    + rewrite (H2 i x Hx). lia.
    + apply list_lookup_singleton_Some in Hx as [Hi <-]. lia.
  - rewrite weight_app, H4. unfold weight at 3. cbn [foldr]. lia.
  - apply Forall_app. split; [done|]. by constructor.
Qed.

Lemma append_moved e b : moved b (append e b) [e] [].
Proof. split; cbn; [done|lia|done..]. Qed.

Lemma append_followed e b : followed b (append e b) [].
Proof. split; [done..|constructor]. Qed.

Lemma expired_nil now x : entries x = [] -> expired now x = false.
Proof. intros E. unfold expired. by rewrite E. Qed.
Lemma is_full_nil x : entries x = [] -> is_full x = false.
Proof. intros E. unfold is_full, ring_len. rewrite E. apply Z.leb_gt. cbn. lia. Qed.
Lemma overweight_nil x : entries x = [] -> overweight x = false.
Proof. intros E. unfold overweight, ring_len. rewrite E. apply andb_false_r. Qed.

(** ** Operations *)

Lemma push_ok o now line b : orders_ok o -> ring_ok b -> entry_ok (RingLine (MkBuffered (next_seq b) line)) ->
  exists b' ev, push o now line b = Some (next_seq b, b') /\ ring_ok b' /\ retention b' = retention b
    /\ moved b b' [RingLine (MkBuffered (next_seq b) line)] ev /\ followed b b' ev.
Proof.
  intros Ho Hb He. unfold push, evict_expired.
  destruct (evict_ring_ok o (expired now) b Ho Hb (expired_nil now)) as (b1 & e1 & -> & Hb1 & M1 & F1 & R1 & _). cbn [mbind option_bind].
  destruct (evict_ring_ok o is_full b1 Ho Hb1 is_full_nil) as (b2 & e2 & -> & [Hb2 _ _] & M2 & F2 & R2 & T2). cbn [mbind option_bind].
  pose proof (ring_moved_trans _ _ _ _ _ _ _ M1 M2) as M12. cbn [app] in M12. assert (Hn : next_seq b2 = next_seq b) by (rewrite (mv_next _ _ _ _ M12); cbn; lia).
  rewrite Hn. set (e := RingLine _) in *. set (b3 := append e b2).
  assert (Hb3 : ring_base b3) by by apply append_base.
  destruct (evict_all_ok o overweight b3 Ho Hb3 overweight_nil) as (b4 & e4 & E4 & Hb4 & M4 & F4 & R4 & T4). rewrite E4. cbn [mbind option_bind].
  exists b4, ((e1 ++ e2) ++ [] ++ e4). split; [done|]. split; [|split_and!].
  - apply Z.leb_gt in T2. pose proof (moved_bounds _ _ _ Hb3 Hb4 M4) as (L1 & L2 & L3). assert (cap b4 = cap b2) by (destruct M4; done). split; [done| |].
    + assert (ring_len b3 = ring_len b2 + 1) by (unfold ring_len; cbn [entries append b3]; rewrite length_app; cbn; lia). lia.
    + unfold overweight in T4. apply andb_false_iff in T4 as [T4|T4]; [left; by apply Z.ltb_ge|right]. apply Z.ltb_ge in T4. unfold ring_len in *.
      pose proof (count_le (entries b4)). lia.
  - cbn in R4. congruence.
  - apply (ring_moved_trans b b2 b4 [] [e] (e1 ++ e2) ([] ++ e4) M12). apply (ring_moved_trans b2 b3 b4 [e] [] [] e4); [apply append_moved|done].
  - apply (followed_trans b b2 b4); [by eapply followed_trans|]. apply (followed_trans b2 b3 b4); [apply append_followed|done].
Qed.

Lemma push_session_ok o snapshot b : orders_ok o -> ring_ok b -> entry_ok (RingSession (next_seq b) snapshot) ->
  exists b' ev, push_session o snapshot b = Some b' /\ ring_ok b' /\ retention b' = retention b
    /\ moved b b' [RingSession (next_seq b) snapshot] ev /\ followed b b' ev.
Proof.
  intros Ho Hb He. unfold push_session.
  destruct (evict_ring_ok o is_full b Ho Hb is_full_nil) as (b2 & e2 & -> & [Hb2 Hl2 Hw2] & M2 & F2 & R2 & T2). cbn [mbind option_bind].
  assert (Hn : next_seq b2 = next_seq b) by (rewrite (mv_next _ _ _ _ M2); cbn; lia). rewrite Hn. set (e := RingSession _ _) in *.
  exists (append e b2), (e2 ++ []). split; [done|]. split; [|split_and!].
  - apply Z.leb_gt in T2. split; [by apply append_base| |].
    + unfold ring_len in *. cbn [entries append cap]. rewrite length_app. cbn [length]. lia.
    + cbn [entries append bytes byte_cap]. rewrite count_lines_app. cbn [entry_bytes e]. change (count_lines [e]) with 0%nat. destruct Hw2; [left|right]; lia.
  - done.
  - apply (ring_moved_trans b b2 _ [] [e]); [done|apply append_moved].
  - apply (followed_trans b b2); [done|apply append_followed].
Qed.

Lemma restored_tracked nicks names features s : isupport_ok (isupport features) -> restored_head nicks names features = Some s -> tracked s.
Proof.
  intros Hf (nick & _ & ->)%fmap_Some. split; cbn; [apply Nat.le_0_l|done|done|]. intros v [= <-]. split; [by split|done].
Qed.

Definition stored_ok (stored : StoredBacklogLine) : Prop := line_ok (stamp_time (upstream_line (stored_line stored)) (stored_at stored)).

Lemma oldest_seq_eq b : ring_base b -> oldest_seq b = next_seq b - ring_len b.
Proof.
  intros Hb. unfold oldest_seq, ring_len. destruct (entries b) as [|e l] eqn:E; [cbn; lia|]. rewrite (rb_seq _ Hb 0%nat e) by by rewrite E.
  unfold ring_len. rewrite E. lia.
Qed.

Lemma preload_loop_ok older restored b :
  ring_ok b -> Forall stored_ok older -> Z.of_nat (length older) <= Z.max 0 (cap b - ring_len b) ->
  exists nicks b', preload_loop older restored b = Some (nicks, b') /\ ring_ok b'
    /\ cap b' = cap b /\ epoch b' = epoch b /\ next_seq b' = next_seq b /\ buf_features b' = buf_features b.
Proof.
  revert restored b. induction older as [|stored older IH]; intros restored b Hb Hs Hl; cbn [preload_loop]; [by exists restored, b|].
  apply Forall_cons in Hs as [Hst Hs]. pose proof Hb as [[H1 H2 H3 H4 H5 H6 H7] Hlen Hw]. cbn [length] in Hl.
  rewrite oldest_seq_eq by apply Hb. rewrite checked_sub_some by lia. cbn [mbind option_bind].
  set (line := stamp_time _ _). destruct (Z.ltb_spec (byte_cap b) (bytes b + Z.of_nat (length line))) as [Hfull|Hroom]; [by exists restored, b|].
  set (b1 := prepend _ b). destruct (IH (restored ++ [own_nick stored]) b1) as (nicks & b' & E & Hb' & A1 & A2 & A3 & A4).
  - assert (Hl1 : ring_len b1 = ring_len b + 1) by (unfold ring_len; cbn; lia). split; [split|change (cap b1) with (cap b); lia|left; exact Hroom]; try done.
    + intros [|i] e He; cbn in He.
      * injection He as <-. change (entry_seq _) with (next_seq b - ring_len b - 1). rewrite Hl1. change (next_seq b1) with (next_seq b). lia.
      * rewrite (H2 i e He), Hl1. change (next_seq b1) with (next_seq b). lia.
    + change (bytes b + Z.of_nat (length line) = Z.of_nat (length line) + weight (entries b)). lia.
    + constructor; [exact Hst|done].
  - done.
  - unfold ring_len in *. cbn [b1 prepend cap entries length]. lia.
  - exists nicks, b'. done.
Qed.

Lemma preload_ok older b : ring_ok b -> Forall stored_ok older ->
  exists b', preload_front older b = Some b' /\ ring_ok b' /\ epoch b' = epoch b /\ next_seq b' = next_seq b.
Proof.
  intros Hb Hs. unfold preload_front. destruct (preload_loop_ok (take (Z.to_nat (saturating_sub (cap b) (ring_len b))) (rev (List.filter (fun stored => negb (is_registration_burst_line (stored_line stored))) older))) [] b)
    as (nicks & b' & -> & Hb' & A1 & A2 & A3 & A4).
  - done.
  - apply Forall_take, Forall_forall. intros x Hx%list_elem_of_In. rewrite <- in_rev in Hx. apply list_elem_of_In, elem_of_Lfilter in Hx as [Hx _]. rewrite Forall_forall in Hs. auto.
  - rewrite length_take. unfold saturating_sub. pose proof (rb_cap _ (ro_base _ Hb)). lia.
  - cbn [mbind option_bind]. eexists. split; [done|]. destruct nicks as [|n nicks]; [done|]. split_and!; [|done..].
    destruct Hb' as [[H1 H2 H3 H4 H5 H6 H7] Hlen Hw]. split; [split|done|done]; try done. intros s. cbn [ring_head set_head]. by apply restored_tracked.
Qed.

(** ** Runs *)

Inductive RingOp : Type :=
| RPush (o : Orders) (now : Z) (line : str)
| RSession (o : Orders) (snapshot : IrcSessionSnapshot)
| RExpire (o : Orders) (now : Z)
| RAdopt (o : Orders) (names : NetworkNames) (features : UpstreamFeatures)
| RRetain (days : Z)
| RPreload (older : list StoredBacklogLine).

Definition set_days (days : Z) (b : Buffer) : Buffer :=
  MkBuffer (entries b) (cap b) (byte_cap b) (bytes b) (epoch b) (next_seq b) days (ring_head b) (buf_names b) (buf_features b).

Definition ring_op (op : RingOp) (b : Buffer) : option Buffer :=
  match op with
  | RPush o now line => snd <$> push o now line b
  | RSession o snapshot => push_session o snapshot b
  | RExpire o now => evict_expired o now b
  | RAdopt o names features => Some (buffer_adopt o names features b)
  | RRetain days => Some (set_days days b)
  | RPreload older => preload_front older b
  end.

Fixpoint ring_run (ops : list RingOp) (b : Buffer) : option Buffer :=
  match ops with [] => Some b | op :: ops => b ← ring_op op b; ring_run ops b end.

Definition ring_op_ok (op : RingOp) : Prop :=
  match op with
  | RPush o _ line => orders_ok o /\ entry_ok (RingLine (MkBuffered 0 line))
  | RSession o snapshot => orders_ok o /\ entry_ok (RingSession 0 snapshot)
  | RExpire o _ => orders_ok o
  | RAdopt o _ features => orders_ok o /\ isupport_ok (isupport features)
  | RRetain _ => True
  | RPreload older => Forall stored_ok older
  end.

(** Nothing is restored once cursors are out. *)
Definition live (op : RingOp) : Prop := match op with RPreload _ => False | _ => True end.
Definition renames_nothing (op : RingOp) : Prop := match op with RAdopt _ _ _ => False | _ => True end.

Definition op_appends (seq : Z) (op : RingOp) : list RingEntry :=
  match op with
  | RPush _ _ line => [RingLine (MkBuffered seq line)]
  | RSession _ snapshot => [RingSession seq snapshot]
  | _ => []
  end.

(** What enters the ring over a run, with the positions it takes. *)
Fixpoint appended (seq : Z) (ops : list RingOp) : list RingEntry :=
  match ops with [] => [] | op :: ops => op_appends seq op ++ appended (seq + Z.of_nat (length (op_appends seq op))) ops end.

Lemma live_op_moves op b : ring_op_ok op -> live op -> ring_ok b ->
  exists b' ev, ring_op op b = Some b' /\ ring_ok b' /\ moved b b' (op_appends (next_seq b) op) ev /\ (renames_nothing op -> followed b b' ev).
Proof.
  intros Hop Hl Hb. destruct op as [o now line|o snapshot|o now|o names features|days|older]; cbn in *.
  - destruct Hop as [Ho He]. destruct (push_ok o now line b Ho Hb He) as (b' & ev & -> & Hb' & _ & M & F). by exists b', ev.
  - destruct Hop as [Ho He]. destruct (push_session_ok o snapshot b Ho Hb He) as (b' & ev & -> & Hb' & _ & M & F). by exists b', ev.
  - destruct (evict_ring_ok o (expired now) b Hop Hb (expired_nil now)) as (b' & ev & E & Hb' & M & F & _). by exists b', ev.
  - destruct Hop as [Ho Hf]. eexists _, []. split; [done|]. split_and!; [|by split; cbn; [rewrite app_nil_r|lia|..]|done].
    destruct Hb as [[H1 H2 H3 H4 H5 H6 H7] Hlen Hw]. split; [split|done|done]; try done.
    intros s (s0 & Es & ->)%fmap_Some. apply adopt_tracked; auto.
  - eexists _, []. split; [done|]. split_and!; [|by split; cbn; [rewrite app_nil_r|lia|..]|by split; [..|constructor]].
    destruct Hb as [[H1 H2 H3 H4 H5 H6 H7] Hlen Hw]. split; [by split|done|done].
  - done.
Qed.

Lemma ring_op_keeps op b : ring_op_ok op -> ring_ok b -> exists b', ring_op op b = Some b' /\ ring_ok b'.
Proof.
  intros Hop Hb. destruct op as [| | | | |older]; [destruct (live_op_moves _ b Hop I Hb) as (b' & ? & ? & ? & _); by exists b'..|].
  destruct (preload_ok older b Hb Hop) as (b' & ? & ? & _). by exists b'.
Qed.

Lemma ring_run_keeps ops b : Forall ring_op_ok ops -> ring_ok b -> exists b', ring_run ops b = Some b' /\ ring_ok b'.
Proof.
  intros Hops. revert b. induction Hops as [|op ops Hop _ IH]; intros b Hb; cbn; [by exists b|].
  destruct (ring_op_keeps op b Hop Hb) as (b' & -> & Hb'). by apply IH.
Qed.

Lemma ring_run_moves ops b : Forall ring_op_ok ops -> Forall live ops -> ring_ok b ->
  exists b' ev, ring_run ops b = Some b' /\ ring_ok b' /\ moved b b' (appended (next_seq b) ops) ev /\ (Forall renames_nothing ops -> followed b b' ev).
Proof.
  intros Hops. revert b. induction Hops as [|op ops Hop _ IH]; intros b Hl Hb; cbn [ring_run appended].
  - exists b, []. split_and!; [done|done|apply ring_moved_refl|intros _; apply followed_refl].
  - apply Forall_cons in Hl as [Hl1 Hl]. destruct (live_op_moves op b Hop Hl1 Hb) as (b1 & e1 & -> & Hb1 & M1 & F1). cbn [mbind option_bind].
    destruct (IH b1 Hl Hb1) as (b2 & e2 & -> & Hb2 & M2 & F2). exists b2, (e1 ++ e2). split_and!; [done|done| |].
    + rewrite (mv_next _ _ _ _ M1) in M2. by apply (ring_moved_trans _ _ _ _ _ _ _ M1 M2).
    + intros [Hn1 Hn]%Forall_cons. eapply followed_trans; eauto.
Qed.

Lemma new_ok now ordinal capacity : 0 <= capacity -> ring_ok (Buffer_new now ordinal capacity).
Proof.
  intros Hc. split; [split|..]; unfold ring_len; cbn; try done; try lia.
  - intros s [= <-]. apply following_tracked.
  - split_and!; [apply Nat.le_0_l|constructor..].
Qed.

(** ** Replays *)

(** What a client reads of a replay: each boundary before the line at its
    index. *)
Fixpoint weave (i : nat) (lines : list BufferedLine) : list (nat * IrcSessionSnapshot) -> list (BufferedLine + IrcSessionSnapshot) :=
  match lines with
  | [] => fun bounds => inr ∘ snd <$> bounds
  | line :: lines =>
      fix go bounds :=
        match bounds with
        | (n, snapshot) :: rest => if (n <=? i)%nat then inr snapshot :: go rest else inl line :: weave (S i) lines bounds
        | [] => inl line :: weave (S i) lines []
        end
  end.

(** The entries history retention keeps, without their positions. *)
Definition visible (cutoff : option Z) (l : list RingEntry) : list (BufferedLine + IrcSessionSnapshot) :=
  omap (fun e => match e with
                 | RingLine line => if keeps cutoff line then Some (inl line) else None
                 | RingSession _ snapshot => Some (inr snapshot)
                 end) l.

Lemma weave_line i lines bounds line :
  Forall (fun b => (b.1 <= i + length lines)%nat) bounds -> weave i (lines ++ [line]) bounds = weave i lines bounds ++ [inl line].
Proof.
  revert i bounds. induction lines as [|l lines IH]; intros i bounds HF; cbn [app weave].
  - induction HF as [|[n s] bounds Hn HF IHb]; [done|]. cbn in Hn. rewrite (proj2 (Nat.leb_le _ _)) by lia. cbn. by f_equal.
  - induction HF as [|[n s] bounds Hn HF IHb]; [cbn; by rewrite IH|]. destruct (n <=? i)%nat; cbn; [by f_equal|]. f_equal. apply IH.
    constructor; cbn in *; [lia|]. eapply Forall_impl; [exact HF|]. cbn. intros. lia.
Qed.

Lemma weave_session i lines bounds n snapshot :
  n = (i + length lines)%nat -> weave i lines (bounds ++ [(n, snapshot)]) = weave i lines bounds ++ [inr snapshot].
Proof.
  revert i bounds. induction lines as [|l lines IH]; intros i bounds Hn; cbn [weave].
  - by rewrite fmap_app.
  - cbn [length] in Hn. induction bounds as [|[k s] bounds IHb]; cbn [app].
    + rewrite (proj2 (Nat.leb_gt _ _)) by lia. f_equal. apply (IH (S i) []). lia.
    + destruct (k <=? i)%nat; [cbn [app]; by f_equal|]. cbn [app]. f_equal. apply (IH (S i) ((k, s) :: bounds)). lia.
Qed.

Lemma replay_weave cutoff l :
  let r := foldl (replay_entry cutoff) ([], []) l in weave 0 r.1 r.2 = visible cutoff l /\ Forall (fun b => (b.1 <= length r.1)%nat) r.2.
Proof.
  cbn zeta. induction l as [|e l [IH1 IH2]] using rev_ind; [by split|]. rewrite foldl_snoc. unfold visible in *. rewrite omap_app, <- IH1.
  destruct (foldl _ _ l) as [lines bounds]. cbn [fst snd] in *. destruct e as [line|seq snapshot]; cbn.
  - destruct (keeps cutoff line); cbn; [|by rewrite app_nil_r]. split; [by apply weave_line|]. eapply Forall_impl; [exact IH2|]. intros x Hx. rewrite length_app. cbn in *. lia.
  - split; [by apply weave_session|]. apply Forall_app. by split; [|constructor].
Qed.

(** Entries in consecutive positions from [s], from [from] on. *)
Lemma filter_from from s l : (forall i e, l !! i = Some e -> entry_seq e = s + Z.of_nat i) ->
  List.filter (fun e => from <=? entry_seq e) l = drop (Z.to_nat (from - s)) l.
Proof.
  revert s. induction l as [|e l IH]; intros s Hs; [by rewrite drop_nil|]. cbn [List.filter]. rewrite (IH (s + 1)).
  2:{ intros i x Hx. rewrite (Hs (S i) x Hx). lia. }
  rewrite (Hs 0%nat e eq_refl). destruct (Z.leb_spec from (s + Z.of_nat 0)).
  - replace (Z.to_nat (from - s)) with 0%nat by lia. by replace (Z.to_nat (from - (s + 1))) with 0%nat by lia.
  - by replace (Z.to_nat (from - s)) with (S (Z.to_nat (from - (s + 1)))) by lia.
Qed.

Lemma ring_seqs b : ring_base b -> forall i e, entries b !! i = Some e -> entry_seq e = next_seq b - ring_len b + Z.of_nat i.
Proof. intros Hb. apply Hb. Qed.

Lemma honoured_moved b b' pushed ev : ring_base b' -> moved b b' pushed ev -> entries b' <> [] ->
  honoured (Some (MkCursor (epoch b) (position b))) b' = (length pushed <=? length (entries b'))%nat.
Proof.
  intros Hb' M Hne. unfold honoured, position. cbn [cursor_epoch cursor_seq]. rewrite (mv_epoch _ _ _ _ M), Z.eqb_refl.
  pose proof (mv_next _ _ _ _ M) as Hn. rewrite (proj2 (Z.ltb_lt _ _)) by lia. destruct (entries b') as [|e l] eqn:E; [done|].
  rewrite (ring_seqs _ Hb' 0%nat e) by by rewrite E. unfold ring_len. rewrite E. cbn [andb].
  destruct (Nat.leb_spec (length pushed) (length (e :: l))); [apply Z.leb_le|apply Z.leb_gt]; lia.
Qed.

Lemma replay_reads now b b' pushed ev :
  ring_ok b' -> moved b b' pushed ev -> entries b' <> [] ->
  let r := replay_after now (Some (MkCursor (epoch b) (position b))) b' in
  (resumed r = true /\ weave 0 (replay_lines r) (boundaries r) = visible (cutoff now b') pushed)
  \/ (resumed r = false /\ exists lost, lost <> [] /\ pushed = lost ++ entries b'
        /\ weave 0 (replay_lines r) (boundaries r) = visible (cutoff now b') (entries b')).
Proof.
  intros Hok M Hne. cbn zeta. pose proof (ro_base _ Hok) as Hb'. pose proof (honoured_moved b b' pushed ev Hb' M Hne) as Hh. unfold replay_after. rewrite Hh.
  pose proof (mv_next _ _ _ _ M) as Hn. pose proof (mv_entries _ _ _ _ M) as Hm.
  assert (Hlen : (length (entries b) + length pushed = length ev + length (entries b'))%nat) by (rewrite <- !length_app; by f_equal).
  destruct (Nat.leb_spec (length pushed) (length (entries b'))) as [Hle|Hgt].
  - left. cbn [cursor_seq]. rewrite (filter_from _ (next_seq b' - ring_len b')) by apply (ring_seqs _ Hb').
    assert (Hd : drop (Z.to_nat (position b + 1 - (next_seq b' - ring_len b'))) (entries b') = pushed).
    { unfold position, ring_len. replace (Z.to_nat _) with (length (entries b') - length pushed)%nat by lia.
      apply (f_equal (drop (length (entries b)))) in Hm. rewrite drop_app_length, drop_app in Hm.
      replace (drop (length (entries b)) ev) with (@nil RingEntry) in Hm by (symmetry; apply drop_ge; lia). cbn [app] in Hm.
      rewrite Hm at 2. f_equal. lia. }
    rewrite Hd. destruct (foldl _ _ pushed) as [lines bounds] eqn:Ef. pose proof (replay_weave (cutoff now b') pushed) as [Hw _]. rewrite Ef in Hw. by split.
  - right. rewrite (filter_from _ (next_seq b' - ring_len b')) by apply (ring_seqs _ Hb').
    replace (Z.to_nat (0 - _)) with 0%nat by (pose proof (rb_next _ Hb'); pose proof (rb_cap _ Hb'); pose proof (ro_len _ Hok); lia). rewrite drop_0.
    destruct (foldl _ _ (entries b')) as [lines bounds] eqn:Ef. pose proof (replay_weave (cutoff now b') (entries b')) as [Hw _]. rewrite Ef in Hw. split; [done|].
    exists (drop (length (entries b)) ev). split_and!; [| |done].
    + intros E. apply (f_equal length) in E. rewrite length_drop in E. cbn in E. lia.
    + apply (f_equal (drop (length (entries b)))) in Hm. rewrite drop_app_length, drop_app in Hm. rewrite Hm. f_equal. replace (length (entries b) - length ev)%nat with 0%nat by lia. done.
Qed.

(** An emptied ring reads as nothing, and as all there was. *)
Lemma replay_emptied now b b' pushed ev :
  moved b b' pushed ev -> entries b' = [] ->
  let r := replay_after now (Some (MkCursor (epoch b) (position b))) b' in resumed r = true /\ weave 0 (replay_lines r) (boundaries r) = [].
Proof.
  intros M He. cbn zeta. unfold replay_after, honoured, position. cbn [cursor_epoch cursor_seq]. rewrite (mv_epoch _ _ _ _ M), Z.eqb_refl, He.
  pose proof (mv_next _ _ _ _ M) as Hn. rewrite (proj2 (Z.ltb_lt _ _)) by lia. by cbn.
Qed.

(** C14.  Let no line kept advertise a PREFIX of more symbols than modes, and
    let no stored backlog be restored once the client's cursor is out. Then
    however lines, sessions, retention and naming rules come, no operation
    fails; the ring holds at most its capacity, in entries and in bytes
    of lines (or one line), and a client that presents the cursor of where it
    stopped to a ring that holds anything is either resumed, and then reads
    exactly what has been retained since, session boundaries in their places
    and nothing twice or missing, or refused, because something since is gone,
    and then reads the whole ring; a ring that everything has left tells it,
    whatever was pushed since, that it was resumed, and gives it nothing;
    and, where the naming rules have not changed since, the state the ring's
    replay starts in is the one it was before, advanced by exactly the entries
    that left, in order. *)
Theorem replay_resumes_exactly made ordinal capacity before ops now :
  0 <= capacity -> Forall ring_op_ok before -> Forall ring_op_ok ops -> Forall live ops ->
  exists b b', ring_run before (Buffer_new made ordinal capacity) = Some b /\ ring_run ops b = Some b'
    /\ ring_len b' <= Z.max (cap b') 1 /\ (weight (entries b') <= byte_cap b' \/ (count_lines (entries b') <= 1)%nat)
    /\ let r := replay_after now (Some (MkCursor (epoch b) (position b))) b' in
       let pushed := appended (next_seq b) ops in
       replay_cursor r = MkCursor (epoch b) (position b')
       /\ match entries b' with
          | [] => resumed r = true /\ weave 0 (replay_lines r) (boundaries r) = []
          | held =>
              (resumed r = true /\ weave 0 (replay_lines r) (boundaries r) = visible (cutoff now b') pushed)
              \/ (resumed r = false /\ exists lost, lost <> [] /\ pushed = lost ++ held
                    /\ weave 0 (replay_lines r) (boundaries r) = visible (cutoff now b') held)
          end
       /\ (Forall renames_nothing ops ->
             exists ev, entries b ++ pushed = ev ++ entries b' /\ advances (buf_names b) (buf_features b) (ring_head b) ev (ring_head b')).
Proof.
  intros Hc Hbefore Hops Hl. destruct (ring_run_keeps before _ Hbefore (new_ok made ordinal capacity Hc)) as (b & E & Hb). exists b.
  destruct (ring_run_moves ops b Hops Hl Hb) as (b' & ev & E' & Hb' & M & F). exists b'. split; [done|]. split; [done|]. split; [apply Hb'|].
  split; [rewrite <- (rb_bytes _ (ro_base _ Hb')); apply Hb'|]. cbn zeta. split; [|split].
  - unfold replay_after. destruct (foldl _ _ _) as [lines bounds]. unfold replay_cursor, cursor_at. cbn. by rewrite (mv_epoch _ _ _ _ M).
  - destruct (entries b') as [|held rest] eqn:Eh; [by eapply replay_emptied|]. rewrite <- Eh. eapply replay_reads; [done|done|]. by rewrite Eh.
  - intros Hn. exists ev. split; [apply M|apply (F Hn)].
Qed.

(** A ring of two, a line restored, then a session and three lines. *)
Definition sample_before : list RingOp :=
  [RPreload [MkStored (bs "@time=2024-01-01T00:00:00.000Z :a!u@h PRIVMSG #c :old") (bs "2024-01-01T00:00:00.000Z") (OwnNick (bs "me"))]].
Definition sample_after : list RingOp :=
  [RSession sample_orders (MkSnapshot (bs "me") []); RPush sample_orders 0 (bs ":me!u@h JOIN #c")].


Lemma replay_resumes_exactly_witness :
  exists b b', ring_run sample_before (Buffer_new 5 0 3) = Some b /\ ring_run sample_after b = Some b'
    /\ let r := replay_after 5 (Some (MkCursor (epoch b) (position b))) b' in
       match entries b' with
       | [] => resumed r = true /\ weave 0 (replay_lines r) (boundaries r) = []
       | held =>
           (resumed r = true /\ weave 0 (replay_lines r) (boundaries r) = visible (cutoff 5 b') (appended (next_seq b) sample_after))
           \/ (resumed r = false /\ exists lost, lost <> [] /\ appended (next_seq b) sample_after = lost ++ held
                 /\ weave 0 (replay_lines r) (boundaries r) = visible (cutoff 5 b') held)
       end.
Proof.
  destruct (replay_resumes_exactly 5 0 3 sample_before sample_after 5) as (b & b' & E & E' & _ & _ & _ & H & _).
  - lia.
  - apply Forall_cons. split; [|apply Forall_nil_2]. apply Forall_cons. split; [|apply Forall_nil_2].
    refine (line_check_ok _ _). vm_compute. reflexivity.
  - apply Forall_cons. split; [split; [exact sample_orders_ok|apply Nat.le_0_l]|]. apply Forall_cons. split; [|apply Forall_nil_2].
    split; [exact sample_orders_ok|]. refine (line_check_ok _ _). vm_compute. reflexivity.
  - repeat (apply Forall_cons; split; [exact I|]). apply Forall_nil_2.
  - exists b, b'. exact (conj E (conj E' H)).
Defined.

(** What the sample's replay reads. *)
Example sample_replay :
  (b ← ring_run sample_before (Buffer_new 5 0 3); b' ← ring_run sample_after b;
   let r := replay_after 5 (Some (MkCursor (epoch b) (position b))) b' in
   Some (resumed r, bl_line <$> replay_lines r, (fun n => n.1) <$> boundaries r))
  = Some (true, [bs ":me!u@h JOIN #c"], [0%nat]).
Proof. vm_compute. reflexivity. Qed.

(** An empty ring honours every cursor it handed out: a line that was pushed
    out by one since expired is lost, and the client is told it was resumed. *)
Definition fresh_line : str := bs "@time=2024-06-01T00:00:00.000Z :a!u@h PRIVMSG #c :lost".
Definition stale_line : str := bs "@time=2020-01-01T00:00:00.000Z :a!u@h PRIVMSG #c :old".
Example emptied_ring_honours_any_cursor :
  let now := default 0 (parse_server_time_millis (bs "2024-06-01T01:00:00.000Z")) in
  let b := set_days 7 (Buffer_new 5 0 1) in
  (b' ← ring_run [RPush sample_orders now fresh_line; RPush sample_orders now stale_line; RExpire sample_orders now] b;
   let r := replay_after now (Some (MkCursor (epoch b) (position b))) b' in
   Some (resumed r, replay_lines r, keeps (cutoff now b') (MkBuffered 0 fresh_line)))
  = Some (true, [], true).
Proof. vm_compute. reflexivity. Qed.

(** A session's boundary at the front holds back the expired lines after it:
    they are not replayed, and the state the replay starts in is before them. *)
Example boundary_holds_expired :
  let now := default 0 (parse_server_time_millis (bs "2024-06-01T01:00:00.000Z")) in
  (b ← ring_run [RSession sample_orders (MkSnapshot (bs "me") []); RPush sample_orders 0 (bs "@time=2020-01-01T00:00:00.000Z :me!u@h JOIN #c");
                 RRetain 7; RExpire sample_orders now] (Buffer_new 5 0 4);
   let r := replay_after now None b in
   Some (length (entries b), replay_lines r, sess_nick <$> ring_head b))
  = Some (2%nat, [], Some None).
Proof. vm_compute. reflexivity. Qed.
