(* ===== verification/Echoes.v ===== *)
(** * Echoes of what attached clients say ([bouncer/irc_driver.rs])

    A message an attached client sends is echoed once to the account's other
    clients: by the upstream, matched to the client that sent it, or made here
    where the upstream does not echo.  Services commands that may carry a
    secret are redacted either way. *)

From stdpp Require Import gmap.
From S2P Require Import Prelude Str Keys Casemap Num Time Wire Message Parse Isupport Sanitize HistoryRequest Names Ip Address BanMask Nicks Channel ChannelState Directories Events ChannelOps UpstreamIdentity ChannelViews SessionState Rejoin.

Local Open Scope nat_scope.

Definition SENSITIVE_SERVICE_COMMAND_REDACTED : str := bs "[sensitive services command redacted]".

(** [matches!(command, "PRIVMSG" | "NOTICE")]. *)
Definition is_text (command : str) : bool := str_eqb command (bs "PRIVMSG") || str_eqb command (bs "NOTICE").
Definition is_tagmsg (command : str) : bool := str_eqb command (bs "TAGMSG").

Definition pong_line (token : str) : str := fitted_line (bs "PONG :") token.

(** ** Echoes made here *)

Definition self_prefix (ident : SelfIdentity) : str := bs ":" ++ self_nick ident ++ bs "!" ++ self_user ident ++ bs "@" ++ self_host ident.

Definition visible_text (target text : str) : str := if sensitive_service_command target text then SENSITIVE_SERVICE_COMMAND_REDACTED else text.

(** The line echoed, without its tags. *)
Definition echo_body (parsed : Message) (to_ : option str) (ident : SelfIdentity) : option str :=
  let command := to_ascii_uppercase <$> msg_command parsed in
  if is_text command then
    match msg_params parsed with
    | [target; text] =>
        let target := default target to_ in
        if is_empty target || is_empty text then None
        else Some (fitted_line (self_prefix ident ++ bs " " ++ command ++ bs " " ++ target ++ bs " :") (visible_text target text))
    | _ => None
    end
  else if is_tagmsg command then
    match msg_params parsed with
    | [target] => let target := default target to_ in if is_empty target then None else Some (self_prefix ident ++ bs " TAGMSG " ++ target)
    | _ => None
    end
  else None.

(** [echo_of], at [now]. *)
Definition echo_of (now : Z) (line : str) (to_ : option str) (ident : SelfIdentity) : option str :=
  match parse line with
  | Err _ => None
  | Ok parsed =>
      body ← echo_body parsed to_ ident;
      let tags := client_tag_string (msg_tags parsed) in
      let all_tags := if is_empty tags then bs "time=" ++ Time.server_time now else bs "time=" ++ Time.server_time now ++ bs ";" ++ tags in
      let echo := bs "@" ++ all_tags ++ bs " " ++ body in
      if server_frame_fits echo then Some echo else None
  end.

Definition self_echoes (now : Z) (line : str) (ident : SelfIdentity) : list str :=
  match parse line with
  | Err _ => []
  | Ok parsed =>
      match msg_params parsed with
      | [] => []
      | targets :: _ => omap (fun target => echo_of now line (Some target) ident) (List.filter (fun target => negb (is_empty target)) (split "," targets))
      end
  end.

Definition self_echo_to (now : Z) (line target : str) (ident : SelfIdentity) : option str := echo_of now line (Some target) ident.

(** ** What identifies an echo *)

Record EchoKey : Type := MkEchoKey { key_command : str; key_target : str; key_text : str }.

#[global] Instance EchoKey_eq_dec : EqDecision EchoKey.
Proof. solve_decision. Defined.

Definition EchoKey_new (command target text : str) (names : NetworkNames) : option EchoKey :=
  if is_empty target then None else Some (MkEchoKey command (names_fold names target) text).

Definition of_client_line (line : str) (names : NetworkNames) : list (EchoKey * str) :=
  match parse line with
  | Err _ => []
  | Ok parsed =>
      let command := to_ascii_uppercase <$> msg_command parsed in
      let keys targets text := omap (fun target => (fun key => (key, target)) <$> EchoKey_new command target text names) (split "," targets) in
      match msg_params parsed with
      | [targets; text] => if is_text command && negb (is_empty text) then keys targets text else []
      | [targets] => if is_tagmsg command then keys targets [] else []
      | _ => []
      end
  end.

Definition source_name (source : str) : str := match split_once "!" source with Some (nick, _) => nick | None => source end.

Definition of_upstream_echo (m : OwnedMessage) (own_nick : str) (names : NetworkNames) : option (EchoKey * nat) :=
  source ← own_source m;
  if negb (names_eq names (source_name source) own_nick) then None
  else
    let command := to_ascii_uppercase <$> own_command m in
    let found target text :=
      key ← EchoKey_new command target text names;
      Some (key, 1 + length source + 1 + length command + 1 + length target + 2) in
    match own_params m with
    | [target; text] => if is_text command && negb (is_empty text) then found target text else None
    | [target] => if is_tagmsg command then found target [] else None
    | _ => None
    end.

Definition is_truncation_of (echo sent : EchoKey) (head : nat) : bool :=
  str_eqb (key_command echo) (key_command sent) && str_eqb (key_target echo) (key_target sent)
  && negb (is_empty (key_text echo)) && (length (key_text echo) <? length (key_text sent))
  && (if strip_prefix (key_text echo) (key_text sent) is Some _ then true else false)
  && (MAX_LINE_LEN <? head + length (key_text sent) + 2).

(** ** Echoes awaited *)








Definition redact_sensitive_echo (raw : str) (m : OwnedMessage) : str :=
  match own_params m with
  | [target; text] =>
      let command := to_ascii_uppercase <$> own_command m in
      if negb (is_text command) || negb (sensitive_service_command target text) then raw
      else
        let tags := match (rest ← strip_byte "@" raw; split_once " " rest) with Some (tags, _) => bs "@" ++ tags ++ bs " " | None => [] end in
        tags ++ bs ":" ++ default [] (own_source m) ++ bs " " ++ command ++ bs " " ++ target ++ bs " :" ++ SENSITIVE_SERVICE_COMMAND_REDACTED
  | _ => raw
  end.



(** ** An echo made here reads as the echo of its line *)

Definition self_source (ident : SelfIdentity) : Source := MkSource (self_nick ident) (Some (self_user ident)) (Some (self_host ident)).

Definition echo_tags (now : Z) (m : Message) : list Tag := MkTag (bs "time") (Some (Time.server_time now)) :: relayed_tags (msg_tags m).

Lemma time_not_client : valid_client_tag_key (bs "time") = false.
Proof. reflexivity. Qed.

Lemma relayed_wf line m : parse line = Ok m -> forallb wf_tag (relayed_tags (msg_tags m)) = true.
Proof.
  intros Hp. apply parse_sound_lemma in Hp. unfold wf_message in Hp. rewrite !andb_true_iff in Hp. destruct Hp as [[[Ht _] _] _].
  apply forallb_true_iff, Forall_forall. intros t Hin. apply (relayed_tags_spec (msg_tags m)) in Hin as [Hin _].
  apply forallb_true_iff in Ht. rewrite Forall_forall in Ht. by apply Ht.
Qed.

Lemma echo_tags_wf now line m : parse line = Ok m -> forallb wf_tag (echo_tags now m) = true.
Proof.
  intros Hp. cbn [echo_tags forallb]. rewrite (relayed_wf _ _ Hp). unfold wf_tag. cbn [tag_key tag_value]. by rewrite server_time_no_nul.
Qed.

Lemma echo_tags_render now m body :
  bs "@" ++ (if is_empty (client_tag_string (msg_tags m)) then bs "time=" ++ Time.server_time now
             else bs "time=" ++ Time.server_time now ++ bs ";" ++ client_tag_string (msg_tags m)) ++ bs " " ++ body
  = render_tags (echo_tags now m) ++ body.
Proof.
  rewrite client_tag_string_eq. unfold echo_tags, render_tags. cbn [fmap list_fmap].
  assert (Ht : render_tag (MkTag (bs "time") (Some (Time.server_time now))) = bs "time=" ++ Time.server_time now).
  { unfold render_tag. cbn [tag_value tag_key]. by rewrite server_time_plain. }
  rewrite Ht. change (bs "@") with ["@"%byte]. change (bs " ") with [" "%byte]. change (bs ";") with [";"%byte]. rewrite (app_assoc (bs "time=") (Time.server_time now)). generalize (bs "time=" ++ Time.server_time now). intros time.
  destruct (relayed_tags (msg_tags m)) as [|t tags] eqn:E; cbn [fmap list_fmap map join is_empty app].
  - by rewrite <- app_assoc.
  - change (Str.join ";"%byte (time :: render_tag t :: (render_tag <$> tags))) with (time ++ ";"%byte :: Str.join ";"%byte (render_tag t :: (render_tag <$> tags))).
    replace (is_empty _) with false; [rewrite <- !app_assoc; done|].
    assert (Hne : tag_key t <> []).
    { pose proof (relayed_tags_spec (msg_tags m)) as (_ & _ & Hv). destruct (Hv t) as [_ Hk]; [rewrite E; by left|]. intros Hk'. by rewrite Hk' in Hk. }
    assert (Hr : render_tag t <> []) by (unfold render_tag; destruct (tag_value t), (tag_key t); done).
    destruct (render_tag t) as [|c r]; [done|]. by destruct (render_tag <$> tags).
Qed.

(** The message an echo is. *)
Definition echo_message (now : Z) (m : Message) (ident : SelfIdentity) (target text : str) : Message :=
  let command := to_ascii_uppercase <$> msg_command m in
  if is_text command then MkMessage (echo_tags now m) (Some (self_source ident)) command [target; text] true
  else MkMessage (echo_tags now m) (Some (self_source ident)) command [target] false.

Lemma self_prefix_render ident rest : self_prefix ident ++ bs " " ++ rest = render_source (Some (self_source ident)) ++ rest.
Proof.
  unfold self_prefix, render_source, self_source. cbn [src_name src_user src_host].
  change (bs ":") with [":"%byte]. change (bs "!") with ["!"%byte]. change (bs "@") with ["@"%byte]. change (bs " ") with [" "%byte]. cbn [app].
  by repeat (rewrite <- !app_assoc; cbn [app]).
Qed.

Definition echo_head (m : Message) (ident : SelfIdentity) (target : str) : str :=
  self_prefix ident ++ bs " " ++ (to_ascii_uppercase <$> msg_command m) ++ bs " " ++ target ++ bs " :".

(** The text an echo carries: nothing for a TAGMSG. *)
Definition echo_text (m : Message) (ident : SelfIdentity) (target : str) : str :=
  match msg_params m with [_; text] => fit_trailing (echo_head m ident target) (visible_text target text) | _ => [] end.

Lemma is_text_cases command : is_text command = true -> command = bs "PRIVMSG" \/ command = bs "NOTICE".
Proof. unfold is_text. intros [->%str_eqb_eq| ->%str_eqb_eq]%orb_true_iff; auto. Qed.

Lemma is_text_fixed command : is_text command = true \/ is_tagmsg command = true -> valid_command command = true /\ (to_ascii_uppercase <$> command) = command.
Proof. intros [[-> | ->]%is_text_cases| ->%str_eqb_eq]; by split. Qed.

Lemma trailing_legal line m t text : parse line = Ok m -> msg_params m = [t; text] -> lacks [] text = true.
Proof.
  intros Hp%parse_sound_lemma Ep. unfold wf_message in Hp. rewrite !andb_true_iff, Ep in Hp. destruct Hp as [_ Hp]. cbn in Hp.
  apply andb_true_iff in Hp as [_ Hp]. destruct (msg_has_trailing m); [done|].
  apply stands_alone_lacks in Hp as (_ & _ & Hp). rewrite lacks_spec in *. eapply Forall_impl; [exact Hp|]. intros b [_ Hb]. split; [apply not_elem_of_nil|done].
Qed.

Lemma lacks_truncate bad s n : lacks bad s = true -> lacks bad (truncate_on_char_boundary s n) = true.
Proof.
  rewrite !lacks_spec. intros HF. apply Forall_forall. intros x Hx%truncate_elem. rewrite Forall_forall in HF. auto.
Qed.

Lemma echo_parses now line m ident target echo :
  parse line = Ok m -> wf_source (self_source ident) = true -> stands_alone target = true -> echo_of now line (Some target) ident = Some echo ->
  parse echo = Ok (echo_message now m ident target (echo_text m ident target)).
Proof.
  intros Hp Hs Ht He. unfold echo_of in He. rewrite Hp in He. unfold echo_body in He.
  set (command := to_ascii_uppercase <$> msg_command m) in *. assert (Hte : is_empty target = false) by (unfold stands_alone in Ht; by destruct target).
  unfold echo_message, echo_text, echo_head. fold command. destruct (is_text command) eqn:Etext.
  - destruct (msg_params m) as [|t [|text [|]]] eqn:Ep; try done. change (default t (Some target)) with target in He. rewrite Hte in He. destruct (is_empty text); [done|]. cbn [orb mbind option_bind] in He.
    destruct (server_frame_fits _); [|done]. apply (inj Some) in He. subst echo. destruct (is_text_fixed command) as [Hc _]; [by left|].
    rewrite echo_tags_render. set (text' := fit_trailing _ _). set (x := MkMessage _ _ _ _ _).
    replace (render_tags (echo_tags now m) ++ _) with (render_message x).
    + apply parse_render_lemma. unfold wf_message. cbn [x msg_tags msg_source msg_command msg_params msg_has_trailing wf_params].
      rewrite (echo_tags_wf now _ _ Hp), Hs, Hc, Ht. cbn [andb]. apply lacks_truncate. unfold visible_text.
      destruct (sensitive_service_command _ _); [done|]. by eapply trailing_legal.
    + unfold render_message. cbn [x msg_tags msg_source msg_command msg_params msg_has_trailing render_params]. f_equal. unfold fitted_line. fold text'.
      rewrite <- !app_assoc, self_prefix_render. change (bs " ") with [" "%byte]. change (bs " :") with [" "%byte; ":"%byte]. done.
  - destruct (is_tagmsg command) eqn:Etag; [|done]. destruct (msg_params m) as [|t [|]] eqn:Ep; try done. change (default t (Some target)) with target in He. rewrite Hte in He. cbn [mbind option_bind] in He.
    destruct (server_frame_fits _); [|done]. apply (inj Some) in He. subst echo. destruct (is_text_fixed command) as [Hc _]; [by right|].
    rewrite echo_tags_render. set (x := MkMessage _ _ _ _ _). replace (render_tags (echo_tags now m) ++ _) with (render_message x).
    + apply parse_render_lemma. unfold wf_message. cbn [x msg_tags msg_source msg_command msg_params msg_has_trailing wf_params].
      by rewrite (echo_tags_wf now _ _ Hp), Hs, Hc, Ht.
    + unfold render_message. cbn [x msg_tags msg_source msg_command msg_params msg_has_trailing render_params]. f_equal. apply str_eqb_eq in Etag. rewrite Etag.
      change (bs " TAGMSG ") with (bs " " ++ bs "TAGMSG" ++ bs " "). rewrite <- !app_assoc, self_prefix_render. done.
Qed.

Lemma find_tag_cons t tags key : find_tag (t :: tags) key = match find_tag tags key with Some x => Some x | None => if str_eqb (tag_key t) key then Some t else None end.
Proof.
  unfold find_tag. cbn [rev]. induction (rev tags) as [|x l IH]; cbn; [done|]. by destruct (str_eqb (tag_key x) key).
Qed.

Lemma echo_tags_time now m : (0 <= now < YEAR_10000_MS)%Z ->
  (find_tag (echo_tags now m) (bs "time") ≫= tag_value) ≫= parse_server_time_millis = Some now.
Proof.
  intros Hn. unfold echo_tags. rewrite find_tag_cons. destruct (relayed_tags_spec (msg_tags m)) as (_ & -> & _). rewrite time_not_client. cbn [tag_key]. rewrite str_eqb_refl.
  cbn [mbind option_bind tag_value]. by apply server_time_roundtrip_lemma.
Qed.

Lemma echo_tags_client now m key : valid_client_tag_key key = true -> find_tag (echo_tags now m) key = message_tag m key.
Proof.
  intros Hk. unfold echo_tags. rewrite find_tag_cons. destruct (relayed_tags_spec (msg_tags m)) as (_ & -> & _). rewrite Hk. unfold message_tag.
  destruct (find_tag (msg_tags m) key); [done|]. cbn [tag_key]. destruct (str_eqb (bs "time") key) eqn:E; [|done]. apply str_eqb_eq in E. by rewrite <- E in Hk.
Qed.

Definition self_shown (ident : SelfIdentity) : str := self_nick ident ++ bs "!" ++ self_user ident ++ bs "@" ++ self_host ident.

Lemma self_shown_name ident : wf_source (self_source ident) = true -> source_name (self_shown ident) = self_nick ident.
Proof.
  intros Hs. unfold wf_source, self_source in Hs. cbn [src_name src_user src_host] in Hs. rewrite !andb_true_iff in Hs. destruct Hs as [[[_ Hn] _] _].
  unfold source_name, self_shown. change (bs "!" ++ ?x) with ("!"%byte :: x). rewrite split_once_app; [done|]. eapply lacks_not_in; [exact Hn|]. by left.
Qed.

Lemma client_key line m names key target :
  parse line = Ok m -> (key, target) ∈ of_client_line line names ->
  let command := to_ascii_uppercase <$> msg_command m in
  key_command key = command /\ key_target key = names_fold names target /\ target <> []
  /\ ((is_text command = true /\ key_text key <> [] /\ exists t, msg_params m = [t; key_text key])
      \/ (is_text command = false /\ is_tagmsg command = true /\ key_text key = [] /\ exists t, msg_params m = [t])).
Proof.
  intros Hp Hin. unfold of_client_line in Hin. rewrite Hp in Hin. cbn zeta. set (command := to_ascii_uppercase <$> msg_command m) in *.
  assert (Hkeys : forall targets text, (key, target) ∈ omap (fun target => (fun key => (key, target)) <$> EchoKey_new command target text names) (split "," targets) ->
            target <> [] /\ key = MkEchoKey command (names_fold names target) text).
  { intros targets text (x & _ & E)%list_elem_of_omap. unfold EchoKey_new in E. destruct x as [|c x]; [done|]. cbn in E. injection E as <- <-. done. }
  destruct (msg_params m) as [|t [|text [|]]] eqn:Ep; try by apply elem_of_nil in Hin.
  - destruct (is_tagmsg command) eqn:Et; [|by apply elem_of_nil in Hin]. apply Hkeys in Hin as [Hne ->]. cbn. split_and!; [done..|]. right.
    apply str_eqb_eq in Et. rewrite Et. split_and!; [done..|]. by eexists.
  - destruct (is_text command) eqn:Et; [|by apply elem_of_nil in Hin]. destruct text as [|c text]; [by apply elem_of_nil in Hin|]. cbn [is_empty negb andb] in Hin.
    apply Hkeys in Hin as [Hne ->]. cbn. split_and!; [done..|]. left. split_and!; [done..|]. by eexists.
Qed.

Lemma fit_truncation head text :
  utf8_valid text = true -> text <> [] -> length head <= 506 ->
  fit_trailing head text = text
  \/ (fit_trailing head text <> [] /\ length (fit_trailing head text) < length text /\ (exists rest, text = fit_trailing head text ++ rest)
      /\ MAX_LINE_LEN < length head + length text + 2).
Proof.
  intros Hv Hne Hh. unfold fit_trailing. destruct (decide (length text <= 510 - length head)) as [Hl|Hl]; [left; by apply truncate_short|right].
  pose proof (truncate_near text (510 - length head) Hv ltac:(lia)) as Hnear. pose proof (truncate_le text (510 - length head)) as Hle. split_and!.
  - intros E. rewrite E in Hnear. cbn [length] in Hnear. lia.
  - lia.
  - apply truncate_prefix.
  - unfold MAX_LINE_LEN. lia.
Qed.

Lemma echo_head_length m ident target :
  length (echo_head m ident target) = 1 + length (self_shown ident) + 1 + length (to_ascii_uppercase <$> msg_command m) + 1 + length target + 2.
Proof.
  unfold echo_head, self_prefix, self_shown. rewrite !length_app. change (length (bs ":")) with 1. change (length (bs " ")) with 1. change (length (bs " :")) with 2.
  change (length (bs "!")) with 1. change (length (bs "@")) with 1. lia.
Qed.

(**  The echo made here of a client's message, for a target it names,
    parses as a message of ours, carrying its time and every client-only tag
    the line had, and is recognised as the echo of that line by the same test
    an upstream's echo is: its command and target are the line's, and its text
    the line's, cut only where the line with our prefix would not fit. *)
Theorem echo_recognised now line m ident names key target echo :
  parse line = Ok m -> Forall (fun p => utf8_valid p = true) (msg_params m) -> (0 <= now < YEAR_10000_MS)%Z ->
  wf_source (self_source ident) = true -> (key, target) ∈ of_client_line line names -> stands_alone target = true ->
  sensitive_service_command target (key_text key) = false -> length (echo_head m ident target) <= 506 ->
  echo_of now line (Some target) ident = Some echo ->
  exists m', parse echo = Ok m'
    /\ (message_tag m' (bs "time") ≫= tag_value) ≫= parse_server_time_millis = Some now
    /\ (forall tag, valid_client_tag_key tag = true -> message_tag m' tag = message_tag m tag)
    /\ exists k h, of_upstream_echo (from_message m') (self_nick ident) names = Some (k, h)
         /\ (k = key \/ is_truncation_of k key h = true).
Proof.
  intros Hp Hu Hn Hs Hin Ht Hsens Hhead He. eexists. split; [by eapply echo_parses|].
  assert (Htags : forall text, msg_tags (echo_message now m ident target text) = echo_tags now m) by (intros; unfold echo_message; by destruct (is_text _)).
  unfold message_tag at 1 2. rewrite Htags. split; [by apply echo_tags_time|]. split; [intros tag; by apply echo_tags_client|].
  destruct (client_key line m names key target Hp Hin) as (Hc & Htg & Hne & Hkind).
  assert (Hsrc : own_source (from_message (echo_message now m ident target (echo_text m ident target))) = Some (self_shown ident)).
  { unfold echo_message. by destruct (is_text _). }
  unfold of_upstream_echo. rewrite Hsrc. cbn [mbind option_bind]. rewrite self_shown_name by done. rewrite (proj2 (names_eq_iff names _ _) eq_refl). cbn [negb].
  assert (Hempty : forall c text, EchoKey_new c target text names = Some (MkEchoKey c (names_fold names target) text)) by (intros; unfold EchoKey_new; by destruct target).
  unfold echo_message, echo_text. destruct Hkind as [(Htext & Hkt & t & Ep)|(Hnt & Htag & Hkt & t & Ep)].
  - rewrite Htext, Ep. cbn [from_message own_command own_params msg_command msg_params]. destruct (is_text_fixed _ (or_introl Htext)) as [_ Hup]. rewrite !Hup, Htext.
    rewrite Ep in Hu. apply Forall_cons in Hu as [_ [Hu _]%Forall_cons]. unfold visible_text. rewrite Hsens.
    destruct (fit_truncation (echo_head m ident target) (key_text key) Hu Hkt Hhead) as [->|(F1 & F2 & (rest & F3) & F4)].
    + destruct (key_text key) eqn:Ek; [done|]. cbn [is_empty negb andb]. rewrite Hempty. cbn [mbind option_bind]. eexists _, _. split; [done|]. left. destruct key; cbn in *. by subst.
    + set (text' := fit_trailing _ _) in *. replace (is_empty text') with false by by destruct text'. cbn [negb andb]. rewrite Hempty. cbn [mbind option_bind]. eexists _, _. split; [done|]. right.
      unfold is_truncation_of. cbn [key_command key_target key_text]. rewrite Hc, Htg, !str_eqb_refl. replace (is_empty text') with false by by destruct text'.
      rewrite (proj2 (Nat.ltb_lt _ _) F2), (proj2 (strip_prefix_Some _ _ _) F3). cbn [andb negb]. apply Nat.ltb_lt. rewrite echo_head_length in F4. lia.
  - rewrite Hnt. cbn [from_message own_command own_params msg_command msg_params]. destruct (is_text_fixed _ (or_intror Htag)) as [_ Hup]. rewrite !Hup, Htag.
    rewrite Hempty. cbn [mbind option_bind]. eexists _, _. split; [done|]. left. destruct key; cbn in *. by subst.
Qed.

(** A line of two targets, one tag kept and one that is not. *)
Definition sample_ident : SelfIdentity := MkSelf (bs "me") (bs "~u") (bs "irc.net").
Definition sample_sent : str := bs "@+k=1;account=x PRIVMSG #room,bob :hello there".

Lemma echo_recognised_witness :
  exists echo m', echo_of 1000 sample_sent (Some (bs "bob")) sample_ident = Some echo /\ parse echo = Ok m'
    /\ exists k h, of_upstream_echo (from_message m') (bs "me") NetworkNames_default = Some (k, h)
         /\ (k = MkEchoKey (bs "PRIVMSG") (bs "bob") (bs "hello there") \/ is_truncation_of k (MkEchoKey (bs "PRIVMSG") (bs "bob") (bs "hello there")) h = true).
Proof.
  destruct (parse sample_sent) as [m|] eqn:Hp; [|discriminate]. destruct (echo_of 1000 sample_sent (Some (bs "bob")) sample_ident) as [echo|] eqn:He; [|discriminate].
  destruct (echo_recognised 1000 sample_sent m sample_ident NetworkNames_default (MkEchoKey (bs "PRIVMSG") (bs "bob") (bs "hello there")) (bs "bob") echo) as (m' & Hm & _ & _ & Hk).
  - exact Hp.
  - vm_compute in Hp. injection Hp as <-. repeat (apply Forall_cons; split; [vm_compute; reflexivity|]). apply Forall_nil_2.
  - split; [lia|reflexivity].
  - vm_compute. reflexivity.
  - assert (E : of_client_line sample_sent NetworkNames_default
                = [(MkEchoKey (bs "PRIVMSG") (bs "#room") (bs "hello there"), bs "#room"); (MkEchoKey (bs "PRIVMSG") (bs "bob") (bs "hello there"), bs "bob")]) by (vm_compute; reflexivity).
    rewrite E. right. left.
  - vm_compute. reflexivity.
  - vm_compute. reflexivity.
  - vm_compute in Hp. injection Hp as <-. apply Nat.leb_le. vm_compute. reflexivity.
  - exact He.
  - exists echo, m'. exact (conj eq_refl (conj Hm Hk)).
Defined.

(** A target of a list is not checked to be a middle: the echo of a message to
    one that begins with a colon names another. *)
Example colon_target_echoed_as_another :
  let echoes := self_echoes 1000 (bs "PRIVMSG a,:b :hi") sample_ident in
  (fun e => match parse e with Ok m => msg_params m | Err _ => [] end) <$> echoes = [[bs "a"; bs "hi"]; [bs "b :hi"]].
Proof. vm_compute. reflexivity. Qed.

(** ** Secrets *)

Lemma sensitive_text target text : sensitive_service_command target text = true -> text <> [].
Proof. intros H ->. unfold sensitive_service_command in H. by destruct (negb _). Qed.

(** The tags a line begins with. *)
Definition tag_section (raw : str) : option str := fst <$> (rest ← strip_byte "@" raw; split_once " " rest).

Lemma redact_eq raw u target text : own_params u = [target; text] -> is_text (to_ascii_uppercase <$> own_command u) = true -> sensitive_service_command target text = true ->
  redact_sensitive_echo raw u
  = match tag_section raw with Some tags => bs "@" ++ tags ++ bs " " | None => [] end
    ++ bs ":" ++ default [] (own_source u) ++ bs " " ++ (to_ascii_uppercase <$> own_command u) ++ bs " " ++ target ++ bs " :" ++ SENSITIVE_SERVICE_COMMAND_REDACTED.
Proof.
  intros Hp Ht Hs. unfold redact_sensitive_echo, tag_section. rewrite Hp. cbn zeta. rewrite Ht, Hs. cbn [negb orb]. by destruct (rest ← strip_byte "@" raw; split_once " " rest) as [[tags body]|].
Qed.

(** C16.  What a client tells a service that may carry a secret leaves no trace
    in its echo: two such lines that differ only in what they say are echoed
    alike, whether the echo is made here or is the upstream's. *)
Theorem secret_never_echoed now ident line1 line2 m1 m2 targets text1 text2 :
  parse line1 = Ok m1 -> parse line2 = Ok m2 -> msg_tags m1 = msg_tags m2 -> msg_command m1 = msg_command m2 ->
  msg_params m1 = [targets; text1] -> msg_params m2 = [targets; text2] ->
  (forall target, target ∈ split "," targets -> sensitive_service_command target text1 = true /\ sensitive_service_command target text2 = true) ->
  self_echoes now line1 ident = self_echoes now line2 ident
  /\ forall target raw1 raw2 u1 u2,
       target ∈ split "," targets -> own_params u1 = [target; text1] -> own_params u2 = [target; text2] ->
       own_source u1 = own_source u2 -> own_command u1 = own_command u2 -> is_text (to_ascii_uppercase <$> own_command u1) = true ->
       tag_section raw1 = tag_section raw2 -> redact_sensitive_echo raw1 u1 = redact_sensitive_echo raw2 u2.
Proof.
  intros P1 P2 Ht Hc E1 E2 Hs. split.
  - unfold self_echoes. rewrite P1, P2, E1, E2. apply list_omap_ext. apply Forall2_same_length_lookup_2; [done|]. intros i x y Hx Hy. rewrite Hx in Hy. injection Hy as <-.
    assert (Hin : x ∈ split "," targets) by (apply (proj1 (elem_of_Lfilter (fun t => negb (is_empty t)) _ x)); by eapply list_elem_of_lookup_2).
    destruct (Hs x Hin) as [S1 S2]. unfold echo_of. rewrite P1, P2, Ht. unfold echo_body. rewrite E1, E2, Hc. change (default targets (Some x)) with x. unfold visible_text. rewrite S1, S2.
    destruct text1 as [|c1 text1]; [by apply sensitive_text in S1|]. destruct text2 as [|c2 text2]; [by apply sensitive_text in S2|]. done.
  - intros target raw1 raw2 u1 u2 Hin U1 U2 Hsrc Hcmd Htext Hraw. destruct (Hs target Hin) as [S1 S2].
    rewrite (redact_eq raw1 u1 target text1), (redact_eq raw2 u2 target text2) by (try done; by rewrite <- Hcmd). by rewrite Hraw, Hsrc, Hcmd.
Qed.

Lemma secret_never_echoed_witness :
  self_echoes 1000 (bs "PRIVMSG NickServ :IDENTIFY hunter2") sample_ident = self_echoes 1000 (bs "PRIVMSG NickServ :IDENTIFY swordfish") sample_ident.
Proof.
  destruct (parse (bs "PRIVMSG NickServ :IDENTIFY hunter2")) as [m1|] eqn:E1; [|discriminate].
  destruct (parse (bs "PRIVMSG NickServ :IDENTIFY swordfish")) as [m2|] eqn:E2; [|discriminate].
  pose proof E1 as V1. pose proof E2 as V2. vm_compute in V1. injection V1 as V1. vm_compute in V2. injection V2 as V2.
  apply (fun H => proj1 (secret_never_echoed 1000 sample_ident _ _ m1 m2 (bs "NickServ") (bs "IDENTIFY hunter2") (bs "IDENTIFY swordfish") E1 E2
    ltac:(rewrite <- V1, <- V2; reflexivity) ltac:(rewrite <- V1, <- V2; reflexivity) ltac:(rewrite <- V1; reflexivity) ltac:(rewrite <- V2; reflexivity) H)).
  intros target Ht. assert (target = bs "NickServ") as -> by (apply list_elem_of_In in Ht as [Ht|Ht]; [by symmetry|destruct Ht]). split; vm_compute; reflexivity.
Defined.

(** ** One echo for each delivery *)

















