(* ===== verification/Runner.v ===== *)
(** * A network's status and its reconnects ([bouncer/mod.rs])

    What the bouncer records of a driver's connection, the status it tells its
    clients, and the runner that redials an upstream: the transient schedule,
    the slow one for refusals, and the park.  Durations are in nanoseconds,
    times in milliseconds; the floating-point share of a delay is computed. *)

From stdpp Require Import gmap.
From Stdlib Require Import SpecFloat.
From S2P Require Import Prelude Str Num Time Names Rejoin NickRegain.

Local Open Scope Z_scope.

(** ** Failures and lifecycles *)

Inductive NetworkFailure : Type :=
| FConnectionTimedOut | FConnectionFailed | FSecureConnectionFailed | FRegistrationTimedOut | FRegistrationFailed | FRegistrationRejected
| FInvalidNickname | FInvalidUsername | FNicknameInUse | FNicknameRegainRefused | FServerPasswordRejected | FServerPasswordRequired
| FNetworkBanned | FAuthenticationRejected | FSaslUnavailable | FSaslFailed | FAutojoinFailed | FConnectionLost | FKeepaliveTimedOut
| FRenamedByUpstream | FChannelLimitExceeded | FUpstreamWriteFailed | FUpstreamRequestFailed | FUpstreamProtocolFailed | FChannelMappingFailed
| FChannelJoinRefused | FRoomEncrypted | FGatewayConfigurationRefused | FBacklogStorageFailed | FBacklogStorageLagged | FCommandQueueFull
| FDriverStopped.

#[global] Instance NetworkFailure_eq_dec : EqDecision NetworkFailure.
Proof. solve_decision. Defined.

Definition code (f : NetworkFailure) : str :=
  match f with
  | FConnectionTimedOut => bs "connection_timed_out"
  | FConnectionFailed => bs "connection_failed"
  | FSecureConnectionFailed => bs "secure_connection_failed"
  | FRegistrationTimedOut => bs "registration_timed_out"
  | FRegistrationFailed => bs "registration_failed"
  | FRegistrationRejected => bs "registration_rejected"
  | FInvalidNickname => bs "invalid_nickname"
  | FInvalidUsername => bs "invalid_username"
  | FNicknameInUse => bs "nickname_in_use"
  | FNicknameRegainRefused => bs "nickname_regain_refused"
  | FServerPasswordRejected => bs "server_password_rejected"
  | FServerPasswordRequired => bs "server_password_required"
  | FNetworkBanned => bs "network_banned"
  | FAuthenticationRejected => bs "authentication_rejected"
  | FSaslUnavailable => bs "sasl_unavailable"
  | FSaslFailed => bs "sasl_failed"
  | FAutojoinFailed => bs "autojoin_failed"
  | FConnectionLost => bs "connection_lost"
  | FKeepaliveTimedOut => bs "keepalive_timed_out"
  | FRenamedByUpstream => bs "renamed_by_upstream"
  | FChannelLimitExceeded => bs "channel_limit_exceeded"
  | FUpstreamWriteFailed => bs "upstream_write_failed"
  | FUpstreamRequestFailed => bs "upstream_request_failed"
  | FUpstreamProtocolFailed => bs "upstream_protocol_failed"
  | FChannelMappingFailed => bs "channel_mapping_failed"
  | FChannelJoinRefused => bs "channel_join_refused"
  | FRoomEncrypted => bs "room_encrypted"
  | FGatewayConfigurationRefused => bs "gateway_configuration_refused"
  | FBacklogStorageFailed => bs "backlog_storage_failed"
  | FBacklogStorageLagged => bs "backlog_storage_lagged"
  | FCommandQueueFull => bs "command_queue_full"
  | FDriverStopped => bs "driver_stopped"
  end.

Definition summary (f : NetworkFailure) : str :=
  match f with
  | FConnectionTimedOut => bs "The upstream connection timed out."
  | FConnectionFailed => bs "The upstream address could not be reached."
  | FSecureConnectionFailed => bs "The secure connection failed; check DNS, port, and TLS identity."
  | FRegistrationTimedOut => bs "The upstream did not finish IRC registration in time."
  | FRegistrationFailed => bs "The upstream closed or rejected IRC registration."
  | FRegistrationRejected => bs "The upstream rejected IRC registration; check the nickname and network policy."
  | FInvalidNickname => bs "The upstream rejected the configured nickname."
  | FInvalidUsername => bs "The upstream rejected the IRC username."
  | FNicknameInUse => bs "The configured nickname is already in use."
  | FNicknameRegainRefused => bs "The configured nickname belongs to another account; the network will not hand it back."
  | FServerPasswordRejected => bs "The network rejected the configured server password."
  | FServerPasswordRequired => bs "The network requires a server password, which this network configuration does not supply."
  | FNetworkBanned => bs "The upstream network banned this connection."
  | FAuthenticationRejected => bs "The upstream rejected the configured credentials."
  | FSaslUnavailable => bs "The upstream does not offer the SASL authentication this network is configured for."
  | FSaslFailed => bs "SASL authentication ended without a verdict on the credentials."
  | FAutojoinFailed => bs "A configured JOIN could not be sent during startup."
  | FConnectionLost => bs "The established upstream connection was lost."
  | FKeepaliveTimedOut => bs "The upstream stopped responding to keepalive checks."
  | FRenamedByUpstream => bs "The upstream renamed this session to a nickname the owner did not choose."
  | FChannelLimitExceeded => bs "The upstream confirmed more than 512 channels; the session was ended."
  | FUpstreamWriteFailed => bs "A message could not be sent to the upstream."
  | FUpstreamRequestFailed => bs "An upstream API request failed."
  | FUpstreamProtocolFailed => bs "The upstream returned an invalid or unsupported response."
  | FChannelMappingFailed => bs "A configured bridged channel could not be mapped safely."
  | FChannelJoinRefused => bs "The upstream refused to let this network join a configured channel."
  | FRoomEncrypted => bs "A configured room is end-to-end encrypted, which the bridge cannot read."
  | FGatewayConfigurationRefused => bs "The chat gateway refused this bot's configuration; no retry can fix it."
  | FBacklogStorageFailed => bs "The detached backlog could not be stored."
  | FBacklogStorageLagged => bs "The detached backlog writer fell behind and missed messages."
  | FCommandQueueFull => bs "The upstream command queue is full."
  | FDriverStopped => bs "The network driver is no longer accepting commands."
  end.
Definition NETWORK_FAILURE_HISTORY_LIMIT : nat := 8.

Inductive NetworkLifecycle : Type :=
| LcConnecting | LcConnected | LcRegainingNickname | LcReconnecting | LcAuthenticationFailed | LcRegistrationFailed | LcOwnerSuspended | LcOwnerDeleted.

#[global] Instance NetworkLifecycle_eq_dec : EqDecision NetworkLifecycle.
Proof. solve_decision. Defined.

Definition lifecycle_str (l : NetworkLifecycle) : str :=
  match l with
  | LcConnecting => bs "connecting"
  | LcConnected => bs "connected"
  | LcRegainingNickname => bs "regaining_nickname"
  | LcReconnecting => bs "reconnecting"
  | LcAuthenticationFailed => bs "authentication_failed"
  | LcRegistrationFailed => bs "registration_failed"
  | LcOwnerSuspended => bs "owner_suspended"
  | LcOwnerDeleted => bs "owner_deleted"
  end.

Inductive OwnerHold : Type := Suspended | Deleted.
Definition hold_lifecycle (h : OwnerHold) : NetworkLifecycle := match h with Suspended => LcOwnerSuspended | Deleted => LcOwnerDeleted end.

Inductive DriverConnectionStatus : Type :=
| StConnected
| StRegainingNickname
| StReconnecting (failure : NetworkFailure)
| StAuthenticationFailed
| StRegistrationFailed (failure : NetworkFailure).

Definition status_lifecycle (s : DriverConnectionStatus) : NetworkLifecycle :=
  match s with
  | StConnected => LcConnected
  | StRegainingNickname => LcRegainingNickname
  | StReconnecting _ => LcReconnecting
  | StAuthenticationFailed => LcAuthenticationFailed
  | StRegistrationFailed _ => LcRegistrationFailed
  end.

Definition status_failure (s : DriverConnectionStatus) : option NetworkFailure :=
  match s with
  | StConnected => None
  | StRegainingNickname => Some FNicknameInUse
  | StReconnecting failure | StRegistrationFailed failure => Some failure
  | StAuthenticationFailed => Some FAuthenticationRejected
  end.

Definition named_failure (f : NetworkFailure) : str := summary f ++ bs " (" ++ code f ++ bs ")".

Definition status_notice (s : DriverConnectionStatus) : str :=
  match s with
  | StConnected => bs ":*bnc* NOTICE * :upstream connected"
  | StRegainingNickname => bs ":*bnc* NOTICE * :upstream regaining the configured nickname: " ++ named_failure FNicknameInUse
  | StReconnecting failure => bs ":*bnc* NOTICE * :upstream reconnecting: " ++ named_failure failure
  | StAuthenticationFailed => bs ":*bnc* NOTICE * :upstream authentication failed: " ++ named_failure FAuthenticationRejected
  | StRegistrationFailed failure => bs ":*bnc* NOTICE * :upstream registration failed: " ++ named_failure failure
  end.

Definition failure_notice (f : NetworkFailure) : str := bs ":*bnc* NOTICE * :component error: " ++ named_failure f.

Definition lifecycle_notice (state : str) (failure : NetworkFailure) (diagnostic : option str) : str :=
  bnc_notice (bs "*") (bs "component " ++ state ++ bs ": " ++ named_failure failure ++ match diagnostic with Some value => bs "; upstream: " ++ value | None => [] end).

(** [accept_status_revision]: whether it is accepted, and the last seen. *)
Definition accept_status_revision (last_seen candidate : Z) : bool * Z := if candidate <=? last_seen then (false, last_seen) else (true, candidate).

(** ** What is recorded of a connection *)

Record FailureRecord : Type := MkFailure { failed_at : Z; failed_as : NetworkFailure }.

Inductive TerminalNetworkLifecycle : Type := TlAuthenticationFailed | TlRegistrationFailed.
Definition terminal_lifecycle (t : TerminalNetworkLifecycle) : NetworkLifecycle :=
  match t with TlAuthenticationFailed => LcAuthenticationFailed | TlRegistrationFailed => LcRegistrationFailed end.

Inductive FailureDisposition : Type :=
| DpRetry (next_attempt_in : option Z)
| DpRegainingNickname
| DpTerminal (lifecycle : TerminalNetworkLifecycle).

Inductive NetworkRuntimePhase : Type :=
| PhConnecting
| PhReconnecting (next_retry_at : option Z)
| PhConnected (connected_at : Z)
| PhRegainingNickname
| PhTerminal (lifecycle : TerminalNetworkLifecycle)
| PhHeld (hold : OwnerHold).

Definition phase_lifecycle (p : NetworkRuntimePhase) : NetworkLifecycle :=
  match p with
  | PhConnecting => LcConnecting
  | PhReconnecting _ => LcReconnecting
  | PhConnected _ => LcConnected
  | PhRegainingNickname => LcRegainingNickname
  | PhTerminal lifecycle => terminal_lifecycle lifecycle
  | PhHeld hold => hold_lifecycle hold
  end.
Definition phase_next_retry_at (p : NetworkRuntimePhase) : option Z := match p with PhReconnecting next_retry_at => next_retry_at | _ => None end.
Definition phase_connected_at (p : NetworkRuntimePhase) : option Z := match p with PhConnected connected_at => Some connected_at | _ => None end.

Record NetworkRuntimeState : Type := MkRuntime {
  rt_phase : NetworkRuntimePhase;
  status_revision : Z;
  recent_failures : list FailureRecord;
  state_changed_at : Z;
  attempt_started : Z;
  connect_latency_ms : option Z;
  connection_attempts : Z;
  errors : Z;
  last_error : option FailureRecord;
  last_error_diagnostic : option str;
}.

(** A reading of the clocks: the wall's milliseconds, the monotonic
    nanoseconds. *)
Record Instant : Type := MkInstant { wall : Z; monotonic : Z }.

Definition runtime_new (t : Instant) : NetworkRuntimeState := MkRuntime PhConnecting 0 [] (wall t) (monotonic t) None 0 0 None None.

Definition NANOS_PER_MILLI : Z := 1000000.

Definition runtime_begin_attempt (t : Instant) (s : NetworkRuntimeState) : NetworkRuntimeState :=
  MkRuntime (if connection_attempts s =? 0 then PhConnecting else PhReconnecting None) (status_revision s) (recent_failures s) (wall t) (monotonic t)
    (connect_latency_ms s) (saturating_add (connection_attempts s) 1) (errors s) (last_error s) (last_error_diagnostic s).

Definition is_connected (s : NetworkRuntimeState) : bool := match rt_phase s with PhConnected _ => true | _ => false end.

(** [None] where the revisions are exhausted. *)
Definition runtime_hold (t : Instant) (hold : OwnerHold) (s : NetworkRuntimeState) : option NetworkRuntimeState :=
  revision ← checked_add_u64 (status_revision s) 1;
  Some (MkRuntime (PhHeld hold) revision (recent_failures s) (wall t) (attempt_started s) (connect_latency_ms s) (connection_attempts s) (errors s) (last_error s) (last_error_diagnostic s)).

Definition runtime_connected (t : Instant) (s : NetworkRuntimeState) : option NetworkRuntimeState :=
  revision ← checked_add_u64 (status_revision s) 1;
  Some (MkRuntime (PhConnected (wall t)) revision (recent_failures s) (wall t) (attempt_started s)
          (Some (Z.min U64_MAX (saturating_sub (monotonic t) (attempt_started s) / NANOS_PER_MILLI)))
          (if connection_attempts s =? 0 then 1 else connection_attempts s) (errors s) (last_error s) (last_error_diagnostic s)).

(** The while loop keeps the newest. *)
Definition push_failure (record : FailureRecord) (l : list FailureRecord) : list FailureRecord :=
  drop (length l + 1 - NETWORK_FAILURE_HISTORY_LIMIT) (l ++ [record]).

Definition set_error (now : Z) (failure : NetworkFailure) (diagnostic : option str) (s : NetworkRuntimeState) : NetworkRuntimeState :=
  let record := MkFailure now failure in
  MkRuntime (rt_phase s) (status_revision s) (push_failure record (recent_failures s)) (state_changed_at s) (attempt_started s) (connect_latency_ms s)
    (connection_attempts s) (saturating_add (errors s) 1) (Some record) diagnostic.

Definition disposed (now : Z) (d : FailureDisposition) : NetworkRuntimePhase :=
  match d with
  | DpRetry next_attempt_in => PhReconnecting ((fun delay => saturating_add now (delay / NANOS_PER_MILLI)) <$> next_attempt_in)
  | DpRegainingNickname => PhRegainingNickname
  | DpTerminal lifecycle => PhTerminal lifecycle
  end.

Definition runtime_failed (t : Instant) (d : FailureDisposition) (failure : NetworkFailure) (diagnostic : option str) (s : NetworkRuntimeState) : option NetworkRuntimeState :=
  let s := set_error (wall t) failure diagnostic
             (MkRuntime (disposed (wall t) d) (status_revision s) (recent_failures s) (wall t) (attempt_started s) (connect_latency_ms s) (connection_attempts s) (errors s)
                (last_error s) (last_error_diagnostic s)) in
  revision ← checked_add_u64 (status_revision s) 1;
  Some (MkRuntime (rt_phase s) revision (recent_failures s) (state_changed_at s) (attempt_started s) (connect_latency_ms s) (connection_attempts s) (errors s) (last_error s)
          (last_error_diagnostic s)).

Definition operational_error (t : Instant) (failure : NetworkFailure) (diagnostic : option str) (s : NetworkRuntimeState) : NetworkRuntimeState :=
  set_error (wall t) failure diagnostic s.

(** What an attaching client is told first. *)
Definition attach_status_notice (s : NetworkRuntimeState) : str :=
  match phase_lifecycle (rt_phase s), last_error s with
  | LcConnected, _ => status_notice StConnected
  | lifecycle, Some record => lifecycle_notice (lifecycle_str lifecycle) (failed_as record) (last_error_diagnostic s)
  | lifecycle, None => bnc_notice (bs "*") (bs "upstream " ++ lifecycle_str lifecycle)
  end.

(** ** Connection events *)

Record ConfigurationRefusal : Type := MkConfigurationRefusal { refused_failure : NetworkFailure; refused_diagnostic : str }.
Definition ConfigurationRefusal_new (failure : NetworkFailure) (diagnostic : str) : ConfigurationRefusal := MkConfigurationRefusal failure (bounded_diagnostic diagnostic).

Definition NicknameRegain_new (registered_as configured : str) : str := bounded_diagnostic (bs "connected as " ++ registered_as ++ bs ", regaining " ++ configured).
Definition LinkClosed_new (reason : str) : str := bounded_diagnostic reason.

(** A rejection of credentials is its diagnostic. *)
Inductive ConnectionEvent : Type :=
| CeConnected
| CeRegainingNickname (regain : str)
| CeReconnecting (failure : NetworkFailure)
| CeRegistrationRetrying (rejection : RegistrationRejection)
| CeAuthenticationFailed (rejection : option str)
| CeRegistrationFailed (rejection : RegistrationRejection)
| CeConfigurationRetrying (refusal : ConfigurationRefusal)
| CeConfigurationFailed (refusal : ConfigurationRefusal).

Definition registration_failure (r : RegistrationRefusal) : NetworkFailure :=
  match r with
  | InvalidNickname | WelcomedAsAnotherNickname => FInvalidNickname
  | InvalidUsername => FInvalidUsername
  | NicknameInUse => FNicknameInUse
  | NicknameRegainRefused => FNicknameRegainRefused
  | ServerPasswordRejected => FServerPasswordRejected
  | ServerPasswordRequired => FServerPasswordRequired
  | NetworkBanned => FNetworkBanned
  | NotRegistered => FRegistrationRejected
  | SaslUnavailable => FSaslUnavailable
  | SaslAborted | SaslFailed => FSaslFailed
  end.

(** Which states the backlog has recorded. *)
Record BufferedStatus : Type := MkBufferedStatus { recorded_lifecycle : option NetworkLifecycle; recorded_failures : list (option NetworkFailure) }.
Definition BufferedStatus_default : BufferedStatus := MkBufferedStatus None [].

Definition record_status (status : DriverConnectionStatus) (b : BufferedStatus) : bool * BufferedStatus :=
  let lifecycle := status_lifecycle status in
  let failure := status_failure status in
  if negb (bool_decide (recorded_lifecycle b = Some lifecycle)) then (true, MkBufferedStatus (Some lifecycle) [failure])
  else if bool_decide (failure ∈ recorded_failures b) then (false, b)
  else (true, MkBufferedStatus (recorded_lifecycle b) (recorded_failures b ++ [failure])).

(** What [publish] makes of a failure event: [None] for [Connected]. *)
Definition event_failure (event : ConnectionEvent) (next_attempt_in : option Z) (upstream_reason : option str)
    : option (DriverConnectionStatus * FailureDisposition * NetworkFailure * option str) :=
  match event with
  | CeConnected => None
  | CeRegainingNickname regain => Some (StRegainingNickname, DpRegainingNickname, FNicknameInUse, Some regain)
  | CeReconnecting failure => Some (StReconnecting failure, DpRetry next_attempt_in, failure, upstream_reason)
  | CeRegistrationRetrying rejection =>
      let failure := registration_failure (refusal rejection) in Some (StReconnecting failure, DpRetry next_attempt_in, failure, Some (diagnostic rejection))
  | CeConfigurationRetrying refusal => Some (StReconnecting (refused_failure refusal), DpRetry next_attempt_in, refused_failure refusal, Some (refused_diagnostic refusal))
  | CeConfigurationFailed refusal =>
      Some (StRegistrationFailed (refused_failure refusal), DpTerminal TlRegistrationFailed, refused_failure refusal, Some (refused_diagnostic refusal))
  | CeAuthenticationFailed rejection => Some (StAuthenticationFailed, DpTerminal TlAuthenticationFailed, FAuthenticationRejected, rejection)
  | CeRegistrationFailed rejection =>
      let failure := registration_failure (refusal rejection) in Some (StRegistrationFailed failure, DpTerminal TlRegistrationFailed, failure, Some (diagnostic rejection))
  end.

(** What is published: the status and its revision, then the notice, into the
    backlog or to those attached alone. *)
Record Published : Type := MkPublished { pub_status : DriverConnectionStatus; pub_revision : Z; pub_notice : str; pub_retained : bool }.

Record NetworkStatus : Type := MkStatus { ns_runtime : NetworkRuntimeState; ns_label : str; ns_buffered : BufferedStatus }.

Definition publish (t : Instant) (event : ConnectionEvent) (next_attempt_in : option Z) (upstream_reason : option str) (n : NetworkStatus) : option (Published * NetworkStatus) :=
  '(status, notice, rt) ←
    match event_failure event next_attempt_in upstream_reason with
    | None => rt ← runtime_connected t (ns_runtime n); Some (StConnected, bs ":*bnc* NOTICE * :component connected: " ++ ns_label n, rt)
    | Some (status, disposition, failure, diagnostic) =>
        rt ← runtime_failed t disposition failure diagnostic (ns_runtime n);
        Some (status, lifecycle_notice (lifecycle_str (status_lifecycle status)) failure diagnostic, rt)
    end;
  let '(transition, buffered) := record_status status (ns_buffered n) in
  Some (MkPublished status (status_revision rt) notice transition, MkStatus rt (ns_label n) buffered).

Definition emit (t : Instant) (event : ConnectionEvent) (n : NetworkStatus) : option (Published * NetworkStatus) := publish t event None None n.

(** ** Delays *)

Definition NANOS_PER_SEC : Z := 1000000000.
Definition millis (n : Z) : Z := n * NANOS_PER_MILLI.
Definition secs (n : Z) : Z := n * NANOS_PER_SEC.

(** [f64]: 53 bits of precision, exponents up to 1024. *)
Definition f64_of (z : Z) : spec_float := binary_normalize 53 1024 z 0 false.
Definition as_secs_f64 (d : Z) : spec_float := SFadd 53 1024 (f64_of (d / NANOS_PER_SEC)) (SFdiv 53 1024 (f64_of (d mod NANOS_PER_SEC)) (f64_of NANOS_PER_SEC)).

(** [n / d] to the nearest integer, ties to even. *)
Definition round_even (n d : Z) : Z :=
  let q := n / d in let r := n mod d in if 2 * r <? d then q else if d <? 2 * r then q + 1 else if Z.even q then q else q + 1.

(** [None] for a negative, infinite or undefined duration: a panic. *)
Definition from_secs_f64 (x : spec_float) : option Z :=
  match x with
  | S754_zero _ => Some 0
  | S754_finite false m e => Some (if 0 <=? e then Zpos m * 2 ^ e * NANOS_PER_SEC else round_even (Zpos m * NANOS_PER_SEC) (2 ^ (- e)))
  | _ => None
  end.
Definition mul_f64 (d : Z) (x : spec_float) : option Z := from_secs_f64 (SFmul 53 1024 x (as_secs_f64 d)).

Record Backoff : Type := MkBackoff { current : Z; jitter_permille : Z }.

Definition JITTER_PERMILLE_SPAN : Z := 250.
Definition FIRST_DIAL_STAGGER : Z := secs 5.
Definition HELD_FOR : Z := secs 10.
Definition FIRST_DELAY : Z := millis 200.
Definition LAST_DELAY : Z := secs 30.

Definition spread (seed : Z) : Z := Z.shiftr ((seed * 0x9E3779B97F4A7C15) mod 2 ^ 64) 32.
Definition Backoff_new (seed : Z) : Backoff := MkBackoff FIRST_DELAY (spread seed mod (JITTER_PERMILLE_SPAN + 1)).
Definition jitter (base : Z) (b : Backoff) : option Z := mul_f64 base (SFdiv 53 1024 (f64_of (jitter_permille b)) (f64_of 1000)).
Definition first_dial_stagger (seed : Z) : Z := millis (spread seed mod (FIRST_DIAL_STAGGER / NANOS_PER_MILLI)).
Definition address_rotation (seed attempt : Z) : Z := (spread seed + attempt) mod 2 ^ 64.
Definition rotate_addresses {A} (addresses : list A) (rotation : Z) : list A :=
  match addresses with
  | [] => []
  | _ => let n := Z.to_nat (rotation mod Z.of_nat (length addresses)) in drop n addresses ++ take n addresses
  end.

Definition jittered (base : Z) (b : Backoff) : option Z := j ← jitter base b; Some (base + j).
Definition next_delay (session_held : bool) (b : Backoff) : option Z := jittered (if session_held then FIRST_DELAY else current b) b.

(** [wait]: how long it sleeps, and the schedule after it. *)
Definition wait (session_held : bool) (b : Backoff) : option (Z * Backoff) :=
  let b := if session_held then MkBackoff FIRST_DELAY (jitter_permille b) else b in
  slept ← jittered (current b) b;
  Some (slept, MkBackoff (Z.min (current b * 2) LAST_DELAY) (jitter_permille b)).

Definition session_held (connected : bool) (elapsed : Z) : bool := connected && (HELD_FOR <=? elapsed).

Definition MAX_CONSECUTIVE_REGISTRATION_REJECTIONS : Z := 5.
Definition REJECTION_RETRY_FLOOR : Z := secs 30.
Definition RECONNECT_REQUEST_PAUSE : Z := secs 1.

(** [floor] is far below what saturates a duration. *)
Definition rejection_delay (floor consecutive : Z) (b : Backoff) : option Z :=
  let doublings := Z.min (saturating_sub consecutive 1) (MAX_CONSECUTIVE_REGISTRATION_REJECTIONS - 2) in
  jittered (floor * Z.shiftl 1 doublings) b.

(** ** Refusals *)

Inductive RefusalRetry : Type := UntilItClears | ScheduleThenPark | ParkNow.

#[global] Instance RefusalRetry_eq_dec : EqDecision RefusalRetry.
Proof. solve_decision. Defined.

Definition registration_retry_policy (r : RegistrationRefusal) : RefusalRetry :=
  match r with
  | NotRegistered | NetworkBanned | SaslUnavailable | SaslAborted => UntilItClears
  | NicknameInUse | InvalidNickname | InvalidUsername | ServerPasswordRejected | ServerPasswordRequired | SaslFailed => ScheduleThenPark
  | WelcomedAsAnotherNickname | NicknameRegainRefused => ParkNow
  end.

Definition configuration_retry_policy (r : ConfigurationRefusal) : RefusalRetry :=
  match refused_failure r with FGatewayConfigurationRefused | FRoomEncrypted => ParkNow | _ => ScheduleThenPark end.

Inductive Refusal : Type :=
| RfRegistration (rejection : RegistrationRejection)
| RfConfiguration (refusal : ConfigurationRefusal).

Inductive RefusalKind : Type :=
| KindRegistration (refusal : RegistrationRefusal)
| KindConfiguration (failure : NetworkFailure).

#[global] Instance RegistrationRefusal_eq_dec : EqDecision RegistrationRefusal.
Proof. solve_decision. Defined.
#[global] Instance RefusalKind_eq_dec : EqDecision RefusalKind.
Proof. solve_decision. Defined.

Definition kind (r : Refusal) : RefusalKind :=
  match r with RfRegistration rejection => KindRegistration (refusal rejection) | RfConfiguration refusal => KindConfiguration (refused_failure refusal) end.
Definition retry (r : Refusal) : RefusalRetry :=
  match r with RfRegistration rejection => registration_retry_policy (refusal rejection) | RfConfiguration refusal => configuration_retry_policy refusal end.
Definition retrying (r : Refusal) : ConnectionEvent :=
  match r with RfRegistration rejection => CeRegistrationRetrying rejection | RfConfiguration refusal => CeConfigurationRetrying refusal end.
Definition parked (r : Refusal) : ConnectionEvent :=
  match r with RfRegistration rejection => CeRegistrationFailed rejection | RfConfiguration refusal => CeConfigurationFailed refusal end.

(** ** The runner *)

Inductive SessionOutcome : Type :=
| SoStopped
| SoDropped (failure : NetworkFailure)
| SoClosedByUpstream (closed : str)
| SoAuthRejected (rejection : option str)
| SoRegistrationRejected (rejection : RegistrationRejection)
| SoConfigurationRejected (refusal : ConfigurationRefusal)
| SoReconnectRequested
| SoDroppedFor (failure : NetworkFailure) (at_least : Z).

(** What the runner tells: statuses, and the line of a park. *)
Inductive RunnerSays : Type :=
| SaysStatus (published : Published)
| SaysLine (line : str).

Definition PARKED_LINE : str :=
  bs ":*bnc* NOTICE * :upstream rejected this network's credentials or registration; not reconnecting until this network is reconfigured".

Record Runner : Type := MkRunner { backoff : Backoff; consecutive_rejections : Z; last_refusal : option RefusalKind; network : NetworkStatus }.

(** One turn of the loop as the world makes it: when it began, what the
    session emitted and when, how it ended and how long it took, when that
    was, and whether the network was stopped in the wait that follows. *)
Record Turn : Type := MkTurn {
  tn_began : Instant;
  tn_emitted : list (Instant * ConnectionEvent);
  tn_outcome : SessionOutcome;
  tn_elapsed : Z;
  tn_ended : Instant;
  tn_stopped : bool;
}.

Inductive Next : Type :=
| Redial (delay : Z)
| Ended.

Definition park (t : Instant) (event : ConnectionEvent) (n : NetworkStatus) : option (list RunnerSays * NetworkStatus) :=
  '(p, n) ← emit t event n; Some ([SaysStatus p; SaysLine PARKED_LINE], n).

Definition wait_for_reconnect (t : Instant) (event : ConnectionEvent) (reason : option str) (delay : Z) (stopped : bool) (n : NetworkStatus)
    : option (list RunnerSays * Next * NetworkStatus) :=
  '(p, n) ← publish t event (Some delay) reason n; Some ([SaysStatus p], if stopped then Ended else Redial delay, n).

Definition U32_MAX : Z := 2 ^ 32 - 1.

Definition retry_refusal (floor : Z) (tn : Turn) (r : Refusal) (s : Runner) : option (list RunnerSays * Next * Runner) :=
  let before := if bool_decide (last_refusal s = Some (kind r)) then consecutive_rejections s else 0 in
  let consecutive := Z.min U32_MAX (before + 1) in
  let parks := match retry r with ParkNow => true | ScheduleThenPark => MAX_CONSECUTIVE_REGISTRATION_REJECTIONS <=? consecutive | UntilItClears => false end in
  let after n := MkRunner (backoff s) consecutive (Some (kind r)) n in
  if parks then '(says, n) ← park (tn_ended tn) (parked r) (network s); Some (says, Ended, after n)
  else
    delay ← rejection_delay floor consecutive (backoff s);
    '(says, next, n) ← wait_for_reconnect (tn_ended tn) (retrying r) None delay (tn_stopped tn) (network s);
    Some (says, next, after n).

Fixpoint emit_all (events : list (Instant * ConnectionEvent)) (n : NetworkStatus) : option (list RunnerSays * NetworkStatus) :=
  match events with
  | [] => Some ([], n)
  | (t, event) :: events => '(p, n) ← emit t event n; '(says, n) ← emit_all events n; Some (SaysStatus p :: says, n)
  end.

(** A session that dropped: redialled on the transient schedule. *)
Definition redial_dropped (tn : Turn) (failure : NetworkFailure) (reason : option str) (at_least : Z) (s : Runner) : option (list RunnerSays * Next * Runner) :=
  let connected := is_connected (ns_runtime (network s)) in
  let s := if connected then MkRunner (backoff s) 0 None (network s) else s in
  let held := session_held connected (tn_elapsed tn) in
  d ← next_delay held (backoff s);
  '(slept, b) ← wait held (backoff s);
  '(says, next, n) ← wait_for_reconnect (tn_ended tn) (CeReconnecting failure) reason (Z.max d at_least) (tn_stopped tn) (network s);
  Some (says, match next with Redial _ => Redial (Z.max slept at_least) | Ended => Ended end, MkRunner b (consecutive_rejections s) (last_refusal s) n).

(** One turn of [run_with_backoff]'s loop. *)
Definition runner_turn (floor : Z) (tn : Turn) (s : Runner) : option (list RunnerSays * Next * Runner) :=
  let n := MkStatus (runtime_begin_attempt (tn_began tn) (ns_runtime (network s))) (ns_label (network s)) (ns_buffered (network s)) in
  '(during, n) ← emit_all (tn_emitted tn) n;
  let s := MkRunner (backoff s) (consecutive_rejections s) (last_refusal s) n in
  '(says, next, s) ←
    match tn_outcome tn with
    | SoStopped => Some ([], Ended, s)
    | SoAuthRejected rejection =>
        '(says, n) ← park (tn_ended tn) (CeAuthenticationFailed rejection) (network s);
        Some (says, Ended, MkRunner (backoff s) (consecutive_rejections s) (last_refusal s) n)
    | SoRegistrationRejected rejection => retry_refusal floor tn (RfRegistration rejection) s
    | SoConfigurationRejected refusal => retry_refusal floor tn (RfConfiguration refusal) s
    | SoReconnectRequested => Some ([], if tn_stopped tn then Ended else Redial RECONNECT_REQUEST_PAUSE, s)
    | SoDropped failure => redial_dropped tn failure None 0 s
    | SoDroppedFor failure at_least => redial_dropped tn failure None at_least s
    | SoClosedByUpstream closed => redial_dropped tn FConnectionLost (Some closed) 0 s
    end;
  Some (during ++ says, next, s).

(** The turns of a run: what each one told and came to. *)
Fixpoint runner_run (floor : Z) (turns : list Turn) (s : Runner) : option (list (list RunnerSays * Next) * Runner) :=
  match turns with
  | [] => Some ([], s)
  | tn :: turns =>
      '(says, next, s) ← runner_turn floor tn s;
      match next with
      | Ended => Some ([(says, next)], s)
      | Redial _ => '(rest, s) ← runner_run floor turns s; Some ((says, next) :: rest, s)
      end
  end.

Definition Runner_new (seed : Z) (label : str) (t : Instant) : Runner := MkRunner (Backoff_new seed) 0 None (MkStatus (runtime_new t) label BufferedStatus_default).

(** ** What the policy asks for *)

Definition status_of (event : ConnectionEvent) : DriverConnectionStatus :=
  match event_failure event None None with Some (status, _, _, _) => status | None => StConnected end.

Definition refusal_of (o : SessionOutcome) : option Refusal :=
  match o with SoRegistrationRejected rejection => Some (RfRegistration rejection) | SoConfigurationRejected refusal => Some (RfConfiguration refusal) | _ => None end.
(** A drop: why, in the upstream's words or not, and the least wait. *)
Definition drop_of (o : SessionOutcome) : option (NetworkFailure * option str * Z) :=
  match o with
  | SoDropped failure => Some (failure, None, 0)
  | SoDroppedFor failure at_least => Some (failure, None, at_least)
  | SoClosedByUpstream closed => Some (FConnectionLost, Some closed, 0)
  | _ => None
  end.
Definition ends_connected (tn : Turn) : bool := match last (tn_emitted tn) with Some (_, CeConnected) => true | _ => false end.
Definition held (tn : Turn) : bool := session_held (ends_connected tn) (tn_elapsed tn).

(** Over the turns past, newest first: the refusals of one kind in a row; a
    session that was not refused neither counts nor, unless it connected,
    forgives the ones before it ... *)
Fixpoint streak (k : RefusalKind) (past : list Turn) : Z :=
  match past with
  | [] => 0
  | tn :: past =>
      match refusal_of (tn_outcome tn) with
      | Some r => if bool_decide (kind r = k) then 1 + streak k past else 0
      | None => if ends_connected tn then 0 else streak k past
      end
  end.
(** ... and the drops since the last session that held. *)
Fixpoint drops (past : list Turn) : nat :=
  match past with
  | [] => 0
  | tn :: past => match drop_of (tn_outcome tn) with Some _ => if held tn then 1 else S (drops past) | None => drops past end
  end.

Definition permille (seed : Z) : Z := spread seed mod 251.
Definition with_share (seed base : Z) : Z := base + base * permille seed / 1000.
Definition transient_base (n : nat) : Z := Z.min LAST_DELAY (FIRST_DELAY * 2 ^ Z.of_nat n).

Definition parks (past : list Turn) (r : Refusal) : bool :=
  match retry r with ParkNow => true | ScheduleThenPark => 4 <=? streak (kind r) past | UntilItClears => false end.

Definition stoppable (tn : Turn) (delay : Z) : Next := if tn_stopped tn then Ended else Redial delay.

Definition policy (seed : Z) (past : list Turn) (tn : Turn) : Next :=
  match tn_outcome tn with
  | SoStopped | SoAuthRejected _ => Ended
  | SoReconnectRequested => stoppable tn (secs 1)
  | o =>
      match refusal_of o, drop_of o with
      | Some r, _ => if parks past r then Ended else stoppable tn (with_share seed (secs 30 * 2 ^ Z.min (streak (kind r) past) 3))
      | None, Some (_, _, at_least) => stoppable tn (Z.max (with_share seed (transient_base (if held tn then 0 else drops past))) at_least)
      | None, None => Ended
      end
  end.

Definition outcome_event (past : list Turn) (tn : Turn) : list ConnectionEvent :=
  match tn_outcome tn with
  | SoAuthRejected rejection => [CeAuthenticationFailed rejection]
  | o =>
      match refusal_of o, drop_of o with
      | Some r, _ => [if parks past r then parked r else retrying r]
      | None, Some (failure, _, _) => [CeReconnecting failure]
      | None, None => []
      end
  end.
Definition turn_events (past : list Turn) (tn : Turn) : list ConnectionEvent := (tn_emitted tn).*2 ++ outcome_event past tn.

Fixpoint policy_run (seed : Z) (past turns : list Turn) : list (list ConnectionEvent * Next) :=
  match turns with
  | [] => []
  | tn :: turns =>
      (turn_events past tn, policy seed past tn) :: match policy seed past tn with Ended => [] | Redial _ => policy_run seed (tn :: past) turns end
  end.

(** ** Delays are exact *)

Definition BASES : list Z := (transient_base <$> seq 0 9) ++ ((fun n => secs 30 * 2 ^ Z.of_nat n) <$> seq 0 4).

Lemma jitter_checked :
  forallb (fun base => forallb (fun p => bool_decide (jitter base (MkBackoff 0 (Z.of_nat p)) = Some (base * Z.of_nat p / 1000))) (seq 0 251)) BASES = true.
Proof. vm_compute. reflexivity. Qed.

Lemma permille_range seed : 0 <= permille seed < 251.
Proof. unfold permille. apply Z.mod_pos_bound. lia. Qed.

Lemma jitter_exact base c seed : base ∈ BASES -> jittered base (MkBackoff c (permille seed)) = Some (with_share seed base).
Proof.
  intros Hb. pose proof jitter_checked as H. rewrite forallb_forall in H. specialize (H base (proj1 (list_elem_of_In _ _) Hb)). rewrite forallb_forall in H.
  pose proof (permille_range seed). specialize (H (Z.to_nat (permille seed))). rewrite in_seq in H. specialize (H ltac:(lia)). apply bool_decide_eq_true in H.
  rewrite Z2Nat.id in H by lia. unfold jittered. change (jitter base (MkBackoff c (permille seed))) with (jitter base (MkBackoff 0 (permille seed))). by rewrite H.
Qed.

Lemma transient_doubles n : Z.min (transient_base n * 2) LAST_DELAY = transient_base (S n).
Proof.
  unfold transient_base. rewrite Nat2Z.inj_succ, Z.pow_succ_r by lia. assert (0 < LAST_DELAY) by done. assert (0 < FIRST_DELAY * 2 ^ Z.of_nat n) by (apply Z.mul_pos_pos; [done|lia]). lia.
Qed.

Lemma transient_in n : transient_base n ∈ BASES.
Proof.
  unfold BASES. apply elem_of_app. left. apply list_elem_of_fmap. destruct (decide (n < 8)%nat) as [Hn|Hn].
  - exists n. split; [done|]. apply elem_of_seq. lia.
  - exists 8%nat. split; [|apply elem_of_seq; lia]. assert (Hl : LAST_DELAY <= FIRST_DELAY * 2 ^ 8) by done.
    assert (H : FIRST_DELAY * 2 ^ 8 <= FIRST_DELAY * 2 ^ Z.of_nat n) by (apply Z.mul_le_mono_nonneg_l; [done|apply Z.pow_le_mono_r; lia]).
    unfold transient_base. change (Z.of_nat 8) with 8. lia.
Qed.

Lemma refusal_in n : 0 <= n -> REJECTION_RETRY_FLOOR * Z.shiftl 1 (Z.min n 3) ∈ BASES.
Proof.
  intros Hn. rewrite Z.shiftl_1_l. unfold BASES. apply elem_of_app. right. apply list_elem_of_fmap. exists (Z.to_nat (Z.min n 3)). split; [|apply elem_of_seq; lia]. by rewrite Z2Nat.id by lia.
Qed.

(** ** The runner follows the policy *)

Definition revision (n : NetworkStatus) : Z := status_revision (ns_runtime n).

(** The statuses told, with their revisions; the events of a run, numbered. *)
Definition told (says : list RunnerSays) : list (DriverConnectionStatus * Z) :=
  omap (fun x => match x with SaysStatus p => Some (pub_status p, pub_revision p) | SaysLine _ => None end) says.
Fixpoint numbered (rev : Z) (events : list ConnectionEvent) : list (DriverConnectionStatus * Z) :=
  match events with [] => [] | event :: events => (status_of event, rev + 1) :: numbered (rev + 1) events end.

Lemma numbered_events_app rev l k : numbered rev (l ++ k) = numbered rev l ++ numbered (rev + Z.of_nat (length l)) k.
Proof. revert rev. induction l as [|e l IH]; intros rev; cbn [app numbered length]; [by rewrite Z.add_0_r|]. rewrite IH. do 3 f_equal. lia. Qed.

Lemma told_app l k : told (l ++ k) = told l ++ told k.
Proof. apply omap_app. Qed.

Definition is_connected_event (event : ConnectionEvent) : bool := match event with CeConnected => true | _ => false end.

Lemma publish_tells t event d reason n : 0 <= revision n < U64_MAX ->
  exists p n', publish t event d reason n = Some (p, n') /\ pub_status p = status_of event /\ pub_revision p = revision n + 1 /\ revision n' = revision n + 1
    /\ is_connected (ns_runtime n') = is_connected_event event.
Proof.
  intros Hr. unfold publish, revision in *.
  assert (Hadd : checked_add_u64 (status_revision (ns_runtime n)) 1 = Some (status_revision (ns_runtime n) + 1)).
  { unfold checked_add_u64. destruct (Z.leb_spec (status_revision (ns_runtime n) + 1) U64_MAX); [done|lia]. }
  destruct event; cbn [event_failure]; unfold runtime_connected, runtime_failed; cbn [set_error status_revision mbind option_bind]; rewrite Hadd; cbn [mbind option_bind]; destruct (record_status _ _) as [transition buffered]; by eexists _, _.
Qed.

Lemma emit_all_ok events n : 0 <= revision n -> revision n + Z.of_nat (length events) <= U64_MAX ->
  exists says n', emit_all events n = Some (says, n') /\ told says = numbered (revision n) events.*2 /\ revision n' = revision n + Z.of_nat (length events)
    /\ is_connected (ns_runtime n') = match last events with Some (_, event) => is_connected_event event | None => is_connected (ns_runtime n) end.
Proof.
  revert n. induction events as [|[t event] events IH]; intros n H0 Hr; cbn [emit_all].
  - exists [], n. split_and!; [done|done|cbn; lia|done].
  - cbn [length] in Hr. destruct (publish_tells t event None None n) as (p & n1 & E & S1 & S2 & S3 & S4); [lia|]. unfold emit. rewrite E. cbn [mbind option_bind].
    destruct (IH n1) as (says & n2 & E2 & T2 & R2 & C2); [lia|lia|]. rewrite E2. cbn [mbind option_bind]. exists (SaysStatus p :: says), n2. split; [done|]. split_and!.
    + change (told (SaysStatus p :: says)) with ((pub_status p, pub_revision p) :: told says). cbn [fmap list_fmap snd numbered]. by rewrite S1, S2, T2, S3.
    + cbn [length]. lia.
    + rewrite C2, S4, last_cons. by destruct (last events) as [[]|].
Qed.

Record follows (seed : Z) (past : list Turn) (s : Runner) : Prop := {
  fo_backoff : backoff s = MkBackoff (transient_base (drops past)) (permille seed);
  fo_streak : forall k, Z.min U32_MAX (streak k past) = if bool_decide (last_refusal s = Some k) then consecutive_rejections s else 0;
}.

Lemma refusals_nonneg k past : 0 <= streak k past.
Proof.
  induction past as [|tn past IH]; cbn; [done|]. destruct (refusal_of _); [case_bool_decide; lia|]. destruct (ends_connected tn); lia.
Qed.

Lemma follows_network seed past s n : follows seed past s -> follows seed past (MkRunner (backoff s) (consecutive_rejections s) (last_refusal s) n).
Proof. by intros [A B]; split. Qed.

Lemma retry_ok seed past tn r s :
  follows seed past s -> refusal_of (tn_outcome tn) = Some r -> 0 <= revision (network s) < U64_MAX ->
  exists says s', retry_refusal REJECTION_RETRY_FLOOR tn r s = Some (says, policy seed past tn, s') /\ follows seed (tn :: past) s'
    /\ told says = numbered (revision (network s)) (outcome_event past tn) /\ revision (network s') = revision (network s) + 1.
Proof.
  intros [Hb Hs] Hr Hrev. pose proof (refusals_nonneg (kind r) past) as Hpos.
  assert (Hd : drop_of (tn_outcome tn) = None) by by destruct (tn_outcome tn).
  assert (Hpol : policy seed past tn = if parks past r then Ended else stoppable tn (with_share seed (secs 30 * 2 ^ Z.min (streak (kind r) past) 3))) by (unfold policy; destruct (tn_outcome tn); try done; by injection Hr as <-).
  assert (Hev : outcome_event past tn = [if parks past r then parked r else retrying r]) by (unfold outcome_event; destruct (tn_outcome tn); try done; by injection Hr as <-).
  unfold retry_refusal. rewrite <- (Hs (kind r)). set (consecutive := Z.min U32_MAX (Z.min U32_MAX (streak (kind r) past) + 1)).
  assert (Hc : consecutive = Z.min U32_MAX (1 + streak (kind r) past)) by (unfold consecutive, U32_MAX; lia). clearbody consecutive.
  assert (Hp : match retry r with ParkNow => true | ScheduleThenPark => MAX_CONSECUTIVE_REGISTRATION_REJECTIONS <=? consecutive | UntilItClears => false end = parks past r).
  { unfold parks. destruct (retry r); try done. unfold MAX_CONSECUTIVE_REGISTRATION_REJECTIONS, U32_MAX in *. destruct (Z.leb_spec 4 (streak (kind r) past)); [apply Z.leb_le|apply Z.leb_gt]; lia. }
  rewrite Hp, Hpol, Hev.
  assert (Hfol : forall n, follows seed (tn :: past) (MkRunner (backoff s) consecutive (Some (kind r)) n)).
  { intros n. split; cbn [backoff drops]; [by rewrite Hd|]. intros k. cbn [streak last_refusal consecutive_rejections]. rewrite Hr. destruct (decide (kind r = k)) as [<-|Hne].
    - by rewrite !bool_decide_true by done.
    - rewrite !bool_decide_false by congruence. done. }
  destruct (parks past r).
  - unfold park, emit. destruct (publish_tells (tn_ended tn) (parked r) None None (network s) Hrev) as (p & n & -> & S1 & S2 & S3 & _). cbn [mbind option_bind]. eexists _, _. split; [done|].
    split; [apply Hfol|]. split; [|done]. cbn. by rewrite S1, S2.
  - unfold rejection_delay. replace (saturating_sub consecutive 1) with (Z.min (U32_MAX - 1) (streak (kind r) past)) by (unfold saturating_sub, U32_MAX in *; lia).
    change (MAX_CONSECUTIVE_REGISTRATION_REJECTIONS - 2) with 3. rewrite Hb.
    replace (Z.min (Z.min (U32_MAX - 1) (streak (kind r) past)) 3) with (Z.min (streak (kind r) past) 3) by (unfold U32_MAX; lia).
    rewrite jitter_exact by by apply refusal_in. cbn [mbind option_bind]. unfold wait_for_reconnect.
    destruct (publish_tells (tn_ended tn) (retrying r) (Some (with_share seed (REJECTION_RETRY_FLOOR * Z.shiftl 1 (Z.min (streak (kind r) past) 3)))) None (network s) Hrev) as (p & n & -> & S1 & S2 & S3 & _).
    cbn [mbind option_bind]. eexists _, _. split; [by rewrite Z.shiftl_1_l|]. split; [rewrite <- Hb; apply Hfol|]. split; [|done]. cbn. by rewrite S1, S2.
Qed.

Lemma dropped_ok seed past tn failure reason at_least s :
  follows seed past s -> drop_of (tn_outcome tn) = Some (failure, reason, at_least) -> is_connected (ns_runtime (network s)) = ends_connected tn -> 0 <= revision (network s) < U64_MAX ->
  exists says s', redial_dropped tn failure reason at_least s = Some (says, policy seed past tn, s') /\ follows seed (tn :: past) s'
    /\ told says = numbered (revision (network s)) (outcome_event past tn) /\ revision (network s') = revision (network s) + 1.
Proof.
  intros [Hb Hs] Hd Hcon Hrev. assert (Hr : refusal_of (tn_outcome tn) = None) by by destruct (tn_outcome tn).
  set (n0 := if held tn then 0%nat else drops past).
  assert (Hpol : policy seed past tn = stoppable tn (Z.max (with_share seed (transient_base n0)) at_least)) by (unfold policy; destruct (tn_outcome tn); try done; by injection Hd as <- <- <-).
  assert (Hev : outcome_event past tn = [CeReconnecting failure]) by (unfold outcome_event; destruct (tn_outcome tn); try done; by injection Hd as <- <- <-).
  rewrite Hpol, Hev. unfold redial_dropped. rewrite Hcon. change (session_held (ends_connected tn) (tn_elapsed tn)) with (held tn). set (s1 := if ends_connected tn then _ else s).
  assert (Hb1 : backoff s1 = backoff s) by by unfold s1; destruct (ends_connected tn). assert (Hn1 : network s1 = network s) by by unfold s1; destruct (ends_connected tn). rewrite Hb1, Hn1, Hb.
  unfold next_delay, wait. cbn [jitter_permille current].
  assert (Hbase : (if held tn then FIRST_DELAY else transient_base (drops past)) = transient_base n0) by by unfold n0; destruct (held tn). rewrite Hbase.
  rewrite jitter_exact by apply transient_in. cbn [mbind option_bind].
  replace (if held tn then MkBackoff FIRST_DELAY (permille seed) else MkBackoff (transient_base (drops past)) (permille seed)) with (MkBackoff (transient_base n0) (permille seed)) by (rewrite <- Hbase; by destruct (held tn)).
  cbn [current jitter_permille]. rewrite jitter_exact by apply transient_in. cbn [mbind option_bind]. unfold wait_for_reconnect.
  destruct (publish_tells (tn_ended tn) (CeReconnecting failure) (Some (Z.max (with_share seed (transient_base n0)) at_least)) reason (network s) Hrev) as (p & n & -> & S1 & S2 & S3 & _).
  cbn [mbind option_bind]. eexists _, _. split; [unfold stoppable; by destruct (tn_stopped tn)|]. split; [|split; [cbn; by rewrite S1, S2|done]]. split; cbn [backoff drops].
  - rewrite Hd, transient_doubles. unfold n0. by destruct (held tn).
  - intros k. cbn [streak last_refusal consecutive_rejections]. rewrite Hr. unfold s1. destruct (ends_connected tn); [done|apply Hs].
Qed.

Definition turn_told (past : list Turn) (tn : Turn) : Z := Z.of_nat (length (turn_events past tn)).

(** A session whose peer asked for another one had not connected. *)
Definition asked_early (tn : Turn) : Prop := tn_outcome tn = SoReconnectRequested -> ends_connected tn = false.

(** What the turns to come start from, where there are any. *)
Definition goes_on (seed : Z) (past : list Turn) (tn : Turn) (s : Runner) : Prop :=
  forall delay, policy seed past tn = Redial delay -> follows seed (tn :: past) s.

Lemma other_goes_on seed past tn s n :
  follows seed past s -> asked_early tn -> refusal_of (tn_outcome tn) = None -> drop_of (tn_outcome tn) = None ->
  goes_on seed past tn (MkRunner (backoff s) (consecutive_rejections s) (last_refusal s) n).
Proof.
  intros [A B] He Hr Hd delay Hp. unfold policy in Hp. destruct (tn_outcome tn) eqn:Eo; try done. split; [cbn; by rewrite Eo|].
  intros k. cbn [streak last_refusal consecutive_rejections]. rewrite Eo. cbn [refusal_of]. rewrite (He Eo). apply B.
Qed.

Lemma turn_ok seed past tn s :
  follows seed past s -> asked_early tn -> 0 <= revision (network s) -> revision (network s) + turn_told past tn <= U64_MAX ->
  exists says s', runner_turn REJECTION_RETRY_FLOOR tn s = Some (says, policy seed past tn, s') /\ goes_on seed past tn s'
    /\ told says = numbered (revision (network s)) (turn_events past tn) /\ revision (network s') = revision (network s) + turn_told past tn.
Proof.
  intros Hf He H0 Hmax. unfold turn_told, turn_events in *. rewrite length_app, length_fmap in Hmax. unfold runner_turn. set (n0 := MkStatus _ _ _).
  destruct (emit_all_ok (tn_emitted tn) n0) as (during & n & -> & T & R & C); [done|change (revision n0) with (revision (network s)); lia|]. cbn [mbind option_bind].
  change (revision n0) with (revision (network s)) in *.
  assert (Hcon : is_connected (ns_runtime n) = ends_connected tn).
  { rewrite C. unfold ends_connected. destruct (last (tn_emitted tn)) as [[t event]|]; [by destruct event|]. unfold n0, is_connected. cbn. by destruct (_ =? 0). }
  set (s1 := MkRunner _ _ _ n). assert (Hf1 : follows seed past s1) by by apply follows_network.
  assert (Hend : forall out : option (list RunnerSays * Next * Runner),
    (exists says s', out = Some (says, policy seed past tn, s') /\ goes_on seed past tn s' /\ told says = numbered (revision n) (outcome_event past tn)
        /\ revision (network s') = revision n + Z.of_nat (length (outcome_event past tn))) ->
    exists says s', (out ≫= (fun '(says, next, s) => Some (during ++ says, next, s))) = Some (says, policy seed past tn, s') /\ goes_on seed past tn s'
      /\ told says = numbered (revision (network s)) ((tn_emitted tn).*2 ++ outcome_event past tn) /\ revision (network s') = revision (network s) + Z.of_nat (length ((tn_emitted tn).*2 ++ outcome_event past tn))).
  { intros out (says & s' & -> & Hf' & Ht & Hr'). cbn [mbind option_bind]. eexists _, s'. split; [done|]. split; [done|]. split.
    - by rewrite told_app, numbered_events_app, T, Ht, length_fmap, R.
    - rewrite length_app, length_fmap. lia. }
  destruct (refusal_of (tn_outcome tn)) as [r|] eqn:Hr.
  { assert (Hone : length (outcome_event past tn) = 1%nat) by by unfold outcome_event; destruct (tn_outcome tn).
    destruct (retry_ok seed past tn r s1 Hf1 Hr) as (says & s' & E & Hf' & Ht & Hr'); [change (revision (network s1)) with (revision n); lia|].
    apply Hend. exists says, s'. rewrite Hone. split_and!; try done; [destruct (tn_outcome tn); try done; injection Hr as <-; done|by intros ? _]. }
  destruct (drop_of (tn_outcome tn)) as [[[failure reason] at_least]|] eqn:Hd.
  { assert (Hone : length (outcome_event past tn) = 1%nat) by by unfold outcome_event; destruct (tn_outcome tn).
    destruct (dropped_ok seed past tn failure reason at_least s1 Hf1 Hd Hcon) as (says & s' & E & Hf' & Ht & Hr'); [change (revision (network s1)) with (revision n); lia|].
    apply Hend. exists says, s'. rewrite Hone. split_and!; try done; [destruct (tn_outcome tn); try done; injection Hd as <- <- <-; done|by intros ? _]. }
  apply Hend. pose proof (fun n => other_goes_on seed past tn s1 n Hf1 He Hr Hd) as Hf2. unfold policy, outcome_event in *. destruct (tn_outcome tn); try done.
  - exists [], s1. split_and!; [done|apply (Hf2 n)|done|cbn; lia].
  - unfold park, emit. destruct (publish_tells (tn_ended tn) (CeAuthenticationFailed rejection) None None n) as (p & n2 & E & S1 & S2 & S3 & _); [cbn [length] in Hmax; lia|].
    change (network s1) with n. rewrite E. cbn [mbind option_bind]. eexists _, _. split; [done|]. split; [apply Hf2|]. split; [cbn; by rewrite S1, S2|done].
  - exists [], s1. split_and!; [done|apply (Hf2 n)|done|cbn; lia].
Qed.

Lemma run_ok seed past turns s :
  follows seed past s -> Forall asked_early turns -> 0 <= revision (network s) -> revision (network s) + Z.of_nat (length (concat (policy_run seed past turns).*1)) <= U64_MAX ->
  exists outs s', runner_run REJECTION_RETRY_FLOOR turns s = Some (outs, s') /\ outs.*2 = (policy_run seed past turns).*2
    /\ told (concat outs.*1) = numbered (revision (network s)) (concat (policy_run seed past turns).*1).
Proof.
  revert past s. induction turns as [|tn turns IH]; intros past s Hf He H0 Hmax; cbn [runner_run policy_run]; [by exists [], s|].
  apply Forall_cons in He as [He1 He].
  cbn [policy_run fmap list_fmap concat fst] in Hmax. rewrite length_app in Hmax.
  destruct (turn_ok seed past tn s Hf He1 H0) as (says & s1 & -> & Hf1 & T1 & R1); [unfold turn_told; lia|]. unfold turn_told in R1. cbn [mbind option_bind].
  destruct (policy seed past tn) as [delay|] eqn:Ep.
  - destruct (IH (tn :: past) s1 (Hf1 delay Ep) He) as (outs & s2 & -> & N2 & T2); [lia|lia|]. cbn [mbind option_bind].
    eexists _, s2. split; [done|]. cbn [fmap list_fmap fst snd concat]. split; [by f_equal|]. rewrite told_app, numbered_events_app, T1. f_equal. rewrite R1 in T2. exact T2.
  - eexists _, s1. split; [done|]. cbn. rewrite !app_nil_r. by split.
Qed.

Lemma new_follows seed label t : follows seed [] (Runner_new seed label t).
Proof. split; [done|]. intros k. by rewrite bool_decide_false. Qed.

(** C11.  However an upstream's sessions end, none of them with the upstream
    asking a connected session to reconnect, the runner does what the policy
    says, for every driver's seed: it stops for good at the first rejection of
    credentials, at a refusal only a reconfiguration can end, and at the fifth
    refusal of one kind in a row, which a session that connected and was not
    refused or a refusal of another kind begins anew, and at nothing else but
    a stop; after a refusal it waits 30 s, doubled with each of its kind up to
    4 minutes, and after a drop 200 ms doubled with each up to 30 s, begun
    again by a session that connected and held, never less than the upstream
    asked for; the driver's share, computed in floating point, is exactly its
    thousandths of the delay rounded down; and each change of status is told,
    in order, under the next revision.  A session asked to reconnect after it
    connected is left out because the code does not let it forgive. *)
Theorem runner_follows_policy seed label t turns :
  Forall asked_early turns ->
  Z.of_nat (length (concat (policy_run seed [] turns).*1)) <= U64_MAX ->
  exists outs s, runner_run REJECTION_RETRY_FLOOR turns (Runner_new seed label t) = Some (outs, s)
    /\ outs.*2 = (policy_run seed [] turns).*2
    /\ told (concat outs.*1) = numbered 0 (concat (policy_run seed [] turns).*1).
Proof. intros He Hmax. apply run_ok; [apply new_follows|done|done|done]. Qed.

(** A refusal, a throttled dial, four more refusals of its kind. *)
Definition sample_instant (n : Z) : Instant := MkInstant n (millis n).
Definition sample_turn (emitted : list ConnectionEvent) (outcome : SessionOutcome) (elapsed : Z) : Turn :=
  MkTurn (sample_instant 5) ((fun event => (sample_instant 6, event)) <$> emitted) outcome elapsed (sample_instant 7) false.
Definition in_use : SessionOutcome := SoRegistrationRejected (MkRejection NicknameInUse (bs "in use")).
Definition sample_turns : list Turn :=
  [ sample_turn [CeConnected] (SoDropped FConnectionLost) (secs 60); sample_turn [] (SoDropped FConnectionFailed) 0; sample_turn [] in_use 0;
    sample_turn [] (SoDropped FConnectionTimedOut) 0; sample_turn [] SoReconnectRequested 0; sample_turn [] in_use 0; sample_turn [] in_use 0; sample_turn [] in_use 0; sample_turn [] in_use 0; sample_turn [] in_use 0 ].

Lemma runner_follows_policy_witness :
  exists outs s, runner_run REJECTION_RETRY_FLOOR sample_turns (Runner_new 3 (bs "me/net") (sample_instant 0)) = Some (outs, s)
    /\ outs.*2 = (policy_run 3 [] sample_turns).*2 /\ told (concat outs.*1) = numbered 0 (concat (policy_run 3 [] sample_turns).*1).
Proof. apply runner_follows_policy; [by repeat constructor|]. apply Z.leb_le. vm_compute. reflexivity. Defined.

Example sample_delays :
  (fun next => match next with Redial delay => Some (delay / NANOS_PER_MILLI) | Ended => None end) <$> (policy_run 0 [] sample_turns).*2
  = [Some 200; Some 400; Some 30000; Some 800; Some 1000; Some 60000; Some 120000; Some 240000; None].
Proof. vm_compute. reflexivity. Qed.

(** A session that connected and was asked to reconnect forgives nothing: the
    refusals before it still count, where the policy, as for one that dropped,
    starts them over. *)
Definition unmapped : SessionOutcome := SoConfigurationRejected (MkConfigurationRefusal FChannelMappingFailed (bs "general")).
Definition between (outcome : SessionOutcome) : list Turn :=
  repeat (sample_turn [] unmapped 0) 4 ++ [sample_turn [CeConnected] outcome (secs 3600); sample_turn [] unmapped 0].
Definition run_last (turns : list Turn) : option Next :=
  '(outs, _) ← runner_run REJECTION_RETRY_FLOOR turns (Runner_new 0 (bs "me/net") (sample_instant 0)); last outs.*2.
Example reconnect_request_forgives_nothing :
  run_last (between SoReconnectRequested) = Some Ended /\ last (policy_run 0 [] (between SoReconnectRequested)).*2 = Some (Redial (secs 30))
  /\ run_last (between (SoDropped FConnectionLost)) = Some (Redial (secs 30)).
Proof. vm_compute. by split_and!. Qed.

(** ** What an attached client is shown *)

(** A client subscribes to the events, then reads the runtime, then receives:
    [from] and [read] are the revision and lifecycle it read, [accepted] the
    statuses it was shown since, [shown] what it shows now. *)
Inductive Client : Type :=
| NotAttached
| Subscribed (received : nat)
| Shown (received : nat) (seen : Z) (from : Z) (read : NetworkLifecycle) (accepted : list DriverConnectionStatus) (shown : NetworkLifecycle).

(** The driver publishes in two steps, the runtime's and the event's; the
    events sent so far are those every receiver reads from its place on. *)
Record World : Type := MkWorld {
  wd_network : NetworkStatus;
  wd_sending : option (DriverConnectionStatus * Z);
  wd_sent : list (DriverConnectionStatus * Z);
  wd_client : Client;
}.

Definition on_runtime (f : NetworkRuntimeState -> NetworkRuntimeState) (n : NetworkStatus) : NetworkStatus :=
  MkStatus (f (ns_runtime n)) (ns_label n) (ns_buffered n).
Definition lifecycle (n : NetworkStatus) : NetworkLifecycle := phase_lifecycle (rt_phase (ns_runtime n)).

Definition receive_status (event : DriverConnectionStatus * Z) (received : nat) (seen from : Z) (read : NetworkLifecycle) (accepted : list DriverConnectionStatus)
    (shown : NetworkLifecycle) : Client :=
  match accept_status_revision seen event.2 with
  | (true, seen) => Shown (S received) seen from read (accepted ++ [event.1]) (status_lifecycle event.1)
  | (false, seen) => Shown (S received) seen from read accepted shown
  end.

Inductive world_step : World -> World -> Prop :=
| step_publish t event d reason n p n' sent c :
    publish t event d reason n = Some (p, n') -> world_step (MkWorld n None sent c) (MkWorld n' (Some (pub_status p, pub_revision p)) sent c)
| step_send n event sent c : world_step (MkWorld n (Some event) sent c) (MkWorld n None (sent ++ [event]) c)
| step_attempt t n sending sent c : world_step (MkWorld n sending sent c) (MkWorld (on_runtime (runtime_begin_attempt t) n) sending sent c)
| step_error t failure diagnostic n sending sent c :
    world_step (MkWorld n sending sent c) (MkWorld (on_runtime (operational_error t failure diagnostic) n) sending sent c)
| step_subscribe n sending sent : world_step (MkWorld n sending sent NotAttached) (MkWorld n sending sent (Subscribed (length sent)))
| step_snapshot n sending sent received :
    world_step (MkWorld n sending sent (Subscribed received)) (MkWorld n sending sent (Shown received (revision n) (revision n) (lifecycle n) [] (lifecycle n)))
| step_receive n sending sent received seen from read accepted shown event :
    sent !! received = Some event ->
    world_step (MkWorld n sending sent (Shown received seen from read accepted shown)) (MkWorld n sending sent (receive_status event received seen from read accepted shown)).

Inductive reachable (label : str) (t : Instant) : World -> Prop :=
| reachable_new : reachable label t (MkWorld (MkStatus (runtime_new t) label BufferedStatus_default) None [] NotAttached)
| reachable_step w w' : reachable label t w -> world_step w w' -> reachable label t w'.

(** All that was published, in order. *)
Definition history (w : World) : list (DriverConnectionStatus * Z) := wd_sent w ++ match wd_sending w with Some event => [event] | None => [] end.

(** An attempt is under way: it began after the last status, and none was
    published for it. *)
Definition dialling (n : NetworkStatus) : bool :=
  match rt_phase (ns_runtime n) with PhConnecting | PhReconnecting None => true | _ => false end.

(** The lifecycle of the newest of these statuses, or else [read]. *)
Definition newest (read : NetworkLifecycle) (accepted : list DriverConnectionStatus) : NetworkLifecycle :=
  match last accepted with Some status => status_lifecycle status | None => read end.

(** What a network not dialling is in, told from what was read after [k]
    publications and those since. *)
Definition told_by (h : list (DriverConnectionStatus * Z)) (n : NetworkStatus) (k : nat) (read : NetworkLifecycle) : Prop :=
  dialling n = false -> lifecycle n = newest read (drop k h).*1.

Definition client_ok (h : list (DriverConnectionStatus * Z)) (n : NetworkStatus) (sent : nat) (c : Client) : Prop :=
  match c with
  | NotAttached => True
  | Subscribed received => (received <= sent)%nat
  | Shown received seen from read accepted shown =>
      (received <= sent)%nat /\ exists k, from = Z.of_nat k /\ (k <= length h)%nat /\ seen = Z.of_nat (k `max` received)
        /\ accepted = (drop k (take received h)).*1 /\ shown = newest read accepted /\ told_by h n k read
  end.

Record world_ok (w : World) : Prop := {
  wo_numbered : forall i event, history w !! i = Some event -> event.2 = Z.of_nat i + 1;
  wo_revision : revision (wd_network w) = Z.of_nat (length (history w));
  wo_client : client_ok (history w) (wd_network w) (length (wd_sent w)) (wd_client w);
}.

Lemma newest_app read l status : newest read (l ++ [status]) = status_lifecycle status.
Proof. unfold newest. by rewrite last_snoc. Qed.

Lemma publish_lifecycle t event d reason n p n' : publish t event d reason n = Some (p, n') -> 
  revision n' = revision n + 1 /\ pub_revision p = revision n + 1 /\ lifecycle n' = status_lifecycle (pub_status p).
Proof.
  unfold publish, runtime_connected, runtime_failed, checked_add_u64. intros E. revert E.
  destruct event; cbn [event_failure set_error status_revision]; destruct (_ <=? _); cbn [mbind option_bind]; try done; destruct (record_status _ _) as [transition buffered]; intros [= <- <-]; by unfold revision.
Qed.

(** A publication is the newest status for whoever read before it. *)
Lemma client_published h n n' sent c x :
  (sent <= length h)%nat -> lifecycle n' = status_lifecycle x.1 -> client_ok h n sent c -> client_ok (h ++ [x]) n' sent c.
Proof.
  intros Hs Hl. destruct c as [|received|received seen from read accepted shown]; cbn; [done|done|]. intros (Hr & k & E1 & Hk & E2 & E3 & E4 & _). split; [done|].
  exists k. rewrite length_app, take_app_le by lia. split_and!; [done|lia|done|done|done|]. intros _. rewrite drop_app_le, fmap_app by done. rewrite Hl. cbn. by rewrite newest_app.
Qed.

(** What is not a publication leaves the phase alone or begins an attempt. *)
Lemma client_unpublished h n n' sent c :
  (dialling n' = false -> rt_phase (ns_runtime n') = rt_phase (ns_runtime n)) -> client_ok h n sent c -> client_ok h n' sent c.
Proof.
  intros Hp. destruct c as [|received|received seen from read accepted shown]; cbn; [done|done|]. intros (Hr & k & E1 & Hk & E2 & E3 & E4 & E5). split; [done|].
  exists k. split_and!; try done. intros Hd. pose proof (Hp Hd) as Hq. unfold told_by, dialling, lifecycle in *. rewrite Hq in Hd |- *. by apply E5.
Qed.

Lemma begin_dialling t n : dialling (on_runtime (runtime_begin_attempt t) n) = true.
Proof. unfold dialling. cbn. by destruct (_ =? 0). Qed.

Lemma receive_ok h n sent received seen from read accepted shown event :
  (forall i event, h !! i = Some event -> event.2 = Z.of_nat i + 1) -> (sent <= length h)%nat -> (received < sent)%nat -> h !! received = Some event ->
  client_ok h n sent (Shown received seen from read accepted shown) -> client_ok h n sent (receive_status event received seen from read accepted shown).
Proof.
  intros Hn Hsent Hlt Hev (Hr & k & -> & Hk & -> & -> & -> & Ht). unfold receive_status, accept_status_revision. rewrite (Hn received event Hev).
  destruct (Z.leb_spec (Z.of_nat received + 1) (Z.of_nat (k `max` received))) as [Hle|Hgt]; cbn [client_ok]; (split; [lia|]); exists k; (split; [done|]; split; [done|]).
  - assert (k `max` S received = k `max` received)%nat as -> by lia. split_and!; [done| |done|done]. rewrite !drop_ge; [done|rewrite length_take; lia..].
  - assert (k `max` S received = S received)%nat as -> by lia. split_and!; [lia| |by rewrite newest_app|done].
    rewrite (take_S_r _ _ _ Hev), drop_app_le by (rewrite length_take; lia). by rewrite fmap_app.
Qed.

Lemma world_step_ok w w' : world_ok w -> world_step w w' -> world_ok w'.
Proof.
  intros Hw Hs. destruct Hs as [t event d reason n p n' sent c E|n event sent c|t n sending sent c|t failure diag n sending sent c|n sending sent|n sending sent received|n sending sent received seen from read accepted shown event E];
    destruct Hw as [W1 W2 W3]; unfold history in *; cbn [wd_network wd_sending wd_sent wd_client] in *.
  - rewrite app_nil_r in *. apply publish_lifecycle in E as (E1 & E2 & E3). split; unfold history; cbn [wd_network wd_sending wd_sent wd_client].
    + intros i x [Hi|[Hl Hx]]%lookup_app_Some; [by apply W1|]. apply list_lookup_singleton_Some in Hx as [Hi <-]. cbn. rewrite E2, W2. lia.
    + rewrite E1, W2, length_app. cbn. lia.
    + by apply (client_published sent n).
  - split; unfold history; cbn [wd_network wd_sending wd_sent wd_client]; rewrite ?app_nil_r; try done.
    rewrite length_app. destruct c as [|received|received seen from read accepted shown]; cbn in *; [done|lia|]. destruct W3 as [? ?]. split; [lia|done].
  - split; unfold history; cbn [wd_network wd_sending wd_sent wd_client]; try done. apply (client_unpublished _ n); [|done]. by rewrite begin_dialling.
  - split; unfold history; cbn [wd_network wd_sending wd_sent wd_client]; done.
  - split; unfold history; cbn [wd_network wd_sending wd_sent wd_client]; [done..|]. cbn. lia.
  - split; unfold history; cbn [wd_network wd_sending wd_sent wd_client]; try done. cbn in W3. rewrite W2. split; [done|]. set (h := sent ++ _) in *. exists (length h).
    assert (Hl : (received <= length h)%nat) by (unfold h; rewrite length_app; lia). rewrite Nat.max_l by done. split_and!; [done|done|done| |done|].
    + rewrite drop_ge; [done|rewrite length_take; lia].
    + intros _. by rewrite drop_ge.
  - split; unfold history; cbn [wd_network wd_sending wd_sent wd_client]; try done. apply lookup_lt_Some in E as Hlt. apply receive_ok; [done|rewrite length_app; lia|done|by apply lookup_app_l_Some|done].
Qed.

Lemma reachable_ok label t w : reachable label t w -> world_ok w.
Proof. induction 1 as [|w w' _ IH Hs]; [by split|by eapply world_step_ok]. Qed.

(** C17.  Whatever statuses a driver publishes and attempts it begins, its two
    steps interleaved with a client's subscription, its reading of the runtime
    and its receipts: the statuses the client accepts are those published after
    the revision it read, in order, none twice, and it shows the newest of
    them, or what it read while there is none; and once it has received all
    that was sent, they are all of them and what it shows is the lifecycle the
    network is in, unless the network is dialling: an attempt that begins is
    not published, and until the next status the client shows the last one. *)
Theorem client_shown_current label t w received seen from read accepted shown :
  reachable label t w -> wd_client w = Shown received seen from read accepted shown ->
  (exists k, from = Z.of_nat k /\ accepted `prefix_of` (drop k (history w)).*1)
  /\ shown = newest read accepted
  /\ (received = length (wd_sent w) -> wd_sending w = None ->
        accepted = (drop (Z.to_nat from) (history w)).*1 /\ seen = revision (wd_network w)
        /\ (dialling (wd_network w) = false -> shown = lifecycle (wd_network w))).
Proof.
  intros Hr%reachable_ok Hc. destruct Hr as [W1 W2 W3]. rewrite Hc in W3. destruct W3 as (Hr & k & -> & Hk & -> & -> & -> & Ht). split_and!.
  - exists k. split; [done|]. rewrite <- (take_drop received (history w)) at 2. rewrite drop_app, fmap_app. by apply prefix_app_r.
  - done.
  - intros -> Hs. assert (Hh : history w = wd_sent w) by by unfold history; rewrite Hs, app_nil_r. rewrite Hh in *. rewrite Nat2Z.id, W2, Nat.max_r by done.
    rewrite take_ge by done. split_and!; [done|done|]. intros Hd. symmetry. by apply Ht.
Qed.

(** A client that subscribes between the two steps of the first status, reads
    the runtime, and is shown the second. *)
Definition start_status : NetworkStatus := MkStatus (runtime_new (sample_instant 0)) (bs "me/net") BufferedStatus_default.
Definition after_event (event : ConnectionEvent) (delay : option Z) (n : NetworkStatus) : NetworkStatus :=
  match publish (sample_instant 1) event delay None n with Some (_, n) => n | None => n end.
Definition sample_connected : NetworkStatus := after_event CeConnected None start_status.
Definition sample_lost : NetworkStatus := after_event (CeReconnecting FConnectionLost) (Some (secs 1)) sample_connected.
Definition sample_sent : list (DriverConnectionStatus * Z) := [(StConnected, 1); (StReconnecting FConnectionLost, 2)].

(** The client that read the runtime as the first status was being sent. *)
Lemma sample_attached : reachable (bs "me/net") (sample_instant 0) (MkWorld sample_connected None [(StConnected, 1)] (Shown 1 1 1 LcConnected [] LcConnected)).
Proof.
  assert (E1 : exists p, publish (sample_instant 1) CeConnected None None start_status = Some (p, sample_connected) /\ (pub_status p, pub_revision p) = (StConnected, 1)) by (eexists; by split).
  destruct E1 as (p1 & E1 & P1).
  apply reachable_step with (MkWorld sample_connected None [(StConnected, 1)] (Shown 0 1 1 LcConnected [] LcConnected)); [|by apply (step_receive sample_connected None [(StConnected, 1)] 0 1 1 LcConnected [] LcConnected (StConnected, 1))].
  apply reachable_step with (MkWorld sample_connected (Some (StConnected, 1)) [] (Shown 0 1 1 LcConnected [] LcConnected)); [|apply step_send].
  apply reachable_step with (MkWorld sample_connected (Some (StConnected, 1)) [] (Subscribed 0)); [|apply step_snapshot].
  apply reachable_step with (MkWorld sample_connected (Some (StConnected, 1)) [] NotAttached); [|apply (step_subscribe sample_connected _ [])].
  apply reachable_step with (MkWorld start_status None [] NotAttached); [apply reachable_new|rewrite <- P1; by eapply step_publish].
Qed.

Lemma sample_reachable :
  reachable (bs "me/net") (sample_instant 0) (MkWorld sample_lost None sample_sent (Shown 2 2 1 LcConnected [StReconnecting FConnectionLost] LcReconnecting)).
Proof.
  assert (E2 : exists p, publish (sample_instant 1) (CeReconnecting FConnectionLost) (Some (secs 1)) None sample_connected = Some (p, sample_lost)
    /\ (pub_status p, pub_revision p) = (StReconnecting FConnectionLost, 2)) by (eexists; by split).
  destruct E2 as (p2 & E2 & P2).
  apply reachable_step with (MkWorld sample_lost None sample_sent (Shown 1 1 1 LcConnected [] LcConnected)); [|by apply (step_receive sample_lost None sample_sent 1 1 1 LcConnected [] LcConnected (StReconnecting FConnectionLost, 2))].
  apply reachable_step with (MkWorld sample_lost (Some (StReconnecting FConnectionLost, 2)) [(StConnected, 1)] (Shown 1 1 1 LcConnected [] LcConnected)); [|apply step_send].
  apply reachable_step with (MkWorld sample_connected None [(StConnected, 1)] (Shown 1 1 1 LcConnected [] LcConnected)); [apply sample_attached|rewrite <- P2; by eapply step_publish].
Qed.

Lemma client_shown_current_witness :
  [StReconnecting FConnectionLost] = (drop 1 sample_sent).*1 /\ 2 = revision sample_lost /\ LcReconnecting = lifecycle sample_lost.
Proof.
  destruct (client_shown_current (bs "me/net") (sample_instant 0) _ 2 2 1 LcConnected [StReconnecting FConnectionLost] LcReconnecting sample_reachable eq_refl) as (_ & _ & H).
  destruct (H eq_refl eq_refl) as (H1 & H2 & H3). exact (conj H1 (conj H2 (H3 eq_refl))).
Defined.

(** A connected session asked to reconnect ends without a status, and neither
    does the attempt that follows publish one: the client still shows a
    connected network while it is being redialled. *)
Lemma redial_shown_connected :
  exists w, reachable (bs "me/net") (sample_instant 0) w /\ wd_client w = Shown 1 1 1 LcConnected [] LcConnected /\ lifecycle (wd_network w) = LcReconnecting.
Proof. eexists. split; [eapply reachable_step; [apply sample_attached|apply (step_attempt (sample_instant 2))]|]. by vm_compute. Qed.
