(* ===== verification/Attach.v ===== *)
(** * Publishing a session and attaching to it ([bouncer/mod.rs], [DriverEnds])

    What a driver emits, tracked, kept in the backlog and told live; the
    snapshot an attaching client is given.  A client brought to the state the
    backlog starts in and played the backlog ends in the state of the session
    as it is. *)

From stdpp Require Import gmap sorting.
From S2P Require Import Prelude Str Keys Casemap Num Time Wire Message Parse Isupport Sanitize HistoryRequest Names Ip Address BanMask Nicks Channel ChannelState Directories ChannelOps UpstreamIdentity ChannelViews SessionState Rejoin Backlog Runner.

Local Open Scope Z_scope.

Inductive DriverEvent : Type :=
| EvStatus (status : DriverConnectionStatus) (revision : Z)
| EvLine (line : BufferedLine)
| EvEcho (line : BufferedLine) (origin : Z)
| EvNotice (line : BufferedLine)
| EvSession (snapshot : IrcSessionSnapshot)
| EvFeatures (features : UpstreamFeatures)
| EvReadMarker (account target timestamp : str) (origin : Z).

(** The session and the backlog a driver and its attached clients share. *)
Record Ends : Type := MkEnds { ends_session : IrcSessionState; ends_buffer : Buffer }.

Definition BOUNCER_OWNED_ISUPPORT : list str := [bs "CHATHISTORY"; bs "MSGREFTYPES"; bs "CLIENTTAGDENY"].

Definition relayed_token (tags : ClientTags) (token : str) : bool :=
  let key := isupport_key token in
  negb (existsb (str_eqb key) BOUNCER_OWNED_ISUPPORT) || (str_eqb key (bs "CLIENTTAGDENY") && match tags with Relayed => true | Denied => false end).

Definition shown_source (source : option Source) : str :=
  match source with
  | None => []
  | Some s => bs ":" ++ src_name s ++ match src_user s with Some u => bs "!" ++ u | None => [] end
              ++ match src_host s with Some h => bs "@" ++ h | None => [] end ++ bs " "
  end.

(** [live_isupport]: [None] for another line, [Some None] when nothing is
    left of it. *)
Definition live_isupport (line : str) (tags : ClientTags) : option (option str) :=
  match parse line with
  | Err _ => None
  | Ok m =>
      if negb (str_eqb (msg_command m) (bs "005")) || (length (msg_params m) <? 3)%nat then None
      else
        match List.filter (relayed_token tags) (take (length (msg_params m) - 2) (drop 1 (msg_params m))) with
        | [] => Some None
        | tokens =>
            let time := match message_tag m (bs "time") ≫= tag_value with Some time => bs "@time=" ++ time ++ bs " " | None => [] end in
            Some (Some (time ++ shown_source (msg_source m) ++ bs "005 " ++ nth 0 (msg_params m) [] ++ bs " " ++ Str.join " "%byte tokens ++ bs " :"
                        ++ default [] (last (msg_params m))))
        end
  end.

(** ** Publishing *)

Definition publish_buffered (o : Orders) (now : Z) (line : str) (b : Buffer) : option (DriverEvent * Buffer) :=
  if is_ephemeral_tagmsg line then Some (EvNotice (MkBuffered (position b) line), b)
  else '(seq, b) ← push o now line b; Some (EvLine (MkBuffered seq line), b).

Definition publish_echo (o : Orders) (now : Z) (line : str) (origin : Z) (b : Buffer) : option (DriverEvent * Buffer) :=
  if is_ephemeral_tagmsg line then Some (EvEcho (MkBuffered (position b) line) origin, b)
  else '(seq, b) ← push o now line b; Some (EvEcho (MkBuffered seq line) origin, b).

Definition emit_line (o : Orders) (now : Z) (line : str) (e : Ends) : option (list DriverEvent * Ends) :=
  '(ev, b) ← publish_buffered o now (ingest now line) (ends_buffer e); Some ([ev], MkEnds (ends_session e) b).

Definition emit_echo (o : Orders) (now : Z) (line : str) (origin : Z) (e : Ends) : option (list DriverEvent * Ends) :=
  '(ev, b) ← publish_echo o now (ingest now line) origin (ends_buffer e); Some ([ev], MkEnds (ends_session e) b).

Definition untracked_notice (now : Z) (b : Buffer) (name : str) : DriverEvent :=
  EvNotice (MkBuffered (position b) (ingest now (bnc_notice (bs "*") (bs "upstream confirmed a channel name e6irc cannot track: " ++ name)))).

(** [emit_session_line_from]. *)
Definition emit_session_line_from (o : Orders) (now : Z) (line : str) (origin : option Z) (e : Ends)
    : option (result ChannelLimitExceeded SessionChange * list DriverEvent * Ends) :=
  let line := ingest now line in
  '(r, s) ← observe o line (ends_session e);
  match r with
  | Err x => Some (Err x, [], e)
  | Ok change =>
      let was_in_burst := in_burst s in
      let '(burst_line, s) := in_registration_burst line s in
      let ended := was_in_burst && negb (in_burst s) in
      let b := if ended then buffer_adopt o (sess_names s) (sess_features s) (ends_buffer e) else ends_buffer e in
      let told := if ended then [EvFeatures (sess_features s)] else [] in
      if burst_line then Some (Ok change, told, MkEnds s b)
      else
        match live_isupport line (client_tags (sess_features s)) with
        | Some rewritten =>
            let b := buffer_adopt o (sess_names s) (sess_features s) b in
            Some (Ok change, told ++ match rewritten with Some line => [EvNotice (MkBuffered (position b) line)] | None => [] end, MkEnds s b)
        | None =>
            '(ev, b) ← match origin with None => publish_buffered o now line b | Some origin => publish_echo o now line origin b end;
            Some (Ok change, told ++ [ev] ++ (untracked_notice now b <$> untracked change), MkEnds s b)
        end
  end.

(** [begin_irc_session]; the snapshot of a session just begun. *)
Definition begin_irc_session (o : Orders) (nick : str) (e : Ends) : option (list DriverEvent * Ends) :=
  let s := begin_session nick (ends_session e) in
  snap ← snapshot (order_channels o) s;
  b ← push_session o snap (ends_buffer e);
  Some ([EvSession snap], MkEnds (set_burst true s) b).

Definition set_client_tags (now : Z) (tags : ClientTags) (e : Ends) : list DriverEvent * Ends :=
  let s := ends_session e in
  if (match client_tags (sess_features s), tags with Relayed, Relayed | Denied, Denied => true | _, _ => false end) then ([], e)
  else
    let s := set_features (MkFeatures (myinfo_modes (sess_features s)) (isupport (sess_features s)) tags) s in
    match sess_nick s with
    | None => ([], MkEnds s (ends_buffer e))
    | Some nick =>
        let token := default (bs "-CLIENTTAGDENY") (client_tag_deny (sess_features s)) in
        let line := ingest now (bs ":*bnc* 005 " ++ MiddleParam_echo nick ++ bs " " ++ token ++ bs " :are supported by this server") in
        ([EvNotice (MkBuffered (position (ends_buffer e)) line)], MkEnds s (ends_buffer e))
    end.

Definition remember_casemapping (o : Orders) (mapping : CaseMapping) (e : Ends) : Ends :=
  match sess_nick (ends_session e) with
  | Some _ => e
  | None => let s := set_names (with_casemapping mapping) (ends_session e) in MkEnds s (buffer_adopt o (sess_names s) (sess_features s) (ends_buffer e))
  end.

(** The session's own answer to a NAMES. *)
Definition names_from_session (line : str) (e : Ends) : option (list str) :=
  match parse line with
  | Err _ => None
  | Ok m =>
      if negb (eq_ignore_ascii_case (msg_command m) (bs "NAMES")) then None
      else match msg_params m with
           | [channel] =>
               let s := ends_session e in
               nick ← sess_nick s;
               shown ← sess_channels s !! names_fold (sess_names s) channel;
               view ← state_view channel s;
               names_reply view (bs "*bnc*") (MiddleParam_echo nick) (confirmed_str shown) (sess_features s)
           | _ => None
           end
  end.

(** ** Attaching *)

Record AttachSnapshot : Type := MkAttach {
  at_replay : Replay;
  at_session : option IrcSessionSnapshot;
  at_features : UpstreamFeatures;
  at_names : NetworkNames;
  at_head : option IrcSessionState;
  at_current : IrcSessionState;
}.

Definition subscribe_with_replay_snapshot (o : Orders) (now : Z) (after : option ReplayCursor) (e : Ends) : option (AttachSnapshot * Ends) :=
  b ← evict_expired o now (ends_buffer e);
  let s := ends_session e in
  Some (MkAttach (replay_after now after b) (snapshot (order_channels o) s) (sess_features s) (sess_names s) (ring_head b) s, MkEnds s b).

(** ** Sessions that track alike *)

(** All that decides how a session's lines are tracked. *)
Record agrees (s t : IrcSessionState) : Prop := {
  ag_nick : sess_nick s = sess_nick t;
  ag_channels : sess_channels s = sess_channels t;
  ag_views : sess_views s = sess_views t;
  ag_names : sess_names s = sess_names t;
  ag_isupport : isupport (sess_features s) = isupport (sess_features t);
}.

#[global] Instance agrees_equivalence : Equivalence agrees.
Proof.
  split; [by intros s|by intros s t []|]. intros s t u [] []. split; congruence.
Qed.

Lemma feature_value_isupport f g name : isupport f = isupport g -> feature_value f name = feature_value g name.
Proof. intros E. unfold feature_value. by rewrite E. Qed.

Lemma prefix_isupport f g : isupport f = isupport g -> Prefix_of f = Prefix_of g.
Proof. intros E. by apply prefix_of_value, feature_value_isupport. Qed.

Lemma views_observe_isupport m names f g own v : isupport f = isupport g -> views_observe m names f own v = views_observe m names g own v.
Proof.
  intros E. unfold views_observe, names_line, mode_line, channel_mode_changes. rewrite (prefix_isupport f g E), (feature_value_isupport f g (bs "CHANMODES") E). done.
Qed.

(** Joining is one step, whatever the channel was. *)
Definition len_at (key : str) (v : ChannelViews) : Z := match channels v !! key with Some view => list_len (view_members view) | None => 0 end.

Lemma joined_eq key v : 0 <= memberships v ->
  views_joined key v = if len_at key v <=? memberships v then Some (MkViews (<[key := joined_view]> (channels v)) (memberships v - len_at key v)) else None.
Proof.
  intros Hm. unfold views_joined, views_left, len_at, checked_sub. destruct (channels v !! key) as [view|].
  - destruct (_ <=? _); [|done]. cbn [mbind option_bind]. unfold put. cbn [channels memberships]. by rewrite insert_delete_eq.
  - rewrite (proj2 (Z.leb_le _ _)) by lia. cbn [mbind option_bind]. unfold put. by rewrite Z.sub_0_r.
Qed.

Lemma len_at_nonneg key v : 0 <= len_at key v.
Proof. unfold len_at. destruct (channels v !! key); [apply list_len_nonneg|done]. Qed.

Lemma joined_commute a b v : 0 <= memberships v -> (w ← views_joined a v; views_joined b w) = (w ← views_joined b v; views_joined a w).
Proof.
  intros Hm. destruct (decide (a = b)) as [->|Hne]; [done|]. rewrite (joined_eq a v Hm), (joined_eq b v Hm).
  pose proof (len_at_nonneg a v). pose proof (len_at_nonneg b v).
  destruct (Z.leb_spec (len_at a v) (memberships v)), (Z.leb_spec (len_at b v) (memberships v)); cbn [mbind option_bind]; try done;
    rewrite ?joined_eq by (cbn [memberships]; lia); unfold len_at in *; cbn [channels memberships]; rewrite ?(lookup_insert_ne _ a b), ?(lookup_insert_ne _ b a) by done.
  - destruct (Z.leb_spec (match channels v !! b with Some view => list_len (view_members view) | None => 0 end) (memberships v - match channels v !! a with Some view => list_len (view_members view) | None => 0 end));
      destruct (Z.leb_spec (match channels v !! a with Some view => list_len (view_members view) | None => 0 end) (memberships v - match channels v !! b with Some view => list_len (view_members view) | None => 0 end)); try lia; [|done].
    f_equal. f_equal; [by apply insert_insert_ne|lia].
  - rewrite (proj2 (Z.leb_gt _ _)); [done|lia].
  - rewrite (proj2 (Z.leb_gt _ _)); [done|lia].
Qed.

Lemma joined_nonneg key v w : 0 <= memberships v -> views_joined key v = Some w -> 0 <= memberships w.
Proof. intros Hm. rewrite joined_eq by done. destruct (Z.leb_spec (len_at key v) (memberships v)); [|done]. intros [= <-]. cbn. lia. Qed.

Lemma joineds_perm (f : ConfirmedChannel -> str) l l' v : l ≡ₚ l' -> 0 <= memberships v ->
  each_view (fun c => views_joined (f c)) l v = each_view (fun c => views_joined (f c)) l' v.
Proof.
  intros Hp. revert v. induction Hp as [|c l l' _ IH|c d l|l1 l2 l3 _ IH1 _ IH2]; intros v Hm; cbn [each_view].
  - done.
  - destruct (views_joined (f c) v) as [w|] eqn:E; [|done]. cbn. apply IH. by eapply joined_nonneg.
  - pose proof (joined_commute (f d) (f c) v Hm) as Hc. destruct (views_joined (f d) v) as [w|], (views_joined (f c) v) as [w'|]; cbn [mbind option_bind] in *; [by rewrite Hc|by rewrite Hc|by rewrite <- Hc|done].
  - by rewrite IH1, IH2.
Qed.

(** ** Channels joined, in any order *)

Lemma file_joined_map cs j l : NoDup l.*1 ->
  (foldl file_joined (cs, j) l).1 = list_to_map l ∪ cs /\ (foldl file_joined (cs, j) l).2 = j ++ (List.filter (fun kc => negb (bool_decide (is_Some (cs !! kc.1)))) l).*2.
Proof.
  revert cs j. induction l as [|[key c] l IH]; intros cs j Hn; cbn [foldl].
  - cbn. by rewrite (left_id_L ∅ (∪)), app_nil_r.
  - apply NoDup_cons in Hn as [Hk Hn]. cbn [file_joined fst snd]. destruct (IH (<[key := c]> cs) (if cs !! key is Some _ then j else j ++ [c]) Hn) as [E1 E2]. unfold file_joined at 2 4. cbn [fst snd]. rewrite E1, E2. split.
    + cbn. rewrite <- insert_union_l. rewrite insert_union_r; [done|]. by apply not_elem_of_list_to_map.
    + assert (Hf : List.filter (fun kc : str * ConfirmedChannel => negb (bool_decide (is_Some (<[key:=c]> cs !! kc.1)))) l = List.filter (fun kc : str * ConfirmedChannel => negb (bool_decide (is_Some (cs !! kc.1)))) l).
      { apply List.filter_ext_in. intros [k d] Hin%list_elem_of_In. cbn. rewrite lookup_insert_ne; [done|]. intros ->. apply Hk. apply list_elem_of_fmap. by exists (k, d). }
      rewrite Hf. cbn [List.filter fst]. destruct (cs !! key) as [x|] eqn:Ec; cbn; [done|]. by rewrite <- app_assoc.
Qed.

Lemma iterates_nodup {A} (iter : gmap str A -> list (str * A)) m : iterates iter -> NoDup (iter m).*1.
Proof. intros Hi. rewrite (Hi m). apply NoDup_fst_map_to_list. Qed.

Lemma Lfilter_perm {A} (f : A -> bool) l l' : l ≡ₚ l' -> List.filter f l ≡ₚ List.filter f l'.
Proof.
  induction 1 as [|x l l' _ IH|x y l|l1 l2 l3 _ IH1 _ IH2]; cbn; [done|by destruct (f x); [constructor|]| |by etransitivity].
  destruct (f x), (f y); try done. constructor.
Qed.

Lemma joined_orders cs j confirmed o o' :
  iterates o -> iterates o' ->
  (foldl file_joined (cs, j) (o confirmed)).1 = (foldl file_joined (cs, j) (o' confirmed)).1
  /\ (foldl file_joined (cs, j) (o confirmed)).2 ≡ₚ (foldl file_joined (cs, j) (o' confirmed)).2.
Proof.
  intros Ho Ho'. assert (Hp : o confirmed ≡ₚ o' confirmed) by by rewrite (Ho confirmed), (Ho' confirmed).
  destruct (file_joined_map cs j (o confirmed) (iterates_nodup o confirmed Ho)) as [-> ->].
  destruct (file_joined_map cs j (o' confirmed) (iterates_nodup o' confirmed Ho')) as [-> ->]. split.
  - f_equal. apply list_to_map_proper; [by apply iterates_nodup|done].
  - apply Permutation_app_head, fmap_Permutation, Lfilter_perm, Hp.
Qed.

Definition names_features (m : Message) : Prop := (to_ascii_uppercase <$> msg_command m) = bs "005".

Lemma observe_command_agrees o o' m own c s t :
  orders_ok o -> orders_ok o' -> agrees s t -> ~ names_features m ->
  match observe_command o m own c s, observe_command o' m own c t with
  | Ok (c1, s1), Ok (c2, t1) => agrees s1 t1 /\ sess_views s1 = sess_views s /\ change_left c1 = change_left c2 /\ change_joined c1 ≡ₚ change_joined c2
  | Err _, Err _ => True
  | _, _ => False
  end.
Proof.
  intros (_ & _ & Ho) (_ & _ & Ho') Hag H005. pose proof Hag as [A1 A2 A3 A4 A5]. unfold observe_command. rewrite <- A4, <- A2. cbn zeta. set (command := to_ascii_uppercase <$> msg_command m) in *.
  assert (Hset : forall (f : IrcSessionState -> IrcSessionState), (forall x, sess_views (f x) = sess_views x) -> agrees (f s) (f t) -> forall c1 : SessionChange,
            agrees (f s) (f t) /\ sess_views (f s) = sess_views s /\ change_left c1 = change_left c1 /\ change_joined c1 ≡ₚ change_joined c1) by by intros f ->.
  assert (Hch : forall cs, agrees (set_channels cs s) (set_channels cs t)) by by intros cs; split.
  repeat match goal with |- context [if (str_eqb command ?x && ?b) then _ else _] => destruct (str_eqb command x && b) eqn:? end.
  - destruct (msg_params m) as [|nick params]; [by apply (Hset id)|]. apply (Hset (set_nick (Some nick))); [done|]. by split.
  - destruct (msg_params m !! 1%nat); by apply (Hset id).
  - destruct (foldl (confirm (sess_names s)) (∅, untracked c) (params_list (msg_params m) 0)) as [confirmed refused]. destruct (_ <? _)%nat; [done|].
    destruct (joined_orders (sess_channels s) (change_joined c) confirmed _ _ Ho Ho') as [E1 E2].
    destruct (foldl file_joined _ (order_channels o confirmed)) as [cs j], (foldl file_joined _ (order_channels o' confirmed)) as [cs' j']. cbn [fst snd] in *. subst cs'. split_and!; [apply Hch|done|done|done].
  - destruct (foldl (leave (sess_names s)) (sess_channels s, []) (params_list (msg_params m) 0)) as [cs left_]. by apply (Hset (set_channels cs)).
  - destruct (str_eqb command (bs "KICK")).
    { destruct (kicked _ _ _ _) as [cs left_]. by apply (Hset (set_channels cs)). }
    by apply (Hset (set_channels ∅)).
  - destruct (str_eqb command (bs "KICK")).
    { destruct (kicked _ _ _ _) as [cs left_]. by apply (Hset (set_channels cs)). }
    destruct (str_eqb command (bs "004") && _ && _); [split_and!; [by split|done|done|done]|].
    destruct (str_eqb command (bs "005")) eqn:E5; [by apply str_eqb_eq in E5|]. cbn [andb]. by apply (Hset id).
Qed.

Lemma lefts_nonneg (f : str -> str) l v w : 0 <= memberships v -> each_view (fun c => views_left (f c)) l v = Some w -> 0 <= memberships w.
Proof.
  revert v. induction l as [|c l IH]; intros v Hm; cbn [each_view]; [by intros [= <-]|].
  destruct (views_left (f c) v) as [v1|] eqn:E; [|done]. cbn [mbind option_bind]. apply IH. unfold views_left in E.
  destruct (channels v !! f c) as [view|]; [|by injection E as <-]. unfold checked_sub in E.
  destruct (Z.leb_spec (list_len (view_members view)) (memberships v)); [|done]. injection E as <-. cbn. lia.
Qed.

Lemma observe_views_agrees m own q c1 c2 s t v :
  agrees s t -> change_left c1 = change_left c2 -> change_joined c1 ≡ₚ change_joined c2 -> 0 <= memberships v ->
  observe_views m own q c1 s v = observe_views m own q c2 t v.
Proof.
  intros [A1 A2 A3 A4 A5] Hl Hj Hm. unfold observe_views. rewrite <- A4, Hl. cbn zeta.
  assert (Hv : 0 <= memberships (if q : bool then views_clear v else v)) by by destruct q. generalize dependent (if q then views_clear v else v). intros w Hw.
  destruct (each_view _ (change_left c2) w) as [w1|] eqn:E1; [|done]. cbn [mbind option_bind]. apply lefts_nonneg in E1; [|done].
  rewrite (joineds_perm _ _ _ w1 Hj E1). destruct (each_view _ (change_joined c2) w1) as [w2|]; [|done]. cbn [mbind option_bind]. by apply views_observe_isupport.
Qed.

(** Sessions that agree go on agreeing, whatever order their maps iterate in,
    at every line but those that rename things. *)
Lemma observe_agrees o o' line s t r s1 :
  orders_ok o -> orders_ok o' -> agrees s t -> tracked s -> (forall m, parse line = Ok m -> ~ names_features m) ->
  observe o line s = Some (r, s1) -> exists r' t1, observe o' line t = Some (r', t1) /\ agrees s1 t1 /\ is_ok r = is_ok r'.
Proof.
  intros Ho Ho' Hag Ht Hline. pose proof Hag as [A1 A2 A3 A4 A5]. unfold observe. rewrite <- A1. destruct (sess_nick s) as [own|].
  2:{ intros [= <- <-]. by eexists _, _. }
  destruct (parse line) as [m|] eqn:Ep; [|intros [= <- <-]; by eexists _, _]. specialize (Hline m eq_refl). unfold observe_message. rewrite <- A4.
  set (c := match msg_source m with Some _ => _ | None => _ end). pose proof (observe_command_agrees o o' m own c s t Ho Ho' Hag Hline) as Hc.
  destruct (observe_command o m own c s) as [[c1 s2]|x], (observe_command o' m own c t) as [[c2 t2]|y]; try done; [|intros [= <- <-]; by eexists _, _].
  destruct Hc as (Hag2 & Hv & Hl & Hj). rewrite <- (ag_views _ _ Hag2), Hv. destruct (sess_views s) as [v|] eqn:Ev.
  - assert (Hm : 0 <= memberships v).
    { destruct (tr_views _ Ht v Ev) as [[Hh _] _]. pose proof (held_views_nonneg (channels v)). lia. }
    rewrite (observe_views_agrees m own _ c1 c2 s2 t2 v Hag2 Hl Hj Hm). destruct (observe_views m own _ c2 t2 v) as [w|]; [|done]. cbn [mbind option_bind].
    intros [= <- <-]. eexists _, _. split; [done|]. split; [|done]. destruct Hag2. by split.
  - intros [= <- <-]. by eexists _, _.
Qed.

(** ** Lines that change nothing tracked *)

Definition says (line : str) (commands : list str) : Prop := forall m, parse line = Ok m -> (to_ascii_uppercase <$> msg_command m) ∈ commands.

Definition CONVERSATION : list str := [bs "PRIVMSG"; bs "NOTICE"; bs "TAGMSG"].

Ltac compare_commands :=
  repeat match goal with
  | |- context [str_eqb (bs ?a) (bs ?b)] => let r := eval vm_compute in (str_eqb (bs a) (bs b)) in change (str_eqb (bs a) (bs b)) with r
  end; cbn [andb orb].
Ltac each_command H := repeat (apply elem_of_cons in H as [->|H]); try (by apply elem_of_nil in H).

Lemma command_inert o m own c s : (to_ascii_uppercase <$> msg_command m) ∈ CONVERSATION -> observe_command o m own c s = Ok (c, s).
Proof. intros H. unfold observe_command. cbn zeta. unfold CONVERSATION in H. each_command H; by compare_commands. Qed.

Lemma views_inert m names f own v : (to_ascii_uppercase <$> msg_command m) ∈ CONVERSATION -> views_observe m names f own v = Some v.
Proof. intros H. unfold views_observe. cbn zeta. unfold CONVERSATION in H. each_command H; by compare_commands. Qed.

Lemma conversation_inert o line s : says line CONVERSATION -> exists c s', observe o line s = Some (Ok c, s') /\ agrees s' s.
Proof.
  intros Hs. unfold observe. destruct (sess_nick s) as [own|] eqn:En; [|by eexists _, _]. destruct (parse line) as [m|] eqn:Ep; [|by eexists _, _].
  specialize (Hs m Ep). unfold observe_message. set (c := match msg_source m with Some _ => _ | None => _ end).
  assert (Hc : change_joined c = [] /\ change_left c = []).
  { unfold c. destruct (msg_source m) as [source|]; [|done]. destruct (src_host source); [|done]. by destruct (names_eq _ _ own). }
  assert (Hq : eq_ignore_ascii_case (msg_command m) (bs "QUIT") = false).
  { apply not_true_iff_false. intros E%casemap_eq_iff. rewrite <- to_upper_lower in E. unfold CONVERSATION in Hs.
    repeat (apply elem_of_cons in Hs as [Hs|Hs]; [by rewrite Hs in E|]). by apply elem_of_nil in Hs. }
  rewrite Hq, command_inert by done. cbn [andb]. destruct Hc as [Hj Hl]. destruct (sess_views s) as [v|] eqn:Ev; [|by eexists _, _].
  unfold observe_views. rewrite Hj, Hl. cbn [each_view mbind option_bind]. rewrite views_inert by done. cbn [mbind option_bind]. eexists _, _. split; [done|]. by split.
Qed.

(** ** A session just begun *)

Definition QUIET : list str := bs "MODE" :: CONVERSATION.

Record quiet (nick : str) (s : IrcSessionState) : Prop := {
  qu_nick : sess_nick s = Some nick;
  qu_channels : sess_channels s = ∅;
  qu_views : sess_views s = Some (MkViews ∅ 0);
}.

Lemma quiet_agrees nick s t : agrees s t -> quiet nick t -> quiet nick s.
Proof. intros [A1 A2 A3 _ _] [B1 B2 B3]. split; congruence. Qed.

Lemma quiet_inert nick o line s : quiet nick s -> says line QUIET -> exists c s', observe o line s = Some (Ok c, s') /\ agrees s' s.
Proof.
  intros Hq Hs. destruct (parse line) as [m|] eqn:Ep.
  2:{ apply conversation_inert. intros m E. congruence. }
  pose proof (Hs m Ep) as Hm. apply elem_of_cons in Hm as [Hm|Hm]; [|apply conversation_inert; intros x E; by assert (x = m) as -> by congruence].
  destruct Hq as [Q1 Q2 Q3]. unfold observe. rewrite Q1, Ep. unfold observe_message. set (c := match msg_source m with Some _ => _ | None => _ end).
  assert (Hc : change_joined c = [] /\ change_left c = []).
  { unfold c. destruct (msg_source m) as [source|]; [|done]. destruct (src_host source); [|done]. by destruct (names_eq _ _ nick). }
  assert (Hn : eq_ignore_ascii_case (msg_command m) (bs "QUIT") = false).
  { apply not_true_iff_false. intros E%casemap_eq_iff. rewrite <- to_upper_lower, Hm in E. done. }
  assert (Ec : observe_command o m nick c s = Ok (c, s)) by (unfold observe_command; cbn zeta; rewrite Hm; by compare_commands).
  rewrite Hn, Ec. cbn [andb]. rewrite Q3. unfold observe_views. destruct Hc as [-> ->]. cbn [each_view mbind option_bind].
  assert (Ev : views_observe m (sess_names s) (sess_features s) nick (MkViews ∅ 0) = Some (MkViews ∅ 0)).
  { unfold views_observe. cbn zeta. rewrite Hm. compare_commands. unfold mode_line, on_view. destruct (msg_params m) as [|channel [|modes arguments]]; try done. }
  rewrite Ev. cbn [mbind option_bind]. eexists _, _. split; [done|]. by split.
Qed.

Definition inert_entry (e : RingEntry) : Prop := match e with RingLine line => says (bl_line line) QUIET | RingSession _ _ => False end.

(** The backlog [l] after state [h] leads to a session of [nick] just begun. *)
Definition begins (nick : str) (h : option IrcSessionState) (l : list RingEntry) : Prop :=
  (exists pre seq rest, l = pre ++ RingSession seq (MkSnapshot nick []) :: rest /\ Forall inert_entry rest)
  \/ (Forall inert_entry l /\ exists s, h = Some s /\ quiet nick s).

Lemma state_at_quiet nick names features : quiet nick (state_at (MkSnapshot nick []) names features).
Proof. split; [done| |done]. cbn. unfold keyed. done. Qed.

Lemma begins_evict nick names features h ev h' l : advances names features h ev h' -> begins nick h (ev ++ l) -> begins nick h' l.
Proof.
  induction 1 as [h|o e h h1 ev h2 Ho Ha _ IH]; [done|]. intros Hb. apply IH. clear IH. destruct Hb as [(pre & seq & rest & E & HF)|[HF (s & -> & Hq)]].
  - destruct pre as [|x pre]; cbn in E; injection E as -> E; [right|left; by exists pre, seq, rest]. rewrite E. split; [done|]. cbn in Ha. injection Ha as <-. eexists. split; [done|]. apply state_at_quiet.
  - apply Forall_cons in HF as [He HF]. right. split; [done|]. destruct e as [line|]; [|done]. cbn in Ha, He.
    destruct (quiet_inert nick o (bl_line line) s Hq He) as (c & s' & E & Hag). rewrite E in Ha. cbn in Ha. injection Ha as <-. exists s'. split; [done|]. by eapply quiet_agrees.
Qed.

Lemma begins_snoc nick h l e : begins nick h l -> inert_entry e -> begins nick h (l ++ [e]).
Proof.
  intros [(pre & seq & rest & -> & HF)|[HF Hs]] He; [left|right].
  - exists pre, seq, (rest ++ [e]). rewrite <- app_assoc. split; [done|]. apply Forall_app. by split; [|constructor].
  - split; [|done]. apply Forall_app. by split; [|constructor].
Qed.

Lemma advances_app_inv names features h l k h' : advances names features h (l ++ k) h' -> exists h1, advances names features h l h1 /\ advances names features h1 k h'.
Proof.
  revert h. induction l as [|e l IH]; intros h Ha; [exists h; split; [constructor|done]|]. cbn in Ha. inversion Ha as [|o ? ? h1 ? ? Ho E Ha']; subst.
  destruct (IH h1 Ha') as (h2 & H1 & H2). exists h2. split; [by econstructor|done].
Qed.

(** Read under the names the network has now, it agrees with a session just
    begun under them. *)
Lemma begins_reads nick names features h l F :
  begins nick h l -> (forall s, h = Some s -> quiet nick s -> sess_names s = names /\ isupport (sess_features s) = isupport features) ->
  advances names features h l F -> exists f, F = Some f /\ quiet nick f /\ sess_names f = names /\ isupport (sess_features f) = isupport features.
Proof.
  assert (Hrest : forall rest s, Forall inert_entry rest -> quiet nick s -> sess_names s = names -> isupport (sess_features s) = isupport features ->
            advances names features (Some s) rest F -> exists f, F = Some f /\ quiet nick f /\ sess_names f = names /\ isupport (sess_features f) = isupport features).
  { induction rest as [|e rest IH]; intros s HF Hq Hn Hi Ha; inversion Ha as [|o ? ? h1 ? ? Ho E Ha']; subst; [by exists s|].
    apply Forall_cons in HF as [He HF]. destruct e as [line|]; [|done]. cbn in E, He. destruct (quiet_inert nick o (bl_line line) s Hq He) as (c & s' & Eo & Hag).
    rewrite Eo in E. cbn in E. injection E as <-. apply (IH s' HF); [by eapply quiet_agrees|by rewrite (ag_names _ _ Hag)|by rewrite (ag_isupport _ _ Hag)|done]. }
  intros [(pre & seq & rest & -> & HF)|[HF (s & -> & Hq)]] Hh Ha.
  - apply advances_app_inv in Ha as (h1 & _ & Ha). inversion Ha as [|o ? ? h2 ? ? Ho E Ha']; subst. cbn in E. injection E as <-. by apply (Hrest rest (state_at (MkSnapshot nick []) names features)); [|apply state_at_quiet|..].
  - destruct (Hh s eq_refl Hq) as [Hn Hi]. by apply (Hrest l s).
Qed.

(** ** Lines of a burst *)

Lemma upper_folded s : to_ascii_uppercase <$> casefold Ascii s = to_ascii_uppercase <$> s.
Proof. unfold casefold. rewrite <- list_fmap_compose. apply list_fmap_ext. intros _ b _. cbn. by destruct b. Qed.

Lemma upper_of s word : eq_ignore_ascii_case s word = true -> to_ascii_uppercase <$> s = to_ascii_uppercase <$> word.
Proof. intros E%casemap_eq_iff. by rewrite <- (upper_folded s), E, upper_folded. Qed.

Lemma burst_upper command : existsb (str_eqb command) REGISTRATION_BURST = true -> (to_ascii_uppercase <$> command) ∈ REGISTRATION_BURST.
Proof.
  intros (x & Hx%list_elem_of_In & ->%str_eqb_eq)%existsb_exists. unfold REGISTRATION_BURST in *.
  assert (Hf : Forall (fun w => to_ascii_uppercase <$> w = w) REGISTRATION_BURST) by (repeat constructor). rewrite Forall_forall in Hf. by rewrite (Hf x Hx).
Qed.

Lemma rekey_quiet nick o s : orders_ok o -> quiet nick s -> quiet nick (rekey o s).
Proof.
  intros (Hv & Hm & Hc) [Q1 Q2 Q3]. unfold rekey. split; cbn; [done| |].
  - pose proof (Hc (sess_channels s)) as Hp. rewrite Q2, map_to_list_empty in Hp. rewrite Q2. apply Permutation_nil_r in Hp. by rewrite Hp.
  - rewrite Q3. cbn. unfold views_rekey. cbn [channels]. pose proof (Hv ∅) as Hp. rewrite map_to_list_empty in Hp. apply Permutation_nil_r in Hp. by rewrite Hp.
Qed.

(** A line of the burst leaves the session just begun, whatever it renames. *)
Lemma burst_quiet nick o line m s :
  orders_ok o -> quiet nick s -> parse line = Ok m -> existsb (str_eqb (msg_command m)) REGISTRATION_BURST = true ->
  exists c s', observe o line s = Some (Ok c, s') /\ quiet nick s' /\ in_burst s' = in_burst s.
Proof.
  intros Ho Hq Ep Hb%burst_upper. pose proof Hq as [Q1 Q2 Q3]. unfold observe. rewrite Q1, Ep. unfold observe_message. set (c := match msg_source m with Some _ => _ | None => _ end).
  assert (Hc : change_joined c = [] /\ change_left c = []).
  { unfold c. destruct (msg_source m) as [source|]; [|done]. destruct (src_host source); [|done]. by destruct (names_eq _ _ nick). }
  assert (Hn : eq_ignore_ascii_case (msg_command m) (bs "QUIT") = false).
  { apply not_true_iff_false. intros E%upper_of. rewrite E in Hb. unfold REGISTRATION_BURST in Hb.
    repeat (apply elem_of_cons in Hb as [Hb|Hb]; [discriminate|]). by apply elem_of_nil in Hb. }
  assert (Ec : exists c' s', observe_command o m nick c s = Ok (c', s') /\ quiet nick s' /\ in_burst s' = in_burst s /\ change_joined c' = [] /\ change_left c' = []).
  { assert (Hsame : exists c' s', @Ok ChannelLimitExceeded _ (c, s) = Ok (c', s') /\ quiet nick s' /\ in_burst s' = in_burst s /\ change_joined c' = [] /\ change_left c' = []) by (destruct Hc; by exists c, s).
    unfold observe_command. cbn zeta. unfold REGISTRATION_BURST in Hb. set (command := to_ascii_uppercase <$> msg_command m) in *. clearbody command.
    repeat (apply elem_of_cons in Hb as [->|Hb]); [compare_commands..|by apply elem_of_nil in Hb]; try exact Hsame.
    - destruct (_ && _); [|exact Hsame]. eexists _, _. split; [done|]. split_and!; try done; apply Hc.
    - destruct (_ && _); [|exact Hsame]. destruct (adopt_tokens _ _) as [names adopted]. destruct (changed_casemapping adopted); eexists _, _; (split; [done|]).
      + split_and!; try done; try apply Hc. by apply rekey_quiet.
      + split_and!; try done; apply Hc.
    - destruct (match msg_params m with [] => false | _ => _ end); [|exact Hsame]. destruct (_ !! 1%nat) as [host|]; [|exact Hsame].
      eexists _, _. split; [done|]. split_and!; try done; destruct (is_empty host); by apply Hc. }
  destruct Ec as (c' & s' & -> & Hq' & Hb' & Hj & Hl). rewrite Hn. cbn [andb]. rewrite (qu_views _ _ Hq'). unfold observe_views. rewrite Hj, Hl. cbn [each_view mbind option_bind].
  assert (Ev : views_observe m (sess_names s') (sess_features s') nick (MkViews ∅ 0) = Some (MkViews ∅ 0)).
  { unfold views_observe. cbn zeta. unfold REGISTRATION_BURST in Hb. each_command Hb; by compare_commands. }
  rewrite Ev. cbn [mbind option_bind]. eexists _, _. split; [done|]. split; [|done]. destruct Hq'. by split.
Qed.

(** What a line outside a burst leaves of the session. *)
Record keeps_rules (s s' : IrcSessionState) : Prop := {
  kr_names : sess_names s' = sess_names s;
  kr_isupport : isupport (sess_features s') = isupport (sess_features s);
  kr_burst : in_burst s' = in_burst s;
  kr_nick : is_Some (sess_nick s) -> is_Some (sess_nick s');
  kr_views : is_Some (sess_views s) -> is_Some (sess_views s');
}.

#[global] Instance keeps_rules_preorder : PreOrder keeps_rules.
Proof. split; [by intros s|]. intros s t u [] []. split; [congruence..|tauto|tauto]. Qed.

Lemma observe_command_keeps o m own c s c' s' : ~ names_features m -> observe_command o m own c s = Ok (c', s') -> keeps_rules s s'.
Proof.
  intros H005. unfold observe_command. cbn zeta.
  repeat match goal with |- context [if (str_eqb ?a ?x && ?b) then _ else _] => destruct (str_eqb a x && b) eqn:? end.
  - destruct (msg_params m) as [|nick params]; intros [= <- <-]; [done|]. by split.
  - destruct (msg_params m !! 1%nat); by intros [= <- <-].
  - destruct (foldl (confirm _) _ _) as [confirmed refused]. destruct (_ <? _)%nat; [done|]. destruct (foldl file_joined _ _). by intros [= <- <-].
  - destruct (foldl (leave _) _ _). by intros [= <- <-].
  - destruct (str_eqb _ (bs "KICK")); [destruct (kicked _ _ _ _)|]; by intros [= <- <-].
  - destruct (str_eqb _ (bs "KICK")); [destruct (kicked _ _ _ _); by intros [= <- <-]|].
    destruct (str_eqb _ (bs "004") && _ && _); [by intros [= <- <-]|].
    destruct (str_eqb _ (bs "005")) eqn:E5; [by apply str_eqb_eq in E5|]. by intros [= <- <-].
Qed.

Lemma observe_keeps o line s r s' : (forall m, parse line = Ok m -> ~ names_features m) -> observe o line s = Some (r, s') -> keeps_rules s s'.
Proof.
  intros Hline. unfold observe. destruct (sess_nick s) as [own|]; [|by intros [= <- <-]]. destruct (parse line) as [m|]; [|by intros [= <- <-]].
  unfold observe_message. destruct (observe_command _ _ _ _ _) as [[c s1]|x] eqn:E; [|by intros [= <- <-]]. apply observe_command_keeps in E; [|by apply Hline].
  destruct (sess_views s1) as [v|]; [|by intros [= <- <-]]. destruct (observe_views _ _ _ _ _ _) as [w|]; [|done]. cbn. intros [= <- <-].
  transitivity s1; [done|]. by split.
Qed.

(** ** The backlog read to its end *)

(** However it is read, the backlog leads to a session that agrees with [s]. *)
Definition reads_to (b : Buffer) (s : IrcSessionState) : Prop :=
  forall F, advances (buf_names b) (buf_features b) (ring_head b) (entries b) F -> exists f, F = Some f /\ agrees s f.

Lemma reads_moved b b' pushed ev s s' :
  moved b b' pushed ev -> followed b b' ev -> reads_to b s ->
  (forall f F, agrees s f -> advances (buf_names b) (buf_features b) (Some f) pushed F -> exists f', F = Some f' /\ agrees s' f') -> reads_to b' s'.
Proof.
  intros M [Fn Ff Fh] Hr Hp F Ha. rewrite Fn, Ff in Ha. pose proof (advances_app _ _ _ _ _ _ _ Fh Ha) as Hall. rewrite <- (mv_entries _ _ _ _ M) in Hall.
  apply advances_app_inv in Hall as (h & H1 & H2). destruct (Hr h H1) as (f & -> & Hf). by eapply Hp.
Qed.

Lemma advances_one names features h e F : advances names features h [e] F -> exists o, orders_ok o /\ advance o names features e h = Some F.
Proof. intros Ha. inversion Ha as [|o ? ? h1 ? ? Ho E Ha']; subst. inversion Ha'; subst. by exists o. Qed.

Lemma reads_observed o line seq s r s' names features f F :
  orders_ok o -> tracked s -> (forall m, parse line = Ok m -> ~ names_features m) -> observe o line s = Some (r, s') ->
  agrees s f -> advances names features (Some f) [RingLine (MkBuffered seq line)] F -> exists f', F = Some f' /\ agrees s' f'.
Proof.
  intros Ho Ht Hline Eo Hf (o' & Ho' & E)%advances_one. cbn in E. destruct (observe_agrees o o' line s f r s' Ho Ho' Hf Ht Hline Eo) as (r' & f' & E' & Hag & _).
  rewrite E' in E. cbn in E. injection E as <-. by exists f'.
Qed.

Lemma reads_said line seq s names features f F :
  says line CONVERSATION -> agrees s f -> advances names features (Some f) [RingLine (MkBuffered seq line)] F -> exists f', F = Some f' /\ agrees s f'.
Proof.
  intros Hs Hf (o & Ho & E)%advances_one. cbn in E. destruct (conversation_inert o line f Hs) as (c & f' & E' & Hag). rewrite E' in E. cbn in E. injection E as <-.
  exists f'. split; [done|]. etransitivity; [exact Hf|by symmetry].
Qed.

Lemma adopt_quiet nick o names features s : orders_ok o -> quiet nick s -> quiet nick (adopt o names features s).
Proof.
  intros Ho [Q1 Q2 Q3]. unfold adopt. cbn zeta. destruct (negb _); [|by split]. apply rekey_quiet; [done|]. by split.
Qed.

Lemma adopt_rules o names features s : sess_names (adopt o names features s) = names /\ sess_features (adopt o names features s) = features.
Proof. unfold adopt. cbn zeta. by destruct (negb _). Qed.

Lemma begins_adopt nick o names features h l : orders_ok o -> begins nick h l -> begins nick (adopt o names features <$> h) l.
Proof. intros Ho [Hl|[HF (s & -> & Hq)]]; [by left|]. right. split; [done|]. eexists. split; [done|]. by apply adopt_quiet. Qed.

(** At the end of a burst the backlog, read under the names it brought, leads
    to the session. *)
Lemma adopted_reads nick o b s names features :
  orders_ok o -> begins nick (ring_head b) (entries b) -> quiet nick s -> names = sess_names s -> isupport features = isupport (sess_features s) ->
  reads_to (buffer_adopt o names features b) s.
Proof.
  intros Ho Hb Hq Hn Hi F Ha. cbn in Ha. apply (begins_reads nick) in Ha; [|by apply begins_adopt|].
  - destruct Ha as (f & -> & [F1 F2 F3] & Hfn & Hfi). exists f. split; [done|]. destruct Hq. split; congruence.
  - intros t (t0 & E & ->)%fmap_Some _. by destruct (adopt_rules o names features t0) as [-> ->].
Qed.

(** ** What is published *)

Definition not_features (line : str) : Prop := forall m, parse line = Ok m -> ~ names_features m.
Definition plain_entry (e : RingEntry) : Prop := match e with RingLine line => not_features (bl_line line) | RingSession _ _ => True end.

Lemma said_not_features line words : says line words -> (bs "005" ∉ words) -> not_features line.
Proof. intros Hs Hn m E H005. apply Hn. rewrite <- H005. by apply Hs. Qed.

Lemma conversation_plain line : says line CONVERSATION -> not_features line.
Proof. intros Hs. apply (said_not_features _ _ Hs). unfold CONVERSATION. rewrite !not_elem_of_cons. split_and!; [done..|apply not_elem_of_nil]. Qed.

Lemma quiet_plain line : says line QUIET -> not_features line.
Proof. intros Hs. apply (said_not_features _ _ Hs). unfold QUIET, CONVERSATION. rewrite !not_elem_of_cons. split_and!; [done..|apply not_elem_of_nil]. Qed.

Lemma not_features_ok line : not_features line -> line_ok line.
Proof. intros Hn m E H005. by destruct (Hn m E). Qed.

Lemma ephemeral_says line : is_ephemeral_tagmsg line = true -> says line CONVERSATION.
Proof.
  unfold is_ephemeral_tagmsg. intros H m E. rewrite E in H. apply andb_true_iff in H as [H%upper_of _]. rewrite H. unfold CONVERSATION. set_solver.
Qed.

(** [line] entered the ring, unless it is a moment. *)
Record entered (line : str) (b b' : Buffer) : Prop := {
  en_ok : ring_ok b';
  en_moved : (is_ephemeral_tagmsg line = true /\ b' = b)
             \/ exists gone, moved b b' [RingLine (MkBuffered (next_seq b) line)] gone /\ followed b b' gone;
}.

Lemma publish_entered o now line origin b : orders_ok o -> ring_ok b -> line_ok line ->
  exists ev b', match origin with None => publish_buffered o now line b | Some origin => publish_echo o now line origin b end = Some (ev, b') /\ entered line b b'.
Proof.
  intros Ho Hb Hl. destruct (push_ok o now line b Ho Hb Hl) as (b' & gone & E & Hb' & _ & M & F).
  destruct origin as [origin|]; [unfold publish_echo|unfold publish_buffered];
    (destruct (is_ephemeral_tagmsg line) eqn:Et; [eexists _, b; split; [done|]; split; [done|by left]|]); rewrite E; cbn [mbind option_bind]; eexists _, b'; (split; [done|]; split; [done|]; right; by exists gone).
Qed.

Lemma moved_plain b b' pushed gone : moved b b' pushed gone -> Forall plain_entry (entries b) -> Forall plain_entry pushed -> Forall plain_entry (entries b').
Proof. intros M H1 H2. assert (H : Forall plain_entry (entries b ++ pushed)) by by apply Forall_app. rewrite (mv_entries _ _ _ _ M) in H. by apply Forall_app in H as [_ H]. Qed.

Lemma entered_plain line b b' : entered line b b' -> not_features line -> Forall plain_entry (entries b) -> Forall plain_entry (entries b').
Proof. intros [_ [[_ ->]|(gone & M & _)]] Hn Hp; [done|]. eapply moved_plain; [done|done|]. by constructor. Qed.

Lemma entered_rules line b b' : entered line b b' -> buf_names b' = buf_names b /\ buf_features b' = buf_features b.
Proof. by intros [_ [[_ ->]|(gone & _ & [])]]. Qed.

Lemma moved_begins nick b b' pushed gone : moved b b' pushed gone -> followed b b' gone -> begins nick (ring_head b) (entries b ++ pushed) -> begins nick (ring_head b') (entries b').
Proof. intros M F Hb. rewrite (mv_entries _ _ _ _ M) in Hb. eapply begins_evict; [apply F|done]. Qed.

Lemma entered_begins nick line b b' : entered line b b' -> says line QUIET -> begins nick (ring_head b) (entries b) -> begins nick (ring_head b') (entries b').
Proof. intros [_ [[_ ->]|(gone & M & F)]] Hs Hb; [done|]. eapply moved_begins; [done|done|]. by apply begins_snoc. Qed.

Lemma entered_observed o line b b' s r s' :
  entered line b b' -> orders_ok o -> tracked s -> not_features line -> observe o line s = Some (r, s') -> reads_to b s -> reads_to b' s'.
Proof.
  intros [_ [[Et ->]|(gone & M & F)]] Ho Ht Hn Eo Hr.
  - destruct (conversation_inert o line s (ephemeral_says _ Et)) as (c & s1 & E & Hag). assert (s1 = s') as -> by congruence.
    intros G Ha. destruct (Hr G Ha) as (f & -> & Hf). exists f. split; [done|by etransitivity].
  - eapply reads_moved; [done|done|done|]. intros f G Hf Ha. by eapply reads_observed.
Qed.

Lemma entered_said line b b' s : entered line b b' -> says line CONVERSATION -> reads_to b s -> reads_to b' s.
Proof. intros [_ [[_ ->]|(gone & M & F)]] Hs Hr; [done|]. eapply reads_moved; [done|done|done|]. intros f G Hf Ha. by eapply reads_said. Qed.

(** ** Runs of publishing *)

Inductive PublishOp : Type :=
| PmBegin (o : Orders) (nick : str)
| PmLine (o : Orders) (now : Z) (line : str) (origin : option Z)
| PmEmit (o : Orders) (now : Z) (line : str)
| PmEcho (o : Orders) (now : Z) (line : str) (origin : Z)
| PmTags (now : Z) (tags : ClientTags)
| PmRemember (o : Orders) (mapping : CaseMapping)
| PmPreload (older : list StoredBacklogLine)
| PmRetain (days : Z)
| PmAttach (o : Orders) (now : Z) (after : option ReplayCursor).

Definition on_buffer (f : Buffer -> option Buffer) (e : Ends) : option Ends := b ← f (ends_buffer e); Some (MkEnds (ends_session e) b).

Definition publish_op (op : PublishOp) (e : Ends) : option Ends :=
  match op with
  | PmBegin o nick => snd <$> begin_irc_session o nick e
  | PmLine o now line origin => snd <$> emit_session_line_from o now line origin e
  | PmEmit o now line => snd <$> emit_line o now line e
  | PmEcho o now line origin => snd <$> emit_echo o now line origin e
  | PmTags now tags => Some (set_client_tags now tags e).2
  | PmRemember o mapping => Some (remember_casemapping o mapping e)
  | PmPreload older => on_buffer (preload_front older) e
  | PmRetain days => on_buffer (fun b => Some (set_days days b)) e
  | PmAttach o now after => snd <$> subscribe_with_replay_snapshot o now after e
  end.

(** No PREFIX has more symbols than modes, the network renames things only as
    it welcomes a session, what is emitted outside a session is conversation,
    and a backlog is restored before the first session. *)
Definition legal (op : PublishOp) (e : Ends) : Prop :=
  match op with
  | PmBegin o _ => orders_ok o
  | PmLine o now line _ => orders_ok o /\ line_ok (ingest now line) /\ (in_burst (ends_session e) = false -> not_features (ingest now line))
  | PmEmit o now line | PmEcho o now line _ => orders_ok o /\ says (ingest now line) CONVERSATION
  | PmTags _ _ | PmRetain _ => True
  | PmRemember o _ => orders_ok o
  | PmPreload older => sess_nick (ends_session e) = None
                       /\ Forall (fun stored => not_features (stamp_time (upstream_line (stored_line stored)) (stored_at stored))) older
  | PmAttach o _ _ => orders_ok o
  end.

Record steady (s : IrcSessionState) (b : Buffer) : Prop := {
  sd_names : buf_names b = sess_names s;
  sd_isupport : isupport (buf_features b) = isupport (sess_features s);
  sd_reads : reads_to b s;
}.

Definition phase (s : IrcSessionState) (b : Buffer) : Prop :=
  match sess_nick s with
  | None => in_burst s = false /\ sess_channels s = ∅ /\ sess_views s = Some (MkViews ∅ 0)
  | Some nick => if in_burst s then quiet nick s /\ begins nick (ring_head b) (entries b) else steady s b
  end.

Record publishing (e : Ends) : Prop := {
  pb_tracked : tracked (ends_session e);
  pb_views : is_Some (sess_views (ends_session e));
  pb_ring : ring_ok (ends_buffer e);
  pb_plain : Forall plain_entry (entries (ends_buffer e));
  pb_phase : phase (ends_session e) (ends_buffer e);
}.

Lemma begin_publishing o nick e : orders_ok o -> publishing e -> exists e', publish_op (PmBegin o nick) e = Some e' /\ publishing e'.
Proof.
  intros Ho [P1 P2 P3 P4 P5]. cbn. unfold begin_irc_session, snapshot. cbn [begin_session sess_nick sess_channels sess_names mbind option_bind].
  assert (Hp : order_channels o ∅ = []). { destruct Ho as (_ & _ & Ho). pose proof (Ho ∅) as Hp. rewrite map_to_list_empty in Hp. by apply Permutation_nil_r in Hp. }
  rewrite Hp. cbn [fmap list_fmap merge_sort]. change (merge_sort (by_fold (sess_names (ends_session e))) []) with (@nil str).
  destruct (push_session_ok o (MkSnapshot nick []) (ends_buffer e) Ho P3) as (b' & gone & E & Hb' & _ & M & F); [apply Nat.le_0_l|]. rewrite E. cbn.
  eexists. split; [done|]. assert (Ht : tracked (begin_session nick (ends_session e))) by apply begin_tracked.
  split; cbn [ends_session ends_buffer]; [by destruct Ht|destruct P2 as [v Hv]; cbn; by rewrite Hv|done| |].
  - eapply moved_plain; [done|done|]. by repeat constructor.
  - unfold phase. cbn [set_burst sess_nick begin_session in_burst]. split.
    + destruct P2 as [v Hv]. split; cbn; [done|done|by rewrite Hv].
    + eapply moved_begins; [done|done|]. left. by exists (entries (ends_buffer e)), (next_seq (ends_buffer e)), [].
Qed.

Lemma features_exact m : names_features m -> msg_command m = bs "005".
Proof.
  unfold names_features. set (command := msg_command m). clearbody command. clear m. destruct command as [|a [|b [|c [|d command]]]]; try discriminate. cbn. intros [= Ha Hb Hc].
  assert (Hz : forall x, to_ascii_uppercase x = "0"%byte -> x = "0"%byte) by by intros [].
  assert (Hf : forall x, to_ascii_uppercase x = "5"%byte -> x = "5"%byte) by by intros [].
  by rewrite (Hz a), (Hz b), (Hf c).
Qed.

Lemma live_isupport_plain line tags : not_features line -> live_isupport line tags = None.
Proof.
  intros Hn. unfold live_isupport. destruct (parse line) as [m|] eqn:E; [|done]. specialize (Hn m E). destruct (str_eqb (msg_command m) (bs "005")) eqn:Ec; [|done].
  destruct Hn. unfold names_features. apply str_eqb_eq in Ec. by rewrite Ec.
Qed.

Lemma observe_runs o line s : orders_ok o -> tracked s -> line_ok line -> exists r s', observe o line s = Some (r, s') /\ tracked s'.
Proof.
  intros Ho Ht Hl. destruct (session_op_tracked (SLine o line) s) as (s' & E & Ht'); [by split|done|]. cbn in E.
  destruct (observe o line s) as [[r s1]|]; [|done]. injection E as ->. by exists r, s'.
Qed.

Lemma observe_refused o line s s' x : observe o line s = Some (Err x, s') -> s' = s.
Proof.
  unfold observe. destruct (sess_nick s); [|done]. destruct (parse line); [|done]. unfold observe_message. destruct (observe_command _ _ _ _ _) as [[c s1]|]; [|by intros [= _ <-]].
  destruct (sess_views s1); [|done]. by destruct (observe_views _ _ _ _ _ _).
Qed.

(** What a line does to a session in its burst. *)
Lemma burst_cases nick o line s : orders_ok o -> tracked s -> line_ok line -> quiet nick s -> in_burst s = true ->
  exists r s1, observe o line s = Some (r, s1) /\ tracked s1 /\ in_burst s1 = true
    /\ ((is_ok r = true /\ quiet nick s1 /\ exists going, in_registration_burst line s1 = (true, set_burst going s1))
        \/ (is_ok r = true /\ quiet nick s1 /\ says line QUIET /\ in_registration_burst line s1 = (false, s1))
        \/ (not_features line /\ in_registration_burst line s1 = (false, set_burst false s1))).
Proof.
  intros Ho Ht Hl Hq Hb. destruct (observe_runs o line s Ho Ht Hl) as (r & s1 & E & Ht1). exists r, s1. split; [done|]. split; [done|].
  destruct (parse line) as [m|] eqn:Ep.
  2:{ assert (Hn : not_features line) by (intros m Em; congruence). pose proof (observe_keeps o line s r s1 Hn E) as [_ _ K _ _]. rewrite Hb in K. split; [done|].
      right. right. split; [done|]. unfold in_registration_burst. by rewrite K, Ep. }
  destruct (existsb (str_eqb (msg_command m)) REGISTRATION_BURST) eqn:Ec.
  { destruct (burst_quiet nick o line m s Ho Hq Ep Ec) as (c & s2 & E2 & Hq2 & K). rewrite E2 in E. injection E as <- <-. rewrite Hb in K. split; [done|].
    left. split; [done|]. split; [done|]. unfold in_registration_burst. rewrite K, Ep, Ec. cbn [negb]. destruct (_ || _); [by exists false|exists true].
    f_equal. destruct s2. cbn in *. by rewrite K. }
  assert (Hn : not_features line).
  { intros m' Em H005%features_exact. assert (m' = m) as -> by congruence. by rewrite H005 in Ec. }
  pose proof (observe_keeps o line s r s1 Hn E) as [_ _ K _ _]. rewrite Hb in K. split; [done|]. right. unfold in_registration_burst. rewrite K, Ep, Ec. cbn [negb].
  destruct (_ || _) eqn:Ei; [left|by right].
  assert (Hs : says line QUIET).
  { intros m' Em. assert (m' = m) as -> by congruence. unfold QUIET, CONVERSATION. apply orb_true_iff in Ei as [[Ei%upper_of _]%andb_true_iff|Ei%upper_of]; rewrite Ei; cbn; set_solver. }
  destruct (quiet_inert nick o line s Hq Hs) as (c & s2 & E2 & Hag). rewrite E2 in E. injection E as <- <-. split_and!; [done| |done|done]. by eapply quiet_agrees.
Qed.

Lemma burst_tracked_set going s : tracked s -> tracked (set_burst going s).
Proof. by intros []. Qed.

Lemma adopt_ring_ok o s b : orders_ok o -> tracked s -> ring_ok b -> ring_ok (buffer_adopt o (sess_names s) (sess_features s) b).
Proof.
  intros Ho Ht Hb. destruct (ring_op_keeps (RAdopt o (sess_names s) (sess_features s)) b) as (b' & E & Hb'); [split; [done|apply Ht]|done|]. by injection E as ->.
Qed.

Lemma reads_to_burst b s going : reads_to b s -> reads_to b (set_burst going s).
Proof. intros Hr F Ha. destruct (Hr F Ha) as (f & -> & []). exists f. split; [done|]. by split. Qed.

(** A line of the burst itself, shown to no one. *)
Lemma burst_line_phase nick o going s b :
  orders_ok o -> tracked s -> is_Some (sess_views s) -> quiet nick s -> in_burst s = true -> ring_ok b -> Forall plain_entry (entries b) -> begins nick (ring_head b) (entries b) ->
  publishing (MkEnds (set_burst going s) (if in_burst s && negb going then buffer_adopt o (sess_names s) (sess_features s) b else b)).
Proof.
  intros Ho Ht Hv Hq Hb Hr Hp Hbeg. rewrite Hb. pose proof Hq as [Q1 Q2 Q3]. destruct going; cbn [negb andb]; split; cbn [ends_session ends_buffer]; try done; try by apply burst_tracked_set.
  - unfold phase. cbn. rewrite Q1. split; [by split|done].
  - by apply adopt_ring_ok.
  - unfold phase. cbn [set_burst sess_nick in_burst]. rewrite Q1. split; [done|done|]. apply reads_to_burst. by eapply adopted_reads.
Qed.

(** A line of the session, published. *)
Lemma steady_line o now line origin s r s1 b :
  orders_ok o -> tracked s -> tracked s1 -> is_Some (sess_nick s) -> is_Some (sess_views s) -> not_features line -> observe o line s = Some (r, s1) ->
  ring_ok b -> Forall plain_entry (entries b) -> steady s b ->
  exists ev b', match origin with None => publish_buffered o now line b | Some origin => publish_echo o now line origin b end = Some (ev, b')
    /\ publishing (MkEnds (set_burst false s1) b').
Proof.
  intros Ho Ht Ht1 Hn Hv Hnf Eo Hb Hp [S1 S2 S3]. pose proof (observe_keeps o line s r s1 Hnf Eo) as [K1 K2 K3 K4 K5].
  destruct (publish_entered o now line origin b Ho Hb (not_features_ok _ Hnf)) as (ev & b' & E & He). exists ev, b'. split; [done|].
  destruct (entered_rules _ _ _ He) as [R1 R2]. split; cbn [ends_session ends_buffer].
  - by apply burst_tracked_set.
  - by apply K5.
  - apply He.
  - by eapply entered_plain.
  - unfold phase. cbn [set_burst sess_nick in_burst]. destruct (K4 Hn) as [nick ->]. split; cbn; [congruence|congruence|]. apply reads_to_burst. by apply (entered_observed o line b b' s r s1).
Qed.

Lemma set_burst_same s b : in_burst s = b -> set_burst b s = s.
Proof. destruct s. cbn. by intros ->. Qed.

Lemma line_steady_publishing o now line origin e :
  orders_ok o -> not_features (ingest now line) -> in_burst (ends_session e) = false -> publishing e -> exists e', publish_op (PmLine o now line origin) e = Some e' /\ publishing e'.
Proof.
  intros Ho Hnf Hb He. pose proof He as [P1 P2 P3 P4 P5]. destruct e as [s b]. cbn [ends_session ends_buffer publish_op] in *. unfold emit_session_line_from. cbn [ends_session ends_buffer]. cbn zeta.
  destruct (observe_runs o (ingest now line) s Ho P1 (not_features_ok _ Hnf)) as (r & s1 & E & Ht1). rewrite E. cbn [mbind option_bind].
  destruct r as [change|x]; [|eexists; split; [done|done]].
  pose proof (observe_keeps _ _ _ _ _ Hnf E) as [K1 K2 K3 K4 K5]. rewrite Hb in K3. unfold in_registration_burst. rewrite K3. cbn [negb andb]. rewrite live_isupport_plain by done.
  destruct (sess_nick s) as [nick|] eqn:En.
  - unfold phase in P5. rewrite En, Hb in P5. destruct (steady_line o now (ingest now line) origin s (Ok change) s1 b) as (ev & b' & -> & Hpub); try done.
    cbn [mbind option_bind]. eexists. split; [done|]. by rewrite set_burst_same in Hpub.
  - destruct (publish_entered o now (ingest now line) origin b Ho P3 (not_features_ok _ Hnf)) as (ev & b' & -> & Hent). cbn [mbind option_bind].
    eexists. split; [done|]. unfold observe in E. rewrite En in E. injection E as _ <-. split; cbn [ends_session ends_buffer]; [done|done|apply Hent|by eapply entered_plain|].
    cbn [snd ends_session ends_buffer]. unfold phase in *. by rewrite En in *.
Qed.

Lemma line_burst_publishing o now line origin e nick :
  orders_ok o -> line_ok (ingest now line) -> in_burst (ends_session e) = true -> sess_nick (ends_session e) = Some nick -> publishing e ->
  exists e', publish_op (PmLine o now line origin) e = Some e' /\ publishing e'.
Proof.
  intros Ho Hl Hb Hnick He. pose proof He as [P1 P2 P3 P4 P5]. destruct e as [s b]. cbn [ends_session ends_buffer publish_op] in *. unfold phase in P5. rewrite Hnick, Hb in P5. destruct P5 as [Hq Hbeg].
  unfold emit_session_line_from. cbn [ends_session ends_buffer]. cbn zeta.
  destruct (burst_cases nick o (ingest now line) s Ho P1 Hl Hq Hb) as (r & s1 & E & Ht1 & Hb1 & Hcases). rewrite E. cbn [mbind option_bind].
  destruct r as [change|x]; [|eexists; split; [done|done]].
  destruct Hcases as [(_ & Hq1 & going & Eb)|[(_ & Hq1 & Hs & Eb)|(Hnf & Eb)]]; rewrite Eb.
  - eexists. split; [done|]. apply (burst_line_phase nick o going s1 b); try done. rewrite (qu_views _ _ Hq1). by eexists.
  - rewrite Hb1. cbn [negb andb]. rewrite live_isupport_plain by by apply quiet_plain.
    destruct (publish_entered o now (ingest now line) origin b Ho P3 Hl) as (ev & b' & -> & Hent). cbn [mbind option_bind]. eexists. split; [done|].
    split; cbn [snd ends_session ends_buffer]; [done|rewrite (qu_views _ _ Hq1); by eexists|apply Hent|eapply entered_plain; [done|by apply quiet_plain|done]|].
    unfold phase. rewrite (qu_nick _ _ Hq1), Hb1. split; [done|]. by eapply entered_begins.
  - rewrite Hb1. cbn [set_burst in_burst negb andb sess_names sess_features]. rewrite live_isupport_plain by done.
    pose proof (observe_keeps _ _ _ _ _ Hnf E) as [K1 K2 K3 K4 K5].
    destruct (steady_line o now (ingest now line) origin s (Ok change) s1 (buffer_adopt o (sess_names s1) (sess_features s1) b)) as (ev & b' & E' & Hpub); try done.
    + by apply adopt_ring_ok.
    + split; [done|done|]. by eapply adopted_reads.
    + cbn [set_burst sess_names sess_features]. rewrite E'. cbn [mbind option_bind]. by eexists.
Qed.

(** What is said outside the session. *)
Lemma said_publishing line e b' : says line CONVERSATION -> entered line (ends_buffer e) b' -> publishing e -> publishing (MkEnds (ends_session e) b').
Proof.
  intros Hs Hent [P1 P2 P3 P4 P5]. destruct (entered_rules _ _ _ Hent) as [R1 R2]. split; cbn [ends_session ends_buffer]; [done|done|apply Hent|eapply entered_plain; [done|by apply conversation_plain|done]|].
  unfold phase in *. destruct (sess_nick (ends_session e)) as [nick|]; [|done]. destruct (in_burst (ends_session e)).
  - destruct P5 as [Hq Hb]. split; [done|]. eapply entered_begins; [done| |done]. intros m E. right. by apply Hs.
  - destruct P5 as [S1 S2 S3]. split; [congruence|congruence|]. by eapply entered_said.
Qed.

Lemma emit_publishing o now line origin e : orders_ok o -> says (ingest now line) CONVERSATION -> publishing e ->
  exists ev b', match origin with None => publish_buffered o now (ingest now line) (ends_buffer e) | Some origin => publish_echo o now (ingest now line) origin (ends_buffer e) end = Some (ev, b')
    /\ publishing (MkEnds (ends_session e) b').
Proof.
  intros Ho Hs He. destruct (publish_entered o now (ingest now line) origin (ends_buffer e) Ho (pb_ring _ He)) as (ev & b' & E & Hent); [by apply not_features_ok, conversation_plain|].
  exists ev, b'. split; [done|]. by eapply said_publishing.
Qed.

Lemma tags_publishing now tags e : publishing e -> publishing (set_client_tags now tags e).2.
Proof.
  intros He. pose proof He as [P1 P2 P3 P4 P5]. unfold set_client_tags. cbn zeta. destruct (match client_tags _ with Relayed => _ | Denied => _ end); [done|].
  set (s := set_features _ _). assert (Hp : publishing (MkEnds s (ends_buffer e))); [|by destruct (sess_nick s)].
  split; cbn [ends_session ends_buffer]; [by destruct P1|done|done|done|]. unfold phase in *. cbn. destruct (sess_nick (ends_session e)) as [nick|]; [|done].
  destruct (in_burst (ends_session e)); [destruct P5 as [[] ?]; by split|]. destruct P5 as [S1 S2 S3]. split; [done|done|].
  intros F Ha. destruct (S3 F Ha) as (f & -> & []). exists f. split; [done|]. by split.
Qed.

Lemma remember_publishing o mapping e : orders_ok o -> publishing e -> publishing (remember_casemapping o mapping e).
Proof.
  intros Ho He. pose proof He as [P1 P2 P3 P4 P5]. unfold remember_casemapping, phase in *. destruct (sess_nick (ends_session e)) as [nick|] eqn:En; [done|]. destruct P5 as (Hb & Hc & Hv).
  assert (Ht : tracked (set_names (with_casemapping mapping) (ends_session e))).
  { destruct P1 as [T1 T2 T3 T4]. split; [done| |done|done]. cbn. rewrite Hc. intros key c Hk. by rewrite lookup_empty in Hk. }
  split; cbn [ends_session ends_buffer]; [done|done|by apply adopt_ring_ok|done|]. unfold phase. cbn. by rewrite En.
Qed.

Lemma preload_loop_entries (P : RingEntry -> Prop) older restored b :
  Forall (fun stored => forall seq, P (RingLine (MkBuffered seq (stamp_time (upstream_line (stored_line stored)) (stored_at stored))))) older ->
  Forall P (entries b) -> forall nicks b', preload_loop older restored b = Some (nicks, b') -> Forall P (entries b').
Proof.
  intros Ho. revert restored b. induction Ho as [|stored older Hs _ IH]; intros restored b Hb nicks b'; cbn [preload_loop]; [by intros [= _ <-]|].
  destruct (checked_sub _ _) as [seq|]; [|done]. cbn [mbind option_bind]. destruct (_ <? _); [by intros [= _ <-]|]. apply IH. by constructor.
Qed.

Lemma preload_plain older b b' :
  Forall (fun stored => not_features (stamp_time (upstream_line (stored_line stored)) (stored_at stored))) older ->
  Forall plain_entry (entries b) -> preload_front older b = Some b' -> Forall plain_entry (entries b').
Proof.
  intros Ho Hb. unfold preload_front. destruct (preload_loop _ _ _) as [[restored b1]|] eqn:E; [|done]. cbn [mbind option_bind]. apply (preload_loop_entries plain_entry) in E; [by intros [= <-]; destruct restored| |done].
  apply Forall_take, Forall_forall. intros x Hx%list_elem_of_In. rewrite <- in_rev in Hx. apply list_elem_of_In, elem_of_Lfilter in Hx as [Hx _]. rewrite Forall_forall in Ho. intros seq. by apply Ho.
Qed.

Lemma preload_publishing older e :
  sess_nick (ends_session e) = None -> Forall (fun stored => not_features (stamp_time (upstream_line (stored_line stored)) (stored_at stored))) older ->
  publishing e -> exists e', publish_op (PmPreload older) e = Some e' /\ publishing e'.
Proof.
  intros En Ho [P1 P2 P3 P4 P5]. cbn. unfold on_buffer. destruct (preload_ok older (ends_buffer e) P3) as (b' & E & Hb' & _).
  { eapply Forall_impl; [exact Ho|]. intros x. apply not_features_ok. }
  rewrite E. cbn. eexists. split; [done|]. split; cbn [ends_session ends_buffer]; [done|done|done|by eapply preload_plain|]. unfold phase in *. by rewrite En in *.
Qed.

(** Entries that left the ring leave what it reads to. *)
Lemma evicted_publishing e b' gone : ring_ok b' -> moved (ends_buffer e) b' [] gone -> followed (ends_buffer e) b' gone -> publishing e -> publishing (MkEnds (ends_session e) b').
Proof.
  intros Hb' M F [P1 P2 P3 P4 P5]. split; cbn [ends_session ends_buffer]; [done|done|done|by eapply moved_plain|]. unfold phase in *.
  destruct (sess_nick (ends_session e)) as [nick|]; [|done]. destruct (in_burst (ends_session e)).
  - destruct P5 as [Hq Hb]. split; [done|]. eapply moved_begins; [done|done|]. by rewrite app_nil_r.
  - destruct P5 as [S1 S2 S3]. split; [by rewrite (fl_names _ _ _ F)|by rewrite (fl_features _ _ _ F)|].
    eapply reads_moved; [done|done|done|]. intros f G Hf Ha. inversion Ha; subst. by exists f.
Qed.

Lemma attach_publishing o now e : orders_ok o -> publishing e ->
  exists b' gone, evict_expired o now (ends_buffer e) = Some b' /\ publishing (MkEnds (ends_session e) b')
    /\ entries (ends_buffer e) = gone ++ entries b' /\ cutoff now b' = cutoff now (ends_buffer e).
Proof.
  intros Ho He. destruct (evict_ring_ok o (expired now) (ends_buffer e) Ho (pb_ring _ He) (expired_nil now)) as (b' & gone & E & Hb' & M & F & R & _).
  exists b', gone. split; [done|]. split; [by eapply evicted_publishing|]. split; [by rewrite <- (mv_entries _ _ _ _ M), app_nil_r|unfold cutoff; by rewrite R].
Qed.

Lemma publish_op_keeps op e : legal op e -> publishing e -> exists e', publish_op op e = Some e' /\ publishing e'.
Proof.
  intros Hop He. destruct op as [o nick|o now line origin|o now line|o now line origin|now tags|o mapping|older|days|o now after]; cbn [legal] in Hop.
  - by apply begin_publishing.
  - destruct Hop as (Ho & Hl & Hn). destruct (in_burst (ends_session e)) eqn:Eb; [|by apply line_steady_publishing; [|apply Hn|..]].
    pose proof (pb_phase _ He) as Hp. unfold phase in Hp. rewrite Eb in Hp. destruct (sess_nick (ends_session e)) as [nick|] eqn:En; [|by destruct Hp]. by eapply line_burst_publishing.
  - destruct Hop as [Ho Hs]. destruct (emit_publishing o now line None e Ho Hs He) as (ev & b' & E & Hp). cbn. unfold emit_line. rewrite E. by eexists.
  - destruct Hop as [Ho Hs]. destruct (emit_publishing o now line (Some origin) e Ho Hs He) as (ev & b' & E & Hp). cbn. unfold emit_echo. rewrite E. by eexists.
  - eexists. split; [done|]. by apply tags_publishing.
  - eexists. split; [done|]. by apply remember_publishing.
  - destruct Hop. by apply preload_publishing.
  - cbn. eexists. split; [done|]. destruct He as [P1 P2 [[H1 H2 H3 H4 H5 H6 H7] Hlen Hw] P4 P5]. split; [done|done|split; [by split|done|done]|done|].
    unfold phase in *. cbn [ends_session]. destruct (sess_nick (ends_session e)); [|done]. destruct (in_burst (ends_session e)); [done|]. by destruct P5 as [S1 S2 S3]; split.
  - destruct (attach_publishing o now e Hop He) as (b' & gone & E & Hp & _). cbn. unfold subscribe_with_replay_snapshot. rewrite E. by eexists.
Qed.

(** ** A client's reading *)

(** What a client reads, as the ring would: a line is mirrored, at a boundary
    the client is brought to the session begun there. *)
Definition as_entry (item : BufferedLine + IrcSessionSnapshot) : RingEntry := match item with inl line => RingLine line | inr snapshot => RingSession 0 snapshot end.

Definition client_reads (a : AttachSnapshot) (F : option IrcSessionState) : Prop :=
  advances (at_names a) (at_features a) (at_head a) (as_entry <$> weave 0 (replay_lines (at_replay a)) (boundaries (at_replay a))) F.

Definition kept_all (cutoff : option Z) (l : list RingEntry) : Prop := forall line, RingLine line ∈ l -> keeps cutoff line = true.

Lemma visible_kept cutoff l : kept_all cutoff l -> Forall2 (fun item e => forall o names features h, advance o names features (as_entry item) h = advance o names features e h) (visible cutoff l) l.
Proof.
  unfold visible. induction l as [|e l IH]; intros Hk; cbn; [constructor|]. assert (Hl : kept_all cutoff l) by (intros line Hline; apply Hk; by right).
  destruct e as [line|seq snapshot]; [rewrite (Hk line) by by left|]; cbn; constructor; auto.
Qed.

Lemma advances_same names features items l :
  Forall2 (fun item e => forall o names features h, advance o names features (as_entry item) h = advance o names features e h) items l ->
  forall h F, advances names features h (as_entry <$> items) F <-> advances names features h l F.
Proof.
  induction 1 as [|item e items l Hie _ IH]; intros h F; [done|]. rewrite fmap_cons.
  split; intros Ha; inversion Ha as [|o ? ? h1 ? ? Ho E Ha']; subst; (econstructor; [exact Ho| |by apply IH]); [by rewrite <- Hie|by rewrite Hie].
Qed.

Lemma advances_total names features h l :
  Forall entry_ok l -> isupport_ok (isupport features) -> (forall s, h = Some s -> tracked s) -> exists F, advances names features h l F.
Proof.
  intros Hl Hi. revert h. induction Hl as [|e l He _ IH]; intros h Hh; [exists h; constructor|].
  destruct (advance_tracked sample_orders names features e h sample_orders_ok He Hi Hh) as (h1 & E & Hh1). destruct (IH h1 Hh1) as [F HF]. exists F. econstructor; [exact sample_orders_ok|done|done].
Qed.

(** Only the tokens of the features are read. *)
Lemma advances_isupport names g g' l h h' F :
  Forall plain_entry l -> Forall entry_ok l -> isupport g = isupport g' -> isupport_ok (isupport g) -> option_Forall2 agrees h h' -> (forall s, h = Some s -> tracked s) ->
  advances names g h l F -> exists F', advances names g' h' l F' /\ option_Forall2 agrees F F'.
Proof.
  intros Hp Hl Hi Hok Hr Hh Ha. revert h' Hr Hh Hp Hl. induction Ha as [h|o e h h1 l F Ho E _ IH]; intros h' Hr Hh Hp Hl; [exists h'; split; [constructor|done]|].
  apply Forall_cons in Hp as [Hpe Hp], Hl as [Hle Hl]. destruct (advance_tracked o names g e h Ho Hle Hok Hh) as (h2 & E2 & Hh1). assert (h2 = h1) as -> by congruence.
  assert (Hstep : exists h1', advance o names g' e h' = Some h1' /\ option_Forall2 agrees h1 h1').
  { destruct e as [line|seq snapshot]; cbn in E |- *.
    - destruct Hr as [s t Hag|]; [|injection E as <-; by exists None; split; [|constructor]].
      destruct (observe o (bl_line line) s) as [[r s1]|] eqn:Eo; [|done]. cbn in E. injection E as <-.
      destruct (observe_agrees o o (bl_line line) s t r s1 Ho Ho Hag (Hh s eq_refl) Hpe Eo) as (r' & t1 & -> & Hag1 & _). exists (Some t1). split; [done|by constructor].
    - injection E as <-. eexists. split; [done|]. constructor. by split. }
  destruct Hstep as (h1' & E' & Hr1). destruct (IH h1' Hr1 Hh1 Hp Hl) as (F' & HF & HrF). exists F'. split; [by econstructor|done].
Qed.

Lemma replay_whole now b : ring_ok b -> weave 0 (replay_lines (replay_after now None b)) (boundaries (replay_after now None b)) = visible (cutoff now b) (entries b).
Proof.
  intros Hok. pose proof (ro_base _ Hok) as Hb. unfold replay_after. rewrite (filter_from _ (next_seq b - ring_len b)) by apply (ring_seqs _ Hb).
  replace (Z.to_nat (0 - _)) with 0%nat by (pose proof (rb_next _ Hb); pose proof (rb_cap _ Hb); pose proof (ro_len _ Hok); lia). rewrite drop_0.
  pose proof (replay_weave (cutoff now b) (entries b)) as [Hw _]. by destruct (foldl _ _ (entries b)).
Qed.

(** Everything a driver and its attached clients can do with the session. *)
Inductive published (made ordinal capacity : Z) : Ends -> Prop :=
| published_new : published made ordinal capacity (MkEnds following_channels (Buffer_new made ordinal capacity))
| published_step e op e' : published made ordinal capacity e -> legal op e -> publish_op op e = Some e' -> published made ordinal capacity e'.

Lemma published_publishing made ordinal capacity e : 0 <= capacity -> published made ordinal capacity e -> publishing e.
Proof.
  intros Hc. induction 1 as [|e op e' _ IH Hop E].
  - split; [apply following_tracked|by eexists|by apply new_ok|constructor|done].
  - destruct (publish_op_keeps op e Hop IH) as (e2 & E2 & He2). by assert (e' = e2) as -> by congruence.
Qed.

Lemma steady_reading o now e nick :
  orders_ok o -> publishing e -> sess_nick (ends_session e) = Some nick -> in_burst (ends_session e) = false -> kept_all (cutoff now (ends_buffer e)) (entries (ends_buffer e)) ->
  exists a e', subscribe_with_replay_snapshot o now None e = Some (a, e') /\ at_current a = ends_session e
    /\ (exists F, client_reads a F) /\ forall F, client_reads a F -> exists f, F = Some f /\ agrees (at_current a) f.
Proof.
  intros Ho He Hn Hb Hk. destruct (attach_publishing o now e Ho He) as (b' & gone & E & [P1 P2 P3 P4 P5] & Hgone & Hcut). unfold subscribe_with_replay_snapshot. rewrite E. cbn [mbind option_bind ends_session ends_buffer] in *.
  eexists _, _. split; [done|]. split; [done|]. unfold client_reads. cbn [at_names at_features at_head at_replay at_current]. rewrite replay_whole by done.
  assert (Hk' : kept_all (cutoff now b') (entries b')). { intros line Hline. rewrite Hcut. apply Hk. rewrite Hgone. apply elem_of_app. by right. }
  pose proof (advances_same (sess_names (ends_session e)) (sess_features (ends_session e)) _ _ (visible_kept _ _ Hk') (ring_head b')) as Hsame.
  pose proof (ro_base _ P3) as [_ _ _ _ Hhead Hlines _]. pose proof (tr_isupport _ P1) as Hi. unfold phase in P5. rewrite Hn, Hb in P5. destruct P5 as [S1 S2 S3]. split.
  - destruct (advances_total (sess_names (ends_session e)) (sess_features (ends_session e)) (ring_head b') (entries b') Hlines Hi Hhead) as [F HF]. exists F. by apply Hsame.
  - intros F HF%Hsame. destruct (advances_isupport (sess_names (ends_session e)) (sess_features (ends_session e)) (buf_features b') (entries b') (ring_head b') (ring_head b') F P4 Hlines (eq_sym S2) Hi) as (F' & HF' & Hr); [|done|done|].
    + destruct (ring_head b'); by constructor.
    + rewrite <- S1 in HF'. destruct (S3 F' HF') as (f' & -> & Hf'). inversion Hr as [f ? Hf|]; subst. exists f. split; [done|]. by etransitivity; [exact Hf'|symmetry].
Qed.

(** C10.  Let the network send 005 only while it welcomes a session and never
    a PREFIX of more symbols than modes, let what is published outside a
    session be messages, and let a stored backlog be restored, without 005
    lines, before the first session.  Then, in whatever order sessions begin
    and lines, echoes, tags and attachments follow: publishing does not fail;
    and a client that attaches outside a registration burst, while history
    retention still keeps every line held, is brought to the state the backlog
    starts in and is played all of it, boundary by boundary and line by line,
    ends in the session as it is: its nick, its channels, what is known of
    their topics and members, its names and tokens; however the maps on the
    way were iterated, and however many entries had left the ring.  Outside
    these provisos publishing can panic and the replay can end elsewhere. *)
Theorem replay_ends_live made ordinal capacity e :
  0 <= capacity -> published made ordinal capacity e ->
  (forall op, legal op e -> exists e', publish_op op e = Some e')
  /\ forall o now nick,
       orders_ok o -> sess_nick (ends_session e) = Some nick -> in_burst (ends_session e) = false -> kept_all (cutoff now (ends_buffer e)) (entries (ends_buffer e)) ->
       exists a e', subscribe_with_replay_snapshot o now None e = Some (a, e') /\ at_current a = ends_session e
         /\ (exists F, client_reads a F) /\ forall F, client_reads a F -> exists f, F = Some f /\ agrees (at_current a) f.
Proof.
  intros Hc Hp%published_publishing; [|done]. split.
  - intros op Hop. destruct (publish_op_keeps op e Hop Hp) as (e' & E & _). by exists e'.
  - intros o now nick Ho Hn Hb Hk. by eapply steady_reading.
Qed.

(** Runs checked step by step. *)
Definition plain_check (line : str) : bool := match parse line with Ok m => negb (str_eqb (to_ascii_uppercase <$> msg_command m) (bs "005")) | Err _ => true end.
Definition said_check (line : str) : bool := match parse line with Ok m => existsb (str_eqb (to_ascii_uppercase <$> msg_command m)) CONVERSATION | Err _ => true end.

Definition legal_check (op : PublishOp) (e : Ends) : bool :=
  match op with
  | PmLine _ now line _ => line_check (ingest now line) && (in_burst (ends_session e) || plain_check (ingest now line))
  | PmEmit _ now line | PmEcho _ now line _ => said_check (ingest now line)
  | PmPreload older => negb (bool_decide (is_Some (sess_nick (ends_session e))))
                       && forallb (fun stored => plain_check (stamp_time (upstream_line (stored_line stored)) (stored_at stored))) older
  | _ => true
  end.
Definition op_orders (op : PublishOp) : Prop :=
  match op with
  | PmBegin o _ | PmLine o _ _ _ | PmEmit o _ _ | PmEcho o _ _ _ | PmRemember o _ | PmAttach o _ _ => orders_ok o
  | PmTags _ _ | PmPreload _ | PmRetain _ => True
  end.

Fixpoint checked_run (ops : list PublishOp) (e : Ends) : option Ends :=
  match ops with [] => Some e | op :: ops => if legal_check op e then e ← publish_op op e; checked_run ops e else None end.

Lemma plain_checked line : plain_check line = true -> not_features line.
Proof. unfold plain_check. intros H m E H005. unfold names_features in H005. by rewrite E, H005 in H. Qed.

Lemma said_checked line : said_check line = true -> says line CONVERSATION.
Proof. unfold said_check. intros H m E. rewrite E in H. apply existsb_exists in H as (x & Hx%list_elem_of_In & ->%str_eqb_eq). done. Qed.

Lemma legal_checked op e : op_orders op -> legal_check op e = true -> legal op e.
Proof.
  destruct op as [o nick|o now line origin|o now line|o now line origin|now tags|o mapping|older|days|o now after]; cbn; intros Ho Hc; try done.
  - apply andb_true_iff in Hc as [Hl Hp]. split; [done|]. split; [by apply line_check_ok|]. intros Hb. rewrite Hb in Hp. by apply plain_checked.
  - split; [done|]. by apply said_checked.
  - split; [done|]. by apply said_checked.
  - apply andb_true_iff in Hc as [Hn Hp]. split.
    + apply negb_true_iff, bool_decide_eq_false in Hn. by apply eq_None_not_Some.
    + rewrite forallb_forall in Hp. apply Forall_forall. intros x Hx%list_elem_of_In. by apply plain_checked, Hp.
Qed.

Lemma checked_published made ordinal capacity ops e e' :
  Forall op_orders ops -> published made ordinal capacity e -> checked_run ops e = Some e' -> published made ordinal capacity e'.
Proof.
  intros Ho. revert e. induction Ho as [|op ops Hop _ IH]; intros e Hp; cbn; [by intros [= <-]|]. destruct (legal_check op e) eqn:Hc; [|done].
  destruct (publish_op op e) as [e1|] eqn:E; [|done]. cbn. apply IH. eapply published_step; [exact Hp| |exact E]. by apply legal_checked.
Qed.

(** A ring of two: by the time of the attach the session's boundary, its JOIN
    and its member list have left it. *)
Definition sample_published : list PublishOp :=
  [ PmPreload [MkStored (bs "@time=2024-01-01T00:00:00.000Z :a!u@h PRIVMSG #c :old") (bs "2024-01-01T00:00:00.000Z") (OwnNick (bs "me"))];
    PmBegin sample_orders (bs "me");
    PmLine sample_orders 0 (bs ":irc.net 005 me CASEMAPPING=ascii PREFIX=(ov)@+ CHANTYPES=# :are supported by this server") None;
    PmLine sample_orders 0 (bs ":irc.net 376 me :End of MOTD") None;
    PmLine sample_orders 0 (bs ":me!u@h JOIN #Room") None;
    PmLine sample_orders 0 (bs ":irc.net 353 me = #Room :@alice me") None;
    PmLine sample_orders 0 (bs ":irc.net 366 me #Room :End of NAMES") None;
    PmEcho sample_orders 0 (bs ":me!u@h PRIVMSG #Room :hello") 7;
    PmTags 0 Denied;
    PmLine sample_orders 0 (bs ":alice!u@h NICK :bob") None ].

Definition sample_start : Ends := MkEnds following_channels (Buffer_new 5 0 2).

Definition attachable (e : Ends) : bool := bool_decide (sess_nick (ends_session e) = Some (bs "me")) && negb (in_burst (ends_session e)) && (retention (ends_buffer e) =? 0).

Lemma sample_run_checked : attachable <$> checked_run sample_published sample_start = Some true.
Proof. vm_compute. reflexivity. Qed.

Lemma kept_without_retention now b : retention b = 0 -> kept_all (cutoff now b) (entries b).
Proof. intros E line _. unfold cutoff, retention_cutoff. by rewrite E. Qed.

Lemma replay_ends_live_witness :
  exists e, checked_run sample_published sample_start = Some e /\
  exists a e', subscribe_with_replay_snapshot sample_orders 0 None e = Some (a, e') /\ at_current a = ends_session e
    /\ (exists F, client_reads a F) /\ forall F, client_reads a F -> exists f, F = Some f /\ agrees (at_current a) f.
Proof.
  pose proof sample_run_checked as Hc. destruct (checked_run sample_published sample_start) as [e|] eqn:E; [|discriminate]. exists e. split; [reflexivity|].
  apply (inj Some) in Hc. apply andb_true_iff in Hc as [[Hn%bool_decide_eq_true Hb%negb_true_iff]%andb_true_iff Hr%Z.eqb_eq].
  destruct (replay_ends_live 5 0 2 e) as [_ H].
  - lia.
  - apply (checked_published 5 0 2 sample_published sample_start); [|apply published_new|exact E].
    unfold sample_published. repeat (apply Forall_cons; split; [first [exact I|exact sample_orders_ok]|]). apply Forall_nil_2.
  - apply (H sample_orders 0 (bs "me")); [exact sample_orders_ok|exact Hn|exact Hb|apply kept_without_retention, Hr].
Defined.

(** What the sample's attach hands out: two lines, and the state before them
    with the channel joined and its members known. *)
Example sample_attach :
  (e ← checked_run sample_published sample_start; '(a, _) ← subscribe_with_replay_snapshot sample_orders 0 None e;
   Some (length (replay_lines (at_replay a)), length (boundaries (at_replay a)), (fun s => (sess_nick s, (map_to_list (sess_channels s)).*1)) <$> at_head a))
  = Some (2%nat, 0%nat, Some (Some (bs "me"), [bs "#room"])).
Proof. vm_compute. reflexivity. Qed.
